(* ===== verification/_CoqProject ===== *)
-Q . S2P
Prelude.v
JsMap.v
JsString.v
Cbor.v
Framing.v
OrchTypes.v
Tasks.v
TasksProps.v
Scheduler.v
SchedulerProps.v
Capabilities.v
Policy.v
PolicyProps.v
Interaction.v
InteractionProps.v
Presentation.v
RulesStore.v
PermController.v
PermControllerProps.v
Destructive.v
Ownership.v
OwnershipProps.v
VerifyTypes.v
Regex.v
Json.v
VerifyPolicy.v
Failures.v
ModelCall.v
Verifier.v
Evidence.v
ChildData.v
ChildEvents.v
ChildRunner.v
ChildRunnerProps.v
GoalData.v
GoalPrompt.v
GoalManager.v
GoalProps.v
GoalLifecycle.v
GoalLiveness.v
VerifyManager.v
VerifyManagerProps.v
VerifyShown.v
OrchManager.v
OrchManagerProps.v
OrchView.v
OrchLifecycle.v
JsonTexts.v
AgentData.v
SessionState.v
SessionQueries.v
Session.v
SessionJobs.v
ToolExecution.v
ToolRuns.v
LaneReducer.v
LaneReducerProps.v
LaneRecovery.v
JsonlCodec.v
JsonlStorage.v
JsonlProps.v
Retry.v
Generation.v
GenerationProps.v
GenerationRuns.v
OperationBoundary.v
GenerationSample.v
AgentLoop.v
AgentTools.v
AgentLoopProps.v
AgentLoopEnds.v
Agent.v
EventStream.v
AgentSample.v
Truncate.v
EditDiff.v
EditProps.v
FileQueue.v
FileTools.v
Images.v
