(* ===== verification/Prelude.v ===== *)
(** * Verification development for Aira

    Aira is a coding agent: a TypeScript monorepo ([src/packages]) with a wire protocol,
    an agent core, a terminal interface and, under
    [src/packages/coding-agent/src/aira] (written [aira/] below), the native runtime that
    owns tasks, delegation, permissions, questions to the user, workspace ownership and
    goals.  Below it, [src/packages/agent] (written [agent/] below) runs the turns of the
    model and keeps durable sessions.  This library models the protocol codec, the
    deterministic core of that runtime, the agent and its sessions as Rocq definitions that
    follow the source function by function, and proves what makes them correct.

    ** How the program's parts interact

    The model's tool calls pass one boundary.  It asks, in order, the mode
    ([aira/modes.ts], PLAN blocks what mutates), the workspace ownership guard
    ([aira/workspace/ownership.ts]) and the permission controller
    ([aira/permissions/controller.ts]).  The controller evaluates the policy
    ([aira/permissions/policy.ts]) over the classes of [aira/capabilities.ts]; when the
    policy asks, it opens a question in the interaction manager
    ([aira/interaction/manager.ts]) and, after a standing approval, writes a rule to its
    store ([aira/permissions/rules-store.ts]).  Delegated work is planned by the scheduler
    ([aira/orchestration/scheduler.ts]) and its children appear as rows of the session task
    graph ([aira/tasks/]), which is persisted per session.  Clients of a remote session
    exchange CBOR payloads in length-prefixed frames ([src/packages/protocol]).  The goal
    manager ([aira/goal/]) coordinates: it owns one objective per session, asks the verifier
    for a verdict at the end of every run of the agent, sends a bounded repair directive
    after a FAIL, and watches the task graph and the questions to the user.

    ** Files

    Foundations: [Prelude] (results, state-and-error handlers, list and sorting lemmas, the
    automation, field updates), [JsMap] (insertion-ordered maps), [JsString] (UTF-16
    strings, the Encoding API, trimming and bounding; doubles as far as the codec observes
    them).

    - [Cbor]: [protocol/src/cbor/].  [encode], [decode] and the growable byte writer.
      [cbor_roundtrip], [cbor_decode_bounded], [cbor_cycle_rejected], [cbor_terminates],
      [writer_refines].
    - [Framing]: [protocol/src/framing.ts].  The incremental decoder refines the
      specification that reads the concatenated input ([push_refines]).
    - [OrchTypes]: the shared types of [aira/orchestration/types.ts].
    - [Tasks], [TasksProps]: [aira/tasks/].  The manager with every operation, the derived
      "blocked" status, eviction, and persistence: invariant, forward-only lifecycle,
      recovery after a restart, errors of a refused patch.
    - [Scheduler], [SchedulerProps]: validation of a batch and its run as a transition
      system in which every callback and promise continuation is a step: validation decides
      the specification, dependencies are respected, every run settles, and how far the
      concurrency limit really holds.
    - [Capabilities], [Policy], [PolicyProps]: classification tables, PLAN, risk markers,
      wildcards, rule choice, the decision table, path scope.
    - [Interaction], [InteractionProps]: the one pending question and its resolutions.
    - [Presentation]: the permission card.  [RulesStore]: the store interface
      ([RuleStore], [RuleStoreLaws]) and the JSON file that implements it.
    - [PermController], [PermControllerProps]: the controller over any store; [gate] is
      split at its [await].
    - [Destructive], [Ownership], [OwnershipProps]: the destructive-command recognizer and
      the ownership tracker, whose asynchronous captures and classifications are jobs of
      the state; a log of what was asked, captured and compared says why a grant is given.
    - [VerifyTypes], [VerifyPolicy], [Failures]: [aira/verification/]'s verdict, result and
      settings; which changes need a verification and how a verdict is normalized; the
      failure text with its secrets masked.
    - [Json], [ModelCall], [Verifier]: the values of JSON (a number is kept
      as its text) with printer and parser, one call of a model with its deadline and abort
      signal, and the verifier that asks for a verdict, repairs a malformed answer once and
      reads the verdict back.
    - [Evidence]: the evidence of a verification, its redaction, its budget and the envelope
      that frames it as data.
    - [VerifyManager], [VerifyManagerProps], [VerifyShown]: the verification manager.  Every
      verification ends, a PASS that is shown was said by the model for this run, and which
      later edits are noticed.
    - [ChildData], [ChildEvents], [ChildRunner], [ChildRunnerProps]: the
      delegated child of [aira/orchestration/]: its roles, settings and status, the bounded
      buffer of its events, the envelope of its task and result, and the runner: a child acts
      within its tool calls, its time and its abort signal.
    - [OrchManager], [OrchManagerProps], [OrchView], [OrchLifecycle]:
      [aira/orchestration/manager.ts] over the scheduler of [Scheduler], whose
      steps interleave with the calls of the manager.  The history is bounded, the snapshot
      counts the runs, children are contained; over the reachable states in which run ids are
      fresh ([lives]) every batch settles, none of its runs is left hanging and a cancelled
      batch reaches every child that runs.
    - [Regex]: regular expressions as syntax, with a matcher proved to decide their meaning.
    - [GoalData], [GoalPrompt]: lifecycle table, progress, usage, budgets
      and settings; the promotion decision; the repair directive, the file of a goal and the
      reports.
    - [GoalManager]: [aira/goal/manager.ts].  The goal objects live in a store, because a
      continuation of an [await] may hold an object that is no longer the goal.
      [GoalProps] runs it on small sessions (Module [GoalSample]) and states what each operation keeps, for
      every relation that is checked at the moves of the lifecycle only.  [GoalLifecycle]:
      the table, the authority of the verifier, the bound on autonomous rounds.
      [GoalLiveness]: a stop is effective, a restart pauses, a verifying goal is never
      stuck, and the surprises.

    The agent and its sessions:

    - [AgentLoop]: programs that change a state, reject or run out of fuel, with the rules
      of their weakest preconditions (Module [Program]), and [agent/src/agent-loop.ts] as
      such a program over an environment that may answer anything.
      [AgentTools], [AgentLoopProps]: a run is read as a list of turns, from which the
      theorems about events, results, queues, requests and admission follow.
      [AgentLoopEnds]: runs end in a finite world, and what every callback keeps, a run
      keeps (Module [AgentInvariant]).
    - [Agent], [AgentSample]: [agent/src/agent.ts] as the environment of the
      loop: the transcript is what the listeners were told, and a run that returns loses or
      reorders no message of the queues.
    - [EventStream]: [ai/src/utils/event-stream.ts], a stream refines a queue with an end.
    - [JsonTexts]: a JSON text is no proper prefix of another, and the
      numbers a printed text reads back to.
    - [AgentData]: messages, entries and lane records.  [SessionState],
      [SessionQueries]: the state a log reduces to and the storage in
      memory, its queries and forks.  [Session], [SessionJobs]: the session over a storage,
      whose mutations run one after another; its jobs keep a well-formed log.
    - [ToolExecution], [ToolRuns]: durable tool
      executions as processes that a crash drops: effects follow stored intents, and one that
      must not be repeated is not.
    - [LaneReducer], [LaneReducerProps], [LaneRecovery]: the validation
      of a lane's log and the state recovery derives from it, which agrees with the session.
    - [JsonlCodec], [JsonlStorage], [JsonlProps]: the
      file of a session: lines round trip, the file refines the memory, a crash tears at
      most the last line, forks are published whole.
    - [Retry], [Generation], [GenerationProps], [GenerationRuns]: the
      retries of one call and durable generations: calls of the provider are counted,
      retries stay within their budget, a response settles its generation.
      [OperationBoundary], [GenerationSample]: what an operation looks like
      from its log, and that a recovered generation runs.
    - [Truncate]: [agent/src/harness/utils/truncate.ts], the longest part of a text within a
      number of lines and bytes.
    - [EditDiff], [EditProps]: the edits of [agent/src/harness/tools/edit-diff.ts]: exact ones
      replace what they name, fuzzy ones keep the lines that no match meets, and the order of
      edits that are found exactly does not matter.
    - [FileQueue]: [file-mutation-queue.ts] as a transition system: mutations of one file never
      overlap and none is lost, and none waits for ever.
    - [FileTools], [Images]: the handlers of the edit, write and read tools, the difference
      that is shown, the resolution of paths, the formats of images and Base64.

    ** Conventions

    A method is a function from the object's state (a record with the source's field names)
    to the state and the result.  A method that may fail midway keeps the state reached so
    far ([stres]).  Clocks, random ids, settings, file contents and snapshots are arguments
    of the call that reads them.  An [await] splits a method: the state holds the waiting
    call, and the arrival of what it waits for is a step of its own, so that theorems over
    reachable states quantify over every interleaving.  Listener and promise callbacks are
    logs in the state; a callback does not call back into its caller.  A field commented
    "history" is read by nothing and only serves the statements.  Numbers of the program
    that are times, counts and sizes are integers ([Z]); the codec keeps doubles apart.

    Fuel: the CBOR decoder and encoder take the nesting limit and the size of the input,
    the cycle search the number of tasks, the word splitter the length of the text; each
    is shown or stated next to the definition to be enough.  The matcher of [Regex] takes
    the length of the text for each star, which [matches_complete] shows to be enough; the
    digits of a base-36 identifier take the binary logarithm of the number.

    ** What the theorems found

    Where the code does not do what it means to, the behaviour is proved on a concrete
    session: the concurrency limit of the scheduler drifts ([concurrency_limit_exceeded]); a
    refused patch keeps its edits and can close a dependency cycle; wildcard rules miss a
    second line; approvals broaden beyond 1024 characters, change their subject on disk,
    evict deny rules and survive a switch to PLAN ([PermControllerProps]); "." among the
    targets, a second command and a truncated baseline defeat the ownership guard
    ([OwnershipProps]); a goal that is new completes on any old PASS of the session, a PASS
    that arrives after a stop is lost with an exception, [/goal cancel] throws on a goal that
    ended at a bound, [/goal resume] continues in PLAN, an old boundary overwrites the file of
    the next goal, and a rejected verification leaves a goal verifying ([GoalLiveness]); short
    objectives are never promoted, whatever they say ([GoalData]).  A verification
    that is running misses an edit made while its evidence is collected and a failed one
    hides the drift of the workspace ([VerifyShown]); a fenced example in the answer wins over
    the verdict ([Verifier]); a requirement with an unknown status vanishes and a request
    that mentions documentation skips the verification ([VerifyPolicy]); bearer tokens survive
    the masking ([Failures]).  An empty JSON object completes a child ([ChildRunnerProps]);
    the history evicts a run that is still active, a cancel by task misses a queued run, and
    the time of a batch outlives its work ([OrchView]).

    Of the agent: a message that steers is lost when [prepareNextTurn] rejects after it was
    polled ([AgentSample]), and the stream of [agentLoop] never ends when its run rejects
    ([EventStream]).  Of the sessions: an unsafe tool is called again once it stored a
    checkpoint ([ToolRuns], [GenerationSample]), sessions accept logs that recovery
    refuses ([LaneRecovery]), a deferred response loses its handle, a settled generation
    can call again, and the delay of a durable retry ignores its cap ([GenerationSample]).
    Of the edit tool: a blank last line without a break refuses every fuzzy edit, a text that
    stands once is refused for another that is alike, a fuzzy match may start inside a word,
    occurrences that overlap count once, the order of blank old texts shows ([EditProps]), and line endings of both kinds are
    made alike ([FileTools]).

    ** Not modelled

    The terminal interface, the providers of language models, extensions, the command line
    and server front ends, browser and process control and the language intelligence are
    input and output, generated tables or large parts that these components only call.  Of
    the agent package the harness (whose operations mostly throw that they are not
    implemented), compaction, skills, prompt templates, telemetry, the shell tool and the
    repository of session files are not modelled, nor the arguments of older models that the
    edit tool rewrites.

    The clock is constant during a synchronous step
    and at most the largest date of the language; file times and durations are whole
    milliseconds; a persisted file is either what was written or no goal file; listeners
    receive snapshots and call nothing back, but those of the agent, which may call its
    queues, its setters and [abort]; the random identifiers of runs are fresh where a
    statement says so.  The redaction of secrets is an argument of [Presentation]; the chain
    of expressions it stands for is in [Evidence].  In the sessions the validation of tool
    arguments, deep equality, the identifiers of records and the ends of file operations are
    arguments; every typed value has a JSON form; costs are doubles that are kept and not
    added; the text of a corruption is left out; files are texts, so that a tear inside a
    character is not told apart.  In the agent the listeners do not throw, the array
    of a context is changed by the loop only, and the configuration that is only passed on
    to the provider is left out. *)
From Stdlib Require Export ZArith Lia.
From stdpp Require Export prelude gmap strings sorting.

#[global] Open Scope Z_scope.

(** ** Arithmetic automation

    [lia] is asked to eliminate [/] and [mod] by constants everywhere. *)
Ltac Zify.zify_post_hook ::= Z.to_euclidean_division_equations.

(** ** Fallible computations

    A TypeScript function that throws is a function into [result E A]:
    [Ok a] is a normal return and [Err e] a throw (or an [{ ok: false }]
    answer where the source returns one). *)
Inductive result (E A : Type) : Type :=
| Ok (a : A)
| Err (e : E).
Arguments Ok {E A} a.
Arguments Err {E A} e.

Declare Scope js_scope.
Delimit Scope js_scope with js.

Definition rbind {E A B} (m : result E A) (f : A → result E B) : result E B :=
  match m with
  | Ok a => f a
  | Err e => Err e
  end.

Notation "'let*' x := m 'in' k" := (rbind m (λ x, k))
  (at level 10, x pattern, m at level 100, k at level 200)
  : js_scope.
#[global] Open Scope js_scope.

Definition guard_err {E} (c : bool) (e : E) : result E () :=
  if c then Err e else Ok ().

Section Result.
Context {E : Type}.

(** [for (const x of l) acc = f(acc, x)] where the body may throw. *)
Fixpoint foldM {A B} (f : B → A → result E B) (b : B) (l : list A) : result E B :=
  match l with
  | [] => Ok b
  | x :: l' => rbind (f b x) (λ b', foldM f b' l')
  end.

Lemma rbind_Ok {A B} (m : result E A) (f : A → result E B) b :
  rbind m f = Ok b ↔ ∃ a, m = Ok a ∧ f a = Ok b.
Proof. destruct m; simpl; split; [eauto | by intros (? & [= <-] & ?) | done | by intros (? & ? & ?)]. Qed.

Lemma rbind_assoc {A B C} (m : result E A) (f : A → result E B) (g : B → result E C) :
  rbind (rbind m f) g = rbind m (λ a, rbind (f a) g).
Proof. by destruct m. Qed.

Lemma guard_err_Ok (c : bool) (e : E) u : guard_err c e = Ok u ↔ c = false.
Proof. by destruct c, u. Qed.

Lemma foldM_app {A B} (f : B → A → result E B) b l1 l2 :
  foldM f b (l1 ++ l2) = rbind (foldM f b l1) (λ b', foldM f b' l2).
Proof.
  revert b; induction l1 as [|x l1 IH]; intros b; simpl; [done|].
  rewrite rbind_assoc. by destruct (f b x); simpl.
Qed.
End Result.

(** ** Handlers that mutate before they fail

    A method that mutates its object step by step and may return an error midway
    is a function into [stres S E A]: the state reached so far is kept, also by an
    error.  The notations are stdpp's: [x ← m; k] and [m ;; k]. *)
Definition stres (S E A : Type) : Type := S → S * result E A.

#[export] Instance stres_ret {S E} : MRet (stres S E) := λ A a s, (s, Ok a).
#[export] Instance stres_bind {S E} : MBind (stres S E) := λ A B f m s,
  match m s with
  | (s', Ok a) => f a s'
  | (s', Err e) => (s', Err e)
  end.

Definition throw {S E A} (e : E) : stres S E A := λ s, (s, Err e).
Definition get {S E} : stres S E S := λ s, (s, Ok s).
Definition modify {S E} (f : S → S) : stres S E () := λ s, (f s, Ok ()).
(** [if (c) return { ok: false, message }] *)
Definition fail_if {S E} (c : bool) (e : E) : stres S E () := if c then throw e else mret ().

Lemma stres_bind_eq {S E A B} (m : stres S E A) (f : A → stres S E B) s :
  (m ≫= f) s = match m s with (s', Ok a) => f a s' | (s', Err e) => (s', Err e) end.
Proof. done. Qed.

(** [exec H] runs a handler symbolically in [H : handler s = (s', r)], splitting on
    every guard it meets. *)
Ltac exec_in H :=
  repeat (cbn [mbind mret stres_bind stres_ret get modify throw fail_if] in H;
          unfold mbind, mret, stres_bind, stres_ret, get, modify, throw, fail_if in H; cbv beta iota zeta in H);
  repeat match type of H with
  | context [if ?c then _ else _] => destruct c eqn:?; cbv beta iota zeta in H
  end.

(** [inv_ok] splits every hypothesis saying that a sequence of fallible steps
    returned normally into the individual steps. *)
Ltac inv_ok :=
  repeat match goal with
  | H : Ok _ = Ok _ |- _ => injection H as H; try subst
  | H : Err _ = Ok _ |- _ => discriminate H
  | H : Ok _ = Err _ |- _ => discriminate H
  | H : rbind _ _ = Ok _ |- _ =>
      apply rbind_Ok in H; destruct H as (? & ? & ?)
  | H : guard_err _ _ = Ok _ |- _ => apply guard_err_Ok in H
  end.

(** Case split on the condition of every [if] of a hypothesis or the goal. *)
Ltac split_if :=
  match goal with
  | |- context [if ?c then _ else _] => destruct c eqn:?
  | H : context [if ?c then _ else _] |- _ => destruct c eqn:?
  end.

(** Turn boolean tests into propositions. *)
Ltac bool_prop :=
  repeat match goal with
  | H : (_ && _)%bool = true |- _ => apply andb_true_iff in H; destruct H
  | H : (_ || _)%bool = false |- _ => apply orb_false_iff in H; destruct H
  | H : negb _ = true |- _ => apply negb_true_iff in H
  | H : negb _ = false |- _ => apply negb_false_iff in H
  | H : bool_decide _ = true |- _ => apply bool_decide_eq_true in H
  | H : bool_decide _ = false |- _ => apply bool_decide_eq_false in H
  | H : (_ <? _) = true |- _ => apply Z.ltb_lt in H
  | H : (_ <? _) = false |- _ => apply Z.ltb_ge in H
  | H : (_ <=? _) = true |- _ => apply Z.leb_le in H
  | H : (_ <=? _) = false |- _ => apply Z.leb_gt in H
  | H : (_ =? _) = true |- _ => apply Z.eqb_eq in H
  | H : (_ =? _) = false |- _ => apply Z.eqb_neq in H
  end.

(** Lengths as JavaScript numbers. *)
Definition zlen {A} (l : list A) : Z := Z.of_nat (length l).

Section Zlen.
Context {A : Type}.
Implicit Types l : list A.

Lemma zlen_nil : zlen (@nil A) = 0.
Proof. done. Qed.
Lemma zlen_cons x l : zlen (x :: l) = 1 + zlen l.
Proof. unfold zlen; simpl; lia. Qed.
Lemma zlen_app l k : zlen (l ++ k) = zlen l + zlen k.
Proof. unfold zlen; rewrite length_app; lia. Qed.
Lemma zlen_nonneg l : 0 <= zlen l.
Proof. unfold zlen; lia. Qed.
Lemma zlen_0 l : zlen l = 0 → l = [].
Proof. destruct l; [done|]. rewrite zlen_cons. pose proof (zlen_nonneg l). lia. Qed.
Lemma zlen_take (n : nat) l : zlen (take n l) = Z.min (Z.of_nat n) (zlen l).
Proof. unfold zlen. rewrite length_take. lia. Qed.
Lemma zlen_drop (n : nat) l : zlen (drop n l) = Z.max 0 (zlen l - Z.of_nat n).
Proof. unfold zlen. rewrite length_drop. lia. Qed.
Lemma zlen_filter_le (P : A → Prop) `{∀ x, Decision (P x)} l : zlen (filter P l) <= zlen l.
Proof. unfold zlen. pose proof (length_filter P l). lia. Qed.
End Zlen.

(** ** Lists *)

Lemma Forall_sublist {A} (P : A → Prop) l1 l2 : l1 `sublist_of` l2 → Forall P l2 → Forall P l1.
Proof. intros Hs H. apply Forall_forall. intros x Hx. eapply Forall_forall; [exact H|]. by eapply elem_of_sublist. Qed.

Lemma filter_all {A} (P : A → Prop) `{∀ x, Decision (P x)} l : Forall P l → filter P l = l.
Proof. induction 1 as [|x l Hx Hl IH]; [done|]. rewrite filter_cons_True by done. by f_equal. Qed.

(** ** Stable sorting

    [Array.prototype.sort] with a comparator is a stable sort; [le a b] stands for
    [compare(a, b) <= 0]. *)
Section Sort.
Context {A : Type} (le : A → A → bool).

Fixpoint insert_by (x : A) (l : list A) : list A :=
  match l with
  | [] => [x]
  | y :: l' => if le x y then x :: l else y :: insert_by x l'
  end.

Definition sort_by (l : list A) : list A := foldr insert_by [] l.

Lemma insert_by_perm x l : insert_by x l ≡ₚ x :: l.
Proof. induction l as [|y l IH]; cbn; [done|]. case_match; [done|]. rewrite IH. constructor. Qed.

Lemma sort_by_perm l : sort_by l ≡ₚ l.
Proof. induction l as [|x l IH]; cbn; [done|]. by rewrite insert_by_perm, IH. Qed.

Lemma elem_sort_by x l : x ∈ sort_by l ↔ x ∈ l.
Proof. by rewrite (sort_by_perm l). Qed.

Lemma zlen_sort_by l : zlen (sort_by l) = zlen l.
Proof. unfold zlen. by rewrite (sort_by_perm l). Qed.

Lemma insert_by_sorted x l :
  (∀ a b, le a b = false → le b a = true) →
  Sorted (λ a b, le a b = true) l → Sorted (λ a b, le a b = true) (insert_by x l).
Proof.
  intros Htot. induction 1 as [|y l Hs IH Hhd]; cbn; [by repeat constructor|].
  destruct (le x y) eqn:E; [by repeat constructor|]. constructor; [done|].
  destruct l as [|z l]; cbn; [by constructor; apply Htot|]. inversion Hhd; subst.
  case_match; constructor; auto.
Qed.

Lemma sort_by_sorted l :
  (∀ a b, le a b = false → le b a = true) → Sorted (λ a b, le a b = true) (sort_by l).
Proof. intros Htot. induction l as [|x l IH]; cbn; [constructor|]. by apply insert_by_sorted. Qed.
End Sort.

Create HintDb js.
Create Rewrite HintDb js.
#[export] Hint Rewrite @zlen_nil @zlen_cons @zlen_app : js.
#[export] Hint Resolve zlen_nonneg : js.

(** * Field updates

    [r <| f := v |>] for the assignments [r.f = v] to the mutable objects of the source.
    A record type says once how it is built from its fields; the update of a field is
    then found by abstracting that field. *)

(** A record is its constructor applied to its own fields. *)
Class Rebuild (R : Type) := rebuild : R → R.
Class Update {R T : Type} (f : R → T) := update_with : (T → T) → R → R.
#[global] Arguments update_with {R T} f {_} _ _.

Ltac derive_update :=
  match goal with
  | |- @Update ?R ?T ?f =>
      let inst := constr:(_ : Rebuild R) in
      let body := eval red in inst in
      match eval pattern f in body with
      | ?k ?f' => let r := eval cbv beta in (λ (h : T → T), k (λ x : R, h (f x))) in exact r
      end
  end.
#[export] Hint Extern 1 (Update _) => derive_update : typeclass_instances.

Declare Scope record_scope.
Delimit Scope record_scope with rec.
Notation "r <| f := v |>" := (update_with f (λ _, v) r) (at level 12, left associativity, format "r  <| f  :=  v |>") : record_scope.
#[global] Open Scope record_scope.
