(* ===== verification/JsMap.v ===== *)
(** * JavaScript [Map] and ordered objects

    A JavaScript [Map] iterates in insertion order, and several components rely
    on it (task listing, eviction, classification).  It is an association list
    whose keys are distinct: [set] on a present key keeps its position, on an
    absent key appends. *)
From S2P Require Import Prelude.

Section JsMap.
Context {K V : Type} `{EqDecision K}.
Implicit Types (m : list (K * V)) (k : K) (v : V).

Fixpoint mget (k : K) (m : list (K * V)) : option V :=
  match m with
  | [] => None
  | (k', v) :: m' => if decide (k = k') then Some v else mget k m'
  end.

Definition mhas (k : K) (m : list (K * V)) : bool :=
  match mget k m with Some _ => true | None => false end.

Fixpoint mset (k : K) (v : V) (m : list (K * V)) : list (K * V) :=
  match m with
  | [] => [(k, v)]
  | (k', v') :: m' => if decide (k = k') then (k', v) :: m' else (k', v') :: mset k v m'
  end.

Fixpoint mdelete (k : K) (m : list (K * V)) : list (K * V) :=
  match m with
  | [] => []
  | (k', v') :: m' => if decide (k = k') then m' else (k', v') :: mdelete k m'
  end.

(** [new Map(entries)] *)
Definition mof_list (l : list (K * V)) : list (K * V) :=
  foldl (λ m kv, mset kv.1 kv.2 m) [] l.

Lemma mget_mset_eq k v m : mget k (mset k v m) = Some v.
Proof.
  induction m as [|[k' v'] m IH]; simpl; [by rewrite decide_True|].
  case_decide; simpl; [by rewrite decide_True|by rewrite decide_False].
Qed.

Lemma mget_mset_ne k k' v m : k ≠ k' → mget k (mset k' v m) = mget k m.
Proof.
  intros Hne. induction m as [|[k1 v1] m IH]; simpl; [by rewrite decide_False|].
  case_decide as E; simpl; subst; [by rewrite !decide_False by done|].
  case_decide; [done|apply IH].
Qed.

Lemma mget_mset k k' v m :
  mget k (mset k' v m) = if decide (k = k') then Some v else mget k m.
Proof. case_decide; subst; [apply mget_mset_eq|by apply mget_mset_ne]. Qed.

Lemma mget_mdelete_ne k k' m : k ≠ k' → mget k (mdelete k' m) = mget k m.
Proof.
  intros Hne. induction m as [|[k1 v1] m IH]; simpl; [done|].
  case_decide as E; simpl; subst; [by rewrite decide_False|].
  case_decide; [done|apply IH].
Qed.

Lemma mget_None k m : mget k m = None ↔ k ∉ m.*1.
Proof.
  induction m as [|[k1 v1] m IH]; simpl; [set_solver|].
  case_decide; subst; rewrite not_elem_of_cons; [|rewrite IH]; split; [done|by intros [? _]|done|by intros [_ ?]].
Qed.

Lemma mget_mdelete_eq k m : NoDup m.*1 → mget k (mdelete k m) = None.
Proof.
  induction m as [|[k1 v1] m IH]; simpl; [done|].
  rewrite NoDup_cons. intros [Hk Hm].
  case_decide; subst; [by apply mget_None|]. simpl. rewrite decide_False by done. auto.
Qed.

Lemma mget_elem k v m : mget k m = Some v → (k, v) ∈ m.
Proof.
  induction m as [|[k1 v1] m IH]; simpl; [done|].
  case_decide; [intros [= ->]; subst; by left|right; auto].
Qed.

Lemma elem_mget k v m : NoDup m.*1 → (k, v) ∈ m → mget k m = Some v.
Proof.
  induction m as [|[k1 v1] m IH]; simpl; [set_solver|].
  rewrite NoDup_cons. intros [Hk Hm] [[= -> ->]|Hin]%elem_of_cons; [by rewrite decide_True|].
  rewrite decide_False; [auto|]. intros ->. apply Hk. apply list_elem_of_fmap. by exists (k1, v).
Qed.

Lemma mset_keys_absent k v m : mget k m = None → mset k v m = m ++ [(k, v)].
Proof.
  induction m as [|[k1 v1] m IH]; simpl; [done|].
  case_decide; [done|]. intros Hk. by rewrite IH.
Qed.

Lemma mset_keys_present k v m : is_Some (mget k m) → (mset k v m).*1 = m.*1.
Proof.
  induction m as [|[k1 v1] m IH]; simpl; [by intros []|].
  case_decide; [done|]. intros Hk. by rewrite fmap_cons, IH.
Qed.

Lemma NoDup_mset k v m : NoDup m.*1 → NoDup (mset k v m).*1.
Proof.
  intros Hm. destruct (mget k m) eqn:E.
  - rewrite mset_keys_present; eauto.
  - rewrite mset_keys_absent by done. rewrite fmap_app. apply NoDup_app; split; [done|].
    split; [|apply NoDup_singleton]. simpl. intros x Hx ?%list_elem_of_singleton; subst.
    by apply mget_None in E.
Qed.

Lemma mdelete_sublist k m : mdelete k m `sublist_of` m.
Proof.
  induction m as [|[k1 v1] m IH]; simpl; [constructor|].
  case_decide; [by apply sublist_cons|by apply sublist_skip].
Qed.

Lemma NoDup_sublist_keys m1 m2 : m1 `sublist_of` m2 → NoDup m2.*1 → NoDup m1.*1.
Proof. intros Hm Hd. eapply sublist_NoDup; [done|]. by apply (fmap_sublist fst). Qed.

Lemma NoDup_mdelete k m : NoDup m.*1 → NoDup (mdelete k m).*1.
Proof. apply NoDup_sublist_keys, mdelete_sublist. Qed.

Lemma mdelete_absent k m : mget k m = None → mdelete k m = m.
Proof.
  induction m as [|[k1 v1] m IH]; simpl; [done|].
  case_decide; [done|]. intros Hk. by rewrite IH.
Qed.

Lemma elem_mdelete k x m : x ∈ mdelete k m → x ∈ m.
Proof. intros Hx. eapply elem_of_sublist; [done|apply mdelete_sublist]. Qed.

Lemma elem_mset k v x m : x ∈ mset k v m → x = (k, v) ∨ x ∈ m.
Proof.
  induction m as [|[k1 v1] m IH]; simpl; [set_solver|].
  case_decide; subst; set_solver.
Qed.

Lemma zlen_mset_le k v m : zlen (mset k v m) <= 1 + zlen m.
Proof.
  induction m as [|[k1 v1] m IH]; simpl; [done|].
  case_decide; rewrite !zlen_cons; lia.
Qed.

Lemma zlen_mdelete_present k m : is_Some (mget k m) → zlen (mdelete k m) = zlen m - 1.
Proof.
  induction m as [|[k1 v1] m IH]; simpl; [by intros []|].
  case_decide; rewrite !zlen_cons; [lia|]. intros Hk%IH. lia.
Qed.

Lemma zlen_mdelete_le k m : zlen (mdelete k m) <= zlen m.
Proof. unfold zlen. pose proof (sublist_length _ _ (mdelete_sublist k m)). lia. Qed.

Lemma mget_ext m1 m2 : m1.*1 = m2.*1 → NoDup m2.*1 → (∀ k, mget k m1 = mget k m2) → m1 = m2.
Proof.
  revert m2. induction m1 as [|[k v1] m1 IH]; intros [|[k2 v2] m2]; try done.
  rewrite !fmap_cons. cbn [fst]. intros [= <- Hk] [Hnk Hnd]%NoDup_cons Hg.
  pose proof (Hg k) as Hgk. cbn in Hgk. rewrite !decide_True in Hgk by done. injection Hgk as ->. f_equal.
  apply IH; [done|done|]. intros k'. specialize (Hg k'). cbn in Hg. case_decide; [subst|done].
  assert (mget k m2 = None) as -> by (by apply mget_None). apply mget_None. by rewrite Hk.
Qed.

(** Rewriting every value in place (the values are mutable objects). *)
Definition mmap (f : V → V) (m : list (K * V)) : list (K * V) := prod_map id f <$> m.

Lemma mmap_keys f m : (mmap f m).*1 = m.*1.
Proof.
  induction m as [|[k v] m IH]; [done|]. unfold mmap in *. rewrite !fmap_cons. by f_equal/=.
Qed.

Lemma mget_mmap f k m : mget k (mmap f m) = f <$> mget k m.
Proof. induction m as [|[k' v'] m IH]; simpl; [done|]. by case_decide. Qed.
End JsMap.

#[export] Hint Resolve NoDup_mset NoDup_mdelete : js.
