(* ===== verification/JsString.v ===== *)
(** * JavaScript strings and the Encoding API

    A JavaScript string is the list of its UTF-16 code units, so that [length],
    [slice] and [trim] mean what they mean in the source.  The file also models
    the two Encoding API objects the protocol package uses: [TextEncoder]
    (UTF-8, lone surrogates replaced by U+FFFD) and
    [TextDecoder("utf-8", { fatal: true, ignoreBOM: true })]. *)
From stdpp Require Import pretty.
From S2P Require Import Prelude.

Abbreviation jsstr := (list Z) (only parsing).
Abbreviation bytes := (list Z) (only parsing).

Definition is_unit (u : Z) : bool := (0 <=? u) && (u <? 0x10000).
Definition is_byte (b : Z) : bool := (0 <=? b) && (b <? 0x100).
Definition is_high (u : Z) : bool := (0xD800 <=? u) && (u <? 0xDC00).
Definition is_low (u : Z) : bool := (0xDC00 <=? u) && (u <? 0xE000).

(** A Unicode scalar value: a code point that is not a surrogate. *)
Definition is_scalar (c : Z) : bool :=
  ((0 <=? c) && (c <? 0xD800)) || ((0xE000 <=? c) && (c <? 0x110000)).

(** ** UTF-16 *)

(** Conversion of a JavaScript string to scalar values, as WebIDL's [USVString]
    conversion does it: a lone surrogate becomes U+FFFD. *)
Fixpoint utf16_scalars (s : jsstr) : list Z :=
  match s with
  | [] => []
  | u :: s1 =>
      if is_high u then
        match s1 with
        | v :: s2 =>
            if is_low v then
              (0x10000 + (u - 0xD800) * 0x400 + (v - 0xDC00)) :: utf16_scalars s2
            else 0xFFFD :: utf16_scalars s1
        | [] => [0xFFFD]
        end
      else if is_low u then 0xFFFD :: utf16_scalars s1
      else u :: utf16_scalars s1
  end.

(** A string all of whose surrogates are paired. *)
Fixpoint well_formed (s : jsstr) : bool :=
  match s with
  | [] => true
  | u :: s1 =>
      if is_high u then
        match s1 with
        | v :: s2 => is_low v && well_formed s2
        | [] => false
        end
      else negb (is_low u) && is_unit u && well_formed s1
  end.

Definition utf16_of_scalar (c : Z) : jsstr :=
  if c <? 0x10000 then [c]
  else [0xD800 + (c - 0x10000) / 0x400; 0xDC00 + (c - 0x10000) mod 0x400].

(** ** UTF-8 *)

Definition utf8_of_scalar (c : Z) : bytes :=
  if c <? 0x80 then [c]
  else if c <? 0x800 then [0xC0 + c / 0x40; 0x80 + c mod 0x40]
  else if c <? 0x10000 then [0xE0 + c / 0x1000; 0x80 + c / 0x40 mod 0x40; 0x80 + c mod 0x40]
  else [0xF0 + c / 0x40000; 0x80 + c / 0x1000 mod 0x40; 0x80 + c / 0x40 mod 0x40; 0x80 + c mod 0x40].

Definition is_cont (b : Z) : bool := (0x80 <=? b) && (b <? 0xC0).

Definition cons_opt {A} (x : A) (o : option (list A)) : option (list A) := cons x <$> o.

(** Strict UTF-8 decoding: overlong forms, surrogates, values above U+10FFFF and
    truncated sequences are errors. *)
Fixpoint utf8_scalars (bs : bytes) : option (list Z) :=
  match bs with
  | [] => Some []
  | b0 :: r0 =>
      if is_byte b0 && (b0 <? 0x80) then cons_opt b0 (utf8_scalars r0)
      else match r0 with
      | b1 :: r1 =>
          if (0xC2 <=? b0) && (b0 <? 0xE0) && is_cont b1 then
            cons_opt ((b0 - 0xC0) * 0x40 + (b1 - 0x80)) (utf8_scalars r1)
          else match r1 with
          | b2 :: r2 =>
              let c3 := (b0 - 0xE0) * 0x1000 + (b1 - 0x80) * 0x40 + (b2 - 0x80) in
              if (0xE0 <=? b0) && (b0 <? 0xF0) && is_cont b1 && is_cont b2
                 && (0x800 <=? c3) && is_scalar c3 then
                cons_opt c3 (utf8_scalars r2)
              else match r2 with
              | b3 :: r3 =>
                  let c4 := (b0 - 0xF0) * 0x40000 + (b1 - 0x80) * 0x1000
                            + (b2 - 0x80) * 0x40 + (b3 - 0x80) in
                  if (0xF0 <=? b0) && (b0 <? 0xF8) && is_cont b1 && is_cont b2 && is_cont b3
                     && (0x10000 <=? c4) && is_scalar c4 then
                    cons_opt c4 (utf8_scalars r3)
                  else None
              | [] => None
              end
          | [] => None
          end
      | [] => None
      end
  end.

(** [new TextEncoder().encode(s)] *)
Definition textEncode (s : jsstr) : bytes := utf16_scalars s ≫= utf8_of_scalar.

(** [new TextDecoder("utf-8", { fatal: true, ignoreBOM: true }).decode(bs)];
    [None] is the [TypeError] of the fatal mode. *)
Definition textDecode (bs : bytes) : option jsstr := (λ cs, cs ≫= utf16_of_scalar) <$> utf8_scalars bs.

(** A string literal of the source. *)
Definition js (s : string) : jsstr :=
  default [] (textDecode ((λ a, Z.of_N (Ascii.N_of_ascii a)) <$> String.list_ascii_of_string s)).

(** [String(n)] for an integer [n]. *)
Definition num_str (n : Z) : jsstr := js (pretty n).

#[global] Arguments js : simpl never.
#[global] Arguments num_str : simpl never.
#[global] Arguments textDecode : simpl never.
#[global] Arguments textEncode : simpl never.

(** ** String methods *)

(** White space and line terminators of [trim] and of [\s]. *)
Definition is_ws (u : Z) : bool :=
  bool_decide (u ∈ [9; 10; 11; 12; 13; 32; 0xA0; 0x1680; 0x2028; 0x2029; 0x202F; 0x205F; 0x3000; 0xFEFF])
  || ((0x2000 <=? u) && (u <=? 0x200A)).

Fixpoint trimStart (s : jsstr) : jsstr :=
  match s with
  | [] => []
  | u :: s' => if is_ws u then trimStart s' else s
  end.

Definition trim (s : jsstr) : jsstr := rev (trimStart (rev (trimStart s))).

(** [s.slice(0, n)] for [n >= 0], and [s.slice(n)]. *)
Definition slice0 (n : Z) (s : jsstr) : jsstr := take (Z.to_nat n) s.
Definition slice_from (n : Z) (s : jsstr) : jsstr := drop (Z.to_nat n) s.

Fixpoint startsWith (p s : jsstr) : bool :=
  match p, s with
  | [], _ => true
  | a :: p', b :: s' => (a =? b) && startsWith p' s'
  | _ :: _, [] => false
  end.

Fixpoint includes (p s : jsstr) : bool :=
  startsWith p s || match s with [] => false | _ :: s' => includes p s' end.

(** [xs.join(sep)] *)
Fixpoint join (sep : jsstr) (l : list jsstr) : jsstr :=
  match l with
  | [] => []
  | [x] => x
  | x :: l' => x ++ sep ++ join sep l'
  end.

(** [s] between double quotes, as the messages of the source quote identifiers. *)
Definition quoted (s : jsstr) : jsstr := [34] ++ s ++ [34].

Definition str_eqb (a b : jsstr) : bool := bool_decide (a = b).

Definition ellipsis : Z := 0x2026.

(** The bounding idiom of the host:
    [text.length <= n ? text : `${text.slice(0, n - 1)}…`]. *)
Definition bound_text (n : Z) (s : jsstr) : jsstr :=
  if zlen s <=? n then s else slice0 (n - 1) s ++ [ellipsis].

(** [n.toString(36)] for [n >= 0]; [fuel] digits are enough for [n < 36 ^ fuel]. *)
Definition digit36 (d : Z) : Z := if d <? 10 then 48 + d else 87 + d.
Fixpoint radix36_digits (fuel : nat) (n : Z) (acc : jsstr) : jsstr :=
  match fuel with
  | O => acc
  | S fuel => if n <? 36 then digit36 n :: acc else radix36_digits fuel (n / 36) (digit36 (n mod 36) :: acc)
  end.
Definition radix36 (n : Z) : jsstr := radix36_digits (Z.to_nat (1 + Z.log2 n)) n [].

(** [a < b]: by the first UTF-16 unit that differs. *)
Fixpoint str_ltb (a b : jsstr) : bool :=
  match a, b with
  | _, [] => false
  | [], _ :: _ => true
  | u :: a', v :: b' => (u <? v) || ((u =? v) && str_ltb a' b')
  end.

(** ** Round trip of the Encoding API *)

Lemma utf8_scalar_roundtrip c rest :
  is_scalar c = true →
  utf8_scalars (utf8_of_scalar c ++ rest) = cons_opt c (utf8_scalars rest).
Proof.
  intros Hc. unfold utf8_of_scalar.
  assert (0 <= c < 0xD800 ∨ 0xE000 <= c < 0x110000) as Hr
    by (unfold is_scalar in Hc; lia).
  repeat case_match; bool_prop; cbn [app utf8_scalars].
  - replace (is_byte c && (c <? 128)) with true by (unfold is_byte; lia). done.
  - replace (is_byte (0xC0 + c / 0x40) && (0xC0 + c / 0x40 <? 128)) with false by (unfold is_byte; lia).
    rewrite (proj2 (andb_true_iff _ _)); [|unfold is_cont; lia].
    f_equal. lia.
  - replace (is_byte _ && (_ <? 128)) with false by (unfold is_byte; lia).
    replace (_ && is_cont _) with false at 1 by lia.
    replace ((_ - 0xE0) * _ + _ + _) with c by lia.
    replace (_ && is_scalar c) with true; [done|].
    symmetry. rewrite Hc, andb_true_r. unfold is_cont. lia.
  - replace (is_byte _ && (_ <? 128)) with false by (unfold is_byte; lia).
    replace (_ && is_cont _) with false at 1 by lia.
    match goal with |- context [if ?b then _ else _] => replace b with false by lia end.
    replace ((_ - 0xF0) * _ + _ + _ + _) with c by lia.
    replace (_ && is_scalar c) with true; [done|].
    symmetry. rewrite Hc, andb_true_r. unfold is_cont. lia.
Qed.

Lemma utf8_roundtrip cs :
  Forall (λ c, is_scalar c = true) cs → utf8_scalars (cs ≫= utf8_of_scalar) = Some cs.
Proof.
  induction 1 as [|c cs Hc _ IH]; [done|].
  cbn [mbind list_bind]. rewrite utf8_scalar_roundtrip by done. by rewrite IH.
Qed.

Lemma utf16_of_pair u v :
  is_high u = true → is_low v = true →
  let c := 0x10000 + (u - 0xD800) * 0x400 + (v - 0xDC00) in
  is_scalar c = true ∧ utf16_of_scalar c = [u; v].
Proof.
  unfold is_high, is_low, is_scalar, utf16_of_scalar. intros; simpl.
  split; [lia|]. case_match; [lia|]. repeat f_equal; lia.
Qed.

Lemma utf16_of_unit u : is_unit u = true → utf16_of_scalar u = [u].
Proof. unfold is_unit, utf16_of_scalar. intros. by case_match; [|lia]. Qed.

(** Induction over a string that may consume two units at once. *)
Lemma str_ind2 (P : jsstr → Prop) :
  P [] → (∀ u s, P s → (∀ v s', s = v :: s' → P s') → P (u :: s)) → ∀ s, P s.
Proof.
  intros H0 H1 s. enough (P s ∧ ∀ v s', s = v :: s' → P s') by tauto.
  induction s as [|u s [IH1 IH2]]; split; [done|done|by apply H1|by intros ?? [= <- <-]].
Qed.

Lemma utf16_roundtrip s :
  well_formed s = true →
  Forall (λ c, is_scalar c = true) (utf16_scalars s) ∧ utf16_scalars s ≫= utf16_of_scalar = s.
Proof.
  induction s as [|u s IH1 IH2] using str_ind2; [done|].
  cbn [well_formed utf16_scalars].
  destruct (is_high u) eqn:Hu.
  - destruct s as [|v s']; [done|]. intros [Hv Hw]%andb_true_iff. rewrite Hv.
    destruct (IH2 v s' eq_refl Hw) as [IHf IHe].
    destruct (utf16_of_pair u v Hu Hv) as [Hs He]; simpl in *.
    split; [by constructor|]. cbv iota. etransitivity; [apply f_equal2; [exact He|exact IHe]|done].
  - intros [[Hl Hn]%andb_true_iff Hw]%andb_true_iff. apply negb_true_iff in Hl. rewrite Hl.
    destruct (IH1 Hw) as [IHf IHe].
    split; [constructor; [unfold is_scalar, is_high, is_low, is_unit in *; lia|done]|].
    cbv iota. etransitivity; [apply (f_equal2 app); [by apply utf16_of_unit|exact IHe]|done].
Qed.

(** Encoding a well-formed string and decoding the bytes gives it back. *)
Lemma text_roundtrip s : well_formed s = true → textDecode (textEncode s) = Some s.
Proof.
  intros [Hf He]%utf16_roundtrip. unfold textDecode, textEncode.
  rewrite utf8_roundtrip by done. simpl. by rewrite He.
Qed.

(** Every byte the encoder produces from UTF-16 units is a byte. *)
Lemma utf16_scalars_range s :
  Forall (λ u, is_unit u = true) s → Forall (λ c, is_scalar c = true) (utf16_scalars s).
Proof.
  induction s as [|u s IH1 IH2] using str_ind2; simpl; [done|].
  rewrite Forall_cons. intros [Hu Hs]. destruct (is_high u) eqn:Hh.
  - destruct s as [|v s']; [by repeat constructor|]. destruct (is_low v) eqn:Hv.
    + constructor; [by apply utf16_of_pair|]. eapply IH2; [done|]. by inversion Hs.
    + constructor; [done|auto].
  - destruct (is_low u) eqn:Hl; constructor; auto.
    unfold is_unit, is_high, is_low, is_scalar in *. lia.
Qed.

Lemma utf8_of_scalar_bytes c :
  is_scalar c = true → Forall (λ b, is_byte b = true) (utf8_of_scalar c).
Proof.
  unfold is_scalar, utf8_of_scalar. intros Hc.
  repeat case_match; repeat constructor; unfold is_byte; lia.
Qed.

Lemma textEncode_bytes s :
  Forall (λ u, is_unit u = true) s → Forall (λ b, is_byte b = true) (textEncode s).
Proof.
  intros Hs%utf16_scalars_range. unfold textEncode.
  induction Hs as [|c cs Hc _ IH]; [constructor|]. rewrite bind_cons.
  apply Forall_app; split; [by apply utf8_of_scalar_bytes|done].
Qed.

(** ** Bounding *)

Lemma zlen_slice0 n s : 0 <= n → zlen (slice0 n s) = Z.min n (zlen s).
Proof. intros. unfold slice0. rewrite zlen_take. lia. Qed.

Lemma bound_text_le n s : 0 < n → zlen (bound_text n s) <= n.
Proof.
  intros. unfold bound_text. case_match; [lia|].
  rewrite zlen_app, zlen_slice0 by lia. rewrite zlen_cons, zlen_nil. lia.
Qed.

Lemma bound_text_id n s : zlen s <= n → bound_text n s = s.
Proof. intros. unfold bound_text. case_match; [done|lia]. Qed.

Lemma trimStart_le s : zlen (trimStart s) <= zlen s.
Proof. induction s as [|u s IH]; simpl; [done|]. case_match; rewrite ?zlen_cons in *; lia. Qed.

Lemma zlen_rev {A} (l : list A) : zlen (rev l) = zlen l.
Proof. unfold zlen. by rewrite length_rev. Qed.

Lemma trim_le s : zlen (trim s) <= zlen s.
Proof.
  unfold trim. rewrite zlen_rev.
  pose proof (trimStart_le (rev (trimStart s))) as H1. rewrite zlen_rev in H1.
  pose proof (trimStart_le s). lia.
Qed.

Lemma trimStart_head s : match trimStart s with [] => True | u :: _ => is_ws u = false end.
Proof. induction s as [|u s IH]; simpl; [done|]. by destruct (is_ws u) eqn:?. Qed.

Lemma trimStart_id s : match s with [] => True | u :: _ => is_ws u = false end → trimStart s = s.
Proof. destruct s as [|u s]; simpl; [done|]. by intros ->. Qed.

Lemma trimStart_app_nonws s t u :
  is_ws u = false → trimStart (s ++ u :: t) = trimStart (s ++ [u]) ++ t.
Proof.
  intros Hu. induction s as [|a s IH]; simpl; [by rewrite Hu|]. case_match; [done|].
  simpl. by rewrite <- app_assoc.
Qed.

(** Trimming twice changes nothing. *)
Lemma trim_idem s : trim (trim s) = trim s.
Proof.
  unfold trim. set (a := trimStart s). set (b := trimStart (rev a)).
  assert (trimStart (rev b) = rev b) as Hb.
  { pose proof (trimStart_head s) as Ha. fold a in Ha. clearbody a. unfold b; clear b.
    destruct a as [|u a]; [done|]. simpl. rewrite trimStart_app_nonws with (t := []) by done.
    rewrite app_nil_r. clear -Ha. induction (rev a) as [|x r IH]; simpl.
    - by rewrite Ha; simpl; rewrite Ha.
    - destruct (is_ws x) eqn:Hx; [done|]. simpl. rewrite rev_app_distr. simpl. by rewrite Ha. }
  rewrite Hb, rev_involutive. f_equal. apply trimStart_id. unfold b. apply trimStart_head.
Qed.

Lemma trim_fixed_head s : trim s = s → match s with [] => True | u :: _ => is_ws u = false end.
Proof.
  intros Hs. destruct s as [|u s]; [done|]. destruct (is_ws u) eqn:Hu; [|done].
  assert (zlen (trim (u :: s)) <= zlen s) as Hle.
  { unfold trim. rewrite zlen_rev. cbn [trimStart]. rewrite Hu.
    pose proof (trimStart_le (rev (trimStart s))) as H1. rewrite zlen_rev in H1.
    pose proof (trimStart_le s). lia. }
  rewrite Hs, zlen_cons in Hle. lia.
Qed.

(** Shortening a trimmed text leaves it trimmed. *)
Lemma trim_bound_text n s : 2 <= n → trim s = s → trim (bound_text n s) = bound_text n s.
Proof.
  intros Hn Hs. unfold bound_text. destruct (zlen s <=? n) eqn:E; [done|]. bool_prop.
  pose proof (trim_fixed_head s Hs) as Hh. unfold slice0.
  destruct s as [|u s]; [rewrite zlen_nil in E; lia|].
  replace (Z.to_nat (n - 1)) with (S (Z.to_nat (n - 2))) by lia. cbn [take app].
  unfold trim. rewrite (trimStart_id (u :: _)) by done. cbn [rev]. rewrite rev_app_distr. cbn [rev app].
  rewrite (trimStart_id (ellipsis :: _)) by done. cbn [rev]. rewrite !rev_app_distr, rev_involutive. done.
Qed.

(** ** Which strings survive the round trip *)

Lemma utf16_of_scalar_wf c s : is_scalar c = true → well_formed s = true → well_formed (utf16_of_scalar c ++ s) = true.
Proof.
  intros Hc Hs. unfold is_scalar in Hc. unfold utf16_of_scalar. case_match; cbn [app well_formed].
  - replace (is_high c) with false by (unfold is_high; lia).
    rewrite Hs. unfold is_low, is_unit. lia.
  - replace (is_high _) with true by (unfold is_high; lia).
    rewrite Hs. unfold is_low. lia.
Qed.

Lemma scalars_wf cs : Forall (λ c, is_scalar c = true) cs → well_formed (cs ≫= utf16_of_scalar) = true.
Proof. induction 1 as [|c cs Hc _ IH]; [done|]. rewrite bind_cons. by apply utf16_of_scalar_wf. Qed.

(** Decoding the encoding succeeds for every string, and gives the string back
    exactly when its surrogates are paired. *)
Lemma text_roundtrip_iff s :
  Forall (λ u, is_unit u = true) s →
  textDecode (textEncode s) = Some s ↔ well_formed s = true.
Proof.
  intros Hu. split; [|apply text_roundtrip].
  pose proof (utf16_scalars_range s Hu) as Hr. unfold textDecode, textEncode.
  rewrite utf8_roundtrip by done. cbn. intros [= He]. rewrite <- He. by apply scalars_wf.
Qed.

(** ** Lines *)

(** [content.split("\n")] *)
Fixpoint split_lines (s : jsstr) : list jsstr :=
  match s with
  | [] => [[]]
  | u :: s => if u =? 10 then [] :: split_lines s
              else match split_lines s with l :: ls => (u :: l) :: ls | [] => [[u]] end
  end.
(** [content.endsWith("\n")] *)
Definition ends_line (content : jsstr) : bool := bool_decide (last content = Some 10).
(** A line with its terminator. *)
Definition ended (l : jsstr) : jsstr := l ++ [10].

Lemma split_lines_cons l s : 10 ∉ l → split_lines (l ++ 10 :: s) = l :: split_lines s.
Proof.
  induction l as [|u l IH]; intros H; cbn; [done|]. apply not_elem_of_cons in H as [Hu Hl].
  rewrite (proj2 (Z.eqb_neq u 10)) by done. by rewrite IH.
Qed.
Lemma split_lines_last t : 10 ∉ t → split_lines t = [t].
Proof.
  induction t as [|u t IH]; intros H; cbn; [done|]. apply not_elem_of_cons in H as [Hu Ht].
  rewrite (proj2 (Z.eqb_neq u 10)) by done. by rewrite IH.
Qed.

Lemma split_lines_written ls t : Forall (λ l, 10 ∉ l) ls → 10 ∉ t → split_lines (concat (ended <$> ls) ++ t) = ls ++ [t].
Proof.
  induction 1 as [|l ls Hl _ IH]; intros Ht; cbn; [by apply split_lines_last|].
  unfold ended at 1. rewrite <- !app_assoc. cbn [app]. rewrite split_lines_cons by done. by rewrite IH.
Qed.

(** Every text is its lines. *)
Lemma split_lines_spec s : ∃ ls t, s = concat (ended <$> ls) ++ t ∧ Forall (λ l, 10 ∉ l) ls ∧ 10 ∉ t.
Proof.
  induction s as [|u s (ls & t & -> & Hl & Ht)]; [exists [], []; split_and!; [done | constructor | apply not_elem_of_nil]|]. destruct (decide (u = 10)) as [->|Hu].
  - exists ([] :: ls), t. split_and!; [done | by constructor; [apply not_elem_of_nil|] | done].
  - destruct ls as [|l ls].
    + exists [], (u :: t). split_and!; [done | done | by apply not_elem_of_cons].
    + inversion Hl; subst. exists ((u :: l) :: ls), t. split_and!; [done | constructor; [by apply not_elem_of_cons | done] | done].
Qed.

Lemma join_cons sep x l : l ≠ [] → join sep (x :: l) = x ++ sep ++ join sep l.
Proof. destruct l; intros H; [by destruct H|done]. Qed.
Lemma join_app sep l k : l ≠ [] → k ≠ [] → join sep (l ++ k) = join sep l ++ sep ++ join sep k.
Proof.
  intros Hl Hk. induction l as [|x l IH]; [done|]. destruct l as [|y l]; [by apply join_cons|].
  change ((x :: y :: l) ++ k) with (x :: ((y :: l) ++ k)). rewrite (join_cons _ x) by done. rewrite IH by done. rewrite (join_cons _ x (y :: l)) by done. by rewrite <- !app_assoc.
Qed.

Lemma join_ended l ls : join [10] (l :: ls) ++ [10] = concat (ended <$> l :: ls).
Proof.
  revert l. induction ls as [|y ls IH]; intros l; [cbn; by rewrite app_nil_r|].
  rewrite join_cons by done. rewrite <- !app_assoc, IH.
  change (concat (ended <$> l :: y :: ls)) with ((l ++ [10]) ++ concat (ended <$> y :: ls)). by rewrite <- app_assoc.
Qed.
Lemma join_written ls t : join [10] (ls ++ [t]) = concat (ended <$> ls) ++ t.
Proof.
  destruct ls as [|l ls]; [done|]. rewrite join_app by done. by rewrite app_assoc, join_ended.
Qed.

Lemma split_lines_free s : Forall (λ l, 10 ∉ l) (split_lines s).
Proof.
  destruct (split_lines_spec s) as (ls & t & -> & Hl & Ht). rewrite split_lines_written by done.
  apply Forall_app; split; [done|by constructor].
Qed.
Lemma split_lines_ne s : split_lines s ≠ [].
Proof. destruct (split_lines_spec s) as (ls & t & -> & Hl & Ht). rewrite split_lines_written by done. by destruct ls. Qed.
Lemma join_split_lines s : join [10] (split_lines s) = s.
Proof. destruct (split_lines_spec s) as (ls & t & -> & Hl & Ht). rewrite split_lines_written by done. apply join_written. Qed.
Lemma split_lines_join ls : ls ≠ [] → Forall (λ l, 10 ∉ l) ls → split_lines (join [10] ls) = ls.
Proof.
  intros Hne. destruct ls as [|t ls _] using rev_ind; [done|]. intros [Hl [Ht _]%Forall_cons]%Forall_app.
  rewrite join_written. apply split_lines_written; [exact Hl|exact Ht].
Qed.
Lemma split_lines_app a b : split_lines (a ++ 10 :: b) = split_lines a ++ split_lines b.
Proof.
  rewrite <- (join_split_lines a) at 1. rewrite <- (join_split_lines b) at 1.
  change (10 :: join [10] (split_lines b)) with ([10] ++ join [10] (split_lines b)).
  pose proof (split_lines_ne a). rewrite <- join_app by (done || apply split_lines_ne). apply split_lines_join.
  - by destruct (split_lines a).
  - apply Forall_app; split; apply split_lines_free.
Qed.

(** * JavaScript numbers

    A number is an IEEE-754 double.  The finite integers other than [-0] are
    represented by the exact integer, every other double by its 64-bit pattern,
    so the representation is unique. *)

Inductive jsnum :=
| NInt (z : Z)      (** an integer-valued double other than [-0] *)
| NBits (b : Z).    (** [-0], a fraction, an infinity or a NaN, by its bits *)

#[export] Instance jsnum_eq_dec : EqDecision jsnum.
Proof. solve_decision. Defined.

Definition MAX_SAFE_INTEGER : Z := 2 ^ 53 - 1.
Definition is_safe (z : Z) : bool := (- MAX_SAFE_INTEGER <=? z) && (z <=? MAX_SAFE_INTEGER).

Definition neg_zero_bits : Z := 2 ^ 63.
Definition exponent_field (b : Z) : Z := b / 2 ^ 52 mod 2 ^ 11.
Definition mantissa_field (b : Z) : Z := b mod 2 ^ 52.

(** The integer a finite pattern other than [-0] denotes, if it denotes one. *)
Definition integer_of_bits (b : Z) : option Z :=
  let e := exponent_field b in
  let m := mantissa_field b in
  let sign z := if b <? 2 ^ 63 then z else - z in
  if e =? 0 then (if m =? 0 then Some 0 else None)
  else if 1075 <=? e then Some (sign ((2 ^ 52 + m) * 2 ^ (e - 1075)))
  else if e <? 1023 then None
  else if (2 ^ 52 + m) mod 2 ^ (1075 - e) =? 0
       then Some (sign ((2 ^ 52 + m) / 2 ^ (1075 - e))) else None.

Definition bits_finite (b : Z) : bool := negb (exponent_field b =? 2047).

(** The double with a given bit pattern. *)
Definition num_of_bits (b : Z) : jsnum :=
  if bits_finite b && negb (b =? neg_zero_bits) then
    match integer_of_bits b with Some z => NInt z | None => NBits b end
  else NBits b.

(** The patterns that stand for themselves. *)
Definition num_ok (n : jsnum) : bool :=
  match n with
  | NInt _ => true
  | NBits b => (0 <=? b) && (b <? 2 ^ 64) && bool_decide (num_of_bits b = NBits b)
  end.

Definition isFinite (n : jsnum) : bool :=
  match n with NInt _ => true | NBits b => bits_finite b end.

(** [Object.is(n, -0)] *)
Definition is_neg_zero (n : jsnum) : bool :=
  match n with NInt _ => false | NBits b => b =? neg_zero_bits end.

Definition isInteger (n : jsnum) : bool :=
  match n with NInt _ => true | NBits b => b =? neg_zero_bits end.

Definition isSafeInteger (n : jsnum) : bool :=
  match n with NInt z => is_safe z | NBits b => b =? neg_zero_bits end.

Example num_of_bits_one : num_of_bits 0x3FF0000000000000 = NInt 1.
Proof. vm_compute. reflexivity. Qed.
Example num_of_bits_half : num_of_bits 0x3FE0000000000000 = NBits 0x3FE0000000000000.
Proof. vm_compute. reflexivity. Qed.
Example num_of_bits_minus_six : num_of_bits 0xC018000000000000 = NInt (-6).
Proof. vm_compute. reflexivity. Qed.

(** ** Literals and numbers *)

(** The characters of a literal. *)
Definition codes (s : string) : jsstr := (λ a, Z.of_N (Ascii.N_of_ascii a)) <$> String.list_ascii_of_string s.

Lemma js_ascii s : forallb (λ u, u <? 128) (codes s) = true → js s = codes s.
Proof.
  unfold js. fold (codes s). assert (H0 : forallb (λ u, 0 <=? u) (codes s) = true).
  { apply forallb_forall. intros u Hu. apply list_elem_of_In, list_elem_of_fmap in Hu as (a & -> & _). apply Z.leb_le, N2Z.is_nonneg. }
  intros H1. enough (E : utf8_scalars (codes s) = Some (codes s) ∧ codes s ≫= utf16_of_scalar = codes s).
  { unfold textDecode. destruct E as [-> E]. cbn. by rewrite E. }
  revert H0 H1. generalize (codes s). intros l. induction l as [|u l IH]; intros H0 H1; [done|].
  cbn [forallb] in *. apply andb_true_iff in H0 as [H0 H0'], H1 as [H1 H1']. destruct (IH H0' H1') as [E1 E2]. split.
  - cbn [utf8_scalars]. rewrite E1. unfold is_byte. rewrite H0, H1. replace (u <? 256) with true by lia. done.
  - cbn. rewrite E2. unfold utf16_of_scalar. by replace (u <? 65536) with true by lia.
Qed.

(** The texts of different integers differ, and no character of them is NUL. *)
Definition numeric (s : string) : Prop := Forall (λ u, 0 < u < 128) (codes s).

Lemma pretty_go_numeric x s : numeric s → numeric (pretty_N_go x s).
Proof.
  revert s. induction (N.lt_wf_0 x) as [x _ IH]. intros s Hs. destruct (decide (x = 0)%N) as [->|Hx]; [by rewrite pretty_N_go_0|].
  rewrite pretty_N_go_step by lia. apply IH; [by apply N.div_lt; lia|]. constructor; [|exact Hs]. unfold pretty_N_char. repeat case_match; by vm_compute.
Qed.
Lemma pretty_numeric (n : Z) : numeric (pretty n).
Proof.
  assert (Hp : ∀ p : positive, numeric (pretty (N.pos p))) by (intros p; apply (pretty_go_numeric (N.pos p) ""); constructor).
  destruct n as [|p|p]; [|exact (Hp p)|]; (constructor; [by vm_compute|]); [constructor|exact (Hp p)].
Qed.
Lemma num_str_codes n : num_str n = codes (pretty n).
Proof.
  apply js_ascii, forallb_forall. intros u Hu. apply list_elem_of_In in Hu. pose proof (pretty_numeric n) as H. unfold numeric in H.
  rewrite Forall_forall in H. apply H in Hu. apply Z.ltb_lt. lia.
Qed.
Lemma num_str_no_nul n : 0 ∉ num_str n.
Proof. rewrite num_str_codes. intros H. pose proof (pretty_numeric n) as Hn. unfold numeric in Hn. rewrite Forall_forall in Hn. apply Hn in H. lia. Qed.
#[export] Instance codes_inj : Inj (=) (=) codes.
Proof.
  intros a b H. rewrite <- (String.string_of_list_ascii_of_string a), <- (String.string_of_list_ascii_of_string b). f_equal. revert H. unfold codes.
  generalize (String.list_ascii_of_string a), (String.list_ascii_of_string b). intros l k. revert k.
  induction l as [|x l IH]; intros [|y k]; cbn; try done. intros E. injection E as E%N2Z.inj El. f_equal; [|by apply IH].
  rewrite <- (Ascii.ascii_N_embedding x), <- (Ascii.ascii_N_embedding y). by rewrite E.
Qed.
#[export] Instance num_str_inj : Inj (=) (=) num_str.
Proof. intros a b. rewrite !num_str_codes. intros H. apply (inj codes) in H. by apply (inj pretty) in H. Qed.

(** What stands before the first NUL. *)
Lemma nul_split (a b x y : jsstr) : 0 ∉ a → 0 ∉ b → a ++ 0 :: x = b ++ 0 :: y → a = b ∧ x = y.
Proof.
  revert b. induction a as [|u a IH]; intros [|v b]; cbn; [by intros _ _ [= ->]|..].
  - intros _ H [= E _]. destruct H. rewrite E. by left.
  - intros H _ [= E _]. destruct H. rewrite E. by left.
  - intros Ha Hb [= -> E]. rewrite not_elem_of_cons in Ha, Hb. destruct (IH b (proj2 Ha) (proj2 Hb) E) as [-> ->]. done.
Qed.
