(* ===== verification/Cbor.v ===== *)
(** * The strict CBOR subset of the wire protocol

    Models [packages/protocol/src/cbor/]: the option limits, the growable
    writer, the recursive encoder over a heap of JavaScript objects (so that the
    cycle check works on object identity), and the recursive decoder. *)
From S2P Require Import Prelude JsString.

Definition UINT32_BASE : Z := 0x100000000.
Definition MAX_UINT32 : Z := 0xffffffff.
Definition MAX_CONFIGURED_DEPTH : Z := 512.
Definition DEFAULT_MAX_CBOR_BYTE_LENGTH : Z := 16 * 1024 * 1024.
Definition DEFAULT_MAX_CBOR_CONTAINER_LENGTH : Z := 1000000.
Definition DEFAULT_MAX_CBOR_DEPTH : Z := 64.

(** What the functions of the package throw.  [OutOfFuel] is not an exception of
    the source: it is what the recursive definitions below would answer if their
    fuel were too small, and [encodeCbor_fuel]/[decodeCbor_fuel] show it never
    happens. *)
Inductive cbor_exn :=
| CborError (message : jsstr)
| RangeError (message : jsstr)
| OutOfFuel.

Record CborOptions := {
  opt_maxByteLength : option jsnum;
  opt_maxContainerLength : option jsnum;
  opt_maxDepth : option jsnum }.

Record ResolvedCborOptions := {
  maxByteLength : Z;
  maxContainerLength : Z;
  maxDepth : Z }.

Definition resolveLimit (name : jsstr) (value : jsnum) (maximum : Z) : result cbor_exn Z :=
  let v := match value with NInt z => z | NBits _ => 0 end in
  if negb (isSafeInteger value) || (v <? 0) || (maximum <? v)
  then Err (RangeError (name ++ js " must be an integer between 0 and " ++ num_str maximum))
  else Ok v.

Definition resolveOptions (options : option CborOptions) : result cbor_exn ResolvedCborOptions :=
  let get f d := default (NInt d) (options ≫= f) in
  let* b := resolveLimit (js "maxByteLength")
              (get opt_maxByteLength DEFAULT_MAX_CBOR_BYTE_LENGTH) MAX_UINT32 in
  let* c := resolveLimit (js "maxContainerLength")
              (get opt_maxContainerLength DEFAULT_MAX_CBOR_CONTAINER_LENGTH) MAX_UINT32 in
  let* d := resolveLimit (js "maxDepth")
              (get opt_maxDepth DEFAULT_MAX_CBOR_DEPTH) MAX_CONFIGURED_DEPTH in
  Ok {| maxByteLength := b; maxContainerLength := c; maxDepth := d |}.

(** ** Writer *)

(** [CborWriter]: a fixed-size buffer, the number of bytes written and the limit. *)
Record CborWriter := {
  w_buffer : bytes;
  w_offset : Z;
  w_max : Z }.

Definition zeros (n : Z) : bytes := replicate (Z.to_nat n) 0.

Definition newWriter (max : Z) : CborWriter :=
  {| w_buffer := zeros (Z.min 256 max); w_offset := 0; w_max := max |}.

(** [Uint8Array.prototype.set(src, offset)] for a source that fits. *)
Definition buf_set (buffer : bytes) (offset : Z) (src : bytes) : bytes :=
  take (Z.to_nat offset) buffer ++ src ++ drop (Z.to_nat offset + length src) buffer.

(** [while (capacity < required) capacity = Math.min(max, Math.max(required, capacity * 2))];
    [grow_capacity_enough] shows that one iteration suffices. *)
Fixpoint grow_capacity (fuel : nat) (capacity required max : Z) : Z :=
  match fuel with
  | O => capacity
  | S fuel' =>
      if capacity <? required
      then grow_capacity fuel' (Z.min max (Z.max required (capacity * 2))) required max
      else capacity
  end.

Definition limit_error (what : jsstr) (limit : Z) : cbor_exn :=
  CborError (js "CBOR " ++ what ++ js " exceeds configured limit of " ++ num_str limit).

Definition ensureCapacity (w : CborWriter) (additionalBytes : Z) : result cbor_exn CborWriter :=
  let required := w_offset w + additionalBytes in
  if w_max w <? required then Err (limit_error (js "byte length") (w_max w))
  else if required <=? zlen (w_buffer w) then Ok w
  else
    let capacity := grow_capacity 2 (Z.max 1 (zlen (w_buffer w))) required (w_max w) in
    Ok {| w_buffer := buf_set (zeros capacity) 0 (w_buffer w);
          w_offset := w_offset w; w_max := w_max w |}.

(** Assigning a number to an element of a [Uint8Array] keeps its low byte. *)
Definition to_uint8 (v : Z) : Z := v mod 0x100.
(** [v >>> n] *)
Definition ushr (v n : Z) : Z := Z.shiftr (v mod UINT32_BASE) n.

(** Reserve [n] bytes, store them and advance the offset. *)
Definition put (w : CborWriter) (bs : bytes) : result cbor_exn CborWriter :=
  let* w := ensureCapacity w (zlen bs) in
  Ok {| w_buffer := buf_set (w_buffer w) (w_offset w) bs;
        w_offset := w_offset w + zlen bs; w_max := w_max w |}.

Definition writeByte (w : CborWriter) (value : Z) := put w [to_uint8 value].
Definition writeBytes (w : CborWriter) (bs : bytes) := put w bs.
Definition writeUint16 (w : CborWriter) (value : Z) :=
  put w [to_uint8 (ushr value 8); to_uint8 value].
Definition uint32_bytes (value : Z) : bytes :=
  [to_uint8 (ushr value 24); to_uint8 (ushr value 16); to_uint8 (ushr value 8); to_uint8 value].
Definition writeUint32 (w : CborWriter) (value : Z) := put w (uint32_bytes value).
Definition writeUint64 (w : CborWriter) (value : Z) :=
  let high := value / UINT32_BASE in
  let low := value - high * UINT32_BASE in
  let* w := writeUint32 w high in
  writeUint32 w low.

(** [DataView.setFloat64(_, value, false)]: the pattern, big-endian. *)
Definition float64_bytes (bits : Z) : bytes :=
  uint32_bytes (bits / UINT32_BASE) ++ uint32_bytes (bits mod UINT32_BASE).
Definition writeFloat64 (w : CborWriter) (bits : Z) := put w (0xfb :: float64_bytes bits).

Definition finish (w : CborWriter) : bytes := take (Z.to_nat (w_offset w)) (w_buffer w).

Definition writeArgument (w : CborWriter) (majorType value : Z) : result cbor_exn CborWriter :=
  let prefix := Z.shiftl majorType 5 in
  if value <? 24 then writeByte w (Z.lor prefix value)
  else if value <=? 0xff then let* w := writeByte w (Z.lor prefix 24) in writeByte w value
  else if value <=? 0xffff then let* w := writeByte w (Z.lor prefix 25) in writeUint16 w value
  else if value <=? MAX_UINT32 then let* w := writeByte w (Z.lor prefix 26) in writeUint32 w value
  else let* w := writeByte w (Z.lor prefix 27) in writeUint64 w value.

(** ** JavaScript values *)

Abbreviation loc := positive (only parsing).

Inductive jsval :=
| VUndefined
| VNull
| VBool (b : bool)
| VNum (n : jsnum)
| VStr (s : jsstr)
| VPrim (type_of : jsstr)   (** symbol, bigint, function: only their [typeof] matters *)
| VRef (l : loc).

(** Objects.  An ordinary object lists its own string-keyed properties in
    [Object.keys] order, and for every own symbol key whether it is enumerable. *)
Inductive jsobj :=
| OBytes (bs : bytes)                                   (** a [Uint8Array] *)
| OArray (elems : list (option jsval))                  (** [None] is a hole *)
| OPlain (symbols : list bool) (props : list (jsstr * jsval))
| OExotic.                                              (** any other prototype *)

Definition heap := gmap loc jsobj.

Definition encodeText (w : CborWriter) (value : jsstr) (o : ResolvedCborOptions)
    : result cbor_exn CborWriter :=
  let bs := textEncode value in
  if maxByteLength o <? zlen bs then Err (limit_error (js "text string length") (maxByteLength o))
  else if negb (bool_decide (textDecode bs = Some value))
  then Err (CborError (js "CBOR text strings must contain valid Unicode scalar values"))
  else let* w := writeArgument w 3 (zlen bs) in writeBytes w bs.

Definition encodeNumber (w : CborWriter) (n : jsnum) : result cbor_exn CborWriter :=
  if negb (isFinite n) then Err (CborError (js "CBOR numbers must be finite"))
  else match n with
  | NInt z =>
      if negb (is_safe z) then Err (CborError (js "CBOR integers must be safe JavaScript integers"))
      else if 0 <=? z then writeArgument w 0 z else writeArgument w 1 (-1 - z)
  | NBits b => writeFloat64 w b
  end.

Definition is_undefined (v : jsval) : bool :=
  match v with VUndefined => true | _ => false end.

Definition defined_entries (props : list (jsstr * jsval)) : list (jsstr * jsval) :=
  filter (λ kv, is_undefined kv.2 = false) props.

(** [encodeValue].  The recursion stops at [maxDepth + 1], so fuel
    [maxDepth + 2] is enough at depth 0. *)
Fixpoint encodeValue (fuel : nat) (h : heap) (o : ResolvedCborOptions) (depth : Z)
    (ancestors : gset loc) (w : CborWriter) (value : jsval) : result cbor_exn CborWriter :=
  match fuel with
  | O => Err OutOfFuel
  | S fuel' =>
    if maxDepth o <? depth then Err (limit_error (js "nesting depth") (maxDepth o))
    else match value with
    | VNull => writeByte w 0xf6
    | VBool b => writeByte w (if b then 0xf5 else 0xf4)
    | VNum n => encodeNumber w n
    | VStr s => encodeText w s o
    | VUndefined => Err (CborError (js "Unsupported CBOR value type: undefined"))
    | VPrim ty => Err (CborError (js "Unsupported CBOR value type: " ++ ty))
    | VRef l =>
      match h !! l with
      | Some (OBytes bs) =>
          if maxByteLength o <? zlen bs
          then Err (limit_error (js "byte string length") (maxByteLength o))
          else let* w := writeArgument w 2 (zlen bs) in writeBytes w bs
      | Some (OArray elems) =>
          if bool_decide (l ∈ ancestors) then Err (CborError (js "CBOR values must not contain cycles"))
          else if maxContainerLength o <? zlen elems
          then Err (limit_error (js "array length") (maxContainerLength o))
          else
            let* w := writeArgument w 4 (zlen elems) in
            foldM (λ w elem,
              match elem with
              | None | Some VUndefined =>
                  Err (CborError (js "CBOR arrays must not contain holes or undefined values"))
              | Some v => encodeValue fuel' h o (depth + 1) ({[l]} ∪ ancestors) w v
              end) w elems
      | Some (OPlain symbols props) =>
          if bool_decide (l ∈ ancestors) then Err (CborError (js "CBOR values must not contain cycles"))
          else if existsb id symbols then Err (CborError (js "CBOR map keys must be strings"))
          else
            let entries := defined_entries props in
            if maxContainerLength o <? zlen entries
            then Err (limit_error (js "map length") (maxContainerLength o))
            else
              let* w := writeArgument w 5 (zlen entries) in
              foldM (λ w kv,
                let* w := encodeText w kv.1 o in
                encodeValue fuel' h o (depth + 1) ({[l]} ∪ ancestors) w kv.2) w entries
      | Some OExotic | None => Err (CborError (js "Unsupported CBOR value type: object"))
      end
    end
  end.

Definition depth_fuel (o : ResolvedCborOptions) : nat := Z.to_nat (maxDepth o + 2).

Definition encodeCbor (h : heap) (value : jsval) (options : option CborOptions)
    : result cbor_exn bytes :=
  let* o := resolveOptions options in
  let* w := encodeValue (depth_fuel o) h o 0 ∅ (newWriter (maxByteLength o)) value in
  Ok (finish w).

(** ** Decoder *)

(** The fresh, unshared values the decoder builds. *)
Inductive dval :=
| DNull
| DBool (b : bool)
| DNum (n : jsnum)
| DStr (s : jsstr)
| DBytes (bs : bytes)
| DArray (elems : list dval)
| DObject (props : list (jsstr * dval)).

(** The integer a property key denotes if it is an array index ([OwnPropertyKeys]
    lists those first, in ascending order). *)
Definition is_digit (u : Z) : bool := (48 <=? u) && (u <=? 57).
Definition digits_value (s : jsstr) : Z := foldl (λ acc u, acc * 10 + (u - 48)) 0 s.
Definition array_index (s : jsstr) : option Z :=
  if negb (bool_decide (s = [])) && forallb is_digit s
     && (negb (bool_decide (head s = Some 48)) || (zlen s =? 1))
     && (digits_value s <? MAX_UINT32)
  then Some (digits_value s) else None.

(** [key_before a b]: an own key [a] is listed before an own key [b] that is
    defined after it. *)
Definition key_before (a b : jsstr) : bool :=
  match array_index a, array_index b with
  | Some i, Some j => i <? j
  | Some _, None => true
  | None, None => true
  | None, Some _ => false
  end.

(** [Object.defineProperty] of an enumerable data property under a new key. *)
Fixpoint define_property {A} (props : list (jsstr * A)) (key : jsstr) (value : A)
    : list (jsstr * A) :=
  match props with
  | [] => [(key, value)]
  | kv :: props' =>
      if key_before kv.1 key then kv :: define_property props' key value
      else (key, value) :: props
  end.

(** The reader's state is the part of the payload from [offset] on. *)
Definition readByte (bs : bytes) : result cbor_exn (Z * bytes) :=
  match bs with
  | [] => Err (CborError (js "Truncated CBOR payload"))
  | b :: bs' => Ok (b, bs')
  end.

Definition readBytes (length : Z) (bs : bytes) : result cbor_exn (bytes * bytes) :=
  if zlen bs <? length then Err (CborError (js "Truncated CBOR payload"))
  else Ok (take (Z.to_nat length) bs, drop (Z.to_nat length) bs).

(** A big-endian unsigned integer, as the sums of [readArgument] compute it. *)
Definition be_value (bs : bytes) : Z := foldl (λ acc b, acc * 0x100 + b) 0 bs.

Definition readUint (n : Z) (bs : bytes) : result cbor_exn (Z * bytes) :=
  let* (b, rest) := readBytes n bs in Ok (be_value b, rest).

Definition readArgument (info : Z) (bs : bytes) : result cbor_exn (Z * bytes) :=
  if info <? 24 then Ok (info, bs)
  else if info =? 24 then readByte bs
  else if info =? 25 then readUint 2 bs
  else if info =? 26 then readUint 4 bs
  else if info =? 27 then
    let* (high, bs) := readUint 4 bs in
    let* (low, bs) := readUint 4 bs in
    if 0x1fffff <? high
    then Err (CborError (js "Decoded CBOR integer or length is outside the safe range"))
    else Ok (high * UINT32_BASE + low, bs)
  else if info =? 31 then Err (CborError (js "Indefinite-length CBOR items are not supported"))
  else Err (CborError (js "Malformed CBOR additional information")).

Definition readLength (info : Z) (kind : jsstr) (limit : Z) (bs : bytes)
    : result cbor_exn (Z * bytes) :=
  if info =? 31
  then Err (CborError (js "Indefinite-length CBOR " ++ kind ++ js "s are not supported"))
  else
    let* (length, bs) := readArgument info bs in
    if limit <? length then Err (limit_error (kind ++ js " length") limit)
    else Ok (length, bs).

Definition readSimple (info : Z) (bs : bytes) : result cbor_exn (dval * bytes) :=
  if info =? 20 then Ok (DBool false, bs)
  else if info =? 21 then Ok (DBool true, bs)
  else if info =? 22 then Ok (DNull, bs)
  else if info =? 27 then
    let* (b, bs) := readBytes 8 bs in
    let value := num_of_bits (be_value b) in
    if negb (isFinite value) then Err (CborError (js "Decoded CBOR number must be finite"))
    else if isInteger value && negb (isSafeInteger value)
    then Err (CborError (js "Decoded CBOR integer is outside the safe range"))
    else Ok (DNum value, bs)
  else if info =? 31 then Err (CborError (js "CBOR break marker is not supported"))
  else Err (CborError (js "Unsupported CBOR simple value or floating-point width")).

Section Loops.
Variable item : bytes → result cbor_exn (dval * bytes).

(** [for (index < length) result.push(this.readItem(depth + 1))] *)
Fixpoint readElems (n : nat) (acc : list dval) (bs : bytes) : result cbor_exn (list dval * bytes) :=
  match n with
  | O => Ok (acc, bs)
  | S n' => let* (v, bs) := item bs in readElems n' (acc ++ [v]) bs
  end.

(** The map loop: [keys] is the key set, [acc] the object under construction. *)
Fixpoint readEntries (n : nat) (keys : gset jsstr) (acc : list (jsstr * dval)) (bs : bytes)
    : result cbor_exn (list (jsstr * dval) * bytes) :=
  match n with
  | O => Ok (acc, bs)
  | S n' =>
      let* (k, bs) := item bs in
      match k with
      | DStr key =>
          if bool_decide (key ∈ keys) then Err (CborError (js "CBOR map contains a duplicate key"))
          else
            let* (v, bs) := item bs in
            readEntries n' ({[key]} ∪ keys) (define_property acc key v) bs
      | _ => Err (CborError (js "CBOR map keys must be strings"))
      end
  end.
End Loops.

Fixpoint readItem (fuel : nat) (o : ResolvedCborOptions) (depth : Z) (bs : bytes)
    : result cbor_exn (dval * bytes) :=
  match fuel with
  | O => Err OutOfFuel
  | S fuel' =>
    if maxDepth o <? depth then Err (limit_error (js "nesting depth") (maxDepth o))
    else
      let* (initial, bs) := readByte bs in
      let majorType := Z.shiftr initial 5 in
      let info := Z.land initial 0x1f in
      match majorType with
      | 0 => let* (n, bs) := readArgument info bs in Ok (DNum (NInt n), bs)
      | 1 =>
          let* (n, bs) := readArgument info bs in
          let value := -1 - n in
          if negb (is_safe value)
          then Err (CborError (js "Decoded CBOR integer is outside the safe range"))
          else Ok (DNum (NInt value), bs)
      | 2 =>
          let* (length, bs) := readLength info (js "byte string") (maxByteLength o) bs in
          let* (b, bs) := readBytes length bs in
          Ok (DBytes b, bs)
      | 3 =>
          let* (length, bs) := readLength info (js "text string") (maxByteLength o) bs in
          let* (b, bs) := readBytes length bs in
          match textDecode b with
          | Some s => Ok (DStr s, bs)
          | None => Err (CborError (js "CBOR text string contains invalid UTF-8"))
          end
      | 4 =>
          let* (length, bs) := readLength info (js "array") (maxContainerLength o) bs in
          let* (elems, bs) := readElems (readItem fuel' o (depth + 1)) (Z.to_nat length) [] bs in
          Ok (DArray elems, bs)
      | 5 =>
          let* (length, bs) := readLength info (js "map") (maxContainerLength o) bs in
          let* (props, bs) := readEntries (readItem fuel' o (depth + 1)) (Z.to_nat length) ∅ [] bs in
          Ok (DObject props, bs)
      | 6 => Err (CborError (js "CBOR tags are not supported"))
      | 7 => readSimple info bs
      | _ => Err (CborError (js "Malformed CBOR major type"))
      end
  end.

Definition decodeCbor (bs : bytes) (options : option CborOptions) : result cbor_exn dval :=
  let* o := resolveOptions options in
  if maxByteLength o <? zlen bs then Err (limit_error (js "byte length") (maxByteLength o))
  else
    let* (value, rest) := readItem (depth_fuel o) o 0 bs in
    if negb (zlen rest =? 0) then Err (CborError (js "CBOR payload contains trailing data"))
    else Ok value.

(** ** The writer refines an append-only byte list bounded by its limit *)

Definition writer_ok (w : CborWriter) : Prop :=
  0 <= w_offset w <= zlen (w_buffer w) ∧ zlen (w_buffer w) <= w_max w.

Lemma zlen_zeros n : zlen (zeros n) = Z.max 0 n.
Proof. unfold zeros, zlen. rewrite length_replicate. lia. Qed.

Lemma zlen_buf_set buf off src :
  0 <= off → off + zlen src <= zlen buf → zlen (buf_set buf off src) = zlen buf.
Proof.
  intros. unfold buf_set. rewrite !zlen_app, zlen_take, zlen_drop. unfold zlen in *. lia.
Qed.

Lemma take_buf_set buf off src :
  0 <= off → off + zlen src <= zlen buf →
  take (Z.to_nat (off + zlen src)) (buf_set buf off src) = take (Z.to_nat off) buf ++ src.
Proof.
  intros. unfold buf_set. rewrite app_assoc.
  apply take_app_length'. rewrite length_app, length_take. unfold zlen in *. lia.
Qed.

(** One iteration of the growth loop reaches the required size. *)
Lemma grow_capacity_enough capacity required max :
  required <= max → capacity <= max → 0 <= capacity →
  let c := grow_capacity 2 capacity required max in
  required <= c <= max ∧ capacity <= c ∧ (∀ n, grow_capacity (2 + n) capacity required max = c).
Proof.
  intros Hr Hc H0 c. unfold c. cbn [grow_capacity Nat.add].
  destruct (capacity <? required) eqn:E1; [|split; [lia|split; [lia|done]]].
  assert ((Z.min max (Z.max required (capacity * 2)) <? required) = false) as -> by lia.
  split; [lia|]. split; [lia|done].
Qed.

Lemma ensureCapacity_spec w n :
  writer_ok w → 0 <= n →
  match ensureCapacity w n with
  | Ok w' => writer_ok w' ∧ w_max w' = w_max w ∧ w_offset w' = w_offset w
             ∧ w_offset w + n <= zlen (w_buffer w') ∧ finish w' = finish w
  | Err e => e = limit_error (js "byte length") (w_max w) ∧ w_max w < w_offset w + n
  end.
Proof.
  intros [Ho Hb] Hn. unfold ensureCapacity.
  destruct (w_max w <? w_offset w + n) eqn:E1; [split; [done|lia]|].
  destruct (w_offset w + n <=? zlen (w_buffer w)) eqn:E2; [unfold writer_ok; repeat split; lia|].
  pose proof (grow_capacity_enough (Z.max 1 (zlen (w_buffer w))) (w_offset w + n) (w_max w)) as Hg.
  destruct Hg as (Hg1 & Hg2 & _); [lia..|].
  set (c := grow_capacity _ _ _ _) in *. clearbody c.
  assert (0 + zlen (w_buffer w) <= zlen (zeros c)) as Hfit by (rewrite zlen_zeros; lia).
  assert (zlen (buf_set (zeros c) 0 (w_buffer w)) = c) as Hlen
    by (rewrite zlen_buf_set, zlen_zeros by lia; lia).
  unfold writer_ok, finish; cbn. repeat split; try lia.
  unfold buf_set. change (take (Z.to_nat 0) (zeros c)) with (@nil Z). cbn [app].
  apply take_app_le. unfold zlen in *. lia.
Qed.

Lemma zlen_finish w : writer_ok w → zlen (finish w) = w_offset w.
Proof. intros [? ?]. unfold finish. rewrite zlen_take. lia. Qed.

Lemma put_spec w bs :
  writer_ok w →
  match put w bs with
  | Ok w' => writer_ok w' ∧ w_max w' = w_max w ∧ finish w' = finish w ++ bs
             ∧ zlen (finish w ++ bs) <= w_max w
  | Err e => e = limit_error (js "byte length") (w_max w) ∧ w_max w < zlen (finish w ++ bs)
  end.
Proof.
  intros Hw. pose proof (ensureCapacity_spec w (zlen bs) Hw (zlen_nonneg _)) as He.
  unfold put. rewrite zlen_app, zlen_finish by done.
  destruct (ensureCapacity w (zlen bs)) as [w1|e]; cbn; [|done].
  destruct He as ([Ho Hb] & Hm & Hoff & Hfit & Hf). pose proof (zlen_nonneg bs).
  unfold writer_ok; cbn. rewrite zlen_buf_set by lia. repeat split; try lia.
  rewrite <- Hf. unfold finish; cbn. rewrite take_buf_set by lia. done.
Qed.

(** [writes w w' chunk]: going from [w] to [w'] appended exactly [chunk]. *)
Definition writes (w w' : CborWriter) (chunk : bytes) : Prop :=
  writer_ok w' ∧ w_max w' = w_max w ∧ finish w' = finish w ++ chunk
  ∧ zlen (finish w ++ chunk) <= w_max w.

Lemma put_writes w bs w' : put w bs = Ok w' → writer_ok w → writes w w' bs.
Proof. intros Hp Hw. pose proof (put_spec w bs Hw) as H. by rewrite Hp in H. Qed.

Lemma writes_trans w1 w2 w3 c1 c2 : writes w1 w2 c1 → writes w2 w3 c2 → writes w1 w3 (c1 ++ c2).
Proof.
  intros (H1 & H2 & H3 & H4) (H5 & H6 & H7 & H8). unfold writes.
  rewrite app_assoc, <- H3, <- H2. split; [done|]. split; [done|]. by split.
Qed.

Lemma writes_ok w w' c : writes w w' c → writer_ok w'.
Proof. by intros []. Qed.

Lemma newWriter_ok max : 0 <= max → writer_ok (newWriter max) ∧ finish (newWriter max) = [].
Proof. intros. split; [|done]. unfold writer_ok, newWriter; cbn. rewrite zlen_zeros. lia. Qed.

Create HintDb cbor.
#[export] Hint Resolve put_writes writes_trans writes_ok : cbor.

(** ** Argument heads *)

Lemma head_byte m i :
  0 <= m < 8 → 0 <= i < 32 →
  let b := to_uint8 (Z.lor (Z.shiftl m 5) i) in
  Z.shiftr b 5 = m ∧ Z.land b 0x1f = i.
Proof.
  intros Hm Hi b.
  assert (Z.land (Z.shiftl m 5) i = 0) as Hd.
  { apply Z.bits_inj'. intros n Hn. rewrite Z.land_spec, Z.bits_0, Z.shiftl_spec by done.
    destruct (decide (n < 5)); [by rewrite Z.testbit_neg_r by lia|].
    rewrite andb_false_iff. right. rewrite Z.bits_above_log2; [done|lia|].
    destruct (decide (i = 0)) as [->|]; [simpl; lia|].
    apply Z.log2_lt_pow2; [lia|]. assert (2 ^ 5 <= 2 ^ n) by (apply Z.pow_le_mono_r; lia). lia. }
  assert (b = m * 32 + i) as ->.
  { pose proof (Z.add_lor_land (Z.shiftl m 5) i) as Ha. rewrite Hd, Z.shiftl_mul_pow2 in Ha by lia.
    unfold b, to_uint8. rewrite Z.shiftl_mul_pow2 by lia. lia. }
  split; [rewrite Z.shiftr_div_pow2 by lia; lia|].
  change 0x1f with (Z.ones 5). rewrite Z.land_ones by lia. lia.
Qed.

Lemma readUint_app n b rest v :
  zlen b = n → be_value b = v → readUint n (b ++ rest) = Ok (v, rest).
Proof.
  intros Hn <-. unfold readUint, readBytes. rewrite zlen_app. pose proof (zlen_nonneg rest).
  case_match; [lia|]. cbn [rbind]. unfold zlen in Hn. subst n. rewrite Nat2Z.id.
  by rewrite take_app_length, drop_app_length.
Qed.

Lemma be_uint32 v rest :
  0 <= v < UINT32_BASE → readUint 4 (uint32_bytes v ++ rest) = Ok (v, rest).
Proof.
  unfold UINT32_BASE. intros Hv. apply readUint_app; [done|].
  unfold be_value, uint32_bytes, to_uint8, ushr, UINT32_BASE; cbn [foldl].
  rewrite !Z.shiftr_div_pow2 by lia. lia.
Qed.

Lemma be_uint16 v rest :
  0 <= v < 0x10000 →
  readUint 2 ([to_uint8 (ushr v 8); to_uint8 v] ++ rest) = Ok (v, rest).
Proof.
  intros Hv. apply readUint_app; [done|].
  unfold be_value, to_uint8, ushr, UINT32_BASE; cbn [foldl].
  rewrite !Z.shiftr_div_pow2 by lia. lia.
Qed.

Definition arg_ok (v : Z) : Prop := 0 <= v <= MAX_SAFE_INTEGER.

(** What a head byte followed by [tail] tells the reader. *)
Definition heads (major v b : Z) (tail : bytes) : Prop :=
  Z.shiftr b 5 = major ∧ Z.land b 0x1f ≠ 31
  ∧ ∀ rest, readArgument (Z.land b 0x1f) (tail ++ rest) = Ok (v, rest).

Lemma writeArgument_heads w m v w' :
  writer_ok w → 0 <= m < 8 → arg_ok v → writeArgument w m v = Ok w' →
  ∃ b tail, writes w w' (b :: tail) ∧ heads m v b tail.
Proof.
  unfold arg_ok, MAX_SAFE_INTEGER. intros Hw Hm Hv. unfold writeArgument, heads.
  repeat split_if; intros Hok; inv_ok; unfold writeByte, writeUint16, writeUint32, writeUint64 in *; inv_ok.
  - destruct (head_byte m v Hm ltac:(lia)) as [Hs Hl].
    eexists _, []. split; [eauto with cbor|]. rewrite Hs, Hl.
    unfold readArgument. split; [done|]. split; [lia|]. intros rest. by case_match; [|lia].
  - destruct (head_byte m 24 Hm ltac:(lia)) as [Hs Hl].
    eexists _, [_]. split; [eapply (writes_trans _ _ _ [_] [_]); eauto with cbor|]. rewrite Hs, Hl.
    split; [done|]. split; [done|]. intros rest. cbn. unfold to_uint8. rewrite Z.mod_small by lia. done.
  - destruct (head_byte m 25 Hm ltac:(lia)) as [Hs Hl].
    eexists _, [_; _]. split; [eapply (writes_trans _ _ _ [_] [_; _]); eauto with cbor|]. rewrite Hs, Hl.
    split; [done|]. split; [done|]. intros rest. apply be_uint16. lia.
  - destruct (head_byte m 26 Hm ltac:(lia)) as [Hs Hl]. unfold MAX_UINT32 in *.
    eexists _, (uint32_bytes v). split; [eapply (writes_trans _ _ _ [_]); eauto with cbor|]. rewrite Hs, Hl.
    split; [done|]. split; [done|]. intros rest. apply be_uint32. unfold UINT32_BASE. lia.
  - destruct (head_byte m 27 Hm ltac:(lia)) as [Hs Hl]. unfold MAX_UINT32 in *.
    eexists _, (uint32_bytes (v / UINT32_BASE) ++ uint32_bytes (v - v / UINT32_BASE * UINT32_BASE)).
    split; [eapply (writes_trans _ _ _ [_]); [|eapply writes_trans]; eauto 6 with cbor|]. rewrite Hs, Hl.
    split; [done|]. split; [done|]. intros rest. unfold UINT32_BASE in *. rewrite <- app_assoc.
    change (readArgument 27 ?b) with
      (rbind (readUint 4 b) (λ '(high, bs), rbind (readUint 4 bs) (λ '(low, bs),
        if 0x1fffff <? high
        then Err (CborError (js "Decoded CBOR integer or length is outside the safe range"))
        else Ok (high * UINT32_BASE + low, bs)))).
    rewrite be_uint32 by (unfold UINT32_BASE; lia). cbn [rbind].
    rewrite be_uint32 by (unfold UINT32_BASE; lia). cbn [rbind].
    unfold UINT32_BASE. case_match; [lia|]. repeat f_equal. lia.
Qed.

(** ** What a decoded tree has to do with an encoded value *)

(** [denotes h v d]: following the references of [v] in [h] yields the tree [d];
    properties whose value is [undefined] are left out. *)
Inductive denotes (h : heap) : jsval → dval → Prop :=
| denotes_null : denotes h VNull DNull
| denotes_bool b : denotes h (VBool b) (DBool b)
| denotes_num n : denotes h (VNum n) (DNum n)
| denotes_str s : denotes h (VStr s) (DStr s)
| denotes_bytes l bs : h !! l = Some (OBytes bs) → denotes h (VRef l) (DBytes bs)
| denotes_array l elems ds :
    h !! l = Some (OArray elems) →
    Forall2 (λ e d, ∃ v, e = Some v ∧ denotes h v d) elems ds →
    denotes h (VRef l) (DArray ds)
| denotes_object l symbols props ds :
    h !! l = Some (OPlain symbols props) →
    Forall2 (λ kv kd, kv.1 = kd.1 ∧ denotes h kv.2 kd.2) (defined_entries props) ds →
    denotes h (VRef l) (DObject ds).

Definition val_ok (v : jsval) : Prop :=
  match v with VNum n => num_ok n = true | _ => True end.

(** What the language guarantees of an object: its keys are distinct and listed in
    [OwnPropertyKeys] order, and its numbers are doubles. *)
Definition obj_ok (ob : jsobj) : Prop :=
  match ob with
  | OArray elems => Forall (λ e, match e with Some v => val_ok v | None => True end) elems
  | OPlain _ props =>
      NoDup props.*1 ∧ StronglySorted (λ a b, key_before a.1 b.1 = true) props
      ∧ Forall (λ kv, val_ok kv.2) props
  | _ => True
  end.

Definition heap_ok (h : heap) : Prop := map_Forall (λ _ ob, obj_ok ob) h.

(** The ranges [resolveOptions] guarantees. *)
Definition opts_ok (o : ResolvedCborOptions) : Prop :=
  0 <= maxByteLength o <= MAX_UINT32 ∧ 0 <= maxContainerLength o <= MAX_UINT32
  ∧ 0 <= maxDepth o <= MAX_CONFIGURED_DEPTH.

Lemma resolveLimit_range name v max z : resolveLimit name v max = Ok z → 0 <= z <= max.
Proof. unfold resolveLimit. case_match eqn:E; [done|]. intros [= <-]. lia. Qed.

Lemma resolveOptions_ok options o : resolveOptions options = Ok o → opts_ok o.
Proof.
  unfold resolveOptions. intros Hr. inv_ok. unfold opts_ok; cbn.
  repeat match goal with H : resolveLimit _ _ _ = Ok _ |- _ => apply resolveLimit_range in H end.
  tauto.
Qed.

(** ** Leaves of the value grammar *)

Lemma readBytes_app bs rest : readBytes (zlen bs) (bs ++ rest) = Ok (bs, rest).
Proof.
  unfold readBytes. rewrite zlen_app. pose proof (zlen_nonneg rest). case_match; [lia|].
  unfold zlen. rewrite Nat2Z.id. by rewrite take_app_length, drop_app_length.
Qed.

Lemma readLength_heads major v b tail kind limit rest :
  heads major v b tail → v <= limit →
  readLength (Z.land b 0x1f) kind limit (tail ++ rest) = Ok (v, rest).
Proof.
  intros (_ & Hne & Hr) Hle. unfold readLength. case_match eqn:E; [lia|].
  rewrite Hr. cbn. case_match; [lia|done].
Qed.

Lemma arg_ok_length {A} (l : list A) max : zlen l <= max → max <= MAX_UINT32 → arg_ok (zlen l).
Proof. unfold arg_ok, MAX_SAFE_INTEGER, MAX_UINT32. pose proof (zlen_nonneg l). lia. Qed.

(** [item_reads o fuel depth chunk d]: the reader consumes [chunk] and yields [d]. *)
Definition item_reads (o : ResolvedCborOptions) (fuel : nat) (depth : Z) (chunk : bytes) (d : dval) : Prop :=
  ∀ rest, readItem fuel o depth (chunk ++ rest) = Ok (d, rest).

Section Leaves.
Context (o : ResolvedCborOptions) (Ho : opts_ok o).
Context (fuel : nat) (depth : Z) (Hdepth : depth <= maxDepth o).

(** Unfolds the reader at a chunk whose head is known. *)
Ltac read_head b :=
  intros rest; cbn [app readItem readByte rbind];
  replace (maxDepth o <? depth) with false by lia; cbn [rbind].

Lemma encodeText_reads w s w' :
  writer_ok w → encodeText w s o = Ok w' →
  ∃ chunk, writes w w' chunk ∧ item_reads o (S fuel) depth chunk (DStr s).
Proof.
  intros Hw. unfold encodeText. case_match eqn:E1; [done|]. case_match eqn:E2; [done|].
  intros Hok. inv_ok. bool_prop. destruct Ho as [Hb _].
  edestruct writeArgument_heads as (b & tail & Hwr & Hh); [exact Hw| | |done|]; [lia| |].
  { eapply arg_ok_length; [exact E1|lia]. }
  exists (b :: tail ++ textEncode s). split; [eapply (writes_trans _ _ _ (b :: tail)); unfold writeBytes in *; eauto with cbor|].
  read_head b. pose proof Hh as (-> & _ & _). rewrite <- app_assoc.
  erewrite readLength_heads by (done || lia). cbn [rbind].
  rewrite readBytes_app. cbn [rbind]. by rewrite E2.
Qed.

Lemma encodeBytes_reads w bs w1 w' :
  writer_ok w → zlen bs <= maxByteLength o →
  writeArgument w 2 (zlen bs) = Ok w1 → writeBytes w1 bs = Ok w' →
  ∃ chunk, writes w w' chunk ∧ item_reads o (S fuel) depth chunk (DBytes bs).
Proof.
  intros Hw Hlen H1 H2. destruct Ho as [Hb _].
  edestruct writeArgument_heads as (b & tail & Hwr & Hh); [exact Hw| | |done|]; [lia| |].
  { eapply arg_ok_length; [done|lia]. }
  exists (b :: tail ++ bs). split; [eapply (writes_trans _ _ _ (b :: tail)); unfold writeBytes in *; eauto with cbor|].
  read_head b. pose proof Hh as (-> & _ & _). rewrite <- app_assoc.
  erewrite readLength_heads by (done || lia). cbn [rbind]. by rewrite readBytes_app.
Qed.

Lemma be_float64 bits : 0 <= bits < 2 ^ 64 → be_value (float64_bytes bits) = bits.
Proof.
  intros. unfold float64_bytes, be_value, uint32_bytes, to_uint8, ushr, UINT32_BASE; cbn [foldl app].
  rewrite !Z.shiftr_div_pow2 by lia. lia.
Qed.

Lemma encodeNumber_reads w n w' :
  writer_ok w → num_ok n = true → encodeNumber w n = Ok w' →
  ∃ chunk, writes w w' chunk ∧ item_reads o (S fuel) depth chunk (DNum n).
Proof.
  intros Hw Hn. unfold encodeNumber. case_match eqn:Ef; [done|]. destruct n as [z|bits].
  - case_match eqn:Es; [done|]. bool_prop. unfold is_safe in Es. bool_prop. case_match eqn:Ez; intros Hok.
    + edestruct writeArgument_heads as (b & tail & Hwr & Hh); [exact Hw| | |done|]; [lia|unfold arg_ok; lia|].
      exists (b :: tail). split; [done|]. read_head b. destruct Hh as (-> & _ & Hr). by rewrite Hr.
    + edestruct writeArgument_heads as (b & tail & Hwr & Hh); [exact Hw| | |done|]; [lia| |].
      { unfold arg_ok, MAX_SAFE_INTEGER in *. lia. }
      exists (b :: tail). split; [done|]. read_head b. destruct Hh as (-> & _ & Hr). rewrite Hr. cbn [rbind].
      replace (-1 - (-1 - z)) with z by lia.
      replace (is_safe z) with true by (unfold is_safe; lia). done.
  - intros Hok. unfold writeFloat64 in Hok.
    exists (0xfb :: float64_bytes bits). split; [eauto with cbor|]. read_head 0xfb.
    change (Z.shiftr 0xfb 5) with 7. change (Z.land 0xfb 0x1f) with 27. cbv iota.
    cbn [num_ok] in Hn. bool_prop.
    change (readSimple 27 ?x) with (rbind (readBytes 8 x) (λ '(b, bs),
      let value := num_of_bits (be_value b) in
      if negb (isFinite value) then Err (CborError (js "Decoded CBOR number must be finite"))
      else if isInteger value && negb (isSafeInteger value)
      then Err (CborError (js "Decoded CBOR integer is outside the safe range"))
      else Ok (DNum value, bs))).
    change 8 with (zlen (float64_bytes bits)). rewrite readBytes_app. cbn [rbind].
    rewrite be_float64 by lia. rewrite H0. cbv zeta. rewrite Ef.
    cbn [isInteger isSafeInteger]. by destruct (bits =? neg_zero_bits).
Qed.
End Leaves.

(** ** Containers *)

Lemma define_property_last {A} (props : list (jsstr * A)) k v :
  Forall (λ kv, key_before kv.1 k = true) props → define_property props k v = props ++ [(k, v)].
Proof. induction 1 as [|kv props Hk _ IH]; [done|]. cbn. by rewrite Hk, IH. Qed.

Lemma writes_nil w : writer_ok w → writes w w [].
Proof.
  intros Hw. pose proof (zlen_finish w Hw) as Hz. destruct Hw as [? ?]. unfold writes.
  rewrite app_nil_r. repeat split; lia || done.
Qed.

Lemma encodeValue_depth fuel h o depth anc w v w' :
  encodeValue fuel h o depth anc w v = Ok w' → ∃ f, fuel = S f ∧ depth <= maxDepth o.
Proof.
  destruct fuel as [|f]; [done|]. cbn [encodeValue]. case_match eqn:E; [done|]. intros _.
  exists f. split; [done|lia].
Qed.

(** [encodes_item o fuel depth enc P]: every value accepted by [enc] is written as a
    chunk the reader maps to a tree related to it by [P]. *)
Definition encodes_item (o : ResolvedCborOptions) (fuel : nat) (depth : Z) {V}
    (ok : V → Prop) (P : V → dval → Prop) (enc : CborWriter → V → result cbor_exn CborWriter) : Prop :=
  ∀ w v w', ok v → writer_ok w → enc w v = Ok w' →
  ∃ chunk d, writes w w' chunk ∧ P v d ∧ item_reads o fuel depth chunk d.

Lemma foldM_reads_elems {V} o fuel depth (ok : V → Prop) P enc (elems : list V) :
  encodes_item o fuel depth ok P enc →
  Forall ok elems → ∀ w w', writer_ok w → foldM enc w elems = Ok w' →
  ∃ chunk ds, writes w w' chunk ∧ Forall2 P elems ds ∧
    ∀ acc rest, readElems (readItem fuel o depth) (length elems) acc (chunk ++ rest) = Ok (acc ++ ds, rest).
Proof.
  intros Henc. induction 1 as [|e elems He _ IH]; intros w w' Hw Hf; cbn [foldM length readElems] in *; inv_ok.
  { exists [], []. split; [by apply writes_nil|]. split; [done|]. intros. by rewrite app_nil_r. }
  destruct (Henc _ _ _ He Hw H) as (c1 & d & Hw1 & HP & Hr1).
  destruct (IH _ _ (writes_ok _ _ _ Hw1) H0) as (c2 & ds & Hw2 & HPs & Hr2).
  exists (c1 ++ c2), (d :: ds). split; [eauto with cbor|]. split; [by constructor|].
  intros acc rest. rewrite <- app_assoc, Hr1. cbn [rbind]. rewrite Hr2. by rewrite <- app_assoc.
Qed.

Section Entries.
Context (o : ResolvedCborOptions) (Ho : opts_ok o).
Context (h : heap) (fuel : nat) (depth : Z) (anc : gset loc).
Context (IH : encodes_item o fuel depth val_ok (denotes h)
                (λ w v, encodeValue fuel h o depth anc w v)).

Lemma foldM_reads_entries entries :
  NoDup entries.*1 → StronglySorted (λ a b, key_before a.1 b.1 = true) entries →
  Forall (λ kv, val_ok kv.2) entries → ∀ w w', writer_ok w →
  foldM (λ w kv, rbind (encodeText w kv.1 o) (λ w, encodeValue fuel h o depth anc w kv.2)) w entries = Ok w' →
  ∃ chunk ds, writes w w' chunk ∧ Forall2 (λ kv kd, kv.1 = kd.1 ∧ denotes h kv.2 kd.2) entries ds ∧
    ∀ (keys : gset jsstr) acc rest,
      Forall (λ kv, kv.1 ∉ keys) entries →
      Forall (λ a, Forall (λ b, key_before a.1 b.1 = true) entries) acc →
      readEntries (readItem fuel o depth) (length entries) keys acc (chunk ++ rest) = Ok (acc ++ ds, rest).
Proof.
  induction entries as [|[k v] entries IHe]; intros Hnd Hs Hok w w' Hw Hf;
    cbn [foldM length readEntries] in *.
  { inv_ok. exists [], []. split; [by apply writes_nil|]. split; [done|]. intros. by rewrite app_nil_r. }
  apply rbind_Ok in Hf as (w2 & (w1 & Ht & Hval)%rbind_Ok & Hrest).
  rewrite fmap_cons, NoDup_cons in Hnd. destruct Hnd as [Hk Hnd].
  apply StronglySorted_inv in Hs. destruct Hs as [Hs Hks]. inversion Hok as [|? ? Hv Hok']; subst.
  destruct (encodeValue_depth _ _ _ _ _ _ _ _ Hval) as (f & -> & Hd).
  destruct (encodeText_reads o Ho f depth Hd _ _ _ Hw Ht) as (c1 & Hw1 & Hr1).
  destruct (IH _ _ _ Hv (writes_ok _ _ _ Hw1) Hval) as (c2 & d & Hw2 & HP & Hr2).
  destruct (IHe Hnd Hs Hok' _ _ (writes_ok _ _ _ Hw2) Hrest) as (c3 & ds & Hw3 & HPs & Hr3).
  exists (c1 ++ c2 ++ c3), ((k, d) :: ds). split; [eauto with cbor|]. split; [by constructor|].
  intros keys acc rest Hkeys Hacc. inversion Hkeys as [|? ? Hk0 Hkeys']; subst.
  rewrite <- !app_assoc, Hr1. cbn [rbind]. rewrite bool_decide_eq_false_2 by done.
  rewrite Hr2. cbn [rbind]. rewrite define_property_last.
  2: { eapply Forall_impl; [exact Hacc|]. intros a Ha. by inversion Ha. }
  rewrite Hr3; [by rewrite <- app_assoc| |].
  - apply Forall_forall. intros [k' v'] Hin. rewrite Forall_forall in Hkeys'.
    specialize (Hkeys' _ Hin). assert (k' ≠ k) by (intros ->; apply Hk; apply list_elem_of_fmap; by exists (k, v')).
    apply not_elem_of_union; split; [by apply not_elem_of_singleton|done].
  - apply Forall_app; split; [|by constructor].
    eapply Forall_impl; [exact Hacc|]. intros a Ha. by inversion Ha.
Qed.
End Entries.

Lemma StronglySorted_filter {A} (R : A → A → Prop) (P : A → Prop) `{∀ x, Decision (P x)} l :
  StronglySorted R l → StronglySorted R (filter P l).
Proof.
  induction 1 as [|x l Hs IH Hx]; [constructor|]. rewrite filter_cons. case_decide; [|done].
  constructor; [done|]. apply Forall_forall. intros y [_ Hy]%list_elem_of_filter.
  by eapply Forall_forall in Hx.
Qed.

Lemma defined_entries_ok symbols props :
  obj_ok (OPlain symbols props) →
  NoDup (defined_entries props).*1
  ∧ StronglySorted (λ a b, key_before a.1 b.1 = true) (defined_entries props)
  ∧ Forall (λ kv, val_ok kv.2) (defined_entries props).
Proof.
  intros (Hnd & Hs & Hv). split; [|split; [by apply StronglySorted_filter|]].
  2: { apply Forall_forall. intros kv [_ Hin]%list_elem_of_filter. by eapply Forall_forall in Hv. }
  eapply sublist_NoDup; [exact Hnd|]. apply (fmap_sublist fst), sublist_filter.
Qed.

(** The encoder's output is a chunk that the reader, at the same depth, turns into
    the tree the value denotes. *)
Lemma encodeValue_reads fuel h o depth anc :
  opts_ok o → heap_ok h →
  encodes_item o fuel depth val_ok (denotes h) (λ w v, encodeValue fuel h o depth anc w v).
Proof.
  intros Ho Hh. revert depth anc. induction fuel as [|fuel IH]; intros depth anc w v w' Hv Hw; [done|].
  intros Henc. destruct (encodeValue_depth _ _ _ _ _ _ _ _ Henc) as (? & _ & Hd).
  cbn [encodeValue] in Henc. case_match eqn:Edepth; [done|].
  destruct v as [| |b|n|s|ty|l]; try discriminate Henc.
  - exists [0xf6], DNull. split; [unfold writeByte in Henc; eauto with cbor|]. split; [constructor|].
    intros rest. cbn [app readItem readByte rbind]. by rewrite Edepth.
  - exists [if b then 0xf5 else 0xf4], (DBool b).
    split; [unfold writeByte in Henc; destruct b; eauto with cbor|]. split; [constructor|].
    intros rest. cbn [app readItem readByte rbind]. rewrite Edepth. by destruct b.
  - destruct (encodeNumber_reads o fuel depth Hd _ _ _ Hw Hv Henc) as (c & ? & ?).
    exists c, (DNum n). split; [done|]. split; [constructor|done].
  - destruct (encodeText_reads o Ho fuel depth Hd _ _ _ Hw Henc) as (c & ? & ?).
    exists c, (DStr s). split; [done|]. split; [constructor|done].
  - destruct (h !! l) as [ob|] eqn:El; [|done]. pose proof (Hh l ob El) as Hob.
    destruct ob as [bs|elems|symbols props|]; [| | |done].
    + case_match eqn:Elen; [done|]. inv_ok.
      destruct (encodeBytes_reads o Ho fuel depth Hd w bs x0 w' Hw ltac:(lia)) as (c & ? & ?); [done..|].
      exists c, (DBytes bs). split; [done|]. split; [by constructor|done].
    + case_match; [done|]. case_match eqn:Elen; [done|].
      apply rbind_Ok in Henc as (w1 & Harg & Hfold).
      edestruct writeArgument_heads as (b & tail & Hwr & Hhd); [exact Hw| | |done|]; [lia| |].
      { destruct Ho as (_ & Hc & _). eapply (arg_ok_length _ (maxContainerLength o)); lia. }
      edestruct (foldM_reads_elems o fuel (depth + 1)
        (λ e, match e with Some v => val_ok v | None => True end)
        (λ e d, ∃ v, e = Some v ∧ denotes h v d)) as (c & ds & Hwc & HP & Hr); [|exact Hob|eapply writes_ok, Hwr|exact Hfold|].
      { intros wa e wb He Hwa Hok. destruct e as [v|]; [|done].
        assert (encodeValue fuel h o (depth + 1) ({[l]} ∪ anc) wa v = Ok wb) as Hok' by (by destruct v).
        destruct (IH _ _ _ _ _ He Hwa Hok') as (c & d & ? & ? & ?). exists c, d. split; [done|]. split; [eauto|done]. }
      exists (b :: tail ++ c), (DArray ds). split; [eapply (writes_trans _ _ _ (b :: tail)); eauto with cbor|].
      split; [by econstructor|]. intros rest. cbn [app readItem readByte rbind]. rewrite Edepth.
      pose proof Hhd as (-> & _ & _). rewrite <- app_assoc. erewrite readLength_heads by (done || lia).
      cbn [rbind]. unfold zlen. rewrite Nat2Z.id, Hr. done.
    + case_match; [done|]. case_match; [done|]. case_match eqn:Elen; [done|].
      apply rbind_Ok in Henc as (w1 & Harg & Hfold).
      edestruct writeArgument_heads as (b & tail & Hwr & Hhd); [exact Hw| | |done|]; [lia| |].
      { destruct Ho as (_ & Hc & _). eapply (arg_ok_length _ (maxContainerLength o)); lia. }
      destruct (defined_entries_ok _ _ Hob) as (Hnd & Hs & Hvs).
      edestruct (foldM_reads_entries o Ho h fuel (depth + 1) ({[l]} ∪ anc) (IH _ _) _ Hnd Hs Hvs)
        as (c & ds & Hwc & HP & Hr); [eapply writes_ok, Hwr|exact Hfold|].
      exists (b :: tail ++ c), (DObject ds). split; [eapply (writes_trans _ _ _ (b :: tail)); eauto with cbor|].
      split; [by econstructor|]. intros rest. cbn [app readItem readByte rbind]. rewrite Edepth.
      pose proof Hhd as (-> & _ & _). rewrite <- app_assoc. erewrite readLength_heads by (done || lia).
      cbn [rbind]. unfold zlen. rewrite Nat2Z.id, Hr; [done| |constructor].
      apply Forall_forall. intros ? _. apply not_elem_of_empty.
Qed.

(** ** The recursion bound *)

Definition no_fuel_error {A} (r : result cbor_exn A) : Prop := r ≠ Err OutOfFuel.

Lemma rbind_no_fuel {A B} (m : result cbor_exn A) (f : A → result cbor_exn B) :
  no_fuel_error m → (∀ a, m = Ok a → no_fuel_error (f a)) → no_fuel_error (rbind m f).
Proof. unfold no_fuel_error. destruct m; cbn; [eauto|congruence]. Qed.

Lemma foldM_no_fuel {A B} (f : B → A → result cbor_exn B) b l :
  (∀ b x, no_fuel_error (f b x)) → no_fuel_error (foldM f b l).
Proof.
  intros Hf. revert b. induction l as [|x l IH]; intros b; [done|]. cbn.
  apply rbind_no_fuel; auto.
Qed.

Create HintDb fuel.

(** Closes "this step throws something other than [OutOfFuel]". *)
Ltac no_fuel :=
  repeat first
    [ progress eauto with fuel
    | match goal with |- no_fuel_error (Ok _) => discriminate end
    | match goal with |- no_fuel_error (Err _) => discriminate end
    | apply rbind_no_fuel; [|intros]
    | apply foldM_no_fuel; intros | case_match ].

Lemma put_no_fuel w bs : no_fuel_error (put w bs).
Proof. unfold put, ensureCapacity. no_fuel. Qed.
#[export] Hint Resolve put_no_fuel : fuel.

Lemma writeArgument_no_fuel w m v : no_fuel_error (writeArgument w m v).
Proof. unfold writeArgument, writeByte, writeUint16, writeUint32, writeUint64. no_fuel. Qed.
#[export] Hint Resolve writeArgument_no_fuel : fuel.

Lemma encodeText_no_fuel w s o : no_fuel_error (encodeText w s o).
Proof. unfold encodeText, writeBytes. no_fuel. Qed.
Lemma encodeNumber_no_fuel w n : no_fuel_error (encodeNumber w n).
Proof. unfold encodeNumber, writeFloat64. no_fuel. Qed.
#[export] Hint Resolve encodeText_no_fuel encodeNumber_no_fuel : fuel.

Lemma encodeValue_no_fuel fuel h o depth anc w v :
  maxDepth o + 2 - depth <= Z.of_nat fuel → depth <= maxDepth o + 1 →
  no_fuel_error (encodeValue fuel h o depth anc w v).
Proof.
  revert depth anc w v. induction fuel as [|fuel IH]; intros depth anc w v Hf Hd; [lia|].
  cbn [encodeValue]. unfold writeByte, writeBytes. case_match eqn:E; [done|].
  assert (∀ anc w v, no_fuel_error (encodeValue fuel h o (depth + 1) anc w v)) as IH'
    by (intros; apply IH; lia).
  no_fuel.
Qed.

Lemma resolveOptions_no_fuel options : no_fuel_error (resolveOptions options).
Proof. unfold resolveOptions, resolveLimit. no_fuel. Qed.
#[export] Hint Resolve resolveOptions_no_fuel : fuel.

Lemma readBytes_no_fuel n bs : no_fuel_error (readBytes n bs).
Proof. unfold readBytes. no_fuel. Qed.
#[export] Hint Resolve readBytes_no_fuel : fuel.
Lemma readUint_no_fuel n bs : no_fuel_error (readUint n bs).
Proof. unfold readUint. no_fuel. Qed.
#[export] Hint Resolve readUint_no_fuel : fuel.
Lemma readArgument_no_fuel i bs : no_fuel_error (readArgument i bs).
Proof. unfold readArgument, readByte. no_fuel. Qed.
#[export] Hint Resolve readArgument_no_fuel : fuel.
Lemma readLength_no_fuel i k m bs : no_fuel_error (readLength i k m bs).
Proof. unfold readLength. no_fuel. Qed.
Lemma readSimple_no_fuel i bs : no_fuel_error (readSimple i bs).
Proof. unfold readSimple. no_fuel. Qed.
#[export] Hint Resolve readLength_no_fuel readSimple_no_fuel : fuel.

Lemma readElems_no_fuel item n acc bs :
  (∀ bs, no_fuel_error (item bs)) → no_fuel_error (readElems item n acc bs).
Proof. intros Hi. revert acc bs. induction n; intros; cbn; no_fuel. Qed.
Lemma readEntries_no_fuel item n keys acc bs :
  (∀ bs, no_fuel_error (item bs)) → no_fuel_error (readEntries item n keys acc bs).
Proof. intros Hi. revert keys acc bs. induction n; intros; cbn; no_fuel. Qed.
#[export] Hint Resolve readElems_no_fuel readEntries_no_fuel : fuel.

Lemma readItem_no_fuel fuel o depth bs :
  maxDepth o + 2 - depth <= Z.of_nat fuel → depth <= maxDepth o + 1 →
  no_fuel_error (readItem fuel o depth bs).
Proof.
  revert depth bs. induction fuel as [|fuel IH]; intros depth bs Hf Hd; [lia|].
  cbn [readItem]. case_match eqn:E; [done|].
  assert (∀ bs, no_fuel_error (readItem fuel o (depth + 1) bs)) as IH' by (intros; apply IH; lia).
  unfold readByte. no_fuel.
Qed.

Lemma depth_fuel_enough o : opts_ok o → maxDepth o + 2 - 0 <= Z.of_nat (depth_fuel o) ∧ 0 <= maxDepth o + 1.
Proof. intros (_ & _ & Hd). unfold depth_fuel. lia. Qed.

(** ** What the decoder may return *)

(** The tree respects the limits: nesting, container lengths, byte-string lengths,
    and every number is finite and, if integral, a safe integer. *)
Fixpoint dval_ok (o : ResolvedCborOptions) (depth : Z) (d : dval) : bool :=
  (depth <=? maxDepth o) &&
  match d with
  | DNull | DBool _ | DStr _ => true
  | DNum n => isFinite n && (negb (isInteger n) || isSafeInteger n)
  | DBytes bs => zlen bs <=? maxByteLength o
  | DArray ds => (zlen ds <=? maxContainerLength o) && forallb (dval_ok o (depth + 1)) ds
  | DObject ps =>
      (zlen ps <=? maxContainerLength o) && bool_decide (NoDup ps.*1)
      && forallb (λ kd, dval_ok o (depth + 1) kd.2) ps
  end.

Abbreviation all_bytes := (Forall (λ b, is_byte b = true)) (only parsing).

Lemma readBytes_inv n bs b rest :
  readBytes n bs = Ok (b, rest) → 0 <= n → all_bytes bs →
  zlen b = n ∧ all_bytes b ∧ all_bytes rest.
Proof.
  unfold readBytes. case_match; [done|]. intros [= <- <-] Hn Hb.
  rewrite zlen_take. split; [lia|]. split; [by apply Forall_take|by apply Forall_drop].
Qed.

Lemma be_value_bound n bs : zlen bs = Z.of_nat n → all_bytes bs → 0 <= be_value bs < 256 ^ Z.of_nat n.
Proof.
  unfold be_value. rewrite <- (rev_involutive bs). rewrite zlen_rev.
  generalize (rev bs) as l. intros l Hl Hb.
  revert n Hl Hb. induction l as [|b l IH]; intros n Hl Hb.
  { cbn. rewrite zlen_nil in Hl. assert (n = 0%nat) as -> by lia. done. }
  rewrite zlen_cons in Hl. destruct n as [|n]; [pose proof (zlen_nonneg l); lia|].
  cbn [rev] in *. apply Forall_app in Hb as [Hb Hb1]. inversion Hb1 as [|? ? Hx _]; subst.
  rewrite foldl_app. cbn [foldl]. specialize (IH n ltac:(lia) Hb).
  rewrite Nat2Z.inj_succ, Z.pow_succ_r by lia. unfold is_byte in Hx. lia.
Qed.

Lemma readUint_inv n bs v rest :
  readUint (Z.of_nat n) bs = Ok (v, rest) → all_bytes bs →
  0 <= v < 256 ^ Z.of_nat n ∧ all_bytes rest.
Proof.
  unfold readUint. intros Hr Hb. apply rbind_Ok in Hr as ([b r] & Hr & He).
  destruct (readBytes_inv _ _ _ _ Hr ltac:(lia) Hb) as (Hz & Hb' & Hrest).
  injection He as <- <-. split; [by apply be_value_bound|done].
Qed.

Lemma readArgument_inv info bs v rest :
  readArgument info bs = Ok (v, rest) → 0 <= info → all_bytes bs → arg_ok v ∧ all_bytes rest.
Proof.
  unfold readArgument, arg_ok, MAX_SAFE_INTEGER. intros Hr Hi Hb.
  repeat case_match; try discriminate Hr.
  - injection Hr as <- <-. split; [lia|done].
  - unfold readByte in Hr. destruct bs as [|b bs']; [done|]. injection Hr as <- <-.
    inversion Hb as [|? ? Hx ?]; subst. unfold is_byte in Hx. split; [lia|done].
  - apply (readUint_inv 2) in Hr as [? ?]; [|done]. split; [lia|done].
  - apply (readUint_inv 4) in Hr as [? ?]; [|done]. split; [lia|done].
  - apply rbind_Ok in Hr as ([high bs1] & Hh & Hr). apply rbind_Ok in Hr as ([low bs2] & Hl & Hr).
    apply (readUint_inv 4) in Hh as [? ?]; [|done]. apply (readUint_inv 4) in Hl as [? ?]; [|done].
    case_match; [done|]. injection Hr as <- <-. unfold UINT32_BASE in *. split; [lia|done].
Qed.

Lemma readLength_inv info kind limit bs v rest :
  readLength info kind limit bs = Ok (v, rest) → 0 <= info → all_bytes bs →
  0 <= v <= limit ∧ all_bytes rest.
Proof.
  unfold readLength. case_match; [done|]. intros Hr Hi Hb.
  apply rbind_Ok in Hr as ([n bs1] & Ha & Hr). case_match; [done|]. injection Hr as <- <-.
  apply readArgument_inv in Ha as [Ha ?]; [|done..]. unfold arg_ok in Ha. split; [lia|done].
Qed.

Lemma elem_define_property {A} (props : list (jsstr * A)) k v x :
  x ∈ define_property props k v ↔ x = (k, v) ∨ x ∈ props.
Proof.
  induction props as [|kv props IH]; cbn; [rewrite list_elem_of_singleton; set_solver|].
  case_match; rewrite !elem_of_cons; [rewrite IH|]; tauto.
Qed.

Lemma define_property_keys {A} (props : list (jsstr * A)) k v :
  NoDup props.*1 → k ∉ props.*1 →
  NoDup (define_property props k v).*1 ∧ zlen (define_property props k v) = zlen props + 1.
Proof.
  induction props as [|kv props IH]; cbn; intros Hnd Hk; [split; [apply NoDup_singleton|done]|].
  apply NoDup_cons in Hnd as [Hkv Hnd]. apply not_elem_of_cons in Hk as [Hne Hk].
  destruct (IH Hnd Hk) as [IH1 IH2]. case_match; rewrite !zlen_cons.
  - split; [|lia]. rewrite fmap_cons. apply NoDup_cons. split; [|done].
    intros ([k' v'] & He & Hin)%list_elem_of_fmap. apply elem_define_property in Hin as [[= -> ->]|Hin]; [done|].
    apply Hkv. apply list_elem_of_fmap. by eexists.
  - split; [|lia]. rewrite !fmap_cons. apply NoDup_cons. split; [by apply not_elem_of_cons|].
    by apply NoDup_cons.
Qed.

Section ReadLoops.
Context (item : bytes → result cbor_exn (dval * bytes)) (P : dval → bool).
Context (Hitem : ∀ bs d rest, item bs = Ok (d, rest) → all_bytes bs → P d = true ∧ all_bytes rest).

Lemma readElems_inv n acc bs ds rest :
  readElems item n acc bs = Ok (ds, rest) → all_bytes bs → forallb P acc = true →
  forallb P ds = true ∧ zlen ds = zlen acc + Z.of_nat n ∧ all_bytes rest.
Proof.
  revert acc bs. induction n as [|n IH]; intros acc bs Hr Hb Ha; cbn [readElems] in Hr.
  - injection Hr as <- <-. split; [done|]. split; [lia|done].
  - apply rbind_Ok in Hr as ([d bs1] & H1 & Hr). apply Hitem in H1 as [Hd Hb1]; [|done].
    apply IH in Hr as (? & Hz & ?); [|done|rewrite forallb_app, Ha; cbn; by rewrite Hd].
    rewrite zlen_app, zlen_cons, zlen_nil in Hz. split; [done|]. split; [lia|done].
Qed.

Lemma readEntries_inv n keys acc bs ps rest :
  readEntries item n keys acc bs = Ok (ps, rest) → all_bytes bs →
  (∀ k, k ∈ acc.*1 → k ∈ keys) → NoDup acc.*1 → (∀ kd, kd ∈ acc → P kd.2 = true) →
  (∀ kd, kd ∈ ps → P kd.2 = true) ∧ NoDup ps.*1 ∧ zlen ps = zlen acc + Z.of_nat n ∧ all_bytes rest.
Proof.
  revert keys acc bs. induction n as [|n IH]; intros keys acc bs Hr Hb Hk Hnd Ha; cbn [readEntries] in Hr.
  - injection Hr as <- <-. split; [done|]. split; [done|]. split; [lia|done].
  - apply rbind_Ok in Hr as ([k bs1] & H1 & Hr). apply Hitem in H1 as [_ Hb1]; [|done].
    destruct k; try discriminate Hr. case_bool_decide as Hin; [done|].
    apply rbind_Ok in Hr as ([d bs2] & H2 & Hr). apply Hitem in H2 as [Hd Hb2]; [|done].
    destruct (define_property_keys acc s d Hnd) as [Hnd' Hz']; [by intros ?%Hk|].
    apply IH in Hr as (? & ? & Hz & ?); [|done| |done|].
    + split; [done|]. split; [done|]. split; [lia|done].
    + intros k ([k' v'] & -> & [[= -> ->]|Hkin]%elem_define_property)%list_elem_of_fmap.
      * apply elem_of_union_l, elem_of_singleton; done.
      * apply elem_of_union_r, Hk, list_elem_of_fmap. by eexists.
    + intros kd [->|?]%elem_define_property; [done|auto].
Qed.
End ReadLoops.

Lemma readItem_ok fuel o depth bs d rest :
  readItem fuel o depth bs = Ok (d, rest) → all_bytes bs →
  dval_ok o depth d = true ∧ all_bytes rest.
Proof.
  revert depth bs d rest. induction fuel as [|fuel IH]; intros depth bs d rest Hr Hb; [done|].
  cbn [readItem] in Hr. case_match eqn:Ed; [done|]. assert ((depth <=? maxDepth o) = true) as Hd by lia.
  apply rbind_Ok in Hr as ([b0 bs0] & H0 & Hr). unfold readByte in H0. destruct bs as [|b bs']; [done|].
  injection H0 as -> ->. inversion Hb as [|? ? Hb0 Hb1]; subst.
  set (info := Z.land b0 0x1f) in *. assert (0 <= info) as Hi by (apply Z.land_nonneg; right; done).
  clearbody info. destruct (Z.shiftr b0 5) as [|p|]; [|repeat (destruct p as [p|p|]; try discriminate Hr)|done].
  - apply rbind_Ok in Hr as ([n bs1] & H1 & Hr). injection Hr as <- <-.
    apply readArgument_inv in H1 as [Hn ?]; [|done..]. split; [|done]. cbn. rewrite Hd. cbn.
    unfold is_safe, arg_ok, MAX_SAFE_INTEGER in *. lia.
  - unfold readSimple in Hr. repeat case_match; try discriminate Hr; try (injection Hr as <- <-; cbn; by rewrite Hd).
    apply rbind_Ok in Hr as ([b8 bs1] & H1' & Hr). apply readBytes_inv in H1' as (_ & _ & ?); [|lia|done].
    cbv zeta in Hr. case_match eqn:Ef; [done|]. case_match eqn:Es; [done|]. injection Hr as <- <-.
    split; [|done]. cbn. rewrite Hd. apply negb_false_iff in Ef. rewrite Ef. cbn.
    destruct (isInteger _), (isSafeInteger _); done.
  - apply rbind_Ok in Hr as ([n bs1] & H1 & Hr). apply readLength_inv in H1 as [Hn Hb2]; [|done..].
    apply rbind_Ok in Hr as ([ps bs2] & H2 & Hr). injection Hr as <- <-.
    apply (readEntries_inv _ _ (IH _)) in H2 as (HP & Hnd & Hz & ?); [|done|set_solver|constructor|set_solver].
    split; [|done]. cbn. rewrite Hd, bool_decide_eq_true_2 by done. rewrite zlen_nil in Hz.
    replace (zlen ps <=? maxContainerLength o) with true by lia. cbn.
    apply forallb_forall. intros kd Hin. apply HP. by apply list_elem_of_In.
  - apply rbind_Ok in Hr as ([n bs1] & H1 & Hr). apply readLength_inv in H1 as [Hn Hb2]; [|done..].
    apply rbind_Ok in Hr as ([b bs2] & H2 & Hr). apply readBytes_inv in H2 as (_ & _ & ?); [|lia|done].
    case_match; [|done]. injection Hr as <- <-. split; [|done]. cbn. by rewrite Hd.
  - apply rbind_Ok in Hr as ([n bs1] & H1 & Hr). apply readLength_inv in H1 as [Hn Hb2]; [|done..].
    apply rbind_Ok in Hr as ([ds bs2] & H2 & Hr). injection Hr as <- <-.
    apply (readElems_inv _ _ (IH _)) in H2 as (HP & Hz & ?); [|done|done].
    split; [|done]. cbn. rewrite Hd, HP. rewrite zlen_nil in Hz. cbn. lia.
  - apply rbind_Ok in Hr as ([n bs1] & H1 & Hr). apply readLength_inv in H1 as [Hn Hb2]; [|done..].
    apply rbind_Ok in Hr as ([b bs2] & H2 & Hr). apply readBytes_inv in H2 as (Hz & _ & ?); [|lia|done].
    injection Hr as <- <-. split; [|done]. cbn. rewrite Hd. cbn. lia.
  - apply rbind_Ok in Hr as ([n bs1] & H1 & Hr). apply readArgument_inv in H1 as [Hn ?]; [|done..].
    case_match eqn:Es; [done|]. injection Hr as <- <-. split; [|done]. cbn. rewrite Hd. cbn.
    by apply negb_false_iff in Es.
Qed.

(** ** Cycles *)

(** [child h l l']: the object at [l] holds a reference to the object at [l']. *)
Inductive child (h : heap) (l l' : loc) : Prop :=
| child_elem elems : h !! l = Some (OArray elems) → Some (VRef l') ∈ elems → child h l l'
| child_prop symbols props k : h !! l = Some (OPlain symbols props) → (k, VRef l') ∈ props → child h l l'.

Fixpoint dsize (d : dval) : nat :=
  match d with
  | DArray ds => S (list_sum (dsize <$> ds))
  | DObject ps => S (list_sum ((λ kd, dsize kd.2) <$> ps))
  | _ => 1
  end.

Lemma list_sum_elem {A} (f : A → nat) x l : x ∈ l → (f x <= list_sum (f <$> l))%nat.
Proof. induction 1; rewrite fmap_cons; simpl; lia. Qed.

Lemma denotes_acc h n l d : (dsize d < n)%nat → denotes h (VRef l) d → Acc (flip (child h)) l.
Proof.
  revert l d. induction n as [|n IH]; intros l d Hn Hd; [lia|].
  constructor. intros l' [elems Hl Hin|symbols props k Hl Hin];
    inversion Hd as [| | | |? ? Hl'|? ? ds Hl' HF|? ? ? ds Hl' HF]; subst; rewrite Hl in Hl'; simplify_eq; cbn in Hn.
  - apply list_elem_of_lookup in Hin as [i Hi]. destruct (Forall2_lookup_l _ _ _ _ _ HF Hi) as (d' & Hd' & v & He & Hv).
    injection He as <-.
    apply list_elem_of_lookup_2 in Hd'. pose proof (list_sum_elem dsize d' ds Hd').
    eapply IH; [|exact Hv]. lia.
  - assert ((k, VRef l') ∈ defined_entries _) as Hin' by (by apply list_elem_of_filter).
    apply list_elem_of_lookup in Hin' as [i Hi]. destruct (Forall2_lookup_l _ _ _ _ _ HF Hi) as ([k' d'] & Hd' & _ & Hv).
    apply list_elem_of_lookup_2 in Hd'. pose proof (list_sum_elem (λ kd, dsize kd.2) _ ds Hd') as Hs.
    cbn in *. eapply IH; [|exact Hv]. lia.
Qed.

Lemma acc_no_cycle {A} (R : A → A → Prop) x : Acc (flip R) x → ∀ y, rtc R x y → tc R y y → False.
Proof.
  induction 1 as [x _ IH]. intros y Hr Hy. destruct (rtc_inv _ _ Hr) as [->|(z & Hz & Hzy)].
  - inversion Hy as [? ? Hs|? z ? Hs Ht]; subst.
    + by apply (IH y Hs y).
    + apply (IH z Hs z); [done|]. eapply tc_r; [exact Ht|exact Hs].
  - by apply (IH z Hz y).
Qed.

(** ** The package's contract *)

(** Round trip: whenever [encodeCbor] accepts a JavaScript value, its output is
    decoded under the same options without error, and the result is the tree the
    value denotes (object identities forgotten, [undefined] properties dropped,
    property order and every number, string and byte kept). *)
Theorem cbor_roundtrip h v options bs :
  heap_ok h → val_ok v → encodeCbor h v options = Ok bs →
  ∃ d, denotes h v d ∧ decodeCbor bs options = Ok d.
Proof.
  intros Hh Hv Henc. unfold encodeCbor in Henc. apply rbind_Ok in Henc as (o & Ho & Henc).
  apply rbind_Ok in Henc as (w & Henc & Hf). injection Hf as <-.
  pose proof (resolveOptions_ok _ _ Ho) as Hok. pose proof Hok as (Hm & _).
  destruct (newWriter_ok (maxByteLength o)) as [Hw0 Hf0]; [lia|].
  destruct (encodeValue_reads _ _ _ _ _ Hok Hh _ _ _ Hv Hw0 Henc) as (c & d & Hwr & Hden & Hr).
  destruct Hwr as (Hw & _ & Hfin & Hlen). rewrite Hf0 in Hfin, Hlen. cbn [app newWriter w_max] in Hfin, Hlen.
  exists d. split; [done|]. unfold decodeCbor. rewrite Ho. cbn [rbind]. rewrite Hfin.
  case_match eqn:E; [lia|]. specialize (Hr []). rewrite app_nil_r in Hr. by rewrite Hr.
Qed.

(** Every value [decodeCbor] returns respects the configured limits on nesting,
    container and byte-string lengths, has distinct object keys, and holds only
    finite numbers whose integers are safe, whatever the input bytes are. *)
Theorem cbor_decode_bounded bs options d :
  Forall (λ b, is_byte b = true) bs → decodeCbor bs options = Ok d →
  ∃ o, resolveOptions options = Ok o ∧ opts_ok o ∧ zlen bs <= maxByteLength o ∧ dval_ok o 0 d = true.
Proof.
  intros Hb Hdec. unfold decodeCbor in Hdec. apply rbind_Ok in Hdec as (o & Ho & Hdec).
  case_match eqn:E; [done|]. apply rbind_Ok in Hdec as ([v rest] & Hr & Hdec).
  case_match; [done|]. injection Hdec as <-. exists o.
  split; [done|]. split; [by eapply resolveOptions_ok|]. split; [lia|].
  by eapply readItem_ok in Hr as [? _].
Qed.

(** A value from which a cyclic object can be reached is never encoded: the
    encoder throws, whatever the limits. *)
Theorem cbor_cycle_rejected h l c options bs :
  heap_ok h → rtc (child h) l c → tc (child h) c c → encodeCbor h (VRef l) options ≠ Ok bs.
Proof.
  intros Hh Hr Hc Henc.
  unfold encodeCbor in Henc. apply rbind_Ok in Henc as (o & Ho & Henc).
  apply rbind_Ok in Henc as (w & Henc & _). pose proof (resolveOptions_ok _ _ Ho) as Hok. pose proof Hok as (Hm & _).
  destruct (newWriter_ok (maxByteLength o)) as [Hw0 _]; [lia|].
  destruct (encodeValue_reads _ _ _ _ _ Hok Hh _ (VRef l) _ I Hw0 Henc) as (_ & d & _ & Hden & _).
  apply (acc_no_cycle (child h) l) with c; [apply (denotes_acc h (S (dsize d)) l d); [lia|exact Hden]|exact Hr|exact Hc].
Qed.

(** Encoding and decoding terminate: the fuel derived from [maxDepth] is never
    used up, so the models answer with a result or an exception of the source. *)
Theorem cbor_terminates h v bs options :
  encodeCbor h v options ≠ Err OutOfFuel ∧ decodeCbor bs options ≠ Err OutOfFuel.
Proof.
  split.
  - unfold encodeCbor. apply rbind_no_fuel; [apply resolveOptions_no_fuel|]. intros o Ho.
    apply resolveOptions_ok, depth_fuel_enough in Ho as [? ?].
    apply rbind_no_fuel; [by apply encodeValue_no_fuel|]. intros. discriminate.
  - unfold decodeCbor. apply rbind_no_fuel; [apply resolveOptions_no_fuel|]. intros o Ho.
    apply resolveOptions_ok, depth_fuel_enough in Ho as [? ?].
    case_match; [discriminate|]. apply rbind_no_fuel; [by apply readItem_no_fuel|]. intros [d rest] _.
    case_match; discriminate.
Qed.

(** The growable buffer is invisible: writing chunks to a fresh writer yields
    exactly their concatenation while it fits the byte limit, and the limit error
    as soon as it does not. *)
Theorem writer_refines max chunks :
  0 <= max →
  match foldM put (newWriter max) chunks with
  | Ok w => finish w = concat chunks ∧ zlen (concat chunks) <= max
  | Err e => e = limit_error (js "byte length") max ∧ max < zlen (concat chunks)
  end.
Proof.
  intros Hmax. destruct (newWriter_ok max Hmax) as [Hw Hf].
  enough (∀ w, writer_ok w → match foldM put w chunks with
    | Ok w' => finish w' = finish w ++ concat chunks ∧ zlen (finish w ++ concat chunks) <= w_max w
    | Err e => e = limit_error (js "byte length") (w_max w) ∧ w_max w < zlen (finish w ++ concat chunks) end) as Hg.
  { specialize (Hg _ Hw). by rewrite Hf in Hg. }
  clear Hw Hf. induction chunks as [|c chunks IH]; intros w Hw; cbn [foldM concat].
  { rewrite app_nil_r, zlen_finish by done. destruct Hw. split; [done|lia]. }
  pose proof (put_spec w c Hw) as Hp. destruct (put w c) as [w1|e]; cbn [rbind].
  - destruct Hp as (Hw1 & Hm & Hfin & Hle). specialize (IH w1 Hw1). rewrite Hm, Hfin, <- app_assoc in IH. done.
  - destruct Hp as [-> Hlt]. split; [done|]. rewrite !zlen_app in *. pose proof (zlen_nonneg (concat chunks)). lia.
Qed.

(** ** Witnesses *)

(** [{ b: [1000, "é", 0.5], a: -5, x: undefined }] on a small heap. *)
Definition sample_heap : heap :=
  <[1%positive := OPlain [false] [(js "b", VRef 2); (js "a", VNum (NInt (-5))); (js "x", VUndefined)]]>
  {[2%positive := OArray [Some (VNum (NInt 1000)); Some (VStr (js "é")); Some (VNum (NBits 0x3FE0000000000000))]]}.

Definition cycle_heap : heap :=
  <[1%positive := OArray [Some (VRef 2)]]> {[2%positive := OPlain [] [(js "up", VRef 1)]]}.

Lemma sample_heap_ok : heap_ok sample_heap.
Proof.
  unfold sample_heap. apply map_Forall_insert_2; [|apply map_Forall_singleton].
  - split; [apply (bool_decide_unpack _); vm_compute; exact I|]. split; [|by repeat constructor].
    repeat constructor; vm_compute; reflexivity.
  - repeat constructor; vm_compute; reflexivity.
Qed.

Lemma cycle_heap_ok : heap_ok cycle_heap.
Proof.
  unfold cycle_heap. apply map_Forall_insert_2; [by repeat constructor|].
  apply map_Forall_singleton. split; [apply NoDup_singleton|]. by repeat constructor.
Qed.

Lemma cbor_roundtrip_witness :
  (∃ bs, encodeCbor sample_heap (VRef 1) None = Ok bs ∧ zlen bs = 22)
  ∧ ∃ d, denotes sample_heap (VRef 1) d
      ∧ decodeCbor [0xa2; 0x61; 0x62; 0x83; 0x19; 3; 0xe8; 0x62; 0xc3; 0xa9;
                    0xfb; 0x3f; 0xe0; 0; 0; 0; 0; 0; 0; 0x61; 0x61; 0x24] None = Ok d.
Proof.
  split; [eexists; split; vm_compute; reflexivity|].
  apply (cbor_roundtrip sample_heap (VRef 1) None); [apply sample_heap_ok|exact I|vm_compute; reflexivity].
Defined.

Lemma cbor_decode_bounded_witness :
  decodeCbor [0x82; 0x01; 0x20] None = Ok (DArray [DNum (NInt 1); DNum (NInt (-1))])
  ∧ ∃ o, resolveOptions None = Ok o ∧ opts_ok o ∧ zlen [0x82; 0x01; 0x20] <= maxByteLength o
      ∧ dval_ok o 0 (DArray [DNum (NInt 1); DNum (NInt (-1))]) = true.
Proof.
  split; [vm_compute; reflexivity|].
  apply cbor_decode_bounded; [repeat constructor|vm_compute; reflexivity].
Defined.

Lemma cbor_cycle_rejected_witness :
  encodeCbor cycle_heap (VRef 1) None = Err (CborError (js "CBOR values must not contain cycles"))
  ∧ ∀ bs, encodeCbor cycle_heap (VRef 1) None ≠ Ok bs.
Proof.
  split; [vm_compute; reflexivity|]. intros bs.
  apply (cbor_cycle_rejected cycle_heap 1 1); [apply cycle_heap_ok|apply rtc_refl|].
  eapply tc_l; [|apply tc_once].
  - by eapply (child_elem _ _ 2 [Some (VRef 2)]); [vm_compute; reflexivity|left].
  - by eapply (child_prop _ _ 1 [] [(js "up", VRef 1)]); [vm_compute; reflexivity|left].
Defined.

Lemma writer_refines_witness :
  (∃ w, foldM put (newWriter 3) [[1]; [2; 3]] = Ok w ∧ finish w = [1; 2; 3])
  ∧ foldM put (newWriter 3) [[1]; [2; 3]; [4]] = Err (limit_error (js "byte length") 3)
  ∧ match foldM put (newWriter 3) [[1]; [2; 3]] with
    | Ok w => finish w = [1; 2; 3] ∧ 3 <= 3
    | Err e => e = limit_error (js "byte length") 3 ∧ 3 < 3
    end.
Proof.
  split; [eexists; split; vm_compute; reflexivity|]. split; [vm_compute; reflexivity|].
  apply (writer_refines 3 [[1]; [2; 3]]). lia.
Defined.
