(* ===== verification/Framing.v ===== *)
(** * Length-prefixed framing of the wire protocol

    Models [packages/protocol/src/framing.ts]: [encodeFrame], [assertCompleteFrame]
    and the incremental [FrameDecoder] with its block buffers, and relates the
    decoder to a byte-at-a-time specification. *)
From S2P Require Import Prelude JsString.

Module Framing.

Definition FRAME_HEADER_LENGTH : Z := 4.
Definition MAX_UINT32 : Z := 0xffffffff.
Definition PAYLOAD_BLOCK_SIZE : Z := 64 * 1024.
Definition DEFAULT_MAX_FRAME_LENGTH : Z := 16 * 1024 * 1024.

(** [FrameError] and [RangeError]; [OutOfFuel] is the model's own (see
    [push_refines], which shows it does not occur). *)
Inductive frame_exn :=
| FrameError (message : jsstr)
| FrameRangeError (message : jsstr)
| OutOfFuel.

(** [options?.maxFrameLength]: [None] when absent. *)
Definition resolveMaxFrameLength (options : option jsnum) : result frame_exn Z :=
  let value := default (NInt DEFAULT_MAX_FRAME_LENGTH) options in
  let v := match value with NInt z => z | NBits _ => 0 end in
  if negb (isSafeInteger value) || (v <? 0) || (MAX_UINT32 <? v)
  then Err (FrameRangeError (js "maxFrameLength must be an integer between 0 and " ++ num_str MAX_UINT32))
  else Ok v.

Definition low8 (v : Z) : Z := v mod 0x100.
Definition ushr (v n : Z) : Z := Z.shiftr (v mod 0x100000000) n.

Definition frame_header (length : Z) : bytes :=
  [low8 (ushr length 24); low8 (ushr length 16); low8 (ushr length 8); low8 length].

Definition encodeFrame (payload : bytes) : result frame_exn bytes :=
  if MAX_UINT32 <? zlen payload
  then Err (FrameRangeError (js "Frame payload exceeds the unsigned 32-bit length limit"))
  else Ok (frame_header (zlen payload) ++ payload).

(** [h[0] * 0x1000000 + h[1] * 0x10000 + h[2] * 0x100 + h[3]] *)
Definition header_value (h : bytes) : Z :=
  nth 0 h 0 * 0x1000000 + nth 1 h 0 * 0x10000 + nth 2 h 0 * 0x100 + nth 3 h 0.

Definition too_long (length max : Z) : frame_exn :=
  FrameError (js "Frame length " ++ num_str length ++ js " exceeds configured limit of " ++ num_str max).

Definition assertCompleteFrame (frame : bytes) (options : option jsnum) : result frame_exn () :=
  if zlen frame <? FRAME_HEADER_LENGTH
  then Err (FrameError (js "Frame does not contain a complete length prefix"))
  else
    let length := header_value frame in
    let* maxFrameLength := resolveMaxFrameLength options in
    if maxFrameLength <? length then Err (too_long length maxFrameLength)
    else if negb (zlen frame =? FRAME_HEADER_LENGTH + length)
    then Err (FrameError (js "Frame must contain exactly one complete payload"))
    else Ok ().

(** ** The incremental decoder *)

Inductive DecoderState := open | ended | failed.

(** A payload block: its allocated size and the bytes stored so far.  Read as an
    array it is padded with zeros. *)
Record block := { bk_size : Z; bk_data : bytes }.
Definition block_bytes (b : block) : bytes :=
  bk_data b ++ replicate (Z.to_nat (bk_size b - zlen (bk_data b))) 0.

(** [FrameDecoder].  [header] holds the first [headerLength] header bytes;
    [payloadBlocks] lists the blocks in order, the last of which, when present, is
    [currentPayloadBlock]. *)
Record FrameDecoder := {
  header : bytes;
  maxFrameLength : Z;
  payloadBlocks : list block;
  currentPayloadBlock : option block;
  expectedPayloadLength : option Z;
  payloadLength : Z;
  state : DecoderState }.

Definition newDecoder (options : option jsnum) : result frame_exn FrameDecoder :=
  let* m := resolveMaxFrameLength options in
  Ok {| header := []; maxFrameLength := m; payloadBlocks := []; currentPayloadBlock := None;
        expectedPayloadLength := None; payloadLength := 0; state := open |}.

(** What [fail] leaves behind before it throws. *)
Definition fail (d : FrameDecoder) : FrameDecoder :=
  {| header := []; maxFrameLength := maxFrameLength d; payloadBlocks := []; currentPayloadBlock := None;
     expectedPayloadLength := None; payloadLength := 0; state := failed |}.

Definition with_header (d : FrameDecoder) (h : bytes) : FrameDecoder :=
  {| header := h; maxFrameLength := maxFrameLength d; payloadBlocks := payloadBlocks d;
     currentPayloadBlock := currentPayloadBlock d; expectedPayloadLength := expectedPayloadLength d;
     payloadLength := payloadLength d; state := state d |}.

(** The reset of the payload fields, around an expectation. *)
Definition with_expected (d : FrameDecoder) (e : option Z) : FrameDecoder :=
  {| header := header d; maxFrameLength := maxFrameLength d; payloadBlocks := [];
     currentPayloadBlock := None; expectedPayloadLength := e; payloadLength := 0; state := state d |}.

(** [payloadBlocks] together with the current block, in order: the source pushes the
    current block on the list as soon as it is allocated. *)
Definition all_blocks (d : FrameDecoder) : list block :=
  payloadBlocks d ++ match currentPayloadBlock d with Some b => [b] | None => [] end.

(** One round of the inner loop: allocate a block when there is none or the current
    one is full, then copy what fits. Returns the rest of the chunk. *)
Definition fill_block (d : FrameDecoder) (expected : Z) (chunk : bytes) : FrameDecoder * bytes :=
  let fresh := {| bk_size := Z.min PAYLOAD_BLOCK_SIZE (expected - payloadLength d); bk_data := [] |} in
  let '(blocks, b) :=
    match currentPayloadBlock d with
    | None => (payloadBlocks d, fresh)
    | Some b => if zlen (bk_data b) =? bk_size b then (payloadBlocks d ++ [b], fresh)
                else (payloadBlocks d, b)
    end in
  let payloadBytes := Z.min (bk_size b - zlen (bk_data b)) (zlen chunk) in
  ({| header := header d; maxFrameLength := maxFrameLength d; payloadBlocks := blocks;
      currentPayloadBlock :=
        Some {| bk_size := bk_size b; bk_data := bk_data b ++ take (Z.to_nat payloadBytes) chunk |};
      expectedPayloadLength := expectedPayloadLength d;
      payloadLength := payloadLength d + payloadBytes; state := state d |},
   drop (Z.to_nat payloadBytes) chunk).

(** [while (chunkOffset < chunk.byteLength && payloadLength < expected)] *)
Fixpoint fill_loop (fuel : nat) (d : FrameDecoder) (expected : Z) (chunk : bytes)
    : option (FrameDecoder * bytes) :=
  match chunk with
  | [] => Some (d, chunk)
  | _ =>
      if payloadLength d <? expected then
        match fuel with
        | O => None
        | S fuel' => let '(d', chunk') := fill_block d expected chunk in fill_loop fuel' d' expected chunk'
        end
      else Some (d, chunk)
  end.

(** The finished payload: the single block, or the blocks copied one after another. *)
Definition assemble (d : FrameDecoder) : bytes := all_blocks d ≫= block_bytes.

(** The payload part of one iteration of [push]'s outer loop. *)
Definition payload_step (d : FrameDecoder) (expected : Z) (frames : list bytes) (chunk : bytes)
    : option (FrameDecoder * list bytes * bytes) :=
  match fill_loop (length chunk) d expected chunk with
  | None => None
  | Some (d', chunk') =>
      if payloadLength d' =? expected
      then Some (with_expected d' None, frames ++ [assemble d'], chunk')
      else Some (d', frames, chunk')
  end.

(** [push]: the outer loop over the chunk.  A throw also returns the decoder as
    [fail] left it; the frames collected so far are lost with it, as in the source. *)
Fixpoint push_loop (fuel : nat) (d : FrameDecoder) (frames : list bytes) (chunk : bytes)
    : FrameDecoder * result frame_exn (list bytes) :=
  match chunk with
  | [] => (d, Ok frames)
  | _ =>
    match fuel with
    | O => (d, Err OutOfFuel)
    | S fuel' =>
      let continue_payload d expected chunk :=
        match payload_step d expected frames chunk with
        | None => (d, Err OutOfFuel)
        | Some (d', frames', chunk') => push_loop fuel' d' frames' chunk'
        end in
      match expectedPayloadLength d with
      | Some expected => continue_payload d expected chunk
      | None =>
          let headerBytes := Z.min (FRAME_HEADER_LENGTH - zlen (header d)) (zlen chunk) in
          let h := header d ++ take (Z.to_nat headerBytes) chunk in
          let chunk := drop (Z.to_nat headerBytes) chunk in
          if zlen h <? FRAME_HEADER_LENGTH then push_loop fuel' (with_header d h) frames chunk
          else
            let frameLength := header_value h in
            let d := with_header d [] in
            if maxFrameLength d <? frameLength
            then (fail d, Err (too_long frameLength (maxFrameLength d)))
            else if frameLength =? 0 then push_loop fuel' d (frames ++ [[]]) chunk
            else continue_payload (with_expected d (Some frameLength)) frameLength chunk
      end
    end
  end.

Definition push (d : FrameDecoder) (chunk : bytes) : FrameDecoder * result frame_exn (list bytes) :=
  match state d with
  | ended => (d, Err (FrameError (js "Frame decoder has ended")))
  | failed => (d, Err (FrameError (js "Frame decoder has failed")))
  | open => push_loop (S (length chunk)) d [] chunk
  end.

Definition end_ (d : FrameDecoder) : FrameDecoder * result frame_exn () :=
  match state d with
  | ended => (d, Err (FrameError (js "Frame decoder has ended")))
  | failed => (d, Err (FrameError (js "Frame decoder has failed")))
  | open =>
      if negb (zlen (header d) =? 0) || bool_decide (is_Some (expectedPayloadLength d))
      then (fail d, Err (FrameError (js "Truncated frame at end of stream")))
      else ({| header := header d; maxFrameLength := maxFrameLength d; payloadBlocks := payloadBlocks d;
               currentPayloadBlock := currentPayloadBlock d; expectedPayloadLength := expectedPayloadLength d;
               payloadLength := payloadLength d; state := ended |}, Ok ())
  end.

(** ** Specification: one byte at a time *)

(** Between frames the decoder has seen part of a header; inside one it has seen
    part of a payload of known length. *)
Inductive astate :=
| AHeader (h : bytes)
| APayload (expected : Z) (data : bytes).

Definition afeed (max : Z) (st : astate) (b : Z) : result frame_exn (astate * list bytes) :=
  match st with
  | AHeader h =>
      let h := h ++ [b] in
      if zlen h <? 4 then Ok (AHeader h, [])
      else if max <? header_value h then Err (too_long (header_value h) max)
      else if header_value h =? 0 then Ok (AHeader [], [[]])
      else Ok (APayload (header_value h) [], [])
  | APayload n data =>
      let data := data ++ [b] in
      if zlen data =? n then Ok (AHeader [], [data]) else Ok (APayload n data, [])
  end.

Fixpoint arun (max : Z) (st : astate) (frames : list bytes) (bs : bytes)
    : result frame_exn (astate * list bytes) :=
  match bs with
  | [] => Ok (st, frames)
  | b :: bs' => let* (st', fs) := afeed max st b in arun max st' (frames ++ fs) bs'
  end.

Lemma arun_app max st frames b1 b2 :
  arun max st frames (b1 ++ b2) = rbind (arun max st frames b1) (λ '(st', fs), arun max st' fs b2).
Proof.
  revert st frames. induction b1 as [|b b1 IH]; intros st frames; [done|]. cbn [app arun].
  rewrite rbind_assoc. destruct (afeed max st b) as [[st' fs]|e]; cbn [rbind]; [apply IH|done].
Qed.

Lemma arun_header_short max h frames c :
  zlen h + zlen c < 4 → arun max (AHeader h) frames c = Ok (AHeader (h ++ c), frames).
Proof.
  revert h. induction c as [|b c IH]; intros h Hlen; [by rewrite app_nil_r|].
  rewrite zlen_cons in Hlen. pose proof (zlen_nonneg c). cbn [arun afeed].
  rewrite zlen_app, zlen_cons, zlen_nil. replace (zlen h + (1 + 0) <? 4) with true by lia.
  cbn [rbind]. rewrite app_nil_r, IH by (rewrite zlen_app, zlen_cons, zlen_nil; lia).
  by rewrite <- app_assoc.
Qed.

Lemma arun_header_full max h frames c b :
  zlen h + zlen c = 3 →
  arun max (AHeader h) frames (c ++ [b]) =
    let h' := h ++ c ++ [b] in
    if max <? header_value h' then Err (too_long (header_value h') max)
    else if header_value h' =? 0 then Ok (AHeader [], frames ++ [[]])
    else Ok (APayload (header_value h') [], frames).
Proof.
  intros Hlen. rewrite arun_app, arun_header_short by lia. cbn [rbind arun afeed].
  rewrite !zlen_app, zlen_cons, zlen_nil. replace (_ <? 4) with false by lia.
  rewrite <- app_assoc. cbv zeta. repeat case_match; cbn [rbind]; rewrite ?app_nil_r; done.
Qed.

Lemma arun_payload_short max n data frames c :
  zlen data + zlen c < n → arun max (APayload n data) frames c = Ok (APayload n (data ++ c), frames).
Proof.
  revert data. induction c as [|b c IH]; intros data Hlen; [by rewrite app_nil_r|].
  rewrite zlen_cons in Hlen. pose proof (zlen_nonneg c). cbn [arun afeed].
  rewrite zlen_app, zlen_cons, zlen_nil. replace (zlen data + (1 + 0) =? n) with false by lia.
  cbn [rbind]. rewrite app_nil_r, IH by (rewrite zlen_app, zlen_cons, zlen_nil; lia).
  by rewrite <- app_assoc.
Qed.

Lemma arun_payload_full max n data frames c :
  c ≠ [] → zlen data + zlen c = n →
  arun max (APayload n data) frames c = Ok (AHeader [], frames ++ [data ++ c]).
Proof.
  intros Hne Hlen. destruct (exists_last Hne) as (c' & b & ->).
  rewrite zlen_app, zlen_cons, zlen_nil in Hlen.
  rewrite arun_app, arun_payload_short by lia. cbn [rbind arun afeed].
  rewrite !zlen_app, zlen_cons, zlen_nil. replace (_ =? n) with true by lia.
  cbn [rbind]. by rewrite <- app_assoc.
Qed.

(** ** The block buffers *)

Definition block_full (b : block) : Prop := zlen (bk_data b) = bk_size b.

Definition stored (d : FrameDecoder) : bytes := all_blocks d ≫= bk_data.

(** While a payload of length [n] is being collected: earlier blocks are full, the
    current one has exactly room for no more than what is missing, and
    [payloadLength] counts the stored bytes. *)
Record collecting (d : FrameDecoder) (n : Z) : Prop := {
  col_full : Forall block_full (payloadBlocks d);
  col_current : match currentPayloadBlock d with
                | Some b => 0 <= bk_size b - zlen (bk_data b) <= n - payloadLength d
                | None => True end;
  col_length : payloadLength d = zlen (stored d);
  col_bound : payloadLength d <= n;
  col_expected : expectedPayloadLength d = Some n }.

Lemma block_bytes_full b : block_full b → block_bytes b = bk_data b.
Proof. intros Hb. unfold block_bytes. rewrite Hb, Z.sub_diag. by rewrite app_nil_r. Qed.

Lemma assemble_stored d n : collecting d n → payloadLength d = n → assemble d = stored d.
Proof.
  intros [Hf Hc _ _ _] Hn. unfold assemble, stored, all_blocks. rewrite !bind_app. f_equal.
  - induction Hf as [|b bs Hb _ IH]; [done|]. rewrite !bind_cons, IH. by rewrite block_bytes_full.
  - destruct (currentPayloadBlock d) as [b|]; [|done]. rewrite !bind_cons.
    rewrite block_bytes_full; [done|]. unfold block_full. lia.
Qed.

Lemma fill_block_spec d n chunk :
  collecting d n → payloadLength d < n → chunk ≠ [] →
  let '(d', chunk') := fill_block d n chunk in
  ∃ c, chunk = c ++ chunk' ∧ c ≠ [] ∧ stored d' = stored d ++ c ∧ collecting d' n
    ∧ header d' = header d ∧ maxFrameLength d' = maxFrameLength d ∧ state d' = state d.
Proof.
  intros [Hf Hc Hl Hb He] Hlt Hne. unfold fill_block.
  set (fresh := {| bk_size := _; bk_data := [] |}).
  assert (∃ blocks b, match currentPayloadBlock d with
     | None => (payloadBlocks d, fresh)
     | Some b => if zlen (bk_data b) =? bk_size b then (payloadBlocks d ++ [b], fresh) else (payloadBlocks d, b)
     end = (blocks, b) ∧ Forall block_full blocks ∧ (blocks ++ [b]) ≫= bk_data = stored d
     ∧ 0 < bk_size b - zlen (bk_data b) <= n - payloadLength d) as (blocks & b & -> & Hbs & Hst & Hroom).
  { assert (0 < bk_size fresh - zlen (bk_data fresh) <= n - payloadLength d) as Hfresh.
    { unfold fresh, PAYLOAD_BLOCK_SIZE, zlen; cbn. lia. }
    unfold stored, all_blocks. destruct (currentPayloadBlock d) as [b|].
    - case_match eqn:E.
      + eexists _, _. split; [done|]. split; [apply Forall_app; split; [done|]; constructor; [unfold block_full; lia|done]|].
        split; [|done]. rewrite bind_app. apply app_nil_r.
      + eexists _, _. split; [done|]. split; [done|]. split; [done|lia].
    - eexists _, _. split; [done|]. split; [done|]. split; [|done]. by rewrite !bind_app. }
  set (k := Z.min (bk_size b - zlen (bk_data b)) (zlen chunk)).
  assert (0 < k <= zlen chunk) as Hk.
  { unfold k. destruct chunk as [|x chunk]; [done|]. rewrite zlen_cons. pose proof (zlen_nonneg chunk). lia. }
  exists (take (Z.to_nat k) chunk).
  assert (zlen (take (Z.to_nat k) chunk) = k) as Hkl by (rewrite zlen_take; lia).
  assert (stored {| header := header d; maxFrameLength := maxFrameLength d; payloadBlocks := blocks;
    currentPayloadBlock := Some {| bk_size := bk_size b; bk_data := bk_data b ++ take (Z.to_nat k) chunk |};
    expectedPayloadLength := expectedPayloadLength d; payloadLength := payloadLength d + k; state := state d |}
    = stored d ++ take (Z.to_nat k) chunk) as Hst'.
  { rewrite <- Hst. unfold stored, all_blocks; cbn [payloadBlocks currentPayloadBlock]. rewrite !bind_app, <- app_assoc.
    f_equal. cbn. by rewrite !app_nil_r. }
  split; [by rewrite take_drop|]. split; [intros Heq; rewrite Heq, zlen_nil in Hkl; lia|].
  split; [done|]. split; [|done]. constructor; [done| | |cbn; lia|done].
  - cbn [currentPayloadBlock payloadLength bk_size bk_data]. rewrite zlen_app, Hkl. lia.
  - rewrite Hst', zlen_app, Hkl, <- Hl. done.
Qed.

Lemma fill_loop_spec fuel d n chunk :
  (length chunk <= fuel)%nat → collecting d n →
  ∃ d' c chunk', fill_loop fuel d n chunk = Some (d', chunk') ∧ chunk = c ++ chunk'
    ∧ (payloadLength d < n → chunk ≠ [] → c ≠ [])
    ∧ stored d' = stored d ++ c ∧ collecting d' n ∧ (chunk' = [] ∨ payloadLength d' = n)
    ∧ header d' = header d ∧ maxFrameLength d' = maxFrameLength d ∧ state d' = state d.
Proof.
  revert d chunk. induction fuel as [|fuel IH]; intros d chunk Hfuel Hcol.
  { destruct chunk; [|cbn in Hfuel; lia]. exists d, [], []. rewrite !app_nil_r. split_and!; try done. by left. }
  destruct chunk as [|x chunk']; [exists d, [], []; rewrite !app_nil_r; split_and!; try done; by left|].
  set (chunk := x :: chunk') in *. assert (chunk ≠ []) as Hne by done. cbn [fill_loop].
  change (match chunk with [] => ?a | _ => ?b end) with b.
  destruct (payloadLength d <? n) eqn:Elt.
  2: { exists d, [], chunk. rewrite !app_nil_r. pose proof (col_bound _ _ Hcol). split; [done|]. split; [done|].
       split; [lia|]. split; [done|]. split; [done|]. split; [right; lia|done]. }
  pose proof (fill_block_spec d n chunk Hcol ltac:(lia) Hne) as Hfb.
  destruct (fill_block d n chunk) as [d1 chunk1]. destruct Hfb as (c1 & -> & Hc1 & Hst1 & Hcol1 & ? & ? & ?).
  destruct (IH d1 chunk1) as (d2 & c2 & chunk2 & Hloop & -> & _ & Hst2 & Hcol2 & Hor & ? & ? & ?); [|done|].
  { rewrite length_app in Hfuel. destruct c1; [done|]. cbn in Hfuel. lia. }
  exists d2, (c1 ++ c2), chunk2. split; [done|]. split; [by rewrite app_assoc|]. split; [by destruct c1|].
  split; [by rewrite Hst2, Hst1, app_assoc|]. split; [done|]. split; [done|]. split_and!; congruence.
Qed.

(** ** Refinement *)

Abbreviation all_bytes := (Forall (λ b, is_byte b = true)) (only parsing).

(** An open decoder between two calls of [push]. *)
Definition dec_ok (d : FrameDecoder) : Prop :=
  state d = open ∧
  match expectedPayloadLength d with
  | None => zlen (header d) < 4 ∧ all_bytes (header d)
  | Some n => header d = [] ∧ collecting d n ∧ payloadLength d < n
  end.

(** The specification state a decoder represents: how the bytes are spread over
    blocks does not matter. *)
Definition abs (d : FrameDecoder) : astate :=
  match expectedPayloadLength d with
  | None => AHeader (header d)
  | Some n => APayload n (stored d)
  end.

Lemma payload_step_spec d n frames chunk :
  state d = open → header d = [] → collecting d n → payloadLength d < n → chunk ≠ [] →
  ∃ d' frames' c chunk', payload_step d n frames chunk = Some (d', frames', chunk')
    ∧ chunk = c ++ chunk' ∧ c ≠ [] ∧ dec_ok d' ∧ maxFrameLength d' = maxFrameLength d
    ∧ ∀ max, arun max (APayload n (stored d)) frames c = Ok (abs d', frames').
Proof.
  intros Hs Hh Hcol Hlt Hne. unfold payload_step.
  destruct (fill_loop_spec (length chunk) d n chunk ltac:(lia) Hcol)
    as (d1 & c & chunk' & -> & -> & Hc & Hst & Hcol1 & Hor & Hh1 & Hm & Hs1).
  specialize (Hc Hlt Hne). pose proof (col_length _ _ Hcol) as Hl. pose proof (col_length _ _ Hcol1) as Hl1.
  pose proof (col_bound _ _ Hcol1) as Hb. rewrite Hst, zlen_app in Hl1.
  destruct (payloadLength d1 =? n) eqn:E; eexists _, _, c, chunk'; (split; [done|]); (split; [done|]); (split; [done|]).
  - unfold dec_ok, abs; cbn. split; [rewrite Hs1, Hh1, Hh; done|]. split; [done|]. intros max.
    rewrite arun_payload_full by (done || lia). rewrite (assemble_stored d1 n) by (done || lia).
    by rewrite Hst, Hh1, Hh.
  - destruct Hor as [->|]; [|lia]. unfold dec_ok, abs. rewrite (col_expected _ _ Hcol1), Hs1, Hh1.
    split; [split_and!; [done|done|done|lia]|]. split; [done|]. intros max.
    rewrite arun_payload_short by lia. by rewrite Hst.
Qed.

(** What [push] must do, read off the specification. *)
Definition refines (d : FrameDecoder) (d' : FrameDecoder) (r : result frame_exn (list bytes))
    (spec : result frame_exn (astate * list bytes)) : Prop :=
  maxFrameLength d' = maxFrameLength d ∧
  match spec with
  | Ok (st, fs) => r = Ok fs ∧ dec_ok d' ∧ abs d' = st
  | Err e => r = Err e ∧ state d' = failed
  end.

Lemma length_app_lt {A} (c l : list A) n : c ≠ [] → (length (c ++ l) <= S n)%nat → (length l <= n)%nat.
Proof. destruct c; [done|]. rewrite length_app. cbn. lia. Qed.

Lemma payload_step_nil d n frames :
  payloadLength d < n → payload_step d n frames [] = Some (d, frames, []).
Proof. intros. unfold payload_step. cbn. case_match; [lia|done]. Qed.

Lemma header_value_nonneg h : all_bytes h → 0 <= header_value h.
Proof.
  intros Hh. unfold header_value. assert (∀ i, 0 <= nth i h 0) as Hn; [|pose proof (Hn 0%nat); pose proof (Hn 1%nat);
    pose proof (Hn 2%nat); pose proof (Hn 3%nat); lia].
  induction Hh as [|b h Hb _ IH]; intros [|i]; cbn; try done. unfold is_byte in Hb. lia.
Qed.

Lemma push_loop_refines fuel d frames chunk :
  dec_ok d → all_bytes chunk → (length chunk <= fuel)%nat →
  let '(d', r) := push_loop fuel d frames chunk in
  refines d d' r (arun (maxFrameLength d) (abs d) frames chunk).
Proof.
  revert d frames chunk. induction fuel as [|fuel IH]; intros d frames chunk Hd Hbytes Hfuel.
  { destruct chunk; [|cbn in Hfuel; lia]. done. }
  destruct chunk as [|x chunk']; [done|]. set (chunk := x :: chunk') in *.
  assert (chunk ≠ []) as Hne by done. cbn [push_loop].
  change (match chunk with [] => ?a | _ => ?b end) with b. cbv zeta.
  assert (∀ d1 n, state d1 = open → header d1 = [] → collecting d1 n → payloadLength d1 < n →
    ∀ chunk, (chunk = [] ∨ chunk ≠ []) → all_bytes chunk → (length chunk <= S fuel)%nat →
    let '(d', r) := match payload_step d1 n frames chunk with
      | None => (d1, Err OutOfFuel)
      | Some (d', frames', chunk') => push_loop fuel d' frames' chunk' end in
    refines d1 d' r (arun (maxFrameLength d1) (APayload n (stored d1)) frames chunk)) as Hpay.
  { intros d1 n Hs Hh Hcol Hlt chunk1 [->|Hne1] Hb1 Hf1.
    { rewrite payload_step_nil by done. destruct fuel; cbn; unfold refines, dec_ok, abs;
        rewrite (col_expected _ _ Hcol); done. }
    destruct (payload_step_spec d1 n frames chunk1 Hs Hh Hcol Hlt Hne1)
      as (d2 & frames2 & c & chunk2 & -> & -> & Hc & Hd2 & Hm2 & Hrun).
    apply Forall_app in Hb1 as [_ Hb2].
    specialize (IH d2 frames2 chunk2 Hd2 Hb2 (length_app_lt _ _ _ Hc Hf1)).
    rewrite arun_app, Hrun. cbn [rbind]. rewrite Hm2 in IH.
    destruct (push_loop fuel d2 frames2 chunk2) as [d3 r3]. unfold refines in *. by rewrite Hm2 in IH. }
  destruct Hd as [Hs Hd]. unfold abs. destruct (expectedPayloadLength d) as [n|] eqn:He.
  { destruct Hd as (Hh & Hcol & Hlt). apply Hpay; auto. }
  destruct Hd as [Hlen Hhb].
  set (k := Z.min (FRAME_HEADER_LENGTH - zlen (header d)) (zlen chunk)).
  assert (0 < k <= zlen chunk) as Hk.
  { unfold k, FRAME_HEADER_LENGTH, chunk. rewrite zlen_cons. pose proof (zlen_nonneg chunk'). lia. }
  set (c := take (Z.to_nat k) chunk). set (rest := drop (Z.to_nat k) chunk).
  assert (chunk = c ++ rest) as Hsplit by (by symmetry; apply take_drop).
  assert (zlen c = k) as Hck by (unfold c; rewrite zlen_take; lia).
  assert (c ≠ []) as Hc by (intros Heq; rewrite Heq, zlen_nil in Hck; lia).
  clearbody c rest. rewrite Hsplit in Hfuel, Hbytes |- *. apply Forall_app in Hbytes as [Hbc Hbr]. pose proof (length_app_lt _ _ _ Hc Hfuel) as Hrest.
  rewrite arun_app. rewrite zlen_app. unfold FRAME_HEADER_LENGTH in *.
  destruct (zlen (header d) + zlen c <? 4) eqn:E4.
  { rewrite arun_header_short by lia. cbn [rbind].
    specialize (IH (with_header d (header d ++ c)) frames rest).
    unfold dec_ok, abs in IH; cbn [with_header state expectedPayloadLength header maxFrameLength] in IH. rewrite He in IH.
    apply IH; [|done|done]. rewrite zlen_app. split; [done|]. split; [lia|]. by apply Forall_app. }
  destruct (exists_last Hc) as (c0 & b & ->). rewrite zlen_app, zlen_cons, zlen_nil in *.
  rewrite arun_header_full by (unfold k in *; lia). cbv zeta. cbn [with_header maxFrameLength].
  set (h := header d ++ c0 ++ [b]) in *.
  destruct (maxFrameLength d <? header_value h) eqn:Em; [done|].
  destruct (header_value h =? 0) eqn:Ez; cbn [rbind].
  { specialize (IH (with_header d []) (frames ++ [[]]) rest).
    unfold dec_ok, abs in IH; cbn [with_header state expectedPayloadLength header maxFrameLength] in IH. rewrite He in IH.
    by apply IH. }
  assert (0 <= header_value h) as Hpos by (apply header_value_nonneg, Forall_app; done).
  specialize (Hpay (with_expected (with_header d []) (Some (header_value h))) (header_value h)).
  apply Hpay; [done|done| |cbn; lia|destruct rest; [by left|by right]|done|lia].
  by constructor; cbn.
Qed.

(** ** Streams *)

Lemma arun_frames max st frames bs :
  arun max st frames bs = rbind (arun max st [] bs) (λ '(st', fs), Ok (st', frames ++ fs)).
Proof.
  revert st frames. induction bs as [|b bs IH]; intros st frames; cbn [arun rbind]; [by rewrite app_nil_r|].
  destruct (afeed max st b) as [[st' fs]|e]; cbn [rbind]; [|done].
  rewrite (IH st' (frames ++ fs)), (IH st' ([] ++ fs)), rbind_assoc. cbn [app].
  destruct (arun max st' [] bs) as [[st2 fs2]|e]; cbn [rbind]; [by rewrite app_assoc|done].
Qed.

Lemma push_refines_lemma d chunk :
  dec_ok d → all_bytes chunk →
  let '(d', r) := push d chunk in refines d d' r (arun (maxFrameLength d) (abs d) [] chunk).
Proof.
  intros Hd Hb. unfold push. pose proof Hd as [-> _]. apply push_loop_refines; [done|done|lia].
Qed.

(** Feeding a list of chunks one after the other; stops at the first throw. *)
Fixpoint push_all (d : FrameDecoder) (chunks : list bytes) : FrameDecoder * result frame_exn (list bytes) :=
  match chunks with
  | [] => (d, Ok [])
  | c :: chunks' =>
      match push d c with
      | (d', Ok fs) =>
          match push_all d' chunks' with
          | (d'', Ok fs') => (d'', Ok (fs ++ fs'))
          | (d'', Err e) => (d'', Err e)
          end
      | (d', Err e) => (d', Err e)
      end
  end.

Lemma push_all_refines d chunks :
  dec_ok d → Forall (λ c, all_bytes c) chunks →
  let '(d', r) := push_all d chunks in refines d d' r (arun (maxFrameLength d) (abs d) [] (concat chunks)).
Proof.
  revert d. induction chunks as [|c chunks IH]; intros d Hd Hb; [done|].
  inversion Hb as [|? ? Hc Hcs]; subst. cbn [push_all concat].
  pose proof (push_refines_lemma d c Hd Hc) as Hp. destruct (push d c) as [d1 r1].
  rewrite arun_app. destruct Hp as [Hm Hp].
  destruct (arun (maxFrameLength d) (abs d) [] c) as [[st1 fs1]|e]; cbn [rbind]; [|by destruct Hp as [-> ?]].
  destruct Hp as (-> & Hd1 & <-). specialize (IH d1 Hd1 Hcs). rewrite Hm in IH.
  rewrite arun_frames. destruct (push_all d1 chunks) as [d2 r2]. destruct IH as [Hm2 IH].
  destruct (arun (maxFrameLength d) (abs d1) [] (concat chunks)) as [[st2 fs2]|e]; cbn [rbind].
  - destruct IH as (-> & Hd2 & <-). by split; [congruence|].
  - destruct IH as [-> ?]. by split; [congruence|].
Qed.

Lemma header_value_frame_header n : 0 <= n <= MAX_UINT32 → header_value (frame_header n) = n.
Proof.
  unfold MAX_UINT32. intros Hn. unfold header_value, frame_header, low8, ushr; cbn [nth].
  rewrite !Z.shiftr_div_pow2 by lia. lia.
Qed.

Lemma frame_header_bytes n : all_bytes (frame_header n).
Proof. repeat constructor; unfold is_byte, low8; lia. Qed.

Lemma arun_frame max frames p :
  zlen p <= max → zlen p <= MAX_UINT32 →
  arun max (AHeader []) frames (frame_header (zlen p) ++ p) = Ok (AHeader [], frames ++ [p]).
Proof.
  intros Hmax Hlen. pose proof (zlen_nonneg p). rewrite arun_app.
  set (n := zlen p) in *. change (frame_header n) with
    ([low8 (ushr n 24); low8 (ushr n 16); low8 (ushr n 8)] ++ [low8 n]).
  rewrite arun_header_full by done. cbv zeta.
  change ([] ++ _ ++ [low8 n]) with (frame_header n). rewrite header_value_frame_header by lia.
  case_match; [lia|]. case_match; cbn [rbind].
  - assert (p = []) as -> by (apply zlen_0; unfold n in *; lia). done.
  - apply arun_payload_full; [intros ->; unfold n in *; done|done].
Qed.

Lemma encodeFrame_bytes p f : encodeFrame p = Ok f → all_bytes p → all_bytes f.
Proof.
  unfold encodeFrame. case_match; [done|]. intros [= <-] Hp.
  apply (Forall_app _ (frame_header (zlen p)) p); split; [apply frame_header_bytes|done].
Qed.

Lemma arun_stream max frames payloads fs :
  Forall2 (λ p f, encodeFrame p = Ok f ∧ zlen p <= max) payloads fs →
  arun max (AHeader []) frames (concat fs) = Ok (AHeader [], frames ++ payloads).
Proof.
  intros HF. revert frames. induction HF as [|p f payloads fs [Hf Hp] _ IH]; intros frames; cbn [concat].
  { by rewrite app_nil_r. }
  unfold encodeFrame in Hf. case_match; [done|].
  assert (f = frame_header (zlen p) ++ p) as -> by congruence.
  rewrite arun_app, arun_frame by lia. cbn [rbind]. rewrite IH. by rewrite <- app_assoc.
Qed.

(** [push] refines the byte-at-a-time specification: on every chunk of bytes it
    returns exactly the frames the specification emits, leaves a decoder that
    represents the specification's state, and throws the specification's error
    (ending in the failed state) when a header exceeds the limit.  In particular
    the block buffers never lose, reorder or pad payload bytes. *)
Theorem push_refines d chunk :
  dec_ok d → all_bytes chunk →
  let '(d', r) := push d chunk in
  refines d d' r (arun (maxFrameLength d) (abs d) [] chunk).
Proof. apply push_refines_lemma. Qed.

(** Stream round trip: encoding payloads, concatenating the frames and cutting
    the stream into chunks anywhere, a fresh decoder returns exactly the payloads,
    and [end] then succeeds. *)
Theorem frame_stream_roundtrip options d payloads fs chunks :
  newDecoder options = Ok d →
  Forall2 (λ p f, encodeFrame p = Ok f ∧ zlen p <= maxFrameLength d) payloads fs →
  Forall (λ p, all_bytes p) payloads → concat chunks = concat fs →
  ∃ d', push_all d chunks = (d', Ok payloads) ∧ (end_ d').2 = Ok ().
Proof.
  intros Hnew HF Hb Hchunks. unfold newDecoder in Hnew. apply rbind_Ok in Hnew as (m & _ & Hd). injection Hd as <-.
  set (d := {| header := _ |}) in *.
  assert (all_bytes (concat chunks)) as Hcb.
  { rewrite Hchunks. clear -HF Hb. induction HF as [|p f ps fs [Hf _] _ IH]; [constructor|]. inversion Hb; subst.
    apply Forall_app; split; [by eapply encodeFrame_bytes|auto]. }
  assert (Forall (λ c, all_bytes c) chunks) as Hcs.
  { clear -Hcb. induction chunks as [|c chunks IH]; [constructor|]. apply Forall_app in Hcb as [? ?]. constructor; auto. }
  assert (dec_ok d) as Hd by (split; [done|]; cbn; split; [done|constructor]).
  pose proof (push_all_refines d chunks Hd Hcs) as Hp. rewrite Hchunks in Hp.
  change (abs d) with (AHeader []) in Hp. rewrite (arun_stream _ [] _ _ HF) in Hp.
  destruct (push_all d chunks) as [d' r]. destruct Hp as (_ & -> & [Hs Hd'] & Habs). exists d'. split; [done|].
  unfold end_. rewrite Hs. unfold abs in Habs. destruct (expectedPayloadLength d'); [done|]. injection Habs as ->. done.
Qed.

(** Chunk boundaries are invisible: pushing [c1] and then [c2] yields the same
    frames (or the same error) as pushing [c1 ++ c2], and decoders that agree on
    what they have seen. *)
Theorem push_chunking d c1 c2 :
  dec_ok d → all_bytes c1 → all_bytes c2 →
  let '(da, ra) := push_all d [c1; c2] in
  let '(db, rb) := push d (c1 ++ c2) in
  ra = rb ∧ (∀ fs, ra = Ok fs → abs da = abs db ∧ dec_ok da ∧ dec_ok db).
Proof.
  intros Hd H1 H2. pose proof (push_all_refines d [c1; c2] Hd ltac:(by repeat constructor)) as Ha.
  pose proof (push_refines_lemma d (c1 ++ c2) Hd ltac:(by apply Forall_app)) as Hb.
  cbn [concat] in Ha. rewrite app_nil_r in Ha.
  destruct (push_all d [c1; c2]) as [da ra], (push d (c1 ++ c2)) as [db rb].
  destruct Ha as [_ Ha], Hb as [_ Hb]. destruct (arun _ _ _ _) as [[st fs]|e].
  - destruct Ha as (-> & ? & ?), Hb as (-> & ? & ?). split; [done|]. intros; split_and!; congruence || done.
  - destruct Ha as [-> _], Hb as [-> _]. by split.
Qed.

(** ** Witnesses *)

Definition sample_decoder : FrameDecoder :=
  {| header := []; maxFrameLength := 3; payloadBlocks := []; currentPayloadBlock := None;
     expectedPayloadLength := None; payloadLength := 0; state := open |}.

Lemma sample_decoder_ok : dec_ok sample_decoder.
Proof. split; [done|]. split; [done|constructor]. Qed.

Lemma push_refines_witness :
  refines sample_decoder (push sample_decoder [0; 0; 0; 2; 7; 8; 0]).1 (Ok [[7; 8]])
    (arun 3 (AHeader []) [] [0; 0; 0; 2; 7; 8; 0]).
Proof.
  apply (push_refines sample_decoder [0; 0; 0; 2; 7; 8; 0] sample_decoder_ok). by repeat constructor.
Defined.

Lemma frame_stream_roundtrip_witness :
  ∃ d', push_all sample_decoder [[0; 0]; [0; 2; 7]; [8; 0; 0; 0; 0]] = (d', Ok [[7; 8]; []]) ∧ (end_ d').2 = Ok ().
Proof.
  apply (frame_stream_roundtrip (Some (NInt 3)) _ [[7; 8]; []] [[0; 0; 0; 2; 7; 8]; [0; 0; 0; 0]]);
    [reflexivity| |by repeat constructor|reflexivity].
  repeat constructor; done.
Defined.

Lemma push_chunking_witness :
  (push sample_decoder [0; 0; 0; 9]).2 = Err (too_long 9 3)
  ∧ (push_all sample_decoder [[0; 0]; [0; 9]]).2 = Err (too_long 9 3)
  ∧ let '(da, ra) := push_all sample_decoder [[0; 0]; [0; 1; 5]] in
    let '(db, rb) := push sample_decoder ([0; 0] ++ [0; 1; 5]) in
    ra = rb ∧ (∀ fs, ra = Ok fs → abs da = abs db ∧ dec_ok da ∧ dec_ok db).
Proof.
  split; [vm_compute; reflexivity|]. split; [vm_compute; reflexivity|].
  apply (push_chunking sample_decoder); [apply sample_decoder_ok|by repeat constructor..].
Defined.

End Framing.
