(* ===== verification/OrchTypes.v ===== *)
(** * Shared orchestration contract types

    Models [aira/orchestration/types.ts]: the enumerations and the run record the
    scheduler, the roles and the task graph share. *)
From S2P Require Import Prelude JsString.

Inductive AiraChildRole := explore | research | review | test | implement.

Inductive AiraChildRunStatus :=
| run_pending | run_running | run_completed | run_failed | run_cancelled | run_timed_out | run_rejected.

Inductive AiraChildPhase := waiting_dependency | waiting_capacity | phase_running | phase_settled.

Inductive AiraChildFailureCategory :=
| invalid_request | mode_refused | model_unavailable | driver | permission_denied
| tool_budget_exceeded | category_timeout | category_cancelled | dependency_failed.

Inductive AiraChildFailureKind :=
| task_failure | capability_failure | environment_failure | kind_timeout | kind_cancelled | unknown_failure.

Inductive AiraChildTaskExecutionStatus := not_attempted | attempted | execution_unknown.

Record AiraChildTokenUsage := { u_input : Z; u_output : Z; u_cacheRead : Z; u_cacheWrite : Z; u_total : Z }.

#[export] Instance AiraChildRole_eq_dec : EqDecision AiraChildRole.
Proof. solve_decision. Defined.
#[export] Instance AiraChildRunStatus_eq_dec : EqDecision AiraChildRunStatus.
Proof. solve_decision. Defined.
#[export] Instance AiraChildPhase_eq_dec : EqDecision AiraChildPhase.
Proof. solve_decision. Defined.
#[export] Instance AiraChildFailureCategory_eq_dec : EqDecision AiraChildFailureCategory.
Proof. solve_decision. Defined.
#[export] Instance AiraChildFailureKind_eq_dec : EqDecision AiraChildFailureKind.
Proof. solve_decision. Defined.
#[export] Instance AiraChildTaskExecutionStatus_eq_dec : EqDecision AiraChildTaskExecutionStatus.
Proof. solve_decision. Defined.

(** The string literals of the source. *)
Definition category_name (c : AiraChildFailureCategory) : jsstr :=
  match c with
  | invalid_request => js "invalid-request" | mode_refused => js "mode-refused"
  | model_unavailable => js "model-unavailable" | driver => js "driver"
  | permission_denied => js "permission-denied" | tool_budget_exceeded => js "tool-budget-exceeded"
  | category_timeout => js "timeout" | category_cancelled => js "cancelled"
  | dependency_failed => js "dependency-failed"
  end.

Definition kind_name (k : AiraChildFailureKind) : jsstr :=
  match k with
  | task_failure => js "task_failure" | capability_failure => js "capability_failure"
  | environment_failure => js "environment_failure" | kind_timeout => js "timeout"
  | kind_cancelled => js "cancelled" | unknown_failure => js "unknown_failure"
  end.

Definition role_name (r : AiraChildRole) : jsstr :=
  match r with
  | explore => js "explore" | research => js "research" | review => js "review"
  | test => js "test" | implement => js "implement"
  end.

(** The part of [AiraChildFailureInfo] the task graph reads. *)
Record AiraChildFailureInfo := {
  fi_kind : AiraChildFailureKind;
  fi_category : AiraChildFailureCategory;
  fi_message : jsstr;
  fi_taskStatus : AiraChildTaskExecutionStatus }.

(** The part of [AiraChildRun] the task graph reads. *)
Record AiraChildRun := {
  run_id : jsstr;
  run_taskId : jsstr;
  run_createdAt : Z;
  run_role : AiraChildRole;
  run_task : jsstr;
  run_dependencies : list jsstr;
  run_status : AiraChildRunStatus;
  run_phase : AiraChildPhase;
  run_startedAt : option Z;
  run_completedAt : option Z;
  run_error : option AiraChildFailureInfo }.
