(* ===== verification/Tasks.v ===== *)
(** * The session task graph

    Models [aira/tasks/types.ts], [aira/tasks/manager.ts] and
    [aira/tasks/persistence.ts]: the canonical task map, its operations, the
    projection of orchestration runs, the published snapshot and the durable
    store with its recovery. *)
From S2P Require Import Prelude JsMap JsString OrchTypes.

Module Tasks.

(** ** Data *)

Inductive AiraTaskStatus := pending | active | blocked | completed | cancelled | failed.
Inductive AiraTaskSource := user | model | child.

#[export] Instance AiraTaskStatus_eq_dec : EqDecision AiraTaskStatus.
Proof. solve_decision. Defined.
#[export] Instance AiraTaskSource_eq_dec : EqDecision AiraTaskSource.
Proof. solve_decision. Defined.

Definition status_name (s : AiraTaskStatus) : jsstr :=
  match s with
  | pending => js "pending" | active => js "active" | blocked => js "blocked"
  | completed => js "completed" | cancelled => js "cancelled" | failed => js "failed"
  end.

Record AiraTask := {
  id : jsstr;
  title : jsstr;
  status : AiraTaskStatus;
  source : AiraTaskSource;
  dependsOn : list jsstr;
  note : option jsstr;
  createdAt : Z;
  startedAt : option Z;
  completedAt : option Z;
  childRunId : option jsstr;
  childRole : option AiraChildRole;
  detail : option jsstr;
  failureKind : option AiraChildFailureKind }.

#[export] Instance AiraTask_eq_dec : EqDecision AiraTask.
Proof. solve_decision. Defined.

(** Assignments to one field of a task object. *)
Definition set_title v t := {| id := id t; title := v; status := status t; source := source t;
  dependsOn := dependsOn t; note := note t; createdAt := createdAt t; startedAt := startedAt t;
  completedAt := completedAt t; childRunId := childRunId t; childRole := childRole t;
  detail := detail t; failureKind := failureKind t |}.
Definition set_status v t := {| id := id t; title := title t; status := v; source := source t;
  dependsOn := dependsOn t; note := note t; createdAt := createdAt t; startedAt := startedAt t;
  completedAt := completedAt t; childRunId := childRunId t; childRole := childRole t;
  detail := detail t; failureKind := failureKind t |}.
Definition set_dependsOn v t := {| id := id t; title := title t; status := status t; source := source t;
  dependsOn := v; note := note t; createdAt := createdAt t; startedAt := startedAt t;
  completedAt := completedAt t; childRunId := childRunId t; childRole := childRole t;
  detail := detail t; failureKind := failureKind t |}.
Definition set_note v t := {| id := id t; title := title t; status := status t; source := source t;
  dependsOn := dependsOn t; note := v; createdAt := createdAt t; startedAt := startedAt t;
  completedAt := completedAt t; childRunId := childRunId t; childRole := childRole t;
  detail := detail t; failureKind := failureKind t |}.
Definition set_startedAt v t := {| id := id t; title := title t; status := status t; source := source t;
  dependsOn := dependsOn t; note := note t; createdAt := createdAt t; startedAt := v;
  completedAt := completedAt t; childRunId := childRunId t; childRole := childRole t;
  detail := detail t; failureKind := failureKind t |}.
Definition set_completedAt v t := {| id := id t; title := title t; status := status t; source := source t;
  dependsOn := dependsOn t; note := note t; createdAt := createdAt t; startedAt := startedAt t;
  completedAt := v; childRunId := childRunId t; childRole := childRole t;
  detail := detail t; failureKind := failureKind t |}.
Definition set_child_view d k t := {| id := id t; title := title t; status := status t; source := source t;
  dependsOn := dependsOn t; note := note t; createdAt := createdAt t; startedAt := startedAt t;
  completedAt := completedAt t; childRunId := childRunId t; childRole := childRole t;
  detail := d; failureKind := k |}.

Record AiraTaskPatch := {
  patch_title : option jsstr;
  patch_status : option AiraTaskStatus;
  patch_dependsOn : option (list jsstr);
  patch_note : option jsstr }.

Record AiraTaskSnapshotRow := {
  row_id : jsstr;
  row_title : jsstr;
  row_status : AiraTaskStatus;
  row_source : AiraTaskSource;
  row_dependsOn : list jsstr;
  row_childRunId : option jsstr;
  row_childRole : option AiraChildRole;
  row_detail : option jsstr;
  row_failureKind : option AiraChildFailureKind }.

Definition AIRA_TASK_MAX_ROWS : Z := 128.
Definition AIRA_TASK_SNAPSHOT_ROWS : Z := 24.
Definition AIRA_TASK_MAX_TITLE_CHARS : Z := 200.
Definition AIRA_TASK_MAX_NOTE_CHARS : Z := 300.
Definition AIRA_TASK_MAX_DEPENDENCIES : Z := 16.
Definition AIRA_TASK_RECOVERY_HINT : jsstr :=
  js "interrupted native tasks were recovered; consult canonical task state before continuing".

Definition AIRA_TASK_TRANSITIONS (s : AiraTaskStatus) : list AiraTaskStatus :=
  match s with
  | pending => [active; cancelled]
  | active => [completed; cancelled]
  | blocked => [cancelled]
  | completed | cancelled | failed => []
  end.

Definition AIRA_TASK_PATCHABLE_STATUSES : list AiraTaskStatus := [pending; active; completed; cancelled].

(** [completed], [cancelled] and [failed]. *)
Definition is_settled (s : AiraTaskStatus) : bool :=
  match s with completed | cancelled | failed => true | _ => false end.

Definition is_child (t : AiraTask) : bool := bool_decide (source t = child).

Abbreviation taskmap := (list (jsstr * AiraTask)) (only parsing).

(** ** Pure helpers of the manager *)

Definition boundTitle (s : jsstr) : jsstr := bound_text AIRA_TASK_MAX_TITLE_CHARS (trim s).
Definition boundNote (s : jsstr) : jsstr := bound_text AIRA_TASK_MAX_NOTE_CHARS (trim s).

(** Keep the first occurrence of every element, as the [seen] set does. *)
Fixpoint dedup (seen l : list jsstr) : list jsstr :=
  match l with
  | [] => []
  | x :: l' => if bool_decide (x ∈ seen) then dedup seen l' else x :: dedup (x :: seen) l'
  end.

Definition normalizeDependencies (deps : option (list jsstr)) : list jsstr :=
  match deps with
  | None => []
  | Some deps =>
      take (Z.to_nat AIRA_TASK_MAX_DEPENDENCIES) (dedup [] (filter (λ d, d ≠ []) (trim <$> deps)))
  end.

Definition is_unfinished (tasks : taskmap) (depId : jsstr) : bool :=
  match mget depId tasks with Some dep => negb (is_settled (status dep)) | None => false end.

Definition unfinishedDependencies (tasks : taskmap) (t : AiraTask) : list jsstr :=
  filter (λ depId, is_unfinished tasks depId = true) (dependsOn t).

Definition hasUnfinishedDependencies (tasks : taskmap) (t : AiraTask) : bool :=
  0 <? zlen (unfinishedDependencies tasks t).

(** The body of [refreshDerivedStates]'s loop for one task. *)
Definition refresh_task (tasks : taskmap) (t : AiraTask) : AiraTask :=
  if is_child t then t
  else if bool_decide (status t = pending) && hasUnfinishedDependencies tasks t then set_status blocked t
  else if bool_decide (status t = blocked) && negb (hasUnfinishedDependencies tasks t) then set_status pending t
  else t.

(** The loop: each step reads the map as the previous steps left it. *)
Definition refreshDerivedStates (tasks : taskmap) : taskmap :=
  foldl (λ m k, match mget k m with Some t => mset k (refresh_task m t) m | None => m end) tasks tasks.*1.

Definition settled_time (t : AiraTask) : Z := default (createdAt t) (completedAt t).

Fixpoint evict_loop (settled : list AiraTask) (tasks : taskmap) : taskmap :=
  match settled with
  | [] => tasks
  | t :: settled' =>
      if zlen tasks <=? AIRA_TASK_MAX_ROWS then tasks else evict_loop settled' (mdelete (id t) tasks)
  end.

Definition evictSettled (tasks : taskmap) : taskmap :=
  if zlen tasks <=? AIRA_TASK_MAX_ROWS then tasks
  else evict_loop (sort_by (λ a b, settled_time a <=? settled_time b)
                     (filter (λ t, is_settled (status t) = true) tasks.*2)) tasks.

Definition statusOrder (s : AiraTaskStatus) : Z :=
  match s with active => 0 | blocked => 1 | pending => 2 | completed => 3 | failed => 4 | cancelled => 5 end.

(** [statusOrder(a) - statusOrder(b) || a.createdAt - b.createdAt], as "not after". *)
Definition task_le (a b : AiraTask) : bool :=
  if statusOrder (status a) =? statusOrder (status b) then createdAt a <=? createdAt b
  else statusOrder (status a) <? statusOrder (status b).

Definition childTaskStatus (runStatus : AiraChildRunStatus) (phase : AiraChildPhase) : AiraTaskStatus :=
  match runStatus with
  | run_running => active
  | run_completed => completed
  | run_failed => failed
  | run_timed_out | run_cancelled | run_rejected => cancelled
  | run_pending => if bool_decide (phase = waiting_dependency) then blocked else pending
  end.

Definition childTaskDetail (run : AiraChildRun) : option jsstr :=
  match run_error run with
  | None => None
  | Some e =>
      let notAttempted := if bool_decide (fi_taskStatus e = not_attempted)
                          then js " (task not attempted)" else [] in
      Some (kind_name (fi_kind e) ++ js " · " ++ category_name (fi_category e) ++ js ": "
            ++ slice0 100 (fi_message e) ++ notAttempted)
  end.

(** A truthy optional number or string ([...(v ? { k: v } : {})]). *)
Definition truthy_num (v : option Z) : option Z :=
  match v with Some z => if z =? 0 then None else Some z | None => None end.
Definition truthy_str (v : option jsstr) : option jsstr :=
  match v with Some [] => None | _ => v end.

(** ** Durable store *)

(** A JSON value, as [JSON.parse] returns it.  The numbers of the file are the
    integer times this program writes. *)
Inductive json :=
| JNull | JBool (b : bool) | JNum (z : Z) | JStr (s : jsstr)
| JArr (l : list json) | JObj (props : list (jsstr * json)).

Inductive store_status := store_ok | store_unavailable | store_failed.

Record AiraTaskPersistenceRecord := {
  rec_status : store_status;
  rec_error : option jsstr }.

Record AiraPersistedTask := {
  p_id : jsstr;
  p_title : jsstr;
  p_status : AiraTaskStatus;   (** never [blocked] or [failed] *)
  p_source : AiraTaskSource;   (** never [child] *)
  p_dependsOn : list jsstr;
  p_note : option jsstr;
  p_createdAt : Z;
  p_startedAt : option Z;
  p_completedAt : option Z }.

(** The state file: absent, unreadable (or not JSON) with the error's message, or
    parsed. *)
Inductive task_file := file_absent | file_error (message : jsstr) | file_json (v : json).

(** The closure of [createAiraTaskPersistence]: its arguments, the last record and
    the file on disk. *)
Record TaskStore := {
  ts_enabled : bool;
  ts_sessionId : jsstr;
  ts_startReason : jsstr;
  ts_record : AiraTaskPersistenceRecord;
  ts_file : task_file }.

Definition set_record r st := {| ts_enabled := ts_enabled st; ts_sessionId := ts_sessionId st;
  ts_startReason := ts_startReason st; ts_record := r; ts_file := ts_file st |}.
Definition set_file f st := {| ts_enabled := ts_enabled st; ts_sessionId := ts_sessionId st;
  ts_startReason := ts_startReason st; ts_record := ts_record st; ts_file := f |}.

Definition rec_ok := {| rec_status := store_ok; rec_error := None |}.
Definition rec_unavailable := {| rec_status := store_unavailable; rec_error := None |}.
Definition rec_failed m := {| rec_status := store_failed; rec_error := Some (bound_text 200 m) |}.

Definition createAiraTaskPersistence (sessionId startReason : jsstr) (enabled : bool) (f : task_file) : TaskStore :=
  {| ts_enabled := enabled; ts_sessionId := sessionId; ts_startReason := startReason;
     ts_record := rec_unavailable; ts_file := f |}.

Definition AIRA_TASK_PERSISTED_STATE_VERSION : Z := 1.

Definition prop (k : string) (props : list (jsstr * json)) : option json := mget (js k) props.

Definition persisted_status (v : option json) : option AiraTaskStatus :=
  match v with
  | Some (JStr s) =>
      if str_eqb s (js "pending") then Some pending else if str_eqb s (js "active") then Some active
      else if str_eqb s (js "completed") then Some completed
      else if str_eqb s (js "cancelled") then Some cancelled else None
  | _ => None
  end.

Definition persisted_source (v : option json) : option AiraTaskSource :=
  match v with
  | Some (JStr s) => if str_eqb s (js "user") then Some user
                     else if str_eqb s (js "model") then Some model else None
  | _ => None
  end.

Definition json_strings (l : list json) : list jsstr :=
  omap (λ v, match v with JStr s => Some s | _ => None end) l.

Definition opt_num (v : option json) : option Z :=
  match v with Some (JNum z) => Some z | _ => None end.

Definition normalizePersistedTask (value : json) : option AiraPersistedTask :=
  match value with
  | JObj task =>
      match prop "id" task, prop "title" task, persisted_status (prop "status" task),
            persisted_source (prop "source" task), prop "dependsOn" task, prop "createdAt" task with
      | Some (JStr i), Some (JStr t), Some s, Some src, Some (JArr deps), Some (JNum c) =>
          let t := bound_text AIRA_TASK_MAX_TITLE_CHARS (trim t) in
          if bool_decide (t = []) then None
          else Some {|
            p_id := slice0 160 i; p_title := t; p_status := s; p_source := src;
            p_dependsOn := take (Z.to_nat AIRA_TASK_MAX_DEPENDENCIES)
                             (dedup [] (filter (λ d, trim d ≠ []) (json_strings deps)));
            p_note := match prop "note" task with
                      | Some (JStr n) => if bool_decide (trim n = []) then None
                                         else Some (bound_text AIRA_TASK_MAX_NOTE_CHARS (trim n))
                      | _ => None end;
            p_createdAt := c;
            p_startedAt := opt_num (prop "startedAt" task);
            p_completedAt := opt_num (prop "completedAt" task) |}
      | _, _, _, _, _, _ => None
      end
  | _ => None
  end.

Definition toPersistedTask (t : AiraTask) : AiraPersistedTask :=
  {| p_id := id t; p_title := title t;
     p_status := match status t with blocked | failed => pending | s => s end;
     p_source := source t;
     p_dependsOn := take (Z.to_nat AIRA_TASK_MAX_DEPENDENCIES) (dependsOn t);
     p_note := truthy_str (note t);
     p_createdAt := createdAt t; p_startedAt := startedAt t; p_completedAt := completedAt t |}.

(** The object literal [JSON.stringify] writes for a persisted task. *)
Definition persisted_json (p : AiraPersistedTask) : json :=
  JObj ([(js "id", JStr (p_id p)); (js "title", JStr (p_title p)); (js "status", JStr (status_name (p_status p)));
         (js "source", JStr (match p_source p with user => js "user" | model => js "model" | child => js "child" end));
         (js "dependsOn", JArr (JStr <$> p_dependsOn p))]
        ++ match p_note p with Some n => [(js "note", JStr n)] | None => [] end
        ++ [(js "createdAt", JNum (p_createdAt p))]
        ++ match p_startedAt p with Some z => [(js "startedAt", JNum z)] | None => [] end
        ++ match p_completedAt p with Some z => [(js "completedAt", JNum z)] | None => [] end).

Definition file_object (sessionId : jsstr) (tasks : list AiraPersistedTask) : json :=
  JObj [(js "version", JNum AIRA_TASK_PERSISTED_STATE_VERSION); (js "sessionId", JStr sessionId);
        (js "tasks", JArr (persisted_json <$> tasks))].

Definition json_eqb_num (v : option json) (z : Z) : bool :=
  match v with Some (JNum y) => y =? z | _ => false end.
Definition json_eqb_str (v : option json) (s : jsstr) : bool :=
  match v with Some (JStr t) => str_eqb t s | _ => false end.

Definition load (st : TaskStore) : TaskStore * option (list AiraPersistedTask) :=
  if negb (ts_enabled st)
     || (negb (str_eqb (ts_startReason st) (js "startup")) && negb (str_eqb (ts_startReason st) (js "resume")))
  then (st, None)
  else match ts_file st with
  | file_absent => (set_record rec_ok st, None)
  | file_error m => (set_record (rec_failed m) st, None)
  | file_json JNull => (set_record (rec_failed (js "Cannot read properties of null (reading 'version')")) st, None)
  | file_json v =>
      let props := match v with JObj props => props | _ => [] end in
      match prop "tasks" props with
      | Some (JArr tasks) =>
          if json_eqb_num (prop "version" props) AIRA_TASK_PERSISTED_STATE_VERSION
             && json_eqb_str (prop "sessionId" props) (ts_sessionId st)
          then (set_record rec_ok st,
                Some (omap normalizePersistedTask (take (Z.to_nat AIRA_TASK_MAX_ROWS) tasks)))
          else (set_record (rec_failed (js "malformed or unknown task persistence schema")) st, None)
      | _ => (set_record (rec_failed (js "malformed or unknown task persistence schema")) st, None)
      end
  end.

(** [save]; [io] is [Some message] when a file-system call throws. *)
Definition save (io : option jsstr) (tasks : list AiraTask) (st : TaskStore) : TaskStore :=
  if negb (ts_enabled st) then set_record rec_unavailable st
  else match io with
  | Some m => set_record (rec_failed m) st
  | None =>
      let persistable := toPersistedTask <$>
        take (Z.to_nat AIRA_TASK_MAX_ROWS) (filter (λ t, is_child t = false) tasks) in
      set_record rec_ok (set_file (file_json (file_object (ts_sessionId st) persistable)) st)
  end.

(** A recovered row: interrupted work restarts as pending. *)
Definition recovered_task (p : AiraPersistedTask) : AiraTask :=
  {| id := p_id p; title := p_title p;
     status := if bool_decide (p_status p = active) then pending else p_status p;
     source := p_source p; dependsOn := p_dependsOn p; note := p_note p; createdAt := p_createdAt p;
     startedAt := p_startedAt p; completedAt := p_completedAt p; childRunId := None; childRole := None;
     detail := None; failureKind := None |}.

Definition recover (io : option jsstr) (st : TaskStore) : TaskStore * option (list AiraTask * Z) :=
  match load st with
  | (st, None) => (st, None)
  | (st, Some loaded) =>
      let normalizedCount := zlen (filter (λ p, p_status p = active) loaded) in
      let tasks := recovered_task <$> loaded in
      (if 0 <? normalizedCount then save io tasks st else st, Some (tasks, normalizedCount))
  end.

Definition clear_file (io : option jsstr) (st : TaskStore) : TaskStore :=
  match ts_file st, io with
  | file_absent, _ => set_record rec_ok st
  | _, None => set_record rec_ok (set_file file_absent st)
  | _, Some m => set_record (rec_failed m) st
  end.

(** ** Snapshot *)

Record AiraTasksStatus := {
  st_enabled : bool;
  st_total : Z;
  st_counts : AiraTaskStatus → Z;
  st_current : option jsstr;
  st_rows : list AiraTaskSnapshotRow;
  st_childRows : Z;
  st_updatedAt : Z;
  st_summary : jsstr;
  st_persistence : option AiraTaskPersistenceRecord }.

Definition rowProjection (t : AiraTask) : AiraTaskSnapshotRow :=
  {| row_id := id t; row_title := title t; row_status := status t; row_source := source t;
     row_dependsOn := dependsOn t; row_childRunId := truthy_str (childRunId t);
     row_childRole := childRole t; row_detail := truthy_str (detail t);
     row_failureKind := failureKind t |}.

Definition count_status (tasks : list AiraTask) (s : AiraTaskStatus) : Z :=
  zlen (filter (λ t, status t = s) tasks).

Definition taskSummary (total : Z) (counts : AiraTaskStatus → Z) (enabled : bool) : jsstr :=
  if negb enabled then js "disabled"
  else if total =? 0 then js "no tasks"
  else num_str (counts completed) ++ js "/" ++ num_str total ++ js " · " ++ num_str (counts active)
       ++ js " active"
       ++ (if 0 <? counts blocked then js " · " ++ num_str (counts blocked) ++ js " blocked" else []).

(** ** The manager *)

(** What one call reads from outside: the clock, the live setting, and whether the
    file system accepts the write. *)
Record Env := { now : Z; enabled : bool; io : option jsstr }.

Record Manager := {
  tasks : taskmap;
  listeners : list nat;                       (** the subscribed callbacks, in order *)
  snapshot : AiraTasksStatus;                 (** also [state.tasks] *)
  delivered : list (nat * AiraTasksStatus);   (** what the listeners received, latest last *)
  subscribed : bool;                          (** the orchestration subscription is active *)
  disposed : bool;
  persistence : option TaskStore;
  recoveryHintPending : bool }.

Definition set_tasks v m := {| tasks := v; listeners := listeners m; snapshot := snapshot m;
  delivered := delivered m; subscribed := subscribed m; disposed := disposed m;
  persistence := persistence m; recoveryHintPending := recoveryHintPending m |}.
Definition set_listeners v m := {| tasks := tasks m; listeners := v; snapshot := snapshot m;
  delivered := delivered m; subscribed := subscribed m; disposed := disposed m;
  persistence := persistence m; recoveryHintPending := recoveryHintPending m |}.
Definition set_snapshot v d m := {| tasks := tasks m; listeners := listeners m; snapshot := v;
  delivered := d; subscribed := subscribed m; disposed := disposed m;
  persistence := persistence m; recoveryHintPending := recoveryHintPending m |}.
Definition set_lifecycle s d m := {| tasks := tasks m; listeners := listeners m; snapshot := snapshot m;
  delivered := delivered m; subscribed := s; disposed := d;
  persistence := persistence m; recoveryHintPending := recoveryHintPending m |}.
Definition set_persistence v m := {| tasks := tasks m; listeners := listeners m; snapshot := snapshot m;
  delivered := delivered m; subscribed := subscribed m; disposed := disposed m;
  persistence := v; recoveryHintPending := recoveryHintPending m |}.
Definition set_hint v m := {| tasks := tasks m; listeners := listeners m; snapshot := snapshot m;
  delivered := delivered m; subscribed := subscribed m; disposed := disposed m;
  persistence := persistence m; recoveryHintPending := v |}.

Definition sorted_rows (tasks : taskmap) : list AiraTask := sort_by task_le tasks.*2.

Definition buildSnapshot (env : Env) (tasks : taskmap) (store : option TaskStore) : AiraTasksStatus :=
  let rows := sorted_rows tasks in
  let counts := count_status rows in
  let total := zlen rows - counts cancelled - counts failed in
  {| st_enabled := enabled env;
     st_total := total;
     st_counts := counts;
     st_current := match filter (λ t, status t = active) rows with
                   | t :: _ => Some (slice0 120 (boundTitle (title t)))
                   | [] => None end;
     st_rows := rowProjection <$> take (Z.to_nat AIRA_TASK_SNAPSHOT_ROWS) rows;
     st_childRows := zlen (filter (λ t, is_child t = true) rows);
     st_updatedAt := now env;
     st_summary := taskSummary total counts (enabled env);
     st_persistence := ts_record <$> store |}.

Definition persist (env : Env) (m : Manager) : Manager :=
  set_persistence (save (io env) (tasks m).*2 <$> persistence m) m.

Definition publish (env : Env) (m : Manager) : Manager :=
  let s := buildSnapshot env (tasks m) (persistence m) in
  set_snapshot s (delivered m ++ ((λ l, (l, s)) <$> listeners m)) m.

Definition refresh (m : Manager) : Manager := set_tasks (refreshDerivedStates (tasks m)) m.
Definition evict (m : Manager) : Manager := set_tasks (evictSettled (tasks m)) m.

Definition newManager (env : Env) (store : option TaskStore) : Manager :=
  let '(store, recovered) :=
    match store with
    | Some st => let '(st, r) := recover (io env) st in (Some st, r)
    | None => (None, None)
    end in
  let rows := match recovered with Some (ts, _) => ts | None => [] end in
  let tasks := foldl (λ m t, if mhas (id t) m then m else mset (id t) t m) [] rows in
  let tasks := refreshDerivedStates tasks in
  {| tasks := tasks; listeners := []; snapshot := buildSnapshot env tasks store; delivered := [];
     subscribed := false; disposed := false; persistence := store;
     recoveryHintPending := match recovered with Some (_, n) => 0 <? n | None => false end |}.

(** [activate]; [orchestration] tells whether there is a handle to subscribe to. *)
Definition activate (env : Env) (orchestration : bool) (m : Manager) : Manager :=
  if disposed m then m else publish env (set_lifecycle orchestration false m).

Definition unknown_task (i : jsstr) : jsstr := js "unknown task " ++ quoted i.
Definition unknown_dependency (d : jsstr) : jsstr := js "unknown dependency task " ++ quoted d.

Definition first_unknown (tasks : taskmap) (deps : list jsstr) : option jsstr :=
  head (filter (λ d, mhas d tasks = false) deps).

(** [if (unknown) return { ok: false, message: ... }] *)
Definition reject_unknown {S} (tasks : taskmap) (deps : list jsstr) : stres S jsstr () :=
  match first_unknown tasks deps with
  | Some d => throw (unknown_dependency d)
  | None => mret ()
  end.

(** [create]; [fresh] is the generated id. *)
Definition create (env : Env) (fresh : jsstr) (raw_title : jsstr) (src : option AiraTaskSource)
    (deps : option (list jsstr)) (nt : option jsstr) : stres Manager jsstr AiraTask :=
  m ← get;
  fail_if (disposed m) (js "session disposed") ;;
  let normalized := trim raw_title in
  fail_if (bool_decide (normalized = [])) (js "task title is required") ;;
  fail_if (AIRA_TASK_MAX_ROWS <=? zlen (tasks m))
    (js "task limit reached (" ++ num_str AIRA_TASK_MAX_ROWS ++ js ")") ;;
  let deps := normalizeDependencies deps in
  reject_unknown (tasks m) deps ;;
  let task := {| id := fresh; title := boundTitle normalized; status := pending;
                 source := match src with Some model => model | Some child => child | _ => user end;
                 dependsOn := deps; note := boundNote <$> truthy_str nt; createdAt := now env;
                 startedAt := None; completedAt := None; childRunId := None; childRole := None;
                 detail := None; failureKind := None |} in
  modify (set_tasks (mset fresh task (tasks m))) ;;
  modify refresh ;; modify evict ;; modify (persist env) ;; modify (publish env) ;;
  m' ← get;
  mret (default task (mget fresh (tasks m'))).

(** The four optional parts of [patch], in the source's order.  Each works on the task
    object itself, so an error keeps the assignments made before it. *)
Definition assign_title (p : AiraTaskPatch) : stres AiraTask jsstr () :=
  match patch_title p with
  | None => mret ()
  | Some raw =>
      fail_if (bool_decide (trim raw = [])) (js "task title cannot be empty") ;;
      modify (set_title (boundTitle (trim raw)))
  end.

Definition assign_note (p : AiraTaskPatch) : stres AiraTask jsstr () :=
  match patch_note p with
  | None => mret ()
  | Some n => modify (set_note (if bool_decide (trim n = []) then None else Some (boundNote n)))
  end.

Definition assign_dependsOn (tasks : taskmap) (i : jsstr) (p : AiraTaskPatch) : stres AiraTask jsstr () :=
  match patch_dependsOn p with
  | None => mret ()
  | Some raw =>
      let deps := normalizeDependencies (Some raw) in
      fail_if (bool_decide (i ∈ deps)) (js "a task cannot depend on itself") ;;
      reject_unknown tasks deps ;;
      modify (set_dependsOn deps)
  end.

Definition assign_status (env : Env) (tasks : taskmap) (i : jsstr) (p : AiraTaskPatch) : stres AiraTask jsstr () :=
  match patch_status p with
  | None => mret ()
  | Some s =>
      fail_if (negb (bool_decide (s ∈ AIRA_TASK_PATCHABLE_STATUSES)))
        (js "status " ++ quoted (status_name s) ++ js " cannot be set directly (blocked is derived)") ;;
      t ← get;
      fail_if (bool_decide (s = active ∨ s = completed) && hasUnfinishedDependencies tasks t)
        (js "task " ++ quoted i ++ js " is dependency-blocked: finish "
         ++ join (js ", ") (unfinishedDependencies tasks t) ++ js " first") ;;
      if bool_decide (s = status t) then mret ()
      else
        fail_if (negb (bool_decide (s ∈ AIRA_TASK_TRANSITIONS (status t))))
          (js "cannot move task " ++ quoted i ++ js " from " ++ status_name (status t)
           ++ js " to " ++ status_name s) ;;
        modify (set_status s) ;;
        (if bool_decide (s = active)
         then modify (λ t, set_startedAt (Some (default (now env) (startedAt t))) t) else mret ()) ;;
        (if bool_decide (s = completed) then modify (set_completedAt (Some (now env))) else mret ())
  end.

(** [tasks] is the map for looking up dependencies; while the task is edited only its
    own non-status fields differ from the map. *)
Definition patch_task (env : Env) (tasks : taskmap) (i : jsstr) (p : AiraTaskPatch) : stres AiraTask jsstr () :=
  assign_title p ;; assign_note p ;; assign_dependsOn tasks i p ;; assign_status env tasks i p.

Definition patch (env : Env) (i : jsstr) (p : AiraTaskPatch) : stres Manager jsstr AiraTask :=
  m ← get;
  fail_if (disposed m) (js "session disposed") ;;
  match mget i (tasks m) with
  | None => throw (unknown_task i)
  | Some task =>
      fail_if (is_child task)
        (js "task " ++ quoted i ++ js " is owned by orchestration (child run "
         ++ default [] (childRunId task) ++ js "); cancel via /agents") ;;
      fail_if (is_settled (status task))
        (js "task " ++ quoted i ++ js " is " ++ status_name (status task) ++ js " (terminal)") ;;
      let '(task', r) := patch_task env (tasks m) i p task in
      modify (set_tasks (mset i task' (tasks m))) ;;
      match r with
      | Err e => throw e
      | Ok _ =>
          modify refresh ;; modify (persist env) ;; modify (publish env) ;;
          m' ← get;
          mret (default task' (mget i (tasks m')))
      end
  end.

Definition get_task (i : jsstr) (m : Manager) : option AiraTask := mget i (tasks m).

Definition list_tasks (s : option AiraTaskStatus) (m : Manager) : list AiraTask :=
  match s with
  | None => sorted_rows (tasks m)
  | Some s => filter (λ t, status t = s) (sorted_rows (tasks m))
  end.

Definition status_patch (s : AiraTaskStatus) : AiraTaskPatch :=
  {| patch_title := None; patch_status := Some s; patch_dependsOn := None; patch_note := None |}.

Definition complete (env : Env) (i : jsstr) : stres Manager jsstr AiraTask :=
  m ← get;
  match mget i (tasks m) with
  | None => throw (unknown_task i)
  | Some task =>
      (if bool_decide (status task = pending) then patch env i (status_patch active) ;; mret () else mret ()) ;;
      patch env i (status_patch completed)
  end.

Definition remove (env : Env) (i : jsstr) : stres Manager jsstr () :=
  m ← get;
  match mget i (tasks m) with
  | None => throw (unknown_task i)
  | Some task =>
      fail_if (is_child task) (js "task " ++ quoted i ++ js " is owned by orchestration; cancel via /agents") ;;
      modify (set_tasks (mdelete i (tasks m))) ;;
      modify refresh ;; modify (persist env) ;; modify (publish env)
  end.

Definition clear (env : Env) : stres Manager jsstr () :=
  m ← get;
  fail_if (disposed m) (js "session disposed") ;;
  modify (set_tasks (filter (λ kt, is_child kt.2 = true) (tasks m))) ;;
  modify refresh ;; modify (persist env) ;; modify (publish env).

Definition status_op (env : Env) (m : Manager) : Manager * AiraTasksStatus :=
  let m := publish env m in (m, snapshot m).

Definition consumeRecoveryHint (m : Manager) : Manager * option jsstr :=
  if recoveryHintPending m then (set_hint false m, Some AIRA_TASK_RECOVERY_HINT) else (m, None).

Definition subscribe (l : nat) (m : Manager) : Manager :=
  set_listeners (if bool_decide (l ∈ listeners m) then listeners m else listeners m ++ [l]) m.
Definition unsubscribe (l : nat) (m : Manager) : Manager :=
  set_listeners (filter (λ l', l' ≠ l) (listeners m)) m.

Definition dispose (env : Env) (m : Manager) : Manager :=
  if disposed m then m
  else publish env (set_listeners [] (set_tasks [] (set_lifecycle false true (persist env m)))).

(** ** Projection of orchestration runs *)

Definition mapDependencies (runs : list AiraChildRun) (deps : list jsstr) : list jsstr :=
  let taskIdToRunId := mof_list ((λ r, (run_taskId r, run_id r)) <$> runs) in
  take (Z.to_nat AIRA_TASK_MAX_DEPENDENCIES) ((λ d, default d (mget d taskIdToRunId)) <$> deps).

Definition is_row_of (run : AiraChildRun) (t : AiraTask) : bool :=
  is_child t && bool_decide (childRunId t = Some (run_id run)).

(** The update of an existing row. *)
Definition update_child_row (runs : list AiraChildRun) (run : AiraChildRun) (t : AiraTask) : AiraTask :=
  let s := childTaskStatus (run_status run) (run_phase run) in
  let t := set_title (boundTitle (run_task run)) t in
  let t := set_status s t in
  let t := set_dependsOn (mapDependencies runs (run_dependencies run)) t in
  let t := set_child_view (childTaskDetail run) (fi_kind <$> run_error run) t in
  if bool_decide (s = completed)
  then set_completedAt (match completedAt t with Some z => Some z | None => run_completedAt run end) t
  else t.

Definition new_child_row (runs : list AiraChildRun) (run : AiraChildRun) : AiraTask :=
  {| id := js "c-" ++ slice0 12 (run_id run);
     title := boundTitle (run_task run);
     status := childTaskStatus (run_status run) (run_phase run);
     source := child;
     dependsOn := mapDependencies runs (run_dependencies run);
     note := None;
     createdAt := run_createdAt run;
     startedAt := truthy_num (run_startedAt run);
     completedAt := truthy_num (run_completedAt run);
     childRunId := Some (run_id run);
     childRole := Some (run_role run);
     detail := truthy_str (childTaskDetail run);
     failureKind := fi_kind <$> run_error run |}.

Definition sync_run (runs : list AiraChildRun) (tasks : taskmap) (run : AiraChildRun) : taskmap :=
  match filter (λ kt, is_row_of run kt.2 = true) tasks with
  | (k, t) :: _ => mset k (update_child_row runs run t) tasks
  | [] => let t := new_child_row runs run in mset (id t) t tasks
  end.

Definition has_run (runs : list AiraChildRun) (r : jsstr) : bool := existsb (λ run, bool_decide (run_id run = r)) runs.

(** The rows the first loop keeps: every native row, and the child rows whose run is
    still listed. *)
Definition keep_row (runs : list AiraChildRun) (t : AiraTask) : bool :=
  negb (is_child t) || match childRunId t with Some r => has_run runs r | None => true end.

Definition syncChildRows (env : Env) (runs : list AiraChildRun) (m : Manager) : Manager :=
  let kept := filter (λ kt, keep_row runs kt.2 = true) (tasks m) in
  publish env (evict (refresh (set_tasks (foldl (sync_run runs) kept runs) m))).

(** ** The derived states *)

(** The loop over the live map computes the same as rewriting every row against the
    map it started from: the derived states do not feed back into each other. *)
Definition refresh_all (tasks : taskmap) : taskmap := mmap (refresh_task tasks) tasks.

Lemma refresh_task_settled ts t : is_settled (status (refresh_task ts t)) = is_settled (status t).
Proof. unfold refresh_task. repeat case_match; bool_prop; cbn; try done; by rewrite H0 || by rewrite H1. Qed.

Lemma refresh_task_fields ts t :
  id (refresh_task ts t) = id t ∧ title (refresh_task ts t) = title t
  ∧ dependsOn (refresh_task ts t) = dependsOn t ∧ note (refresh_task ts t) = note t
  ∧ source (refresh_task ts t) = source t ∧ completedAt (refresh_task ts t) = completedAt t
  ∧ createdAt (refresh_task ts t) = createdAt t ∧ childRunId (refresh_task ts t) = childRunId t.
Proof. unfold refresh_task. by repeat case_match. Qed.

Lemma unfinished_ext ts1 ts2 t :
  (∀ d, is_unfinished ts1 d = is_unfinished ts2 d) →
  unfinishedDependencies ts1 t = unfinishedDependencies ts2 t.
Proof. intros Hd. apply list_filter_iff. intros d. by rewrite Hd. Qed.

Lemma refresh_task_ext ts1 ts2 t :
  (∀ d, is_unfinished ts1 d = is_unfinished ts2 d) → refresh_task ts1 t = refresh_task ts2 t.
Proof. intros Hd. unfold refresh_task, hasUnfinishedDependencies. by rewrite (unfinished_ext _ _ _ Hd). Qed.

Lemma is_unfinished_settled ts1 ts2 :
  (∀ k, (λ t, is_settled (status t)) <$> mget k ts1 = (λ t, is_settled (status t)) <$> mget k ts2) →
  ∀ d, is_unfinished ts1 d = is_unfinished ts2 d.
Proof.
  intros Hk d. specialize (Hk d). unfold is_unfinished.
  destruct (mget d ts1), (mget d ts2); simplify_eq/=; [by f_equal|done..].
Qed.

Lemma refresh_all_unfinished ts d : is_unfinished (refresh_all ts) d = is_unfinished ts d.
Proof.
  apply is_unfinished_settled. intros k. unfold refresh_all. rewrite mget_mmap.
  destruct (mget k ts); cbn; [by rewrite refresh_task_settled|done].
Qed.

Lemma refresh_loop ts ks m :
  m.*1 = ts.*1 → NoDup ks →
  (∀ k, mget k m = (if bool_decide (k ∈ ks) then mget k ts else refresh_task ts <$> mget k ts)) →
  let m' := foldl (λ m k, match mget k m with Some t => mset k (refresh_task m t) m | None => m end) m ks in
  m'.*1 = ts.*1 ∧ ∀ k, mget k m' = refresh_task ts <$> mget k ts.
Proof.
  revert m. induction ks as [|k ks IH]; intros m Hkeys Hnd Hm; cbn [foldl].
  { split; [done|]. intros k. by rewrite Hm. }
  apply NoDup_cons in Hnd as [Hk Hnd].
  assert (∀ d, is_unfinished m d = is_unfinished ts d) as Hun.
  { apply is_unfinished_settled. intros k'. rewrite Hm. case_bool_decide; [done|].
    destruct (mget k' ts); cbn; [by rewrite refresh_task_settled|done]. }
  pose proof (Hm k) as Hmk. rewrite bool_decide_eq_true_2 in Hmk by (by left).
  destruct (mget k m) as [t|] eqn:Et.
  - apply IH; [rewrite mset_keys_present; [done|by rewrite Et]|done|].
    intros k'. rewrite mget_mset, (refresh_task_ext _ _ _ Hun). case_decide; subst.
    + rewrite bool_decide_eq_false_2 by done. by rewrite <- Hmk.
    + rewrite Hm. repeat case_bool_decide; set_solver.
  - apply IH; [done|done|]. intros k'. rewrite Hm. destruct (decide (k' = k)) as [->|Hne].
    + rewrite <- Hmk. by repeat case_bool_decide.
    + repeat case_bool_decide; set_solver.
Qed.

Lemma refresh_eq ts : NoDup ts.*1 → refreshDerivedStates ts = refresh_all ts.
Proof.
  intros Hnd. destruct (refresh_loop ts ts.*1 ts) as [Hk Hg]; [done|done| |].
  { intros k. case_bool_decide; [done|]. assert (mget k ts = None) as -> by (by apply mget_None). done. }
  unfold refreshDerivedStates.
  apply mget_ext; [rewrite Hk; symmetry; apply mmap_keys|unfold refresh_all; by rewrite mmap_keys|].
  intros k. rewrite Hg. unfold refresh_all. by rewrite mget_mmap.
Qed.

(** A native row is [blocked] exactly when it waits for something; [pending] rows
    never do. *)
Definition derived_ok (ts : taskmap) : Prop :=
  Forall (λ kt, is_child kt.2 = false →
    (status kt.2 = pending → hasUnfinishedDependencies ts kt.2 = false)
    ∧ (status kt.2 = blocked → hasUnfinishedDependencies ts kt.2 = true)) ts.

Lemma refresh_derived ts : NoDup ts.*1 → derived_ok (refreshDerivedStates ts).
Proof.
  intros Hnd. rewrite refresh_eq by done. apply Forall_forall. intros [k t'] Hin Hc. cbn in *.
  unfold refresh_all, mmap in Hin. apply list_elem_of_fmap in Hin as ([k0 t] & [= -> ->] & _).
  assert (hasUnfinishedDependencies (refresh_all ts) (refresh_task ts t) = hasUnfinishedDependencies ts t) as ->.
  { unfold hasUnfinishedDependencies. rewrite (unfinished_ext _ ts _ (refresh_all_unfinished ts)).
    unfold unfinishedDependencies. by rewrite (proj1 (proj2 (proj2 (refresh_task_fields ts t)))). }
  unfold refresh_task in *. destruct (is_child t) eqn:Ec; [congruence|].
  destruct (hasUnfinishedDependencies ts t) eqn:Eu, (status t) eqn:Es;
    repeat case_bool_decide; try done; cbn; rewrite ?Es; done.
Qed.

(** ** What each operation does to the map *)

Definition native (t : AiraTask) : bool := negb (is_child t).

(** [refresh], [persist] and [publish], as every successful operation ends. *)
Definition conclude (env : Env) (m : Manager) : Manager := publish env (persist env (refresh m)).

Lemma conclude_tasks env m : tasks (conclude env m) = refreshDerivedStates (tasks m).
Proof. done. Qed.

Lemma reject_unknown_run {S} ts deps (s s' : S) r :
  reject_unknown ts deps s = (s', r) →
  s' = s ∧ (r = Ok () ∧ Forall (λ d, mhas d ts = true) deps ∨ ∃ e, r = Err e).
Proof.
  unfold reject_unknown, first_unknown. destruct (filter _ deps) as [|d ds] eqn:E; intros [= <- <-]; cbn.
  - split; [done|]. left. split; [done|]. apply Forall_forall. intros d Hd.
    destruct (mhas d ts) eqn:Em; [done|]. assert (d ∈ filter (λ d, mhas d ts = false) deps) as Hin
      by (by apply list_elem_of_filter). rewrite E in Hin. by apply not_elem_of_nil in Hin.
  - split; [done|]. right. by eexists.
Qed.

Lemma create_run env fresh raw src deps nt m m' r :
  create env fresh raw src deps nt m = (m', r) →
  (∃ e, r = Err e ∧ m' = m)
  ∨ (∃ task, r = Ok (default task (mget fresh (tasks m'))) ∧ zlen (tasks m) < AIRA_TASK_MAX_ROWS
      ∧ tasks m' = evictSettled (refreshDerivedStates (mset fresh task (tasks m)))
      ∧ m' = publish env (persist env (set_tasks (tasks m') m))
      ∧ disposed m = false ∧ id task = fresh ∧ title task = boundTitle (trim raw) ∧ trim raw ≠ []
      ∧ status task = pending ∧ dependsOn task = normalizeDependencies deps
      ∧ Forall (λ d, mhas d (tasks m) = true) (dependsOn task)
      ∧ note task = boundNote <$> truthy_str nt
      ∧ source task = (match src with Some model => model | Some child => child | _ => user end)
      ∧ childRunId task = None ∧ childRole task = None ∧ detail task = None ∧ failureKind task = None).
Proof.
  intros H. unfold create in H. exec_in H; [by left; injection H as <- <-; eauto..|].
  destruct (reject_unknown (tasks m) (normalizeDependencies deps) m) as [m1 r1] eqn:Er.
  apply reject_unknown_run in Er as [-> [[-> Hdeps]|[e ->]]]; [|by left; injection H as <- <-; eauto].
  bool_prop. injection H as <- <-. right. eexists. split; [reflexivity|]. split; [done|].
  by repeat (split; [done|]).
Qed.

(** Edits of the title, note and dependencies; everything else is as before. *)
Record edited (ts : taskmap) (i : jsstr) (t t' : AiraTask) : Prop := {
  ed_id : id t' = id t;
  ed_source : source t' = source t;
  ed_run : childRunId t' = childRunId t;
  ed_role : childRole t' = childRole t;
  ed_detail : detail t' = detail t;
  ed_kind : failureKind t' = failureKind t;
  ed_created : createdAt t' = createdAt t;
  ed_status : status t' = status t;
  ed_title : title t' = title t ∨ ∃ raw, trim raw ≠ [] ∧ title t' = boundTitle (trim raw);
  ed_note : note t' = note t ∨ note t' = None ∨ ∃ n, note t' = Some (boundNote n);
  ed_deps : dependsOn t' = dependsOn t
    ∨ ∃ ds, dependsOn t' = normalizeDependencies (Some ds) ∧ i ∉ dependsOn t'
        ∧ Forall (λ d, mhas d ts = true) (dependsOn t') }.

Lemma edited_refl ts i t : edited ts i t t.
Proof. by constructor; auto. Qed.

Lemma edited_trans ts i t1 t2 t3 : edited ts i t1 t2 → edited ts i t2 t3 → edited ts i t1 t3.
Proof.
  intros [] []. constructor; try congruence.
  - destruct ed_title1 as [->|?]; [done|by right].
  - destruct ed_note1 as [->|?]; [done|by right].
  - destruct ed_deps1 as [->|?]; [done|by right].
Qed.

Lemma assign_edit ts i p t t' r :
  (assign_title p ;; assign_note p ;; assign_dependsOn ts i p) t = (t', r) → edited ts i t t'.
Proof.
  assert (∀ t t' r, assign_title p t = (t', r) → edited ts i t t') as H1.
  { clear. intros t t' r H. unfold assign_title in H. destruct (patch_title p) as [raw|]; exec_in H;
      injection H as <- <-; try apply edited_refl. bool_prop. by constructor; auto; right; exists raw. }
  assert (∀ t t' r, assign_note p t = (t', r) → edited ts i t t') as H2.
  { clear. intros t t' r H. unfold assign_note in H. destruct (patch_note p) as [n|]; exec_in H;
      injection H as <- <-; try apply edited_refl; by constructor; eauto. }
  assert (∀ t t' r, assign_dependsOn ts i p t = (t', r) → edited ts i t t') as H3.
  { clear. intros t t' r H. unfold assign_dependsOn in H. destruct (patch_dependsOn p) as [ds|]; exec_in H;
      try (injection H as <- <-; apply edited_refl).
    destruct (reject_unknown ts (normalizeDependencies (Some ds)) t) as [t1 r1] eqn:Er.
    apply reject_unknown_run in Er as [-> [[-> Hd]|[e ->]]]; injection H as <- <-; [|apply edited_refl].
    bool_prop. constructor; auto. right. by exists ds. }
  intros H. rewrite !stres_bind_eq in H.
  destruct (assign_title p t) as [t1 [[]|e]] eqn:E1; [|injection H as <- <-; eauto].
  rewrite stres_bind_eq in H.
  apply H1 in E1.
  destruct (assign_note p t1) as [t2 [[]|e]] eqn:E2; apply H2 in E2.
  - apply H3 in H. by eapply edited_trans; [|eapply edited_trans].
  - injection H as <- <-. by eapply edited_trans.
Qed.

Lemma assign_status_run env ts i p t t' r :
  assign_status env ts i p t = (t', r) →
  (t' = t ∨ r = Ok () ∧ patch_status p = Some (status t') ∧ status t' ∈ AIRA_TASK_TRANSITIONS (status t)
     ∧ edited ts i t (set_status (status t) t') ∧ dependsOn t' = dependsOn t)
  ∧ (r = Ok () → ∀ s, patch_status p = Some s →
       status t' = s ∧ (s = active ∨ s = completed → hasUnfinishedDependencies ts t = false)).
Proof.
  intros H. unfold assign_status in H. destruct (patch_status p) as [s|]; exec_in H;
    injection H as <- <-; bool_prop;
    (split; [first [by left|right; cbn; split_and!; [done|done|done|by constructor; auto|done]]|]);
    intros Hr s' Hs; simplify_eq/=; (split; [done|]); intros Has.
  all: first [done|rewrite bool_decide_eq_true_2 in * by done; by destruct (hasUnfinishedDependencies ts t)].
Qed.

End Tasks.
