(* ===== verification/TasksProps.v ===== *)
(** * The session task graph: invariant and theorems

    The well-formedness of a reachable manager, the forward-only lifecycle, the
    derived [blocked] state, the eviction policy and the round trip through the
    state file, for the definitions of [Tasks.v]. *)
From S2P Require Import Prelude JsMap JsString OrchTypes Tasks.

Module TasksProps.
Import Tasks.

(** ** Well-formed rows *)

(** What every native row of a manager satisfies. *)
Record native_ok (t : AiraTask) : Prop := {
  nat_id : zlen (id t) <= 160;
  nat_title : title t ≠ [] ∧ zlen (title t) <= AIRA_TASK_MAX_TITLE_CHARS ∧ trim (title t) = title t;
  nat_note : from_option (λ n, zlen n <= AIRA_TASK_MAX_NOTE_CHARS ∧ trim n = n) True (note t);
  nat_deps : zlen (dependsOn t) <= AIRA_TASK_MAX_DEPENDENCIES ∧ NoDup (dependsOn t)
             ∧ Forall (λ d, trim d ≠ []) (dependsOn t);
  nat_status : status t ≠ failed;
  nat_child : childRunId t = None ∧ childRole t = None ∧ detail t = None ∧ failureKind t = None }.

Definition row_ok (kt : jsstr * AiraTask) : Prop :=
  kt.1 = id kt.2 ∧ zlen (title kt.2) <= AIRA_TASK_MAX_TITLE_CHARS
  ∧ zlen (dependsOn kt.2) <= AIRA_TASK_MAX_DEPENDENCIES
  ∧ (is_child kt.2 = false → native_ok kt.2).

Definition native_rows (ts : taskmap) : list (jsstr * AiraTask) := filter (λ kt, is_child kt.2 = false) ts.

Record map_ok (ts : taskmap) : Prop := {
  mok_keys : NoDup ts.*1;
  mok_rows : Forall row_ok ts;
  mok_count : zlen (native_rows ts) <= AIRA_TASK_MAX_ROWS }.

Record wf (m : Manager) : Prop := {
  wf_map : map_ok (tasks m);
  wf_disposed : disposed m = true → tasks m = [] ∧ subscribed m = false }.

(** ** Texts and dependency lists *)

Lemma bound_text_nonempty n s : 0 < n → s ≠ [] → bound_text n s ≠ [].
Proof. unfold bound_text. intros Hn Hs. case_match; [done|]. by destruct (slice0 _ s). Qed.

Lemma boundTitle_ok raw :
  trim raw ≠ [] →
  boundTitle (trim raw) ≠ [] ∧ zlen (boundTitle (trim raw)) <= AIRA_TASK_MAX_TITLE_CHARS
  ∧ trim (boundTitle (trim raw)) = boundTitle (trim raw).
Proof.
  intros Hr. unfold boundTitle. rewrite trim_idem.
  split; [by apply bound_text_nonempty|]. split; [by apply bound_text_le|].
  apply trim_bound_text; [done|apply trim_idem].
Qed.

Lemma boundNote_ok n : zlen (boundNote n) <= AIRA_TASK_MAX_NOTE_CHARS ∧ trim (boundNote n) = boundNote n.
Proof. split; [by apply bound_text_le|]. apply trim_bound_text; [done|apply trim_idem]. Qed.

Lemma elem_dedup seen l x : x ∈ dedup seen l ↔ x ∈ l ∧ x ∉ seen.
Proof.
  revert seen. induction l as [|y l IH]; intros seen; cbn [dedup]; [split; [by intros ?%not_elem_of_nil|by intros [?%not_elem_of_nil _]]|].
  case_bool_decide; rewrite ?elem_of_cons, IH, ?not_elem_of_cons; [|destruct (decide (x = y)) as [->|]];
    intuition (subst; auto; contradiction).
Qed.

Lemma NoDup_dedup seen l : NoDup (dedup seen l).
Proof.
  revert seen. induction l as [|y l IH]; intros seen; cbn [dedup]; [constructor|].
  case_bool_decide; [apply IH|]. constructor; [|apply IH]. rewrite elem_dedup, not_elem_of_cons. tauto.
Qed.

Lemma dedup_id seen l : NoDup l → (∀ x, x ∈ l → x ∉ seen) → dedup seen l = l.
Proof.
  revert seen. induction l as [|y l IH]; intros seen Hnd Hs; cbn [dedup]; [done|].
  apply NoDup_cons in Hnd as [Hy Hnd]. rewrite bool_decide_eq_false_2 by (apply Hs; by left).
  f_equal. apply IH; [done|]. intros x Hx. apply not_elem_of_cons. split; [by intros ->|].
  apply Hs. by right.
Qed.

(** Whatever is trimmed, filtered, deduplicated and cut is a dependency list. *)
Lemma deps_shape l :
  Forall (λ d, trim d ≠ []) l →
  let ds := take (Z.to_nat AIRA_TASK_MAX_DEPENDENCIES) (dedup [] l) in
  zlen ds <= AIRA_TASK_MAX_DEPENDENCIES ∧ NoDup ds ∧ Forall (λ d, trim d ≠ []) ds.
Proof.
  intros Hl. cbn zeta. split; [rewrite zlen_take; unfold AIRA_TASK_MAX_DEPENDENCIES; lia|].
  split; [apply sublist_NoDup with (dedup [] l); [apply NoDup_dedup|apply sublist_take]|].
  apply Forall_take, Forall_forall. intros d [Hd _]%elem_dedup. by eapply Forall_forall in Hl.
Qed.

Lemma normalizeDependencies_ok deps :
  zlen (normalizeDependencies deps) <= AIRA_TASK_MAX_DEPENDENCIES
  ∧ NoDup (normalizeDependencies deps) ∧ Forall (λ d, trim d ≠ []) (normalizeDependencies deps).
Proof.
  destruct deps as [l|]; cbn [normalizeDependencies]; [|by repeat constructor].
  apply deps_shape, Forall_forall. intros d [Hd Hin]%list_elem_of_filter.
  apply list_elem_of_fmap in Hin as (raw & -> & _). by rewrite trim_idem.
Qed.

(** ** The invariant under the map operations *)

Lemma native_rows_sublist ts1 ts2 : ts1 `sublist_of` ts2 → zlen (native_rows ts1) <= zlen (native_rows ts2).
Proof.
  intros Hs. induction Hs as [|[k t] l1 l2 _ IH|[k t] l1 l2 _ IH]; [done|..].
  all: unfold native_rows in *; rewrite !filter_cons; case_decide; rewrite ?zlen_cons; lia.
Qed.

Lemma map_ok_sublist ts1 ts2 : ts1 `sublist_of` ts2 → map_ok ts2 → map_ok ts1.
Proof.
  intros Hs []. constructor; [by eapply NoDup_sublist_keys|by eapply Forall_sublist|].
  pose proof (native_rows_sublist _ _ Hs). lia.
Qed.

Lemma Forall_mset {K V} `{EqDecision K} (P : K * V → Prop) k v ts :
  Forall P ts → P (k, v) → Forall P (mset k v ts).
Proof.
  intros Hts Hv. apply Forall_forall. intros x [->|Hx]%elem_mset; [done|]. by eapply Forall_forall in Hts.
Qed.

Lemma native_rows_cons kt ts :
  native_rows (kt :: ts) = (if is_child kt.2 then [] else [kt]) ++ native_rows ts.
Proof. unfold native_rows. by destruct (is_child kt.2) eqn:E; [rewrite filter_cons_False by by rewrite E|rewrite filter_cons_True by done]. Qed.

(** Setting a child row never adds a native row; rewriting a native row neither. *)
Lemma native_rows_mset k t ts :
  is_child t = true ∨ is_Some (mget k ts) ∧ (∀ t0, mget k ts = Some t0 → is_child t0 = false) →
  zlen (native_rows (mset k t ts)) <= zlen (native_rows ts).
Proof.
  induction ts as [|[k1 t1] ts IH]; cbn [mset mget]; [|pose proof (zlen_nonneg (native_rows ts))].
  - intros [Ht|[[] _]]; [|done]. rewrite native_rows_cons. cbn. by rewrite Ht.
  - case_decide; subst; rewrite !native_rows_cons, !zlen_app; cbn [fst snd].
    + intros [->|[_ H1]]; [|rewrite (H1 t1) by done; destruct (is_child t)];
        try destruct (is_child t1); rewrite ?zlen_cons, ?zlen_nil; lia.
    + intros ?%IH. lia.
Qed.

Lemma native_rows_le ts : zlen (native_rows ts) <= zlen ts.
Proof. apply zlen_filter_le. Qed.

(** *** Derived states *)

Lemma refresh_task_shape ts t :
  ∃ s, refresh_task ts t = set_status s t
       ∧ (s = status t ∨ is_child t = false ∧ (status t = pending ∧ s = blocked ∨ status t = blocked ∧ s = pending)).
Proof.
  unfold refresh_task. destruct (is_child t); [exists (status t); split; [by destruct t|auto]|].
  case_match eqn:E1; [bool_prop; exists blocked; eauto 6|].
  case_match eqn:E2; [bool_prop; exists pending; eauto 6|]. exists (status t). split; [by destruct t|auto].
Qed.

Lemma set_status_ok s t k : s ≠ failed ∨ s = status t → row_ok (k, t) → row_ok (k, set_status s t).
Proof.
  intros Hs (Hk & Ht & Hd & Hn). split_and!; [done..|]. intros Hc. specialize (Hn Hc). destruct Hn.
  constructor; auto. cbn. by destruct Hs as [?|Hs]; subst.
Qed.

Lemma refresh_map_ok ts : map_ok ts → map_ok (refreshDerivedStates ts).
Proof.
  intros [Hk Hr Hc]. rewrite refresh_eq by done. unfold refresh_all. constructor.
  - by rewrite mmap_keys.
  - unfold mmap. apply Forall_fmap. eapply Forall_impl; [done|]. intros [k t] Ht. cbn.
    destruct (refresh_task_shape ts t) as (s & -> & Hs). apply set_status_ok; [|done].
    destruct Hs as [Hs|(_ & [[_ Hs]|[_ Hs]])]; subst s; auto.
  - etrans; [|exact Hc]. apply Z.eq_le_incl. unfold zlen. f_equal. unfold native_rows, mmap.
    generalize (refresh_task_shape ts). generalize (refresh_task ts). clear. intros f Hf.
    induction ts as [|[k t] ts IH]; [done|]. rewrite fmap_cons, !filter_cons. cbn.
    assert (is_child (f t) = is_child t) as -> by (destruct (Hf t) as (s & -> & _); done).
    by destruct (decide _); cbn; rewrite IH.
Qed.

(** *** Eviction *)

Lemma evict_loop_sublist l ts : evict_loop l ts `sublist_of` ts.
Proof.
  revert ts. induction l as [|t l IH]; intros ts; cbn; [done|]. case_match; [done|].
  etrans; [apply IH|apply mdelete_sublist].
Qed.

Lemma evict_sublist ts : evictSettled ts `sublist_of` ts.
Proof. unfold evictSettled. case_match; [done|]. apply evict_loop_sublist. Qed.

(** *** The projection of runs *)

Lemma new_child_row_ok runs run : row_ok (id (new_child_row runs run), new_child_row runs run).
Proof.
  split_and!; [done|by apply bound_text_le| |by intros ?%bool_decide_eq_false].
  cbn. unfold mapDependencies. rewrite zlen_take. unfold AIRA_TASK_MAX_DEPENDENCIES. lia.
Qed.

Lemma update_child_row_fields runs run t :
  id (update_child_row runs run t) = id t ∧ source (update_child_row runs run t) = source t
  ∧ title (update_child_row runs run t) = boundTitle (run_task run)
  ∧ status (update_child_row runs run t) = childTaskStatus (run_status run) (run_phase run)
  ∧ dependsOn (update_child_row runs run t) = mapDependencies runs (run_dependencies run)
  ∧ childRunId (update_child_row runs run t) = childRunId t.
Proof. unfold update_child_row. by case_bool_decide. Qed.

Lemma update_child_row_ok runs run k t :
  is_child t = true → row_ok (k, t) → row_ok (k, update_child_row runs run t).
Proof.
  intros Hc (Hk & _ & _ & _). destruct (update_child_row_fields runs run t) as (Hi & Hs & Ht & _ & Hd & _).
  unfold row_ok; cbn [fst snd]. rewrite Hi, Ht, Hd. split_and!; [done|by apply bound_text_le| |].
  - unfold mapDependencies. rewrite zlen_take. unfold AIRA_TASK_MAX_DEPENDENCIES. lia.
  - unfold is_child in *. rewrite Hs. congruence.
Qed.

(** A step of the projection loop rewrites one child row, or sets a fresh one. *)
Lemma sync_run_cases runs ts run :
  (∃ k t, (k, t) ∈ ts ∧ is_row_of run t = true ∧ sync_run runs ts run = mset k (update_child_row runs run t) ts)
  ∨ Forall (λ kt, is_row_of run kt.2 = false) ts
    ∧ sync_run runs ts run = mset (id (new_child_row runs run)) (new_child_row runs run) ts.
Proof.
  unfold sync_run. destruct (filter _ ts) as [|[k t] l] eqn:E.
  - right. split; [|done]. apply Forall_forall. intros kt Hin. apply not_true_iff_false. intros Hr.
    eapply (not_elem_of_nil kt). rewrite <- E. by apply list_elem_of_filter.
  - left. exists k, t. assert ((k, t) ∈ filter (λ kt : jsstr * AiraTask, is_row_of run kt.2 = true) ts) as Hin
      by (rewrite E; by left). apply list_elem_of_filter in Hin as [? ?]. done.
Qed.

Lemma sync_run_ok runs ts run : map_ok ts → map_ok (sync_run runs ts run).
Proof.
  intros [Hk Hr Hc].
  destruct (sync_run_cases runs ts run) as [(k & t & Hin & Hrow & ->)|[_ ->]];
    (constructor; [by apply NoDup_mset| |]).
  - unfold is_row_of in Hrow. bool_prop. apply Forall_mset; [done|]. apply update_child_row_ok; [done|].
    by eapply Forall_forall in Hr.
  - etrans; [apply native_rows_mset|done]. left. destruct (update_child_row_fields runs run t) as (_ & Hs & _).
    unfold is_row_of in Hrow. bool_prop. unfold is_child in *. by rewrite Hs.
  - apply Forall_mset; [done|apply new_child_row_ok].
  - etrans; [apply native_rows_mset|done]. by left.
Qed.

Lemma sync_loop_ok runs rs ts : map_ok ts → map_ok (foldl (sync_run runs) ts rs).
Proof. revert ts. induction rs as [|r rs IH]; intros ts Hts; cbn; [done|]. by apply IH, sync_run_ok. Qed.

(** ** What [patch] does *)

(** The outcome of the four assignments: a successful status change is allowed by the
    transition table and finds its dependencies finished. *)
Record patched (ts : taskmap) (i : jsstr) (p : AiraTaskPatch) (t t' : AiraTask) (ok : bool) : Prop := {
  pa_edited : edited ts i t (set_status (status t) t');
  pa_status : status t' = status t ∨ status t' ∈ AIRA_TASK_TRANSITIONS (status t);
  pa_done : ok = true → ∀ s, patch_status p = Some s →
    status t' = s ∧ (s = active ∨ s = completed → hasUnfinishedDependencies ts t' = false) }.

Lemma edited_set_status ts i t t' s :
  edited ts i t t' → status t' = status t → edited ts i t (set_status s t') → edited ts i t t'.
Proof. done. Qed.

Lemma hasUnfinished_deps ts t t' :
  dependsOn t = dependsOn t' → hasUnfinishedDependencies ts t = hasUnfinishedDependencies ts t'.
Proof. unfold hasUnfinishedDependencies, unfinishedDependencies. by intros ->. Qed.

Lemma edited_same_status ts i t t' : edited ts i t t' → edited ts i t (set_status (status t) t').
Proof. by intros []; constructor. Qed.

Lemma patch_task_run env ts i p t t' r :
  patch_task env ts i p t = (t', r) →
  patched ts i p t t' (match r with Ok _ => true | Err _ => false end).
Proof.
  intros H. unfold patch_task in H.
  assert (∃ t1 r1, (assign_title p ;; assign_note p ;; assign_dependsOn ts i p) t = (t1, r1)
     ∧ match r1 with Ok _ => assign_status env ts i p t1 = (t', r) | Err e => t' = t1 ∧ r = Err e end)
    as (t1 & r1 & H1 & H2).
  { rewrite !stres_bind_eq in H. rewrite stres_bind_eq.
    destruct (assign_title p t) as [a [[]|e]]; [|injection H as <- <-; by eexists _, _].
    rewrite !stres_bind_eq in H. rewrite stres_bind_eq.
    destruct (assign_note p a) as [b [[]|e]]; [|injection H as <- <-; by eexists _, _].
    rewrite !stres_bind_eq in H.
    destruct (assign_dependsOn ts i p b) as [c [[]|e]]; [by eexists _, _|injection H as <- <-; by eexists _, _]. }
  apply assign_edit in H1. pose proof (ed_status _ _ _ _ H1) as Hst. destruct r1 as [[]|e].
  - apply assign_status_run in H2 as [Hrun Hok]. constructor.
    + destruct Hrun as [->|(_ & _ & _ & He & _)]; [by apply edited_same_status|].
      rewrite Hst in He. by eapply edited_trans.
    + rewrite <- Hst. destruct Hrun as [->|(_ & _ & ? & _)]; auto.
    + intros Hr s Hs. destruct r as [[]|]; [|done]. destruct (Hok eq_refl s Hs) as [? Hu].
      split; [done|]. intros Has. rewrite <- (hasUnfinished_deps ts t1 t'); [by apply Hu|].
      by destruct Hrun as [->|(_ & _ & _ & _ & ->)].
  - destruct H2 as [-> ->]. constructor; [by apply edited_same_status|by left|done].
Qed.

(** A call of [patch] is refused at once, or edits the row of a live native task: a
    late refusal leaves the edits in the map, success also refreshes, persists and
    publishes. *)
Lemma patch_run env i p m m' r :
  patch env i p m = (m', r) →
  (∃ e, r = Err e ∧ m' = m)
  ∨ ∃ t t', mget i (tasks m) = Some t ∧ disposed m = false ∧ is_child t = false ∧ is_settled (status t) = false
      ∧ patched (tasks m) i p t t' (match r with Ok _ => true | Err _ => false end)
      ∧ ((∃ e, r = Err e ∧ m' = set_tasks (mset i t' (tasks m)) m)
         ∨ m' = conclude env (set_tasks (mset i t' (tasks m)) m)
           ∧ r = Ok (default t' (mget i (tasks m')))).
Proof.
  intros H. unfold patch in H. exec_in H; [by left; injection H as <- <-; eauto|].
  destruct (mget i (tasks m)) as [t|] eqn:Et; exec_in H; try (by left; injection H as <- <-; eauto).
  destruct (patch_task env (tasks m) i p t) as [t' r'] eqn:Ep. apply patch_task_run in Ep.
  right. exists t, t'. split_and!; try done; destruct r' as [[]|e]; injection H as <- <-; eauto.
Qed.

(** ** Steps of a manager *)

(** The id [create] generates is new and short; the key of a child row is not one of a
    native row. *)
Definition fresh_id (i : jsstr) (ts : taskmap) : Prop := mget i ts = None ∧ zlen i <= 160.

Definition no_clash (runs : list AiraChildRun) (ts : taskmap) : Prop :=
  Forall (λ run, ∀ t, mget (id (new_child_row runs run)) ts = Some t → is_child t = true) runs.

Inductive step (m : Manager) : Manager → Prop :=
| step_activate env o : step m (activate env o m)
| step_create env fresh raw src deps nt m' r :
    fresh_id fresh (tasks m) → create env fresh raw src deps nt m = (m', r) → step m m'
| step_patch env i p m' r : patch env i p m = (m', r) → step m m'
| step_complete env i m' r : complete env i m = (m', r) → step m m'
| step_remove env i m' r : remove env i m = (m', r) → step m m'
| step_clear env m' r : clear env m = (m', r) → step m m'
| step_status env : step m (status_op env m).1
| step_hint : step m (consumeRecoveryHint m).1
| step_subscribe l : step m (subscribe l m)
| step_unsubscribe l : step m (unsubscribe l m)
| step_dispose env : step m (dispose env m)
| step_sync env runs :
    subscribed m = true → no_clash runs (tasks m) → step m (syncChildRows env runs m).

Inductive reachable : Manager → Prop :=
| reach_new env store : reachable (newManager env store)
| reach_step m m' : reachable m → step m m' → reachable m'.

(** *** The invariant *)

Lemma transition_live s s' : s' ∈ AIRA_TASK_TRANSITIONS s → s' ≠ failed ∧ s' ≠ pending ∧ s' ≠ blocked ∧ is_settled s = false.
Proof. destruct s; cbn; rewrite ?elem_of_cons, ?elem_of_nil; intuition (by subst). Qed.

Lemma patched_row_ok ts i p t t' b k :
  patched ts i p t t' b → is_child t = false → row_ok (k, t) → row_ok (k, t').
Proof.
  intros [He Hs _] Hc (Hk & _ & _ & Hn). cbn [fst snd] in *. specialize (Hn Hc).
  assert (native_ok t') as Hn'.
  { destruct Hn as [Hid Ht Hnote Hd Hst Hch], He as [Eid _ Er Ero Edt Ek _ _ Et En Ed].
    cbn in *. constructor.
    - by rewrite Eid.
    - destruct Et as [->|(raw & Hr & ->)]; [done|by apply boundTitle_ok].
    - destruct En as [->|[->|[n ->]]]; [done|done|apply boundNote_ok].
    - destruct Ed as [->|(ds & -> & _)]; [done|apply (normalizeDependencies_ok (Some ds))].
    - destruct Hs as [->|Hs]; [done|by apply transition_live in Hs as [Hs _]].
    - rewrite Er, Ero, Edt, Ek. done. }
  split; [cbn; rewrite Hk; symmetry; apply (ed_id _ _ _ _ He)|].
  split; [apply Hn'|]. split; [apply Hn'|done].
Qed.

Lemma patched_native ts i p t t' b : patched ts i p t t' b → is_child t' = is_child t.
Proof. intros [He _ _]. unfold is_child. f_equal. pose proof (ed_source _ _ _ _ He) as Hs. cbn in Hs. by rewrite Hs. Qed.

Lemma map_ok_patched ts i p t t' b :
  mget i ts = Some t → is_child t = false → patched ts i p t t' b → map_ok ts → map_ok (mset i t' ts).
Proof.
  intros Hi Hc Hp [Hk Hr Hn]. constructor; [by apply NoDup_mset| |].
  - apply Forall_mset; [done|]. eapply patched_row_ok; [done..|]. eapply Forall_forall; [exact Hr|]. by apply mget_elem.
  - etrans; [apply native_rows_mset|done]. right. rewrite Hi. split; [done|]. by intros ? [= <-].
Qed.

Lemma create_map_ok m fresh task raw deps nt :
  map_ok (tasks m) → zlen fresh <= 160 → zlen (tasks m) < AIRA_TASK_MAX_ROWS →
  id task = fresh → title task = boundTitle (trim raw) → trim raw ≠ [] → status task = pending →
  dependsOn task = normalizeDependencies deps → note task = boundNote <$> truthy_str nt →
  childRunId task = None ∧ childRole task = None ∧ detail task = None ∧ failureKind task = None →
  map_ok (mset fresh task (tasks m)).
Proof.
  intros [Hk Hr Hn] Hf Hlen Hid Ht Hraw Hst Hd Hnote Hch.
  pose proof (boundTitle_ok raw Hraw) as Hbt. pose proof (normalizeDependencies_ok deps) as Hnd.
  constructor; [by apply NoDup_mset| |].
  - apply Forall_mset; [done|]. split; [done|]. cbn [fst snd]. rewrite Ht, Hd. split; [apply Hbt|]. split; [apply Hnd|].
    intros _. constructor; rewrite ?Hid, ?Ht, ?Hd, ?Hst, ?Hnote; try done.
    destruct (truthy_str nt); cbn; [apply boundNote_ok|done].
  - pose proof (zlen_mset_le fresh task (tasks m)). pose proof (native_rows_le (mset fresh task (tasks m))). lia.
Qed.

Lemma wf_live m : map_ok (tasks m) → disposed m = false → wf m.
Proof. intros Hm Hd. constructor; [done|congruence]. Qed.

Lemma wf_map_only m m' : wf m → map_ok (tasks m') → (tasks m = [] → tasks m' = []) →
  subscribed m' = subscribed m → disposed m' = disposed m → wf m'.
Proof.
  intros [Hm Hd] Hm' Ht Hs Hdi. constructor; [done|]. rewrite Hdi, Hs. intros Hd'.
  destruct (Hd Hd') as (? & ?). auto.
Qed.

Lemma patch_wf env i p m m' r : patch env i p m = (m', r) → wf m → wf m'.
Proof.
  intros H Hwf.
  apply patch_run in H as [(e & _ & ->)|(t & t' & Hi & Hd & Hc & _ & Hp & Hout)]; [done|].
  pose proof (map_ok_patched _ _ _ _ _ _ Hi Hc Hp (wf_map _ Hwf)) as Hm.
  destruct Hout as [(e & _ & ->)|[-> _]]; apply wf_live; try done. by apply refresh_map_ok.
Qed.

Lemma complete_run env i m m' r :
  complete env i m = (m', r) →
  (m' = m ∧ ∃ e, r = Err e)
  ∨ ∃ m1, (m1 = m ∨ ∃ r1, patch env i (status_patch active) m = (m1, r1))
      ∧ (m' = m1 ∨ patch env i (status_patch completed) m1 = (m', r)).
Proof.
  intros H. unfold complete in H. rewrite stres_bind_eq in H. cbn [get] in H.
  destruct (mget i (tasks m)) as [t|]; [|injection H as <- <-; left; eauto].
  right. rewrite stres_bind_eq in H. case_bool_decide.
  - rewrite stres_bind_eq in H. destruct (patch env i (status_patch active) m) as [m1 [a|e]] eqn:E.
    + exists m1. split; [eauto|]. right. exact H.
    + injection H as <- <-. exists m1. eauto.
  - exists m. split; [by left|]. right. exact H.
Qed.

(** *** Recovery *)

Lemma normalizePersistedTask_ok v p :
  normalizePersistedTask v = Some p →
  native_ok (recovered_task p) ∧ is_child (recovered_task p) = false ∧ p_status p ≠ blocked.
Proof.
  unfold normalizePersistedTask. intros H.
  destruct v as [| | | | |props]; try discriminate.
  destruct (prop "id" props) as [[| | |i| |]|]; try discriminate.
  destruct (prop "title" props) as [[| | |t| |]|]; try discriminate.
  destruct (persisted_status (prop "status" props)) as [s|] eqn:Es; [|discriminate].
  destruct (persisted_source (prop "source" props)) as [src|] eqn:Esrc; [|discriminate].
  destruct (prop "dependsOn" props) as [[| | | |deps|]|]; try discriminate.
  destruct (prop "createdAt" props) as [[| |c| | |]|]; try discriminate.
  cbv zeta in H. destruct (bool_decide (bound_text AIRA_TASK_MAX_TITLE_CHARS (trim t) = [])) eqn:Et;
    [discriminate|injection H as <-]. bool_prop.
  assert (s ≠ failed ∧ s ≠ blocked) as [Hs1 Hs2].
  { unfold persisted_status in Es. repeat case_match; simplify_eq; done. }
  assert (src ≠ child) as Hsrc.
  { unfold persisted_source in Esrc. repeat case_match; simplify_eq; done. }
  split_and!; [|by apply bool_decide_eq_false|done].
  constructor; cbn [recovered_task id title note dependsOn status childRunId childRole detail failureKind
    p_id p_title p_status p_dependsOn p_note].
  - rewrite zlen_slice0 by done. lia.
  - split; [done|]. split; [by apply bound_text_le|]. apply trim_bound_text; [done|apply trim_idem].
  - destruct (prop "note" props) as [[| | |n| |]|]; try done. case_bool_decide; [done|].
    apply (boundNote_ok n).
  - apply deps_shape, Forall_forall. by intros d [Hd _]%list_elem_of_filter.
  - by case_bool_decide.
  - done.
Qed.

Lemma load_ok st st' l :
  load st = (st', Some l) →
  zlen l <= AIRA_TASK_MAX_ROWS
  ∧ Forall (λ p, native_ok (recovered_task p) ∧ is_child (recovered_task p) = false) l.
Proof.
  unfold load. intros H.
  destruct (_ || _); [discriminate|]. destruct (ts_file st) as [|e|v]; try discriminate.
  set (props := match v with JObj props => props | _ => [] end) in H.
  assert (∃ ts, l = omap normalizePersistedTask (take (Z.to_nat AIRA_TASK_MAX_ROWS) ts)) as [ts ->].
  { destruct v; try discriminate; destruct (prop "tasks" props) as [[]|]; try discriminate;
      destruct (_ && _); try discriminate; injection H as <- <-; eauto. }
  split.
  - assert (∀ l : list json, zlen (omap normalizePersistedTask l) <= zlen l) as Hle.
    { unfold omap. induction l as [|x l IH]; [done|]. simpl.
      destruct (normalizePersistedTask x); rewrite ?zlen_cons; lia. }
    etrans; [apply Hle|]. rewrite zlen_take. unfold AIRA_TASK_MAX_ROWS. lia.
  - apply Forall_forall. intros p Hp. apply list_elem_of_omap in Hp as (v' & _ & Hv').
    by apply normalizePersistedTask_ok in Hv' as (? & ? & _).
Qed.

(** The constructor's loop over the recovered rows. *)
Definition add_rows (rows : list AiraTask) (ts : taskmap) : taskmap :=
  foldl (λ m t, if mhas (id t) m then m else mset (id t) t m) ts rows.

Lemma add_rows_ok rows ts :
  Forall (λ t, native_ok t ∧ is_child t = false) rows →
  NoDup ts.*1 → Forall row_ok ts →
  NoDup (add_rows rows ts).*1 ∧ Forall row_ok (add_rows rows ts) ∧ zlen (add_rows rows ts) <= zlen ts + zlen rows.
Proof.
  revert ts. induction rows as [|t rows IH]; intros ts Hrows Hk Hr; unfold add_rows in *; cbn [foldl]; [split_and!; [done|done|rewrite zlen_nil; lia]|].
  apply Forall_cons in Hrows as [[Hn Hc] Hrows]. rewrite zlen_cons.
  destruct (mhas (id t) ts); [destruct (IH ts) as (? & ? & ?); auto; split_and!; auto; lia|].
  destruct (IH (mset (id t) t ts)) as (? & ? & ?); [done|by apply NoDup_mset| |].
  - apply Forall_mset; [done|]. split_and!; [done|apply Hn|apply Hn|done].
  - split_and!; auto. pose proof (zlen_mset_le (id t) t ts). lia.
Qed.

Lemma recover_ok o st st' rows n :
  recover o st = (st', Some (rows, n)) →
  zlen rows <= AIRA_TASK_MAX_ROWS ∧ Forall (λ t, native_ok t ∧ is_child t = false) rows.
Proof.
  unfold recover. destruct (load st) as [st1 [l|]] eqn:El; [|discriminate].
  apply load_ok in El as [Hlen Hall]. intros [= _ <- _]. split.
  - unfold zlen. rewrite length_fmap. exact Hlen.
  - by apply Forall_fmap.
Qed.

Lemma newManager_wf env store : wf (newManager env store).
Proof.
  unfold newManager. destruct store as [st|]; [|by apply wf_live; [repeat constructor|]].
  destruct (recover (io env) st) as [st' r] eqn:Er. cbv zeta. apply wf_live; [|done]. cbn [tasks].
  apply refresh_map_ok. destruct r as [[rows n]|]; [|by repeat constructor].
  apply recover_ok in Er as [Hlen Hall].
  destruct (add_rows_ok rows []) as (Hk & Hr & Hz); [done|constructor|constructor|].
  constructor; [done|done|]. pose proof (native_rows_le (add_rows rows [])) as Hle.
  rewrite zlen_nil in Hz. unfold add_rows in *. lia.
Qed.

(** *** Every step keeps the invariant *)

Lemma remove_run env i m m' r :
  remove env i m = (m', r) →
  (∃ e, r = Err e ∧ m' = m)
  ∨ ∃ t, mget i (tasks m) = Some t ∧ is_child t = false
      ∧ m' = conclude env (set_tasks (mdelete i (tasks m)) m) ∧ r = Ok ().
Proof.
  intros H. unfold remove in H. exec_in H.
  destruct (mget i (tasks m)) as [t|]; exec_in H; injection H as <- <-; eauto 7.
Qed.

Lemma clear_run env m m' r :
  clear env m = (m', r) →
  (∃ e, r = Err e ∧ m' = m)
  ∨ disposed m = false
    ∧ m' = conclude env (set_tasks (filter (λ kt, is_child kt.2 = true) (tasks m)) m) ∧ r = Ok ().
Proof. intros H. unfold clear in H. exec_in H; injection H as <- <-; eauto. Qed.

Lemma step_wf m m' : wf m → step m m' → wf m'.
Proof.
  intros Hwf Hs. pose proof (wf_map _ Hwf) as Hm. destruct Hs.
  - unfold activate. destruct (disposed m) eqn:Hd; [done|]. by apply wf_live.
  - apply create_run in H0 as [(e & _ & ->)|(task & _ & Hlen & Ht & -> & Hd & ? & ? & ? & ? & ? & _ & ? & _ & Hch)]; [done|].
    apply wf_live; [|done]. cbn [publish persist set_tasks tasks set_snapshot set_persistence].
    rewrite Ht. eapply map_ok_sublist; [apply evict_sublist|]. apply refresh_map_ok.
    eapply create_map_ok; try done. apply H.
  - by eapply patch_wf.
  - apply complete_run in H as [[-> _]|(m1 & [->|[r1 H1]] & [->|H2])]; eauto using patch_wf.
  - apply remove_run in H as [(e & _ & ->)|(t & Ht & _ & -> & _)]; [done|].
    destruct (disposed m) eqn:Hd; [by rewrite (proj1 (wf_disposed _ Hwf Hd)) in Ht|].
    apply wf_live; [|done]. apply refresh_map_ok. eapply map_ok_sublist; [apply mdelete_sublist|done].
  - apply clear_run in H as [(e & _ & ->)|(Hd & -> & _)]; [done|].
    apply wf_live; [|done]. apply refresh_map_ok. eapply map_ok_sublist; [apply sublist_filter|done].
  - by destruct Hwf; constructor.
  - unfold consumeRecoveryHint. destruct (recoveryHintPending m); [|done]. by destruct Hwf; constructor.
  - by destruct Hwf; constructor.
  - by destruct Hwf; constructor.
  - unfold dispose. destruct (disposed m) eqn:Hd; [done|]. constructor; [by repeat constructor|done].
  - destruct (disposed m) eqn:Hd; [by rewrite (proj2 (wf_disposed _ Hwf Hd)) in H|].
    apply wf_live; [|done]. eapply map_ok_sublist; [apply evict_sublist|]. apply refresh_map_ok, sync_loop_ok.
    eapply map_ok_sublist; [apply sublist_filter|done].
Qed.

(** Only [subscribe], its undoing and [dispose] touch the listeners. *)
Lemma patch_listeners env i p m m' r : patch env i p m = (m', r) → listeners m' = listeners m ∧ disposed m' = disposed m.
Proof. intros [(e & _ & ->)|(t & t' & _ & _ & _ & _ & _ & [(e & _ & ->)|[-> _]])]%patch_run; done. Qed.
Lemma step_listeners m m' : step m m' →
  (∃ l, m' = subscribe l m) ∨ (∃ l, m' = unsubscribe l m) ∨ (∃ env, m' = dispose env m) ∨ (listeners m' = listeners m ∧ disposed m' = disposed m).
Proof.
  intros Hs. destruct Hs; try (by left; eexists); try (by right; left; eexists); try (by right; right; left; eexists); do 3 right.
  - unfold activate. destruct (disposed m) eqn:Hd; done.
  - apply create_run in H0 as [(e & _ & ->)|(task & _ & _ & _ & -> & _)]; done.
  - by eapply patch_listeners.
  - apply complete_run in H as [[-> _]|(m1 & [->|[r1 H1]] & [->|H2])]; [done|done|by eapply patch_listeners|by eapply patch_listeners|].
    apply patch_listeners in H1 as [E1 E2], H2 as [E3 E4]. split; congruence.
  - apply remove_run in H as [(e & _ & ->)|(t & _ & _ & -> & _)]; done.
  - apply clear_run in H as [(e & _ & ->)|(_ & -> & _)]; done.
  - done.
  - unfold consumeRecoveryHint. by destruct (recoveryHintPending m).
  - done.
Qed.

Lemma reachable_wf m : reachable m → wf m.
Proof. induction 1; [apply newManager_wf|by eapply step_wf]. Qed.

(** ** How rows evolve *)

(** Lifecycle phases: waiting, running, over. *)
Definition phase_of (s : AiraTaskStatus) : Z :=
  match s with pending | blocked => 0 | active => 1 | completed | cancelled | failed => 2 end.

(** A native row stays native, moves forward only, and is final once it is settled. *)
Definition evolve (t t' : AiraTask) : Prop :=
  is_child t' = false
  ∧ (status t' = status t ∨ phase_of (status t) < phase_of (status t') ∨ phase_of (status t') = 0 ∧ phase_of (status t) = 0)
  ∧ (is_settled (status t) = true → t' = t).

Lemma evolve_refl t : is_child t = false → evolve t t.
Proof. by repeat split; auto. Qed.

Lemma evolve_trans t1 t2 t3 : evolve t1 t2 → evolve t2 t3 → evolve t1 t3.
Proof.
  intros (H1 & H2 & H3) (G1 & G2 & G3). split; [done|]. split.
  - destruct H2 as [H2|[H2|H2]], G2 as [G2|[G2|G2]]; rewrite ?G2, ?H2 in *; auto; lia.
  - intros Hs. specialize (H3 Hs). subst. by apply G3.
Qed.

Lemma set_status_same t : set_status (status t) t = t.
Proof. by destruct t. Qed.

Lemma refresh_evolve ts t : is_child t = false → evolve t (refresh_task ts t).
Proof.
  intros Hc. destruct (refresh_task_shape ts t) as (s & -> & [->|(_ & [[Ht ->]|[Ht ->]])]).
  - rewrite set_status_same. by apply evolve_refl.
  - split; [done|]. cbn. rewrite Ht. split; [by right; right|done].
  - split; [done|]. cbn. rewrite Ht. split; [by right; right|done].
Qed.

Lemma patched_evolve ts i p t t' b :
  patched ts i p t t' b → is_child t = false → is_settled (status t) = false → evolve t t'.
Proof.
  intros Hp Hc Hs. split; [by rewrite (patched_native _ _ _ _ _ _ Hp)|]. split; [|congruence].
  destruct (pa_status _ _ _ _ _ _ Hp) as [->|Ht]; [by left|right; left].
  by destruct (status t), (status t'); cbn in *; rewrite ?elem_of_cons, ?elem_of_nil in Ht; try lia;
    intuition discriminate.
Qed.

Lemma mget_sublist {V} (ts1 ts2 : list (jsstr * V)) k v :
  ts1 `sublist_of` ts2 → NoDup ts2.*1 → mget k ts1 = Some v → mget k ts2 = Some v.
Proof. intros Hs Hk H%mget_elem. apply elem_mget; [done|]. by eapply elem_of_sublist. Qed.

Lemma mget_refresh ts k : NoDup ts.*1 → mget k (refreshDerivedStates ts) = refresh_task ts <$> mget k ts.
Proof. intros Hk. rewrite refresh_eq by done. unfold refresh_all. apply mget_mmap. Qed.

Lemma refresh_keys ts : NoDup ts.*1 → (refreshDerivedStates ts).*1 = ts.*1.
Proof. intros Hk. rewrite refresh_eq by done. apply mmap_keys. Qed.

Lemma refresh_child ts t : is_child t = true → refresh_task ts t = t.
Proof. unfold refresh_task. by intros ->. Qed.

(** What [patch] makes of every row. *)
Lemma patch_rows env i p m m' r k t :
  wf m → patch env i p m = (m', r) → mget k (tasks m) = Some t →
  ∃ t', mget k (tasks m') = Some t' ∧ (is_child t = true → t' = t) ∧ (is_child t = false → evolve t t').
Proof.
  intros Hwf H Hk.
  apply patch_run in H as [(e & _ & ->)|(t0 & t1 & Hi & Hd & Hc & Hs & Hp & Hout)];
    [exists t; eauto using evolve_refl|].
  assert (∃ t', mget k (mset i t1 (tasks m)) = Some t' ∧ (is_child t = true → t' = t) ∧ (is_child t = false → evolve t t'))
    as (t' & Ht' & Hch & Hev).
  { rewrite mget_mset. case_decide; [subst|by exists t; eauto using evolve_refl].
    assert (t0 = t) as -> by congruence. exists t1. split; [done|]. split; [congruence|].
    intros _. by eapply patched_evolve. }
  destruct Hout as [(e & _ & ->)|[-> _]]; [by exists t'|].
  rewrite conclude_tasks, mget_refresh by (apply NoDup_mset, wf_map, Hwf). cbn [tasks set_tasks].
  rewrite Ht'. exists (refresh_task (mset i t1 (tasks m)) t'). split; [done|]. split.
  - intros Hct. rewrite (Hch Hct). by apply refresh_child.
  - intros Hct. eapply evolve_trans; [by apply Hev|]. apply refresh_evolve. by apply Hev.
Qed.

Lemma complete_rows env i m m' r k t :
  wf m → complete env i m = (m', r) → mget k (tasks m) = Some t →
  ∃ t', mget k (tasks m') = Some t' ∧ (is_child t = true → t' = t) ∧ (is_child t = false → evolve t t').
Proof.
  intros Hwf H Hk. apply complete_run in H as [[-> _]|(m1 & H1 & H2)]; [exists t; eauto using evolve_refl|].
  assert (wf m1 ∧ ∃ t1, mget k (tasks m1) = Some t1 ∧ (is_child t = true → t1 = t) ∧ (is_child t = false → evolve t t1))
    as (Hwf1 & t1 & Ht1 & Hc1 & He1).
  { destruct H1 as [->|[r1 H1]]; [split; [done|]; exists t; eauto using evolve_refl|].
    split; [by eapply patch_wf|by eapply patch_rows]. }
  destruct H2 as [->|H2]; [by exists t1|].
  eapply patch_rows in H2 as (t2 & Ht2 & Hc2 & He2); [|done..]. exists t2. split; [done|]. split.
  - intros Hc. rewrite (Hc1 Hc) in *. auto.
  - intros Hc. specialize (He1 Hc). eapply evolve_trans; [done|]. apply He2, He1.
Qed.

Lemma mget_filter_some {V} (P : jsstr * V → Prop) `{∀ x, Decision (P x)} k v (ts : list (jsstr * V)) :
  NoDup ts.*1 → mget k (filter P ts) = Some v → mget k ts = Some v ∧ P (k, v).
Proof.
  intros Hk H1%mget_elem. apply list_elem_of_filter in H1 as [? ?]. split; [by apply elem_mget|done].
Qed.

Lemma mget_filter_keep {V} (P : jsstr * V → Prop) `{∀ x, Decision (P x)} k v (ts : list (jsstr * V)) :
  NoDup ts.*1 → mget k ts = Some v → P (k, v) → mget k (filter P ts) = Some v.
Proof.
  intros Hk H1%mget_elem HP. apply elem_mget; [|by apply list_elem_of_filter].
  eapply NoDup_sublist_keys; [apply sublist_filter|done].
Qed.

(** The projection of runs leaves native rows alone. *)
Lemma sync_run_native runs run ts k t :
  (∀ t, mget (id (new_child_row runs run)) ts = Some t → is_child t = true) → NoDup ts.*1 → is_child t = false →
  mget k (sync_run runs ts run) = Some t ↔ mget k ts = Some t.
Proof.
  intros Hcl Hk Hn. destruct (sync_run_cases runs ts run) as [(k1 & t1 & Hin & Hrow & ->)|[_ ->]];
    rewrite mget_mset; case_decide; try done; subst.
  - rewrite (elem_mget k1 t1 ts Hk Hin). destruct (update_child_row_fields runs run t1) as (_ & Hs & _).
    unfold is_row_of, is_child in *. bool_prop. split; intros [= Heq]; subst; congruence.
  - split; [by intros [= <-]|]. intros Ht. apply Hcl in Ht. congruence.
Qed.

Lemma sync_loop_native runs rs ts k t :
  Forall (λ run, ∀ t, mget (id (new_child_row runs run)) ts = Some t → is_child t = true) rs →
  NoDup ts.*1 → is_child t = false →
  mget k (foldl (sync_run runs) ts rs) = Some t ↔ mget k ts = Some t.
Proof.
  revert ts. induction rs as [|r rs IH]; intros ts Hcl Hk Hn; cbn [foldl]; [done|].
  apply Forall_cons in Hcl as [Hr Hrs]. rewrite IH, sync_run_native; try done.
  - eapply Forall_impl; [exact Hrs|]. cbn. intros run Hrun t' Ht'. destruct (is_child t') eqn:Ec; [done|].
    apply sync_run_native in Ht'; try done. by rewrite (Hrun _ Ht') in Ec.
  - destruct (sync_run_cases runs ts r) as [(? & ? & _ & _ & ->)|[_ ->]]; by apply NoDup_mset.
Qed.

Lemma sync_tasks env runs m :
  tasks (syncChildRows env runs m)
  = evictSettled (refreshDerivedStates
      (foldl (sync_run runs) (filter (λ kt, keep_row runs kt.2 = true) (tasks m)) runs)).
Proof. done. Qed.

(** ** The theorems *)

(** C34. Every reachable task manager is well formed: its keys are the ids of its rows
    and distinct, at most 128 rows are native, every native row has a non-empty trimmed
    title of at most 200 characters, a note of at most 300, at most 16 distinct
    non-blank dependencies and never the status [failed], and a disposed manager is
    empty and unsubscribed from the orchestration.  No listener survives [dispose]: a
    disposed manager only has those that subscribed to it afterwards. *)
Theorem task_manager_invariant m : reachable m →
  wf m ∧ ∀ m' l, step m m' → disposed m' = true → l ∈ listeners m' → disposed m = true ∧ (l ∈ listeners m ∨ m' = subscribe l m).
Proof.
  intros Hr. split; [by apply reachable_wf|]. intros m' l Hs Hd Hl. apply step_listeners in Hs as [(l' & ->)|[(l' & ->)|[(env & ->)|[El Ed]]]].
  - split; [done|]. cbn in Hl. case_bool_decide; [by left|]. apply elem_of_app in Hl as [Hl|Hl]; [by left|]. apply list_elem_of_singleton in Hl as ->. by right.
  - split; [done|]. left. cbn in Hl. by apply list_elem_of_filter in Hl as [_ ?].
  - unfold dispose in *. destruct (disposed m) eqn:E; [by auto|]. by apply elem_of_nil in Hl.
  - rewrite El in Hl. rewrite Ed in Hd. auto.
Qed.

(** The lifecycle of a native task only moves forward: whatever operation runs, a
    native row that is still listed afterwards is native, its status moved from waiting
    to running to settled or stayed in its phase, and a settled row is unchanged. *)
Theorem native_forward_only m m' k t t' :
  reachable m → step m m' → mget k (tasks m) = Some t → is_child t = false →
  mget k (tasks m') = Some t' → evolve t t'.
Proof.
  intros Hre Hs Hk Hc Hk'. pose proof (reachable_wf _ Hre) as Hwf. pose proof (mok_keys _ (wf_map _ Hwf)) as Hnd.
  assert (tasks m' = tasks m → evolve t t') as Hsame
    by (intros Heq; rewrite Heq in Hk'; assert (t = t') as <- by congruence; by apply evolve_refl).
  destruct Hs; try (by apply Hsame).
  - apply Hsame. unfold activate. by destruct (disposed m).
  - apply create_run in H0 as [(e & _ & ->)|(task & _ & _ & Ht & _)]; [by apply Hsame|].
    rewrite Ht in Hk'. eapply mget_sublist in Hk'; [|apply evict_sublist|rewrite refresh_keys; by apply NoDup_mset].
    rewrite mget_refresh, mget_mset_ne, Hk in Hk' by (try apply NoDup_mset; try done; intros ->; by rewrite (proj1 H) in Hk).
    injection Hk' as <-. by apply refresh_evolve.
  - eapply patch_rows in H as (? & ? & _ & He); [|done..]. replace t' with x by congruence. by apply He.
  - eapply complete_rows in H as (? & ? & _ & He); [|done..]. replace t' with x by congruence. by apply He.
  - apply remove_run in H as [(e & _ & ->)|(t0 & _ & _ & -> & _)]; [by apply Hsame|].
    rewrite conclude_tasks, mget_refresh in Hk' by by apply NoDup_mdelete.
    apply fmap_Some in Hk' as (t1 & Hk1 & ->). cbn [tasks set_tasks] in Hk1.
    eapply mget_sublist in Hk1; [|apply mdelete_sublist|done]. assert (t1 = t) as -> by congruence. by apply refresh_evolve.
  - apply clear_run in H as [(e & _ & ->)|(_ & -> & _)]; [by apply Hsame|].
    rewrite conclude_tasks, mget_refresh in Hk' by (eapply NoDup_sublist_keys; [apply sublist_filter|done]).
    apply fmap_Some in Hk' as (t1 & Hk1 & ->). cbn [tasks set_tasks] in Hk1.
    apply mget_filter_some in Hk1 as [Hk1 _]; [|done]. assert (t1 = t) as -> by congruence. by apply refresh_evolve.
  - apply Hsame. unfold consumeRecoveryHint. by destruct (recoveryHintPending m).
  - unfold dispose in *. destruct (disposed m); [by apply Hsame|done].
  - rewrite sync_tasks in Hk'. set (kept := filter _ (tasks m)) in Hk'.
    assert (NoDup kept.*1) as Hkept by (eapply NoDup_sublist_keys; [apply sublist_filter|done]).
    assert (NoDup (foldl (sync_run runs) kept runs).*1) as Hl
      by (apply (mok_keys _ (sync_loop_ok runs runs kept (map_ok_sublist _ _ (sublist_filter _ _) (wf_map _ Hwf))))).
    eapply mget_sublist in Hk'; [|apply evict_sublist|by rewrite refresh_keys].
    rewrite mget_refresh in Hk' by done. apply fmap_Some in Hk' as (t1 & Hk1 & ->).
    assert (mget k (foldl (sync_run runs) kept runs) = Some t) as Hkt.
    { apply sync_loop_native; [|done|done|].
      - eapply Forall_impl; [exact H0|]. cbn. intros run Hrun x Hx. apply mget_filter_some in Hx as [Hx _]; auto.
      - apply mget_filter_keep; [done|done|]. cbn. unfold keep_row. by rewrite Hc. }
    assert (t1 = t) as -> by congruence. by apply refresh_evolve.
Qed.

(** The task surface cannot touch a row projected from an orchestration run:
    [create], [patch], [complete], [remove] and [clear] leave every child row as it is,
    whatever they answer, and [patch] and [remove] on it are refused without any effect. *)
Theorem child_rows_untouched m k t :
  reachable m → mget k (tasks m) = Some t → is_child t = true →
  (∀ env fresh raw src deps nt, fresh_id fresh (tasks m) →
     mget k (tasks (create env fresh raw src deps nt m).1) = Some t)
  ∧ (∀ env i p, mget k (tasks (patch env i p m).1) = Some t)
  ∧ (∀ env i, mget k (tasks (complete env i m).1) = Some t)
  ∧ (∀ env i, mget k (tasks (remove env i m).1) = Some t)
  ∧ (∀ env, mget k (tasks (clear env m).1) = Some t)
  ∧ (∀ env p, patch env k p m = (m, (patch env k p m).2) ∧ ∃ e, (patch env k p m).2 = Err e)
  ∧ (∀ env, remove env k m = (m, (remove env k m).2) ∧ ∃ e, (remove env k m).2 = Err e).
Proof.
  intros Hre Hk Hc. pose proof (reachable_wf _ Hre) as Hwf. pose proof (mok_keys _ (wf_map _ Hwf)) as Hnd.
  split_and!.
  - intros env fresh raw src deps nt [Hf _]. destruct (create _ _ _ _ _ _ m) as [m' r] eqn:H.
    apply create_run in H as [(e & _ & ->)|(task & _ & Hlen & Ht & _)]; [done|]. cbn [fst]. rewrite Ht.
    assert (zlen (refreshDerivedStates (mset fresh task (tasks m))) <= AIRA_TASK_MAX_ROWS) as Hz.
    { rewrite refresh_eq by by apply NoDup_mset. unfold refresh_all, mmap, zlen. rewrite length_fmap.
      pose proof (zlen_mset_le fresh task (tasks m)) as Hz. unfold zlen in *. lia. }
    unfold evictSettled. rewrite (proj2 (Z.leb_le _ _) Hz).
    rewrite mget_refresh, mget_mset_ne, Hk by (try apply NoDup_mset; try done; intros ->; by rewrite Hf in Hk).
    cbn. by rewrite refresh_child.
  - intros env i p. destruct (patch env i p m) as [m' r] eqn:H.
    eapply patch_rows in H as (t' & Ht' & Hch & _); [|done..]. cbn. by rewrite Ht', (Hch Hc).
  - intros env i. destruct (complete env i m) as [m' r] eqn:H.
    eapply complete_rows in H as (t' & Ht' & Hch & _); [|done..]. cbn. by rewrite Ht', (Hch Hc).
  - intros env i. destruct (remove env i m) as [m' r] eqn:H.
    apply remove_run in H as [(e & _ & ->)|(t0 & Hi & Hn & -> & _)]; [done|]. cbn [fst].
    rewrite conclude_tasks, mget_refresh by by apply NoDup_mdelete. cbn [tasks set_tasks].
    rewrite mget_mdelete_ne, Hk by (intros ->; congruence). cbn. by rewrite refresh_child.
  - intros env. destruct (clear env m) as [m' r] eqn:H.
    apply clear_run in H as [(e & _ & ->)|(_ & -> & _)]; [done|]. cbn [fst].
    rewrite conclude_tasks, mget_refresh by (eapply NoDup_sublist_keys; [apply sublist_filter|done]).
    cbn [tasks set_tasks]. erewrite mget_filter_keep by done. cbn. by rewrite refresh_child.
  - intros env p. destruct (patch env k p m) as [m' r] eqn:H. cbn.
    apply patch_run in H as [(e & -> & ->)|(t0 & _ & Hi & _ & Hn & _)]; [eauto|congruence].
  - intros env. destruct (remove env k m) as [m' r] eqn:H. cbn.
    apply remove_run in H as [(e & -> & ->)|(t0 & Hi & Hn & _)]; [eauto|congruence].
Qed.

(** *** The derived [blocked] state *)

Lemma is_unfinished_mset ts k t d :
  is_unfinished (mset k t ts) d = (if decide (d = k) then negb (is_settled (status t)) else is_unfinished ts d).
Proof. unfold is_unfinished. rewrite mget_mset. by case_decide. Qed.

Lemma hasUnfinished_false ts t :
  hasUnfinishedDependencies ts t = false ↔ ∀ d, d ∈ dependsOn t → is_unfinished ts d = false.
Proof.
  unfold hasUnfinishedDependencies, unfinishedDependencies. rewrite Z.ltb_ge. split.
  - intros Hl d Hd. assert (filter (λ d, is_unfinished ts d = true) (dependsOn t) = []) as Hn.
    { apply zlen_0. pose proof (zlen_nonneg (filter (λ d, is_unfinished ts d = true) (dependsOn t))). lia. }
    apply not_true_iff_false. intros Hu. eapply (not_elem_of_nil d). rewrite <- Hn. by apply list_elem_of_filter.
  - intros Hd. destruct (filter (λ d, is_unfinished ts d = true) (dependsOn t)) as [|d l] eqn:E; [done|].
    assert (d ∈ filter (λ d, is_unfinished ts d = true) (dependsOn t)) as [Hu Hin]%list_elem_of_filter
      by (rewrite E; by left). by rewrite Hd in Hu.
Qed.

(** Deleting a settled row keeps the derived states right. *)
Lemma derived_mdelete ts k t :
  NoDup ts.*1 → mget k ts = Some t → is_settled (status t) = true → derived_ok ts → derived_ok (mdelete k ts).
Proof.
  intros Hnd Hk Hs Hd. apply Forall_forall. intros [k' t'] Hin Hc.
  unfold derived_ok in Hd. rewrite Forall_forall in Hd. specialize (Hd _ (elem_mdelete _ _ _ Hin) Hc).
  assert (hasUnfinishedDependencies (mdelete k ts) t' = hasUnfinishedDependencies ts t') as Heq.
  { unfold hasUnfinishedDependencies. erewrite unfinished_ext; [done|]. intros d. unfold is_unfinished.
    destruct (decide (d = k)) as [->|Hne]; [|by rewrite mget_mdelete_ne].
    by rewrite mget_mdelete_eq, Hk, Hs. }
  cbn [snd] in *. by rewrite Heq.
Qed.

Lemma evict_loop_derived l ts :
  NoDup ts.*1 → (∀ t, t ∈ l → is_settled (status t) = true) → (∀ k t, mget k ts = Some t → id t = k) →
  (∀ t, t ∈ l → ∀ t', mget (id t) ts = Some t' → t' = t) →
  derived_ok ts → derived_ok (evict_loop l ts).
Proof.
  revert ts. induction l as [|t l IH]; intros ts Hnd Hl Hid Hin Hd; cbn [evict_loop]; [done|].
  case_match; [done|]. apply IH.
  - by apply NoDup_mdelete.
  - intros t' Ht'. apply Hl. by right.
  - intros k t' Ht'. apply Hid. eapply mget_sublist; [apply mdelete_sublist|done..].
  - intros t' Ht' t2 Ht2. apply (Hin t'); [by right|]. eapply mget_sublist; [apply mdelete_sublist|done..].
  - destruct (mget (id t) ts) as [t'|] eqn:Ht'.
    + assert (t' = t) as -> by (apply (Hin t); [by left|done]). eapply derived_mdelete; [done..| |done]. apply Hl. by left.
    + by rewrite mdelete_absent.
Qed.

Lemma map_ok_id ts k t : map_ok ts → mget k ts = Some t → id t = k.
Proof. intros [_ Hr _] H%mget_elem. eapply Forall_forall in Hr; [|done]. by destruct Hr. Qed.

Lemma elem_values (ts : taskmap) (t : AiraTask) : t ∈ ts.*2 → ∃ k, (k, t) ∈ ts.
Proof. intros ([k t'] & -> & Hin)%list_elem_of_fmap. by exists k. Qed.

Lemma evict_derived ts : map_ok ts → derived_ok ts → derived_ok (evictSettled ts).
Proof.
  intros Hm Hd. pose proof (mok_keys _ Hm) as Hnd. unfold evictSettled. case_match; [done|]. apply evict_loop_derived.
  - done.
  - intros t Ht. apply elem_sort_by, list_elem_of_filter in Ht as [Ht _]. exact Ht.
  - intros k t. by apply map_ok_id.
  - intros t Ht t' Ht'. apply elem_sort_by, list_elem_of_filter in Ht as [_ Ht]. apply elem_values in Ht as [k Hk].
    apply elem_mget in Hk; [|done]. pose proof (map_ok_id _ _ _ Hm Hk) as Hid. rewrite Hid in Ht'. congruence.
  - done.
Qed.

Lemma patch_derived env i p m m' t : wf m → patch env i p m = (m', Ok t) → derived_ok (tasks m').
Proof.
  intros Hwf [(e & ? & _)|(t0 & t1 & _ & _ & _ & _ & _ & [(e & ? & _)|[-> _]])]%patch_run; try done.
  apply refresh_derived, NoDup_mset, wf_map, Hwf.
Qed.

Lemma complete_ok_patch env i m m' t :
  complete env i m = (m', Ok t) →
  ∃ m1, (m1 = m ∨ ∃ r1, patch env i (status_patch active) m = (m1, r1))
    ∧ patch env i (status_patch completed) m1 = (m', Ok t).
Proof.
  intros H. unfold complete in H. rewrite stres_bind_eq in H. cbn [get] in H.
  destruct (mget i (tasks m)) as [t0|]; [|discriminate]. rewrite stres_bind_eq in H. case_bool_decide.
  - rewrite stres_bind_eq in H. destruct (patch env i (status_patch active) m) as [m1 [a|e]] eqn:E; [|discriminate].
    exists m1. eauto.
  - exists m. split; [by left|]. exact H.
Qed.

(** [blocked] is derived: when an operation of a reachable manager succeeds, and
    after every projection of runs, a native row is [blocked] only if one of its
    dependencies is listed and unsettled, and [pending] only if none is. *)
Theorem blocked_is_derived m :
  reachable m →
  (∀ env fresh raw src deps nt m' t, fresh_id fresh (tasks m) →
     create env fresh raw src deps nt m = (m', Ok t) → derived_ok (tasks m'))
  ∧ (∀ env i p m' t, patch env i p m = (m', Ok t) → derived_ok (tasks m'))
  ∧ (∀ env i m' t, complete env i m = (m', Ok t) → derived_ok (tasks m'))
  ∧ (∀ env i m', remove env i m = (m', Ok ()) → derived_ok (tasks m'))
  ∧ (∀ env m', clear env m = (m', Ok ()) → derived_ok (tasks m'))
  ∧ (∀ env runs, derived_ok (tasks (syncChildRows env runs m)))
  ∧ (∀ env store, derived_ok (tasks (newManager env store))).
Proof.
  intros Hre. pose proof (reachable_wf _ Hre) as Hwf. pose proof (wf_map _ Hwf) as Hm.
  pose proof (mok_keys _ Hm) as Hnd. split_and!.
  - intros env fresh raw src deps nt m' t Hf H.
    apply create_run in H as [(e & ? & _)|(task & _ & Hlen & -> & _ & ? & ? & ? & ? & ? & ? & _ & ? & _ & Hch)]; [done|].
    apply evict_derived; [|by apply refresh_derived, NoDup_mset].
    apply refresh_map_ok. eapply create_map_ok; try done. apply Hf.
  - intros. by eapply patch_derived.
  - intros env i m' t (m1 & H1 & H2)%complete_ok_patch. eapply patch_derived; [|done].
    destruct H1 as [->|[r1 H1]]; [done|by eapply patch_wf].
  - intros env i m' [(e & ? & _)|(t & _ & _ & -> & _)]%remove_run; [done|].
    by apply refresh_derived, NoDup_mdelete.
  - intros env m' [(e & ? & _)|(_ & -> & _)]%clear_run; [done|].
    apply refresh_derived. eapply NoDup_sublist_keys; [apply sublist_filter|done].
  - intros env runs. rewrite sync_tasks.
    assert (map_ok (foldl (sync_run runs) (filter (λ kt, keep_row runs kt.2 = true) (tasks m)) runs)) as Hs.
    { apply sync_loop_ok. by eapply map_ok_sublist; [apply sublist_filter|]. }
    apply evict_derived; [by apply refresh_map_ok|]. by apply refresh_derived, Hs.
  - intros env store. unfold newManager. destruct store as [st|]; [|by constructor].
    destruct (recover (io env) st) as [st' r] eqn:Er. cbn [tasks]. apply refresh_derived.
    destruct r as [[rows n]|]; [|constructor]. apply recover_ok in Er as [_ Hall].
    by destruct (add_rows_ok rows []) as (Hk & _); [done|constructor|constructor|].
Qed.

(** A successful [patch] to [active] or [completed] leaves the row in exactly that
    status, and every dependency it lists, also one assigned by the same call, is settled
    or unknown. *)
Theorem patch_waits_for_dependencies env i p s m m' t :
  reachable m → patch env i p m = (m', Ok t) → patch_status p = Some s → s = active ∨ s = completed →
  mget i (tasks m') = Some t ∧ status t = s ∧ hasUnfinishedDependencies (tasks m') t = false.
Proof.
  intros Hre H Hs Has. pose proof (reachable_wf _ Hre) as Hwf. pose proof (mok_keys _ (wf_map _ Hwf)) as Hnd.
  apply patch_run in H as [(e & ? & _)|(t0 & t1 & Hi & _ & _ & Hset & Hp & [(e & ? & _)|[-> Hr]])]; try done.
  destruct (pa_done _ _ _ _ _ _ Hp eq_refl s Hs) as [Hst Hu]. specialize (Hu Has).
  assert (refresh_task (mset i t1 (tasks m)) t1 = t1) as Hrt.
  { destruct (refresh_task_shape (mset i t1 (tasks m)) t1) as (s' & -> & [->|(_ & [[Hs1 _]|[Hs1 _]])]);
      [apply set_status_same|destruct Has; congruence..]. }
  rewrite conclude_tasks in *. cbn [tasks set_tasks] in *. rewrite mget_refresh, mget_mset_eq in * by by apply NoDup_mset.
  cbn in Hr. rewrite Hrt in *. injection Hr as ->. split; [cbn; by rewrite Hrt|]. split; [done|].
  rewrite hasUnfinished_false in Hu |- *. intros d Hd. specialize (Hu d Hd).
  rewrite refresh_eq by by apply NoDup_mset. rewrite refresh_all_unfinished, is_unfinished_mset.
  case_decide; [subst|done]. unfold is_unfinished in Hu. rewrite Hi in Hu. by rewrite Hset in Hu.
Qed.

(** *** Eviction *)

Lemma mdelete_filter {V} k (ts : list (jsstr * V)) : NoDup ts.*1 → mdelete k ts = filter (λ kt, kt.1 ≠ k) ts.
Proof.
  induction ts as [|[k1 v] ts IH]; [done|]. rewrite fmap_cons. intros [Hk Hnd]%NoDup_cons. cbn [mdelete].
  case_decide; subst; [rewrite filter_cons_False by by cbn; intros ?|rewrite filter_cons_True by (cbn; congruence); by rewrite IH].
  symmetry. apply filter_all, Forall_forall. intros [k2 v2] Hin ?. cbn in *; subst. apply Hk.
  apply list_elem_of_fmap. by exists (k1, v2).
Qed.

(** The loop deletes a prefix of its list, no longer than needed. *)
Lemma evict_loop_spec l ts :
  NoDup ts.*1 → NoDup (id <$> l) → Forall (λ t, is_Some (mget (id t) ts)) l →
  ∃ n, (n <= length l)%nat ∧ (∀ k, mget k (evict_loop l ts) = if decide (k ∈ id <$> take n l) then None else mget k ts)
    ∧ zlen (evict_loop l ts) = zlen ts - Z.of_nat n
    ∧ (zlen (evict_loop l ts) <= AIRA_TASK_MAX_ROWS ∨ n = length l)
    ∧ (n = O ∨ AIRA_TASK_MAX_ROWS <= zlen (evict_loop l ts)).
Proof.
  revert ts. induction l as [|t l IH]; intros ts Hnd Hl Hin; cbn [evict_loop].
  { exists O. split_and!; [done| |lia|by right|by left]. intros k. by rewrite decide_False by apply not_elem_of_nil. }
  rewrite fmap_cons in Hl. apply NoDup_cons in Hl as [Hid Hl]. apply Forall_cons in Hin as [Ht Hin].
  destruct (zlen ts <=? AIRA_TASK_MAX_ROWS) eqn:E; bool_prop.
  { exists O. split_and!; [lia| |lia|by left|by left]. intros k. by rewrite decide_False by apply not_elem_of_nil. }
  destruct (IH (mdelete (id t) ts)) as (n & Hn & Hg & Hz & Hfin & Hmin); [by apply NoDup_mdelete|done| |].
  { apply Forall_forall. intros t' Ht'. rewrite mget_mdelete_ne; [by eapply Forall_forall in Hin|].
    intros Heq. apply Hid. rewrite <- Heq. by apply list_elem_of_fmap_2. }
  rewrite zlen_mdelete_present in Hz by done. exists (S n). cbn [length take].
  split_and!; [lia| |lia|destruct Hfin; [by left|right; lia]|right; destruct Hmin; [subst|]; lia].
  intros k. rewrite Hg, fmap_cons. destruct (decide (k = id t)) as [->|Hne].
  - rewrite mget_mdelete_eq by done. repeat case_decide; rewrite ?elem_of_cons in *; tauto.
  - rewrite mget_mdelete_ne by done. repeat case_decide; rewrite ?elem_of_cons in *; tauto.
Qed.

Lemma settled_ids ts :
  map_ok ts → let l := sort_by (λ a b, settled_time a <=? settled_time b)
                         (filter (λ t, is_settled (status t) = true) ts.*2) in
  NoDup (id <$> l) ∧ (∀ t, t ∈ l ↔ mget (id t) ts = Some t ∧ is_settled (status t) = true).
Proof.
  intros Hm l. pose proof (mok_keys _ Hm) as Hnd.
  assert (∀ t, t ∈ ts.*2 → mget (id t) ts = Some t) as Hval.
  { intros t [k Hk]%elem_values. apply elem_mget in Hk; [|done]. by rewrite (map_ok_id _ _ _ Hm Hk). }
  assert (id <$> ts.*2 = ts.*1) as Hids.
  { pose proof (mok_rows _ Hm) as Hr. clear -Hr. induction Hr as [|[k t] ts [Hk _] _ IH]; [done|].
    rewrite !fmap_cons, IH. cbn in *. by rewrite Hk. }
  split.
  - unfold l. rewrite sort_by_perm. eapply sublist_NoDup; [|apply fmap_sublist, sublist_filter]. by rewrite Hids.
  - intros t. unfold l. rewrite elem_sort_by, list_elem_of_filter. split.
    + intros [Hs Hin]. split; [by apply Hval|done].
    + intros [Hg Hs]. split; [done|]. apply list_elem_of_fmap. exists (id t, t). split; [done|by apply mget_elem].
Qed.

(** [evictSettled] only acts above 128 rows.  It then drops settled rows only, the
    longest settled first, and stops at exactly 128 rows unless it ran out of settled
    rows. *)
Theorem evict_oldest_settled ts :
  map_ok ts →
  let ts' := evictSettled ts in
  (zlen ts <= AIRA_TASK_MAX_ROWS → ts' = ts)
  ∧ (∀ k t, mget k ts' = Some t → mget k ts = Some t)
  ∧ (∀ k t, mget k ts = Some t → mget k ts' = None → is_settled (status t) = true
       ∧ ∀ k' t', mget k' ts' = Some t' → is_settled (status t') = true → settled_time t <= settled_time t')
  ∧ (AIRA_TASK_MAX_ROWS < zlen ts →
       zlen ts' = AIRA_TASK_MAX_ROWS
       ∨ AIRA_TASK_MAX_ROWS < zlen ts' ∧ ∀ k t, mget k ts' = Some t → is_settled (status t) = false).
Proof.
  intros Hm ts'. pose proof (mok_keys _ Hm) as Hnd.
  destruct (settled_ids ts Hm) as [Hids Hel]. unfold ts', evictSettled.
  set (l := sort_by _ _) in *. destruct (zlen ts <=? AIRA_TASK_MAX_ROWS) eqn:E; bool_prop.
  { split_and!; [done|done|congruence|lia]. }
  destruct (evict_loop_spec l ts) as (n & Hn & Hg & Hz & Hfin & Hmin); [done|done| |].
  { apply Forall_forall. intros t Ht. apply Hel in Ht as [-> _]. eauto. }
  assert (∀ k t, mget k ts = Some t → mget k (evict_loop l ts) = None → t ∈ take n l) as Hout.
  { intros k t Hk Hnone. rewrite Hg in Hnone. case_decide as Hin; [|congruence].
    apply list_elem_of_fmap in Hin as (t' & -> & Hin). pose proof (proj1 (Hel t') (elem_of_sublist _ _ _ Hin (sublist_take l n))) as [Ht' _].
    congruence. }
  split_and!; [lia| | |].
  - intros k t. rewrite Hg. by case_decide.
  - intros k t Hk Hnone. pose proof (Hout k t Hk Hnone) as Hin. split; [by apply Hel, (elem_of_sublist _ _ _ Hin (sublist_take l n))|].
    intros k' t' Hk' Hs'. rewrite Hg in Hk'. case_decide as Hno; [done|].
    assert (t' ∈ drop n l) as Hd.
    { assert (t' ∈ l) as Ht' by (apply Hel; by rewrite (map_ok_id _ _ _ Hm Hk')).
      rewrite <- (take_drop n l), elem_of_app in Ht'. destruct Ht' as [Ht'|]; [|done].
      destruct Hno. rewrite <- (map_ok_id _ _ _ Hm Hk'). by apply list_elem_of_fmap_2. }
    assert (Sorted (λ a b, (settled_time a <=? settled_time b) = true) l) as Hsort
      by (apply sort_by_sorted; intros; bool_prop; apply Z.leb_le; lia).
    apply Sorted_StronglySorted in Hsort; [|intros ???; rewrite !Z.leb_le; lia].
    rewrite <- (take_drop n l) in Hsort. apply Z.leb_le.
    exact (StronglySorted_app_1_elem_of _ _ _ _ _ Hsort Hin Hd).
  - intros _. destruct Hmin as [->|Hmin].
    + destruct Hfin; [lia|]. right. split; [lia|]. intros k t Hk. rewrite Hg in Hk. case_decide; [done|].
      apply not_true_iff_false. intros Hs. destruct l as [|]; [|done].
      eapply (not_elem_of_nil t). apply Hel. by rewrite (map_ok_id _ _ _ Hm Hk).
    + destruct Hfin as [Hle|Hall]; [left; lia|].
      destruct (decide (zlen (evict_loop l ts) = AIRA_TASK_MAX_ROWS)); [by left|right]. split; [lia|].
      intros k t Hk. rewrite Hg, Hall, take_ge in Hk by lia. case_decide as Hno; [done|].
      apply not_true_iff_false. intros Hs. apply Hno. rewrite <- (map_ok_id _ _ _ Hm Hk).
      apply list_elem_of_fmap_2, Hel. by rewrite (map_ok_id _ _ _ Hm Hk).
Qed.

(** *** The state file *)

Lemma prop_cons k k' v l : prop k ((js k', v) :: l) = if bool_decide (js k = js k') then Some v else prop k l.
Proof. unfold prop. cbn [mget]. by case_decide; case_bool_decide. Qed.

Lemma prop_nil k : prop k [] = None.
Proof. done. Qed.

(** Looks up the properties of a literal object. *)
Ltac eval_props :=
  repeat (rewrite prop_cons || rewrite prop_nil);
  repeat match goal with
  | |- context [bool_decide (js ?a = js ?b)] =>
      let v := eval vm_compute in (bool_decide (js a = js b)) in
      change (bool_decide (js a = js b)) with v; cbv iota
  end.

Lemma persisted_status_name s : s ≠ blocked → s ≠ failed → persisted_status (Some (JStr (status_name s))) = Some s.
Proof. by destruct s. Qed.

Lemma json_strings_fmap l : json_strings (JStr <$> l) = l.
Proof. unfold json_strings. induction l as [|x l IH]; [done|]. cbn. by f_equal. Qed.

(** Writing a native row and reading it back loses only what the format drops. *)
Lemma persisted_roundtrip t :
  native_ok t → is_child t = false →
  normalizePersistedTask (persisted_json (toPersistedTask t)) = Some (toPersistedTask t).
Proof.
  intros [Hid (Ht0 & Ht1 & Ht2) Hn (Hd1 & Hd2 & Hd3) Hf _] Hc.
  assert (take (Z.to_nat AIRA_TASK_MAX_DEPENDENCIES) (dependsOn t) = dependsOn t) as Htake
    by (apply take_ge; unfold zlen, AIRA_TASK_MAX_DEPENDENCIES in *; lia).
  assert (∀ so no, normalizePersistedTask (JObj ([(js "id", JStr (id t)); (js "title", JStr (title t));
      (js "status", JStr (status_name (p_status (toPersistedTask t))));
      (js "source", JStr (match source t with user => js "user" | model => js "model" | child => js "child" end));
      (js "dependsOn", JArr (JStr <$> dependsOn t))]
      ++ match no with Some n => [(js "note", JStr n)] | None => [] end
      ++ [(js "createdAt", JNum (createdAt t))]
      ++ match so with Some z => [(js "startedAt", JNum z)] | None => [] end
      ++ match completedAt t with Some z => [(js "completedAt", JNum z)] | None => [] end))
    = Some {| p_id := id t; p_title := title t; p_status := p_status (toPersistedTask t); p_source := source t;
        p_dependsOn := dependsOn t;
        p_note := match no with Some n => if bool_decide (trim n = []) then None
                     else Some (bound_text AIRA_TASK_MAX_NOTE_CHARS (trim n)) | None => None end;
        p_createdAt := createdAt t; p_startedAt := so; p_completedAt := completedAt t |}) as Hgen.
  { intros so no. unfold normalizePersistedTask. cbn [app].
    assert (persisted_status (Some (JStr (status_name (p_status (toPersistedTask t))))) = Some (p_status (toPersistedTask t)))
      as Hs by (unfold toPersistedTask; cbn [p_status]; destruct (status t); done).
    assert (persisted_source (Some (JStr (match source t with user => js "user" | model => js "model" | child => js "child" end)))
      = Some (source t)) as Hsrc by (unfold is_child in Hc; destruct (source t); done).
    destruct no, so, (completedAt t); cbn [app]; eval_props; rewrite Hs, Hsrc; cbv beta zeta;
      rewrite Ht2, bound_text_id by done; rewrite bool_decide_eq_false_2 by done; f_equal; f_equal;
      try done; try (unfold slice0; rewrite take_ge; [done|unfold zlen in Hid; lia]);
      rewrite json_strings_fmap, filter_all, dedup_id by first [done|by intros ? _ ?%not_elem_of_nil]; done. }
  unfold persisted_json. unfold toPersistedTask at 1 2 3 5 6 7 8. cbn [p_id p_title p_source p_dependsOn p_note p_createdAt p_startedAt p_completedAt].
  rewrite Htake, Hgen. f_equal. unfold toPersistedTask. rewrite Htake. f_equal.
  unfold truthy_str. destruct (note t) as [[|u n]|]; try done. destruct Hn as [Hn1 Hn2].
  rewrite Hn2, bool_decide_eq_false_2 by done. by rewrite bound_text_id.
Qed.

(** What a restart makes of a native row: interrupted and blocked rows wait again, and
    an empty note is dropped. *)
Definition restarted (t : AiraTask) : AiraTask :=
  set_note (truthy_str (note t)) (set_status (match status t with active | blocked => pending | s => s end) t).

Lemma recovered_persisted t :
  native_ok t → recovered_task (toPersistedTask t) = restarted t.
Proof.
  intros [_ _ _ (Hd & _) Hf (Hc1 & Hc2 & Hc3 & Hc4)]. unfold recovered_task, toPersistedTask, restarted, set_note, set_status.
  cbn. rewrite Hc1, Hc2, Hc3, Hc4, take_ge by (unfold zlen, AIRA_TASK_MAX_DEPENDENCIES in *; lia).
  f_equal. by destruct (status t).
Qed.

Lemma add_rows_distinct rows ts :
  NoDup (id <$> rows) → (∀ t, t ∈ rows → mget (id t) ts = None) →
  add_rows rows ts = ts ++ ((λ t, (id t, t)) <$> rows).
Proof.
  revert ts. induction rows as [|t rows IH]; intros ts Hnd Hts; unfold add_rows in *; cbn [foldl]; [by rewrite app_nil_r|].
  rewrite fmap_cons in Hnd. apply NoDup_cons in Hnd as [Hid Hnd].
  assert (mget (id t) ts = None) as Ht by (apply Hts; by left). unfold mhas at 2. rewrite Ht.
  rewrite IH; [rewrite mset_keys_absent, <- app_assoc by done; done|done|].
  intros t' Hin. rewrite mget_mset_ne; [apply Hts; by right|]. intros Heq. apply Hid. rewrite <- Heq.
  by apply list_elem_of_fmap_2.
Qed.

Lemma omap_all {A B} (f : A → option B) (g : A → B) l : Forall (λ x, f x = Some (g x)) l → omap f l = g <$> l.
Proof. induction 1 as [|x l Hx _ IH]; [done|]. cbn. rewrite Hx. by f_equal. Qed.

Lemma native_values ts : filter (λ t, is_child t = false) ts.*2 = (native_rows ts).*2.
Proof.
  induction ts as [|[k t] ts IH]; [done|]. rewrite fmap_cons. unfold native_rows in *. rewrite !filter_cons.
  cbn [snd]. case_decide; rewrite ?fmap_cons, IH; done.
Qed.

(** What [load] reads back after [save]. *)
Lemma load_save st ts :
  ts_enabled st = true → map_ok ts →
  ∃ st', load (createAiraTaskPersistence (ts_sessionId st) (js "resume") true (ts_file (save None ts.*2 st)))
    = (st', Some (toPersistedTask <$> (native_rows ts).*2)).
Proof.
  intros He Hm. unfold save. rewrite He. cbv beta iota zeta delta [negb]. cbn [ts_file set_record set_file].
  unfold load, createAiraTaskPersistence. cbn [ts_enabled ts_startReason ts_file ts_sessionId].
  change (str_eqb (js "resume") (js "startup")) with false. change (str_eqb (js "resume") (js "resume")) with true.
  cbv beta iota zeta delta [negb orb andb]. unfold file_object. eval_props. cbn [json_eqb_num json_eqb_str].
  unfold str_eqb at 1. rewrite bool_decide_eq_true_2 by done. rewrite Z.eqb_refl. cbn [andb]. eexists. f_equal. f_equal.
  rewrite native_values, (take_ge (native_rows ts).*2)
    by (pose proof (mok_count _ Hm); unfold zlen, AIRA_TASK_MAX_ROWS in *; rewrite length_fmap; lia).
  rewrite take_ge by (pose proof (mok_count _ Hm); unfold zlen, AIRA_TASK_MAX_ROWS in *; rewrite !length_fmap; lia).
  rewrite <- list_fmap_compose.
  assert (Forall (λ t, native_ok t ∧ is_child t = false) (native_rows ts).*2) as Hall.
  { apply Forall_fmap, Forall_forall. intros [k t] [Hc Hin]%list_elem_of_filter. cbn in *.
    pose proof (mok_rows _ Hm) as Hr. eapply Forall_forall in Hr; [|done]. destruct Hr as (_ & _ & _ & Hn). auto. }
  clear -Hall. induction Hall as [|t l [Hn Hc] _ IH]; [done|]. rewrite fmap_cons. cbn [omap list_omap compose].
  rewrite persisted_roundtrip by done. rewrite fmap_cons. f_equal. exact IH.
Qed.

(** Restart: when the session of a reachable manager is disposed and resumed, the
    task graph has exactly the native rows, in order, with interrupted ([active]) rows
    back to [pending] and [blocked] derived anew; the recovery hint is pending exactly
    when a row was interrupted. *)
Theorem restart_recovers_tasks env env2 m st :
  reachable m → disposed m = false → persistence m = Some st → ts_enabled st = true → io env = None →
  ∃ st', persistence (dispose env m) = Some st'
  ∧ let m2 := newManager env2 (Some (createAiraTaskPersistence (ts_sessionId st) (js "resume") true (ts_file st'))) in
    tasks m2 = refreshDerivedStates (prod_map (λ k, k) restarted <$> native_rows (tasks m))
    ∧ recoveryHintPending m2 = existsb (λ kt, bool_decide (status kt.2 = active)) (native_rows (tasks m)).
Proof.
  intros Hre Hd Hp He Hio. pose proof (reachable_wf _ Hre) as [Hm _].
  exists (save None (tasks m).*2 st). split.
  { unfold dispose. rewrite Hd. cbn. by rewrite Hp, Hio. }
  cbn zeta. unfold newManager, recover. destruct (load_save st (tasks m) He Hm) as [st' ->]. cbn [tasks recoveryHintPending].
  assert (Forall (λ kt, kt.1 = id kt.2 ∧ native_ok kt.2 ∧ is_child kt.2 = false) (native_rows (tasks m))) as Hall.
  { apply Forall_forall. intros [k t] [Hc Hin]%list_elem_of_filter. pose proof (mok_rows _ Hm) as Hr.
    eapply Forall_forall in Hr; [|done]. destruct Hr as (Hk & _ & _ & Hn). cbn in *. auto. }
  assert (NoDup (native_rows (tasks m)).*1) as Hnd
    by (eapply NoDup_sublist_keys; [apply sublist_filter|apply Hm]).
  set (l := native_rows (tasks m)) in *. clearbody l. split.
  - f_equal. transitivity (add_rows (recovered_task <$> (toPersistedTask <$> l.*2)) []); [done|].
    assert (recovered_task <$> (toPersistedTask <$> l.*2) = (λ kt, restarted kt.2) <$> l) as ->.
    { clear Hnd. induction Hall as [|[k t] l (_ & Hn & _) _ IH]; [done|]. rewrite !fmap_cons. f_equal; [|done].
      by apply recovered_persisted. }
    rewrite add_rows_distinct; [|rewrite <- list_fmap_compose|done].
    + rewrite app_nil_l, <- list_fmap_compose. clear Hnd. induction Hall as [|[k t] l (Hk & _) _ IH]; [done|].
      rewrite !fmap_cons, IH. cbn in *. by rewrite Hk.
    + replace (_ <$> l) with l.*1; [done|]. clear Hnd. induction Hall as [|[k t] l (Hk & _) _ IH]; [done|].
      rewrite !fmap_cons, IH. cbn in *. by rewrite Hk.
  - clear Hnd Hall. induction l as [|[k t] l IH]; [done|]. rewrite !fmap_cons, filter_cons. cbn [existsb snd].
    assert (p_status (toPersistedTask t) = active ↔ status t = active) as Hst by (cbn; by destruct (status t)).
    rewrite <- IH. case_decide; [rewrite bool_decide_eq_true_2 by tauto|rewrite bool_decide_eq_false_2 by tauto; done].
    rewrite zlen_cons. pose proof (zlen_nonneg (filter (λ p, p_status p = active) (toPersistedTask <$> l.*2))).
    cbn [orb]. apply Z.ltb_lt. lia.
Qed.

(** *** The published snapshot *)

Lemma task_le_total a b : task_le a b = false → task_le b a = true.
Proof.
  unfold task_le. rewrite (Z.eqb_sym (statusOrder (status b))).
  destruct (statusOrder (status a) =? statusOrder (status b)) eqn:E; intros H; bool_prop;
    [apply Z.leb_le|apply Z.ltb_lt]; lia.
Qed.

Lemma count_status_perm l1 l2 s : l1 ≡ₚ l2 → count_status l1 s = count_status l2 s.
Proof. intros H. unfold count_status, zlen. by rewrite H. Qed.

Lemma counts_total l :
  zlen l = count_status l pending + count_status l active + count_status l blocked
           + count_status l completed + count_status l cancelled + count_status l failed.
Proof.
  unfold count_status. induction l as [|t l IH]; [done|]. rewrite !filter_cons, zlen_cons, IH.
  destruct (status t); repeat case_decide; try done; rewrite zlen_cons; lia.
Qed.

(** The snapshot [status()] returns lists the first 24 rows of the graph in status
    order (active, blocked, pending, then settled) with ties by age; its counters add up
    to the number of rows, its total leaves out cancelled and failed rows, and a current
    task is named exactly when some row is active. *)
Theorem snapshot_shows_the_graph env m :
  let s := (status_op env m).2 in
  (∃ rows, rows ≡ₚ (tasks m).*2 ∧ Sorted (λ a b, task_le a b = true) rows
     ∧ st_rows s = rowProjection <$> take 24 rows)
  ∧ st_counts s pending + st_counts s active + st_counts s blocked + st_counts s completed
    + st_counts s cancelled + st_counts s failed = zlen (tasks m)
  ∧ st_total s = zlen (tasks m) - st_counts s cancelled - st_counts s failed
  ∧ (is_Some (st_current s) ↔ ∃ t, t ∈ (tasks m).*2 ∧ status t = active).
Proof.
  cbn zeta. unfold status_op, publish. cbn [fst snd snapshot set_snapshot tasks].
  unfold buildSnapshot. cbn [st_rows st_counts st_total st_current].
  assert (sorted_rows (tasks m) ≡ₚ (tasks m).*2) as Hp by apply sort_by_perm.
  assert (zlen (sorted_rows (tasks m)) = zlen (tasks m)) as Hz
    by (unfold zlen; rewrite Hp; by rewrite length_fmap).
  split_and!.
  - exists (sorted_rows (tasks m)). split; [done|]. split; [|done]. apply sort_by_sorted, task_le_total.
  - rewrite <- Hz. symmetry. apply counts_total.
  - by rewrite Hz.
  - assert (∀ t, t ∈ sorted_rows (tasks m) ↔ t ∈ (tasks m).*2) as Hel by (intros t; by rewrite Hp).
    destruct (filter (λ t, status t = active) (sorted_rows (tasks m))) as [|t l] eqn:E; split.
    + by intros [].
    + intros (t & Ht & Hs). destruct (not_elem_of_nil t). rewrite <- E. apply list_elem_of_filter. by rewrite Hel.
    + intros _. exists t. rewrite <- Hel. assert (t ∈ filter (λ t, status t = active) (sorted_rows (tasks m))) as Hin
        by (rewrite E; by left). apply list_elem_of_filter in Hin as [? ?]. done.
    + by eexists.
Qed.

(** *** Two behaviours of [patch] *)

(** [patch] is not atomic: a patch whose title is accepted and whose status cannot be
    set directly is answered with an error, yet the row keeps the new title, which is
    neither published nor persisted. *)
Theorem refused_patch_keeps_title env m i t raw s :
  mget i (tasks m) = Some t → disposed m = false → is_child t = false → is_settled (status t) = false →
  trim raw ≠ [] → s ∉ AIRA_TASK_PATCHABLE_STATUSES →
  let p := {| patch_title := Some raw; patch_status := Some s; patch_dependsOn := None; patch_note := None |} in
  ∃ e, patch env i p m
       = (set_tasks (mset i (set_title (boundTitle (trim raw)) t) (tasks m)) m, Err e).
Proof.
  intros Hi Hd Hc Hs Hraw Hst p. unfold patch. rewrite stres_bind_eq. cbn [get]. rewrite Hd.
  rewrite stres_bind_eq. cbn [fail_if mret stres_ret]. rewrite Hi, Hc, Hs.
  rewrite !stres_bind_eq. cbn [fail_if mret stres_ret]. rewrite !stres_bind_eq. cbn [fail_if mret stres_ret].
  unfold patch_task, assign_title, assign_note, assign_dependsOn, assign_status, p.
  cbn [patch_title patch_status patch_dependsOn patch_note].
  rewrite !(bool_decide_eq_false_2 (trim raw = [])) by done.
  rewrite (bool_decide_eq_false_2 (s ∈ _)) by done. eexists. reflexivity.
Qed.

(** A patch of the dependencies only. *)
Definition depend_on (ds : list jsstr) : AiraTaskPatch :=
  {| patch_title := None; patch_status := None; patch_dependsOn := Some ds; patch_note := None |}.

Lemma patch_depend_on env m i t d :
  mget i (tasks m) = Some t → disposed m = false → is_child t = false → is_settled (status t) = false →
  trim d = d → d ≠ [] → i ≠ d → mhas d (tasks m) = true →
  patch env i (depend_on [d]) m
  = (let m' := conclude env (set_tasks (mset i (set_dependsOn [d] t) (tasks m)) m) in
     (m', Ok (default (set_dependsOn [d] t) (mget i (tasks m'))))).
Proof.
  intros Hi Hd Hc Hs Htr Hne Hid Hhas. unfold patch. rewrite stres_bind_eq. cbn [get]. rewrite Hd.
  rewrite stres_bind_eq. cbn [fail_if mret stres_ret]. rewrite Hi, Hc, Hs.
  rewrite !stres_bind_eq. cbn [fail_if mret stres_ret]. rewrite !stres_bind_eq. cbn [fail_if mret stres_ret].
  unfold patch_task, assign_title, assign_note, assign_dependsOn, assign_status, depend_on.
  cbn [patch_title patch_status patch_dependsOn patch_note].
  assert (normalizeDependencies (Some [d]) = [d]) as ->.
  { cbn [normalizeDependencies fmap list_fmap]. rewrite Htr, filter_cons_True by done. done. }
  rewrite !stres_bind_eq. cbn [mret stres_ret]. rewrite !stres_bind_eq. cbn [mret stres_ret].
  rewrite !stres_bind_eq. rewrite bool_decide_eq_false_2 by (rewrite list_elem_of_singleton; done). cbn [fail_if mret stres_ret].
  unfold reject_unknown, first_unknown. rewrite !stres_bind_eq. rewrite filter_cons_False by congruence. done.
Qed.

(** A [blocked] row is neither started nor completed by any patch. *)
Lemma blocked_row_stuck env m i t p s :
  mget i (tasks m) = Some t → status t = blocked → patch_status p = Some s → s = active ∨ s = completed →
  ∃ e, (patch env i p m).2 = Err e.
Proof.
  intros Ht Hs Hp Has. destruct (patch env i p m) as [m3 r] eqn:E.
  apply patch_run in E as [(e & -> & _)|(t0 & t1 & Ht0 & _ & _ & _ & Hpa & [(e & -> & _)|[_ ->]])]; [by eexists..|].
  assert (t0 = t) as -> by congruence. destruct (pa_done _ _ _ _ _ _ Hpa eq_refl s Hp) as [Hs1 _].
  destruct (pa_status _ _ _ _ _ _ Hpa) as [Hs2|Hs2]; [destruct Has; congruence|].
  rewrite Hs in Hs2. cbn in Hs2. apply list_elem_of_singleton in Hs2. destruct Has; congruence.
Qed.

(** Nothing but a direct self-dependency is refused: two waiting tasks can be made to
    depend on each other, and then both are [blocked] and no later call of [patch] can
    start or complete either of them. *)
Theorem patch_can_close_a_cycle env m a b ta tb :
  reachable m → disposed m = false → mget a (tasks m) = Some ta → mget b (tasks m) = Some tb →
  a ≠ b → is_child ta = false → is_child tb = false → status ta = pending → status tb = pending →
  a ≠ [] → b ≠ [] → trim a = a → trim b = b →
  ∃ m1 m2 t1 t2, patch env a (depend_on [b]) m = (m1, Ok t1) ∧ patch env b (depend_on [a]) m1 = (m2, Ok t2)
  ∧ (∀ i, i = a ∨ i = b → ∃ t, mget i (tasks m2) = Some t ∧ status t = blocked
      ∧ ∀ env' p s, patch_status p = Some s → s = active ∨ s = completed → ∃ e, (patch env' i p m2).2 = Err e).
Proof.
  intros Hre Hd Ha Hb Hab Hca Hcb Hsa Hsb Hna Hnb Hta Htb.
  pose proof (reachable_wf _ Hre) as Hwf. pose proof (mok_keys _ (wf_map _ Hwf)) as Hnd.
  pose proof (patch_depend_on env m a ta b) as H1. unfold mhas in H1. rewrite Hb, Hsa in H1.
  specialize (H1 Ha Hd Hca eq_refl Htb Hnb Hab eq_refl). cbv zeta in H1.
  set (ts0 := mset a (set_dependsOn [b] ta) (tasks m)) in *.
  set (m1 := conclude env (set_tasks ts0 m)) in *.
  assert (NoDup ts0.*1) as Hnd0 by by apply NoDup_mset.
  assert (hasUnfinishedDependencies ts0 (set_dependsOn [b] ta) = true) as Hua.
  { apply not_false_iff_true. rewrite hasUnfinished_false. intros Hu. specialize (Hu b (list_elem_of_here _ _)).
    unfold is_unfinished, ts0 in Hu. rewrite mget_mset_ne, Hb, Hsb in Hu by done. discriminate. }
  assert (mget a (tasks m1) = Some (set_status blocked (set_dependsOn [b] ta))) as Ha1.
  { unfold m1. rewrite conclude_tasks. cbn [tasks set_tasks]. rewrite mget_refresh by done.
    unfold ts0 at 2. rewrite mget_mset_eq. cbn [fmap option_fmap option_map]. unfold refresh_task.
    change (is_child (set_dependsOn [b] ta)) with (is_child ta). rewrite Hca. cbn [status set_dependsOn]. by rewrite Hsa, Hua. }
  assert (∃ tb', mget b (tasks m1) = Some tb' ∧ is_child tb' = false ∧ is_settled (status tb') = false
      ∧ (status tb' = pending ∨ status tb' = blocked)) as (tb' & Hb1 & Hcb' & Hsb' & Hpb).
  { unfold m1. rewrite conclude_tasks. cbn [tasks set_tasks]. rewrite mget_refresh by done.
    unfold ts0 at 2. rewrite mget_mset_ne, Hb by done. eexists. split; [done|].
    destruct (refresh_task_shape ts0 tb) as (s & -> & Hs). rewrite Hsb in Hs.
    destruct Hs as [->|(_ & [[_ ->]|[Hx _]])]; [cbn; auto..|discriminate]. }
  pose proof (patch_depend_on env m1 b tb' a) as H2. unfold mhas in H2. rewrite Ha1 in H2.
  specialize (H2 Hb1 Hd Hcb' Hsb' Hta Hna (not_eq_sym Hab) eq_refl). cbv zeta in H2.
  set (ts1 := mset b (set_dependsOn [a] tb') (tasks m1)) in *.
  set (m2 := conclude env (set_tasks ts1 m1)) in *.
  assert (NoDup ts1.*1) as Hnd1.
  { apply NoDup_mset. unfold m1. rewrite conclude_tasks. cbn [tasks set_tasks]. by rewrite refresh_keys. }
  assert (∀ i t, mget i ts1 = Some t → is_child t = false → status t = pending ∨ status t = blocked →
      hasUnfinishedDependencies ts1 t = true → ∃ t', mget i (tasks m2) = Some t' ∧ status t' = blocked) as Hblk.
  { intros i t Hi Hc Hst Hu. unfold m2. rewrite conclude_tasks. cbn [tasks set_tasks]. rewrite mget_refresh, Hi by done.
    eexists. split; [done|]. unfold refresh_task. rewrite Hc, Hu. by destruct Hst as [Hst|Hst]; rewrite Hst; cbn; rewrite ?Hst. }
  exists m1, m2. eexists _, _. split; [exact H1|]. split; [exact H2|].
  intros i Hi. assert (∃ t, mget i (tasks m2) = Some t ∧ status t = blocked) as (t & Ht & Hs).
  { destruct Hi as [-> | ->].
    - apply (Hblk a (set_status blocked (set_dependsOn [b] ta))); [unfold ts1; by rewrite mget_mset_ne|done|by right|].
      apply not_false_iff_true. rewrite hasUnfinished_false. intros Hu. specialize (Hu b (list_elem_of_here _ _)).
      unfold is_unfinished, ts1 in Hu. rewrite mget_mset_eq in Hu. cbn in Hu. by rewrite Hsb' in Hu.
    - apply (Hblk b (set_dependsOn [a] tb')); [unfold ts1; by rewrite mget_mset_eq|done|done|].
      apply not_false_iff_true. rewrite hasUnfinished_false. intros Hu. specialize (Hu a (list_elem_of_here _ _)).
      unfold is_unfinished, ts1 in Hu. rewrite mget_mset_ne, Ha1 in Hu by done. discriminate. }
  exists t. split; [done|]. split; [done|]. intros env' p s Hp Has.
  by eapply blocked_row_stuck.
Qed.

(** ** Witnesses *)

Definition env0 : Env := {| now := 5; enabled := true; io := None |}.
Definition store0 := createAiraTaskPersistence (js "s1") (js "startup") true file_absent.
Definition w0 := activate env0 true (newManager env0 (Some store0)).
Definition w1 := (create env0 (js "t-a") (js "write the parser") None None None w0).1.
Definition w2 := (create env0 (js "t-b") (js "test it") (Some model) None (Some (js "soon")) w1).1.
Definition run0 : AiraChildRun :=
  {| run_id := js "0123456789abcdef"; run_taskId := js "x"; run_createdAt := 7; run_role := explore;
     run_task := js "look around"; run_dependencies := []; run_status := run_running; run_phase := phase_running;
     run_startedAt := Some 8; run_completedAt := None; run_error := None |}.
Definition w3 := syncChildRows env0 [run0] w2.

Lemma reachable_w2 : reachable w2.
Proof.
  assert (∀ m fresh raw src deps nt, reachable m → fresh_id fresh (tasks m) →
    reachable (create env0 fresh raw src deps nt m).1) as Hc.
  { intros m fresh raw src deps nt Hm Hf. destruct (create env0 fresh raw src deps nt m) eqn:E.
    eapply reach_step; [exact Hm|]. eapply step_create; [exact Hf|exact E]. }
  apply Hc; [apply Hc|]; [eapply reach_step; [apply reach_new|apply step_activate]|by split|by split].
Qed.

Lemma reachable_w3 : reachable w3.
Proof.
  eapply reach_step; [apply reachable_w2|]. apply step_sync; [done|]. repeat constructor. vm_compute. discriminate.
Qed.

Lemma task_manager_invariant_witness : reachable w3 ∧ wf w3 ∧ listeners (subscribe 1 (dispose env0 w3)) = [1%nat].
Proof. split; [apply reachable_w3|]. split; [apply (task_manager_invariant w3), reachable_w3|vm_compute; reflexivity]. Defined.

Lemma native_forward_only_witness :
  ∃ t t', evolve t t' ∧ status t = pending ∧ status t' = active.
Proof.
  destruct (patch env0 (js "t-a") (status_patch active) w2) as [m' r] eqn:E.
  destruct (mget (js "t-a") (tasks w2)) as [t|] eqn:Ht; [|vm_compute in Ht; discriminate].
  destruct (mget (js "t-a") (tasks m')) as [t'|] eqn:Ht'; [|vm_compute in E; injection E as <- <-; discriminate].
  exists t, t'. split.
  - apply (native_forward_only w2 m' (js "t-a") t t' reachable_w2 (step_patch _ _ _ _ _ _ E) Ht); [|exact Ht'].
    vm_compute in Ht. injection Ht as <-. reflexivity.
  - vm_compute in Ht, E. injection Ht as <-. injection E as <- <-. vm_compute in Ht'. injection Ht' as <-. done.
Defined.

Lemma child_rows_untouched_witness :
  ∃ t, is_child t = true ∧ mget (js "c-0123456789ab") (tasks (clear env0 w3).1) = Some t.
Proof.
  destruct (mget (js "c-0123456789ab") (tasks w3)) as [t|] eqn:E; [|vm_compute in E; discriminate].
  assert (is_child t = true) as Hc by (vm_compute in E; injection E as <-; reflexivity).
  destruct (child_rows_untouched w3 (js "c-0123456789ab") t reachable_w3 E Hc) as (_ & _ & _ & _ & H & _).
  exists t. split; [exact Hc|exact (H env0)].
Defined.

Lemma blocked_is_derived_witness : derived_ok (tasks (syncChildRows env0 [run0] w2)).
Proof. destruct (blocked_is_derived w2 reachable_w2) as (_ & _ & _ & _ & _ & H & _). exact (H env0 [run0]). Defined.

Lemma patch_waits_for_dependencies_witness :
  ∃ m t, mget (js "t-a") (tasks m) = Some t ∧ status t = active ∧ hasUnfinishedDependencies (tasks m) t = false.
Proof.
  destruct (patch env0 (js "t-a") (status_patch active) w2) as [m' [t|e]] eqn:E; [|vm_compute in E; discriminate].
  exists m', t. exact (patch_waits_for_dependencies _ _ _ active _ _ _ reachable_w2 E eq_refl (or_introl eq_refl)).
Defined.

(** A graph of 129 completed rows. *)
Definition row_of (i : nat) : jsstr * AiraTask :=
  let k := num_str (Z.of_nat i) in
  (k, {| id := k; title := js "t"; status := completed; source := child; dependsOn := []; note := None;
         createdAt := Z.of_nat i; startedAt := None; completedAt := None; childRunId := None; childRole := None;
         detail := None; failureKind := None |}).
Definition full : taskmap := row_of <$> seq 0 129.

Lemma full_ok : map_ok full.
Proof.
  constructor.
  - apply (bool_decide_eq_true_1 _). vm_compute. reflexivity.
  - apply Forall_fmap, Forall_true. intros i. by split_and!.
  - vm_compute. discriminate.
Qed.

Lemma evict_oldest_settled_witness :
  map_ok full ∧ zlen (evictSettled full) = 128 ∧ mget (js "0") (evictSettled full) = None
  ∧ settled_time (row_of 0).2 <= settled_time (row_of 128).2.
Proof.
  split; [apply full_ok|]. split; [vm_compute; reflexivity|]. split; [vm_compute; reflexivity|].
  destruct (evict_oldest_settled full full_ok) as (_ & _ & H & _).
  destruct (H (js "0") (row_of 0).2) as [_ Hle]; [vm_compute; reflexivity|vm_compute; reflexivity|].
  apply (Hle (js "128")); vm_compute; reflexivity.
Defined.

Lemma restart_recovers_tasks_witness :
  ∃ st st', persistence w3 = Some st ∧ persistence (dispose env0 w3) = Some st'
  ∧ let m2 := newManager env0 (Some (createAiraTaskPersistence (ts_sessionId st) (js "resume") true (ts_file st'))) in
    (tasks m2).*1 = [js "t-a"; js "t-b"].
Proof.
  destruct (persistence w3) as [st|] eqn:E; [|vm_compute in E; discriminate].
  destruct (restart_recovers_tasks env0 env0 w3 st) as (st' & H1 & H2 & _);
    [apply reachable_w3|vm_compute; reflexivity|exact E|vm_compute in E; injection E as <-; reflexivity|reflexivity|].
  exists st, st'. split; [done|]. split; [exact H1|]. cbv zeta in *. rewrite H2. vm_compute. reflexivity.
Defined.

Lemma refused_patch_keeps_title_witness :
  ∃ t m' e, patch env0 (js "t-a") {| patch_title := Some (js "renamed"); patch_status := Some blocked;
                                    patch_dependsOn := None; patch_note := None |} w2 = (m', Err e)
    ∧ mget (js "t-a") (tasks m') = Some t ∧ title t = js "renamed".
Proof.
  destruct (mget (js "t-a") (tasks w2)) as [t|] eqn:E; [|vm_compute in E; discriminate].
  destruct (refused_patch_keeps_title env0 w2 (js "t-a") t (js "renamed") blocked) as [e He];
    [exact E|reflexivity|by vm_compute in E; injection E as <-|by vm_compute in E; injection E as <-|
     vm_compute; discriminate| |].
  { unfold AIRA_TASK_PATCHABLE_STATUSES. rewrite !elem_of_cons, elem_of_nil. intuition discriminate. }
  eexists _, _, e. split; [exact He|]. cbn [tasks set_tasks]. rewrite mget_mset_eq. split; [reflexivity|].
  vm_compute. reflexivity.
Defined.

Lemma patch_can_close_a_cycle_witness :
  ∃ m1 m2 t1 t2, patch env0 (js "t-a") (depend_on [js "t-b"]) w2 = (m1, Ok t1)
    ∧ patch env0 (js "t-b") (depend_on [js "t-a"]) m1 = (m2, Ok t2).
Proof.
  destruct (mget (js "t-a") (tasks w2)) as [ta|] eqn:Ea; [|vm_compute in Ea; discriminate].
  destruct (mget (js "t-b") (tasks w2)) as [tb|] eqn:Eb; [|vm_compute in Eb; discriminate].
  destruct (patch_can_close_a_cycle env0 w2 (js "t-a") (js "t-b") ta tb) as (m1 & m2 & t1 & t2 & H1 & H2 & _);
    [apply reachable_w2|reflexivity|exact Ea|exact Eb|vm_compute; discriminate|
     by vm_compute in Ea; injection Ea as <-|by vm_compute in Eb; injection Eb as <-|
     by vm_compute in Ea; injection Ea as <-|by vm_compute in Eb; injection Eb as <-|
     vm_compute; discriminate|vm_compute; discriminate|reflexivity|reflexivity|].
  exists m1, m2, t1, t2. split; assumption.
Defined.

End TasksProps.
