(* ===== verification/Scheduler.v ===== *)
(** * The orchestration scheduler

    Models [aira/orchestration/scheduler.ts]: validation of a batch
    ([prepareAiraSchedule], [findAiraScheduleCycle]) and the run of a batch
    ([runAiraScheduler]), whose concurrent [runOne] bodies are steps between the
    points where they await.  The steps may interleave in any order, so the theorems
    cover every order of the event loop. *)
From S2P Require Import Prelude JsMap JsString.

Module Scheduler.

(** ** Batches *)

Definition MAX_CHILD_TASKS_PER_BATCH : Z := 8.

Record AiraScheduledTask := { taskId : jsstr; dependencies : list jsstr; timeoutMs : option Z }.

Record AiraSchedulerRunTask := { run_task : AiraScheduledTask; runId : jsstr }.

Inductive AiraScheduleRejection :=
| duplicate_id (taskId : jsstr)
| unknown_dependency (taskId dependency : jsstr)
| self_dependency (taskId : jsstr)
| cycle (path : list jsstr)
| too_many_tasks (count max : Z).

(** *** Cycle detection

    [dfs_state] is the array [state] (0 unvisited, 1 on the stack, 2 done) and
    [dfs_stack] the array [stack] (here innermost first). *)
Record dfs := { dfs_state : list Z; dfs_stack : list jsstr }.

Definition state_of (s : dfs) (i : nat) : Z := default 0 (dfs_state s !! i).

Definition enter (i : nat) (name : jsstr) (s : dfs) : dfs :=
  {| dfs_state := <[i := 1]> (dfs_state s); dfs_stack := name :: dfs_stack s |}.
Definition leave (i : nat) (s : dfs) : dfs :=
  {| dfs_state := <[i := 2]> (dfs_state s); dfs_stack := tail (dfs_stack s) |}.

(** [stack.slice(stack.indexOf(name))], outermost first; empty when it is not there. *)
Fixpoint slice_from_name (name : jsstr) (stack : list jsstr) : list jsstr :=
  match stack with
  | [] => []
  | x :: stack' => if bool_decide (x = name) then stack else slice_from_name name stack'
  end.

(** [[...stack.slice(stack.indexOf(name)), name]], or [[name]] when it is not there. *)
Definition cycle_path (name : jsstr) (stack : list jsstr) : list jsstr :=
  slice_from_name name (rev stack) ++ [name].

Definition indexByName (tasks : list AiraScheduledTask) : list (jsstr * nat) :=
  mof_list (imap (λ i t, (taskId t, i)) tasks).

Section Visit.
Context (tasks : list AiraScheduledTask).

(** The loop over the dependencies, with [visit] for one index as a parameter; [None]
    is running out of fuel. *)
Fixpoint visit_deps (visit : nat → dfs → option (dfs * option (list jsstr)))
    (deps : list jsstr) (s : dfs) : option (dfs * option (list jsstr)) :=
  match deps with
  | [] => Some (s, None)
  | d :: deps' =>
      match mget d (indexByName tasks) with
      | None => visit_deps visit deps' s
      | Some j =>
          match visit j s with
          | Some (s', None) => visit_deps visit deps' s'
          | r => r
          end
      end
  end.

Fixpoint visit (fuel : nat) (i : nat) (s : dfs) : option (dfs * option (list jsstr)) :=
  match tasks !! i with
  | None => Some (s, None)
  | Some t =>
      if state_of s i =? 1 then Some (s, Some (cycle_path (taskId t) (dfs_stack s)))
      else if state_of s i =? 2 then Some (s, None)
      else match fuel with
      | O => None
      | S fuel =>
          match visit_deps (visit fuel) (dependencies t) (enter i (taskId t) s) with
          | Some (s', None) => Some (leave i s', None)
          | r => r
          end
      end
  end.

Fixpoint visit_all (fuel : nat) (todo : list nat) (s : dfs) : option (option (list jsstr)) :=
  match todo with
  | [] => Some None
  | i :: todo' =>
      match visit fuel i s with
      | Some (s', None) => visit_all fuel todo' s'
      | Some (_, Some p) => Some (Some p)
      | None => None
      end
  end.
End Visit.

Definition dfs_start (tasks : list AiraScheduledTask) : dfs :=
  {| dfs_state := replicate (length tasks) 0; dfs_stack := [] |}.

(** Every nested call marks an unvisited index, so the number of tasks is fuel enough. *)
Definition findAiraScheduleCycle (tasks : list AiraScheduledTask) : option (option (list jsstr)) :=
  visit_all tasks (length tasks) (seq 0 (length tasks)) (dfs_start tasks).

(** *** Validation *)

(** [for (const task of tasks) if (ids.has(task.taskId)) ...]: the first repeated id. *)
Fixpoint first_duplicate (seen : list jsstr) (tasks : list AiraScheduledTask) : option jsstr :=
  match tasks with
  | [] => None
  | t :: tasks' => if bool_decide (taskId t ∈ seen) then Some (taskId t)
                   else first_duplicate (taskId t :: seen) tasks'
  end.

Fixpoint check_deps (ids : list jsstr) (t : jsstr) (deps : list jsstr) : option AiraScheduleRejection :=
  match deps with
  | [] => None
  | d :: deps' =>
      if bool_decide (d = t) then Some (self_dependency t)
      else if negb (bool_decide (d ∈ ids)) then Some (unknown_dependency t d)
      else check_deps ids t deps'
  end.

Fixpoint check_tasks (ids : list jsstr) (tasks : list AiraScheduledTask) : option AiraScheduleRejection :=
  match tasks with
  | [] => None
  | t :: tasks' =>
      match check_deps ids (taskId t) (dependencies t) with
      | Some r => Some r
      | None => check_tasks ids tasks'
      end
  end.

(** [assignRunIds] is the caller's; the outer [None] is the fuel of the cycle check. *)
Definition prepareAiraSchedule (assignRunIds : jsstr → jsstr) (tasks : list AiraScheduledTask)
    : option (result AiraScheduleRejection (list AiraSchedulerRunTask)) :=
  match tasks with
  | [] => Some (Ok [])
  | _ =>
      if MAX_CHILD_TASKS_PER_BATCH <? zlen tasks then Some (Err (too_many_tasks (zlen tasks) MAX_CHILD_TASKS_PER_BATCH))
      else match first_duplicate [] tasks with
      | Some t => Some (Err (duplicate_id t))
      | None =>
          match check_tasks (taskId <$> tasks) tasks with
          | Some r => Some (Err r)
          | None =>
              match findAiraScheduleCycle tasks with
              | None => None
              | Some (Some p) => Some (Err (cycle p))
              | Some None => Some (Ok ((λ t, {| run_task := t; runId := assignRunIds (taskId t) |}) <$> tasks))
              end
          end
      end
  end.

(** ** Running a batch *)

(** Where the body of [runOne] for one task stands. *)
Inductive ctl :=
| c_new                   (** not yet called *)
| c_waiting (pending : nat) (** awaits its dependencies; callbacks still to fire *)
| c_deps (ok : bool)      (** [waitForDependencies] has resolved *)
| c_queued                (** awaits a slot, its callback is in [waiters] *)
| c_slot                  (** [acquire] has resolved *)
| c_executing             (** awaits [execute] *)
| c_done.

#[export] Instance ctl_eq_dec : EqDecision ctl.
Proof. solve_decision. Defined.

Inductive event := ev_started (t : jsstr) | ev_skipped (t reason : jsstr).

Record sched := {
  runningCount : Z;
  waiters : list jsstr;
  completed : gset jsstr;
  failed : gset jsstr;
  settled : gset jsstr;
  listeners : gmap jsstr (list jsstr);  (** callbacks, named by the waiting task *)
  ctls : gmap jsstr ctl;
  events : list event;
  aborted : bool;
  releases : Z  (** history: how often [release] ran; nothing reads it *) }.

Definition set_ctl t c s := {| runningCount := runningCount s; waiters := waiters s; completed := completed s;
  failed := failed s; settled := settled s; listeners := listeners s; ctls := <[t := c]> (ctls s);
  events := events s; aborted := aborted s; releases := releases s |}.
Definition set_slots n w s := {| runningCount := n; waiters := w; completed := completed s;
  failed := failed s; settled := settled s; listeners := listeners s; ctls := ctls s;
  events := events s; aborted := aborted s; releases := releases s |}.
Definition add_completed t s := {| runningCount := runningCount s; waiters := waiters s; completed := {[t]} ∪ completed s;
  failed := failed s; settled := settled s; listeners := listeners s; ctls := ctls s;
  events := events s; aborted := aborted s; releases := releases s |}.
Definition add_failed t s := {| runningCount := runningCount s; waiters := waiters s; completed := completed s;
  failed := {[t]} ∪ failed s; settled := settled s; listeners := listeners s; ctls := ctls s;
  events := events s; aborted := aborted s; releases := releases s |}.
Definition add_settled t s := {| runningCount := runningCount s; waiters := waiters s; completed := completed s;
  failed := failed s; settled := {[t]} ∪ settled s; listeners := listeners s; ctls := ctls s;
  events := events s; aborted := aborted s; releases := releases s |}.
Definition set_listeners l s := {| runningCount := runningCount s; waiters := waiters s; completed := completed s;
  failed := failed s; settled := settled s; listeners := l; ctls := ctls s;
  events := events s; aborted := aborted s; releases := releases s |}.
Definition emit e s := {| runningCount := runningCount s; waiters := waiters s; completed := completed s;
  failed := failed s; settled := settled s; listeners := listeners s; ctls := ctls s;
  events := events s ++ [e]; aborted := aborted s; releases := releases s |}.
Definition set_aborted s := {| runningCount := runningCount s; waiters := waiters s; completed := completed s;
  failed := failed s; settled := settled s; listeners := listeners s; ctls := ctls s;
  events := events s; aborted := true; releases := releases s |}.
Definition count_release s := {| runningCount := runningCount s; waiters := waiters s; completed := completed s;
  failed := failed s; settled := settled s; listeners := listeners s; ctls := ctls s;
  events := events s; aborted := aborted s; releases := releases s + 1 |}.

Section Run.
Context (tasks : list AiraSchedulerRunTask) (maxOption : Z).

Definition ids : list jsstr := (λ t, taskId (run_task t)) <$> tasks.

Definition deps_of (t : jsstr) : list jsstr :=
  match filter (λ r, taskId (run_task r) = t) tasks with
  | r :: _ => dependencies (run_task r)
  | [] => []
  end.

Definition maxConcurrency : Z := Z.max 1 (Z.min maxOption (zlen tasks)).

Definition some_failed (s : sched) (deps : list jsstr) : bool := existsb (λ d, bool_decide (d ∈ failed s)) deps.

(** [acquire()] called by task [t]. *)
Definition acquire (t : jsstr) (s : sched) : sched :=
  if runningCount s <? maxConcurrency then set_ctl t c_slot (set_slots (runningCount s + 1) (waiters s) s)
  else set_ctl t c_queued (set_slots (runningCount s) (waiters s ++ [t]) s).

Definition release (s : sched) : sched :=
  let s := count_release (set_slots (runningCount s - 1) (waiters s) s) in
  match waiters s with
  | next :: ws => set_ctl next c_slot (set_slots (runningCount s + 1) ws s)
  | [] => s
  end.

(** A dependency callback registered by task [u]. *)
Definition callback (s : sched) (u : jsstr) : sched :=
  match ctls s !! u with
  | Some (c_waiting pending) =>
      if bool_decide (pending - 1 = 0)%nat then set_ctl u (c_deps (negb (some_failed s (deps_of u)))) s
      else set_ctl u (c_waiting (pending - 1)) s
  | _ => s
  end.

Definition notify (t : jsstr) (s : sched) : sched :=
  match listeners s !! t with
  | Some callbacks => foldl callback (set_listeners (delete t (listeners s)) s) callbacks
  | None => s
  end.

Definition waitForDependencies (t : jsstr) (s : sched) : sched :=
  let deps := deps_of t in
  let unsettled := filter (λ d, d ∉ settled s) deps in
  match deps, unsettled with
  | [], _ => set_ctl t (c_deps true) s
  | _, [] => set_ctl t (c_deps (negb (some_failed s deps))) s
  | _, _ =>
      set_ctl t (c_waiting (length unsettled))
        (set_listeners (foldl (λ ls d, <[d := default [] (ls !! d) ++ [t]]> ls) (listeners s) unsettled) s)
  end.

(** [failed.add; settled.add; notify; onSkipped] *)
Definition skip (t reason : jsstr) (s : sched) : sched :=
  emit (ev_skipped t reason) (notify t (add_settled t (add_failed t s))).

Inductive outcome := o_completed | o_failed | o_throws (message : jsstr).

(** What the event loop can run next. *)
Inductive label :=
  | l_start (t : jsstr)                (** [runOne] is called *)
  | l_deps (t : jsstr)                 (** continues after [waitForDependencies] *)
  | l_slot (t : jsstr)                 (** continues after [acquire] *)
  | l_finish (t : jsstr) (o : outcome) (** continues after [execute] *)
  | l_abort.                           (** the signal is aborted from outside *)

(** The [finally] block: [runningCount -= 1; release(); settled.add(id)]. *)
Definition finally (t : jsstr) (s : sched) : sched :=
  add_settled t (release (set_slots (runningCount s - 1) (waiters s) s)).

Definition cancelled_reason : jsstr := js "cancelled before launch".

Definition step (l : label) (s : sched) : option sched :=
  match l with
  | l_abort => Some (set_aborted s)
  | l_start t =>
      match ctls s !! t with
      | Some c_new =>
          if aborted s then Some (skip t cancelled_reason (set_ctl t c_done s))
          else Some (waitForDependencies t s)
      | _ => None
      end
  | l_deps t =>
      match ctls s !! t with
      | Some (c_deps true) => Some (acquire t s)
      | Some (c_deps false) =>
          let reason := default (js "upstream") (head (filter (λ d, d ∈ failed s) (deps_of t))) in
          Some (skip t reason (set_ctl t c_done s))
      | _ => None
      end
  | l_slot t =>
      match ctls s !! t with
      | Some c_slot =>
          if aborted s then Some (finally t (skip t cancelled_reason (set_ctl t c_done s)))
          else Some (set_ctl t c_executing (emit (ev_started t) s))
      | _ => None
      end
  | l_finish t o =>
      match ctls s !! t with
      | Some c_executing =>
          let s := set_ctl t c_done s in
          let s := match o with
                   | o_completed => add_completed t s
                   | o_failed => add_failed t s
                   | o_throws message => emit (ev_skipped t message) (add_failed t s)
                   end in
          Some (notify t (finally t s))
      | _ => None
      end
  end.

Definition start_state (signal : bool) : sched :=
  {| runningCount := 0; waiters := []; completed := ∅; failed := ∅; settled := ∅; listeners := ∅;
     ctls := list_to_map ((λ t, (t, c_new)) <$> ids); events := []; aborted := signal; releases := 0 |}.

(** The state of [runAiraScheduler] when the event loop gets control: a cyclic batch is
    skipped at once.  The other rejections of the second validation are ignored. *)
Definition runAiraScheduler (signal : bool) : option sched :=
  let assign t := default [] (head (runId <$> filter (λ r, taskId (run_task r) = t) tasks)) in
  match prepareAiraSchedule assign (run_task <$> tasks) with
  | None => None
  | Some (Err (cycle path)) =>
      let s := start_state signal in
      let s := foldl (λ s t, emit (ev_skipped t (js "dependency cycle: " ++ join (js " -> ") path)) s) s ids in
      Some (foldl (λ s t, set_ctl t c_done s) s ids)
  | Some _ => Some (start_state signal)
  end.

Fixpoint run (ls : list label) (s : sched) : option sched :=
  match ls with
  | [] => Some s
  | l :: ls' => match step l s with Some s' => run ls' s' | None => None end
  end.

Definition holds_slot (c : ctl) : bool := match c with c_slot | c_executing => true | _ => false end.

(** How many tasks hold a slot, and how many execute. *)
Definition holders (s : sched) : Z := zlen (filter (λ t, from_option holds_slot false (ctls s !! t) = true) ids).
Definition executing (s : sched) : Z := zlen (filter (λ t, ctls s !! t = Some c_executing) ids).

End Run.

End Scheduler.
