(* ===== verification/SchedulerProps.v ===== *)
(** * The orchestration scheduler: theorems

    Correctness of the validation and of the cycle search, and safety, progress and
    termination of the run under every interleaving. *)
From S2P Require Import Prelude JsMap JsString Scheduler.

Module SchedulerProps.
Import Scheduler.

(** ** Dependency graphs *)

Section Graph.
Context (tasks : list AiraScheduledTask).

Definition depends (a b : jsstr) : Prop := ∃ t, t ∈ tasks ∧ taskId t = a ∧ b ∈ dependencies t.

(** Every element depends on the next. *)
Fixpoint chain (p : list jsstr) : Prop :=
  match p with
  | a :: (b :: _) as q => depends a b ∧ chain q
  | _ => True
  end.

(** A closed path: it has a first and a last element, and they are the same. *)
Definition is_cycle (p : list jsstr) : Prop := ∃ x q, p = x :: q ++ [x] ∧ chain p.

(** No non-empty set of tasks in which everyone waits for a member. *)
Definition acyclic : Prop :=
  ∀ C : jsstr → Prop, (∀ a, C a → ∃ b, C b ∧ depends a b) → ∀ a, ¬ C a.

Lemma chain_next p a : chain p → a ∈ p → last p = Some a ∨ ∃ b, b ∈ p ∧ depends a b.
Proof.
  induction p as [|x [|y p] IH]; intros Hc Ha; [by apply not_elem_of_nil in Ha|apply list_elem_of_singleton in Ha; subst; by left|].
  destruct Hc as [Hd Hc]. apply elem_of_cons in Ha as [->|Ha].
  - right. exists y. split; [right; left|done].
  - destruct (IH Hc Ha) as [Hl|(b & Hb & Hab)]; [by left|right]. exists b. split; [by right|done].
Qed.

Lemma is_cycle_not_acyclic p : is_cycle p → ¬ acyclic.
Proof.
  intros (x & q & -> & Hc) Hac. apply (Hac (λ a, a ∈ x :: q ++ [x])) with x; [|left].
  assert (∀ a, a ∈ x :: q ++ [x] → last (x :: q ++ [x]) = Some a ∨ ∃ b, b ∈ x :: q ++ [x] ∧ depends a b) as Hn
  by (intros a; by apply chain_next).
  intros a Ha. destruct (Hn a Ha) as [Hl|(b & Hb & Hab)]; [|by eauto].
  change (x :: q ++ [x]) with ((x :: q) ++ [x]) in Hl. rewrite last_snoc in Hl. injection Hl as <-.
  destruct q as [|y q]; cbn in Hc; [destruct Hc as [Hd _]; exists x; split; [left|done]|].
  destruct Hc as [Hd _]. exists y. split; [right; left|done].
Qed.

(** *** The index of a name *)

Lemma mof_list_elem {K V} `{EqDecision K} (l : list (K * V)) k v : mget k (mof_list l) = Some v → (k, v) ∈ l.
Proof.
  unfold mof_list. intros H%mget_elem.
  assert (∀ m, (k, v) ∈ foldl (λ m kv, mset kv.1 kv.2 m) m l → (k, v) ∈ m ∨ (k, v) ∈ l) as Hgen.
  { clear H. induction l as [|[k1 v1] l IH]; intros m Hin; cbn in Hin; [by left|].
  destruct (IH _ Hin) as [Hm|Hl]; [|right; by right].
  apply elem_mset in Hm as [[= -> ->]|Hm]; [right; by left|by left]. }
  apply Hgen in H as [?%not_elem_of_nil|?]; done.
Qed.

Lemma mof_list_is_Some {K V} `{EqDecision K} (l : list (K * V)) k v : (k, v) ∈ l → is_Some (mget k (mof_list l)).
Proof.
  unfold mof_list.
  assert (∀ m, (k, v) ∈ l ∨ is_Some (mget k m) → is_Some (mget k (foldl (λ m kv, mset kv.1 kv.2 m) m l))) as Hgen.
  { induction l as [|[k1 v1] l IH]; intros m; cbn; [by intros [?%not_elem_of_nil|]|].
  intros Hin. apply IH. rewrite mget_mset. destruct Hin as [[[= -> ->]|Hin]%elem_of_cons|Hm].
  - right. by rewrite decide_True.
  - by left.
  - right. by case_decide. }
  intros Hin. apply Hgen. by left.
Qed.

Lemma index_sound d j : mget d (indexByName tasks) = Some j → ∃ t, tasks !! j = Some t ∧ taskId t = d.
Proof.
  unfold indexByName. intros H%mof_list_elem. apply elem_of_lookup_imap in H as (i & t & [= -> ->] & Ht). eauto.
Qed.

Lemma index_complete d t : t ∈ tasks → taskId t = d → ∃ j, mget d (indexByName tasks) = Some j.
Proof.
  intros [i Hi]%list_elem_of_lookup Hd. apply (mof_list_is_Some _ _ i). apply elem_of_lookup_imap. by exists i, t; subst.
Qed.

Lemma index_unique i j t1 t2 :
  NoDup (taskId <$> tasks) → tasks !! i = Some t1 → tasks !! j = Some t2 → taskId t1 = taskId t2 → i = j.
Proof.
  intros Hnd Hi Hj He. eapply (NoDup_lookup (taskId <$> tasks)); [done|rewrite list_lookup_fmap, Hi; done|].
  rewrite list_lookup_fmap, Hj. cbn. by rewrite He.
Qed.

(** ** The search *)

Definition edge (i j : nat) : Prop :=
  ∃ t d, tasks !! i = Some t ∧ d ∈ dependencies t ∧ mget d (indexByName tasks) = Some j.

Definition name (i : nat) : jsstr := from_option taskId [] (tasks !! i).

(** A finishing order: successors are finished earlier (further right). *)
Fixpoint topo (fin : list nat) : Prop :=
  match fin with
  | [] => True
  | i :: fin' => (∀ j, edge i j → j ∈ fin') ∧ topo fin'
  end.

(** The stack, innermost first: every element is a dependency of the one below it. *)
Fixpoint rchain (st : list jsstr) : Prop :=
  match st with
  | a :: (b :: _) as q => depends b a ∧ rchain q
  | _ => True
  end.

Record dfs_inv (s : dfs) (S fin : list nat) : Prop := {
  di_len : length (dfs_state s) = length tasks;
  di_stack : dfs_stack s = name <$> S;
  di_nodup : NoDup S;
  di_lt : ∀ i, i ∈ S → (i < length tasks)%nat;
  di_one : ∀ i, state_of s i = 1 ↔ i ∈ S;
  di_two : ∀ i, state_of s i = 2 ↔ i ∈ fin;
  di_dom : ∀ i, state_of s i = 0 ∨ state_of s i = 1 ∨ state_of s i = 2;
  di_chain : rchain (dfs_stack s);
  di_topo : topo fin }.

Definition unvisited (s : dfs) : nat := length (filter (λ z, z = 0) (dfs_state s)).

Lemma unvisited_insert l i v :
  l !! i = Some 0 → v ≠ 0 → S (length (filter (λ z, z = 0) (<[i := v]> l))) = length (filter (λ z, z = 0) l).
Proof.
  revert i. induction l as [|x l IH]; intros [|i] Hi Hv; try discriminate; cbn in Hi.
  - injection Hi as ->. rewrite (filter_cons_True _ 0) by done. cbn [insert list_insert].
  by rewrite filter_cons_False.
  - cbn [insert list_insert]. rewrite !filter_cons. case_decide; cbn [length]; rewrite <- (IH i); done.
Qed.

Lemma unvisited_insert_other l i v :
  (∀ x, l !! i = Some x → x ≠ 0) → v ≠ 0 → length (filter (λ z, z = 0) (<[i := v]> l)) = length (filter (λ z, z = 0) l).
Proof.
  revert i. induction l as [|x l IH]; intros [|i] Hi Hv; try done; cbn [insert list_insert].
  - rewrite !filter_cons. rewrite decide_False by done. rewrite decide_False; [done|by apply Hi].
  - rewrite !filter_cons. case_decide; cbn [length]; by rewrite IH.
Qed.

Lemma state_of_insert s i v j st :
  (i < length (dfs_state s))%nat →
  state_of {| dfs_state := <[i := v]> (dfs_state s); dfs_stack := st |} j = if decide (j = i) then v else state_of s j.
Proof.
  intros Hi. unfold state_of. cbn. case_decide; subst; [by rewrite list_lookup_insert_eq|by rewrite list_lookup_insert_ne].
Qed.

(** *** The reported path *)

Lemma chain_cons a b p : chain (a :: b :: p) ↔ depends a b ∧ chain (b :: p).
Proof. done. Qed.

Lemma chain_snoc p a : chain p → (∀ b, last p = Some b → depends b a) → chain (p ++ [a]).
Proof.
  induction p as [|x [|y p] IH]; intros Hc Hl; [done|by split; [apply Hl|]|].
  destruct Hc as [Hxy Hc]. split; [done|]. by apply IH.
Qed.

Lemma rchain_rev st : rchain st → chain (rev st).
Proof.
  induction st as [|a st IH]; intros Hr; [done|]. cbn [rev]. apply chain_snoc.
  - apply IH. destruct st; [done|apply Hr].
  - intros b Hb. destruct st as [|x st]; [done|]. cbn [rev] in Hb. rewrite last_snoc in Hb. injection Hb as <-. apply Hr.
Qed.

Lemma slice_from_name_spec x l :
  x ∈ l → chain l → (∃ q, slice_from_name x l = x :: q) ∧ chain (slice_from_name x l) ∧ last (slice_from_name x l) = last l.
Proof.
  induction l as [|y l IH]; intros Hx Hc; [by apply not_elem_of_nil in Hx|]. cbn [slice_from_name].
  case_bool_decide as Hy; [subst; split_and!; [by eexists|done|done]|].
  apply elem_of_cons in Hx as [->|Hx]; [done|]. destruct l as [|z l]; [by apply not_elem_of_nil in Hx|].
  destruct (IH Hx (proj2 Hc)) as (H1 & H2 & ->). by split_and!.
Qed.

Lemma cycle_path_cycle x stack :
  x ∈ stack → rchain stack → (∀ a st, stack = a :: st → depends a x) → is_cycle (cycle_path x stack).
Proof.
  intros Hx Hr Hd. unfold cycle_path.
  destruct (slice_from_name_spec x (rev stack)) as ([q Hq] & Hc & Hl);
    [by rewrite <- list_elem_of_In, <- in_rev, list_elem_of_In || (apply list_elem_of_In; rewrite <- in_rev; by apply list_elem_of_In)|by apply rchain_rev|].
  exists x, q. rewrite Hq in *. split; [done|]. apply (chain_snoc (x :: q)); [done|].
  intros b Hb. rewrite Hl in Hb. destruct stack as [|a st]; [done|]. cbn [rev] in Hb. rewrite last_snoc in Hb.
  injection Hb as <-. by eapply Hd.
Qed.

(** *** The traversal *)

Definition search_ok (s : dfs) (S fin : list nat) (goal : list nat → Prop) (r : option (dfs * option (list jsstr))) : Prop :=
  (∃ s' fin', r = Some (s', None) ∧ dfs_inv s' S (fin' ++ fin) ∧ goal (fin' ++ fin) ∧ (unvisited s' <= unvisited s)%nat)
  ∨ ∃ s' p, r = Some (s', Some p) ∧ is_cycle p.

Lemma dfs_enter s S fin i t :
  dfs_inv s S fin → tasks !! i = Some t → state_of s i = 0 →
  (∀ a st, dfs_stack s = a :: st → depends a (taskId t)) →
  dfs_inv (enter i (taskId t) s) (i :: S) fin ∧ unvisited s = Datatypes.S (unvisited (enter i (taskId t) s)).
Proof.
  intros [Hlen Hst Hnd Hlt H1 H2 Hdom Hch Htopo] Hi H0 Hd.
  assert (i < length tasks)%nat as Hil by (apply lookup_lt_is_Some; eauto).
  assert (i ∉ S) as HiS by (rewrite <- H1, H0; done).
  assert (i ∉ fin) as Hif by (rewrite <- H2, H0; done).
  split.
  - constructor; cbn [enter dfs_state dfs_stack].
  + by rewrite length_insert.
  + rewrite fmap_cons, Hst. unfold name at 2. by rewrite Hi.
  + by constructor.
  + intros j [->|Hj]%elem_of_cons; [done|by apply Hlt].
  + intros j. unfold enter. rewrite state_of_insert by by rewrite Hlen. rewrite elem_of_cons, <- H1.
    case_decide; subst; intuition congruence.
  + intros j. unfold enter. rewrite state_of_insert by by rewrite Hlen. rewrite <- H2.
    case_decide; subst; [rewrite H0|]; intuition congruence.
  + intros j. unfold enter. rewrite state_of_insert by by rewrite Hlen. case_decide; auto.
  + destruct (dfs_stack s) as [|a st] eqn:E; [done|]. split; [by eapply Hd|done].
  + done.
  - unfold unvisited, enter. cbn [dfs_state]. symmetry. apply unvisited_insert; [|done].
  unfold state_of in H0. destruct (lookup_lt_is_Some_2 (dfs_state s) i) as [z Hz]; [by rewrite Hlen|].
  by rewrite Hz in H0 |- *; cbn in H0; subst.
Qed.

Lemma dfs_leave s S fin i :
  dfs_inv s (i :: S) fin → (∀ j, edge i j → j ∈ fin) →
  dfs_inv (leave i s) S (i :: fin) ∧ unvisited (leave i s) = unvisited s.
Proof.
  intros [Hlen Hst Hnd Hlt H1 H2 Hdom Hch Htopo] Hsucc.
  assert (i < length tasks)%nat as Hil by (apply Hlt; left).
  assert (state_of s i = 1) as Hi1 by (apply H1; left).
  apply NoDup_cons in Hnd as [HiS Hnd].
  split.
  - constructor; cbn [leave dfs_state dfs_stack].
  + by rewrite length_insert.
  + by rewrite Hst.
  + done.
  + intros j Hj. apply Hlt. by right.
  + intros j. unfold leave. rewrite state_of_insert by by rewrite Hlen.
    specialize (H1 j). rewrite elem_of_cons in H1. case_decide; subst; intuition congruence.
  + intros j. unfold leave. rewrite state_of_insert by by rewrite Hlen. rewrite elem_of_cons, <- H2.
    case_decide; subst; intuition congruence.
  + intros j. unfold leave. rewrite state_of_insert by by rewrite Hlen. case_decide; auto.
  + rewrite Hst in *. cbn in *. destruct (name <$> S); [done|apply Hch].
  + done.
  - unfold unvisited, leave. cbn [dfs_state]. apply unvisited_insert_other; [|done].
  intros x Hx. unfold state_of in Hi1. rewrite Hx in Hi1. cbn in Hi1. lia.
Qed.

Lemma visit_deps_ok fuel i t :
  NoDup (taskId <$> tasks) → tasks !! i = Some t →
  (∀ j s S fin, (j < length tasks)%nat → dfs_inv s S fin → (unvisited s <= fuel)%nat →
   (∀ a st, dfs_stack s = a :: st → depends a (name j)) →
   search_ok s S fin (λ fin', j ∈ fin') (visit tasks fuel j s)) →
  ∀ ds s S fin, ds ⊆ dependencies t → dfs_inv s (i :: S) fin → (unvisited s <= fuel)%nat →
  search_ok s (i :: S) fin (λ fin', ∀ d j, d ∈ ds → mget d (indexByName tasks) = Some j → j ∈ fin')
  (visit_deps tasks (visit tasks fuel) ds s).
Proof.
  intros Hnd Hi Hvisit. induction ds as [|d ds IH]; intros s S fin Hds Hinv Hfuel; cbn [visit_deps].
  { left. exists s, []. split_and!; [done|done|by intros d j ?%not_elem_of_nil|done]. }
  assert (ds ⊆ dependencies t) as Hds' by set_solver.
  destruct (mget d (indexByName tasks)) as [j|] eqn:Hj.
  - destruct (index_sound d j Hj) as (tj & Htj & Hdj).
  destruct (Hvisit j s (i :: S) fin) as [(s1 & fin1 & Hr1 & Hinv1 & Hg1 & Hu1)|(s1 & p & Hr1 & Hp)]; try done.
  + apply lookup_lt_is_Some; eauto.
  + intros a st Hst. rewrite (di_stack _ _ _ Hinv), fmap_cons in Hst. injection Hst as <- _.
    exists t. split; [by eapply list_elem_of_lookup_2|]. unfold name. rewrite Hi, Htj. cbn. split; [done|].
    rewrite Hdj. apply Hds. left.
  + rewrite Hr1. destruct (IH s1 S (fin1 ++ fin)) as [(s2 & fin2 & Hr2 & Hinv2 & Hg2 & Hu2)|(s2 & p & Hr2 & Hp)]; [done|done|lia| |].
    * left. rewrite app_assoc in Hinv2, Hg2. exists s2, (fin2 ++ fin1). split_and!; [done|done| |lia].
      intros d' j' [->|Hd']%elem_of_cons Hj'; [|by eapply Hg2].
      assert (j' = j) as -> by congruence. rewrite <- app_assoc. apply elem_of_app. by right.
    * right. by eexists _, _.
  + rewrite Hr1. right. by eexists _, _.
  - destruct (IH s S fin Hds' Hinv Hfuel) as [(s2 & fin2 & Hr2 & Hinv2 & Hg2 & Hu2)|(s2 & p & Hr2 & Hp)]; [left|right; by eexists _, _].
  exists s2, fin2. split_and!; [done|done| |done]. intros d' j' [->|Hd']%elem_of_cons Hj'; [congruence|by eapply Hg2].
Qed.

Lemma visit_ok fuel :
  NoDup (taskId <$> tasks) →
  ∀ i s S fin, (i < length tasks)%nat → dfs_inv s S fin → (unvisited s <= fuel)%nat →
  (∀ a st, dfs_stack s = a :: st → depends a (name i)) →
  search_ok s S fin (λ fin', i ∈ fin') (visit tasks fuel i s).
Proof.
  intros Hnd. induction fuel as [|fuel IH]; intros i s S fin Hi Hinv Hfuel Hd;
  destruct (lookup_lt_is_Some_2 tasks i Hi) as [t Ht]; assert (name i = taskId t) as Hname by (unfold name; by rewrite Ht);
  rewrite Hname in Hd; cbn [visit]; rewrite Ht;
  (destruct (state_of s i =? 1) eqn:E1; bool_prop;
    [right; eexists _, _; split; [done|]; apply cycle_path_cycle;
      [rewrite (di_stack _ _ _ Hinv), <- Hname; apply list_elem_of_fmap_2; by apply (di_one _ _ _ Hinv)|by apply (di_chain _ _ _ Hinv)|done]|]);
  (destruct (state_of s i =? 2) eqn:E2; bool_prop;
    [left; exists s, []; split_and!; [done|done|by apply (di_two _ _ _ Hinv)|done]|]);
  (assert (state_of s i = 0) as H0 by (destruct (di_dom _ _ _ Hinv i) as [|[|]]; congruence));
  destruct (dfs_enter s S fin i t Hinv Ht H0 Hd) as [Hinv1 Hu1]; [lia|].
  destruct (visit_deps_ok fuel i t Hnd Ht IH (dependencies t) (enter i (taskId t) s) S fin)
  as [(s2 & fin2 & Hr2 & Hinv2 & Hg2 & Hu2)|(s2 & p & Hr2 & Hp)]; [done|done|lia| |rewrite Hr2; right; by eexists _, _].
  rewrite Hr2. destruct (dfs_leave s2 S (fin2 ++ fin) i Hinv2) as [Hinv3 Hu3].
  { intros j (t' & d & Ht' & Hd' & Hj). assert (t' = t) as -> by congruence. by eapply Hg2. }
  left. exists (leave i s2), (i :: fin2). split_and!; [done|done|left|lia].
Qed.

Lemma visit_all_ok fuel todo s fin :
  NoDup (taskId <$> tasks) → dfs_inv s [] fin → (unvisited s <= fuel)%nat → Forall (λ i, (i < length tasks)%nat) todo →
  (visit_all tasks fuel todo s = Some None ∧ ∃ fin', topo fin' ∧ ∀ i, i ∈ fin ∨ i ∈ todo → i ∈ fin')
  ∨ ∃ p, visit_all tasks fuel todo s = Some (Some p) ∧ is_cycle p.
Proof.
  intros Hnd. revert s fin. induction todo as [|i todo IH]; intros s fin Hinv Hfuel Hall; cbn [visit_all].
  { left. split; [done|]. exists fin. split; [apply Hinv|]. by intros i [|?%not_elem_of_nil]. }
  apply Forall_cons in Hall as [Hi Hall].
  destruct (visit_ok fuel Hnd i s [] fin) as [(s1 & fin1 & Hr & Hinv1 & Hg & Hu)|(s1 & p & Hr & Hp)]; try done.
  { intros a st Hst. rewrite (di_stack _ _ _ Hinv) in Hst. discriminate. }
  - rewrite Hr. destruct (IH s1 (fin1 ++ fin)) as [(Hr2 & fin2 & Ht2 & Hin2)|(p & Hr2 & Hp)]; [done|lia|done| |].
  + left. split; [done|]. exists fin2. split; [done|].
    intros j [Hj|[->|Hj]%elem_of_cons]; apply Hin2; [left; apply elem_of_app; by right|by left|by right].
  + right. by eexists.
  - rewrite Hr. right. by eexists.
Qed.

(** In a finished graph nobody waits for ever. *)
Lemma topo_no_closed_set fin (C : jsstr → Prop) :
  NoDup (taskId <$> tasks) → topo fin → (∀ a, C a → ∃ b, C b ∧ depends a b) →
  (∀ b, C b → ∃ t, t ∈ tasks ∧ taskId t = b) →
  ∀ i t, i ∈ fin → tasks !! i = Some t → ¬ C (taskId t).
Proof.
  intros Hnd Htopo HC Hmem. induction fin as [|k fin IH]; intros i t Hi Ht Hc; [by apply not_elem_of_nil in Hi|].
  destruct Htopo as [Hk Htopo]. apply elem_of_cons in Hi as [->|Hi]; [|by eapply IH].
  destruct (HC _ Hc) as (b & Hb & (t' & Ht' & Heq & Hd)).
  assert (t' = t) as ->.
  { apply list_elem_of_lookup in Ht' as [i' Hi']. assert (i' = k) as -> by by eapply index_unique. congruence. }
  destruct (Hmem b Hb) as (tb & Htb & Hbid). destruct (index_complete b tb Htb Hbid) as [j Hj].
  destruct (index_sound b j Hj) as (tj & Htj & Hjid).
  apply (IH Htopo j tj); [apply Hk; exists t, b; done|done|by rewrite Hjid].
Qed.

Lemma dfs_start_inv : dfs_inv (dfs_start tasks) [] [].
Proof.
  assert (∀ i, state_of (dfs_start tasks) i = 0) as H0.
  { intros i. unfold state_of, dfs_start. cbn. destruct (replicate (length tasks) 0 !! i) as [z|] eqn:E; [|done].
  apply lookup_replicate in E as [-> _]. done. }
  constructor; try done; try (intros i; rewrite H0); try by split; [|intros ?%not_elem_of_nil].
  - apply length_replicate.
  - constructor.
  - by intros i ?%not_elem_of_nil.
  - by left.
Qed.

(** The search never runs out of fuel; it answers [undefined] exactly for the acyclic
  graphs, and otherwise a closed dependency path. *)
Lemma find_cycle_spec :
  NoDup (taskId <$> tasks) →
  (findAiraScheduleCycle tasks = Some None ∧ acyclic)
  ∨ ∃ p, findAiraScheduleCycle tasks = Some (Some p) ∧ is_cycle p.
Proof.
  intros Hnd. unfold findAiraScheduleCycle.
  destruct (visit_all_ok (length tasks) (seq 0 (length tasks)) (dfs_start tasks) []) as [(Hr & fin & Htopo & Hin)|(p & Hr & Hp)].
  - done.
  - apply dfs_start_inv.
  - unfold unvisited, dfs_start. cbn. etrans; [apply length_filter|]. by rewrite length_replicate.
  - apply Forall_seq. intros. lia.
  - left. split; [done|]. intros C HC a Ha.
    assert (∀ b, C b → ∃ t, t ∈ tasks ∧ taskId t = b) as Hmem by (intros b (c & _ & (t & ? & ? & _))%HC; eauto).
    destruct (Hmem a Ha) as (t & Ht & Hid). subst a. apply list_elem_of_lookup in Ht as [i Hi].
    apply (topo_no_closed_set fin C Hnd Htopo HC Hmem i t); [|done|done].
    apply Hin. right. apply elem_of_seq. pose proof (lookup_lt_Some _ _ _ Hi). lia.
  - right. by exists p.
Qed.

(** ** Validation of a batch *)

Definition valid_batch : Prop :=
  zlen tasks <= MAX_CHILD_TASKS_PER_BATCH ∧ NoDup (taskId <$> tasks)
  ∧ (∀ t d, t ∈ tasks → d ∈ dependencies t → d ≠ taskId t ∧ d ∈ taskId <$> tasks)
  ∧ acyclic.

Lemma first_duplicate_None seen ts :
  first_duplicate seen ts = None ↔ NoDup (taskId <$> ts) ∧ ∀ t, t ∈ ts → taskId t ∉ seen.
Proof.
  revert seen. induction ts as [|t ts IH]; intros seen; cbn [first_duplicate].
  - split; [intros _; split; [constructor|by intros t ?%not_elem_of_nil]|done].
  - rewrite fmap_cons, NoDup_cons. case_bool_decide as Hs.
    + split; [done|]. intros [_ H]. by destruct (H t (list_elem_of_here _ _)).
    + rewrite IH. split.
      * intros [Hnd H]. split_and!; [|done|].
        -- intros (t' & Heq & Ht')%list_elem_of_fmap. apply (H t' Ht'). rewrite Heq. left.
        -- intros t' [->|Ht']%elem_of_cons; [done|]. intros Hin. apply (H t' Ht'). by right.
      * intros [[Hni Hnd] H]. split; [done|]. intros t' Ht' [Heq|Hin]%elem_of_cons.
        -- apply Hni. rewrite <- Heq. by apply list_elem_of_fmap_2.
        -- apply (H t'); [by right|done].
Qed.

Lemma first_duplicate_in seen ts x : first_duplicate seen ts = Some x → x ∈ taskId <$> ts.
Proof.
  revert seen. induction ts as [|t ts IH]; intros seen H; cbn in H; [discriminate|].
  rewrite fmap_cons. case_bool_decide; [injection H as <-; left|right; by eapply IH].
Qed.

Lemma first_duplicate_Some ts x : first_duplicate [] ts = Some x → ¬ NoDup (taskId <$> ts).
Proof.
  intros H Hnd. assert (first_duplicate [] ts = None) as Hn; [|congruence].
  apply first_duplicate_None. split; [done|]. by intros t _ ?%not_elem_of_nil.
Qed.

(** What a rejection says of the batch. *)
Definition rejection_true (r : AiraScheduleRejection) : Prop :=
  match r with
  | duplicate_id t => t ∈ taskId <$> tasks ∧ ¬ NoDup (taskId <$> tasks)
  | unknown_dependency a d => depends a d ∧ d ∉ taskId <$> tasks
  | self_dependency a => depends a a
  | cycle p => is_cycle p
  | too_many_tasks n m => n = zlen tasks ∧ m < n
  end.

Lemma check_deps_spec names t ds :
  match check_deps names t ds with
  | None => ∀ d, d ∈ ds → d ≠ t ∧ d ∈ names
  | Some (self_dependency a) => a = t ∧ t ∈ ds
  | Some (unknown_dependency a d) => a = t ∧ d ∈ ds ∧ d ∉ names
  | Some _ => False
  end.
Proof.
  induction ds as [|d ds IH]; cbn; [by intros d ?%not_elem_of_nil|].
  repeat case_bool_decide; cbn [negb].
  - split; [done|]. subst. left.
  - destruct (check_deps names t ds) as [[]|]; try done.
    + destruct IH as (-> & ? & ?). split_and!; [done|by right|done].
    + destruct IH as (-> & ?). split; [done|by right].
    + intros d' [->|Hd']%elem_of_cons; [done|by apply IH].
  - split_and!; [done|left|done].
Qed.

Lemma check_tasks_spec ts :
  ts ⊆ tasks →
  match check_tasks (taskId <$> tasks) ts with
  | None => ∀ t d, t ∈ ts → d ∈ dependencies t → d ≠ taskId t ∧ d ∈ taskId <$> tasks
  | Some r => rejection_true r ∧ ¬ valid_batch
  end.
Proof.
  induction ts as [|t ts IH]; intros Hts; cbn [check_tasks]; [by intros t d ?%not_elem_of_nil|].
  assert (t ∈ tasks) as Ht by (apply Hts; left).
  pose proof (check_deps_spec (taskId <$> tasks) (taskId t) (dependencies t)) as Hd.
  destruct (check_deps _ _ _) as [[]|]; try done.
  - destruct Hd as (-> & Hd & Hn). split; [split; [by exists t|done]|].
    intros (_ & _ & Hv & _). by destruct (Hv t _ Ht Hd).
  - destruct Hd as (-> & Hd). split; [by exists t|]. intros (_ & _ & Hv & _). by destruct (Hv t _ Ht Hd).
  - assert (ts ⊆ tasks) as Hts' by (intros x Hx; apply Hts; by right). specialize (IH Hts').
    destruct (check_tasks _ ts) as [r|]; [done|]. intros t' d [->|Ht']%elem_of_cons; [apply Hd|by apply IH].
Qed.

Lemma match_nonempty {A B} (l : list A) (x y : B) : l ≠ [] → match l with [] => x | _ => y end = y.
Proof. by destruct l. Qed.

Lemma prepare_spec assign :
  ∃ r, prepareAiraSchedule assign tasks = Some r
  ∧ match r with
    | Ok prepared => valid_batch ∧ prepared = (λ t, {| run_task := t; runId := assign (taskId t) |}) <$> tasks
    | Err e => ¬ valid_batch ∧ rejection_true e
    end.
Proof.
  unfold prepareAiraSchedule. destruct (decide (tasks = [])) as [Hnil|Hne].
  { exists (Ok []). split; [by rewrite Hnil|]. split; [|by rewrite Hnil]. unfold valid_batch.
    rewrite Hnil. split_and!; [done|constructor|by intros ?? ?%not_elem_of_nil|].
    intros C HC a (b & _ & (t & Ht & _))%HC. rewrite Hnil in Ht. by apply not_elem_of_nil in Ht. }
  rewrite match_nonempty by done.
  destruct (MAX_CHILD_TASKS_PER_BATCH <? zlen tasks) eqn:Elen; bool_prop.
  { eexists. split; [done|]. split; [intros [? _]; lia|done]. }
  destruct (first_duplicate [] tasks) as [x|] eqn:Edup.
  { eexists. split; [done|]. pose proof (first_duplicate_Some _ _ Edup) as Hnd. apply first_duplicate_in in Edup.
    split; [by intros (_ & ? & _)|done]. }
  apply first_duplicate_None in Edup as [Hnd _].
  pose proof (check_tasks_spec tasks (reflexivity tasks)) as Hc.
  destruct (check_tasks _ tasks) as [r|]; [eexists; split; [done|]; tauto|].
  destruct (find_cycle_spec Hnd) as [[-> Hac]|(p & -> & Hp)].
  - eexists. split; [done|]. split; [|done]. by split_and!.
  - eexists. split; [done|]. split; [|done]. intros (_ & _ & _ & Hac). by eapply is_cycle_not_acyclic.
Qed.

(** C1. Validation decides exactly the well-formed batches: at most eight tasks, distinct
    ids, dependencies that name other tasks of the batch, and an acyclic graph.  It
    always answers; an accepted batch is returned task by task with the assigned run
    ids, and a rejection states a true defect, for a cycle a closed dependency path. *)
Theorem prepare_decides_validity assign :
  ∃ r, prepareAiraSchedule assign tasks = Some r
  ∧ match r with
    | Ok prepared => valid_batch ∧ prepared = (λ t, {| run_task := t; runId := assign (taskId t) |}) <$> tasks
    | Err e => ¬ valid_batch ∧ rejection_true e
    end.
Proof. apply prepare_spec. Qed.

End Graph.

(** ** The run of a batch *)

Section Run.
Context (tasks : list AiraSchedulerRunTask) (maxOption : Z).

Abbreviation ids := (Scheduler.ids tasks).
Abbreviation deps_of := (Scheduler.deps_of tasks).

Definition occ (x : jsstr) (l : list jsstr) : nat := length (filter (λ y, y = x) l).

Definition unsettled_deps (s : sched) (t : jsstr) : list jsstr := filter (λ d, d ∉ settled s) (deps_of t).

Definition set_ctls m s := {| runningCount := runningCount s; waiters := waiters s; completed := completed s;
  failed := failed s; settled := settled s; listeners := listeners s; ctls := m;
  events := events s; aborted := aborted s; releases := releases s |}.

(** *** Callbacks only touch the control map *)

Definition cb1 (f : gset jsstr) (m : gmap jsstr ctl) (u : jsstr) : gmap jsstr ctl :=
  match m !! u with
  | Some (c_waiting pending) =>
      if bool_decide (pending - 1 = 0)%nat
      then <[u := c_deps (negb (existsb (λ d, bool_decide (d ∈ f)) (deps_of u)))]> m
      else <[u := c_waiting (pending - 1)]> m
  | _ => m
  end.

Lemma callbacks_ctls cbs s :
  foldl (callback tasks) s cbs = set_ctls (foldl (cb1 (failed s)) (ctls s) cbs) s.
Proof.
  revert s. induction cbs as [|u cbs IH]; intros s; cbn [foldl]; [by destruct s|]. rewrite IH.
  unfold callback, cb1. by destruct (ctls s !! u) as [[| | | | | |]|]; try case_bool_decide.
Qed.

Lemma notify_eq t s :
  notify tasks t s = set_ctls (foldl (cb1 (failed s)) (ctls s) (default [] (listeners s !! t)))
                       (set_listeners (delete t (listeners s)) s).
Proof.
  unfold notify. destruct (listeners s !! t) as [cbs|] eqn:E; [by rewrite callbacks_ctls|].
  cbn. rewrite delete_id by done. by destruct s.
Qed.

(** The control of one task after the callbacks. *)
Definition woken (f : gset jsstr) (u : jsstr) (k : nat) (c : ctl) : ctl :=
  match c with
  | c_waiting n =>
      if decide (k < n)%nat then c_waiting (n - k)
      else c_deps (negb (existsb (λ d, bool_decide (d ∈ f)) (deps_of u)))
  | c => c
  end.

Lemma occ_cons x y l : occ x (y :: l) = ((if decide (y = x) then 1 else 0) + occ x l)%nat.
Proof. unfold occ. rewrite filter_cons. by case_decide. Qed.

Lemma occ_app x l k : occ x (l ++ k) = (occ x l + occ x k)%nat.
Proof. unfold occ. by rewrite filter_app, length_app. Qed.

Lemma occ_pos x l : x ∈ l ↔ (0 < occ x l)%nat.
Proof.
  unfold occ. split.
  - intros Hx. assert (x ∈ filter (λ y, y = x) l) as Hin by (by apply list_elem_of_filter).
    destruct (filter _ l); [by apply not_elem_of_nil in Hin|cbn; lia].
  - destruct (filter (λ y, y = x) l) as [|y l'] eqn:E; cbn; [lia|]. intros _.
    assert (y ∈ filter (λ y, y = x) l) as Hin by (rewrite E; left). by apply list_elem_of_filter in Hin as [-> ?].
Qed.

Lemma cb1_lookup f cbs m u :
  (∀ n, m !! u = Some (c_waiting n) → (0 < n)%nat) →
  foldl (cb1 f) m cbs !! u = (λ c, if decide (occ u cbs = 0%nat) then c else woken f u (occ u cbs) c) <$> m !! u.
Proof.
  revert m. induction cbs as [|v cbs IH]; intros m Hm; cbn [foldl].
  { unfold occ. cbn. by destruct (m !! u). }
  destruct (decide (v = u)) as [->|Hne].
  - rewrite occ_cons, decide_True by done.
    destruct (m !! u) as [c|] eqn:E.
    2: { unfold cb1 at 2. rewrite E, IH by congruence. by rewrite E. }
    destruct c as [|n|b| | | |]; try (unfold cb1 at 2; rewrite E, IH by congruence; rewrite E; cbn; by repeat case_decide).
    specialize (Hm n eq_refl). unfold cb1 at 2. rewrite E. case_bool_decide.
    + rewrite IH; rewrite lookup_insert_eq; [|discriminate]. cbn. repeat case_decide; try done; lia.
    + rewrite IH; rewrite lookup_insert_eq; [|intros ? [= <-]; lia]. cbn.
      repeat case_decide; try done; try lia; do 2 f_equal; lia.
  - rewrite occ_cons, (decide_False (P := v = u)) by done. cbn [Nat.add].
    assert (cb1 f m v !! u = m !! u) as Hsame.
    { unfold cb1. destruct (m !! v) as [[| | | | | |]|]; try done. case_bool_decide; by rewrite lookup_insert_ne. }
    rewrite IH; rewrite Hsame; done.
Qed.

Lemma cb1_insert f cbs m u c :
  (∀ n, c ≠ c_waiting n) → (∀ n, m !! u ≠ Some (c_waiting n)) →
  foldl (cb1 f) (<[u := c]> m) cbs = <[u := c]> (foldl (cb1 f) m cbs).
Proof.
  intros Hc. revert m. induction cbs as [|v cbs IH]; intros m Hm; cbn [foldl]; [done|].
  destruct (decide (v = u)) as [->|Hne].
  - assert (cb1 f (<[u := c]> m) u = <[u := c]> m) as ->.
    { unfold cb1. rewrite lookup_insert_eq. destruct c as [|n|b| | | |]; try done. by destruct (Hc n). }
    assert (cb1 f m u = m) as ->; [|by apply IH].
    unfold cb1. destruct (m !! u) as [[|n|b| | | |]|]; try done. by destruct (Hm n).
  - assert (cb1 f (<[u := c]> m) v = <[u := c]> (cb1 f m v)) as ->.
    { unfold cb1. rewrite lookup_insert_ne by done. destruct (m !! v) as [[| | | | | |]|]; try done.
      case_bool_decide; by rewrite insert_insert_ne. }
    apply IH. intros n. unfold cb1. destruct (m !! v) as [[| | | | | |]|]; try apply Hm.
    case_bool_decide; rewrite lookup_insert_ne by done; apply Hm.
Qed.

(** *** Invariant of the dependency bookkeeping *)

Definition deps_settled (s : sched) (t : jsstr) : Prop := ∀ d, d ∈ deps_of t → d ∈ settled s.
Definition deps_fine (s : sched) (t : jsstr) : Prop := ∀ d, d ∈ deps_of t → d ∉ failed s.

(** Past the dependency gate. *)
Definition ready (c : ctl) : bool := match c with c_deps true | c_queued | c_slot | c_executing => true | _ => false end.

Definition waits (s : sched) (u : jsstr) : bool := match ctls s !! u with Some (c_waiting _) => true | _ => false end.

Record dep_inv (s : sched) : Prop := {
  dv_dom : ∀ t, is_Some (ctls s !! t) ↔ t ∈ ids;
  dv_settled : ∀ t, t ∈ settled s ↔ ctls s !! t = Some c_done;
  dv_union : ∀ t, t ∈ settled s ↔ t ∈ completed s ∨ t ∈ failed s;
  dv_disj : ∀ t, t ∈ completed s → t ∉ failed s;
  dv_wait : ∀ t n, ctls s !! t = Some (c_waiting n) → n = length (unsettled_deps s t) ∧ (0 < n)%nat;
  dv_listen : ∀ d u, occ u (default [] (listeners s !! d))
    = if decide (d ∈ settled s) then 0%nat else if waits s u then occ d (deps_of u) else 0%nat;
  dv_ready : ∀ t c, ctls s !! t = Some c → ready c = true → deps_settled s t ∧ deps_fine s t;
  dv_refused : ∀ t, ctls s !! t = Some (c_deps false) → deps_settled s t ∧ ¬ deps_fine s t }.

Lemma existsb_failed s t :
  existsb (λ d, bool_decide (d ∈ failed s)) (deps_of t) = false ↔ deps_fine s t.
Proof.
  unfold deps_fine. rewrite <- not_true_iff_false, existsb_exists. split.
  - intros Hn d Hd Hf. apply Hn. exists d. split; [by apply list_elem_of_In|by apply bool_decide_eq_true].
  - intros Hf (d & Hd%list_elem_of_In & Hb%bool_decide_eq_true). by apply (Hf d).
Qed.

(** *** Settling a task *)

(** What every way of finishing a task does to the bookkeeping. *)
Definition settle (ok : bool) (t : jsstr) (s : sched) : sched :=
  notify tasks t (add_settled t ((if ok then add_completed t else add_failed t) (set_ctl t c_done s))).

Lemma settle_fields ok t s :
  settled (settle ok t s) = {[t]} ∪ settled s
  ∧ completed (settle ok t s) = (if ok then {[t]} ∪ completed s else completed s)
  ∧ failed (settle ok t s) = (if ok then failed s else {[t]} ∪ failed s)
  ∧ listeners (settle ok t s) = delete t (listeners s)
  ∧ runningCount (settle ok t s) = runningCount s ∧ waiters (settle ok t s) = waiters s
  ∧ releases (settle ok t s) = releases s ∧ events (settle ok t s) = events s ∧ aborted (settle ok t s) = aborted s.
Proof. unfold settle. rewrite notify_eq. by destruct ok. Qed.

Lemma unsettled_split s s' t u :
  settled s' = {[t]} ∪ settled s → t ∉ settled s →
  (length (unsettled_deps s' u) + occ t (deps_of u))%nat = length (unsettled_deps s u).
Proof.
  intros Hs Ht. unfold unsettled_deps, occ. rewrite Hs. generalize (deps_of u) as l. induction l as [|d l IH]; [done|].
  rewrite !filter_cons. destruct (decide (d = t)) as [->|Hne].
  - rewrite decide_False, (decide_True (P := t ∉ settled s)) by set_solver. cbn [length]. lia.
  - destruct (decide (d ∉ settled s)).
    + rewrite decide_True by set_solver. cbn [length]. lia.
    + rewrite decide_False by set_solver. exact IH.
Qed.

Lemma unsettled_nil s u : length (unsettled_deps s u) = 0%nat ↔ deps_settled s u.
Proof.
  unfold unsettled_deps, deps_settled. split.
  - intros Hl%nil_length_inv d Hd. destruct (decide (d ∈ settled s)); [done|].
    assert (d ∈ filter (λ d, d ∉ settled s) (deps_of u)) as Hin by (by apply list_elem_of_filter).
    rewrite Hl in Hin. by apply not_elem_of_nil in Hin.
  - intros Hd. destruct (filter _ _) as [|d l] eqn:E; [done|].
    assert (d ∈ filter (λ d, d ∉ settled s) (deps_of u)) as Hin by (rewrite E; left).
    apply list_elem_of_filter in Hin as [Hn Hin]. by destruct Hn; apply Hd.
Qed.

Definition plain (c : ctl) : Prop := c ≠ c_done ∧ ∀ n, c ≠ c_waiting n.

Lemma settle_ctls ok t s c u :
  dep_inv s → ctls s !! t = Some c → plain c →
  ctls (settle ok t s) !! u
  = if decide (u = t) then Some c_done
    else (λ c, if decide (occ t (deps_of u) = 0%nat) then c else woken (failed (settle ok t s)) u (occ t (deps_of u)) c) <$> ctls s !! u.
Proof.
  intros Hi Ht [Hnd Hnw]. assert (t ∉ settled s) as Hts by (rewrite (dv_settled _ Hi); congruence).
  unfold settle. rewrite notify_eq. cbn [ctls set_ctls failed set_listeners].
  set (s1 := add_settled t _).
  assert (ctls s1 = <[t := c_done]> (ctls s)) as Hc1 by by destruct ok.
  assert (listeners s1 = listeners s) as Hl1 by by destruct ok. rewrite Hc1, Hl1.
  rewrite cb1_insert by (try discriminate; rewrite Ht; congruence).
  case_decide as Hu; [subst; by rewrite lookup_insert_eq|]. rewrite lookup_insert_ne by done.
  rewrite cb1_lookup by (intros n Hn; by apply (dv_wait _ Hi u n)).
  rewrite (dv_listen _ Hi t u), decide_False by done. unfold waits.
  destruct (ctls s !! u) as [[|n|b| | | |]|] eqn:Eu; cbn; try done; by repeat case_decide.
Qed.

Lemma dep_inv_settle ok t s c :
  dep_inv s → t ∈ ids → ctls s !! t = Some c → plain c → dep_inv (settle ok t s).
Proof.
  intros Hi Hid Ht Hp. pose proof (λ u, settle_ctls ok t s c u Hi Ht Hp) as Hctl.
  destruct (settle_fields ok t s) as (Hse & Hco & Hfa & Hli & _).
  destruct Hp as [Hnd Hnw]. assert (t ∉ settled s) as Hts by (rewrite (dv_settled _ Hi); congruence).
  pose proof (unsettled_split s (settle ok t s) t) as Hsplit.
  set (s' := settle ok t s) in *. clearbody s'.
  assert (t ∉ completed s ∧ t ∉ failed s) as [Htc Htf] by (rewrite (dv_union _ Hi) in Hts; tauto).
  (* a task that wakes up has all its dependencies settled *)
  assert (∀ u n, u ≠ t → ctls s !! u = Some (c_waiting n) →
    n = (length (unsettled_deps s' u) + occ t (deps_of u))%nat ∧ (0 < n)%nat) as Hwn.
  { intros u n Hu Hn. rewrite Hsplit by done. by apply (dv_wait _ Hi). }
  assert (∀ u c', u ≠ t → ctls s' !! u = Some c' → (∀ n, c' ≠ c_waiting n) →
    ctls s !! u = Some c' ∨ ∃ n, ctls s !! u = Some (c_waiting n) ∧ deps_settled s' u
      ∧ c' = c_deps (negb (existsb (λ d, bool_decide (d ∈ failed s')) (deps_of u)))) as Hwoken.
  { intros u c' Hu Hc' Hnw'. rewrite Hctl, decide_False in Hc' by done.
    destruct (ctls s !! u) as [c0|] eqn:E0; [|done]. cbn in Hc'. injection Hc' as Hc'.
    destruct c0 as [|n|b| | | |]; try (left; case_decide; cbn in Hc'; congruence). right. exists n. split; [done|].
    destruct (Hwn u n Hu E0) as [Hn1 Hn2]. case_decide as Ho; [by destruct (Hnw' n)|].
    cbn in Hc'. case_decide; [by edestruct Hnw'|]. split; [|done]. apply unsettled_nil. lia. }
  constructor.
  - intros u. rewrite Hctl. case_decide; [subst; by split; eauto|]. rewrite fmap_is_Some. apply (dv_dom _ Hi).
  - intros u. rewrite Hse, elem_of_union, elem_of_singleton, (dv_settled _ Hi). split.
    + intros [->|Hu]; rewrite Hctl; [by rewrite decide_True|]. case_decide; [done|]. rewrite Hu. cbn. by case_decide.
    + intros Hu. destruct (decide (u = t)) as [|Hne]; [by left|right].
      destruct (Hwoken u c_done Hne Hu) as [|(n & _ & _ & Hx)]; [done|done|discriminate].
  - intros u. rewrite Hse, Hco, Hfa. rewrite elem_of_union, elem_of_singleton, (dv_union _ Hi). destruct ok; set_solver.
  - intros u. rewrite Hco, Hfa. pose proof (dv_disj _ Hi u) as Hd. destruct ok.
    + intros [->%elem_of_singleton|?]%elem_of_union; auto.
    + intros Hc [->%elem_of_singleton|?]%elem_of_union; [by apply Htc|by apply Hd].
  - intros u n' Hu. destruct (decide (u = t)) as [->|Hne]; [by rewrite Hctl, decide_True in Hu|].
    rewrite Hctl, decide_False in Hu by done. destruct (ctls s !! u) as [c0|] eqn:E0; [|done]. cbn in Hu.
    destruct c0 as [|n|b| | | |]; try (case_decide; cbn in Hu; congruence). destruct (Hwn u n Hne E0) as [Hn1 Hn2].
    case_decide as Ho; [injection Hu as <-; split; lia|]. cbn in Hu. case_decide; [injection Hu as <-; split; lia|done].
  - intros d u. rewrite Hli, Hse. destruct (decide (d = t)) as [->|Hdt].
    { rewrite lookup_delete_eq. by rewrite decide_True by set_solver. }
    rewrite lookup_delete_ne, (dv_listen _ Hi) by done. destruct (decide (d ∈ settled s)).
    { by rewrite decide_True by set_solver. }
    rewrite decide_False by set_solver. unfold waits. destruct (decide (u = t)) as [->|Hne].
    { rewrite Hctl, decide_True by done. rewrite Ht. destruct c; try done. by edestruct Hnw. }
    destruct (ctls s' !! u) as [c'|] eqn:Ec'.
    + assert (deps_settled s' u → occ d (deps_of u) = 0%nat) as Hocc.
      { intros Hds. destruct (decide (d ∈ deps_of u)) as [Hin|Hni]; [|rewrite occ_pos in Hni; lia].
        apply Hds in Hin. rewrite Hse in Hin. set_solver. }
      destruct c' as [|n'|b| | | |]; try (destruct (Hwoken u _ Hne Ec') as [->|(k & -> & Hds & _)]; [done|done|exact (Hocc Hds)]).
      rewrite Hctl, decide_False in Ec' by done. destruct (ctls s !! u) as [c0|]; [|done]. cbn in Ec'.
      by destruct c0; try (case_decide; cbn in Ec'; congruence).
    + rewrite Hctl, decide_False in Ec' by done. by destruct (ctls s !! u).
  - intros u c' Hu Hr. destruct (decide (u = t)) as [->|Hne]; [by rewrite Hctl, decide_True in Hu; [injection Hu as <-|]|].
    assert (∀ n, c' ≠ c_waiting n) as Hnw' by (intros n ->; done).
    destruct (Hwoken u c' Hne Hu Hnw') as [H0|(n & _ & Hds & Heq)].
    + destruct (dv_ready _ Hi u c' H0 Hr) as [H1 H2]. split; intros d Hd.
      * rewrite Hse. apply elem_of_union_r. by apply H1.
      * rewrite Hfa. destruct ok; [by apply H2|]. intros [->%elem_of_singleton|Hf]%elem_of_union; [|by apply (H2 d)].
        by apply Hts, H1.
    + split; [done|]. subst c'. apply existsb_failed. by destruct (existsb _ _).
  - intros u Hu. destruct (decide (u = t)) as [->|Hne]; [by rewrite Hctl, decide_True in Hu|].
    destruct (Hwoken u _ Hne Hu) as [H0|(n & _ & Hds & Heq)]; [done| |].
    + destruct (dv_refused _ Hi u H0) as [H1 H2]. split.
      * intros d Hd. rewrite Hse. apply elem_of_union_r. by apply H1.
      * intros Hf. apply H2. intros d Hd Hin. apply (Hf d Hd). rewrite Hfa. destruct ok; [done|set_solver].
    + split; [done|]. rewrite <- existsb_failed. by destruct (existsb _ _).
Qed.

(** Moving a task along past the gate does not matter to the bookkeeping. *)
Lemma dep_inv_ready s t c c' s' :
  dep_inv s → ctls s !! t = Some c → ready c = true → ready c' = true →
  ctls s' = <[t := c']> (ctls s) → completed s' = completed s → failed s' = failed s →
  settled s' = settled s → listeners s' = listeners s → dep_inv s'.
Proof.
  intros Hi Ht Hr Hr' Hc Hco Hf Hs Hl.
  constructor; unfold deps_settled, deps_fine, unsettled_deps; rewrite ?Hc, ?Hco, ?Hf, ?Hs, ?Hl.
  - intros u. destruct (decide (u = t)) as [->|]; [rewrite lookup_insert_eq|rewrite lookup_insert_ne by done; apply Hi].
    rewrite <- (dv_dom _ Hi), Ht. by split; eauto.
  - intros u. rewrite (dv_settled _ Hi). destruct (decide (u = t)) as [->|]; [|by rewrite lookup_insert_ne].
    rewrite lookup_insert_eq, Ht. split; intros [= ->]; done.
  - apply Hi.
  - apply Hi.
  - intros u n. destruct (decide (u = t)) as [->|]; [rewrite lookup_insert_eq; by intros [= ->]|].
    rewrite lookup_insert_ne by done. apply (dv_wait _ Hi).
  - intros d u. rewrite (dv_listen _ Hi). unfold waits. rewrite Hc. destruct (decide (u = t)) as [->|]; [|by rewrite lookup_insert_ne].
    rewrite lookup_insert_eq, Ht. by destruct c, c'.
  - intros u c0. destruct (decide (u = t)) as [->|]; [|rewrite lookup_insert_ne by done; apply (dv_ready _ Hi)].
    intros _ _. by apply (dv_ready _ Hi t c).
  - intros u. destruct (decide (u = t)) as [->|]; [|rewrite lookup_insert_ne by done; apply (dv_refused _ Hi)].
    rewrite lookup_insert_eq. by intros [= ->].
Qed.

(** *** Entering the dependency gate *)

Lemma occ_filter_unsettled s t d :
  occ d (unsettled_deps s t) = if decide (d ∈ settled s) then 0%nat else occ d (deps_of t).
Proof.
  unfold unsettled_deps, occ. generalize (deps_of t) as l. induction l as [|x l IH]; [by case_decide|].
  rewrite !filter_cons. destruct (decide (x ∉ settled s)); rewrite ?filter_cons; destruct (decide (x = d)) as [->|];
    cbn [length]; rewrite ?IH; case_decide; done.
Qed.

Lemma register_occ l ls d u t :
  occ u (default [] (foldl (λ ls d, <[d := default [] (ls !! d) ++ [t]]> ls) ls l !! d))
  = (occ u (default [] ((ls : gmap jsstr (list jsstr)) !! d)) + if decide (u = t) then occ d l else 0)%nat.
Proof.
  revert ls. induction l as [|x l IH]; intros ls; cbn [foldl]; [unfold occ at 3; cbn; case_decide; lia|].
  rewrite IH. destruct (decide (x = d)) as [->|Hne].
  - rewrite lookup_insert_eq. cbn [default]. unfold from_option, id. rewrite occ_app, !occ_cons.
    unfold occ at 2. cbn. repeat case_decide; subst; try done; lia.
  - rewrite lookup_insert_ne by done. rewrite occ_cons, (decide_False (P := x = d)) by done. done.
Qed.

Lemma dep_inv_gate t s :
  dep_inv s → ctls s !! t = Some c_new → deps_settled s t →
  dep_inv (set_ctl t (c_deps (negb (some_failed s (deps_of t)))) s).
Proof.
  intros Hi Ht Hds. constructor; unfold unsettled_deps; cbn [ctls set_ctl settled completed failed listeners].
  - intros u. destruct (decide (u = t)) as [->|]; [rewrite lookup_insert_eq|rewrite lookup_insert_ne by done; apply Hi].
    rewrite <- (dv_dom _ Hi), Ht. by split; eauto.
  - intros u. rewrite (dv_settled _ Hi). destruct (decide (u = t)) as [->|]; [|by rewrite lookup_insert_ne].
    rewrite lookup_insert_eq, Ht. done.
  - apply Hi.
  - apply Hi.
  - intros u n. destruct (decide (u = t)) as [->|]; [by rewrite lookup_insert_eq|].
    rewrite lookup_insert_ne by done. apply (dv_wait _ Hi).
  - intros d u. rewrite (dv_listen _ Hi). unfold waits. cbn [ctls set_ctl].
    destruct (decide (u = t)) as [->|]; [|by rewrite lookup_insert_ne]. by rewrite lookup_insert_eq, Ht.
  - intros u c. destruct (decide (u = t)) as [->|]; [|rewrite lookup_insert_ne by done; apply (dv_ready _ Hi)].
    rewrite lookup_insert_eq. intros [= <-] Hr. split; [done|]. apply existsb_failed. unfold some_failed in Hr.
    by destruct (existsb _ _).
  - intros u. destruct (decide (u = t)) as [->|]; [|rewrite lookup_insert_ne by done; apply (dv_refused _ Hi)].
    rewrite lookup_insert_eq. intros [= Hr]. split; [done|]. rewrite <- existsb_failed. unfold some_failed in Hr.
    cbn [failed set_ctl]. by destruct (existsb _ _).
Qed.

Lemma dep_inv_wait t s :
  dep_inv s → ctls s !! t = Some c_new → unsettled_deps s t ≠ [] →
  dep_inv (set_ctl t (c_waiting (length (unsettled_deps s t)))
    (set_listeners (foldl (λ ls d, <[d := default [] (ls !! d) ++ [t]]> ls) (listeners s) (unsettled_deps s t)) s)).
Proof.
  intros Hi Ht Hne. set (n := length (unsettled_deps s t)).
  assert (0 < n)%nat as Hn by (unfold n; destruct (unsettled_deps s t); [done|cbn; lia]).
  constructor; unfold unsettled_deps; cbn [ctls set_ctl settled completed failed listeners set_listeners].
  - intros u. destruct (decide (u = t)) as [->|]; [rewrite lookup_insert_eq|rewrite lookup_insert_ne by done; apply Hi].
    rewrite <- (dv_dom _ Hi), Ht. by split; eauto.
  - intros u. rewrite (dv_settled _ Hi). destruct (decide (u = t)) as [->|]; [|by rewrite lookup_insert_ne].
    rewrite lookup_insert_eq, Ht. done.
  - apply Hi.
  - apply Hi.
  - intros u k. destruct (decide (u = t)) as [->|]; [rewrite lookup_insert_eq; by intros [= <-]|].
    rewrite lookup_insert_ne by done. apply (dv_wait _ Hi).
  - intros d u. fold (unsettled_deps s t). rewrite register_occ, (dv_listen _ Hi), occ_filter_unsettled. unfold waits.
    cbn [ctls set_ctl]. destruct (decide (u = t)) as [->|]; [|rewrite lookup_insert_ne by done; apply Nat.add_0_r].
    rewrite lookup_insert_eq, Ht. by case_decide.
  - intros u c. destruct (decide (u = t)) as [->|]; [rewrite lookup_insert_eq; by intros [= <-]|].
    rewrite lookup_insert_ne by done; apply (dv_ready _ Hi).
  - intros u. destruct (decide (u = t)) as [->|]; [by rewrite lookup_insert_eq|].
    rewrite lookup_insert_ne by done; apply (dv_refused _ Hi).
Qed.

Lemma wait_cases t s :
  deps_settled s t ∧ waitForDependencies tasks t s = set_ctl t (c_deps (negb (some_failed s (deps_of t)))) s
  ∨ unsettled_deps s t ≠ [] ∧ waitForDependencies tasks t s
    = set_ctl t (c_waiting (length (unsettled_deps s t)))
      (set_listeners (foldl (λ ls d, <[d := default [] (ls !! d) ++ [t]]> ls) (listeners s) (unsettled_deps s t)) s).
Proof.
  unfold waitForDependencies, deps_settled, unsettled_deps. destruct (deps_of t) as [|d ds] eqn:Ed.
  { left. split; [by intros d ?%not_elem_of_nil|done]. }
  destruct (filter (λ d, d ∉ settled s) (d :: ds)) as [|x l] eqn:Eu; [left|by right].
  split; [|done]. intros y Hy. destruct (decide (y ∈ settled s)); [done|].
  assert (y ∈ filter (λ d, d ∉ settled s) (d :: ds)) as Hin by (by apply list_elem_of_filter).
  rewrite Eu in Hin. by apply not_elem_of_nil in Hin.
Qed.

(** *** Slots *)

Definition slot_count (m : gmap jsstr ctl) : Z := zlen (filter (λ t, from_option holds_slot false (m !! t) = true) ids).

Definition slot (c : ctl) : Z := if holds_slot c then 1 else 0.

Lemma slot_count_ext m1 m2 :
  (∀ u, from_option holds_slot false (m1 !! u) = from_option holds_slot false (m2 !! u)) →
  slot_count m1 = slot_count m2.
Proof. intros H. unfold slot_count. f_equal. apply list_filter_iff. intros u. by rewrite H. Qed.

Lemma slot_count_insert m t c0 c :
  NoDup ids → t ∈ ids → m !! t = Some c0 → slot_count (<[t := c]> m) = slot_count m - slot c0 + slot c.
Proof.
  unfold slot_count. generalize ids as l. intros l Hnd Hin Hm. induction l as [|u l IH]; [by apply not_elem_of_nil in Hin|].
  apply NoDup_cons in Hnd as [Hu Hnd]. rewrite !filter_cons. destruct (decide (u = t)) as [->|Hne].
  - rewrite lookup_insert_eq, Hm. cbn [from_option].
    assert (filter (λ u, from_option holds_slot false (<[t := c]> m !! u) = true) l
            = filter (λ u, from_option holds_slot false (m !! u) = true) l) as ->.
    { clear IH Hin. induction l as [|v l IH]; [done|]. apply not_elem_of_cons in Hu as [Hv Hu].
      apply NoDup_cons in Hnd as [_ Hnd]. rewrite !filter_cons, lookup_insert_ne, IH by done. done. }
    unfold slot. repeat case_decide; destruct (holds_slot c0), (holds_slot c); try done; rewrite ?zlen_cons; lia.
  - rewrite lookup_insert_ne by done. apply elem_of_cons in Hin as [->|Hin]; [done|].
    case_decide; rewrite ?zlen_cons, IH by done; lia.
Qed.

Record slot_inv (d : Z) (s : sched) : Prop := {
  sv_nodup : NoDup (waiters s);
  sv_waiters : ∀ t, t ∈ waiters s ↔ ctls s !! t = Some c_queued;
  sv_count : runningCount s + releases s = slot_count (ctls s) + d;
  sv_rel : 0 <= releases s;
  sv_max : runningCount s <= maxConcurrency tasks maxOption;
  sv_queue : d = 0 → waiters s ≠ [] → 0 < slot_count (ctls s) }.

(** A change of the controls that moves no queued task and no slot. *)
Lemma slot_inv_same d s s' :
  slot_inv d s → waiters s' = waiters s → runningCount s' = runningCount s → releases s' = releases s →
  (∀ u, from_option holds_slot false (ctls s' !! u) = from_option holds_slot false (ctls s !! u)) →
  (∀ u, ctls s' !! u = Some c_queued ↔ ctls s !! u = Some c_queued) → slot_inv d s'.
Proof.
  intros [] Hw Hr Hrel Hh Hq. pose proof (slot_count_ext _ _ Hh) as Hc.
  constructor; rewrite ?Hw, ?Hr, ?Hrel, ?Hc; try done. intros t. rewrite Hq. done.
Qed.

Lemma slot_inv_set d s t c0 c :
  slot_inv d s → ctls s !! t = Some c0 → slot c0 = slot c → c0 ≠ c_queued → c ≠ c_queued → slot_inv d (set_ctl t c s).
Proof.
  intros Hi Ht Hs H0 H1. eapply slot_inv_same; [exact Hi|done|done|done|..]; intros u; cbn [ctls set_ctl];
    (destruct (decide (u = t)) as [->|]; [rewrite lookup_insert_eq, Ht|by rewrite lookup_insert_ne]).
  - unfold slot in Hs. cbn. by destruct (holds_slot c0), (holds_slot c).
  - split; intros [= ?]; done.
Qed.

Lemma slot_settle ok t s c :
  NoDup ids → dep_inv s → slot_inv 0 s → t ∈ ids → ctls s !! t = Some c → plain c → c ≠ c_queued →
  slot_inv (slot c) (settle ok t s).
Proof.
  intros Hnd Hi Hs Hid Ht Hp Hq. destruct (settle_fields ok t s) as (_ & _ & _ & _ & Hr & Hw & Hrel & _).
  pose proof (λ u, settle_ctls ok t s c u Hi Ht Hp) as Hc.
  assert (slot_count (ctls (settle ok t s)) = slot_count (ctls s) - slot c) as Hcount.
  { transitivity (slot_count (<[t := c_done]> (ctls s))).
    - apply slot_count_ext. intros u. rewrite Hc. destruct (decide (u = t)) as [->|]; [by rewrite lookup_insert_eq|].
      rewrite lookup_insert_ne by done. destruct (ctls s !! u) as [[]|]; cbn; try done; repeat (case_decide; try done).
    - rewrite (slot_count_insert _ _ c) by done. unfold slot at 2. cbn. lia. }
  destruct Hs as [H1 H2 H3 H4 H5 H6]. constructor; rewrite ?Hw, ?Hr, ?Hrel, ?Hcount; try done; try lia.
  - intros u. rewrite H2, Hc. destruct (decide (u = t)) as [->|]; [rewrite Ht; split; congruence|].
    destruct (ctls s !! u) as [[]|]; cbn; try done; repeat (case_decide; try done).
Qed.

Lemma slot_inv_acquire t s :
  NoDup ids → slot_inv 0 s → t ∈ ids → ctls s !! t = Some (c_deps true) → slot_inv 0 (acquire tasks maxOption t s).
Proof.
  intros Hnd [H1 H2 H3 H4 H5 H6] Hid Ht. unfold acquire.
  pose proof (slot_count_insert (ctls s) t (c_deps true)) as Hins. unfold slot at 1 in Hins. cbn in Hins.
  assert (1 <= maxConcurrency tasks maxOption) as Hmax by (unfold maxConcurrency; lia).
  assert (t ∉ waiters s) as Htw by (rewrite H2; congruence).
  destruct (runningCount s <? maxConcurrency tasks maxOption) eqn:E; bool_prop;
    constructor; cbn [set_ctl set_slots waiters ctls runningCount releases]; try done; try lia.
  - intros u. rewrite H2. destruct (decide (u = t)) as [->|]; [rewrite lookup_insert_eq; split; congruence|by rewrite lookup_insert_ne].
  - rewrite Hins by done. unfold slot. cbn. lia.
  - intros _ Hne. rewrite Hins by done. unfold slot. cbn. specialize (H6 eq_refl Hne). lia.
  - apply NoDup_app. split; [done|]. split; [by intros x Hx ->%list_elem_of_singleton|apply NoDup_singleton].
  - intros u. rewrite elem_of_app, list_elem_of_singleton, H2.
    destruct (decide (u = t)) as [->|]; [rewrite lookup_insert_eq; tauto|rewrite lookup_insert_ne by done; tauto].
  - rewrite Hins by done. unfold slot. cbn. lia.
  - intros _ _. rewrite Hins by done. unfold slot. cbn. lia.
Qed.

(** The [finally] block without [settled.add]. *)
Definition release_slot (s : sched) : sched := release (set_slots (runningCount s - 1) (waiters s) s).

Lemma slot_inv_release s :
  NoDup ids → dep_inv s → slot_inv 1 s → slot_inv 0 (release_slot s).
Proof.
  intros Hnd Hi [H1 H2 H3 H4 H5 _]. unfold release_slot, release. cbn [waiters runningCount set_slots count_release].
  destruct (waiters s) as [|next ws] eqn:Ew.
  - constructor; cbn [waiters runningCount set_slots count_release ctls releases]; try done; try lia.
  - assert (ctls s !! next = Some c_queued) as Hn by (apply H2; left).
    assert (next ∈ ids) as Hin by (rewrite <- (dv_dom _ Hi), Hn; eauto).
    apply NoDup_cons in H1 as [Hnw H1].
    pose proof (slot_count_insert (ctls s) next c_queued c_slot Hnd Hin Hn) as Hc. unfold slot in Hc. cbn in Hc.
    constructor; cbn [waiters runningCount set_slots count_release ctls releases set_ctl]; try done; try lia.
    + intros u. specialize (H2 u). rewrite elem_of_cons in H2. destruct (decide (u = next)) as [->|].
      * rewrite lookup_insert_eq. split; [done|congruence].
      * rewrite lookup_insert_ne by done. tauto.
    + intros _ _. assert (0 <= slot_count (ctls s)) by apply zlen_nonneg. lia.
Qed.

Lemma dep_inv_release s : dep_inv s → slot_inv 1 s → dep_inv (release_slot s).
Proof.
  intros Hi Hs. unfold release_slot, release. cbn [waiters runningCount set_slots count_release].
  destruct (waiters s) as [|next ws] eqn:Ew; [by destruct Hi; constructor|].
  assert (ctls s !! next = Some c_queued) as Hn by (apply (sv_waiters _ _ Hs); rewrite Ew; left).
  by eapply (dep_inv_ready s next c_queued c_slot).
Qed.

(** Giving back the slot and waking the dependents commute. *)
Lemma release_notify t s :
  (∀ u, u ∈ waiters s → ctls s !! u = Some c_queued) →
  notify tasks t (add_settled t (release_slot s)) = release_slot (notify tasks t (add_settled t s)).
Proof.
  intros Hw. unfold release_slot, release. rewrite !notify_eq. cbn.
  destruct (waiters s) as [|next ws] eqn:Ew; [done|]. cbn. rewrite cb1_insert; [done|done|].
  intros n. rewrite Hw by left. done.
Qed.

(** *** Events *)

Definition started (s : sched) : list jsstr :=
  omap (λ e, match e with ev_started t => Some t | ev_skipped _ _ => None end) (events s).

Lemma started_skip t e s : started (emit (ev_skipped t e) s) = started s.
Proof. unfold started, emit. cbn [events]. rewrite omap_app. apply app_nil_r. Qed.

Lemma started_start t s : started (emit (ev_started t) s) = started s ++ [t].
Proof. unfold started, emit. cbn [events]. by rewrite omap_app. Qed.

Record ev_inv (s : sched) : Prop := {
  ei_nodup : NoDup (started s);
  ei_started : ∀ t, t ∈ started s →
    (ctls s !! t = Some c_executing ∨ ctls s !! t = Some c_done) ∧ ∀ d, d ∈ deps_of t → d ∈ completed s;
  ei_exec : ∀ t, ctls s !! t = Some c_executing → t ∈ started s;
  ei_completed : ∀ t, t ∈ completed s → t ∈ started s }.

Lemma ev_inv_mono s s' :
  ev_inv s → started s' = started s → completed s ⊆ completed s' →
  (∀ t, t ∈ completed s' → t ∈ completed s ∨ ctls s !! t = Some c_executing) →
  (∀ t, ctls s !! t = Some c_executing → ctls s' !! t = Some c_executing ∨ ctls s' !! t = Some c_done) →
  (∀ t, ctls s !! t = Some c_done → ctls s' !! t = Some c_done) →
  (∀ t, ctls s' !! t = Some c_executing → ctls s !! t = Some c_executing) → ev_inv s'.
Proof.
  intros [H1 H2 H3 H4] Hst Hco Hco' Hex Hdo Hex'. constructor; rewrite ?Hst; [done|..].
  - intros t Ht. destruct (H2 t Ht) as [[Hc|Hc] Hd]; split; auto.
  - intros t Ht. by apply H3, Hex'.
  - intros t [Ht|Ht]%Hco'; auto.
Qed.

(** *** Every step *)

Record full_inv (s : sched) : Prop := { fi_dep : dep_inv s; fi_slot : slot_inv 0 s; fi_ev : ev_inv s }.

Definition weight (c : ctl) : Z :=
  match c with c_new => 6 | c_waiting _ => 5 | c_deps _ => 4 | c_queued => 3 | c_slot => 2 | c_executing => 1 | c_done => 0 end.
Definition wt (c : option ctl) : Z := from_option weight 0 c.

Definition total (s : sched) : Z := foldr (λ t n, wt (ctls s !! t) + n) 0 ids.

Lemma wt_nonneg c : 0 <= wt c.
Proof. destruct c as [[]|]; cbn; lia. Qed.

Lemma total_nonneg s : 0 <= total s.
Proof. unfold total. induction ids as [|t l IH]; cbn; [lia|]. pose proof (wt_nonneg (ctls s !! t)). lia. Qed.

Lemma total_lt s s' t :
  (∀ u, wt (ctls s' !! u) <= wt (ctls s !! u)) → t ∈ ids → wt (ctls s' !! t) < wt (ctls s !! t) → total s' < total s.
Proof.
  intros Hle Hin Hlt. unfold total. revert Hin. generalize ids as l. intros l Hin.
  assert (∀ l, foldr (λ t n, wt (ctls s' !! t) + n) 0 l <= foldr (λ t n, wt (ctls s !! t) + n) 0 l) as Hall.
  { clear l Hin. induction l as [|u l IH]; cbn; [lia|]. specialize (Hle u). lia. }
  induction l as [|u l IH]; [by apply not_elem_of_nil in Hin|]. cbn. specialize (Hall l).
  apply elem_of_cons in Hin as [->|Hin]; [lia|]. specialize (IH Hin). specialize (Hle u). lia.
Qed.

(** A step reaches an invariant state and makes progress. *)
Definition advances (t : jsstr) (s s' : sched) : Prop :=
  (∀ u, wt (ctls s' !! u) <= wt (ctls s !! u)) ∧ wt (ctls s' !! t) < wt (ctls s !! t).

Lemma advances_set t c c0 s s' :
  ctls s !! t = Some c0 → weight c < weight c0 → ctls s' = <[t := c]> (ctls s) → advances t s s'.
Proof.
  intros Ht Hw Hc. unfold advances. rewrite Hc. split; [|by rewrite lookup_insert_eq, Ht].
  intros u. destruct (decide (u = t)) as [->|]; [rewrite lookup_insert_eq, Ht; cbn; lia|by rewrite lookup_insert_ne].
Qed.

Lemma settle_ev ok t s c :
  ev_inv s → dep_inv s → ctls s !! t = Some c → plain c → (ok = true → c = c_executing) → ev_inv (settle ok t s).
Proof.
  intros He Hi Ht Hp Hok. pose proof (λ u, settle_ctls ok t s c u Hi Ht Hp) as Hc.
  destruct (settle_fields ok t s) as (_ & Hco & _ & _ & _ & _ & _ & Hev & _).
  apply (ev_inv_mono s); [done|unfold started; by rewrite Hev|rewrite Hco; destruct ok; set_solver| | | |].
  - intros u. rewrite Hco. destruct ok; [|by left]. intros [->%elem_of_singleton|]%elem_of_union; [|by left].
    right. by rewrite Ht, Hok.
  - intros u Hu. rewrite Hc. case_decide; [by right|]. rewrite Hu. cbn. left. by case_decide.
  - intros u Hu. rewrite Hc. case_decide; [done|]. rewrite Hu. cbn. by case_decide.
  - intros u. rewrite Hc. case_decide; [done|]. destruct (ctls s !! u) as [[]|]; cbn; try done; repeat (case_decide; try done).
Qed.

Lemma settle_advances ok t s c : dep_inv s → ctls s !! t = Some c → plain c → advances t s (settle ok t s).
Proof.
  intros Hi Ht Hp. pose proof (λ u, settle_ctls ok t s c u Hi Ht Hp) as Hc. split.
  - intros u. rewrite Hc. destruct (decide (u = t)) as [->|]; [rewrite Ht; destruct c; cbn; lia|].
    destruct (ctls s !! u) as [[]|]; cbn; repeat case_decide; cbn; lia.
  - rewrite Hc, decide_True, Ht by done. destruct Hp as [Hd _]. destruct c; cbn; try lia. done.
Qed.

(** Settling a task that holds no slot. *)
Lemma settle_step ok t s c e :
  NoDup ids → full_inv s → ctls s !! t = Some c → plain c → slot c = 0 → c ≠ c_queued → ok = false →
  full_inv (emit (ev_skipped t e) (settle ok t s)) ∧ advances t s (settle ok t s).
Proof.
  intros Hnd [Hd Hs He] Ht Hp Hsl Hq ->. assert (t ∈ ids) as Hid by (rewrite <- (dv_dom _ Hd), Ht; eauto).
  split; [|by eapply settle_advances].
  pose proof (dep_inv_settle false t s c Hd Hid Ht Hp) as Hd'.
  pose proof (slot_settle false t s c Hnd Hd Hs Hid Ht Hp Hq) as Hs'. rewrite Hsl in Hs'.
  assert (ev_inv (settle false t s)) as He' by by eapply settle_ev.
  constructor.
  - by destruct Hd'; constructor.
  - by destruct Hs'; constructor.
  - apply (ev_inv_mono (settle false t s)); try done; auto. apply started_skip.
Qed.

Lemma release_fields s :
  completed (release_slot s) = completed s ∧ settled (release_slot s) = settled s ∧ events (release_slot s) = events s
  ∧ aborted (release_slot s) = aborted s
  ∧ ∀ u, ctls (release_slot s) !! u = match waiters s with
                                      | next :: _ => if decide (u = next) then Some c_slot else ctls s !! u
                                      | [] => ctls s !! u
                                      end.
Proof.
  unfold release_slot, release. cbn. destruct (waiters s); cbn; [done|]. split_and!; try done.
  intros u. case_decide; [subst; by rewrite lookup_insert_eq|by rewrite lookup_insert_ne].
Qed.

(** Settling a task that holds a slot, then giving the slot back. *)
Lemma settle_release_step ok t s c :
  NoDup ids → full_inv s → ctls s !! t = Some c → plain c → slot c = 1 → (ok = true → c = c_executing) →
  full_inv (release_slot (settle ok t s)) ∧ advances t s (release_slot (settle ok t s)).
Proof.
  intros Hnd [Hd Hs He] Ht Hp Hsl Hok. assert (t ∈ ids) as Hid by (rewrite <- (dv_dom _ Hd), Ht; eauto).
  assert (c ≠ c_queued) as Hq by (intros ->; done).
  pose proof (dep_inv_settle ok t s c Hd Hid Ht Hp) as Hd'.
  pose proof (slot_settle ok t s c Hnd Hd Hs Hid Ht Hp Hq) as Hs'. rewrite Hsl in Hs'.
  pose proof (settle_ev ok t s c He Hd Ht Hp Hok) as He'.
  pose proof (settle_advances ok t s c Hd Ht Hp) as [Ha1 Ha2].
  set (s1 := settle ok t s) in *. clearbody s1.
  destruct (release_fields s1) as (Hco & _ & Hev & _ & Hct).
  assert (∀ u, u ∈ waiters s1 → ctls s1 !! u = Some c_queued) as Hw by (intros u; apply (sv_waiters _ _ Hs')).
  split; [constructor|].
  - by apply dep_inv_release.
  - by apply slot_inv_release.
  - apply (ev_inv_mono s1); [done|unfold started; by rewrite Hev|by rewrite Hco|rewrite Hco; by left| | |].
    all: intros u; rewrite Hct; destruct (waiters s1) as [|next ws]; auto; case_decide; auto; subst; rewrite Hw by left; done.
  - assert (∀ u, wt (ctls (release_slot s1) !! u) <= wt (ctls s1 !! u)) as Hle.
    { intros u. rewrite Hct. destruct (waiters s1) as [|next ws]; [done|]. case_decide; [|done]. subst. rewrite Hw by left. cbn. lia. }
    split; [intros u; specialize (Ha1 u); specialize (Hle u); lia|]. specialize (Hle t). lia.
Qed.

Lemma add_settled_id t s : t ∈ settled s → add_settled t s = s.
Proof. intros Ht. destruct s; unfold add_settled; cbn in *. f_equal. set_solver. Qed.

Lemma emit_full s t e : full_inv s → full_inv (emit (ev_skipped t e) s).
Proof.
  intros [Hd Hs He]. constructor; [by destruct Hd; constructor|by destruct Hs; constructor|].
  apply (ev_inv_mono s); try done; auto. apply started_skip.
Qed.

Lemma advances_emit t s e s' : advances t s s' → advances t s (emit e s').
Proof. done. Qed.

(** The task a label is about. *)
Definition label_task (l : label) : option jsstr :=
  match l with l_start t | l_deps t | l_slot t | l_finish t _ => Some t | l_abort => None end.

Lemma finally_eq t s : finally t s = add_settled t (release_slot s).
Proof. done. Qed.

Lemma skip_eq t e s : skip tasks t e (set_ctl t c_done s) = emit (ev_skipped t e) (settle false t s).
Proof. done. Qed.

Lemma release_emit t e s : release_slot (emit (ev_skipped t e) s) = emit (ev_skipped t e) (release_slot s).
Proof. unfold release_slot, release. cbn. by destruct (waiters s). Qed.

Lemma finish_eq t (X : sched) e :
  (∀ u, u ∈ waiters X → ctls X !! u = Some c_queued) →
  notify tasks t (finally t (emit e X)) = emit e (release_slot (notify tasks t (add_settled t X))).
Proof.
  intros Hw. change (finally t (emit e X)) with (add_settled t (release_slot (emit e X))).
  rewrite release_notify by exact Hw. rewrite !notify_eq. unfold release_slot, release. cbn. by destruct (waiters X).
Qed.

Lemma step_full l s s' :
  NoDup ids → full_inv s → step tasks maxOption l s = Some s' →
  full_inv s' ∧ match label_task l with Some t => t ∈ ids ∧ advances t s s' | None => total s' = total s end.
Proof.
  intros Hnd Hf Hstep. destruct Hf as [Hd Hs He] eqn:Ef.
  assert (∀ t c, ctls s !! t = Some c → t ∈ ids) as Hid by (intros t c Ht; rewrite <- (dv_dom _ Hd), Ht; eauto).
  destruct l as [t|t|t|t o|]; cbn [step label_task] in *.
  - destruct (ctls s !! t) as [[]|] eqn:Ht; try discriminate. destruct (aborted s); injection Hstep as <-.
    + destruct (settle_step false t s c_new cancelled_reason Hnd Hf Ht) as [H1 H2]; try done.
      split; [exact H1|]. split; [eauto|apply advances_emit; exact H2].
    + destruct (wait_cases t s) as [[Hds ->]|[Hne ->]].
      * split; [constructor|].
        -- by apply dep_inv_gate.
        -- by eapply slot_inv_set.
        -- apply (ev_inv_mono s); try done; auto; intros u; cbn [ctls set_ctl];
             (destruct (decide (u = t)) as [->|]; [rewrite lookup_insert_eq, ?Ht|rewrite lookup_insert_ne by done]); auto; done.
        -- split; [eauto|]. eapply (advances_set t _ c_new); [done| |done]. done.
      * split; [constructor|].
        -- by apply dep_inv_wait.
        -- eapply slot_inv_set; [|exact Ht|done..]. by destruct Hs; constructor.
        -- apply (ev_inv_mono s); try done; auto; intros u; cbn [ctls set_ctl set_listeners];
             (destruct (decide (u = t)) as [->|]; [rewrite lookup_insert_eq, ?Ht|rewrite lookup_insert_ne by done]); auto; done.
        -- split; [eauto|]. eapply (advances_set t _ c_new); [done| |done]. done.
  - destruct (ctls s !! t) as [[| |[]| | | |]|] eqn:Ht; try discriminate; injection Hstep as <-.
    + assert (∃ c, c ≠ c_executing ∧ ready c = true ∧ weight c < 4 ∧ ctls (acquire tasks maxOption t s) = <[t := c]> (ctls s))
        as (c & Hce & Hrc & Hwc & Hc) by (unfold acquire; case_match; [exists c_slot|exists c_queued]; by split_and!).
      assert (completed (acquire tasks maxOption t s) = completed s ∧ failed (acquire tasks maxOption t s) = failed s
        ∧ settled (acquire tasks maxOption t s) = settled s ∧ listeners (acquire tasks maxOption t s) = listeners s
        ∧ events (acquire tasks maxOption t s) = events s) as (H1 & H2 & H3 & H4 & H5) by (unfold acquire; by case_match).
      split; [constructor|].
      * by eapply (dep_inv_ready s t _ c).
      * apply slot_inv_acquire; eauto.
      * apply (ev_inv_mono s); [done|unfold started; by rewrite H5|by rewrite H1|rewrite H1; by left| | |];
          intros u; rewrite Hc; (destruct (decide (u = t)) as [->|]; [rewrite lookup_insert_eq, ?Ht|rewrite lookup_insert_ne by done]);
          auto; try done. by intros [= ->].
      * split; [eauto|]. by eapply advances_set.
    + destruct (settle_step false t s (c_deps false) (default (js "upstream") (head (filter (λ d, d ∈ failed s) (deps_of t)))) Hnd Hf Ht)
        as [H1 H2]; try done. split; [exact H1|]. split; [eauto|apply advances_emit; exact H2].
  - destruct (ctls s !! t) as [[]|] eqn:Ht; try discriminate. destruct (aborted s); injection Hstep as <-.
    + destruct (settle_release_step false t s c_slot Hnd Hf Ht) as [H1 H2]; try done.
      rewrite skip_eq, finally_eq, release_emit.
      rewrite add_settled_id.
      2: { cbn. rewrite (proj1 (proj2 (release_fields _))), (proj1 (settle_fields _ _ _)). set_solver. }
      split; [by apply emit_full|]. split; [eauto|apply advances_emit; exact H2].
    + split; [constructor|].
      * by eapply (dep_inv_ready s t c_slot c_executing).
      * eapply slot_inv_set; [|exact Ht|done..]. by destruct Hs; constructor.
      * destruct He as [E1 E2 E3 E4]. assert (t ∉ started s) as Hns by (intros [[Hx|Hx] _]%E2; congruence).
        destruct (dv_ready _ Hd t c_slot Ht eq_refl) as [Hds Hdf].
        constructor; change (started (set_ctl t c_executing (emit (ev_started t) s))) with (started (emit (ev_started t) s));
          rewrite started_start; cbn [ctls set_ctl emit completed].
        -- apply NoDup_app. split; [done|]. split; [by intros x Hx ->%list_elem_of_singleton|apply NoDup_singleton].
        -- intros u [Hu| ->%list_elem_of_singleton]%elem_of_app.
           ++ destruct (decide (u = t)) as [->|]; [done|]. rewrite lookup_insert_ne by done. by apply E2.
           ++ rewrite lookup_insert_eq. split; [by left|]. intros d Hdd. specialize (Hds d Hdd). specialize (Hdf d Hdd).
              rewrite (dv_union _ Hd) in Hds. by destruct Hds.
        -- intros u. rewrite elem_of_app, list_elem_of_singleton. destruct (decide (u = t)) as [->|]; [by right|].
           rewrite lookup_insert_ne by done. left. by apply E3.
        -- intros u Hu. apply elem_of_app. left. by apply E4.
      * split; [eauto|]. by apply (advances_set t c_executing c_slot).
  - destruct (ctls s !! t) as [[]|] eqn:Ht; try discriminate. injection Hstep as <-.
    set (ok := match o with o_completed => true | _ => false end).
    destruct (settle_release_step ok t s c_executing Hnd Hf Ht) as [H1 H2]; try done.
    assert (∀ u, u ∈ waiters s → ctls (set_ctl t c_done s) !! u = Some c_queued) as Hw.
    { intros u Hu. apply (sv_waiters _ _ Hs) in Hu. cbn. rewrite lookup_insert_ne; [done|]. intros ->. congruence. }
    destruct o as [| |msg]; cbn [ok] in *.
    + rewrite finally_eq, release_notify by exact Hw. split; [exact H1|]. split; [eauto|exact H2].
    + rewrite finally_eq, release_notify by exact Hw. split; [exact H1|]. split; [eauto|exact H2].
    + rewrite finish_eq by exact Hw. split; [apply emit_full; exact H1|]. split; [eauto|apply advances_emit; exact H2].
  - injection Hstep as <-. split; [|done]. constructor; [by destruct Hd; constructor|by destruct Hs; constructor|].
    by destruct He; constructor.
Qed.

(** *** Runs *)

Lemma start_full signal : NoDup ids → full_inv (start_state tasks signal).
Proof.
  intros Hnd. assert (∀ t, ctls (start_state tasks signal) !! t = if decide (t ∈ ids) then Some c_new else None) as Hc.
  { intros t. cbn. case_decide as Hin.
    - apply elem_of_list_to_map_1; [rewrite <- list_fmap_compose; cbn; by rewrite list_fmap_id|].
      apply list_elem_of_fmap. by exists t.
    - apply not_elem_of_list_to_map_1. rewrite <- list_fmap_compose. cbn. by rewrite list_fmap_id. }
  assert (slot_count (ctls (start_state tasks signal)) = 0) as H0.
  { assert (∀ t, from_option holds_slot false (ctls (start_state tasks signal) !! t) = false) as Hn
      by (intros t; rewrite Hc; by case_decide).
    unfold slot_count. clear Hc Hnd. induction ids as [|t l IH]; [done|].
    rewrite filter_cons, decide_False by (rewrite Hn; done). exact IH. }
  constructor; constructor; try (cbn; set_solver).
  - intros t. rewrite Hc. case_decide; [by split; eauto|]. split; [by intros []|done].
  - intros t. rewrite Hc. split; [set_solver|by case_decide].
  - intros t n. rewrite Hc. by case_decide.
  - intros d u. unfold waits. rewrite Hc. cbn. rewrite lookup_empty, decide_False by set_solver. by case_decide.
  - intros t c. rewrite Hc. case_decide; [by intros [= <-]|done].
  - intros t. rewrite Hc. by case_decide.
  - constructor.
  - intros t. rewrite Hc. cbn. split; [by intros ?%not_elem_of_nil|by case_decide].
  - rewrite H0. done.
  - cbn. unfold maxConcurrency. lia.
  - constructor.
  - intros t. rewrite Hc. by case_decide.
Qed.

Lemma run_full ls s s' :
  NoDup ids → full_inv s → run tasks maxOption ls s = Some s' →
  full_inv s' ∧ zlen (filter (λ l, label_task l ≠ None) ls) + total s' <= total s.
Proof.
  intros Hnd. revert s. induction ls as [|l ls IH]; intros s Hf Hr; cbn [run] in Hr.
  { injection Hr as <-. split; [done|]. cbn. unfold zlen. cbn. lia. }
  destruct (step tasks maxOption l s) as [s1|] eqn:Es; [|done].
  destruct (step_full _ _ _ Hnd Hf Es) as [Hf1 Hadv]. destruct (IH s1 Hf1 Hr) as [Hf2 Ht2].
  split; [done|]. rewrite filter_cons. destruct (label_task l) as [t|] eqn:El.
  - rewrite decide_True by done. rewrite zlen_cons. destruct Hadv as (Hid & Ha1 & Ha2).
    pose proof (total_lt _ _ _ Ha1 Hid Ha2). lia.
  - rewrite decide_False by (intros Hx; by apply Hx). lia.
Qed.

(** ** The theorems *)

Lemma ids_names : ids = taskId <$> (run_task <$> tasks).
Proof. unfold Scheduler.ids. by rewrite <- list_fmap_compose. Qed.

Lemma deps_of_depends t d : d ∈ deps_of t → depends (run_task <$> tasks) t d.
Proof.
  unfold Scheduler.deps_of. destruct (filter _ tasks) as [|r l] eqn:E; [by intros ?%not_elem_of_nil|].
  intros Hd. assert (r ∈ filter (λ r, taskId (run_task r) = t) tasks) as Hr by (rewrite E; left).
  apply list_elem_of_filter in Hr as [<- Hr]. exists (run_task r). split; [by apply list_elem_of_fmap_2|done].
Qed.

(** The second validation of [runAiraScheduler] accepts a valid batch. *)
Lemma valid_starts signal s0 :
  valid_batch (run_task <$> tasks) → runAiraScheduler tasks signal = Some s0 → s0 = start_state tasks signal ∧ NoDup ids.
Proof.
  intros Hv Hs. unfold runAiraScheduler in Hs.
  set (assign := λ t, default [] (head (runId <$> filter (λ r, taskId (run_task r) = t) tasks))) in Hs.
  destruct (prepare_spec (run_task <$> tasks) assign) as (r & Hr & Hcase). rewrite Hr in Hs.
  destruct r as [prepared|e]; [|by destruct Hcase]. injection Hs as <-. split; [done|]. rewrite ids_names. apply Hv.
Qed.

(** C3. Dependencies order the run: under every interleaving of a valid batch a task is
    started at most once, only after each of its dependencies was itself started and
    completed, and never when one of them failed, was skipped or cancelled. *)
Theorem starts_follow_dependencies signal s0 ls s :
  valid_batch (run_task <$> tasks) → runAiraScheduler tasks signal = Some s0 →
  run tasks maxOption ls s0 = Some s →
  NoDup (started s)
  ∧ (∀ t d, t ∈ started s → d ∈ deps_of t → d ∈ completed s ∧ d ∈ started s)
  ∧ (∀ t d, d ∈ failed s → d ∈ deps_of t → t ∉ started s).
Proof.
  intros Hv Hs0 Hr. destruct (valid_starts _ _ Hv Hs0) as [-> Hnd].
  destruct (run_full _ _ _ Hnd (start_full signal Hnd) Hr) as [[Hd _ He] _]. split_and!.
  - apply He.
  - intros t d Ht Hdt. destruct (ei_started _ He t Ht) as [_ Hc]. split; [by apply Hc|]. by apply (ei_completed _ He), Hc.
  - intros t d Hf Hdt Ht. destruct (ei_started _ He t Ht) as [_ Hc]. by apply (dv_disj _ Hd d (Hc d Hdt)).
Qed.

Lemma total_start signal : total (start_state tasks signal) <= 6 * zlen tasks.
Proof.
  unfold total. assert (zlen ids = zlen tasks) as <- by (unfold zlen, Scheduler.ids; by rewrite length_fmap).
  induction ids as [|t l IH]; [done|]. rewrite zlen_cons. cbn [foldr].
  assert (wt (ctls (start_state tasks signal) !! t) <= 6); [|lia].
  destruct (ctls (start_state tasks signal) !! t) as [[]|]; cbn; lia.
Qed.

Lemma slot_count_pos m : 0 < slot_count m → ∃ t c, m !! t = Some c ∧ holds_slot c = true.
Proof.
  unfold slot_count. intros H. destruct (filter _ ids) as [|t l] eqn:E; [done|].
  assert (t ∈ filter (λ t, from_option holds_slot false (m !! t) = true) ids) as Hin by (rewrite E; left).
  apply list_elem_of_filter in Hin as [Hh _]. exists t. destruct (m !! t) as [c|]; [by exists c|done].
Qed.

(** When nothing is left to run, every task is settled. *)
Lemma stuck_settled s :
  valid_batch (run_task <$> tasks) → full_inv s →
  (∀ l t, label_task l = Some t → step tasks maxOption l s = None) → ∀ t, t ∈ ids → t ∈ settled s.
Proof.
  intros (_ & _ & Hknown & Hac) [Hd Hs He] Hstuck.
  assert (∀ t c, ctls s !! t = Some c → holds_slot c = false) as Hnoslot.
  { intros t c Ht. destruct c; try done; exfalso.
    - specialize (Hstuck (l_slot t) t eq_refl). cbn in Hstuck. rewrite Ht in Hstuck. by destruct (aborted s).
    - specialize (Hstuck (l_finish t o_completed) t eq_refl). cbn in Hstuck. by rewrite Ht in Hstuck. }
  intros t Hin. destruct (decide (t ∈ settled s)) as [|Hns]; [done|exfalso].
  apply (Hac (λ t, t ∈ ids ∧ t ∉ settled s)) with t; [|done]. clear t Hin Hns. intros t [Hin Hns].
  destruct (proj2 (dv_dom _ Hd t) Hin) as [c Hc]. destruct c as [|n|b| | | |].
  - specialize (Hstuck (l_start t) t eq_refl). cbn in Hstuck. rewrite Hc in Hstuck. by destruct (aborted s).
  - destruct (dv_wait _ Hd t n Hc) as [Hn1 Hn2]. destruct (unsettled_deps s t) as [|d l] eqn:Eu; [cbn in Hn1; lia|].
    assert (d ∈ unsettled_deps s t) as Hdin by (rewrite Eu; left). apply list_elem_of_filter in Hdin as [Hds Hdt].
    pose proof (deps_of_depends t d Hdt) as Hdep. exists d. split; [split; [|done]|done].
    destruct Hdep as (tk & Htk & _ & Hdk). rewrite ids_names. by destruct (Hknown tk d Htk Hdk).
  - specialize (Hstuck (l_deps t) t eq_refl). cbn in Hstuck. rewrite Hc in Hstuck. by destruct b.
  - assert (t ∈ waiters s) as Hw by (by apply (sv_waiters _ _ Hs)).
    assert (0 < slot_count (ctls s)) as Hpos.
    { apply (sv_queue _ _ Hs); [done|]. intros Hnil. rewrite Hnil in Hw. by apply not_elem_of_nil in Hw. }
    apply slot_count_pos in Hpos as (u & cu & Hu & Hh). by rewrite (Hnoslot u cu Hu) in Hh.
  - by specialize (Hnoslot t _ Hc).
  - by specialize (Hnoslot t _ Hc).
  - by rewrite (dv_settled _ Hd) in Hns.
Qed.

(** C5. No batch hangs: under every interleaving of a valid batch at most six
    continuations run per task, and when none is left to run (every executor has
    settled) every task of the batch is settled, as completed or as failed, never both. *)
Theorem scheduler_settles_every_task signal s0 ls s :
  valid_batch (run_task <$> tasks) → runAiraScheduler tasks signal = Some s0 →
  run tasks maxOption ls s0 = Some s →
  zlen (filter (λ l, label_task l ≠ None) ls) <= 6 * zlen tasks
  ∧ ((∀ l t, label_task l = Some t → step tasks maxOption l s = None) →
     ∀ t, t ∈ ids → t ∈ settled s ∧ (t ∈ completed s ∧ t ∉ failed s ∨ t ∈ failed s ∧ t ∉ completed s)).
Proof.
  intros Hv Hs0 Hr. destruct (valid_starts _ _ Hv Hs0) as [-> Hnd].
  destruct (run_full _ _ _ Hnd (start_full signal Hnd) Hr) as [Hf Ht]. split.
  - pose proof (total_nonneg s). pose proof (total_start signal). lia.
  - intros Hstuck t Hin. pose proof (stuck_settled s Hv Hf Hstuck t Hin) as Hset. split; [done|].
    pose proof (fi_dep _ Hf) as Hd. pose proof (proj1 (dv_union _ Hd t) Hset) as [Hc|Hc].
    + left. split; [done|]. by apply (dv_disj _ Hd).
    + right. split; [done|]. intros Hc'. by apply (dv_disj _ Hd t Hc').
Qed.

(** How far the concurrency limit is respected: the slots in use are always
    [runningCount] plus the number of slots given back so far, because giving one back
    decrements the counter twice.  So at most [maxConcurrency] tasks execute before the
    first one finishes, and every finished task weakens the limit by one. *)
Theorem concurrency_limit_drifts signal s0 ls s :
  valid_batch (run_task <$> tasks) → runAiraScheduler tasks signal = Some s0 →
  run tasks maxOption ls s0 = Some s →
  runningCount s + releases s = holders tasks s
  ∧ executing tasks s <= holders tasks s <= maxConcurrency tasks maxOption + releases s
  ∧ 0 <= releases s.
Proof.
  intros Hv Hs0 Hr. destruct (valid_starts _ _ Hv Hs0) as [-> Hnd].
  destruct (run_full _ _ _ Hnd (start_full signal Hnd) Hr) as [[_ Hs _] _].
  change (holders tasks s) with (slot_count (ctls s)). pose proof (sv_count _ _ Hs). pose proof (sv_max _ _ Hs).
  pose proof (sv_rel _ _ Hs). split_and!; try lia.
  unfold executing, slot_count. clear. induction ids as [|t l IH]; [done|]. rewrite !filter_cons.
  destruct (decide (ctls s !! t = Some c_executing)) as [Ht|Ht].
  - rewrite Ht, decide_True by done. rewrite !zlen_cons. lia.
  - case_decide; rewrite ?zlen_cons; lia.
Qed.

(** Cancellation is final: once the signal is aborted, no further task of any batch
    is started, whatever runs next. *)
Theorem abort_starts_nothing ls s s' :
  aborted s = true → run tasks maxOption ls s = Some s' → started s' = started s ∧ aborted s' = true.
Proof.
  revert s. induction ls as [|l ls IH]; intros s Ha Hr; cbn [run] in Hr; [by injection Hr as <-|].
  destruct (step tasks maxOption l s) as [s1|] eqn:Es; [|done].
  assert (aborted s1 = true ∧ started s1 = started s) as [Ha1 Hs1]; [|destruct (IH s1 Ha1 Hr) as [-> ?]; done].
  assert (∀ t r, aborted (skip tasks t r (set_ctl t c_done s)) = true ∧ started (skip tasks t r (set_ctl t c_done s)) = started s) as Hskip.
  { intros t r. rewrite skip_eq, started_skip. destruct (settle_fields false t s) as (_ & _ & _ & _ & _ & _ & _ & He & Hab).
    unfold started. rewrite He. by split; [cbn; rewrite Hab|]. }
  assert (∀ t s, aborted (finally t s) = aborted s ∧ started (finally t s) = started s) as Hfin.
  { intros t s2. rewrite finally_eq. destruct (release_fields s2) as (_ & _ & He & Hab & _). unfold started. cbn. by rewrite He, Hab. }
  destruct l as [t|t|t|t o|]; cbn [step] in Es.
  - destruct (ctls s !! t) as [[]|]; try done. rewrite Ha in Es. injection Es as <-. apply Hskip.
  - destruct (ctls s !! t) as [[| |[]| | | |]|]; try done; injection Es as <-; [|apply Hskip].
    unfold acquire. by case_match.
  - destruct (ctls s !! t) as [[]|]; try done. rewrite Ha in Es. injection Es as <-.
    destruct (Hfin t (skip tasks t cancelled_reason (set_ctl t c_done s))) as [-> ->]. apply Hskip.
  - destruct (ctls s !! t) as [[]|]; try done. injection Es as <-. rewrite notify_eq. cbn [aborted set_ctls set_listeners].
    match goal with |- context [finally t ?x] => destruct (Hfin t x) as [Hf1 Hf2]; set (y := finally t x) in *; 
      change (started (set_ctls _ _)) with (started y); rewrite Hf1, Hf2 end.
    destruct o; [done|done|]. rewrite started_skip. done.
  - by injection Es as <-.
Qed.

End Run.

(** ** The concurrency limit is exceeded *)

Definition task0 (name : string) (ds : list string) : AiraSchedulerRunTask :=
  {| run_task := {| taskId := js name; dependencies := js <$> ds; timeoutMs := None |}; runId := js name |}.

(** Two independent tasks, and one that depends on the first. *)
Definition batch0 : list AiraSchedulerRunTask := [task0 "a" []; task0 "b" []; task0 "c" ["a"%string]].

(** [a] runs and completes while [b] waits for the only slot; [b] gets the slot, and [c]
    gets another one. *)
Definition trace0 : list label :=
  [l_start (js "a"); l_start (js "b"); l_start (js "c"); l_deps (js "a"); l_deps (js "b"); l_slot (js "a");
   l_finish (js "a") o_completed; l_slot (js "b"); l_deps (js "c"); l_slot (js "c")].

Lemma batch0_valid : valid_batch (run_task <$> batch0).
Proof.
  destruct (prepare_spec (run_task <$> batch0) (λ t, t)) as (r & Hr & Hc). vm_compute in Hr. injection Hr as <-. apply Hc.
Qed.

(** The concurrency limit is not an invariant: with a limit of one, a valid batch of
    three tasks reaches a state in which two tasks execute at the same time. *)
Theorem concurrency_limit_exceeded :
  ∃ s0 s, runAiraScheduler batch0 false = Some s0 ∧ run batch0 1 trace0 s0 = Some s
  ∧ maxConcurrency batch0 1 = 1 ∧ executing batch0 s = 2.
Proof.
  destruct (runAiraScheduler batch0 false) as [s0|] eqn:E0; [|vm_compute in E0; discriminate].
  destruct (run batch0 1 trace0 s0) as [s|] eqn:E; [|vm_compute in E0; injection E0 as <-; vm_compute in E; discriminate].
  exists s0, s. split; [done|]. split; [done|]. split; [done|].
  vm_compute in E0. injection E0 as <-. vm_compute in E. injection E as <-. vm_compute. reflexivity.
Qed.

(** ** Witnesses *)

Definition final0 : list label := trace0 ++ [l_finish (js "b") o_completed; l_finish (js "c") o_failed].

Lemma starts_follow_dependencies_witness :
  ∃ s0 s, run batch0 1 final0 s0 = Some s ∧ started s = [js "a"; js "b"; js "c"] ∧ NoDup (started s).
Proof.
  destruct (runAiraScheduler batch0 false) as [s0|] eqn:E0; [|vm_compute in E0; discriminate].
  destruct (run batch0 1 final0 s0) as [s|] eqn:E; [|vm_compute in E0; injection E0 as <-; vm_compute in E; discriminate].
  exists s0, s. split; [done|]. split.
  - vm_compute in E0. injection E0 as <-. vm_compute in E. injection E as <-. vm_compute. reflexivity.
  - exact (proj1 (starts_follow_dependencies batch0 1 false s0 final0 s batch0_valid E0 E)).
Defined.

Lemma scheduler_settles_every_task_witness :
  ∃ s0 s, run batch0 1 final0 s0 = Some s ∧ zlen (filter (λ l, label_task l ≠ None) final0) <= 6 * zlen batch0.
Proof.
  destruct (runAiraScheduler batch0 false) as [s0|] eqn:E0; [|vm_compute in E0; discriminate].
  destruct (run batch0 1 final0 s0) as [s|] eqn:E; [|vm_compute in E0; injection E0 as <-; vm_compute in E; discriminate].
  exists s0, s. split; [done|]. exact (proj1 (scheduler_settles_every_task batch0 1 false s0 final0 s batch0_valid E0 E)).
Defined.

Lemma concurrency_limit_drifts_witness :
  ∃ s0 s, run batch0 1 trace0 s0 = Some s ∧ runningCount s + releases s = holders batch0 s ∧ holders batch0 s = 2.
Proof.
  destruct (runAiraScheduler batch0 false) as [s0|] eqn:E0; [|vm_compute in E0; discriminate].
  destruct (run batch0 1 trace0 s0) as [s|] eqn:E; [|vm_compute in E0; injection E0 as <-; vm_compute in E; discriminate].
  exists s0, s. split; [done|]. split.
  - exact (proj1 (concurrency_limit_drifts batch0 1 false s0 trace0 s batch0_valid E0 E)).
  - vm_compute in E0. injection E0 as <-. vm_compute in E. injection E as <-. vm_compute. reflexivity.
Defined.

Lemma abort_starts_nothing_witness :
  ∃ s, run batch0 1 [l_start (js "a")] (set_aborted (start_state batch0 false)) = Some s ∧ started s = [].
Proof.
  destruct (run batch0 1 [l_start (js "a")] (set_aborted (start_state batch0 false))) as [s|] eqn:E; [|vm_compute in E; discriminate].
  exists s. split; [done|]. exact (proj1 (abort_starts_nothing batch0 1 _ (set_aborted (start_state batch0 false)) s eq_refl E)).
Defined.

End SchedulerProps.
