(* ===== verification/Capabilities.v ===== *)
(** * Capability classes, interaction modes and the model-facing tool surface

    Models [aira/capabilities.ts], [aira/modes.ts] and [aira/model-tool-surface.ts]:
    the tables that classify the built-in tools, the mode cycle, the tools PLAN blocks
    and the tools a session offers to the model.

    A table lookup is on the table's own keys: tool names that are members of
    [Object.prototype] ("constructor", "toString", ...) are not considered. *)
From S2P Require Import Prelude JsMap JsString.

Module Capabilities.

(** ** Capability classes *)

Inductive AiraClassifiedCapability :=
| read_only | diagnostic | mutating | process | network | browser | orchestration | interaction | unknown.

#[export] Instance AiraClassifiedCapability_eq_dec : EqDecision AiraClassifiedCapability.
Proof. solve_decision. Defined.

Definition table {A} (l : list (string * A)) : list (jsstr * A) := prod_map js id <$> l.

Definition BUILTIN_AIRA_CAPABILITY_CLASSES : list (jsstr * AiraClassifiedCapability) := table
  [("read", read_only); ("grep", read_only); ("find", read_only); ("ls", read_only);
   ("aira_symbol_search", diagnostic); ("aira_module_report", diagnostic);
   ("aira_semantic_navigation", diagnostic); ("aira_diagnostics", diagnostic);
   ("edit", mutating); ("write", mutating); ("bash", process); ("powershell", process);
   ("process_start", process); ("process_stop", process); ("process_status", diagnostic);
   ("process_logs", diagnostic); ("agents_delegate", orchestration); ("agents_status", orchestration);
   ("agents_cancel", orchestration); ("ask_user", interaction); ("tasks", interaction);
   ("browser_open", browser); ("browser_close", browser); ("browser_status", browser);
   ("browser_observe", browser); ("browser_navigate", browser); ("browser_click", browser);
   ("browser_fill", browser); ("browser_press", browser); ("browser_scroll", browser);
   ("browser_wait", browser); ("browser_evaluate", browser); ("browser_console", browser);
   ("browser_network", browser); ("browser_screenshot", browser); ("browser_verify", browser)]%string.

Inductive AiraBrowserOperationKind := observe | navigate | interact | lifecycle.

#[export] Instance AiraBrowserOperationKind_eq_dec : EqDecision AiraBrowserOperationKind.
Proof. solve_decision. Defined.

Definition BUILTIN_AIRA_BROWSER_OPERATIONS : list (jsstr * AiraBrowserOperationKind) := table
  [("browser_status", observe); ("browser_observe", observe); ("browser_wait", observe);
   ("browser_scroll", observe); ("browser_console", observe); ("browser_network", observe);
   ("browser_screenshot", observe); ("browser_navigate", navigate); ("browser_click", interact);
   ("browser_fill", interact); ("browser_press", interact); ("browser_evaluate", interact);
   ("browser_verify", interact); ("browser_open", lifecycle); ("browser_close", lifecycle)]%string.

Definition classifyAiraCapability (name : jsstr) : AiraClassifiedCapability :=
  default unknown (mget name BUILTIN_AIRA_CAPABILITY_CLASSES).

Definition isAiraCapabilityReadOnly (name : jsstr) : bool :=
  bool_decide (classifyAiraCapability name = read_only ∨ classifyAiraCapability name = diagnostic).

Definition isAiraMutatingCapability (name : jsstr) : bool :=
  bool_decide (classifyAiraCapability name = mutating ∨ classifyAiraCapability name = process).

Definition isAiraNetworkCapability (name : jsstr) : bool :=
  bool_decide (classifyAiraCapability name = network).

Definition airaCapabilityClassLabel (c : AiraClassifiedCapability) : jsstr :=
  match c with
  | read_only => js "read-only" | diagnostic => js "diagnostic" | mutating => js "mutating"
  | process => js "process" | network => js "network" | browser => js "browser"
  | orchestration => js "orchestration" | interaction => js "interaction" | unknown => js "unknown"
  end.

Definition classifyAiraBrowserOperation (name : jsstr) : AiraBrowserOperationKind :=
  default observe (mget name BUILTIN_AIRA_BROWSER_OPERATIONS).

Definition operation_name (k : AiraBrowserOperationKind) : jsstr :=
  match k with
  | observe => js "observe" | navigate => js "navigate" | interact => js "interact" | lifecycle => js "lifecycle"
  end.

Definition BUILTIN_READ_ONLY_CAPABILITIES : list jsstr :=
  js <$> ["read"; "grep"; "find"; "ls"; "process_status"; "process_logs"]%string.

(** ** Modes *)

Inductive AiraMode := build | plan | review.

#[export] Instance AiraMode_eq_dec : EqDecision AiraMode.
Proof. solve_decision. Defined.

Definition AIRA_MODE_CYCLE : list AiraMode := [build; plan; review].

Definition NEXT_AIRA_MODE (m : AiraMode) : AiraMode :=
  match m with build => plan | plan => review | review => build end.

Definition AIRA_INTELLIGENCE_TOOLS : list jsstr :=
  js <$> ["aira_symbol_search"; "aira_module_report"; "aira_semantic_navigation"; "aira_diagnostics"]%string.

Definition AIRA_READ_ONLY_TOOLS : list jsstr :=
  AIRA_INTELLIGENCE_TOOLS ++ BUILTIN_READ_ONLY_CAPABILITIES
  ++ (js <$> ["browser_status"; "browser_observe"; "browser_wait"; "browser_scroll"; "browser_console";
              "browser_network"; "browser_screenshot"; "browser_navigate"; "agents_delegate";
              "agents_status"; "agents_cancel"; "ask_user"; "tasks"]%string).

Definition AIRA_MUTATING_TOOLS : list jsstr :=
  js <$> ["bash"; "powershell"; "edit"; "write"; "process_start"; "process_stop"; "browser_open";
          "browser_close"; "browser_click"; "browser_fill"; "browser_press"; "browser_evaluate";
          "browser_verify"]%string.

Definition nextAiraMode (m : AiraMode) : AiraMode := NEXT_AIRA_MODE m.

(** The session state is its [mode]; both return the new mode. *)
Definition cycleAiraMode (state : AiraMode) : AiraMode := nextAiraMode state.
Definition setAiraMode (state mode : AiraMode) : AiraMode := mode.

Definition isAiraMutatingTool (name : jsstr) : bool :=
  if isAiraMutatingCapability name then true
  else if bool_decide (classifyAiraCapability name = browser)
  then bool_decide (classifyAiraBrowserOperation name = interact ∨ classifyAiraBrowserOperation name = lifecycle)
  else false.

Definition airaModeLabel (m : AiraMode) : jsstr :=
  match m with build => js "BUILD" | plan => js "PLAN" | review => js "REVIEW" end.

Definition airaModeGlyph (m : AiraMode) : jsstr :=
  match m with build => js "◈" | plan => js "◇" | review => js "◎" end.

Definition isAiraModeReadOnly (m : AiraMode) : bool := bool_decide (m = plan).

Definition buildAiraRuntimeModeEnvelope (m : AiraMode) : jsstr :=
  let posture := match m with
                 | plan => js "read-only; plan and inspect only"
                 | review => js "review and gather evidence"
                 | build => js "build and verify changes" end in
  js "<aira-runtime mode=" ++ airaModeLabel m ++ js " posture=" ++ quoted posture
  ++ js " host-enforcement=authoritative />".

Definition buildAiraRuntimeControlEnvelope (m : AiraMode) (recoveryHint : option jsstr) : jsstr :=
  match recoveryHint with
  | Some ((_ :: _) as hint) =>
      buildAiraRuntimeModeEnvelope m ++ [10] ++ js "<aira-task-recovery>" ++ hint ++ js "</aira-task-recovery>"
  | _ => buildAiraRuntimeModeEnvelope m
  end.

(** ** The model-facing tools *)

Record AiraModelToolCapabilityState := {
  browserEnabled : bool;
  browserSessionOpen : bool;
  orchestrationEnabled : bool;
  orchestrationEstablished : bool }.

Inductive AiraModelToolGate :=
| always | browser_enabled | browser_session | orchestration_enabled | orchestration_established.

Definition BUILTIN_AIRA_MODEL_TOOL_GATES : list (jsstr * AiraModelToolGate) := table
  [("browser_open", browser_enabled); ("browser_verify", browser_enabled); ("browser_observe", browser_session);
   ("browser_navigate", browser_session); ("browser_click", browser_session); ("browser_fill", browser_session);
   ("browser_press", browser_session); ("browser_scroll", browser_session); ("browser_wait", browser_session);
   ("browser_evaluate", browser_session); ("browser_console", browser_session); ("browser_network", browser_session);
   ("browser_screenshot", browser_session); ("browser_close", browser_session);
   ("agents_delegate", orchestration_enabled); ("agents_status", orchestration_established);
   ("agents_cancel", orchestration_established)]%string.

Definition classifyAiraModelToolGate (name : jsstr) : AiraModelToolGate :=
  default always (mget name BUILTIN_AIRA_MODEL_TOOL_GATES).

Definition isAiraModelToolAvailable (name : jsstr) (st : AiraModelToolCapabilityState) : bool :=
  match classifyAiraModelToolGate name with
  | always => true
  | browser_enabled => browserEnabled st
  | browser_session => browserEnabled st && browserSessionOpen st
  | orchestration_enabled => orchestrationEnabled st
  | orchestration_established => orchestrationEnabled st && orchestrationEstablished st
  end.

Definition hasAiraOrchestrationRuns (runningCount queuedCount children recentResults failures : Z) : bool :=
  (0 <? runningCount) || (0 <? queuedCount) || (0 <? children) || (0 <? recentResults) || (0 <? failures).

(** ** Theorems *)

(** The names a table lists. *)
Lemma mget_default_ne {A} (l : list (jsstr * A)) (d : A) k : mget k l = None → default d (mget k l) = d.
Proof. by intros ->. Qed.

Lemma forall_keys {A} (l : list (jsstr * A)) (P : jsstr → bool) :
  forallb (λ kv, P kv.1) l = true → ∀ k, is_Some (mget k l) → P k = true.
Proof.
  rewrite forallb_forall. intros Hall k [v Hv]. apply mget_elem in Hv.
  apply (Hall (k, v)). by apply list_elem_of_In.
Qed.

Definition builtin_tools : list jsstr := BUILTIN_AIRA_CAPABILITY_CLASSES.*1.

Lemma not_builtin name : name ∉ builtin_tools → classifyAiraCapability name = unknown ∧ isAiraMutatingTool name = false.
Proof.
  intros Hn. assert (classifyAiraCapability name = unknown) as Hc.
  { unfold classifyAiraCapability. by rewrite (proj2 (mget_None _ _) Hn). }
  split; [done|]. unfold isAiraMutatingTool, isAiraMutatingCapability. by rewrite Hc.
Qed.

(** PLAN's boundary is consistent: the predicate PLAN enforces holds exactly of the
    listed mutating tools, the tools offered in PLAN are exactly the other built-in
    tools, and a tool the host does not know is never blocked. *)
Theorem plan_boundary_consistent name :
  (isAiraMutatingTool name = true ↔ name ∈ AIRA_MUTATING_TOOLS)
  ∧ (name ∈ builtin_tools → (name ∈ AIRA_READ_ONLY_TOOLS ↔ name ∉ AIRA_MUTATING_TOOLS))
  ∧ (name ∈ AIRA_READ_ONLY_TOOLS → name ∈ builtin_tools ∧ isAiraMutatingTool name = false)
  ∧ (name ∉ builtin_tools → isAiraMutatingTool name = false).
Proof.
  assert (∀ n, n ∈ builtin_tools →
    eqb (isAiraMutatingTool n) (bool_decide (n ∈ AIRA_MUTATING_TOOLS)) = true
    ∧ eqb (bool_decide (n ∈ AIRA_READ_ONLY_TOOLS)) (negb (bool_decide (n ∈ AIRA_MUTATING_TOOLS))) = true) as Hb.
  { intros n Hn. assert (forallb (λ n, eqb (isAiraMutatingTool n) (bool_decide (n ∈ AIRA_MUTATING_TOOLS))
      && eqb (bool_decide (n ∈ AIRA_READ_ONLY_TOOLS)) (negb (bool_decide (n ∈ AIRA_MUTATING_TOOLS)))) builtin_tools = true)
      as Hall by (vm_compute; reflexivity).
    rewrite forallb_forall in Hall. apply andb_true_iff, Hall. by apply list_elem_of_In. }
  assert (∀ n, n ∈ AIRA_MUTATING_TOOLS ++ AIRA_READ_ONLY_TOOLS → n ∈ builtin_tools) as Hsub.
  { intros n Hn. assert (forallb (λ n, bool_decide (n ∈ builtin_tools)) (AIRA_MUTATING_TOOLS ++ AIRA_READ_ONLY_TOOLS) = true)
      as Hall by (vm_compute; reflexivity).
    rewrite forallb_forall in Hall. apply (bool_decide_eq_true_1 _), Hall. by apply list_elem_of_In. }
  destruct (decide (name ∈ builtin_tools)) as [Hin|Hout].
  - destruct (Hb name Hin) as [H1%eqb_prop H2%eqb_prop]. rewrite H1. repeat case_bool_decide; cbn in H2; try done; by split_and!.
  - destruct (not_builtin name Hout) as [_ Hf]. rewrite Hf. split_and!; try done.
    + split; [done|]. intros Hm. destruct Hout. apply Hsub, elem_of_app. by left.
    + intros Hm. destruct Hout. apply Hsub, elem_of_app. by right.
Qed.

(** The model never sees a tool whose subsystem cannot run, and can always find the
    way in: enabling more capabilities only adds tools, an enabled subsystem offers its
    activation tool ([browser_open], [browser_verify], [agents_delegate]), the status tool
    is always offered, and every tool outside the gate table is offered always. *)
Theorem tool_surface_sound name st st' :
  ((browserEnabled st → browserEnabled st') → (browserSessionOpen st → browserSessionOpen st') →
   (orchestrationEnabled st → orchestrationEnabled st') → (orchestrationEstablished st → orchestrationEstablished st') →
   isAiraModelToolAvailable name st → isAiraModelToolAvailable name st')
  ∧ (browserEnabled st = false → classifyAiraCapability name = browser → name ≠ js "browser_status" →
     isAiraModelToolAvailable name st = false)
  ∧ (orchestrationEnabled st = false → classifyAiraCapability name = orchestration →
     isAiraModelToolAvailable name st = false)
  ∧ isAiraModelToolAvailable (js "browser_status") st = true
  ∧ isAiraModelToolAvailable (js "browser_open") st = browserEnabled st
  ∧ isAiraModelToolAvailable (js "browser_verify") st = browserEnabled st
  ∧ isAiraModelToolAvailable (js "agents_delegate") st = orchestrationEnabled st
  ∧ (name ∉ BUILTIN_AIRA_MODEL_TOOL_GATES.*1 → isAiraModelToolAvailable name st = true).
Proof.
  assert (∀ n c, classifyAiraCapability n = c → c ≠ unknown → n ∈ builtin_tools) as Hin.
  { intros n c Hc Hu. destruct (decide (n ∈ builtin_tools)) as [|Hn]; [done|]. apply not_builtin in Hn as [Hn _]. congruence. }
  split_and!; try (by destruct st as [[] [] [] []]; vm_compute).
  - intros H1 H2 H3 H4. unfold isAiraModelToolAvailable. destruct (classifyAiraModelToolGate name); try done;
      destruct st as [[] [] [] []], st' as [[] [] [] []]; cbn in *; tauto.
  - intros Hb Hc Hs. pose proof (Hin _ _ Hc ltac:(done)) as Hn.
    assert (forallb (λ n, negb (bool_decide (classifyAiraCapability n = browser)) || bool_decide (n = js "browser_status")
      || match classifyAiraModelToolGate n with browser_enabled | browser_session => true | _ => false end) builtin_tools = true)
      as Hall by (vm_compute; reflexivity).
    rewrite forallb_forall in Hall. specialize (Hall name (proj1 (list_elem_of_In _ _) Hn)).
    rewrite bool_decide_eq_true_2, bool_decide_eq_false_2 in Hall by done. cbn [negb orb] in Hall.
    unfold isAiraModelToolAvailable. rewrite Hb. by destruct (classifyAiraModelToolGate name).
  - intros Ho Hc. pose proof (Hin _ _ Hc ltac:(done)) as Hn.
    assert (forallb (λ n, negb (bool_decide (classifyAiraCapability n = orchestration))
      || match classifyAiraModelToolGate n with orchestration_enabled | orchestration_established => true | _ => false end)
      builtin_tools = true) as Hall by (vm_compute; reflexivity).
    rewrite forallb_forall in Hall. specialize (Hall name (proj1 (list_elem_of_In _ _) Hn)).
    rewrite bool_decide_eq_true_2 in Hall by done. cbn [negb orb] in Hall.
    unfold isAiraModelToolAvailable. rewrite Ho. by destruct (classifyAiraModelToolGate name).
  - intros Hn. unfold isAiraModelToolAvailable, classifyAiraModelToolGate. by rewrite (proj2 (mget_None _ _) Hn).
Qed.

(** Shift+Tab visits the three modes in turn and returns after three steps. *)
Lemma mode_cycle_period m :
  nextAiraMode (nextAiraMode (nextAiraMode m)) = m ∧ nextAiraMode m ≠ m ∧ m ∈ AIRA_MODE_CYCLE.
Proof. unfold AIRA_MODE_CYCLE. rewrite !elem_of_cons. destruct m; cbn; tauto || (split; [done|split; [done|auto]]). Qed.

Definition st_browser : AiraModelToolCapabilityState :=
  {| browserEnabled := true; browserSessionOpen := true; orchestrationEnabled := false; orchestrationEstablished := false |}.
Definition st_off : AiraModelToolCapabilityState :=
  {| browserEnabled := false; browserSessionOpen := false; orchestrationEnabled := false; orchestrationEstablished := false |}.

Lemma tool_surface_sound_witness :
  isAiraModelToolAvailable (js "browser_click") st_off = false ∧ isAiraModelToolAvailable (js "browser_click") st_browser = true.
Proof.
  split; [|vm_compute; reflexivity].
  destruct (tool_surface_sound (js "browser_click") st_off st_browser) as (_ & H & _).
  apply H; [reflexivity|vm_compute; reflexivity|vm_compute; discriminate].
Defined.

Lemma plan_boundary_consistent_witness : isAiraMutatingTool (js "my_extension") = false.
Proof.
  destruct (plan_boundary_consistent (js "my_extension")) as (_ & _ & _ & H). apply H.
  apply (bool_decide_eq_true_1 _). vm_compute. reflexivity.
Defined.

End Capabilities.
