(* ===== verification/Policy.v ===== *)
(** * The permission policy

    Models [aira/permissions/types.ts] and [aira/permissions/policy.ts]: the risk
    markers, the wildcard matcher, the choice of the best rule, the decision table of
    the permission modes, the path scope test and the normalization of stored rules. *)
From S2P Require Import Prelude JsMap JsString Capabilities.

Module Policy.
Import Capabilities.

(** ** Data *)

Inductive AiraPermissionMode := normal | permissive | strict | yolo.
Inductive AiraPermissionAction := allow | ask | deny.
Inductive AiraPermissionRuleScope := session | persistent.
Inductive AiraPermissionRuleMatch := exact | wildcard.

#[export] Instance AiraPermissionMode_eq_dec : EqDecision AiraPermissionMode.
Proof. solve_decision. Defined.
#[export] Instance AiraPermissionAction_eq_dec : EqDecision AiraPermissionAction.
Proof. solve_decision. Defined.
#[export] Instance AiraPermissionRuleScope_eq_dec : EqDecision AiraPermissionRuleScope.
Proof. solve_decision. Defined.
#[export] Instance AiraPermissionRuleMatch_eq_dec : EqDecision AiraPermissionRuleMatch.
Proof. solve_decision. Defined.

Record AiraPermissionRule := {
  rule_id : jsstr;
  rule_tool : jsstr;
  rule_subject : jsstr;
  rule_match : AiraPermissionRuleMatch;
  rule_action : AiraPermissionAction;
  rule_scope : AiraPermissionRuleScope;
  rule_createdAt : Z;
  rule_note : option jsstr }.

#[export] Instance AiraPermissionRule_eq_dec : EqDecision AiraPermissionRule.
Proof. solve_decision. Defined.

Record AiraPermissionRequest := {
  tool : jsstr;
  capability : AiraClassifiedCapability;
  subject : option jsstr;
  browserOperation : option jsstr }.

Record AiraPermissionEvaluation := {
  action : AiraPermissionAction;
  reason : jsstr;
  matchedRuleId : option jsstr;
  defaultCategory : option jsstr }.

Definition action_name (a : AiraPermissionAction) : jsstr :=
  match a with allow => js "allow" | ask => js "ask" | deny => js "deny" end.
Definition mode_name (m : AiraPermissionMode) : jsstr :=
  match m with normal => js "normal" | permissive => js "permissive" | strict => js "strict" | yolo => js "yolo" end.
Definition match_name (m : AiraPermissionRuleMatch) : jsstr :=
  match m with exact => js "exact" | wildcard => js "wildcard" end.

Definition AIRA_PERMISSION_MODES : list AiraPermissionMode := [normal; permissive; strict; yolo].
Definition AIRA_PERMISSION_RULE_ACTIONS : list AiraPermissionAction := [allow; ask; deny].
Definition AIRA_PERMISSION_MAX_RULES : Z := 128.
Definition AIRA_PERMISSION_MAX_SESSION_RULES : Z := 64.
Definition AIRA_PERMISSION_STORE_VERSION : Z := 1.
Definition MAX_WILDCARD_PATTERN_CHARS : Z := 300.

(** ** Risk markers *)

Definition RISK_MARKER_GROUPS : list (list jsstr * jsstr) := map (prod_map (map js) js)
  [(["git push"], "remote repository operation");
   (["git commit"; "git reset --hard"; "git clean"; "git rebase"], "git history operation");
   (["npm install"; "npm i "; "npm ci"; "npx playwright install"; "pnpm add"; "pnpm install"; "yarn add";
     "yarn install"; "bun add"; "bun install"; "pip install"; "pipx install"; "uv pip install"; "uv add";
     "poetry add"], "dependency installation");
   (["rm -rf"; "rm -fr"; "rm -r"; "rm -f /"], "destructive filesystem operation");
   (["sudo"], "privileged command (sudo)");
   (["dd "; "mkfs"; "fdisk"], "low-level disk operation");
   (["kill -9"; "killall -9"], "forced process termination");
   (["curl | sh"; "curl | bash"; "wget | sh"; "wget | bash"], "pipe remote script to shell");
   (["shutdown"; "poweroff"; "reboot"], "system shutdown");
   (["npm publish"; "pnpm publish"], "package publishing");
   (["~/.ssh"; "id_rsa"; "~/.aws"], "credential-adjacent read")]%string.

(** [toLowerCase], as far as ASCII text can tell: besides A-Z two other characters have a
    lower case with an ASCII letter (the Kelvin sign and the dotted capital I); the
    others are left alone, since the markers the result is compared with are ASCII. *)
Definition lower_unit (u : Z) : jsstr :=
  if (65 <=? u) && (u <=? 90) then [u + 32]
  else if u =? 0x212A then [107]
  else if u =? 0x130 then [105; 0x307]
  else [u].
Definition toLowerCase (s : jsstr) : jsstr := s ≫= lower_unit.

(** [s.replace(/\s+/g, " ")]; [gap] tells whether the previous character was white space. *)
Fixpoint collapse (gap : bool) (s : jsstr) : jsstr :=
  match s with
  | [] => []
  | u :: s' => if is_ws u then (if gap then collapse true s' else 32 :: collapse true s')
               else u :: collapse false s'
  end.

Definition normalizeSubjectForMarkers (value : jsstr) : jsstr := trim (collapse false (toLowerCase value)).

(** *** [/\b(curl|wget)\b.*\|\s*(sh|bash)\b/] *)

Definition is_word (u : Z) : bool :=
  ((97 <=? u) && (u <=? 122)) || ((65 <=? u) && (u <=? 90)) || ((48 <=? u) && (u <=? 57)) || (u =? 95).

Definition is_line_terminator (u : Z) : bool := bool_decide (u ∈ [10; 13; 0x2028; 0x2029]).

(** What follows one of the words, when [\b] holds behind it. *)
Fixpoint strip_prefix (p s : jsstr) : option jsstr :=
  match p, s with
  | [], _ => Some s
  | a :: p', b :: s' => if a =? b then strip_prefix p' s' else None
  | _ :: _, [] => None
  end.
Definition word_then (w s : jsstr) : option jsstr :=
  match strip_prefix w s with
  | Some rest => match rest with u :: _ => if is_word u then None else Some rest | [] => Some rest end
  | None => None
  end.

(** [\|\s*(sh|bash)\b], behind the bar. *)
Definition shell_follows (s : jsstr) : bool :=
  let s := trimStart s in
  match word_then (js "sh") s, word_then (js "bash") s with None, None => false | _, _ => true end.

(** [.*\|\s*(sh|bash)\b] *)
Fixpoint bar_then_shell (s : jsstr) : bool :=
  match s with
  | [] => false
  | u :: s' => ((u =? 124) && shell_follows s') || (negb (is_line_terminator u) && bar_then_shell s')
  end.

(** The search over all positions; [prev] is a word character before the position. *)
Fixpoint PIPE_TO_SHELL_MARKER (prev : bool) (s : jsstr) : bool :=
  (negb prev && match word_then (js "curl") s with Some rest => bar_then_shell rest | None => false end)
  || (negb prev && match word_then (js "wget") s with Some rest => bar_then_shell rest | None => false end)
  || match s with [] => false | u :: s' => PIPE_TO_SHELL_MARKER (is_word u) s' end.

Definition group_matches (s : jsstr) (g : list jsstr * jsstr) : bool := existsb (λ m, includes m s) g.1.

Definition isAiraRiskyCommand (command : jsstr) : bool :=
  let normalized := normalizeSubjectForMarkers command in
  if zlen normalized =? 0 then false
  else if existsb (group_matches normalized) RISK_MARKER_GROUPS then true
  else PIPE_TO_SHELL_MARKER false normalized.

Definition classifyAiraRiskyCommand (command : jsstr) : option jsstr :=
  let normalized := normalizeSubjectForMarkers command in
  if zlen normalized =? 0 then None
  else match find (group_matches normalized) RISK_MARKER_GROUPS with
  | Some g => Some g.2
  | None => if PIPE_TO_SHELL_MARKER false normalized then Some (js "pipe remote script to shell") else None
  end.

Definition normalizeAiraPermissionMode (value : jsstr) : AiraPermissionMode :=
  if str_eqb value (js "normal") then normal else if str_eqb value (js "permissive") then permissive
  else if str_eqb value (js "strict") then strict else if str_eqb value (js "yolo") then yolo else normal.

(** ** Wildcards *)

Definition star : Z := 42.
Definition qmark : Z := 63.

(** The regular expression the pattern is turned into: [*] is [.*], [?] is [.], anything
    else matches itself; the flags are empty, so [.] does not match a line terminator. *)
Fixpoint glob (p : jsstr) : jsstr → bool :=
  match p with
  | [] => λ s, match s with [] => true | _ => false end
  | c :: p' =>
      let rest := glob p' in
      if c =? star then
        (fix run (s : jsstr) : bool :=
           rest s || match s with [] => false | u :: s' => negb (is_line_terminator u) && run s' end)
      else if c =? qmark then
        λ s, match s with [] => false | u :: s' => negb (is_line_terminator u) && rest s' end
      else
        λ s, match s with [] => false | u :: s' => (u =? c) && rest s' end
  end.

Definition wildcardMatch (pattern subject : jsstr) : bool :=
  if (MAX_WILDCARD_PATTERN_CHARS <? zlen pattern) || (4096 <? zlen subject) then false
  else glob pattern subject.

(** ** Paths

    The POSIX functions of [node:path]; [pcwd] is [process.cwd()]. *)

Definition slash : Z := 47.
Definition dotdot : jsstr := [46; 46].

Definition isAbsolute (p : jsstr) : bool := match p with u :: _ => u =? slash | [] => false end.

Fixpoint split_path (p : jsstr) : list jsstr :=
  match p with
  | [] => [[]]
  | u :: p' =>
      if u =? slash then [] :: split_path p'
      else match split_path p' with seg :: segs => (u :: seg) :: segs | [] => [[u]] end
  end.

(** [normalizeString]: the segments with "." and ".." resolved, innermost first. *)
Definition norm_step (allowAboveRoot : bool) (acc : list jsstr) (seg : jsstr) : list jsstr :=
  if bool_decide (seg = [] ∨ seg = [46]) then acc
  else if bool_decide (seg = dotdot) then
    match acc with
    | last :: acc' => if bool_decide (last = dotdot) then (if allowAboveRoot then dotdot :: acc else acc) else acc'
    | [] => if allowAboveRoot then [dotdot] else []
    end
  else seg :: acc.
Definition norm_segments (allowAboveRoot : bool) (p : jsstr) : list jsstr :=
  rev (foldl (norm_step allowAboveRoot) [] (split_path p)).

Definition trailing_slash (p : jsstr) : bool := match rev p with u :: _ => u =? slash | [] => false end.

Definition normalize (p : jsstr) : jsstr :=
  if bool_decide (p = []) then [46] else
  let s := join [slash] (norm_segments (negb (isAbsolute p)) p) in
  let t := if trailing_slash p then [slash] else [] in
  if bool_decide (s = []) then (if isAbsolute p then [slash] else [46] ++ t)
  else (if isAbsolute p then [slash] else []) ++ s ++ t.

(** The absolute path before normalization, of [resolve(p)] and of [resolve(base, p)]. *)
Definition absolute (pcwd p : jsstr) : jsstr := if isAbsolute p then p else pcwd ++ [slash] ++ p.
Definition resolve_segments (pcwd p : jsstr) : list jsstr := norm_segments false (absolute pcwd p).
Definition resolve (pcwd base p : jsstr) : jsstr :=
  [slash] ++ join [slash] (norm_segments false (if isAbsolute p then p else absolute pcwd base ++ [slash] ++ p)).

Fixpoint drop_common (a b : list jsstr) : list jsstr * list jsstr :=
  match a, b with
  | x :: a', y :: b' => if bool_decide (x = y) then drop_common a' b' else (a, b)
  | _, _ => (a, b)
  end.

Definition relative (pcwd from to : jsstr) : jsstr :=
  let '(up, down) := drop_common (resolve_segments pcwd from) (resolve_segments pcwd to) in
  join [slash] ((const dotdot <$> up) ++ down).

Definition resolvePermissionPathSubject (pcwd path cwd : jsstr) : jsstr :=
  if isAbsolute path then normalize path else resolve pcwd cwd path.

Definition isPathWithin (pcwd subject root : jsstr) : bool :=
  let rel := relative pcwd root subject in
  bool_decide (rel = []) || (negb (startsWith dotdot rel) && negb (isAbsolute rel)).

(** ** Evaluation *)

Definition ALWAYS_ALLOWED_CLASSES : list AiraClassifiedCapability := [read_only; diagnostic; orchestration; interaction].
Definition SAFE_BROWSER_KINDS : list jsstr := [js "observe"; js "navigate"].

Definition previewSubject (s : jsstr) : jsstr := bound_text 80 (trim s).

Definition rule_matches (request : AiraPermissionRequest) (r : AiraPermissionRule) : bool :=
  let s := default (tool request) (subject request) in
  str_eqb (rule_tool r) (tool request)
  && match rule_match r with
     | exact => str_eqb s (rule_subject r)
     | wildcard => wildcardMatch (rule_subject r) s
     end.

Definition specificity (r : AiraPermissionRule) : Z := match rule_match r with exact => 1 | wildcard => 0 end.

(** Whether [r] takes the place of the best rule so far. *)
Definition better (best : option AiraPermissionRule) (r : AiraPermissionRule) : bool :=
  match best with
  | None => true
  | Some b => (specificity b <? specificity r)
              || ((specificity r =? specificity b) && (rule_createdAt b <=? rule_createdAt r))
  end.

Definition matchBestRule (request : AiraPermissionRequest) (rules : list AiraPermissionRule) : option AiraPermissionRule :=
  foldl (λ best r, if rule_matches request r && better best r then Some r else best) None rules.

Definition ruleReason (t : jsstr) (r : AiraPermissionRule) (a : AiraPermissionAction) : jsstr :=
  let scope := match rule_scope r with persistent => js "persistent rule" | session => js "session rule" end in
  let s := if str_eqb (rule_subject r) t then [] else js " for " ++ previewSubject (rule_subject r) in
  t ++ js " " ++ action_name a ++ js "ed by " ++ scope ++ s ++ js " (" ++ slice0 8 (rule_id r) ++ js ")".

Definition defaultReason (t outcome category : jsstr) : jsstr :=
  t ++ js ": " ++ outcome ++ js " by permission default (" ++ category ++ js ")".

Definition by_default (request : AiraPermissionRequest) (a : AiraPermissionAction) (category : jsstr) : AiraPermissionEvaluation :=
  {| action := a; reason := defaultReason (tool request) (action_name a) category; matchedRuleId := None;
     defaultCategory := Some category |}.

Definition modeDefault (pcwd : jsstr) (mode : AiraPermissionMode) (request : AiraPermissionRequest)
    (projectRoot : option jsstr) : AiraPermissionEvaluation :=
  let d := by_default request in
  let c := capability request in
  if bool_decide (c ∈ ALWAYS_ALLOWED_CLASSES) then d allow (airaCapabilityClassLabel c)
  else match c with
  | browser =>
      let kind := default (js "observe") (browserOperation request) in
      if bool_decide (kind ∈ SAFE_BROWSER_KINDS) then d allow (js "browser:" ++ kind)
      else match mode with
      | normal => d ask (js "browser:interact")
      | permissive | yolo => d allow (js "browser:interact")
      | strict => d deny (js "browser:interact")
      end
  | mutating =>
      let inScope := match subject request, projectRoot with
                     | Some s, Some root => isPathWithin pcwd s root
                     | _, _ => true end in
      match mode with
      | strict => d deny (js "mutating")
      | _ =>
          if inScope then d allow (js "mutating:workspace")
          else match mode with
          | normal => d ask (js "mutating:out-of-scope")
          | _ => d allow (js "mutating:out-of-scope")
          end
      end
  | process =>
      let s := default [] (subject request) in
      if bool_decide (mode = normal) && isAiraRiskyCommand s then d ask (js "process:risk-marker")
      else match mode with
      | strict => d deny (js "process")
      | _ => d allow (js "process:routine")
      end
  | _ =>
      match mode with
      | normal => d ask (airaCapabilityClassLabel c)
      | permissive | yolo => d allow (airaCapabilityClassLabel c)
      | strict => d deny (airaCapabilityClassLabel c)
      end
  end.

Definition evaluateAiraPermissionRequest (pcwd : jsstr) (request : AiraPermissionRequest)
    (mode : AiraPermissionMode) (rules : list AiraPermissionRule) (plan : bool) (projectRoot : option jsstr)
    : AiraPermissionEvaluation :=
  let kind := default (js "observe") (browserOperation request) in
  let denied r := {| action := deny; reason := r; matchedRuleId := None; defaultCategory := None |} in
  if plan && bool_decide (capability request = mutating ∨ capability request = process ∨ capability request = network)
  then denied (js "PLAN mode is read-only: " ++ tool request
               ++ js " is blocked at the host boundary (permissions cannot override PLAN)")
  else if plan && bool_decide (capability request = browser) && negb (bool_decide (kind ∈ SAFE_BROWSER_KINDS))
  then denied (js "PLAN mode is read-only: " ++ tool request ++ js " (" ++ kind ++ js ") is blocked at the host boundary")
  else match matchBestRule request rules with
  | Some r =>
      let a := if bool_decide (mode = yolo) && bool_decide (rule_action r = ask) then allow else rule_action r in
      {| action := a; reason := ruleReason (tool request) r a; matchedRuleId := Some (rule_id r); defaultCategory := None |}
  | None => modeDefault pcwd mode request projectRoot
  end.

(** ** Stored rules *)

(** A field of a parsed rules entry, and an entry; anything that is not an object is [e_other].
    Numbers are integers (the times this program writes); [f_other] is any other value. *)
Inductive field := f_string (s : jsstr) | f_number (z : Z) | f_other.
Inductive entry := e_object (props : list (jsstr * field)) | e_other.

Definition str_field (k : string) (props : list (jsstr * field)) : option jsstr :=
  match mget (js k) props with Some (f_string s) => Some s | _ => None end.

Definition read_action (s : option jsstr) : option AiraPermissionAction :=
  match s with
  | Some s => if str_eqb s (js "allow") then Some allow else if str_eqb s (js "ask") then Some ask
              else if str_eqb s (js "deny") then Some deny else None
  | None => None
  end.

(** [now] is [Date.now()]. *)
Definition read_rule (now : Z) (scope : AiraPermissionRuleScope) (e : entry) : option AiraPermissionRule :=
  match e with
  | e_other => None
  | e_object props =>
      let t := trim (default [] (str_field "tool" props)) in
      let s := slice0 500 (default [] (str_field "subject" props)) in
      let m := match str_field "match" props with
               | Some v => if str_eqb v (js "wildcard") then wildcard else exact
               | None => exact end in
      let i := slice0 64 (trim (default [] (str_field "id" props))) in
      match read_action (str_field "action" props) with
      | None => None
      | Some a =>
          if bool_decide (t = [] ∨ s = [] ∨ i = []) then None
          else Some {| rule_id := i; rule_tool := t; rule_subject := s; rule_match := m; rule_action := a;
                       rule_scope := scope;
                       rule_createdAt := match mget (js "createdAt") props with Some (f_number z) => z | _ => now end;
                       rule_note := match str_field "note" props with
                                    | Some n => if bool_decide (trim n = []) then None else Some (slice0 200 (trim n))
                                    | None => None end |}
      end
  end.

(** The loop over the entries; it stops at [max] rules.  [None] is a value that is not
    an array. *)
Definition normalizeAiraPermissionRules (now : Z) (value : option (list entry)) (scope : AiraPermissionRuleScope)
    (max : Z) : list AiraPermissionRule :=
  match value with
  | None => []
  | Some entries =>
      foldl (λ rules e, if max <=? zlen rules then rules
                        else match read_rule now scope e with Some r => rules ++ [r] | None => rules end) [] entries
  end.

End Policy.
