(* ===== verification/PolicyProps.v ===== *)
(** * The permission policy: theorems *)
From S2P Require Import Prelude JsMap JsString Capabilities Policy.

Module PolicyProps.
Import Capabilities Policy.

(** ** The choice of the rule *)

(** [a] is at least as specific as [b], and at least as recent when equally specific. *)
Definition outranks (a b : AiraPermissionRule) : Prop :=
  specificity b < specificity a ∨ specificity b = specificity a ∧ rule_createdAt b <= rule_createdAt a.

Lemma outranks_refl r : outranks r r.
Proof. right. split; [done|lia]. Qed.

Lemma outranks_trans a b c : outranks a b → outranks b c → outranks a c.
Proof. unfold outranks. intros [H1|[H1 H1']] [H2|[H2 H2']]; lia. Qed.

Lemma better_false b r : better (Some b) r = false → outranks b r ∧ ¬ outranks r b.
Proof.
  cbn. intros [H1 H2]%orb_false_iff. apply Z.ltb_ge in H1. apply andb_false_iff in H2. unfold outranks.
  destruct H2 as [H2|H2]; [apply Z.eqb_neq in H2|apply Z.leb_gt in H2]; lia.
Qed.

Lemma better_true b r : better (Some b) r = true → outranks r b.
Proof.
  cbn. unfold outranks. intros [H|H]%orb_true_iff; [apply Z.ltb_lt in H; lia|].
  apply andb_true_iff in H as [H1%Z.eqb_eq H2%Z.leb_le]. lia.
Qed.

(** The winner among [rules] with [best] in front of them. *)
Lemma match_loop request rules best :
  (∀ b, best = Some b → rule_matches request b = true) →
  let res := foldl (λ best r, if rule_matches request r && better best r then Some r else best) best rules in
  match res with
  | None => best = None ∧ Forall (λ r, rule_matches request r = false) rules
  | Some w => rule_matches request w = true
      ∧ (best = Some w ∧ Forall (λ r, rule_matches request r = true → outranks w r ∧ ¬ outranks r w) rules
         ∨ ∃ l1 l2, rules = l1 ++ w :: l2
             ∧ (∀ r, best = Some r ∨ r ∈ l1 → rule_matches request r = true → outranks w r)
             ∧ (∀ r, r ∈ l2 → rule_matches request r = true → outranks w r ∧ ¬ outranks r w))
  end.
Proof.
  revert best. induction rules as [|r rules IH]; intros best Hb; cbn [foldl].
  { destruct best as [b|]; [|done]. split; [by apply Hb|]. left. done. }
  destruct (rule_matches request r) eqn:Em; cbn [andb].
  - destruct (better best r) eqn:Ebt.
    + specialize (IH (Some r)). destruct (foldl _ (Some r) rules) as [w|].
      2: { destruct IH as [? _]; [by intros b [= <-]|done]. }
      destruct IH as [Hw Hcase]; [by intros b [= <-]|]. split; [done|]. right.
      destruct Hcase as [[[= ->] Hall]|(l1 & l2 & -> & H1 & H2)].
      * exists [], rules. split; [done|]. split.
        -- intros r' [->|?%not_elem_of_nil] _; [|done]. exact (better_true _ _ Ebt).
        -- rewrite Forall_forall in Hall. exact Hall.
      * exists (r :: l1), l2. split; [done|]. split; [|done].
        intros r' [->|[->|Hr']%elem_of_cons] Hm.
        -- apply (outranks_trans w r r'); [apply H1; [by left|done]|exact (better_true _ _ Ebt)].
        -- apply H1; [by left|done].
        -- apply H1; [by right|done].
    + specialize (IH best Hb). destruct best as [b|]; [|done].
      apply better_false in Ebt as [Ho Hno].
      destruct (foldl _ (Some b) rules) as [w|]; [|by destruct IH].
      destruct IH as [Hw Hcase]. split; [done|].
      destruct Hcase as [[[= ->] Hall]|(l1 & l2 & -> & H1 & H2)].
      * left. split; [done|]. constructor; [done|done].
      * right. exists (r :: l1), l2. split; [done|]. split; [|done].
        intros r' [[= ->]|[->|Hr']%elem_of_cons] Hm; [apply H1; auto| |apply H1; auto].
        apply (outranks_trans w b r); [apply H1; [by left|by apply Hb]|done].
  - specialize (IH best Hb). destruct (foldl _ best rules) as [w|].
    + destruct IH as [Hw Hcase]. split; [done|].
      destruct Hcase as [[-> Hall]|(l1 & l2 & -> & H1 & H2)].
      * left. split; [done|]. constructor; [congruence|done].
      * right. exists (r :: l1), l2. split; [done|]. split; [|done].
        intros r' [->|[->|Hr']%elem_of_cons] Hm; [apply H1; auto|congruence|apply H1; auto].
    + destruct IH as [-> Hall]. split; [done|]. by constructor.
Qed.

(** The deciding rule is the best match: there is one exactly when some rule matches
    tool and subject; it matches, every rule before it is at most as specific and as
    recent, and every rule after it is strictly outranked, so that an exact rule beats
    every wildcard, then the most recent rule wins, then the last one. *)
Theorem best_rule_wins request rules :
  match matchBestRule request rules with
  | None => Forall (λ r, rule_matches request r = false) rules
  | Some w => rule_matches request w = true
      ∧ ∃ l1 l2, rules = l1 ++ w :: l2
          ∧ (∀ r, r ∈ l1 → rule_matches request r = true → outranks w r)
          ∧ (∀ r, r ∈ l2 → rule_matches request r = true → outranks w r ∧ ¬ outranks r w)
  end.
Proof.
  pose proof (match_loop request rules None) as H. unfold matchBestRule. cbn zeta in H.
  destruct (foldl _ None rules) as [w|]; [|apply H; done].
  destruct H as [Hw [[? _]|(l1 & l2 & -> & H1 & H2)]]; [done|done|]. split; [done|].
  exists l1, l2. split; [done|]. split; [|done]. intros r Hr. apply H1. by right.
Qed.

(** ** The decision *)

(** The request [buildRequest] makes of a tool name. *)
Definition request_of (name : jsstr) (s : option jsstr) : AiraPermissionRequest :=
  {| tool := name; capability := classifyAiraCapability name; subject := s;
     browserOperation := if bool_decide (classifyAiraCapability name = browser)
                         then Some (operation_name (classifyAiraBrowserOperation name)) else None |}.

(** C32. PLAN is absolute: in PLAN no permission mode and no rule, whatever it allows, lets
    through a request of the mutating, process or network class or a browser operation
    other than observing and navigating; in particular every tool on PLAN's block list
    is denied, with a reason that names the boundary. *)
Theorem plan_denies pcwd request mode rules root :
  (capability request = mutating ∨ capability request = process ∨ capability request = network
   ∨ capability request = browser ∧ default (js "observe") (browserOperation request) ∉ SAFE_BROWSER_KINDS →
   action (evaluateAiraPermissionRequest pcwd request mode rules true root) = deny
   ∧ matchedRuleId (evaluateAiraPermissionRequest pcwd request mode rules true root) = None)
  ∧ (∀ name s, isAiraMutatingTool name = true →
     action (evaluateAiraPermissionRequest pcwd (request_of name s) mode rules true root) = deny).
Proof.
  assert (∀ request, capability request = mutating ∨ capability request = process ∨ capability request = network
   ∨ capability request = browser ∧ default (js "observe") (browserOperation request) ∉ SAFE_BROWSER_KINDS →
   action (evaluateAiraPermissionRequest pcwd request mode rules true root) = deny
   ∧ matchedRuleId (evaluateAiraPermissionRequest pcwd request mode rules true root) = None) as Hgen.
  { intros rq H. unfold evaluateAiraPermissionRequest. cbn [andb].
    case_bool_decide as Hc; [done|]. destruct H as [H|[H|[H|[H Hk]]]]; [tauto..|].
    rewrite (bool_decide_eq_true_2 (capability rq = browser)), bool_decide_eq_false_2 by done. done. }
  split; [apply Hgen|]. intros name s Hm. apply Hgen. unfold isAiraMutatingTool in Hm.
  destruct (isAiraMutatingCapability name) eqn:Ec.
  - unfold isAiraMutatingCapability in Ec. bool_prop. unfold request_of. cbn. tauto.
  - case_bool_decide as Hb; [|done]. right; right; right. unfold request_of. cbn [capability browserOperation].
    rewrite bool_decide_eq_true_2 by done. split; [done|]. bool_prop. unfold default, from_option, id.
    apply (bool_decide_eq_false_1 _). by destruct Hm as [-> | ->]; vm_compute.
Qed.

(** From deny over ask to allow. *)
Definition leniency (a : AiraPermissionAction) : Z := match a with deny => 0 | ask => 1 | allow => 2 end.

(** The permission modes are ordered: for every request that no rule decides, strict
    denies or allows and is at most as lenient as normal, normal as permissive, and
    permissive and yolo allow everything.  A rule decides by its own action in every mode,
    except that yolo turns ask into allow: outside PLAN yolo never asks, and denies only
    when an explicit deny rule wins. *)
Theorem modes_are_ordered pcwd request rules root :
  let act mode := action (evaluateAiraPermissionRequest pcwd request mode rules false root) in
  match matchBestRule request rules with
  | None => act strict ≠ ask ∧ leniency (act strict) <= leniency (act normal) <= leniency (act permissive)
            ∧ act permissive = allow ∧ act yolo = allow
  | Some r => act strict = rule_action r ∧ act normal = rule_action r ∧ act permissive = rule_action r
              ∧ act yolo = (if bool_decide (rule_action r = ask) then allow else rule_action r)
  end.
Proof.
  cbn zeta. unfold evaluateAiraPermissionRequest. cbn [andb]. destruct (matchBestRule request rules) as [r|].
  - cbn. by case_bool_decide.
  - unfold modeDefault. case_bool_decide; [done|].
    destruct (capability request); try (by cbn); cbn [bool_decide andb].
    + match goal with |- context [if ?c then _ else by_default _ ask _] => destruct c end; done.
    + destruct (isAiraRiskyCommand (default [] (subject request))); by cbn.
    + case_bool_decide; by cbn.
Qed.

(** The presentation agrees with the policy: a command is risky exactly when
    [classifyAiraRiskyCommand] has a label for it, and in normal mode a command that no
    rule decides is asked about exactly when it is risky. *)
Theorem risky_commands_ask pcwd t s root :
  (isAiraRiskyCommand s = true ↔ is_Some (classifyAiraRiskyCommand s))
  ∧ (action (evaluateAiraPermissionRequest pcwd
       {| tool := t; capability := process; subject := Some s; browserOperation := None |} normal [] false root)
     = if isAiraRiskyCommand s then ask else allow).
Proof.
  split.
  - unfold isAiraRiskyCommand, classifyAiraRiskyCommand. case_match; [split; [done|by intros []]|].
    destruct (existsb (group_matches (normalizeSubjectForMarkers s)) RISK_MARKER_GROUPS) eqn:Ee.
    + split; [intros _|done]. destruct (find _ RISK_MARKER_GROUPS) eqn:Ef; [done|].
      apply existsb_exists in Ee as (g & Hg & Hm). by rewrite (find_none _ _ Ef g Hg) in Hm.
    + destruct (find _ RISK_MARKER_GROUPS) as [g|] eqn:Ef.
      * apply find_some in Ef as [Hg Hm]. assert (existsb (group_matches (normalizeSubjectForMarkers s)) RISK_MARKER_GROUPS = true)
          by (apply existsb_exists; eauto). congruence.
      * destruct (PIPE_TO_SHELL_MARKER _ _); split; [done..|by intros []].
  - unfold evaluateAiraPermissionRequest, modeDefault. cbn. by destruct (isAiraRiskyCommand s).
Qed.

(** The risk markers are substrings, so that a routine [git add] asks as a disk
    operation ("add " ends in the marker "dd "). *)
Theorem git_add_asks :
  classifyAiraRiskyCommand (js "git add .") = Some (js "low-level disk operation")
  ∧ isAiraRiskyCommand (js "git status") = false ∧ isAiraRiskyCommand (js "npm test") = false.
Proof. vm_compute. done. Qed.

(** ** Wildcards *)

(** What a pattern means: [*] any run and [?] one character, except line terminators. *)
Inductive glob_spec : jsstr → jsstr → Prop :=
| gs_nil : glob_spec [] []
| gs_star p run s : Forall (λ u, is_line_terminator u = false) run → glob_spec p s → glob_spec (star :: p) (run ++ s)
| gs_one p u s : is_line_terminator u = false → glob_spec p s → glob_spec (qmark :: p) (u :: s)
| gs_char p c s : c ≠ star → c ≠ qmark → glob_spec p s → glob_spec (c :: p) (c :: s).

Lemma glob_star_inv p s :
  glob_spec (star :: p) s →
  ∃ run s', s = run ++ s' ∧ Forall (λ u, is_line_terminator u = false) run ∧ glob_spec p s'.
Proof. inversion 1; subst; [eauto|done]. Qed.

Lemma glob_correct p s : glob p s = true ↔ glob_spec p s.
Proof.
  revert s. induction p as [|c p IH]; intros s.
  { destruct s; split; try done; [constructor|by inversion 1]. }
  cbn [glob]. destruct (c =? star) eqn:Es; [apply Z.eqb_eq in Es; subst c|destruct (c =? qmark) eqn:Eq; bool_prop].
  - induction s as [|u s IHs].
    + rewrite orb_false_r, IH. split; [intros H; by apply (gs_star p [])|].
      intros (run & s' & Hnil & Hrun & Hs)%glob_star_inv. by destruct run, s'.
    + rewrite orb_true_iff, IH, andb_true_iff, negb_true_iff, IHs. split.
      * intros [H|[Hu H]]; [by apply (gs_star p [])|]. apply glob_star_inv in H as (run & s' & -> & Hrun & Hs).
        apply (gs_star p (u :: run)); [by constructor|done].
      * intros (run & s' & Hp & Hrun & Hs)%glob_star_inv. destruct run as [|x run]; [left; by rewrite Hp|right].
        injection Hp as -> ->. apply Forall_cons in Hrun as [Hx Hrun]. split; [done|]. by constructor.
  - subst. destruct s as [|u s]; [split; [done|inversion 1; subst; done]|].
    rewrite andb_true_iff, negb_true_iff, IH. split; [intros []; by constructor|]. inversion 1; subst; done.
  - destruct s as [|u s].
    + split; [done|]. inversion 1; subst; done.
    + rewrite andb_true_iff, Z.eqb_eq, IH. split; [intros [-> H]; by constructor|]. inversion 1; subst; done.
Qed.

(** [wildcardMatch] decides the meaning of the pattern on the whole subject, for
    patterns of at most 300 and subjects of at most 4096 characters, and refuses longer
    ones. *)
Theorem wildcardMatch_decides p s :
  wildcardMatch p s = true ↔ zlen p <= MAX_WILDCARD_PATTERN_CHARS ∧ zlen s <= 4096 ∧ glob_spec p s.
Proof.
  unfold wildcardMatch. destruct (_ || _) eqn:E.
  - split; [done|]. intros (H1 & H2 & _). apply orb_true_iff in E as [E|E]; bool_prop; lia.
  - bool_prop. rewrite glob_correct. tauto.
Qed.

(** A deny rule does not see past a line break: a wildcard rule that denies a command
    leaves the same command alone when it stands on the second line of a script. *)
Theorem deny_rule_misses_second_line :
  ∃ r request request',
    rule_action r = deny ∧ rule_match r = wildcard ∧ rule_subject r = js "*rm -rf*"
    ∧ subject request = Some (js "rm -rf build") ∧ subject request' = Some (js "true" ++ [10] ++ js "rm -rf build")
    ∧ action (evaluateAiraPermissionRequest [slash] request permissive [r] false None) = deny
    ∧ action (evaluateAiraPermissionRequest [slash] request' permissive [r] false None) = allow.
Proof.
  exists {| rule_id := js "r-1"; rule_tool := js "bash"; rule_subject := js "*rm -rf*"; rule_match := wildcard;
            rule_action := deny; rule_scope := persistent; rule_createdAt := 1; rule_note := None |}.
  exists (request_of (js "bash") (Some (js "rm -rf build"))).
  exists (request_of (js "bash") (Some (js "true" ++ [10] ++ js "rm -rf build"))).
  vm_compute. repeat split; reflexivity.
Qed.

(** ** The workspace scope *)

(** A resolved path segment. *)
Definition seg_ok (seg : jsstr) : Prop := seg ≠ [] ∧ seg ≠ dotdot ∧ slash ∉ seg.

Lemma split_path_noslash p : Forall (λ seg, slash ∉ seg) (split_path p).
Proof.
  induction p as [|u p IH]; cbn [split_path]; [constructor; [apply not_elem_of_nil|constructor]|].
  destruct (u =? slash) eqn:E; bool_prop; [constructor; [apply not_elem_of_nil|done]|].
  destruct (split_path p) as [|seg segs].
  - constructor; [|constructor]. intros H%list_elem_of_singleton. by subst.
  - apply Forall_cons in IH as [Hs Hss]. constructor; [|done]. intros [H|H]%elem_of_cons; [by subst|done].
Qed.

Lemma norm_segments_ok p : Forall seg_ok (norm_segments false p).
Proof.
  unfold norm_segments. apply Forall_rev.
  assert (∀ l acc, Forall (λ seg, slash ∉ seg) l → Forall seg_ok acc → Forall seg_ok (foldl (norm_step false) acc l)) as Hgen.
  { induction l as [|seg l IH]; intros acc Hl Hacc; cbn [foldl]; [done|]. apply Forall_cons in Hl as [Hseg Hl].
    apply IH; [done|]. unfold norm_step. case_bool_decide as H1; [done|]. case_bool_decide as H2.
    - destruct acc as [|last acc]; [constructor|]. case_bool_decide; [done|]. by apply Forall_cons in Hacc as [_ ?].
    - constructor; [|done]. unfold seg_ok. tauto. }
  apply Hgen; [apply split_path_noslash|constructor].
Qed.

Lemma drop_common_spec a b :
  let '(a', b') := drop_common a b in
  ∃ c, a = c ++ a' ∧ b = c ++ b' ∧ (a' = [] ∨ b' = [] ∨ ∃ x y p q, a' = x :: p ∧ b' = y :: q ∧ x ≠ y).
Proof.
  revert b. induction a as [|x a IH]; intros [|y b]; cbn [drop_common]; try (exists []; auto).
  case_bool_decide as Hxy.
  - subst. specialize (IH b). destruct (drop_common a b) as [a' b']. destruct IH as (c & -> & -> & Hc). by exists (y :: c).
  - exists []. split; [done|]. split; [done|]. right; right. by exists x, y, a, b.
Qed.

Lemma startsWith_join seg rest :
  seg_ok seg → startsWith dotdot (join [slash] (seg :: rest)) = startsWith dotdot seg.
Proof.
  intros (Hne & _ & _). destruct seg as [|a [|b seg]]; [done| |].
  - destruct rest as [|x rest]; [done|]. cbn. rewrite !andb_false_r. done.
  - destruct rest as [|x rest]; [done|]. cbn. done.
Qed.

Lemma join_head seg rest : seg_ok seg → join [slash] (seg :: rest) ≠ [] ∧ isAbsolute (join [slash] (seg :: rest)) = false.
Proof.
  intros (Hne & _ & Hs). destruct seg as [|a seg]; [done|].
  assert (a ≠ slash) as Ha by (intros ->; apply Hs; left).
  destruct rest as [|x rest]; cbn; (split; [done|by apply Z.eqb_neq]).
Qed.

(** [isPathWithin] compares resolved segments: a path is inside the root exactly when
    the root's segments are a prefix of its own and the next segment does not start with
    "..".  No ".." or sibling directory with a common name prefix gets in; files and
    directories named "..x" directly below the root are treated as outside. *)
Theorem path_scope pcwd s root :
  isPathWithin pcwd s root = true ↔
  ∃ rest, resolve_segments pcwd s = resolve_segments pcwd root ++ rest
    ∧ ∀ x, head rest = Some x → startsWith dotdot x = false.
Proof.
  unfold isPathWithin, relative.
  pose proof (norm_segments_ok (absolute pcwd s)) as Hok. fold (resolve_segments pcwd s) in Hok.
  pose proof (drop_common_spec (resolve_segments pcwd root) (resolve_segments pcwd s)) as Hspec.
  destruct (drop_common _ _) as [up down]. destruct Hspec as (c & Hr & Hs & Hdiff). rewrite Hr, Hs in *. clear Hr Hs.
  destruct up as [|x up].
  - rewrite app_nil_r. cbn [fmap list_fmap app]. apply Forall_app in Hok as [_ Hok]. destruct down as [|y down].
    + split; [intros _|done]. exists []. split; [done|]. done.
    + apply Forall_cons in Hok as [Hy _]. destruct (join_head y down Hy) as [Hn Ha].
      rewrite bool_decide_eq_false_2, Ha, startsWith_join by done. cbn [orb negb]. rewrite andb_true_r, negb_true_iff.
      split.
      * intros Hf. exists (y :: down). split; [done|]. by intros z [= <-].
      * intros (rest & Hrest & Hh). apply app_inv_head in Hrest. subst rest. by apply Hh.
  - split.
    + rewrite fmap_cons. cbn [app]. intros H. exfalso.
      assert (∀ l, startsWith dotdot (join [slash] (dotdot :: l)) = true ∧ join [slash] (dotdot :: l) ≠ []) as Hd
        by (intros [|z l]; by cbn).
      destruct (Hd ((const dotdot <$> up) ++ down)) as [H1 H2]. change (const dotdot x) with dotdot in H.
      rewrite bool_decide_eq_false_2, H1 in H by exact H2. done.
    + intros (rest & Hrest & _). rewrite <- app_assoc in Hrest. apply app_inv_head in Hrest.
      destruct Hdiff as [?|[->|(a & b & p & q & [= <- <-] & -> & Hab)]]; [done|done|].
      injection Hrest as Heq _. by destruct Hab.
Qed.

(** ** Witnesses *)

Lemma plan_denies_witness :
  action (evaluateAiraPermissionRequest [slash] (request_of (js "bash") (Some (js "ls"))) yolo [] true None) = deny.
Proof.
  destruct (plan_denies [slash] (request_of (js "bash") (Some (js "ls"))) yolo [] None) as [_ H]. apply H. vm_compute. reflexivity.
Defined.

Definition rule0 (i : string) (m : AiraPermissionRuleMatch) (a : AiraPermissionAction) (s : string) (at_ : Z) : AiraPermissionRule :=
  {| rule_id := js i; rule_tool := js "bash"; rule_subject := js s; rule_match := m; rule_action := a;
     rule_scope := persistent; rule_createdAt := at_; rule_note := None |}.

(** An older exact rule beats a newer wildcard. *)
Lemma best_rule_wins_witness :
  let rules := [rule0 "e" exact allow "rm x" 1; rule0 "w" wildcard deny "rm *" 9] in
  rule_id <$> matchBestRule (request_of (js "bash") (Some (js "rm x"))) rules = Some (js "e").
Proof.
  cbn zeta. pose proof (best_rule_wins (request_of (js "bash") (Some (js "rm x")))
    [rule0 "e" exact allow "rm x" 1; rule0 "w" wildcard deny "rm *" 9]) as H.
  destruct (matchBestRule _ _) as [w|] eqn:E; [|vm_compute in E; discriminate].
  destruct H as [_ _]. vm_compute in E. injection E as <-. vm_compute. reflexivity.
Defined.

End PolicyProps.
