(* ===== verification/Interaction.v ===== *)
(** * The interaction manager

    Models [aira/interaction/types.ts] and [aira/interaction/manager.ts]: the one
    pending question of a session and every way it is resolved.  Promises, timers and
    abort listeners are part of the state; the calls of a promise's [resolve] and of the
    goal seam are logs. *)
From S2P Require Import Prelude JsMap JsString.

Module Interaction.

(** ** Data *)

Inductive AiraInteractionType := t_permission | t_semantic.
Inductive AiraInteractionResolution := answered | cancelled | timed_out | unavailable | superseded.
Inductive decision := allow_once | allow_session | allow_always | d_deny.

#[export] Instance AiraInteractionResolution_eq_dec : EqDecision AiraInteractionResolution.
Proof. solve_decision. Defined.

Record AiraInteractionChoice := { ch_id : jsstr; ch_label : jsstr; ch_description : option jsstr }.

(** The permission card data, as far as the manager bounds it. *)
Record AiraPermissionPresentation := {
  pr_tool : jsstr; pr_capability : jsstr; pr_operation : jsstr; pr_subject : jsstr; pr_redacted : bool;
  pr_reason : jsstr; pr_details : list (jsstr * jsstr); pr_outsideWorkspace : option bool; pr_summary : jsstr }.

Record AiraInteractionRequest := {
  rq_type : AiraInteractionType;
  rq_question : jsstr;
  rq_context : option jsstr;
  rq_choices : option (list AiraInteractionChoice);
  rq_multiSelect : bool;      (** the property is [true] *)
  rq_freeform : bool;
  rq_owner : option jsstr;
  rq_timeoutMs : option Z;    (** a whole number of milliseconds *)
  rq_permission : option AiraPermissionPresentation }.

Record AiraInteractionAnswer := {
  an_interactionId : jsstr;
  an_type : AiraInteractionType;
  an_resolution : AiraInteractionResolution;
  an_selections : list jsstr;
  an_text : option jsstr;
  an_decision : option decision }.

Definition type_name (t : AiraInteractionType) : jsstr :=
  match t with t_permission => js "permission" | t_semantic => js "semantic" end.

Definition MAX_QUESTION_CHARS : Z := 500.
Definition MAX_CONTEXT_CHARS : Z := 1200.
Definition MAX_CHOICES : Z := 12.
Definition MAX_CHOICE_LABEL_CHARS : Z := 120.
Definition MAX_CHOICE_DESCRIPTION_CHARS : Z := 300.
Definition MAX_OWNER_CHARS : Z := 80.
Definition MAX_CLOSED_HISTORY : Z := 4.
Definition MAX_PROMPT_PROJECTION_CHARS : Z := 200.

(** ** Normalization of a request *)

Definition boundedText (value : jsstr) (max : Z) : jsstr := bound_text max (trim value).

(** [a || b] on strings, and [...(v ? { k: f(v) } : {})]. *)
Definition or_text (a b : jsstr) : jsstr := match a with [] => b | _ => a end.
Definition when_text (v : option jsstr) (f : jsstr → jsstr) : option jsstr :=
  match v with Some ((_ :: _) as s) => Some (f s) | _ => None end.

Definition bound_choice (index : nat) (c : AiraInteractionChoice) : AiraInteractionChoice :=
  {| ch_id := boundedText (or_text (ch_id c) (js "c" ++ num_str (Z.of_nat index + 1))) 40;
     ch_label := boundedText (or_text (ch_label c) (js "Option " ++ num_str (Z.of_nat index + 1))) MAX_CHOICE_LABEL_CHARS;
     ch_description := when_text (ch_description c) (λ d, boundedText d MAX_CHOICE_DESCRIPTION_CHARS) |}.

(** Keep the first choice of every id. *)
Fixpoint distinct_choices (seen : list jsstr) (l : list AiraInteractionChoice) : list AiraInteractionChoice :=
  match l with
  | [] => []
  | c :: l' => if bool_decide (ch_id c ∈ seen) then distinct_choices seen l' else c :: distinct_choices (ch_id c :: seen) l'
  end.

Definition boundedPermissionPresentation (p : AiraPermissionPresentation) : AiraPermissionPresentation :=
  {| pr_tool := boundedText (pr_tool p) 40;
     pr_capability := boundedText (pr_capability p) 24;
     pr_operation := boundedText (pr_operation p) 48;
     pr_subject := boundedText (pr_subject p) 400;
     pr_redacted := pr_redacted p;
     pr_reason := boundedText (pr_reason p) 200;
     pr_details := (λ row, (boundedText row.1 32, boundedText row.2 200)) <$> take 4 (pr_details p);
     pr_outsideWorkspace := pr_outsideWorkspace p;
     pr_summary := boundedText (pr_summary p) 60 |}.

Definition normalizeAiraInteractionRequest (r : AiraInteractionRequest) : AiraInteractionRequest :=
  let question := boundedText (rq_question r) MAX_QUESTION_CHARS in
  let choices := distinct_choices [] (imap bound_choice (take (Z.to_nat MAX_CHOICES) (default [] (rq_choices r)))) in
  {| rq_type := rq_type r;
     rq_question := or_text question (js "Question");
     rq_context := when_text (rq_context r) (λ c, boundedText c MAX_CONTEXT_CHARS);
     rq_choices := match choices with [] => None | _ => Some choices end;
     rq_multiSelect := rq_multiSelect r && (0 <? zlen choices);
     rq_freeform := rq_freeform r;
     rq_owner := when_text (rq_owner r) (λ o, boundedText o MAX_OWNER_CHARS);
     rq_timeoutMs := match rq_timeoutMs r with
                     | Some t => if 0 <? t then Some (Z.min 86400000 t) else None
                     | None => None end;
     rq_permission := boundedPermissionPresentation <$> rq_permission r |}.

(** ** The manager *)

Record PendingInteraction := {
  pe_id : jsstr;
  pe_request : AiraInteractionRequest;
  pe_createdAt : Z;
  pe_timer : bool;              (** a timeout is installed *)
  pe_signal : option nat        (** the signal whose abort listener is installed *) }.

Record ClosedRow := {
  cl_id : jsstr; cl_type : AiraInteractionType; cl_prompt : jsstr; cl_resolution : AiraInteractionResolution;
  cl_closedAt : Z }.

Record AiraInteractionPendingProjection := {
  pp_id : jsstr; pp_type : AiraInteractionType; pp_prompt : jsstr; pp_context : option jsstr;
  pp_choices : list AiraInteractionChoice; pp_choicesCount : Z; pp_multiSelect : bool; pp_freeform : bool;
  pp_owner : option jsstr; pp_permission : option AiraPermissionPresentation; pp_waitingSince : Z;
  pp_durationMs : Z }.

Record AiraInteractionStatus := {
  is_pending : bool;
  is_question : option AiraInteractionPendingProjection;
  is_recentClosed : list ClosedRow;
  is_uiAttached : bool;
  is_updatedAt : Z;
  is_summary : jsstr }.

Inductive goal_state := g_pending | g_answered | g_closed.

Record goal_change := { gc_type : AiraInteractionType; gc_state : goal_state; gc_prompt : jsstr; gc_detail : option jsstr }.

(** What one call reads: the clock, the timeout setting, and the generated ids. *)
Record Env := { now : Z; setting_timeoutMs : option Z; new_id : jsstr; new_id2 : jsstr }.

Record Manager := {
  pending : option PendingInteraction;
  uiAttached : bool;
  closed : list ClosedRow;
  listeners : list nat;
  snapshot : AiraInteractionStatus;
  disposed : bool;
  resolved : list (jsstr * AiraInteractionAnswer);  (** calls of a promise's [resolve], latest last *)
  goals : list goal_change;                         (** calls of the goal seam, latest last *)
  delivered : list (nat * AiraInteractionStatus);   (** calls of the listeners, latest last *)
  opened : list jsstr  (** history: the ids [ask] returned a pending promise for; nothing reads it *) }.

Definition set_pending v m := {| pending := v; uiAttached := uiAttached m; closed := closed m; listeners := listeners m;
  snapshot := snapshot m; disposed := disposed m; resolved := resolved m; goals := goals m; delivered := delivered m; opened := opened m |}.
Definition set_ui v m := {| pending := pending m; uiAttached := v; closed := closed m; listeners := listeners m;
  snapshot := snapshot m; disposed := disposed m; resolved := resolved m; goals := goals m; delivered := delivered m; opened := opened m |}.
Definition set_closed v m := {| pending := pending m; uiAttached := uiAttached m; closed := v; listeners := listeners m;
  snapshot := snapshot m; disposed := disposed m; resolved := resolved m; goals := goals m; delivered := delivered m; opened := opened m |}.
Definition set_listeners v m := {| pending := pending m; uiAttached := uiAttached m; closed := closed m; listeners := v;
  snapshot := snapshot m; disposed := disposed m; resolved := resolved m; goals := goals m; delivered := delivered m; opened := opened m |}.
Definition set_snapshot v d m := {| pending := pending m; uiAttached := uiAttached m; closed := closed m; listeners := listeners m;
  snapshot := v; disposed := disposed m; resolved := resolved m; goals := goals m; delivered := d; opened := opened m |}.
Definition set_disposed m := {| pending := pending m; uiAttached := uiAttached m; closed := closed m; listeners := listeners m;
  snapshot := snapshot m; disposed := true; resolved := resolved m; goals := goals m; delivered := delivered m; opened := opened m |}.
Definition call_resolve i a m := {| pending := pending m; uiAttached := uiAttached m; closed := closed m; listeners := listeners m;
  snapshot := snapshot m; disposed := disposed m; resolved := resolved m ++ [(i, a)]; goals := goals m; delivered := delivered m; opened := opened m |}.
Definition notifyGoal g m := {| pending := pending m; uiAttached := uiAttached m; closed := closed m; listeners := listeners m;
  snapshot := snapshot m; disposed := disposed m; resolved := resolved m; goals := goals m ++ [g]; delivered := delivered m; opened := opened m |}.
Definition open_promise i m := {| pending := pending m; uiAttached := uiAttached m; closed := closed m; listeners := listeners m;
  snapshot := snapshot m; disposed := disposed m; resolved := resolved m; goals := goals m; delivered := delivered m; opened := opened m ++ [i] |}.

Definition buildSnapshot (env : Env) (m : Manager) : AiraInteractionStatus :=
  let closed := take (Z.to_nat MAX_CLOSED_HISTORY) (closed m) in
  match pending m with
  | None => {| is_pending := false; is_question := None; is_recentClosed := closed; is_uiAttached := uiAttached m;
               is_updatedAt := now env; is_summary := js "idle" |}
  | Some p =>
      let r := pe_request p in
      {| is_pending := true;
         is_question := Some {|
           pp_id := pe_id p; pp_type := rq_type r;
           pp_prompt := boundedText (rq_question r) MAX_PROMPT_PROJECTION_CHARS;
           pp_context := when_text (rq_context r) (λ c, boundedText c 400);
           pp_choices := (λ c, {| ch_id := ch_id c; ch_label := ch_label c; ch_description := when_text (ch_description c) (λ d, d) |})
                           <$> default [] (rq_choices r);
           pp_choicesCount := zlen (default [] (rq_choices r));
           pp_multiSelect := rq_multiSelect r; pp_freeform := rq_freeform r; pp_owner := rq_owner r;
           pp_permission := rq_permission r; pp_waitingSince := pe_createdAt p;
           pp_durationMs := now env - pe_createdAt p |};
         is_recentClosed := closed; is_uiAttached := uiAttached m; is_updatedAt := now env;
         is_summary := js "question pending (" ++ type_name (rq_type r) ++ js ")" |}
  end.

Definition publish (env : Env) (m : Manager) : Manager :=
  let s := buildSnapshot env m in
  set_snapshot s (delivered m ++ ((λ l, (l, s)) <$> listeners m)) m.

Definition empty_manager : Manager :=
  {| pending := None; uiAttached := false; closed := []; listeners := [];
     snapshot := {| is_pending := false; is_question := None; is_recentClosed := []; is_uiAttached := false;
                    is_updatedAt := 0; is_summary := [] |};
     disposed := false; resolved := []; goals := []; delivered := []; opened := [] |}.

Definition newManager (env : Env) : Manager :=
  set_snapshot (buildSnapshot env empty_manager) [] empty_manager.

Definition activate (env : Env) (m : Manager) : Manager := if disposed m then m else publish env m.

Definition recordClosed (env : Env) (r : AiraInteractionRequest) (res : AiraInteractionResolution) (m : Manager) : Manager :=
  set_closed (take (Z.to_nat MAX_CLOSED_HISTORY)
    ({| cl_id := new_id env; cl_type := rq_type r; cl_prompt := boundedText (rq_question r) MAX_PROMPT_PROJECTION_CHARS;
        cl_resolution := res; cl_closedAt := now env |} :: closed m)) m.

Definition answerFor (i : jsstr) (t : AiraInteractionType) (res : AiraInteractionResolution) : AiraInteractionAnswer :=
  {| an_interactionId := i; an_type := t; an_resolution := res; an_selections := []; an_text := None; an_decision := None |}.

(** What [ask] returns: a resolved promise, or the pending promise of an interaction. *)
Inductive asked := asked_now (a : AiraInteractionAnswer) | asked_pending (i : jsstr).

(** [signal] is the caller's signal and whether it is already aborted. *)
Definition askInteraction (env : Env) (request : AiraInteractionRequest) (signal : option (nat * bool)) (m : Manager)
    : Manager * asked :=
  let r := normalizeAiraInteractionRequest request in
  if disposed m then (m, asked_now (answerFor (new_id env) (rq_type r) unavailable))
  else match pending m with
  | Some _ => (m, asked_now (answerFor (new_id env) (rq_type r) superseded))
  | None =>
      if negb (uiAttached m) then
        (publish env (recordClosed env r unavailable m), asked_now (answerFor (new_id2 env) (rq_type r) unavailable))
      else match signal with
      | Some (_, true) =>
          (publish env (recordClosed env r cancelled m), asked_now (answerFor (new_id2 env) (rq_type r) cancelled))
      | _ =>
          let timeoutMs := match rq_timeoutMs r with Some t => t | None => default 0 (setting_timeoutMs env) end in
          let p := {| pe_id := new_id env; pe_request := r; pe_createdAt := now env;
                      pe_timer := 0 <? timeoutMs; pe_signal := fst <$> signal |} in
          let m := open_promise (new_id env) (set_pending (Some p) m) in
          let m := notifyGoal {| gc_type := rq_type r; gc_state := g_pending; gc_prompt := rq_question r; gc_detail := rq_owner r |} m in
          (publish env m, asked_pending (new_id env))
      end
  end.

(** The timers and listeners live in the pending record: clearing it removes them. *)
Definition resolvePending (env : Env) (i : jsstr) (res : AiraInteractionResolution)
    (answer : option (list jsstr * option jsstr * option decision)) (m : Manager) : Manager :=
  match pending m with
  | None => m
  | Some p =>
      if negb (bool_decide (pe_id p = i)) then m
      else
        let is_answer := bool_decide (res = answered) in
        let complete := {|
          an_interactionId := i; an_type := rq_type (pe_request p); an_resolution := res;
          an_selections := if is_answer then match answer with Some (s, _, _) => s | None => [] end else [];
          an_text := if is_answer then match answer with Some (_, t, _) => t | None => None end else None;
          an_decision := if is_answer then match answer with Some (_, _, d) => d | None => None end else None |} in
        let m := call_resolve i complete (set_pending None m) in
        let m := recordClosed env (pe_request p) res m in
        let m := notifyGoal {| gc_type := rq_type (pe_request p);
                               gc_state := if is_answer then g_answered else g_closed;
                               gc_prompt := rq_question (pe_request p); gc_detail := rq_owner (pe_request p) |} m in
        publish env m
  end.

Definition answerInteraction (env : Env) (i : jsstr) (res : AiraInteractionResolution)
    (answer : list jsstr * option jsstr * option decision) (m : Manager) : Manager * bool :=
  match pending m with
  | Some p => if bool_decide (pe_id p = i) then (resolvePending env i res (Some answer) m, true) else (m, false)
  | None => (m, false)
  end.

Definition attachUI (env : Env) (m : Manager) : Manager := if uiAttached m then m else publish env (set_ui true m).
Definition detachUI (env : Env) (m : Manager) : Manager := if uiAttached m then publish env (set_ui false m) else m.

Definition status_op (env : Env) (m : Manager) : Manager * AiraInteractionStatus :=
  let m := publish env m in (m, snapshot m).

Definition subscribe (l : nat) (m : Manager) : Manager :=
  set_listeners (if bool_decide (l ∈ listeners m) then listeners m else listeners m ++ [l]) m.
Definition unsubscribe (l : nat) (m : Manager) : Manager := set_listeners (filter (λ l', l' ≠ l) (listeners m)) m.

Definition resolvePendingAll (env : Env) (res : AiraInteractionResolution) (m : Manager) : Manager :=
  match pending m with
  | None => m
  | Some p =>
      let m := call_resolve (pe_id p) (answerFor (pe_id p) (rq_type (pe_request p)) res) (set_pending None m) in
      let m := recordClosed env (pe_request p) res m in
      notifyGoal {| gc_type := rq_type (pe_request p); gc_state := g_closed;
                    gc_prompt := rq_question (pe_request p); gc_detail := rq_owner (pe_request p) |} m
  end.

Definition dispose (env : Env) (m : Manager) : Manager :=
  if disposed m then m
  else publish env (set_listeners [] (resolvePendingAll env unavailable (set_disposed m))).

(** The timeout fires, and a signal is aborted; neither does anything once the
    interaction is resolved, because its timer and listener are gone. *)
Definition timeout_fires (env : Env) (m : Manager) : Manager :=
  match pending m with
  | Some p => if pe_timer p then resolvePending env (pe_id p) timed_out None m else m
  | None => m
  end.
Definition signal_aborts (env : Env) (s : nat) (m : Manager) : Manager :=
  match pending m with
  | Some p => if bool_decide (pe_signal p = Some s) then resolvePending env (pe_id p) cancelled None m else m
  | None => m
  end.

(** ** Steps *)

Inductive step (m : Manager) : Manager → Prop :=
| step_activate env : step m (activate env m)
| step_ask env r s : new_id env ∉ opened m → step m (askInteraction env r s m).1
| step_answer env i res a : step m (answerInteraction env i res a m).1
| step_attach env : step m (attachUI env m)
| step_detach env : step m (detachUI env m)
| step_status env : step m (status_op env m).1
| step_subscribe l : step m (subscribe l m)
| step_unsubscribe l : step m (unsubscribe l m)
| step_timeout env : step m (timeout_fires env m)
| step_abort env s : step m (signal_aborts env s m)
| step_dispose env : step m (dispose env m).

Inductive reachable : Manager → Prop :=
| reach_new env : reachable (newManager env)
| reach_step m m' : reachable m → step m m' → reachable m'.

(** ** The invariant *)

(** A resolution other than an answer carries nothing the user did not say. *)
Definition truthful (a : AiraInteractionAnswer) : Prop :=
  an_resolution a ≠ answered → an_selections a = [] ∧ an_text a = None ∧ an_decision a = None.

Definition request_bounded (r : AiraInteractionRequest) : Prop :=
  rq_question r ≠ [] ∧ zlen (rq_question r) <= MAX_QUESTION_CHARS
  ∧ from_option (λ c, zlen c <= MAX_CONTEXT_CHARS) True (rq_context r)
  ∧ zlen (default [] (rq_choices r)) <= MAX_CHOICES
  ∧ NoDup (ch_id <$> default [] (rq_choices r))
  ∧ Forall (λ c, zlen (ch_id c) <= 40 ∧ zlen (ch_label c) <= MAX_CHOICE_LABEL_CHARS
                 ∧ from_option (λ d, zlen d <= MAX_CHOICE_DESCRIPTION_CHARS) True (ch_description c))
      (default [] (rq_choices r))
  ∧ (rq_multiSelect r = true → default [] (rq_choices r) ≠ [])
  ∧ from_option (λ o, zlen o <= MAX_OWNER_CHARS) True (rq_owner r)
  ∧ from_option (λ t, 0 < t <= 86400000) True (rq_timeoutMs r).

Record wf (m : Manager) : Prop := {
  wf_nodup : NoDup (opened m);
  wf_once : opened m = (resolved m).*1 ++ match pending m with Some p => [pe_id p] | None => [] end;
  wf_ids : Forall (λ ia, an_interactionId ia.2 = ia.1 ∧ truthful ia.2) (resolved m);
  wf_request : from_option (λ p, request_bounded (pe_request p)) True (pending m);
  wf_closed : zlen (closed m) <= MAX_CLOSED_HISTORY;
  wf_disposed : disposed m = true → pending m = None }.

End Interaction.
