(* ===== verification/InteractionProps.v ===== *)
(** * Properties of the interaction manager

    Every question is resolved exactly once or is the one pending question, whatever
    answers, timeouts, aborts and disposals happen in which order. *)
From S2P Require Import Prelude JsMap JsString Interaction.

Module InteractionProps.
Import Interaction.

(** ** Normalization *)

Lemma boundedText_le s n : 0 < n → zlen (boundedText s n) <= n.
Proof. apply bound_text_le. Qed.

Lemma when_text_le v n : 0 < n → from_option (λ t, zlen t <= n) True (when_text v (λ c, boundedText c n)).
Proof. destruct v as [[|u s]|]; simpl; [done| |done]. apply boundedText_le. Qed.

Lemma distinct_choices_spec seen l :
  NoDup (ch_id <$> distinct_choices seen l) ∧ distinct_choices seen l `sublist_of` l
  ∧ Forall (λ c, ch_id c ∉ seen) (distinct_choices seen l).
Proof.
  revert seen. induction l as [|c l IH]; intros seen; simpl; [by repeat constructor|].
  case_bool_decide as Hc.
  - destruct (IH seen) as (H1 & H2 & H3). split_and!; [done|by constructor|done].
  - destruct (IH (ch_id c :: seen)) as (H1 & H2 & H3). rewrite fmap_cons. split_and!.
    + constructor; [|done]. intros (c' & Hid & Hin)%list_elem_of_fmap.
      rewrite Forall_forall in H3. specialize (H3 c' Hin). rewrite Hid in H3. apply H3. by left.
    + by constructor.
    + constructor; [done|]. eapply Forall_impl; [exact H3|]. intros x Hx ?. apply Hx. by right.
Qed.

(** The first choice of every id is kept. *)
Lemma distinct_choices_kept seen l i c :
  l !! i = Some c → ch_id c ∉ seen → (∀ j c', (j < i)%nat → l !! j = Some c' → ch_id c' ≠ ch_id c) →
  c ∈ distinct_choices seen l.
Proof.
  revert seen i. induction l as [|d l IH]; intros seen i Hi Hs Hf; [by rewrite lookup_nil in Hi|].
  destruct i as [|i]; simpl in *.
  - injection Hi as ->. rewrite bool_decide_eq_false_2 by done. by left.
  - assert (ch_id d ≠ ch_id c) as Hd by (apply (Hf 0%nat d); [lia|done]).
    case_bool_decide; [|right]; eapply IH; try done.
    all: try (intros j c' ??; apply (Hf (S j)); [lia|done]).
    intros [?|?]%elem_of_cons; [by apply Hd|done].
Qed.

Lemma or_text_default s d : d ≠ [] → or_text s d ≠ [].
Proof. by destruct s. Qed.

Lemma bounded_choice_spec i c :
  let b := bound_choice i c in
  zlen (ch_id b) <= 40 ∧ zlen (ch_label b) <= MAX_CHOICE_LABEL_CHARS
  ∧ from_option (λ d, zlen d <= MAX_CHOICE_DESCRIPTION_CHARS) True (ch_description b).
Proof.
  cbn [bound_choice ch_id ch_label ch_description].
  split_and!; [by apply boundedText_le|by apply boundedText_le|by apply when_text_le].
Qed.

Lemma normalized_bounded r : request_bounded (normalizeAiraInteractionRequest r).
Proof.
  unfold request_bounded, normalizeAiraInteractionRequest.
  set (cs := imap _ _). cbn [rq_question rq_context rq_choices rq_multiSelect rq_owner rq_timeoutMs].
  destruct (distinct_choices_spec [] cs) as (Hnd & Hsub & _).
  set (ds := distinct_choices [] cs) in *. clearbody ds.
  assert (default [] (match ds with [] => None | _ => Some ds end) = ds) as -> by by destruct ds.
  split_and!.
  - apply or_text_default. by vm_compute.
  - pose proof (boundedText_le (rq_question r) MAX_QUESTION_CHARS ltac:(done)) as H.
    destruct (boundedText _ _) as [|u s]; [by vm_compute|done].
  - by apply when_text_le.
  - apply sublist_length in Hsub. unfold cs in Hsub. rewrite length_imap, length_take in Hsub.
    unfold zlen, MAX_CHOICES in *. fold cs in Hsub. lia.
  - done.
  - eapply Forall_sublist; [exact Hsub|]. apply Forall_forall. intros c Hc.
    apply list_elem_of_lookup in Hc as (i & Hc). unfold cs in Hc.
    apply list_lookup_imap_Some in Hc as (d & _ & ->). apply bounded_choice_spec.
  - intros [_ Hlen]%andb_true_iff ->. done.
  - by apply when_text_le.
  - destruct (rq_timeoutMs r) as [t|]; [|done]. case_match; [|done]. bool_prop. simpl. lia.
Qed.

(** ** What the operations preserve *)

(** The goal seam sees a question open and close in turn; the result tells whether it
    still waits. *)
Fixpoint goal_protocol (waiting : bool) (l : list goal_change) : option bool :=
  match l with
  | [] => Some waiting
  | g :: l' => match gc_state g, waiting with
               | g_pending, false => goal_protocol true l'
               | (g_answered | g_closed), true => goal_protocol false l'
               | _, _ => None
               end
  end.

Lemma goal_protocol_snoc w l g :
  goal_protocol w (l ++ [g]) = match goal_protocol w l with Some w' => goal_protocol w' [g] | None => None end.
Proof.
  revert w; induction l as [|h l IH]; intros w; [done|]. cbn [app goal_protocol].
  by destruct (gc_state h), w; rewrite ?IH.
Qed.

Definition waiting (m : Manager) : bool := match pending m with Some _ => true | None => false end.

Definition inv (m : Manager) : Prop := wf m ∧ goal_protocol false (goals m) = Some (waiting m).

(** Operations that touch neither promises, history nor the goal seam. *)
Record same_core (m m' : Manager) : Prop := {
  sc_pending : pending m' = pending m;
  sc_opened : opened m' = opened m;
  sc_resolved : resolved m' = resolved m;
  sc_goals : goals m' = goals m;
  sc_disposed : disposed m' = disposed m }.

Lemma inv_core m m' : same_core m m' → zlen (closed m') <= MAX_CLOSED_HISTORY → inv m → inv m'.
Proof.
  intros [Hp Ho Hr Hg Hd] Hc [[] Hw]. unfold inv, waiting in *. rewrite Hg, Hp. split; [|done].
  split; rewrite ?Ho, ?Hr, ?Hp, ?Hd; done.
Qed.

Lemma publish_core env m : same_core m (publish env m).
Proof. by split. Qed.

Lemma publish_inv env m : inv m → inv (publish env m).
Proof. intros H. apply (inv_core m); [apply publish_core|exact (wf_closed _ (proj1 H))|done]. Qed.

Lemma recordClosed_bound env r res m : zlen (closed (recordClosed env r res m)) <= MAX_CLOSED_HISTORY.
Proof. cbn [recordClosed set_closed closed]. rewrite zlen_take. unfold MAX_CLOSED_HISTORY. lia. Qed.

Lemma recordClosed_inv env r res m : inv m → inv (recordClosed env r res m).
Proof. intros H. apply (inv_core m); [by split|apply recordClosed_bound|done]. Qed.

(** Resolving the pending question with a truthful answer. *)
Lemma close_inv m p a g env res :
  pending m = Some p → an_interactionId a = pe_id p → truthful a → gc_state g ≠ g_pending → inv m →
  inv (notifyGoal g (recordClosed env (pe_request p) res (call_resolve (pe_id p) a (set_pending None m)))).
Proof.
  intros Hp Ha Ht Hg [[] Hw]. rewrite Hp in wf_once0. split.
  - split; cbn; try done.
    + rewrite fmap_app, wf_once0. cbn. by rewrite app_nil_r.
    + apply Forall_app. split; [done|]. apply Forall_singleton. done.
    + apply recordClosed_bound.
  - change (goal_protocol false (goals m ++ [g]) = Some false).
    rewrite goal_protocol_snoc, Hw. unfold waiting. rewrite Hp. cbn. by destruct (gc_state g).
Qed.

Lemma resolvePending_inv env i res ans m : inv m → inv (resolvePending env i res ans m).
Proof.
  intros H. unfold resolvePending. destruct (pending m) as [p|] eqn:Hp; [|done].
  case_bool_decide as Hi; cbn [negb]; [|done]. subst i. apply publish_inv.
  apply close_inv; [done|done| |by case_bool_decide|done].
  unfold truthful. cbn. intros Hr. by rewrite !bool_decide_eq_false_2.
Qed.

Lemma resolvePending_all_inv env res m : res ≠ answered → inv m → inv (resolvePendingAll env res m).
Proof.
  intros Hr H. unfold resolvePendingAll. destruct (pending m) as [p|] eqn:Hp; [|done].
  by apply close_inv.
Qed.

Lemma resolvePendingAll_none env res m : pending (resolvePendingAll env res m) = None.
Proof. unfold resolvePendingAll. by destruct (pending m) eqn:Hp. Qed.

Lemma ask_inv env r s m : new_id env ∉ opened m → inv m → inv (askInteraction env r s m).1.
Proof.
  intros Hfresh H. unfold askInteraction. destruct (disposed m) eqn:Hd; [done|].
  destruct (pending m) as [p|] eqn:Hp; [done|].
  destruct (uiAttached m); cbn [negb]; [|by apply publish_inv, recordClosed_inv].
  assert (∀ p, pe_id p = new_id env → request_bounded (pe_request p) → ∀ g, gc_state g = g_pending →
    inv (notifyGoal g (open_promise (new_id env) (set_pending (Some p) m)))) as Hopen.
  { intros p Hid Hreq g Hg. destruct H as [[] Hw]. rewrite Hp, app_nil_r in wf_once0. split.
    - split; cbn; try done.
      + apply NoDup_app. split_and!; [done| |by apply NoDup_singleton].
        by intros x Hx ->%list_elem_of_singleton.
      + by rewrite Hid, wf_once0.
      + by rewrite Hd.
    - change (goal_protocol false (goals m ++ [g]) = Some true).
      rewrite goal_protocol_snoc, Hw. unfold waiting. rewrite Hp. cbn. by rewrite Hg. }
  destruct s as [[? []]|]; [by apply publish_inv, recordClosed_inv| |].
  all: apply publish_inv, Hopen; [done|apply normalized_bounded|done].
Qed.

Lemma dispose_inv env m : inv m → inv (dispose env m).
Proof.
  intros H. unfold dispose. destruct (disposed m) eqn:Hd; [done|]. apply publish_inv.
  destruct (pending m) as [p|] eqn:Hp.
  - assert (inv (resolvePendingAll env unavailable m)) as H1 by by apply resolvePending_all_inv.
    assert (set_listeners [] (resolvePendingAll env unavailable (set_disposed m))
            = set_listeners [] (set_disposed (resolvePendingAll env unavailable m))) as ->.
    { unfold resolvePendingAll. cbn [pending set_disposed]. by rewrite Hp. }
    destruct H1 as [[] Hw]. split; [|done]. split; cbn; try done.
    intros _. apply resolvePendingAll_none.
  - unfold resolvePendingAll. cbn [pending set_disposed]. rewrite Hp.
    destruct H as [[] Hw]. split; [|done]. split; cbn; done.
Qed.

Lemma step_inv m m' : step m m' → inv m → inv m'.
Proof.
  intros Hs H. destruct Hs.
  - unfold activate. case_match; [done|by apply publish_inv].
  - by apply ask_inv.
  - unfold answerInteraction. destruct (pending m); [|done]. case_bool_decide; [by apply resolvePending_inv|done].
  - unfold attachUI. case_match; [done|]. apply publish_inv.
    apply (inv_core m); [by split|exact (wf_closed _ (proj1 H))|done].
  - unfold detachUI. case_match; [|done]. apply publish_inv.
    apply (inv_core m); [by split|exact (wf_closed _ (proj1 H))|done].
  - by apply publish_inv.
  - apply (inv_core m); [by split|exact (wf_closed _ (proj1 H))|done].
  - apply (inv_core m); [by split|exact (wf_closed _ (proj1 H))|done].
  - unfold timeout_fires. destruct (pending m); [|done]. case_match; [by apply resolvePending_inv|done].
  - unfold signal_aborts. destruct (pending m); [|done]. case_bool_decide; [by apply resolvePending_inv|done].
  - by apply dispose_inv.
Qed.

Lemma reachable_inv m : reachable m → inv m.
Proof.
  induction 1 as [env|m m' _ IH Hs]; [|by eapply step_inv].
  split; [|done]. split; cbn; try done. constructor.
Qed.

(** ** The properties *)

(** C39. However answers, timeouts, aborts, UI changes and the disposal interleave: every
    question that was opened has been resolved exactly once, with its own id, or is the
    one pending question; a resolution that is not an answer carries no selection, text
    or decision; the goal seam has seen every question open and then close; at most four
    closed questions are kept; the pending request is within its bounds; and after the
    disposal nobody waits any more. *)
Theorem every_question_resolved_once m :
  reachable m →
  NoDup (opened m)
  ∧ opened m = (resolved m).*1 ++ match pending m with Some p => [pe_id p] | None => [] end
  ∧ Forall (λ ia, an_interactionId ia.2 = ia.1 ∧ truthful ia.2) (resolved m)
  ∧ goal_protocol false (goals m) = Some (waiting m)
  ∧ zlen (closed m) <= MAX_CLOSED_HISTORY
  ∧ from_option (λ p, request_bounded (pe_request p)) True (pending m)
  ∧ (disposed m = true → opened m = (resolved m).*1).
Proof.
  intros [[] Hw]%reachable_inv. split_and!; try done.
  intros Hd. by rewrite wf_once0, (wf_disposed0 Hd), app_nil_r at 1.
Qed.

Definition demo_env (n : Z) : Env :=
  {| now := n; setting_timeoutMs := Some 1000; new_id := js "q-" ++ num_str n; new_id2 := js "x-" ++ num_str n |}.
Definition demo_request : AiraInteractionRequest :=
  {| rq_type := t_semantic; rq_question := js " Which one? "; rq_context := None;
     rq_choices := Some [{| ch_id := js "a"; ch_label := js "A"; ch_description := None |};
                         {| ch_id := js "a"; ch_label := js "B"; ch_description := None |}];
     rq_multiSelect := true; rq_freeform := false; rq_owner := Some (js "agent"); rq_timeoutMs := None;
     rq_permission := None |}.

(** A session that asks, times out, asks again and is disposed of. *)
Definition demo_session : Manager :=
  dispose (demo_env 5)
    (askInteraction (demo_env 4) demo_request None
      (timeout_fires (demo_env 3)
        (askInteraction (demo_env 2) demo_request None (attachUI (demo_env 1) (newManager (demo_env 0)))).1)).1.

Lemma demo_session_reachable : reachable demo_session.
Proof.
  eapply reach_step; [|apply step_dispose]. eapply reach_step; [|apply step_ask; by apply (bool_decide_unpack _); vm_compute].
  eapply reach_step; [|apply step_timeout]. eapply reach_step; [|apply step_ask; by apply (bool_decide_unpack _); vm_compute].
  eapply reach_step; [|apply step_attach]. apply reach_new.
Qed.

Theorem every_question_resolved_once_witness :
  reachable demo_session
  ∧ (an_resolution <$> (resolved demo_session).*2) = [timed_out; unavailable]
  ∧ opened demo_session = (resolved demo_session).*1.
Proof.
  split; [apply demo_session_reachable|]. split; [by vm_compute|].
  destruct (every_question_resolved_once demo_session demo_session_reachable) as (_ & _ & _ & _ & _ & _ & H).
  apply H. by vm_compute.
Defined.

(** [ask] never hangs on nobody: it returns a pending promise exactly when the
    manager is alive, no question is open, a UI is attached and the signal is not aborted,
    and then that question is the pending one.  In every other case the promise is already
    resolved, with a resolution that is not an answer and that names the reason, and
    no open question is touched. *)
Theorem ask_outcome env r s m :
  let '(m', out) := askInteraction env r s m in
  match out with
  | asked_pending i =>
      disposed m = false ∧ pending m = None ∧ uiAttached m = true ∧ (snd <$> s) ≠ Some true
      ∧ i = new_id env
      ∧ ∃ p, pending m' = Some p ∧ pe_id p = i ∧ pe_request p = normalizeAiraInteractionRequest r
  | asked_now a =>
      pending m' = pending m ∧ resolved m' = resolved m
      ∧ an_resolution a = (if disposed m then unavailable
                           else if waiting m then superseded
                           else if negb (uiAttached m) then unavailable else cancelled)
      ∧ (disposed m = false → waiting m = false → uiAttached m = true → (snd <$> s) = Some true)
      ∧ truthful a
  end.
Proof.
  unfold askInteraction, waiting. destruct (disposed m); [by split_and!|].
  destruct (pending m) as [p|] eqn:Hp; [by split_and!|].
  destruct (uiAttached m) eqn:Hu; cbn [negb]; [|cbn; rewrite Hp; by split_and!].
  destruct s as [[k []]|]; cbn; [rewrite Hp; by split_and!| |]; split_and!; by eauto.
Qed.

Theorem ask_outcome_witness :
  ∃ p, pending (askInteraction (demo_env 2) demo_request None (attachUI (demo_env 1) (newManager (demo_env 0)))).1 = Some p
       ∧ pe_request p = normalizeAiraInteractionRequest demo_request.
Proof.
  pose proof (ask_outcome (demo_env 2) demo_request None (attachUI (demo_env 1) (newManager (demo_env 0)))) as H.
  destruct (askInteraction _ _ _ _) as [m' [a|i]] eqn:E; [by vm_compute in E|].
  destruct H as (_ & _ & _ & _ & _ & p & Hp & _ & Hr). by exists p.
Defined.

(** A normalized request has a non-empty question, at most twelve choices with distinct
    ids, text fields within their limits, a selection mode only with choices and a timeout
    between a millisecond and a day; and of the choices it is given the first under
    every id is kept. *)
Theorem normalization_bounds r :
  request_bounded (normalizeAiraInteractionRequest r)
  ∧ ∀ i c, imap bound_choice (take 12 (default [] (rq_choices r))) !! i = Some c →
      (∀ j c', (j < i)%nat → imap bound_choice (take 12 (default [] (rq_choices r))) !! j = Some c' → ch_id c' ≠ ch_id c) →
      c ∈ default [] (rq_choices (normalizeAiraInteractionRequest r)).
Proof.
  split; [apply normalized_bounded|]. intros i c Hi Hf.
  pose proof (distinct_choices_kept [] _ _ _ Hi ltac:(by apply not_elem_of_nil) Hf) as Hin.
  unfold normalizeAiraInteractionRequest. cbn [rq_choices].
  change (Z.to_nat MAX_CHOICES) with 12%nat.
  by destruct (distinct_choices [] (imap bound_choice (take 12 (default [] (rq_choices r))))).
Qed.

Theorem normalization_bounds_witness :
  {| ch_id := js "a"; ch_label := js "A"; ch_description := None |}
    ∈ default [] (rq_choices (normalizeAiraInteractionRequest demo_request)).
Proof.
  destruct (normalization_bounds demo_request) as [_ H]. apply (H 0%nat); [by vm_compute|]. intros j; lia.
Defined.

End InteractionProps.
