(* ===== verification/Presentation.v ===== *)
(** * The permission card

    Models [aira/permissions/presentation.ts]: the bounded projection of a permission
    request that the dialog shows.  The redaction of secrets
    is an argument, because nothing here depends on what it masks; [Evidence] models the
    chain of expressions that stands behind it. *)
From S2P Require Import Prelude JsMap JsString Capabilities Policy Interaction.

Module Presentation.
Import Capabilities Policy Interaction.

(** ** Tool arguments

    The arguments of a tool call are JSON values as the model wrote them.  An object or
    array carries the text of its [JSON.stringify], [None] when that throws or gives
    [undefined]; an array also its items. *)
Inductive argval :=
| v_string (s : jsstr) | v_number (text : jsstr) | v_bool (b : bool) | v_null | v_undefined
| v_array (items : list argval) (json : option jsstr) | v_object (json : option jsstr).

Definition args_t : Type := list (jsstr * argval).

(** [typeof args?.[key] === "string" ? args[key] : undefined] *)
Definition readString (key : string) (args : args_t) : option jsstr :=
  match mget (js key) args with Some (v_string s) => Some s | _ => None end.

(** The argument is the value [true]. *)
Definition is_true (key : string) (args : args_t) : bool :=
  match mget (js key) args with Some (v_bool b) => b | _ => false end.

Definition MAX_SUBJECT_CHARS : Z := 400.
Definition MAX_SUMMARY_CHARS : Z := 60.
Definition MAX_DETAIL_ROWS : Z := 4.
Definition MAX_DETAIL_VALUE_CHARS : Z := 120.
Definition MAX_PARAM_VALUE_CHARS : Z := 60.
Definition MAX_PARAM_ROWS : Z := 3.

(** [SECRET_PARAM_KEYS]: an anchored alternation without repetition, so a finite list;
    its flag folds the case of ASCII letters. *)
Definition ascii_lower (u : Z) : Z := if (65 <=? u) && (u <=? 90) then u + 32 else u.
Definition joined (a b : string) : list jsstr := (λ sep, js a ++ sep ++ js b) <$> [[]; [95]; [45]].
Definition SECRET_PARAM_KEYS : list jsstr :=
  joined "api" "key" ++ (js <$> ["password"; "passwd"; "pwd"; "secret"; "token"; "authorization"; "cookie"]%string)
  ++ [js "setcookie"; js "set-cookie"; js "credential"]
  ++ joined "private" "key" ++ joined "access" "key" ++ joined "refresh" "token" ++ joined "client" "secret"
  ++ joined "connection" "string".
Definition is_secret_key (key : jsstr) : bool := bool_decide (ascii_lower <$> key ∈ SECRET_PARAM_KEYS).

Definition boundText (value : jsstr) (max : Z) : jsstr := bound_text max (trim value).

Record AiraPermissionPresentationInput := {
  in_tool : jsstr;
  in_capability : AiraClassifiedCapability;
  in_browserOperation : option jsstr;
  in_subject : option jsstr;
  in_args : args_t;
  in_evaluation : AiraPermissionEvaluation;
  in_cwd : jsstr;
  in_projectRoot : option jsstr }.

Definition operationLabel (t : jsstr) (c : AiraClassifiedCapability) (op : option jsstr) : jsstr :=
  match c with
  | process => if str_eqb t (js "process_start") then js "Start process"
               else if str_eqb t (js "process_stop") then js "Stop process" else js "Shell command"
  | mutating => if str_eqb t (js "write") then js "Write file"
                else if str_eqb t (js "edit") then js "Edit file" else js "File operation"
  | browser => if bool_decide (op = Some (js "observe")) then js "Browser observation"
               else if bool_decide (op = Some (js "navigate")) then js "Browser navigation"
               else if bool_decide (op = Some (js "lifecycle")) then js "Browser lifecycle"
               else js "Browser interaction"
  | network => js "Network request"
  | unknown => js "Extension tool"
  | _ => airaCapabilityClassLabel c
  end.

(** [s && s.trim() !== ""] for an optional string. *)
Definition filled (s : option jsstr) : option jsstr :=
  match s with Some s => if bool_decide (trim s = []) then None else Some s | None => None end.

Definition browserTarget (args : args_t) : option jsstr :=
  match filled (readString "url" args) with
  | Some url => Some url
  | None => filled (readString "domain" args)
  end.

Section Redaction.
Context (redactVerificationSecrets : jsstr → jsstr) (pcwd : jsstr).

(** The [||] operator with the ellipsis on its right. *)
Definition or_ellipsis (s : jsstr) : jsstr := match s with [] => [ellipsis] | _ => s end.

Definition boundedParamValue (key : jsstr) (value : argval) : jsstr :=
  if is_secret_key (trim key) then js "[REDACTED]"
  else match value with
  | v_undefined | v_null => js "null"
  | v_string s => or_ellipsis (boundText (redactVerificationSecrets s) MAX_PARAM_VALUE_CHARS)
  | v_number t => t
  | v_bool b => if b then js "true" else js "false"
  | v_array _ (Some j) | v_object (Some j) => or_ellipsis (boundText (redactVerificationSecrets j) MAX_PARAM_VALUE_CHARS)
  | v_array _ None | v_object None => [ellipsis]
  end.

Definition reasonFor (i : AiraPermissionPresentationInput) : jsstr :=
  match defaultCategory (in_evaluation i) with
  | None => reason (in_evaluation i)
  | Some c =>
      if str_eqb c (js "process:risk-marker") then
        match classifyAiraRiskyCommand (redactVerificationSecrets (default [] (in_subject i))) with
        | Some r => r
        | None => js "command matched ASK policy"
        end
      else if str_eqb c (js "mutating:out-of-scope") then js "write outside workspace"
      else if str_eqb c (js "browser:interact") then js "browser interaction may trigger page side effects"
      else if str_eqb c (js "unknown") then js "unknown extension tool"
      else if str_eqb c (js "network") then js "network-class tool"
      else if str_eqb c (js "browser:lifecycle") then js "browser lifecycle operation"
      else reason (in_evaluation i)
  end.

(** The rows of the card and whether the target is outside of the workspace. *)
Definition detail_rows (i : AiraPermissionPresentationInput) (redactedSubject : jsstr)
    : list (jsstr * jsstr) * option bool :=
  match in_capability i with
  | process =>
      ([(js "Working directory", boundText (in_cwd i) MAX_DETAIL_VALUE_CHARS)]
       ++ (if str_eqb (in_tool i) (js "process_start")
           then [(js "Launch", if is_true "background" (in_args i) then js "background" else js "foreground")] else []),
       None)
  | mutating =>
      let target := redactedSubject in
      let inScope := match in_projectRoot i with None => true | Some root => isPathWithin pcwd target root end in
      ([(js "Target", target);
        (js "Scope", match in_projectRoot i with
                     | None => js "undetermined"
                     | Some _ => if inScope then js "inside workspace" else js "outside workspace" end)],
       Some (negb inScope && match in_projectRoot i with Some _ => true | None => false end))
  | browser =>
      (match browserTarget (in_args i) with
       | Some target => [(js "Target", boundText (redactVerificationSecrets target) MAX_DETAIL_VALUE_CHARS)]
       | None => [] end
       ++ [(js "Kind", default (js "interaction") (in_browserOperation i))], None)
  | unknown =>
      ((λ kv, (boundText kv.1 24, boundedParamValue kv.1 kv.2)) <$> take (Z.to_nat MAX_PARAM_ROWS) (in_args i), None)
  | _ => ([], None)
  end.

Definition buildAiraPermissionPresentation (i : AiraPermissionPresentationInput) : AiraPermissionPresentation :=
  let s := default (in_tool i) (in_subject i) in
  let masked := redactVerificationSecrets s in
  let redactedSubject := boundText masked MAX_SUBJECT_CHARS in
  let '(rows, outside) := detail_rows i redactedSubject in
  {| pr_tool := in_tool i;
     pr_capability := airaCapabilityClassLabel (in_capability i);
     pr_operation := operationLabel (in_tool i) (in_capability i) (in_browserOperation i);
     pr_subject := redactedSubject;
     pr_redacted := negb (bool_decide (masked = s));
     pr_reason := boundText (reasonFor i) MAX_DETAIL_VALUE_CHARS;
     pr_details := take (Z.to_nat MAX_DETAIL_ROWS) rows;
     pr_outsideWorkspace := outside;
     pr_summary := boundText redactedSubject MAX_SUMMARY_CHARS |}.

End Redaction.

End Presentation.
