(* ===== verification/RulesStore.v ===== *)
(** * The persistent permission rules

    Models [aira/permissions/rules-store.ts]: the file of the persistent rules, its
    bounds and its health record.  [RuleStore] is what the permission controller uses
    of a store, [file_rule_store] the implementation of the source. *)
From stdpp Require Import pretty.
From S2P Require Import Prelude JsMap JsString Policy.

Module RulesStore.
Import Policy.

Inductive store_state := st_ok | st_unavailable | st_failed.

#[export] Instance store_state_eq_dec : EqDecision store_state.
Proof. solve_decision. Defined.

Record AiraPermissionStoreHealth := { sh_status : store_state; sh_path : option jsstr; sh_error : option jsstr }.

(** ** The interface

    [now] is [Date.now()]; the state of the store is [F]. *)
Class RuleStore (F : Type) := {
  store_load : Z → F → list AiraPermissionRule * AiraPermissionStoreHealth;
  store_save : Z → list AiraPermissionRule → F → F * AiraPermissionStoreHealth }.

(** What the controller relies on. *)
Class RuleStoreLaws (F : Type) `{RuleStore F} : Prop := {
  load_bounded : ∀ now (f : F), zlen (store_load now f).1 <= AIRA_PERMISSION_MAX_RULES;
  load_persistent : ∀ now (f : F), Forall (λ r, rule_scope r = persistent) (store_load now f).1 }.

(** ** The text of the file: [JSON.stringify(payload, null, 2)] *)

Definition hex_digit (n : Z) : Z := if n <? 10 then 48 + n else 87 + n.
Definition u_escape (u : Z) : jsstr :=
  [92; 117; hex_digit (u / 0x1000); hex_digit (u / 0x100 mod 0x10); hex_digit (u / 0x10 mod 0x10); hex_digit (u mod 0x10)].

Fixpoint json_chars (s : jsstr) : jsstr :=
  match s with
  | [] => []
  | u :: s1 =>
      if is_high u then
        match s1 with
        | v :: s2 => if is_low v then u :: v :: json_chars s2 else u_escape u ++ json_chars s1
        | [] => u_escape u
        end
      else
        (if is_low u then u_escape u
         else if u =? 34 then [92; 34] else if u =? 92 then [92; 92]
         else if u =? 8 then js "\b" else if u =? 12 then js "\f" else if u =? 10 then js "\n"
         else if u =? 13 then js "\r" else if u =? 9 then js "\t"
         else if u <? 32 then u_escape u else [u]) ++ json_chars s1
  end.
Definition json_string (s : jsstr) : jsstr := [34] ++ json_chars s ++ [34].

(** A line break followed by [n] spaces. *)
Definition indent (n : nat) : jsstr := 10 :: replicate n 32.
Definition member (n : nat) (key : string) (value : jsstr) : jsstr := indent n ++ quoted (js key) ++ js ": " ++ value.

Definition rule_text (r : AiraPermissionRule) : jsstr :=
  indent 4 ++ js "{"
  ++ join (js ",")
       ([member 6 "id" (json_string (rule_id r)); member 6 "tool" (json_string (rule_tool r));
         member 6 "subject" (json_string (rule_subject r)); member 6 "match" (json_string (match_name (rule_match r)));
         member 6 "action" (json_string (action_name (rule_action r))); member 6 "createdAt" (num_str (rule_createdAt r))]
        ++ match rule_note r with Some n => [member 6 "note" (json_string n)] | None => [] end)
  ++ indent 4 ++ js "}".

Definition file_text (rules : list AiraPermissionRule) : jsstr :=
  js "{" ++ member 2 "version" (num_str AIRA_PERMISSION_STORE_VERSION) ++ js ","
  ++ member 2 "rules" (match rules with
                       | [] => js "[]"
                       | _ => js "[" ++ join (js ",") (rule_text <$> rules) ++ indent 2 ++ js "]" end)
  ++ indent 0 ++ js "}".

(** ** The disk

    A text file is its text and what [JSON.parse] makes of it: the message of the
    exception, or the value. *)
Inductive parsed_file := p_object (version : option field) (rules : option (list entry)) | p_other.
Inductive disk_file := absent | unreadable (error : jsstr) | text_file (raw : jsstr) (value : result jsstr parsed_file).

(** [write_error] is the exception the next write throws. *)
Record disk := { home : jsstr; path : jsstr; file : disk_file; write_error : option jsstr }.

Definition MAX_FILE_BYTES : Z := 256 * 1024.

Definition displayPath (d : disk) : jsstr :=
  if startsWith (home d) (path d) then js "~/.aira" ++ slice_from (zlen (home d)) (path d) else path d.

Definition health (d : disk) (s : store_state) (e : option jsstr) : AiraPermissionStoreHealth :=
  {| sh_status := s; sh_path := Some (displayPath d); sh_error := e |}.

Definition load (now : Z) (d : disk) : list AiraPermissionRule * AiraPermissionStoreHealth :=
  match file d with
  | absent => ([], health d st_unavailable None)
  | unreadable e => ([], health d st_failed (Some (js "permissions.json unreadable: " ++ e)))
  | text_file raw value =>
      if MAX_FILE_BYTES <? zlen raw then ([], health d st_failed (Some (js "permissions.json exceeds the size bound")))
      else match value with
      | Err e => ([], health d st_failed (Some (js "permissions.json unreadable: " ++ e)))
      | Ok (p_object (Some (f_number v)) rules) =>
          if v =? AIRA_PERMISSION_STORE_VERSION
          then (normalizeAiraPermissionRules now rules persistent AIRA_PERMISSION_MAX_RULES, health d st_ok None)
          else ([], health d st_failed (Some (js "permissions.json has an unsupported version")))
      | Ok _ => ([], health d st_failed (Some (js "permissions.json has an unsupported version")))
      end
  end.

(** A rule as a JavaScript object. *)
Definition entry_of_rule (r : AiraPermissionRule) : entry :=
  e_object ([(js "id", f_string (rule_id r)); (js "tool", f_string (rule_tool r));
             (js "subject", f_string (rule_subject r)); (js "match", f_string (match_name (rule_match r)));
             (js "action", f_string (action_name (rule_action r))); (js "createdAt", f_number (rule_createdAt r))]
            ++ match rule_note r with Some n => [(js "note", f_string n)] | None => [] end).

(** The rules [save] writes. *)
Definition bounded_rules (now : Z) (rules : list AiraPermissionRule) : list AiraPermissionRule :=
  normalizeAiraPermissionRules now
    (Some (entry_of_rule <$> take (Z.to_nat AIRA_PERMISSION_MAX_RULES) rules)) persistent AIRA_PERMISSION_MAX_RULES.

Definition save (now : Z) (rules : list AiraPermissionRule) (d : disk) : disk * AiraPermissionStoreHealth :=
  let bounded := bounded_rules now rules in
  match write_error d with
  | Some e => (d, health d st_failed (Some (js "permissions.json write failed: " ++ e)))
  | None =>
      ({| home := home d; path := path d; write_error := None;
          file := text_file (file_text bounded)
                    (Ok (p_object (Some (f_number AIRA_PERMISSION_STORE_VERSION)) (Some (entry_of_rule <$> bounded)))) |},
       health d st_ok None)
  end.

Definition listIds (now : Z) (d : disk) : list jsstr := rule_id <$> (load now d).1.

#[export] Instance file_rule_store : RuleStore disk := { store_load := load; store_save := save }.

(** ** Lemmas on the normalization *)

(** A rule that the normalization leaves as it is. *)
Definition storable (r : AiraPermissionRule) : Prop :=
  trim (rule_tool r) = rule_tool r ∧ rule_tool r ≠ []
  ∧ rule_subject r ≠ [] ∧ zlen (rule_subject r) <= 500
  ∧ trim (rule_id r) = rule_id r ∧ rule_id r ≠ [] ∧ zlen (rule_id r) <= 64
  ∧ rule_scope r = persistent
  ∧ from_option (λ n, trim n = n ∧ n ≠ [] ∧ zlen n <= 200) True (rule_note r).

Lemma slice0_id n s : zlen s <= n → slice0 n s = s.
Proof. intros. unfold slice0. apply take_ge. unfold zlen in *. lia. Qed.

Definition keep_all (now : Z) (scope : AiraPermissionRuleScope) (max : Z) :=
  λ rules e, if max <=? zlen rules then rules
             else match read_rule now scope e with Some r => rules ++ [r] | None => rules end.

Lemma keep_all_inv (P : AiraPermissionRule → Prop) now scope max entries acc :
  0 <= max → (∀ e r, read_rule now scope e = Some r → P r) → Forall P acc → zlen acc <= max →
  let out := foldl (keep_all now scope max) acc entries in Forall P out ∧ zlen out <= max.
Proof.
  intros Hm HP. revert acc. induction entries as [|e l IH]; intros acc Ha Hl; [done|]. cbn [foldl].
  unfold keep_all at 2 4. destruct (max <=? zlen acc) eqn:E; [by apply IH|]. bool_prop.
  destruct (read_rule now scope e) as [r|] eqn:Er; [|by apply IH].
  apply IH; [apply Forall_app; split; [done|apply Forall_singleton; by eapply HP]|].
  rewrite zlen_app, zlen_cons, zlen_nil. lia.
Qed.

Lemma normalize_inv (P : AiraPermissionRule → Prop) now v scope max :
  0 <= max → (∀ e r, read_rule now scope e = Some r → P r) →
  Forall P (normalizeAiraPermissionRules now v scope max) ∧ zlen (normalizeAiraPermissionRules now v scope max) <= max.
Proof.
  intros Hm HP. destruct v as [entries|]; [|by split; [constructor|]].
  apply (keep_all_inv P now scope max entries []); done.
Qed.

Lemma read_rule_spec now scope e r :
  read_rule now scope e = Some r →
  rule_scope r = scope ∧ rule_tool r ≠ [] ∧ trim (rule_tool r) = rule_tool r
  ∧ rule_subject r ≠ [] ∧ zlen (rule_subject r) <= 500 ∧ rule_id r ≠ [] ∧ zlen (rule_id r) <= 64.
Proof.
  destruct e as [props|]; [|done]. cbn [read_rule]. destruct (read_action _); [|done].
  case_bool_decide as Hb; [done|]. intros [= <-]. cbn.
  split_and!; [done|tauto|apply trim_idem|tauto| |tauto|]; rewrite zlen_slice0 by done; lia.
Qed.

Lemma str_eqb_refl s : str_eqb s s = true.
Proof. by apply bool_decide_eq_true. Qed.

Lemma read_action_name a : read_action (Some (action_name a)) = Some a.
Proof. by destruct a. Qed.

Lemma mget_here {A} (k : jsstr) (v : A) l : mget k ((k, v) :: l) = Some v.
Proof. cbn. by rewrite decide_True. Qed.

Lemma mget_there {A} (k k' : jsstr) (v : A) l : str_eqb k k' = false → mget k ((k', v) :: l) = mget k l.
Proof. intros H%bool_decide_eq_false. cbn. by rewrite decide_False. Qed.

(** Looks up a literal key in a literal object. *)
Ltac mget_literal :=
  repeat first [rewrite mget_here | rewrite mget_there by (vm_compute; reflexivity)].

Lemma str_field_note n : str_field "note" match n with Some n => [(js "note", f_string n)] | None => [] end = n.
Proof. destruct n; [|done]. unfold str_field. by rewrite mget_here. Qed.

Lemma read_entry now r : storable r → read_rule now persistent (entry_of_rule r) = Some r.
Proof.
  intros (Ht & Htn & Hsn & Hs & Hi & Hin & Hil & Hsc & Hn).
  destruct r as [i t s m a sc c n]. cbn [rule_id rule_tool rule_subject rule_match rule_action rule_scope rule_createdAt rule_note] in *.
  unfold entry_of_rule, read_rule. cbn [rule_id rule_tool rule_subject rule_match rule_action rule_createdAt rule_note app].
  pose proof (str_field_note n) as Hnote. unfold str_field in *. mget_literal. cbn [default from_option id].
  rewrite read_action_name, Ht, (slice0_id 500 s), Hi, (slice0_id 64 i), Hnote by done.
  rewrite bool_decide_false by tauto. subst sc. f_equal. f_equal.
  - by destruct m.
  - destruct n as [n|]; [|done]. destruct Hn as (Hn1 & Hn2 & Hn3). rewrite Hn1, bool_decide_false by done.
    by rewrite slice0_id.
Qed.

Lemma keep_all_storable now rules acc :
  Forall storable rules → zlen (acc ++ rules) <= AIRA_PERMISSION_MAX_RULES →
  foldl (keep_all now persistent AIRA_PERMISSION_MAX_RULES) acc (entry_of_rule <$> rules) = acc ++ rules.
Proof.
  intros Hst. revert acc. induction Hst as [|r l Hr _ IH]; intros acc Hl; cbn [fmap list_fmap foldl]; [by rewrite app_nil_r|].
  rewrite zlen_app, zlen_cons in Hl. pose proof (zlen_nonneg l). unfold keep_all at 2.
  rewrite (proj2 (Z.leb_gt _ _)) by lia. rewrite read_entry by done.
  rewrite IH; [by rewrite <- app_assoc|]. rewrite !zlen_app, zlen_cons, zlen_nil. lia.
Qed.

Lemma normalize_storable now rules :
  Forall storable rules → zlen rules <= AIRA_PERMISSION_MAX_RULES →
  normalizeAiraPermissionRules now (Some (entry_of_rule <$> rules)) persistent AIRA_PERMISSION_MAX_RULES = rules.
Proof. intros Hst Hl. exact (keep_all_storable now rules [] Hst Hl). Qed.

#[export] Instance file_rule_store_laws : RuleStoreLaws disk.
Proof.
  assert (∀ now d, Forall (λ r, rule_scope r = persistent) (load now d).1
                   ∧ zlen (load now d).1 <= AIRA_PERMISSION_MAX_RULES) as H.
  { intros now d. unfold load. repeat case_match; cbn [fst]; try (split; [constructor|done]).
    apply normalize_inv; [done|]. intros e r Hr. exact (proj1 (read_rule_spec _ _ _ _ Hr)). }
  split; intros now f; apply H.
Qed.

(** ** The properties *)

(** Round trip of the store: saving at most 128 rules that are within the limits of the
    format, when the write succeeds and the text is within the size the reader accepts, and
    loading the file again gives exactly the same rules, in order, with healthy status; a
    failed write leaves the file as it was and says so. *)
Theorem rules_round_trip now now' rules d :
  Forall storable rules → zlen rules <= AIRA_PERMISSION_MAX_RULES →
  match write_error d with
  | None => zlen (file_text rules) <= MAX_FILE_BYTES →
      sh_status (save now rules d).2 = st_ok
      ∧ load now' (save now rules d).1 = (rules, health d st_ok None)
  | Some _ => sh_status (save now rules d).2 = st_failed ∧ load now' (save now rules d).1 = load now' d
  end.
Proof.
  intros Hst Hl. unfold save. destruct (write_error d); [done|]. intros Hsize. split; [done|].
  assert (bounded_rules now rules = rules) as Hb.
  { unfold bounded_rules. rewrite take_ge by (unfold zlen, AIRA_PERMISSION_MAX_RULES in *; lia). by apply normalize_storable. }
  unfold load. cbn [fst file]. rewrite Hb. rewrite (proj2 (Z.ltb_ge _ _)) by done.
  cbn [Z.eqb Pos.eqb AIRA_PERMISSION_STORE_VERSION]. by rewrite normalize_storable.
Qed.

Definition demo_disk : disk :=
  {| home := js "/home/u/.aira"; path := js "/home/u/.aira/agent/permissions.json"; file := absent; write_error := None |}.
Definition demo_rule (s : jsstr) : AiraPermissionRule :=
  {| rule_id := js "p-1"; rule_tool := js "bash"; rule_subject := s; rule_match := exact; rule_action := allow;
     rule_scope := persistent; rule_createdAt := 7; rule_note := Some (js "approved") |}.

Lemma demo_rule_storable s : s ≠ [] → zlen s <= 500 → storable (demo_rule s).
Proof. intros. unfold storable, demo_rule. cbn. split_and!; try done; by vm_compute. Qed.

Lemma rules_round_trip_witness :
  load 9 (save 8 [demo_rule (js "git push")] demo_disk).1 = ([demo_rule (js "git push")], health demo_disk st_ok None).
Proof.
  pose proof (rules_round_trip 8 9 [demo_rule (js "git push")] demo_disk) as H.
  apply H; [apply Forall_singleton, demo_rule_storable; [done|by vm_compute]|by vm_compute|by vm_compute].
Defined.

(** The writer does not know the size limit of the reader: 128 rules whose subjects are 500
    control characters are saved with status "ok", and the next load refuses the file
    and starts without any rule. *)
Theorem saved_rules_can_be_lost :
  let rules := replicate 128 (demo_rule (replicate 500 1)) in
  Forall storable rules ∧ sh_status (save 0 rules demo_disk).2 = st_ok
  ∧ load 0 (save 0 rules demo_disk).1
    = ([], health demo_disk st_failed (Some (js "permissions.json exceeds the size bound"))).
Proof.
  split; [apply Forall_replicate, demo_rule_storable; [done|by vm_compute]|].
  split; vm_compute; reflexivity.
Qed.

End RulesStore.
