(* ===== verification/PermController.v ===== *)
(** * The permission controller

    Models [aira/permissions/controller.ts]: the gate every tool call passes, the rules a
    user's answer leaves behind, and the published status.  [gate] is asynchronous: it is
    [gate_begin] up to its [await] and [gate_answer] after it; between the two any other
    operation may run.  The store is any [RuleStore]. *)
From S2P Require Import Prelude JsMap JsString Capabilities Policy Interaction Presentation RulesStore.

Module PermController.
Import Capabilities Policy Interaction Presentation RulesStore.

Definition MAX_SUBJECT_CHARS : Z := 1024.

(** What a call reads of its surroundings. *)
Record Host := {
  h_now : Z;
  h_id : jsstr;                          (** the id the next rule gets *)
  h_enabled : bool;
  h_settings_mode : AiraPermissionMode;
  h_modeSeam : option AiraPermissionMode;
  h_mode : AiraMode;                     (** [state.mode] *)
  h_cwd : jsstr;
  h_pcwd : jsstr;                        (** [process.cwd()] *)
  h_projectRoot : option jsstr;          (** [options.projectRoot?.()] *)
  h_stateRoot : option jsstr             (** [state.project?.root] *) }.

Record AiraPermissionLastDecision := {
  ld_tool : jsstr; ld_action : AiraPermissionAction; ld_at : Z; ld_subject : option jsstr }.

Record AiraPermissionStatus := {
  ps_enabled : bool; ps_mode : AiraPermissionMode; ps_persistentRules : Z; ps_sessionRules : Z;
  ps_onceApprovals : Z; ps_store : AiraPermissionStoreHealth; ps_lastDecision : option AiraPermissionLastDecision;
  ps_updatedAt : Z; ps_summary : jsstr }.

Record Controller (F : Type) := {
  store : F;
  sessionRules : list AiraPermissionRule;
  onceApprovalsGranted : Z;
  persistentRules : list AiraPermissionRule;
  storeHealth : AiraPermissionStoreHealth;
  lastDecision : option AiraPermissionLastDecision;
  listeners : list nat;
  snapshot : AiraPermissionStatus;
  disposed : bool;
  delivered : list (nat * AiraPermissionStatus)  (** calls of the listeners, latest last *) }.
Arguments store {F} _.
Arguments sessionRules {F} _.
Arguments onceApprovalsGranted {F} _.
Arguments persistentRules {F} _.
Arguments storeHealth {F} _.
Arguments lastDecision {F} _.
Arguments listeners {F} _.
Arguments snapshot {F} _.
Arguments disposed {F} _.
Arguments delivered {F} _.

(** ** The request *)

(** [exactSubject] *)
Definition exactSubject (s : jsstr) : jsstr := trim s.

Definition string_items (items : list argval) : list jsstr :=
  omap (λ v, match v with v_string s => Some s | _ => None end) items.

(** A string argument that is present and not empty. *)
Definition truthyString (key : string) (args : args_t) : option jsstr :=
  match readString key args with Some ((_ :: _) as s) => Some s | _ => None end.

Definition subjectOf (pcwd toolName : jsstr) (args : args_t) (cwd : jsstr) : option jsstr :=
  if bool_decide (toolName ∈ js <$> ["bash"; "powershell"]%string) then readString "command" args
  else if bool_decide (toolName ∈ js <$> ["process_start"; "process_stop"]%string) then
    match truthyString "command" args with
    | Some command => Some command
    | None =>
        match truthyString "exe" args with
        | Some exe =>
            let argList := match mget (js "args") args with Some (v_array items _) => string_items items | _ => [] end in
            Some (join (js " ") (exe :: argList))
        | None => None
        end
    end
  else if bool_decide (toolName ∈ js <$> ["edit"; "write"; "read"]%string) then
    match truthyString "path" args with
    | Some path => Some (resolvePermissionPathSubject pcwd path cwd)
    | None => None
    end
  else None.

Definition buildRequest (h : Host) (toolName : jsstr) (args : args_t) : AiraPermissionRequest :=
  let c := classifyAiraCapability toolName in
  {| tool := toolName;
     capability := c;
     browserOperation := if bool_decide (c = browser)
                         then Some (operation_name (classifyAiraBrowserOperation toolName)) else None;
     subject := match subjectOf (h_pcwd h) toolName args (h_cwd h) with
                | Some s => Some (slice0 MAX_SUBJECT_CHARS s)
                | None => Some toolName
                end |}.

Definition projectRoot (h : Host) : option jsstr :=
  match h_projectRoot h with
  | Some r => Some r
  | None => match h_stateRoot h with Some r => Some r | None => Some (h_cwd h) end
  end.

Definition permissionContext (r : AiraPermissionRequest) : jsstr :=
  let s := default (tool r) (subject r) in
  let kind := match capability r with
              | process => js "command" | mutating => js "path" | c => airaCapabilityClassLabel c end in
  tool r ++ js " · " ++ kind ++ js ": " ++ slice0 400 s.

Definition denialReason (toolName : jsstr) (e : AiraPermissionEvaluation) : jsstr :=
  toolName ++ js ": permission denied — " ++ reason e.

Definition permissionSummary (enabled : bool) (mode : AiraPermissionMode) (persistent session once : Z) : jsstr :=
  if negb enabled then js "disabled"
  else join (js " · ")
    ([mode_name mode]
     ++ (if 0 <? persistent then [num_str persistent ++ js " persistent rule(s)"] else [])
     ++ (if 0 <? session then [num_str session ++ js " session approval(s)"] else [])
     ++ (if 0 <? once then [num_str once ++ js " one-time approval(s)"] else [])).

Section Controller.
Context {F : Type} `{RuleStore F} (redactVerificationSecrets : jsstr → jsstr).
Implicit Types (h : Host) (c : Controller F).

Definition set_rules c (s p : list AiraPermissionRule) : Controller F :=
  {| store := store c; sessionRules := s; onceApprovalsGranted := onceApprovalsGranted c; persistentRules := p;
     storeHealth := storeHealth c; lastDecision := lastDecision c; listeners := listeners c; snapshot := snapshot c;
     disposed := disposed c; delivered := delivered c |}.
Definition set_once c (n : Z) : Controller F :=
  {| store := store c; sessionRules := sessionRules c; onceApprovalsGranted := n; persistentRules := persistentRules c;
     storeHealth := storeHealth c; lastDecision := lastDecision c; listeners := listeners c; snapshot := snapshot c;
     disposed := disposed c; delivered := delivered c |}.
Definition set_store c (f : F) (sh : AiraPermissionStoreHealth) : Controller F :=
  {| store := f; sessionRules := sessionRules c; onceApprovalsGranted := onceApprovalsGranted c;
     persistentRules := persistentRules c; storeHealth := sh; lastDecision := lastDecision c; listeners := listeners c;
     snapshot := snapshot c; disposed := disposed c; delivered := delivered c |}.
Definition set_last c (d : AiraPermissionLastDecision) : Controller F :=
  {| store := store c; sessionRules := sessionRules c; onceApprovalsGranted := onceApprovalsGranted c;
     persistentRules := persistentRules c; storeHealth := storeHealth c; lastDecision := Some d; listeners := listeners c;
     snapshot := snapshot c; disposed := disposed c; delivered := delivered c |}.
Definition set_listeners c (l : list nat) (d : bool) : Controller F :=
  {| store := store c; sessionRules := sessionRules c; onceApprovalsGranted := onceApprovalsGranted c;
     persistentRules := persistentRules c; storeHealth := storeHealth c; lastDecision := lastDecision c; listeners := l;
     snapshot := snapshot c; disposed := d; delivered := delivered c |}.
Definition set_snapshot c (s : AiraPermissionStatus) (d : list (nat * AiraPermissionStatus)) : Controller F :=
  {| store := store c; sessionRules := sessionRules c; onceApprovalsGranted := onceApprovalsGranted c;
     persistentRules := persistentRules c; storeHealth := storeHealth c; lastDecision := lastDecision c;
     listeners := listeners c; snapshot := s; disposed := disposed c; delivered := d |}.

(** The mode a call goes by. *)
Definition currentMode h : AiraPermissionMode := default (h_settings_mode h) (h_modeSeam h).

Definition buildSnapshot h c : AiraPermissionStatus :=
  {| ps_enabled := h_enabled h;
     ps_mode := currentMode h;
     ps_persistentRules := zlen (persistentRules c);
     ps_sessionRules := zlen (sessionRules c);
     ps_onceApprovals := onceApprovalsGranted c;
     ps_store := storeHealth c;
     ps_lastDecision := lastDecision c;
     ps_updatedAt := h_now h;
     ps_summary := permissionSummary (h_enabled h) (h_settings_mode h) (zlen (persistentRules c)) (zlen (sessionRules c))
                     (onceApprovalsGranted c) |}.

Definition publish h c : Controller F :=
  let s := buildSnapshot h c in
  set_snapshot c s (delivered c ++ ((λ l, (l, s)) <$> listeners c)).

Definition newController h (f : F) : Controller F :=
  let loaded := store_load (h_now h) f in
  let blank := {| ps_enabled := false; ps_mode := normal; ps_persistentRules := 0; ps_sessionRules := 0; ps_onceApprovals := 0;
                  ps_store := loaded.2; ps_lastDecision := None; ps_updatedAt := 0; ps_summary := [] |} in
  let c := {| store := f; sessionRules := []; onceApprovalsGranted := 0; persistentRules := loaded.1; storeHealth := loaded.2;
              lastDecision := None; listeners := []; snapshot := blank; disposed := false; delivered := [] |} in
  set_snapshot c (buildSnapshot h c) [].

Definition activate h c : Controller F := if disposed c then c else publish h c.

Definition recordDecision h (t : jsstr) (a : AiraPermissionAction) (s : option jsstr) c : Controller F :=
  publish h (set_last c {| ld_tool := t; ld_action := a; ld_at := h_now h;
                           ld_subject := match s with Some ((_ :: _) as s) => Some (slice0 80 s) | _ => None end |}).

Definition persistPersistentRules h c : Controller F :=
  let '(f, sh) := store_save (h_now h) (persistentRules c) (store c) in
  let c := set_store c f sh in
  if bool_decide (sh_status sh = st_failed)
  then set_rules c (sessionRules c) (take (Z.to_nat 128) (persistentRules c))
  else c.

(** [push], and [shift] when there are more than [max]. *)
Definition push_shift (max : Z) (l : list AiraPermissionRule) (r : AiraPermissionRule) : list AiraPermissionRule :=
  if max <? zlen (l ++ [r]) then tail (l ++ [r]) else l ++ [r].

Definition approval h (t s : jsstr) (sc : AiraPermissionRuleScope) : AiraPermissionRule :=
  {| rule_id := h_id h; rule_tool := t; rule_subject := exactSubject s; rule_match := exact; rule_action := allow;
     rule_scope := sc; rule_createdAt := h_now h;
     rule_note := Some match sc with
                       | session => js "approved via permission dialog (session)"
                       | persistent => js "approved via permission dialog (persistent)" end |}.

Definition addSessionRule h (t s : jsstr) c : Controller F :=
  publish h (set_rules c (push_shift AIRA_PERMISSION_MAX_SESSION_RULES (sessionRules c) (approval h t s session)) (persistentRules c)).

Definition addPersistentRule h (t s : jsstr) c : Controller F :=
  publish h (persistPersistentRules h
    (set_rules c (sessionRules c) (push_shift 128 (persistentRules c) (approval h t s persistent)))).

(** ** The gate *)

Definition evaluate h (request : AiraPermissionRequest) c : AiraPermissionEvaluation :=
  if h_enabled h
  then evaluateAiraPermissionRequest (h_pcwd h) request (currentMode h) (persistentRules c ++ sessionRules c) false (projectRoot h)
  else {| action := allow; reason := js "permission enforcement disabled"; matchedRuleId := None; defaultCategory := None |}.

Definition plan_blocks h (toolName : jsstr) : bool := bool_decide (h_mode h = plan) && isAiraMutatingTool toolName.
Definition plan_reason (toolName : jsstr) : jsstr :=
  js "PLAN mode is read-only: " ++ toolName ++ js " is blocked (permissions cannot override PLAN)".

(** [{ block, reason }], or the question the call waits for. *)
Inductive gate_result :=
| g_return (block : bool) (why : option jsstr)
| g_ask (request : AiraPermissionRequest) (evaluation : AiraPermissionEvaluation) (question : AiraInteractionRequest).

Definition choice (i l d : string) : AiraInteractionChoice :=
  {| ch_id := js i; ch_label := js l; ch_description := Some (js d) |}.

Definition question h (toolName : jsstr) (args : args_t) (request : AiraPermissionRequest) (e : AiraPermissionEvaluation)
    : AiraInteractionRequest :=
  {| rq_type := t_permission;
     rq_question := js "Allow " ++ toolName ++ js " to run?";
     rq_context := Some (permissionContext request);
     rq_choices := Some [choice "allow-once" "Allow once" "Run only this request";
                         choice "allow-session" "Allow session" "Approve this exact subject for this session";
                         choice "allow-always" "Allow always" "Persist approval for this exact subject";
                         choice "deny" "Deny" "Do not execute"];
     rq_multiSelect := false; rq_freeform := false;
     rq_owner := Some (js "permission:" ++ toolName);
     rq_timeoutMs := None;
     rq_permission := Some (buildAiraPermissionPresentation redactVerificationSecrets (h_pcwd h)
       {| in_tool := tool request; in_capability := capability request; in_browserOperation := browserOperation request;
          in_subject := subject request; in_args := args; in_evaluation := e; in_cwd := h_cwd h;
          in_projectRoot := projectRoot h |}) |}.

Definition gate_begin h (toolName : jsstr) (args : args_t) c : Controller F * gate_result :=
  if disposed c then (c, g_return true (Some (js "permission controller disposed")))
  else if plan_blocks h toolName then (c, g_return true (Some (plan_reason toolName)))
  else
    let request := buildRequest h toolName args in
    let e := evaluate h request c in
    match action e with
    | allow => (recordDecision h (tool request) allow (subject request) c, g_return false None)
    | deny => (recordDecision h (tool request) deny (subject request) c, g_return true (Some (denialReason toolName e)))
    | ask => (c, g_ask request e (question h toolName args request e))
    end.

Definition resolution_name (r : AiraInteractionResolution) : jsstr :=
  match r with answered => js "answered" | cancelled => js "cancelled" | timed_out => js "timed-out"
             | unavailable => js "unavailable" | superseded => js "superseded" end.

Definition gate_answer h (toolName : jsstr) (request : AiraPermissionRequest) (e : AiraPermissionEvaluation)
    (answer : AiraInteractionAnswer) c : Controller F * (bool * option jsstr) :=
  let t := tool request in
  let s := subject request in
  match an_resolution answer, an_decision answer with
  | answered, Some allow_once =>
      (recordDecision h t allow s (set_once c (onceApprovalsGranted c + 1)), (false, None))
  | answered, Some allow_session =>
      (recordDecision h t allow s (addSessionRule h t (default toolName s) c), (false, None))
  | answered, Some allow_always =>
      (recordDecision h t allow s (addPersistentRule h t (default toolName s) c), (false, None))
  | answered, Some d_deny =>
      (recordDecision h t deny s c, (true, Some (denialReason toolName e ++ js " (denied by the user)")))
  | res, _ =>
      (recordDecision h t deny s c,
       (true, Some (denialReason toolName e ++ js " (permission prompt " ++ resolution_name res
                    ++ js "; treated as denied — no answer was given)")))
  end.

Definition gateForChild h (toolName : jsstr) (args : args_t) c : bool * option jsstr :=
  if disposed c then (true, Some (js "permission controller disposed"))
  else if plan_blocks h toolName then (true, Some (plan_reason toolName))
  else
    let e := evaluate h (buildRequest h toolName args) c in
    match action e with
    | allow => (false, None)
    | deny => (true, Some (denialReason toolName e))
    | ask => (true, Some (denialReason toolName e
               ++ js " — children cannot prompt for permission; approve at the root or switch permission mode"))
    end.

(** ** The rules commands *)

(** The message names the fields of the rule. *)
Definition rule_words (r : AiraPermissionRule) : jsstr :=
  rule_tool r ++ js " " ++ rule_subject r ++ js " " ++ action_name (rule_action r).

(** [r] carries the caller's fields; its id, scope and time are replaced. *)
Definition addRule h (r : AiraPermissionRule) (sc : AiraPermissionRuleScope) c : Controller F * (bool * jsstr) :=
  let full := {| rule_id := h_id h; rule_tool := rule_tool r; rule_subject := rule_subject r; rule_match := rule_match r;
                 rule_action := rule_action r; rule_scope := sc; rule_createdAt := h_now h; rule_note := rule_note r |} in
  match sc with
  | session =>
      if AIRA_PERMISSION_MAX_SESSION_RULES <=? zlen (sessionRules c)
      then (c, (false, js "session rule limit reached (" ++ num_str AIRA_PERMISSION_MAX_SESSION_RULES ++ js ")"))
      else (publish h (set_rules c (sessionRules c ++ [full]) (persistentRules c)),
            (true, js "session rule added: " ++ rule_words full))
  | persistent =>
      if 128 <=? zlen (persistentRules c) then (c, (false, js "persistent rule limit reached (128)"))
      else (publish h (persistPersistentRules h (set_rules c (sessionRules c) (persistentRules c ++ [full]))),
            (true, js "persistent rule added: " ++ rule_words full))
  end.

Definition removeRule h (ruleId : jsstr) c : Controller F * (bool * jsstr) :=
  let kept := filter (λ r, rule_id r ≠ ruleId) (persistentRules c) in
  if zlen kept =? zlen (persistentRules c)
  then (set_rules c (sessionRules c) kept, (false, js "no persistent rule with id " ++ quoted ruleId))
  else (publish h (persistPersistentRules h (set_rules c (sessionRules c) kept)),
        (true, js "persistent rule " ++ ruleId ++ js " removed")).

Definition setMode h (mode : AiraPermissionMode) c : Controller F * AiraPermissionMode := (publish h c, mode).
Definition rules c : list AiraPermissionRule * list AiraPermissionRule := (sessionRules c, persistentRules c).
Definition status_op h c : Controller F * AiraPermissionStatus := let c := publish h c in (c, snapshot c).
Definition subscribe (l : nat) c : Controller F :=
  set_listeners c (if bool_decide (l ∈ listeners c) then listeners c else listeners c ++ [l]) (disposed c).
Definition unsubscribe (l : nat) c : Controller F := set_listeners c (filter (λ l', l' ≠ l) (listeners c)) (disposed c).
Definition dispose c : Controller F := if disposed c then c else set_listeners c [] true.

(** ** Steps *)

Inductive step c : Controller F → Prop :=
| step_activate h : step c (activate h c)
| step_gate h t args : step c (gate_begin h t args c).1
| step_answer h t request e a : step c (gate_answer h t request e a c).1
| step_addRule h r sc : step c (addRule h r sc c).1
| step_removeRule h i : step c (removeRule h i c).1
| step_setMode h m : step c (setMode h m c).1
| step_status h : step c (status_op h c).1
| step_subscribe l : step c (subscribe l c)
| step_unsubscribe l : step c (unsubscribe l c)
| step_dispose : step c (dispose c).

Inductive reachable : Controller F → Prop :=
| reach_new h f : reachable (newController h f)
| reach_step c c' : reachable c → step c c' → reachable c'.

End Controller.

End PermController.
