(* ===== verification/PermControllerProps.v ===== *)
(** * The permission controller: theorems

    What the gate lets through, what an approval leaves behind, and the limits of the
    rule lists. *)
From S2P Require Import Prelude JsMap JsString Capabilities Policy Interaction Presentation RulesStore PermController.

Module PermControllerProps.
Import Capabilities Policy Interaction Presentation RulesStore PermController.

(** ** The choice among the rules, with one rule more *)

Definition pick (q : AiraPermissionRequest) :=
  λ best r, if rule_matches q r && better best r then Some r else best.

Lemma match_app q l1 l2 : matchBestRule q (l1 ++ l2) = foldl (pick q) (matchBestRule q l1) l2.
Proof. unfold matchBestRule. by rewrite foldl_app. Qed.

(** A rule that does not match changes nothing. *)
Lemma match_skip q l1 r l2 :
  rule_matches q r = false → matchBestRule q (l1 ++ r :: l2) = matchBestRule q (l1 ++ l2).
Proof. intros Hr. rewrite !match_app. cbn [foldl]. unfold pick at 2. by rewrite Hr. Qed.

Lemma match_Forall (P : AiraPermissionRule → Prop) q l : Forall P l → from_option P True (matchBestRule q l).
Proof.
  unfold matchBestRule. assert (from_option P True (@None AiraPermissionRule)) as H0 by done. revert H0.
  generalize (@None AiraPermissionRule) as best. induction l as [|r l IH]; intros best Hb Hl; [done|].
  apply Forall_cons in Hl as [Hr Hl]. cbn [foldl]. apply IH; [|done]. by case_match.
Qed.

Lemma specificity_le r : specificity r <= 1.
Proof. unfold specificity. by destruct (rule_match r). Qed.

(** A matching exact rule that is newer than every other one is the choice. *)
Lemma match_newest q l1 r l2 :
  rule_matches q r = true → rule_match r = exact →
  Forall (λ x, rule_createdAt x < rule_createdAt r) l1 → Forall (λ x, rule_createdAt x < rule_createdAt r) l2 →
  matchBestRule q (l1 ++ r :: l2) = Some r.
Proof.
  intros Hm He H1 H2. assert (specificity r = 1) as Hs by (unfold specificity; by rewrite He).
  rewrite match_app. cbn [foldl]. unfold pick at 2. rewrite Hm.
  assert (better (matchBestRule q l1) r = true) as ->.
  { pose proof (match_Forall _ q l1 H1) as Hb. destruct (matchBestRule q l1) as [b|]; [|done]. cbn in Hb |- *.
    pose proof (specificity_le b). apply orb_true_iff. destruct (Z.eq_dec (specificity b) 1); [right|left; lia].
    apply andb_true_iff. split; lia. }
  induction H2 as [|x l2 Hx _ IH]; [done|]. cbn [foldl andb]. unfold pick at 2.
  replace (better (Some r) x) with false; [by rewrite andb_false_r|].
  pose proof (specificity_le x). symmetry. cbn. apply orb_false_iff. split; [lia|].
  apply andb_false_iff. destruct (Z.eq_dec (specificity x) 1); [right|left]; lia.
Qed.

(** A rule of the dialog matches exactly the approved tool and subject. *)
Lemma approval_matches h t s sc q :
  rule_matches q (approval h t s sc) = true ↔ tool q = t ∧ default (tool q) (subject q) = exactSubject s.
Proof.
  unfold rule_matches. cbn [rule_tool rule_match rule_subject approval]. rewrite andb_true_iff.
  unfold str_eqb. rewrite !bool_decide_eq_true. naive_solver.
Qed.

Section Props.
Context {F : Type} `{RuleStoreLaws F} (redact : jsstr → jsstr).
Implicit Types (h : Host) (c : Controller F).

(** ** The rule lists *)

Definition limits c : Prop :=
  zlen (sessionRules c) <= AIRA_PERMISSION_MAX_SESSION_RULES ∧ Forall (λ r, rule_scope r = session) (sessionRules c)
  ∧ zlen (persistentRules c) <= AIRA_PERMISSION_MAX_RULES ∧ Forall (λ r, rule_scope r = persistent) (persistentRules c).

Lemma push_shift_spec max l r P :
  0 <= max → zlen l <= max → Forall P l → P r → zlen (push_shift max l r) <= max ∧ Forall P (push_shift max l r).
Proof.
  intros Hm Hl HP Hr. unfold push_shift. assert (Forall P (l ++ [r])) as Ha by (apply Forall_app; auto).
  destruct (max <? zlen (l ++ [r])) eqn:E; bool_prop; [|by split].
  rewrite zlen_app, zlen_cons, zlen_nil in E.
  destruct l as [|x l]; cbn in *; [by split|]. rewrite zlen_cons in Hl. apply Forall_cons in Ha as [_ Ha].
  rewrite zlen_app, zlen_cons, zlen_nil. split; [lia|done].
Qed.

Lemma persist_session h c : sessionRules (persistPersistentRules h c) = sessionRules c.
Proof. unfold persistPersistentRules. case_match. by case_bool_decide. Qed.

Lemma persist_persistent h c :
  zlen (persistentRules c) <= 128 → persistentRules (persistPersistentRules h c) = persistentRules c.
Proof.
  intros Hl. unfold persistPersistentRules. case_match. case_bool_decide; [|done]. cbn.
  apply take_ge. unfold zlen in Hl. lia.
Qed.

Lemma persist_disposed h c : disposed (persistPersistentRules h c) = disposed c.
Proof. unfold persistPersistentRules. case_match. by case_bool_decide. Qed.

Lemma limits_persist h s p c :
  zlen s <= AIRA_PERMISSION_MAX_SESSION_RULES → Forall (λ r, rule_scope r = session) s →
  zlen p <= AIRA_PERMISSION_MAX_RULES → Forall (λ r, rule_scope r = persistent) p →
  limits (publish h (persistPersistentRules h (set_rules c s p))).
Proof.
  intros. unfold limits. cbn [publish set_snapshot sessionRules persistentRules].
  by rewrite persist_session, persist_persistent.
Qed.

Lemma addPersistent_rules h t s c :
  zlen (persistentRules c) <= 128 →
  persistentRules (addPersistentRule h t s c) = push_shift 128 (persistentRules c) (approval h t s persistent).
Proof.
  intros Hl. unfold addPersistentRule. cbn [publish set_snapshot persistentRules].
  apply persist_persistent. apply (push_shift_spec _ _ _ (λ _, True)); try done. by apply Forall_true.
Qed.

Lemma limits_answer h t q e a c : limits c → limits (gate_answer h t q e a c).1.
Proof.
  intros (Hs & Hsc & Hp & Hpc). unfold gate_answer.
  destruct (an_resolution a); try done. destruct (an_decision a) as [[]|]; try done.
  - destruct (push_shift_spec AIRA_PERMISSION_MAX_SESSION_RULES (sessionRules c)
      (approval h (tool q) (default t (subject q)) session) (λ r, rule_scope r = session)); done.
  - destruct (push_shift_spec 128 (persistentRules c)
      (approval h (tool q) (default t (subject q)) persistent) (λ r, rule_scope r = persistent)); try done.
    by apply limits_persist.
Qed.

Lemma limits_addRule h r sc c : limits c → limits (addRule h r sc c).1.
Proof.
  intros (Hs & Hsc & Hp & Hpc). unfold addRule. destruct sc.
  - destruct (AIRA_PERMISSION_MAX_SESSION_RULES <=? zlen (sessionRules c)) eqn:E; [done|]. bool_prop.
    cbn [fst]. unfold limits. cbn [publish set_snapshot set_rules sessionRules persistentRules].
    rewrite zlen_app, zlen_cons, zlen_nil. split_and!; [lia| |done|done]. apply Forall_app; auto.
  - destruct (128 <=? zlen (persistentRules c)) eqn:E; [done|]. bool_prop. apply limits_persist; try done.
    + rewrite zlen_app, zlen_cons, zlen_nil. unfold AIRA_PERMISSION_MAX_RULES. lia.
    + apply Forall_app; auto.
Qed.

Lemma limits_removeRule h i c : limits c → limits (removeRule h i c).1.
Proof.
  intros (Hs & Hsc & Hp & Hpc). unfold removeRule.
  assert (zlen (filter (λ r, rule_id r ≠ i) (persistentRules c)) <= AIRA_PERMISSION_MAX_RULES) as Hk
    by (etransitivity; [apply zlen_filter_le|done]).
  assert (Forall (λ r, rule_scope r = persistent) (filter (λ r, rule_id r ≠ i) (persistentRules c))) as Hf
    by (rewrite Forall_forall in Hpc |- *; intros x [_ Hx]%list_elem_of_filter; by apply Hpc).
  case_match; [done|by apply limits_persist].
Qed.

Lemma limits_step c c' : step redact c c' → limits c → limits c'.
Proof.
  intros Hst Hl. destruct Hst.
  - unfold activate. by case_match.
  - unfold gate_begin. destruct (disposed c); [done|]. destruct (plan_blocks h t); [done|]. by case_match.
  - by apply limits_answer.
  - by apply limits_addRule.
  - by apply limits_removeRule.
  - done.
  - done.
  - done.
  - done.
  - unfold dispose. by case_match.
Qed.

Lemma reachable_limits c : reachable redact c → limits c.
Proof.
  induction 1 as [h f|c c' _ IH Hs]; [|by eapply limits_step].
  split_and!; [done|constructor|apply load_bounded|apply load_persistent].
Qed.

(** The rule lists of a reachable controller stay within their limits, the session rules
    have session scope and the persistent rules persistent scope, whatever store it
    works on. *)
Theorem rule_limits c :
  reachable redact c →
  zlen (sessionRules c) <= 64 ∧ Forall (λ r, rule_scope r = session) (sessionRules c)
  ∧ zlen (persistentRules c) <= 128 ∧ Forall (λ r, rule_scope r = persistent) (persistentRules c).
Proof. apply reachable_limits. Qed.

(** ** The gate *)

Lemma gate_answer_allows h t q e a c :
  (gate_answer h t q e a c).2.1 = false ↔
  an_resolution a = answered ∧ an_decision a ∈ [Some allow_once; Some allow_session; Some allow_always].
Proof.
  unfold gate_answer. rewrite !elem_of_cons, elem_of_nil.
  destruct (an_resolution a); [destruct (an_decision a) as [[]|]|..]; cbn; naive_solver.
Qed.

(** An answer other than a standing approval leaves the rules alone. *)
Lemma gate_answer_rules h t q e a c :
  (an_resolution a = answered → an_decision a ≠ Some allow_session ∧ an_decision a ≠ Some allow_always) →
  rules (gate_answer h t q e a c).1 = rules c.
Proof.
  unfold gate_answer. destruct (an_resolution a); [destruct (an_decision a) as [[]|]|..]; try done.
  all: intros []; by try done.
Qed.

(** A block carries a reason, and nothing else does. *)
Definition explained (r : bool * option jsstr) : Prop := if r.1 then ∃ w, r.2 = Some w ∧ w ≠ [] else r.2 = None.

Lemma denial_not_empty t e : denialReason t e ≠ [].
Proof. unfold denialReason. intros [_ [Hd _]%app_nil]%app_nil. by vm_compute in Hd. Qed.
Lemma denial_and_more t e note : denialReason t e ++ note ≠ [].
Proof. intros [Hd _]%app_nil. by apply (denial_not_empty t e). Qed.
#[local] Hint Resolve denial_not_empty denial_and_more : core.

(** A refusal repeats why the call was not allowed at once, and adds how it was refused. *)
Lemma gate_answer_reason h t q e a c : let r := (gate_answer h t q e a c).2 in
  if r.1 then ∃ note, note ≠ [] ∧ r.2 = Some (denialReason t e ++ note) else r.2 = None.
Proof.
  unfold gate_answer.
  destruct (an_resolution a) eqn:E1; [destruct (an_decision a) as [[]|] eqn:E2|..]; cbn; try done; eexists; (split; [|done]); by vm_compute.
Qed.
Lemma child_explained h t args c : explained (gateForChild h t args c).
Proof.
  unfold gateForChild, explained. destruct (disposed c); [by eexists|]. destruct (plan_blocks h t); [by eexists|]. cbv zeta.
  destruct (action _); cbn; [done|by eexists|by eexists].
Qed.

(** C4. What the gate lets through, and why it blocks.  A call returns "go" at once exactly when the
    controller is alive, PLAN does not block the tool and the evaluation of the request
    allows it; it asks only when the evaluation asks, and then lets the tool run exactly for
    an answer that was given and is one of the three approvals.  Every block carries a
    reason: the immediate ones, those of the gate for children, and those of a question,
    where the reason is the one of the evaluation with a note how the question ended.  No
    rule changes before an answer.  The gate for children never asks, and lets through
    exactly what the gate lets through without asking. *)
Theorem gate_authorizes h t args c :
  let e := evaluate h (buildRequest h t args) c in
  let '(c', r) := gate_begin redact h t args c in
  match r with
  | g_return false why => why = None ∧ disposed c = false ∧ plan_blocks h t = false ∧ action e = allow
  | g_return true why => explained (true, why) ∧ (disposed c = true ∨ plan_blocks h t = true ∨ action e = deny)
  | g_ask q e' quest =>
      disposed c = false ∧ plan_blocks h t = false ∧ h_enabled h = true
      ∧ q = buildRequest h t args ∧ e' = e ∧ action e = ask ∧ rq_type quest = t_permission
      ∧ ∀ h' a c1, let r := (gate_answer h' t q e' a c1).2 in
          (r.1 = false ↔ an_resolution a = answered ∧ an_decision a ∈ [Some allow_once; Some allow_session; Some allow_always])
          ∧ if r.1 then ∃ note, note ≠ [] ∧ r.2 = Some (denialReason t e ++ note) else r.2 = None
  end
  ∧ rules c' = rules c
  ∧ (gateForChild h t args c).1 = match r with g_return b _ => b | g_ask _ _ _ => true end
  ∧ explained (gateForChild h t args c).
Proof.
  pose proof (child_explained h t args c) as Hx. unfold gate_begin. destruct (disposed c) eqn:Hd.
  { split_and!; [by eexists|by left|done| |done]. unfold gateForChild. by rewrite Hd. }
  destruct (plan_blocks h t) eqn:Hp.
  { split_and!; [by eexists|by right; left|done| |done]. unfold gateForChild. by rewrite Hd, Hp. }
  cbv zeta. assert (Hchild : (gateForChild h t args c).1 = match action (evaluate h (buildRequest h t args) c) with allow => false | _ => true end).
  { unfold gateForChild. rewrite Hd, Hp. cbv zeta. by destruct (action _). }
  rewrite Hchild. destruct (action (evaluate h (buildRequest h t args) c)) eqn:Ha; cbv beta iota.
  - done.
  - split_and!; try done. + unfold evaluate in Ha. by destruct (h_enabled h).
    + intros h' a c1. cbv zeta. split; [apply gate_answer_allows|apply gate_answer_reason].
  - split_and!; try done; [|by right; right]. eexists. by split.
Qed.

(** Without anybody to ask the gate denies: when the interaction manager is disposed of, has
    no UI, or already shows a question, it answers at once, and every such answer makes the
    gate block with a reason and leaves the rules alone. *)
Theorem headless_gate_denies h t q e ienv quest (im : Interaction.Manager) :
  Interaction.disposed im = true ∨ uiAttached im = false ∨ Interaction.pending im ≠ None →
  ∃ a, (askInteraction ienv quest None im).2 = asked_now a
    ∧ ∀ h' c, (gate_answer h' t q e a c).2.1 = true ∧ is_Some (gate_answer h' t q e a c).2.2
              ∧ rules (gate_answer h' t q e a c).1 = rules c.
Proof.
  intros Hno.
  assert (∃ a, (askInteraction ienv quest None im).2 = asked_now a ∧ an_resolution a ≠ answered) as (a & Hask & Ha).
  { unfold askInteraction. destruct (Interaction.disposed im); [by eauto|].
    destruct (Interaction.pending im); [by eauto|]. destruct (uiAttached im); [naive_solver|by eauto]. }
  exists a. split; [done|]. intros h' c. unfold gate_answer. destruct (an_resolution a); [done|..]; by eauto.
Qed.

(** ** Standing approvals *)

Definition remember (d : decision) : option AiraPermissionRuleScope :=
  match d with allow_session => Some session | allow_always => Some persistent | _ => None end.

(** There is room for one more rule of the scope. *)
Definition room (sc : AiraPermissionRuleScope) c : Prop :=
  match sc with session => zlen (sessionRules c) < 64 | persistent => zlen (persistentRules c) < 128 end.

Lemma push_shift_room max l r : zlen l < max → push_shift max l r = l ++ [r].
Proof.
  intros. unfold push_shift. rewrite zlen_app, zlen_cons, zlen_nil.
  by rewrite (proj2 (Z.ltb_ge _ _)) by lia.
Qed.

Definition all_rules c : list AiraPermissionRule := persistentRules c ++ sessionRules c.

Lemma approval_rules h t q e a d sc c :
  an_resolution a = answered → an_decision a = Some d → remember d = Some sc → room sc c →
  ∃ l1 l2, all_rules c = l1 ++ l2
    ∧ all_rules (gate_answer h t q e a c).1 = l1 ++ approval h (tool q) (default t (subject q)) sc :: l2
    ∧ disposed (gate_answer h t q e a c).1 = disposed c.
Proof.
  intros Hr Hd Hm Hroom. unfold gate_answer, all_rules. rewrite Hr, Hd. destruct d, sc; try done; cbn in Hroom.
  - exists (persistentRules c ++ sessionRules c), []. rewrite app_nil_r. cbn [fst].
    change (sessionRules (recordDecision _ _ _ _ (addSessionRule h (tool q) (default t (subject q)) c)))
      with (push_shift 64 (sessionRules c) (approval h (tool q) (default t (subject q)) session)).
    rewrite push_shift_room by done. by rewrite app_assoc.
  - exists (persistentRules c), (sessionRules c).
    change (persistentRules (recordDecision _ _ _ _ ?c')) with (persistentRules c').
    cbn [fst].
    change (persistentRules (recordDecision h (tool q) allow (subject q) (addPersistentRule h (tool q) (default t (subject q)) c)))
      with (persistentRules (addPersistentRule h (tool q) (default t (subject q)) c)).
    change (sessionRules (recordDecision h (tool q) allow (subject q) (addPersistentRule h (tool q) (default t (subject q)) c)))
      with (sessionRules (addPersistentRule h (tool q) (default t (subject q)) c)).
    rewrite addPersistent_rules by lia. rewrite push_shift_room by done.
    split; [done|]. split.
    + rewrite <- app_assoc. cbn. do 2 f_equal. unfold addPersistentRule. cbn [publish set_snapshot sessionRules].
      by rewrite persist_session.
    + unfold addPersistentRule. cbn. by rewrite persist_disposed.
Qed.

Lemma evaluate_match h q c c' :
  matchBestRule q (all_rules c) = matchBestRule q (all_rules c') → evaluate h q c = evaluate h q c'.
Proof.
  unfold evaluate, evaluateAiraPermissionRequest, all_rules. intros ->. done.
Qed.

Lemma evaluate_allowed h q c r :
  matchBestRule q (all_rules c) = Some r → rule_action r = allow → action (evaluate h q c) = allow.
Proof.
  intros Hm Ha. unfold evaluate. destruct (h_enabled h); [|done].
  unfold evaluateAiraPermissionRequest. fold (all_rules c). rewrite Hm. cbn. by rewrite Ha, andb_false_r.
Qed.

(** A standing approval grants exactly what was approved.  After "allow session" or "allow
    always", when there is room for the rule: every request for another tool or another
    subject is evaluated as before, under every mode; and the same call goes through
    without asking as long as PLAN does not block it, provided its subject has no
    white space at its ends and no rule is as recent. *)
Theorem approval_is_exact h t args e a d sc c :
  an_resolution a = answered → an_decision a = Some d → remember d = Some sc → room sc c →
  let q := buildRequest h t args in
  let s := default t (subject q) in
  let c' := (gate_answer h t q e a c).1 in
  (∀ h2 q2, tool q2 ≠ t ∨ default (tool q2) (subject q2) ≠ trim s → evaluate h2 q2 c' = evaluate h2 q2 c)
  ∧ (trim s = s → Forall (λ r, rule_createdAt r < h_now h) (persistentRules c ++ sessionRules c) → disposed c = false →
     ∀ h2, h_cwd h2 = h_cwd h → h_pcwd h2 = h_pcwd h → plan_blocks h2 t = false →
     (gate_begin redact h2 t args c').2 = g_return false None).
Proof.
  intros Hr Hd Hm Hroom. cbv zeta. set (q := buildRequest h t args).
  destruct (approval_rules h t q e a d sc c Hr Hd Hm Hroom) as (l1 & l2 & Hall & Hall' & Hdisp).
  set (c' := (gate_answer h t q e a c).1) in *. set (r := approval h (tool q) (default t (subject q)) sc) in *.
  split.
  - intros h2 q2 Hne. apply evaluate_match. rewrite Hall, Hall'. apply match_skip.
    apply not_true_is_false. unfold r. rewrite approval_matches. unfold exactSubject. cbn [tool buildRequest q] in *. naive_solver.
  - intros Htrim Hnew Hdc h2 Hcwd Hpcwd Hplan.
    assert (buildRequest h2 t args = q) as Hq by (unfold q, buildRequest; by rewrite Hcwd, Hpcwd).
    unfold gate_begin. rewrite Hdisp, Hdc, Hplan, Hq.
    fold (all_rules c) in Hnew. rewrite Hall in Hnew. apply Forall_app in Hnew as [Hn1 Hn2].
    rewrite (evaluate_allowed h2 q c' r); [done| |done].
    rewrite Hall'. apply match_newest; [|done|done|done].
    apply approval_matches. split; [done|]. unfold exactSubject. by rewrite Htrim.
Qed.

(** An approval does not outlive its prefix: only the first 1024 characters of a command are
    the subject, so an approval holds for every command that begins with them. *)
Lemma subject_is_prefix h t args s :
  subjectOf (h_pcwd h) t args (h_cwd h) = Some s → subject (buildRequest h t args) = Some (slice0 1024 s).
Proof. intros Hs. unfold buildRequest. cbn [subject]. by rewrite Hs. Qed.

(** After the question was asked the mode of the session no longer matters. *)
Lemma plan_not_checked_again h h' t q e a c :
  h_now h = h_now h' → h_id h = h_id h' → h_enabled h = h_enabled h' → h_settings_mode h = h_settings_mode h' →
  h_modeSeam h = h_modeSeam h' → gate_answer h t q e a c = gate_answer h' t q e a c.
Proof. destruct h, h'. cbn. intros -> -> -> -> ->. done. Qed.
End Props.

(** ** Concrete sessions *)

Definition demo_host (n : Z) : Host :=
  {| h_now := n; h_id := js "s-" ++ num_str n; h_enabled := true; h_settings_mode := normal; h_modeSeam := None;
     h_mode := build; h_cwd := js "/w"; h_pcwd := js "/"; h_projectRoot := None; h_stateRoot := None |}.
Definition in_plan (h : Host) : Host :=
  {| h_now := h_now h; h_id := h_id h; h_enabled := h_enabled h; h_settings_mode := h_settings_mode h;
     h_modeSeam := h_modeSeam h; h_mode := plan; h_cwd := h_cwd h; h_pcwd := h_pcwd h;
     h_projectRoot := h_projectRoot h; h_stateRoot := h_stateRoot h |}.

Definition no_redaction (s : jsstr) : jsstr := s.
Definition demo_controller : Controller disk := newController (demo_host 0) demo_disk.
Definition command (s : jsstr) : args_t := [(js "command", v_string s)].
Definition says (d : decision) : AiraInteractionAnswer :=
  {| an_interactionId := js "q-1"; an_type := t_permission; an_resolution := answered; an_selections := [];
     an_text := None; an_decision := Some d |}.

(** A call whose question is answered with [d] (nothing, when the gate does not ask). *)
Definition approve (h : Host) (t : jsstr) (args : args_t) (d : decision) (c : Controller disk) : Controller disk :=
  match (gate_begin no_redaction h t args c).2 with
  | g_ask q e _ => (gate_answer h t q e (says d) c).1
  | g_return _ _ => c
  end.
Definition asks (h : Host) (t : jsstr) (args : args_t) (c : Controller disk) : bool :=
  match (gate_begin no_redaction h t args c).2 with g_ask _ _ _ => true | _ => false end.
Definition goes (h : Host) (t : jsstr) (args : args_t) (c : Controller disk) : bool :=
  match (gate_begin no_redaction h t args c).2 with g_return false _ => true | _ => false end.

Definition bash : jsstr := js "bash".
Definition git_push : jsstr := js "git push".

Lemma approve_step c h t args d :
  reachable no_redaction c → reachable no_redaction (approve h t args d c).
Proof.
  intros Hc. unfold approve. destruct (gate_begin _ _ _ _ _).2; [done|].
  eapply reach_step; [exact Hc|]. apply step_answer.
Qed.

Theorem rule_limits_witness :
  let c := approve (demo_host 1) bash (command git_push) allow_always demo_controller in
  rule_subject <$> persistentRules c = [git_push] ∧ Forall (λ r, rule_scope r = persistent) (persistentRules c).
Proof.
  split; [by vm_compute|]. apply (rule_limits no_redaction). apply approve_step, reach_new.
Defined.

Theorem gate_authorizes_witness :
  asks (demo_host 1) bash (command git_push) demo_controller = true
  ∧ (gateForChild (demo_host 1) bash (command git_push) demo_controller).1 = true.
Proof.
  pose proof (gate_authorizes no_redaction (demo_host 1) bash (command git_push) demo_controller) as H.
  unfold asks. destruct (gate_begin _ _ _ _ _) as [c' [b w|q e qu]] eqn:E; cbn [snd]; [by vm_compute in E|].
  split; [done|]. destruct H as (_ & _ & H & _). exact H.
Defined.

Definition demo_question : AiraInteractionRequest :=
  question no_redaction (demo_host 1) bash (command git_push) (buildRequest (demo_host 1) bash (command git_push))
    (evaluate (demo_host 1) (buildRequest (demo_host 1) bash (command git_push)) demo_controller).
Definition demo_ienv : Env := {| now := 0; setting_timeoutMs := None; new_id := js "q-1"; new_id2 := js "q-2" |}.

Theorem headless_gate_denies_witness :
  ∃ a, (askInteraction demo_ienv demo_question None Interaction.empty_manager).2 = asked_now a.
Proof.
  destruct (headless_gate_denies no_redaction (demo_host 1) bash (buildRequest (demo_host 1) bash (command git_push))
    (evaluate (demo_host 1) (buildRequest (demo_host 1) bash (command git_push)) demo_controller)
    demo_ienv demo_question Interaction.empty_manager) as (a & Ha & _); [by right; left|]. by exists a.
Defined.

Theorem approval_is_exact_witness :
  goes (demo_host 2) bash (command git_push) (approve (demo_host 1) bash (command git_push) allow_session demo_controller) = true.
Proof.
  pose (h := demo_host 1). pose (e := evaluate h (buildRequest h bash (command git_push)) demo_controller).
  destruct (approval_is_exact no_redaction h bash (command git_push) e (says allow_session) allow_session session demo_controller)
    as [_ H]; [done|done|done|by vm_compute|].
  unfold goes. change (approve (demo_host 1) bash (command git_push) allow_session demo_controller)
    with (gate_answer h bash (buildRequest h bash (command git_push)) e (says allow_session) demo_controller).1.
  rewrite H; [done|by vm_compute|constructor|done|done|done|done].
Defined.

(** *** Where the code does less than it promises *)

Definition long_prefix : jsstr := js "git push " ++ replicate 1015 97.

(** The approval of a long command covers another command the user never saw. *)
Theorem long_approval_broadens :
  let seen := long_prefix ++ js " --dry-run" in
  let run := long_prefix ++ js "; sudo rm -rf /" in
  let c := approve (demo_host 1) bash (command seen) allow_session demo_controller in
  seen ≠ run ∧ asks (demo_host 2) bash (command run) demo_controller = true
  ∧ goes (demo_host 2) bash (command run) c = true.
Proof. split; [by apply (bool_decide_unpack _); vm_compute|]. split; by vm_compute. Qed.

(** A risk marker behind the first 1024 characters is not seen at all. *)
Theorem risk_behind_prefix_unseen :
  isAiraRiskyCommand (replicate 1024 97 ++ js "; sudo rm -rf /") = true
  ∧ goes (demo_host 1) bash (command (replicate 1024 97 ++ js "; sudo rm -rf /")) demo_controller = true.
Proof. split; by vm_compute. Qed.

(** The rule of an approval is trimmed, the subject it is compared with is not: a command with
    white space at its ends is asked again after "allow session". *)
Theorem padded_approval_asks_again :
  asks (demo_host 2) bash (command (git_push ++ js " "))
    (approve (demo_host 1) bash (command (git_push ++ js " ")) allow_session demo_controller) = true.
Proof. by vm_compute. Qed.

(** An approval through the dialog drops the oldest session rule when the list is full, also
    when that rule is a deny rule of the user: what it denied goes through afterwards. *)
Definition deny_rule : AiraPermissionRule :=
  {| rule_id := []; rule_tool := bash; rule_subject := js "make deploy"; rule_match := exact; rule_action := deny;
     rule_scope := session; rule_createdAt := 0; rule_note := None |}.
Definition allow_rule (n : nat) : AiraPermissionRule :=
  {| rule_id := []; rule_tool := bash; rule_subject := num_str (Z.of_nat n); rule_match := exact; rule_action := allow;
     rule_scope := session; rule_createdAt := 0; rule_note := None |}.
Definition full_controller : Controller disk :=
  foldl (λ c r, (addRule (demo_host 0) r session c).1) demo_controller (deny_rule :: (allow_rule <$> seq 0 63)).

Theorem approval_evicts_deny_rule :
  goes (demo_host 2) bash (command (js "make deploy")) full_controller = false
  ∧ goes (demo_host 2) bash (command (js "make deploy"))
      (approve (demo_host 1) bash (command git_push) allow_session full_controller) = true.
Proof. split; by vm_compute. Qed.

(** A mutating tool whose question is open when the session changes to PLAN runs in PLAN once
    the question is approved; asked in PLAN, the gate would have blocked it. *)
Theorem plan_switch_during_question :
  match (gate_begin no_redaction (demo_host 1) bash (command git_push) demo_controller).2 with
  | g_ask q e _ => (gate_answer (in_plan (demo_host 2)) bash q e (says allow_once) demo_controller).2.1 = false
  | _ => False
  end
  ∧ goes (in_plan (demo_host 2)) bash (command git_push) demo_controller = false.
Proof. split; by vm_compute. Qed.

(** A persistent approval of a subject longer than 500 characters comes back from the disk as
    an approval of its first 500 characters, a command the user never approved; the approved
    command is asked again. *)
Definition restarted (c : Controller disk) : Controller disk := newController (demo_host 9) (store c).

Theorem persisted_approval_changes_subject :
  let s := js "git push " ++ replicate 600 97 in
  let c := approve (demo_host 1) bash (command s) allow_always demo_controller in
  goes (demo_host 2) bash (command s) c = true
  ∧ asks (demo_host 10) bash (command s) (restarted c) = true
  ∧ asks (demo_host 2) bash (command (slice0 500 s)) c = true
  ∧ goes (demo_host 10) bash (command (slice0 500 s)) (restarted c) = true.
Proof. split_and!; by vm_compute. Qed.

(** ** The card *)

(** The presentation of every question is within its limits, and a parameter of an extension
    tool whose name is one of the secret names is never shown. *)
Lemma card_bounded redact pcwd i :
  let p := buildAiraPermissionPresentation redact pcwd i in
  zlen (pr_subject p) <= 400 ∧ zlen (pr_summary p) <= 60 ∧ zlen (pr_reason p) <= 120 ∧ zlen (pr_details p) <= 4
  ∧ (in_capability i = unknown →
     ∀ n k v, in_args i !! n = Some (k, v) → is_secret_key (trim k) = true →
     ∀ row, pr_details p !! n = Some row → row.2 = js "[REDACTED]").
Proof.
  unfold buildAiraPermissionPresentation. destruct (detail_rows redact pcwd i _) as [rows o] eqn:Hrows.
  cbn [pr_subject pr_summary pr_reason pr_details]. unfold boundText.
  split_and!; try (by apply bound_text_le); [rewrite zlen_take; unfold MAX_DETAIL_ROWS; lia|].
  intros Hc n k v Hn Hk row Hrow. unfold detail_rows in Hrows. rewrite Hc in Hrows. injection Hrows as <- _.
  apply lookup_take_Some in Hrow as [Hrow _]. apply list_lookup_fmap_Some in Hrow as ([k' v'] & -> & Hl).
  apply lookup_take_Some in Hl as [Hl _]. pose proof (eq_trans (eq_sym Hn) Hl) as [= <- <-].
  cbn. unfold boundedParamValue. by rewrite Hk.
Qed.

End PermControllerProps.
