(* ===== verification/Destructive.v ===== *)
(** * Destructive shell commands

    Models the command recognition of [aira/workspace/ownership.ts]: which commands count as
    destructive and which paths such a command is taken to target.  The regular
    expressions are matchers over the code units; their [i] flag folds ASCII letters. *)
From S2P Require Import Prelude JsMap JsString Policy Presentation.

Module Destructive.
Import Policy Presentation.

Definition MAX_TRACKED_PATHS : Z := 200.

(** ** Matchers *)

(** The literal [w], ignoring case: what follows it. *)
Fixpoint literal_i (w s : jsstr) : option jsstr :=
  match w, s with
  | [], _ => Some s
  | a :: w', b :: s' => if ascii_lower b =? a then literal_i w' s' else None
  | _ :: _, [] => None
  end.

(** [\s+] followed by something that is not white space. *)
Definition spaces (s : jsstr) : option jsstr :=
  match s with u :: s' => if is_ws u then Some (trimStart s') else None | [] => None end.

(** The first of the words that is found. *)
Fixpoint one_of (ws : list string) (s : jsstr) : option jsstr :=
  match ws with
  | [] => None
  | w :: ws' => match literal_i (js w) s with Some rest => Some rest | None => one_of ws' s end
  end.

(** [git\s+(?:w1|w2...)] *)
Definition git_verb (ws : list string) (s : jsstr) : option jsstr :=
  match literal_i (js "git") s with
  | Some rest => match spaces rest with Some rest => one_of ws rest | None => None end
  | None => None
  end.

(** [\b] behind a word character. *)
Definition word_end (s : jsstr) : bool := match s with u :: _ => negb (is_word u) | [] => true end.
Definition ended (r : option jsstr) : option jsstr :=
  match r with Some rest => if word_end rest then Some rest else None | None => None end.

(** [rm(?:\s|$)] *)
Definition rm_verb (s : jsstr) : bool :=
  match literal_i (js "rm") s with Some (u :: _) => is_ws u | Some [] => true | None => false end.

(** Where a command may begin: at the start of the text, or behind a separator and white space. *)
Inductive place := p_start | p_sep | p_no.
Definition is_sep (u : Z) : bool := bool_decide (u ∈ [59; 38; 124]).
Definition next_place (p : place) (u : Z) : place :=
  if is_sep u then p_sep else match p with p_sep => if is_ws u then p_sep else p_no | _ => p_no end.

Fixpoint destructive_from (p : place) (s : jsstr) : bool :=
  match p with
  | p_no => false
  | _ => match git_verb ["restore"; "checkout"; "reset"]%string s with Some _ => true | None => rm_verb s end
  end
  || match s with [] => false | u :: s' => destructive_from (next_place p u) s' end.

Definition isDestructiveCommand (command : jsstr) : bool := destructive_from p_start (trim command).

(** ** The targets *)

(** The text behind the first match of a matcher. *)
Fixpoint find_match (m : jsstr → option jsstr) (s : jsstr) : option jsstr :=
  match m s with
  | Some rest => Some rest
  | None => match s with [] => None | _ :: s' => find_match m s' end
  end.

(** The start of the text or a separator and white space, then [rm\b], then anything. *)
Fixpoint rm_tail (p : place) (s : jsstr) : option jsstr :=
  match match p with p_no => None | _ => ended (literal_i (js "rm") s) end with
  | Some rest => Some rest
  | None => match s with [] => None | u :: s' => rm_tail (next_place p u) s' end
  end.

(** [tail.indexOf("--")], and the text behind it. *)
Definition after_dashes (s : jsstr) : option jsstr := find_match (strip_prefix [45; 45]) s.

(** [s.replace(/--(?:hard|mixed|soft)?/gi, " ")]: the text behind every match goes on. *)
Fixpoint drop_modes (fuel : nat) (s : jsstr) : jsstr :=
  match fuel with
  | O => s
  | S fuel =>
      match s with
      | [] => []
      | u :: s' =>
          match strip_prefix [45; 45] s with
          | Some rest => 32 :: drop_modes fuel (default rest (one_of ["hard"; "mixed"; "soft"]%string rest))
          | None => u :: drop_modes fuel s'
          end
      end
  end.

Fixpoint take_until (stop : Z → bool) (s : jsstr) : jsstr * option jsstr :=
  match s with
  | [] => ([], None)
  | u :: s' => if stop u then ([], Some s) else let '(w, r) := take_until stop s' in (u :: w, r)
  end.

(** The words [matchAll] finds: quoted text without its quotes, or a run without white space
    (also one that begins with a quote that is never closed). *)
Fixpoint words (fuel : nat) (s : jsstr) : list jsstr :=
  match fuel, s with
  | O, _ | _, [] => []
  | S fuel, u :: s' =>
      let run := take_until is_ws s in
      let bare := run.1 :: words fuel (default [] run.2) in
      if is_ws u then words fuel s'
      else if (u =? 34) || (u =? 39) then
        match take_until (λ v, v =? u) s' with
        | (w, Some (_ :: rest)) => w :: words fuel rest
        | _ => bare
        end
      else bare
  end.

Definition shellWords (text : jsstr) : list jsstr :=
  take (Z.to_nat MAX_TRACKED_PATHS)
    (filter (λ w, w ≠ [] ∧ w ≠ [46] ∧ w ≠ dotdot) (words (length text) text)).

Definition destructiveCommandPaths (command : jsstr) : list jsstr :=
  match find_match (λ s, ended (git_verb ["restore"; "checkout"]%string s)) command with
  | Some rest =>
      match after_dashes (trim rest) with
      | None => []
      | Some targets => shellWords targets
      end
  | None =>
      match find_match (λ s, ended (git_verb ["reset"]%string s)) command with
      | Some rest => shellWords (drop_modes (length rest) rest)
      | None =>
          match rm_tail p_start command with
          | Some rest => filter (λ w, startsWith [45] w = false) (shellWords rest)
          | None => []
          end
      end
  end.

(** ** Lemmas *)

Lemma take_until_app stop s : let '(w, r) := take_until stop s in w ++ default [] r = s.
Proof.
  induction s as [|u s IH]; [done|]. cbn. destruct (stop u); [done|].
  destruct (take_until stop s) as [w r]. cbn. by rewrite IH.
Qed.

Lemma take_until_free stop s : Forall (λ u, stop u = false) (take_until stop s).1.
Proof.
  induction s as [|u s IH]; [constructor|]. cbn. destruct (stop u) eqn:E; [constructor|].
  destruct (take_until stop s). by constructor.
Qed.

Lemma take_until_all stop s rest :
  Forall (λ u, stop u = false) s → match rest with u :: _ => stop u = true | [] => True end →
  take_until stop (s ++ rest) = (s, match rest with [] => None | _ => Some rest end).
Proof.
  intros Hs Hr. induction Hs as [|u s Hu _ IH]; cbn.
  - destruct rest as [|u rest]; [done|]. cbn. by rewrite Hr.
  - by rewrite Hu, IH.
Qed.

(** A word as a shell writes it without quoting. *)
Definition bare_word (w : jsstr) : Prop :=
  Forall (λ u, is_ws u = false) w
  ∧ match w with u :: _ => u ≠ 34 ∧ u ≠ 39 | [] => False end.

Lemma words_space fuel s : words (S fuel) (32 :: s) = words fuel s.
Proof. done. Qed.

Lemma words_bare fuel w s : bare_word w → match s with u :: _ => is_ws u = true | [] => True end →
  words (S fuel) (w ++ s) = w :: words fuel s.
Proof.
  intros [Hw Hh] Hs. destruct w as [|u w]; [done|]. pose proof (Forall_inv Hw) as Hu. cbn in Hu.
  pose proof (take_until_all is_ws (u :: w) s Hw Hs) as Ht. cbn [app] in *. cbn [words]. rewrite Ht, Hu.
  rewrite (proj2 (orb_false_iff _ _)) by (split; apply Z.eqb_neq; tauto). cbn [fst snd].
  destruct s; done.
Qed.

Lemma words_join fuel l :
  Forall bare_word l → (2 * length l <= fuel)%nat → words fuel (32 :: join [32] l) = l.
Proof.
  intros Hl. revert fuel. induction Hl as [|w l Hw Hl IH]; intros fuel Hf; cbn [length] in Hf.
  { destruct fuel as [|[|fuel]]; done. }
  destruct fuel as [|[|fuel]]; try lia. rewrite words_space. destruct l as [|w2 l].
  - cbn [join]. rewrite <- (app_nil_r w), words_bare by done. rewrite app_nil_r. by destruct fuel.
  - change (join [32] (w :: w2 :: l)) with (w ++ 32 :: join [32] (w2 :: l)).
    rewrite words_bare by done. by rewrite IH by lia.
Qed.

Lemma join_long l : Forall bare_word l → (2 * length l <= S (length (join [32%Z] l)))%nat.
Proof.
  induction 1 as [|w l [_ Hw] Hl IH]; [cbn; lia|]. destruct w as [|u w]; [done|].
  destruct l as [|w2 l]; [cbn; lia|].
  change (join [32] ((u :: w) :: w2 :: l)) with ((u :: w) ++ 32 :: join [32] (w2 :: l)).
  rewrite length_app. cbn [length] in *. lia.
Qed.

(** The words of a command line that is written without quotes, up to the words "." and "..". *)
Lemma shellWords_join l :
  Forall bare_word l → zlen l <= MAX_TRACKED_PATHS → Forall (λ w, w ≠ [46] ∧ w ≠ dotdot) l →
  shellWords (32 :: join [32] l) = l.
Proof.
  intros Hl Hn Hd. unfold shellWords. cbn [length]. rewrite words_join; [|done|by apply join_long].
  rewrite filter_all.
  - apply take_ge. unfold zlen, MAX_TRACKED_PATHS in *. lia.
  - apply Forall_forall. intros w Hw. rewrite Forall_forall in Hl, Hd. split; [|by apply Hd].
    intros ->. by destruct (Hl [] Hw) as [_ []].
Qed.

End Destructive.
