(* ===== verification/Ownership.v ===== *)
(** * Workspace ownership

    Models [aira/workspace/ownership.ts]: which changed paths of a workspace the current
    goal owns, and the guard for destructive operations.  Everything asynchronous is a
    job in the state: what a call awaits (a repository snapshot, a file's content, other
    jobs) arrives in a step of its own, so that any other call may come in between. *)
From S2P Require Import Prelude JsMap JsString Policy Presentation Destructive.

Module Ownership.
Import Policy Presentation Destructive.

(** ** Data *)

Inductive change_status := added | modified | deleted | renamed | untracked.
Record AiraChangeFile := { path : jsstr; status : change_status; added_lines : Z; deleted_lines : Z }.

Definition status_text (s : change_status) : jsstr :=
  match s with added => js "added" | modified => js "modified" | deleted => js "deleted" | renamed => js "renamed"
             | untracked => js "untracked" end.

Record Fingerprint := { change : jsstr; content : jsstr }.
#[export] Instance Fingerprint_eq_dec : EqDecision Fingerprint.
Proof. solve_decision. Defined.

(** [content] is the digest of the file, or "missing". *)
Definition fingerprintFor (file : AiraChangeFile) (content : jsstr) : Fingerprint :=
  {| change := status_text (status file) ++ [0] ++ num_str (added_lines file) ++ [0] ++ num_str (deleted_lines file);
     content := content |}.

Definition sameFingerprint (a b : Fingerprint) : bool := bool_decide (change a = change b ∧ content a = content b).

Record AiraWorkspaceOwnershipObservation := {
  ob_available : bool;
  ob_baseline : list AiraChangeFile; ob_owned : list AiraChangeFile;
  ob_protected : list AiraChangeFile; ob_unowned : list AiraChangeFile;
  ob_counts : Z * Z * Z * Z }.

Record AiraWorkspaceRepairDecision := { allowed : bool; d_path : option jsstr; d_reason : jsstr }.

Definition MAX_REASON_CHARS : Z := 240.
Definition bound (text : jsstr) : jsstr := bound_text MAX_REASON_CHARS text.

(** An empty path is left out, as an absent one. *)
Definition refused (p : option jsstr) (reason : jsstr) : AiraWorkspaceRepairDecision :=
  {| allowed := false; d_path := match p with Some ((_ :: _) as p) => Some p | _ => None end; d_reason := bound reason |}.
Definition granted (p : option jsstr) (reason : jsstr) : AiraWorkspaceRepairDecision :=
  {| allowed := true; d_path := p; d_reason := reason |}.

(** ** Jobs *)

(** What [refreshForGuard] decides afterwards. *)
Inductive guard := guard_path (p : jsstr) | guard_command (ps : list jsstr).
Inductive continuation := k_observation | k_guard (g : guard).

Inductive job :=
| j_baseline (gen : Z)                                     (** awaits its snapshot *)
| j_fingerprint (p : jsstr) (obj : nat) (gen : Z)           (** awaits its snapshot *)
| j_read (p : jsstr) (obj : nat) (gen : Z) (f : AiraChangeFile) (** awaits the file *)
| j_guard (g : guard)                                      (** awaits its snapshot *)
| j_classify (awaits : option nat) (files : list AiraChangeFile) (k : continuation)     (** awaits a job *)
| j_fingerprints (awaits : list nat) (files : list AiraChangeFile) (k : continuation)  (** awaits jobs *)
| j_loop (f : AiraChangeFile) (obj : nat) (rest : list AiraChangeFile) (k : continuation) (** awaits the file *).

Inductive output := out_observation (o : AiraWorkspaceOwnershipObservation) | out_decision (d : AiraWorkspaceRepairDecision)
  | out_throws.

(** ** History *)

Inductive request := ask_path (p : jsstr) | ask_command (command : jsstr).

(** What happened: a call asked for [q] as job [k]; the snapshot of a classification was there,
    and its loop began; the fingerprint of an object was captured, or compared in the loop of
    [k], with the content that was read. *)
Inductive entry :=
| asked (k : nat) (q : request)
| delivered (k : nat) (files : list AiraChangeFile)
| began (k : nat)
| captured (obj : nat) (f : AiraChangeFile) (content : jsstr)
| checked (k obj : nat) (f : AiraChangeFile) (content : jsstr).

(** ** The state *)

(** [fingerprints] is the heap of [OwnedPath] objects; [owned] maps a path to its object. *)
Record Tracker := {
  cwd : jsstr;
  baseline : list (jsstr * AiraChangeFile);
  owned : list (jsstr * nat);
  fingerprints : gmap nat (option Fingerprint);
  protectedPaths : list jsstr;
  unownedPaths : list jsstr;
  current : list (jsstr * AiraChangeFile);
  pendingToolPaths : list (jsstr * jsstr);
  pendingMutations : list jsstr;
  ownedFingerprintPromises : list (jsstr * nat);
  baselineReady : bool;
  activeGoal : bool;
  generation : Z;
  disposed : bool;
  baselinePromise : option nat;
  jobs : gmap nat job;
  fresh : nat;                      (** the next job and the next object *)
  outputs : list (nat * output);    (** what the calls returned, latest last *)
  recorded : list jsstr;  (** history: the mutations recorded since [beginGoal]; nothing reads it *)
  log : list entry        (** history: nothing reads it *) }.

Definition with_goal (a r : bool) (g : Z) (s : Tracker) : Tracker :=
  {| cwd := cwd s; baseline := baseline s; owned := owned s; fingerprints := fingerprints s;
     protectedPaths := protectedPaths s; unownedPaths := unownedPaths s; current := current s;
     pendingToolPaths := pendingToolPaths s; pendingMutations := pendingMutations s;
     ownedFingerprintPromises := ownedFingerprintPromises s; baselineReady := r; activeGoal := a; generation := g;
     disposed := disposed s; baselinePromise := baselinePromise s; jobs := jobs s; fresh := fresh s;
     outputs := outputs s; recorded := recorded s; log := log s |}.
Definition with_paths b o p u c (s : Tracker) : Tracker :=
  {| cwd := cwd s; baseline := b; owned := o; fingerprints := fingerprints s;
     protectedPaths := p; unownedPaths := u; current := c;
     pendingToolPaths := pendingToolPaths s; pendingMutations := pendingMutations s;
     ownedFingerprintPromises := ownedFingerprintPromises s; baselineReady := baselineReady s; activeGoal := activeGoal s;
     generation := generation s; disposed := disposed s; baselinePromise := baselinePromise s; jobs := jobs s;
     fresh := fresh s; outputs := outputs s; recorded := recorded s; log := log s |}.
Definition with_pending t m r (s : Tracker) : Tracker :=
  {| cwd := cwd s; baseline := baseline s; owned := owned s; fingerprints := fingerprints s;
     protectedPaths := protectedPaths s; unownedPaths := unownedPaths s; current := current s;
     pendingToolPaths := t; pendingMutations := m;
     ownedFingerprintPromises := ownedFingerprintPromises s; baselineReady := baselineReady s; activeGoal := activeGoal s;
     generation := generation s; disposed := disposed s; baselinePromise := baselinePromise s; jobs := jobs s;
     fresh := fresh s; outputs := outputs s; recorded := r; log := log s |}.
Definition with_async fp pr bp js' fr (s : Tracker) : Tracker :=
  {| cwd := cwd s; baseline := baseline s; owned := owned s; fingerprints := fp;
     protectedPaths := protectedPaths s; unownedPaths := unownedPaths s; current := current s;
     pendingToolPaths := pendingToolPaths s; pendingMutations := pendingMutations s;
     ownedFingerprintPromises := pr; baselineReady := baselineReady s; activeGoal := activeGoal s;
     generation := generation s; disposed := disposed s; baselinePromise := bp; jobs := js';
     fresh := fr; outputs := outputs s; recorded := recorded s; log := log s |}.
Definition emit (k : nat) (o : output) (s : Tracker) : Tracker :=
  {| cwd := cwd s; baseline := baseline s; owned := owned s; fingerprints := fingerprints s;
     protectedPaths := protectedPaths s; unownedPaths := unownedPaths s; current := current s;
     pendingToolPaths := pendingToolPaths s; pendingMutations := pendingMutations s;
     ownedFingerprintPromises := ownedFingerprintPromises s; baselineReady := baselineReady s; activeGoal := activeGoal s;
     generation := generation s; disposed := disposed s; baselinePromise := baselinePromise s; jobs := jobs s;
     fresh := fresh s; outputs := outputs s ++ [(k, o)]; recorded := recorded s; log := log s |}.
Definition set_disposed (s : Tracker) : Tracker :=
  {| cwd := cwd s; baseline := baseline s; owned := owned s; fingerprints := fingerprints s;
     protectedPaths := protectedPaths s; unownedPaths := unownedPaths s; current := current s;
     pendingToolPaths := pendingToolPaths s; pendingMutations := pendingMutations s;
     ownedFingerprintPromises := ownedFingerprintPromises s; baselineReady := baselineReady s; activeGoal := activeGoal s;
     generation := generation s; disposed := true; baselinePromise := baselinePromise s; jobs := jobs s;
     fresh := fresh s; outputs := outputs s; recorded := recorded s; log := log s |}.

Definition note (e : entry) (s : Tracker) : Tracker :=
  {| cwd := cwd s; baseline := baseline s; owned := owned s; fingerprints := fingerprints s;
     protectedPaths := protectedPaths s; unownedPaths := unownedPaths s; current := current s;
     pendingToolPaths := pendingToolPaths s; pendingMutations := pendingMutations s;
     ownedFingerprintPromises := ownedFingerprintPromises s; baselineReady := baselineReady s; activeGoal := activeGoal s;
     generation := generation s; disposed := disposed s; baselinePromise := baselinePromise s; jobs := jobs s;
     fresh := fresh s; outputs := outputs s; recorded := recorded s; log := log s ++ [e] |}.

Definition protect (p : jsstr) (s : Tracker) : Tracker :=
  with_paths (baseline s) (owned s) (if bool_decide (p ∈ protectedPaths s) then protectedPaths s else protectedPaths s ++ [p])
    (unownedPaths s) (current s) s.
Definition set_ready (r : bool) (s : Tracker) : Tracker := with_goal (activeGoal s) r (generation s) s.
Definition clear_pendingMutations (s : Tracker) : Tracker := with_pending (pendingToolPaths s) [] (recorded s) s.

(** A call that waits: its job; and the job that has ended. *)
Definition start_job (k : nat) (j : job) (s : Tracker) : Tracker :=
  with_async (fingerprints s) (ownedFingerprintPromises s) (baselinePromise s) (<[k := j]> (jobs s)) (fresh s) s.
Definition end_job (k : nat) (s : Tracker) : Tracker :=
  with_async (fingerprints s)
    (filter (λ pj, pj.2 ≠ k) (ownedFingerprintPromises s)) (baselinePromise s) (delete k (jobs s)) (fresh s) s.
Definition next_fresh (s : Tracker) : Tracker :=
  with_async (fingerprints s) (ownedFingerprintPromises s) (baselinePromise s) (jobs s) (S (fresh s)) s.

Definition new_tracker (pcwd options_cwd : jsstr) : Tracker :=
  {| cwd := [slash] ++ join [slash] (resolve_segments pcwd options_cwd);
     baseline := []; owned := []; fingerprints := ∅; protectedPaths := []; unownedPaths := []; current := [];
     pendingToolPaths := []; pendingMutations := []; ownedFingerprintPromises := []; baselineReady := false;
     activeGoal := false; generation := 0; disposed := false; baselinePromise := None; jobs := ∅; fresh := 0;
     outputs := []; recorded := []; log := [] |}.

(** ** Paths *)

Definition backslash_to_slash (s : jsstr) : jsstr := (λ u, if u =? 92 then slash else u) <$> s.

(** [cwd] is absolute, so the process directory does not matter; and [resolve] of a directory
    and an absolute path is [resolve] of the path. *)
Definition toRelative (s : Tracker) (p : jsstr) : option jsstr :=
  let absolute := resolve (cwd s) (cwd s) p in
  let rel := backslash_to_slash (relative (cwd s) (cwd s) absolute) in
  if (0 <? zlen rel) && negb (bool_decide (rel = [46])) && negb (startsWith dotdot rel) && negb (isAbsolute rel)
  then Some rel else None.

(** ** Recording *)

Definition beginGoal (s : Tracker) : Tracker :=
  if disposed s then s
  else
    let s := with_goal true false (generation s + 1) (with_paths [] [] [] [] [] (with_pending [] [] [] s)) in
    let k := fresh s in
    next_fresh (with_async (fingerprints s) (ownedFingerprintPromises s) (Some k) (<[k := j_baseline (generation s)]> (jobs s)) k s).

(** [captureOwnedFingerprint] up to its first [await]; a capture that ends there is a
    promise that is already resolved. *)
Definition recordReadyMutation (r : jsstr) (s : Tracker) : Tracker :=
  match mget r (baseline s) with
  | Some _ => protect r s
  | None =>
      let k := fresh s in
      let s := with_paths (baseline s) (mset r k (owned s)) (protectedPaths s) (unownedPaths s) (current s) s in
      if disposed s || negb (baselineReady s)
      then next_fresh (with_async (<[k := None]> (fingerprints s)) (mdelete r (ownedFingerprintPromises s)) (baselinePromise s) (jobs s) k s)
      else next_fresh (with_async (<[k := None]> (fingerprints s)) (mset r k (ownedFingerprintPromises s)) (baselinePromise s)
                         (<[k := j_fingerprint r k (generation s)]> (jobs s)) k s)
  end.

Definition recordToolMutation (p : jsstr) (s : Tracker) : Tracker :=
  if disposed s || negb (activeGoal s) then s
  else match toRelative s p with
  | None => s
  | Some r =>
      let s := with_pending (pendingToolPaths s) (pendingMutations s) (recorded s ++ [r]) s in
      if negb (baselineReady s)
      then with_pending (pendingToolPaths s)
             (if bool_decide (r ∈ pendingMutations s) then pendingMutations s else pendingMutations s ++ [r]) (recorded s) s
      else recordReadyMutation r s
  end.

Inductive AgentEvent :=
| tool_execution_start (toolCallId toolName : jsstr) (args : option args_t)
| tool_execution_end (toolCallId toolName : jsstr) (isError : bool)
| other_event.

(** [None] is a value that is no object. *)
Definition toolPathFromArgs (args : option args_t) : option jsstr :=
  match args with
  | None => None
  | Some args => match readString "path" args with Some ((_ :: _) as p) => Some p | _ => None end
  end.

Definition is_write_tool (t : jsstr) : bool := bool_decide (t ∈ js <$> ["edit"; "write"]%string).

Definition applyAgentEvent (e : AgentEvent) (s : Tracker) : Tracker :=
  if disposed s || negb (activeGoal s) then s
  else match e with
  | tool_execution_start i t args =>
      if is_write_tool t then
        match toolPathFromArgs args with
        | Some p => with_pending (mset i p (pendingToolPaths s)) (pendingMutations s) (recorded s) s
        | None => s
        end
      else s
  | tool_execution_end i t isError =>
      let p := mget i (pendingToolPaths s) in
      let s := with_pending (mdelete i (pendingToolPaths s)) (pendingMutations s) (recorded s) s in
      if isError || negb (is_write_tool t) then s
      else match p with
      | None => s
      | Some p => match toRelative s p with Some r => recordToolMutation r s | None => s end
      end
  | other_event => s
  end.

Definition dispose (s : Tracker) : Tracker :=
  set_disposed (with_goal false (baselineReady s) (generation s + 1)
    (with_paths [] [] [] [] [] (with_pending (pendingToolPaths s) [] (recorded s) s))).

(** ** The captures *)

Inductive snap := snap_throws | snap_undefined | snap_files (files : list AiraChangeFile).
Definition files_of (r : snap) : list AiraChangeFile := match r with snap_files fs => fs | _ => [] end.
Definition bounded_files (fs : list AiraChangeFile) : list AiraChangeFile := take (Z.to_nat MAX_TRACKED_PATHS) fs.
Definition file_map (fs : list AiraChangeFile) : list (jsstr * AiraChangeFile) := mof_list ((λ f, (path f, f)) <$> fs).

(** [captureBaseline] behind its [await]. *)
Definition baseline_arrives (k : nat) (gen : Z) (r : snap) (s : Tracker) : Tracker :=
  let s := end_job k s in
  match r with
  | snap_throws => clear_pendingMutations (set_ready false s)
  | _ =>
      if disposed s || negb (gen =? generation s) then s
      else
        let b := file_map (bounded_files (files_of r)) in
        let s := with_paths b (owned s) (protectedPaths s) (unownedPaths s) (current s) s in
        let s := foldl (λ s p, match mget p b with Some _ => protect p s | None => s end) s (owned s).*1 in
        let ready := match r with snap_files _ => true | _ => false end in
        let s := set_ready ready s in
        if negb ready then clear_pendingMutations s
        else
          let pending := pendingMutations s in
          foldl (λ s p, recordReadyMutation p s) (clear_pendingMutations s) pending
  end.

(** Whether the object is still the one of the path and the goal the one it was made for. *)
Definition is_current (p : jsstr) (obj : nat) (gen : Z) (s : Tracker) : bool :=
  bool_decide (mget p (owned s) = Some obj) && (gen =? generation s).

(** [captureOwnedFingerprint] behind its first and its second [await]. *)
Definition fingerprint_arrives (k : nat) (p : jsstr) (obj : nat) (gen : Z) (r : snap) (s : Tracker) : Tracker :=
  match find (λ f, bool_decide (path f = p)) (files_of r) with
  | Some f => if is_current p obj gen s then start_job k (j_read p obj gen f) s else end_job k s
  | None => end_job k s
  end.

Definition set_fingerprint (obj : nat) (v : option Fingerprint) (s : Tracker) : Tracker :=
  with_async (<[obj := v]> (fingerprints s)) (ownedFingerprintPromises s) (baselinePromise s) (jobs s) (fresh s) s.

Definition read_arrives (k : nat) (p : jsstr) (obj : nat) (gen : Z) (f : AiraChangeFile) (content : jsstr) (s : Tracker) : Tracker :=
  end_job k (if is_current p obj gen s
             then note (captured obj f content) (set_fingerprint obj (Some (fingerprintFor f content)) s)
             else set_fingerprint obj None s).

(** ** Classification and decisions *)

Definition observation (s : Tracker) : AiraWorkspaceOwnershipObservation :=
  let current := bounded_files (current s).*2 in
  let base := bounded_files (baseline s).*2 in
  let in_baseline f := match mget (path f) (baseline s) with Some _ => true | None => false end in
  let is_owned f := match mget (path f) (owned s) with Some _ => true | None => false end in
  let is_protected f := bool_decide (path f ∈ protectedPaths s) in
  let own := filter (λ f, is_owned f && negb (is_protected f) = true) current in
  let prot := filter (λ f, in_baseline f || is_protected f = true) current in
  let unown := filter (λ f, negb (in_baseline f) && negb (is_owned f) && bool_decide (path f ∈ unownedPaths s) = true) current in
  {| ob_available := baselineReady s; ob_baseline := base; ob_owned := own; ob_protected := prot; ob_unowned := unown;
     ob_counts := (zlen base, zlen own, zlen prot, zlen unown) |}.

Definition authorizeClassifiedPath (s : Tracker) (p : jsstr) : AiraWorkspaceRepairDecision :=
  match toRelative s p with
  | None => refused (Some p) (js "path is outside the Goal workspace")
  | Some r =>
      if negb (baselineReady s) then refused (Some r) (js "workspace ownership is unavailable")
      else match mget r (baseline s) with
      | Some _ => refused (Some r) (js "protected pre-existing workspace change")
      | None =>
          let no := refused (Some r) (js "protected unowned or ambiguous workspace change") in
          match mget r (owned s) with
          | None => no
          | Some obj =>
              match fingerprints s !! obj with
              | Some (Some _) => if bool_decide (r ∈ protectedPaths s) then no else granted (Some r) (js "Goal-owned workspace change")
              | _ => no
              end
          end
      end
  end.

Definition unavailable : jsstr := js "workspace ownership is unavailable".

(** The rest of [authorizeDestructivePath] and [authorizeDestructiveCommand], given what
    [refreshForGuard] returned. *)
Fixpoint first_refusal (s : Tracker) (ps : list jsstr) : option AiraWorkspaceRepairDecision :=
  match ps with
  | [] => None
  | p :: ps' => let d := authorizeClassifiedPath s p in if allowed d then first_refusal s ps' else Some d
  end.
Definition decide_guard (g : guard) (available : bool) (s : Tracker) : AiraWorkspaceRepairDecision :=
  match g with
  | guard_path p => if negb available then refused (toRelative s p) unavailable else authorizeClassifiedPath s p
  | guard_command ps =>
      if negb available then refused None unavailable
      else default (granted None (js "all destructive targets are Goal-owned")) (first_refusal s ps)
  end.

(** [classify] has returned. *)
Definition finish (k : nat) (c : continuation) (s : Tracker) : Tracker :=
  let s := end_job k s in
  emit k match c with
         | k_observation => out_observation (observation s)
         | k_guard g => out_decision (decide_guard g (baselineReady s) s)
         end s.

(** [classify] has thrown. *)
Definition finish_throws (k : nat) (c : continuation) (s : Tracker) : Tracker :=
  let s := end_job k s in
  emit k match c with k_observation => out_throws | k_guard g => out_decision (decide_guard g false s) end s.

Definition mark_unowned (p : jsstr) (s : Tracker) : Tracker :=
  with_paths (baseline s) (owned s) (protectedPaths s)
    (if bool_decide (p ∈ unownedPaths s) then unownedPaths s else unownedPaths s ++ [p]) (current s) s.

(** The loop of [classify], up to the next file it has to read. *)
Fixpoint classify_loop (k : nat) (c : continuation) (fs : list AiraChangeFile) (s : Tracker) : Tracker :=
  match fs with
  | [] => finish k c s
  | f :: rest =>
      match mget (path f) (baseline s) with
      | Some _ => classify_loop k c rest s
      | None =>
          match mget (path f) (owned s) with
          | None => classify_loop k c rest (mark_unowned (path f) s)
          | Some obj =>
              match fingerprints s !! obj with
              | Some (Some _) => start_job k (j_loop f obj rest c) s
              | _ => classify_loop k c rest s
              end
          end
      end
  end.

(** [classify] behind the two [await]s at its beginning. *)
Definition classify_body (k : nat) (c : continuation) (fs : list AiraChangeFile) (s : Tracker) : Tracker :=
  let s := note (began k) s in
  if disposed s then finish k c s
  else
    let bounded := bounded_files fs in
    classify_loop k c bounded (with_paths (baseline s) (owned s) (protectedPaths s) [] (file_map bounded) s).

(** The file of the loop has been read. *)
Definition loop_arrives (k : nat) (f : AiraChangeFile) (obj : nat) (rest : list AiraChangeFile) (c : continuation)
    (content : jsstr) (s : Tracker) : Tracker :=
  match fingerprints s !! obj with
  | Some (Some fp) =>
      let s := note (checked k obj f content) s in
      classify_loop k c rest (if sameFingerprint fp (fingerprintFor f content) then s else protect (path f) s)
  | _ => finish_throws k c s
  end.

(** A call gets the number [fresh] as its job. *)
Definition classify (files : option (list AiraChangeFile)) (s : Tracker) : Tracker :=
  let s := note (delivered (fresh s) (default [] files)) s in
  start_job (fresh s) (j_classify (baselinePromise s) (default [] files) k_observation) (next_fresh s).

Definition answer_now (d : AiraWorkspaceRepairDecision) (s : Tracker) : Tracker := emit (fresh s) (out_decision d) (next_fresh s).

Definition authorizeDestructivePath (p : jsstr) (s : Tracker) : Tracker :=
  let s := note (asked (fresh s) (ask_path p)) s in
  if negb (activeGoal s) then answer_now (granted (toRelative s p) (js "no active Goal repair scope")) s
  else start_job (fresh s) (j_guard (guard_path p)) (next_fresh s).

Definition authorizeDestructiveCommand (command : jsstr) (s : Tracker) : Tracker :=
  let s := note (asked (fresh s) (ask_command command)) s in
  if negb (isDestructiveCommand command)
  then answer_now (granted None (js "command is not a recognized destructive workspace operation")) s
  else match destructiveCommandPaths command with
  | [] => answer_now (refused None (js "destructive workspace operation has no bounded target")) s
  | ps => if negb (activeGoal s) then answer_now (granted None (js "no active Goal repair scope")) s
          else start_job (fresh s) (j_guard (guard_command ps)) (next_fresh s)
  end.

(** The snapshot of [refreshForGuard] arrives. *)
Definition guard_arrives (k : nat) (g : guard) (r : snap) (s : Tracker) : Tracker :=
  match r with
  | snap_files fs => start_job k (j_classify (baselinePromise s) fs (k_guard g)) (note (delivered k fs) s)
  | _ => let s := end_job k s in emit k (out_decision (decide_guard g false s)) s
  end.

(** ** Steps *)

(** What arrives from outside for the job [k]. *)
Definition snapshot_arrives (k : nat) (r : snap) (s : Tracker) : option Tracker :=
  match jobs s !! k with
  | Some (j_baseline gen) => Some (baseline_arrives k gen r s)
  | Some (j_fingerprint p obj gen) => Some (fingerprint_arrives k p obj gen r s)
  | Some (j_guard g) => Some (guard_arrives k g r s)
  | _ => None
  end.
Definition content_arrives (k : nat) (content : jsstr) (s : Tracker) : option Tracker :=
  match jobs s !! k with
  | Some (j_read p obj gen f) => Some (read_arrives k p obj gen f content s)
  | Some (j_loop f obj rest c) => Some (loop_arrives k f obj rest c content s)
  | _ => None
  end.
(** A job that awaits other jobs goes on when they have ended. *)
Definition resume (k : nat) (s : Tracker) : option Tracker :=
  match jobs s !! k with
  | Some (j_classify w fs c) =>
      match w with
      | Some j => if bool_decide (jobs s !! j = None)
                  then Some (start_job k (j_fingerprints (ownedFingerprintPromises s).*2 fs c) s) else None
      | None => Some (start_job k (j_fingerprints (ownedFingerprintPromises s).*2 fs c) s)
      end
  | Some (j_fingerprints ws fs c) =>
      if forallb (λ j, bool_decide (jobs s !! j = None)) ws then Some (classify_body k c fs s) else None
  | _ => None
  end.

Inductive step (s : Tracker) : Tracker → Prop :=
| step_begin : step s (beginGoal s)
| step_event e : step s (applyAgentEvent e s)
| step_mutation p : step s (recordToolMutation p s)
| step_classify fs : step s (classify fs s)
| step_path p : step s (authorizeDestructivePath p s)
| step_command c : step s (authorizeDestructiveCommand c s)
| step_dispose : step s (dispose s)
| step_snapshot k r s' : snapshot_arrives k r s = Some s' → step s s'
| step_content k c s' : content_arrives k c s = Some s' → step s s'
| step_resume k s' : resume k s = Some s' → step s s'.

Inductive reachable : Tracker → Prop :=
| reach_new pcwd c : reachable (new_tracker pcwd c)
| reach_step s s' : reachable s → step s s' → reachable s'.

End Ownership.
