(* ===== verification/OwnershipProps.v ===== *)
(** * Workspace ownership: theorems

    What a granted destructive operation can touch, whatever the interleaving of goals,
    snapshots, file reads and classifications.  The log of a tracker says what was asked,
    captured and compared; [history] is the invariant that ties the state to the log. *)
From S2P Require Import Prelude JsMap JsString Policy Presentation Destructive Ownership.

Module OwnershipProps.
Import Policy Presentation Destructive Ownership.

(** ** The invariant *)

(** Owned paths were recorded for the current goal, and an owned path that turned out to be
    dirty at the baseline is protected. *)
Record inv (s : Tracker) : Prop := {
  inv_owned : ∀ p, is_Some (mget p (owned s)) → p ∈ recorded s;
  inv_pending : Forall (λ p, p ∈ recorded s) (pendingMutations s);
  inv_baseline : ∀ p, is_Some (mget p (owned s)) → is_Some (mget p (baseline s)) → p ∈ protectedPaths s }.

(** States that agree on what the invariant reads, up to more protected paths. *)
Record agree (s s' : Tracker) : Prop := {
  ag_owned : owned s' = owned s;
  ag_recorded : recorded s' = recorded s;
  ag_pending : pendingMutations s' = pendingMutations s;
  ag_baseline : baseline s' = baseline s;
  ag_protected : protectedPaths s ⊆ protectedPaths s' }.

#[export] Instance agree_refl : Reflexive agree.
Proof. by split. Qed.
#[export] Instance agree_trans : Transitive agree.
Proof. intros a b c [] []. split; try congruence. by transitivity (protectedPaths b). Qed.

Lemma agree_inv s s' : agree s s' → inv s → inv s'.
Proof.
  intros [Ho Hr Hp Hb Hpr] [H1 H2 H3]. split; rewrite ?Ho, ?Hr, ?Hp, ?Hb; [done|done|].
  intros p ??. apply Hpr. auto.
Qed.

(** Closes [inv s'] from [inv s] for an [s'] that agrees with [s]. *)
Ltac by_agree H := eapply agree_inv; [|exact H]; try done; first [by split | idtac].

Lemma protect_agree p s : agree s (protect p s).
Proof. split; try done. cbn. case_bool_decide; [done|]. intros x Hx. apply elem_of_app. by left. Qed.
Lemma protect_elem p s : p ∈ protectedPaths (protect p s).
Proof. cbn. case_bool_decide; [done|]. apply elem_of_app. right. by apply list_elem_of_singleton. Qed.
Lemma end_job_agree k s : agree s (end_job k s). Proof. by split. Qed.
Lemma start_job_agree k j s : agree s (start_job k j s). Proof. by split. Qed.
Lemma emit_agree k o s : agree s (emit k o s). Proof. by split. Qed.
Lemma mark_unowned_agree p s : agree s (mark_unowned p s). Proof. by split. Qed.
Lemma set_ready_agree r s : agree s (set_ready r s). Proof. by split. Qed.
#[local] Hint Resolve protect_agree end_job_agree start_job_agree emit_agree mark_unowned_agree set_ready_agree : core.

Lemma note_agree e s : agree s (note e s). Proof. by split. Qed.
#[local] Hint Resolve note_agree : core.
Lemma finish_agree k c s : agree s (finish k c s).
Proof. by split. Qed.
#[local] Hint Resolve finish_agree : core.

Lemma classify_loop_agree k c fs s : agree s (classify_loop k c fs s).
Proof.
  revert s. induction fs as [|f fs IH]; intros s; cbn [classify_loop]; [done|].
  destruct (mget (path f) (baseline s)); [done|].
  destruct (mget (path f) (owned s)) as [obj|]; [|etransitivity; [|apply IH]; done].
  by destruct (fingerprints s !! obj) as [[]|].
Qed.
#[local] Hint Resolve classify_loop_agree : core.

Lemma inv_clear_pending s : inv s → inv (clear_pendingMutations s).
Proof. intros []. by split; try constructor. Qed.

Lemma record_ready_inv p s : p ∈ recorded s → inv s → inv (recordReadyMutation p s).
Proof.
  intros Hp H. unfold recordReadyMutation. destruct (mget p (baseline s)) eqn:Hb.
  { by_agree H. }
  destruct H as [H1 H2 H3].
  assert (∀ s', owned s' = mset p (fresh s) (owned s) → recorded s' = recorded s → pendingMutations s' = pendingMutations s →
    baseline s' = baseline s → protectedPaths s' = protectedPaths s → inv s') as Hinv.
  { intros s' Ho Hr Hm Hb' Hpr. split; rewrite ?Ho, ?Hr, ?Hm, ?Hb', ?Hpr; [|done|].
    - intros q. rewrite mget_mset. case_decide; [by subst|apply H1].
    - intros q. rewrite mget_mset. case_decide as Hq; [subst; rewrite Hb; by intros _ []|apply H3]. }
  case_match; by apply Hinv.
Qed.

Lemma record_ready_recorded p s : recorded (recordReadyMutation p s) = recorded s.
Proof. unfold recordReadyMutation. destruct (mget p (baseline s)); [done|]. by case_match. Qed.

Lemma replay_inv ps s : Forall (λ p, p ∈ recorded s) ps → inv s → inv (foldl (λ s p, recordReadyMutation p s) s ps).
Proof.
  intros Hps. revert s Hps. induction ps as [|p ps IH]; intros s Hps Hs; [done|]. apply Forall_cons in Hps as [Hp Hps].
  cbn. apply IH; [|by apply record_ready_inv]. by rewrite record_ready_recorded.
Qed.

Lemma protect_all_agree (b : list (jsstr * AiraChangeFile)) ps s :
  agree s (foldl (λ s p, match mget p b with Some _ => protect p s | None => s end) s ps).
Proof.
  revert s. induction ps as [|p ps IH]; intros s; [done|]. cbn. etransitivity; [|apply IH]. by destruct (mget p b).
Qed.

Lemma protect_all_protects (b : list (jsstr * AiraChangeFile)) ps s p :
  p ∈ ps → is_Some (mget p b) →
  p ∈ protectedPaths (foldl (λ s p, match mget p b with Some _ => protect p s | None => s end) s ps).
Proof.
  intros Hp Hb. revert s. induction ps as [|q ps IH]; intros s; [by apply not_elem_of_nil in Hp|]. cbn.
  apply elem_of_cons in Hp as [->|Hp]; [|by apply IH].
  apply (ag_protected _ _ (protect_all_agree b ps _)). destruct Hb as [x ->]. apply protect_elem.
Qed.

(** A new baseline protects the paths that are owned already. *)
Lemma rebase_inv b s :
  inv s →
  inv (foldl (λ s p, match mget p b with Some _ => protect p s | None => s end)
         (with_paths b (owned s) (protectedPaths s) (unownedPaths s) (current s) s) (owned s).*1).
Proof.
  intros [H1 H2 H3].
  pose proof (protect_all_agree b (owned s).*1 (with_paths b (owned s) (protectedPaths s) (unownedPaths s) (current s) s))
    as [Ho Hr Hm Hb Hpr]. cbn in Ho, Hr, Hm, Hb.
  split; rewrite ?Ho, ?Hr, ?Hm, ?Hb; [done|done|]. intros p Hp Hpb. apply protect_all_protects; [|done].
  destruct Hp as [x Hx]. apply list_elem_of_fmap. exists (p, x). split; [done|]. by apply mget_elem.
Qed.

Lemma baseline_arrives_inv k gen r s : inv s → inv (baseline_arrives k gen r s).
Proof.
  intros H. unfold baseline_arrives. assert (inv (end_job k s)) as H1 by by_agree H.
  generalize dependent (end_job k s). clear s H. intros s H.
  assert (inv (clear_pendingMutations (set_ready false s))) as Hthrow
    by (apply inv_clear_pending; by_agree H).
  destruct r; [exact Hthrow| |].
  all: destruct (disposed s || negb (gen =? generation s)); [done|].
  all: match goal with |- context [file_map ?fs] => set (b := file_map fs) end.
  all: set (s1 := foldl _ _ _).
  all: assert (inv s1) as Hs1 by exact (rebase_inv b s H).
  - apply inv_clear_pending. by_agree Hs1.
  - cbn [negb]. apply replay_inv; [exact (inv_pending _ Hs1)|]. apply inv_clear_pending. by_agree Hs1.
Qed.

Lemma mutation_inv p s : inv s → inv (recordToolMutation p s).
Proof.
  intros H. unfold recordToolMutation. case_match; [done|]. destruct (toRelative s p) as [r|]; [|done].
  assert (r ∈ recorded s ++ [r]) as Hr by (apply elem_of_app; right; by apply list_elem_of_singleton).
  assert (∀ x, x ∈ recorded s → x ∈ recorded s ++ [r]) as Hm by (intros; apply elem_of_app; by left).
  destruct H as [H1 H2 H3]. case_match.
  - split; cbn; [auto| |done]. assert (Forall (λ q, q ∈ recorded s ++ [r]) (pendingMutations s)) by (eapply Forall_impl; eauto).
    case_bool_decide; [done|]. apply Forall_app. split; [done|]. by apply Forall_singleton.
  - apply record_ready_inv; [done|]. split; cbn; [auto| |done]. eapply Forall_impl; eauto.
Qed.

Lemma tracker_step_inv s s' : step s s' → inv s → inv s'.
Proof.
  intros Hs H. destruct Hs.
  - unfold beginGoal. case_match; [done|]. split; cbn; [by intros ? []|constructor|by intros ? []].
  - unfold applyAgentEvent. case_match; [done|]. destruct e as [i t args|i t err|]; [| |done].
    + case_match; [|done]. case_match; [|done]. by_agree H.
    + set (s0 := with_pending _ _ _ _). assert (inv s0) by by_agree H.
      case_match; [done|]. case_match; [|done]. case_match; [|done]. by apply mutation_inv.
  - by apply mutation_inv.
  - by_agree H.
  - unfold authorizeDestructivePath, answer_now. case_match; by_agree H.
  - unfold authorizeDestructiveCommand, answer_now.
    repeat case_match; by_agree H.
  - split; cbn; [by intros ? []|constructor|by intros ? []].
  - unfold snapshot_arrives in *. destruct (jobs s !! k) as [[]|]; simplify_eq.
    + by apply baseline_arrives_inv.
    + unfold fingerprint_arrives. repeat case_match; by_agree H.
    + unfold guard_arrives. case_match; by_agree H.
  - unfold content_arrives in *. destruct (jobs s !! k) as [[]|]; simplify_eq.
    + unfold read_arrives. case_match; by_agree H.
    + unfold loop_arrives. destruct (fingerprints s !! obj) as [[fp|]|]; [|by_agree H..].
      eapply agree_inv; [|done]. etransitivity; [|apply classify_loop_agree]. etransitivity; [apply note_agree|]. by case_match.
  - unfold resume in *. destruct (jobs s !! k) as [[]|]; try done.
    + repeat case_match; simplify_eq; by_agree H.
    + case_match; simplify_eq. unfold classify_body. case_match; [by_agree H|].
      eapply agree_inv; [|done]. etransitivity; [|apply classify_loop_agree]. by split.
Qed.

Lemma tracker_inv s : reachable s → inv s.
Proof.
  induction 1 as [pcwd c|s s' _ IH Hs]; [|by eapply tracker_step_inv].
  split; cbn; [by intros ? []|constructor|by intros ? []].
Qed.

(** ** Objects and what is known of them *)

Definition has_fingerprint (s : Tracker) (o : nat) (fp : Fingerprint) : Prop := fingerprints s !! o = Some (Some fp).
Definition captured_in (l : list entry) (o : nat) (fp : Fingerprint) : Prop := ∃ f c, captured o f c ∈ l ∧ fp = fingerprintFor f c.

(** The job that captures the fingerprint of an object has its number, and the object has none. *)
Definition capture_ok (s : Tracker) (k : nat) (j : job) : Prop :=
  match j with
  | j_fingerprint _ o _ => k = o ∧ fingerprints s !! o = Some None
  | j_read p o _ f => k = o ∧ fingerprints s !! o = Some None ∧ path f = p
  | _ => True
  end.

(** A fingerprint was captured for the path of its object, once, and a comparison of it that
    failed protects the path. *)
Record objects (s : Tracker) : Prop := {
  h_known : ∀ r o, mget r (owned s) = Some o → (o < fresh s)%nat;
  h_inj : ∀ r r' o, mget r (owned s) = Some o → mget r' (owned s) = Some o → r = r';
  h_heap : ∀ o, is_Some (fingerprints s !! o) → (o < fresh s)%nat;
  h_jobs : ∀ k j, jobs s !! k = Some j → capture_ok s k j;
  h_stored : ∀ r o fp, mget r (owned s) = Some o → has_fingerprint s o fp → ∃ f c, captured o f c ∈ log s ∧ fp = fingerprintFor f c ∧ path f = r;
  h_checked : ∀ k o f c, checked k o f c ∈ log s → ∃ fp, has_fingerprint s o fp;
  h_drift : ∀ o fp k f c, mget (path f) (owned s) = Some o → has_fingerprint s o fp → checked k o f c ∈ log s →
    path f ∈ protectedPaths s ∨ sameFingerprint fp (fingerprintFor f c) = true;
  h_disposed : disposed s = true → owned s = [] }.

(** From one state to a later one: [l] is what the log gains, and what is owned and has a
    fingerprint was so before, or was captured in between. *)
Record evolves (l : list entry) (s s' : Tracker) : Prop := {
  e_log : log s' = log s ++ l;
  e_fresh : (fresh s <= fresh s')%nat;
  e_asked : ∀ k q, asked k q ∈ l → (fresh s <= k < fresh s')%nat ∧ ∀ q', asked k q' ∈ l → q' = q;
  e_owned : ∀ r o fp, mget r (owned s') = Some o → has_fingerprint s' o fp →
    (mget r (owned s) = Some o ∧ has_fingerprint s o fp ∧ (r ∈ protectedPaths s → r ∈ protectedPaths s')) ∨ captured_in l o fp }.

Lemma evolves_trans l1 l2 a b c : evolves l1 a b → evolves l2 b c → evolves (l1 ++ l2) a c.
Proof.
  intros [A1 A2 A3 A4] [B1 B2 B3 B4]. split; [by rewrite B1, A1, app_assoc|lia| |].
  - intros k q [H|H]%elem_of_app.
    + destruct (A3 _ _ H) as [Hk Hu]. split; [lia|]. intros q' [H'|H']%elem_of_app; [auto|]. destruct (B3 _ _ H'). lia.
    + destruct (B3 _ _ H) as [Hk Hu]. split; [lia|]. intros q' [H'|H']%elem_of_app; [|auto]. destruct (A3 _ _ H'). lia.
  - intros r o fp Ho Hf. destruct (B4 r o fp Ho Hf) as [(H1 & H2 & H3)|(f & x & H1 & H2)].
    + destruct (A4 r o fp H1 H2) as [(K1 & K2 & K3)|(f & x & K1 & K2)]; [left; auto|right; exists f, x]. split; [|done]. apply elem_of_app. by left.
    + right. exists f, x. split; [|done]. apply elem_of_app. by right.
Qed.
Lemma evolves_nil_r l a b c : evolves l a b → evolves [] b c → evolves l a c.
Proof. intros H1 H2. pose proof (evolves_trans _ _ _ _ _ H1 H2) as H. by rewrite app_nil_r in H. Qed.

(** Jobs that capture nothing, and entries that say nothing of objects. *)
Definition capturing (j : job) : bool := match j with j_fingerprint _ _ _ | j_read _ _ _ _ => true | _ => false end.
Definition neutral (s s' : Tracker) (l : list entry) : Prop :=
  match l with
  | [] => True
  | [e] => match e with asked k _ => k = fresh s ∧ fresh s' = S (fresh s) | delivered _ _ | began _ => True | _ => False end
  | _ => False
  end.

(** Steps that change nothing of the objects. *)
Record calm (l : list entry) (s s' : Tracker) : Prop := {
  c_owned : owned s' = owned s;
  c_heap : fingerprints s' = fingerprints s;
  c_protected : protectedPaths s ⊆ protectedPaths s';
  c_fresh : (fresh s <= fresh s')%nat;
  c_disposed : disposed s' = disposed s;
  c_jobs : ∀ k j, jobs s' !! k = Some j → jobs s !! k = Some j ∨ capturing j = false;
  c_log : log s' = log s ++ l;
  c_neutral : neutral s s' l }.

Lemma calm_evolves l s s' : calm l s s' → evolves l s s'.
Proof.
  intros [Ho Hh Hp Hf _ _ Hl Hn]. split; [done|done| |].
  - intros k q H. destruct l as [|e [|? ?]]; [by apply elem_of_nil in H| |done]. apply list_elem_of_singleton in H as <-. destruct Hn as [-> Hn].
    split; [lia|]. intros q' H%list_elem_of_singleton. congruence.
  - intros r o fp. unfold has_fingerprint. rewrite Ho, Hh. left. auto.
Qed.
Lemma neutral_old s s' l e : neutral s s' l → e ∈ l → match e with captured _ _ _ | checked _ _ _ _ => False | _ => True end.
Proof. destruct l as [|x [|? ?]]; [by intros _ ?%elem_of_nil| |done]. intros H ->%list_elem_of_singleton. by destruct x. Qed.
Lemma calm_objects l s s' : calm l s s' → objects s → objects s'.
Proof.
  intros [Ho Hh Hp Hf Hd Hj Hl Hn] [H1 H2 H3 H4 H5 H6 H7 H8].
  assert (Hold : ∀ k o f c, checked k o f c ∈ log s' → checked k o f c ∈ log s).
  { intros k o f c. rewrite Hl. intros [?|H]%elem_of_app; [done|]. by destruct (neutral_old _ _ _ _ Hn H). }
  split; unfold has_fingerprint, capture_ok in *; rewrite ?Ho, ?Hh, ?Hd; try done.
  - intros r o H%H1. lia.
  - intros o H%H3. lia.
  - intros k j H. destruct (Hj k j H) as [K|K]; [by apply H4 in K|by destruct j].
  - intros r o fp A B. destruct (H5 r o fp A B) as (f & c & E & ?). exists f, c. split; [|done]. rewrite Hl. apply elem_of_app. by left.
  - intros k o f c H%Hold. by eapply H6.
  - intros o fp k f c A B H%Hold. destruct (H7 o fp k f c A B H); auto.
Qed.
Lemma calm_nil_r l a b c : calm l a b → calm [] b c → fresh c = fresh b → calm l a c.
Proof.
  intros [A1 A2 A3 A4 A5 A6 A7 A8] [B1 B2 B3 B4 B5 B6 B7 _] Hf. split; try congruence; [by transitivity (protectedPaths b)|..].
  - intros k j [H|H]%B6; auto.
  - by rewrite B7, app_nil_r.
  - unfold neutral in *. by rewrite Hf.
Qed.

(** Closes [calm l s s'] for a step that is a record of changed fields. *)
Ltac by_calm := split; try done; try (cbn; lia); try (cbn; by rewrite app_nil_r);
  try (intros ? ?; cbn; first [ by left | rewrite lookup_delete_Some; intros [_ ?]; by left
                              | rewrite lookup_insert_Some; intros [[_ <-]|[_ ?]]; [by right|by left] ]).

Lemma protect_calm p s : calm [] s (protect p s).
Proof. by_calm. apply (ag_protected _ _ (protect_agree p s)). Qed.
Lemma mark_calm p s : calm [] s (mark_unowned p s).
Proof. by_calm. Qed.
Lemma end_job_calm k s : calm [] s (end_job k s).
Proof. by_calm. Qed.
Lemma start_calm k j s : capturing j = false → calm [] s (start_job k j s).
Proof. intros Hj. by_calm. Qed.
Lemma note_calm e s : match e with delivered _ _ | began _ => True | _ => False end → calm [e] s (note e s).
Proof. intros He. by_calm. by destruct e. Qed.
Lemma finish_calm k c s : calm [] s (finish k c s).
Proof. by_calm. Qed.

(** ** Records of a mutation, and captures *)

Lemma ready_moves p s : disposed s = false → objects s → objects (recordReadyMutation p s) ∧ evolves [] s (recordReadyMutation p s).
Proof.
  intros Hd H. unfold recordReadyMutation. destruct (mget p (baseline s)).
  { split; [exact (calm_objects _ _ _ (protect_calm p s) H)|exact (calm_evolves _ _ _ (protect_calm p s))]. }
  destruct H as [H1 H2 H3 H4 H5 H6 H7 H8].
  assert (Hnew : ∀ s', owned s' = mset p (fresh s) (owned s) → fingerprints s' = <[fresh s := None]> (fingerprints s) → protectedPaths s' = protectedPaths s →
    fresh s' = S (fresh s) → disposed s' = disposed s → log s' = log s →
    (∀ k j, jobs s' !! k = Some j → jobs s !! k = Some j ∨ ∃ gen, k = fresh s ∧ j = j_fingerprint p k gen) → objects s' ∧ evolves [] s s').
  { intros s' Ho Hh Hp Hf Hd' Hl Hj.
    assert (Hfp : ∀ r o fp, mget r (owned s') = Some o → has_fingerprint s' o fp → mget r (owned s) = Some o ∧ has_fingerprint s o fp).
    { unfold has_fingerprint. intros r o fp. rewrite Ho, Hh, mget_mset, lookup_insert_Some. intros A [[_ [=]]|[Hne B]]. split; [|done].
      case_decide; [by injection A as <-|done]. }
    split; split; rewrite ?Hl, ?Hf, ?Hd', ?Hp; unfold has_fingerprint; try (cbn; lia); try (by rewrite app_nil_r).
    - intros r o. rewrite Ho, mget_mset. case_decide; [intros [= <-]; lia|]. intros A%H1. lia.
    - intros r r' o. rewrite Ho, !mget_mset. repeat case_decide; intros A B; subst; try done.
      + injection A as <-. apply H1 in B. lia.
      + injection B as <-. apply H1 in A. lia.
      + by eapply H2.
    - intros o. rewrite Hh. destruct (decide (o = fresh s)) as [->|Hne]; [lia|]. rewrite lookup_insert_ne by done. intros A%H3. lia.
    - intros k j A. unfold capture_ok. rewrite Hh. destruct (Hj k j A) as [B|(gen & -> & ->)]; [|by rewrite lookup_insert_eq].
      pose proof (H4 k j B) as C. unfold capture_ok in C. destruct j; try done;
        (destruct (decide (obj = fresh s)) as [->|Hne]; [rewrite lookup_insert_eq; naive_solver|by rewrite lookup_insert_ne]).
    - intros r o fp A B. destruct (Hfp r o fp A B). by apply H5.
    - intros k o f c A. destruct (H6 k o f c A) as [fp B]. exists fp. rewrite Hh, lookup_insert_ne; [done|].
      assert (o < fresh s)%nat by (apply H3; by eexists). lia.
    - intros o fp k f c A B. destruct (Hfp _ o fp A B). by apply H7.
    - congruence.
    - by intros k q ?%elem_of_nil.
    - intros r o fp A B. left. by destruct (Hfp r o fp A B). }
  destruct (disposed _ || _); apply Hnew; try done; cbn.
  - by left.
  - intros k j. rewrite lookup_insert_Some. intros [[<- <-]|[_ ?]]; [right; by eexists|by left].
Qed.
Lemma ready_disposed p s : disposed (recordReadyMutation p s) = disposed s.
Proof. unfold recordReadyMutation. destruct (mget p (baseline s)); [done|]. by case_match. Qed.
Lemma replay_moves ps s : disposed s = false → objects s →
  let s' := foldl (λ s p, recordReadyMutation p s) s ps in objects s' ∧ evolves [] s s'.
Proof.
  revert s. induction ps as [|p ps IH]; intros s Hd H; cbn [foldl].
  - split; [done|]. split; [by rewrite app_nil_r|lia|by intros k q ?%elem_of_nil|]. intros r o fp A B. left. auto.
  - destruct (ready_moves p s Hd H) as [H1 E1]. destruct (IH (recordReadyMutation p s)) as [H2 E2]; [by rewrite ready_disposed|done|].
    split; [done|]. exact (evolves_nil_r _ _ _ _ E1 E2).
Qed.

(** The fingerprint of an object arrives. *)
Lemma read_moves k p o gen f c s : objects s → jobs s !! k = Some (j_read p o gen f) →
  objects (read_arrives k p o gen f c s) ∧ ∃ l, evolves l s (read_arrives k p o gen f c s).
Proof.
  intros [H1 H2 H3 H4 H5 H6 H7 H8] Hj. destruct (H4 _ _ Hj) as (<- & Hn & Hpf). unfold read_arrives.
  set (v := if is_current p k gen s then Some (fingerprintFor f c) else None). set (l := if is_current p k gen s then [captured k f c] else []).
  set (s' := end_job k _). assert (Es : owned s' = owned s ∧ fingerprints s' = <[k := v]> (fingerprints s) ∧ protectedPaths s' = protectedPaths s ∧ fresh s' = fresh s
    ∧ disposed s' = disposed s ∧ log s' = log s ++ l ∧ jobs s' = delete k (jobs s)).
  { unfold s', v, l. destruct (is_current _ _ _ _); cbn; rewrite ?app_nil_r; done. }
  clearbody s'. destruct Es as (Ho & Hh & Hp & Hf & Hd & Hl & Hjs).
  assert (Hv : ∀ fp, v = Some fp → mget p (owned s) = Some k ∧ fp = fingerprintFor f c ∧ captured k f c ∈ l).
  { intros fp. unfold v, l, is_current. destruct (bool_decide _ && _) eqn:E; [|done]. intros [= <-]. apply andb_true_iff in E as [E _]. apply bool_decide_eq_true in E. split_and!; [done|done|by left]. }
  assert (Hnc : ∀ j o f c, checked j o f c ∈ l → False) by (intros j o f' c'; unfold l; destruct (is_current _ _ _ _); intros E; by set_solver).
  assert (Hne : ∀ j o f c, checked j o f c ∈ log s → o ≠ k) by (intros j o f' c' E ->; destruct (H6 _ _ _ _ E) as [fp E']; unfold has_fingerprint in E'; congruence).
  assert (Hfp : ∀ r o fp, mget r (owned s') = Some o → has_fingerprint s' o fp → (o ≠ k ∧ mget r (owned s) = Some o ∧ has_fingerprint s o fp)
    ∨ o = k ∧ r = p ∧ fp = fingerprintFor f c ∧ captured k f c ∈ l).
  { unfold has_fingerprint. intros r o fp. rewrite Ho, Hh, lookup_insert_Some. intros A [[<- B]|[Hk B]]; [|by left]. right.
    destruct (Hv fp B) as (C1 & C2 & C3). split_and!; try done. by eapply H2. }
  split; [|exists l]; split; rewrite ?Hl, ?Hf, ?Hd, ?Hp; unfold has_fingerprint; try done.
  - by rewrite Ho.
  - by rewrite Ho.
  - intros o. rewrite Hh. destruct (decide (o = k)) as [->|Hk]; [intros _; by apply H3; eexists|]. rewrite lookup_insert_ne by done. apply H3.
  - intros k' j. rewrite Hjs, lookup_delete_Some. intros [Hk A]. pose proof (H4 k' j A) as C. unfold capture_ok in *. rewrite Hh.
    destruct j; try done; by rewrite lookup_insert_ne by naive_solver.
  - intros r o fp A B. destruct (Hfp r o fp A B) as [(_ & C1 & C2)|(-> & -> & -> & C)].
    + destruct (H5 r o fp C1 C2) as (f' & c' & E & ?). exists f', c'. split; [|done]. apply elem_of_app. by left.
    + exists f, c. split_and!; [apply elem_of_app; by right|done|done].
  - intros j o f' c' [A|A]%elem_of_app; [|by destruct (Hnc _ _ _ _ A)]. destruct (H6 _ _ _ _ A) as [fp B]. exists fp. rewrite Hh, lookup_insert_ne; [done|].
    pose proof (Hne _ _ _ _ A). done.
  - intros o fp j f' c' A B [C|C]%elem_of_app; [|by destruct (Hnc _ _ _ _ C)]. destruct (Hfp _ o fp A B) as [(_ & D1 & D2)|(-> & _)]; [by eapply H7|].
    by destruct (Hne _ _ _ _ C).
  - by rewrite Ho.
  - intros j q A. unfold l in A. destruct (is_current _ _ _ _); by set_solver.
  - intros r o fp A B. destruct (Hfp r o fp A B) as [(_ & C1 & C2)|(-> & _ & -> & C)]; [left; auto|right; by exists f, c].
Qed.

(** A state in which nothing is owned. *)
Lemma reset_moves s s' : objects s → owned s' = [] → fingerprints s' = fingerprints s → (fresh s <= fresh s')%nat → log s' = log s →
  (∀ k j, jobs s' !! k = Some j → jobs s !! k = Some j ∨ capturing j = false) → objects s' ∧ evolves [] s s'.
Proof.
  intros [H1 H2 H3 H4 H5 H6 H7 H8] Ho Hh Hf Hl Hj. split; split; unfold has_fingerprint; rewrite ?Ho, ?Hl; try done; try (by rewrite app_nil_r).
  - rewrite Hh. intros o A%H3. lia.
  - intros k j A. destruct (Hj k j A) as [B|B]; [|by destruct j]. pose proof (H4 k j B) as C. unfold capture_ok in *. by rewrite Hh.
  - intros k o f c A. destruct (H6 _ _ _ _ A) as [fp B]. exists fp. by rewrite Hh.
  - by intros k q ?%elem_of_nil.
Qed.

(** ** What a classification has done so far *)

(** A file of the snapshot is settled when its path is protected, its fingerprint was compared
    by the job [k] and agreed, or was captured meanwhile; nothing is due for a path that has no
    owner or whose owner has no fingerprint. *)
Definition settled (s : Tracker) (k : nat) (l : list entry) (f : AiraChangeFile) : Prop :=
  ∀ o fp, mget (path f) (owned s) = Some o → has_fingerprint s o fp →
    path f ∈ protectedPaths s ∨ (∃ c, checked k o f c ∈ l ∧ sameFingerprint fp (fingerprintFor f c) = true) ∨ captured_in l o fp.

(** The log since the loop of [k] began, with the files of its snapshot; [rest] is still to come. *)
Definition since (s : Tracker) (k : nat) (fs : list AiraChangeFile) (l : list entry) : Prop :=
  ∃ l0 l1, log s = l0 ++ delivered k fs :: l1 ++ began k :: l.
Definition looped (s : Tracker) (k : nat) (rest : list AiraChangeFile) : Prop :=
  ∃ fs l past, since s k fs l ∧ bounded_files fs = past ++ rest ∧ ∀ g, g ∈ past → settled s k l g.

Definition progress (s : Tracker) (k : nat) : Prop :=
  match jobs s !! k with
  | Some (j_classify _ fs _) | Some (j_fingerprints _ fs _) => ∃ l0 l1, log s = l0 ++ delivered k fs :: l1
  | Some (j_loop f o rest _) => ∃ fs l past, since s k fs l ∧ bounded_files fs = past ++ f :: rest ∧ (∀ g, g ∈ past → settled s k l g)
      ∧ ∀ o' fp, mget (path f) (owned s) = Some o' → has_fingerprint s o' fp → o' = o ∨ captured_in l o' fp
  | _ => True
  end.

Lemma captured_in_app l l' o fp : captured_in l o fp → captured_in (l ++ l') o fp.
Proof. intros (f & c & ? & ?). exists f, c. split; [|done]. apply elem_of_app. by left. Qed.
Lemma captured_in_app_r l l' o fp : captured_in l' o fp → captured_in (l ++ l') o fp.
Proof. intros (f & c & ? & ?). exists f, c. split; [|done]. apply elem_of_app. by right. Qed.
Lemma settled_evolves l l' s s' k f : evolves l' s s' → settled s k l f → settled s' k (l ++ l') f.
Proof.
  intros He H o fp Ho Hf. destruct (e_owned _ _ _ He _ _ _ Ho Hf) as [(A & B & C)|A]; [|right; right; by apply captured_in_app_r].
  destruct (H o fp A B) as [D|[(c & D1 & D2)|D]]; [left; auto|right; left|right; right; by apply captured_in_app].
  exists c. split; [|done]. apply elem_of_app. by left.
Qed.
Lemma since_evolves l l' s s' k fs : evolves l' s s' → since s k fs l → since s' k fs (l ++ l').
Proof. intros He (l0 & l1 & E). exists l0, l1. rewrite (e_log _ _ _ He), E, <- app_assoc. cbn. by rewrite <- app_assoc. Qed.
Lemma progress_evolves l s s' k : evolves l s s' → jobs s' !! k = jobs s !! k → progress s k → progress s' k.
Proof.
  intros He Hj. unfold progress. rewrite Hj. destruct (jobs s !! k) as [[]|]; try done.
  1-2: intros (l0 & l1 & E); exists l0, (l1 ++ l); by rewrite (e_log _ _ _ He), E, <- app_assoc.
  intros (fs & l2 & past & H1 & H2 & H3 & H4). exists fs, (l2 ++ l), past. split_and!; [by eapply since_evolves|done| |].
  - intros g Hg. eapply settled_evolves; [exact He|auto].
  - intros o' fp A B. destruct (e_owned _ _ _ He _ _ _ A B) as [(C & D & _)|C]; [|right; by apply captured_in_app_r].
    destruct (H4 o' fp C D); [by left|right; by apply captured_in_app].
Qed.

Lemma classify_loop_spec k c fs s : inv s →
  ∃ s1 mid, calm [] s s1 ∧ agree s s1 ∧ jobs s1 = jobs s ∧ fresh s1 = fresh s ∧ outputs s1 = outputs s ∧ (∀ g l, g ∈ mid → settled s1 k l g)
  ∧ ((fs = mid ∧ classify_loop k c fs s = finish k c s1)
     ∨ ∃ f rest o, fs = mid ++ f :: rest ∧ mget (path f) (owned s1) = Some o ∧ classify_loop k c fs s = start_job k (j_loop f o rest c) s1).
Proof.
  revert s. induction fs as [|f fs IH]; intros s Hi; cbn [classify_loop].
  { exists s, []. split_and!; try done; [by_calm|by intros g l ?%elem_of_nil|by left]. }
  assert (Hskip : ∀ s0, calm [] s s0 → agree s s0 → jobs s0 = jobs s → fresh s0 = fresh s → outputs s0 = outputs s → (∀ l, settled s k l f) →
    ∃ s1 mid, calm [] s s1 ∧ agree s s1 ∧ jobs s1 = jobs s ∧ fresh s1 = fresh s ∧ outputs s1 = outputs s ∧ (∀ g l, g ∈ mid → settled s1 k l g)
    ∧ ((f :: fs = mid ∧ classify_loop k c fs s0 = finish k c s1)
       ∨ ∃ f' rest o, f :: fs = mid ++ f' :: rest ∧ mget (path f') (owned s1) = Some o ∧ classify_loop k c fs s0 = start_job k (j_loop f' o rest c) s1)).
  { intros s0 C A J F O Hs. destruct (IH s0) as (s1 & mid & C1 & A1 & J1 & F1 & O1 & S1 & R); [by eapply agree_inv|].
    pose proof (calm_nil_r _ _ _ _ C C1 F1) as C2. exists s1, (f :: mid). split_and!; [done|by etransitivity|congruence|congruence|congruence| |].
    - intros g l [->|Hg]%elem_of_cons; [|by apply S1]. rewrite <- (app_nil_r l). eapply settled_evolves; [by apply calm_evolves|apply Hs].
    - destruct R as [[-> R]|(f' & rest & o & -> & R)]; [by left|right]. exists f', rest, o. done. }
  destruct (mget (path f) (baseline s)) eqn:Hb.
  { apply Hskip; try done; [by_calm|]. intros l o fp Ho _. left. apply (inv_baseline s Hi); [by rewrite Ho|by rewrite Hb]. }
  destruct (mget (path f) (owned s)) as [o|] eqn:Ho.
  - destruct (fingerprints s !! o) as [[fp|]|] eqn:Hf.
    + exists s, []. split_and!; try done; [by_calm|by intros g l ?%elem_of_nil|]. right. exists f, fs, o. done.
    + apply Hskip; try done; [by_calm|]. intros l o' fp Ho' Hf'. unfold has_fingerprint in Hf'. congruence.
    + apply Hskip; try done; [by_calm|]. intros l o' fp Ho' Hf'. unfold has_fingerprint in Hf'. congruence.
  - apply Hskip; try done; [apply mark_calm|]. intros l o' fp Ho' Hf'. congruence.
Qed.

Lemma loop_calm k c fs s : inv s → calm [] s (classify_loop k c fs s).
Proof.
  intros Hi. destruct (classify_loop_spec k c fs s Hi) as (s1 & mid & C & _ & _ & _ & _ & _ & [[_ ->]|(f & rest & o & _ & _ & ->)]).
  - eapply calm_nil_r; [exact C|apply finish_calm|done].
  - eapply calm_nil_r; [exact C|by apply start_calm|done].
Qed.

(** The loop goes on to the next file, or to the end with every file settled. *)
Lemma loop_goes_on k c fs s : inv s → looped s k fs →
  let s' := classify_loop k c fs s in
  progress s' k ∧ (∀ j, j ≠ k → jobs s' !! j = jobs s !! j)
  ∧ ((∃ f o rest, jobs s' !! k = Some (j_loop f o rest c) ∧ outputs s' = outputs s)
     ∨ ∃ s1, s' = finish k c s1 ∧ calm [] s s1 ∧ agree s s1 ∧ looped s1 k [] ∧ outputs s1 = outputs s).
Proof.
  intros Hi (fs0 & l & past & Hs & Hb & Hp) s'. destruct (classify_loop_spec k c fs s Hi) as (s1 & mid & C & A & J & _ & O & S & R). fold s' in R.
  pose proof (calm_evolves _ _ _ C) as E. pose proof (since_evolves _ _ _ _ _ _ E Hs) as Hs1. rewrite app_nil_r in Hs1.
  assert (Hp1 : ∀ g, g ∈ past ++ mid → settled s1 k l g).
  { intros g [Hg|Hg]%elem_of_app; [|by apply S]. rewrite <- (app_nil_r l). eapply settled_evolves; [exact E|by apply Hp]. }
  destruct R as [[-> Hr]|(f & rest & o & -> & Ho & Hr)]; rewrite Hr.
  - split_and!.
    + unfold progress. cbn. by rewrite lookup_delete_eq.
    + intros j Hj. cbn. by rewrite lookup_delete_ne, J.
    + right. exists s1. split_and!; [done..| |done]. exists fs0, l, (past ++ mid). by rewrite app_nil_r.
  - split_and!.
    + unfold progress. cbn. rewrite lookup_insert_eq. exists fs0, l, (past ++ mid). split_and!; [done|by rewrite <- app_assoc|exact Hp1|].
      intros o' fp A' _. left. unfold start_job in A'. cbn in A'. congruence.
    + intros j Hj. cbn. by rewrite lookup_insert_ne, J.
    + left. exists f, o, rest. cbn. by rewrite lookup_insert_eq.
Qed.

(** A comparison. *)
Definition after_check (k o : nat) (f : AiraChangeFile) (c : jsstr) (fp : Fingerprint) (s : Tracker) : Tracker :=
  let s := note (checked k o f c) s in if sameFingerprint fp (fingerprintFor f c) then s else protect (path f) s.

Lemma check_owned k o f c fp s : let s' := after_check k o f c fp s in
  owned s' = owned s ∧ fingerprints s' = fingerprints s ∧ protectedPaths s ⊆ protectedPaths s' ∧ fresh s' = fresh s ∧ jobs s' = jobs s
  ∧ log s' = log s ++ [checked k o f c] ∧ outputs s' = outputs s ∧ disposed s' = disposed s ∧ agree s s'
  ∧ (sameFingerprint fp (fingerprintFor f c) = true ∨ path f ∈ protectedPaths s').
Proof.
  pose proof (note_agree (checked k o f c) s) as N. unfold after_check. destruct (sameFingerprint _ _).
  - split_and!; try done. by left.
  - pose proof (agree_trans _ _ _ N (protect_agree (path f) _)) as A. split_and!; try done; [exact (ag_protected _ _ A)|right; apply protect_elem].
Qed.

Lemma check_moves k o f c fp s : objects s → has_fingerprint s o fp →
  objects (after_check k o f c fp s) ∧ evolves [checked k o f c] s (after_check k o f c fp s).
Proof.
  intros [H1 H2 H3 H4 H5 H6 H7 H8] Hfp. destruct (check_owned k o f c fp s) as (Eo & Eh & Ep & Ef & Ej & El & _ & Ed & _ & Hsame).
  set (s' := after_check _ _ _ _ _ _) in *. clearbody s'.
  split; split; unfold has_fingerprint in *; rewrite ?Eo, ?Eh, ?Ef, ?El, ?Ed; try done.
  - intros j x. rewrite Ej. intros A%H4. unfold capture_ok in *. by rewrite Eh.
  - intros r o' fp' A B. destruct (H5 r o' fp' A B) as (f' & c' & ? & ?). exists f', c'. split; [|done]. apply elem_of_app. by left.
  - intros j o' f' c' [A|A]%elem_of_app; [by eapply H6|]. apply list_elem_of_singleton in A. injection A as -> -> -> ->. by exists fp.
  - intros o' fp' j f' c' A B [C|C]%elem_of_app; [destruct (H7 o' fp' j f' c' A B C); auto|].
    apply list_elem_of_singleton in C. injection C as -> -> -> ->. assert (fp' = fp) as -> by congruence. destruct Hsame; auto.
  - by intros j q ?%list_elem_of_singleton.
  - intros r o' fp' A B. left. auto.
Qed.

Lemma check_looped k o f c rest cont fp s : progress s k → jobs s !! k = Some (j_loop f o rest cont) → has_fingerprint s o fp → objects s →
  looped (after_check k o f c fp s) k rest.
Proof.
  intros Hp Hj Hfp Ho. destruct (check_moves k o f c fp s Ho Hfp) as [_ He]. destruct (check_owned k o f c fp s) as (Eo & Eh & _ & _ & _ & _ & _ & _ & _ & Hsame).
  unfold progress in Hp. rewrite Hj in Hp. destruct Hp as (fs & l & past & H1 & H2 & H3 & H4).
  exists fs, (l ++ [checked k o f c]), (past ++ [f]). split_and!; [by eapply since_evolves|by rewrite <- app_assoc|].
  intros g [Hg|Hg]%elem_of_app; [eapply settled_evolves; [exact He|auto]|]. apply list_elem_of_singleton in Hg as ->.
  intros o' fp' A B. unfold has_fingerprint in *. rewrite Eo in A. rewrite Eh in B. destruct (H4 o' fp' A B) as [->|C]; [|right; right; by apply captured_in_app].
  assert (fp' = fp) as -> by congruence. destruct Hsame; [|by left]. right; left. exists c. split; [|done]. apply elem_of_app. right. by left.
Qed.

(** ** Requests *)

(** The paths a request is about. *)
Definition targets (q : request) : list jsstr := match q with ask_path p => [p] | ask_command c => destructiveCommandPaths c end.
Definition guard_of (q : request) : guard := match q with ask_path p => guard_path p | ask_command c => guard_command (destructiveCommandPaths c) end.
Definition guard_paths (g : guard) : list jsstr := match g with guard_path p => [p] | guard_command ps => ps end.
Lemma guard_targets q : guard_paths (guard_of q) = targets q.
Proof. by destruct q. Qed.

(** The guard a job decides for. *)
Definition job_guard (s : Tracker) (k : nat) : option guard :=
  match jobs s !! k with
  | Some (j_guard g) => Some g
  | Some (j_classify _ _ (k_guard g)) | Some (j_fingerprints _ _ (k_guard g)) | Some (j_loop _ _ _ (k_guard g)) => Some g
  | _ => None
  end.

(** The guard of a job is that of the request it was asked. *)
Definition asks (s : Tracker) (k : nat) (g : guard) : Prop := ∃ q, asked k q ∈ log s ∧ guard_of q = g ∧ targets q ≠ [].
Definition asker (s : Tracker) (k : nat) : Prop := ∀ g, job_guard s k = Some g → asks s k g.

Record history (s : Tracker) : Prop := {
  hi_inv : inv s;
  hi_objects : objects s;
  hi_asked : ∀ k q, asked k q ∈ log s → (k < fresh s)%nat ∧ ∀ q', asked k q' ∈ log s → q' = q;
  hi_jobs : ∀ k, progress s k ∧ asker s k }.

(** A job that is over, or that captures something. *)
Definition idle (s : Tracker) (k : nat) : Prop :=
  match jobs s !! k with Some (j_guard _) | Some (j_classify _ _ _) | Some (j_fingerprints _ _ _) | Some (j_loop _ _ _ _) => False | _ => True end.
Definition leaves (s s' : Tracker) : Prop := ∀ k, jobs s' !! k = jobs s !! k ∨ idle s' k.
#[export] Instance leaves_refl : Reflexive leaves.
Proof. intros s k. by left. Qed.
#[export] Instance leaves_trans : Transitive leaves.
Proof. intros a b c H1 H2 k. destruct (H2 k) as [E|E]; [|by right]. destruct (H1 k) as [E'|E']; [left; congruence|right]. unfold idle. by rewrite E. Qed.

Lemma asks_evolves l s s' k g : evolves l s s' → asks s k g → asks s' k g.
Proof. intros He (q & H & ?). exists q. split; [|done]. rewrite (e_log _ _ _ He). apply elem_of_app. by left. Qed.

Lemma history_step l s s' : history s → inv s' → objects s' → evolves l s s' →
  (∀ k, (jobs s' !! k = jobs s !! k ∨ idle s' k) ∨ (progress s' k ∧ asker s' k)) → history s'.
Proof.
  intros [_ _ H3 H4] Hi Ho He Hj. split; [done|done| |].
  - intros k q. rewrite (e_log _ _ _ He). pose proof (e_fresh _ _ _ He) as Hf. intros [H|H]%elem_of_app.
    + destruct (H3 k q H) as [Hk Hu]. split; [lia|]. intros q' [H'|H']%elem_of_app; [auto|]. destruct (e_asked _ _ _ He _ _ H'). lia.
    + destruct (e_asked _ _ _ He _ _ H) as [Hk Hu]. split; [lia|]. intros q' [H'|H']%elem_of_app; [|auto]. destruct (H3 _ _ H'). lia.
  - intros k. destruct (H4 k) as [P Q]. destruct (Hj k) as [[E|E]|E]; [|unfold progress, asker, job_guard, idle in *; by destruct (jobs s' !! k) as [[]|]|done].
    split; [by eapply progress_evolves|]. intros g. unfold job_guard. rewrite E. intros Hg. eapply asks_evolves; [exact He|]. by apply Q.
Qed.

(** ** The history of a run *)

Lemma calm_moves l s s' : calm l s s' → objects s → objects s' ∧ evolves l s s'.
Proof. intros C H. split; [by eapply calm_objects|by apply calm_evolves]. Qed.
Lemma start_moves k j s : capture_ok s k j → objects s → objects (start_job k j s) ∧ evolves [] s (start_job k j s).
Proof.
  intros Hj [K1 K2 K3 K4 K5 K6 K7 K8]. split; split; try done.
  - intros k' j'. cbn. rewrite lookup_insert_Some. intros [[<- <-]|[_ ?]]; [exact Hj|by apply K4].
  - cbn. by rewrite app_nil_r.
  - by intros ? ? ?%elem_of_nil.
  - intros r o fp A B. left. auto.
Qed.
Lemma ready_leaves p s : leaves s (recordReadyMutation p s).
Proof.
  unfold recordReadyMutation. destruct (mget p (baseline s)); [by left|]. case_match; [by left|]. intros k. unfold idle. cbn.
  destruct (decide (k = fresh s)) as [->|Hk]; [right; by rewrite lookup_insert_eq|left; by rewrite lookup_insert_ne].
Qed.
Lemma replay_leaves ps s : leaves s (foldl (λ s p, recordReadyMutation p s) s ps).
Proof. revert s. induction ps as [|p ps IH]; intros s; [done|]. cbn. etransitivity; [apply ready_leaves|apply IH]. Qed.
Lemma mutation_moves p s : objects s → objects (recordToolMutation p s) ∧ evolves [] s (recordToolMutation p s) ∧ leaves s (recordToolMutation p s).
Proof.
  intros H. unfold recordToolMutation. destruct (disposed s) eqn:Ed; cbn [orb].
  { split_and!; [done|apply calm_evolves; by_calm|done]. }
  case_match; [split_and!; [done|apply calm_evolves; by_calm|done]|]. destruct (toRelative s p) as [r|]; [|split_and!; [done|apply calm_evolves; by_calm|done]].
  case_match; [split_and!; [apply (calm_objects [] s); [by_calm|exact H]|apply calm_evolves; by_calm|by left]|].
  set (s1 := with_pending _ _ _ s). assert (C : calm [] s s1) by by_calm. destruct (calm_moves _ _ _ C H) as [K1 E1].
  destruct (ready_moves r s1 Ed K1) as [K2 E2]. split_and!; [done|by eapply evolves_nil_r|exact (ready_leaves r s1)].
Qed.
Lemma event_moves e s : objects s → objects (applyAgentEvent e s) ∧ evolves [] s (applyAgentEvent e s) ∧ leaves s (applyAgentEvent e s).
Proof.
  intros H. assert (Hr : objects s ∧ evolves [] s s ∧ leaves s s) by (split_and!; [done|apply calm_evolves; by_calm|done]).
  unfold applyAgentEvent. case_match; [done|]. destruct e as [i t args|i t err|]; [| |done].
  - case_match; [|done]. case_match; [|done]. split_and!; [apply (calm_objects [] s); [by_calm|exact H]|apply calm_evolves; by_calm|by left].
  - set (s1 := with_pending _ _ _ _). assert (C : calm [] s s1) by by_calm. destruct (calm_moves _ _ _ C H) as [K1 E1].
    assert (K0 : objects s1 ∧ evolves [] s s1 ∧ leaves s s1) by (split_and!; [done|done|by left]).
    case_match; [done|]. destruct (mget i (pendingToolPaths s)); [|done]. destruct (toRelative s1 _) as [p|]; [|done]. destruct (mutation_moves p s1 K1) as (K2 & E2 & L2).
    split_and!; [done|by eapply evolves_nil_r|exact L2].
Qed.
Lemma protect_all_calm (b : list (jsstr * AiraChangeFile)) ps s :
  let s' := foldl (λ s p, match mget p b with Some _ => protect p s | None => s end) s ps in calm [] s s' ∧ fresh s' = fresh s ∧ jobs s' = jobs s.
Proof.
  revert s. induction ps as [|p ps IH]; intros s; cbn [foldl]; [split_and!; [by_calm|done|done]|].
  destruct (mget p b); [|apply IH]. destruct (IH (protect p s)) as (C & F & J). split_and!; [|done|done].
  eapply calm_nil_r; [apply protect_calm|exact C|done].
Qed.
Lemma baseline_moves k gen r s : objects s → objects (baseline_arrives k gen r s) ∧ evolves [] s (baseline_arrives k gen r s) ∧ leaves s (baseline_arrives k gen r s).
Proof.
  intros H. unfold baseline_arrives. destruct (calm_moves _ _ _ (end_job_calm k s) H) as [K1 E1].
  assert (L1 : leaves s (end_job k s)).
  { intros j. unfold idle. cbn. destruct (decide (j = k)) as [->|Hj]; [right; by rewrite lookup_delete_eq|left; by rewrite lookup_delete_ne]. }
  set (s1 := end_job k s) in *. clearbody s1.
  assert (Hthrow : objects (clear_pendingMutations (set_ready false s1)) ∧ evolves [] s (clear_pendingMutations (set_ready false s1)) ∧ leaves s (clear_pendingMutations (set_ready false s1))).
  { split_and!; [apply (calm_objects [] s1); [by_calm|exact K1]|eapply evolves_nil_r; [exact E1|]; apply calm_evolves; by_calm|exact L1]. }
  destruct r as [| |fs]; [exact Hthrow| |]; (destruct (disposed s1) eqn:Ed; cbn [orb]; [done|]; case_match; [done|]; cbv zeta).
  all: match goal with |- context [file_map ?x] => set (b := file_map x) end.
  all: set (s2 := with_paths b _ _ _ _ s1); destruct (protect_all_calm b (owned s2).*1 s2) as (C & F & J); change (owned s2) with (owned s1) in *.
  all: set (s3 := foldl _ s2 _) in *; assert (C3 : calm [] s1 s3) by (eapply calm_nil_r; [|exact C|done]; by_calm).
  all: assert (J3 : jobs s3 = jobs s1) by done; clearbody s3; destruct (calm_moves _ _ _ C3 K1) as [K3 E3].
  all: assert (L3 : leaves s s3) by (etransitivity; [exact L1|]; intros j; left; by rewrite J3).
  all: pose proof (evolves_nil_r _ _ _ _ E1 E3) as E13; cbn [negb].
  - set (s4 := clear_pendingMutations _). assert (C4 : calm [] s3 s4) by by_calm. destruct (calm_moves _ _ _ C4 K3) as [K4 E4].
    split_and!; [done|by eapply evolves_nil_r|exact L3].
  - set (s4 := clear_pendingMutations _). assert (C4 : calm [] s3 s4) by by_calm. destruct (calm_moves _ _ _ C4 K3) as [K4 E4].
    destruct (replay_moves (pendingMutations (set_ready true s3)) s4) as [K5 E5]; [|done|].
    { change (disposed s4) with (disposed s3). rewrite (c_disposed _ _ _ C3). done. }
    split_and!; [done|eapply evolves_nil_r; [|exact E5]; by eapply evolves_nil_r|]. etransitivity; [exact L3|]. exact (replay_leaves _ s4).
Qed.

(** What a classification that went on has come to: it reads the next file, has failed, or has
    decided with every file settled. *)
Record classified (k : nat) (c : continuation) (s s' : Tracker) : Prop := {
  cl_objects : objects s';
  cl_evolves : ∃ l, evolves l s s';
  cl_progress : progress s' k;
  cl_others : ∀ j, j ≠ k → jobs s' !! j = jobs s !! j;
  cl_guard : ∀ g, job_guard s' k = Some g → c = k_guard g;
  cl_result : outputs s' = outputs s ∨ s' = finish_throws k c s
    ∨ ∃ s1, s' = finish k c s1 ∧ inv s1 ∧ objects s1 ∧ looped s1 k [] ∧ outputs s1 = outputs s }.

Lemma loop_classified k c fs l s s1 : inv s1 → objects s1 → evolves l s s1 → jobs s1 = jobs s → outputs s1 = outputs s → looped s1 k fs →
  classified k c s (classify_loop k c fs s1).
Proof.
  intros Hi Ho He Hj Hout Hl. destruct (loop_goes_on k c fs s1 Hi Hl) as (P & Q & R). destruct (calm_moves _ _ _ (loop_calm k c fs s1 Hi) Ho) as [O E].
  split; [done|exists l; by eapply evolves_nil_r|done|intros j ?; by rewrite Q, Hj| |].
  - intros g. unfold job_guard. destruct R as [(f & o & rest & -> & _)|(s2 & -> & _)]; [by destruct c; [|intros [= <-]]|].
    cbn. by rewrite lookup_delete_eq.
  - destruct R as [(f & o & rest & _ & R)|(s2 & -> & C & A & L & R)]; [left; congruence|right; right]. exists s2.
    split_and!; [done|by eapply agree_inv|by eapply calm_objects|done|congruence].
Qed.
Lemma throws_classified k c s : objects s → classified k c s (finish_throws k c s).
Proof.
  intros H. assert (C : calm [] s (finish_throws k c s)) by by_calm. destruct (calm_moves _ _ _ C H) as [O E].
  split; [done|by eexists| | | |right; by left].
  - unfold progress. cbn. by rewrite lookup_delete_eq.
  - intros j Hj. cbn. by rewrite lookup_delete_ne.
  - intros g. unfold job_guard. cbn. by rewrite lookup_delete_eq.
Qed.
Lemma loop_arrives_classified k f o rest c x s : history s → jobs s !! k = Some (j_loop f o rest c) → classified k c s (loop_arrives k f o rest c x s).
Proof.
  intros [Hi Ho _ Hp] Hj. unfold loop_arrives. destruct (fingerprints s !! o) as [[fp|]|] eqn:Hf; [|by apply throws_classified..].
  destruct (Hp k) as [P _]. destruct (check_moves k o f x fp s Ho Hf) as [O E]. destruct (check_owned k o f x fp s) as (_ & _ & _ & _ & Ej & _ & Eo & _ & A & _).
  change (classified k c s (classify_loop k c rest (after_check k o f x fp s))).
  eapply loop_classified; [by eapply agree_inv|exact O|exact E|exact Ej|exact Eo|by eapply check_looped].
Qed.
Lemma body_classified k c ws fs s : history s → jobs s !! k = Some (j_fingerprints ws fs c) → classified k c s (classify_body k c fs s).
Proof.
  intros [Hi Ho _ Hp] Hj. destruct (Hp k) as [P _]. unfold progress in P. rewrite Hj in P. destruct P as (l0 & l1 & El).
  unfold classify_body. pose proof (note_calm (began k) s I) as C. destruct (calm_moves _ _ _ C Ho) as [O E]. set (s0 := note (began k) s) in *.
  assert (Hs : since s0 k fs []) by (exists l0, l1; cbn; by rewrite El, <- app_assoc). destruct (disposed s0) eqn:Ed.
  - assert (C1 : calm [began k] s (finish k c s0)) by (eapply calm_nil_r; [exact C|apply finish_calm|done]). destruct (calm_moves _ _ _ C1 Ho) as [O1 E1].
    split; [done|by eexists| | | |].
    + unfold progress. cbn. by rewrite lookup_delete_eq.
    + intros j Hjk. cbn. by rewrite lookup_delete_ne.
    + intros g. unfold job_guard. cbn. by rewrite lookup_delete_eq.
    + right; right. exists s0. split_and!; [done|eapply agree_inv; [apply note_agree|done]|done| |done]. exists fs, [], (bounded_files fs).
      rewrite app_nil_r. split_and!; [done|done|]. intros g _ o fp A. pose proof (h_disposed _ O Ed) as N. by rewrite N in A.
  - set (s1 := with_paths _ _ _ _ _ s0). assert (C1 : calm [began k] s s1) by (eapply calm_nil_r; [exact C| |done]; by_calm).
    destruct (calm_moves _ _ _ C1 Ho) as [O1 E1]. eapply loop_classified; [|exact O1|exact E1|done|done|].
    + by_agree Hi.
    + exists fs, [], []. split_and!; [exact Hs|done|by intros g ?%elem_of_nil].
Qed.

Lemma classified_history k c s s' : history s → inv s' → (∀ g, c = k_guard g → job_guard s k = Some g) → classified k c s s' → history s'.
Proof.
  intros H Hi Hg [O [l E] P J G _]. eapply history_step; [exact H|done|exact O|exact E|]. intros j. destruct (decide (j = k)) as [->|Hj]; [right|left; left; by apply J].
  split; [exact P|]. intros g Hg'. eapply asks_evolves; [exact E|]. destruct (hi_jobs s H k) as [_ A]. by apply A, Hg, G.
Qed.

Lemma job_gone k s s' : jobs s' = delete k (jobs s) → leaves s s'.
Proof.
  intros Hj j. unfold idle. rewrite Hj. destruct (decide (j = k)) as [->|?]; [right; by rewrite lookup_delete_eq|left; by rewrite lookup_delete_ne].
Qed.
Lemma leaving_history l s s' : history s → inv s' → objects s' → evolves l s s' → leaves s s' → history s'.
Proof. intros H Hi Ho He Hl. eapply history_step; try done. intros k. left. apply Hl. Qed.
(** The job [k] gets a state of its own. *)
Lemma starting_history l k s s' : history s → inv s' → objects s' → evolves l s s' → (∀ j, j ≠ k → jobs s' !! j = jobs s !! j) → progress s' k → asker s' k → history s'.
Proof.
  intros H Hi Ho He Hj P A. eapply history_step; try done. intros j. destruct (decide (j = k)) as [->|Hne]; [by right|left; left; by apply Hj].
Qed.

Lemma new_history pcwd c : history (new_tracker pcwd c).
Proof.
  assert (Hi : inv (new_tracker pcwd c)) by (split; cbn; [by intros ? []|constructor|by intros ? []]).
  split; [done| | |].
  - split; cbn; try done; try (by intros ? ? ? ? ?%elem_of_nil); try (by intros ? ? ? ? ? _ _ ?%elem_of_nil). intros o []. set_solver.
  - cbn. by intros k q ?%elem_of_nil.
  - by intros k.
Qed.

Lemma asked_history s s' q : history s → inv s' → calm [asked (fresh s) q] s s' → targets q ≠ [] →
  jobs s' = jobs s ∨ jobs s' = <[fresh s := j_guard (guard_of q)]> (jobs s) → history s'.
Proof.
  intros H Hi C Ht Hj. destruct (calm_moves _ _ _ C (hi_objects s H)) as [O E].
  destruct Hj as [Hj|Hj]; [eapply leaving_history; try done; intros k; left; by rewrite Hj|].
  eapply (starting_history _ (fresh s)); try done.
  - intros j Hne. by rewrite Hj, lookup_insert_ne.
  - unfold progress. by rewrite Hj, lookup_insert_eq.
  - intros g. unfold job_guard. rewrite Hj, lookup_insert_eq. intros [= <-]. exists q. split_and!; [|done|done]. rewrite (c_log _ _ _ C). apply elem_of_app. right. by left.
Qed.

Lemma delivered_history k c fs s s' : history s → inv s' → calm [delivered k fs] s s' → (∀ g, c = k_guard g → job_guard s k = Some g) →
  (∃ w, jobs s' = <[k := j_classify w fs c]> (jobs s)) → history s'.
Proof.
  intros H Hi C Hg (w & Hj). destruct (calm_moves _ _ _ C (hi_objects s H)) as [O E]. eapply (starting_history _ k); try done.
  - intros j Hne. by rewrite Hj, lookup_insert_ne.
  - unfold progress. rewrite Hj, lookup_insert_eq. exists (log s), []. by rewrite (c_log _ _ _ C).
  - intros g. unfold job_guard. rewrite Hj, lookup_insert_eq. destruct c as [|g0]; [done|]. intros [= ->].
    eapply asks_evolves; [exact E|]. destruct (hi_jobs s H k) as [_ A]. by apply A, Hg.
Qed.

Lemma resumed_history k w fs c ws s : history s → inv (start_job k (j_fingerprints ws fs c) s) → jobs s !! k = Some (j_classify w fs c) →
  history (start_job k (j_fingerprints ws fs c) s).
Proof.
  intros H Hi Hj. destruct (start_moves k (j_fingerprints ws fs c) s I (hi_objects s H)) as [O E]. destruct (hi_jobs s H k) as [P A].
  eapply (starting_history _ k); try done.
  - intros j Hne. cbn. by rewrite lookup_insert_ne.
  - unfold progress in *. rewrite Hj in P. cbn. by rewrite lookup_insert_eq.
  - intros g Hg. eapply asks_evolves; [exact E|]. apply A. unfold job_guard in *. rewrite Hj. cbn in Hg. by rewrite lookup_insert_eq in Hg.
Qed.

Lemma history_steps s s' : step s s' → history s → history s'.
Proof.
  intros Hs H. pose proof (tracker_step_inv s s' Hs (hi_inv s H)) as Hi. pose proof (hi_objects s H) as Ho. destruct Hs.
  - unfold beginGoal in *. case_match; [done|]. set (s' := next_fresh _) in *.
    assert (Hj : jobs s' = <[fresh s := j_baseline (generation s + 1)]> (jobs s)) by done.
    destruct (reset_moves s s' Ho) as [O E]; [done|done|cbn; lia|done| |].
    { intros k j. rewrite Hj, lookup_insert_Some. intros [[_ <-]|[_ ?]]; [by right|by left]. }
    eapply leaving_history; try done. intros k. unfold idle. rewrite Hj.
    destruct (decide (k = fresh s)) as [->|?]; [right; by rewrite lookup_insert_eq|left; by rewrite lookup_insert_ne].
  - destruct (event_moves e s Ho) as (O & E & L). by eapply leaving_history.
  - destruct (mutation_moves p s Ho) as (O & E & L). by eapply leaving_history.
  - eapply (delivered_history (fresh s) k_observation (default [] fs)); [done|done|by_calm|done|by eexists].
  - eapply (asked_history s _ (ask_path p)); [done|done| |done|].
    + unfold authorizeDestructivePath, answer_now. case_match; by_calm.
    + unfold authorizeDestructivePath, answer_now. case_match; [by left|by right].
  - unfold authorizeDestructiveCommand, answer_now in *. destruct (calm_moves [asked (fresh s) (ask_command c)] s (next_fresh (note (asked (fresh s) (ask_command c)) s))) as [O E]; [by_calm|done|].
    assert (Hnow : ∀ d, history (emit (fresh s) (out_decision d) (next_fresh (note (asked (fresh s) (ask_command c)) s)))).
    { intros d. set (s' := emit _ _ _). assert (C : calm [asked (fresh s) (ask_command c)] s s') by by_calm. destruct (calm_moves _ _ _ C Ho) as [O' E'].
      eapply leaving_history; [done| |exact O'|exact E'|by left]. by_agree (hi_inv s H). }
    case_match; [apply Hnow|]. destruct (destructiveCommandPaths c) as [|p ps] eqn:Ep; [apply Hnow|]. case_match; [apply Hnow|].
    eapply (asked_history s _ (ask_command c)); [done|done|by_calm|cbn; by rewrite Ep|right; cbn; by rewrite Ep].
  - set (s' := dispose s) in *. destruct (reset_moves s s' Ho) as [O E]; [done|done|cbn; lia|done|by left|]. eapply leaving_history; try done. by left.
  - unfold snapshot_arrives in *. destruct (jobs s !! k) as [[]|] eqn:Hj; simplify_eq.
    + destruct (baseline_moves k gen r s Ho) as (O & E & L). by eapply leaving_history.
    + unfold fingerprint_arrives in *. destruct (find _ _) as [f|] eqn:Ef.
      * apply find_some in Ef as [_ Ef]. apply bool_decide_eq_true in Ef. case_match.
        -- pose proof (h_jobs s Ho k _ Hj) as (-> & Hn). destruct (start_moves obj (j_read p obj gen f) s) as [O E]; [done|done|].
           eapply leaving_history; try done. intros j. unfold idle. cbn.
           destruct (decide (j = obj)) as [->|?]; [right; by rewrite lookup_insert_eq|left; by rewrite lookup_insert_ne].
        -- destruct (calm_moves _ _ _ (end_job_calm k s) Ho) as [O E]. eapply leaving_history; try done. by apply (job_gone k).
      * destruct (calm_moves _ _ _ (end_job_calm k s) Ho) as [O E]. eapply leaving_history; try done. by apply (job_gone k).
    + unfold guard_arrives in *. destruct r as [| |fs].
      1-2: match goal with |- history ?x => assert (C : calm [] s x) by by_calm end; destruct (calm_moves _ _ _ C Ho) as [O E];
        eapply leaving_history; try done; by apply (job_gone k).
      eapply (delivered_history k (k_guard g) fs); [done|done|by_calm| |by eexists]. intros g' [= <-]. unfold job_guard. by rewrite Hj.
  - unfold content_arrives in *. destruct (jobs s !! k) as [[]|] eqn:Hj; simplify_eq.
    + destruct (read_moves k p obj gen f c s Ho Hj) as (O & l & E). eapply leaving_history; try done. apply (job_gone k). unfold read_arrives. by case_match.
    + eapply classified_history; [exact H|done| |by apply loop_arrives_classified]. intros g ->. unfold job_guard. by rewrite Hj.
  - unfold resume in *. destruct (jobs s !! k) as [[]|] eqn:Hj; try done.
    + assert (s' = start_job k (j_fingerprints (ownedFingerprintPromises s).*2 files k0) s) as -> by (repeat case_match; congruence). by eapply resumed_history.
    + case_match; [|done]. simplify_eq. eapply classified_history; [exact H|done| |by eapply body_classified]. intros g ->. unfold job_guard. by rewrite Hj.
Qed.

Lemma tracker_history s : reachable s → history s.
Proof. induction 1 as [pcwd c|s s' _ IH Hs]; [apply new_history|by eapply history_steps]. Qed.

(** ** Granted operations *)

(** Two readings of a file agree. *)
Definition unchanged (f : AiraChangeFile) (c : jsstr) (g : AiraChangeFile) (d : jsstr) : Prop :=
  c = d ∧ status f = status g ∧ added_lines f = added_lines g ∧ deleted_lines f = deleted_lines g.

Lemma status_no_nul x : 0 ∉ status_text x.
Proof. by destruct x; apply (bool_decide_unpack _); vm_compute. Qed.
Lemma status_inj x y : status_text x = status_text y → x = y.
Proof. by destruct x, y; try (intros H; vm_compute in H). Qed.
Lemma same_unchanged f c g d : sameFingerprint (fingerprintFor f c) (fingerprintFor g d) = true → unchanged f c g d.
Proof.
  unfold sameFingerprint. rewrite bool_decide_eq_true. unfold fingerprintFor. cbn [change content]. intros [E ->].
  apply nul_split in E as [E1 E]; [|apply status_no_nul..]. apply nul_split in E as [E2 E3]; [|apply num_str_no_nul..].
  split_and!; [done|by apply status_inj|by apply (inj num_str)|by apply (inj num_str)].
Qed.

(** The path was recorded as a change of the current goal, was clean at the baseline and is not
    protected; the fingerprint of its owner is that of a file [f0] with content [c0] that was
    read since.  Every later reading of the file by a classification agreed with it; and of
    the files [fs] of its own snapshot the job [k] has compared the path with it, unless the
    fingerprint was captured while the comparison was going on. *)
Definition own_change (s : Tracker) (k : nat) (fs : list AiraChangeFile) (l : list entry) (p : jsstr) : Prop :=
  ∃ r o f0 c0, toRelative s p = Some r ∧ baselineReady s = true ∧ r ∈ recorded s ∧ mget r (baseline s) = None ∧ r ∉ protectedPaths s
  ∧ mget r (owned s) = Some o ∧ captured o f0 c0 ∈ log s ∧ path f0 = r
  ∧ (∀ j f c, checked j o f c ∈ log s → path f = r → unchanged f0 c0 f c)
  ∧ ∀ f, f ∈ fs → path f = r → (∃ c, checked k o f c ∈ l ∧ unchanged f0 c0 f c) ∨ ∃ f1 c1, captured o f1 c1 ∈ l ∧ unchanged f0 c0 f1 c1.

Lemma granted_own s k fs l p : inv s → objects s → (∀ g, g ∈ fs → settled s k l g) → allowed (authorizeClassifiedPath s p) = true → own_change s k fs l p.
Proof.
  intros Hi Ho Hset. unfold authorizeClassifiedPath. destruct (toRelative s p) as [r|] eqn:Hr; [|done].
  destruct (baselineReady s) eqn:Hb; [|done]. cbn [negb]. destruct (mget r (baseline s)) eqn:Hbase; [done|].
  destruct (mget r (owned s)) as [o|] eqn:Hown; [|done]. destruct (fingerprints s !! o) as [[fp|]|] eqn:Hf; try done.
  case_bool_decide as Hprot; [done|]. intros _. destruct (h_stored s Ho r o fp Hown Hf) as (f0 & c0 & Hc & -> & Hpath).
  exists r, o, f0, c0. split_and!; try done; [apply (inv_owned s Hi); by rewrite Hown| |].
  - intros j f c Hj <-. destruct (h_drift s Ho o _ j f c Hown Hf Hj) as [?|Hsame]; [done|]. by apply same_unchanged.
  - intros f Hin <-. destruct (Hset f Hin o _ Hown Hf) as [?|[(c & H1 & H2)|(f1 & c1 & H1 & H2)]]; [done|left|right].
    + exists c. split; [done|]. by apply same_unchanged.
    + exists f1, c1. split; [done|]. apply same_unchanged. rewrite H2. unfold sameFingerprint. by apply bool_decide_eq_true.
Qed.

Lemma first_refusal_spec s ps :
  match first_refusal s ps with
  | Some d => allowed d = false
  | None => Forall (λ p, allowed (authorizeClassifiedPath s p) = true) ps
  end.
Proof.
  induction ps as [|p ps IH]; [constructor|]. cbn. destruct (allowed (authorizeClassifiedPath s p)) eqn:E; [|done].
  destruct (first_refusal s ps); [done|]. by constructor.
Qed.
Lemma guard_grants s g b : allowed (decide_guard g b s) = true → Forall (λ p, allowed (authorizeClassifiedPath s p) = true) (guard_paths g).
Proof.
  destruct g as [p|ps], b; try done; cbn [negb guard_paths decide_guard]; [intros H; by apply Forall_singleton|].
  pose proof (first_refusal_spec s ps) as H. destruct (first_refusal s ps); cbn [default from_option id]; [|done]. intros Hd. by rewrite H in Hd.
Qed.

Lemma snoc_neq {A} (l : list A) x : l = l ++ [x] → False.
Proof. intros H%(f_equal length). rewrite length_app in H. cbn in H. lia. Qed.

(** The decision of a classification. *)
Lemma classified_grant k k' c s s' d : classified k c s s' → outputs s' = outputs s ++ [(k', out_decision d)] → allowed d = true →
  ∃ g fs l, k' = k ∧ c = k_guard g ∧ since s' k fs l ∧ Forall (own_change s' k (bounded_files fs) l) (guard_paths g).
Proof.
  intros [_ _ _ _ _ R] Hout Hd. destruct R as [R|[->|(s1 & -> & Hi & Ho & (fs & l & past & Hs & Hb & Hp) & R)]].
  - rewrite R in Hout. by apply snoc_neq in Hout.
  - unfold finish_throws in Hout. cbn [outputs emit] in Hout. apply app_inv_head in Hout. destruct c as [|g]; [done|]. injection Hout as <- <-. by destruct g.
  - unfold finish in Hout. cbn [outputs emit] in Hout. change (outputs (end_job k s1)) with (outputs s1) in Hout. rewrite R in Hout.
    apply app_inv_head in Hout. destruct c as [|g]; [done|]. injection Hout as <- <-. exists g, fs, l. split_and!; [done|done|exact Hs|].
    rewrite app_nil_r in Hb. rewrite Hb. eapply Forall_impl; [exact (guard_grants _ _ _ Hd)|]. intros p Hpa. by eapply (granted_own s1).
Qed.

Lemma record_ready_outputs p s : outputs (recordReadyMutation p s) = outputs s.
Proof. unfold recordReadyMutation. destruct (mget p (baseline s)); [done|]. by case_match. Qed.
Lemma replay_outputs ps s : outputs (foldl (λ s p, recordReadyMutation p s) s ps) = outputs s.
Proof. revert s. induction ps as [|p ps IH]; intros s; [done|]. cbn. by rewrite IH, record_ready_outputs. Qed.
Lemma protect_all_outputs (b : list (jsstr * AiraChangeFile)) ps s :
  outputs (foldl (λ s p, match mget p b with Some _ => protect p s | None => s end) s ps) = outputs s.
Proof. revert s. induction ps as [|p ps IH]; intros s; [done|]. cbn. rewrite IH. by destruct (mget p b). Qed.
Lemma mutation_outputs p s : outputs (recordToolMutation p s) = outputs s.
Proof.
  unfold recordToolMutation. case_match; [done|]. destruct (toRelative s p); [|done].
  case_match; [done|]. by rewrite record_ready_outputs.
Qed.
Lemma baseline_arrives_outputs k gen r s : outputs (baseline_arrives k gen r s) = outputs s.
Proof.
  unfold baseline_arrives. destruct r; [done| |]; (case_match; [done|]).
  - cbn [negb clear_pendingMutations with_pending outputs set_ready with_goal]. by rewrite protect_all_outputs.
  - cbn [negb]. rewrite replay_outputs. cbn [clear_pendingMutations with_pending outputs set_ready with_goal].
    by rewrite protect_all_outputs.
Qed.

(** Why the step that grants the request [q] of job [k] may do so. *)
Definition may_grant (s s' : Tracker) (k : nat) (q : request) : Prop :=
  (activeGoal s = false ∧ log s' = log s ++ [asked k q])
  ∨ (∃ c, q = ask_command c ∧ isDestructiveCommand c = false)
  ∨ targets q ≠ [] ∧ ∃ fs l, since s' k fs l ∧ Forall (own_change s' k (bounded_files fs) l) (targets q).

Lemma classified_may_grant k k' c s s' d : history s → classified k c s s' → (∀ g, c = k_guard g → job_guard s k = Some g) →
  outputs s' = outputs s ++ [(k', out_decision d)] → allowed d = true → ∃ q, asked k' q ∈ log s' ∧ may_grant s s' k' q.
Proof.
  intros H Hc Hg Hout Hd. destruct (classified_grant _ _ _ _ _ _ Hc Hout Hd) as (g & fs & l & -> & -> & Hs & Hf).
  destruct (cl_evolves _ _ _ _ Hc) as (l' & He). destruct (hi_jobs s H k) as [_ A]. destruct (asks_evolves _ _ _ _ _ He (A g (Hg g eq_refl))) as (q & Hq & <- & Hne).
  exists q. split; [done|]. right; right. split; [done|]. exists fs, l. by rewrite <- guard_targets.
Qed.

(** C31. A destructive operation is granted only for the goal's own changes.  Whatever happened
    before and however the captures, reads and classifications interleave: when a step
    grants the job [k], the job was asked for one request, and no goal was active when it was
    asked, or the command is not recognized as destructive, or every path that the request is
    about (for a command all the paths [destructiveCommandPaths] finds, at least one) lies in the
    workspace, was recorded as a change of the current goal, was not dirty at the baseline
    that was kept, and has not drifted: its fingerprint is that of a file that was read
    since it was recorded, every reading of it by a classification agreed with this one in
    content, status and counts, and the job itself compared every file of its snapshot that has
    this path, unless the fingerprint was captured while its loop was running. *)
Theorem grants_only_own_changes s s' k d :
  reachable s → step s s' → outputs s' = outputs s ++ [(k, out_decision d)] → allowed d = true →
  ∃ q, (∀ q', asked k q' ∈ log s' ↔ q' = q) ∧ may_grant s s' k q.
Proof.
  intros Hr Hs Hout Hd. pose proof (tracker_history s Hr) as H. pose proof (history_steps s s' Hs H) as H'.
  enough (∃ q, asked k q ∈ log s' ∧ may_grant s s' k q) as (q & Hq & Hm).
  { exists q. split; [|done]. intros q'. split; [by apply (hi_asked s' H')|by intros ->]. }
  assert (Hnow : ∀ q d', s' = emit (fresh s) (out_decision d') (next_fresh (note (asked (fresh s) q) s)) →
    (allowed d' = true → may_grant s s' (fresh s) q) → ∃ q, asked k q ∈ log s' ∧ may_grant s s' k q).
  { intros q d' -> Hm. cbn [outputs emit] in Hout. apply app_inv_head in Hout. injection Hout as <- <-. exists q.
    split; [apply elem_of_app; right; by left|by apply Hm]. }
  destruct Hs.
  - unfold beginGoal in Hout. case_match; by apply snoc_neq in Hout.
  - unfold applyAgentEvent in Hout. repeat case_match; rewrite ?mutation_outputs in Hout; by apply snoc_neq in Hout.
  - rewrite mutation_outputs in Hout. by apply snoc_neq in Hout.
  - by apply snoc_neq in Hout.
  - unfold authorizeDestructivePath, answer_now in *. case_match eqn:Hg; [|by apply snoc_neq in Hout].
    eapply Hnow; [done|]; intros _; left; split; [by apply negb_true_iff|done].
  - unfold authorizeDestructiveCommand, answer_now in *. case_match eqn:Hc; [eapply Hnow; [done|]; intros _; right; left; exists c; split; [done|by apply negb_true_iff]|].
    destruct (destructiveCommandPaths c); [by eapply Hnow|]. case_match eqn:Hg; [|by apply snoc_neq in Hout].
    eapply Hnow; [done|]; intros _; left; split; [by apply negb_true_iff|done].
  - by apply snoc_neq in Hout.
  - unfold snapshot_arrives in *. destruct (jobs s !! k0) as [[]|] eqn:Hj; simplify_eq.
    + rewrite baseline_arrives_outputs in Hout. by apply snoc_neq in Hout.
    + unfold fingerprint_arrives in Hout. repeat case_match; by apply snoc_neq in Hout.
    + unfold guard_arrives in Hout. case_match; try (by apply snoc_neq in Hout).
      all: cbn in Hout; apply app_inv_head in Hout; simplify_eq; by destruct g.
  - unfold content_arrives in *. destruct (jobs s !! k0) as [[]|] eqn:Hj; simplify_eq.
    + unfold read_arrives in Hout. case_match; by apply snoc_neq in Hout.
    + eapply classified_may_grant; [exact H|by apply loop_arrives_classified| |exact Hout|exact Hd]. intros g ->. unfold job_guard. by rewrite Hj.
  - unfold resume in *. destruct (jobs s !! k0) as [[]|] eqn:Hj; try done.
    + repeat case_match; simplify_eq; by apply snoc_neq in Hout.
    + case_match; [|done]. simplify_eq. eapply classified_may_grant; [exact H|by eapply body_classified| |exact Hout|exact Hd]. intros g ->. unfold job_guard. by rewrite Hj.
Qed.


(** ** Concrete sessions *)

(** What arrives for a job, when the job still waits for it. *)
Definition gets (k : nat) (r : snap) (s : Tracker) : Tracker := default s (snapshot_arrives k r s).
Definition reads (k : nat) (s : Tracker) : Tracker := default s (content_arrives k (js "digest") s).
Definition goes_on (k : nat) (s : Tracker) : Tracker := default s (resume k s).
Definition files (l : list string) : list AiraChangeFile :=
  (λ p, {| path := js p; status := modified; added_lines := 1; deleted_lines := 0 |}) <$> l.

(** A goal whose baseline is [base] and that then writes [p], which is in the snapshots. *)
Definition goal_writes (base : list AiraChangeFile) (p : string) : Tracker :=
  let s := gets 0 (snap_files base) (beginGoal (new_tracker (js "/") (js "/w"))) in
  let s := applyAgentEvent (tool_execution_start (js "1") (js "write") (Some [(js "path", v_string (js p))])) s in
  let s := applyAgentEvent (tool_execution_end (js "1") (js "write") false) s in
  reads 1 (gets 1 (snap_files (base ++ files [p])) s).

(** The guard is asked about a command and everything it awaits arrives; the file still has
    the content it was written with. *)
Definition asked_command (c : string) (base : list AiraChangeFile) (p : string) (s : Tracker) : Tracker :=
  let k := fresh s in
  reads k (goes_on k (goes_on k (gets k (snap_files (base ++ files [p])) (authorizeDestructiveCommand (js c) s)))).
Definition answer (s : Tracker) : option bool :=
  match last (outputs s) with Some (_, out_decision d) => Some (allowed d) | _ => None end.

Definition ask_goal (c : string) : option bool := answer (asked_command c [] "a.ts" (goal_writes [] "a.ts")).

Example guard_answers :
  ask_goal "git restore -- a.ts" = Some true ∧ ask_goal "git restore -- b.ts" = Some false
  ∧ ask_goal "rm -rf a.ts src" = Some false ∧ ask_goal "git checkout ." = Some false.
Proof. split_and!; by vm_compute. Qed.

(** The targets "." and ".." are dropped from a command that names another target: restoring
    the whole workspace is granted. *)
Theorem dot_target_ignored :
  ask_goal "git checkout -- a.ts ." = Some true ∧ ask_goal "rm -rf a.ts .." = Some true.
Proof. split; by vm_compute. Qed.

(** Only one of the commands of a line is looked at: what [rm] removes is not checked when
    the line also restores a path. *)
Theorem second_command_unchecked :
  ask_goal "rm -rf src && git checkout -- a.ts" = Some true ∧ ask_goal "git reset --hard a.ts; rm -rf src" = Some false.
Proof. split; by vm_compute. Qed.

(** A command behind a line break or behind another command is not recognized. *)
Theorem second_line_unrecognized :
  isDestructiveCommand (js "cd src" ++ [10] ++ js "rm -rf .") = false ∧ isDestructiveCommand (js "sudo rm -rf /") = false.
Proof. split; by vm_compute. Qed.

(** The baseline keeps the first 200 changed files: a file beyond them that was dirty before the
    goal counts as the goal's own once the goal has written it. *)
Definition many : list AiraChangeFile :=
  (λ n, {| path := js "f" ++ num_str (Z.of_nat n); status := modified; added_lines := 1; deleted_lines := 0 |}) <$> seq 0 200.

Theorem truncated_baseline_loses_protection :
  answer (asked_command "git checkout -- f200" many "f200"
            (goal_writes (many ++ files ["f200"]) "f200")) = Some true
  ∧ answer (asked_command "git checkout -- f7" many "f7" (goal_writes (many ++ files ["f200"]) "f7")) = Some false.
Proof. split; by vm_compute. Qed.

(** A snapshot that fails late undoes the baseline of a later goal: the check of the goal is
    missing on that path. *)
Theorem stale_failure_disables_new_goal :
  let s := gets 1 (snap_files []) (beginGoal (beginGoal (new_tracker (js "/") (js "/w")))) in
  baselineReady s = true ∧ baselineReady (gets 0 snap_throws s) = false
  ∧ baselineReady (gets 0 snap_undefined s) = true.
Proof. split_and!; by vm_compute. Qed.

Lemma default_reachable s f : reachable s → (∀ s', f = Some s' → step s s') → reachable (default s f).
Proof. intros Hs Hf. destruct f as [s'|]; [|done]. eapply reach_step; [exact Hs|]. by apply Hf. Qed.

Lemma gets_reachable k r s : reachable s → reachable (gets k r s).
Proof. intros Hs. apply default_reachable; [done|]. intros s'. apply step_snapshot. Qed.
Lemma reads_reachable k s : reachable s → reachable (reads k s).
Proof. intros Hs. apply default_reachable; [done|]. intros s'. apply step_content. Qed.
Lemma goes_on_reachable k s : reachable s → reachable (goes_on k s).
Proof. intros Hs. apply default_reachable; [done|]. intros s'. apply step_resume. Qed.

Lemma goal_writes_reachable base p : reachable (goal_writes base p).
Proof.
  apply reads_reachable, gets_reachable. do 2 (eapply reach_step; [|apply step_event]).
  apply gets_reachable. eapply reach_step; [apply reach_new|apply step_begin].
Qed.

Definition before_grant : Tracker :=
  goes_on 2 (goes_on 2 (gets 2 (snap_files (files ["a.ts"%string]))
    (authorizeDestructiveCommand (js "git restore -- a.ts") (goal_writes [] "a.ts")))).

Lemma before_grant_reachable : reachable before_grant.
Proof.
  do 2 apply goes_on_reachable. apply gets_reachable. eapply reach_step; [apply goal_writes_reachable|apply step_command].
Qed.

(** The command is granted by the comparison of its own classification. *)
Theorem grants_only_own_changes_witness :
  ∃ fs l, since (reads 2 before_grant) 2 fs l ∧ Forall (own_change (reads 2 before_grant) 2 (bounded_files fs) l) [js "a.ts"].
Proof.
  assert (step before_grant (reads 2 before_grant)) as Hstep
    by (apply (step_content _ 2 (js "digest")); vm_compute; reflexivity).
  destruct (grants_only_own_changes before_grant _ 2 (granted None (js "all destructive targets are Goal-owned"))
    before_grant_reachable Hstep) as (q & Hq & Hm); [vm_compute; reflexivity|vm_compute; reflexivity|].
  assert (ask_command (js "git restore -- a.ts") = q) as <-.
  { apply Hq, list_elem_of_In. vm_compute. right. left. reflexivity. }
  destruct Hm as [[H _]|[(c & Hc & H)|(_ & fs & l & H1 & H2)]].
  - vm_compute in H. discriminate H.
  - injection Hc as <-. vm_compute in H. discriminate H.
  - exists fs, l. split; [exact H1|]. change (targets (ask_command (js "git restore -- a.ts"))) with (destructiveCommandPaths (js "git restore -- a.ts")) in H2.
    assert (destructiveCommandPaths (js "git restore -- a.ts") = [js "a.ts"]) as E by (vm_compute; reflexivity). rewrite E in H2. exact H2.
Defined.

(** ** The targets of a restore *)

Lemma bare_last w : bare_word w → ∃ s u, w = s ++ [u] ∧ is_ws u = false.
Proof.
  intros [Hw Hh]. destruct w as [|u w _] using rev_ind; [done|]. exists w, u. split; [done|].
  apply Forall_app in Hw as [_ Hu]. exact (Forall_inv Hu).
Qed.

Lemma join_last l : l ≠ [] → Forall bare_word l → ∃ s u, join [32] l = s ++ [u] ∧ is_ws u = false.
Proof.
  intros Hne Hl. induction Hl as [|w l Hw Hl IH]; [done|]. destruct l as [|w2 l]; [by apply bare_last|].
  destruct IH as (s & u & Hj & Hu); [done|]. exists (w ++ 32 :: s), u. split; [|done].
  change (join [32] (w :: w2 :: l)) with (w ++ 32 :: join [32] (w2 :: l)). rewrite Hj. by rewrite <- app_assoc.
Qed.

Lemma trim_fixed a s u : is_ws a = false → is_ws u = false → trim (a :: s ++ [u]) = a :: s ++ [u].
Proof.
  intros Ha Hu. unfold trim. rewrite (trimStart_id (a :: _)) by done.
  change (a :: s ++ [u]) with ((a :: s) ++ [u]). rewrite rev_app_distr. cbn [rev app].
  rewrite (trimStart_id (u :: _)) by done. cbn [rev]. by rewrite rev_app_distr, rev_involutive.
Qed.

Definition restore (l : list jsstr) : jsstr := js "git restore -- " ++ join [32] l.

Lemma restore_paths l :
  l ≠ [] → Forall bare_word l → Forall (λ w, w ≠ [46] ∧ w ≠ dotdot) l → zlen l <= MAX_TRACKED_PATHS →
  isDestructiveCommand (restore l) = true ∧ destructiveCommandPaths (restore l) = l.
Proof.
  intros Hne Hl Hd Hn. destruct (join_last l Hne Hl) as (s & u & Hj & Hu).
  assert (js "git restore -- " = [103; 105; 116; 32; 114; 101; 115; 116; 111; 114; 101; 32; 45; 45; 32]) as Hpre by by vm_compute.
  split.
  - unfold isDestructiveCommand. assert (trim (restore l) = restore l) as ->.
    { unfold restore. rewrite Hj, Hpre.
      exact (trim_fixed 103 ([105; 116; 32; 114; 101; 115; 116; 111; 114; 101; 32; 45; 45; 32] ++ s) u eq_refl Hu). }
    unfold restore. rewrite Hpre. by vm_compute.
  - unfold destructiveCommandPaths.
    assert (find_match (λ s, ended (git_verb ["restore"; "checkout"]%string s)) (restore l)
            = Some (32 :: 45 :: 45 :: 32 :: join [32] l)) as ->.
    { unfold restore. rewrite Hpre. by vm_compute. }
    rewrite Hj. assert (trim (32 :: 45 :: 45 :: 32 :: s ++ [u]) = 45 :: 45 :: 32 :: s ++ [u]) as ->.
    { transitivity (trim (45 :: (45 :: 32 :: s) ++ [u])); [done|]. by apply trim_fixed. }
    change (after_dashes (45 :: 45 :: 32 :: s ++ [u])) with (Some (32 :: s ++ [u])).
    rewrite <- Hj. by apply shellWords_join.
Qed.

(** The guard of a restore command is about exactly the paths the command names: for a command
    [git restore -- p1 ... pn] written without quotes, the guard waits with these paths, in
    order, and what it decides grants the command exactly when it grants every one of them
    (the words "." and ".." apart). *)
Theorem restore_checks_every_target s l :
  l ≠ [] → Forall bare_word l → Forall (λ w, w ≠ [46] ∧ w ≠ dotdot) l → zlen l <= MAX_TRACKED_PATHS →
  activeGoal s = true →
  job_guard (authorizeDestructiveCommand (restore l) s) (fresh s) = Some (guard_command l)
  ∧ ∀ s', allowed (decide_guard (guard_command l) true s') = true ↔
      Forall (λ p, allowed (authorizeClassifiedPath s' p) = true) l.
Proof.
  intros Hne Hl Hd Hn Hg. destruct (restore_paths l Hne Hl Hd Hn) as [H1 H2]. split.
  - unfold authorizeDestructiveCommand. rewrite H1, H2. destruct l as [|p l]; [done|]. cbn [negb note activeGoal]. rewrite Hg. cbn [negb].
    unfold job_guard. cbn [start_job with_async jobs]. by rewrite lookup_insert_eq.
  - intros s'. cbn [decide_guard negb]. pose proof (first_refusal_spec s' l) as H.
    destruct (first_refusal s' l) as [d|] eqn:E; cbn [default from_option id]; [|done].
    rewrite H. split; [done|]. clear -E H. revert E.
    induction l as [|p l IH]; cbn [first_refusal]; [done|]. intros E HF. apply Forall_cons in HF as [Hp HF].
    rewrite Hp in E. auto.
Qed.

Theorem restore_checks_every_target_witness :
  job_guard (authorizeDestructiveCommand (restore [js "a.ts"; js "b.ts"]) (goal_writes [] "a.ts")) 2
  = Some (guard_command [js "a.ts"; js "b.ts"]).
Proof.
  destruct (restore_checks_every_target (goal_writes [] "a.ts") [js "a.ts"; js "b.ts"]) as [H _].
  - done.
  - repeat constructor; try (by vm_compute); by apply (bool_decide_unpack _); vm_compute.
  - repeat constructor; by apply (bool_decide_unpack _); vm_compute.
  - by vm_compute.
  - by vm_compute.
  - exact H.
Defined.

End OwnershipProps.
