(* ===== verification/VerifyTypes.v ===== *)
(** * Verification: shared contract types and settings

    Models [aira/verification/types.ts] and [settings.ts]: the verdict, the result of a run
    and the snapshot other components read, and the normalized settings. *)
From S2P Require Import Prelude JsMap JsString OrchTypes Capabilities.

Module VerifyTypes.
Import Capabilities.

Inductive AiraVerificationVerdict := pass | fail | inconclusive.
Inductive AiraVerificationStatusState := st_idle | preparing | running | passed | failed | st_inconclusive.
Inductive AiraVerifierFailureKind :=
| vf_timeout | vf_cancelled | vf_provider | vf_tool_budget | vf_invalid_verdict | vf_configuration | vf_internal.
Inductive AiraRequirementKind := explicit | inferred.
Inductive AiraRequirementStatus := verified | unmet | unverifiable.
Inductive AiraFindingSeverity := blocking | warning | info.
Inductive AiraEvidenceCategory := e_repository | e_language | e_execution | e_browser | e_git | e_verifier.
Inductive AiraScopeVerdict := in_scope | drift | uncertain.

#[export] Instance AiraVerificationVerdict_eq_dec : EqDecision AiraVerificationVerdict.
Proof. solve_decision. Defined.
#[export] Instance AiraVerificationStatusState_eq_dec : EqDecision AiraVerificationStatusState.
Proof. solve_decision. Defined.
#[export] Instance AiraRequirementStatus_eq_dec : EqDecision AiraRequirementStatus.
Proof. solve_decision. Defined.
#[export] Instance AiraFindingSeverity_eq_dec : EqDecision AiraFindingSeverity.
Proof. solve_decision. Defined.

Record AiraVerificationRequirement := {
  req_id : jsstr; req_text : jsstr; req_kind : AiraRequirementKind; req_status : AiraRequirementStatus }.
Record AiraVerificationFinding := {
  severity : AiraFindingSeverity; requirementId : option jsstr; message : jsstr; evidence : option jsstr }.
Record AiraVerificationEvidenceItem := { category : AiraEvidenceCategory; label : jsstr; ev_summary : jsstr }.
Record AiraVerificationScopeAssessment := { scope_verdict : AiraScopeVerdict; notes : list jsstr }.
Inductive confidence_level := low | medium | high.

Record AiraVerificationResult := {
  id : jsstr; revisionId : jsstr; r_verdict : AiraVerificationVerdict; summary : jsstr; r_mode : AiraMode; objective : jsstr;
  requirements : list AiraVerificationRequirement; findings : list AiraVerificationFinding;
  r_evidence : list AiraVerificationEvidenceItem; missingEvidence : list jsstr;
  scopeAssessment : AiraVerificationScopeAssessment; confidence : confidence_level;
  tokenUsage : option AiraChildTokenUsage; startedAt : Z; completedAt : Z; r_stale : bool; staleReason : option jsstr }.

(** ** Settings *)

Inductive AiraVerificationAutoSetting := v_off | v_smart | v_always.
#[export] Instance AiraVerificationAutoSetting_eq_dec : EqDecision AiraVerificationAutoSetting.
Proof. solve_decision. Defined.
Inductive AiraVerificationContextBudget := compact | balanced | expanded.

Record AiraVerificationSettings := {
  set_enabled : bool; set_auto : AiraVerificationAutoSetting; set_contextBudget : AiraVerificationContextBudget }.

Definition DEFAULT_AIRA_VERIFICATION_SETTINGS : AiraVerificationSettings :=
  {| set_enabled := false; set_auto := v_smart; set_contextBudget := compact |}.

(** A field of a settings object: a finite number is its floor and whether it is whole;
    [raw_other] is any other value, [NaN] and the infinities included. *)
Inductive raw := raw_undefined | raw_bool (b : bool) | raw_number (floor : Z) (whole : bool) | raw_string (s : jsstr) | raw_other.

Definition normalizeAuto (v : raw) : AiraVerificationAutoSetting :=
  match v with
  | raw_string s => if str_eqb s (js "off") then v_off else if str_eqb s (js "smart") then v_smart
                    else if str_eqb s (js "always") then v_always else set_auto DEFAULT_AIRA_VERIFICATION_SETTINGS
  | _ => set_auto DEFAULT_AIRA_VERIFICATION_SETTINGS
  end.
Definition normalizeBudget (v : raw) : AiraVerificationContextBudget :=
  match v with
  | raw_string s => if str_eqb s (js "compact") then compact else if str_eqb s (js "balanced") then balanced
                    else if str_eqb s (js "expanded") then expanded else set_contextBudget DEFAULT_AIRA_VERIFICATION_SETTINGS
  | _ => set_contextBudget DEFAULT_AIRA_VERIFICATION_SETTINGS
  end.

(** The settings object; a value that is not an object has no fields. *)
Definition normalizeAiraVerificationSettings (field : string → raw) : AiraVerificationSettings :=
  {| set_enabled := match field "enabled"%string with
                    | raw_undefined => set_enabled DEFAULT_AIRA_VERIFICATION_SETTINGS
                    | raw_bool b => b
                    | _ => false end;
     set_auto := normalizeAuto (field "auto"%string);
     set_contextBudget := normalizeBudget (field "contextBudget"%string) |}.

(** ** The snapshot *)

Record AiraVerificationStatus := {
  status : AiraVerificationStatusState; enabled : bool; auto : AiraVerificationAutoSetting;
  contextBudget : AiraVerificationContextBudget; currentResult : option AiraVerificationResult;
  requirementsTotal : Z; requirementsVerified : Z; highestFinding : option AiraVerificationFinding; stale : bool;
  s_missingEvidence : list jsstr; lastError : option jsstr; lastFailureKind : option AiraVerifierFailureKind;
  lastSkipReason : option jsstr; toolBudgetUsed : option Z; toolBudgetLimit : option Z; toolBudgetExtensions : option Z;
  s_startedAt : option Z; s_completedAt : option Z; updatedAt : Z }.

(** [now] is [Date.now()]. *)
Definition initialAiraVerificationStatus (now : Z) (settings : AiraVerificationSettings) : AiraVerificationStatus :=
  {| status := st_idle; enabled := set_enabled settings; auto := set_auto settings;
     contextBudget := set_contextBudget settings; currentResult := None; requirementsTotal := 0; requirementsVerified := 0;
     highestFinding := None; stale := false; s_missingEvidence := []; lastError := None; lastFailureKind := None;
     lastSkipReason := None; toolBudgetUsed := None; toolBudgetLimit := None; toolBudgetExtensions := None;
     s_startedAt := None; s_completedAt := None; updatedAt := now |}.

End VerifyTypes.
