(* ===== verification/Regex.v ===== *)
(** * Regular expressions

    The regular expressions of the source as syntax with an executable matcher that tries
    what a backtracking engine tries, in its order, and the declarative meaning the matcher
    decides; testing a text, and replacing what an expression reads.  A position is its
    index, the character before it, so that the anchors can look back, and the text after it. *)
From S2P Require Import Prelude JsString Policy Presentation.

Module Regex.
Import Policy Presentation.

Inductive re :=
| Eps
| Chr (f : Z → bool)      (** one character of a class *)
| Seq (a b : re)
| Alt (a b : re)
| Star (a : re)           (** [a*] *)
| Lazy (a : re)           (** [a*?] *)
| Bol | Eol               (** [^] and [$] without the [m] flag *)
| Bolm                    (** [^] with the [m] flag *)
| Wordb.                  (** [\b] *)

Record position := { index : nat; before : option Z; rest : jsstr }.
(** The position after the character [u]. *)
Definition next (p : position) (u : Z) (s : jsstr) : position := {| index := S (index p); before := Some u; rest := s |}.
Definition start (s : jsstr) : position := {| index := 0; before := None; rest := s |}.

Definition at_word_boundary (p : position) : bool :=
  let before := match before p with Some u => is_word u | None => false end in
  let after := match rest p with u :: _ => is_word u | [] => false end in
  negb (Bool.eqb before after).

Definition at_line_start (p : position) : bool := match before p with Some u => is_line_terminator u | None => true end.

(** The repetition of [body], ending where nothing more was read; [greedy] says whether another
    round or [k], what follows, is tried first. *)
Fixpoint loop {A} (greedy : bool) (body : position → (position → option A) → option A) (k : position → option A)
    (fuel : nat) (p : position) : option A :=
  let more := match fuel with
              | O => None
              | S fuel => body p (λ p', if (index p <? index p')%nat then loop greedy body k fuel p' else None)
              end in
  if greedy then match more with None => k p | found => found end
  else match k p with None => more | found => found end.

(** [k] is what follows; the first alternative that succeeds is taken. *)
Fixpoint exec {A} (r : re) (p : position) (k : position → option A) : option A :=
  match r with
  | Eps => k p
  | Chr f => match rest p with u :: s => if f u then k (next p u s) else None | [] => None end
  | Seq a b => exec a p (λ p', exec b p' k)
  | Alt a b => match exec a p k with None => exec b p k | found => found end
  | Star a => loop true (exec a) k (length (rest p)) p
  | Lazy a => loop false (exec a) k (length (rest p)) p
  | Bol => match before p with None => k p | Some _ => None end
  | Eol => match rest p with [] => k p | _ => None end
  | Bolm => if at_line_start p then k p else None
  | Wordb => if at_word_boundary p then k p else None
  end.

Fixpoint search (r : re) (i : nat) (before : option Z) (s : jsstr) : bool :=
  match exec r {| index := i; before := before; rest := s |} Some with
  | Some _ => true
  | None => match s with [] => false | u :: s' => search r (S i) (Some u) s' end
  end.

(** [r.test(s)] *)
Definition test (r : re) (s : jsstr) : bool := search r 0 None s.

(** What follows the first position the expression [drop] may start at once [keep] was read,
    unless [unless] reads something there: [/(keep)(?!unless)drop/]. *)
Record pattern := { keep : re; unless : option re; drop_ : re }.

Definition exec_pattern (r : pattern) (p : position) : option (position * position) :=
  exec (keep r) p (λ q,
    if match unless r with Some n => bool_decide (is_Some (exec n q Some)) | None => false end then None
    else exec (drop_ r) q (λ e, Some (q, e))).

(** The text from [p] up to [q], a later position. *)
Definition between (p q : position) : jsstr := take (index q - index p) (rest p).

(** [s.replace(/(keep)(?!unless)drop/g, "$1" + by_)] *)
Fixpoint replace_from (fuel : nat) (r : pattern) (by_ : jsstr) (p : position) : jsstr :=
  match fuel with
  | O => rest p
  | S fuel =>
      let step := match rest p with [] => [] | u :: s => u :: replace_from fuel r by_ (next p u s) end in
      match exec_pattern r p with
      | Some (q, e) => between p q ++ by_ ++ (if (index p <? index e)%nat then replace_from fuel r by_ e else step)
      | None => step
      end
  end.
Definition replace_all (r : pattern) (by_ : jsstr) (s : jsstr) : jsstr := replace_from (S (length s)) r by_ (start s).

(** ** Notation of the source *)

Fixpoint seq (l : list re) : re := match l with [] => Eps | [r] => r | r :: l' => Seq r (seq l') end.
Fixpoint alt (l : list re) : re := match l with [] => Chr (const false) | [r] => r | r :: l' => Alt r (alt l') end.
Definition opt (r : re) : re := Alt r Eps.
Definition plus (r : re) : re := Seq r (Star r).
(** [r{n,}] *)
Fixpoint at_least (n : nat) (r : re) : re := match n with O => Star r | S n => Seq r (at_least n r) end.

(** A literal, the case of ASCII letters ignored. *)
Definition lit (s : string) : re := seq ((λ c, Chr (λ u, ascii_lower u =? ascii_lower c)) <$> js s).
Definition lits (l : list string) : re := alt (lit <$> l).
Definition any : re := Chr (λ u, negb (is_line_terminator u)).
Definition word_char : re := Chr is_word.

(** ** The meaning *)

Inductive reads : re → position → position → Prop :=
| reads_eps p : reads Eps p p
| reads_chr f p u s : rest p = u :: s → f u = true → reads (Chr f) p (next p u s)
| reads_seq a b p q r : reads a p q → reads b q r → reads (Seq a b) p r
| reads_alt_l a b p q : reads a p q → reads (Alt a b) p q
| reads_alt_r a b p q : reads b p q → reads (Alt a b) p q
| reads_star a p q : iterates a p q → reads (Star a) p q
| reads_lazy a p q : iterates a p q → reads (Lazy a) p q
| reads_bol p : before p = None → reads Bol p p
| reads_eol p : rest p = [] → reads Eol p p
| reads_bolm p : at_line_start p = true → reads Bolm p p
| reads_wordb p : at_word_boundary p = true → reads Wordb p p
with iterates : re → position → position → Prop :=
| iterates_nil a p : iterates a p p
| iterates_cons a p q r : reads a p q → iterates a q r → iterates a p r.

Scheme reads_mut := Minimality for reads Sort Prop
  with iterates_mut := Minimality for iterates Sort Prop.
Combined Scheme reads_iterates_ind from reads_mut, iterates_mut.

#[local] Hint Constructors reads iterates : core.

(** Reading moves forward through the text, and stays only where it began. *)
Definition forward (p q : position) : Prop := p = q ∨ (index p < index q ∧ length (rest q) < length (rest p))%nat.

Lemma forward_trans p q r : forward p q → forward q r → forward p r.
Proof. unfold forward. intros [->|?] [->|?]; auto. right. lia. Qed.

Lemma reads_forward_both :
  (∀ r p q, reads r p q → forward p q) ∧ (∀ a p q, iterates a p q → forward p q).
Proof.
  apply reads_iterates_ind; intros; try (by left); try done; try (by eapply forward_trans).
  right. unfold next. cbn. rewrite H. cbn. lia.
Qed.
Lemma reads_forward r p q : reads r p q → forward p q.
Proof. apply reads_forward_both. Qed.

Lemma exec_star {A} a p (k : position → option A) : exec (Star a) p k = loop true (exec a) k (length (rest p)) p.
Proof. reflexivity. Qed.
Lemma exec_lazy {A} a p (k : position → option A) : exec (Lazy a) p k = loop false (exec a) k (length (rest p)) p.
Proof. reflexivity. Qed.

(** A matcher of one expression is exact for a reading relation. *)
Definition exact {A} (body : position → (position → option A) → option A) (R : position → position → Prop) : Prop :=
  (∀ p k x, body p k = Some x → ∃ q, R p q ∧ k q = Some x)
  ∧ (∀ p q k, R p q → is_Some (k q) → is_Some (body p k)).

Lemma loop_sound {A} greedy (body : position → (position → option A) → option A) a k :
  (∀ p k x, body p k = Some x → ∃ q, reads a p q ∧ k q = Some x) →
  ∀ fuel p x, loop greedy body k fuel p = Some x → ∃ q, iterates a p q ∧ k q = Some x.
Proof.
  intros Hb. induction fuel as [|fuel IH]; intros p x H.
  - assert (Hk : k p = Some x) by (cbn in H; destruct greedy; [done|by destruct (k p)]). eauto.
  - cbn in H. set (more := body p _) in *.
    assert (Hc : more = Some x ∨ k p = Some x) by (destruct greedy; [destruct more|destruct (k p)]; auto).
    destruct Hc as [Hm|Hk]; [|eauto]. apply Hb in Hm as (q & Hq & Hm). case_match; [|done].
    apply IH in Hm as (q2 & Hq2 & Hk). exists q2. split; [by eapply iterates_cons|done].
Qed.

(** Iterations that read nothing can be left out. *)
Lemma loop_complete {A} greedy (body : position → (position → option A) → option A) a k :
  (∀ p q k, reads a p q → is_Some (k q) → is_Some (body p k)) →
  ∀ p q, iterates a p q → is_Some (k q) → ∀ fuel, (length (rest p) <= fuel)%nat → is_Some (loop greedy body k fuel p).
Proof.
  intros Hb p q Hr Hk. remember a as a' eqn:Ea. induction Hr as [a0 p|a0 p q r Hr1 Hr2 IH]; intros fuel Hf; subst a0.
  - destruct fuel; cbn; destruct greedy; try case_match; try done; by rewrite H in Hk; destruct Hk.
  - destruct (reads_forward _ _ _ Hr1) as [->|[Hi Hlt]]; [by apply IH|].
    destruct fuel as [|fuel]; [lia|]. cbn -[Nat.ltb]. set (more := body p _).
    assert (Hm : is_Some more).
    { unfold more. apply (Hb p q); [done|]. assert (E : (index p <? index q)%nat = true) by by apply Nat.ltb_lt.
      rewrite E. apply IH; try done; lia. }
    destruct Hm as [x ->]. destruct greedy; [done|]. by destruct (k p).
Qed.

Ltac use_equations := repeat match goal with E : ?l = _ |- context [?l] => rewrite E end.

(** The matcher is exact. *)
Lemma exec_exact {A} r : exact (A := A) (exec r) (reads r).
Proof.
  induction r as [|f|a [IHa1 IHa2] b [IHb1 IHb2]|a [IHa1 IHa2] b [IHb1 IHb2]|a [IHa1 IHa2]|a [IHa1 IHa2]| | | |]; split.
  - intros p k x H. eauto.
  - intros p q k H Hk. inversion H; subst. cbn. by use_equations.
  - intros p k x H; cbn in H. case_match eqn:E; [done|]. case_match; [|done]. eauto.
  - intros p q k H Hk. inversion H; subst. cbn. by use_equations.
  - intros p k x H. cbn in H. apply IHa1 in H as (q & Hq & H). apply IHb1 in H as (q2 & Hq2 & H). eauto.
  - intros p q k H Hk. inversion H; subst. cbn. eapply IHa2; [done|]. by eapply IHb2.
  - intros p k x H. cbn in H. destruct (exec a p k) eqn:E.
    + simplify_eq. apply IHa1 in E as (q & Hq & H). eauto.
    + apply IHb1 in H as (q & Hq & H). eauto.
  - intros p q k H Hk. cbn. inversion H; subst; [destruct (IHa2 p q k) as [x ->]; eauto|].
    destruct (exec a p k); [eauto|]. by eapply IHb2.
  - intros p k x H. rewrite exec_star in H. apply (loop_sound _ _ a) in H as (q & Hq & H); [eauto|done].
  - intros p q k H Hk. rewrite exec_star. inversion H; subst. by eapply loop_complete.
  - intros p k x H. rewrite exec_lazy in H. apply (loop_sound _ _ a) in H as (q & Hq & H); [eauto|done].
  - intros p q k H Hk. rewrite exec_lazy. inversion H; subst. by eapply loop_complete.
  - intros p k x H. cbn in H. case_match eqn:E; [done|]. eauto.
  - intros p q k H Hk. inversion H; subst. cbn. by use_equations.
  - intros p k x H. cbn in H. case_match eqn:E; [|done]. eauto.
  - intros p q k H Hk. inversion H; subst. cbn. by use_equations.
  - intros p k x H. cbn in H. case_match; [|done]. eauto.
  - intros p q k H Hk. inversion H; subst. cbn. by use_equations.
  - intros p k x H. cbn in H. case_match; [|done]. eauto.
  - intros p q k H Hk. inversion H; subst. cbn. by use_equations.
Qed.

Lemma exec_sound {A} r p (k : position → option A) x : exec r p k = Some x → ∃ q, reads r p q ∧ k q = Some x.
Proof. apply exec_exact. Qed.
Lemma exec_complete {A} r p q (k : position → option A) : reads r p q → is_Some (k q) → is_Some (exec r p k).
Proof. apply exec_exact. Qed.

(** The positions of a text. *)
Fixpoint positions (p : position) (s : jsstr) : list position :=
  p :: match s with [] => [] | u :: s' => positions (next p u s') s' end.
Definition positions_of (s : jsstr) : list position := positions (start s) s.

Lemma search_spec r i b s :
  search r i b s = true ↔ ∃ p q, p ∈ positions {| index := i; before := b; rest := s |} s ∧ reads r p q.
Proof.
  revert i b. induction s as [|u s IH]; intros i b; cbn [search positions];
    (destruct (exec r {| index := i; before := b; rest := _ |} Some) as [e|] eqn:E;
     [apply exec_sound in E as (q & Hq & _); split; [intros _; eexists _, q; split; [by left|done]|done]|]).
  - split; [done|]. intros (p & q & Hp%list_elem_of_singleton & Hq); subst.
    destruct (exec_complete r _ q Some Hq) as [x Hx]; [done|by rewrite E in Hx].
  - rewrite IH. split; intros (p & q & Hp & Hq); [exists p, q; split; [by right|done]|].
    apply elem_of_cons in Hp as [->|Hp]; [|by exists p, q].
    destruct (exec_complete r _ q Some Hq) as [x Hx]; [done|by rewrite E in Hx].
Qed.

(** A character of a set that every reading of an expression takes. *)
Fixpoint needs (c : Z → Prop) (r : re) : Prop :=
  match r with
  | Chr f => ∀ u, f u = true → c u
  | Seq a b => needs c a ∨ needs c b
  | Alt a b => needs c a ∧ needs c b
  | _ => False
  end.

Lemma needs_seq c l r : r ∈ l → needs c r → needs c (seq l).
Proof.
  induction l as [|r' l IH]; intros Hin Hn; [by apply elem_of_nil in Hin|]. apply elem_of_cons in Hin as [->|Hin]; cbn.
  - destruct l; [done|by left].
  - destruct l; [by apply elem_of_nil in Hin|]. right. by apply IH.
Qed.
Lemma needs_alt c l : Forall (needs c) l → needs c (alt l).
Proof.
  induction 1 as [|r l Hr Hl IH]; [by intros u|]. cbn. destruct l; [done|by split].
Qed.
Lemma needs_lit (c : Z → Prop) w v : v ∈ js w → (∀ u, ascii_lower u = ascii_lower v → c u) → needs c (lit w).
Proof.
  intros Hv Hc. apply (needs_seq _ _ (Chr (λ u, ascii_lower u =? ascii_lower v))); [by apply list_elem_of_fmap; exists v|].
  intros u Hu%Z.eqb_eq. by apply Hc.
Qed.

(** What was read is a prefix of the text. *)
Lemma reads_suffix_both :
  (∀ r p q, reads r p q → rest q `suffix_of` rest p) ∧ (∀ a p q, iterates a p q → rest q `suffix_of` rest p).
Proof.
  apply reads_iterates_ind; intros; try done; try (by etrans). rewrite H. cbn. by apply suffix_cons_r.
Qed.
Lemma reads_suffix r p q : reads r p q → rest q `suffix_of` rest p.
Proof. apply reads_suffix_both. Qed.

Lemma Exists_suffix {A} (P : A → Prop) l1 l2 : l1 `suffix_of` l2 → Exists P l1 → Exists P l2.
Proof. intros [k ->] H. apply Exists_app. by right. Qed.

Lemma needs_reads c r p q : needs c r → reads r p q → Exists c (rest p).
Proof.
  revert p q. induction r; intros p q Hn Hr; try done; inversion Hr; subst; cbn in Hn.
  - by match goal with E : rest _ = _ |- _ => rewrite E end; constructor; apply Hn.
  - destruct Hn as [Hn|Hn]; [by eapply IHr1|]. eapply Exists_suffix; [by eapply reads_suffix|]. by eapply IHr2.
  - destruct Hn as [Hn _]. by eapply IHr1.
  - destruct Hn as [_ Hn]. by eapply IHr2.
Qed.

(** ** What a replacement leaves alone *)

Lemma exec_pattern_sound r p q e : exec_pattern r p = Some (q, e) → reads (keep r) p q ∧ reads (drop_ r) q e.
Proof.
  unfold exec_pattern. intros (q' & Hq & H)%exec_sound. case_match; [done|]. apply exec_sound in H as (e' & He & [= <- <-]). done.
Qed.

(** A text without a character the expression needs stays as it is. *)
Lemma replace_from_id fuel r by_ p c :
  needs c (keep r) ∨ needs c (drop_ r) → Forall (λ u, ¬ c u) (rest p) → replace_from fuel r by_ p = rest p.
Proof.
  intros Hn. revert p. induction fuel as [|fuel IH]; intros p Hs; [done|]. cbn [replace_from].
  destruct (exec_pattern r p) as [[q e]|] eqn:E.
  - exfalso. apply exec_pattern_sound in E as [Hk Hd]. assert (Hex : Exists c (rest p)).
    { destruct Hn as [Hn|Hn]; [by eapply needs_reads|].
      eapply Exists_suffix; [exact (reads_suffix _ _ _ Hk)|]. by eapply needs_reads. }
    apply Exists_exists in Hex as (u & Hu & Hc). by eapply Forall_forall in Hu; [|exact Hs].
  - destruct (rest p) as [|u s]; [done|]. inversion Hs; subst. by rewrite IH.
Qed.

Lemma replace_all_id r by_ s c :
  needs c (keep r) ∨ needs c (drop_ r) → Forall (λ u, ¬ c u) s → replace_all r by_ s = s.
Proof. intros Hn Hs. by apply (replace_from_id _ _ _ (start s) c). Qed.

(** One replacement. *)
Lemma replace_from_match fuel r by_ p q e :
  exec_pattern r p = Some (q, e) → (index p < index e)%nat →
  replace_from (S fuel) r by_ p = between p q ++ by_ ++ replace_from fuel r by_ e.
Proof. intros E Hi. cbn [replace_from]. rewrite E. by rewrite (proj2 (Nat.ltb_lt _ _) Hi). Qed.

(** The position after [n] characters at none of which the pattern reads anything. *)
Fixpoint skip (n : nat) (r : pattern) (p : position) : option position :=
  match n with
  | O => Some p
  | S n => match exec_pattern r p, rest p with None, u :: s => skip n r (next p u s) | _, _ => None end
  end.

Lemma replace_from_skip n fuel r by_ p q :
  skip n r p = Some q → replace_from (n + fuel) r by_ p = take n (rest p) ++ replace_from fuel r by_ q.
Proof.
  revert p. induction n as [|n IH]; intros p H; cbn in H |- *; [by injection H as ->|].
  destruct (exec_pattern r p); [done|]. destruct (rest p) as [|u s] eqn:Er; [done|].
  rewrite (IH _ H). reflexivity.
Qed.

(** Testing decides the meaning of an expression: a text passes exactly when the expression
    reads something between two of its positions; in particular the search always ends. *)
Theorem test_decides r s : test r s = true ↔ ∃ p q, p ∈ positions_of s ∧ reads r p q.
Proof. apply search_spec. Qed.

End Regex.
