(* ===== verification/Json.v ===== *)
(** * JSON

    [JSON.parse] and [JSON.stringify] on the values the modelled code builds and reads.  A
    number is kept as the text it was written with: nothing modelled computes with one. *)
From S2P Require Import Prelude JsMap JsString.

Module Json.

(** The members of an object are in order and distinct. *)
Inductive json := j_null | j_bool (b : bool) | j_number (text : jsstr) | j_string (s : jsstr) | j_array (l : list json)
                | j_object (members : list (jsstr * json)).

(** Induction with the items of arrays and objects. *)
Section Induction.
Context (P : json → Prop) (Hnull : P j_null) (Hbool : ∀ b, P (j_bool b)) (Hnum : ∀ t, P (j_number t))
  (Hstr : ∀ s, P (j_string s)) (Harr : ∀ l, Forall P l → P (j_array l))
  (Hobj : ∀ m, Forall (λ kv, P kv.2) m → P (j_object m)).
Fixpoint json_ind' (v : json) : P v :=
  match v with
  | j_null => Hnull | j_bool b => Hbool b | j_number t => Hnum t | j_string s => Hstr s
  | j_array l => Harr l ((fix go (l : list json) : Forall P l :=
                            match l with [] => Forall_nil_2 _ | x :: l => Forall_cons_2 _ _ _ (json_ind' x) (go l) end) l)
  | j_object m => Hobj m ((fix go (m : list (jsstr * json)) : Forall (λ kv, P kv.2) m :=
                             match m with [] => Forall_nil_2 _ | kv :: m => Forall_cons_2 _ _ _ (json_ind' kv.2) (go m) end) m)
  end.
End Induction.

(** ** Writing *)

Definition hex_digit (n : Z) : Z := if n <? 10 then 48 + n else 87 + n.
(** [\uXXXX] *)
Definition hex4 (u : Z) : jsstr :=
  [92; 117; hex_digit (u / 4096); hex_digit (u / 256 mod 16); hex_digit (u / 16 mod 16); hex_digit (u mod 16)].

(** The letter of a short escape, and what it stands for. *)
Definition short_escapes : list (Z * Z) := [(34, 34); (92, 92); (98, 8); (102, 12); (110, 10); (114, 13); (116, 9)].
Definition letter_of (u : Z) : option Z := fst <$> find (λ p, u =? p.2) short_escapes.

(** [extra] are characters that are written as [\uXXXX] although JSON does not ask for it. *)
Section Stringify.
Context (extra : Z → bool).

Definition escape_unit (u : Z) : jsstr :=
  match letter_of u with
  | Some c => [92; c]
  | None => if (u <? 32) || extra u then hex4 u else [u]
  end.

(** A surrogate that is not part of a pair is escaped. *)
Fixpoint escape (s : jsstr) : jsstr :=
  match s with
  | [] => []
  | u :: s1 =>
      if is_high u then
        match s1 with
        | v :: s2 => if is_low v then u :: v :: escape s2 else hex4 u ++ escape s1
        | [] => hex4 u
        end
      else if is_low u then hex4 u ++ escape s1
      else escape_unit u ++ escape s1
  end.
Definition quote (s : jsstr) : jsstr := [34] ++ escape s ++ [34].

Fixpoint stringify_with (v : json) : jsstr :=
  match v with
  | j_null => js "null"
  | j_bool true => js "true"
  | j_bool false => js "false"
  | j_number t => t
  | j_string s => quote s
  | j_array l => [91] ++ join [44] (stringify_with <$> l) ++ [93]
  | j_object m => [123] ++ join [44] ((λ kv, quote kv.1 ++ [58] ++ stringify_with kv.2) <$> m) ++ [125]
  end.
End Stringify.

(** [JSON.stringify(v)] *)
Definition stringify (v : json) : jsstr := stringify_with (const false) v.

(** ** Reading *)

Definition is_json_ws (u : Z) : bool := (u =? 32) || (u =? 9) || (u =? 10) || (u =? 13).
Fixpoint skip_ws (s : jsstr) : jsstr := match s with u :: s' => if is_json_ws u then skip_ws s' else s | [] => [] end.

Definition is_digit (u : Z) : bool := (48 <=? u) && (u <=? 57).
Definition hex_value (u : Z) : option Z :=
  if is_digit u then Some (u - 48) else if (97 <=? u) && (u <=? 102) then Some (u - 87)
  else if (65 <=? u) && (u <=? 70) then Some (u - 55) else None.

Definition cons_fst (u : Z) (r : option (jsstr * jsstr)) : option (jsstr * jsstr) := (λ p, (u :: p.1, p.2)) <$> r.

(** The rest of a string literal after its opening quote. *)
Fixpoint parse_string (s : jsstr) : option (jsstr * jsstr) :=
  match s with
  | [] => None
  | u :: s1 =>
      if u =? 34 then Some ([], s1)
      else if u =? 92 then
        match s1 with
        | [] => None
        | c :: s2 =>
            match (if c =? 47 then Some 47 else snd <$> find (λ p, c =? p.1) short_escapes) with
            | Some v => cons_fst v (parse_string s2)
            | None =>
                if c =? 117 then
                  match s2 with
                  | a :: b :: c :: d :: s3 =>
                      match hex_value a, hex_value b, hex_value c, hex_value d with
                      | Some a, Some b, Some c, Some d => cons_fst (a * 4096 + b * 256 + c * 16 + d) (parse_string s3)
                      | _, _, _, _ => None
                      end
                  | _ => None
                  end
                else None
            end
        end
      else if u <? 32 then None
      else cons_fst u (parse_string s1)
  end.

(** The longest prefix of characters that can be part of a number: a number is followed by none. *)
Definition number_char (u : Z) : bool := is_digit u || (u =? 45) || (u =? 43) || (u =? 46) || (u =? 101) || (u =? 69).
Fixpoint span (f : Z → bool) (s : jsstr) : jsstr * jsstr :=
  match s with
  | u :: s' => if f u then (u :: (span f s').1, (span f s').2) else ([], s)
  | [] => ([], [])
  end.

Definition some_digits (s : jsstr) : option jsstr := match span is_digit s with ([], _) => None | (_, r) => Some r end.
(** An optional sign, an integer without leading zeros, an optional fraction and exponent. *)
Definition valid_number (s : jsstr) : bool :=
  let s := match s with u :: s' => if u =? 45 then s' else s | [] => s end in
  let int := match s with u :: s' => if u =? 48 then Some s' else some_digits s | [] => None end in
  let frac := match int with Some (u :: s') => if u =? 46 then some_digits s' else int | _ => int end in
  let exp := match frac with
             | Some (u :: s') =>
                 if (u =? 101) || (u =? 69) then
                   some_digits (match s' with v :: s'' => if (v =? 43) || (v =? 45) then s'' else s' | [] => s' end)
                 else frac
             | _ => frac end in
  bool_decide (exp = Some []).

Section Composite.
Context (pv : jsstr → option (json * jsstr)).

(** The items of an array that is not empty, and the members of an object, to the closing bracket. *)
Fixpoint items (n : nat) (s : jsstr) : option (list json * jsstr) :=
  match n with
  | O => None
  | S n =>
      match pv s with
      | None => None
      | Some (v, s1) =>
          match skip_ws s1 with
          | u :: s2 => if u =? 93 then Some ([v], s2)
                       else if u =? 44 then (λ r, (v :: r.1, r.2)) <$> items n s2 else None
          | [] => None
          end
      end
  end.

Definition member (s : jsstr) : option (jsstr * json * jsstr) :=
  match skip_ws s with
  | q :: s1 =>
      if q =? 34 then
        match parse_string s1 with
        | None => None
        | Some (k, s2) =>
            match skip_ws s2 with
            | c :: s3 => if c =? 58 then match pv s3 with Some (v, r) => Some (k, v, r) | None => None end else None
            | [] => None
            end
        end
      else None
  | [] => None
  end.

Fixpoint members_to (n : nat) (s : jsstr) : option (list (jsstr * json) * jsstr) :=
  match n with
  | O => None
  | S n =>
      match member s with
      | None => None
      | Some (k, v, s1) =>
          match skip_ws s1 with
          | u :: s2 => if u =? 125 then Some ([(k, v)], s2)
                       else if u =? 44 then (λ r, ((k, v) :: r.1, r.2)) <$> members_to n s2 else None
          | [] => None
          end
      end
  end.
End Composite.

(** A later member of the same name replaces the value of the earlier one. *)
Definition object_of (l : list (jsstr * json)) : json := j_object (foldl (λ m kv, mset kv.1 kv.2 m) [] l).

Definition keyword (w : string) (v : json) (s : jsstr) : option (json * jsstr) :=
  if startsWith (js w) s then Some (v, drop (length (js w)) s) else None.

Fixpoint parse_value (fuel : nat) (s : jsstr) : option (json * jsstr) :=
  match fuel with
  | O => None
  | S fuel =>
      match skip_ws s with
      | [] => None
      | (u :: s1) as s0 =>
          if u =? 34 then (λ r, (j_string r.1, r.2)) <$> parse_string s1
          else if u =? 91 then
            match skip_ws s1 with
            | v :: s2 => if v =? 93 then Some (j_array [], s2) else (λ r, (j_array r.1, r.2)) <$> items (parse_value fuel) fuel s1
            | [] => None
            end
          else if u =? 123 then
            match skip_ws s1 with
            | v :: s2 => if v =? 125 then Some (j_object [], s2)
                         else (λ r, (object_of r.1, r.2)) <$> members_to (parse_value fuel) fuel s1
            | [] => None
            end
          else if number_char u then
            let '(t, r) := span number_char s0 in if valid_number t then Some (j_number t, r) else None
          else match keyword "null" j_null s0 with
          | Some r => Some r
          | None => match keyword "true" (j_bool true) s0 with
                    | Some r => Some r
                    | None => keyword "false" (j_bool false) s0 end
          end
      end
  end.

(** [JSON.parse(s)]; [None] is the [SyntaxError]. *)
Definition parse (s : jsstr) : option json :=
  match parse_value (S (length s)) s with
  | Some (v, r) => match skip_ws r with [] => Some v | _ => None end
  | None => None
  end.

(** ** Reading back what was written *)

(** ** Reading a value *)

(** [value.key]; [None] is [undefined]. *)
Definition prop (key : string) (v : json) : option json := match v with j_object m => mget (js key) m | _ => None end.
(** [value && typeof value === "object"] *)
Definition is_object (v : json) : bool := match v with j_array _ | j_object _ => true | _ => false end.
(** [a ?? b] *)
Definition nullish (a b : option json) : option json := match a with None | Some j_null => b | _ => a end.
Definition string_is (v : option json) (s : string) : bool :=
  match v with Some (j_string t) => str_eqb t (js s) | _ => false end.

(** A value a program can hold: its strings are UTF-16 units, the names of an object distinct. *)
Fixpoint json_ok (v : json) : Prop :=
  match v with
  | j_null | j_bool _ => True
  | j_number t => valid_number t = true ∧ forallb number_char t = true
  | j_string s => forallb is_unit s = true
  | j_array l => foldr (λ v P, json_ok v ∧ P) True l
  | j_object m => NoDup m.*1 ∧ foldr (λ kv P, (forallb is_unit kv.1 = true ∧ json_ok kv.2) ∧ P) True m
  end.

Definition example_value : json :=
  j_object [(js "a", j_array [j_number (js "-2.5e+3"); j_bool true; j_null; j_array []]);
            (js "b", j_string ([34; 92; 10; 1; 0xD83D; 0xDE00; 0xD800] ++ js "<&>")); (js "c", j_object [])].
Example parse_example : parse (stringify example_value) = Some example_value.
Proof. vm_compute. reflexivity. Qed.
Example parse_spaces : parse (js " [ 0 , {} ] ") = Some (j_array [j_number (js "0"); j_object []]) ∧ parse (js "[01]") = None
  ∧ parse (js "[1,]") = None.
Proof. repeat split; vm_compute; reflexivity. Qed.

Lemma hex_digit_value n : 0 <= n < 16 → hex_value (hex_digit n) = Some n.
Proof.
  intros H. unfold hex_digit, hex_value, is_digit. destruct (Z.ltb_spec n 10).
  - rewrite (proj2 (andb_true_iff _ _)); [f_equal; lia|]. rewrite !Z.leb_le. lia.
  - rewrite (proj2 (andb_false_iff _ _)); [|right; apply Z.leb_gt; lia].
    rewrite (proj2 (andb_true_iff _ _)); [f_equal; lia|]. rewrite !Z.leb_le. lia.
Qed.

Lemma parse_hex4 u t : is_unit u = true → parse_string (hex4 u ++ t) = cons_fst u (parse_string t).
Proof.
  intros Hu. unfold is_unit in Hu. bool_prop. cbn [hex4 app parse_string].
  rewrite !hex_digit_value; try (apply Z.mod_pos_bound; lia); [|split; [apply Z.div_pos; lia|apply Z.div_lt_upper_bound; lia]].
  cbn. f_equal. pose proof (Z.div_mod u 16). pose proof (Z.div_mod (u / 16) 16). pose proof (Z.div_mod (u / 256) 16).
  rewrite !Z.div_div in * by lia. lia.
Qed.

(** The characters that have a short escape are read back from it. *)
Lemma parse_short u c t : letter_of u = Some c → parse_string ([92; c] ++ t) = cons_fst u (parse_string t).
Proof.
  unfold letter_of. cbn. intros H.
  repeat match type of H with context [if u =? ?a then _ else _] => destruct (Z.eqb_spec u a) as [->|]; [cbn in H; injection H as <-; reflexivity|] end.
  done.
Qed.

Lemma letter_none u : letter_of u = None → u ≠ 34 ∧ u ≠ 92.
Proof. intros H. split; intros ->; vm_compute in H; done. Qed.

Lemma parse_raw u t : letter_of u = None → (u <? 32) = false → parse_string (u :: t) = cons_fst u (parse_string t).
Proof. intros [Hq Hb]%letter_none Hc. cbn. by rewrite (proj2 (Z.eqb_neq _ _) Hq), (proj2 (Z.eqb_neq _ _) Hb), Hc. Qed.

Lemma surrogate_letter u : is_high u = true ∨ is_low u = true → letter_of u = None ∧ (u <? 32) = false.
Proof.
  intros H. assert (Hu : 0xD800 <= u) by (unfold is_high, is_low in H; destruct H; bool_prop; lia).
  split; [|apply Z.ltb_ge; lia]. unfold letter_of. cbn. rewrite !(proj2 (Z.eqb_neq _ _)) by lia. done.
Qed.

Lemma span_app f t r : forallb f t = true → match r with u :: _ => f u = false | [] => True end → span f (t ++ r) = (t, r).
Proof.
  induction t as [|u t IH]; cbn; intros Ht Hr.
  - destruct r as [|u r]; [done|]. cbn. by rewrite Hr.
  - apply andb_true_iff in Ht as [Hu Ht]. rewrite Hu. by rewrite IH.
Qed.

(** Where a value may end. *)
Definition stops (r : jsstr) : Prop := match r with u :: _ => number_char u = false | [] => True end.

Lemma skip_ws_head u t : is_json_ws u = false → skip_ws (u :: t) = u :: t.
Proof. intros H. cbn. by rewrite H. Qed.

Lemma Forall_mp {A} (P Q : A → Prop) l : Forall (λ x, P x → Q x) l → Forall P l → Forall Q l.
Proof. intros H HP. induction HP as [|x l Hx _ IH]; inversion H; subst; constructor; auto. Qed.

Section RoundTrip.
Context (extra : Z → bool).

Lemma parse_escape_unit u t : is_unit u = true → parse_string (escape_unit extra u ++ t) = cons_fst u (parse_string t).
Proof.
  intros Hu. unfold escape_unit. destruct (letter_of u) as [c|] eqn:E; [by apply parse_short|].
  destruct (u <? 32) eqn:Ec; [by apply parse_hex4|]. cbn. destruct (extra u); [by apply parse_hex4|by apply parse_raw].
Qed.

Lemma parse_escape s r : forallb is_unit s = true → parse_string (escape extra s ++ 34 :: r) = Some (s, r).
Proof.
  induction s as [|u s IH1 IH2] using str_ind2; [done|]. cbn [forallb escape]. intros [Hu Hs]%andb_true_iff.
  destruct (is_high u) eqn:Hh.
  - destruct s as [|v s']; [by rewrite parse_hex4|]. destruct (is_low v) eqn:Hv.
    + destruct (surrogate_letter u (or_introl Hh)), (surrogate_letter v (or_intror Hv)).
      cbn [app]. rewrite !parse_raw by done. cbn [forallb] in Hs. apply andb_true_iff in Hs as [_ Hs].
      by rewrite (IH2 v s' eq_refl Hs).
    + rewrite <-app_assoc, parse_hex4 by done. by rewrite (IH1 Hs).
  - destruct (is_low u) eqn:Hl; rewrite <-app_assoc.
    + rewrite parse_hex4 by done. by rewrite (IH1 Hs).
    + rewrite parse_escape_unit by done. by rewrite (IH1 Hs).
Qed.

(** Every value begins with a character of its own. *)
Lemma stringify_head v : json_ok v → ∃ u t, stringify_with extra v = u :: t ∧ is_json_ws u = false ∧ u ≠ 93 ∧ u ≠ 125.
Proof.
  destruct v as [|[]|t|s|l|m]; intros H; try (eexists _, _; split; [reflexivity|done]).
  destruct t as [|u t]; [by destruct H|]. destruct H as [_ H]. exists u, t. split; [done|]. cbn in H. apply andb_true_iff in H as [H _].
  unfold number_char, is_digit, is_json_ws in *. lia.
Qed.

Definition reads_back (fuel : nat) (v : json) : Prop :=
  ∀ r, json_ok v → stops r → parse_value fuel (stringify_with extra v ++ r) = Some (v, r).

Lemma join_two {A} (f : A → jsstr) sep x y l :
  join sep (f <$> x :: y :: l) = f x ++ sep ++ join sep (f <$> y :: l).
Proof. reflexivity. Qed.

Lemma items_back fuel n v l r : (length (v :: l) <= n)%nat → Forall (reads_back fuel) (v :: l) → Forall json_ok (v :: l) →
  items (parse_value fuel) n (join [44] (stringify_with extra <$> v :: l) ++ 93 :: r) = Some (v :: l, r).
Proof.
  revert v n. induction l as [|v' l IH]; intros v n Hn Hb Hok; (destruct n as [|n]; [cbn in Hn; lia|]); inversion Hb; inversion Hok; subst.
  - cbn [fmap list_fmap join items]. by rewrite (H1 (93 :: r)).
  - rewrite join_two, <-!app_assoc. cbn [app items]. rewrite (H1 (44 :: _)) by done.
    rewrite (skip_ws_head 44) by done. change (44 =? 93) with false. change (44 =? 44) with true.
    cbv beta iota zeta. rewrite (IH v' n); [done|cbn in *; lia|done|done].
Qed.

Definition member_text (kv : jsstr * json) : jsstr := quote extra kv.1 ++ [58] ++ stringify_with extra kv.2.

Lemma member_back fuel k v r : reads_back fuel v → forallb is_unit k = true → json_ok v → stops r →
  member (parse_value fuel) (member_text (k, v) ++ r) = Some (k, v, r).
Proof.
  intros Hb Hk Hv Hr. unfold member, member_text, quote. cbn [fst snd]. rewrite <-!app_assoc. cbn [app]. rewrite (skip_ws_head 34) by done.
  rewrite Z.eqb_refl, parse_escape by done. rewrite (skip_ws_head 58) by done. by rewrite Z.eqb_refl, (Hb r).
Qed.

Lemma members_back fuel n kv m r : (length (kv :: m) <= n)%nat →
  Forall (λ kv, reads_back fuel kv.2) (kv :: m) → Forall (λ kv, forallb is_unit kv.1 = true ∧ json_ok kv.2) (kv :: m) →
  members_to (parse_value fuel) n
    (join [44] (member_text <$> kv :: m) ++ 125 :: r) = Some (kv :: m, r).
Proof.
  revert kv n. induction m as [|kv' m IH]; intros [k v] n Hn Hb Hok; (destruct n as [|n]; [cbn in Hn; lia|]);
    inversion Hb as [|? ? Hv Hm]; inversion Hok as [|? ? [Hk Hj] Hoks]; subst; cbn [fst snd] in *.
  - cbn [fmap list_fmap join members_to]. by rewrite (member_back fuel k v (125 :: r)).
  - rewrite join_two, <-!(app_assoc _ _ (125 :: r)). cbn [app members_to].
    rewrite (member_back fuel k v (44 :: _)) by done. rewrite (skip_ws_head 44) by done.
    change (44 =? 125) with false. change (44 =? 44) with true. cbv beta iota zeta. rewrite (IH kv' n); [done|cbn in *; lia|done|done].
Qed.

Lemma object_of_distinct m : NoDup m.*1 → object_of m = j_object m.
Proof.
  intros H. unfold object_of. f_equal. enough (E : ∀ acc, NoDup (acc ++ m).*1 → foldl (λ m kv, mset kv.1 kv.2 m) acc m = acc ++ m) by by apply (E []).
  clear H. induction m as [|[k v] m IH]; intros acc H; cbn; [by rewrite app_nil_r|].
  rewrite mset_keys_absent; [rewrite IH|].
  - by rewrite <-app_assoc.
  - by rewrite <-app_assoc.
  - apply mget_None. rewrite fmap_app in H. apply NoDup_app in H as (_ & H & _). intros Hin. apply (H k Hin). by left.
Qed.
Lemma join_length {A} (f : A → jsstr) (l : list A) :
  (length l <= S (length (join [44%Z] (f <$> l))))%nat ∧ Forall (λ x, (length (f x) <= length (join [44%Z] (f <$> l)))%nat) l.
Proof.
  induction l as [|x [|y l] [IHn IHl]]; [by split; [cbn; lia|constructor]|split; [cbn; lia|by repeat constructor]|].
  rewrite join_two, !length_app. cbn [length] in *. split; [lia|]. constructor; [lia|].
  eapply Forall_impl; [exact IHl|]. cbn beta. intros z Hz. lia.
Qed.

Lemma member_text_length kv : (length (stringify_with extra kv.2) <= length (member_text kv))%nat.
Proof. unfold member_text. rewrite !length_app. lia. Qed.

Lemma json_ok_array l : json_ok (j_array l) → Forall json_ok l.
Proof. induction l as [|v l IH]; [done|]. intros [Hv Hl]. constructor; auto. Qed.
Lemma json_ok_object m : json_ok (j_object m) → NoDup m.*1 ∧ Forall (λ kv, forallb is_unit kv.1 = true ∧ json_ok kv.2) m.
Proof. intros [H Hm]. split; [done|]. clear H. induction m as [|kv m IH]; [done|]. destruct Hm as [Hkv Hm]. constructor; auto. Qed.

Lemma parse_value_number fuel t r : json_ok (j_number t) → stops r →
  parse_value (S fuel) (t ++ r) = Some (j_number t, r).
Proof.
  intros [Hv Ht] Hr. destruct t as [|u t]; [done|].
  assert (Hu : number_char u = true) by (cbn in Ht; by apply andb_true_iff in Ht as [? _]).
  assert (Hw : is_json_ws u = false ∧ u ≠ 34 ∧ u ≠ 91 ∧ u ≠ 123) by (unfold number_char, is_digit, is_json_ws in *; lia).
  destruct Hw as (Hw & H1 & H2 & H3). cbn [parse_value]. cbn [app]. rewrite (skip_ws_head u) by done.
  rewrite (proj2 (Z.eqb_neq u 34) H1), (proj2 (Z.eqb_neq u 91) H2), (proj2 (Z.eqb_neq u 123) H3), Hu.
  change (u :: t ++ r) with ((u :: t) ++ r). rewrite (span_app _ _ r) by done. by rewrite Hv.
Qed.

Lemma array_back fuel l r : Forall json_ok l → stops r → (length l <= fuel)%nat ∧ Forall (reads_back fuel) l →
  parse_value (S fuel) (stringify_with extra (j_array l) ++ r) = Some (j_array l, r).
Proof.
  intros Hok Hr [Hn Hb]. destruct l as [|v l]; [reflexivity|]. cbn [stringify_with].
  rewrite <-!app_assoc. cbn [app parse_value]. rewrite skip_ws_head by done. change (91 =? 34) with false. change (91 =? 91) with true.
  cbv beta iota zeta.
  destruct (stringify_head v) as (u & t & Hu & Hw & H93 & _); [by inversion Hok|].
  assert (Hj : ∃ t', join [44] (stringify_with extra <$> v :: l) ++ 93 :: r = u :: t').
  { destruct l; [cbn; rewrite Hu; eauto|]. rewrite join_two, Hu. eauto. }
  destruct Hj as [t' Hj]. rewrite Hj, skip_ws_head, (proj2 (Z.eqb_neq _ _) H93), <-Hj by done.
  by rewrite items_back.
Qed.

Lemma object_back fuel m r : NoDup m.*1 → Forall (λ kv, forallb is_unit kv.1 = true ∧ json_ok kv.2) m → stops r →
  (length m <= fuel)%nat ∧ Forall (λ kv, reads_back fuel kv.2) m →
  parse_value (S fuel) (stringify_with extra (j_object m) ++ r) = Some (j_object m, r).
Proof.
  intros Hnd Hok Hr [Hn Hb]. destruct m as [|kv m]; [reflexivity|].
  change (stringify_with extra (j_object (kv :: m))) with ([123] ++ join [44] (member_text <$> kv :: m) ++ [125]).
  rewrite <-!app_assoc. cbn [app parse_value]. rewrite skip_ws_head by done. change (123 =? 34) with false.
  change (123 =? 91) with false. change (123 =? 123) with true. cbv beta iota zeta.
  assert (Hj : ∃ t', join [44] (member_text <$> kv :: m) ++ 125 :: r = 34 :: t').
  { destruct m; [|rewrite join_two]; cbn; eauto. }
  destruct Hj as [t' Hj]. rewrite Hj, skip_ws_head by done. change (34 =? 125) with false. cbv beta iota. rewrite <-Hj.
  rewrite members_back by done. cbn [fmap option_fmap option_map fst snd]. by rewrite object_of_distinct.
Qed.

Lemma parse_stringify_with v : ∀ fuel, (length (stringify_with extra v) < fuel)%nat → reads_back fuel v.
Proof.
  induction v as [|b|t|s|l IH|m IH] using json_ind'; intros fuel Hf r Hok Hr; (destruct fuel as [|fuel]; [lia|]).
  - reflexivity.
  - by destruct b.
  - by apply parse_value_number.
  - cbn [stringify_with parse_value]. unfold quote. rewrite <-!app_assoc. cbn [app]. rewrite skip_ws_head by done.
    rewrite Z.eqb_refl. by rewrite parse_escape.
  - apply json_ok_array in Hok. apply array_back; [done|done|]. cbn [stringify_with] in Hf. rewrite !length_app in Hf. cbn [length] in Hf.
    destruct (join_length (stringify_with extra) l) as [Hn Hl]. split; [lia|]. apply Forall_forall. intros x Hx.
    eapply Forall_forall in IH; [|exact Hx]. eapply Forall_forall in Hl; [|exact Hx]. apply IH. cbn beta in Hl. lia.
  - apply json_ok_object in Hok as [Hnd Hok]. apply object_back; [done|done|done|].
    change (stringify_with extra (j_object m)) with ([123] ++ join [44] (member_text <$> m) ++ [125]) in Hf.
    rewrite !length_app in Hf. cbn [length] in Hf. destruct (join_length member_text m) as [Hn Hl].
    split; [lia|]. apply Forall_forall. intros x Hx.
    eapply Forall_forall in IH; [|exact Hx]. eapply Forall_forall in Hl; [|exact Hx].
    apply IH. cbn beta in Hl. pose proof (member_text_length x). lia.
Qed.

(** What was written is read back. *)
Lemma parse_stringify v : json_ok v → parse (stringify_with extra v) = Some v.
Proof.
  intros Hok. unfold parse. pose proof (parse_stringify_with v (S (length (stringify_with extra v))) ltac:(lia) [] Hok I) as H.
  rewrite app_nil_r in H. by rewrite H.
Qed.
End RoundTrip.

End Json.
