(* ===== verification/VerifyPolicy.v ===== *)
(** * Verification: eligibility and the hardened verdict

    Models [aira/verification/eligibility.ts] (when the end of a run is verified),
    [requirements.ts] (the bounds on what the verifying model emits) and the
    normalization of the verdict in [verifier.ts]. *)
From S2P Require Import Prelude JsMap JsString OrchTypes Policy Presentation Ownership VerifyTypes Regex Json.

Module VerifyPolicy.
Import VerifyTypes Regex Json.
Notation AiraChangeFile := Ownership.AiraChangeFile.

(** ** Eligibility *)

Definition MAX_TRIVIAL_CODE_DELTA_LINES : Z := 2.
Definition MAX_CHANGE_PATHS_FOR_CLASSIFICATION : Z := 200.

Definition slashes : re := Chr (λ u, (u =? 47) || (u =? 92)).
Definition no_slash : re := Chr (λ u, negb ((u =? 47) || (u =? 92))).
Definition at_start : re := alt [Bol; slashes].
Definition at_end : re := alt [slashes; Eol].

Definition DOC_PATH_RE : re := alt
  [ seq [at_start; alt [seq [lit "doc"; opt (lit "s")]; lit "doc"; lit "documentation"]; at_end];
    seq [lit "."; lits ["md"; "markdown"; "txt"; "rst"; "adoc"]; alt [Eol; slashes]];
    lits ["readme"; "changelog"; "license"; "contributing"; "notice"; "copying"] ].

Definition DOC_NAME_RE : re :=
  seq [Bol; lits ["readme"; "changelog"; "license"; "licence"; "contributing"; "notice"; "copying"; "authors"; "codeowners"];
       opt (seq [lit "."; Star no_slash]); Eol].

Definition CONFIG_DECLARATION_RE : re := alt
  [ seq [at_start; lits [".github"; ".vscode"; ".idea"]; at_end];
    seq [lit "."; alt [seq [lit "json"; opt (lit "5")]; seq [lit "y"; opt (lit "a"); lit "ml"]; lit "toml"; lit "editorconfig";
                       lit "gitignore"; lit "gitattributes"; lit "npmrc"; lit "prettierrc"; lit "eslintignore"; lit "prettierignore";
                       lit "dockerignore"];
         alt [Eol; slashes]] ].

Definition isDocLikePath (path : jsstr) : bool :=
  let normalized := Ownership.backslash_to_slash path in
  test DOC_PATH_RE normalized || test DOC_NAME_RE normalized || test CONFIG_DECLARATION_RE normalized.

Definition positive (z : Z) : Z := if 0 <? z then z else 0.

Definition isTrivialImplementationChange (files : list AiraChangeFile) (diagnosticsClean : option bool) : bool :=
  if zlen files =? 0 then true
  else if MAX_CHANGE_PATHS_FOR_CLASSIFICATION <? zlen files then false
  else
    let nonDoc := filter (λ f, isDocLikePath (Ownership.path f) = false) files in
    match nonDoc with
    | [] => true
    | [file] =>
        bool_decide (diagnosticsClean = Some true)
        && (positive (Ownership.added_lines file) + positive (Ownership.deleted_lines file) <=? MAX_TRIVIAL_CODE_DELTA_LINES)
        && (0 <? Ownership.added_lines file + Ownership.deleted_lines file)
    | _ => false
    end.

Record run_decision := { run : bool; rd_reason : jsstr }.

Definition decideAutomaticVerification (auto : AiraVerificationAutoSetting) (workHappened : bool) (files : list AiraChangeFile)
    (diagnosticsClean : option bool) : run_decision :=
  if negb workHappened then {| run := false; rd_reason := js "no implementation work in the ended run" |}
  else if bool_decide (auto = v_off) then {| run := false; rd_reason := js "verification.auto is off" |}
  else if bool_decide (auto = v_smart) && isTrivialImplementationChange files diagnosticsClean then
    {| run := false; rd_reason := js "trivial change (smart mode skips verifier tokens)" |}
  else {| run := true; rd_reason := if bool_decide (auto = v_always) then js "always mode" else js "non-trivial implementation (smart mode)" |}.

(** ** Requirements *)

Definition MAX_VERIFICATION_REQUIREMENTS : Z := 8.
Definition MAX_REQUIREMENT_TEXT_CHARS : Z := 400.
Definition MAX_FINDINGS : Z := 12.
Definition MAX_FINDING_MESSAGE_CHARS : Z := 400.
Definition MAX_FINDING_EVIDENCE_CHARS : Z := 300.
Definition MAX_EVIDENCE_ITEMS : Z := 12.
Definition MAX_EVIDENCE_LABEL_CHARS : Z := 120.
Definition MAX_EVIDENCE_SUMMARY_CHARS : Z := 300.
Definition MAX_MISSING_EVIDENCE_ITEMS : Z := 8.
Definition MAX_MISSING_EVIDENCE_CHARS : Z := 200.
Definition MAX_SCOPE_NOTES : Z := 4.
Definition MAX_SCOPE_NOTE_CHARS : Z := 300.

Definition boundedString (value : option json) (max : Z) : option jsstr :=
  match value with
  | Some (j_string s) => let trimmed := trim s in if zlen trimmed =? 0 then None else Some (bound_text max trimmed)
  | _ => None
  end.

(** [for (const raw of value) { if (out.length >= max) break; … }] where the body may append. *)
Fixpoint collect {A} (max : Z) (body : list A → json → option A) (out : list A) (l : list json) : list A :=
  match l with
  | [] => out
  | raw :: l' => if max <=? zlen out then out
                 else collect max body (match body out raw with Some x => out ++ [x] | None => out end) l'
  end.
Definition collect_array {A} (max : Z) (body : list A → json → option A) (value : option json) : list A :=
  match value with Some (j_array l) => collect max body [] l | _ => [] end.

Definition requirement_kind (v : option json) : AiraRequirementKind := if string_is v "inferred" then inferred else explicit.
Definition requirement_status (v : option json) : AiraRequirementStatus :=
  if string_is v "verified" then verified else if string_is v "unmet" then unmet else unverifiable.

(** [seen] is the set of the ids that were pushed. *)
Definition normalize_requirement (out : list AiraVerificationRequirement) (raw : json) : option AiraVerificationRequirement :=
  if negb (is_object raw) then None
  else match boundedString (prop "text" raw) MAX_REQUIREMENT_TEXT_CHARS with
  | None => None
  | Some text =>
      let own := match prop "id" raw with Some (j_string s) => trim s | _ => [] end in
      let id := match own with [] => js "R" ++ num_str (zlen out + 1) | _ => own end in
      if bool_decide (id ∈ req_id <$> out) then None
      else Some {| req_id := id; req_text := text; req_kind := requirement_kind (prop "kind" raw);
                   req_status := requirement_status (prop "status" raw) |}
  end.
Definition normalizeVerificationRequirements (value : option json) : list AiraVerificationRequirement :=
  collect_array MAX_VERIFICATION_REQUIREMENTS normalize_requirement value.

Definition finding_severity (v : option json) : AiraFindingSeverity :=
  if string_is v "blocking" then blocking else if string_is v "info" then info else warning.
Definition normalize_finding (out : list AiraVerificationFinding) (raw : json) : option AiraVerificationFinding :=
  if negb (is_object raw) then None
  else match boundedString (prop "message" raw) MAX_FINDING_MESSAGE_CHARS with
  | None => None
  | Some message =>
      Some {| severity := finding_severity (prop "severity" raw); requirementId := boundedString (prop "requirementId" raw) 24;
              message := message; evidence := boundedString (prop "evidence" raw) MAX_FINDING_EVIDENCE_CHARS |}
  end.
Definition normalizeFindings (value : option json) : list AiraVerificationFinding :=
  collect_array MAX_FINDINGS normalize_finding value.

Definition evidence_category (v : option json) : AiraEvidenceCategory :=
  if string_is v "repository" then e_repository else if string_is v "language" then e_language
  else if string_is v "execution" then e_execution else if string_is v "browser" then e_browser
  else if string_is v "git" then e_git else e_verifier.
Definition normalize_evidence (out : list AiraVerificationEvidenceItem) (raw : json) : option AiraVerificationEvidenceItem :=
  if negb (is_object raw) then None
  else match boundedString (nullish (prop "summary" raw) (prop "text" raw)) MAX_EVIDENCE_SUMMARY_CHARS with
  | None => None
  | Some summary =>
      Some {| category := evidence_category (prop "category" raw);
              label := default [] (boundedString (prop "label" raw) MAX_EVIDENCE_LABEL_CHARS); ev_summary := summary |}
  end.
Definition normalizeEvidenceItems (value : option json) : list AiraVerificationEvidenceItem :=
  collect_array MAX_EVIDENCE_ITEMS normalize_evidence value.

Definition normalizeMissingEvidence (value : option json) : list jsstr :=
  collect_array MAX_MISSING_EVIDENCE_ITEMS
    (λ out raw, match boundedString (Some raw) MAX_MISSING_EVIDENCE_CHARS with
                | Some text => if bool_decide (text ∈ out) then None else Some text
                | None => None end) value.

Definition normalizeScopeAssessment (value : option json) : AiraVerificationScopeAssessment :=
  match value with
  | Some v =>
      if negb (is_object v) then {| scope_verdict := uncertain; notes := [] |}
      else {| scope_verdict := if string_is (prop "verdict" v) "in-scope" then in_scope
                               else if string_is (prop "verdict" v) "drift" then drift else uncertain;
              notes := collect_array MAX_SCOPE_NOTES (λ _ raw, boundedString (Some raw) MAX_SCOPE_NOTE_CHARS) (prop "notes" v) |}
  | None => {| scope_verdict := uncertain; notes := [] |}
  end.

(** [{ total, verified }] *)
Definition countRequirementStatuses (requirements : list AiraVerificationRequirement) : Z * Z :=
  (zlen requirements, zlen (filter (λ r, req_status r = verified) requirements)).

(** ** The hardened verdict *)

Definition MAX_VERIFIER_SUMMARY_CHARS : Z := 600.

Record AiraVerifierModelVerdict := {
  mv_verdict : AiraVerificationVerdict; mv_summary : jsstr; mv_requirements : list AiraVerificationRequirement;
  mv_findings : list AiraVerificationFinding; mv_evidence : list AiraVerificationEvidenceItem; mv_missingEvidence : list jsstr;
  mv_scopeAssessment : AiraVerificationScopeAssessment; mv_confidence : confidence_level }.

Definition boundSummaryText (value : jsstr) : jsstr := bound_text MAX_VERIFIER_SUMMARY_CHARS (trim value).

Definition normalizeVerifierVerdict (value : json) : AiraVerifierModelVerdict :=
  let requirements := normalizeVerificationRequirements (prop "requirements" value) in
  let findings := normalizeFindings (prop "findings" value) in
  let evidence := normalizeEvidenceItems (prop "evidence" value) in
  let missingEvidence := normalizeMissingEvidence (prop "missingEvidence" value) in
  let scopeAssessment := normalizeScopeAssessment (prop "scope" value) in
  let confidence := if string_is (prop "confidence" value) "medium" then medium
                    else if string_is (prop "confidence" value) "high" then high else low in
  let rawVerdict := if string_is (prop "verdict" value) "pass" then pass
                    else if string_is (prop "verdict" value) "fail" then fail else inconclusive in
  let summary := match prop "summary" value with
                 | Some (j_string s) => boundSummaryText s
                 | _ => match requirements with
                        | [] => js "No requirements mapped."
                        | _ => num_str (countRequirementStatuses requirements).2 ++ js "/" ++ num_str (zlen requirements)
                               ++ js " requirements verified"
                        end
                 end in
  let unmet_ones := filter (λ r, req_status r = unmet) requirements in
  let '(verdict, hardenedSummary) :=
    if bool_decide (rawVerdict = pass) && (0 <? zlen unmet_ones) then
      (fail, js "Verifier reported pass but listed " ++ num_str (zlen unmet_ones) ++ js " unmet requirement(s); treating as FAIL: "
             ++ join (js ", ") (req_id <$> unmet_ones))
    else if bool_decide (rawVerdict = pass) && (zlen evidence =? 0) then
      (inconclusive, js "Verifier claimed completion without concrete evidence; treating as INCONCLUSIVE.")
    else (rawVerdict, summary) in
  {| mv_verdict := verdict; mv_summary := hardenedSummary; mv_requirements := requirements; mv_findings := findings;
     mv_evidence := evidence; mv_missingEvidence := missingEvidence; mv_scopeAssessment := scopeAssessment;
     mv_confidence := confidence |}.


(** ** What a normalized verdict promises *)

Definition bounded_text (n : Z) (s : jsstr) : Prop := s ≠ [] ∧ zlen s <= n ∧ trim s = s.
Definition opt_bounded (n : Z) (s : option jsstr) : Prop := ∀ t, s = Some t → bounded_text n t.

Record verdict_wf (v : AiraVerifierModelVerdict) : Prop := {
  wf_requirements_count : zlen (mv_requirements v) <= MAX_VERIFICATION_REQUIREMENTS;
  wf_requirement_ids : NoDup (req_id <$> mv_requirements v);
  wf_requirements : Forall (λ r, req_id r ≠ [] ∧ bounded_text MAX_REQUIREMENT_TEXT_CHARS (req_text r)) (mv_requirements v);
  wf_findings_count : zlen (mv_findings v) <= MAX_FINDINGS;
  wf_findings : Forall (λ f, bounded_text MAX_FINDING_MESSAGE_CHARS (message f) ∧ opt_bounded 24 (requirementId f)
                             ∧ opt_bounded MAX_FINDING_EVIDENCE_CHARS (evidence f)) (mv_findings v);
  wf_evidence_count : zlen (mv_evidence v) <= MAX_EVIDENCE_ITEMS;
  wf_evidence : Forall (λ e, bounded_text MAX_EVIDENCE_SUMMARY_CHARS (ev_summary e)
                             ∧ zlen (label e) <= MAX_EVIDENCE_LABEL_CHARS) (mv_evidence v);
  wf_missing_count : zlen (mv_missingEvidence v) <= MAX_MISSING_EVIDENCE_ITEMS;
  wf_missing_distinct : NoDup (mv_missingEvidence v);
  wf_missing : Forall (bounded_text MAX_MISSING_EVIDENCE_CHARS) (mv_missingEvidence v);
  wf_notes_count : zlen (notes (mv_scopeAssessment v)) <= MAX_SCOPE_NOTES;
  wf_notes : Forall (bounded_text MAX_SCOPE_NOTE_CHARS) (notes (mv_scopeAssessment v));
  wf_pass : mv_verdict v = pass → mv_evidence v ≠ [] ∧ Forall (λ r, req_status r ≠ unmet) (mv_requirements v) }.

Lemma boundedString_ok n v t : 2 <= n → boundedString v n = Some t → bounded_text n t.
Proof.
  intros Hn H. destruct v as [[]|]; try done. cbn in H. case_match eqn:E; [done|]. injection H as <-.
  apply Z.eqb_neq in E. split; [|split].
  - intros Hb. apply E. unfold bound_text in Hb. case_match; [by rewrite Hb|]. by apply app_nil in Hb as [_ ?].
  - apply bound_text_le. lia.
  - apply trim_bound_text; [done|]. apply trim_idem.
Qed.

(** What a bounded loop keeps: at most [max] items, each of which the body made of what was there. *)
Lemma collect_inv {A} (P : list A → Prop) max (body : list A → json → option A) l out :
  (∀ o raw x, P o → body o raw = Some x → P (o ++ [x])) → P out → P (collect max body out l).
Proof.
  intros Hb. revert out. induction l as [|raw l IH]; intros out Ho; [done|]. cbn. case_match; [done|].
  apply IH. case_match eqn:E; [by eapply Hb|done].
Qed.

Lemma collect_count {A} max (body : list A → json → option A) l out :
  zlen out <= max → zlen (collect max body out l) <= max.
Proof.
  revert out. induction l as [|raw l IH]; intros out Ho; [done|]. cbn. case_match eqn:E; [done|].
  apply Z.leb_gt in E. apply IH. case_match; [rewrite zlen_app, zlen_cons, zlen_nil; lia|done].
Qed.

Lemma collect_array_count {A} max (body : list A → json → option A) v : 0 <= max → zlen (collect_array max body v) <= max.
Proof. intros H. destruct v as [[]|]; try done. by apply collect_count. Qed.

Lemma collect_array_inv {A} (P : list A → Prop) max (body : list A → json → option A) v :
  P [] → (∀ o raw x, P o → body o raw = Some x → P (o ++ [x])) → P (collect_array max body v).
Proof. intros H0 Hb. destruct v as [[]|]; try done. by apply (collect_inv P). Qed.

Lemma collect_array_forall {A} (P : A → Prop) max (body : list A → json → option A) v :
  (∀ o raw x, body o raw = Some x → P x) → Forall P (collect_array max body v).
Proof.
  intros Hb. apply collect_array_inv; [done|]. intros o raw x Ho Hx. apply Forall_app. split; [done|].
  constructor; [by eapply Hb|done].
Qed.

Lemma collect_array_nodup {A B} (f : A → B) max (body : list A → json → option A) v :
  (∀ o raw x, body o raw = Some x → f x ∉ f <$> o) → NoDup (f <$> collect_array max body v).
Proof.
  intros Hb. apply (collect_array_inv (λ l, NoDup (f <$> l))); [constructor|]. intros o raw x Ho Hx.
  rewrite fmap_app. apply NoDup_app. split; [done|]. split; [|apply NoDup_singleton].
  intros y Hy Hin%list_elem_of_singleton. subst. by eapply Hb.
Qed.

Lemma normalize_requirement_ok o raw x : normalize_requirement o raw = Some x →
  (req_id x ≠ [] ∧ bounded_text MAX_REQUIREMENT_TEXT_CHARS (req_text x)) ∧ req_id x ∉ req_id <$> o.
Proof.
  unfold normalize_requirement. intros H. case_match; [done|]. case_match eqn:Et; [|done].
  apply boundedString_ok in Et; [|done].
  destruct (match prop "id" raw with Some (j_string s) => trim s | _ => [] end) as [|u own] eqn:Eo;
    case_bool_decide as Ei; try done; injection H as <-; cbn; (split; [split|]); done.
Qed.

Lemma normalize_finding_ok o raw x : normalize_finding o raw = Some x →
  bounded_text MAX_FINDING_MESSAGE_CHARS (message x) ∧ opt_bounded 24 (requirementId x)
  ∧ opt_bounded MAX_FINDING_EVIDENCE_CHARS (evidence x).
Proof.
  unfold normalize_finding. intros H. case_match; [done|]. case_match eqn:Et; [|done]. injection H as <-. cbn.
  split; [by eapply boundedString_ok|]. by split; intros t Ht; eapply boundedString_ok.
Qed.

Lemma normalize_evidence_ok o raw x : normalize_evidence o raw = Some x →
  bounded_text MAX_EVIDENCE_SUMMARY_CHARS (ev_summary x) ∧ zlen (label x) <= MAX_EVIDENCE_LABEL_CHARS.
Proof.
  unfold normalize_evidence. intros H. case_match; [done|]. case_match eqn:Et; [|done]. injection H as <-. cbn.
  split; [by eapply boundedString_ok|].
  destruct (boundedString (prop "label" raw) MAX_EVIDENCE_LABEL_CHARS) eqn:El; [|done].
  by apply boundedString_ok in El as (_ & ? & _).
Qed.

Lemma scope_notes v : notes (normalizeScopeAssessment v) = [] ∨
  ∃ n, notes (normalizeScopeAssessment v) = collect_array MAX_SCOPE_NOTES (λ _ raw, boundedString (Some raw) MAX_SCOPE_NOTE_CHARS) n.
Proof.
  destruct v as [v|]; [|by left]. unfold normalizeScopeAssessment. destruct (is_object v); [right|by left].
  by exists (prop "notes" v).
Qed.

Lemma filter_unmet_nil l : zlen (filter (λ r, req_status r = unmet) l) = 0 ↔ Forall (λ r, req_status r ≠ unmet) l.
Proof.
  split.
  - intros H%zlen_0. apply Forall_forall. intros r Hr Hu.
    assert (Hin : r ∈ filter (λ r, req_status r = unmet) l) by by apply list_elem_of_filter. rewrite H in Hin. by apply elem_of_nil in Hin.
  - intros H. induction H as [|r l Hr _ IH]; [done|]. by rewrite filter_cons_False.
Qed.

(** Only what the model calls a pass can be a PASS, and only with evidence and nothing unmet. *)
Lemma pass_iff v :
  mv_verdict (normalizeVerifierVerdict v) = pass ↔
  string_is (prop "verdict" v) "pass" = true
  ∧ Forall (λ r, req_status r ≠ unmet) (normalizeVerificationRequirements (prop "requirements" v))
  ∧ normalizeEvidenceItems (prop "evidence" v) ≠ [].
Proof.
  unfold normalizeVerifierVerdict. cbv zeta. rewrite <-filter_unmet_nil.
  set (n := zlen (filter _ _)). set (e := normalizeEvidenceItems _).
  assert (Hn : 0 <= n) by apply zlen_nonneg.
  assert (He : zlen e = 0 ↔ e = []) by (split; [apply zlen_0|by intros ->]).
  destruct (string_is (prop "verdict" v) "pass"), (string_is (prop "verdict" v) "fail"), (Z.ltb_spec 0 n), (Z.eqb_spec (zlen e) 0);
    cbn; intuition (try done; try lia; try congruence).
Qed.

Lemma mv_fields v :
  let w := normalizeVerifierVerdict v in
  mv_requirements w = normalizeVerificationRequirements (prop "requirements" v)
  ∧ mv_findings w = normalizeFindings (prop "findings" v) ∧ mv_evidence w = normalizeEvidenceItems (prop "evidence" v)
  ∧ mv_missingEvidence w = normalizeMissingEvidence (prop "missingEvidence" v)
  ∧ mv_scopeAssessment w = normalizeScopeAssessment (prop "scope" v).
Proof. cbv zeta. unfold normalizeVerifierVerdict. cbv zeta. by case_match. Qed.

(** Whatever JSON object the verifying model emits, the canonical verdict is well formed: at
    most 8 requirements with distinct non-empty ids, 12 findings, 12 evidence items, 8 distinct
    missing-evidence lines and 4 notes, every text trimmed, non-empty and within its bound; and a
    PASS carries evidence and no unmet requirement. *)
Theorem normalized_verdict_wf v : verdict_wf (normalizeVerifierVerdict v).
Proof.
  pose proof (pass_iff v) as Hp. set (w := normalizeVerifierVerdict v) in *.
  destruct (mv_fields v) as (Er & Ef & Ee & Em & Es). fold w in Er, Ef, Ee, Em, Es.
  clearbody w. constructor; rewrite ?Er, ?Ef, ?Ee, ?Em, ?Es.
  - by apply collect_array_count.
  - apply collect_array_nodup. intros o raw x [_ H]%normalize_requirement_ok. done.
  - apply collect_array_forall. intros o raw x [H _]%normalize_requirement_ok. done.
  - by apply collect_array_count.
  - apply collect_array_forall. intros o raw x H%normalize_finding_ok. done.
  - by apply collect_array_count.
  - apply collect_array_forall. intros o raw x H%normalize_evidence_ok. done.
  - by apply collect_array_count.
  - rewrite <-(list_fmap_id (normalizeMissingEvidence _)). apply collect_array_nodup. intros o raw x H.
    rewrite list_fmap_id. case_match; [|done]. case_bool_decide; [done|]. by simplify_eq.
  - apply collect_array_forall. intros o raw x H. case_match eqn:E; [|done]. case_bool_decide; [done|]. simplify_eq.
    by eapply boundedString_ok.
  - destruct (scope_notes (prop "scope" v)) as [->|[n ->]]; [done|]. by apply collect_array_count.
  - destruct (scope_notes (prop "scope" v)) as [->|[n ->]]; [constructor|].
    apply collect_array_forall. intros o raw x E. by eapply boundedString_ok.
  - intros (_ & Hu & He)%Hp. done.
Qed.

(** ** What the verdict lets through *)

(** An answer of the model: a requirement the model calls [R2], then an unmet one without an id. *)
Definition raw_requirement (own_id : option jsstr) (text : jsstr) (status : string) : json :=
  j_object (match own_id with Some i => [(js "id", j_string i)] | None => [] end
            ++ [(js "text", j_string text); (js "status", j_string (js status))]).
Definition raw_pass (requirements : list json) (items : json) : json :=
  j_object [(js "verdict", j_string (js "pass")); (js "requirements", j_array requirements); (js "evidence", items)].
Definition colliding_answer (t1 t2 : jsstr) (items : json) : json :=
  raw_pass [raw_requirement (Some (js "R2")) t1 "verified"; raw_requirement None t2 "unmet"] items.

Lemma boundedString_some n t : trim t ≠ [] → boundedString (Some (j_string t)) n = Some (bound_text n (trim t)).
Proof. intros H. cbn. case_match eqn:E; [|done]. by apply Z.eqb_eq, zlen_0 in E. Qed.

(** What the loop makes of such an item. *)
Lemma normalize_raw out own t status : trim t ≠ [] →
  normalize_requirement out (raw_requirement own t status)
  = let id := match own with Some i => match trim i with [] => js "R" ++ num_str (zlen out + 1) | _ => trim i end
              | None => js "R" ++ num_str (zlen out + 1) end in
    if bool_decide (id ∈ req_id <$> out) then None
    else Some {| req_id := id; req_text := bound_text MAX_REQUIREMENT_TEXT_CHARS (trim t); req_kind := explicit;
                 req_status := requirement_status (Some (j_string (js status))) |}.
Proof.
  intros H. unfold normalize_requirement.
  assert (E : prop "text" (raw_requirement own t status) = Some (j_string t)) by (by destruct own).
  rewrite E, (boundedString_some _ _ H). destruct own; reflexivity.
Qed.

(** An unmet requirement can vanish from a PASS: the id made up for a requirement without one
    may be an id the model gave to an earlier requirement, and the later one is then dropped as a
    duplicate, together with its [unmet]. *)
Theorem unmet_requirement_vanishes t1 t2 items
    (H1 : trim t1 ≠ []) (H2 : trim t2 ≠ []) (He : normalizeEvidenceItems (Some items) ≠ []) :
  let w := normalizeVerifierVerdict (colliding_answer t1 t2 items) in
  mv_verdict w = pass ∧ (req_status <$> mv_requirements w) = [verified].
Proof.
  assert (Hr : normalizeVerificationRequirements (prop "requirements" (colliding_answer t1 t2 items))
               = [{| req_id := js "R2"; req_text := bound_text MAX_REQUIREMENT_TEXT_CHARS (trim t1);
                     req_kind := explicit; req_status := verified |}]).
  { lazymatch goal with |- _ = ?rhs => change (collect MAX_VERIFICATION_REQUIREMENTS normalize_requirement [] [raw_requirement (Some (js "R2")) t1 "verified"; raw_requirement None t2 "unmet"] = rhs) end.
    set (first := {| req_id := js "R2"; req_text := bound_text MAX_REQUIREMENT_TEXT_CHARS (trim t1); req_kind := explicit; req_status := verified |}).
    assert (E1 : normalize_requirement [] (raw_requirement (Some (js "R2")) t1 "verified") = Some first) by (by rewrite normalize_raw).
    assert (E2 : normalize_requirement [first] (raw_requirement None t2 "unmet") = None) by (by rewrite normalize_raw).
    cbn [collect]. rewrite E1. cbn [app]. rewrite E2. reflexivity. }
  cbv zeta. split.
  - apply pass_iff. rewrite Hr. split; [reflexivity|]. split; [by repeat constructor|]. exact He.
  - unfold normalizeVerifierVerdict. cbv zeta. rewrite Hr. case_match. reflexivity.
Qed.

Lemma unmet_requirement_vanishes_witness :
  mv_verdict (normalizeVerifierVerdict
    (colliding_answer (js "tests pass") (js "the migration is reversible")
       (j_array [j_object [(js "summary", j_string (js "npm test"))]]))) = pass.
Proof.
  refine (proj1 (unmet_requirement_vanishes _ _ _ _ _ _)); apply (bool_decide_unpack _); vm_compute; exact I.
Defined.

(** Nor is the length of an id, and so of the summary of a hardened verdict, bounded. *)
Lemma hardened_summary_unbounded n : 0 <= n → ∃ v, mv_verdict (normalizeVerifierVerdict v) = fail ∧ n <= zlen (mv_summary (normalizeVerifierVerdict v)).
Proof.
  intros Hn. set (id := repeat 120 (S (Z.to_nat n))).
  assert (Ht : trim id = id).
  { unfold id, trim. rewrite (trimStart_id (repeat _ _)) by reflexivity. rewrite rev_repeat, trimStart_id by reflexivity. by rewrite rev_repeat. }
  exists (raw_pass [raw_requirement (Some id) (js "x") "unmet"] j_null).
  set (v := raw_pass _ _).
  assert (Hr : normalizeVerificationRequirements (prop "requirements" v)
               = [{| req_id := id; req_text := js "x"; req_kind := explicit; req_status := unmet |}]).
  { lazymatch goal with |- _ = ?rhs => change (collect MAX_VERIFICATION_REQUIREMENTS normalize_requirement [] [raw_requirement (Some id) (js "x") "unmet"] = rhs) end.
    cbn [collect]. rewrite normalize_raw by done. cbv zeta. rewrite Ht. unfold id at 1. cbn [repeat]. fold id. reflexivity. }
  assert (E : ∃ w, normalizeVerifierVerdict v = w ∧ mv_verdict w = fail ∧
    mv_summary w = (js "Verifier reported pass but listed " ++ num_str 1 ++ js " unmet requirement(s); treating as FAIL: ") ++ id).
  { unfold normalizeVerifierVerdict. cbv zeta. rewrite Hr. eexists. split; [reflexivity|]. split; reflexivity. }
  destruct E as (w & -> & Hw & Hsum). split; [done|]. rewrite Hsum, zlen_app.
  assert (Hl : zlen id = n + 1) by (unfold id, zlen; rewrite repeat_length; lia). rewrite Hl.
  match goal with |- _ <= zlen ?l + _ => pose proof (zlen_nonneg l) end. lia.
Qed.

(** ** Which changes are trivial *)

Lemma lit_reads w p s t : rest p = s ++ t → Presentation.ascii_lower <$> s = Presentation.ascii_lower <$> js w →
  ∃ q, reads (lit w) p q.
Proof.
  unfold lit. generalize (js w) as l. intros l. revert p s. induction l as [|c l IH]; intros p s Hp H.
  - exists p. constructor.
  - destruct s as [|u s]; [done|]. injection H as Hu Hs. destruct (IH (next p u (s ++ t)) s eq_refl Hs) as [q Hq].
    cbn. destruct l as [|c' l]; [exists (next p u (s ++ t)); econstructor; [exact Hp|by apply Z.eqb_eq]|].
    exists q. econstructor; [econstructor; [exact Hp|by apply Z.eqb_eq]|exact Hq].
Qed.

Lemma alt_reads l r p q : r ∈ l → reads r p q → reads (alt l) p q.
Proof.
  induction l as [|r' l IH]; intros Hin Hr; [by apply elem_of_nil in Hin|]. apply elem_of_cons in Hin as [->|H]; cbn.
  - destruct l; [done|by apply reads_alt_l].
  - destruct l; [by apply elem_of_nil in H|]. apply reads_alt_r. by apply IH.
Qed.

Lemma positions_app p s t : rest p = s ++ t → ∃ q, q ∈ positions p (s ++ t) ∧ rest q = t.
Proof.
  revert p. induction s as [|u s IH]; intros p Hp.
  - exists p. split; [destruct t; by left|done].
  - destruct (IH (next p u (s ++ t)) eq_refl) as (q & Hq & Ht). exists q. split; [by right|done].
Qed.

Definition DOC_WORDS : list string := ["readme"; "changelog"; "license"; "contributing"; "notice"; "copying"].

(** A path is documentation as soon as one of these words is anywhere in it. *)
Lemma doc_word_is_doc w a s c : w ∈ DOC_WORDS → Presentation.ascii_lower <$> s = Presentation.ascii_lower <$> js w →
  Ownership.backslash_to_slash s = s → isDocLikePath (a ++ s ++ c) = true.
Proof.
  intros Hw Hs Hb. unfold isDocLikePath. cbv zeta. apply orb_true_iff. left. apply orb_true_iff. left.
  unfold test. apply search_spec. unfold Ownership.backslash_to_slash in *. rewrite !fmap_app, Hb.
  set (f := λ u, if u =? 92 then 47 else u).
  destruct (positions_app (start ((f <$> a) ++ s ++ (f <$> c))) (f <$> a) (s ++ (f <$> c)) eq_refl) as (p & Hp & Hrest).
  destruct (lit_reads w p s (f <$> c) Hrest Hs) as [q Hq]. exists p, q. split; [exact Hp|].
  unfold DOC_PATH_RE. eapply (alt_reads _ (lits DOC_WORDS)); [by do 2 right; left|].
  unfold lits. eapply alt_reads; [by apply list_elem_of_fmap_2|]. exact Hq.
Qed.

Lemma trivial_all_doc files d : zlen files <= MAX_CHANGE_PATHS_FOR_CLASSIFICATION →
  Forall (λ f, isDocLikePath (Ownership.path f) = true) files → isTrivialImplementationChange files d = true.
Proof.
  intros Hn Hd. unfold isTrivialImplementationChange. case_match; [done|]. rewrite (proj2 (Z.ltb_ge _ _) Hn).
  assert (E : filter (λ f, isDocLikePath (Ownership.path f) = false) files = []).
  { clear -Hd. induction Hd as [|f l Hf _ IH]; [done|]. by rewrite filter_cons_False by congruence. }
  by rewrite E.
Qed.

(** Smart mode never verifies a change (of at most 200 files) each of whose paths has one of
    the words readme, changelog, license, contributing, notice or copying anywhere in it: code
    such as [src/license-server.ts] counts as documentation, however much of it changed. *)
Theorem doc_words_skip_verification worked files clean
    (Hn : zlen files <= MAX_CHANGE_PATHS_FOR_CLASSIFICATION)
    (Hp : Forall (λ f, ∃ a w c, w ∈ DOC_WORDS ∧ Ownership.path f = a ++ js w ++ c) files) :
  run (decideAutomaticVerification v_smart worked files clean) = false.
Proof.
  unfold decideAutomaticVerification. destruct worked; [|done]. cbn. rewrite trivial_all_doc; [done|done|].
  eapply Forall_impl; [exact Hp|]. intros f (a & w & c & Hw & ->). apply (doc_word_is_doc w); [done|done|].
  repeat (apply elem_of_cons in Hw as [->|Hw]; [reflexivity|]). by apply elem_of_nil in Hw.
Qed.

Lemma doc_words_skip_verification_witness :
  run (decideAutomaticVerification v_smart true
         [{| Ownership.path := js "src/license-server.ts"; Ownership.status := Ownership.modified;
             Ownership.added_lines := 500; Ownership.deleted_lines := 300 |};
          {| Ownership.path := js "src/NoticeBoard/notice.ts"; Ownership.status := Ownership.added;
             Ownership.added_lines := 90; Ownership.deleted_lines := 0 |}] None) = false.
Proof.
  apply doc_words_skip_verification; [by vm_compute|]. repeat constructor.
  - exists (js "src/"), "license"%string, (js "-server.ts"). split; [by apply (bool_decide_unpack _)|reflexivity].
  - exists (js "src/NoticeBoard/"), "notice"%string, (js ".ts"). split; [by apply (bool_decide_unpack _)|reflexivity].
Defined.

(** What smart mode does verify: work on two files of code, or on one without clean diagnostics
    or with more than two changed lines. *)
Lemma code_change_verified files clean :
  MAX_CHANGE_PATHS_FOR_CLASSIFICATION < zlen files ∨ 2 <= zlen (filter (λ f, isDocLikePath (Ownership.path f) = false) files)
  ∨ (clean ≠ Some true ∧ ∃ f, f ∈ files ∧ isDocLikePath (Ownership.path f) = false) →
  run (decideAutomaticVerification v_smart true files clean) = true.
Proof.
  intros H. unfold decideAutomaticVerification. cbn. enough (E : isTrivialImplementationChange files clean = false) by by rewrite E.
  unfold isTrivialImplementationChange. case_match eqn:E0.
  { apply Z.eqb_eq, zlen_0 in E0 as ->. destruct H as [H|[H|(_ & f & Hf & _)]]; [done|done|]. by apply elem_of_nil in Hf. }
  case_match eqn:E1; [done|]. apply Z.ltb_ge in E1. destruct H as [H|[H|(Hc & f & Hf & Hd)]]; [lia| |].
  - destruct (filter _ files) as [|? [|]]; [done|done|done].
  - destruct (filter _ files) as [|? [|]] eqn:Ef; [|by rewrite bool_decide_eq_false_2|done].
    assert (Hin : f ∈ filter (λ f, isDocLikePath (Ownership.path f) = false) files) by by apply list_elem_of_filter.
    rewrite Ef in Hin. by apply elem_of_nil in Hin.
Qed.

End VerifyPolicy.
