(* ===== verification/ModelCall.v ===== *)
(** * Orchestration: model calls

    Models [aira/orchestration/model-call.ts]: the deadline of a run and the race of an awaited
    call against it, the messages of the bounded model and tool loops, and the extraction of the
    last JSON object of a text. *)
From S2P Require Import Prelude JsMap JsString OrchTypes Json Failures.

Module ModelCall.
Import Json.

(** ** Messages

    The blocks, calls and messages of the model client that the loops read.  Time stamps
    are left out; a diagnostic has the code of its error, when it has one, and its two details. *)
Record ToolCall := { call_id : jsstr; call_name : jsstr; call_arguments : option json }.
Inductive block := b_text (text : jsstr) | b_toolCall (call : ToolCall) | b_other.

Record Usage := { us_input : option Z; us_output : option Z; us_cacheRead : option Z; us_cacheWrite : option Z; us_totalTokens : option Z }.

Inductive stop_reason := s_stop | s_length | s_toolUse | s_error | s_aborted.
#[export] Instance stop_reason_eq_dec : EqDecision stop_reason.
Proof. solve_decision. Defined.

Record AssistantMessageDiagnostic := { dg_error : option Failures.field; dg_status : Failures.field; dg_statusCode : Failures.field }.
Record AssistantMessage := {
  am_content : list block; am_stopReason : stop_reason; am_errorMessage : option jsstr; am_usage : option Usage;
  am_model : jsstr; am_responseModel : option jsstr; am_diagnostics : option (list AssistantMessageDiagnostic) }.
Record ToolResultMessage := { tr_callId : jsstr; tr_name : jsstr; tr_content : list block; isError : bool }.
Inductive Message := m_user (text : jsstr) | m_assistant (m : AssistantMessage) | m_toolResult (r : ToolResultMessage).

(** [call.arguments ?? {}] *)
Definition arguments_of (call : ToolCall) : json := default j_null (nullish (call_arguments call) (Some (j_object []))).

Definition as_call (b : block) : option ToolCall := match b with b_toolCall c => Some c | _ => None end.
Definition as_text (b : block) : option jsstr := match b with b_text t => Some t | _ => None end.
Definition hasToolCalls (m : AssistantMessage) : bool := existsb (λ b, bool_decide (is_Some (as_call b))) (am_content m).
Definition toolCallsOf (m : AssistantMessage) : list ToolCall := omap as_call (am_content m).
Definition toolResultMessage (call : ToolCall) (content : list block) (isError : bool) : ToolResultMessage :=
  {| tr_callId := call_id call; tr_name := call_name call; tr_content := content; isError := isError |}.
Definition toolResultIsError (content : list block) : bool :=
  existsb (λ b, match b with b_text t => startsWith (js "Error") t | _ => false end) content.
Definition contentText (m : AssistantMessage) : jsstr := trim (join [10] (omap as_text (am_content m))).

(** ** The deadline of a run *)

Inductive AiraRunAbortKind := abort_timeout | abort_cancelled.
#[export] Instance AiraRunAbortKind_eq_dec : EqDecision AiraRunAbortKind.
Proof. solve_decision. Defined.

Record AiraRunDeadline := { kind : option AiraRunAbortKind; timer : bool; listening : bool }.

(** [signal_aborted]: the caller's signal, when it gave one, has aborted already. *)
Definition createAiraRunDeadline (signal : option bool) : AiraRunDeadline :=
  {| kind := match signal with Some true => Some abort_cancelled | _ => None end;
     timer := true; listening := bool_decide (signal = Some false) |}.

Definition abort (next : AiraRunAbortKind) (d : AiraRunDeadline) : AiraRunDeadline :=
  match kind d with
  | Some _ => d
  | None => {| kind := Some next; timer := timer d; listening := listening d |}
  end.

Definition dispose (d : AiraRunDeadline) : AiraRunDeadline := {| kind := kind d; timer := false; listening := false |}.

(** What happens while a call is awaited, in order: the timer or the caller's signal fires, the
    awaited promise settles. *)
Inductive happening (A : Type) := fires (k : AiraRunAbortKind) | resolves (a : A) | rejects (e : Failures.thrown).
Arguments fires {A} k.
Arguments resolves {A} a.
Arguments rejects {A} e.

Inductive settled (A : Type) := got (a : A) | threw (e : Failures.thrown) | aborted.
Arguments got {A} a.
Arguments threw {A} e.
Arguments aborted {A}.

(** [deadline.race(promise)]: the first of the happenings settles it, the ones after it only
    reach the deadline; if nothing else happens the timer does. *)
Fixpoint race {A} (d : AiraRunDeadline) (h : list (happening A)) : AiraRunDeadline * settled A :=
  match kind d with
  | Some _ => (d, aborted)
  | None =>
      match h with
      | [] => (abort abort_timeout d, aborted)
      | fires k :: _ => (abort k d, aborted)
      | resolves a :: later => (foldl (λ d x, match x with fires k => abort k d | _ => d end) d later, got a)
      | rejects e :: later => (foldl (λ d x, match x with fires k => abort k d | _ => d end) d later, threw e)
      end
  end.

(** ** The last object of a text *)

Record scan_state := { depth : Z; start : Z; last : option jsstr; inString : bool; escaped : bool }.

Definition slice (text : jsstr) (from upto : Z) : jsstr := take (Z.to_nat (upto - from)) (drop (Z.to_nat from) text).

(** The body of the loop. *)
Definition scan_char (text : jsstr) (st : scan_state) (index char : Z) : scan_state :=
  if inString st then
    if escaped st then {| depth := depth st; start := start st; last := last st; inString := true; escaped := false |}
    else if char =? 92 then {| depth := depth st; start := start st; last := last st; inString := true; escaped := true |}
    else if char =? 34 then {| depth := depth st; start := start st; last := last st; inString := false; escaped := false |}
    else st
  else if char =? 34 then {| depth := depth st; start := start st; last := last st; inString := true; escaped := escaped st |}
  else if char =? 123 then
    {| depth := depth st + 1; start := if depth st =? 0 then index else start st; last := last st; inString := false;
       escaped := escaped st |}
  else if (char =? 125) && (0 <? depth st) then
    if (depth st - 1 =? 0) && (0 <=? start st) then
      {| depth := depth st - 1; start := -1; last := Some (slice text (start st) (index + 1)); inString := false; escaped := escaped st |}
    else {| depth := depth st - 1; start := start st; last := last st; inString := false; escaped := escaped st |}
  else st.

Fixpoint scan (text : jsstr) (st : scan_state) (index : Z) (rest : jsstr) : scan_state :=
  match rest with
  | [] => st
  | char :: rest => scan text (scan_char text st index char) (index + 1) rest
  end.

Definition scan_start : scan_state := {| depth := 0; start := -1; last := None; inString := false; escaped := false |}.

Definition lastBalancedObject (text : jsstr) : option jsstr :=
  let st := scan text scan_start 0 text in
  if 0 <? depth st then None else last st.

(** ** What the scan finds *)

Lemma scan_app text st i a b : scan text st i (a ++ b) = scan text (scan text st i a) (i + zlen a) b.
Proof.
  revert st i. induction a as [|c a IH]; intros st i; cbn [app scan]; [by rewrite zlen_nil, Z.add_0_r|].
  rewrite IH, zlen_cons. by rewrite Z.add_assoc.
Qed.

(** Prose: no quote and no brace. *)
Definition plain (u : Z) : Prop := u ≠ 34 ∧ u ≠ 123 ∧ u ≠ 125.
#[global] Instance plain_dec u : Decision (plain u).
Proof. unfold plain. apply _. Defined.

Lemma scan_plain text st i l : inString st = false → Forall plain l → scan text st i l = st.
Proof.
  intros Hs H. revert i. induction H as [|u l (H1 & H2 & H3) _ IH]; intros i; [done|]. cbn [scan]. unfold scan_char.
  by rewrite Hs, (proj2 (Z.eqb_neq _ _) H1), (proj2 (Z.eqb_neq _ _) H2), (proj2 (Z.eqb_neq _ _) H3), IH.
Qed.

(** A text that leaves the scan as it was, within a string and within an object. *)
Definition neutral_in (l : jsstr) : Prop := ∀ text st i, inString st = true → escaped st = false → scan text st i l = st.
Definition neutral (l : jsstr) : Prop :=
  ∀ text st i, inString st = false → escaped st = false → 0 < depth st → 0 <= start st → scan text st i l = st.

Lemma neutral_in_app a b : neutral_in a → neutral_in b → neutral_in (a ++ b).
Proof. intros Ha Hb text st i H1 H2. by rewrite scan_app, Ha, Hb. Qed.
Lemma neutral_app a b : neutral a → neutral b → neutral (a ++ b).
Proof. intros Ha Hb text st i H1 H2 H3 H4. by rewrite scan_app, Ha, Hb. Qed.
Lemma neutral_plain l : Forall plain l → neutral l.
Proof. intros H text st i H1 _ _ _. by apply scan_plain. Qed.

Lemma scan_in_raw text st i u l : inString st = true → escaped st = false → u ≠ 34 → u ≠ 92 →
  scan text st i (u :: l) = scan text st (i + 1) l.
Proof.
  intros H1 H2 H3 H4. cbn [scan]. unfold scan_char. by rewrite H1, H2, (proj2 (Z.eqb_neq _ _) H3), (proj2 (Z.eqb_neq _ _) H4).
Qed.

Lemma neutral_in_raw u : u ≠ 34 → u ≠ 92 → neutral_in [u].
Proof. intros H3 H4 text st i H1 H2. by rewrite scan_in_raw. Qed.

Lemma neutral_in_escape c : neutral_in [92; c].
Proof. intros text [] i H1 H2. cbn in *. by subst. Qed.

Lemma hex_digit_raw n : 0 <= n < 16 → hex_digit n ≠ 34 ∧ hex_digit n ≠ 92.
Proof. unfold hex_digit. intros H. case_match; lia. Qed.

Lemma neutral_in_hex4 u : is_unit u = true → neutral_in (hex4 u).
Proof.
  intros Hu. unfold is_unit in Hu. bool_prop.
  assert (Hd : ∀ n, 0 <= n < 16 → neutral_in [hex_digit n]) by (intros n [? ?]%hex_digit_raw; by apply neutral_in_raw).
  apply (neutral_in_app [92; 117]); [apply neutral_in_escape|].
  apply (neutral_in_app [_]); [apply Hd; split; [apply Z.div_pos; lia|apply Z.div_lt_upper_bound; lia]|].
  do 2 (apply (neutral_in_app [_]); [apply Hd, Z.mod_pos_bound; lia|]). apply Hd, Z.mod_pos_bound. lia.
Qed.

Section Written.
Context (extra : Z → bool).

Lemma neutral_in_unit u : is_unit u = true → neutral_in (escape_unit extra u).
Proof.
  intros Hu. unfold escape_unit. destruct (letter_of u) eqn:E; [apply neutral_in_escape|].
  apply letter_none in E as [? ?]. case_match; [by apply neutral_in_hex4|by apply neutral_in_raw].
Qed.

Lemma neutral_in_surrogate u : is_high u = true ∨ is_low u = true → neutral_in [u].
Proof. intros H. destruct (surrogate_letter u H) as [[? ?]%letter_none _]. by apply neutral_in_raw. Qed.

Lemma neutral_in_escaped s : forallb is_unit s = true → neutral_in (escape extra s).
Proof.
  induction s as [|u s IH1 IH2] using str_ind2; [by intros _ text st i|]. cbn [forallb escape]. intros [Hu Hs]%andb_true_iff.
  destruct (is_high u) eqn:Hh.
  - destruct s as [|v s']; [by apply neutral_in_hex4|]. destruct (is_low v) eqn:Hv.
    + cbn [forallb] in Hs. apply andb_true_iff in Hs as [_ Hs].
      apply (neutral_in_app [u]); [apply neutral_in_surrogate; auto|].
      apply (neutral_in_app [v]); [apply neutral_in_surrogate; auto|]. by apply (IH2 v s').
    + apply neutral_in_app; [by apply neutral_in_hex4|auto].
  - destruct (is_low u); (apply neutral_in_app; [|auto]); [by apply neutral_in_hex4|by apply neutral_in_unit].
Qed.

Lemma neutral_quote s : forallb is_unit s = true → neutral (quote extra s).
Proof.
  intros Hs text [d st la ins esc] i H1 H2 H3 H4. cbn in H1, H2, H3, H4. subst. unfold quote. rewrite !scan_app. cbn [scan scan_char].
  rewrite (neutral_in_escaped s Hs) by done. done.
Qed.

Lemma neutral_join (l : list jsstr) : Forall neutral l → neutral (join [44] l).
Proof.
  induction 1 as [|x l Hx Hl IH]; [by intros text st i|]. destruct l as [|y l]; [done|].
  apply neutral_app; [done|]. apply (neutral_app [44]); [by apply neutral_plain; repeat constructor|done].
Qed.

Lemma neutral_member kv : forallb is_unit kv.1 = true → neutral (stringify_with extra kv.2) → neutral (member_text extra kv).
Proof.
  intros Hk Hv. apply neutral_app; [by apply neutral_quote|].
  apply (neutral_app [58]); [by apply neutral_plain; repeat constructor|exact Hv].
Qed.

(** The braces of an object. *)
Lemma scan_open text st i : inString st = false →
  scan_char text st i 123 = {| depth := depth st + 1; start := if depth st =? 0 then i else start st; last := last st;
                               inString := false; escaped := escaped st |}.
Proof. intros H. unfold scan_char. by rewrite H. Qed.

Lemma scan_close text st i : inString st = false → 0 < depth st → 0 <= start st →
  scan_char text st i 125 =
    if depth st - 1 =? 0 then {| depth := depth st - 1; start := -1; last := Some (slice text (start st) (i + 1));
                                 inString := false; escaped := escaped st |}
    else {| depth := depth st - 1; start := start st; last := last st; inString := false; escaped := escaped st |}.
Proof.
  intros H Hd Hs. unfold scan_char. rewrite H. change (125 =? 34) with false. change (125 =? 123) with false.
  rewrite (proj2 (Z.ltb_lt _ _) Hd), (proj2 (Z.leb_le _ _) Hs). cbn. by rewrite andb_true_r.
Qed.

Lemma neutral_braces l : neutral l → neutral ([123] ++ l ++ [125]).
Proof.
  intros Hl text [d st la ins esc] i H1 H2 H3 H4. cbn in H1, H2, H3, H4. subst. rewrite !scan_app. cbn [scan].
  rewrite scan_open by done. cbn [depth start last escaped]. rewrite (proj2 (Z.eqb_neq d 0)) by lia.
  rewrite Hl by (cbn; auto with lia). rewrite scan_close by (cbn; auto with lia). cbn [depth start last escaped].
  rewrite (proj2 (Z.eqb_neq (d + 1 - 1) 0)) by lia. f_equal. lia.
Qed.

Lemma number_plain t : forallb number_char t = true → Forall plain t.
Proof.
  induction t as [|u t IH]; [constructor|]. cbn [forallb]. intros [Hu Ht]%andb_true_iff. constructor; [|auto].
  unfold number_char, is_digit, plain in *. lia.
Qed.

Lemma neutral_value v : json_ok v → neutral (stringify_with extra v).
Proof.
  induction v as [|b|t|s|l IH|m IH] using json_ind'; intros Hok.
  - apply neutral_plain. by apply (bool_decide_unpack _).
  - apply neutral_plain. destruct b; by apply (bool_decide_unpack _).
  - apply neutral_plain, number_plain, Hok.
  - by apply neutral_quote.
  - apply json_ok_array in Hok. apply (neutral_app [91]); [by apply neutral_plain; repeat constructor|].
    apply neutral_app; [|by apply neutral_plain; repeat constructor]. apply neutral_join, Forall_fmap.
    by apply (Forall_mp json_ok).
  - apply json_ok_object in Hok as [_ Hok]. apply neutral_braces, neutral_join, Forall_fmap.
    eapply Forall_mp; [|exact Hok]. eapply Forall_impl; [exact IH|]. intros kv Hv [Hk Hj].
    apply (neutral_member kv); [exact Hk|exact (Hv Hj)].
Qed.

Lemma slice_middle (pre o post : jsstr) : slice (pre ++ o ++ post) (zlen pre) (zlen pre + zlen o) = o.
Proof.
  unfold slice, zlen. rewrite Nat2Z.id, drop_app_length. replace (Z.to_nat _) with (length o) by lia. apply take_app_length.
Qed.

(** Of a text with one written object between prose, the scan returns the object. *)
Lemma last_object pre m post : Forall plain pre → Forall plain post → json_ok (j_object m) →
  lastBalancedObject (pre ++ stringify_with extra (j_object m) ++ post) = Some (stringify_with extra (j_object m)).
Proof.
  intros Hpre Hpost Hok. set (o := stringify_with extra (j_object m)).
  assert (Ho : ∃ body, o = [123] ++ body ++ [125] ∧ neutral body).
  { eexists. split; [reflexivity|]. apply json_ok_object in Hok as [_ Hok]. apply neutral_join, Forall_fmap.
    eapply Forall_impl; [exact Hok|]. intros kv [Hk Hj]. apply (neutral_member kv); [exact Hk|by apply neutral_value]. }
  destruct Ho as (body & Ho & Hb). unfold lastBalancedObject. set (text := pre ++ o ++ post).
  assert (E : scan text scan_start 0 text = {| depth := 0; start := -1; last := Some o; inString := false; escaped := false |}).
  { unfold text at 2. rewrite !scan_app, (scan_plain _ _ _ pre) by done. rewrite Ho, !scan_app. cbn [scan]. rewrite scan_open by done.
    pose proof (zlen_nonneg pre).
    rewrite Hb by (cbn; first [done|lia]). rewrite scan_close by (cbn; first [done|lia]). cbn [depth start last escaped].
    change (0 + 1 - 1 =? 0) with true. cbv iota. rewrite scan_plain by done. f_equal. f_equal.
    transitivity (slice text (zlen pre) (zlen pre + zlen o)); [f_equal; rewrite ?Ho, ?zlen_app; change (zlen [123]) with 1; change (zlen [125]) with 1; lia|].
    rewrite <-Ho. apply slice_middle. }
  by rewrite E.
Qed.
End Written.

End ModelCall.
