(* ===== verification/Verifier.v ===== *)
(** * Verification: the verifier

    Models [aira/verification/verifier.ts]: the bounded loop of model calls and read-only tool
    calls, the extraction of the verdict from the final text and the failures of a run. *)
From S2P Require Import Prelude JsMap JsString OrchTypes VerifyTypes Regex Json VerifyPolicy Failures ModelCall.

Module Verifier.
Import Regex Json VerifyTypes VerifyPolicy ModelCall.

Definition DEFAULT_VERIFIER_TIMEOUT_MS : Z := 180000.
Definition MAX_VERIFIER_TOOL_ROUNDS : Z := 8.
Definition MAX_VERIFIER_TOOL_CALLS_PER_ROUND : Z := 2.
Definition MAX_VERIFIER_TOOL_EXTENSIONS : Z := 1.
Definition VERIFIER_TOOL_EXTENSION_CALLS : Z := 4.

(** The tool calls used, their limit and the extensions granted, when they are reported. *)
Definition telemetry : Type := option (Z * Z * Z).

Inductive AiraVerifierOutcome :=
| v_ok (verdict : AiraVerifierModelVerdict) (usage : option AiraChildTokenUsage) (budget : telemetry)
| v_fail (driverError : jsstr) (failureKind : AiraVerifierFailureKind) (budget : telemetry).

Record AiraVerifierOptions := {
  opt_envelope : jsstr; opt_timeoutMs : option Z; opt_maxToolRounds : option Z; opt_signal : option bool }.

(** ** The verdict in a text *)

(** The first position of [p] and after it at which [m] succeeds. *)
Fixpoint first_at {A} (m : position → option A) (p : position) (s : jsstr) : option A :=
  match m p with
  | Some x => Some x
  | None => match s with [] => None | u :: s' => first_at m (next p u s') s' end
  end.

Definition fence : re := Failures.exactly "```".
Definition newline : re := Failures.chr 10.
Definition any_char : re := Chr (const true).

(** The group of the first block between fences: the fence may name [json], and white space and
    one line end inside of it are left out. *)
Definition fenced_block (text : jsstr) : option jsstr :=
  first_at (λ p, exec (seq [fence; opt (lit "json"); Star Failures.ws_; opt newline]) p
             (λ q, exec (Lazy any_char) q
             (λ e, exec (seq [opt newline; Star Failures.ws_; fence]) e (λ _, Some (between q e))))) (Regex.start text) text.

Definition as_object (v : json) : option json := match v with j_object _ => Some v | _ => None end.

(** [parsed && typeof parsed === "object" && !Array.isArray(parsed)] of a candidate that is not empty. *)
Definition candidate (c : option jsstr) : option json :=
  match c with Some ((_ :: _) as t) => match parse t with Some v => as_object v | None => None end | _ => None end.

Definition parseVerifierVerdict (text : jsstr) : option json :=
  let trimmed := trim text in
  match candidate (fenced_block trimmed) with
  | Some v => Some v
  | None => match candidate (lastBalancedObject trimmed) with
            | Some v => Some v
            | None => candidate (Some trimmed)
            end
  end.

(** ** Failures *)

Definition verifierAbortKind (d : AiraRunDeadline) : option AiraVerifierFailureKind :=
  match kind d with Some abort_timeout => Some vf_timeout | Some abort_cancelled => Some vf_cancelled | None => None end.

(** The thrown value is [None] for the error of the race itself. *)
Definition classifyVerifierThrown (error : option Failures.thrown) (d : AiraRunDeadline) (timeoutMs : Z)
    : AiraVerifierFailureKind * jsstr :=
  match verifierAbortKind d with
  | Some vf_timeout => (vf_timeout, js "verifier timed out after " ++ num_str timeoutMs ++ js "ms")
  | Some vf_cancelled => (vf_cancelled, js "verifier cancelled")
  | _ =>
      let evidence := Failures.toAiraFailureEvidence (default Failures.thrown_other error) (js "verifier failed") in
      let driverError := default (js "verifier failed") (Failures.e_message evidence) in
      match Failures.e_code evidence, Failures.e_status evidence, Failures.e_origin evidence with
      | None, None, None => (vf_internal, driverError)
      | _, _, _ => (vf_provider, driverError)
      end
  end.

Definition verifierStopReasonKind (d : AiraRunDeadline) (m : AssistantMessage) : AiraVerifierFailureKind :=
  match verifierAbortKind d with
  | Some k => k
  | None => if bool_decide (am_stopReason m = s_aborted) then vf_cancelled else vf_provider
  end.

(** ** The loop *)

Definition TOOL_NAMES : list jsstr := js <$> ["read"; "grep"; "find"; "ls"]%string.

(** A tool, which is not modelled, returns its content or throws; meanwhile the deadline may fire. *)
Inductive tool_outcome := t_returns (content : list block) | t_throws (message : jsstr).
Record tool_run := { fires_before : list AiraRunAbortKind; ended : tool_outcome; fires_after : list AiraRunAbortKind }.

Definition tool_error (call : ToolCall) (text : jsstr) : ToolResultMessage := toolResultMessage call [b_text text] true.

Definition executeVerifierTool (call : ToolCall) (run : tool_run) : list (happening ToolResultMessage) :=
  if bool_decide (call_name call ∈ TOOL_NAMES) then
    (fires <$> fires_before run)
    ++ [resolves (match ended run with
                  | t_returns content => toolResultMessage call content (toolResultIsError content)
                  | t_throws m => tool_error call (js "Error: " ++ m)
                  end)]
    ++ (fires <$> fires_after run)
  else [resolves (tool_error call (js "Error: unknown tool " ++ call_name call))].

Record verifier := {
  allowedRounds : Z; toolBudgetLimit : Z; toolCallsUsed : Z; toolBudgetExtensions : Z; seenToolCalls : list jsstr;
  messages : list Message; totalUsage : option AiraChildTokenUsage; round : Z; roundHadProgress : bool;
  deadline : AiraRunDeadline }.

#[export] Instance verifier_rebuild : Rebuild verifier := λ s,
  Build_verifier (allowedRounds s) (toolBudgetLimit s) (toolCallsUsed s) (toolBudgetExtensions s) (seenToolCalls s)
    (messages s) (totalUsage s) (round s) (roundHadProgress s) (deadline s).

Definition accumulateUsage (m : AssistantMessage) (total : option AiraChildTokenUsage) : option AiraChildTokenUsage :=
  match am_usage m with
  | Some {| us_input := i; us_output := o; us_cacheRead := r; us_cacheWrite := w; us_totalTokens := Some t |} =>
      let of_ f := default 0 (f <$> total) in
      Some {| u_input := of_ u_input + default 0 i; u_output := of_ u_output + default 0 o;
              u_cacheRead := of_ u_cacheRead + default 0 r; u_cacheWrite := of_ u_cacheWrite + default 0 w;
              u_total := of_ u_total + t |}
  | _ => total
  end.

Definition budget (s : verifier) : telemetry := Some (toolCallsUsed s, toolBudgetLimit s, toolBudgetExtensions s).

Definition signature (call : ToolCall) : jsstr := call_name call ++ js ":" ++ stringify (arguments_of call).

(** The refusal of another round, and the extension. *)
Definition exceeded (s : verifier) : bool :=
  (allowedRounds s <=? round s) && ((MAX_VERIFIER_TOOL_EXTENSIONS <=? toolBudgetExtensions s) || negb (roundHadProgress s)).
(** [Math.ceil(a / b)] of positive integers *)
Definition ceil_div (a b : Z) : Z := (a + b - 1) / b.
Definition extend (s : verifier) : verifier :=
  if allowedRounds s <=? round s then
    s <| allowedRounds := allowedRounds s + ceil_div VERIFIER_TOOL_EXTENSION_CALLS MAX_VERIFIER_TOOL_CALLS_PER_ROUND |>
      <| toolBudgetLimit := toolBudgetLimit s + VERIFIER_TOOL_EXTENSION_CALLS |>
      <| toolBudgetExtensions := toolBudgetExtensions s + 1 |>
  else s.
Definition begin_round (s : verifier) : verifier := s <| round := round s + 1 |> <| roundHadProgress := false |>.
(** [toolCallsUsed += 1; seenToolCalls.add(signature)] *)
Definition count_call (call : ToolCall) (s : verifier) : verifier :=
  s <| toolCallsUsed := toolCallsUsed s + 1 |>
    <| seenToolCalls := if bool_decide (signature call ∈ seenToolCalls s) then seenToolCalls s else seenToolCalls s ++ [signature call] |>.
Definition note_progress (b : bool) (s : verifier) : verifier := s <| roundHadProgress := b || roundHadProgress s |>.
Definition push_messages (l : list Message) (s : verifier) : verifier := s <| messages := messages s ++ l |>.

Definition start_state (o : AiraVerifierOptions) : verifier :=
  let maxRounds := default MAX_VERIFIER_TOOL_ROUNDS (opt_maxToolRounds o) in
  {| allowedRounds := maxRounds; toolBudgetLimit := maxRounds * MAX_VERIFIER_TOOL_CALLS_PER_ROUND; toolCallsUsed := 0;
     toolBudgetExtensions := 0; seenToolCalls := []; messages := [m_user (opt_envelope o)]; totalUsage := None; round := 0;
     roundHadProgress := false; deadline := createAiraRunDeadline (opt_signal o) |}.

Section Run.
(** The model, from the messages it is sent, and the tools, from the calls made before: what
    happens while each is awaited. *)
Context (complete : list Message → list (happening AssistantMessage)).
Context (execute : list jsstr → Z → ToolCall → tool_run).

(** [await deadline.race(callModelStream(…)); accumulateUsage(assistant)] *)
Definition call_model (s : verifier) : verifier * settled AssistantMessage :=
  let '(d, r) := race (deadline s) (complete (messages s)) in
  let s := s <| deadline := d |> in
  match r with got m => (s <| totalUsage := accumulateUsage m (totalUsage s) |>, got m) | _ => (s, r) end.

(** [for (const call of calls)]; the error that ends it is [None] for the race's own. *)
Fixpoint run_calls (s : verifier) (calls : list ToolCall) (results : list ToolResultMessage)
    : verifier * (list ToolResultMessage + option Failures.thrown) :=
  match calls with
  | [] => (s, inl results)
  | call :: calls =>
      let isNewToolCall := negb (bool_decide (signature call ∈ seenToolCalls s)) in
      let s1 := count_call call s in
      let '(d, r) := race (deadline s1) (executeVerifierTool call (execute (seenToolCalls s) (toolCallsUsed s) call)) in
      let s2 := s1 <| deadline := d |> in
      match r with
      | got result => run_calls (note_progress (isNewToolCall && negb (isError result)) s2) calls (results ++ [result])
      | threw e => (s2, inr (Some e))
      | aborted => (s2, inr None)
      end
  end.

Definition failed_with (s : verifier) (timeoutMs : Z) (error : option Failures.thrown) : AiraVerifierOutcome :=
  let '(k, m) := classifyVerifierThrown error (deadline s) timeoutMs in v_fail m k (budget s).

Definition error_of {A} (r : settled A) : option Failures.thrown := match r with threw e => Some e | _ => None end.

(** The final message. *)
Definition conclude (s : verifier) (m : AssistantMessage) : AiraVerifierOutcome :=
  if hasToolCalls m then v_fail (js "verifier exceeded its read-only tool budget") vf_tool_budget (budget s)
  else if bool_decide (am_stopReason m = s_error) || bool_decide (am_stopReason m = s_aborted) then
    v_fail (default (js "verifier " ++ (if bool_decide (am_stopReason m = s_error) then js "error" else js "aborted")) (am_errorMessage m))
      (verifierStopReasonKind (deadline s) m) None
  else match parseVerifierVerdict (contentText m) with
  | None => v_fail (js "verifier returned no valid structured verdict") vf_invalid_verdict None
  | Some parsed => v_ok (normalizeVerifierVerdict parsed) (totalUsage s) (budget s)
  end.

(** [while (hasToolCalls(assistant))] *)
Fixpoint rounds (fuel : nat) (timeoutMs : Z) (s : verifier) (assistant : AssistantMessage) : option (verifier * AiraVerifierOutcome) :=
  match fuel with
  | O => None
  | S fuel =>
      if negb (hasToolCalls assistant) then Some (s, conclude s assistant)
      else if exceeded s then Some (s, v_fail (js "verifier exceeded its read-only tool budget") vf_tool_budget (budget s))
      else
        let s1 := begin_round (extend s) in
        let calls := take (Z.to_nat MAX_VERIFIER_TOOL_CALLS_PER_ROUND) (toolCallsOf assistant) in
        match calls with
        | [] => Some (s1, conclude s1 assistant)
        | _ =>
            match run_calls s1 calls [] with
            | (s2, inr e) => Some (s2, failed_with s2 timeoutMs e)
            | (s2, inl results) =>
                match call_model (push_messages (m_assistant assistant :: (m_toolResult <$> results)) s2) with
                | (s3, got m) => rounds fuel timeoutMs s3 m
                | (s3, r) => Some (s3, failed_with s3 timeoutMs (error_of r))
                end
            end
        end
  end.

(** Enough rounds for the budget and its one extension. *)
Definition enough_fuel (o : AiraVerifierOptions) : nat :=
  S (Z.to_nat (default MAX_VERIFIER_TOOL_ROUNDS (opt_maxToolRounds o) + 3)).

Definition run_with_model (o : AiraVerifierOptions) : option (verifier * AiraVerifierOutcome) :=
  let timeoutMs := default DEFAULT_VERIFIER_TIMEOUT_MS (opt_timeoutMs o) in
  let s := start_state o in
  let r := match call_model s with
           | (s1, got m) => rounds (enough_fuel o) timeoutMs s1 m
           | (s1, r) => Some (s1, failed_with s1 timeoutMs (error_of r))
           end in
  (λ p, (p.1 <| deadline := dispose (deadline p.1) |>, p.2)) <$> r.

(** [hasModel]: a model is configured. *)
Definition runAiraVerifier (hasModel : bool) (o : AiraVerifierOptions) : option AiraVerifierOutcome :=
  if negb hasModel then Some (v_fail (js "no verifier model configured") vf_configuration None)
  else snd <$> run_with_model o.
End Run.

End Verifier.

(** * Properties of the verifier

    The run always ends within its budgets, sees nothing but the envelope and its own turns, and
    takes its verdict from the last message; what the extraction of the verdict accepts. *)

Module VerifierProps.
Import Regex Json VerifyTypes VerifyPolicy ModelCall Verifier.

(** ** The transcript *)

(** A turn: a message with calls, and the results of its first two calls. *)
Definition turn : Type := AssistantMessage * list ToolResultMessage.
Definition turn_messages (t : turn) : list Message := m_assistant t.1 :: (m_toolResult <$> t.2).
Definition answers (calls : list ToolCall) (results : list ToolResultMessage) : Prop :=
  Forall2 (λ c r, tr_callId r = call_id c ∧ tr_name r = call_name c) calls results.
Definition turn_ok (t : turn) : Prop := hasToolCalls t.1 = true ∧ answers (take 2 (toolCallsOf t.1)) t.2.

(** The state of a run after some turns: [N] is the configured number of rounds. *)
Record run_inv (envelope : jsstr) (N : Z) (turns : list turn) (s : verifier) : Prop := {
  inv_messages : messages s = m_user envelope :: (turns ≫= turn_messages);
  inv_turns : Forall turn_ok turns;
  inv_round : round s = zlen turns;
  inv_allowed : allowedRounds s = N + 2 * toolBudgetExtensions s;
  inv_limit : toolBudgetLimit s = 2 * allowedRounds s;
  inv_extensions : 0 <= toolBudgetExtensions s <= 1;
  inv_bound : round s <= Z.max 0 (allowedRounds s);
  inv_used : toolCallsUsed s <= 2 * round s;
  inv_progress : roundHadProgress s = true → 1 <= round s }.

(** Between the model's calls more tools were used and messages are to come. *)
Definition between_turns (s s' : verifier) : Prop :=
  messages s' = messages s ∧ round s' = round s ∧ allowedRounds s' = allowedRounds s
  ∧ toolBudgetLimit s' = toolBudgetLimit s ∧ toolBudgetExtensions s' = toolBudgetExtensions s.

Section Run.
Context (complete : list Message → list (happening AssistantMessage)).
Context (execute : list jsstr → Z → ToolCall → tool_run).

Lemma race_got {A} d h d' (a : A) : race d h = (d', got a) → ∃ x h', h = x :: h' ∧ x = resolves a.
Proof. destruct h as [|[k|b|e] h]; cbn; destruct (kind d); intros H; simplify_eq; eauto. Qed.

Lemma call_model_keeps s s' r :
  call_model complete s = (s', r) → between_turns s s' ∧ toolCallsUsed s' = toolCallsUsed s.
Proof.
  unfold call_model. destruct (race _ _) as [d [m|e|]]; intros H; simplify_eq; done.
Qed.

Lemma tool_result_of call run d d' result :
  race d (executeVerifierTool call run) = (d', got result) → tr_callId result = call_id call ∧ tr_name result = call_name call.
Proof.
  unfold executeVerifierTool. intros (x & h & Hh & ->)%race_got. case_bool_decide.
  - destruct (fires_before run); [|done]. cbn in Hh. injection Hh as <- _. by destruct (ended run).
  - injection Hh as <- _. done.
Qed.

Lemma run_calls_keeps s calls results s' r :
  run_calls execute s calls results = (s', r) →
  between_turns s s' ∧ toolCallsUsed s <= toolCallsUsed s' <= toolCallsUsed s + zlen calls
  ∧ ∀ done_, r = inl done_ → ∃ new, done_ = results ++ new ∧ answers calls new.
Proof.
  revert s results. induction calls as [|call calls IH]; intros s results H; cbn in H.
  - simplify_eq. split; [done|]. split; [rewrite zlen_nil; lia|]. intros ? [= <-]. exists []. split; [by rewrite app_nil_r|constructor].
  - rewrite zlen_cons. pose proof (zlen_nonneg calls).
    destruct (race _ _) as [d [result|e|]] eqn:Er; [|simplify_eq; split; [done|]; split; [cbn; lia|done]..].
    apply tool_result_of in Er. apply IH in H as ((H1 & H2 & H3 & H4 & H5) & Hu & Hr).
    split; [done|]. split; [cbn in Hu; lia|]. intros done_ ->. destruct (Hr _ eq_refl) as (new & -> & Hn).
    exists (result :: new). split; [by rewrite <-app_assoc|by constructor].
Qed.

(** An extension is granted only after a round with progress, so after a first one. *)
Lemma extend_inv envelope N turns s : run_inv envelope N turns s → exceeded s = false →
  run_inv envelope N turns (extend s) ∧ round (extend s) < allowedRounds (extend s).
Proof.
  intros [Hm Ht Hr Ha Hl He Hb Hu Hp] Hx. unfold exceeded in Hx. unfold extend.
  destruct (Z.leb_spec (allowedRounds s) (round s)); [|by split; [constructor|]].
  cbn in Hx. apply orb_false_iff in Hx as [Hx Hg%negb_false_iff]. specialize (Hp Hg).
  unfold MAX_VERIFIER_TOOL_EXTENSIONS in Hx. bool_prop.
  change (ceil_div VERIFIER_TOOL_EXTENSION_CALLS MAX_VERIFIER_TOOL_CALLS_PER_ROUND) with 2.
  unfold VERIFIER_TOOL_EXTENSION_CALLS. split; [constructor|]; cbn; try done; lia.
Qed.

(** What a turn does, from its beginning to the next answer of the model. *)
Lemma turn_inv envelope N turns s m s2 results s3 r :
  run_inv envelope N turns s → round s < allowedRounds s → hasToolCalls m = true →
  run_calls execute (begin_round s) (take 2 (toolCallsOf m)) [] = (s2, inl results) →
  call_model complete (push_messages (m_assistant m :: (m_toolResult <$> results)) s2) = (s3, r) →
  run_inv envelope N (turns ++ [(m, results)]) s3 ∧ round s3 = round s + 1.
Proof.
  intros [Hm Ht Hr Ha Hl He Hb Hu Hp] Hlt Hc H1 H2.
  apply run_calls_keeps in H1 as ((K1 & K2 & K3 & K4 & K5) & Hused & Hres).
  apply call_model_keeps in H2 as ((L1 & L2 & L3 & L4 & L5) & Hused2).
  destruct (Hres _ eq_refl) as (new & -> & Hn). cbn [app] in *. cbn in K1, K2, K3, K4, K5, L1, L2, L3, L4, L5, Hused, Hused2.
  pose proof (zlen_take 2 (toolCallsOf m)).
  split; [|lia]. constructor; try lia.
  - rewrite L1, K1, Hm, bind_app. cbn. by rewrite app_nil_r.
  - apply Forall_app. split; [done|]. by repeat constructor.
  - rewrite zlen_app, zlen_cons, zlen_nil. lia.
  - intros _. pose proof (zlen_nonneg turns). lia.
Qed.

(** ** The end of a run *)

(** What every end has in common. *)
Record ended_within (envelope : jsstr) (N : Z) (s : verifier) (turns : list turn) : Prop := {
  end_messages : messages s = m_user envelope :: (turns ≫= turn_messages);
  end_turns : Forall turn_ok turns;
  end_rounds : zlen turns <= Z.max 0 (N + 2 * toolBudgetExtensions s);
  end_extensions : 0 <= toolBudgetExtensions s <= 1;
  end_used : toolCallsUsed s <= 2 * Z.max 0 (N + 2 * toolBudgetExtensions s) }.

Lemma run_inv_end envelope N turns s : run_inv envelope N turns s → ended_within envelope N s turns.
Proof. intros [Hm Ht Hr Ha Hl He Hb Hu Hp]. constructor; try done; lia. Qed.

(** The answer a run was concluded with, when it gave a verdict. *)
Definition concluded (o : AiraVerifierOutcome) : Prop :=
  ∀ v u b, o = v_ok v u b → ∃ msgs m h parsed, complete msgs = resolves m :: h ∧ hasToolCalls m = false
    ∧ am_stopReason m ≠ s_error ∧ am_stopReason m ≠ s_aborted
    ∧ parseVerifierVerdict (contentText m) = Some parsed ∧ v = normalizeVerifierVerdict parsed.

Lemma conclude_ok s m msgs h : complete msgs = resolves m :: h → concluded (conclude s m).
Proof.
  intros Hc v u b. unfold conclude. destruct (hasToolCalls m) eqn:Ht; [done|].
  case_match eqn:E; [done|]. bool_prop. case_match eqn:Ep; [|done]. intros [= <- _ _]. eauto 10.
Qed.

Lemma failed_not_ok s t e : concluded (failed_with s t e).
Proof. unfold failed_with. by destruct (classifyVerifierThrown _ _ _). Qed.

Lemma rounds_end envelope N t fuel turns s m msgs h :
  run_inv envelope N turns s → complete msgs = resolves m :: h → N + 3 - round s <= Z.of_nat fuel → 1 <= Z.of_nat fuel →
  ∃ s' o turns', rounds complete execute fuel t s m = Some (s', o) ∧ ended_within envelope N s' turns' ∧ concluded o.
Proof.
  revert turns s m msgs h. induction fuel as [|fuel IH]; intros turns s m msgs h Hi Hc Hf H1; [lia|]. cbn [rounds].
  destruct (hasToolCalls m) eqn:Ht; cbn [negb].
  2: { eexists _, _, turns. split; [done|]. split; [by apply run_inv_end|by eapply conclude_ok]. }
  destruct (exceeded s) eqn:Hx.
  { eexists _, _, turns. split; [done|]. split; [by apply run_inv_end|done]. }
  destruct (extend_inv _ _ _ _ Hi Hx) as [Hi' Hlt]. change (Z.to_nat MAX_VERIFIER_TOOL_CALLS_PER_ROUND) with 2%nat.
  assert (Hr : round (extend s) = round s) by (unfold extend; by case_match).
  destruct (take 2 (toolCallsOf m)) as [|call calls] eqn:Ecalls.
  { eexists _, _, turns. split; [done|]. split; [|by eapply conclude_ok].
    apply run_inv_end in Hi' as []. by constructor. }
  rewrite <-Ecalls. destruct (run_calls _ _ _ _) as [s2 [results|e]] eqn:E2.
  - destruct (call_model _ _) as [s3 r] eqn:E3. pose proof (turn_inv _ _ _ _ _ _ _ _ _ Hi' Hlt Ht E2 E3) as [Hi3 Hr3].
    destruct r as [m'|e|].
    + pose proof E3 as E4. unfold call_model in E4. destruct (race _ _) as [d [m''|?|]] eqn:Er; simplify_eq.
      apply race_got in Er as (x & h' & Hh & ->). eapply IH; [exact Hi3|exact Hh| |].
      * lia.
      * destruct Hi'. lia.
    + eexists _, _, _. split; [done|]. split; [by apply run_inv_end|apply failed_not_ok].
    + eexists _, _, _. split; [done|]. split; [by apply run_inv_end|apply failed_not_ok].
  - eexists _, _, turns. split; [done|]. split; [|apply failed_not_ok].
    apply run_calls_keeps in E2 as ((K1 & K2 & K3 & K4 & K5) & Hu & _). apply run_inv_end in Hi' as Hend.
    destruct Hi' as [Hm Htu Hro Ha Hl He Hb Hus Hp]. pose proof (zlen_take 2 (toolCallsOf m)). cbn in K1, K2, K3, K4, K5, Hu.
    constructor; [by rewrite K1|done|lia|lia|lia].
Qed.
Definition configured_rounds (o : AiraVerifierOptions) : Z := default MAX_VERIFIER_TOOL_ROUNDS (opt_maxToolRounds o).

Lemma run_end o : ∃ s out turns, run_with_model complete execute o = Some (s, out)
  ∧ ended_within (opt_envelope o) (configured_rounds o) s turns ∧ concluded out.
Proof.
  assert (Hi : run_inv (opt_envelope o) (configured_rounds o) [] (start_state o)).
  { constructor; cbn; unfold MAX_VERIFIER_TOOL_CALLS_PER_ROUND; fold (configured_rounds o); try done; try lia; by constructor. }
  unfold run_with_model. destruct (call_model complete (start_state o)) as [s1 r] eqn:E1.
  assert (Hi1 : run_inv (opt_envelope o) (configured_rounds o) [] s1).
  { destruct Hi as [Hm Ht Hr Ha Hl He Hb Hu Hp]. pose proof (call_model_keeps _ _ _ E1) as ((K1 & K2 & K3 & K4 & K5) & K6).
    constructor; try lia; [by rewrite K1|done| ].
    intros Hg. exfalso. revert Hg. unfold call_model in E1. destruct (race _ _) as [d [?|?|]]; by simplify_eq/=. }
  assert (Hdone : ∀ s turns, ended_within (opt_envelope o) (configured_rounds o) s turns →
    ended_within (opt_envelope o) (configured_rounds o) (s <| deadline := dispose (deadline s) |>) turns) by (intros s turns []; by constructor).
  destruct r as [m|e|].
  - unfold call_model in E1. destruct (race _ _) as [d [m'|?|]] eqn:Er; simplify_eq. apply race_got in Er as (x & h & Hh & ->).
    destruct (rounds_end (opt_envelope o) (configured_rounds o) (default DEFAULT_VERIFIER_TIMEOUT_MS (opt_timeoutMs o))
                (enough_fuel o) [] _ m (messages (start_state o)) h Hi1 Hh) as (s' & out & turns & E & Hend & Hok).
    + unfold enough_fuel. fold (configured_rounds o). destruct Hi1. rewrite inv_round0, zlen_nil. lia.
    + unfold enough_fuel. lia.
    + rewrite E. eexists _, out, turns. split; [done|]. by split; [apply Hdone|].
  - eexists _, _, []. split; [done|]. split; [by apply Hdone, run_inv_end|apply failed_not_ok].
  - eexists _, _, []. split; [done|]. split; [by apply Hdone, run_inv_end|apply failed_not_ok].
Qed.
End Run.

(** Every run of the verifier ends, whatever the model and the tools do and however long they
    take: after at most two rounds more than configured, with at most two tool calls a round and
    at most one extension; what the model was sent is the envelope and then its own messages,
    each followed by the answers to its first two calls, and nothing else. *)
Theorem verifier_run_is_bounded complete execute o :
  ∃ s out turns, run_with_model complete execute o = Some (s, out)
  ∧ messages s = m_user (opt_envelope o) :: (turns ≫= turn_messages) ∧ Forall turn_ok turns
  ∧ zlen turns <= Z.max 0 (configured_rounds o + 2 * toolBudgetExtensions s)
  ∧ toolCallsUsed s <= 2 * Z.max 0 (configured_rounds o + 2 * toolBudgetExtensions s)
  ∧ 0 <= toolBudgetExtensions s <= 1.
Proof.
  destruct (run_end complete execute o) as (s & out & turns & E & [Hm Ht Hr He Hu] & _).
  exists s, out, turns. done.
Qed.

(** The verifier reports a PASS only for an object that the last message of the model carries,
    in a message that called no tool and did not end in an error, that says pass, lists evidence
    and no unmet requirement; every failure of the run (time out, cancellation, provider, budget,
    no verdict) is reported as such and never as a verdict. *)
Theorem verdict_is_the_models hasModel complete execute o v u b
    (Hr : runAiraVerifier complete execute hasModel o = Some (v_ok v u b)) :
  hasModel = true ∧
  ∃ msgs m h parsed, complete msgs = resolves m :: h ∧ hasToolCalls m = false ∧ am_stopReason m ∉ [s_error; s_aborted]
  ∧ parseVerifierVerdict (contentText m) = Some parsed ∧ v = normalizeVerifierVerdict parsed
  ∧ (mv_verdict v = pass → string_is (prop "verdict" parsed) "pass" = true ∧ mv_evidence v ≠ []
                          ∧ Forall (λ r, req_status r ≠ unmet) (mv_requirements v)).
Proof.
  unfold runAiraVerifier in Hr. destruct hasModel; [|done]. split; [done|]. cbn in Hr.
  destruct (run_end complete execute o) as (s & out & turns & E & _ & Hc). rewrite E in Hr. cbn in Hr. simplify_eq.
  destruct (Hc v u b eq_refl) as (msgs & m & h & parsed & H1 & H2 & H3 & H4 & H5 & ->).
  exists msgs, m, h, parsed. do 2 (split; [done|]). split; [set_solver|]. do 2 (split; [done|]).
  intros Hp. apply pass_iff in Hp as (Hp & Hu & He). split; [done|].
  destruct (mv_fields parsed) as (-> & _ & -> & _). done.
Qed.

(** A model that reads a file in its first turn and then passes. *)
Definition sample_verdict : json :=
  raw_pass [raw_requirement (Some (js "R1")) (js "the test passes") "verified"]
    (j_array [j_object [(js "category", j_string (js "execution")); (js "summary", j_string (js "npm test (exit 0)"))]]).
Definition sample_call : ToolCall := {| call_id := js "c1"; call_name := js "read"; call_arguments := Some (j_object [(js "path", j_string (js "a.ts"))]) |}.
Definition answer (content : list block) : AssistantMessage :=
  {| am_content := content; am_stopReason := s_stop; am_errorMessage := None; am_usage := None;
     am_model := js "m"; am_responseModel := None; am_diagnostics := None |}.
Definition sample_model (msgs : list Message) : list (happening AssistantMessage) :=
  [resolves (if bool_decide (length msgs = 1%nat) then answer [b_toolCall sample_call]
             else answer [b_text (js "Verdict: " ++ stringify sample_verdict)])].
Definition sample_tools (seen : list jsstr) (n : Z) (c : ToolCall) : tool_run :=
  {| fires_before := []; ended := t_returns [b_text (js "x")]; fires_after := [] |}.
Definition sample_options : AiraVerifierOptions :=
  {| opt_envelope := js "E"; opt_timeoutMs := None; opt_maxToolRounds := Some 1; opt_signal := Some false |}.

Lemma verdict_is_the_models_witness :
  ∃ msgs m h parsed, sample_model msgs = resolves m :: h ∧ hasToolCalls m = false ∧ parseVerifierVerdict (contentText m) = Some parsed
    ∧ mv_verdict (normalizeVerifierVerdict parsed) = pass.
Proof.
  destruct (verdict_is_the_models true sample_model sample_tools sample_options (normalizeVerifierVerdict sample_verdict) None (Some (1, 2, 0)))
    as (_ & msgs & m & h & parsed & H1 & H2 & _ & H3 & H4 & _).
  - vm_compute. reflexivity.
  - exists msgs, m, h, parsed. split; [done|]. split; [done|]. split; [done|]. rewrite <-H4. vm_compute. reflexivity.
Defined.

(** ** What the extraction of the verdict accepts *)

Lemma first_at_none {A} (m : position → option A) p s :
  rest p = s → (∀ p', rest p' `suffix_of` rest p → m p' = None) →
  first_at m p s = None.
Proof.
  revert p. induction s as [|u s IH]; intros p Hp Hm; cbn; rewrite (Hm p) by done; [done|].
  apply IH; [done|]. intros p' Hs. apply Hm. rewrite Hp. cbn in Hs. by apply suffix_cons_r.
Qed.

Lemma fenced_none text : Forall (λ u, u ≠ 96) text → fenced_block text = None.
Proof.
  intros H. apply first_at_none; [done|]. intros p Hs.
  destruct (exec _ p _) as [x|] eqn:E; [|done]. exfalso. apply exec_sound in E as (q & Hq & _).
  apply (needs_reads (λ u, u = 96)) in Hq.
  - apply Exists_exists in Hq as (u & Hu & ->). destruct Hs as [k Hk]. cbn in Hk. rewrite Hk in H.
    apply Forall_app in H as [_ H]. by eapply Forall_forall in H; [|exact Hu].
  - eapply needs_seq; [by left|]. eapply needs_seq; [by left|]. intros u Hu. by apply Z.eqb_eq in Hu.
Qed.

Lemma trimStart_suffix s : trimStart s `suffix_of` s.
Proof. induction s as [|u s IH]; [done|]. cbn. case_match; [by apply suffix_cons_r|done]. Qed.

(** Trimming around a text that begins and ends with no white space. *)
Lemma trim_around pre u o v post : is_ws u = false → is_ws v = false →
  ∃ pre' post', trim (pre ++ (u :: o ++ [v]) ++ post) = pre' ++ (u :: o ++ [v]) ++ post'
    ∧ pre' `suffix_of` pre ∧ post' `prefix_of` post ∧ (pre = [] → pre' = []).
Proof.
  intros Hu Hv. assert (H : ∀ a c t, is_ws c = false → ∃ a', trimStart (a ++ c :: t) = a' ++ c :: t ∧ a' `suffix_of` a).
  { intros a c t Hc. induction a as [|d a (a' & IH & Ha)]; cbn.
    - exists []. by rewrite Hc.
    - case_match; [exists a'; split; [done|by apply suffix_cons_r]|]. by exists (d :: a). }
  destruct (H pre u ((o ++ [v]) ++ post) Hu) as (pre' & E1 & Hs1). unfold trim.
  change ((u :: o ++ [v]) ++ post) with (u :: (o ++ [v]) ++ post). rewrite E1.
  replace (rev (pre' ++ u :: (o ++ [v]) ++ post)) with (rev post ++ v :: rev (pre' ++ u :: o))
    by (rewrite !rev_app_distr; cbn; rewrite !rev_app_distr; cbn; by rewrite <-!app_assoc).
  destruct (H (rev post) v (rev (pre' ++ u :: o)) Hv) as (post' & E2 & Hs2). rewrite E2.
  exists pre', (rev post'). split; [|split; [done|split]].
  - rewrite rev_app_distr. cbn. rewrite rev_involutive. by rewrite <-!app_assoc.
  - destruct Hs2 as [k Hk]. exists (rev k). rewrite <-rev_app_distr, <-Hk. by rewrite rev_involutive.
  - intros ->. by apply suffix_nil_inv in Hs1.
Qed.

(** Characters of prose: neither a quote nor a brace nor a backquote. *)
Definition prose (s : jsstr) : Prop := Forall (λ u, plain u ∧ u ≠ 96) s.

(** An object the model writes as JSON is read back exactly, whatever prose without quotes,
    braces and backquotes surrounds it. *)
Theorem verdict_is_read_back pre m post
    (Hpre : prose pre) (Hpost : prose post) (Hok : json_ok (j_object m))
    (Hfence : Forall (λ u, u ≠ 96) (stringify (j_object m))) :
  parseVerifierVerdict (pre ++ stringify (j_object m) ++ post) = Some (j_object m).
Proof.
  assert (Ho : ∃ body, stringify (j_object m) = 123 :: body ++ [125]) by (eexists; reflexivity).
  destruct Ho as [body Ho]. unfold parseVerifierVerdict.
  destruct (trim_around pre 123 body 125 post eq_refl eq_refl) as (pre' & post' & E & H1 & H2 & _).
  rewrite <-Ho in E. cbv zeta. rewrite E.
  assert (Hp' : prose pre') by (destruct H1 as [k ->]; by apply Forall_app in Hpre as [_ ?]).
  assert (Hq' : prose post') by (destruct H2 as [k ->]; by apply Forall_app in Hpost as [? _]).
  assert (Hc : ∀ l, prose l → Forall (λ u, u ≠ 96) l) by (intros l Hl; eapply Forall_impl; [exact Hl|]; by intros u [? ?]).
  assert (Hl : ∀ l, prose l → Forall plain l) by (intros l Hl; eapply Forall_impl; [exact Hl|]; by intros u [? ?]).
  rewrite fenced_none by (rewrite !Forall_app; auto). cbn [candidate].
  unfold stringify at 1. rewrite (last_object (const false)) by auto. unfold candidate.
  destruct (stringify_with (const false) (j_object m)) eqn:Es; [done|]. rewrite <-Es.
  by rewrite (parse_stringify (const false)).
Qed.

Lemma verdict_is_read_back_witness :
  parseVerifierVerdict (js "Here is my verdict: " ++ stringify sample_verdict ++ js " Done.") = Some sample_verdict.
Proof.
  apply verdict_is_read_back.
  - apply (bool_decide_unpack _). vm_compute. exact I.
  - apply (bool_decide_unpack _). vm_compute. exact I.
  - vm_compute. repeat split; try done; apply (bool_decide_unpack _); vm_compute; exact I.
  - apply (bool_decide_unpack _). vm_compute. exact I.
Defined.

(** A block between fences, as a model quotes an example. *)
Definition fenced_example : jsstr := js "```json" ++ [10] ++ stringify sample_verdict ++ [10] ++ js "```".

(** A verdict quoted as an example between fences is taken for the verdict, whatever the
    message says after it, its real verdict included. *)
Theorem fenced_example_wins tail :
  parseVerifierVerdict (fenced_example ++ tail) = Some sample_verdict
  ∧ mv_verdict (normalizeVerifierVerdict sample_verdict) = pass.
Proof.
  split; [|vm_compute; reflexivity]. unfold parseVerifierVerdict. cbv zeta.
  assert (Hf : ∃ o, fenced_example = 96 :: o ++ [96]) by (exists (removelast (List.tl fenced_example)); vm_compute; reflexivity).
  destruct Hf as [o Ho]. destruct (trim_around [] 96 o 96 tail eq_refl eq_refl) as (pre' & tail' & E & _ & _ & Hn).
  rewrite (Hn eq_refl) in E. cbn [app] in E. rewrite Ho. cbn [app]. rewrite E.
  change (96 :: (o ++ [96]) ++ tail') with ((96 :: o ++ [96]) ++ tail'). rewrite <-Ho.
  assert (Eb : fenced_block (fenced_example ++ tail') = Some (stringify sample_verdict)) by (vm_compute; reflexivity).
  rewrite Eb. vm_compute. reflexivity.
Qed.

End VerifierProps.
