(* ===== verification/ChildData.v ===== *)
(** * Orchestration: child runs, roles, settings and status

    Models the contract types of [aira/orchestration/types.ts], [roles.ts], [settings.ts],
    [status.ts] and the tool sets of [tools.ts].  Times are whole milliseconds; a requested
    time out may also be no finite number. *)
From S2P Require Import Prelude JsMap JsString OrchTypes Capabilities Policy Presentation VerifyTypes Regex Failures.

Module ChildData.
Import Regex.
Notation AiraMode := Capabilities.AiraMode.
#[local] Existing Instance Capabilities.AiraMode_eq_dec.

(** ** Contract types *)

Inductive AiraChildCapabilityRequirement := req_process | req_mutation | req_browser.
Inductive timeout_value := t_ms (ms : Z) | t_not_finite.

Record AiraChildTaskSpec := {
  sp_id : option jsstr; sp_role : AiraChildRole; sp_task : jsstr; sp_dependencies : option (list jsstr);
  sp_files : option (list jsstr); sp_context : option jsstr; sp_model : option jsstr; sp_timeoutMs : option timeout_value;
  sp_requiredCapabilities : option (list AiraChildCapabilityRequirement) }.

Inductive child_status := child_completed | child_failed.
#[export] Instance child_status_eq_dec : EqDecision child_status.
Proof. solve_decision. Defined.

Record AiraChildResult := {
  cr_status : child_status; cr_summary : jsstr; cr_findings : list jsstr; cr_evidence : list jsstr; cr_relevantFiles : list jsstr;
  cr_changedFiles : list jsstr; cr_tests : list jsstr; cr_errors : list jsstr }.

Inductive AiraChildActivity := act_thinking | act_tool | act_permission.

Record AiraChildRun := {
  id : jsstr; taskId : jsstr; createdAt : Z; role : AiraChildRole; task : jsstr; dependencies : list jsstr;
  status : AiraChildRunStatus; phase : AiraChildPhase; model : option jsstr; resolvedModel : option jsstr;
  startedAt : option Z; completedAt : option Z; durationMs : option Z; result : option AiraChildResult;
  error : option Failures.AiraChildFailureInfo; tokenUsage : option AiraChildTokenUsage; activity : option AiraChildActivity;
  toolBudgetUsed : option Z; toolBudgetLimit : option Z; toolBudgetExtensions : option Z; lastActivityAt : option Z;
  capabilityGaps : option (list Failures.AiraChildCapabilityGap) }.
#[export] Instance AiraChildRun_rebuild : Rebuild AiraChildRun := λ r,
  Build_AiraChildRun (id r) (taskId r) (createdAt r) (role r) (task r) (dependencies r) (status r) (phase r) (model r)
    (resolvedModel r) (startedAt r) (completedAt r) (durationMs r) (result r) (error r) (tokenUsage r) (activity r)
    (toolBudgetUsed r) (toolBudgetLimit r) (toolBudgetExtensions r) (lastActivityAt r) (capabilityGaps r).

(** What the task graph reads of a run. *)
Definition task_view (r : AiraChildRun) : OrchTypes.AiraChildRun :=
  {| run_id := id r; run_taskId := taskId r; run_createdAt := createdAt r; run_role := role r; OrchTypes.run_task := task r;
     run_dependencies := dependencies r; run_status := status r; run_phase := phase r; run_startedAt := startedAt r;
     run_completedAt := completedAt r;
     run_error := (λ e, {| fi_kind := Failures.kind e; fi_category := Failures.category e; fi_message := Failures.message e;
                           fi_taskStatus := Failures.taskStatus e |}) <$> error r |}.

Record AiraChildSnapshot := {
  cs_id : jsstr; cs_taskId : jsstr; cs_role : AiraChildRole; cs_task : jsstr; cs_status : AiraChildRunStatus; cs_phase : AiraChildPhase;
  cs_activity : option AiraChildActivity; cs_toolBudgetUsed : option Z; cs_toolBudgetLimit : option Z;
  cs_toolBudgetExtensions : option Z; cs_lastActivityAt : option Z; cs_model : option jsstr; cs_elapsedMs : option Z;
  cs_dependencies : list jsstr; cs_resultSummary : option jsstr; cs_tokenUsage : option AiraChildTokenUsage;
  cs_error : option Failures.AiraChildFailureInfo; cs_capabilityGaps : option (list Failures.AiraChildCapabilityGap) }.

Record AiraChildResultSummary := {
  rs_id : jsstr; rs_taskId : jsstr; rs_role : AiraChildRole; rs_status : AiraChildRunStatus; rs_summary : jsstr; rs_durationMs : Z;
  rs_model : option jsstr; rs_tokenUsage : option AiraChildTokenUsage }.

Record AiraChildFailure := {
  cf_id : jsstr; cf_taskId : jsstr; cf_role : AiraChildRole; cf_kind : AiraChildFailureKind; cf_category : AiraChildFailureCategory;
  cf_message : jsstr; cf_timestamp : Z; cf_retryable : bool; cf_retryableHint : Failures.AiraRetryableHint;
  cf_taskStatus : AiraChildTaskExecutionStatus; cf_code : option jsstr; cf_component : option jsstr; cf_operation : option jsstr;
  cf_diagnostics : option Failures.AiraChildResultDiagnostics }.

Inductive orchestration_state := orch_idle | orch_active | orch_degraded.
#[export] Instance orchestration_state_eq_dec : EqDecision orchestration_state.
Proof. solve_decision. Defined.

Record AiraOrchestrationStatus := {
  os_enabled : bool; os_status : orchestration_state; os_runningCount : Z; os_queuedCount : Z; os_maxConcurrency : Z;
  os_children : list AiraChildSnapshot; os_recentResults : list AiraChildResultSummary; os_failures : list AiraChildFailure;
  os_aggregateTokenUsage : option AiraChildTokenUsage; os_epochStartedAt : option Z; os_summary : jsstr; os_updatedAt : Z }.

(** The result of a task that has settled: what the child returned, or only how it ended. *)
Record batch_task := {
  bt_taskId : jsstr; bt_role : AiraChildRole; bt_runId : option jsstr; bt_accepted : bool; bt_reason : option jsstr;
  bt_result : option (AiraChildResult + AiraChildRunStatus); bt_failure : option AiraChildFailure }.
Record AiraOrchestrationBatchResult := { br_ok : bool; br_batchId : option jsstr; br_tasks : list batch_task }.

(** ** Text bounds ([envelope.ts]) *)

Definition boundChildText (value : jsstr) (max : Z) : jsstr := bound_text max (trim value).

(** The loop that fills [result]; it looks at the bound after it has pushed. *)
Fixpoint bound_items (result : list jsstr) (items : list jsstr) (maxItems maxItemChars : Z) : list jsstr :=
  match items with
  | [] => result
  | item :: items =>
      match boundChildText item maxItemChars with
      | [] => bound_items result items maxItems maxItemChars
      | bounded => let result := result ++ [bounded] in
                   if maxItems <=? zlen result then result else bound_items result items maxItems maxItemChars
      end
  end.
Definition boundChildList (items : list jsstr) (maxItems maxItemChars : Z) : list jsstr := bound_items [] items maxItems maxItemChars.

(** ** Roles *)

Inductive AiraRoleCapabilityClass := rc_read_only | rc_diagnostic | rc_mutating | rc_process.
#[export] Instance AiraRoleCapabilityClass_eq_dec : EqDecision AiraRoleCapabilityClass.
Proof. solve_decision. Defined.

Record AiraChildRoleDefinition := {
  ro_role : AiraChildRole; ro_label : jsstr; ro_description : jsstr; ro_capabilities : list AiraRoleCapabilityClass;
  ro_resultEmphasis : jsstr; ro_readOnly : bool; ro_toolBudget : Z }.

Definition AIRA_CHILD_ROLES : list AiraChildRoleDefinition :=
  [ {| ro_role := explore; ro_label := js "Explore";
       ro_description := js "Read-only repository exploration: understand unfamiliar code, trace flows, locate definitions and usage, and report a bounded map of what exists and how it connects.";
       ro_capabilities := [rc_read_only; rc_diagnostic];
       ro_resultEmphasis := js "Prioritize concrete findings with file/line references. Relevant files are the strongest output of this role.";
       ro_readOnly := true; ro_toolBudget := 48 |};
    {| ro_role := research; ro_label := js "Research";
       ro_description := js "Read-only investigation: gather evidence from the workspace and any provided context, compare options, and report a bounded analysis with sources.";
       ro_capabilities := [rc_read_only; rc_diagnostic];
       ro_resultEmphasis := js "Prioritize a structured analysis with evidence references. Findings must name the evidence behind each claim.";
       ro_readOnly := true; ro_toolBudget := 48 |};
    {| ro_role := OrchTypes.review; ro_label := js "Review";
       ro_description := js "Independent inspection-oriented review: read the stated files and/or changed area, evaluate correctness/robustness/fit, and report structured findings.";
       ro_capabilities := [rc_read_only; rc_diagnostic];
       ro_resultEmphasis := js "Prioritize findings ordered by severity, each with a concrete location and a suggested remediation.";
       ro_readOnly := true; ro_toolBudget := 32 |};
    {| ro_role := OrchTypes.test; ro_label := js "Test";
       ro_description := js "Test-oriented execution and analysis: run the relevant tests/checks through the managed execution runtime, interpret results, and report what passed, what failed, and why.";
       ro_capabilities := [rc_read_only; rc_diagnostic; rc_process];
       ro_resultEmphasis := js "Prioritize tests/checks performed with their outcomes and the evidence (commands, exit codes, logs) behind each.";
       ro_readOnly := false; ro_toolBudget := 40 |};
    {| ro_role := implement; ro_label := js "Implement";
       ro_description := js "Bounded implementation: make the smallest coherent set of workspace changes that satisfies the task, then report what changed and what checks were performed.";
       ro_capabilities := [rc_read_only; rc_diagnostic; rc_mutating; rc_process];
       ro_resultEmphasis := js "Changed files are the strongest output of this role. Report exactly what changed, why, and which checks ran.";
       ro_readOnly := false; ro_toolBudget := 40 |} ].

Definition airaChildRoleOf (r : AiraChildRole) : option AiraChildRoleDefinition := find (λ d, bool_decide (ro_role d = r)) AIRA_CHILD_ROLES.
Definition isAiraChildRoleReadOnly (r : AiraChildRole) : bool := match airaChildRoleOf r with Some d => ro_readOnly d | None => false end.
Definition isAiraChildRoleMutating (r : AiraChildRole) : bool :=
  match airaChildRoleOf r with Some d => bool_decide (rc_mutating ∈ ro_capabilities d) | None => false end.
Definition toolBudget_of (r : AiraChildRole) : Z := match airaChildRoleOf r with Some d => ro_toolBudget d | None => 32 end.

(** ** Settings *)

Record AiraOrchestrationSettings := { os_set_enabled : bool; maxParallel : Z; set_model : jsstr; timeoutMs : Z }.
Definition DEFAULT_AIRA_ORCHESTRATION_SETTINGS : AiraOrchestrationSettings :=
  {| os_set_enabled := true; maxParallel := 2; set_model := js "inherit"; timeoutMs := 300000 |}.
Definition AIRA_ORCHESTRATION_MAX_PARALLEL : Z := 8.
Definition AIRA_ORCHESTRATION_MIN_TIMEOUT_MS : Z := 30000.
Definition AIRA_ORCHESTRATION_MAX_TIMEOUT_MS : Z := 900000.

Definition normalizeMaxParallel (v : VerifyTypes.raw) : Z :=
  match v with
  | VerifyTypes.raw_number n true =>
      if (1 <=? n) && (n <=? AIRA_ORCHESTRATION_MAX_PARALLEL) then n else maxParallel DEFAULT_AIRA_ORCHESTRATION_SETTINGS
  | _ => maxParallel DEFAULT_AIRA_ORCHESTRATION_SETTINGS
  end.

Definition MODEL_SELECTOR : re :=
  seq [Bol; plus (Failures.alnum_or "._-"); Failures.chr 47; plus (Failures.alnum_or "._:/-"); Eol].
Definition normalizeModel (v : VerifyTypes.raw) : jsstr :=
  match v with
  | VerifyTypes.raw_string s =>
      let trimmed := trim s in
      if str_eqb trimmed (js "inherit") || str_eqb trimmed (js "default") then trimmed
      else if (zlen trimmed <=? 200) && Regex.test MODEL_SELECTOR trimmed then trimmed
      else set_model DEFAULT_AIRA_ORCHESTRATION_SETTINGS
  | _ => set_model DEFAULT_AIRA_ORCHESTRATION_SETTINGS
  end.

(** A number that is not whole lies strictly between its floor and the next integer. *)
Definition normalizeTimeoutMs (v : VerifyTypes.raw) : Z :=
  match v with
  | VerifyTypes.raw_number n whole =>
      if (AIRA_ORCHESTRATION_MIN_TIMEOUT_MS <=? n)
         && (if whole then n <=? AIRA_ORCHESTRATION_MAX_TIMEOUT_MS else n <? AIRA_ORCHESTRATION_MAX_TIMEOUT_MS) then n
      else timeoutMs DEFAULT_AIRA_ORCHESTRATION_SETTINGS
  | _ => timeoutMs DEFAULT_AIRA_ORCHESTRATION_SETTINGS
  end.

(** [field] reads the settings object; a value that is not an object has no fields. *)
Definition normalizeAiraOrchestrationSettings (field : string → VerifyTypes.raw) : AiraOrchestrationSettings :=
  {| os_set_enabled := match field "enabled"%string with
                       | VerifyTypes.raw_undefined => os_set_enabled DEFAULT_AIRA_ORCHESTRATION_SETTINGS
                       | VerifyTypes.raw_bool b => b
                       | _ => false
                       end;
     maxParallel := normalizeMaxParallel (field "maxParallel"%string); set_model := normalizeModel (field "model"%string);
     timeoutMs := normalizeTimeoutMs (field "timeoutMs"%string) |}.

Definition isAiraOrchestrationModelInherit (m : jsstr) : bool := str_eqb m (js "inherit").

(** ** Status *)

Definition MAX_CHILDREN_IN_SNAPSHOT : Z := 12.
Definition MAX_RESULTS_IN_SNAPSHOT : Z := 8.
Definition MAX_FAILURES_IN_SNAPSHOT : Z := 6.
Definition MAX_TASK_TEXT_IN_SNAPSHOT : Z := 100.

Definition initialAiraOrchestrationStatus (now : Z) (enabled : bool) (maxConcurrency : Z) : AiraOrchestrationStatus :=
  {| os_enabled := enabled; os_status := orch_idle; os_runningCount := 0; os_queuedCount := 0; os_maxConcurrency := maxConcurrency;
     os_children := []; os_recentResults := []; os_failures := []; os_aggregateTokenUsage := None; os_epochStartedAt := None;
     os_summary := js "idle"; os_updatedAt := now |}.

Definition status_name (s : AiraChildRunStatus) : jsstr :=
  match s with
  | run_pending => js "pending" | run_running => js "running" | run_completed => js "completed" | run_failed => js "failed"
  | run_cancelled => js "cancelled" | run_timed_out => js "timed-out" | run_rejected => js "rejected"
  end.

Definition toAiraChildSnapshot (now : Z) (r : AiraChildRun) : AiraChildSnapshot :=
  {| cs_id := id r; cs_taskId := taskId r; cs_role := role r; cs_task := boundChildText (task r) MAX_TASK_TEXT_IN_SNAPSHOT;
     cs_status := status r; cs_phase := phase r; cs_activity := activity r; cs_toolBudgetUsed := toolBudgetUsed r;
     cs_toolBudgetLimit := toolBudgetLimit r; cs_toolBudgetExtensions := toolBudgetExtensions r; cs_lastActivityAt := lastActivityAt r;
     cs_model := model r;
     cs_elapsedMs := match durationMs r with Some d => Some d | None => (λ t, now - t) <$> startedAt r end;
     cs_dependencies := dependencies r; cs_resultSummary := cr_summary <$> result r; cs_tokenUsage := tokenUsage r; cs_error := error r;
     cs_capabilityGaps := Failures.non_empty (capabilityGaps r) |}.

Definition toAiraChildResultSummary (r : AiraChildRun) : AiraChildResultSummary :=
  {| rs_id := id r; rs_taskId := taskId r; rs_role := role r; rs_status := status r;
     rs_summary := match result r, error r with
                   | Some x, _ => cr_summary x | None, Some e => Failures.message e | None, None => status_name (status r) end;
     rs_durationMs := default 0 (durationMs r); rs_model := match resolvedModel r with Some m => Some m | None => model r end;
     rs_tokenUsage := tokenUsage r |}.

Definition toAiraChildFailure (now : Z) (r : AiraChildRun) : AiraChildFailure :=
  {| cf_id := id r; cf_taskId := taskId r; cf_role := role r;
     cf_kind := default unknown_failure (Failures.kind <$> error r); cf_category := default driver (Failures.category <$> error r);
     cf_message := default (status_name (status r)) (Failures.message <$> error r); cf_timestamp := default now (completedAt r);
     cf_retryable := default false (Failures.retryable <$> error r);
     cf_retryableHint := default Failures.hint_unknown (Failures.retryableHint <$> error r);
     cf_taskStatus := default execution_unknown (Failures.taskStatus <$> error r); cf_code := error r ≫= Failures.code;
     cf_component := error r ≫= Failures.component; cf_operation := error r ≫= Failures.operation;
     cf_diagnostics := error r ≫= Failures.diagnostics |}.

Definition add_usage (a b : AiraChildTokenUsage) : AiraChildTokenUsage :=
  {| u_input := u_input a + u_input b; u_output := u_output a + u_output b; u_cacheRead := u_cacheRead a + u_cacheRead b;
     u_cacheWrite := u_cacheWrite a + u_cacheWrite b; u_total := u_total a + u_total b |}.
Definition no_usage : AiraChildTokenUsage := {| u_input := 0; u_output := 0; u_cacheRead := 0; u_cacheWrite := 0; u_total := 0 |}.
Definition aggregateAiraTokenUsage (runs : list AiraChildRun) : option AiraChildTokenUsage :=
  match omap tokenUsage runs with [] => None | l => Some (foldl add_usage no_usage l) end.

Definition middot : jsstr := [32; 0xB7; 32].
Definition summarizeAiraOrchestration (s : option AiraOrchestrationStatus) : option jsstr :=
  match s with
  | None => None
  | Some s =>
      if negb (os_enabled s) then Some (js "disabled")
      else if bool_decide (os_status s = orch_active) then
        let parts := (if 0 <? os_runningCount s then [num_str (os_runningCount s) ++ js " running"] else [])
                     ++ (if 0 <? os_queuedCount s then [num_str (os_queuedCount s) ++ js " queued"] else []) in
        Some (match parts with [] => js "active" | _ => join middot parts end)
      else Some (js "idle")
  end.

(** ** Tool sets *)

Definition AIRA_CHILD_READ_TOOL_NAMES : list jsstr := js <$> ["read"; "grep"; "find"; "ls"]%string.
Definition AIRA_CHILD_PROCESS_TOOL_NAMES : list jsstr := js <$> ["process_start"; "process_stop"; "process_status"; "process_logs"]%string.

(** A tool by its name: of the tools only the names matter here. *)
Record AiraChildToolSet := {
  ts_tools : list jsstr; ts_capabilities : list AiraRoleCapabilityClass; ts_mutating : bool;
  ts_capabilityGaps : list Failures.AiraChildCapabilityGap }.

(** [for (const tool of …) if (!granted.has(name)) { granted.add(name); tools.push(tool) }] *)
Definition grant (tools names : list jsstr) : list jsstr := foldl (λ ts n, if bool_decide (n ∈ ts) then ts else ts ++ [n]) tools names.

(** [intelligence]: the names of the tools of the root's coordinator, when there is one;
    [execution]: there is an execution manager. *)
Definition buildAiraChildToolSet (r : AiraChildRole) (m : AiraMode) (execution : bool) (intelligence : option (list jsstr)) : AiraChildToolSet :=
  let roleCapabilities := match airaChildRoleOf r with Some d => ro_capabilities d | None => [rc_read_only; rc_diagnostic] end in
  let classes := if bool_decide (m = Capabilities.plan) then filter (λ c, c = rc_read_only ∨ c = rc_diagnostic) roleCapabilities
                 else roleCapabilities in
  let has c := bool_decide (c ∈ classes) in
  let tools := AIRA_CHILD_READ_TOOL_NAMES in
  let tools := match intelligence with
               | Some names => if has rc_read_only || has rc_diagnostic then grant tools names else tools
               | None => tools end in
  let tools := if has rc_mutating then grant tools (js <$> ["write"; "edit"]%string) else tools in
  let tools := if has rc_process && execution then grant tools AIRA_CHILD_PROCESS_TOOL_NAMES else tools in
  {| ts_tools := tools; ts_capabilities := classes; ts_mutating := has rc_mutating || has rc_process;
     ts_capabilityGaps := if has rc_process && negb execution then
       [ {| Failures.capability := js "process"; Failures.gap_component := js "process-manager"; Failures.gap_operation := js "resolve";
            Failures.gap_message := js "managed execution is not configured for this session" |} ] else [] |}.

End ChildData.
