(* ===== verification/ChildEvents.v ===== *)
(** * Orchestration: child events

    Models [aira/orchestration/events.ts]: the events of a child run and the bounded buffer that
    keeps the latest of them; and the capture of a model stream by [runner.ts], which turns the
    deltas of a block into one event. *)
From S2P Require Import Prelude JsMap JsString OrchTypes Capabilities Json ModelCall ChildData.

Module ChildEvents.
Import Json.
Notation ToolCall := ModelCall.ToolCall.
Notation arguments_of := ModelCall.arguments_of.
Notation call_name := ModelCall.call_name.
Notation call_id := ModelCall.call_id.

Definition MAX_CHILD_EVENTS_PER_RUN : Z := 400.
Definition MAX_CHILD_EVENT_TEXT_CHARS : Z := 600.
Definition MAX_CHILD_EVENT_ARGS_CHARS : Z := 400.
Definition MAX_CHILD_EVENT_RESULT_SUMMARY_CHARS : Z := 200.
Definition MAX_CHILD_EVENT_RESULT_DETAIL_CHARS : Z := 600.
Definition MAX_CHILD_EVENT_TOTAL_CHARS : Z := 100000.

(** [decision]: allowed, or denied. *)
Inductive AiraChildEvent :=
| ce_text (at_ : Z) (text : jsstr) | ce_thinking (at_ : Z) (text : jsstr)
| ce_tool_call (at_ : Z) (toolCallId name args : jsstr)
| ce_tool_result (at_ : Z) (toolCallId name : jsstr) (isError : bool) (summary : jsstr) (detail : option jsstr)
| ce_permission (at_ : Z) (tool reason : jsstr) (decision : option bool)
| ce_status (at_ : Z) (status : AiraChildRunStatus) (phase : AiraChildPhase) (reason : option jsstr)
| ce_failure (at_ : Z) (category : AiraChildFailureCategory) (message : jsstr)
| ce_completion (at_ : Z) (status : ChildData.child_status) (summary : jsstr).

Definition event_at (e : AiraChildEvent) : Z :=
  match e with
  | ce_text t _ | ce_thinking t _ | ce_tool_call t _ _ _ | ce_tool_result t _ _ _ _ _ | ce_permission t _ _ _ | ce_status t _ _ _
  | ce_failure t _ _ | ce_completion t _ _ => t
  end.

Definition boundChildEventText (value : jsstr) (max : Z) : jsstr := bound_text max value.

Definition eventChars (e : AiraChildEvent) : Z :=
  match e with
  | ce_text _ text | ce_thinking _ text => zlen text + 16
  | ce_tool_call _ _ name args => zlen name + zlen args + 32
  | ce_tool_result _ _ name _ summary detail => zlen name + zlen summary + default 0 (zlen <$> detail) + 32
  | ce_permission _ tool reason _ => zlen tool + zlen reason + 32
  | ce_status _ _ _ reason => default 4 (zlen <$> reason)
  | ce_failure _ category message => zlen (category_name category) + zlen message + 16
  | ce_completion _ _ summary => zlen summary + 8
  end.

Definition childActivityOf (e : option AiraChildEvent) : option ChildData.AiraChildActivity :=
  match e with
  | Some (ce_thinking _ _) => Some ChildData.act_thinking
  | Some (ce_tool_call _ _ _ _) | Some (ce_tool_result _ _ _ _ _ _) => Some ChildData.act_tool
  | Some (ce_permission _ _ _ _) => Some ChildData.act_permission
  | _ => None
  end.

(** ** The buffer *)

Record AiraChildEventBuffer := { items : list AiraChildEvent; totalChars : Z; maxEvents : Z; maxChars : Z }.
#[export] Instance AiraChildEventBuffer_rebuild : Rebuild AiraChildEventBuffer := λ b,
  Build_AiraChildEventBuffer (items b) (totalChars b) (maxEvents b) (maxChars b).

Definition new_buffer (maxEvents maxChars : Z) : AiraChildEventBuffer :=
  {| items := []; totalChars := 0; maxEvents := maxEvents; maxChars := maxChars |}.
Definition default_buffer : AiraChildEventBuffer := new_buffer MAX_CHILD_EVENTS_PER_RUN MAX_CHILD_EVENT_TOTAL_CHARS.

(** The two loops that evict: each turn takes the oldest event with its cost. *)
Fixpoint evict_chars (l : list AiraChildEvent) (total max : Z) : list AiraChildEvent * Z :=
  match l with
  | oldest :: ((_ :: _) as rest) => if max <? total then evict_chars rest (total - eventChars oldest) max else (l, total)
  | _ => (l, total)
  end.
Fixpoint evict_count (l : list AiraChildEvent) (total max : Z) : list AiraChildEvent * Z :=
  match l with
  | oldest :: rest => if max <? zlen l then evict_count rest (total - eventChars oldest) max else (l, total)
  | [] => (l, total)
  end.

Definition append (e : AiraChildEvent) (b : AiraChildEventBuffer) : AiraChildEventBuffer :=
  let '(l, total) := evict_chars (items b ++ [e]) (totalChars b + eventChars e) (maxChars b) in
  let '(l, total) := evict_count l total (maxEvents b) in
  b <| items := l |> <| totalChars := total |>.

Definition events (b : AiraChildEventBuffer) : list AiraChildEvent := items b.
Definition last_event (b : AiraChildEventBuffer) : option AiraChildEvent := last (items b).

(** ** Capture of a stream *)

(** What the stream says; [content] is the whole block, when the provider gives it. *)
Inductive stream_event :=
| st_text_delta (contentIndex : Z) (delta : jsstr) | st_text_end (contentIndex : Z) (content : option jsstr)
| st_thinking_delta (contentIndex : Z) (delta : jsstr) | st_thinking_end (contentIndex : Z) (content : option jsstr)
| st_toolcall_end (call : ToolCall) | st_other.

Definition read_string (call : ToolCall) (key : string) : option jsstr :=
  match prop key (arguments_of call) with Some (j_string s) => Some s | _ => None end.
Definition or_else {A} (a b : option A) : option A := match a with Some _ => a | None => b end.
Definition strings_of (v : option json) : list jsstr :=
  match v with Some (j_array l) => omap (λ x, match x with j_string s => Some s | _ => None end) l | _ => [] end.

Definition toolCallArgsText (call : ToolCall) : jsstr :=
  let named l := existsb (λ n, str_eqb (call_name call) (js n)) l in
  let path := or_else (read_string call "path") (read_string call "file_path") in
  if named ["read"; "edit"; "write"; "ls"]%string then default [] path
  else if named ["grep"; "find"]%string then default [] (or_else (read_string call "pattern") path)
  else if named ["process_start"]%string then
    match read_string call "command" with
    | Some ((_ :: _) as command) => command
    | _ => join (js " ") (filter (λ s, s ≠ []) (default [] (read_string call "exe") :: strings_of (prop "args" (arguments_of call))))
    end
  else if named ["process_stop"; "process_logs"; "process_status"]%string then default [] (read_string call "id")
  else default [] path.

(** The blocks of which deltas have been seen: text and thinking apart. *)
Record capture := { textByIndex : list (Z * jsstr); thinkingByIndex : list (Z * jsstr) }.

Definition add_delta (i : Z) (delta : jsstr) (m : list (Z * jsstr)) : list (Z * jsstr) :=
  mset i (default [] (mget i m) ++ delta) m.
(** The text of a block that ends: what was collected, else the content it came with. *)
Definition block_text (i : Z) (content : option jsstr) (m : list (Z * jsstr)) : jsstr :=
  trim (default [] (or_else (mget i m) content)).
Definition when_text (mk : jsstr → AiraChildEvent) (t : jsstr) : list AiraChildEvent :=
  match t with [] => [] | _ => [mk (boundChildEventText t MAX_CHILD_EVENT_TEXT_CHARS)] end.

Definition consume (now : Z) (c : capture) (e : stream_event) : capture * list AiraChildEvent :=
  match e with
  | st_text_delta i delta => ({| textByIndex := add_delta i delta (textByIndex c); thinkingByIndex := thinkingByIndex c |}, [])
  | st_text_end i content =>
      ({| textByIndex := mdelete i (textByIndex c); thinkingByIndex := thinkingByIndex c |},
       when_text (ce_text now) (block_text i content (textByIndex c)))
  | st_thinking_delta i delta => ({| textByIndex := textByIndex c; thinkingByIndex := add_delta i delta (thinkingByIndex c) |}, [])
  | st_thinking_end i content =>
      ({| textByIndex := textByIndex c; thinkingByIndex := mdelete i (thinkingByIndex c) |},
       when_text (ce_thinking now) (block_text i content (thinkingByIndex c)))
  | st_toolcall_end call =>
      (c, [ce_tool_call now (call_id call) (call_name call) (boundChildEventText (toolCallArgsText call) MAX_CHILD_EVENT_ARGS_CHARS)])
  | st_other => (c, [])
  end.

(** [for await (const event of stream)]; each event comes with the time it is consumed at. *)
Fixpoint consumeStreamEvents (c : capture) (l : list (Z * stream_event)) : list AiraChildEvent :=
  match l with
  | [] => []
  | (now, e) :: l => let '(c', out) := consume now c e in out ++ consumeStreamEvents c' l
  end.
Definition capture_start : capture := {| textByIndex := []; thinkingByIndex := [] |}.

(** ** Properties *)

Definition cost (l : list AiraChildEvent) : Z := foldr (λ e n, eventChars e + n) 0 l.
#[local] Arguments cost : simpl never.
Lemma cost_cons e l : cost (e :: l) = eventChars e + cost l.
Proof. done. Qed.
Lemma cost_app l l' : cost (l ++ l') = cost l + cost l'.
Proof. induction l as [|e l IH]; [done|]. cbn [app]. rewrite !cost_cons. lia. Qed.
Lemma eventChars_nonneg e : 0 <= eventChars e.
Proof.
  destruct e as [?|?|?|? ? ? ? ? [d|]|?|? ? ? [r|]|?|?]; cbn;
    repeat match goal with |- context [zlen ?l] => pose proof (zlen_nonneg l); generalize dependent (zlen l); intros end; lia.
Qed.
Lemma cost_nonneg l : 0 <= cost l.
Proof. induction l as [|e l IH]; [done|]. pose proof (eventChars_nonneg e). rewrite cost_cons. lia. Qed.

Lemma evict_chars_ok l total max : total = cost l →
  ∃ k, evict_chars l total max = (k, cost k) ∧ k `suffix_of` l ∧ (l ≠ [] → k ≠ []) ∧ (cost k <= max ∨ (length k <= 1)%nat).
Proof.
  revert total. induction l as [|e l IH]; intros total ->; [exists []; split_and!; [done..|right; cbn; lia]|].
  cbn [evict_chars]. destruct l as [|e' l].
  - exists [e]. split_and!; [done..|right; cbn; lia].
  - destruct (Z.ltb_spec max (cost (e :: e' :: l))) as [Hlt|Hle].
    + destruct (IH (cost (e :: e' :: l) - eventChars e)) as (k & -> & Hs & Hn & Hb); [rewrite (cost_cons e); lia|].
      exists k. split; [done|]. split; [by apply suffix_cons_r|]. split; [intros _; by apply Hn|done].
    + exists (e :: e' :: l). split_and!; [done..|by left].
Qed.

Lemma evict_count_ok l total max : 0 <= max → total = cost l →
  ∃ k, evict_count l total max = (k, cost k) ∧ k `suffix_of` l ∧ zlen k <= max ∧ (zlen l <= max → k = l)
     ∧ (1 <= max → l ≠ [] → k ≠ []).
Proof.
  intros Hmax. revert total. induction l as [|e l IH]; intros total ->; [exists []; by split_and!|].
  cbn [evict_count]. destruct (Z.ltb_spec max (zlen (e :: l))) as [Hlt|Hle].
  - destruct (IH (cost (e :: l) - eventChars e)) as (k & -> & Hs & Hk & _ & Hn); [rewrite (cost_cons e); lia|].
    exists k. split; [done|]. split; [by apply suffix_cons_r|]. split; [done|]. split; [lia|].
    intros H1 _. apply Hn; [done|]. intros ->. rewrite zlen_cons, zlen_nil in Hlt. lia.
  - exists (e :: l). by split_and!.
Qed.

(** What the buffer holds after [log] has been appended. *)
Definition holds (b : AiraChildEventBuffer) (log : list AiraChildEvent) : Prop :=
  items b `suffix_of` log ∧ totalChars b = cost (items b) ∧ zlen (items b) <= maxEvents b
  ∧ (cost (items b) <= maxChars b ∨ (length (items b) <= 1)%nat) ∧ last (items b) = last log.

Lemma suffix_last {A} (k l : list A) : k `suffix_of` l → k ≠ [] → last k = last l.
Proof. intros [p ->] Hk. destruct k as [|x k _] using rev_ind; [done|]. by rewrite app_assoc, !last_snoc. Qed.

Lemma append_holds e b log : 1 <= maxEvents b → holds b log → holds (append e b) (log ++ [e]).
Proof.
  intros Hm (Hs & Ht & _ & _ & _). unfold append.
  destruct (evict_chars_ok (items b ++ [e]) (totalChars b + eventChars e) (maxChars b)) as (k1 & -> & Hs1 & Hn1 & Hb1).
  { rewrite Ht, cost_app, cost_cons. unfold cost at 3. cbn. lia. }
  destruct (evict_count_ok k1 (cost k1) (maxEvents b)) as (k & -> & Hs2 & Hk & _ & Hn2); [lia|done|].
  assert (Hk0 : k ≠ []) by (apply Hn2; [done|apply Hn1; by destruct (items b)]).
  assert (Hsk : k `suffix_of` log ++ [e]).
  { etrans; [exact Hs2|]. etrans; [exact Hs1|]. destruct Hs as [p ->]. exists p. by rewrite app_assoc. }
  unfold holds. cbn. split; [done|]. split; [done|]. split; [done|]. split; [|by apply suffix_last].
  destruct Hs2 as [p ->]. destruct Hb1 as [Hb1|Hb1]; [left|right].
  - rewrite cost_app in Hb1. pose proof (cost_nonneg p). lia.
  - rewrite length_app in Hb1. lia.
Qed.

(** The buffer of a run, however many events are appended: it holds a suffix of all the events,
    in their order, and always the last one; at most [maxEvents] of them; its character count is
    the sum of their costs, and is within [maxChars] unless a single event exceeds it. *)
Theorem buffer_keeps_latest (maxEvents_ maxChars_ : Z) (log : list AiraChildEvent) (H : 1 <= maxEvents_) :
  let b := foldl (λ b e, append e b) (new_buffer maxEvents_ maxChars_) log in
  events b `suffix_of` log ∧ last_event b = last log ∧ zlen (events b) <= maxEvents_
  ∧ totalChars b = cost (events b) ∧ (totalChars b <= maxChars_ ∨ (length (events b) <= 1)%nat).
Proof.
  cbv zeta. set (b := foldl _ _ _).
  assert (Hb : holds b log ∧ maxEvents b = maxEvents_ ∧ maxChars b = maxChars_).
  { subst b. induction log as [|e log IH] using rev_ind; [unfold holds; split_and!; try done; [cbn; rewrite zlen_nil; lia|right; cbn; lia]|].
    rewrite foldl_app. cbn. destruct IH as (Hh & Hm & Hc). split; [apply append_holds; [lia|done]|].
    unfold append. destruct (evict_chars _ _ _). destruct (evict_count _ _ _). done. }
  destruct Hb as ((H1 & H2 & H3 & H4 & H5) & E1 & E2). rewrite E1 in H3. rewrite E2 in H4. unfold events, last_event. by rewrite H2.
Qed.

Lemma buffer_keeps_latest_witness :
  events (foldl (λ b e, append e b) (new_buffer 2 100) [ce_text 1 (js "a"); ce_text 2 (js "b"); ce_text 3 (js "c")])
    `suffix_of` [ce_text 1 (js "a"); ce_text 2 (js "b"); ce_text 3 (js "c")]
  ∧ length (events (foldl (λ b e, append e b) (new_buffer 2 100) [ce_text 1 (js "a"); ce_text 2 (js "b"); ce_text 3 (js "c")])) = 2%nat.
Proof. split; [apply (buffer_keeps_latest 2 100); lia|vm_compute; reflexivity]. Defined.

End ChildEvents.

(** * Orchestration: the context envelope of a child

    Models [aira/orchestration/envelope.ts], and of [aira/project/profile.ts] the summary of a
    project.  The envelope is all that a child is told: its task, its role, the mode and what the
    parent selected for it. *)

Module ChildEnvelope.
Import ChildData.

Definition MAX_CHILD_TASK_CHARS : Z := 4000.
Definition MAX_CHILD_FILES : Z := 50.
Definition MAX_CHILD_CONTEXT_CHARS : Z := 8000.
Definition MAX_CHILD_SUMMARY_CHARS : Z := 600.
Definition MAX_CHILD_FINDINGS : Z := 12.
Definition MAX_CHILD_FINDING_CHARS : Z := 300.
Definition MAX_CHILD_LIST_ITEMS : Z := 25.
Definition MAX_CHILD_ITEM_CHARS : Z := 200.

(** The fields of a project profile that its summary reads. *)
Record AiraProjectProfile := { pr_root : option jsstr; pr_languages : list jsstr; pr_confidence : jsstr }.

Fixpoint drop_slashes (s : jsstr) : jsstr := match s with u :: s' => if u =? 47 then drop_slashes s' else s | [] => [] end.
Fixpoint to_slash (s : jsstr) : jsstr := match s with u :: s' => if u =? 47 then [] else u :: to_slash s' | [] => [] end.
(** [path.basename(p)] *)
Definition basename (p : jsstr) : jsstr := rev (to_slash (drop_slashes (rev p))).

Definition summarizeAiraProject (profile : option AiraProjectProfile) : jsstr :=
  match profile with
  | Some {| pr_root := Some ((_ :: _) as root); pr_languages := languages; pr_confidence := c |} =>
      basename root ++ (match languages with [] => [] | _ => js " (" ++ join (js ", ") languages ++ js ")" end) ++ js " [" ++ c ++ js "]"
  | _ => js "none"
  end.

Record AiraChildEnvelopeInput := {
  in_role : AiraChildRole; in_task : jsstr; in_mode : AiraMode; in_projectRoot : jsstr; in_project : option AiraProjectProfile;
  in_files : option (list jsstr); in_context : option jsstr; in_mutatingAllowed : bool }.
Record AiraChildEnvelope := { prompt : jsstr; systemPrompt : jsstr }.

Definition lines (l : list jsstr) : jsstr := join [10] l.

Definition buildAiraChildSystemPrompt (input : AiraChildEnvelopeInput) : jsstr :=
  let role_ := airaChildRoleOf (in_role input) in
  let roleLabel := match role_ with Some d => ro_label d | None => role_name (in_role input) end in
  let resultEmphasis := match role_ with Some d => ro_resultEmphasis d
                        | None => js "Prioritize concrete, evidence-backed output over generic prose." end in
  let modeLine := Capabilities.airaModeLabel (in_mode input) in
  let boundaryLine := if in_mutatingAllowed input
    then js "You may use the tools provided to you — including workspace writes and managed process execution when your role has them."
    else js "You are read-only: workspace mutation and process execution are NOT available to you. Enforce this yourself if asked otherwise." in
  lines [ js "You are a native Aira child agent with role " ++ [34] ++ roleLabel ++ [34] ++ js " (mode: " ++ modeLine ++ js ").";
          js "Your task is bounded and self-contained: you work from the task envelope only, not from a parent";
          js "conversation. You do not spawn further agents. You do not browse."; boundaryLine; [];
          js "Work discipline:";
          js "- Read before concluding; use search to locate definitions and usage; prefer concrete references.";
          js "- Stay within the task; do not start unrelated work.";
          js "- Make the smallest coherent set of changes when your role permits changes.";
          js "- Your result is consumed by a parent orchestrator: it must be structured, bounded, and truthful.";
          resultEmphasis; []; js "Return the result as one JSON object exactly as specified in the task envelope." ].

(** A literal in which each single quote stands for a double quote. *)
Definition jq (s : string) : jsstr := (λ u, if u =? 39 then 34 else u) <$> js s.

Definition result_contract : list jsstr :=
  [ []; js "## Result contract"; js "Finish by returning ONE JSON object (no other text after it, optionally fenced in ```json):"; js "{";
    jq "  'status': 'completed' | 'failed',"; jq "  'summary': 'bounded summary of what you did (<= 600 chars)',";
    jq "  'findings': ['bounded findings with concrete references'],"; jq "  'evidence': ['concrete evidence references'],";
    jq "  'relevantFiles': ['paths'],"; jq "  'changedFiles': ['paths you changed — empty under read-only enforcement'],";
    jq "  'tests': ['tests/checks you performed'],"; jq "  'errors': ['explicit errors, if any']"; js "}";
    js "Keep the final JSON compact: <= 600 chars of summary, <= 12 findings, and <= 25 items per list.";
    js "Never paste file contents, diffs, or command output into the narration or the JSON — reference";
    js "paths and short identifiers only. Your final message must be only the JSON object.";
    js "Use tools as needed, then return the JSON as your final message." ].

Definition read_only_notice : list jsstr :=
  [ []; js "## Read-only enforcement";
    js "This child runs under read-only enforcement. You may only read, search, and inspect:";
    js "you have NO tools that write the workspace or execute processes. Your result must never"; js "claim a workspace change." ].

(** The lines of the prompt. *)
Definition sections (input : AiraChildEnvelopeInput) : list jsstr :=
  let roleLine := match airaChildRoleOf (in_role input) with
                  | Some d => ro_label d ++ js ": " ++ ro_description d
                  | None => js "Role: " ++ role_name (in_role input) end in
  let projectLine := match in_project input with
                     | Some p => summarizeAiraProject (Some p)
                     | None => js "root: " ++ in_projectRoot input end in
  let files := boundChildList (default [] (in_files input)) MAX_CHILD_FILES 200 in
  let context := boundChildText (default [] (in_context input)) MAX_CHILD_CONTEXT_CHARS in
  [ js "## Task"; boundChildText (in_task input) MAX_CHILD_TASK_CHARS; []; js "## Role"; roleLine; []; js "## Project"; projectLine;
    js "working directory: " ++ in_projectRoot input ]
  ++ (match files with [] => [] | _ => [[]; js "## Relevant files"] ++ ((λ f, js "- " ++ f) <$> files) end)
  ++ [[]; js "## Execution mode"; Capabilities.airaModeLabel (in_mode input);
      js "Control: " ++ Capabilities.buildAiraRuntimeModeEnvelope (in_mode input)]
  ++ (if in_mutatingAllowed input then [] else read_only_notice)
  ++ (match context with [] => [] | _ => [[]; js "## Context"; context] end)
  ++ result_contract.

Definition buildAiraChildEnvelope (input : AiraChildEnvelopeInput) : AiraChildEnvelope :=
  {| prompt := lines (sections input); systemPrompt := buildAiraChildSystemPrompt input |}.

End ChildEnvelope.
