(* ===== verification/ChildRunner.v ===== *)
(** * Orchestration: the runner of a child

    Models [aira/orchestration/runner.ts]: the bounded loop of model calls and gated tool calls,
    the recovery of a truncated result, the parsing of the result and the classification of every
    failure.  The capture of the stream's own events is in [ChildEvents]. *)
From S2P Require Import Prelude JsMap JsString OrchTypes Regex Json Failures ModelCall Verifier ChildData ChildEvents.

Module ChildRunner.
Import Json ModelCall.
#[local] Existing Instance ChildData.child_status_eq_dec.

Definition DEFAULT_CHILD_TIMEOUT_MS : Z := 300000.
Definition MAX_CHILD_TOOL_ROUNDS : Z := 8.
Definition MAX_CHILD_TOOL_CALLS_PER_ROUND : Z := 4.
Definition MAX_CHILD_TOOL_EXTENSIONS : Z := 1.
Definition CHILD_TOOL_EXTENSION_CALLS : Z := 8.
Definition MAX_CHILD_DIAGNOSTIC_EXCERPT_CHARS : Z := 300.
Definition CHILD_RESULT_CONTINUATION_PROMPT : jsstr :=
  js "Your previous message was cut off by the output limit before the required JSON result was complete. "
  ++ js "Reply with ONLY the final JSON result object from the task's Result contract. "
  ++ js "Do not call tools, do not add prose or markdown fences, and keep every field as short as possible.".

Record gate_decision := { block_ : bool; gate_reason : option jsstr }.
Definition gate : Type := jsstr → json → option gate_decision.

(** The options; [rn_tools] are the names of the tools, [rn_signal] says whether the caller's
    signal, when it gave one, has aborted already. *)
Record AiraChildRunnerOptions := {
  rn_prompt : jsstr; rn_tools : list jsstr; rn_gateTool : option gate; rn_timeoutMs : option Z; rn_maxToolRounds : option Z;
  rn_signal : option bool }.

Inductive AiraChildOutcome :=
| c_ok (result : ChildData.AiraChildResult) (model : jsstr) (tokenUsage : option AiraChildTokenUsage) (budget : Verifier.telemetry)
| c_fail (driverError : jsstr) (error : option Failures.AiraChildFailureInfo) (budget : Verifier.telemetry).

(** ** The result in a text *)

(** The source has the function a second time, for the verdict of the verifier. *)
Definition parseChildResult (text : jsstr) : option json := Verifier.parseVerifierVerdict text.

Definition asStringList (v : option json) : list jsstr := ChildEvents.strings_of v.

Definition normalizeChildResult (value : json) : ChildData.AiraChildResult :=
  let status := if string_is (prop "status" value) "failed" then ChildData.child_failed else ChildData.child_completed in
  let summary := ChildData.boundChildText (match prop "summary" value with Some (j_string s) => s | _ => [] end)
                   ChildEnvelope.MAX_CHILD_SUMMARY_CHARS in
  let list_of key items chars := ChildData.boundChildList (asStringList (prop key value)) items chars in
  let items key := list_of key ChildEnvelope.MAX_CHILD_LIST_ITEMS ChildEnvelope.MAX_CHILD_ITEM_CHARS in
  {| ChildData.cr_status := status;
     ChildData.cr_summary := match summary with
       | _ :: _ => summary
       | [] => if bool_decide (status = ChildData.child_failed) then js "Child reported failure without a summary."
               else js "Child returned no summary." end;
     ChildData.cr_findings := list_of "findings"%string ChildEnvelope.MAX_CHILD_FINDINGS ChildEnvelope.MAX_CHILD_FINDING_CHARS;
     ChildData.cr_evidence := items "evidence"%string; ChildData.cr_relevantFiles := items "relevantFiles"%string;
     ChildData.cr_changedFiles := items "changedFiles"%string; ChildData.cr_tests := items "tests"%string;
     ChildData.cr_errors := items "errors"%string |}.

(** ** Failures *)

Definition no_evidence : Failures.AiraFailureEvidence :=
  {| Failures.e_origin := None; Failures.e_message := None; Failures.e_code := None; Failures.e_status := None;
     Failures.e_component := None; Failures.e_operation := None; Failures.e_taskStatus := None; Failures.timedOut := false;
     Failures.cancelled := false; Failures.e_capabilityGaps := None; Failures.e_diagnostics := None |}.
#[export] Instance evidence_rebuild : Rebuild Failures.AiraFailureEvidence := λ e,
  Failures.Build_AiraFailureEvidence (Failures.e_origin e) (Failures.e_message e) (Failures.e_code e) (Failures.e_status e)
    (Failures.e_component e) (Failures.e_operation e) (Failures.e_taskStatus e) (Failures.timedOut e) (Failures.cancelled e)
    (Failures.e_capabilityGaps e) (Failures.e_diagnostics e).
Definition evidence_at (component operation : string) (message : jsstr) : Failures.AiraFailureEvidence :=
  no_evidence <| Failures.e_message := Some message |> <| Failures.e_component := Some (js component) |>
              <| Failures.e_operation := Some (js operation) |>.

Definition childAbortEvidence (d : AiraRunDeadline) (timeoutMs : Z) : option Failures.AiraFailureEvidence :=
  match kind d with
  | Some abort_timeout =>
      Some (evidence_at "child-run" "timeout" (js "child timed out after " ++ num_str timeoutMs ++ js "ms") <| Failures.timedOut := true |>)
  | Some abort_cancelled =>
      Some (evidence_at "child-run" "cancel" (js "child cancelled") <| Failures.cancelled := true |>
              <| Failures.e_taskStatus := Some attempted |>)
  | None => None
  end.

Definition stop_name (s : stop_reason) : jsstr :=
  match s with s_stop => js "stop" | s_length => js "length" | s_toolUse => js "toolUse" | s_error => js "error" | s_aborted => js "aborted" end.
Definition code_of (f : Failures.field) : option Failures.code_value :=
  match f with Failures.f_text s => Some (Failures.code_text s) | Failures.f_number z => Some (Failures.code_number z) | _ => None end.
Definition number_of (f : Failures.field) : option Z := match f with Failures.f_number z => Some z | _ => None end.

(** The last diagnostic that has an error. *)
Definition error_diagnostic (m : AssistantMessage) : option AssistantMessageDiagnostic :=
  list.last (filter (λ g, is_Some (dg_error g)) (default [] (am_diagnostics m))).

Definition childProviderFailureEvidence (m : AssistantMessage) (d : AiraRunDeadline) : Failures.AiraFailureEvidence :=
  let cancelled := bool_decide (am_stopReason m = s_aborted) || bool_decide (is_Some (kind d)) in
  let diagnostic := error_diagnostic m in
  evidence_at "child-provider" "stream" (default (js "child " ++ stop_name (am_stopReason m)) (am_errorMessage m))
    <| Failures.cancelled := cancelled |>
    <| Failures.e_origin := if cancelled then None else Some Failures.o_capability |>
    <| Failures.e_code := diagnostic ≫= λ g, dg_error g ≫= code_of |>
    <| Failures.e_status := diagnostic ≫= λ g, number_of (Failures.readField_nullish (dg_status g) (dg_statusCode g)) |>
    <| Failures.e_taskStatus := Some attempted |>.

Definition failed (e : Failures.AiraFailureEvidence) (budget : Verifier.telemetry) : AiraChildOutcome :=
  let failure := Failures.classifyAiraChildFailure e in c_fail (Failures.message failure) (Some failure) budget.

Definition over_budget : Failures.AiraFailureEvidence :=
  evidence_at "child-run" "tool-budget" (js "child exceeded its tool budget") <| Failures.e_origin := Some Failures.o_task |>.

(** ** Tools *)

Record tool_end := { te_message : ToolResultMessage; te_isError : bool; te_summary : jsstr; te_detail : option jsstr }.

Fixpoint first_line (t : jsstr) : jsstr := match t with u :: t => if u =? 10 then [] else u :: first_line t | [] => [] end.

Definition tool_failure (call : ToolCall) (text : jsstr) : tool_end :=
  {| te_message := toolResultMessage call [b_text text] true; te_isError := true; te_summary := text; te_detail := None |}.
Definition tool_success (call : ToolCall) (content : list block) : tool_end :=
  let text := trim (join [10] (omap as_text content)) in
  {| te_message := toolResultMessage call content (toolResultIsError content); te_isError := toolResultIsError content;
     te_summary := slice0 ChildEvents.MAX_CHILD_EVENT_RESULT_SUMMARY_CHARS (first_line text);
     te_detail := match text with [] => None | _ => Some text end |}.

Definition executeChildTool (tools : list jsstr) (call : ToolCall) (run : Verifier.tool_run) : list (happening tool_end) :=
  if bool_decide (call_name call ∈ tools) then
    (fires <$> Verifier.fires_before run)
    ++ [resolves (match Verifier.ended run with
                  | Verifier.t_returns content => tool_success call content
                  | Verifier.t_throws m => tool_failure call (js "Error: " ++ m)
                  end)]
    ++ (fires <$> Verifier.fires_after run)
  else [resolves (tool_failure call (js "Error: unknown tool " ++ call_name call))].

(** [args.path ?? args.file_path], if it is a text that is not empty. *)
Definition toolPath (call : ToolCall) : option jsstr :=
  match nullish (prop "path" (arguments_of call)) (prop "file_path" (arguments_of call)) with
  | Some (j_string ((_ :: _) as p)) => Some p | _ => None end.

Definition gate_text (g : gate_decision) : jsstr := default (js "blocked by permission policy") (gate_reason g).
Definition blocks (options : AiraChildRunnerOptions) (call : ToolCall) : option gate_decision :=
  match rn_gateTool options with
  | Some gate => match gate (call_name call) (arguments_of call) with Some g => if block_ g then Some g else None | None => None end
  | None => None
  end.

(** ** The loop *)

(** What the runner does outside, in order: calls of the model, executions of a tool that it has,
    and what the event sink and the mutation callback get when they are there. *)
Inductive effect :=
| x_model (messages : list Message) (tools : list jsstr) | x_execute (call : ToolCall)
| x_event (e : ChildEvents.AiraChildEvent) | x_mutation (path : jsstr).

Record runner := {
  allowedRounds : Z; toolBudgetLimit : Z; toolCallsUsed : Z; toolBudgetExtensions : Z; workspaceMutated : bool;
  seenToolCalls : list jsstr; messages : list Message; totalUsage : option AiraChildTokenUsage; round : Z; roundHadProgress : bool;
  deadline : AiraRunDeadline; effects : list effect }.
#[export] Instance runner_rebuild : Rebuild runner := λ s,
  Build_runner (allowedRounds s) (toolBudgetLimit s) (toolCallsUsed s) (toolBudgetExtensions s) (workspaceMutated s)
    (seenToolCalls s) (messages s) (totalUsage s) (round s) (roundHadProgress s) (deadline s) (effects s).

Definition telemetry (s : runner) : Verifier.telemetry := Some (toolCallsUsed s, toolBudgetLimit s, toolBudgetExtensions s).
Definition emit (e : effect) (s : runner) : runner := s <| effects := effects s ++ [e] |>.

Definition exceeded (s : runner) : bool :=
  (allowedRounds s <=? round s) && ((MAX_CHILD_TOOL_EXTENSIONS <=? toolBudgetExtensions s) || negb (roundHadProgress s)).
Definition extend (s : runner) : runner :=
  if allowedRounds s <=? round s then
    s <| allowedRounds := allowedRounds s + Verifier.ceil_div CHILD_TOOL_EXTENSION_CALLS MAX_CHILD_TOOL_CALLS_PER_ROUND |>
      <| toolBudgetLimit := toolBudgetLimit s + CHILD_TOOL_EXTENSION_CALLS |>
      <| toolBudgetExtensions := toolBudgetExtensions s + 1 |>
  else s.
Definition begin_round (s : runner) : runner := s <| round := round s + 1 |> <| roundHadProgress := false |>.
Definition count_call (call : ToolCall) (s : runner) : runner :=
  s <| toolCallsUsed := toolCallsUsed s + 1 |>
    <| seenToolCalls := if bool_decide (Verifier.signature call ∈ seenToolCalls s) then seenToolCalls s
                        else seenToolCalls s ++ [Verifier.signature call] |>.

Definition start_state (o : AiraChildRunnerOptions) : runner :=
  let maxRounds := default MAX_CHILD_TOOL_ROUNDS (rn_maxToolRounds o) in
  {| allowedRounds := maxRounds; toolBudgetLimit := maxRounds * MAX_CHILD_TOOL_CALLS_PER_ROUND; toolCallsUsed := 0;
     toolBudgetExtensions := 0; workspaceMutated := false; seenToolCalls := []; messages := [m_user (rn_prompt o)];
     totalUsage := None; round := 0; roundHadProgress := false; deadline := createAiraRunDeadline (rn_signal o); effects := [] |}.

Section Run.
(** The model, from the messages and the tools it is sent; the tools, from what was done before;
    the clock, from the same; [createHash("sha256").update(…).digest("hex")]. *)
Context (complete : list Message → list jsstr → list (happening AssistantMessage)).
Context (execute : list effect → ToolCall → Verifier.tool_run) (clock : list effect → Z) (sha256_hex : jsstr → jsstr).
Context (o : AiraChildRunnerOptions).

Definition now (s : runner) : Z := clock (effects s).

(** [await deadline.race(callModelStream(…)); accumulateUsage(…)] *)
Definition call_model (tools : list jsstr) (msgs : list Message) (s : runner) : runner * settled AssistantMessage :=
  let s := emit (x_model msgs tools) s in
  let '(d, r) := race (deadline s) (complete msgs tools) in
  let s := s <| deadline := d |> in
  match r with got m => (s <| totalUsage := Verifier.accumulateUsage m (totalUsage s) |>, got m) | _ => (s, r) end.

(** A call that the gate blocks. *)
Definition refuse (call : ToolCall) (g : gate_decision) (s : runner) : runner * ToolResultMessage :=
  (emit (x_event (ChildEvents.ce_permission (now s) (call_name call) (gate_text g) (Some false))) s,
   toolResultMessage call [b_text (gate_text g)] true).

Definition is_edit_tool (name : jsstr) : bool := str_eqb name (js "edit") || str_eqb name (js "write").

(** After a tool has ended. *)
Definition after_tool (call : ToolCall) (isNew : bool) (out : tool_end) (s : runner) : runner :=
  let s := if negb (te_isError out) && is_edit_tool (call_name call) then
             match toolPath call with Some p => emit (x_mutation p) (s <| workspaceMutated := true |>) | None => s end
           else s in
  let s := if isNew && negb (te_isError out) then s <| roundHadProgress := true |> else s in
  emit (x_event (ChildEvents.ce_tool_result (now s) (call_id call) (call_name call) (te_isError out)
         (ChildEvents.boundChildEventText (te_summary out) ChildEvents.MAX_CHILD_EVENT_RESULT_SUMMARY_CHARS)
         ((λ d, ChildEvents.boundChildEventText d ChildEvents.MAX_CHILD_EVENT_RESULT_DETAIL_CHARS) <$> te_detail out))) s.

(** [for (const call of calls)]; the error that ends it is [None] for the race's own. *)
Fixpoint run_calls (s : runner) (calls : list ToolCall) (results : list ToolResultMessage)
    : runner * (list ToolResultMessage + option Failures.thrown) :=
  match calls with
  | [] => (s, inl results)
  | call :: calls =>
      let isNewToolCall := negb (bool_decide (Verifier.signature call ∈ seenToolCalls s)) in
      let s := count_call call s in
      match blocks o call with
      | Some g => let '(s, result) := refuse call g s in run_calls s calls (results ++ [result])
      | None =>
          let s := if bool_decide (call_name call ∈ rn_tools o) then emit (x_execute call) s else s in
          let '(d, r) := race (deadline s) (executeChildTool (rn_tools o) call (execute (effects s) call)) in
          let s := s <| deadline := d |> in
          match r with
          | got out => run_calls (after_tool call isNewToolCall out s) calls (results ++ [te_message out])
          | threw e => (s, inr (Some e))
          | aborted => (s, inr None)
          end
      end
  end.

(** [catch] *)
Definition failed_with (s : runner) (timeoutMs : Z) (error : option Failures.thrown) : AiraChildOutcome :=
  let caught := Failures.toAiraFailureEvidence (default Failures.thrown_other error) (js "child run failed") in
  let own := caught <| Failures.e_origin := Some (default Failures.o_capability (Failures.e_origin caught)) |>
                    <| Failures.e_component := Some (default (js "child-provider") (Failures.e_component caught)) |>
                    <| Failures.e_operation := Some (default (js "stream") (Failures.e_operation caught)) |>
                    <| Failures.e_taskStatus := Some (default attempted (Failures.e_taskStatus caught)) |> in
  failed (default own (childAbortEvidence (deadline s) timeoutMs)) (telemetry s).

Definition diagnosticExcerpt (v : jsstr) : jsstr :=
  ChildData.boundChildText (Failures.sanitizeAiraFailureMessage v) MAX_CHILD_DIAGNOSTIC_EXCERPT_CHARS.
(** [raw.slice(-n)] for [n > 0] *)
Definition slice_last (n : Z) (raw : jsstr) : jsstr := drop (length raw - Z.to_nat n) raw.
Definition buildChildResultDiagnostics (raw stopReason : jsstr) (mutated : bool) : Failures.AiraChildResultDiagnostics :=
  {| Failures.stopReason := stopReason; Failures.rawLength := zlen raw; Failures.rawSha256 := sha256_hex raw;
     Failures.head := diagnosticExcerpt (slice0 MAX_CHILD_DIAGNOSTIC_EXCERPT_CHARS raw);
     Failures.tail := diagnosticExcerpt (slice_last MAX_CHILD_DIAGNOSTIC_EXCERPT_CHARS raw); Failures.workspaceMutated := mutated |}.

(** What becomes of the final message: its object, or a protocol failure. *)
Definition deliver (s : runner) (m : AssistantMessage) : AiraChildOutcome :=
  match parseChildResult (contentText m) with
  | Some parsed => c_ok (normalizeChildResult parsed) (default (am_model m) (am_responseModel m)) (totalUsage s) (telemetry s)
  | None =>
      let truncated := bool_decide (am_stopReason m = s_length) in
      failed (evidence_at "child-protocol" "parse-result"
                (if truncated then js "child result truncated before a valid structured result" else js "child returned no valid structured result")
                <| Failures.e_origin := Some Failures.o_capability |>
                <| Failures.e_code := if truncated then Some (Failures.code_text (js "child-result-truncated")) else None |>
                <| Failures.e_taskStatus := Some (if workspaceMutated s || (0 <? toolCallsUsed s) then attempted else not_attempted) |>
                <| Failures.e_diagnostics := Some (buildChildResultDiagnostics (contentText m) (stop_name (am_stopReason m)) (workspaceMutated s)) |>)
        None
  end.

(** After the loop; a result that was cut off is asked for once more, without tools. *)
Definition conclude (timeoutMs : Z) (s : runner) (m : AssistantMessage) : runner * AiraChildOutcome :=
  if hasToolCalls m then (s, failed over_budget (telemetry s))
  else if bool_decide (am_stopReason m = s_error) || bool_decide (am_stopReason m = s_aborted) then
    (s, failed (default (childProviderFailureEvidence m (deadline s)) (childAbortEvidence (deadline s) timeoutMs)) None)
  else match parseChildResult (contentText m) with
  | None =>
      if bool_decide (am_stopReason m = s_length) then
        match call_model [] (messages s ++ [m_assistant m; m_user CHILD_RESULT_CONTINUATION_PROMPT]) s with
        | (s, got continued) => (s, deliver s continued)
        | (s, r) => (s, failed_with s timeoutMs (Verifier.error_of r))
        end
      else (s, deliver s m)
  | Some _ => (s, deliver s m)
  end.

(** [while (hasToolCalls(assistant))] *)
Fixpoint rounds (fuel : nat) (timeoutMs : Z) (s : runner) (assistant : AssistantMessage) : option (runner * AiraChildOutcome) :=
  match fuel with
  | O => None
  | S fuel =>
      if negb (hasToolCalls assistant) then Some (conclude timeoutMs s assistant)
      else if exceeded s then Some (s, failed over_budget (telemetry s))
      else
        let s1 := begin_round (extend s) in
        match take (Z.to_nat MAX_CHILD_TOOL_CALLS_PER_ROUND) (toolCallsOf assistant) with
        | [] => Some (conclude timeoutMs s1 assistant)
        | calls =>
            match run_calls s1 calls [] with
            | (s2, inr e) => Some (s2, failed_with s2 timeoutMs e)
            | (s2, inl results) =>
                let s3 := s2 <| messages := messages s2 ++ m_assistant assistant :: (m_toolResult <$> results) |> in
                match call_model (rn_tools o) (messages s3) s3 with
                | (s4, got m) => rounds fuel timeoutMs s4 m
                | (s4, r) => Some (s4, failed_with s4 timeoutMs (Verifier.error_of r))
                end
            end
        end
  end.

(** Enough rounds for the budget and its one extension. *)
Definition enough_fuel : nat := S (Z.to_nat (default MAX_CHILD_TOOL_ROUNDS (rn_maxToolRounds o) + 3)).

Definition run_with_model : option (runner * AiraChildOutcome) :=
  let timeoutMs := default DEFAULT_CHILD_TIMEOUT_MS (rn_timeoutMs o) in
  let s := start_state o in
  let r := match call_model (rn_tools o) (messages s) s with
           | (s1, got m) => rounds enough_fuel timeoutMs s1 m
           | (s1, r) => Some (s1, failed_with s1 timeoutMs (Verifier.error_of r))
           end in
  (λ p, (p.1 <| deadline := dispose (deadline p.1) |>, p.2)) <$> r.

Definition runAiraChild (hasModel : bool) : option AiraChildOutcome :=
  if negb hasModel then
    Some (failed (evidence_at "child-model" "resolve" (js "no child model configured") <| Failures.e_origin := Some Failures.o_capability |>) None)
  else snd <$> run_with_model.
End Run.

End ChildRunner.
