(* ===== verification/ChildRunnerProps.v ===== *)
(** * Properties of the child runner

    A run ends within its budgets, whatever the model and the tools do; it executes only tools of
    the set that the gate lets through; a child is told nothing but its prompt and its own turns;
    a failure is blamed on the task only when the task used up its tools. *)
From S2P Require Import Prelude JsMap JsString OrchTypes Regex Json Failures ModelCall Verifier ChildData ChildEvents ChildRunner.

Module ChildRunnerProps.
Import Json ModelCall ChildRunner.

(** ** What a run may do *)

Section Lawful.
Context (o : AiraChildRunnerOptions).

(** A transcript of the child's own: its prompt, its messages, its results, and the request to repeat. *)
Definition isolated (msgs : list Message) : Prop :=
  ∃ l, msgs = m_user (rn_prompt o) :: l ∧ ∀ t, m_user t ∈ l → t = CHILD_RESULT_CONTINUATION_PROMPT.

(** What an effect needs of the effects before it. *)
Definition allowed (before : list effect) (e : effect) : Prop :=
  match e with
  | x_model msgs tools => isolated msgs ∧ (tools = rn_tools o ∨ tools = [])
  | x_execute call => call_name call ∈ rn_tools o ∧ blocks o call = None
  | x_mutation p => ∃ before' call, before = before' ++ [x_execute call] ∧ is_edit_tool (call_name call) = true ∧ toolPath call = Some p
  | x_event _ => True
  end.
Inductive lawful : list effect → Prop :=
| lawful_nil : lawful []
| lawful_snoc fx e : lawful fx → allowed fx e → lawful (fx ++ [e]).

Lemma lawful_at fx before e after : lawful fx → fx = before ++ e :: after → allowed before e.
Proof.
  intros H. revert before e after. induction H as [|fx x _ IH Hx]; intros before e after E; [by destruct before|].
  destruct after as [|y after _] using rev_ind.
  - by apply app_inj_tail in E as [-> ->].
  - rewrite app_comm_cons, app_assoc in E. apply app_inj_tail in E as [-> _]. by eapply IH.
Qed.
End Lawful.

Definition model_calls (fx : list effect) : Z := zlen (omap (λ e, match e with x_model m _ => Some m | _ => None end) fx).
Definition executions (fx : list effect) : Z := zlen (omap (λ e, match e with x_execute c => Some c | _ => None end) fx).
Lemma model_calls_app l k : model_calls (l ++ k) = model_calls l + model_calls k.
Proof. unfold model_calls. by rewrite omap_app, zlen_app. Qed.
Lemma executions_app l k : executions (l ++ k) = executions l + executions k.
Proof. unfold executions. by rewrite omap_app, zlen_app. Qed.
#[local] Arguments model_calls : simpl never.
#[local] Arguments executions : simpl never.

(** ** The invariant of the loop *)

Section Run.
Context (complete : list Message → list jsstr → list (happening AssistantMessage)).
Context (execute : list effect → ToolCall → Verifier.tool_run) (clock : list effect → Z) (sha : jsstr → jsstr).
Context (o : AiraChildRunnerOptions).
Notation N := (default MAX_CHILD_TOOL_ROUNDS (rn_maxToolRounds o)).

(** The messages without the prompt are no user's. *)
Definition own_turns (msgs : list Message) : Prop := ∃ l, msgs = m_user (rn_prompt o) :: l ∧ ∀ t, m_user t ∉ l.
Lemma own_isolated msgs : own_turns msgs → isolated o msgs.
Proof. intros (l & -> & Hl). exists l. split; [done|]. intros t Ht. by destruct (Hl t). Qed.

(** [calls] model calls have been made. *)
Record run_inv (calls : Z) (s : runner) : Prop := {
  inv_lawful : lawful o (effects s);
  inv_models : model_calls (effects s) = calls;
  inv_round : 0 <= round s;
  inv_messages : own_turns (messages s);
  inv_allowed : allowedRounds s = N + 2 * toolBudgetExtensions s;
  inv_extensions : 0 <= toolBudgetExtensions s <= 1;
  inv_bound : round s <= Z.max 0 (allowedRounds s);
  inv_executions : executions (effects s) <= 4 * round s;
  inv_progress : roundHadProgress s = true → 1 <= round s }.

(** Steps inside of a round. *)
Record inside (s s' : runner) : Prop := {
  in_messages : messages s' = messages s; in_round : round s' = round s; in_allowed : allowedRounds s' = allowedRounds s;
  in_extensions : toolBudgetExtensions s' = toolBudgetExtensions s }.
#[local] Instance inside_preorder : PreOrder inside.
Proof. split; [done|]. intros a b c [] []. split; congruence. Qed.

(** [n] calls of a round are still to come. *)
Definition calling (n m : Z) (s : runner) : Prop :=
  lawful o (effects s) ∧ executions (effects s) <= 4 * round s - n ∧ model_calls (effects s) = m ∧ 0 <= n.

Lemma emit_calling n m e s : allowed o (effects s) e → executions [e] = 0 → model_calls [e] = 0 → calling n m s → calling n m (emit e s).
Proof.
  intros Ha He Hm (Hl & Hx & Hmod & Hn). split; [by apply lawful_snoc|]. cbn.
  rewrite executions_app, model_calls_app, He, Hm. split_and!; [lia|lia|done].
Qed.

Lemma after_tool_calling n m call isNew out s :
  (te_isError out = false → ∃ fx, effects s = fx ++ [x_execute call]) →
  calling n m s → calling n m (after_tool clock call isNew out s) ∧ inside s (after_tool clock call isNew out s).
Proof.
  intros Hlast Hc. unfold after_tool.
  set (s1 := if negb (te_isError out) && is_edit_tool (call_name call) then _ else s).
  assert (H1 : calling n m s1 ∧ inside s s1).
  { unfold s1. destruct (te_isError out) eqn:Eo; cbn; [done|]. destruct (is_edit_tool _) eqn:Ee; [|done].
    destruct (toolPath call) as [p|] eqn:Ep; [|done]. split; [|done]. apply emit_calling; [|done..|by destruct Hc as (? & ? & ?)].
    destruct (Hlast eq_refl) as [fx Hfx]. exists fx, call. done. }
  clearbody s1. set (s2 := if isNew && negb (te_isError out) then _ else s1).
  assert (H2 : calling n m s2 ∧ inside s s2) by (unfold s2; case_match; [|done]; destruct H1 as [H1 []]; by split).
  clearbody s2. destruct H2 as [H2 I2]. split; [by apply emit_calling|]. destruct I2. by split.
Qed.

Lemma executed_ok call run d d' out :
  race d (executeChildTool (rn_tools o) call run) = (d', got out) → te_isError out = false → call_name call ∈ rn_tools o.
Proof.
  intros (x & h & Hh & Hx)%VerifierProps.race_got He. unfold executeChildTool in Hh. case_bool_decide; [done|]. by simplify_eq/=.
Qed.

Lemma run_calls_calling m calls : ∀ s results s' r, run_calls execute clock o s calls results = (s', r) →
  calling (zlen calls) m s → calling 0 m s' ∧ inside s s'.
Proof.
  induction calls as [|call calls IH]; intros s results s' r H Hc; cbn [run_calls] in H.
  { simplify_eq. by rewrite zlen_nil in Hc. }
  rewrite zlen_cons in Hc. pose proof (zlen_nonneg calls) as Hz.
  assert (Hc1 : calling (1 + zlen calls) m (count_call call s)) by exact Hc.
  assert (Hi1 : inside s (count_call call s)) by done.
  set (s1 := count_call call s) in *. set (isNew := negb (bool_decide (Verifier.signature call ∈ seenToolCalls s))) in *.
  clearbody s1 isNew. cbv zeta in H.
  destruct (blocks o call) as [g|] eqn:Eg.
  - unfold refuse in H. apply IH in H as [H1 H2].
    + split; [done|]. etrans; [exact Hi1|]. etrans; [|exact H2]. done.
    + apply emit_calling; [done..|]. destruct Hc1 as (? & ? & ? & ?). split_and!; [done|lia|done|lia].
  - set (s2 := if bool_decide (call_name call ∈ rn_tools o) then emit (x_execute call) s1 else s1) in H.
    assert (H2 : calling (zlen calls) m s2 ∧ inside s s2 ∧ (call_name call ∈ rn_tools o → ∃ fx, effects s2 = fx ++ [x_execute call])).
    { destruct Hc1 as (Hl & Hx & Hm & Hn). unfold s2. case_bool_decide; [|by split_and!; [split_and!; [done|lia|done|lia]|..]].
      split_and!; [|by destruct Hi1; split|by eexists]. split_and!; [by apply lawful_snoc|cbn..|lia].
      - rewrite executions_app. unfold executions at 2. cbn. rewrite zlen_cons, zlen_nil. lia.
      - rewrite model_calls_app, Hm. unfold model_calls. cbn. rewrite zlen_nil. lia. }
    clearbody s2. destruct H2 as (H2 & I2 & L2). destruct (race _ _) as [d [out|e|]] eqn:Er.
    + assert (Ha : calling (zlen calls) m (after_tool clock call isNew out (s2 <| deadline := d |>))
                   ∧ inside (s2 <| deadline := d |>) (after_tool clock call isNew out (s2 <| deadline := d |>))).
      { apply after_tool_calling; [|exact H2]. intros Ho. apply L2. by eapply executed_ok. }
      destruct Ha as [H3 I3]. apply IH in H as [H4 I4]; [|exact H3]. split; [exact H4|].
      etrans; [exact I2|]. etrans; [|exact I4]. destruct I3. by split.
    + simplify_eq. destruct H2 as (? & ? & ? & ?). split; [split_and!; [done|cbn; lia|done|lia]|]. destruct I2. by split.
    + simplify_eq. destruct H2 as (? & ? & ? & ?). split; [split_and!; [done|cbn; lia|done|lia]|]. destruct I2. by split.
Qed.

(** One call of the model. *)
Lemma child_call_keeps tools msgs s s' r : call_model complete tools msgs s = (s', r) →
  lawful o (effects s) → isolated o msgs → tools = rn_tools o ∨ tools = [] →
  inside s s' ∧ roundHadProgress s' = roundHadProgress s ∧ lawful o (effects s')
  ∧ model_calls (effects s') = model_calls (effects s) + 1 ∧ executions (effects s') = executions (effects s)
  ∧ ∀ m, r = got m → ∃ h, complete msgs tools = resolves m :: h.
Proof.
  unfold call_model. intros H Hl Hi Ht.
  assert (Hl' : lawful o (effects s ++ [x_model msgs tools])) by (by apply lawful_snoc).
  assert (Hm : model_calls (effects s ++ [x_model msgs tools]) = model_calls (effects s) + 1).
  { rewrite model_calls_app. unfold model_calls at 2. cbn. by rewrite zlen_cons, zlen_nil. }
  assert (Hx : executions (effects s ++ [x_model msgs tools]) = executions (effects s)).
  { rewrite executions_app. unfold executions at 2. cbn. rewrite zlen_nil. lia. }
  destruct (race _ _) as [d [m|e|]] eqn:Er; simplify_eq; cbn.
  - split_and!; try done. intros m' [= <-]. apply VerifierProps.race_got in Er as (x & h & Hh & ->). by exists h.
  - by split_and!.
  - by split_and!.
Qed.

Lemma child_extend_inv c s : run_inv c s → exceeded s = false → run_inv c (extend s) ∧ round (extend s) < allowedRounds (extend s).
Proof.
  intros [Hl Hm H0 Hms Ha He Hb Hx Hp] Hex. unfold exceeded in Hex. unfold extend.
  destruct (Z.leb_spec (allowedRounds s) (round s)); [|by split; [constructor|]].
  cbn in Hex. apply orb_false_iff in Hex as [Hex Hg%negb_false_iff]. specialize (Hp Hg).
  unfold MAX_CHILD_TOOL_EXTENSIONS in Hex. bool_prop.
  change (Verifier.ceil_div CHILD_TOOL_EXTENSION_CALLS MAX_CHILD_TOOL_CALLS_PER_ROUND) with 2.
  split; [constructor|]; cbn; try done; lia.
Qed.

Lemma own_turns_app msgs m results : own_turns msgs → own_turns (msgs ++ m_assistant m :: (m_toolResult <$> results)).
Proof.
  intros (l & -> & Hl). exists (l ++ m_assistant m :: (m_toolResult <$> results)). split; [done|]. intros t Ht.
  apply elem_of_app in Ht as [Ht|Ht]; [by eapply Hl|]. apply elem_of_cons in Ht as [?|Ht]; [done|].
  by apply list_elem_of_fmap in Ht as (? & ? & _).
Qed.

(** A round of the loop, from its beginning to the next answer of the model. *)
Lemma round_inv c s m s2 results s4 r : run_inv c s → round s < allowedRounds s →
  run_calls execute clock o (begin_round s) (take 4 (toolCallsOf m)) [] = (s2, inl results) →
  (let s3 := s2 <| messages := messages s2 ++ m_assistant m :: (m_toolResult <$> results) |> in
   call_model complete (rn_tools o) (messages s3) s3) = (s4, r) →
  run_inv (c + 1) s4 ∧ round s4 = round s + 1 ∧ ∀ m', r = got m' → ∃ msgs h, complete msgs (rn_tools o) = resolves m' :: h.
Proof.
  intros [Hl Hm H0 Hms Ha He Hb Hx Hp] Hlt H1 H2. pose proof (zlen_take 4 (toolCallsOf m)) as Ht. pose proof (zlen_nonneg (take 4 (toolCallsOf m))).
  destruct (run_calls_calling c _ _ _ _ _ H1) as [(Cl & Cx & Cm & _) [K1 K2 K3 K4]]; [split_and!; cbn; try done; lia|].
  cbn in K1, K2, K3, K4.
  assert (Hown : own_turns (messages s2 ++ m_assistant m :: (m_toolResult <$> results))) by (apply own_turns_app; by rewrite K1).
  cbv zeta in H2. apply child_call_keeps in H2 as ([L1 L2 L3 L4] & Hpr & Cl' & Cm' & Cx' & Hc'); [|exact Cl|by apply own_isolated|by left].
  cbn in L1, L2, L3, L4, Cm', Cx'. split; [|split; [lia|]].
  - constructor; try done; try lia. by rewrite L1.
  - intros m' Hm'. destruct (Hc' m' Hm') as [h Hh]. eauto.
Qed.

(** ** The end of a run *)

Definition ended (s : runner) : Prop :=
  lawful o (effects s) ∧ 0 <= toolBudgetExtensions s <= 1 ∧ model_calls (effects s) <= 2 + Z.max 0 (N + 2 * toolBudgetExtensions s)
  ∧ executions (effects s) <= 4 * Z.max 0 (N + 2 * toolBudgetExtensions s).

Lemma inv_ended c s : run_inv c s → c <= 2 + round s → ended s.
Proof. intros [] Hc. split_and!; try done; lia. Qed.

(** Who is to blame, and where a result is from. *)
Definition explained (d : AiraRunDeadline) (out : AiraChildOutcome) : Prop :=
  match out with
  | c_ok r mdl _ _ => ∃ msgs tools m h parsed, complete msgs tools = resolves m :: h ∧ parseChildResult (contentText m) = Some parsed
      ∧ r = normalizeChildResult parsed ∧ mdl = default (am_model m) (am_responseModel m)
  | c_fail _ None _ => False
  | c_fail text (Some f) _ =>
      text = Failures.message f
      ∧ (Failures.kind f = task_failure → text = js "child exceeded its tool budget")
      ∧ (Failures.kind f = kind_timeout → kind d = Some abort_timeout)
      ∧ (Failures.kind f = kind_cancelled → kind d = Some abort_cancelled ∨ ∃ msgs tools m h, complete msgs tools = resolves m :: h ∧ am_stopReason m = s_aborted)
  end.

Lemma over_budget_explained d b : explained d (failed over_budget b).
Proof. cbn. split_and!; [done|intros _; vm_compute; reflexivity|intros H; vm_compute in H; done|intros H; vm_compute in H; done]. Qed.

(** A failure whose evidence is neither a task's nor an abort of its own. *)
Lemma failed_explained d e b :
  Failures.e_origin e ≠ Some Failures.o_task →
  (Failures.timedOut e = true → kind d = Some abort_timeout) →
  (Failures.cancelled e = true → kind d = Some abort_cancelled ∨ ∃ msgs tools m h, complete msgs tools = resolves m :: h ∧ am_stopReason m = s_aborted) →
  explained d (failed e b).
Proof.
  intros Ho Ht Hc. unfold failed, explained. cbv zeta. split_and!; [done|intros Hk|intros Hk|intros Hk].
  - apply Failures.task_failure_iff in Hk as (_ & _ & _ & ?). done.
  - apply Failures.kind_timeout_iff in Hk as [_ ?]. by apply Ht.
  - apply Failures.kind_cancelled_iff in Hk. by apply Hc.
Qed.

Lemma abort_explained d t e b : childAbortEvidence d t = Some e → explained d (failed e b).
Proof.
  unfold childAbortEvidence. intros H. apply failed_explained; destruct (kind d) as [[]|]; simplify_eq/=; try done; by left.
Qed.

Lemma caught_origin error fallback : Failures.e_origin (Failures.toAiraFailureEvidence error fallback) ≠ Some Failures.o_task
  ∧ Failures.timedOut (Failures.toAiraFailureEvidence error fallback) = false
  ∧ Failures.cancelled (Failures.toAiraFailureEvidence error fallback) = false.
Proof. by destruct error. Qed.

Lemma thrown_explained s t e : explained (deadline s) (failed_with s t e).
Proof.
  unfold failed_with. destruct (childAbortEvidence (deadline s) t) as [a|] eqn:E; [by eapply abort_explained|]. cbn [default].
  destruct (caught_origin (default Failures.thrown_other e) (js "child run failed")) as (H1 & H2 & H3).
  apply failed_explained; cbn; [|congruence..]. destruct (Failures.e_origin _); [done|]. discriminate.
Qed.

Lemma deliver_explained msgs tools m h s :
  complete msgs tools = resolves m :: h → explained (deadline s) (deliver sha s m).
Proof.
  intros Hc. unfold deliver. destruct (parseChildResult _) as [parsed|] eqn:E; [by exists msgs, tools, m, h, parsed|].
  apply failed_explained; cbn; done.
Qed.

Lemma provider_explained msgs tools m h s t :
  complete msgs tools = resolves m :: h →
  explained (deadline s) (failed (default (childProviderFailureEvidence m (deadline s)) (childAbortEvidence (deadline s) t)) None).
Proof.
  intros Hc. destruct (childAbortEvidence (deadline s) t) as [a|] eqn:E; [by eapply abort_explained|]. cbn [default].
  assert (Hk : kind (deadline s) = None) by (unfold childAbortEvidence in E; by destruct (kind (deadline s)) as [[]|]).
  apply failed_explained; [cbn; by case_match|done|]. intros H.
  change (bool_decide (am_stopReason m = s_aborted) || bool_decide (is_Some (kind (deadline s))) = true) in H.
  rewrite Hk in H. apply orb_true_iff in H as [H|H]; apply bool_decide_eq_true in H; [right; eauto 10|by destruct H].
Qed.

Lemma conclude_end c s m msgs tools h t : run_inv c s → c <= 1 + round s → complete msgs tools = resolves m :: h →
  ended (conclude complete sha t s m).1 ∧ explained (deadline (conclude complete sha t s m).1) (conclude complete sha t s m).2.
Proof.
  intros Hi Hc Hm. assert (He : ended s) by (apply (inv_ended c); [done|lia]). unfold conclude.
  destruct (hasToolCalls m); [split; [done|apply over_budget_explained]|].
  case_match; [split; [done|by eapply provider_explained]|].
  destruct (parseChildResult (contentText m)) as [parsed|]; [split; [done|by eapply deliver_explained]|].
  case_match; [|split; [done|by eapply deliver_explained]].
  destruct (call_model _ _ _ _) as [s' r] eqn:E. pose proof Hi as [Hl Hmod Hr0 (l & Hms & Hnu) Ha Hx Hb He' Hp].
  apply child_call_keeps in E as ([L1 L2 L3 L4] & _ & Hl' & Hm' & Hx' & Hgot); [|done| |by right].
  - assert (He2 : ended s') by (split_and!; [done|lia|lia|lia..]).
    destruct r as [m'|e|]; cbn [fst snd]; (split; [done|]); [|apply thrown_explained..].
    destruct (Hgot m' eq_refl) as [h' Hh]. by eapply deliver_explained.
  - rewrite Hms. exists (l ++ [m_assistant m; m_user CHILD_RESULT_CONTINUATION_PROMPT]). split; [done|]. intros u Hu.
    apply elem_of_app in Hu as [Hu|Hu]; [by destruct (Hnu u)|]. apply elem_of_cons in Hu as [?|Hu]; [done|].
    apply list_elem_of_singleton in Hu. by injection Hu.
Qed.

Lemma child_rounds_end t fuel : ∀ s m msgs tools h, run_inv (1 + round s) s → complete msgs tools = resolves m :: h →
  N + 3 - round s <= Z.of_nat fuel → 1 <= Z.of_nat fuel →
  ∃ s' out, rounds complete execute clock sha o fuel t s m = Some (s', out) ∧ ended s' ∧ explained (deadline s') out.
Proof.
  induction fuel as [|fuel IH]; intros s m msgs tools h Hi Hc Hf H1; [lia|]. cbn [rounds].
  assert (He : ended s) by (apply (inv_ended _ _ Hi); lia).
  destruct (hasToolCalls m) eqn:Ht; cbn [negb].
  2: { destruct (conclude_end _ s m msgs tools h t Hi) as [H2 H3]; [lia|done|].
       eexists _, _. split; [by rewrite (surjective_pairing (conclude _ _ _ _ _))|done]. }
  destruct (exceeded s) eqn:Hex; [eexists _, _; split; [done|]; split; [done|apply over_budget_explained]|].
  destruct (child_extend_inv _ _ Hi Hex) as [Hi' Hlt]. change (Z.to_nat MAX_CHILD_TOOL_CALLS_PER_ROUND) with 4%nat.
  assert (Hr : round (extend s) = round s) by (unfold extend; by case_match).
  destruct (take 4 (toolCallsOf m)) as [|call calls] eqn:Ecalls.
  { assert (Hi1 : run_inv (1 + round s) (begin_round (extend s))) by (destruct Hi'; constructor; cbn; try done; lia).
    destruct (conclude_end _ (begin_round (extend s)) m msgs tools h t Hi1) as [H2 H3]; [cbn; lia|done|].
    eexists _, _. split; [by rewrite (surjective_pairing (conclude _ _ _ _ _))|done]. }
  rewrite <-Ecalls. destruct (run_calls _ _ _ _ _ _) as [s2 [results|e]] eqn:E2.
  - destruct (call_model _ _ _ _) as [s4 r] eqn:E4.
    destruct (round_inv (1 + round s) _ _ _ _ _ _ Hi' Hlt E2 E4) as (Hi4 & Hr4 & Hgot).
    assert (He4 : ended s4) by (apply (inv_ended _ _ Hi4); lia).
    destruct r as [m'|e|]; [|eexists _, _; split; [done|]; split; [done|apply thrown_explained]..].
    destruct (Hgot m' eq_refl) as (msgs' & h' & Hh). eapply IH; [|exact Hh| |].
    + by replace (1 + round s4) with (1 + round s + 1) by lia.
    + lia.
    + destruct Hi'. lia.
  - eexists _, _. split; [done|]. split; [|apply thrown_explained]. destruct Hi' as [Hl Hm H0 Hms Ha Hx Hb Hxx Hp].
    pose proof (zlen_take 4 (toolCallsOf m)). pose proof (zlen_nonneg (take 4 (toolCallsOf m))).
    destruct (run_calls_calling (1 + round s) _ _ _ _ _ E2) as [(Cl & Cx & Cm & _) [K1 K2 K3 K4]]; [split_and!; cbn; try done; lia|].
    cbn in K1, K2, K3, K4. split_and!; try done; lia.
Qed.

Lemma child_run_end : ∃ s out, run_with_model complete execute clock sha o = Some (s, out) ∧ ended s ∧ explained (deadline s) out.
Proof.
  unfold run_with_model. destruct (call_model _ _ _ _) as [s1 r] eqn:E1.
  assert (Hown : own_turns [m_user (rn_prompt o)]) by (exists []; split; [done|]; intros t Ht; by apply elem_of_nil in Ht).
  apply child_call_keeps in E1 as ([L1 L2 L3 L4] & Hpr & Hl & Hm & Hx & Hgot); [|constructor|by apply own_isolated|by left].
  cbn in L1, L2, L3, L4, Hpr, Hm, Hx.
  assert (Hi : run_inv 1 s1).
  { constructor; try done; try lia; [by rewrite L1|rewrite Hx; unfold executions; cbn; rewrite zlen_nil; lia|congruence]. }
  assert (Hdone : ∀ s, ended s → ended (s <| deadline := dispose (deadline s) |>)) by done.
  destruct r as [m|e|].
  - destruct (Hgot m eq_refl) as [h Hh].
    destruct (child_rounds_end (default DEFAULT_CHILD_TIMEOUT_MS (rn_timeoutMs o)) (enough_fuel o) s1 m (messages (start_state o)) (rn_tools o) h) as (s' & out & E & He & Ho);
      [by rewrite L2|exact Hh|unfold enough_fuel; lia|unfold enough_fuel; lia|].
    rewrite E. eexists _, out. split; [done|]. split; [by apply Hdone|]. exact Ho.
  - eexists _, _. split; [done|]. split; [apply Hdone, (inv_ended 1); [done|cbn; lia]|]. exact (thrown_explained s1 _ _).
  - eexists _, _. split; [done|]. split; [apply Hdone, (inv_ended 1); [done|cbn; lia]|]. exact (thrown_explained s1 _ _).
Qed.
End Run.

(** ** The theorems *)

Lemma bound_items_ok chars n : 1 <= n → 1 <= chars → ∀ l result,
  zlen result <= n - 1 ∧ Forall (λ t, 1 <= zlen t <= chars) result →
  zlen (ChildData.bound_items result l n chars) <= n ∧ Forall (λ t, 1 <= zlen t <= chars) (ChildData.bound_items result l n chars).
Proof.
  intros Hn Hc. induction l as [|x l IH]; intros result [H1 H2]; cbn [ChildData.bound_items]; [split; [lia|done]|].
  destruct (ChildData.boundChildText x chars) as [|u t] eqn:E; [by apply IH|]. cbv zeta.
  assert (Ht : 1 <= zlen (u :: t) <= chars).
  { rewrite <-E at 2. unfold ChildData.boundChildText. split; [rewrite zlen_cons; pose proof (zlen_nonneg t); lia|]. apply bound_text_le. lia. }
  assert (H2' : Forall (λ t, 1 <= zlen t <= chars) (result ++ [u :: t])) by (apply Forall_app; split; [done|by apply Forall_singleton]).
  assert (H1' : zlen (result ++ [u :: t]) <= n) by (rewrite zlen_app, (zlen_cons (u :: t)), zlen_nil; lia).
  destruct (Z.leb_spec n (zlen (result ++ [u :: t]))); [by split|]. apply IH. split; [lia|done].
Qed.

(** Every run of a child ends, whatever the model, the gate and the tools do and however long
    they take: after at most two rounds more than configured, one extension, two model calls more
    than rounds (the first and one repetition of a truncated result) and four tool executions a
    round. *)
Theorem child_run_is_bounded complete execute clock sha o :
  let N := default MAX_CHILD_TOOL_ROUNDS (rn_maxToolRounds o) in
  ∃ s out, run_with_model complete execute clock sha o = Some (s, out)
  ∧ 0 <= toolBudgetExtensions s <= 1
  ∧ model_calls (effects s) <= 2 + Z.max 0 (N + 2 * toolBudgetExtensions s)
  ∧ executions (effects s) <= 4 * Z.max 0 (N + 2 * toolBudgetExtensions s).
Proof. intros N. destruct (child_run_end complete execute clock sha o) as (s & out & E & (_ & He & Hm & Hx) & _). by exists s, out. Qed.

(** At every moment of a run of a child, what it does was allowed: a tool that is executed is one
    of its set and the gate did not block this very call; a mutation is reported only right after
    an edit or a write of that path; and the model is sent the prompt of the child, its own turns
    and the request to repeat a truncated result, with the tools of the set or with none. *)
Theorem child_acts_within_its_bounds complete execute clock sha o s out before e after
    (Hr : run_with_model complete execute clock sha o = Some (s, out)) (He : effects s = before ++ e :: after) :
  match e with
  | x_execute call => call_name call ∈ rn_tools o ∧ blocks o call = None
  | x_mutation p => ∃ before' call, before = before' ++ [x_execute call] ∧ is_edit_tool (call_name call) = true ∧ toolPath call = Some p
  | x_model msgs tools => isolated o msgs ∧ (tools = rn_tools o ∨ tools = [])
  | x_event _ => True
  end.
Proof.
  destruct (child_run_end complete execute clock sha o) as (s' & out' & E & (Hl & _) & _). rewrite Hr in E. injection E as <- <-.
  exact (lawful_at o _ _ _ _ Hl He).
Qed.

(** Every end of a child says whose it is: a result is the hardened object of a message of the
    model; a failure carries its classification, blames the task only when the child used up its
    tools, and is a time out only when the deadline fired and a cancellation only when the caller
    or the provider aborted. *)
Theorem child_failure_is_explained hasModel complete execute clock sha o out
    (Hr : runAiraChild complete execute clock sha o hasModel = Some out) :
  match out with
  | c_ok r model _ _ =>
      ∃ msgs tools m h parsed, complete msgs tools = resolves m :: h ∧ parseChildResult (contentText m) = Some parsed
      ∧ r = normalizeChildResult parsed ∧ model = default (am_model m) (am_responseModel m)
  | c_fail text f _ => ∃ f', f = Some f' ∧ text = Failures.message f'
      ∧ (Failures.kind f' = task_failure → text = js "child exceeded its tool budget")
      ∧ (Failures.kind f' = kind_timeout →
           ∃ s, run_with_model complete execute clock sha o = Some (s, out) ∧ kind (deadline s) = Some abort_timeout)
      ∧ (Failures.kind f' = kind_cancelled →
           (∃ s, run_with_model complete execute clock sha o = Some (s, out) ∧ kind (deadline s) = Some abort_cancelled)
           ∨ ∃ msgs tools m h, complete msgs tools = resolves m :: h ∧ am_stopReason m = s_aborted)
  end.
Proof.
  unfold runAiraChild in Hr. destruct hasModel; cbn [negb] in Hr.
  - destruct (child_run_end complete execute clock sha o) as (s & out' & E & _ & Hx). rewrite E in Hr. injection Hr as <-.
    destruct out' as [r mdl u b|text [f|] b]; [exact Hx| |done]. destruct Hx as (H1 & H2 & H3 & H4). exists f.
    do 3 (split; [done|]). split; [intros Hk; exists s; auto|]. intros Hk. destruct (H4 Hk) as [Hd|Hp]; [left; exists s; auto|by right].
  - injection Hr as <-. eexists. split; [done|]. split; [done|]. split; [|split]; intros Hk; exfalso; revert Hk; vm_compute; discriminate.
Qed.

(** Whatever object a child returns, its canonical result is bounded: a summary of 1 to 600
    units, at most 12 findings of at most 300, and at most 25 items of at most 200 in every other
    list, none of them empty. *)
Theorem child_result_is_bounded v :
  let r := normalizeChildResult v in
  let within n chars l := zlen l <= n ∧ Forall (λ t, 1 <= zlen t <= chars) l in
  1 <= zlen (ChildData.cr_summary r) <= 600 ∧ within 12 300 (ChildData.cr_findings r)
  ∧ Forall (within 25 200) [ChildData.cr_evidence r; ChildData.cr_relevantFiles r; ChildData.cr_changedFiles r; ChildData.cr_tests r;
                            ChildData.cr_errors r].
Proof.
  assert (Hb : ∀ items n chars, 1 <= n → 1 <= chars → zlen (ChildData.boundChildList items n chars) <= n
    ∧ Forall (λ t, 1 <= zlen t <= chars) (ChildData.boundChildList items n chars)) by (intros; apply bound_items_ok; try done; split; [rewrite zlen_nil; lia|constructor]).
  cbv zeta. unfold normalizeChildResult. cbv zeta. cbn [ChildData.cr_summary ChildData.cr_findings ChildData.cr_evidence
    ChildData.cr_relevantFiles ChildData.cr_changedFiles ChildData.cr_tests ChildData.cr_errors].
  split; [|split; [by apply Hb|]].
  - set (t := ChildData.boundChildText _ _). destruct t as [|u t'] eqn:E.
    + case_match; vm_compute; split; discriminate.
    + rewrite <-E. subst t. unfold ChildData.boundChildText in *. rewrite E at 1. rewrite zlen_cons. pose proof (zlen_nonneg t').
      split; [lia|]. apply bound_text_le. unfold ChildEnvelope.MAX_CHILD_SUMMARY_CHARS. lia.
  - repeat (apply Forall_cons_2; [by apply Hb|]). by apply Forall_nil_2.
Qed.

(** ** A run *)

(** A child that reads a file, writes it, although the gate blocks writes, and then reports. *)
Definition call_of (name : string) : ToolCall :=
  {| call_id := js "c"; call_name := js name; call_arguments := Some (j_object [(js "path", j_string (js "a.ts"))]) |}.
Definition says (content : list block) : AssistantMessage :=
  {| am_content := content; am_stopReason := s_stop; am_errorMessage := None; am_usage := None; am_model := js "m";
     am_responseModel := None; am_diagnostics := None |}.
Definition sample_result : json := j_object [(js "status", j_string (js "completed")); (js "summary", j_string (js "read it"))].
Definition reports (final : jsstr) (msgs : list Message) (tools : list jsstr) : list (happening AssistantMessage) :=
  [resolves (if bool_decide (length msgs = 1%nat) then says [b_toolCall (call_of "read"); b_toolCall (call_of "write")] else says [b_text final])].
Definition sample_tool (fx : list effect) (c : ToolCall) : Verifier.tool_run :=
  {| Verifier.fires_before := []; Verifier.ended := Verifier.t_returns [b_text (js "x")]; Verifier.fires_after := [] |}.
Definition no_writes : gate := λ name _, if str_eqb name (js "write") then Some {| block_ := true; gate_reason := None |} else None.
Definition sample_options (tools : list string) : AiraChildRunnerOptions :=
  {| rn_prompt := js "P"; rn_tools := js <$> tools; rn_gateTool := Some no_writes; rn_timeoutMs := None; rn_maxToolRounds := Some 1;
     rn_signal := None |}.
Definition sample_hash (s : jsstr) : jsstr := s.
Notation sample_run final := (run_with_model (reports final) sample_tool zlen sample_hash (sample_options ["read"; "write"]%string)).

(** The second thing that the run does is to read. *)
Definition second_reads (r : option (runner * AiraChildOutcome)) : bool :=
  match r with
  | Some (s, _) => match effects s with _ :: x_execute c :: _ => str_eqb (call_name c) (js "read") | _ => false end
  | None => false
  end.
Definition is_capability_failure (r : option AiraChildOutcome) : bool :=
  match r with Some (c_fail _ (Some f) _) => bool_decide (Failures.kind f = capability_failure) | _ => false end.

Lemma second_reads_inv r : second_reads r = true →
  ∃ s out m1 call rest, r = Some (s, out) ∧ effects s = [m1] ++ x_execute call :: rest.
Proof.
  destruct r as [[s out]|]; cbn; [|done]. destruct (effects s) as [|m1 [|[?|call|?|?] rest]] eqn:Hfx; intros H; try done.
  by exists s, out, m1, call, rest.
Qed.
Lemma is_capability_failure_inv r : is_capability_failure r = true →
  ∃ text f b, r = Some (c_fail text (Some f) b) ∧ Failures.kind f = capability_failure.
Proof. destruct r as [[r m u b|text [f|] b]|]; cbn; intros H; try done. apply bool_decide_eq_true in H. eauto. Qed.

Lemma child_acts_within_its_bounds_witness :
  ∃ s out call, sample_run (stringify sample_result) = Some (s, out) ∧ x_execute call ∈ effects s
  ∧ blocks (sample_options ["read"; "write"]%string) call = None.
Proof.
  assert (Hc : second_reads (sample_run (stringify sample_result)) = true) by (vm_compute; reflexivity).
  apply second_reads_inv in Hc as (s & out & m1 & call & rest & E & Hfx). exists s, out, call.
  split; [exact E|]. split; [rewrite Hfx; right; left|].
  exact (proj2 (child_acts_within_its_bounds (reports (stringify sample_result)) sample_tool zlen sample_hash
                  (sample_options ["read"; "write"]%string) s out [m1] (x_execute call) rest E Hfx)).
Defined.

Lemma child_failure_is_explained_witness :
  ∃ text f b, runAiraChild (reports (js "no object")) sample_tool zlen sample_hash (sample_options ["read"]%string) true = Some (c_fail text (Some f) b)
  ∧ text = Failures.message f ∧ Failures.kind f = capability_failure.
Proof.
  assert (Hc : is_capability_failure (runAiraChild (reports (js "no object")) sample_tool zlen sample_hash (sample_options ["read"]%string) true) = true)
    by (vm_compute; reflexivity).
  apply is_capability_failure_inv in Hc as (text & f & b & E & Hk). exists text, f, b. split; [exact E|]. split; [|exact Hk].
  destruct (child_failure_is_explained true (reports (js "no object")) sample_tool zlen sample_hash (sample_options ["read"]%string) _ E)
    as (f' & [= <-] & Ht & _). exact Ht.
Defined.

(** An object without a status is a completed result: a child whose last message carries the
    empty object, in any text, has completed, with a summary the code makes up. *)
Theorem empty_object_completes :
  ∃ r m u b, runAiraChild (reports (js "I could not do it. {}")) sample_tool zlen sample_hash (sample_options ["read"]%string) true
             = Some (c_ok r m u b)
  ∧ ChildData.cr_status r = ChildData.child_completed ∧ ChildData.cr_summary r = js "Child returned no summary.".
Proof. eexists _, _, _, _. split; [vm_compute; reflexivity|]. split; vm_compute; reflexivity. Qed.

End ChildRunnerProps.
