(* ===== verification/GoalData.v ===== *)
(** * Goals: data, lifecycle table, progress, usage and settings

    Models [aira/goal/types.ts], [state-machine.ts], [progress.ts], [usage.ts] and
    [settings.ts]: the pure parts the goal manager is made of. *)
From S2P Require Import Prelude JsMap JsString OrchTypes Capabilities Policy Presentation VerifyTypes Regex.

Module GoalData.
Import Capabilities VerifyTypes.

(** ** The lifecycle *)

Inductive AiraGoalStatus :=
| idle | active | verifying | repairing | waiting | paused | completed | budget_limited | cancelled | error.
#[export] Instance AiraGoalStatus_eq_dec : EqDecision AiraGoalStatus.
Proof. solve_decision. Defined.

Inductive AiraGoalStopReason :=
| by_user | interrupted | agent_error
| max_rounds | token_budget | max_duration | no_progress | repeated_verdict
| input_required | missing_evidence | verification_disabled | no_work | permission | plan_mode.
#[export] Instance AiraGoalStopReason_eq_dec : EqDecision AiraGoalStopReason.
Proof. solve_decision. Defined.

Inductive waiting_kind := user_question | k_permission | k_evidence.
Record AiraGoalWaiting := { w_reason : AiraGoalStopReason; w_kind : waiting_kind; w_detail : jsstr; w_ask : option jsstr }.

Definition AIRA_GOAL_TRANSITIONS (s : AiraGoalStatus) : list AiraGoalStatus :=
  match s with
  | idle => [active]
  | active => [verifying; repairing; waiting; paused; completed; budget_limited; cancelled; error]
  | verifying => [active; repairing; waiting; paused; completed; budget_limited; cancelled; error]
  | repairing => [verifying; waiting; paused; completed; budget_limited; cancelled; error]
  | waiting => [active; paused; cancelled; error]
  | paused => [active; repairing; cancelled; error]
  | completed | budget_limited | cancelled | error => [idle]
  end.

Definition AIRA_GOAL_TERMINAL_STATUSES : list AiraGoalStatus := [completed; budget_limited; cancelled; error].
Definition AIRA_GOAL_CLEARABLE_STATUSES : list AiraGoalStatus := AIRA_GOAL_TERMINAL_STATUSES ++ [paused].
Definition AIRA_GOAL_RUNNING_STATUSES : list AiraGoalStatus := [active; repairing; verifying].
Definition AIRA_GOAL_RESUMABLE_STATUSES : list AiraGoalStatus := [paused; waiting].
Definition AIRA_GOAL_PERSISTED_STATE_VERSION : Z := 1.

Definition running (s : AiraGoalStatus) : bool := bool_decide (s ∈ AIRA_GOAL_RUNNING_STATUSES).
Definition terminal (s : AiraGoalStatus) : bool := bool_decide (s ∈ AIRA_GOAL_TERMINAL_STATUSES).

(** The status names, which are also its labels. *)
Definition airaGoalStatusLabel (s : AiraGoalStatus) : jsstr :=
  match s with
  | idle => js "idle" | active => js "active" | verifying => js "verifying" | repairing => js "repairing"
  | waiting => js "waiting" | paused => js "paused" | completed => js "completed"
  | budget_limited => js "budget-limited" | cancelled => js "cancelled" | error => js "error"
  end.

Definition reason_name (r : AiraGoalStopReason) : jsstr :=
  match r with
  | by_user => js "user" | interrupted => js "interrupted" | agent_error => js "agent-error"
  | max_rounds => js "max-rounds" | token_budget => js "token-budget" | max_duration => js "max-duration"
  | no_progress => js "no-progress" | repeated_verdict => js "repeated-verdict" | input_required => js "input-required"
  | missing_evidence => js "missing-evidence" | verification_disabled => js "verification-disabled" | no_work => js "no-work"
  | permission => js "permission" | plan_mode => js "plan-mode"
  end.

Definition airaGoalTransitionError (from to : AiraGoalStatus) (context : jsstr) : option jsstr :=
  if bool_decide (from = to) then None
  else if bool_decide (to ∈ AIRA_GOAL_TRANSITIONS from) then None
  else
    let suffix := if 0 <? zlen context then js " (" ++ context ++ js ")" else [] in
    Some (js "invalid goal transition " ++ airaGoalStatusLabel from ++ js " -> " ++ airaGoalStatusLabel to ++ suffix).

Definition canAiraGoalTransition (from to : AiraGoalStatus) : bool :=
  match airaGoalTransitionError from to [] with None => true | Some _ => false end.

(** ** Progress *)

Record AiraRoundObservation := { ro_revisionId : option jsstr; ro_blockingFinding : option jsstr; ro_verdict : option AiraVerificationVerdict }.

Definition MAX_BLOCKING_SIGNATURE_CHARS : Z := 240.

(** A text that is present and not empty. *)
Definition truthy (s : option jsstr) : option jsstr := match s with Some [] => None | _ => s end.

Definition blockingFindingSignature (finding : option jsstr) : option jsstr :=
  match truthy finding with
  | None => None
  | Some f =>
      let normalized := Policy.collapse false (trim f) in
      if zlen normalized =? 0 then None
      else let bounded := bound_text MAX_BLOCKING_SIGNATURE_CHARS normalized in
           Some (num_str (zlen bounded) ++ js ":" ++ bounded)
  end.

Definition roundFingerprint (o : AiraRoundObservation) : option jsstr :=
  let signature := blockingFindingSignature (ro_blockingFinding o) in
  match truthy (ro_revisionId o), signature with
  | None, None => None
  | _, _ => Some (default (js "-") (ro_revisionId o) ++ [0] ++ default (js "-") signature)
  end.

Definition isNoProgress (previous : option AiraRoundObservation) (current : AiraRoundObservation) : bool :=
  match previous with
  | None => false
  | Some p => match roundFingerprint p, roundFingerprint current with
              | Some a, Some b => str_eqb a b
              | _, _ => false
              end
  end.

Definition isRepeatedVerdict (previous : option AiraRoundObservation) (current : AiraRoundObservation) : bool :=
  match previous with
  | None => false
  | Some p =>
      if negb (bool_decide (ro_verdict p = Some fail)) || negb (bool_decide (ro_verdict current = Some fail)) then false
      else match truthy (ro_blockingFinding p), truthy (ro_blockingFinding current) with
           | Some a, Some b => bool_decide (blockingFindingSignature (Some a) = blockingFindingSignature (Some b))
           | _, _ => false
           end
  end.

(** ** Settings *)

Inductive AiraGoalAutoSetting := auto_off | auto_smart | auto_always.
#[export] Instance AiraGoalAutoSetting_eq_dec : EqDecision AiraGoalAutoSetting.
Proof. solve_decision. Defined.

Record AiraGoalSettings := {
  enabled : bool; auto : AiraGoalAutoSetting; maxRounds : Z; tokenBudget : option Z; maxDurationMs : option Z }.

Definition DEFAULT_AIRA_GOAL_SETTINGS : AiraGoalSettings :=
  {| enabled := false; auto := auto_smart; maxRounds := 4; tokenBudget := None; maxDurationMs := None |}.

Definition AIRA_GOAL_MIN_MAX_ROUNDS : Z := 1.
Definition AIRA_GOAL_MAX_MAX_ROUNDS : Z := 20.
Definition AIRA_GOAL_MIN_TOKEN_BUDGET : Z := 1000.
Definition AIRA_GOAL_MAX_TOKEN_BUDGET : Z := 100000000.
Definition AIRA_GOAL_MIN_MAX_DURATION_MS : Z := 60000.
Definition AIRA_GOAL_MAX_MAX_DURATION_MS : Z := 24 * 60 * 60 * 1000.

(** [value >= min && value <= max] for whole bounds. *)
Definition number_within (floor : Z) (whole : bool) (min max : Z) : bool :=
  (min <=? floor) && (if whole then floor <=? max else floor <? max).

Definition normalizeAuto (v : raw) : AiraGoalAutoSetting :=
  match v with
  | raw_string s => if str_eqb s (js "off") then auto_off else if str_eqb s (js "smart") then auto_smart
                    else if str_eqb s (js "always") then auto_always else auto DEFAULT_AIRA_GOAL_SETTINGS
  | _ => auto DEFAULT_AIRA_GOAL_SETTINGS
  end.
Definition normalizeMaxRounds (v : raw) : Z :=
  match v with
  | raw_number z true => if number_within z true AIRA_GOAL_MIN_MAX_ROUNDS AIRA_GOAL_MAX_MAX_ROUNDS then z
                         else maxRounds DEFAULT_AIRA_GOAL_SETTINGS
  | _ => maxRounds DEFAULT_AIRA_GOAL_SETTINGS
  end.
Definition normalizeOptional (v : raw) (min max : Z) : option Z :=
  match v with
  | raw_number z whole => if number_within z whole min max then Some z else None
  | _ => None
  end.

(** The settings object; a value that is not an object has no fields. *)
Definition normalizeAiraGoalSettings (field : string → raw) : AiraGoalSettings :=
  {| enabled := match field "enabled"%string with
                | raw_undefined => enabled DEFAULT_AIRA_GOAL_SETTINGS
                | raw_bool b => b
                | _ => false end;
     auto := normalizeAuto (field "auto"%string);
     maxRounds := normalizeMaxRounds (field "maxRounds"%string);
     tokenBudget := normalizeOptional (field "tokenBudget"%string) AIRA_GOAL_MIN_TOKEN_BUDGET AIRA_GOAL_MAX_TOKEN_BUDGET;
     maxDurationMs := normalizeOptional (field "maxDurationMs"%string) AIRA_GOAL_MIN_MAX_DURATION_MS AIRA_GOAL_MAX_MAX_DURATION_MS |}.

(** ** Usage *)

(** Costs are counted in a whole unit. *)
Record AiraSessionUsageSnapshot := { s_tokens : AiraChildTokenUsage; s_cost : Z }.

Record AiraGoalUsage := {
  sessionTokens : option Z; childrenTokens : option Z; verifierTokens : option Z; consumedTokens : option Z;
  sessionCost : option Z; sources : list jsstr }.

Record AiraGoalUsageInputs := {
  in_session : option AiraSessionUsageSnapshot; in_baseline : option AiraSessionUsageSnapshot;
  in_children : option AiraChildTokenUsage; in_childrenBaseline : option AiraChildTokenUsage; in_verifierTokens : Z }.

Definition deltaSessionTokens (b c : option AiraSessionUsageSnapshot) : option Z :=
  match b, c with Some b, Some c => Some (Z.max 0 (u_total (s_tokens c) - u_total (s_tokens b))) | _, _ => None end.
Definition deltaSessionCost (b c : option AiraSessionUsageSnapshot) : option Z :=
  match b, c with Some b, Some c => Some (Z.max 0 (s_cost c - s_cost b)) | _, _ => None end.
Definition deltaChildTokens (b c : option AiraChildTokenUsage) : option Z :=
  match c with
  | None => None
  | Some c => match b with None => Some (u_total c) | Some b => Some (Z.max 0 (u_total c - u_total b)) end
  end.

Definition positive (v : option Z) : option Z := match v with Some z => if 0 <? z then Some z else None | None => None end.

Definition computeAiraGoalUsage (i : AiraGoalUsageInputs) : AiraGoalUsage :=
  let session := deltaSessionTokens (in_baseline i) (in_session i) in
  let children := deltaChildTokens (in_childrenBaseline i) (in_children i) in
  let v := in_verifierTokens i in
  let known := [default 0 session; default 0 children; if 0 <? v then v else 0] in
  {| sessionTokens := positive session;
     childrenTokens := positive children;
     verifierTokens := if 0 <? v then Some v else None;
     consumedTokens := if existsb (λ x, 0 <? x) known then Some (foldl Z.add 0 known) else None;
     sessionCost := deltaSessionCost (in_baseline i) (in_session i);
     sources := (match session with Some _ => [js "session"] | None => [] end)
                ++ (match children with Some _ => [js "children"] | None => [] end)
                ++ (if 0 <? v then [js "verifier"] else []) |}.

Definition remainingAiraGoalTokens (s : AiraGoalSettings) (u : AiraGoalUsage) : option Z :=
  match tokenBudget s, consumedTokens u with Some b, Some c => Some (Z.max 0 (b - c)) | _, _ => None end.

(** [Math.round(ms / 1000)] *)
Definition seconds (ms : Z) : Z := (ms + 500) / 1000.

Record bound := { b_reason : AiraGoalStopReason; b_detail : jsstr }.

Definition budgetBoundVerdict (s : AiraGoalSettings) (round startedAt now : Z) (usage : AiraGoalUsage) : option bound :=
  if maxRounds s <? round then
    Some {| b_reason := max_rounds;
            b_detail := js "round " ++ num_str round ++ js " exceeds the configured maximum of " ++ num_str (maxRounds s) ++ js " rounds" |}
  else
    let duration :=
      match maxDurationMs s with
      | Some d =>
          if (0 <? startedAt) && (d <=? now - startedAt) then
            Some {| b_reason := max_duration;
                    b_detail := js "elapsed " ++ num_str (seconds (now - startedAt)) ++ js "s reached the configured budget of "
                                ++ num_str (seconds d) ++ js "s" |}
          else None
      | None => None
      end in
    match tokenBudget s, consumedTokens usage with
    | Some b, Some c =>
        if b <=? c then
          Some {| b_reason := token_budget;
                  b_detail := js "consumed " ++ num_str c ++ js " tokens reached the configured budget of " ++ num_str b |}
        else duration
    | _, _ => duration
    end.

Definition mergeAiraChildTokenUsage (previous next : option AiraChildTokenUsage) : option AiraChildTokenUsage :=
  match next, previous with
  | None, _ => previous
  | Some _, None => next
  | Some n, Some p =>
      Some {| u_input := Z.max (u_input p) (u_input n); u_output := Z.max (u_output p) (u_output n);
              u_cacheRead := Z.max (u_cacheRead p) (u_cacheRead n); u_cacheWrite := Z.max (u_cacheWrite p) (u_cacheWrite n);
              u_total := Z.max (u_total p) (u_total n) |}
  end.

(** ** The canonical snapshot *)

Record AiraGoalRevision := { rv_revisionId : option jsstr; rv_round : Z; rv_blockingSignature : option jsstr }.
Record AiraGoalTaskProjection := { t_completed : Z; t_active : Z; t_total : Z }.
Record AiraGoalVerificationProjection := {
  v_verdict : option AiraVerificationVerdict; v_stale : bool; v_summary : option jsstr;
  v_missingEvidence : list jsstr; v_lastError : option jsstr }.
Record AiraGoalWorkspaceProjection := { w_available : bool; w_baseline : Z; w_owned : Z; w_protected : Z; w_unowned : Z }.
Inductive persistence_status := p_ok | p_unavailable | p_failed.
Record AiraGoalPersistenceHealth := {
  h_enabled : bool; h_status : persistence_status; h_path : option jsstr; h_error : option jsstr }.

Record AiraGoalSnapshot := {
  s_enabled : bool; s_auto : AiraGoalAutoSetting; s_status : AiraGoalStatus; s_id : option jsstr; s_objective : option jsstr;
  s_round : Z; s_maxRounds : Z; s_startedAt : option Z; s_updatedAt : Z; s_completedAt : option Z;
  s_stopReason : option AiraGoalStopReason; s_waiting : option AiraGoalWaiting;
  s_budget : option Z * option Z  (** tokens and milliseconds *);
  s_usage : AiraGoalUsage; s_remainingTokens : option Z; s_revision : option AiraGoalRevision;
  s_tasks : AiraGoalTaskProjection; s_verification : AiraGoalVerificationProjection; s_workspace : AiraGoalWorkspaceProjection;
  s_staleCompletion : bool; s_needsUserInput : bool; s_mode : AiraMode; s_lastEvent : option jsstr;
  s_persistence : AiraGoalPersistenceHealth; s_summary : jsstr }.

(** ** Lemmas *)

(** Normalized settings are within the documented ranges, whatever the file says. *)
Lemma settings_within field :
  let s := normalizeAiraGoalSettings field in
  1 <= maxRounds s <= 20
  ∧ from_option (λ b, 1000 <= b <= 100000000) True (tokenBudget s)
  ∧ from_option (λ d, 60000 <= d <= 86400000) True (maxDurationMs s).
Proof.
  cbn. unfold normalizeMaxRounds, normalizeOptional, number_within, AIRA_GOAL_MIN_MAX_ROUNDS, AIRA_GOAL_MAX_MAX_ROUNDS,
    AIRA_GOAL_MIN_TOKEN_BUDGET, AIRA_GOAL_MAX_TOKEN_BUDGET, AIRA_GOAL_MIN_MAX_DURATION_MS, AIRA_GOAL_MAX_MAX_DURATION_MS.
  split; [|split].
  - destruct (field _) as [|b|z []|s|]; cbn; try lia. destruct ((1 <=? z) && (z <=? 20)) eqn:E; bool_prop; cbn; lia.
  - destruct (field _) as [|b|z w|s|]; try done. case_match; [|done]. destruct w; bool_prop; cbn [from_option]; lia.
  - destruct (field _) as [|b|z w|s|]; try done. case_match; [|done]. destruct w; bool_prop; cbn [from_option]; lia.
Qed.

(** What a goal has consumed is the sum of its sources, and unknown without any. *)
Lemma consumed_sum i :
  0 <= default 0 (deltaChildTokens (in_childrenBaseline i) (in_children i)) →
  let u := computeAiraGoalUsage i in
  consumedTokens u = match sessionTokens u, childrenTokens u, verifierTokens u with
                     | None, None, None => None
                     | a, b, c => Some (default 0 a + default 0 b + default 0 c)
                     end.
Proof.
  intros Hc. cbn. assert (0 <= default 0 (deltaSessionTokens (in_baseline i) (in_session i))) as Hs.
  { unfold deltaSessionTokens. repeat case_match; cbn; lia. }
  revert Hc Hs. generalize (deltaSessionTokens (in_baseline i) (in_session i)) as s,
    (deltaChildTokens (in_childrenBaseline i) (in_children i)) as c, (in_verifierTokens i) as v.
  intros s c v Hc Hs. assert (∀ o : option Z, 0 <= default 0 o → positive o = None ∧ default 0 o = 0 ∨ positive o = o ∧ 0 < default 0 o) as Hpos.
  { intros [z|] Hz; cbn in *; [|by left]. destruct (0 <? z) eqn:E; bool_prop; [by right|left; split; [done|lia]]. }
  destruct (Hpos s Hs) as [[-> ->]|[-> Hs']], (Hpos c Hc) as [[-> ->]|[-> Hc']], (0 <? v) eqn:Hv; bool_prop;
    rewrite ?Z.ltb_irrefl, ?(proj2 (Z.ltb_lt 0 v)), ?(proj2 (Z.ltb_lt _ _) Hs'), ?(proj2 (Z.ltb_lt _ _) Hc') by done; cbn;
    try done; destruct s as [s|], c as [c|]; cbn in *; try lia; done || (f_equal; lia).
Qed.

End GoalData.

(** * Goals: which objectives are promoted

    Models [aira/goal/eligibility.ts]: the patterns of trivial and of substantial
    objectives, and the promotion decision. *)

Module GoalEligibility.
Import Presentation Regex GoalData.

Definition MAX_OBJECTIVE_CHARS_FOR_CLASSIFICATION : Z := 400.

Definition boundedText (value : jsstr) (max : Z) : jsstr := bound_text max (trim value).

(** [\b…\b] and the classes [[- ]]. *)
Definition word (l : list re) : re := seq (Wordb :: l ++ [Wordb]).
Definition dash_or_space : re := Chr (λ u, (u =? 45) || (u =? 32)).
Definition opts (l : list string) : re := opt (lits l).

Definition TRIVIAL_PATTERNS : list re := [
  (* trivial code/doc edits *)
  word [lit "fix "; opts ["a "; "the "]; lits ["typo"; "spelling"; "spelling mistake"; "grammar"]];
  word [lits ["correct"; "fix"]; lit " "; opts ["the "]; lits ["spelling"; "grammar"]];
  word [lits ["add"; "update"; "fix"; "remove"; "improve"]; lit " "; opts ["a "; "the "]; lit "comment"];
  word [lits ["add"; "fix"; "remove"]; lit " "; opts ["a "; "the "]; lit "semicolon"];
  word [lits ["rename"; "re-name"]; lit " "; opts ["a "; "the "; "this "; "that "]; plus word_char; lit " "; lits ["to"; "into"]];
  word [lit "single"; dash_or_space; lit "line "; lits ["change"; "edit"; "fix"]];
  word [lit "fix "; opts ["the "; "a "]; lits ["spacing"; "indentation"; "indent"; "formatting"]];
  word [alt [seq [lit "re"; opt (lit "-"); lit "format"]; lit "format"]; lit " "; opts ["the "]; lits ["file"; "code"]];
  word [lits ["add"; "fix"]; lit " "; opts ["a "]; lits ["newline"; "blank line"]];
  (* tiny documentation corrections *)
  word [lits ["update"; "fix"; "correct"; "improve"; "write"]; lit " "; opts ["the "];
        alt [lit "readme"; seq [lit "doc"; opts ["s"]]; lit "documentation"; lit "changelog"; lit "comment"]];
  word [lit "bump "; opts ["the "]; lits ["version"; "dependency"]];
  (* pure questions / explanations *)
  seq [Bol; lits ["what"; "how"; "why"; "when"; "where"; "who"; "which"; "explain"; "describe"; "summarize"; "tell me about"]; Wordb];
  seq [Bol; lits ["can"; "could"; "does"; "do"; "is"; "are"; "will"; "would"]; lit " "; Star any; lit "?"; Eol];
  (* pure commands / control *)
  seq [Bol; lit "/"; plus word_char] ].

Definition SUBSTANTIAL_PATTERNS : list re := [
  seq [Wordb; lits ["implement"; "build"; "create"; "add"; "develop"; "write"]; lit " "; opts ["a "; "an "; "the "; "new "];
       lits ["feature"; "module"; "endpoint"; "api"; "service"; "component"; "system"; "function"; "command"; "tool"; "test"]];
  word [lit "fix "; opts ["a "; "an "; "the "]; lits ["bug"; "issue"; "problem"; "defect"; "regression"; "crash"]];
  word [alt [seq [lit "re"; opt (lit "-"); lit "factor"]; lit "refactoring"; lit "restructure"; lit "migrate"; lit "migration"]];
  word [lits ["integrate"; "integration"; "wire up"; "hook up"]];
  word [lits ["debug"; "investigate"; "trace"]];
  word [alt [seq [lit "cross"; dash_or_space; lit "module"]; seq [lit "multi"; dash_or_space; lit "file"];
             seq [lit "multi"; dash_or_space; lit "step"]]];
  word [alt [lit "browser"; lit "ui"; lit "frontend"; seq [lit "front"; dash_or_space; lit "end"]; lit "css"; lit "layout"; lit "visual"];
        lit " "; Star any; lits ["fix"; "change"; "behavior"; "behaviour"]];
  word [lits ["delegate"; "parallel"; "children"; "subagent"; "agents"]];
  word [lits ["test"; "verify"; "validate"]; Star any; lits ["suite"; "coverage"; "fixture"; "harness"]] ].

Definition isTriviallyShort (text : jsstr) : bool :=
  let trimmed := trim text in (0 <? zlen trimmed) && (zlen trimmed <=? 32).

Definition isTrivialGoalObjective (text : jsstr) : bool :=
  let normalized := trim (boundedText text MAX_OBJECTIVE_CHARS_FOR_CLASSIFICATION) in
  if zlen normalized =? 0 then true
  else if existsb (λ pattern, test pattern normalized) TRIVIAL_PATTERNS then true
  else if isTriviallyShort normalized then true
  else false.

Definition hasSubstantialGoalMarkers (text : jsstr) : bool :=
  let bounded := boundedText text MAX_OBJECTIVE_CHARS_FOR_CLASSIFICATION in
  existsb (λ pattern, test pattern bounded) SUBSTANTIAL_PATTERNS.

Record promotion := { promote : bool; pr_reason : jsstr }.

Definition decideAiraGoalPromotion (auto : AiraGoalAutoSetting) (text : jsstr) : promotion :=
  match auto with
  | auto_off => {| promote := false; pr_reason := js "goals.auto is off" |}
  | _ =>
      if isTrivialGoalObjective text && negb (bool_decide (auto = auto_always)) then
        {| promote := false; pr_reason := js "trivial objective (smart mode skips durable goals)" |}
      else {| promote := true; pr_reason := if bool_decide (auto = auto_always) then js "always mode"
                                            else js "non-trivial objective (smart mode)" |}
  end.

(** ** Lemmas *)

(** Automatic promotion, as a table. *)
Lemma promote_iff auto text :
  promote (decideAiraGoalPromotion auto text) =
  match auto with auto_off => false | auto_smart => negb (isTrivialGoalObjective text) | auto_always => true end.
Proof.
  destruct auto; cbn -[isTrivialGoalObjective]; try done; [|by rewrite andb_false_r].
  by destruct (isTrivialGoalObjective text).
Qed.

Lemma bound_text_short n s : zlen s <= n → bound_text n s = s.
Proof. intros H. unfold bound_text. by rewrite (proj2 (Z.leb_le _ _) H). Qed.

Example trivial_objectives :
  forallb (λ t, isTrivialGoalObjective (js t))
    ["Fix the typo in the configuration loader module"; "please rename the handler to dispatcher everywhere in here";
     "Can you tell whether this function is ever reached?"; "/goal create something that is long enough to pass";
     "update docs for the new release candidate branch now"; "reformat the code of the whole repository please ok"] = true.
Proof. vm_compute. reflexivity. Qed.

Example other_objectives :
  forallb (λ t, negb (isTrivialGoalObjective (js t)))
    ["Implement OAuth login with refresh tokens and tests"; "the cans are empty, is that so? well it might well be"] = true.
Proof. vm_compute. reflexivity. Qed.

(** In smart mode an objective is promoted unless it is short: whatever its words, also those
    the source lists as markers of substantial work, an objective of at most 32 characters starts no
    goal, and only the [always] setting promotes it. *)
Theorem short_objectives_skipped text (Hs : zlen (trim text) <= 32) :
  promote (decideAiraGoalPromotion auto_smart text) = false
  ∧ promote (decideAiraGoalPromotion auto_always text) = true.
Proof.
  split; [|by rewrite promote_iff]. rewrite promote_iff. apply negb_false_iff. unfold isTrivialGoalObjective, isTriviallyShort.
  unfold boundedText. rewrite bound_text_short by (unfold MAX_OBJECTIVE_CHARS_FOR_CLASSIFICATION; lia). rewrite !trim_idem.
  destruct (zlen (trim text) =? 0) eqn:E; [done|]. case_match; [done|]. bool_prop.
  pose proof (zlen_nonneg (trim text)).
  by rewrite (proj2 (Z.ltb_lt _ _)), (proj2 (Z.leb_le _ _)) by lia.
Qed.

(** It holds of an objective the source's own marker list calls substantial. *)
Lemma short_objectives_skipped_witness :
  hasSubstantialGoalMarkers (js "Implement the api service") = true
  ∧ promote (decideAiraGoalPromotion auto_smart (js "Implement the api service")) = false
  ∧ promote (decideAiraGoalPromotion auto_always (js "Implement the api service")) = true.
Proof. split; [by vm_compute|]. apply short_objectives_skipped. by vm_compute. Defined.

End GoalEligibility.
