(* ===== verification/GoalPrompt.v ===== *)
(** * Goals: continuation directive, persistence and reports

    Models [aira/goal/prompt.ts], [persistence.ts] and [status.ts]. *)
From S2P Require Import Prelude JsMap JsString OrchTypes Capabilities Policy VerifyTypes GoalData.

Module GoalPrompt.
Import GoalData.

(** ** The repair directive *)

Definition MAX_CONTINUATION_CHARS : Z := 3000.
Definition MAX_FINDINGS : Z := 5.
Definition MAX_FINDING_CHARS : Z := 300.
Definition MAX_EVIDENCE : Z := 8.
Definition MAX_EVIDENCE_CHARS : Z := 200.

Record AiraGoalRepairContext := { summary : jsstr; blocking : list jsstr; unmet : list jsstr; evidence : list jsstr }.

Record AiraGoalContinuationInput := { objective : jsstr; round : Z; repair : AiraGoalRepairContext; changeContext : jsstr }.

Definition bound (value : jsstr) (max : Z) : jsstr := bound_text max (trim value).

Definition continuation_lines (input : AiraGoalContinuationInput) : list jsstr :=
  [ js "Continue implementing the active goal objective: " ++ bound (objective input) 400;
    js "This is repair round " ++ num_str (round input) ++ js ".";
    [];
    js "AUTONOMOUS GOAL CONTINUATION: fix the blocking findings below, then stop. Never declare the goal complete; completion is decided by independent verification.";
    [] ]
  ++ (if 0 <? zlen (trim (changeContext input)) then [js "Current change state: " ++ trim (changeContext input); []] else [])
  ++ (match blocking (repair input) with
      | [] => [js "Independent verification reported FAIL without blocking findings."]
      | fs => js "Independent verification BLOCKING findings:"
              :: ((λ f, js "- " ++ bound f MAX_FINDING_CHARS) <$> take (Z.to_nat MAX_FINDINGS) fs)
      end)
  ++ (match unmet (repair input) with
      | [] => []
      | us => [[]; js "Unmet verification requirements:"] ++ ((λ u, js "- " ++ bound u 180) <$> us)
      end)
  ++ (match evidence (repair input) with
      | [] => []
      | es => [[]; js "Evidence the verifier inspected: "
                   ++ join (js " | ") ((λ e, bound e MAX_EVIDENCE_CHARS) <$> take (Z.to_nat MAX_EVIDENCE) es)]
      end).

Definition buildAiraGoalContinuationPrompt (input : AiraGoalContinuationInput) : jsstr :=
  bound_text MAX_CONTINUATION_CHARS (join [10] (continuation_lines input)).

(** ** Persistence

    The stored file is what [JSON.parse] reads back: a value that is no object of the
    shape that is written is [other_content].  [JSON.stringify] leaves out the members
    that are [undefined], which are read back as [undefined]. *)

Record AiraGoalPersistenceRecord := { r_status : persistence_status; r_error : option jsstr; r_path : option jsstr }.

Record AiraGoalPersistableState := {
  p_id : jsstr; p_objective : jsstr; p_status : AiraGoalStatus; p_round : Z; p_startedAt : Z; p_updatedAt : Z;
  p_completedAt : option Z; p_stopReason : option AiraGoalStopReason; p_waiting : option AiraGoalWaiting;
  p_lastVerdict : option VerifyTypes.AiraVerificationVerdict; p_sessionTokens : option Z }.

Record AiraPersistedGoal := { version : Z; g_sessionId : jsstr; g_goal : option AiraGoalPersistableState }.
Inductive stored := absent | other_content | stored_goal (g : AiraPersistedGoal).

Definition RECOVERY_REASONS : list jsstr := [js "startup"; js "resume"].

Definition safe_char (u : Z) : bool :=
  ((97 <=? u) && (u <=? 122)) || ((65 <=? u) && (u <=? 90)) || ((48 <=? u) && (u <=? 57)) || bool_decide (u ∈ [46; 95; 45]).
Definition safeSessionFileName (uuid sessionId : jsstr) : jsstr :=
  let safe := slice0 120 ((λ u, if safe_char u then u else 95) <$> sessionId) in
  if 0 <? zlen safe then safe else js "session-" ++ uuid.

Definition boundedError (message : jsstr) : jsstr := bound_text 200 message.

Record store := { st_sessionId : jsstr; st_startReason : jsstr; st_enabled : bool; st_path : jsstr; st_file : stored }.

(** [AiraGoalPersistence.path] *)
Definition storage_path (baseDir uuid sessionId : jsstr) : jsstr :=
  baseDir ++ js "/" ++ safeSessionFileName uuid sessionId ++ js ".json".

Definition load (s : store) : option AiraPersistedGoal :=
  match st_file s with
  | stored_goal g =>
      if negb (version g =? AIRA_GOAL_PERSISTED_STATE_VERSION) then None
      else if negb (str_eqb (g_sessionId g) (st_sessionId s)) then None
      else match g_goal g with Some _ => Some g | None => None end
  | absent | other_content => None
  end.

(** [io_error] is the exception of the file system, if it throws one. *)
Definition save (io_error : option jsstr) (state : AiraGoalPersistableState) (s : store) : store * AiraGoalPersistenceRecord :=
  if negb (st_enabled s) then (s, {| r_status := p_unavailable; r_error := None; r_path := Some (st_path s) |})
  else match io_error with
  | Some e => (s, {| r_status := p_failed; r_error := Some (boundedError e); r_path := Some (st_path s) |})
  | None =>
      ({| st_sessionId := st_sessionId s; st_startReason := st_startReason s; st_enabled := st_enabled s; st_path := st_path s;
          st_file := stored_goal {| version := AIRA_GOAL_PERSISTED_STATE_VERSION; g_sessionId := st_sessionId s; g_goal := Some state |} |},
       {| r_status := p_ok; r_error := None; r_path := Some (st_path s) |})
  end.

Definition clear (io_error : option jsstr) (s : store) : store * AiraGoalPersistenceRecord :=
  match io_error with
  | Some e => (s, {| r_status := p_failed; r_error := Some (boundedError e); r_path := Some (st_path s) |})
  | None =>
      ({| st_sessionId := st_sessionId s; st_startReason := st_startReason s; st_enabled := st_enabled s; st_path := st_path s;
          st_file := absent |},
       {| r_status := p_ok; r_error := None; r_path := Some (st_path s) |})
  end.

(** [now] is [Date.now()]. *)
Definition recover (now : Z) (s : store) : option AiraGoalPersistableState :=
  if negb (bool_decide (st_startReason s ∈ RECOVERY_REASONS)) then None
  else match load s with
  | None => None
  | Some persisted =>
      (λ goal, {| p_id := p_id goal; p_objective := p_objective goal;
                  p_status := if running (p_status goal) then paused else p_status goal;
                  p_round := p_round goal; p_startedAt := p_startedAt goal; p_updatedAt := now;
                  p_completedAt := p_completedAt goal;
                  p_stopReason := if running (p_status goal) then Some interrupted else p_stopReason goal;
                  p_waiting := p_waiting goal; p_lastVerdict := p_lastVerdict goal; p_sessionTokens := p_sessionTokens goal |})
      <$> g_goal persisted
  end.

(** ** Reports *)

Definition summarizeAiraGoal (goal : option AiraGoalSnapshot) : option jsstr := s_summary <$> goal.

Definition auto_name (a : AiraGoalAutoSetting) : jsstr :=
  match a with auto_off => js "off" | auto_smart => js "smart" | auto_always => js "always" end.
Definition verdict_name (v : VerifyTypes.AiraVerificationVerdict) : jsstr :=
  match v with VerifyTypes.pass => js "pass" | VerifyTypes.fail => js "fail" | VerifyTypes.inconclusive => js "inconclusive" end.
Definition bool_name (b : bool) : jsstr := if b then js "true" else js "false".

Definition formatElapsed (startedAt now : Z) : jsstr :=
  let seconds := Z.max 0 ((now - startedAt) / 1000) in
  if seconds <? 60 then num_str seconds ++ js "s"
  else num_str (seconds / 60) ++ js "m " ++ num_str (seconds mod 60) ++ js "s".

Definition usageLine (goal : AiraGoalSnapshot) : option jsstr :=
  let parts :=
    (match consumedTokens (s_usage goal) with
     | Some c => [js "tokens: " ++ num_str c ++ js " consumed"
                  ++ match s_remainingTokens goal with Some r => js " / " ++ num_str r ++ js " left" | None => [] end]
     | None => [] end)
    ++ (match (s_budget goal).1 with Some b => [js "budget: " ++ num_str b] | None => [] end)
    ++ (match (s_budget goal).2 with Some d => [js "duration: " ++ num_str (seconds d) ++ js "s"] | None => [] end) in
  match parts with [] => None | _ => Some (join (js " · ") parts) end.

Definition formatAiraGoalReport (now : Z) (goal : option AiraGoalSnapshot) : jsstr :=
  match goal with
  | None => js "goal: idle"
  | Some g =>
      if bool_decide (s_status g = idle) then
        join [10] [js "goal: idle"; js "enabled: " ++ bool_name (s_enabled g) ++ js " · auto: " ++ auto_name (s_auto g)
                                    ++ js " · max rounds: " ++ num_str (s_maxRounds g)]
      else
      join [10]
        ([js "goal: " ++ default (js "(no objective)") (s_objective g);
          js "status: " ++ airaGoalStatusLabel (s_status g) ++ match s_stopReason g with Some r => js " · " ++ reason_name r | None => [] end;
          js "round: " ++ num_str (s_round g) ++ js "/" ++ num_str (s_maxRounds g)]
         ++ (match s_startedAt g with
             | Some t => if t =? 0 then [] else [js "elapsed: " ++ formatElapsed t (default now (s_completedAt g))]
             | None => [] end)
         ++ (let t := s_tasks g in
             if 0 <? t_total t then [js "tasks: " ++ num_str (t_completed t) ++ js "/" ++ num_str (t_total t) ++ js " done · "
                                     ++ num_str (t_active t) ++ js " active"] else [])
         ++ (let v := s_verification g in
             match v_verdict v with
             | Some r => [js "verify: " ++ verdict_name r ++ (if v_stale v then js " (stale)" else [])
                          ++ match truthy (v_lastError v) with Some e => js " · error: " ++ e | None => [] end]
             | None => [] end)
         ++ (match usageLine g with Some l => [l] | None => [] end)
         ++ (match s_waiting g with
             | Some w => [js "waiting: " ++ reason_name (w_reason w) ++ js " — " ++ w_detail w
                          ++ match truthy (w_ask w) with Some a => js " (ask: " ++ a ++ js ")" | None => [] end]
             | None => [] end)
         ++ (if s_staleCompletion g then [js "note: the verified implementation changed after completion (stale)"] else [])
         ++ (match truthy (s_lastEvent g) with Some e => [js "last: " ++ e] | None => [] end)
         ++ [js "controls: /goal stop · /goal resume · /goal clear"])
  end.

Definition formatAiraGoalIdleLine : jsstr := js "goal: idle".

(** ** Lemmas *)

(** A bounded text keeps a prefix that is shorter than the bound. *)
Lemma bound_text_prefix n h r : zlen h <= n - 1 → ∃ r', bound_text n (h ++ r) = h ++ r'.
Proof.
  intros Hh. unfold bound_text. case_match; [by eexists|]. unfold slice0. rewrite take_app, <- (assoc_L (++)).
  eexists. f_equal. apply take_ge. revert Hh. unfold zlen. lia.
Qed.

Lemma recover_never_running now s g : recover now s = Some g → running (p_status g) = false.
Proof.
  unfold recover. case_match; [done|]. destruct (load s) as [p|]; [|done]. destruct (g_goal p) as [q|]; [|done].
  intros [= <-]. cbn. by destruct (running (p_status q)) eqn:E.
Qed.

(** What is saved is what a restart of the same session recovers: with a healthy file system the
    goal comes back with its identity, objective, round, verdict and waiting state; a goal that was
    running comes back paused and interrupted, and a goal in any other status unchanged. A session
    started for any other reason, or with another id, recovers nothing. *)
Theorem saved_goal_recovers s now g reason
  (He : st_enabled s = true) :
  let s' := (save None g s).1 in
  let restart sid := {| st_sessionId := sid; st_startReason := reason; st_enabled := true;
                        st_path := st_path s; st_file := st_file s' |} in
  (reason ∈ RECOVERY_REASONS →
     ∃ g', recover now (restart (st_sessionId s)) = Some g'
       ∧ (p_id g', p_objective g', p_round g', p_startedAt g', p_completedAt g')
         = (p_id g, p_objective g, p_round g, p_startedAt g, p_completedAt g)
       ∧ p_lastVerdict g' = p_lastVerdict g ∧ p_waiting g' = p_waiting g
       ∧ (p_status g', p_stopReason g')
         = if running (p_status g) then (paused, Some interrupted) else (p_status g, p_stopReason g))
  ∧ (reason ∉ RECOVERY_REASONS → recover now (restart (st_sessionId s)) = None)
  ∧ (∀ sid, sid ≠ st_sessionId s → recover now (restart sid) = None).
Proof.
  cbn zeta. unfold save. rewrite He. cbn [negb fst st_file st_path]. unfold recover, load.
  cbn [st_startReason st_file st_sessionId version g_sessionId g_goal fmap option_fmap option_map].
  change (AIRA_GOAL_PERSISTED_STATE_VERSION =? AIRA_GOAL_PERSISTED_STATE_VERSION) with true.
  unfold str_eqb. split; [|split].
  - intros Hr. rewrite (bool_decide_eq_true_2 _ Hr), (bool_decide_eq_true_2 (st_sessionId s = _)) by done. cbn.
    eexists. split; [done|]. cbn. by destruct (running (p_status g)).
  - intros Hr. by rewrite (bool_decide_eq_false_2 _ Hr).
  - intros sid Hsid. rewrite (bool_decide_eq_false_2 (st_sessionId s = sid)) by congruence. cbn. by case_match.
Qed.

Definition sample_goal : AiraGoalPersistableState :=
  {| p_id := js "g-1"; p_objective := js "o"; p_status := repairing; p_round := 3; p_startedAt := 5; p_updatedAt := 6;
     p_completedAt := None; p_stopReason := None; p_waiting := None; p_lastVerdict := Some VerifyTypes.fail;
     p_sessionTokens := None |}.
Definition sample_store : store :=
  {| st_sessionId := js "s"; st_startReason := js "new"; st_enabled := true; st_path := js "p"; st_file := absent |}.

(** A goal under repair comes back paused in its third round. *)
Lemma saved_goal_recovers_witness :
  ∃ g', recover 9 {| st_sessionId := js "s"; st_startReason := js "startup"; st_enabled := true; st_path := js "p";
                     st_file := st_file (save None sample_goal sample_store).1 |} = Some g'
        ∧ (p_status g', p_stopReason g') = (paused, Some interrupted) ∧ p_round g' = 3.
Proof.
  destruct (saved_goal_recovers sample_store 9 sample_goal (js "startup") eq_refl) as [H _].
  assert (js "startup" ∈ RECOVERY_REASONS) as Hr by (by left).
  destruct (H Hr) as (g' & H1 & H2 & _ & _ & H3).
  exists g'. split; [exact H1|]. split; [exact H3|]. by injection H2.
Defined.

(** The directive of a repair round stays within its bound, and it always opens with the
    objective: its first [49 + 400] characters are the fixed heading and the bounded objective,
    whatever the verifier reported. *)
Theorem continuation_bounded input :
  zlen (buildAiraGoalContinuationPrompt input) <= MAX_CONTINUATION_CHARS
  ∧ ∃ rest, buildAiraGoalContinuationPrompt input
            = js "Continue implementing the active goal objective: " ++ bound (objective input) 400 ++ rest.
Proof.
  split; [by apply bound_text_le|]. unfold buildAiraGoalContinuationPrompt, continuation_lines.
  set (head := js "Continue implementing the active goal objective: " ++ bound (objective input) 400).
  assert (zlen head <= 449) as Hh.
  { subst head. rewrite zlen_app. pose proof (bound_text_le 400 (trim (objective input)) eq_refl).
    unfold bound. change (zlen (js "Continue implementing the active goal objective: ")) with 49. lia. }
  rewrite <- !app_comm_cons, join_cons by done.
  edestruct (bound_text_prefix MAX_CONTINUATION_CHARS head) as [r ->]; [unfold MAX_CONTINUATION_CHARS; lia|].
  exists r. subst head. by rewrite <- (assoc_L (++)).
Qed.

End GoalPrompt.
