(* ===== verification/GoalManager.v ===== *)
(** * The goal manager

    Models [aira/goal/manager.ts].  The source keeps a mutable goal object and captures it
    in asynchronous continuations, so the objects live in a store and [goal] is a reference
    into it: a continuation may hold an object that is no longer the goal.  Every [await]
    ends a synchronous step and leaves a [job]; any call and any settled job is the next
    step, run by [run]. *)
From S2P Require Import Prelude JsMap JsString OrchTypes Tasks Capabilities Policy Ownership VerifyTypes Regex GoalData GoalPrompt.

Module GoalManager.
Import VerifyTypes Capabilities GoalData.
Notation Result := VerifyTypes.AiraVerificationResult.

Definition MAX_OBJECTIVE_CHARS : Z := 4000.
Definition MAX_OBJECTIVE_SNAPSHOT_CHARS : Z := 400.
Definition MAX_LAST_EVENT_CHARS : Z := 200.
Definition MAX_WAITING_DETAIL_CHARS : Z := 300.
Definition MAX_MISSING_EVIDENCE_SNAPSHOT : Z := 4.
Definition MAX_MISSING_EVIDENCE_CHARS : Z := 120.

(** ** Data *)

Record AiraGoalState := {
  g_id : jsstr; g_objective : jsstr; g_status : AiraGoalStatus; g_round : Z; g_createdAt : Z; g_startedAt : Z;
  g_updatedAt : Z; g_completedAt : option Z; g_stopReason : option AiraGoalStopReason; g_waiting : option AiraGoalWaiting;
  g_revisionId : option jsstr; g_lastVerdict : option VerifyTypes.AiraVerificationVerdict; g_lastBlockingFinding : option jsstr;
  g_observedRound : Z; g_usageBaseline : option AiraSessionUsageSnapshot; g_childUsageBaseline : option AiraChildTokenUsage;
  g_childrenTokens : Z; g_verifierTokens : Z; g_lastResultId : option jsstr; g_lastRevisionId : option jsstr;
  g_continuationPending : bool; g_evidenceAcquisitionRound : Z; g_repairContext : option GoalPrompt.AiraGoalRepairContext;
  g_lastEvent : option jsstr; g_waitingInteraction : bool }.

#[export] Instance AiraGoalState_rebuild : Rebuild AiraGoalState := λ g,
  Build_AiraGoalState (g_id g) (g_objective g) (g_status g) (g_round g) (g_createdAt g) (g_startedAt g) (g_updatedAt g)
    (g_completedAt g) (g_stopReason g) (g_waiting g) (g_revisionId g) (g_lastVerdict g) (g_lastBlockingFinding g)
    (g_observedRound g) (g_usageBaseline g) (g_childUsageBaseline g) (g_childrenTokens g) (g_verifierTokens g)
    (g_lastResultId g) (g_lastRevisionId g) (g_continuationPending g) (g_evidenceAcquisitionRound g) (g_repairContext g)
    (g_lastEvent g) (g_waitingInteraction g).

#[export] Instance AiraGoalState_inhabited : Inhabited AiraGoalState := populate
  {| g_id := []; g_objective := []; g_status := idle; g_round := 0; g_createdAt := 0; g_startedAt := 0; g_updatedAt := 0;
     g_completedAt := None; g_stopReason := None; g_waiting := None; g_revisionId := None; g_lastVerdict := None;
     g_lastBlockingFinding := None; g_observedRound := 0; g_usageBaseline := None; g_childUsageBaseline := None;
     g_childrenTokens := 0; g_verifierTokens := 0; g_lastResultId := None; g_lastRevisionId := None;
     g_continuationPending := false; g_evidenceAcquisitionRound := 0; g_repairContext := None; g_lastEvent := None;
     g_waitingInteraction := false |}.

(** What the orchestration snapshot shows of the children. *)
Record Orchestration := {
  aggregateTokenUsage : option AiraChildTokenUsage; settledChildren : Z; runningCount : Z; queuedCount : Z }.

(** What the manager reads during one synchronous step: its options, the session state
    and the clock. *)
Record Env := {
  now : Z; uuid : jsstr; settings : AiraGoalSettings; mode : AiraMode;
  has_verifier : bool; verification : option VerifyTypes.AiraVerificationStatus;
  orchestration : option Orchestration; state_tasks : option Tasks.AiraTasksStatus; tasks_handle : bool;
  usageSeam : option AiraSessionUsageSnapshot; hasPendingMessages : bool; sendContinuation : bool; has_execution : bool;
  testCommands : list jsstr; checkCommands : list jsstr; intelligence : option (Z * Z);
  workspaceOwnership : option Ownership.AiraWorkspaceOwnershipObservation; io_error : option jsstr }.

(** A message of a finished run: the [stopReason] of an assistant message, if it is a string. *)
Inductive run_message := m_assistant (stopReason : option jsstr) | m_other.
(** The content of a message: each block of an array is its text, or none. *)
Inductive content := c_string (s : jsstr) | c_blocks (blocks : list (option jsstr)) | c_other.
Inductive AgentEvent := message_start_user (c : content) | agent_end (messages : list run_message) (willRetry : bool) | other_event.

Inductive effect :=
| e_beginGoal | e_ownership_event (ev : AgentEvent) | e_ready | e_abortRun
| e_verify (force : bool) (objective : jsstr) | e_start (command : jsstr)
| e_send (o : nat) (text : jsstr)  (** the object is recorded for the theorems *)
| e_unhandled (e : jsstr)  (** the rejection of a promise nobody awaits *).

(** What is awaited, with what the continuation captured. *)
Inductive job :=
| j_verify (o : nat)                              (** [verification.verify] of the boundary *)
| j_boundary (o : nat) (note : option jsstr)      (** [requestBoundaryVerification] has returned *)
| j_acquire (o : nat) (r : Result)                (** [execution.start] *)
| j_acquired (o : nat) (r : Result) (ran : bool)  (** [acquireTestEvidence] has returned *)
| j_recheck (o : nat) (r : Result) (called : bool) (** the forced [verify], if there is a verifier *)
| j_send (o : nat)                                (** [sendContinuation] *).

(** How an awaited call settles: [verify] and [sendContinuation] with their [ok] or [sent],
    [start] with [ok || status !== "spawn-failed"]. *)
Inductive outcome := resolved (b : bool) | rejected (e : jsstr).

Record AiraGoalManager := {
  heap : gmap nat AiraGoalState; next : nat; goal : option nat;
  listeners : list nat; delivered : list (nat * AiraGoalSnapshot);
  persistence : GoalPrompt.store; persistenceRecord : GoalPrompt.AiraGoalPersistenceRecord;
  snapshot : AiraGoalSnapshot; state_goal : option AiraGoalSnapshot; disposed : bool; subscribed : bool;
  taskCompletionKey : option jsstr; previousFailObservation : option AiraRoundObservation;
  jobs : list job; effects : list effect  (** latest last *) }.

#[export] Instance AiraGoalManager_rebuild : Rebuild AiraGoalManager := λ m,
  Build_AiraGoalManager (heap m) (next m) (goal m) (listeners m) (delivered m) (persistence m) (persistenceRecord m)
    (snapshot m) (state_goal m) (disposed m) (subscribed m) (taskCompletionKey m) (previousFailObservation m) (jobs m) (effects m).

Record AiraGoalActionResult := { ok : bool; a_status : AiraGoalStatus; a_message : jsstr }.

Notation M := (stres AiraGoalManager jsstr).

Definition deref (m : AiraGoalManager) (o : nat) : AiraGoalState := heap m !!! o.
Definition obj (o : nat) : M AiraGoalState := λ m, (m, Ok (deref m o)).
(** The fields of an object are assigned. *)
Definition upd (o : nat) (f : AiraGoalState → AiraGoalState) : M () := modify (λ m, m <| heap := alter f o (heap m) |>).
Definition emit (e : effect) : M () := modify (λ m, m <| effects := effects m ++ [e] |>).
Definition await (j : job) : M () := modify (λ m, m <| jobs := jobs m ++ [j] |>).
(** A new object becomes the goal. *)
Definition allocate (g : AiraGoalState) : M nat := λ m,
  (m <| heap := <[next m := g]> (heap m) |> <| next := S (next m) |> <| goal := Some (next m) |>, Ok (next m)).
(** [void promise]: the exception of an asynchronous function is not the caller's. *)
Definition detached (k : M ()) : M () := λ m,
  match k m with
  | (m', Ok _) => (m', Ok ())
  | (m', Err e) => (m' <| effects := effects m' ++ [e_unhandled e] |>, Ok ())
  end.
Definition when (c : bool) (k : M ()) : M () := if c then k else mret ().

(** ** Helpers of the module *)

Definition boundedText (value : jsstr) (max : Z) : jsstr := bound_text max (trim value).

Definition firstOf (values : list jsstr) : option jsstr := head values.

Fixpoint last_assistant (rev_messages : list run_message) : option jsstr :=
  match rev_messages with
  | [] => None
  | m_assistant s :: _ => s
  | m_other :: l => last_assistant l
  end.
Definition lastAssistantStopReason (messages : list run_message) : option jsstr := last_assistant (rev messages).

Definition messageText (c : content) : jsstr :=
  match c with
  | c_string s => trim s
  | c_blocks blocks => trim (join [10] (omap (λ b, b) blocks))
  | c_other => []
  end.

Definition blocking_findings (r : Result) : list VerifyTypes.AiraVerificationFinding :=
  filter (λ f, VerifyTypes.severity f = VerifyTypes.blocking) (VerifyTypes.findings r).

Definition highestBlockingFinding (r : Result) : option jsstr :=
  (λ f, boundedText (VerifyTypes.message f) 240) <$> head (blocking_findings r).

Definition blockingSignatureOf (finding : option jsstr) : option jsstr :=
  (λ f, num_str (zlen f) ++ js ":" ++ f) <$> truthy finding.

Definition repairContextOf (r : Result) : GoalPrompt.AiraGoalRepairContext :=
  {| GoalPrompt.summary := boundedText (VerifyTypes.summary r) 300;
     GoalPrompt.blocking :=
       (λ f, boundedText (match truthy (VerifyTypes.evidence f) with
                          | Some e => VerifyTypes.message f ++ js " (" ++ e ++ js ")"
                          | None => VerifyTypes.message f end) 320) <$> take 5 (blocking_findings r);
     GoalPrompt.unmet :=
       (λ q, VerifyTypes.req_id q ++ js ": " ++ boundedText (VerifyTypes.req_text q) 180)
       <$> take 8 (filter (λ q, VerifyTypes.req_status q = VerifyTypes.unmet) (VerifyTypes.requirements r));
     GoalPrompt.evidence := VerifyTypes.label <$> take 8 (VerifyTypes.r_evidence r) |}.

Definition summarizeMissingEvidence (items : list jsstr) : jsstr :=
  match items with
  | [] => js "no specific missing evidence listed"
  | _ => bound_text 240 (join (js "; ") (take 3 items))
  end.

Definition summarizeGoal (g : AiraGoalState) (tasks : AiraGoalTaskProjection) (v : AiraGoalVerificationProjection) : jsstr :=
  match g_status g with
  | active => js "active · round " ++ num_str (g_round g)
              ++ (if 0 <? t_active tasks
                  then js " · " ++ num_str (t_completed tasks) ++ js "/" ++ num_str (t_total tasks) ++ js " tasks" else [])
  | repairing => js "repairing · round " ++ num_str (g_round g)
  | verifying => js "verifying"
  | waiting => if bool_decide (w_reason <$> g_waiting g = Some input_required) then js "waiting · input required" else js "waiting"
  | paused => js "paused"
  | completed => if v_stale v then js "completed (verification stale)" else js "completed"
  | budget_limited => js "budget-limited · " ++ match g_stopReason g with Some r => reason_name r | None => js "bound" end
  | cancelled => js "cancelled"
  | error => js "error"
  | idle => js "idle"
  end.

Section Manager.
Context (env : Env).

(** ** Usage and freshness *)

Definition commitChildUsage (o : nat) : M () :=
  match orchestration env ≫= aggregateTokenUsage with
  | None => mret ()
  | Some children =>
      upd o (λ g, let delta := Z.max 0 (u_total children - match g_childUsageBaseline g with Some b => u_total b | None => 0 end) in
                  g <| g_childrenTokens := g_childrenTokens g + delta |>
                    <| g_childUsageBaseline := mergeAiraChildTokenUsage (g_childUsageBaseline g) (Some children) |>)
  end.

Definition trackVerifierTokens (o : nat) (r : Result) : M () :=
  match VerifyTypes.tokenUsage r with
  | Some t => if 0 <? u_total t then upd o (λ g, g <| g_verifierTokens := g_verifierTokens g + u_total t |>) else mret ()
  | None => mret ()
  end.

Definition usageProjection (g : AiraGoalState) : AiraGoalUsage :=
  computeAiraGoalUsage
    {| in_session := usageSeam env; in_baseline := g_usageBaseline g;
       in_children := Some {| u_input := 0; u_output := 0; u_cacheRead := 0; u_cacheWrite := 0; u_total := g_childrenTokens g |};
       in_childrenBaseline := None; in_verifierTokens := g_verifierTokens g |}.

(** [state.verification?.currentResult] *)
Definition current_result : option Result := verification env ≫= VerifyTypes.currentResult.

Definition freshVerificationResult (g : AiraGoalState) : option Result :=
  match current_result with
  | None => None
  | Some r =>
      if bool_decide (g_lastResultId g = Some (VerifyTypes.id r)) && bool_decide (g_lastRevisionId g = Some (VerifyTypes.revisionId r))
      then None else Some r
  end.

(** ** Snapshot *)

Definition taskProjection : AiraGoalTaskProjection :=
  match state_tasks env with
  | Some t => {| t_completed := Tasks.st_counts t Tasks.completed; t_active := Tasks.st_counts t Tasks.active; t_total := Tasks.st_total t |}
  | None =>
      match orchestration env with
      | None => {| t_completed := 0; t_active := 0; t_total := 0 |}
      | Some c => let active := runningCount c + queuedCount c in
                  {| t_completed := settledChildren c; t_active := active; t_total := settledChildren c + active |}
      end
  end.

Definition verificationProjection : AiraGoalVerificationProjection :=
  {| v_verdict := VerifyTypes.r_verdict <$> current_result;
     v_stale := match verification env with Some v => VerifyTypes.stale v | None => false end;
     v_summary := (λ r, boundedText (VerifyTypes.summary r) 300) <$> current_result;
     v_missingEvidence :=
       (λ item, boundedText item MAX_MISSING_EVIDENCE_CHARS)
       <$> take (Z.to_nat MAX_MISSING_EVIDENCE_SNAPSHOT) (match verification env with Some v => VerifyTypes.s_missingEvidence v | None => [] end);
     v_lastError := verification env ≫= VerifyTypes.lastError |}.

Definition workspaceProjection : AiraGoalWorkspaceProjection :=
  match workspaceOwnership env with
  | Some ob => let '(b, o, p, u) := Ownership.ob_counts ob in
               {| w_available := Ownership.ob_available ob; w_baseline := b; w_owned := o; w_protected := p; w_unowned := u |}
  | None => {| w_available := false; w_baseline := 0; w_owned := 0; w_protected := 0; w_unowned := 0 |}
  end.

Definition persistence_health (r : GoalPrompt.AiraGoalPersistenceRecord) : AiraGoalPersistenceHealth :=
  {| h_enabled := true; h_status := GoalPrompt.r_status r; h_path := GoalPrompt.r_path r; h_error := GoalPrompt.r_error r |}.

Definition buildIdleSnapshot (rec : GoalPrompt.AiraGoalPersistenceRecord) : AiraGoalSnapshot :=
  {| s_enabled := enabled (settings env); s_auto := auto (settings env); s_status := idle; s_id := None; s_objective := None;
     s_round := 0; s_maxRounds := maxRounds (settings env); s_startedAt := None; s_updatedAt := now env; s_completedAt := None;
     s_stopReason := None; s_waiting := None; s_budget := (tokenBudget (settings env), maxDurationMs (settings env));
     s_usage := {| sessionTokens := None; childrenTokens := None; verifierTokens := None; consumedTokens := None;
                   sessionCost := None; sources := [] |};
     s_remainingTokens := None; s_revision := None; s_tasks := taskProjection; s_verification := verificationProjection;
     s_workspace := workspaceProjection; s_staleCompletion := false; s_needsUserInput := false; s_mode := mode env;
     s_lastEvent := None; s_persistence := persistence_health rec; s_summary := js "idle" |}.

Definition buildSnapshot (m : AiraGoalManager) : AiraGoalSnapshot :=
  match goal m with
  | None => buildIdleSnapshot (persistenceRecord m)
  | Some o =>
      let g := deref m o in
      let usage := usageProjection g in
      let v := verificationProjection in
      let tasks := taskProjection in
      {| s_enabled := enabled (settings env); s_auto := auto (settings env); s_status := g_status g; s_id := Some (g_id g);
         s_objective := Some (boundedText (g_objective g) MAX_OBJECTIVE_SNAPSHOT_CHARS);
         s_round := g_round g; s_maxRounds := maxRounds (settings env); s_startedAt := Some (g_startedAt g);
         s_updatedAt := g_updatedAt g; s_completedAt := g_completedAt g; s_stopReason := g_stopReason g; s_waiting := g_waiting g;
         s_budget := (tokenBudget (settings env), maxDurationMs (settings env)); s_usage := usage;
         s_remainingTokens := remainingAiraGoalTokens (settings env) usage;
         s_revision := (λ r, {| rv_revisionId := Some r; rv_round := g_observedRound g;
                                rv_blockingSignature := blockingSignatureOf (g_lastBlockingFinding g) |}) <$> g_revisionId g;
         s_tasks := tasks; s_verification := v; s_workspace := workspaceProjection;
         s_staleCompletion := bool_decide (g_status g = completed) && (v_stale v || negb (bool_decide (v_verdict v = Some VerifyTypes.pass)));
         s_needsUserInput := bool_decide (g_status g = waiting); s_mode := mode env; s_lastEvent := g_lastEvent g;
         s_persistence := persistence_health (persistenceRecord m); s_summary := summarizeGoal g tasks v |}
  end.

(** A listener is given the snapshot; what it does with it is not modelled. *)
Definition publish : M () :=
  modify (λ m, let s := buildSnapshot m in
               m <| snapshot := s |> <| state_goal := Some s |> <| delivered := delivered m ++ ((λ l, (l, s)) <$> listeners m) |>).

(** ** State helpers *)

Definition transition (o : nat) (to : AiraGoalStatus) (context : string) : M () :=
  g ← obj o;
  match airaGoalTransitionError (g_status g) to (js context) with
  | Some e => throw e
  | None => upd o (λ g, g <| g_status := to |> <| g_updatedAt := now env |>)
  end.

Definition setEvent (o : nat) (event : jsstr) : M () :=
  upd o (λ g, g <| g_lastEvent := Some (boundedText event MAX_LAST_EVENT_CHARS) |> <| g_updatedAt := now env |>).

Definition persistable (g : AiraGoalState) : GoalPrompt.AiraGoalPersistableState :=
  {| GoalPrompt.p_id := g_id g; GoalPrompt.p_objective := g_objective g; GoalPrompt.p_status := g_status g;
     GoalPrompt.p_round := g_round g; GoalPrompt.p_startedAt := g_startedAt g; GoalPrompt.p_updatedAt := g_updatedAt g;
     GoalPrompt.p_completedAt := g_completedAt g; GoalPrompt.p_stopReason := g_stopReason g; GoalPrompt.p_waiting := g_waiting g;
     GoalPrompt.p_lastVerdict := g_lastVerdict g; GoalPrompt.p_sessionTokens := sessionTokens (usageProjection g) |}.

Definition persistGoal (o : nat) : M () :=
  modify (λ m, let '(p, rec) := GoalPrompt.save (io_error env) (persistable (deref m o)) (persistence m) in
               m <| persistence := p |> <| persistenceRecord := rec |>).

Definition promotionDecision (text : jsstr) : GoalEligibility.promotion :=
  if negb (enabled (settings env)) then
    {| GoalEligibility.promote := false; GoalEligibility.pr_reason := js "goals.enabled is false" |}
  else GoalEligibility.decideAiraGoalPromotion (auto (settings env)) text.

Definition new_goal (objective reason : jsstr) : AiraGoalState :=
  {| g_id := js "g-" ++ radix36 (now env) ++ js "-" ++ slice0 6 (uuid env);
     g_objective := boundedText objective MAX_OBJECTIVE_CHARS; g_status := active; g_round := 1; g_createdAt := now env;
     g_startedAt := now env; g_updatedAt := now env; g_completedAt := None; g_stopReason := None; g_waiting := None;
     g_revisionId := None; g_lastVerdict := None; g_lastBlockingFinding := None; g_observedRound := 0;
     g_usageBaseline := usageSeam env; g_childUsageBaseline := orchestration env ≫= aggregateTokenUsage;
     g_childrenTokens := 0; g_verifierTokens := 0; g_lastResultId := None; g_lastRevisionId := None;
     g_continuationPending := false; g_evidenceAcquisitionRound := 0; g_repairContext := None;
     g_lastEvent := Some (js "goal started (" ++ reason ++ js ") — round 1"); g_waitingInteraction := false |}.

Definition promote (objective reason : jsstr) (previous : option nat) : M () :=
  match previous with
  | Some p => setEvent p (js "replaced by a new objective (" ++ reason ++ js ")")
  | None => mret ()
  end;;
  o ← allocate (new_goal objective reason);
  emit e_beginGoal;;
  modify (λ m, m <| taskCompletionKey := None |> <| previousFailObservation := None |>);;
  persistGoal o;;
  publish.

(** ** Ends of a round *)

Definition complete (o : nat) : M () :=
  transition o completed "verification PASS";;
  upd o (λ g, g <| g_completedAt := Some (now env) |> <| g_stopReason := None |> <| g_waiting := None |>);;
  setEvent o (js "verification PASS — goal completed");;
  persistGoal o;;
  publish.

Definition budgetLimit (o : nat) (reason : AiraGoalStopReason) : M () :=
  transition o budget_limited "continuation bound";;
  upd o (λ g, g <| g_stopReason := Some reason |>);;
  setEvent o (js "continuation stopped: " ++ reason_name reason);;
  persistGoal o;;
  publish.

Definition kind_name (k : waiting_kind) : jsstr :=
  match k with user_question => js "user-question" | k_permission => js "permission" | k_evidence => js "evidence" end.

Definition enterWaiting (o : nat) (reason : AiraGoalStopReason) (detail : jsstr) (firstMissing : option jsstr) : M () :=
  transition o waiting "goal waits";;
  upd o (λ g, g <| g_stopReason := Some reason |>
                <| g_waiting := Some {| w_reason := reason; w_kind := k_evidence; w_detail := boundedText detail MAX_WAITING_DETAIL_CHARS;
                                        w_ask := if bool_decide (reason = input_required)
                                                 then (λ x, boundedText x 200) <$> truthy firstMissing else None |} |>);;
  setEvent o (js "waiting: " ++ kind_name k_evidence);;
  persistGoal o;;
  publish.

Definition changeContextLine : jsstr :=
  match current_result with
  | Some r =>
      let changed := join (js ", ") (VerifyTypes.label <$> take 4 (VerifyTypes.r_evidence r)) in
      js "revision " ++ slice0 8 (VerifyTypes.revisionId r) ++ (if 0 <? zlen changed then js " · verifier evidence: " ++ changed else [])
  | None =>
      match intelligence env with
      | Some (errors, warnings) => num_str errors ++ js " errors / " ++ num_str warnings ++ js " warnings"
      | None => []
      end
  end.

(** The continuation does not fire: a verifying goal is active again. *)
Definition defer (o : nat) (context : string) (event : jsstr) : M () :=
  g ← obj o;
  when (bool_decide (g_status g = verifying)) (transition o active context);;
  setEvent o event;;
  persistGoal o;;
  publish.

(** The last part of [enqueueRepair]: the next round is entered and its directive sent. *)
Definition repair_round (o : nat) (cause : string) (objective : jsstr) (nextRound : Z) (c : GoalPrompt.AiraGoalRepairContext) : M () :=
  transition o repairing cause;;
  upd o (λ g, g <| g_round := nextRound |>);;
  let prompt := GoalPrompt.buildAiraGoalContinuationPrompt
                  {| GoalPrompt.objective := objective; GoalPrompt.round := nextRound; GoalPrompt.repair := c;
                     GoalPrompt.changeContext := changeContextLine |} in
  setEvent o (js "verification FAIL → repair round " ++ num_str nextRound);;
  publish;;
  persistGoal o;;
  emit (e_send o prompt);;
  await (j_send o).

Definition enqueueRepair (o : nat) (cause : string) : M () :=
  g ← obj o;
  if negb (bool_decide (g_status g = repairing) || bool_decide (g_status g = active) || bool_decide (g_status g = verifying)) then mret ()
  else if hasPendingMessages env then
    defer o "continuation deferred to user turn" (js "user message pending — repair continuation deferred")
  else if negb (sendContinuation env) then
    defer o "no continuation seam" (js "no continuation seam — awaiting an explicit user turn")
  else
    let nextRound := g_round g + 1 in
    match budgetBoundVerdict (settings env) nextRound (g_startedAt g) (now env) (usageProjection g) with
    | Some b => budgetLimit o (b_reason b)
    | None =>
        match (match g_repairContext g with Some c => Some c | None => repairContextOf <$> freshVerificationResult g end) with
        | None => mret ()
        | Some repairContext =>
            repair_round o cause (g_objective g) nextRound repairContext
        end
    end.

(** [sendContinuation] has settled. *)
Definition after_send (o : nat) (sent : bool) : M () :=
  upd o (λ g, g <| g_continuationPending := sent |>);;
  when (negb sent) (setEvent o (js "continuation could not be sent — awaiting next user turn");; persistGoal o);;
  publish.

Definition handleFail (o : nat) (r : Result) : M () :=
  g ← obj o;
  m ← get;
  let observation := {| ro_revisionId := Some (VerifyTypes.revisionId r); ro_blockingFinding := g_lastBlockingFinding g;
                        ro_verdict := Some VerifyTypes.fail |} in
  if isNoProgress (previousFailObservation m) observation then budgetLimit o no_progress
  else if isRepeatedVerdict (previousFailObservation m) observation then budgetLimit o repeated_verdict
  else
    modify (λ m, m <| previousFailObservation := Some observation |>);;
    persistGoal o;;
    enqueueRepair o "verification FAIL".

(** ** Missing evidence *)

Definition wants_tests (item : jsstr) : bool := Regex.test (Regex.lits ["test"; "suite"; "run"; "execute"; "build"; "check"]) item.

Definition evidenceAcquisitionPlan (r : Result) : option jsstr :=
  match VerifyTypes.missingEvidence r with
  | [] => None
  | items =>
      let testCommand := match firstOf (testCommands env) with Some c => Some c | None => firstOf (checkCommands env) end in
      if existsb wants_tests items && has_execution env then truthy testCommand else None
  end.

Definition requiresInput (r : Result) : bool :=
  Regex.test (Regex.lits ["choose"; "choice"; "decide"; "decision"; "approve"; "approval"; "confirm"; "credential"; "api key";
                          "ambiguous"; "which approach"; "clarif"]) (join [32] (VerifyTypes.missingEvidence r)).

Definition wait_for_input (o : nat) (r : Result) : M () :=
  enterWaiting o (if requiresInput r then input_required else missing_evidence)
    (js "INCONCLUSIVE: " ++ summarizeMissingEvidence (VerifyTypes.missingEvidence r)) (head (VerifyTypes.missingEvidence r)).

Definition wait_for_evidence (o : nat) (r : Result) : M () :=
  enterWaiting o missing_evidence
    (js "missing evidence could not be fully acquired: " ++ summarizeMissingEvidence (VerifyTypes.missingEvidence r))
    (head (VerifyTypes.missingEvidence r)).

(** Only the token and duration bounds gate the acquisition of evidence. *)
Definition acquisition_bound (g : AiraGoalState) : option AiraGoalStopReason :=
  match budgetBoundVerdict (settings env) (g_round g - 1) (g_startedAt g) (now env) (usageProjection g) with
  | Some b => if bool_decide (b_reason b = max_rounds) then None else Some (b_reason b)
  | None => None
  end.

Definition handleInconclusive (o : nat) (r : Result) : M () :=
  g ← obj o;
  match evidenceAcquisitionPlan r with
  | Some command =>
      if bool_decide (g_evidenceAcquisitionRound g = g_round g) then wait_for_input o r
      else
        match acquisition_bound g with
        | Some reason => budgetLimit o reason
        | None =>
            upd o (λ g, g <| g_evidenceAcquisitionRound := g_round g |>);;
            setEvent o (js "INCONCLUSIVE — acquiring missing evidence (bounded test run)");;
            publish;;
            emit (e_start command);;
            await (j_acquire o r)
        end
  | None => wait_for_input o r
  end.

(** ** The completion boundary *)

(** What is recorded of a result that is consumed. *)
Definition consume (o : nat) (r : Result) : M () :=
  upd o (λ g, g <| g_lastResultId := Some (VerifyTypes.id r) |> <| g_lastRevisionId := Some (VerifyTypes.revisionId r) |>
                <| g_revisionId := Some (VerifyTypes.revisionId r) |> <| g_lastVerdict := Some (VerifyTypes.r_verdict r) |>
                <| g_lastBlockingFinding := if bool_decide (VerifyTypes.r_verdict r = VerifyTypes.fail)
                                            then highestBlockingFinding r else None |>
                <| g_observedRound := g_round g |>);;
  trackVerifierTokens o r;;
  commitChildUsage o.

Definition set_repairContext (o : nat) (c : option GoalPrompt.AiraGoalRepairContext) : M () :=
  upd o (λ g, g <| g_repairContext := c |>).

(** The second half of [handleBoundary], with the result it has found. *)
Definition boundary_result (o : nat) (result : option Result) (note : option jsstr) : M () :=
  match result with
  | None =>
      g ← obj o;
      when (bool_decide (g_status g = verifying)) (transition o active "no verdict at boundary");;
      setEvent o (default (js "no fresh verification verdict — awaiting explicit verification or user turn") note);;
      persistGoal o;;
      publish
  | Some r =>
      consume o r;;
      match VerifyTypes.r_verdict r with
      | VerifyTypes.pass => set_repairContext o None;; complete o
      | VerifyTypes.fail => set_repairContext o (Some (repairContextOf r));; handleFail o r
      | VerifyTypes.inconclusive => handleInconclusive o r
      end
  end.

(** The last part of [requestBoundaryVerification]: the verifier is called and awaited. *)
Definition start_verification (o : nat) : M () :=
  transition o verifying "completion boundary";;
  setEvent o (js "independent verification at completion boundary");;
  publish;;
  g ← obj o;
  emit (e_verify false (g_objective g));;
  await (j_verify o).

Definition requestBoundaryVerification (o : nat) : M () :=
  if negb (has_verifier env) then
    await (j_boundary o (Some (js "verification runtime unavailable — completion cannot be established")))
  else
    let disabled := js "verification disabled — completion cannot be established" in
    let off := js "verification.auto=off — boundary awaits explicit /verify" in
    match verification env with
    | None => setEvent o disabled;; await (j_boundary o (Some disabled))
    | Some v =>
        if negb (VerifyTypes.enabled v) then setEvent o disabled;; await (j_boundary o (Some disabled))
        else if bool_decide (VerifyTypes.auto v = VerifyTypes.v_off) then setEvent o off;; publish;; await (j_boundary o (Some off))
        else
          start_verification o
    end.

Definition handleBoundary (o : nat) : M () :=
  g ← obj o;
  if negb (bool_decide (g_status g = active) || bool_decide (g_status g = repairing)) then mret ()
  else
    commitChildUsage o;;
    if bool_decide (mode env = plan) then
      setEvent o (js "PLAN round: read-only; no verification or continuation");; persistGoal o;; publish
    else
      g ← obj o;
      match freshVerificationResult g with
      | Some r => boundary_result o (Some r) None
      | None => requestBoundaryVerification o
      end.

(** The forced verification after the test run has settled; [ok] is [recheck?.ok]. *)
Definition after_recheck (o : nat) (r : Result) (ok : bool) : M () :=
  g ← obj o;
  match (if ok then freshVerificationResult g else None) with
  | Some fresh =>
      if bool_decide (VerifyTypes.id fresh = VerifyTypes.id r) then wait_for_evidence o r
      else
        consume o fresh;;
        match VerifyTypes.r_verdict fresh with
        | VerifyTypes.pass => set_repairContext o None;; complete o
        | VerifyTypes.fail => set_repairContext o (Some (repairContextOf fresh));; handleFail o fresh
        | VerifyTypes.inconclusive => wait_for_evidence o r
        end
  | None => wait_for_evidence o r
  end.

(** What a settled job runs. *)
Definition resume_job (j : job) (out : outcome) : M () :=
  match j, out with
  | j_verify o, resolved _ => commitChildUsage o;; await (j_boundary o None)
  | j_verify o, rejected e => commitChildUsage o;; throw e
  | j_boundary o note, _ => g ← obj o; boundary_result o (freshVerificationResult g) note
  | j_acquire o r, resolved ran => await (j_acquired o r ran)
  | j_acquire o r, rejected _ => await (j_acquired o r false)
  | j_acquired o r ran, _ =>
      if ran then
        when (has_verifier env) (g ← obj o; emit (e_verify true (g_objective g)));;
        await (j_recheck o r (has_verifier env))
      else wait_for_evidence o r
  | j_recheck o r called, resolved ok => after_recheck o r (called && ok)
  | j_recheck o r called, rejected e => if called then throw e else after_recheck o r false
  | j_send o, resolved sent => after_send o sent
  | j_send o, rejected e => throw e
  end.

Definition task_key (t : Tasks.AiraTasksStatus) : jsstr :=
  num_str (Tasks.st_counts t Tasks.completed) ++ js "/" ++ num_str (Tasks.st_total t).

Definition observeTaskCompletion (t : Tasks.AiraTasksStatus) : M () :=
  let c := Tasks.st_counts t in
  let allSettled := (0 <? Tasks.st_total t) && (c Tasks.completed =? Tasks.st_total t) && (c Tasks.active =? 0)
                    && (c Tasks.pending =? 0) && (c Tasks.blocked =? 0) in
  if negb allSettled then modify (λ m, m <| taskCompletionKey := None |>)
  else
    m ← get;
    if bool_decide (Some (task_key t) = taskCompletionKey m) then mret ()
    else
      modify (λ m, m <| taskCompletionKey := Some (task_key t) |>);;
      match goal m with
      | None => mret ()
      | Some o => g ← obj o; if negb (running (g_status g)) then mret () else detached (handleBoundary o)
      end.


(** ** User and lifecycle surface *)

Definition clear_stop (o : nat) : M () := upd o (λ g, g <| g_stopReason := None |> <| g_waiting := None |>).

Definition considerUserObjective (text : jsstr) : M () :=
  m ← get;
  if disposed m then mret ()
  else
    let decision := promotionDecision text in
    match goal m with
    | None => when (GoalEligibility.promote decision) (promote text (GoalEligibility.pr_reason decision) None)
    | Some o =>
        let st := g_status (deref m o) in
        if bool_decide (st = paused) || bool_decide (st = waiting) then
          emit e_beginGoal;;
          transition o active "user message";;
          clear_stop o;;
          setEvent o (js "user message resumed the goal");;
          persistGoal o
        else if terminal st then
          when (GoalEligibility.promote decision) (promote text (GoalEligibility.pr_reason decision) (Some o))
        else when (bool_decide (st = active) || bool_decide (st = repairing)) (setEvent o (js "user steering message received"))
    end.

Inductive interaction_type := t_permission | t_semantic.
Inductive interaction_state := i_pending | i_answered | i_closed.
#[export] Instance interaction_type_eq_dec : EqDecision interaction_type.
Proof. solve_decision. Defined.
Record interaction_change := { ic_type : interaction_type; ic_state : interaction_state; ic_prompt : jsstr }.

Definition type_name (t : interaction_type) : jsstr := match t with t_permission => js "permission" | t_semantic => js "semantic" end.

(** The interaction has an outcome: the round goes on. *)
Definition interaction_resumes (o : nat) (context : string) (event : jsstr) : M () :=
  transition o active context;;
  clear_stop o;;
  upd o (λ g, g <| g_waitingInteraction := false |>);;
  setEvent o event;;
  persistGoal o;;
  publish.

Definition considerUserInteraction (change : interaction_change) : M () :=
  m ← get;
  if disposed m then mret ()
  else match goal m with
  | None => mret ()
  | Some o =>
      let g := deref m o in
      match ic_state change with
      | i_pending =>
          if negb (running (g_status g)) then mret ()
          else
            let kind := match ic_type change with t_permission => k_permission | t_semantic => user_question end in
            let reason := match ic_type change with t_permission => permission | t_semantic => input_required end in
            transition o waiting "interaction pending";;
            upd o (λ g, g <| g_stopReason := Some reason |>
                          <| g_waiting := Some {| w_reason := reason; w_kind := kind;
                                                  w_detail := boundedText (ic_prompt change) MAX_WAITING_DETAIL_CHARS;
                                                  w_ask := match ic_type change with
                                                           | t_semantic => Some (boundedText (ic_prompt change) 200)
                                                           | t_permission => None end |} |>
                          <| g_waitingInteraction := true |>);;
            setEvent o (js "waiting: " ++ kind_name kind ++ js " — " ++ boundedText (ic_prompt change) 120);;
            persistGoal o;;
            publish
      | st =>
          if negb (bool_decide (g_status g = waiting) && g_waitingInteraction g) then mret ()
          else match st, ic_type change with
          | i_answered, t => interaction_resumes o "interaction answered" (js "user answered — goal resumed (" ++ type_name t ++ js ")")
          | _, t_permission => interaction_resumes o "interaction closed" (js "permission outcome delivered — goal resumed")
          | _, t_semantic => setEvent o (js "question cancelled — awaiting user guidance");; publish
          end
      end
  end.

Definition refuse (st : AiraGoalStatus) (message : jsstr) : M AiraGoalActionResult :=
  mret {| ok := false; a_status := st; a_message := message |}.
Definition accept (st : AiraGoalStatus) (message : jsstr) : M AiraGoalActionResult :=
  mret {| ok := true; a_status := st; a_message := message |}.
Definition refuse_disposed : M AiraGoalActionResult := refuse error (js "session disposed").

Definition create (objective : jsstr) : M AiraGoalActionResult :=
  m ← get;
  if disposed m then refuse_disposed
  else if negb (enabled (settings env)) then refuse idle (js "goals are disabled (goals.enabled=false)")
  else
    let trimmed := trim objective in
    if zlen trimmed =? 0 then refuse idle (js "goal create requires an objective")
    else
      let bounded := boundedText trimmed MAX_OBJECTIVE_CHARS in
      let start := promote bounded (js "explicit /goal create") (goal m);;
                   accept active (js "goal started: " ++ boundedText bounded 120) in
      match goal m with
      | Some o =>
          let st := g_status (deref m o) in
          if negb (terminal st) && negb (bool_decide (st = paused)) then
            refuse st (js "a goal is already " ++ airaGoalStatusLabel st ++ js "; stop or cancel it first")
          else start
      | None => start
      end.

Definition stop : M AiraGoalActionResult :=
  m ← get;
  if disposed m then refuse_disposed
  else match goal m with
  | None => refuse idle (js "no active goal")
  | Some o =>
      let st := g_status (deref m o) in
      if bool_decide (st = paused) then refuse paused (js "goal is already paused")
      else if negb (running st) && negb (bool_decide (st = waiting)) then refuse st (js "goal is " ++ airaGoalStatusLabel st)
      else
        transition o paused "user stop";;
        upd o (λ g, g <| g_stopReason := Some by_user |> <| g_continuationPending := false |>);;
        setEvent o (js "stopped by user (state preserved; /goal resume continues)");;
        persistGoal o;;
        emit e_abortRun;;
        accept paused (js "goal stopped (state preserved)")
  end.

Definition resume : M AiraGoalActionResult :=
  m ← get;
  if disposed m then refuse_disposed
  else match goal m with
  | None => refuse idle (js "no goal to resume")
  | Some o =>
      let st := g_status (deref m o) in
      if bool_decide (st = active) || bool_decide (st = repairing) then refuse st (js "goal is already " ++ airaGoalStatusLabel st)
      else if bool_decide (st = completed) then refuse completed (js "goal is completed; /goal clear removes it")
      else if terminal st then refuse st (js "goal ended (" ++ airaGoalStatusLabel st ++ js "); /goal clear removes it")
      else
        transition o active "user resume";;
        emit e_beginGoal;;
        modify (λ m, m <| taskCompletionKey := None |>);;
        clear_stop o;;
        setEvent o (js "resumed by user");;
        persistGoal o;;
        publish;;
        match (if tasks_handle env then state_tasks env else None) with
        | Some tasks => observeTaskCompletion tasks
        | None => mret ()
        end;;
        g ← obj o;
        when (bool_decide (g_lastVerdict g = Some VerifyTypes.fail) && negb (g_continuationPending g))
          (detached (enqueueRepair o "resumed"));;
        accept active (js "goal resumed")
  end.

Definition cancel : M AiraGoalActionResult :=
  m ← get;
  if disposed m then refuse_disposed
  else match goal m with
  | None => refuse idle (js "no active goal")
  | Some o =>
      let st := g_status (deref m o) in
      if bool_decide (st = idle) then refuse idle (js "no active goal")
      else if bool_decide (st = cancelled) then refuse cancelled (js "goal is already cancelled")
      else if bool_decide (st = completed) then refuse completed (js "goal is completed; /goal clear removes it")
      else
        transition o cancelled "user cancel";;
        upd o (λ g, g <| g_stopReason := None |> <| g_waiting := None |> <| g_continuationPending := false |>);;
        setEvent o (js "cancelled by user");;
        persistGoal o;;
        emit e_abortRun;;
        accept cancelled (js "goal cancelled")
  end.

Definition clear : M AiraGoalActionResult :=
  m ← get;
  if disposed m then refuse_disposed
  else match goal m with
  | None => refuse idle (js "no goal state to clear")
  | Some o =>
      let st := g_status (deref m o) in
      if bool_decide (st = idle) then refuse idle (js "no goal state to clear")
      else if negb (bool_decide (st ∈ AIRA_GOAL_CLEARABLE_STATUSES)) then
        refuse st (js "goal is " ++ airaGoalStatusLabel st ++ js "; stop or cancel it before clearing")
      else
        setEvent o (js "cleared");;
        modify (λ m, m <| goal := None |> <| previousFailObservation := None |>
                       <| persistence := (GoalPrompt.clear (io_error env) (persistence m)).1 |>);;
        publish;;
        accept idle (js "goal cleared")
  end.

Definition status : M AiraGoalSnapshot := publish;; m ← get; mret (snapshot m).

Definition subscribe (l : nat) : M () := modify (λ m, m <| listeners := listeners m ++ [l] |>).
Definition unsubscribe (l : nat) : M () := modify (λ m, m <| listeners := filter (.≠ l) (listeners m) |>).

(** ** Host events *)

(** A run that ended on its own account pauses the goal. *)
Definition pause_run (o : nat) (context : string) (reason : AiraGoalStopReason) (event : jsstr) : M () :=
  transition o paused context;;
  upd o (λ g, g <| g_stopReason := Some reason |> <| g_continuationPending := false |>);;
  setEvent o event;;
  persistGoal o.

Definition onAgentEnd (messages : list run_message) (willRetry : bool) : M () :=
  m ← get;
  match goal m with
  | None => mret ()
  | Some o =>
      if negb (running (g_status (deref m o))) then mret ()
      else if willRetry then mret ()
      else
        let stopReason := lastAssistantStopReason messages in
        if bool_decide (stopReason = Some (js "aborted")) then
          let st := g_status (deref m o) in
          if bool_decide (st = paused) || bool_decide (st = cancelled) then mret ()
          else pause_run o "run aborted" interrupted (js "implementation run interrupted (aborted)")
        else if bool_decide (stopReason = Some (js "error")) then
          pause_run o "run error" agent_error (js "implementation run ended with a model error")
        else
          upd o (λ g, g <| g_continuationPending := false |> <| g_updatedAt := now env |>);;
          handleBoundary o
  end.

Definition applyAgentEvent (ev : AgentEvent) : M () :=
  m ← get;
  if disposed m then mret ()
  else
    emit (e_ownership_event ev);;
    match ev with
    | message_start_user c => considerUserObjective (messageText c);; emit e_ready
    | agent_end messages willRetry => onAgentEnd messages willRetry
    | other_event => mret ()
    end.

(** What the task graph's listener of [activate] does. *)
Definition tasks_changed (t : Tasks.AiraTasksStatus) : M () :=
  m ← get; if disposed m then mret () else publish;; observeTaskCompletion t.

Definition dispose : M () :=
  m ← get;
  if disposed m then mret ()
  else
    modify (λ m, m <| disposed := true |> <| subscribed := false |>);;
    match goal m with
    | Some o =>
        when (running (g_status (deref m o)))
          (pause_run o "session disposed" interrupted (js "session ended (goal paused; resume explicitly)"))
    | None => mret ()
    end;;
    modify (λ m, m <| listeners := [] |>);;
    publish.

Definition activate : M () :=
  m ← get; if disposed m then mret () else modify (λ m, m <| subscribed := true |>);; publish.

(** ** Construction *)

Definition recovered_goal (r : GoalPrompt.AiraGoalPersistableState) : AiraGoalState :=
  {| g_id := GoalPrompt.p_id r; g_objective := GoalPrompt.p_objective r; g_status := GoalPrompt.p_status r;
     g_round := GoalPrompt.p_round r; g_createdAt := GoalPrompt.p_startedAt r; g_startedAt := GoalPrompt.p_startedAt r;
     g_updatedAt := GoalPrompt.p_updatedAt r; g_completedAt := GoalPrompt.p_completedAt r;
     g_stopReason := GoalPrompt.p_stopReason r; g_waiting := GoalPrompt.p_waiting r; g_revisionId := None;
     g_lastVerdict := GoalPrompt.p_lastVerdict r; g_lastBlockingFinding := None; g_observedRound := GoalPrompt.p_round r;
     g_usageBaseline := None; g_childUsageBaseline := None; g_childrenTokens := 0; g_verifierTokens := 0;
     g_lastResultId := None; g_lastRevisionId := None; g_continuationPending := false; g_evidenceAcquisitionRound := 0;
     g_repairContext := None;
     g_lastEvent := Some (if bool_decide (GoalPrompt.p_status r = paused) && bool_decide (GoalPrompt.p_stopReason r = Some interrupted)
                          then js "recovered after restart (running goal paused; resume explicitly)"
                          else js "recovered after restart (" ++ airaGoalStatusLabel (GoalPrompt.p_status r) ++ js ")");
     g_waitingInteraction := match GoalPrompt.p_waiting r with
                             | Some w => match w_kind w with user_question | k_permission => true | k_evidence => false end
                             | None => false end |}.

Definition unavailable : GoalPrompt.AiraGoalPersistenceRecord :=
  {| GoalPrompt.r_status := p_unavailable; GoalPrompt.r_error := None; GoalPrompt.r_path := None |}.

Definition construct (p : GoalPrompt.store) : AiraGoalManager :=
  let m := {| heap := ∅; next := 0; goal := None; listeners := []; delivered := []; persistence := p;
              persistenceRecord := unavailable; snapshot := buildIdleSnapshot unavailable; state_goal := None; disposed := false;
              subscribed := false; taskCompletionKey := None; previousFailObservation := None; jobs := []; effects := [] |} in
  match GoalPrompt.recover (now env) p with
  | None => m
  | Some r => m <| heap := {[0%nat := recovered_goal r]} |> <| next := 1%nat |> <| goal := Some 0%nat |>
                <| persistenceRecord := {| GoalPrompt.r_status := p_ok; GoalPrompt.r_error := None;
                                           GoalPrompt.r_path := Some (GoalPrompt.st_path p) |} |>
  end.

Definition createAiraGoalManager (p : GoalPrompt.store) : AiraGoalManager := (activate (construct p)).1.
End Manager.

(** ** Runs *)

Inductive call :=
| c_interaction (c : interaction_change) | c_create (objective : jsstr) | c_stop | c_resume | c_cancel | c_clear
| c_status | c_subscribe (l : nat) | c_unsubscribe (l : nat) | c_event (ev : AgentEvent) | c_tasks (t : Tasks.AiraTasksStatus)
| c_dispose | c_settle (n : nat) (out : outcome)  (** the [n]-th awaited call settles *).

Definition run (env : Env) (c : call) : M () :=
  match c with
  | c_interaction c => considerUserInteraction env c
  | c_create objective => create env objective;; mret ()
  | c_stop => stop env;; mret ()
  | c_resume => resume env;; mret ()
  | c_cancel => cancel env;; mret ()
  | c_clear => clear env;; mret ()
  | c_status => status env;; mret ()
  | c_subscribe l => subscribe l
  | c_unsubscribe l => unsubscribe l
  | c_event ev => applyAgentEvent env ev
  | c_tasks t => tasks_changed env t
  | c_dispose => dispose env
  | c_settle n out =>
      m ← get;
      match jobs m !! n with
      | None => mret ()
      | Some j => modify (λ m, m <| jobs := delete n (jobs m) |>);; resume_job env j out
      end
  end.

(** A call may throw or its promise be rejected; the state stays as it was left. *)
Definition step (m : AiraGoalManager) (c : Env * call) : AiraGoalManager := (run c.1 c.2 m).1.
Definition steps (m : AiraGoalManager) (l : list (Env * call)) : AiraGoalManager := foldl step m l.

End GoalManager.
