(* ===== verification/GoalProps.v ===== *)
(** * The goal manager: sample runs, and what each operation keeps

    Module [GoalSample]: a session with a small verifier, used to run the manager on
    concrete inputs.  Module [GoalProps]: lifecycle, bounds and authority. *)
From S2P Require Import Prelude JsMap JsString OrchTypes Tasks Capabilities Policy Ownership VerifyTypes Regex GoalData GoalPrompt GoalManager.

Module GoalSample.
Import Capabilities GoalData GoalManager.

Definition sample_result (name : string) (v : VerifyTypes.AiraVerificationVerdict) (missing : list jsstr) : Result :=
  {| VerifyTypes.id := js name; VerifyTypes.revisionId := js "rev-" ++ js name; VerifyTypes.r_verdict := v;
     VerifyTypes.summary := js "summary"; VerifyTypes.r_mode := build; VerifyTypes.objective := js "objective";
     VerifyTypes.requirements := [];
     VerifyTypes.findings := [{| VerifyTypes.severity := VerifyTypes.blocking; VerifyTypes.requirementId := None;
                                 VerifyTypes.message := js "broken " ++ js name; VerifyTypes.evidence := None |}];
     VerifyTypes.r_evidence := []; VerifyTypes.missingEvidence := missing;
     VerifyTypes.scopeAssessment := {| VerifyTypes.scope_verdict := VerifyTypes.in_scope; VerifyTypes.notes := [] |};
     VerifyTypes.confidence := VerifyTypes.medium; VerifyTypes.tokenUsage := None; VerifyTypes.startedAt := 0;
     VerifyTypes.completedAt := 0; VerifyTypes.r_stale := true; VerifyTypes.staleReason := None |}.

Definition sample_status (r : option Result) : VerifyTypes.AiraVerificationStatus :=
  {| VerifyTypes.status := VerifyTypes.st_idle; VerifyTypes.enabled := true; VerifyTypes.auto := VerifyTypes.v_smart;
     VerifyTypes.contextBudget := VerifyTypes.compact; VerifyTypes.currentResult := r; VerifyTypes.requirementsTotal := 0;
     VerifyTypes.requirementsVerified := 0; VerifyTypes.highestFinding := None; VerifyTypes.stale := true;
     VerifyTypes.s_missingEvidence := []; VerifyTypes.lastError := None; VerifyTypes.lastFailureKind := None;
     VerifyTypes.lastSkipReason := None; VerifyTypes.toolBudgetUsed := None; VerifyTypes.toolBudgetLimit := None;
     VerifyTypes.toolBudgetExtensions := None; VerifyTypes.s_startedAt := None; VerifyTypes.s_completedAt := None;
     VerifyTypes.updatedAt := 0 |}.

Definition sample_settings (rounds : Z) : AiraGoalSettings :=
  {| enabled := true; auto := auto_smart; maxRounds := rounds; tokenBudget := None; maxDurationMs := None |}.

(** A session whose verifier has produced [r]. *)
Definition sample_env (m : AiraMode) (rounds : Z) (r : option Result) : Env :=
  {| now := 1000; uuid := js "abcdef-123"; settings := sample_settings rounds; mode := m; has_verifier := true;
     verification := Some (sample_status r); orchestration := None; state_tasks := None; tasks_handle := false; usageSeam := None;
     hasPendingMessages := false; sendContinuation := true; has_execution := false; testCommands := []; checkCommands := [];
     intelligence := None; workspaceOwnership := None; io_error := None |}.

Definition idle_env : Env := sample_env build 4 None.
Definition pass_env : Env := sample_env build 4 (Some (sample_result "p" VerifyTypes.pass [])).
Definition fail_env (name : string) (rounds : Z) : Env := sample_env build rounds (Some (sample_result name VerifyTypes.fail [])).
Definition start : AiraGoalManager := createAiraGoalManager idle_env GoalPrompt.sample_store.
Definition finished : call := c_event (agent_end [m_assistant (Some (js "stop"))] false).
Definition new_objective : call := c_create (js "build the importer").

(** The status and round of the first object. *)
Definition first (m : AiraGoalManager) : AiraGoalStatus * Z := (g_status (deref m 0), g_round (deref m 0)).

Example two_failures_then_pass :
  first (steps start [(idle_env, new_objective); (fail_env "a" 4, finished); (fail_env "a" 4, c_settle 0 (resolved true));
                      (fail_env "b" 4, finished)]) = (repairing, 3)
  ∧ first (steps start [(idle_env, new_objective); (fail_env "a" 4, finished); (pass_env, finished)]) = (completed, 2).
Proof. vm_compute. done. Qed.

Example the_bound_ends_it :
  first (steps start [(idle_env, new_objective); (fail_env "a" 4, finished); (fail_env "c" 2, finished)]) = (budget_limited, 2).
Proof. vm_compute. done. Qed.

Example awaiting_the_verifier :
  first (steps start [(idle_env, new_objective); (idle_env, finished)]) = (verifying, 1).
Proof. vm_compute. done. Qed.

End GoalSample.

(** * The goal manager: lifecycle, bounds and authority

    What every step of [GoalManager] keeps.  The operations are sequences of assignments;
    [keeps R k] says that [k] relates the states before and after it by [R], also when it
    throws, and composes along the operations.  Assignments that touch neither the core of
    a goal nor the continuations sent are [neutral] and kept by every [Stable] relation, so
    that each relation is only checked where the lifecycle moves. *)

Module GoalProps.
Import Capabilities GoalData GoalManager.

(** ** Keeping a relation *)

(** What of a goal the lifecycle is about. *)
Definition core (g : AiraGoalState) : AiraGoalStatus * Z * jsstr * jsstr * Z :=
  (g_status g, g_round g, g_id g, g_objective g, g_startedAt g).

(** The objects whose continuations have been sent. *)
Definition sent (m : AiraGoalManager) : list nat := omap (λ e, match e with e_send o _ => Some o | _ => None end) (effects m).
Definition sends (o : nat) (m : AiraGoalManager) : Z := zlen (filter (eq o) (sent m)).

Definition neutral (m m' : AiraGoalManager) : Prop :=
  next m' = next m ∧ (∀ o, core <$> (heap m' !! o) = core <$> (heap m !! o)) ∧ sent m' = sent m ∧ jobs m ⊆ jobs m'.

Class Stable (R : AiraGoalManager → AiraGoalManager → Prop) : Prop := {
  stable_preorder :: PreOrder R;
  stable_neutral m m' : neutral m m' → R m m' }.

Definition keeps {A} (R : AiraGoalManager → AiraGoalManager → Prop) (k : M A) : Prop := ∀ m, R m (k m).1.

Ltac solve_neutral := repeat split; try done; cbn; reflexivity.

Create HintDb keeps.

Section Keeps.
Context (R : AiraGoalManager → AiraGoalManager → Prop) `{!Stable R}.

Lemma keeps_ret {A} (a : A) : keeps R (mret a).
Proof. intros m. reflexivity. Qed.
Lemma keeps_get : keeps R get.
Proof. intros m. reflexivity. Qed.
Lemma keeps_obj o : keeps R (obj o).
Proof. intros m. reflexivity. Qed.
Lemma keeps_throw {A} e : keeps R (throw e : M A).
Proof. intros m. reflexivity. Qed.

Lemma keeps_bind {A B} (k : M A) (f : A → M B) : keeps R k → (∀ a, keeps R (f a)) → keeps R (k ≫= f).
Proof.
  intros Hk Hf m. rewrite stres_bind_eq. specialize (Hk m). destruct (k m) as [m' [a|e]]; cbn in *; [|done].
  etrans; [exact Hk|apply Hf].
Qed.

(** The value of an object is known where it was read. *)
Lemma keeps_obj_bind {B} o (f : AiraGoalState → M B) : (∀ m, R m (f (deref m o) m).1) → keeps R (obj o ≫= f).
Proof. intros Hf m. rewrite stres_bind_eq. apply Hf. Qed.
Lemma keeps_get_bind {B} (f : AiraGoalManager → M B) : (∀ m, R m (f m m).1) → keeps R (get ≫= f).
Proof. intros Hf m. rewrite stres_bind_eq. apply Hf. Qed.

Lemma keeps_at {A} (k : M A) m : keeps R k → R m (k m).1.
Proof. intros H. apply H. Qed.

Lemma bind_at {A B} (k : M A) (f : A → M B) m :
  R m (k m).1 → (∀ a m', k m = (m', Ok a) → R m' (f a m').1) → R m ((k ≫= f) m).1.
Proof.
  intros Hk Hf. rewrite stres_bind_eq. destruct (k m) as [m' [a|e]] eqn:E; [|done]. etrans; [exact Hk|by apply Hf].
Qed.

Lemma keeps_modify f : (∀ m, neutral m (f m)) → keeps R (modify f).
Proof. intros Hf m. apply stable_neutral, Hf. Qed.

Lemma keeps_when c k : keeps R k → keeps R (when c k).
Proof. destruct c; [done|]. intros _. apply keeps_ret. Qed.

Lemma keeps_emit e : (∀ o t, e ≠ e_send o t) → keeps R (emit e).
Proof.
  intros He. apply keeps_modify. intros m. split; [done|]. split; [done|]. split; [|cbn; reflexivity]. cbn. unfold sent. cbn.
  rewrite omap_app. cbn. destruct e; try by rewrite app_nil_r. by destruct (He o text).
Qed.

Lemma keeps_await j : keeps R (await j).
Proof. apply keeps_modify. intros m. repeat split. cbn. intros x Hx. apply elem_of_app. by left. Qed.

Lemma keeps_detached k : keeps R k → keeps R (detached k).
Proof.
  intros Hk m. unfold detached. specialize (Hk m). destruct (k m) as [m' [[]|e]]; cbn in *; [done|].
  etrans; [exact Hk|]. apply (keeps_emit (e_unhandled e)). done.
Qed.

Lemma keeps_upd o f : (∀ g, core (f g) = core g) → keeps R (upd o f).
Proof.
  intros Hf. apply keeps_modify. intros m. split; [done|]. split; [|by solve_neutral]. intros o'. cbn.
  destruct (decide (o' = o)) as [->|Hne]; [rewrite lookup_alter_eq|by rewrite lookup_alter_ne].
  destruct (heap m !! o) as [g|]; cbn; [by rewrite Hf|done].
Qed.
End Keeps.

#[export] Hint Resolve keeps_ret keeps_get keeps_obj keeps_throw keeps_when keeps_await keeps_detached : keeps.
#[export] Hint Extern 1 (keeps _ (upd _ _)) => (apply keeps_upd; [apply _|intros ?; reflexivity]) : keeps.
#[export] Hint Extern 1 (keeps _ (emit _)) => (apply keeps_emit; [apply _|discriminate]) : keeps.
#[export] Hint Extern 1 (keeps _ (modify _)) => (apply keeps_modify; [apply _|intros ?; by repeat split]) : keeps.

(** [step_keeps] follows the sequence of an operation and the cases of its guards. *)
Ltac step_keeps :=
  repeat first
    [ progress auto with keeps
    | match goal with
      | |- keeps _ (_ ≫= _) => apply keeps_bind; [apply _| |intros ?]
      | |- keeps _ (when _ _) => apply keeps_when; [apply _|]
      | |- keeps _ (let _ := _ in _) => cbv zeta
      | |- keeps _ (if ?c then _ else _) => destruct c eqn:?
      | |- keeps _ (match ?x with _ => _ end) => destruct x eqn:?
      end ].

(** ** Neutral operations *)

Section Neutral.
Context (R : AiraGoalManager → AiraGoalManager → Prop) `{!Stable R} (env : Env).

Lemma keeps_commit o : keeps R (commitChildUsage env o).
Proof. unfold commitChildUsage. step_keeps. Qed.
Lemma keeps_track o r : keeps R (trackVerifierTokens o r).
Proof. unfold trackVerifierTokens. step_keeps. Qed.
Lemma keeps_setEvent o e : keeps R (setEvent env o e).
Proof. unfold setEvent. step_keeps. Qed.
Lemma keeps_publish : keeps R (publish env).
Proof. unfold publish. step_keeps. Qed.
Lemma keeps_persistGoal o : keeps R (persistGoal env o).
Proof. unfold persistGoal. apply keeps_modify; [apply _|]. intros m. destruct (GoalPrompt.save _ _ _) as [p rec]. solve_neutral. Qed.
End Neutral.

#[export] Hint Resolve keeps_commit keeps_track keeps_setEvent keeps_publish keeps_persistGoal : keeps.

Section Neutral2.
Context (R : AiraGoalManager → AiraGoalManager → Prop) `{!Stable R} (env : Env).
Lemma keeps_consume o r : keeps R (consume env o r).
Proof. unfold consume. step_keeps. Qed.
Lemma keeps_clear_stop o : keeps R (clear_stop o).
Proof. unfold clear_stop. step_keeps. Qed.
Lemma keeps_repairContext o c : keeps R (set_repairContext o c).
Proof. unfold set_repairContext. step_keeps. Qed.
Lemma keeps_after_send o b : keeps R (after_send env o b).
Proof. unfold after_send. step_keeps. Qed.
End Neutral2.

#[export] Hint Resolve keeps_consume keeps_clear_stop keeps_repairContext keeps_after_send : keeps.

(** ** Relations along the lifecycle

    What is left to check of a relation: the moves between statuses, the entry of a repair
    round and the allocation of a goal. *)

Definition passes (env : Env) : Prop := ∃ r, current_result env = Some r ∧ VerifyTypes.r_verdict r = VerifyTypes.pass.

(** The conditions a continuation is sent under. *)
Definition may_continue (env : Env) (round : Z) : Prop :=
  round <= maxRounds (settings env) ∧ hasPendingMessages env = false ∧ sendContinuation env = true.

Definition can_repair (st : AiraGoalStatus) : Prop := st = repairing ∨ st = active ∨ st = verifying.

Class Lifecycle (env : Env) (R : AiraGoalManager → AiraGoalManager → Prop) : Prop := {
  lc_stable :: Stable R;
  lc_move o to ctx : to ∈ [waiting; budget_limited; paused; cancelled] → keeps R (transition env o to ctx);
  lc_verify o : keeps R (start_verification env o);
  lc_complete o ctx : passes env → keeps R (transition env o completed ctx);
  lc_active m o ctx : g_status (deref m o) ∉ [paused; cancelled] → R m (transition env o active ctx m).1;
  lc_repair m o cause objective c :
    can_repair (g_status (deref m o)) → may_continue env (g_round (deref m o) + 1) →
    R m (repair_round env o cause objective (g_round (deref m o) + 1) c m).1;
  lc_allocate g : g_status g = active → g_round g = 1 → keeps R (allocate g) }.

#[export] Hint Extern 0 (Stable _) => apply _ : keeps.
#[export] Hint Extern 0 (Lifecycle _ _) => apply _ : keeps.

Ltac in_list := by repeat (first [apply list_elem_of_here | apply list_elem_of_further]).
#[export] Hint Extern 1 (keeps _ (transition _ _ _ _)) => (apply lc_move; in_list) : keeps.
#[export] Hint Resolve lc_verify : keeps.
#[export] Hint Extern 1 (keeps _ (allocate _)) => (apply lc_allocate; reflexivity) : keeps.

Section Lifecycle.
Context (env : Env) (R : AiraGoalManager → AiraGoalManager → Prop) `{!Lifecycle env R}.

Lemma keeps_complete o : passes env → keeps R (complete env o).
Proof. intros Hp. unfold complete. apply keeps_bind; [apply _|by apply lc_complete|]. intros _. step_keeps. Qed.

Lemma keeps_budgetLimit o r : keeps R (budgetLimit env o r).
Proof. unfold budgetLimit. step_keeps. Qed.

Lemma keeps_enterWaiting o r d f : keeps R (enterWaiting env o r d f).
Proof. unfold enterWaiting. step_keeps. Qed.

Lemma keeps_pause_run o ctx r e : keeps R (pause_run env o ctx r e).
Proof. unfold pause_run. step_keeps. Qed.

(** A verifying goal becomes active again. *)
Lemma keeps_unverify {B} o ctx (f : () → M B) :
  (∀ u, keeps R (f u)) →
  keeps R (g ← obj o; when (bool_decide (g_status g = verifying)) (transition env o active ctx) ≫= f).
Proof.
  intros Hf. apply keeps_obj_bind. intros m. apply bind_at; [apply _| |intros a m' _; exact (Hf a m')].
  unfold when. case_bool_decide as Hv; [|reflexivity]. apply lc_active. rewrite Hv. by apply (bool_decide_unpack _).
Qed.

Lemma keeps_defer o ctx e : keeps R (defer env o ctx e).
Proof. apply keeps_unverify. intros u. step_keeps. Qed.

Lemma keeps_promote objective reason p : keeps R (promote env objective reason p).
Proof. unfold promote. step_keeps. Qed.

Hint Resolve keeps_budgetLimit keeps_enterWaiting keeps_pause_run keeps_defer keeps_promote : keeps.

Lemma budget_allows s n t now u : budgetBoundVerdict s n t now u = None → n <= maxRounds s.
Proof. unfold budgetBoundVerdict. destruct (maxRounds s <? n) eqn:E; [done|]. intros _. by apply Z.ltb_ge. Qed.

Lemma keeps_enqueueRepair o cause : keeps R (enqueueRepair env o cause).
Proof.
  unfold enqueueRepair. apply keeps_obj_bind. intros m.
  destruct (negb _) eqn:Hs; [reflexivity|]. destruct (hasPendingMessages env) eqn:Hp; [apply keeps_defer|].
  destruct (sendContinuation env) eqn:Hc; cbn [negb]; [|apply keeps_defer].
  destruct (budgetBoundVerdict _ _ _ _ _) as [b|] eqn:Hb; [apply keeps_budgetLimit|]. apply budget_allows in Hb.
  assert (can_repair (g_status (deref m o))) as Hr.
  { apply negb_false_iff, orb_true_iff in Hs. rewrite orb_true_iff, !bool_decide_eq_true in Hs. unfold can_repair. tauto. }
  destruct (match g_repairContext (deref m o) with Some c => Some c | None => _ end) as [c|]; [|reflexivity].
  by apply lc_repair.
Qed.
Hint Resolve keeps_enqueueRepair : keeps.

Lemma keeps_handleFail o r : keeps R (handleFail env o r).
Proof. unfold handleFail. step_keeps. Qed.

Lemma keeps_handleInconclusive o r : keeps R (handleInconclusive env o r).
Proof. unfold handleInconclusive, wait_for_input. step_keeps. Qed.

Lemma keeps_wait_for_evidence o r : keeps R (wait_for_evidence env o r).
Proof. unfold wait_for_evidence. step_keeps. Qed.
Hint Resolve keeps_handleFail keeps_handleInconclusive keeps_wait_for_evidence : keeps.

Lemma fresh_current g r : freshVerificationResult env g = Some r → current_result env = Some r.
Proof. unfold freshVerificationResult. destruct (current_result env) as [r'|]; [|done]. case_match; [done|]. by intros [= ->]. Qed.

Lemma passes_of g r : freshVerificationResult env g = Some r → VerifyTypes.r_verdict r = VerifyTypes.pass → passes env.
Proof. intros H%fresh_current Hv. by exists r. Qed.

Lemma keeps_boundary_result o g note : keeps R (boundary_result env o (freshVerificationResult env g) note).
Proof.
  unfold boundary_result. destruct (freshVerificationResult env g) as [r|] eqn:Hr.
  - apply keeps_bind; [apply _|auto with keeps|]. intros _. destruct (VerifyTypes.r_verdict r) eqn:Hv.
    + apply keeps_bind; [apply _|auto with keeps|]. intros _. apply keeps_complete. by eapply passes_of.
    + step_keeps.
    + step_keeps.
  - apply keeps_unverify. intros u. step_keeps.
Qed.

Lemma keeps_request o : keeps R (requestBoundaryVerification env o).
Proof. unfold requestBoundaryVerification. step_keeps. Qed.

Lemma keeps_handleBoundary o : keeps R (handleBoundary env o).
Proof.
  unfold handleBoundary. apply keeps_bind; [apply _|auto with keeps|]. intros g. case_match; [apply keeps_ret; apply _|].
  apply keeps_bind; [apply _|auto with keeps|]. intros _. case_match; [step_keeps|].
  apply keeps_bind; [apply _|auto with keeps|]. intros g'.
  pose proof (keeps_boundary_result o g' None) as H1. destruct (freshVerificationResult env g'); [exact H1|apply keeps_request].
Qed.

Lemma keeps_after_recheck o r ok : keeps R (after_recheck env o r ok).
Proof.
  unfold after_recheck. apply keeps_bind; [apply _|auto with keeps|]. intros g.
  destruct ok; [|auto with keeps]. destruct (freshVerificationResult env g) as [f|] eqn:Hf; [|auto with keeps].
  case_match; [auto with keeps|]. apply keeps_bind; [apply _|auto with keeps|]. intros _.
  destruct (VerifyTypes.r_verdict f) eqn:Hv; [|step_keeps|step_keeps].
  apply keeps_bind; [apply _|auto with keeps|]. intros _. apply keeps_complete. by eapply passes_of.
Qed.
Hint Resolve keeps_boundary_result keeps_handleBoundary keeps_after_recheck : keeps.

Lemma keeps_resume_job j out : keeps R (resume_job env j out).
Proof.
  destruct j, out; cbn [resume_job]; step_keeps.
Qed.

Lemma keeps_observe t : keeps R (observeTaskCompletion env t).
Proof. unfold observeTaskCompletion. step_keeps. Qed.
Hint Resolve keeps_resume_job keeps_observe : keeps.

Lemma keeps_interaction_resumes o ctx e m :
  g_status (deref m o) = waiting → R m (interaction_resumes env o ctx e m).1.
Proof.
  intros Hw. unfold interaction_resumes. apply bind_at; [apply _| |].
  - apply lc_active. rewrite Hw. by apply (bool_decide_unpack _).
  - intros _ m' _. eapply keeps_at. step_keeps.
Qed.

Lemma keeps_interaction c : keeps R (considerUserInteraction env c).
Proof.
  unfold considerUserInteraction. apply keeps_get_bind. intros m. destruct (disposed m); [reflexivity|].
  destruct (goal m) as [o|]; [|reflexivity].
  destruct (ic_state c) eqn:Hs.
  - eapply keeps_at. step_keeps.
  - destruct (bool_decide _) eqn:Hw; [|reflexivity]. apply bool_decide_eq_true in Hw.
    destruct (g_waitingInteraction _); [|reflexivity]. by apply keeps_interaction_resumes.
  - destruct (bool_decide _) eqn:Hw; [|reflexivity]. apply bool_decide_eq_true in Hw.
    destruct (g_waitingInteraction _); [|reflexivity].
    destruct (ic_type c); [by apply keeps_interaction_resumes|]. eapply keeps_at. cbn. step_keeps.
Qed.

Lemma keeps_create objective : keeps R (create env objective).
Proof. unfold create, refuse_disposed, refuse, accept. step_keeps. Qed.
Lemma keeps_stop : keeps R (stop env).
Proof. unfold stop, refuse_disposed, refuse, accept. step_keeps. Qed.
Lemma keeps_cancel : keeps R (cancel env).
Proof. unfold cancel, refuse_disposed, refuse, accept. step_keeps. Qed.
Lemma keeps_clear : keeps R (clear env).
Proof. unfold clear, refuse_disposed, refuse, accept. step_keeps. Qed.
Lemma keeps_status : keeps R (status env).
Proof. unfold status. step_keeps. Qed.
Lemma keeps_dispose : keeps R (dispose env).
Proof. unfold dispose. step_keeps. Qed.
Lemma keeps_tasks t : keeps R (tasks_changed env t).
Proof. unfold tasks_changed. step_keeps. Qed.
Lemma keeps_agent_end ms w : keeps R (onAgentEnd env ms w).
Proof. unfold onAgentEnd. step_keeps. Qed.

End Lifecycle.

#[export] Hint Resolve keeps_promote keeps_enqueueRepair keeps_resume_job keeps_observe keeps_interaction keeps_create keeps_stop
  keeps_cancel keeps_clear keeps_status keeps_dispose keeps_tasks keeps_agent_end : keeps.

(** The calls by which the user makes a stopped goal go on. *)
Definition user_resumes (c : call) : bool :=
  match c with c_resume => true | c_event (message_start_user _) => true | _ => false end.

(** A call that settles takes its job first, which a relation may have to be told about. *)
Definition settles (c : call) : bool := match c with c_settle _ _ => true | _ => false end.
Definition take_job (n : nat) : M () := modify (λ m, m <| jobs := delete n (jobs m) |>).

Lemma keeps_call env R `{!Lifecycle env R} c : user_resumes c = false → settles c = false → keeps R (run env c).
Proof.
  intros Hc Hs. destruct c; try discriminate; cbn [run]; unfold subscribe, unsubscribe; step_keeps.
  destruct ev as [| |]; [done| |]; unfold applyAgentEvent; step_keeps.
Qed.

Lemma keeps_run env R `{!Lifecycle env R} c :
  (∀ n, keeps R (take_job n)) → user_resumes c = false → keeps R (run env c).
Proof.
  intros Ht Hc. destruct (settles c) eqn:Hs; [|by apply keeps_call].
  destruct c; try discriminate Hs. cbn [run]. fold (take_job n). step_keeps.
Qed.

End GoalProps.
