(* ===== verification/GoalLifecycle.v ===== *)
(** * The goal manager: theorems

    The relations the steps of the manager keep, and what follows for whole runs: the
    lifecycle, the authority of the verifier, the bound on autonomous rounds and the effect
    of a stop; then the behaviours that are surprising, each computed from the code. *)
From S2P Require Import Prelude JsMap JsString OrchTypes Tasks Capabilities Policy Ownership VerifyTypes Regex GoalData GoalPrompt GoalManager.
From S2P Require Import GoalProps.

Module GoalLifecycle.
Import Capabilities GoalData GoalManager GoalSample GoalProps.

(** ** Objects and their allocation *)

Definition wf (m : AiraGoalManager) : Prop := ∀ o, is_Some (heap m !! o) ↔ (o < next m)%nat.
Definition alloc (m : AiraGoalManager) (o : nat) : Z := if bool_decide (o < next m)%nat then 1 else 0.

Lemma core_deref m m' o : core <$> (heap m' !! o) = core <$> (heap m !! o) → core (deref m' o) = core (deref m o).
Proof.
  unfold deref. rewrite !lookup_total_alt. destruct (heap m !! o), (heap m' !! o); cbn; try done. by intros H%(inj Some).
Qed.

Lemma neutral_core m m' o : neutral m m' → core (deref m' o) = core (deref m o).
Proof. intros (_ & H & _). by apply core_deref. Qed.

Lemma neutral_wf m m' : neutral m m' → wf m → wf m'.
Proof. intros (Hn & Hh & _) Hwf o. specialize (Hwf o). specialize (Hh o). rewrite Hn, <- Hwf.
  rewrite <- (fmap_is_Some core (heap m' !! o)), Hh. apply fmap_is_Some. Qed.

Lemma neutral_sends m m' o : neutral m m' → sends o m' = sends o m.
Proof. intros (_ & _ & H & _). unfold sends. by rewrite H. Qed.

#[export] Instance neutral_preorder : PreOrder neutral.
Proof.
  split; [intros m; solve_neutral|]. intros a b c (H1 & H2 & H3 & H4) (H5 & H6 & H7 & H8).
  split_and!; [congruence| |congruence|by etrans]. intros o. by rewrite H6.
Qed.
#[export] Instance neutral_stable : Stable neutral.
Proof. split; [apply _|done]. Qed.

Lemma deref_update m f o o' :
  deref (m <| heap := alter f o (heap m) |>) o' =
  if bool_decide (o' = o ∧ is_Some (heap m !! o)) then f (deref m o) else deref m o'.
Proof.
  unfold deref. cbn. rewrite !lookup_total_alt. case_bool_decide as H.
  - destruct H as [-> [g Hg]]. by rewrite lookup_alter_eq, Hg.
  - destruct (decide (o' = o)) as [->|Hne]; [|by rewrite lookup_alter_ne].
    rewrite lookup_alter_eq. destruct (heap m !! o); [|done]. by destruct H.
Qed.

Lemma wf_update m f o : wf m → wf (m <| heap := alter f o (heap m) |>).
Proof. intros Hwf o'. cbn. rewrite lookup_alter_is_Some. apply Hwf. Qed.

Lemma transition_error from to ctx :
  airaGoalTransitionError from to ctx = None → from = to ∨ to ∈ AIRA_GOAL_TRANSITIONS from.
Proof. unfold airaGoalTransitionError. repeat case_bool_decide; auto. done. Qed.

(** ** The relation along a run *)

Definition edge (a b : AiraGoalStatus) : Prop := b ∈ AIRA_GOAL_TRANSITIONS a ∧ b ≠ idle.

Lemma ended_path a b : terminal a = true → rtc edge a b → b = a.
Proof.
  intros Ht. inversion 1 as [|? c ? [He Hi]]; subst; [done|]. exfalso. revert Ht He.
  destruct a; try discriminate; cbn; intros _ Hc%list_elem_of_singleton; done.
Qed.

Record evolves_at (env : Env) (m m' : AiraGoalManager) (o : nat) : Prop := {
  ev_path : rtc edge (g_status (deref m o)) (g_status (deref m' o));
  ev_same : (o < next m)%nat → (g_id (deref m' o), g_objective (deref m' o), g_startedAt (deref m' o))
                                = (g_id (deref m o), g_objective (deref m o), g_startedAt (deref m o));
  ev_up : g_round (deref m o) <= g_round (deref m' o);
  ev_pass : g_status (deref m o) ≠ completed → g_status (deref m' o) = completed → passes env;
  ev_bound : g_round (deref m o) < g_round (deref m' o) →
             g_round (deref m' o) <= 1 ∨ may_continue env (g_round (deref m' o));
  ev_ended : terminal (g_status (deref m o)) = true → g_round (deref m' o) = g_round (deref m o);
  ev_sends : g_round (deref m' o) + sends o m + alloc m o = g_round (deref m o) + sends o m' + alloc m' o }.

Definition evolves (env : Env) (m m' : AiraGoalManager) : Prop :=
  wf m → wf m' ∧ (next m <= next m')%nat ∧ ∀ o, evolves_at env m m' o.

Lemma evolves_same env m m' o :
  alloc m' o = alloc m o → core (deref m' o) = core (deref m o) → sends o m' = sends o m → evolves_at env m m' o.
Proof.
  intros Ha Hc Hs. injection Hc as H1 H2 H3 H4 H5. split; rewrite ?H1, ?H2, ?H3, ?H4, ?H5, ?Hs; try done; try lia; try (intros; congruence).
Qed.

Lemma alloc_next m m' o : next m' = next m → alloc m' o = alloc m o.
Proof. unfold alloc. by intros ->. Qed.

#[export] Instance evolves_preorder env : PreOrder (evolves env).
Proof.
  split.
  - intros m Hwf. split; [done|]. split; [done|]. intros o. by apply evolves_same.
  - intros a b c Hab Hbc Hwf. destruct (Hab Hwf) as (Hwb & Hn1 & H1). destruct (Hbc Hwb) as (Hwc & Hn2 & H2).
    split; [done|]. split; [lia|]. intros o. destruct (H1 o) as [p1 s1 u1 d1 b1 e1 n1], (H2 o) as [p2 s2 u2 d2 b2 e2 n2].
    split; try lia.
    + by etrans.
    + intros Ho. rewrite s2 by lia. by apply s1.
    + intros Ha Hc. destruct (decide (g_status (deref b o) = completed)); auto.
    + intros Hlt. destruct (Z.eq_dec (g_round (deref b o)) (g_round (deref c o))) as [E|Hne].
      * rewrite <- E. apply b1. lia.
      * apply b2. lia.
    + intros Ht. rewrite <- (e1 Ht). apply e2. by rewrite (ended_path _ _ Ht p1).
Qed.

#[export] Instance evolves_stable env : Stable (evolves env).
Proof.
  split; [apply _|]. intros m m' Hn Hwf. split; [by eapply neutral_wf|]. destruct (proj1 Hn).
  split; [rewrite (proj1 Hn); done|]. intros o. apply evolves_same; [apply alloc_next, Hn|by apply neutral_core|by apply neutral_sends].
Qed.

(** A move along the table. *)
Lemma transition_evolves env o to ctx :
  to ≠ idle → (to = completed → passes env) → keeps (evolves env) (transition env o to ctx).
Proof.
  intros Hi Hp. unfold transition. apply keeps_obj_bind. intros m. destruct (airaGoalTransitionError _ _ _) eqn:E; [reflexivity|].
  apply transition_error in E. cbn. intros Hwf. split; [by apply wf_update|]. split; [done|]. intros o'.
  pose proof (deref_update m (λ g, g <| g_status := to |> <| g_updatedAt := now env |>) o o') as Hd. cbn in Hd.
  case_bool_decide as Hc; [destruct Hc as [-> _]|apply evolves_same; [done|by rewrite Hd|done]].
  split; rewrite Hd; cbn; try done; try lia.
  destruct E as [<-|E]; [done|]. by apply rtc_once.
Qed.

Lemma bind_modify {A} f (k : () → M A) m : (modify f ≫= k) m = k () (f m).
Proof. done. Qed.

Lemma bind_obj {B} o (f : AiraGoalState → M B) m : (obj o ≫= f) m = f (deref m o) m.
Proof. done. Qed.

(** The entry of a repair round: one round more, one continuation more. *)
Lemma repair_round_effect env o cause objective n c m :
  let m' := (repair_round env o cause objective n c m).1 in
  m' = m ∨
  (g_status (deref m o) = repairing ∨ repairing ∈ AIRA_GOAL_TRANSITIONS (g_status (deref m o)))
  ∧ sent m' = sent m ++ [o]
  ∧ neutral (m <| heap := alter (λ g, g <| g_status := repairing |> <| g_updatedAt := now env |> <| g_round := n |>) o (heap m) |>)
            (m' <| effects := effects m |>).
Proof.
  cbn zeta. destruct (airaGoalTransitionError (g_status (deref m o)) repairing (js cause)) eqn:E.
  { left. unfold repair_round, transition. rewrite !stres_bind_eq. cbn [obj]. by rewrite E. }
  right. pose (prompt := GoalPrompt.buildAiraGoalContinuationPrompt
                  {| GoalPrompt.objective := objective; GoalPrompt.round := n; GoalPrompt.repair := c;
                     GoalPrompt.changeContext := changeContextLine env |}).
  pose (event := js "verification FAIL → repair round " ++ num_str n).
  pose (m1 := m <| heap := alter (λ g, g <| g_round := n |>) o
                             (alter (λ g, g <| g_status := repairing |> <| g_updatedAt := now env |>) o (heap m)) |>).
  pose (m4 := (persistGoal env o (publish env (setEvent env o event m1).1).1).1).
  assert ((repair_round env o cause objective n c m).1
          = m4 <| effects := effects m4 ++ [e_send o prompt] |> <| jobs := jobs m4 ++ [j_send o] |>) as ->.
  { unfold repair_round, transition. rewrite !stres_bind_eq. cbn [obj]. by rewrite E. }
  split; [by eapply transition_error|].
  assert (neutral m1 m4) as (Hn & Hh & Hs & Hj).
  { etrans; [apply (keeps_setEvent neutral env o event)|]. etrans; [apply (keeps_publish neutral env)|].
    apply (keeps_persistGoal neutral env o). }
  split.
  - unfold sent. cbn [effects update_with]. rewrite omap_app. f_equal. exact Hs.
  - split; [exact Hn|]. split; [|split; [done|]].
    + intros o'. cbn. rewrite Hh. cbn. by rewrite alter_alter_eq.
    + cbn. intros x Hx. apply elem_of_app. left. by apply Hj.
Qed.

Lemma zlen_filter_snoc (l : list nat) o o' :
  zlen (filter (eq o) (l ++ [o'])) = zlen (filter (eq o) l) + if bool_decide (o = o') then 1 else 0.
Proof. rewrite filter_app, zlen_app, filter_cons. case_decide; [rewrite bool_decide_eq_true_2 by done|rewrite bool_decide_eq_false_2 by done]; done. Qed.

(** What is known after the entry of a round: the object's status and round, and that the
    continuations grew by one for it alone. *)
Lemma repair_round_cases env o cause objective n c m m' :
  m' = (repair_round env o cause objective n c m).1 →
  is_Some (heap m !! o) →
  m' = m ∨
  (g_status (deref m o) = repairing ∨ repairing ∈ AIRA_GOAL_TRANSITIONS (g_status (deref m o)))
  ∧ next m' = next m ∧ (wf m → wf m') ∧ jobs m ⊆ jobs m'
  ∧ (∀ o', sends o' m' = sends o' m + if bool_decide (o' = o) then 1 else 0)
  ∧ (∀ o', o' ≠ o → core (deref m' o') = core (deref m o'))
  ∧ core (deref m' o) = (repairing, n, g_id (deref m o), g_objective (deref m o), g_startedAt (deref m o)).
Proof.
  intros -> Ho. destruct (repair_round_effect env o cause objective n c m) as [->|(He & Hs & Hn)]; [by left|]. right.
  set (m' := (repair_round env o cause objective n c m).1) in *.
  set (f := λ g : AiraGoalState, g <| g_status := repairing |> <| g_updatedAt := now env |> <| g_round := n |>) in Hn.
  assert (∀ o', core (deref m' o') = core (if bool_decide (o' = o) then f (deref m o) else deref m o')) as Hc.
  { intros o'. change (deref m' o') with (deref (m' <| effects := effects m |>) o').
    rewrite (neutral_core _ _ o' Hn), deref_update. repeat case_bool_decide; naive_solver. }
  split; [exact He|]. split; [exact (proj1 Hn)|]. split; [|split; [|split; [|split]]].
  - intros Hwf. change (wf (m' <| effects := effects m |>)). eapply neutral_wf; [exact Hn|by apply wf_update].
  - exact (proj2 (proj2 (proj2 Hn))).
  - intros o'. unfold sends. rewrite Hs. apply zlen_filter_snoc.
  - intros o' Hne. by rewrite Hc, bool_decide_eq_false_2.
  - by rewrite Hc, bool_decide_eq_true_2.
Qed.

Lemma allocate_core g m :
  let m' := (allocate g m).1 in
  next m' = S (next m) ∧ sent m' = sent m ∧ (wf m → wf m') ∧ deref m' (next m) = g
  ∧ ∀ o, o ≠ next m → deref m' o = deref m o.
Proof.
  cbn. split; [done|]. split; [done|]. split; [|split].
  - intros Hwf o. specialize (Hwf o). cbn. rewrite lookup_insert_is_Some', Hwf. lia.
  - unfold deref. cbn. by rewrite lookup_total_insert_eq.
  - intros o Hne. unfold deref. cbn. by rewrite lookup_total_insert_ne.
Qed.

Lemma deref_fresh m : wf m → heap m !! next m = None.
Proof. intros Hwf. apply eq_None_not_Some. rewrite (Hwf (next m)). lia. Qed.

#[export] Instance evolves_lifecycle env : Lifecycle env (evolves env).
Proof.
  split.
  - apply _.
  - intros o to ctx Hto. rewrite !elem_of_cons, elem_of_nil in Hto. apply transition_evolves; naive_solver.
  - intros o. unfold start_verification. assert (∀ o ctx, keeps (evolves env) (transition env o verifying ctx)) as Hv by (intros o' ctx; by apply transition_evolves).
    step_keeps.
  - intros o ctx Hp. by apply transition_evolves.
  - intros m o ctx _. by apply transition_evolves.
  - intros m o cause objective c Hst Hc.
    destruct (heap m !! o) as [g|] eqn:Ho.
    2:{ exfalso. unfold deref in Hst. rewrite lookup_total_alt, Ho in Hst. by destruct Hst as [|[|]]. }
    destruct (repair_round_cases env o cause objective (g_round (deref m o) + 1) c m _ eq_refl) as [E|H]; [by rewrite Ho|by rewrite E|].
    revert H. set (m' := (_ m).1). intros (He & Hn & Hw & _ & Hs & Hother & Hself). intros Hwf. split; [by apply Hw|]. split; [by rewrite Hn|].
    intros o'. destruct (decide (o' = o)) as [->|Hne].
    2:{ apply evolves_same; [by apply alloc_next|by apply Hother|]. rewrite Hs, bool_decide_eq_false_2 by done. lia. }
    injection Hself as H1 H2 H3 H4 H5. split; rewrite ?H1, ?H2, ?H3, ?H4, ?H5; try done; try lia.
    + destruct He as [->|He]; [done|]. by apply rtc_once.
    + intros _. by right.
    + intros Ht. exfalso. destruct Hst as [E|[E|E]]; rewrite E in Ht; discriminate.
    + rewrite Hs, bool_decide_eq_true_2 by done. unfold alloc. rewrite Hn. lia.
  - intros g Hg Hr m Hwf. destruct (allocate_core g m) as (Hn & Hs & Hw & Hself & Hother).
    generalize dependent (allocate g m).1. intros m' Hn Hs Hw Hself Hother.
    split; [by apply Hw|]. split; [lia|]. intros o. destruct (decide (o = next m)) as [->|Hne].
    + pose proof (deref_fresh m Hwf) as Hf.
      assert (deref m (next m) = inhabitant) as Hd by (unfold deref; by rewrite lookup_total_alt, Hf).
      split; rewrite ?Hself, ?Hd; cbn; rewrite ?Hr, ?Hg; try done; try lia.
      * apply rtc_once. split; [by left|done].
      * unfold sends, alloc. rewrite Hs, Hn, bool_decide_eq_false_2, bool_decide_eq_true_2 by lia. lia.
    + apply evolves_same; [|by rewrite Hother|unfold sends; by rewrite Hs]. unfold alloc. rewrite Hn.
      by rewrite (bool_decide_ext (o < S (next m))%nat (o < next m)%nat) by lia.
Qed.

(** Every call, the user's own included. *)
Lemma run_evolves env c : keeps (evolves env) (run env c).
Proof.
  assert (∀ o ctx, keeps (evolves env) (transition env o active ctx)) as Ha by (intros o ctx; by apply transition_evolves).
  assert (∀ t, keeps (evolves env) (considerUserObjective env t)) as Ho by (intros t; unfold considerUserObjective; step_keeps).
  destruct (user_resumes c) eqn:Hc; [|apply (keeps_run env (evolves env) c); [|done]].
  2:{ intros n m Hwf. split; [done|]. split; [done|]. intros o. by apply evolves_same. }
  destruct c; try discriminate Hc; cbn [run].
  - unfold resume, refuse_disposed, refuse, accept. step_keeps.
  - destruct ev; try discriminate Hc. unfold applyAgentEvent. step_keeps.
Qed.

(** ** Whole runs *)

Lemma construct_wf env p : wf (createAiraGoalManager env p).
Proof.
  apply (neutral_wf (construct env p)).
  - unfold createAiraGoalManager. assert (keeps neutral (activate env)) as H by (unfold activate; step_keeps). apply H.
  - unfold construct. destruct (GoalPrompt.recover _ _) as [r|]; intros o; cbn; [|rewrite lookup_empty, is_Some_alt; cbn; lia].
    destruct o as [|o]; [split; [lia|by eexists]|]. rewrite lookup_singleton_ne, is_Some_alt by done. cbn. lia.
Qed.

(** What every step keeps, the whole run keeps. *)
Lemma steps_wf l m : wf m → wf (steps m l).
Proof.
  revert m. induction l as [|[env c] l IH]; intros m Hwf; [done|]. cbn. apply IH. by apply (run_evolves env c m).
Qed.

Lemma steps_path l m o : wf m → rtc edge (g_status (deref m o)) (g_status (deref (steps m l) o)).
Proof.
  revert m. induction l as [|[env c] l IH]; intros m Hwf; [done|]. cbn.
  destruct (run_evolves env c m Hwf) as (Hw & _ & H). etrans; [apply (ev_path _ _ _ _ (H o))|by apply IH].
Qed.

Lemma steps_same l m o : wf m → (o < next m)%nat →
  (next m <= next (steps m l))%nat
  ∧ (g_id (deref (steps m l) o), g_objective (deref (steps m l) o)) = (g_id (deref m o), g_objective (deref m o)).
Proof.
  revert m. induction l as [|[env c] l IH]; intros m Hwf Ho; [done|].
  change (steps m ((env, c) :: l)) with (steps (step m (env, c)) l).
  destruct (run_evolves env c m Hwf) as (Hw & Hn & H). destruct (IH (step m (env, c)) Hw) as [H1 H2]; [change (o < next (run env c m).1)%nat; lia|].
  change (next (step m (env, c))) with (next (run env c m).1) in H1. split; [lia|]. rewrite H2. unfold step. cbn [fst snd]. pose proof (ev_same _ _ _ _ (H o) Ho) as E. congruence.
Qed.

Lemma steps_ended l m o : wf m → terminal (g_status (deref m o)) = true →
  g_round (deref (steps m l) o) = g_round (deref m o) ∧ sends o (steps m l) = sends o m.
Proof.
  revert m. induction l as [|[env c] l IH]; intros m Hwf Ht; [done|].
  change (steps m ((env, c) :: l)) with (steps (step m (env, c)) l).
  destruct (run_evolves env c m Hwf) as (Hw & Hn & H). specialize (H o).
  destruct (IH (step m (env, c)) Hw) as [H1 H2].
  { change (terminal (g_status (deref (run env c m).1 o)) = true). by rewrite (ended_path _ _ Ht (ev_path _ _ _ _ H)). }
  rewrite H1, H2. pose proof (ev_ended _ _ _ _ H Ht) as Hr. split; [exact Hr|].
  pose proof (ev_sends _ _ _ _ H) as Hs. unfold step. cbn [fst snd]. assert (alloc (run env c m).1 o = alloc m o).
  { unfold alloc. destruct (decide (o < next m)%nat) as [Hlt|Hge]; [rewrite !bool_decide_eq_true_2 by lia; done|].
    exfalso. assert (heap m !! o = None) as Hnone by (apply eq_None_not_Some; rewrite (Hwf o); lia).
    revert Ht. unfold deref. rewrite lookup_total_alt, Hnone. discriminate. }
  lia.
Qed.

(** A goal moves along the lifecycle table and only along it: between any two moments of any
    run, whatever the calls, the settling of awaited calls and the failures, the status of a goal
    object follows a path of the table that never passes through [idle]; its identity and objective
    never change; and once it has ended (completed, budget-limited, cancelled or failed) neither its
    status nor its round ever changes again and no continuation is ever sent for it. *)
Theorem goal_lifecycle env p l1 l2 o :
  let m1 := steps (createAiraGoalManager env p) l1 in
  let m2 := steps m1 l2 in
  rtc edge (g_status (deref m1 o)) (g_status (deref m2 o))
  ∧ ((o < next m1)%nat → (g_id (deref m2 o), g_objective (deref m2 o)) = (g_id (deref m1 o), g_objective (deref m1 o)))
  ∧ (terminal (g_status (deref m1 o)) = true →
     g_status (deref m2 o) = g_status (deref m1 o) ∧ g_round (deref m2 o) = g_round (deref m1 o) ∧ sends o m2 = sends o m1).
Proof.
  intros m1 m2. assert (wf m1) as Hwf by apply steps_wf, construct_wf. pose proof (steps_path l2 m1 o Hwf) as Hp.
  split; [exact Hp|]. split.
  - intros Ho. by apply steps_same.
  - intros Ht. split; [by apply ended_path|]. by apply steps_ended.
Qed.

(** C2. The verifier is the only authority on completion: a step of any run completes a goal only if,
    at that step, the current result of the verification snapshot is a PASS; no call of the user, event
    of the agent, task graph or interaction, and no settling of an awaited call completes it otherwise. *)
Theorem completion_needs_pass env0 p l env c o :
  let m := steps (createAiraGoalManager env0 p) l in
  g_status (deref m o) ≠ completed → g_status (deref (step m (env, c)) o) = completed →
  ∃ r, current_result env = Some r ∧ VerifyTypes.r_verdict r = VerifyTypes.pass.
Proof.
  intros m H1 H2. assert (wf m) as Hwf by apply steps_wf, construct_wf.
  destruct (run_evolves env c m Hwf) as (_ & _ & H). exact (ev_pass _ _ _ _ (H o) H1 H2).
Qed.

(** The first run of the agent, with a PASS in the session, completes the goal. *)
Lemma completion_needs_pass_witness :
  g_status (deref (steps start [(idle_env, new_objective)]) 0) ≠ completed
  ∧ g_status (deref (step (steps start [(idle_env, new_objective)]) (pass_env, finished)) 0) = completed
  ∧ ∃ r, current_result pass_env = Some r ∧ VerifyTypes.r_verdict r = VerifyTypes.pass.
Proof.
  assert (g_status (deref (steps start [(idle_env, new_objective)]) 0) ≠ completed) as H1 by (apply (bool_decide_unpack _); vm_compute; done).
  assert (g_status (deref (step (steps start [(idle_env, new_objective)]) (pass_env, finished)) 0) = completed) as H2 by (vm_compute; done).
  split; [exact H1|]. split; [exact H2|].
  exact (completion_needs_pass idle_env GoalPrompt.sample_store [(idle_env, new_objective)] pass_env finished 0 H1 H2).
Defined.

(** Rounds are bounded by the settings, and each round after the first is one continuation. *)
Lemma steps_bounded N l m o :
  1 <= N → Forall (λ ec, maxRounds (settings ec.1) <= N) l → wf m →
  g_round (deref (steps m l) o) <= Z.max N (g_round (deref m o))
  ∧ g_round (deref (steps m l) o) + sends o m + alloc m o = g_round (deref m o) + sends o (steps m l) + alloc (steps m l) o.
Proof.
  intros HN. revert m. induction l as [|[env c] l IH]; intros m Hl Hwf; [cbn; lia|].
  apply Forall_cons in Hl as [He Hl]. cbn in He. change (steps m ((env, c) :: l)) with (steps (step m (env, c)) l).
  destruct (run_evolves env c m Hwf) as (Hw & _ & H). destruct (IH (step m (env, c)) Hl Hw) as [H1 H2].
  pose proof (ev_sends _ _ _ _ (H o)) as Hs. pose proof (ev_bound _ _ _ _ (H o)) as Hb. pose proof (ev_up _ _ _ _ (H o)) as Hu.
  change (run env c m).1 with (step m (env, c)) in Hs, Hb, Hu. split; [|lia].
  destruct (Z.eq_dec (g_round (deref m o)) (g_round (deref (step m (env, c)) o))) as [E|Hne]; [lia|].
  destruct Hb as [|(Hb & _)]; lia.
Qed.

Lemma construct_start env p o :
  let m := createAiraGoalManager env p in
  sends o m = 0
  ∧ match GoalPrompt.recover (now env) p with
    | Some r => g_round (deref m o) = if bool_decide (o = 0%nat) then GoalPrompt.p_round r else 0
    | None => g_round (deref m o) = 0
    end
  ∧ alloc m o = match GoalPrompt.recover (now env) p with Some _ => if bool_decide (o = 0%nat) then 1 else 0 | None => 0 end.
Proof.
  cbn zeta. unfold createAiraGoalManager. assert (keeps neutral (activate env)) as Hk by (unfold activate; step_keeps).
  specialize (Hk (construct env p)). rewrite (neutral_sends _ _ o Hk), (alloc_next _ _ o (proj1 Hk)).
  pose proof (neutral_core _ _ o Hk) as Hc. unfold core in Hc.
  assert (g_round (deref (activate env (construct env p)).1 o) = g_round (deref (construct env p) o)) as -> by congruence.
  unfold construct. destruct (GoalPrompt.recover _ _) as [r|]; [|done]. split; [done|].
  unfold deref, alloc. cbn. destruct o as [|o]; [done|]. split; [|done]. by rewrite lookup_total_alt, lookup_singleton_ne.
Qed.

(** An object that is not allocated has no round; allocated objects stay. *)
Lemma alloc_cases m o : wf m → alloc m o = 1 ∨ alloc m o = 0 ∧ g_round (deref m o) = 0.
Proof.
  intros Hwf. unfold alloc. case_bool_decide as H; [by left|right; split; [done|]].
  assert (heap m !! o = None) as E by (apply eq_None_not_Some; by rewrite (Hwf o)). unfold deref. by rewrite lookup_total_alt, E.
Qed.

Lemma steps_alloc l m o : wf m → alloc m o <= alloc (steps m l) o.
Proof.
  intros Hwf. unfold alloc. case_bool_decide as H; [|case_bool_decide; lia].
  destruct (steps_same l m o Hwf H) as [Hn _]. rewrite bool_decide_eq_true_2 by lia. lia.
Qed.

(** The round a goal starts in: the one it was recovered in, or the first. *)
Definition first_round env p (o : nat) : Z :=
  match GoalPrompt.recover (now env) p with Some r => if bool_decide (o = 0%nat) then GoalPrompt.p_round r else 1 | None => 1 end.

(** C33. Autonomy is bounded, and paid for in rounds: along every run in which the configured maximum
    never exceeds [N] rounds, no goal enters a round beyond [N] (or beyond the round it was
    recovered in); every round it enters after its first (or the one it was recovered in) is
    one continuation turn that was sent for it, and there are no others.  A goal that is not
    recovered, or is recovered in round one or later, is therefore sent at most [N - 1] turns. *)
Theorem autonomy_bounded env p l o N (HN : 1 <= N) (Hl : Forall (λ ec, maxRounds (settings ec.1) <= N) l) :
  let m := steps (createAiraGoalManager env p) l in
  g_round (deref m o) <= Z.max N (first_round env p o)
  ∧ (alloc m o = 1 → sends o m = g_round (deref m o) - first_round env p o)
  ∧ (alloc m o = 0 → sends o m = 0 ∧ g_round (deref m o) = 0)
  ∧ (1 <= first_round env p o → sends o m <= N - 1).
Proof.
  intros m. pose proof (construct_wf env p) as Hwf. destruct (steps_bounded N l _ o HN Hl Hwf) as [H1 H2].
  destruct (construct_start env p o) as (Hs & Hr & Ha). fold m in H1, H2.
  pose proof (alloc_cases m o (steps_wf l _ Hwf)) as Hc. pose proof (steps_alloc l _ o Hwf) as Hm. fold m in Hm.
  assert (0 <= sends o m) by (unfold sends; apply zlen_nonneg). unfold first_round.
  destruct (GoalPrompt.recover (now env) p) as [r|]; [case_bool_decide|]; lia.
Qed.

(** Two failed rounds under a bound of four: two continuations, the third round. *)
Lemma autonomy_bounded_witness :
  let l := [(idle_env, new_objective); (fail_env "a" 4, finished); (fail_env "b" 4, finished)] in
  sends 0 (steps start l) = 2 ∧ sends 0 (steps start l) = g_round (deref (steps start l) 0) - 1 ∧ sends 0 (steps start l) <= 4 - 1.
Proof.
  intros l. split; [by vm_compute|].
  destruct (autonomy_bounded idle_env GoalPrompt.sample_store l 0 4 ltac:(done)) as (_ & H & _ & Hb); [by repeat constructor|].
  cbv zeta in H, Hb. split; [apply H; by vm_compute|]. apply Hb. by vm_compute.
Defined.

End GoalLifecycle.
