(* ===== verification/GoalLiveness.v ===== *)
(** * The goal manager: stops, progress and surprises

    The effect of a stop, the progress of a verifying goal, and the behaviours of
    [GoalManager] that its comments do not promise, each computed from the code. *)
From S2P Require Import Prelude JsMap JsString OrchTypes Tasks Capabilities Policy Ownership VerifyTypes Regex GoalData GoalPrompt GoalManager.
From S2P Require Import GoalProps GoalLifecycle.

Module GoalLiveness.
Import Capabilities GoalData GoalManager GoalSample GoalProps GoalLifecycle.

(** ** A stopped goal *)

Definition stopped (m : AiraGoalManager) (o : nat) : Prop := g_status (deref m o) ∈ [paused; cancelled].

Definition quiet (m m' : AiraGoalManager) : Prop :=
  wf m → wf m' ∧ ∀ o, stopped m o → stopped m' o ∧ g_round (deref m' o) = g_round (deref m o) ∧ sends o m' = sends o m.

#[export] Instance quiet_preorder : PreOrder quiet.
Proof.
  split; [done|]. intros a b c H1 H2 Hwf. destruct (H1 Hwf) as [Hb H3]. destruct (H2 Hb) as [Hc H4].
  split; [done|]. intros o Ho. destruct (H3 o Ho) as (S1 & R1 & N1), (H4 o S1) as (S2 & R2 & N2).
  split_and!; [done|congruence|congruence].
Qed.

Lemma quiet_same m m' o :
  core (deref m' o) = core (deref m o) → sends o m' = sends o m →
  stopped m o → stopped m' o ∧ g_round (deref m' o) = g_round (deref m o) ∧ sends o m' = sends o m.
Proof. intros Hc Hs Ho. injection Hc as H1 H2 _ _ _. unfold stopped in *. by rewrite H1, H2, Hs. Qed.

#[export] Instance quiet_stable : Stable quiet.
Proof.
  split; [apply _|]. intros m m' Hn Hwf. split; [by eapply neutral_wf|]. intros o.
  apply quiet_same; [by apply neutral_core|by apply neutral_sends].
Qed.

(** A move of a stopped goal can only keep it stopped; any other is refused by the table. *)
Lemma transition_quiet env m o to ctx :
  (stopped m o → to ∈ AIRA_GOAL_TRANSITIONS (g_status (deref m o)) → to ∈ [paused; cancelled]) →
  quiet m (transition env o to ctx m).1.
Proof.
  intros Ht. unfold transition. rewrite stres_bind_eq. cbn [obj]. destruct (airaGoalTransitionError _ _ _) eqn:E; [reflexivity|].
  apply transition_error in E. intros Hwf. split; [by apply wf_update|]. intros o' Ho.
  change ((upd o (λ g, g <| g_status := to |> <| g_updatedAt := now env |>) m).1)
    with (m <| heap := alter (λ g, g <| g_status := to |> <| g_updatedAt := now env |>) o (heap m) |>).
  unfold stopped. rewrite deref_update. case_bool_decide as Hc; [destruct Hc as [-> _]|done]. cbn. split; [|done].
  destruct E as [<-|E]; [exact Ho|by apply Ht].
Qed.

Lemma stopped_cases m o : stopped m o → g_status (deref m o) = paused ∨ g_status (deref m o) = cancelled.
Proof. unfold stopped. rewrite !elem_of_cons, elem_of_nil. tauto. Qed.

#[export] Instance quiet_lifecycle env : Lifecycle env quiet.
Proof.
  assert (∀ o to ctx, to ∉ [active; repairing; idle; error] → keeps quiet (transition env o to ctx)) as Hmove.
  { intros o to ctx Hto m. apply transition_quiet. intros [E|E]%stopped_cases; rewrite E; cbn; intros Hin; revert Hto Hin;
      rewrite !elem_of_cons, !elem_of_nil; tauto. }
  split.
  - apply _.
  - intros o to ctx Hto. apply Hmove. revert Hto. rewrite !elem_of_cons, !elem_of_nil. by intros [->|[->|[->|[->|[]]]]] [?|[?|[?|[?|[]]]]].
  - intros o. unfold start_verification. apply keeps_bind; [apply _|by apply Hmove, (bool_decide_unpack _)|intros _; step_keeps].
  - intros o ctx _. by apply Hmove, (bool_decide_unpack _).
  - intros m o ctx Hne. apply transition_quiet. intros Ho. done.
  - intros m o cause objective c Hst _.
    destruct (heap m !! o) as [g|] eqn:Ho.
    2:{ exfalso. unfold deref in Hst. rewrite lookup_total_alt, Ho in Hst. by destruct Hst as [|[|]]. }
    destruct (repair_round_cases env o cause objective (g_round (deref m o) + 1) c m _ eq_refl) as [E|H]; [by rewrite Ho|by rewrite E|].
    generalize dependent ((repair_round env o cause objective (g_round (deref m o) + 1) c m).1).
    intros m' (_ & _ & Hw & _ & Hs & Hother & _) Hwf. split; [by apply Hw|]. intros o' Ho'.
    destruct (decide (o' = o)) as [->|Hne].
    { exfalso. destruct (stopped_cases _ _ Ho') as [E|E]; rewrite E in Hst; by destruct Hst as [|[|]]. }
    revert Ho'. apply quiet_same; [by apply Hother|]. rewrite Hs, bool_decide_eq_false_2 by done. lia.
  - intros g Hg Hr m Hwf. destruct (allocate_core g m) as (_ & Hs & Hw & _ & Hother).
    generalize dependent (allocate g m).1. intros m' Hs Hw Hother. split; [by apply Hw|]. intros o Ho.
    assert (o ≠ next m) as Hne.
    { intros ->. unfold stopped, deref in Ho. rewrite lookup_total_alt, (deref_fresh m Hwf) in Ho. revert Ho. by apply (bool_decide_unpack _). }
    revert Ho. apply quiet_same; [by rewrite Hother|unfold sends; by rewrite Hs].
Qed.

(** C6. A stop is effective: from the moment a goal is paused or cancelled (by the user, an aborted or
    failed run, or the end of the session) nothing but the user makes it go on. Through any sequence of
    calls that contains neither [/goal resume] nor a user message, with any verification, test run or
    continuation that was in flight settling in any order and way, the goal stays paused or cancelled,
    stays in its round, and no continuation is sent for it. *)
Theorem stop_is_effective env p l1 l2 o :
  let m1 := steps (createAiraGoalManager env p) l1 in
  g_status (deref m1 o) ∈ [paused; cancelled] → Forall (λ ec, user_resumes ec.2 = false) l2 →
  let m2 := steps m1 l2 in
  g_status (deref m2 o) ∈ [paused; cancelled] ∧ g_round (deref m2 o) = g_round (deref m1 o) ∧ sends o m2 = sends o m1.
Proof.
  intros m1 Hst Hl. assert (wf m1) as Hwf by apply steps_wf, construct_wf. clearbody m1. cbn zeta.
  revert m1 Hst Hwf. induction l2 as [|[env' c] l IH]; intros m Hst Hwf; [done|].
  apply Forall_cons in Hl as [Hc Hl]. cbn in Hc. change (steps m ((env', c) :: l)) with (steps (step m (env', c)) l).
  assert (quiet m (step m (env', c))) as Hq by (apply (keeps_run env' quiet c); [by intros n m'|done]).
  destruct (Hq Hwf) as [Hw H]. destruct (H o Hst) as (H1 & H2 & H3). destruct (IH Hl _ H1 Hw) as (H4 & H5 & H6).
  split_and!; [done|congruence|congruence].
Qed.

(** A goal that was stopped while it was being verified stays stopped when the verdict arrives. *)
Lemma stop_is_effective_witness :
  let l1 := [(idle_env, new_objective); (idle_env, finished); (idle_env, c_stop)] in
  let l2 := [(pass_env, c_settle 0 (resolved true)); (pass_env, c_settle 0 (resolved true)); (pass_env, finished)] in
  g_status (deref (steps start l1) 0) = paused
  ∧ g_status (deref (steps (steps start l1) l2) 0) ∈ [paused; cancelled].
Proof.
  intros l1 l2. assert (g_status (deref (steps start l1) 0) = paused) as H by (vm_compute; done). split; [exact H|].
  apply (stop_is_effective idle_env GoalPrompt.sample_store l1 l2 0).
  - change (g_status (deref (steps start l1) 0) ∈ [paused; cancelled]). rewrite H. by left.
  - by repeat constructor.
Defined.

(** ** The end of the session and the next one *)

Lemma running_pauses st ctx : running st = true → airaGoalTransitionError st paused ctx = None.
Proof. destruct st; done. Qed.

(** What the end of the session leaves on disk. *)
Lemma dispose_saves env m o :
  disposed m = false → goal m = Some o → is_Some (heap m !! o) → running (g_status (deref m o)) = true →
  ∃ g, persistence (dispose env m).1 = (GoalPrompt.save (io_error env) (persistable env g) (persistence m)).1
       ∧ core g = (paused, g_round (deref m o), g_id (deref m o), g_objective (deref m o), g_startedAt (deref m o))
       ∧ g_stopReason g = Some interrupted.
Proof.
  intros Hd Hg Ho Hr. unfold dispose. rewrite stres_bind_eq. cbn [get]. rewrite Hd, bind_modify.
  set (m1 := m <| disposed := true |> <| subscribed := false |>). rewrite Hg, Hr. cbn [when]. rewrite !stres_bind_eq.
  unfold pause_run, transition. rewrite stres_bind_eq, bind_obj. change (deref m1 o) with (deref m o). rewrite running_pauses by done.
  unfold upd at 1. cbn [modify]. unfold upd at 1, setEvent, upd, persistGoal. rewrite !bind_modify.
  set (f1 := λ g : AiraGoalState, g <| g_status := paused |> <| g_updatedAt := now env |>).
  set (f2 := λ g : AiraGoalState, g <| g_stopReason := Some interrupted |> <| g_continuationPending := false |>).
  set (f3 := λ g : AiraGoalState, g <| g_lastEvent := _ |> <| g_updatedAt := now env |>).
  exists (f3 (f2 (f1 (deref m o)))). split; [|done].
  assert (∀ mm, heap mm = alter f3 o (alter f2 o (alter f1 o (heap m))) → deref mm o = f3 (f2 (f1 (deref m o)))) as Hx.
  { intros mm Hh. destruct Ho as [g Hgo]. unfold deref. rewrite Hh, !lookup_total_alt, !lookup_alter_eq, Hgo. done. }
  cbn [modify fst]. match goal with |- context [deref ?mm o] => rewrite (Hx mm eq_refl) end.
  unfold publish, modify. cbn. by destruct (GoalPrompt.save _ _ _).
Qed.

(** A goal that is running when its session ends is neither lost nor continued behind the user's back:
    with a working file system, the next session of the same id starts with that goal, with its identity,
    objective and round, paused as interrupted; nothing is awaited and nothing was sent. *)
Theorem restart_pauses env env' m o reason
  (Hd : disposed m = false) (Hg : goal m = Some o) (Ho : is_Some (heap m !! o)) (Hr : running (g_status (deref m o)) = true)
  (Hio : io_error env = None) (He : GoalPrompt.st_enabled (persistence m) = true)
  (Hreason : reason ∈ GoalPrompt.RECOVERY_REASONS) :
  let p := persistence (dispose env m).1 in
  let m' := createAiraGoalManager env'
              {| GoalPrompt.st_sessionId := GoalPrompt.st_sessionId p; GoalPrompt.st_startReason := reason;
                 GoalPrompt.st_enabled := true; GoalPrompt.st_path := GoalPrompt.st_path p;
                 GoalPrompt.st_file := GoalPrompt.st_file p |} in
  goal m' = Some 0%nat
  ∧ core (deref m' 0) = (paused, g_round (deref m o), g_id (deref m o), g_objective (deref m o), g_startedAt (deref m o))
  ∧ g_stopReason (deref m' 0) = Some interrupted ∧ jobs m' = [] ∧ effects m' = [].
Proof.
  destruct (dispose_saves env m o Hd Hg Ho Hr) as (g & Hp & Hc & Hs). rewrite Hp, Hio. unfold GoalPrompt.save. rewrite He.
  cbn [negb fst GoalPrompt.st_sessionId GoalPrompt.st_path GoalPrompt.st_file]. cbv zeta.
  unfold createAiraGoalManager, activate. rewrite stres_bind_eq. cbn [get].
  unfold construct, GoalPrompt.recover, GoalPrompt.load.
  cbn [GoalPrompt.st_startReason GoalPrompt.st_file GoalPrompt.version GoalPrompt.g_sessionId GoalPrompt.st_sessionId GoalPrompt.g_goal].
  rewrite (bool_decide_eq_true_2 _ Hreason). unfold str_eqb. rewrite Z.eqb_refl, (bool_decide_eq_true_2 (_ = _)) by done.
  unfold core in Hc. injection Hc as H1 H2 H3 H4 H5. cbn. rewrite H1, H2, H3, H4, H5, Hs. done.
Qed.

(** A goal in its second round. *)
Lemma restart_pauses_witness :
  let m := steps start [(idle_env, new_objective); (fail_env "a" 4, finished)] in
  let p := persistence (dispose idle_env m).1 in
  let m' := createAiraGoalManager idle_env
              {| GoalPrompt.st_sessionId := GoalPrompt.st_sessionId p; GoalPrompt.st_startReason := js "resume";
                 GoalPrompt.st_enabled := true; GoalPrompt.st_path := GoalPrompt.st_path p;
                 GoalPrompt.st_file := GoalPrompt.st_file p |} in
  first m = (repairing, 2) ∧ goal m' = Some 0%nat ∧ g_stopReason (deref m' 0) = Some interrupted.
Proof.
  intros m p m'. split; [vm_compute; reflexivity|].
  destruct (restart_pauses idle_env idle_env m 0 (js "resume")) as (H1 & _ & H2 & _).
  - vm_compute. reflexivity.
  - vm_compute. reflexivity.
  - apply (bool_decide_unpack _). vm_compute. exact I.
  - vm_compute. reflexivity.
  - reflexivity.
  - vm_compute. reflexivity.
  - apply (bool_decide_unpack _). vm_compute. exact I.
  - split; [exact H1|exact H2].
Defined.

(** ** A verifying goal

    While a goal is verifying, a call that will move it on is awaited. *)

Definition boundary_job (j : job) (o : nat) : Prop :=
  match j with
  | j_verify o' | j_boundary o' _ | j_acquire o' _ | j_acquired o' _ _ | j_recheck o' _ _ => o' = o
  | j_send _ => False
  end.
#[export] Instance boundary_job_dec j o : Decision (boundary_job j o).
Proof. destruct j; cbn; apply _. Defined.
Definition awaited (m : AiraGoalManager) (o : nat) : Prop := ∃ j, j ∈ jobs m ∧ boundary_job j o.
Definition moved (o : nat) (m : AiraGoalManager) : Prop := g_status (deref m o) = verifying → awaited m o.

(** A goal of the set [P] starts to verify only with a call that is awaited. *)
Definition covers (P : nat → Prop) (m m' : AiraGoalManager) : Prop :=
  jobs m ⊆ jobs m' ∧ ∀ o, P o → g_status (deref m' o) = verifying → g_status (deref m o) = verifying ∨ awaited m' o.
Definition covered : AiraGoalManager → AiraGoalManager → Prop := covers (λ _, True).

Lemma awaited_mono m m' o : jobs m ⊆ jobs m' → awaited m o → awaited m' o.
Proof. intros H (j & Hj & Hb). exists j. split; [by apply H|done]. Qed.

Lemma moved_covered o m m' : covered m m' → moved o m → moved o m'.
Proof. intros [Hj H] Hm Hv. destruct (H o I Hv) as [Hv'|]; [|done]. eapply awaited_mono; [exact Hj|by apply Hm]. Qed.

#[export] Instance covers_preorder P : PreOrder (covers P).
Proof.
  split; [intros m; split; [done|by left]|]. intros a b c [Hj1 H1] [Hj2 H2]. split; [by etrans|]. intros o Ho Hv.
  destruct (H2 o Ho Hv) as [Hv'|]; [|by right]. destruct (H1 o Ho Hv') as [|Ha]; [by left|right; by eapply awaited_mono].
Qed.

Lemma covers_same P m m' :
  jobs m ⊆ jobs m' → (∀ o, P o → g_status (deref m' o) = g_status (deref m o) ∨ g_status (deref m' o) ≠ verifying) → covers P m m'.
Proof. intros Hj H. split; [done|]. intros o Ho Hv. destruct (H o Ho) as [E|]; [left; congruence|done]. Qed.

#[export] Instance covers_stable P : Stable (covers P).
Proof.
  split; [apply _|]. intros m m' Hn. apply covers_same; [apply Hn|]. intros o _. left. pose proof (neutral_core _ _ o Hn) as Hc.
  unfold core in Hc. congruence.
Qed.

Lemma transition_covers P env o to ctx : (to = verifying → ¬ P o) → keeps (covers P) (transition env o to ctx).
Proof.
  intros Hto m. unfold transition. rewrite stres_bind_eq. cbn [obj]. destruct (airaGoalTransitionError _ _ _) eqn:E; [reflexivity|].
  apply covers_same; [done|]. intros o' Ho'.
  change ((upd o (λ g, g <| g_status := to |> <| g_updatedAt := now env |>) m).1)
    with (m <| heap := alter (λ g, g <| g_status := to |> <| g_updatedAt := now env |>) o (heap m) |>).
  rewrite deref_update. case_bool_decide as Hc; [|by left]. destruct Hc as [-> _]. right. intros Hv. by apply Hto.
Qed.

(** An assignment that leaves the status, and any effect. *)
Lemma upd_covers P o f : (∀ g, g_status (f g) = g_status g) → keeps (covers P) (upd o f).
Proof.
  intros Hf m. apply covers_same; [done|]. intros o' _. left.
  change (upd o f m).1 with (m <| heap := alter f o (heap m) |>). rewrite deref_update. case_bool_decide as H; [|done].
  destruct H as [-> _]. apply Hf.
Qed.
Lemma emit_covers P e : keeps (covers P) (emit e).
Proof. intros m. apply covers_same; [done|by left]. Qed.

Lemma awaits_moved o j m : boundary_job j o → moved o (await j m).1.
Proof. intros Hb _. exists j. split; [cbn; apply elem_of_app; right; by left|done]. Qed.

(** A transition throws and changes nothing, or returns. *)
Lemma transition_cases env o to ctx m :
  (∃ e, transition env o to ctx m = (m, Err e))
  ∨ transition env o to ctx m = (m <| heap := alter (λ g, g <| g_status := to |> <| g_updatedAt := now env |>) o (heap m) |>, Ok ())
    ∧ (g_status (deref m o) = to ∨ to ∈ AIRA_GOAL_TRANSITIONS (g_status (deref m o))).
Proof.
  unfold transition. rewrite stres_bind_eq. cbn [obj]. destruct (airaGoalTransitionError _ _ _) eqn:E; [left; by eexists|right].
  split; [done|by eapply transition_error].
Qed.

Lemma start_covered env o : keeps covered (start_verification env o).
Proof.
  assert (keeps (covers (λ o', o' ≠ o)) (start_verification env o)) as Hk.
  { unfold start_verification. apply keeps_bind; [apply _|by apply transition_covers; intros _ ?|intros _; step_keeps]. }
  intros m. destruct (Hk m) as [Hj Hc]. split; [exact Hj|]. intros o' _ Hv. destruct (decide (o' = o)) as [->|Hne]; [|by apply Hc].
  revert Hv. unfold start_verification. rewrite stres_bind_eq. destruct (transition_cases env o verifying "completion boundary" m) as [[e ->]|[-> _]]; [by left|].
  unfold setEvent, publish, upd, emit. rewrite !bind_modify, bind_obj, bind_modify. intros Hv. right. by apply (awaits_moved o (j_verify o)).
Qed.

#[export] Instance covered_lifecycle env : Lifecycle env covered.
Proof.
  assert (∀ o to ctx, to ≠ verifying → keeps covered (transition env o to ctx)) as Ht by (intros o to ctx Hto; by apply transition_covers).
  split.
  - apply _.
  - intros o to ctx Hto. apply Ht. intros ->. revert Hto. by apply (bool_decide_unpack _).
  - apply start_covered.
  - intros o ctx _. by apply Ht.
  - intros m o ctx _. by apply Ht.
  - intros m o cause objective c _ _. apply keeps_at. unfold repair_round. apply keeps_bind; [apply _|by apply Ht|intros _].
    apply keeps_bind; [apply _|by apply upd_covers|intros _]. step_keeps. apply emit_covers.
  - intros g Hg _ m. destruct (allocate_core g m) as (_ & _ & _ & Hself & Hother). apply covers_same; [done|].
    intros o _. destruct (decide (o = next m)) as [->|Hne]; [right|left; by rewrite Hother]. rewrite Hself, Hg. done.
Qed.

Lemma run_covered env c : settles c = false → keeps covered (run env c).
Proof.
  assert (∀ o ctx, keeps covered (transition env o active ctx)) as Ha by (intros o ctx; by apply transition_covers).
  assert (∀ t, keeps covered (considerUserObjective env t)) as Ho by (intros t; unfold considerUserObjective; step_keeps).
  intros Hs. destruct (user_resumes c) eqn:Hc; [|by apply (keeps_call env covered)].
  destruct c; try discriminate Hc; cbn [run].
  - unfold resume, refuse_disposed, refuse, accept. step_keeps.
  - destruct ev; try discriminate Hc. unfold applyAgentEvent. step_keeps.
Qed.

(** *** Settling

    [leaves o k]: run on a verifying goal, [k] moves it on or awaits a further call. *)
Definition leaves (o : nat) {A} (k : M A) : Prop := ∀ m, g_status (deref m o) = verifying → moved o (k m).1.
Definition total {A} (k : M A) : Prop := ∀ m, ∃ a, (k m).2 = Ok a.

Lemma verifying_in_heap m o : g_status (deref m o) = verifying → is_Some (heap m !! o).
Proof. unfold deref. rewrite lookup_total_alt. destruct (heap m !! o); [by eexists|done]. Qed.

Lemma leaves_transition {A} env o to ctx (f : () → M A) :
  to ∈ AIRA_GOAL_TRANSITIONS verifying → (∀ u, keeps covered (f u)) → leaves o (transition env o to ctx ≫= f).
Proof.
  intros Hto Hf m Hv. assert (airaGoalTransitionError verifying to (js ctx) = None) as He.
  { unfold airaGoalTransitionError. case_bool_decide; [done|]. by rewrite bool_decide_eq_true_2. }
  rewrite stres_bind_eq. unfold transition. rewrite bind_obj, Hv, He. unfold upd. cbn [modify].
  eapply moved_covered; [apply Hf|]. intros Hv'. exfalso. revert Hv'. rewrite deref_update.
  rewrite bool_decide_eq_true_2 by (split; [done|by apply verifying_in_heap]). cbn. intros ->. revert Hto. by apply (bool_decide_unpack _).
Qed.

Lemma leaves_neutral {A B} o (k : M A) (f : A → M B) : total k → keeps neutral k → (∀ a, leaves o (f a)) → leaves o (k ≫= f).
Proof.
  intros Ht Hk Hf m Hv. rewrite stres_bind_eq. destruct (Ht m) as [a Ha]. specialize (Hk m).
  destruct (k m) as [m1 r]. cbn in Ha, Hk. subst r. apply Hf. pose proof (neutral_core _ _ o Hk) as Hc. unfold core in Hc. congruence.
Qed.

Lemma total_modify f : total (modify f).
Proof. intros m. by eexists. Qed.
Lemma total_bind {A B} (k : M A) (f : A → M B) : total k → (∀ a, total (f a)) → total (k ≫= f).
Proof. intros Hk Hf m. rewrite stres_bind_eq. destruct (Hk m) as [a Ha]. destruct (k m) as [m1 r]. cbn in Ha. subst r. apply Hf. Qed.
Lemma total_commit env o : total (commitChildUsage env o).
Proof. unfold commitChildUsage. case_match; [apply total_modify|intros m; by eexists]. Qed.
Lemma total_consume env o r : total (consume env o r).
Proof.
  apply total_bind; [apply total_modify|intros _]. apply total_bind; [|intros _; apply total_commit].
  unfold trackVerifierTokens. repeat case_match; first [apply total_modify|intros m; by eexists].
Qed.

Lemma complete_leaves env o : leaves o (complete env o).
Proof. apply leaves_transition; [by apply (bool_decide_unpack _)|]. intros u. step_keeps. Qed.
Lemma budgetLimit_leaves env o r : leaves o (budgetLimit env o r).
Proof. apply leaves_transition; [by apply (bool_decide_unpack _)|]. intros u. step_keeps. Qed.
Lemma enterWaiting_leaves env o r d f : leaves o (enterWaiting env o r d f).
Proof. apply leaves_transition; [by apply (bool_decide_unpack _)|]. intros u. step_keeps. Qed.

(** What is done to a verifying goal that no verdict moves on. *)
Lemma unverify_leaves {A} env o ctx (f : () → M A) :
  (∀ u, keeps covered (f u)) →
  leaves o (g ← obj o; when (bool_decide (g_status g = verifying)) (transition env o active ctx) ≫= f).
Proof.
  intros Hf m Hv. rewrite bind_obj, Hv, bool_decide_eq_true_2 by done. cbn [when].
  apply leaves_transition; [by apply (bool_decide_unpack _)|exact Hf|exact Hv].
Qed.

Lemma enqueueRepair_leaves env o cause m :
  g_status (deref m o) = verifying → is_Some (g_repairContext (deref m o)) → moved o (enqueueRepair env o cause m).1.
Proof.
  intros Hv [c Hc]. unfold enqueueRepair. rewrite bind_obj, Hv, Hc. cbn [negb orb]. rewrite (bool_decide_eq_true_2 (verifying = verifying)) by done.
  rewrite orb_true_r. cbn [negb].
  destruct (hasPendingMessages env); [apply unverify_leaves; [intros u; step_keeps|done]|].
  destruct (sendContinuation env); cbn [negb]; [|apply unverify_leaves; [intros u; step_keeps|done]].
  destruct (budgetBoundVerdict _ _ _ _ _); [by apply budgetLimit_leaves|].
  unfold repair_round. apply leaves_transition; [by apply (bool_decide_unpack _)| |exact Hv]. intros u.
  apply keeps_bind; [apply _|by apply upd_covers|intros _]. step_keeps. apply emit_covers.
Qed.

Lemma handleFail_leaves env o r m :
  g_status (deref m o) = verifying → is_Some (g_repairContext (deref m o)) → moved o (handleFail env o r m).1.
Proof.
  intros Hv Hc. unfold handleFail. rewrite bind_obj. rewrite stres_bind_eq. cbn [get]. cbv zeta.
  case_match; [by apply budgetLimit_leaves|]. case_match; [by apply budgetLimit_leaves|].
  unfold persistGoal. rewrite !bind_modify. set (m1 := m <| previousFailObservation := _ |>). cbv zeta.
  destruct (GoalPrompt.save _ _ _) as [p rec]. by apply enqueueRepair_leaves.
Qed.

Lemma handleInconclusive_leaves env o r : leaves o (handleInconclusive env o r).
Proof.
  intros m Hv. unfold handleInconclusive. rewrite bind_obj. case_match; [|by apply enterWaiting_leaves].
  case_match; [by apply enterWaiting_leaves|]. case_match; [by apply budgetLimit_leaves|].
  unfold setEvent, publish, upd, emit. rewrite !bind_modify. by apply awaits_moved.
Qed.

(** What a verdict does to a verifying goal. *)
Lemma verdict_leaves env o r (other : M ()) :
  leaves o other →
  leaves o (consume env o r;;
            match VerifyTypes.r_verdict r with
            | VerifyTypes.pass => set_repairContext o None;; complete env o
            | VerifyTypes.fail => set_repairContext o (Some (repairContextOf r));; handleFail env o r
            | VerifyTypes.inconclusive => other
            end).
Proof.
  intros Ho. apply leaves_neutral; [apply total_consume|apply keeps_consume; apply _|intros _].
  destruct (VerifyTypes.r_verdict r); [| |exact Ho].
  - apply leaves_neutral; [apply total_modify|unfold set_repairContext; step_keeps|intros _; apply complete_leaves].
  - intros m Hv. unfold set_repairContext, upd. rewrite bind_modify.
    set (m1 := m <| heap := _ |>).
    assert (deref m1 o = deref m o <| g_repairContext := Some (repairContextOf r) |>) as Hd.
    { subst m1. rewrite deref_update. by rewrite bool_decide_eq_true_2 by (split; [done|by apply verifying_in_heap]). }
    apply handleFail_leaves; rewrite Hd; [exact Hv|by eexists].
Qed.

Lemma boundary_leaves env o result note : leaves o (boundary_result env o result note).
Proof.
  destruct result as [r|].
  - apply (verdict_leaves env o r (handleInconclusive env o r)), handleInconclusive_leaves.
  - apply unverify_leaves. intros u. step_keeps.
Qed.

Lemma after_recheck_leaves env o r ok : leaves o (after_recheck env o r ok).
Proof.
  assert (leaves o (wait_for_evidence env o r)) as Hw by (intros m Hv; by apply enterWaiting_leaves).
  intros m Hv. unfold after_recheck. rewrite bind_obj. destruct ok; [|by apply Hw].
  destruct (freshVerificationResult env (deref m o)) as [f|]; [|by apply Hw].
  destruct (bool_decide _); [by apply Hw|]. by apply (verdict_leaves env o f (wait_for_evidence env o r)).
Qed.

(** A call of the verifier that is rejected. *)
Definition verifier_rejects (j : job) (out : outcome) : bool :=
  match j, out with j_verify _, rejected _ => true | j_recheck _ _ true, rejected _ => true | _, _ => false end.

Lemma resume_leaves env j out o : boundary_job j o → verifier_rejects j out = false → leaves o (resume_job env j out).
Proof.
  assert (∀ o r, leaves o (wait_for_evidence env o r)) as Hw by (intros o' r m Hv; by apply enterWaiting_leaves).
  destruct j; cbn [boundary_job]; intros Hb Hr; try (destruct Hb); destruct out; try discriminate Hr; cbn [resume_job].
  - apply leaves_neutral; [apply total_commit|apply keeps_commit; apply _|intros _ m _; by apply awaits_moved].
  - intros m Hv. rewrite bind_obj. by apply boundary_leaves.
  - intros m Hv. rewrite bind_obj. by apply boundary_leaves.
  - intros m _. by apply awaits_moved.
  - intros m _. by apply awaits_moved.
  - destruct ran; [|apply Hw]. intros m _. unfold when. destruct (has_verifier env); cbv iota; rewrite stres_bind_eq; by apply awaits_moved.
  - destruct ran; [|apply Hw]. intros m _. unfold when. destruct (has_verifier env); cbv iota; rewrite stres_bind_eq; by apply awaits_moved.
  - apply after_recheck_leaves.
  - destruct called; [discriminate Hr|]. apply after_recheck_leaves.
Qed.

Lemma deref_take m n o : deref (take_job n m).1 o = deref m o.
Proof. done. Qed.

Lemma elem_of_delete_ne {A} (l : list A) n x y : l !! n = Some x → y ∈ l → y ≠ x → y ∈ delete n l.
Proof.
  intros Hx Hy Hne. apply list_elem_of_lookup in Hy as [k Hk]. rewrite delete_take_drop. apply elem_of_app.
  assert (k ≠ n) by congruence. destruct (decide (k < n)%nat).
  - left. apply list_elem_of_lookup. exists k. by rewrite lookup_take_lt by lia.
  - right. apply list_elem_of_lookup. exists (k - S n)%nat. rewrite lookup_drop. by replace (S n + (k - S n))%nat with k by lia.
Qed.

(** Settling one awaited call keeps the others awaited. *)
Lemma settle_moved env n out m o :
  (∀ o, moved o m) → (∀ j, jobs m !! n = Some j → verifier_rejects j out = false) → moved o (run env (c_settle n out) m).1.
Proof.
  intros Hm Hr. cbn [run]. rewrite stres_bind_eq. cbn [get]. destruct (jobs m !! n) as [j|] eqn:Hj; [|exact (Hm o)].
  rewrite bind_modify. set (m0 := m <| jobs := delete n (jobs m) |>).
  assert (covered m0 (resume_job env j out m0).1) as Hc by apply (keeps_resume_job env covered).
  intros Hv. destruct (proj2 Hc o I Hv) as [Hv0|]; [|done].
  destruct (Hm o Hv0) as (j' & Hin & Hb).
  destruct (decide (boundary_job j o)) as [Hbj|Hnb]; [exact (resume_leaves env j out o Hbj (Hr j eq_refl) m0 Hv0 Hv)|].
  eapply awaited_mono; [exact (proj1 Hc)|]. exists j'. split; [|done]. eapply elem_of_delete_ne; [exact Hj|done|]. by intros ->.
Qed.

(** C35. A verifying goal is never stuck: in any run in which no call of the verifier is rejected, whenever
    a goal is verifying, a call is awaited whose settling belongs to it (the verification, the test run
    that acquires evidence, or the forced verification after it), and whenever such a call settles, with
    whatever outcome and state of the session, the goal is moved on or a further call is awaited. *)
Theorem verifying_is_awaited env0 p l o
  (Hr : ∀ l1 env n out l2 j, l = l1 ++ (env, c_settle n out) :: l2 →
        jobs (steps (createAiraGoalManager env0 p) l1) !! n = Some j → verifier_rejects j out = false) :
  let m := steps (createAiraGoalManager env0 p) l in
  g_status (deref m o) = verifying → ∃ j, j ∈ jobs m ∧ boundary_job j o.
Proof.
  cbn zeta. change (moved o (steps (createAiraGoalManager env0 p) l)). revert o.
  induction l as [|[env c] l IH] using rev_ind; intros o.
  - intros Hv. exfalso. revert Hv. cbn [steps foldl]. unfold createAiraGoalManager.
    assert (keeps neutral (activate env0)) as Hk by (unfold activate; step_keeps). specialize (Hk (construct env0 p)).
    pose proof (neutral_core _ _ o Hk) as Hc. unfold core in Hc.
    assert (g_status (deref (activate env0 (construct env0 p)).1 o) = g_status (deref (construct env0 p) o)) as -> by congruence.
    unfold construct. destruct (GoalPrompt.recover _ _) as [r|] eqn:E; [|by unfold deref; cbn; rewrite lookup_total_alt, lookup_empty].
    apply GoalPrompt.recover_never_running in E. unfold deref. cbn. rewrite lookup_total_alt. destruct o as [|o].
    + rewrite lookup_singleton_eq. cbn. intros H. by rewrite H in E.
    + by rewrite lookup_singleton_ne.
  - assert (∀ o, moved o (steps (createAiraGoalManager env0 p) l)) as IH'.
    { apply IH. intros l1 env1 n out l2 j ->. apply (Hr l1 env1 n out (l2 ++ [(env, c)]) j). by rewrite <- app_assoc. }
    unfold steps at 1. rewrite foldl_app. cbn [foldl]. fold (steps (createAiraGoalManager env0 p) l).
    destruct (settles c) eqn:Hs.
    + destruct c; try discriminate Hs. apply settle_moved; [exact IH'|]. intros j. apply (Hr l env n out []). done.
    + eapply moved_covered; [|exact (IH' o)]. by apply run_covered.
Qed.

(** The end of the first run starts a verification, and that call is awaited. *)
Lemma verifying_is_awaited_witness :
  let l := [(idle_env, new_objective); (idle_env, finished)] in
  g_status (deref (steps start l) 0) = verifying ∧ ∃ j, j ∈ jobs (steps start l) ∧ boundary_job j 0.
Proof.
  intros l. assert (g_status (deref (steps start l) 0) = verifying) as H by (vm_compute; done). split; [exact H|].
  apply (verifying_is_awaited idle_env GoalPrompt.sample_store l 0); [|exact H].
  intros l1 env n out l2 j E _. exfalso. assert ((env, c_settle n out) ∈ l) as Hin by (rewrite E; apply elem_of_app; right; by left).
  apply elem_of_cons in Hin as [Hin|Hin]; [by injection Hin|]. apply list_elem_of_singleton in Hin. by injection Hin.
Defined.

(** ** Surprises *)

(** Operations that return, and touch neither effects, awaited calls, cores nor the record of
    the result that was consumed. *)
Definition consumed (g : AiraGoalState) : option jsstr * option jsstr := (g_lastResultId g, g_lastRevisionId g).
Definition still (m m' : AiraGoalManager) : Prop :=
  effects m' = effects m ∧ jobs m' = jobs m
  ∧ ∀ o, core (deref m' o) = core (deref m o) ∧ consumed (deref m' o) = consumed (deref m o)
         ∧ (is_Some (heap m !! o) → is_Some (heap m' !! o)).
Definition calm (k : M ()) : Prop := ∀ m, ∃ m', k m = (m', Ok ()) ∧ still m m'.

Lemma still_trans a b c : still a b → still b c → still a c.
Proof. intros (H1 & H2 & H3) (H4 & H5 & H6). split_and!; [congruence..|]. intros o. destruct (H3 o) as (?&?&?), (H6 o) as (?&?&?). split_and!; [congruence..|auto]. Qed.

Lemma calm_bind k1 k2 : calm k1 → calm k2 → calm (k1;; k2).
Proof.
  intros H1 H2 m. destruct (H1 m) as (m1 & E1 & S1). destruct (H2 m1) as (m2 & E2 & S2). exists m2.
  rewrite stres_bind_eq, E1. split; [exact E2|by eapply still_trans].
Qed.
Lemma calm_ret : calm (mret ()).
Proof. intros m. exists m. done. Qed.
Lemma calm_modify f : (∀ m, effects (f m) = effects m ∧ jobs (f m) = jobs m ∧ heap (f m) = heap m) → calm (modify f).
Proof. intros H m. exists (f m). split; [done|]. destruct (H m) as (E1 & E2 & E3). split_and!; [done..|]. intros o. unfold deref. by rewrite E3. Qed.
Lemma calm_upd o f : (∀ g, core (f g) = core g ∧ consumed (f g) = consumed g) → calm (upd o f).
Proof.
  intros H m. eexists. split; [done|]. split; [done|]. split; [done|]. intros o'.
  change ((upd o f m).1) with (m <| heap := alter f o (heap m) |>). rewrite deref_update.
  pose proof (proj2 (lookup_alter_is_Some f (heap m) o o')) as Hs. case_bool_decide as Hc; [|by split_and!].
  destruct Hc as [-> _]. destruct (H (deref m o)). by split_and!.
Qed.
Lemma calm_setEvent env o e : calm (setEvent env o e).
Proof. by apply calm_upd. Qed.
Lemma calm_publish env : calm (publish env).
Proof. by apply calm_modify. Qed.
Lemma calm_persistGoal env o : calm (persistGoal env o).
Proof. apply calm_modify. intros m. by destruct (GoalPrompt.save _ _ _). Qed.
Lemma calm_commit env o : calm (commitChildUsage env o).
Proof. unfold commitChildUsage. case_match; [by apply calm_upd|apply calm_ret]. Qed.
Lemma calm_track o r : calm (trackVerifierTokens o r).
Proof. unfold trackVerifierTokens. repeat case_match; first [by apply calm_upd|apply calm_ret]. Qed.
Lemma calm_repairContext o c : calm (set_repairContext o c).
Proof. by apply calm_upd. Qed.

(** A PASS at a boundary: it is consumed, and the goal completes or the transition is refused. *)
Lemma boundary_pass env o r note m :
  VerifyTypes.r_verdict r = VerifyTypes.pass → is_Some (heap m !! o) →
  ∃ m', boundary_result env o (Some r) note m
        = (m', match airaGoalTransitionError (g_status (deref m o)) completed (js "verification PASS") with
               | None => Ok () | Some e => Err e end)
    ∧ effects m' = effects m ∧ jobs m' = jobs m
    ∧ consumed (deref m' o) = (Some (VerifyTypes.id r), Some (VerifyTypes.revisionId r))
    ∧ g_status (deref m' o) = match airaGoalTransitionError (g_status (deref m o)) completed (js "verification PASS") with
                              | None => completed | Some _ => g_status (deref m o) end.
Proof.
  intros Hp Ho. unfold boundary_result, consume. rewrite Hp. unfold upd at 1. rewrite stres_bind_eq, bind_modify.
  set (m1 := m <| heap := _ |>).
  assert (core (deref m1 o) = core (deref m o) ∧ consumed (deref m1 o) = (Some (VerifyTypes.id r), Some (VerifyTypes.revisionId r))) as [Hc1 Hd1].
  { subst m1. rewrite deref_update, bool_decide_eq_true_2 by done. done. }
  destruct (calm_bind _ _ (calm_track o r) (calm_commit env o) m1) as (m2 & -> & E2 & J2 & H2). cbv beta iota.
  destruct (calm_repairContext o None m2) as (m3 & E & E3 & J3 & H3). rewrite stres_bind_eq, E. clear E. cbv beta iota.
  unfold complete. rewrite stres_bind_eq. unfold transition. rewrite bind_obj.
  destruct (H2 o) as (C2 & D2 & S2), (H3 o) as (C3 & D3 & S3).
  change (effects m1) with (effects m) in E2. change (jobs m1) with (jobs m) in J2.
  assert (is_Some (heap m3 !! o)) as Ho3 by (apply S3, S2; cbn; by rewrite lookup_alter_is_Some).
  assert (g_status (deref m3 o) = g_status (deref m o)) as Hst by (unfold core in *; congruence). rewrite Hst.
  destruct (airaGoalTransitionError _ _ _) as [e|].
  { exists m3. split; [done|]. split_and!; [congruence|congruence|congruence|done]. }
  unfold upd at 1. cbn [modify]. unfold upd at 1. rewrite bind_modify.
  set (m3' := m3 <| heap := _ |>). set (m4 := m3' <| heap := _ |>).
  destruct (calm_bind _ _ (calm_setEvent env o (js "verification PASS — goal completed"))
              (calm_bind _ _ (calm_persistGoal env o) (calm_publish env)) m4) as (m5 & -> & E5 & J5 & H5).
  exists m5. split; [done|]. destruct (H5 o) as (C5 & D5 & _).
  assert (deref m4 o = deref m3 o <| g_status := completed |> <| g_updatedAt := now env |> <| g_completedAt := Some (now env) |>
                         <| g_stopReason := None |> <| g_waiting := None |>) as Hd.
  { subst m4. rewrite deref_update, bool_decide_eq_true_2 by (split; [done|cbn; by rewrite lookup_alter_is_Some]).
    subst m3'. by rewrite deref_update, bool_decide_eq_true_2. }
  rewrite Hd in C5, D5. change (effects m4) with (effects m3) in E5. change (jobs m4) with (jobs m3) in J5.
  change (consumed (deref m5 o) = consumed (deref m3 o)) in D5. split_and!; [congruence..|].
  unfold core in C5. cbn in C5. congruence.
Qed.

Lemma fresh_none env g r :
  current_result env = Some r → consumed g = (Some (VerifyTypes.id r), Some (VerifyTypes.revisionId r)) →
  freshVerificationResult env g = None.
Proof. intros Hr [= H1 H2]. unfold freshVerificationResult. by rewrite Hr, H1, H2, !bool_decide_eq_true_2. Qed.

(** A PASS that arrives after the goal was stopped, cancelled or made to wait is lost: when the boundary
    resumes with a fresh PASS on an object whose status cannot complete, the transition throws, so that the
    promise of the boundary is rejected; the status stays, but the result is recorded as consumed and the
    next boundary will not see it again. *)
Theorem pass_after_stop_is_lost env n out m o note r
  (Hj : jobs m !! n = Some (j_boundary o note)) (Ho : is_Some (heap m !! o))
  (Hr : freshVerificationResult env (deref m o) = Some r) (Hp : VerifyTypes.r_verdict r = VerifyTypes.pass)
  (Hs : g_status (deref m o) ∈ [paused; waiting; cancelled; budget_limited; error]) :
  ∃ m' e, run env (c_settle n out) m = (m', Err e) ∧ g_status (deref m' o) = g_status (deref m o)
          ∧ freshVerificationResult env (deref m' o) = None.
Proof.
  cbn [run]. rewrite stres_bind_eq. cbn [get]. rewrite Hj. rewrite bind_modify. set (m0 := m <| jobs := delete n (jobs m) |>).
  assert (resume_job env (j_boundary o note) out m0 = boundary_result env o (freshVerificationResult env (deref m o)) note m0) as ->
    by (by destruct out). rewrite Hr.
  destruct (boundary_pass env o r note m0 Hp Ho) as (m' & -> & _ & _ & Hc & Hst).
  change (deref m0 o) with (deref m o) in *. exists m'. apply fresh_current in Hr.
  destruct (airaGoalTransitionError (g_status (deref m o)) completed (js "verification PASS")) as [e|] eqn:E.
  - exists e. split; [done|]. split; [exact Hst|]. by apply (fresh_none env _ r).
  - exfalso. apply transition_error in E. revert Hs E. rewrite !elem_of_cons, elem_of_nil.
    intros [->|[->|[->|[->|[->|[]]]]]] [E|E]; try discriminate; revert E; by apply (bool_decide_unpack _).
Qed.

Definition stopped_while_verifying : AiraGoalManager :=
  steps start [(idle_env, new_objective); (idle_env, finished); (idle_env, c_stop); (pass_env, c_settle 0 (resolved true))].

(** [/goal stop] during the verification that then passes. *)
Lemma pass_after_stop_is_lost_witness :
  ∃ m' e, run pass_env (c_settle 0 (resolved true)) stopped_while_verifying = (m', Err e)
          ∧ g_status (deref m' 0) = paused ∧ freshVerificationResult pass_env (deref m' 0) = None.
Proof.
  assert (g_status (deref stopped_while_verifying 0) = paused) as Hs by (vm_compute; done).
  destruct (pass_after_stop_is_lost pass_env 0 (resolved true) stopped_while_verifying 0 None (sample_result "p" VerifyTypes.pass []))
    as (m' & e & H1 & H2 & H3).
  - vm_compute. done.
  - apply (bool_decide_unpack _). vm_compute. done.
  - vm_compute. done.
  - done.
  - rewrite Hs. by left.
  - exists m', e. split; [exact H1|]. split; [by rewrite H2|exact H3].
Defined.

(** A goal completes on a verdict that is not about it: an object that has consumed no result yet, as
    every new or recovered goal has not, is completed by the end of the first run of the agent if the
    session still holds a PASS, however old and whether or not it is marked stale; the verifier is not
    called, and nothing is awaited. *)
Theorem unrelated_pass_completes env m o ms r
  (Hd : disposed m = false) (Hg : goal m = Some o) (Ho : is_Some (heap m !! o))
  (Hst : g_status (deref m o) = active) (Hfirst : g_lastResultId (deref m o) = None)
  (Hmode : mode env ≠ plan) (Hr : current_result env = Some r) (Hp : VerifyTypes.r_verdict r = VerifyTypes.pass)
  (Hend : lastAssistantStopReason ms ∉ [Some (js "aborted"); Some (js "error")]) :
  ∃ m', run env (c_event (agent_end ms false)) m = (m', Ok ()) ∧ g_status (deref m' o) = completed
        ∧ jobs m' = jobs m ∧ effects m' = effects m ++ [e_ownership_event (agent_end ms false)].
Proof.
  cbn [run]. unfold applyAgentEvent. rewrite stres_bind_eq. cbn [get]. rewrite Hd. unfold emit. rewrite bind_modify.
  set (m1 := m <| effects := _ |>). unfold onAgentEnd. rewrite stres_bind_eq. cbn [get].
  change (goal m1) with (goal m). rewrite Hg. change (deref m1 o) with (deref m o). rewrite Hst. cbn [negb]. cbv zeta.
  replace (running active) with true by done. cbn [negb].
  rewrite !bool_decide_eq_false_2 by (intros E; apply Hend; rewrite E; first [by left|by right; left]).
  unfold upd at 1. rewrite bind_modify. set (m2 := m1 <| heap := _ |>).
  assert (core (deref m2 o) = core (deref m o) ∧ consumed (deref m2 o) = consumed (deref m o) ∧ is_Some (heap m2 !! o)) as (Hc2 & Hd2 & Ho2).
  { subst m2. rewrite deref_update, bool_decide_eq_true_2 by done. cbn. by rewrite lookup_alter_is_Some. }
  unfold handleBoundary. rewrite bind_obj. assert (g_status (deref m2 o) = active) as -> by (unfold core in Hc2; congruence).
  rewrite (bool_decide_eq_true_2 (active = active)) by done. cbn [negb orb].
  destruct (calm_commit env o m2) as (m3 & E & E3 & J3 & H3). rewrite stres_bind_eq, E. clear E. cbv iota.
  rewrite (bool_decide_eq_false_2 (mode env = plan)) by done. rewrite bind_obj.
  destruct (H3 o) as (C3 & D3 & S3). assert (freshVerificationResult env (deref m3 o) = Some r) as ->.
  { unfold freshVerificationResult. rewrite Hr. rewrite bool_decide_eq_false_2; [done|]. unfold consumed in *. congruence. }
  destruct (boundary_pass env o r None m3 Hp (S3 Ho2)) as (m' & -> & E' & J' & _ & Hst').
  assert (g_status (deref m3 o) = active) as Ha by (unfold core in *; congruence). rewrite Ha in Hst' |- *.
  change (jobs m2) with (jobs m) in J3. change (effects m2) with (effects m ++ [e_ownership_event (agent_end ms false)]) in E3.
  exists m'. split; [done|]. split; [exact Hst'|]. split; congruence.
Qed.

(** A goal is created while the session still holds an old, stale PASS. *)
Lemma unrelated_pass_completes_witness :
  let m := steps start [(pass_env, new_objective)] in
  ∃ m', run pass_env finished m = (m', Ok ()) ∧ g_status (deref m' 0) = completed
        ∧ jobs m' = [] ∧ VerifyTypes.r_stale (sample_result "p" VerifyTypes.pass []) = true.
Proof.
  intros m. destruct (unrelated_pass_completes pass_env m 0 [m_assistant (Some (js "stop"))] (sample_result "p" VerifyTypes.pass []))
    as (m' & H1 & H2 & H3 & _).
  - vm_compute. reflexivity.
  - vm_compute. reflexivity.
  - apply (bool_decide_unpack _). vm_compute. exact I.
  - vm_compute. reflexivity.
  - vm_compute. reflexivity.
  - discriminate.
  - reflexivity.
  - reflexivity.
  - apply (bool_decide_unpack _). vm_compute. exact I.
  - exists m'. split; [exact H1|]. split; [exact H2|]. split; [rewrite H3; by vm_compute|done].
Defined.

(** [/goal cancel] on a goal that ended at a bound or in an error neither cancels nor refuses: the
    guards only name [cancelled] and [completed], and the transition throws out of the command. *)
Theorem cancel_of_ended_throws env m o
  (Hd : disposed m = false) (Hg : goal m = Some o) (Hs : g_status (deref m o) ∈ [budget_limited; error]) :
  ∃ e, cancel env m = (m, Err e).
Proof.
  unfold cancel. rewrite stres_bind_eq. cbn [get]. rewrite Hd, Hg. cbv zeta.
  apply elem_of_cons in Hs as [E|E%list_elem_of_singleton]; rewrite E; cbn [bool_decide decide_rel];
    repeat (rewrite bool_decide_eq_false_2 by done);
    rewrite stres_bind_eq; (destruct (transition_cases env o cancelled "user cancel" m) as [[e ->]|[_ Ht]];
    [by eexists|exfalso; rewrite E in Ht; revert Ht; by apply (bool_decide_unpack _)]).
Qed.

(** A goal that reached its bound of one round. *)
Lemma cancel_of_ended_throws_witness :
  ∃ e, cancel idle_env (steps start [(idle_env, new_objective); (fail_env "a" 1, finished)])
       = (steps start [(idle_env, new_objective); (fail_env "a" 1, finished)], Err e).
Proof.
  apply (cancel_of_ended_throws idle_env _ 0); [by vm_compute|by vm_compute|].
  assert (g_status (deref (steps start [(idle_env, new_objective); (fail_env "a" 1, finished)]) 0) = budget_limited) as ->
    by (vm_compute; done).
  by left.
Defined.

(** [/goal resume] sends a continuation in PLAN mode, where the boundary sends none. *)
Lemma plan_mode_resume_continues :
  let m := steps start [(idle_env, new_objective); (fail_env "a" 4, finished); (idle_env, c_stop)] in
  let plan_env := sample_env plan 4 None in
  first m = (paused, 2)
  ∧ first (step m (plan_env, c_resume)) = (repairing, 3) ∧ sends 0 (step m (plan_env, c_resume)) = sends 0 m + 1.
Proof. vm_compute. done. Qed.

Definition asks (st : interaction_state) : call :=
  c_interaction {| ic_type := t_semantic; ic_state := st; ic_prompt := js "which database?" |}.
Definition inconclusive_env : Env := sample_env build 4 (Some (sample_result "i" VerifyTypes.inconclusive [js "a screenshot"])).

(** A wait for evidence is ended by an answer to an unrelated question, once an earlier wait for
    an interaction was ended by the user: the mark of that wait is never cleared. *)
Lemma evidence_wait_ended_by_an_answer :
  let m0 := steps start [(idle_env, new_objective)] in
  let old := steps m0 [(idle_env, asks i_pending); (idle_env, c_resume)] in
  let wait m := step m (inconclusive_env, finished) in
  first (wait m0) = (waiting, 1) ∧ first (step (wait m0) (idle_env, asks i_answered)) = (waiting, 1)
  ∧ first (wait old) = (waiting, 1) ∧ first (step (wait old) (idle_env, asks i_answered)) = (active, 1).
Proof. vm_compute. done. Qed.

(** A boundary that outlives its goal writes the old object over the file of the new goal. *)
Lemma old_boundary_overwrites_the_file :
  let m := steps start [(idle_env, new_objective); (idle_env, finished); (idle_env, c_stop); (idle_env, c_clear);
                        (idle_env, c_create (js "write the exporter")); (idle_env, c_settle 0 (resolved true));
                        (idle_env, c_settle 0 (resolved true))] in
  goal m = Some 1%nat
  ∧ match GoalPrompt.st_file (persistence m) with
    | GoalPrompt.stored_goal g => GoalPrompt.p_objective <$> GoalPrompt.g_goal g
    | _ => None end = Some (js "build the importer").
Proof. vm_compute. done. Qed.

(** A rejected verification leaves the goal verifying: later runs and messages do nothing, until [/goal stop]. *)
Lemma rejected_verification_sticks :
  let m := steps start [(idle_env, new_objective); (idle_env, finished); (idle_env, c_settle 0 (rejected (js "disk")))] in
  (first m, jobs m) = ((verifying, 1), [])
  ∧ first (steps m [(pass_env, finished); (pass_env, c_event (message_start_user (c_string (js "go on")))); (pass_env, finished)])
    = (verifying, 1)
  ∧ first (step m (idle_env, c_stop)) = (paused, 1).
Proof. vm_compute. done. Qed.

End GoalLiveness.
