(* ===== verification/VerifyManager.v ===== *)
(** * The verification manager

    Models [aira/verification/manager.ts].  Every [await] ends a synchronous step and leaves a
    [job]; any call and any awaited call that settles is the next step, run by [run].  The
    current result is kept by value in the snapshot: the only fields that change once it is
    there are [stale] and [staleReason], and only through the snapshot. *)
From S2P Require Import Prelude JsMap JsString OrchTypes Capabilities Policy Ownership VerifyTypes VerifyPolicy Verifier Evidence GoalData.

Module VerifyManager.
Import VerifyTypes VerifyPolicy.
Notation AiraMode := Capabilities.AiraMode.
#[local] Existing Instances Capabilities.AiraMode_eq_dec GoalData.AiraGoalStatus_eq_dec Evidence.live_status_eq_dec.

Definition MTIME_DRIFT_TOLERANCE_MS : Z := 50.
Definition MAX_CHANGE_SET_FILES : Z := 200.
Definition MAX_OBJECTIVE_CHARS : Z := 4000.
Definition MAX_EDITED_PATHS : Z := 200.

#[export] Instance AiraVerificationResult_rebuild : Rebuild AiraVerificationResult := λ r,
  Build_AiraVerificationResult (id r) (revisionId r) (r_verdict r) (summary r) (r_mode r) (objective r) (requirements r)
    (findings r) (r_evidence r) (missingEvidence r) (scopeAssessment r) (confidence r) (tokenUsage r) (startedAt r)
    (completedAt r) (r_stale r) (staleReason r).
#[export] Instance AiraVerificationStatus_rebuild : Rebuild AiraVerificationStatus := λ s,
  Build_AiraVerificationStatus (status s) (enabled s) (auto s) (contextBudget s) (currentResult s) (requirementsTotal s)
    (requirementsVerified s) (highestFinding s) (stale s) (s_missingEvidence s) (lastError s) (lastFailureKind s)
    (lastSkipReason s) (toolBudgetUsed s) (toolBudgetLimit s) (toolBudgetExtensions s) (s_startedAt s) (s_completedAt s) (updatedAt s).

(** ** Data *)

(** What is constant: the options, and whether the workspace ownership guard is there. *)
Record Options := { cwd : jsstr; timeoutMs : option Z; maxChangeSetFiles : option Z; has_ownership : bool }.

(** What the manager reads during one synchronous step: the settings, the session state, the
    clock, a random UUID and the modification times of files (whole milliseconds). *)
Record Env := {
  now : Z; uuid : jsstr; settings : AiraVerificationSettings; runtime_active : bool; mode : AiraMode;
  intelligence : option Evidence.AiraIntelligenceStatus; execution : option (list Evidence.AiraExecutionResultSummary);
  browser : option Evidence.AiraBrowserStatus; goal_status : option GoalData.AiraGoalStatus; fileMtimeMs : jsstr → option Z }.

Record RunScope := {
  edits : list (jsstr * AiraChangeFile); executionBaseline : Z; browserWork : bool; scope_active : bool }.
#[export] Instance RunScope_rebuild : Rebuild RunScope := λ s,
  Build_RunScope (edits s) (executionBaseline s) (browserWork s) (scope_active s).

(** The content of a message: each block of an array is its text, or none. *)
Inductive content := c_string (s : jsstr) | c_blocks (blocks : list (option jsstr)) | c_other.
Inductive run_message := m_user (c : content) | m_other.
(** [path]: the argument of that name, if it is a string. *)
Inductive AgentEvent :=
| turn_start | tool_execution_start (toolName toolCallId : jsstr) (path : option jsstr)
| tool_execution_end (toolName toolCallId : jsstr) (isError : bool) | agent_end (messages : list run_message) | other_event.

Inductive request_outcome := o_ran | o_reused | o_skipped | o_held | o_disabled | o_refused | o_failed.
#[export] Instance request_outcome_eq_dec : EqDecision request_outcome.
Proof. solve_decision. Defined.
Record AiraVerifyRequestResult := {
  ok : bool; outcome : request_outcome; reason : option jsstr; result : option AiraVerificationResult }.

(** Who awaits: the [n]-th call of [verify], or the end of a run. *)
Inductive caller := by_verify (n : nat) | by_agent_end.

Record run_data := {
  rn_caller : caller; rn_files : list AiraChangeFile; rn_revisionId : jsstr; rn_objective : jsstr; rn_mode : AiraMode; rn_startedAt : Z }.

(** What awaits the change set: [verify] with its options, the end of a run with the objective
    and the settings it read, and the fence with the result. *)
Inductive continuation :=
| k_verify (n : nat) (force : bool) (objective : option jsstr)
| k_agent_end (auto : AiraVerificationAutoSetting) (objective : option jsstr)
| k_fence (run : run_data) (r : AiraVerificationResult).

Inductive job :=
| j_seam (k : continuation)                                             (** [changeSeam] *)
| j_classify (files : list AiraChangeFile) (k : continuation)           (** [ownership.classify] *)
| j_collected (files : list AiraChangeFile + jsstr) (k : continuation)  (** [collectChangeFiles] has ended *)
| j_runtime (run : run_data) (envelope : jsstr)                         (** [runtime] *)
| j_runner (run : run_data)                                             (** the verifier *).

(** How an awaited call settles; a runtime is there with its model or not. *)
Inductive settlement :=
| s_files (files : option (list AiraChangeFile)) | s_observation (ob : Ownership.AiraWorkspaceOwnershipObservation)
| s_return | s_runtime (has_model : bool) | s_outcome (o : Verifier.AiraVerifierOutcome) | s_rejected (e : jsstr).

Inductive effect := e_run (envelope : jsstr) (timeout maxToolRounds : Z) (signal : nat) | e_abort (signal : nat).

Record Manager := {
  snapshot : AiraVerificationStatus; state_verification : option AiraVerificationStatus;
  listeners : list nat; delivered : list (nat * AiraVerificationStatus);
  runScope : RunScope; pendingEditPaths : list (jsstr * jsstr); lastChangeFiles : list AiraChangeFile;
  lastWorkspaceObservation : option Ownership.AiraWorkspaceOwnershipObservation; lastObjective : jsstr;
  abort : option nat; inFlight : bool; disposed : bool; runCounter : nat;
  verifyCalls : nat; jobs : list job; effects : list effect;
  answers : list (caller * (AiraVerifyRequestResult + jsstr))  (** latest last; a rejection is a text *) }.
#[export] Instance Manager_rebuild : Rebuild Manager := λ m,
  Build_Manager (snapshot m) (state_verification m) (listeners m) (delivered m) (runScope m) (pendingEditPaths m)
    (lastChangeFiles m) (lastWorkspaceObservation m) (lastObjective m) (abort m) (inFlight m) (disposed m) (runCounter m)
    (verifyCalls m) (jobs m) (effects m) (answers m).

(** ** Helpers of the module *)

(** [path.join(a, b)] *)
Definition path_join (a b : jsstr) : jsstr := Policy.normalize (join [Policy.slash] (filter (λ s, s ≠ []) [a; b])).

Definition is_drive_letter (u : Z) : bool := ((97 <=? u) && (u <=? 122)) || ((65 <=? u) && (u <=? 90)).
(** [/^[a-zA-Z]:[\\/]/.test(path)] *)
Definition drive_path (p : jsstr) : bool :=
  match p with u :: c :: s :: _ => is_drive_letter u && (c =? 58) && ((s =? 92) || (s =? 47)) | _ => false end.

Definition toRelative (cwd path : jsstr) : option jsstr :=
  let absolute := if startsWith (js "/") path || drive_path path then path else path_join cwd path in
  let normalized := Ownership.backslash_to_slash absolute in
  let cwdNormalized := Ownership.backslash_to_slash cwd ++ js "/" in
  if negb (startsWith cwdNormalized normalized) then None
  else match slice_from (zlen cwdNormalized) normalized with [] => None | rel => Some rel end.

Definition messageText (c : content) : jsstr :=
  match c with c_string s => trim s | c_blocks blocks => trim (join [10] (omap (λ b, b) blocks)) | c_other => [] end.

Fixpoint last_user (rev_messages : list run_message) (max : Z) : option jsstr :=
  match rev_messages with
  | [] => None
  | m_user c :: l => match messageText c with [] => last_user l max | text => Some (Evidence.boundedText text max) end
  | m_other :: l => last_user l max
  end.
Definition lastUserMessageText (messages : list run_message) (max : Z) : option jsstr := last_user (rev messages) max.

Definition changeSetChanged (current previous : list AiraChangeFile) : bool :=
  negb (zlen current =? zlen previous)
  || existsb (λ f, negb (bool_decide (Ownership.path f ∈ Ownership.path <$> previous))) current.

Definition diagnosticsClean (i : option Evidence.AiraIntelligenceStatus) : option bool :=
  match i with
  | None => None
  | Some s =>
      if negb (Evidence.in_active s) then None
      else if 0 <? Evidence.in_stale s then None
      else if (0 <? Evidence.in_errors s) || (0 <? Evidence.in_warnings s) then Some false
      else if bool_decide (Evidence.in_live s = Evidence.live_ready) then Some true else None
  end.

Definition verdictState (v : AiraVerificationVerdict) : AiraVerificationStatusState :=
  match v with pass => passed | fail => failed | inconclusive => st_inconclusive end.

Definition order (s : AiraFindingSeverity) : Z := match s with blocking => 0 | warning => 1 | info => 2 end.
Definition highestFindingOf (findings : list AiraVerificationFinding) : option AiraVerificationFinding :=
  head (sort_by (λ a b, order (severity a) <=? order (severity b)) findings).

Definition verifierResultId (counter : nat) (uuid : jsstr) : jsstr :=
  js "v-" ++ radix36 (Z.of_nat counter) ++ js "-" ++ slice0 8 uuid.

Definition max_files (o : Options) : Z := default MAX_CHANGE_SET_FILES (maxChangeSetFiles o).

(** The two loops of [collectChangeFiles]; a [Map] keeps the order of first insertion. *)
Fixpoint merge_seam (max : Z) (merged : list (jsstr * AiraChangeFile)) (l : list AiraChangeFile) : list (jsstr * AiraChangeFile) :=
  match l with
  | [] => merged
  | f :: l => if max <=? zlen merged then merged else merge_seam max (mset (Ownership.path f) f merged) l
  end.
Fixpoint merge_edits (max : Z) (merged : list (jsstr * AiraChangeFile)) (l : list jsstr) : list (jsstr * AiraChangeFile) :=
  match l with
  | [] => merged
  | rel :: l =>
      if max <=? zlen merged then merged
      else merge_edits max (match mget rel merged with Some _ => merged | None => mset rel (Evidence.edited_entry rel) merged end) l
  end.

Definition goal_running (s : option GoalData.AiraGoalStatus) : bool :=
  bool_decide (s ∈ [Some GoalData.active; Some GoalData.repairing; Some GoalData.verifying]).

Section Manager.
(** [createHash("sha1").update(…).digest("base64url")] of the text that was fed to it. *)
Context (sha1_base64url : jsstr → jsstr).
Context (o : Options) (env : Env).

Definition revision_line (f : AiraChangeFile) : jsstr :=
  let mtime := match fileMtimeMs env (path_join (cwd o) (Ownership.path f)) with Some t => num_str t | None => js "missing" end in
  Ownership.status_text (Ownership.status f) ++ [0] ++ Ownership.path f ++ [0] ++ mtime ++ [0]
  ++ num_str (Ownership.added_lines f) ++ [0] ++ num_str (Ownership.deleted_lines f) ++ [1].
Definition computeRevisionId (files : list AiraChangeFile) : jsstr :=
  let sorted := sort_by (λ a b, str_ltb (Ownership.path a) (Ownership.path b)) (take (Z.to_nat MAX_CHANGE_SET_FILES) files) in
  slice0 16 (sha1_base64url (mjoin (revision_line <$> sorted))).

Definition publish (m : Manager) : Manager :=
  let sn := snapshot m <| updatedAt := now env |>
                       <| stale := match currentResult (snapshot m) with Some r => r_stale r | None => false end |> in
  m <| snapshot := sn |> <| state_verification := Some sn |> <| delivered := delivered m ++ ((λ l, (l, sn)) <$> listeners m) |>.

Definition construct : Manager :=
  {| snapshot := initialAiraVerificationStatus (now env) (settings env); state_verification := None; listeners := []; delivered := [];
     runScope := {| edits := []; executionBaseline := 0; browserWork := false; scope_active := false |};
     pendingEditPaths := []; lastChangeFiles := []; lastWorkspaceObservation := None; lastObjective := []; abort := None;
     inFlight := false; disposed := false; runCounter := 0; verifyCalls := 0; jobs := []; effects := []; answers := [] |}.
Definition activate (m : Manager) : Manager := if disposed m then m else publish m.
Definition createAiraVerificationManager : Manager := activate construct.

Definition await (j : job) (m : Manager) : Manager := m <| jobs := jobs m ++ [j] |>.
Definition answer (c : caller) (a : AiraVerifyRequestResult) (m : Manager) : Manager := m <| answers := answers m ++ [(c, inl a)] |>.
Definition reject (c : caller) (e : jsstr) (m : Manager) : Manager := m <| answers := answers m ++ [(c, inr e)] |>.
Definition not_ok (out : request_outcome) (why : jsstr) : AiraVerifyRequestResult :=
  {| ok := false; outcome := out; reason := Some why; result := None |}.

Definition set_current (r : AiraVerificationResult) (m : Manager) : Manager :=
  m <| snapshot := snapshot m <| currentResult := Some r |> |>.

Definition invalidateResult (why : jsstr) (m : Manager) : Manager :=
  match currentResult (snapshot m) with
  | Some r => if r_stale r then m else publish (set_current (r <| r_stale := true |> <| staleReason := Some why |>) m)
  | None => m
  end.

(** The reason the first changed file that drifted gives. *)
Fixpoint drift (completed : Z) (files : list AiraChangeFile) : option jsstr :=
  match files with
  | [] => None
  | f :: files =>
      match fileMtimeMs env (path_join (cwd o) (Ownership.path f)) with
      | None => Some (js "changed file removed: " ++ Ownership.path f)
      | Some mtime => if completed + MTIME_DRIFT_TOLERANCE_MS <? mtime
                      then Some (js "changed file edited after verification: " ++ Ownership.path f)
                      else drift completed files
      end
  end.
Definition refreshStaleness (m : Manager) : Manager :=
  match currentResult (snapshot m) with
  | Some r =>
      if r_stale r then m
      else match drift (completedAt r) (lastChangeFiles m) with
           | Some why => publish (set_current (r <| r_stale := true |> <| staleReason := Some why |>) m)
           | None => m
           end
  | None => m
  end.

(** ** Collecting the change set *)

Definition collectChangeFiles (k : continuation) (m : Manager) : Manager := await (j_seam k) m.

Definition after_seam (seamFiles : option (list AiraChangeFile)) (k : continuation) (m : Manager) : Manager :=
  let merged := merge_edits (max_files o) (merge_seam (max_files o) [] (default [] seamFiles)) (fst <$> edits (runScope m)) in
  let files := snd <$> merged in
  if has_ownership o then await (j_classify files k) m else await (j_collected (inl files) k) m.

Definition after_classify (ob : Ownership.AiraWorkspaceOwnershipObservation) (files : list AiraChangeFile) (k : continuation) (m : Manager)
    : Manager :=
  await (j_collected (inl (if goal_running (goal_status env) then Ownership.ob_owned ob else files)) k)
    (m <| lastWorkspaceObservation := Some ob |>).

(** ** A run *)

Definition failRun (why : jsstr) (kind : AiraVerifierFailureKind) (m : Manager) : Manager :=
  publish (m <| snapshot := snapshot m <| status := st_inconclusive |> <| lastError := Some why |> <| lastFailureKind := Some kind |>
                                     <| s_completedAt := Some (now env) |> <| updatedAt := now env |> |>).

(** [finally] *)
Definition settle_run (c : caller) (a : AiraVerifyRequestResult) (m : Manager) : Manager := answer c a (m <| inFlight := false |>).
Definition run_throws (run : run_data) (e : jsstr) (m : Manager) : Manager :=
  settle_run (rn_caller run) (not_ok o_failed e) (failRun e vf_internal (m <| abort := None |>)).

Definition runVerification (c : caller) (files : list AiraChangeFile) (revisionId objective : jsstr) (md : AiraMode) (m : Manager) : Manager :=
  if inFlight m then answer c (not_ok o_held (js "verification already running")) m
  else
    let m := m <| inFlight := true |> <| lastChangeFiles := files |> <| runCounter := S (runCounter m) |> in
    let m := publish (m <| snapshot := snapshot m <| status := preparing |> <| lastError := None |> <| lastFailureKind := None |>
                                                <| lastSkipReason := None |> <| s_startedAt := Some (now env) |>
                                                <| updatedAt := now env |> |>) in
    let bundle := Evidence.buildVerificationEvidence
      {| Evidence.objective := Evidence.boundedText objective MAX_OBJECTIVE_CHARS; Evidence.mode := md;
         Evidence.changeFiles := match files with [] => None | _ => Some files end;
         Evidence.editedPaths := take (Z.to_nat MAX_EDITED_PATHS) (fst <$> edits (runScope m));
         Evidence.intelligence := intelligence env; Evidence.execution := execution env; Evidence.browser := browser env;
         Evidence.workspace := lastWorkspaceObservation m; Evidence.contextBudget := set_contextBudget (settings env) |} in
    let envelope := Evidence.buildVerifierEnvelope bundle in
    let m := publish (m <| snapshot := snapshot m <| status := running |> <| updatedAt := now env |> |>) in
    await (j_runtime {| rn_caller := c; rn_files := files; rn_revisionId := revisionId; rn_objective := objective; rn_mode := md;
                        rn_startedAt := now env |} envelope) m.

Definition after_runtime (run : run_data) (envelope : jsstr) (has_model : bool) (m : Manager) : Manager :=
  if negb has_model then
    settle_run (rn_caller run) (not_ok o_failed (js "verifier model unavailable"))
      (failRun (js "verifier model unavailable (no model/auth configured)") vf_configuration m)
  else
    let m := m <| abort := Some (runCounter m) |> in
    await (j_runner run)
      (m <| effects := effects m ++ [e_run envelope (default 180000 (timeoutMs o)) 8 (runCounter m)] |>).

Definition set_budget (t : Verifier.telemetry) (m : Manager) : Manager :=
  match t with
  | None => m
  | Some (used, limit, ext) =>
      publish (m <| snapshot := snapshot m <| toolBudgetUsed := Some used |> <| toolBudgetLimit := Some limit |>
                                         <| toolBudgetExtensions := Some ext |> <| updatedAt := now env |> |>)
  end.

Definition result_of (run : run_data) (v : AiraVerifierModelVerdict) (usage : option AiraChildTokenUsage) (m : Manager)
    : AiraVerificationResult :=
  {| id := verifierResultId (runCounter m) (uuid env); revisionId := rn_revisionId run; r_verdict := mv_verdict v;
     summary := mv_summary v; r_mode := rn_mode run; objective := Evidence.boundedText (rn_objective run) MAX_OBJECTIVE_CHARS;
     requirements := mv_requirements v; findings := mv_findings v; r_evidence := mv_evidence v;
     missingEvidence := mv_missingEvidence v; scopeAssessment := mv_scopeAssessment v; confidence := mv_confidence v;
     tokenUsage := usage; startedAt := rn_startedAt run; completedAt := now env; r_stale := false; staleReason := None |}.

Definition after_runner (run : run_data) (out : Verifier.AiraVerifierOutcome) (m : Manager) : Manager :=
  match out with
  | Verifier.v_fail driverError kind budget =>
      settle_run (rn_caller run) (not_ok o_failed driverError)
        (failRun driverError kind (set_budget budget m <| abort := None |>))
  | Verifier.v_ok v usage budget =>
      let m := set_budget budget m <| abort := None |> in
      collectChangeFiles (k_fence run (result_of run v usage m)) m
  end.

Definition after_fence (run : run_data) (r : AiraVerificationResult) (driftedFiles : list AiraChangeFile) (m : Manager) : Manager :=
  let revisionAfter := computeRevisionId driftedFiles in
  let r := if bool_decide (revisionAfter = rn_revisionId run) then r
           else r <| r_stale := true |> <| staleReason := Some (js "change set moved while verification was running") |> in
  let '(total, verified_) := countRequirementStatuses (requirements r) in
  let m := publish (m <| snapshot := snapshot m
      <| status := verdictState (r_verdict r) |> <| currentResult := Some r |> <| requirementsTotal := total |>
      <| requirementsVerified := verified_ |> <| highestFinding := highestFindingOf (findings r) |>
      <| s_missingEvidence := missingEvidence r |> <| lastError := None |> <| lastFailureKind := None |>
      <| s_completedAt := Some (completedAt r) |> <| updatedAt := completedAt r |> |>) in
  settle_run (rn_caller run) {| ok := true; outcome := o_ran; reason := None; result := Some r |} m.

(** ** Requests *)

Definition verify (force : bool) (objective : option jsstr) (m : Manager) : Manager :=
  let c := by_verify (verifyCalls m) in
  let m := m <| verifyCalls := S (verifyCalls m) |> in
  if disposed m then answer c (not_ok o_refused (js "session disposed")) m
  else if negb (set_enabled (settings env)) then
    answer c (not_ok o_disabled (js "verification is disabled (verification.enabled=false)")) m
  else if inFlight m then answer c (not_ok o_held (js "verification already running")) m
  else collectChangeFiles (k_verify (pred (verifyCalls m)) force objective) m.

(** The current result when it is of this revision and not stale. *)
Definition reusable (revision : jsstr) (m : Manager) : option AiraVerificationResult :=
  match currentResult (snapshot m) with
  | Some r => if bool_decide (revisionId r = revision) && negb (r_stale r) then Some r else None
  | None => None
  end.

Definition verify_files (n : nat) (force : bool) (objective : option jsstr) (files : list AiraChangeFile) (m : Manager) : Manager :=
  let c := by_verify n in
  match files with
  | [] => answer c (not_ok o_skipped (js "nothing to verify (no changed files)")) m
  | _ =>
      let revision := computeRevisionId files in
      match (if force then None else reusable revision m) with
      | Some r => answer c {| ok := true; outcome := o_reused; reason := Some (js "unchanged revision already verified"); result := Some r |} m
      | None =>
          let own := match objective with Some t => trim t | None => [] end in
          let text := match own, lastObjective m with
                      | _ :: _, _ => own
                      | [], _ :: _ => lastObjective m
                      | [], [] => js "(explicit verification request)" end in
          runVerification c files revision text (mode env) m
      end
  end.

Definition skip (why : jsstr) (m : Manager) : Manager := publish (m <| snapshot := snapshot m <| lastSkipReason := Some why |> |>).

Definition onAgentEnd (messages : list run_message) (m : Manager) : Manager :=
  if disposed m || negb (runtime_active env) then m
  else if negb (set_enabled (settings env)) || bool_decide (set_auto (settings env) = v_off) then m
  else if bool_decide (mode env = Capabilities.plan) then skip (js "plan mode (no automatic verification)") m
  else if inFlight m then m
  else
    let objective := lastUserMessageText messages MAX_OBJECTIVE_CHARS in
    let m := match objective with Some ((_ :: _) as t) => m <| lastObjective := t |> | _ => m end in
    collectChangeFiles (k_agent_end (set_auto (settings env)) objective) (m <| runScope := runScope m <| scope_active := false |> |>).

Definition recent_results : Z := match execution env with Some l => zlen l | None => 0 end.

Definition work_happened (m : Manager) : bool :=
  (0 <? zlen (edits (runScope m))) || (0 <? recent_results - executionBaseline (runScope m)) || browserWork (runScope m)
  || match lastWorkspaceObservation m with
     | Some ob => let '(_, owned, _, _) := Ownership.ob_counts ob in 0 <? owned
     | None => false end.

Definition agent_end_files (auto_ : AiraVerificationAutoSetting) (objective : option jsstr) (files : list AiraChangeFile) (m : Manager) : Manager :=
  let m := match currentResult (snapshot m) with
           | Some _ => if changeSetChanged files (lastChangeFiles m)
                       then invalidateResult (js "change set moved after the verification result") m else m
           | None => m end in
  let revision := computeRevisionId files in
  match reusable revision m with
  | Some _ => skip (js "unchanged revision already verified") m
  | None =>
      let decision := decideAutomaticVerification auto_ (work_happened m) files (diagnosticsClean (intelligence env)) in
      if negb (VerifyPolicy.run decision) then skip (rd_reason decision) m
      else runVerification by_agent_end files revision (default (lastObjective m) objective) (mode env) m
  end.

(** What awaited the change set goes on; the rejection of [collectChangeFiles] is the caller's. *)
Definition after_collected (files : list AiraChangeFile + jsstr) (k : continuation) (m : Manager) : Manager :=
  match k, files with
  | k_verify n force objective, inl files => verify_files n force objective files m
  | k_verify n _ _, inr e => reject (by_verify n) e m
  | k_agent_end auto_ objective, inl files => agent_end_files auto_ objective files m
  | k_agent_end _ _, inr e => reject by_agent_end e m
  | k_fence run r, inl files => after_fence run r files m
  | k_fence run _, inr e => run_throws run e m
  end.

(** ** Events *)

Definition recordEdit (p : jsstr) (m : Manager) : Manager :=
  match toRelative (cwd o) p with
  | None => m
  | Some rel =>
      let status_ := match mget rel (edits (runScope m)) with Some f => Ownership.status f | None => Ownership.modified end in
      m <| runScope := runScope m <| edits := mset rel
             {| Ownership.path := rel; Ownership.status := status_; Ownership.added_lines := 0; Ownership.deleted_lines := 0 |}
             (edits (runScope m)) |> |>
  end.

Definition is_edit_tool (name : jsstr) : bool := str_eqb name (js "edit") || str_eqb name (js "write").

Definition applyAgentEvent (ev : AgentEvent) (m : Manager) : Manager :=
  if disposed m then m
  else match ev with
  | turn_start =>
      if scope_active (runScope m) then m
      else m <| runScope := {| edits := []; executionBaseline := recent_results; browserWork := false; scope_active := true |} |>
  | tool_execution_start name callId path =>
      if scope_active (runScope m) && is_edit_tool name then
        match path with Some ((_ :: _) as p) => m <| pendingEditPaths := mset callId p (pendingEditPaths m) |> | _ => m end
      else m
  | tool_execution_end name callId isError =>
      if negb (scope_active (runScope m)) then m
      else if is_edit_tool name && negb isError then
        let path := mget callId (pendingEditPaths m) in
        let m := m <| pendingEditPaths := mdelete callId (pendingEditPaths m) |> in
        let m := match path with Some p => recordEdit p m | None => m end in
        invalidateResult (js "new edit after the verification result") m
      else if startsWith (js "browser_") name then m <| runScope := runScope m <| browserWork := true |> |>
      else m
  | agent_end messages => onAgentEnd messages m
  | other_event => m
  end.

Definition dispose (m : Manager) : Manager :=
  let m := m <| disposed := true |> in
  let m := match abort m with Some n => m <| effects := effects m ++ [e_abort n] |> | None => m end in
  publish (m <| abort := None |> <| listeners := [] |>).

(** ** Awaited calls *)

(** A settlement that the awaited call does not have leaves the job where it was. *)
Definition resume (j : job) (s : settlement) (m : Manager) : option Manager :=
  match j, s with
  | j_seam k, s_files files => Some (after_seam files k m)
  | j_seam k, s_rejected e => Some (await (j_collected (inr e) k) m)
  | j_classify files k, s_observation ob => Some (after_classify ob files k m)
  | j_classify _ k, s_rejected e => Some (await (j_collected (inr e) k) m)
  | j_collected files k, s_return => Some (after_collected files k m)
  | j_runtime run envelope, s_runtime has_model => Some (after_runtime run envelope has_model m)
  | j_runner run, s_outcome out => Some (after_runner run out m)
  | j_runtime run _, s_rejected e | j_runner run, s_rejected e => Some (run_throws run e m)
  | _, _ => None
  end.

Inductive call :=
| c_verify (force : bool) (objective : option jsstr) | c_status | c_subscribe (l : nat) | c_unsubscribe (l : nat)
| c_event (ev : AgentEvent) | c_dispose | c_settle (n : nat) (s : settlement)  (** the [n]-th awaited call settles *).

Definition run (c : call) (m : Manager) : Manager :=
  match c with
  | c_verify force objective => verify force objective m
  | c_status => refreshStaleness m
  | c_subscribe l => m <| listeners := if bool_decide (l ∈ listeners m) then listeners m else listeners m ++ [l] |>
  | c_unsubscribe l => m <| listeners := filter (λ x, x ≠ l) (listeners m) |>
  | c_event ev => applyAgentEvent ev m
  | c_dispose => dispose m
  | c_settle n s =>
      match jobs m !! n with
      | None => m
      | Some j => default m (resume j s (m <| jobs := delete n (jobs m) |>))
      end
  end.
End Manager.

(** ** Runs *)

Section Runs.
Context (sha1_base64url : jsstr → jsstr) (o : Options).

Definition steps (m : Manager) (l : list (Env * call)) : Manager := foldl (λ m c, run sha1_base64url o c.1 c.2 m) m l.
Inductive reachable : Manager → Prop :=
| reachable_start env : reachable (createAiraVerificationManager env)
| reachable_step env c m : reachable m → reachable (run sha1_base64url o env c m).
End Runs.

End VerifyManager.
