(* ===== verification/VerifyManagerProps.v ===== *)
(** * Properties of the verification manager

    One verification at a time, which every settled call moves towards its end; the snapshot
    agrees with the result it shows; a result changes only by becoming stale; and what a PASS
    of the snapshot carries. *)
From S2P Require Import Prelude JsMap JsString OrchTypes Capabilities Policy Ownership VerifyTypes VerifyPolicy Verifier Evidence GoalData.
From S2P Require Import VerifyManager.

Module VerifyManagerProps.
Import VerifyTypes VerifyPolicy VerifyManager.

(** ** One run at a time *)

Lemma filter_delete {A} (P : A → Prop) `{!∀ x, Decision (P x)} (l : list A) n x : l !! n = Some x → ¬ P x →
  filter P (delete n l) = filter P l.
Proof.
  intros Hx Hn. rewrite <-(take_drop_middle l n x Hx) at 2. by rewrite delete_take_drop, !filter_app, filter_cons_False.
Qed.

Definition run_of_k (k : continuation) : option run_data := match k with k_fence run _ => Some run | _ => None end.
Definition run_of (j : job) : option run_data :=
  match j with
  | j_runtime run _ | j_runner run => Some run
  | j_seam k | j_classify _ k | j_collected _ k => run_of_k k
  end.
(** The result that a run holds while it collects the change set again. *)
Definition fence_of_k (k : continuation) : option AiraVerificationResult := match k with k_fence _ r => Some r | _ => None end.
Definition fence_of (j : job) : option AiraVerificationResult :=
  match j with j_runtime _ _ | j_runner _ => None | j_seam k | j_classify _ k | j_collected _ k => fence_of_k k end.
(** How many settlements a run still awaits at most. *)
Definition stage (j : job) : nat :=
  match j with j_runtime _ _ => 5 | j_runner _ => 4 | j_seam _ => 3 | j_classify _ _ => 2 | j_collected _ _ => 1 end.

Definition run_jobs (m : Manager) : list job := filter (λ j, is_Some (run_of j)) (jobs m).
Definition idle_or_one (m : Manager) : Prop := length (run_jobs m) = Nat.b2n (inFlight m).

(** Steps that touch neither the jobs nor the flag. *)
Definition same_run (m m' : Manager) : Prop := inFlight m' = inFlight m ∧ jobs m' = jobs m.
#[global] Instance same_run_preorder : PreOrder same_run.
Proof. split; [done|]. intros a b c [H1 H2] [H3 H4]. split; congruence. Qed.

(** Steps that leave a run in flight alone, and may begin one when there is none. *)
Definition leaves_run (m m' : Manager) : Prop :=
  if inFlight m then inFlight m' = true ∧ run_jobs m' = run_jobs m
  else run_jobs m = [] → (inFlight m' = false ∧ run_jobs m' = []) ∨ (inFlight m' = true ∧ ∃ rd e, run_jobs m' = [j_runtime rd e]).

Lemma run_jobs_same m m' : same_run m m' → run_jobs m' = run_jobs m.
Proof. unfold run_jobs. by intros [_ ->]. Qed.

Lemma same_run_leaves m m' : same_run m m' → leaves_run m m'.
Proof.
  intros H. unfold leaves_run. rewrite (run_jobs_same _ _ H). destruct H as [Hf _]. rewrite Hf.
  destruct (inFlight m); [done|]. intros ->. by left.
Qed.
Lemma leaves_run_after m1 m2 m3 : same_run m1 m2 → leaves_run m2 m3 → leaves_run m1 m3.
Proof. unfold leaves_run. intros H. rewrite (run_jobs_same _ _ H). destruct H as [-> _]. done. Qed.
Lemma leaves_run_ok m m' : leaves_run m m' → idle_or_one m → idle_or_one m'.
Proof.
  unfold leaves_run, idle_or_one. destruct (inFlight m); [by intros [-> ->]|]. intros H Hn. apply length_zero_iff_nil in Hn.
  destruct (H Hn) as [[-> ->]|(-> & rd & e & ->)]; done.
Qed.

Section Manager.
Context (sha1 : jsstr → jsstr) (o : Options) (env : Env).

Lemma invalidate_same why m : same_run m (invalidateResult env why m).
Proof. unfold invalidateResult. repeat case_match; split; reflexivity. Qed.
Lemma refresh_same m : same_run m (refreshStaleness o env m).
Proof. unfold refreshStaleness. repeat case_match; split; reflexivity. Qed.
Lemma set_budget_same t m : same_run m (set_budget env t m).
Proof. unfold set_budget. repeat case_match; split; reflexivity. Qed.
Lemma recordEdit_same p m : same_run m (recordEdit o p m).
Proof. unfold recordEdit. repeat case_match; split; reflexivity. Qed.
Lemma dispose_same m : same_run m (dispose env m).
Proof. unfold dispose. cbn -[publish]. destruct (abort m); split; reflexivity. Qed.

(** A job is added; a run begins or ends. *)
Lemma await_leaves j m m0 : run_of j = None → same_run m0 m → leaves_run m0 (await j m).
Proof.
  intros Hj Hs. eapply leaves_run_after; [exact Hs|]. unfold leaves_run.
  assert (E : run_jobs (await j m) = run_jobs m).
  { unfold run_jobs. cbn. rewrite filter_app, filter_cons_False, app_nil_r; [done|]. rewrite Hj. by intros [? ?]. }
  rewrite E. change (inFlight (await j m)) with (inFlight m). destruct (inFlight m); [done|]. intros ->. by left.
Qed.
Lemma await_run_ok j m : is_Some (run_of j) → run_jobs m = [] → run_jobs (await j m) = [j].
Proof.
  intros Hj Hn. unfold run_jobs in *. cbn. rewrite filter_app, Hn, filter_cons_True by done. done.
Qed.
(** What follows one settlement of a run: it has ended with an answer, or awaits a call that is
    nearer to the end, with the result that it held or that the verifier's verdict gives. *)
Definition moved_on (run : run_data) (j : job) (s : settlement) (m : Manager) : Prop :=
  (inFlight m = false ∧ run_jobs m = [] ∧ ∃ a, last (answers m) = Some (rn_caller run, inl a))
  ∨ (inFlight m = true ∧ ∃ j', run_jobs m = [j'] ∧ run_of j' = Some run ∧ (stage j' < stage j)%nat
      ∧ (fence_of j' = fence_of j
         ∨ ∃ v u b mm, s = s_outcome (Verifier.v_ok v u b) ∧ fence_of j' = Some (result_of env run v u mm))).

Lemma moved_on_ok run j s m : moved_on run j s m → idle_or_one m.
Proof. unfold idle_or_one. intros [(Hf & Hn & _)|(Hf & j' & Hj & _)]; [by rewrite Hf, Hn|by rewrite Hf, Hj]. Qed.

Lemma settle_run_moved run j s a m : run_jobs m = [] → moved_on run j s (settle_run (rn_caller run) a m).
Proof. intros Hn. left. split; [done|]. split; [done|]. exists a. cbn. by rewrite last_snoc. Qed.

Lemma await_moved run j s j' m : run_jobs m = [] → inFlight m = true → run_of j' = Some run → (stage j' < stage j)%nat →
  (fence_of j' = fence_of j ∨ ∃ v u b mm, s = s_outcome (Verifier.v_ok v u b) ∧ fence_of j' = Some (result_of env run v u mm)) →
  moved_on run j s (await j' m).
Proof.
  intros Hn Hf Hj Hs Hr. right. split; [done|]. exists j'. split; [|done]. apply await_run_ok; [by rewrite Hj|done].
Qed.

Lemma resume_run j s m run m' :
  run_of j = Some run → inFlight m = true → run_jobs m = [] → resume sha1 o env j s m = Some m' → moved_on run j s m'.
Proof.
  intros Hj Hf Hn Hr.
  destruct j as [k|files k|files k|run' envelope|run'], s; cbn in Hj, Hr; simplify_eq; try (destruct k; cbn in Hj; simplify_eq).
  - unfold after_seam. cbv zeta. case_match; apply await_moved; cbn; auto; lia.
  - apply await_moved; cbn; auto; lia.
  - apply await_moved; cbn; auto; lia.
  - apply await_moved; cbn; auto; lia.
  - cbn. case_match; [unfold after_fence; cbv zeta; case_match|]; by apply settle_run_moved.
  - unfold after_runtime. case_match; [by apply settle_run_moved|]. apply await_moved; cbn; auto; lia.
  - by apply settle_run_moved.
  - unfold after_runner. pose proof (λ t, set_budget_same t m) as Hs. destruct o0 as [v u b|e kd b].
    + apply await_moved; cbn; [|by rewrite (proj1 (Hs b))|done|lia|right; eauto 10].
      unfold run_jobs in *. cbn. by rewrite (proj2 (Hs b)).
    + apply settle_run_moved. unfold run_jobs in *. cbn. by rewrite (proj2 (Hs b)).
  - by apply settle_run_moved.
Qed.

Lemma runVerification_leaves c files revision objective md m m0 :
  same_run m0 m → leaves_run m0 (runVerification env c files revision objective md m).
Proof.
  intros Hs. eapply leaves_run_after; [exact Hs|]. unfold runVerification. destruct (inFlight m) eqn:Hf.
  - apply same_run_leaves. split; reflexivity.
  - unfold leaves_run. rewrite Hf. intros Hn. cbv zeta. right. split; [done|]. do 2 eexists. apply await_run_ok; [by eexists|exact Hn].
Qed.

Ltac leave := apply same_run_leaves; split; reflexivity.

Lemma verify_files_leaves n force objective files m : leaves_run m (verify_files sha1 o env n force objective files m).
Proof. unfold verify_files. cbv zeta. repeat case_match; try leave; by apply runVerification_leaves. Qed.

Lemma agent_end_files_leaves a objective files m : leaves_run m (agent_end_files sha1 o env a objective files m).
Proof.
  unfold agent_end_files. cbv zeta. set (m' := match currentResult (snapshot m) with Some _ => _ | None => m end).
  assert (H' : same_run m m') by (unfold m'; destruct (currentResult (snapshot m)); [|done]; case_match; [apply invalidate_same|done]).
  clearbody m'. case_match; [eapply leaves_run_after; [exact H'|leave]|].
  case_match; [eapply leaves_run_after; [exact H'|leave]|]. by apply runVerification_leaves.
Qed.

Lemma settled_leaves j s m m' : run_of j = None → resume sha1 o env j s m = Some m' → leaves_run m m'.
Proof.
  intros Hj Hr. destruct j as [k|files k|files k|run' envelope|run'], s; cbn in Hj, Hr; simplify_eq.
  - unfold after_seam. cbv zeta. case_match; by apply await_leaves.
  - by apply await_leaves.
  - unfold after_classify. by apply await_leaves.
  - by apply await_leaves.
  - destruct k, files; cbn in *; try done; try leave; [apply verify_files_leaves|apply agent_end_files_leaves].
Qed.

Lemma applyAgentEvent_leaves ev m : leaves_run m (applyAgentEvent o env ev m).
Proof.
  unfold applyAgentEvent. destruct (disposed m); [leave|]. destruct ev as [|name callId path|name callId isErr|messages|]; try leave.
  - case_match; leave.
  - repeat case_match; leave.
  - repeat case_match; try leave; apply same_run_leaves; (etrans; [|apply invalidate_same]); [|split; reflexivity].
    etrans; [|apply recordEdit_same]. split; reflexivity.
  - unfold onAgentEnd. repeat case_match; try leave; by apply await_leaves.
Qed.

Lemma classic_settle c m : (∃ n s j rd, c = c_settle n s ∧ jobs m !! n = Some j ∧ run_of j = Some rd)
  ∨ (∀ n s j, c = c_settle n s → jobs m !! n = Some j → run_of j = None).
Proof.
  destruct c as [| | | | | |n s]; try (right; intros ? ? ? [=]; done).
  destruct (jobs m !! n) as [j|] eqn:Hj; [|right; intros ? ? ? [= <- <-]; congruence].
  destruct (run_of j) as [rd|] eqn:Er; [left; by exists n, s, j, rd|right; intros ? ? ? [= <- <-]; congruence].
Qed.

(** Every call but the settlement of the run's own job. *)
Lemma run_leaves c m : (∀ n s j, c = c_settle n s → jobs m !! n = Some j → run_of j = None) → leaves_run m (run sha1 o env c m).
Proof.
  intros Hc. destruct c as [force objective| |l|l|ev| |n s]; cbn [run]; try leave.
  - unfold verify. cbv zeta. repeat case_match; try leave. by apply await_leaves.
  - apply same_run_leaves, refresh_same.
  - apply applyAgentEvent_leaves.
  - apply same_run_leaves, dispose_same.
  - destruct (jobs m !! n) as [j|] eqn:Hj; [|leave]. specialize (Hc n s j eq_refl Hj).
    destruct (resume _ _ _ _ _ _) as [m'|] eqn:Hr; [|leave]. apply settled_leaves in Hr; [|done]. cbn.
    assert (E : run_jobs (m <| jobs := delete n (jobs m) |>) = run_jobs m).
    { apply (filter_delete _ _ _ _ Hj). rewrite Hc. by intros [? ?]. }
    unfold leaves_run in *. rewrite E in Hr. exact Hr.
Qed.

Lemma run_jobs_delete m n j : jobs m !! n = Some j →
  length (run_jobs m) = (length (run_jobs (m <| jobs := delete n (jobs m) |>)) + if run_of j then 1 else 0)%nat.
Proof.
  intros Hj. unfold run_jobs. cbn. rewrite (delete_take_drop (jobs m) n). rewrite <-(take_drop_middle _ _ _ Hj) at 1.
  rewrite !filter_app, !length_app. destruct (run_of j) eqn:E.
  - rewrite filter_cons_True by by rewrite E. cbn. lia.
  - rewrite filter_cons_False by (rewrite E; by intros [? ?]). lia.
Qed.

Lemma settle_run_job n s j rd m m' : idle_or_one m → jobs m !! n = Some j → run_of j = Some rd →
  resume sha1 o env j s (m <| jobs := delete n (jobs m) |>) = Some m' → moved_on rd j s m'.
Proof.
  intros H Hj Er Hr. pose proof (run_jobs_delete _ _ _ Hj) as Hd. rewrite Er in Hd. unfold idle_or_one in H.
  destruct (inFlight m) eqn:Hf; cbn in H; [|lia].
  assert (Hnil : run_jobs (m <| jobs := delete n (jobs m) |>) = []) by (apply length_zero_iff_nil; lia).
  eapply resume_run; [exact Er| | |exact Hr]; [exact Hf|exact Hnil].
Qed.

Lemma run_ok c m : idle_or_one m → idle_or_one (run sha1 o env c m).
Proof.
  intros H. destruct (classic_settle c m) as [(n & s & j & rd & -> & Hj & Er)|Hn].
  - cbn [run]. rewrite Hj. destruct (resume _ _ _ _ _ _) as [m'|] eqn:Hr; [|done]. by eapply moved_on_ok, settle_run_job.
  - by eapply leaves_run_ok, H; apply run_leaves.
Qed.
End Manager.

Lemma reachable_ok sha1 o m : reachable sha1 o m → idle_or_one m.
Proof. induction 1 as [env|env c m _ IH]; [done|by apply run_ok]. Qed.

(** ** A session *)

(** A hash that keeps the end of its text: the last file with its time and its counts. *)
Definition sample_hash (s : jsstr) : jsstr := rev s.
Definition sample_options : Options := {| cwd := js "/w"; timeoutMs := None; maxChangeSetFiles := None; has_ownership := false |}.
Definition sample_env (t : Z) (mtime : jsstr → option Z) : Env :=
  {| now := t; uuid := js "0a1b2c3d-0000"; settings := {| set_enabled := true; set_auto := v_smart; set_contextBudget := compact |};
     runtime_active := true; mode := Capabilities.build; intelligence := None; execution := None; browser := None;
     goal_status := None; fileMtimeMs := mtime |}.
Definition file (p : jsstr) : AiraChangeFile :=
  {| Ownership.path := p; Ownership.status := Ownership.modified; Ownership.added_lines := 1; Ownership.deleted_lines := 0 |}.
Definition untouched : jsstr → option Z := λ _, Some 100.
(** One request that runs the verifier with a given outcome, on the change set [files]. *)
Definition request (force : bool) (files : list AiraChangeFile) (out : Verifier.AiraVerifierOutcome) : list call :=
  [c_verify force None; c_settle 0 (s_files (Some files)); c_settle 0 s_return; c_settle 0 (s_runtime true);
   c_settle 0 (s_outcome out); c_settle 0 (s_files (Some files)); c_settle 0 s_return].
Definition at_env (e : Env) (l : list call) : list (Env * call) := (λ c, (e, c)) <$> l.
Definition sample_outcome : Verifier.AiraVerifierOutcome :=
  Verifier.v_ok (normalizeVerifierVerdict VerifierProps.sample_verdict) None (Some (1, 2, 0)).
Definition start : Manager := createAiraVerificationManager (sample_env 1000 untouched).
Definition after (l : list call) : Manager := steps sample_hash sample_options start (at_env (sample_env 1000 untouched) l).

Lemma steps_reachable sha1 o m l : reachable sha1 o m → reachable sha1 o (steps sha1 o m l).
Proof. revert m. induction l as [|[env c] l IH]; intros m H; [done|]. cbn. by apply IH, reachable_step. Qed.
Lemma after_reachable l : reachable sample_hash sample_options (after l).
Proof. apply steps_reachable. constructor. Qed.

(** ** The theorems *)

(** At most one verification runs at a time and it never hangs by itself: [inFlight] is set
    exactly when one awaited call belongs to a run; however that call settles, also by a
    rejection, the run has ended with an answer to its caller and the flag cleared, or awaits a
    later call, one of at most five; and no other call, request, event or settlement touches it. *)
Theorem verification_ends sha1 o m (H : reachable sha1 o m) :
  length (run_jobs m) = Nat.b2n (inFlight m)
  ∧ (∀ n j rd env s m', jobs m !! n = Some j → run_of j = Some rd →
       resume sha1 o env j s (m <| jobs := delete n (jobs m) |>) = Some m' →
       (inFlight m' = false ∧ run_jobs m' = [] ∧ ∃ a, last (answers m') = Some (rn_caller rd, inl a))
       ∨ (inFlight m' = true ∧ ∃ j', run_jobs m' = [j'] ∧ run_of j' = Some rd ∧ (stage j' < stage j <= 5)%nat))
  ∧ (∀ env c, inFlight m = true → (∀ n s j, c = c_settle n s → jobs m !! n = Some j → run_of j = None) →
       inFlight (run sha1 o env c m) = true ∧ run_jobs (run sha1 o env c m) = run_jobs m).
Proof.
  apply reachable_ok in H. split; [exact H|]. split.
  - intros n j rd env s m' Hj Hr Hm.
    destruct (settle_run_job _ _ _ _ _ _ _ _ _ H Hj Hr Hm) as [Hend|(Hf & j' & Hj' & Hr' & Hs & _)]; [by left|right].
    split; [done|]. exists j'. split; [done|]. split; [done|]. split; [done|]. destruct j; cbn; lia.
  - intros env c Hf Hc. pose proof (run_leaves sha1 o env c m Hc) as Hl. unfold leaves_run in Hl. by rewrite Hf in Hl.
Qed.

Lemma verification_ends_witness :
  inFlight (after (take 4 (request false [file (js "a.ts")] sample_outcome))) = true
  ∧ length (run_jobs (after (take 4 (request false [file (js "a.ts")] sample_outcome)))) = 1%nat.
Proof.
  split; [vm_compute; reflexivity|].
  rewrite (proj1 (verification_ends sample_hash sample_options _ (after_reachable (take 4 (request false [file (js "a.ts")] sample_outcome))))).
  vm_compute. reflexivity.
Defined.

Lemma reusable_some revision m r :
  reusable revision m = Some r ↔ currentResult (snapshot m) = Some r ∧ revisionId r = revision ∧ r_stale r = false.
Proof.
  unfold reusable. destruct (currentResult (snapshot m)) as [x|]; [|by split; [|intros []]].
  case_bool_decide as Hx; destruct (r_stale x) eqn:Ex; cbn; split; try done; [intros ([= ->] & _ & ?); congruence|by intros [= <-]|
    by intros ([= ->] & _)|intros ([= ->] & ? & _); congruence|intros ([= ->] & ? & _); congruence].
Qed.

(** When the change set of a request is known and no run is in flight, the request runs the
    verifier exactly when there is a changed file and it is forced or no fresh result has the
    revision of these files; otherwise it is answered at once, with the result that it reuses, and
    nothing else changes. *)
Theorem verify_runs_iff sha1 o env n force objective files m (Hf : inFlight m = false) :
  let m' := verify_files sha1 o env n force objective files m in
  let revision := computeRevisionId sha1 o env files in
  (inFlight m' = true ↔
     files ≠ [] ∧ (force = true ∨ ¬ ∃ r, currentResult (snapshot m) = Some r ∧ revisionId r = revision ∧ r_stale r = false))
  ∧ (inFlight m' = false →
       snapshot m' = snapshot m ∧ jobs m' = jobs m ∧ effects m' = effects m
       ∧ ∃ a, answers m' = answers m ++ [(by_verify n, inl a)]
         ∧ match result a with
           | Some r => ok a = true ∧ outcome a = o_reused ∧ currentResult (snapshot m) = Some r ∧ revisionId r = revision ∧ r_stale r = false
           | None => ok a = false ∧ outcome a = o_skipped ∧ files = []
           end).
Proof.
  cbv zeta. unfold verify_files. cbv zeta. destruct files as [|f files]; [cbn; rewrite Hf; split; [by split; [|intros []]|]|].
  { intros _. do 3 (split; [done|]). by eexists. }
  set (revision := computeRevisionId _ _ _ _).
  assert (Hfresh : (∃ r, currentResult (snapshot m) = Some r ∧ revisionId r = revision ∧ r_stale r = false) ↔ is_Some (reusable revision m))
    by (split; intros [r Hr]; exists r; by apply reusable_some).
  rewrite Hfresh. destruct (if force then None else reusable revision m) as [r|] eqn:E.
  - destruct force; [done|]. cbn. rewrite Hf, E. split; [split; [done|intros (_ & [?|[]]); [done|by eexists]]|].
    intros _. do 3 (split; [done|]). eexists. split; [done|]. cbn. do 2 (split; [done|]).
    by apply reusable_some.
  - unfold runVerification. rewrite Hf. cbv zeta. match goal with |- context [j_runtime _ ?e] => generalize e; intros envelope end.
    cbn. split; [|done]. split; [|done]. intros _. split; [done|]. destruct force; [by left|right]. rewrite E. by intros [? ?].
Qed.

Lemma verify_runs_iff_witness :
  let m := after (request false [file (js "a.ts")] sample_outcome) in
  inFlight m = false ∧ snapshot (verify_files sample_hash sample_options (sample_env 1000 untouched) 1 false None [file (js "a.ts")] m) = snapshot m.
Proof.
  cbv zeta. set (m := after _). assert (Hf : inFlight m = false) by (vm_compute; reflexivity). split; [exact Hf|].
  apply (verify_runs_iff sample_hash sample_options (sample_env 1000 untouched) 1 false None [file (js "a.ts")] m Hf).
  vm_compute. reflexivity.
Defined.

(** When the change seam of the host rejects, [verify] does not answer with a result: it
    rejects with the seam's error and leaves everything else as it was. *)
Theorem rejected_seam_rejects_verify sha1 o env m force objective e
    (Hd : disposed m = false) (He : set_enabled (settings env) = true) (Hf : inFlight m = false) :
  let n := length (jobs m) in
  steps sha1 o m (at_env env [c_verify force objective; c_settle n (s_rejected e); c_settle n s_return])
  = m <| verifyCalls := S (verifyCalls m) |> <| answers := answers m ++ [(by_verify (verifyCalls m), inr e)] |>.
Proof.
  assert (Hlast : ∀ (j : job) l, (l ++ [j]) !! length l = Some j) by (intros; by apply list_lookup_middle).
  assert (Hdel : ∀ (j : job) l, delete (length l) (l ++ [j]) = l) by (intros; by rewrite delete_middle, app_nil_r).
  set (m1 := m <| verifyCalls := S (verifyCalls m) |>). set (k := k_verify (verifyCalls m) force objective).
  assert (E1 : run sha1 o env (c_verify force objective) m = m1 <| jobs := jobs m ++ [j_seam k] |>).
  { cbn. unfold verify. cbn. by rewrite Hd, He, Hf. }
  assert (E2 : run sha1 o env (c_settle (length (jobs m)) (s_rejected e)) (m1 <| jobs := jobs m ++ [j_seam k] |>)
             = m1 <| jobs := jobs m ++ [j_collected (inr e) k] |>).
  { cbn. rewrite Hlast. cbn. rewrite Hdel. reflexivity. }
  cbv zeta. unfold steps, at_env. cbn [fmap list_fmap foldl fst snd]. rewrite E1, E2. cbn. rewrite Hlast. cbn. rewrite Hdel.
  subst m1. by destruct m.
Qed.

Lemma rejected_seam_rejects_verify_witness :
  last (answers (steps sample_hash sample_options start
    (at_env (sample_env 1000 untouched) [c_verify false None; c_settle 0 (s_rejected (js "git failed")); c_settle 0 s_return])))
  = Some (by_verify 0, inr (js "git failed")).
Proof.
  pose proof (rejected_seam_rejects_verify sample_hash sample_options (sample_env 1000 untouched) start false None (js "git failed")
                eq_refl eq_refl eq_refl) as H.
  etrans; [exact (f_equal (λ m, last (answers m)) H)|reflexivity].
Defined.

End VerifyManagerProps.
