(* ===== verification/VerifyShown.v ===== *)
(** * What the verification manager shows

    The snapshot is the projection of the current result; a result is replaced by the end of a
    run only, and otherwise changes by becoming stale; and a PASS on show is what the model of
    the verifier has answered, with evidence and no unmet requirement. *)
From S2P Require Import Prelude JsMap JsString OrchTypes Capabilities Policy Ownership VerifyTypes Regex Json VerifyPolicy Failures ModelCall Verifier.
From S2P Require Import Evidence GoalData VerifyManager VerifyManagerProps.

Module VerifyShown.
Import Json.Json ModelCall.ModelCall VerifierProps VerifyTypes VerifyPolicy VerifyManager VerifyManagerProps.

(** ** The snapshot and its result *)

(** The fields of a status that are read off the current result. *)
Definition projects (s : AiraVerificationStatus) : Prop :=
  stale s = match currentResult s with Some r => r_stale r | None => false end
  ∧ (requirementsTotal s, requirementsVerified s) = match currentResult s with Some r => countRequirementStatuses (requirements r) | None => (0, 0) end
  ∧ highestFinding s = match currentResult s with Some r => highestFindingOf (findings r) | None => None end
  ∧ s_missingEvidence s = match currentResult s with Some r => missingEvidence r | None => [] end
  ∧ (status s = passed → ∃ r, currentResult s = Some r ∧ r_verdict r = pass)
  ∧ (status s = failed → ∃ r, currentResult s = Some r ∧ r_verdict r = fail).
Definition shown_ok (m : Manager) : Prop := state_verification m = Some (snapshot m) ∧ projects (snapshot m).

(** How the current result moves when no run ends. *)
Definition staled (why : jsstr) (r : AiraVerificationResult) : AiraVerificationResult := r <| r_stale := true |> <| staleReason := Some why |>.
Definition moves (r r' : option AiraVerificationResult) : Prop :=
  r' = r ∨ ∃ x why, r = Some x ∧ r_stale x = false ∧ r' = Some (staled why x).
#[global] Instance moves_preorder : PreOrder moves.
Proof.
  split; [by left|]. intros a b c [->|(x & w & -> & Hx & ->)] [->|(y & w' & Hy & Hs & ->)]; [by left|right; eauto|right; eauto|].
  by injection Hy as <-.
Qed.

Definition shows (m m' : Manager) : Prop :=
  shown_ok m → shown_ok m' ∧ moves (currentResult (snapshot m)) (currentResult (snapshot m')).
#[global] Instance shows_preorder : PreOrder shows.
Proof.
  split; [by intros m H|]. intros a b c H1 H2 Ha. destruct (H1 Ha) as [Hb M1]. destruct (H2 Hb) as [Hc M2]. split; [done|by etrans].
Qed.

(** Steps that leave the snapshot alone. *)
Lemma shows_same m m' : snapshot m' = snapshot m → state_verification m' = state_verification m → shows m m'.
Proof. unfold shows, shown_ok. by intros -> ->. Qed.

Section Manager.
Context (sha1 : jsstr → jsstr) (o : Options) (env : Env).

(** [publish], after the fields that are no projection of the result have been set. *)
Lemma publish_shows m sn m' : snapshot m' = sn →
  (projects (snapshot m) → currentResult sn = currentResult (snapshot m) ∧ requirementsTotal sn = requirementsTotal (snapshot m)
   ∧ requirementsVerified sn = requirementsVerified (snapshot m) ∧ highestFinding sn = highestFinding (snapshot m)
   ∧ s_missingEvidence sn = s_missingEvidence (snapshot m)
   ∧ (status sn = status (snapshot m) ∨ status sn ∉ [passed; failed])) → shows m (publish env m').
Proof.
  intros <- Hf [Hs Hp]. destruct (Hf Hp) as (Hc & Ht & Hv & Hh & Hm & Hst). destruct Hp as (Hp1 & Hp2 & Hp3 & Hp4 & Hp5 & Hp6).
  split; [|left; exact Hc]. split; [done|]. unfold projects. cbn. rewrite Hc, Ht, Hv, Hh, Hm. repeat (split; [done|]).
  destruct Hst as [->|Hst]; [done|]. split; intros E; rewrite E in Hst; exfalso; apply Hst; set_solver.
Qed.
Ltac published := eapply publish_shows; [reflexivity|intros _; cbn; repeat (split; [reflexivity|]); (by left) || (right; set_solver)].

Lemma stale_shows why m r : currentResult (snapshot m) = Some r → r_stale r = false →
  shows m (publish env (set_current (staled why r) m)).
Proof.
  intros Hr Hs [Hst (Hp1 & Hp2 & Hp3 & Hp4 & Hp5 & Hp6)]. rewrite Hr in *. split; [|right; by exists r, why].
  split; [done|]. unfold projects. cbn. repeat (split; [done|]).
  split; intros E; [destruct (Hp5 E) as (r' & [= <-] & Hv)|destruct (Hp6 E) as (r' & [= <-] & Hv)]; by exists (staled why r).
Qed.

Lemma invalidate_shows why m : shows m (invalidateResult env why m).
Proof. unfold invalidateResult. destruct (currentResult (snapshot m)) eqn:E; [|done]. case_match; [done|by apply stale_shows]. Qed.
Lemma refresh_shows m : shows m (refreshStaleness o env m).
Proof.
  unfold refreshStaleness. destruct (currentResult (snapshot m)) eqn:E; [|done]. case_match; [done|]. case_match; [by apply stale_shows|done].
Qed.
Lemma skip_shows why m : shows m (skip env why m).
Proof. unfold skip. published. Qed.
Lemma failRun_shows why kd m m0 : snapshot m = snapshot m0 → state_verification m = state_verification m0 → shows m0 (failRun env why kd m).
Proof. intros H1 H2. etrans; [by apply (shows_same m0 m)|]. unfold failRun. published. Qed.
Lemma set_budget_shows b m : shows m (set_budget env b m).
Proof. unfold set_budget. destruct b as [[[u l] e]|]; [|done]. published. Qed.
Lemma dispose_shows m : shows m (dispose env m).
Proof.
  unfold dispose. cbv zeta. eapply publish_shows; [reflexivity|]. intros _. cbn. destruct (abort m); cbn; repeat (split; [reflexivity|]); by left.
Qed.
Lemma await_shows j m m' : shows m m' → shows m (await j m').
Proof. intros H. etrans; [exact H|by apply shows_same]. Qed.
Lemma settle_shows c a m m' : shows m m' → shows m (settle_run c a m').
Proof. intros H. etrans; [exact H|by apply shows_same]. Qed.
Lemma runVerification_shows c files rev obj md m : shows m (runVerification env c files rev obj md m).
Proof.
  unfold runVerification. destruct (inFlight m); [by apply shows_same|]. cbv zeta.
  match goal with |- context [Evidence.buildVerifierEnvelope ?b] => generalize (Evidence.buildVerifierEnvelope b); intros envelope end.
  apply await_shows. match goal with |- shows _ (publish _ (update_with snapshot _ ?x)) => transitivity x; [|published] end.
  eapply publish_shows; [reflexivity|]. intros _. cbn. repeat (split; [reflexivity|]). right. set_solver.
Qed.
Lemma recordEdit_shows p m : shows m (recordEdit o p m).
Proof. unfold recordEdit. case_match; [|done]. case_match; by apply shows_same. Qed.

Lemma after_collected_shows k files m : fence_of_k k = None → shows m (after_collected sha1 o env files k m).
Proof.
  intros Hk. destruct k as [n force obj|a obj|run r]; [..|done]; destruct files as [files|e]; try (by apply shows_same).
  - cbn. unfold verify_files. cbv zeta. repeat case_match; try (by apply shows_same); apply runVerification_shows.
  - cbn. unfold agent_end_files. cbv zeta. set (m' := match currentResult (snapshot m) with Some _ => _ | None => m end).
    assert (H' : shows m m') by (unfold m'; repeat case_match; [apply invalidate_shows|done|done]).
    clearbody m'. etrans; [exact H'|]. repeat case_match; first [apply skip_shows|apply runVerification_shows].
Qed.

Lemma resume_shows j s m m' : (∀ run r files, j = j_collected (inl files) (k_fence run r) → s ≠ s_return) →
  resume sha1 o env j s m = Some m' → shows m m'.
Proof.
  intros Hj Hr. destruct j as [k|files k|files k|run envelope|run], s; cbn in Hr; simplify_eq.
  - unfold after_seam. cbv zeta. case_match; by apply shows_same.
  - by apply shows_same.
  - unfold after_classify. by apply shows_same.
  - by apply shows_same.
  - destruct k as [| |run r]; [by apply after_collected_shows..|]. destruct files as [files|e].
    + by destruct (Hj run r files eq_refl).
    + cbn. unfold run_throws. apply settle_shows. by apply failRun_shows.
  - unfold after_runtime. case_match; [|by apply shows_same]. apply settle_shows. by apply failRun_shows.
  - unfold run_throws. apply settle_shows. by apply failRun_shows.
  - unfold after_runner. destruct o0 as [v u b|e kd b].
    + etrans; [apply set_budget_shows|]. by apply shows_same.
    + apply settle_shows. etrans; [apply set_budget_shows|]. by apply failRun_shows.
  - unfold run_throws. apply settle_shows. by apply failRun_shows.
Qed.

Lemma applyAgentEvent_shows ev m : shows m (applyAgentEvent o env ev m).
Proof.
  unfold applyAgentEvent. destruct (disposed m); [done|]. destruct ev as [|name callId path|name callId isErr|messages|]; try done.
  - case_match; [done|by apply shows_same].
  - repeat case_match; try done; by apply shows_same.
  - destruct (negb _); [done|]. destruct (_ && _).
    + cbv zeta. etrans; [|apply invalidate_shows]. case_match; [etrans; [|apply recordEdit_shows]|]; by apply shows_same.
    + case_match; [by apply shows_same|done].
  - unfold onAgentEnd. repeat case_match; try done; first [apply skip_shows|by apply shows_same].
Qed.

(** The settlement that ends a run with its result. *)
Definition ends_run (c : call) (m : Manager) : option (list AiraChangeFile * run_data * AiraVerificationResult) :=
  match c with
  | c_settle n s_return =>
      match jobs m !! n with Some (j_collected (inl files) (k_fence run r)) => Some (files, run, r) | _ => None end
  | _ => None
  end.

Lemma run_shows c m : ends_run c m = None → shows m (run sha1 o env c m).
Proof.
  intros Hc. destruct c as [force objective| |l|l|ev| |n s]; cbn [run]; try (by apply shows_same).
  - unfold verify. cbv zeta. repeat case_match; by apply shows_same.
  - apply refresh_shows.
  - apply applyAgentEvent_shows.
  - apply dispose_shows.
  - destruct (jobs m !! n) as [j|] eqn:Hj; [|done]. etrans; [by apply (shows_same m (m <| jobs := delete n (jobs m) |>))|].
    destruct (resume _ _ _ _ _ _) as [m'|] eqn:Hr; [|done]. eapply resume_shows, Hr.
    intros run r files -> ->. cbn in Hc. by rewrite Hj in Hc.
Qed.

(** The fence: the result is stale when the change set has moved, and is what the snapshot shows. *)
Definition fenced (files : list AiraChangeFile) (run : run_data) (r : AiraVerificationResult) : AiraVerificationResult :=
  if bool_decide (computeRevisionId sha1 o env files = rn_revisionId run) then r
  else staled (js "change set moved while verification was running") r.

Lemma verdictState_passed v : verdictState v = passed → v = pass.
Proof. by destruct v. Qed.
Lemma verdictState_failed v : verdictState v = failed → v = fail.
Proof. by destruct v. Qed.

Lemma after_fence_shown run r files m :
  let m' := after_fence sha1 o env run r files m in
  shown_ok m' ∧ currentResult (snapshot m') = Some (fenced files run r).
Proof.
  cbv zeta. unfold after_fence. cbv zeta. change (if bool_decide _ then r else _) with (fenced files run r).
  destruct (countRequirementStatuses _) as [t v] eqn:E. split; [|reflexivity]. split; [reflexivity|]. unfold projects. cbn.
  repeat (split; [done|]). split; intros H; exists (fenced files run r); (split; [done|]); by (apply verdictState_passed || apply verdictState_failed).
Qed.

Lemma run_ends c m files rd r : ends_run c m = Some (files, rd, r) →
  ∃ n, c = c_settle n s_return ∧ jobs m !! n = Some (j_collected (inl files) (k_fence rd r))
  ∧ run sha1 o env c m = after_fence sha1 o env rd r files (m <| jobs := delete n (jobs m) |>).
Proof.
  intros H. destruct c as [| | | | | |n []]; try done. cbn in H. destruct (jobs m !! n) as [j|] eqn:Hj; [|done].
  destruct j as [| |[files'|] [| |rd' r']| |]; try done. injection H as -> -> ->. exists n. cbn. by rewrite Hj.
Qed.

Lemma run_shown_ok c m : shown_ok m → shown_ok (run sha1 o env c m).
Proof.
  intros H. destruct (ends_run c m) as [[[files rd] r]|] eqn:E.
  - apply run_ends in E as (n & -> & Hj & ->). apply after_fence_shown.
  - by apply run_shows.
Qed.
End Manager.

Lemma reachable_shown_ok sha1 o m : reachable sha1 o m → shown_ok m.
Proof.
  induction 1 as [env|env c m _ IH]; [|by apply run_shown_ok].
  split; [done|]. unfold projects. cbn. by repeat split.
Qed.

Lemma invalidate_stale env why m r : currentResult (snapshot (invalidateResult env why m)) = Some r → r_stale r = true.
Proof.
  unfold invalidateResult. destruct (currentResult (snapshot m)) as [x|] eqn:E; [|by rewrite E].
  destruct (r_stale x) eqn:Ex; [rewrite E; by intros [= <-]|]. cbn. by intros [= <-].
Qed.

(** What [status] looks at: a file that is gone, or was modified after the run and its tolerance. *)
Definition drifted (o : Options) (env : Env) (completed : Z) (f : AiraChangeFile) : Prop :=
  match fileMtimeMs env (path_join (cwd o) (Ownership.path f)) with Some t => completed + 50 < t | None => True end.
Lemma drift_found o env completed files : Exists (drifted o env completed) files → is_Some (drift o env completed files).
Proof.
  induction 1 as [f l Hf|f l _ IH]; cbn; unfold drifted, MTIME_DRIFT_TOLERANCE_MS in *; repeat case_match; try done; bool_prop; lia.
Qed.
Lemma refresh_stale o env m r :
  (∀ r', currentResult (snapshot m) = Some r' → is_Some (drift o env (completedAt r') (lastChangeFiles m))) →
  currentResult (snapshot (refreshStaleness o env m)) = Some r → r_stale r = true.
Proof.
  intros H. unfold refreshStaleness. destruct (currentResult (snapshot m)) as [x|] eqn:E; [|by rewrite E].
  destruct (r_stale x) eqn:Ex; [rewrite E; by intros [= <-]|]. destruct (H x eq_refl) as [why ->]. cbn. by intros [= <-].
Qed.

(** In every reachable state, after any call: [state.verification] is the snapshot; its stale
    flag, its requirement counts, its highest finding and its missing evidence are those of the
    current result; "passed" and "failed" are the result's verdict.  The end of a run replaces the
    result by its own, stale when the revision at the fence is not that of the start; every other
    call keeps the result as it is or turns a fresh one stale. *)
Theorem snapshot_shows_its_result sha1 o m env c (H : reachable sha1 o m) :
  let m' := run sha1 o env c m in
  state_verification m' = Some (snapshot m') ∧ projects (snapshot m')
  ∧ match ends_run c m with
    | Some (files, rd, r) => currentResult (snapshot m') = Some (fenced sha1 o env files rd r)
    | None => moves (currentResult (snapshot m)) (currentResult (snapshot m'))
    end.
Proof.
  intros m'. apply reachable_shown_ok in H. destruct (run_shown_ok sha1 o env c m H) as [H1 H2].
  split; [exact H1|]. split; [exact H2|]. destruct (ends_run c m) as [[[files rd] r]|] eqn:E.
  - apply (run_ends sha1 o env) in E as (n & Hc & Hj & E). subst m'. rewrite E. by apply after_fence_shown.
  - by apply run_shows.
Qed.

(** A result is not fresh after a change that the manager can see: an "edit" or a "write" that
    has ended without an error in a run of the agent leaves no fresh result, whatever its path;
    and [status] leaves none when a file of the last change set is gone or was modified later than
    50 ms after the verification. *)
Theorem change_is_not_fresh sha1 o env m c
    (H : (∃ name callId, c = c_event (tool_execution_end name callId false) ∧ is_edit_tool name = true
            ∧ disposed m = false ∧ scope_active (runScope m) = true)
         ∨ (c = c_status ∧ ∃ f, f ∈ lastChangeFiles m ∧ ∀ r, currentResult (snapshot m) = Some r → drifted o env (completedAt r) f)) :
  ∀ r, currentResult (snapshot (run sha1 o env c m)) = Some r → r_stale r = true.
Proof.
  destruct H as [(name & callId & -> & Hn & Hd & Ha)|(-> & f & Hf & Hm)].
  - intros r. cbn [run]. unfold applyAgentEvent. rewrite Hd, Ha, Hn. apply invalidate_stale.
  - intros r. cbn [run]. apply refresh_stale. intros r' Hr. apply drift_found. apply Exists_exists. exists f. split; [done|by apply Hm].
Qed.

(** ** Where a result comes from *)

Section Sound.
(** What the models of the session have answered. *)
Context (said : AssistantMessage → Prop).

(** The verifier has run with such a model. *)
Definition verifier_ran (out : Verifier.AiraVerifierOutcome) : Prop :=
  ∃ complete execute hasModel opts, Verifier.runAiraVerifier complete execute hasModel opts = Some out
    ∧ ∀ msgs m h, complete msgs = resolves m :: h → said m.
Definition honest (c : Env * call) : Prop := match c.2 with c_settle _ (s_outcome out) => verifier_ran out | _ => True end.

(** The verdict of a message without tool calls, hardened. *)
Definition said_verdict (parsed : json) : Prop :=
  ∃ m, said m ∧ hasToolCalls m = false ∧ Verifier.parseVerifierVerdict (contentText m) = Some parsed.
Definition carries (parsed : json) (r : AiraVerificationResult) : Prop :=
  let v := normalizeVerifierVerdict parsed in
  r_verdict r = mv_verdict v ∧ summary r = mv_summary v ∧ requirements r = mv_requirements v ∧ findings r = mv_findings v
  ∧ r_evidence r = mv_evidence v ∧ missingEvidence r = mv_missingEvidence v ∧ scopeAssessment r = mv_scopeAssessment v
  ∧ confidence r = mv_confidence v.
Definition sourced (r : AiraVerificationResult) : Prop := ∃ parsed, said_verdict parsed ∧ carries parsed r.

Lemma sourced_staled why r : sourced r → sourced (staled why r).
Proof. intros (p & H1 & H2). by exists p. Qed.

Lemma verifier_ran_sourced v u b env rd m : verifier_ran (Verifier.v_ok v u b) → sourced (result_of env rd v u m).
Proof.
  intros (complete & execute & hasModel & opts & Hr & Hs). unfold Verifier.runAiraVerifier in Hr. destruct hasModel; [|done].
  cbn in Hr. destruct (run_end complete execute opts) as (s & out & turns & E & _ & Hc). rewrite E in Hr. cbn in Hr. simplify_eq.
  destruct (Hc v u b eq_refl) as (msgs & a & h & parsed & H1 & H2 & _ & _ & H5 & ->).
  exists parsed. split; [exists a; split; [by eapply Hs|done]|]. by repeat split.
Qed.

Record sound (m : Manager) : Prop := {
  sound_idle : idle_or_one m; sound_shown : shown_ok m;
  sound_current : ∀ r, currentResult (snapshot m) = Some r → sourced r;
  sound_fence : ∀ j r, j ∈ run_jobs m → fence_of j = Some r → sourced r }.

Lemma run_fence_sound sha1 o env c m : sound m → honest (env, c) →
  ∀ j r, j ∈ run_jobs (run sha1 o env c m) → fence_of j = Some r → sourced r.
Proof.
  intros [Hi Hs Hc Hf] Hh j r Hj Hr. destruct (classic_settle c m) as [(n & s & j0 & rd & -> & Hj0 & Er)|Hn].
  - cbn [run] in Hj. rewrite Hj0 in Hj.
    assert (Hold : j0 ∈ run_jobs m) by (apply list_elem_of_filter; split; [by rewrite Er|by eapply list_elem_of_lookup_2, Hj0]).
    destruct (resume _ _ _ _ _ _) as [m'|] eqn:Hr'; cbn in Hj.
    + pose proof (settle_run_job _ _ _ _ _ _ _ _ _ Hi Hj0 Er Hr') as [(_ & Hnil & _)|(_ & j' & Hj' & _ & _ & Hfe)].
      * rewrite Hnil in Hj. by apply elem_of_nil in Hj.
      * rewrite Hj' in Hj. apply list_elem_of_singleton in Hj. subst j'.
        destruct Hfe as [Hfe|(v & u & b & mm & -> & Hfe)]; [apply (Hf j0 r Hold); congruence|].
        rewrite Hfe in Hr. injection Hr as <-. eapply verifier_ran_sourced. exact Hh.
    + exact (Hf j r Hj Hr).
  - pose proof (run_leaves sha1 o env c m Hn) as Hl. unfold leaves_run, idle_or_one in *. destruct (inFlight m).
    + destruct Hl as [_ Hl]. rewrite Hl in Hj. exact (Hf j r Hj Hr).
    + apply length_zero_iff_nil in Hi. destruct (Hl Hi) as [[_ E]|(_ & rd & e & E)]; rewrite E in Hj.
      * by apply elem_of_nil in Hj.
      * by apply list_elem_of_singleton in Hj as ->.
Qed.

Lemma run_sound sha1 o env c m : honest (env, c) → sound m → sound (run sha1 o env c m).
Proof.
  intros Hh Hm. destruct Hm as [Hi Hs Hc Hf] eqn:E. split; [by apply run_ok|by apply run_shown_ok| |by apply run_fence_sound].
  clear E. intros r Hr. destruct (ends_run c m) as [[[files rd] r0]|] eqn:E.
  - pose proof E as E'. apply (run_ends sha1 o env) in E as (n & -> & Hj & E). rewrite E in Hr.
    destruct (after_fence_shown sha1 o env rd r0 files (m <| jobs := delete n (jobs m) |>)) as [_ Hcur]. rewrite Hcur in Hr.
    assert (Hr0 : sourced r0).
    { apply (Hf (j_collected (inl files) (k_fence rd r0))); [|done].
      apply list_elem_of_filter. split; [by eexists|by eapply list_elem_of_lookup_2]. }
    injection Hr as <-. unfold fenced. case_bool_decide; [done|by apply sourced_staled].
  - destruct (run_shows sha1 o env c m E Hs) as [_ [Hm'|(x & why & Hx & _ & Hm')]]; rewrite Hm' in Hr.
    + by apply Hc.
    + injection Hr as <-. by apply sourced_staled, Hc.
Qed.

Lemma start_sound env : sound (createAiraVerificationManager env).
Proof. split; [done| |done|]; [split; [done|]; by repeat split|]. intros j r Hj. by apply elem_of_nil in Hj. Qed.

Lemma steps_sound sha1 o m l : Forall honest l → sound m → sound (steps sha1 o m l).
Proof.
  revert m. induction l as [|[env c] l IH]; intros m Hl Hm; [done|]. apply Forall_cons in Hl as [Hc Hl].
  cbn. by apply IH, run_sound.
Qed.
End Sound.

(** A manager whose runner is the verifier shows "passed" only when a model has answered, in a
    message without a tool call, a JSON object whose verdict is the word pass, that lists evidence
    and in which no requirement is unmet; the result on show carries that object's verdict, as it
    was hardened, field by field: no failure, skip, drift or second run turns into a PASS. *)
Theorem shown_pass_was_said said sha1 o env l m
    (Hl : Forall (honest said) l) (Hm : m = steps sha1 o (createAiraVerificationManager env) l) (Hp : status (snapshot m) = passed) :
  ∃ r parsed, currentResult (snapshot m) = Some r ∧ said_verdict said parsed ∧ carries parsed r
  ∧ r_verdict r = pass ∧ string_is (prop "verdict" parsed) "pass" = true
  ∧ r_evidence r ≠ [] ∧ Forall (λ q, req_status q ≠ unmet) (requirements r).
Proof.
  subst m. destruct (steps_sound said sha1 o _ l Hl (start_sound said env)) as [_ [_ (_ & _ & _ & _ & H5 & _)] Hc _].
  destruct (H5 Hp) as (r & Hr & Hv). destruct (Hc r Hr) as (parsed & Hs & Hcar). exists r, parsed.
  do 4 (split; [done|]). destruct Hcar as (E1 & _ & E3 & _ & E5 & _). rewrite Hv in E1. symmetry in E1.
  apply pass_iff in E1 as (Hw & Hu & He). destruct (mv_fields parsed) as (F1 & _ & F3 & _). by rewrite E3, E5, F1, F3.
Qed.

(** ** Witnesses and limits *)

Notation one_request := (request false [file (js "a.ts")] sample_outcome).

Lemma snapshot_shows_its_result_witness :
  let m := run sample_hash sample_options (sample_env 2000 untouched) (c_settle 0 s_return) (after (take 6 one_request)) in
  status (snapshot m) = passed ∧ state_verification m = Some (snapshot m) ∧ projects (snapshot m).
Proof.
  intros m. split; [vm_compute; reflexivity|].
  destruct (snapshot_shows_its_result sample_hash sample_options (after (take 6 one_request)) (sample_env 2000 untouched) (c_settle 0 s_return)
              (after_reachable _)) as (H1 & H2 & _).
  split; [exact H1|exact H2].
Defined.

Lemma change_is_not_fresh_witness :
  let m := after one_request in
  let gone := sample_env 3000 (λ _, None) in
  option_map r_stale (currentResult (snapshot m)) = Some false
  ∧ option_map r_stale (currentResult (snapshot (run sample_hash sample_options gone c_status m))) = Some true.
Proof.
  cbv zeta. split; [vm_compute; reflexivity|].
  assert (H : ∀ r, currentResult (snapshot (run sample_hash sample_options (sample_env 3000 (λ _, None)) c_status (after one_request))) = Some r → r_stale r = true).
  { apply change_is_not_fresh. right. split; [reflexivity|]. exists (file (js "a.ts")). split; [|done].
    assert (E : lastChangeFiles (after one_request) = [file (js "a.ts")]) by (vm_compute; reflexivity). rewrite E. by left. }
  destruct (currentResult _) as [r|] eqn:E; [cbn; by rewrite (H r eq_refl)|].
  exfalso. revert E. vm_compute. discriminate.
Defined.

(** The verifier's answer in [one_request] is one of the model of [VerifierProps]. *)
Lemma one_request_honest : Forall (honest (λ _, True)) (at_env (sample_env 1000 untouched) one_request).
Proof.
  repeat (apply Forall_cons_2; [try exact I|]); [|by apply Forall_nil_2].
  exists sample_model, sample_tools, true, VerifierProps.sample_options. split; [vm_compute; reflexivity|done].
Qed.

Lemma shown_pass_was_said_witness : ∃ parsed, string_is (prop "verdict" parsed) "pass" = true ∧ said_verdict (λ _, True) parsed.
Proof.
  destruct (shown_pass_was_said (λ _, True) sample_hash sample_options (sample_env 1000 untouched)
              (at_env (sample_env 1000 untouched) one_request) (after one_request) one_request_honest)
    as (r & parsed & _ & Hs & _ & _ & Hp & _).
  - unfold after, start. reflexivity.
  - vm_compute. reflexivity.
  - exists parsed. split; [exact Hp|exact Hs].
Defined.

(** A PASS on one file; then a forced run on another one fails, because no model is configured. *)
Definition failed_after_pass : Manager :=
  after (one_request ++ [c_verify true None; c_settle 0 (s_files (Some [file (js "b.ts")])); c_settle 0 s_return; c_settle 0 (s_runtime false)]).

(** [status] checks the files of the last run and not those of the result it shows: after a
    PASS on a.ts and a run on b.ts that failed, a.ts can be deleted and the PASS still is fresh,
    although the same deletion turns it stale before the failed run. *)
Theorem failed_run_hides_drift :
  let gone := sample_env 9000 (λ p, if str_eqb p (js "/w/a.ts") then None else Some 100) in
  let verdict m := (λ r, (r_verdict r, r_stale r)) <$> currentResult (snapshot (run sample_hash sample_options gone c_status m)) in
  verdict (after one_request) = Some (pass, true) ∧ verdict failed_after_pass = Some (pass, false).
Proof. split; vm_compute; reflexivity. Qed.

(** A session with the ownership guard, in which a turn is running.  The verification is asked for
    while the agent works; [during] is what happens while the guard classifies at the fence. *)
Definition guarded : Options := {| cwd := js "/w"; timeoutMs := None; maxChangeSetFiles := None; has_ownership := true |}.
Definition observed (files : list AiraChangeFile) : Ownership.AiraWorkspaceOwnershipObservation :=
  {| Ownership.ob_available := true; Ownership.ob_baseline := []; Ownership.ob_owned := files; Ownership.ob_protected := [];
     Ownership.ob_unowned := []; Ownership.ob_counts := (0, zlen files, 0, 0) |}.
Definition a_edited : list AiraChangeFile := [file (js "a.ts")].
Definition session (before_fence during : list call) : Manager :=
  steps sample_hash guarded start (at_env (sample_env 1000 untouched)
    ([c_event turn_start; c_verify false None; c_settle 0 (s_files (Some a_edited)); c_settle 0 (s_observation (observed a_edited));
      c_settle 0 s_return; c_settle 0 (s_runtime true); c_settle 0 (s_outcome sample_outcome)]
     ++ before_fence ++ [c_settle 0 (s_files (Some a_edited))] ++ during ++ [c_settle 0 (s_observation (observed a_edited)); c_settle 0 s_return])).
Definition write_b : list call :=
  [c_event (tool_execution_start (js "write") (js "t1") (Some (js "b.ts"))); c_event (tool_execution_end (js "write") (js "t1") false)].

(** The completion fence sees an edit made while the verifier was running, and misses one that
    is made while the ownership guard classifies the files it has collected: a file written then is
    in the scope of the run and in no revision, and the result is shown as fresh. *)
Theorem edit_during_fence_is_missed :
  let shown m := (λ r, (r_verdict r, r_stale r)) <$> currentResult (snapshot m) in
  shown (session write_b []) = Some (pass, true)
  ∧ shown (session [] write_b) = Some (pass, false)
  ∧ fst <$> edits (runScope (session [] write_b)) = [js "b.ts"] ∧ answers (session [] write_b) ≠ [].
Proof. repeat split; try (vm_compute; reflexivity). vm_compute. discriminate. Qed.

End VerifyShown.
