(* ===== verification/OrchManager.v ===== *)
(** * The orchestration manager

    Models [aira/orchestration/manager.ts].  A batch runs through the scheduler of [Scheduler]: its
    steps are steps of the manager, and the callbacks of the scheduler run inside of them.  Each
    [await] of [executeRun] leaves a [job].  Run objects live in a store: an evicted run leaves
    the map of runs while the call that drives it still holds the object. *)
From S2P Require Import Prelude JsMap JsString OrchTypes Scheduler Capabilities Policy Failures ModelCall Verifier ChildData ChildEvents ChildRunner.

Module OrchManager.
Import ChildData.
Notation AiraMode := Capabilities.AiraMode.
Notation AiraChildEvent := ChildEvents.AiraChildEvent.
#[local] Existing Instances Capabilities.AiraMode_eq_dec child_status_eq_dec AiraRoleCapabilityClass_eq_dec Scheduler.ctl_eq_dec ChildRunner.evidence_rebuild.

Definition MAX_MANAGER_RUN_HISTORY : Z := 64.
Definition MAX_CHILD_TIMEOUT_MS : Z := 900000.
Definition MIN_CHILD_TIMEOUT_MS : Z := 5000.
Definition MAX_SAFE_INTEGER : Z := 2 ^ 53 - 1.
Definition MAX_DATE : Z := 8640000000000000.

(** ** Data *)

(** What is constant. *)
Record Options := {
  cwd : jsstr; executionManager : bool; intelligence : option (list jsstr); permissionGate : option ChildRunner.gate;
  maxTasksPerBatch : option Z }.

(** What the manager reads during one synchronous step: the clock, random UUIDs (for the id of the
    n-th accepted task, the run of a task and the batch), the settings and the session state. *)
Record Env := {
  now : Z; task_uuid : nat → jsstr; run_uuid : jsstr → jsstr; batch_uuid : jsstr; settings : AiraOrchestrationSettings;
  runtime_active : bool; mode : AiraMode; project : option ChildEnvelope.AiraProjectProfile }.

(** A batch: the scheduler's tasks with the accepted specs and the store index of each run; the
    gated specs with their reasons; the outcomes of [executeRun] that the scheduler has yet to
    see; and the caller that awaits the results.  Its abort controller is the scheduler's signal. *)
Record batch := {
  b_prepared : list Scheduler.AiraSchedulerRunTask; b_specs : list AiraChildTaskSpec; b_gated : list (AiraChildTaskSpec * jsstr);
  b_settings : AiraOrchestrationSettings; b_sched : Scheduler.sched; b_finished : list (jsstr * Scheduler.outcome);
  b_caller : option nat; b_id : jsstr; b_closed : bool }.
#[export] Instance batch_rebuild : Rebuild batch := λ b,
  Build_batch (b_prepared b) (b_specs b) (b_gated b) (b_settings b) (b_sched b) (b_finished b) (b_caller b) (b_id b) (b_closed b).

(** [executeRun] of task [x_task] of batch [x_batch], with its run object and its abort controller. *)
Record execution := { x_batch : nat; x_task : jsstr; x_run : nat; x_controller : nat }.
Inductive job := j_resolve (x : execution) | j_runner (x : execution).

Inductive resolution := res_none | res_unavailable (reason : jsstr) | res_runtime (resolvedModel : jsstr).
Inductive settlement := s_resolved (r : resolution) | s_outcome (out : ChildRunner.AiraChildOutcome) | s_rejected (e : Failures.thrown).

(** A child is launched. *)
Record launch := {
  l_prompt : jsstr; l_systemPrompt : jsstr; l_tools : list jsstr; l_gate : option ChildRunner.gate; l_timeoutMs : Z; l_maxToolRounds : Z;
  l_run : nat }.

Record Manager := {
  heap : list AiraChildRun; runs : list (jsstr * nat); controllers : list bool; runAborts : list (jsstr * nat);
  buffers : list (jsstr * ChildEvents.AiraChildEventBuffer); eventListeners : list (jsstr * list nat); listeners : list nat;
  batches : list batch; activeBatches : list nat; snapshot : AiraOrchestrationStatus; state_orchestration : option AiraOrchestrationStatus;
  epochStartedAt : option Z; disposed : bool; jobs : list job; scheduleCalls : nat;
  answers : list (nat * AiraOrchestrationBatchResult); launches : list launch;
  delivered : list (nat * AiraOrchestrationStatus); delivered_events : list (nat * AiraChildEvent) }.
#[export] Instance Manager_rebuild : Rebuild Manager := λ m,
  Build_Manager (heap m) (runs m) (controllers m) (runAborts m) (buffers m) (eventListeners m) (listeners m) (batches m) (activeBatches m)
    (snapshot m) (state_orchestration m) (epochStartedAt m) (disposed m) (jobs m) (scheduleCalls m) (answers m) (launches m)
    (delivered m) (delivered_events m).

(** ** Helpers of the module *)

Definition generatedTaskId (r : AiraChildRole) (uuid : jsstr) : jsstr := slice0 3 (role_name r) ++ js "-" ++ slice0 6 uuid.

Definition clampChildTimeout (requested : timeout_value) (settingsDefault : Z) : Z :=
  match requested with
  | t_ms ms => if ms <? MIN_CHILD_TIMEOUT_MS then Z.min settingsDefault MAX_CHILD_TIMEOUT_MS else Z.min ms MAX_CHILD_TIMEOUT_MS
  | t_not_finite => Z.min settingsDefault MAX_CHILD_TIMEOUT_MS
  end.

Definition categorizeDriverError (message : jsstr) : AiraChildFailureCategory :=
  if includes (js "tool budget") message then tool_budget_exceeded
  else if includes (js "timed out") message then category_timeout
  else if includes (js "cancelled") message then category_cancelled
  else if includes (js "permission") (Policy.toLowerCase message) || includes (js "denied") (Policy.toLowerCase message) then permission_denied
  else driver.

Definition requirement_name (c : AiraChildCapabilityRequirement) : jsstr :=
  match c with req_process => js "process" | req_mutation => js "mutation" | req_browser => js "browser" end.

(** [for (const capability of …)]: the first that fails decides. *)
Fixpoint check_capabilities (r : AiraChildRole) (m : AiraMode) (l : list AiraChildCapabilityRequirement) : option jsstr :=
  match l with
  | [] => None
  | c :: l =>
      let has k := match airaChildRoleOf r with Some d => bool_decide (k ∈ ro_capabilities d) | None => false end in
      let supported := match c with req_mutation => has rc_mutating | req_process => has rc_process | req_browser => false end in
      if negb supported then
        Some (js "role " ++ role_name r ++ js " cannot satisfy required capability: "
              ++ match c with req_process => js "process execution" | _ => requirement_name c end)
      else if bool_decide (m = Capabilities.plan) then Some (js "PLAN forbids required capability: " ++ requirement_name c)
      else check_capabilities r m l
  end.
Definition preflightChildTask (spec : AiraChildTaskSpec) (m : AiraMode) : option jsstr :=
  if bool_decide (m = Capabilities.plan) && negb (isAiraChildRoleReadOnly (sp_role spec)) then
    Some (js "role " ++ role_name (sp_role spec) ++ js " is refused in PLAN (read-only enforcement)")
  else check_capabilities (sp_role spec) m (default [] (sp_requiredCapabilities spec)).

Definition describeRejection (r : Scheduler.AiraScheduleRejection) : jsstr :=
  let q t := [34] ++ t ++ [34] in
  match r with
  | Scheduler.duplicate_id t => js "duplicate task id " ++ q t
  | Scheduler.self_dependency t => js "task " ++ q t ++ js " depends on itself"
  | Scheduler.unknown_dependency t d => js "task " ++ q t ++ js " depends on unknown task " ++ q d
  | Scheduler.cycle path => js "dependency cycle: " ++ join (js " -> ") path
  | Scheduler.too_many_tasks count max => js "too many tasks: " ++ num_str count ++ js " exceeds the maximum of " ++ num_str max
  end.

Definition summarizeOrchestration (anyActive : bool) (activeCount : Z) (enabled : bool) : jsstr :=
  if negb enabled then js "disabled"
  else if negb anyActive || (activeCount =? 0) then js "idle"
  else num_str activeCount ++ js " active".

(** ** Runs *)

Definition get (runId : jsstr) (m : Manager) : option AiraChildRun := mget runId (runs m) ≫= λ i, heap m !! i.
Definition live (m : Manager) : list AiraChildRun := omap (λ kv, heap m !! kv.2) (runs m).
Definition update_run (i : nat) (f : AiraChildRun → AiraChildRun) (m : Manager) : Manager := m <| heap := alter f i (heap m) |>.

Definition started_or_created (r : AiraChildRun) : Z := default (createdAt r) (startedAt r).
Definition recentRuns (m : Manager) : list AiraChildRun :=
  sort_by (λ a b, started_or_created b <=? started_or_created a) (live m).

Definition is_active (r : AiraChildRun) : bool := bool_decide (status r = run_pending) || bool_decide (status r = run_running).
Definition count (s : AiraChildRunStatus) (m : Manager) : Z := zlen (filter (λ r, status r = s) (live m)).

Section Manager.
Context (o : Options) (env : Env).

Definition publish (m : Manager) : Manager :=
  let set_ := if disposed m then None else Some (settings env) in
  let enabled_ := match set_ with Some s => os_set_enabled s | None => os_enabled (snapshot m) end in
  let active := filter (λ r, is_active r = true) (live m) in
  let anyActive := (0 <? zlen active) || (0 <? zlen (activeBatches m)) in
  let recent := recentRuns m in
  let sn := {|
    os_enabled := enabled_; os_status := if anyActive then orch_active else orch_idle; os_runningCount := count run_running m;
    os_queuedCount := count run_pending m;
    os_maxConcurrency := match set_ with Some s => maxParallel s | None => os_maxConcurrency (snapshot m) end;
    os_children := toAiraChildSnapshot (now env) <$> take (Z.to_nat MAX_CHILDREN_IN_SNAPSHOT) recent;
    os_recentResults := toAiraChildResultSummary <$> take (Z.to_nat MAX_RESULTS_IN_SNAPSHOT) (filter (λ r, phase r = phase_settled) recent);
    os_failures := toAiraChildFailure (now env) <$> take (Z.to_nat MAX_FAILURES_IN_SNAPSHOT) (filter (λ r, is_Some (error r)) recent);
    os_aggregateTokenUsage := aggregateAiraTokenUsage (live m);
    os_epochStartedAt := match epochStartedAt m with Some t => Some t | None => os_epochStartedAt (snapshot m) end;
    os_summary := summarizeOrchestration anyActive (zlen active) enabled_; os_updatedAt := now env |} in
  m <| snapshot := sn |> <| state_orchestration := Some sn |> <| delivered := delivered m ++ ((λ l, (l, sn)) <$> listeners m) |>.

Definition construct : Manager :=
  {| heap := []; runs := []; controllers := []; runAborts := []; buffers := []; eventListeners := []; listeners := []; batches := [];
     activeBatches := []; snapshot := initialAiraOrchestrationStatus (now env) (os_set_enabled (settings env)) (maxParallel (settings env));
     state_orchestration := None; epochStartedAt := None; disposed := false; jobs := []; scheduleCalls := 0; answers := [];
     launches := []; delivered := []; delivered_events := [] |}.
Definition activate (m : Manager) : Manager := if disposed m then m else publish m.
Definition createAiraOrchestrationManager : Manager := activate construct.

Definition recordChildEvent (runId : jsstr) (e : AiraChildEvent) (m : Manager) : Manager :=
  match mget runId (buffers m) with
  | None => m
  | Some buffer =>
      let m := m <| buffers := mset runId (ChildEvents.append e buffer) (buffers m) |> in
      let m := match mget runId (runs m) with
               | Some i => update_run i (λ r, (match ChildEvents.childActivityOf (Some e) with Some a => r <| activity := Some a |> | None => r end)
                                              <| lastActivityAt := Some (ChildEvents.event_at e) |>) m
               | None => m end in
      match mget runId (eventListeners m) with
      | Some ls => m <| delivered_events := delivered_events m ++ ((λ l, (l, e)) <$> ls) |>
      | None => m
      end
  end.

(** A status event of the run in the store at [i]. *)
Definition record_status (i : nat) (m : Manager) : Manager :=
  match heap m !! i with
  | Some r => recordChildEvent (id r) (ChildEvents.ce_status (now env) (status r) (phase r) None) m
  | None => m
  end.

Definition settled_key (r : AiraChildRun) : Z := if bool_decide (phase r = phase_settled) then default 0 (completedAt r) else MAX_SAFE_INTEGER.

(** The oldest settled run goes first; a run that is not settled counts as the youngest. *)
Definition evict (i : nat) (m : Manager) : Manager :=
  let candidates := sort_by (λ a b, settled_key a.2 <=? settled_key b.2) (omap (λ kv, (λ r, (kv.2, r)) <$> heap m !! kv.2) (runs m)) in
  match candidates with
  | (j, r) :: _ =>
      if bool_decide (j = i) then m
      else m <| runs := mdelete (id r) (runs m) |> <| runAborts := mdelete (id r) (runAborts m) |>
             <| buffers := mdelete (id r) (buffers m) |> <| eventListeners := mdelete (id r) (eventListeners m) |>
  | [] => m
  end.

Definition recordRun (r : AiraChildRun) (m : Manager) : Manager :=
  let i := length (heap m) in
  let m := m <| heap := heap m ++ [r] |> <| runs := mset (id r) i (runs m) |>
             <| buffers := mset (id r) ChildEvents.default_buffer (buffers m) |> <| eventListeners := mset (id r) [] (eventListeners m) |> in
  let m := record_status i m in
  if zlen (runs m) <=? MAX_MANAGER_RUN_HISTORY then m else evict i m.

Definition epochEnd (m : Manager) : Manager :=
  let active := existsb is_active (live m) in
  publish (if active then m else m <| epochStartedAt := None |>).

(** ** Settling a run *)

Definition duration (completed : Z) (r : AiraChildRun) : Z := completed - default completed (startedAt r).

Definition settleRun (i : nat) (s : AiraChildRunStatus) (failure : option Failures.AiraChildFailureInfo) (message : option jsstr)
    (res : option AiraChildResult) (m : Manager) : Manager :=
  let m := update_run i (λ r,
    (match failure with Some f => r <| error := Some f |> | None => r end)
      <| status := s |> <| phase := phase_settled |> <| completedAt := Some (now env) |>
      <| durationMs := Some (duration (now env) r) |> <| result := match res with Some x => Some x | None => result r end |>) m in
  match heap m !! i with
  | Some r => publish (recordChildEvent (id r)
      (ChildEvents.ce_completion (now env) (if bool_decide (s = run_completed) then child_completed else child_failed)
         (match res, message with Some x, _ => cr_summary x | None, Some t => t | None, None => status_name s end)) m)
  | None => publish m
  end.

Definition failed_status (k : AiraChildFailureKind) : AiraChildRunStatus :=
  match k with kind_cancelled => run_cancelled | kind_timeout => run_timed_out | _ => run_failed end.

Definition failRun (i : nat) (failure : Failures.AiraChildFailureInfo) (m : Manager) : Manager :=
  let m := update_run i (λ r, r <| error := Some failure |>) m in
  let m := match heap m !! i with
           | Some r => recordChildEvent (id r) (ChildEvents.ce_failure (now env) (Failures.category failure) (Failures.message failure)) m
           | None => m end in
  settleRun i (failed_status (Failures.kind failure)) (Some failure) (Some (Failures.message failure)) None m.

Definition cancelled_at (component operation : string) (message : jsstr) : Failures.AiraChildFailureInfo :=
  Failures.classifyAiraChildFailure (ChildRunner.evidence_at component operation message <| Failures.cancelled := true |>).

Definition no_input (message : jsstr) : Failures.AiraFailureInput :=
  {| Failures.i_message := message; Failures.i_kind := None; Failures.i_category := None; Failures.i_code := None; Failures.i_component := None;
     Failures.i_operation := None; Failures.i_retryable := None; Failures.i_retryableHint := None; Failures.i_taskStatus := None;
     Failures.i_capabilityGaps := None; Failures.i_diagnostics := None |}.
Definition input (k : AiraChildFailureKind) (c : AiraChildFailureCategory) (message component operation : jsstr)
    (t : AiraChildTaskExecutionStatus) (gaps : option (list Failures.AiraChildCapabilityGap)) : Failures.AiraFailureInput :=
  {| Failures.i_message := message; Failures.i_kind := Some k; Failures.i_category := Some c; Failures.i_code := None;
     Failures.i_component := Some component; Failures.i_operation := Some operation; Failures.i_retryable := None;
     Failures.i_retryableHint := None; Failures.i_taskStatus := Some t; Failures.i_capabilityGaps := gaps; Failures.i_diagnostics := None |}.

(** The failure of an outcome that is none; a runner of the host may give no classification. *)
Definition failureOf (r : AiraChildRun) (driverError : jsstr) (e : option Failures.AiraChildFailureInfo) (aborted : bool)
    : Failures.AiraChildFailureInfo :=
  match e with
  | Some f =>
      if aborted && negb (bool_decide (Failures.kind f = kind_cancelled)) then
        {| Failures.kind := kind_cancelled; Failures.category := category_cancelled; Failures.message := Failures.message f;
           Failures.retryable := Failures.retryable f; Failures.retryableHint := Failures.hint_no; Failures.code := Failures.code f;
           Failures.component := Failures.component f; Failures.operation := Failures.operation f; Failures.taskStatus := Failures.taskStatus f;
           Failures.capabilityGaps := Failures.capabilityGaps f; Failures.diagnostics := Failures.diagnostics f |}
      else f
  | None =>
      let category := categorizeDriverError driverError in
      if aborted || bool_decide (category = category_cancelled) then cancelled_at "child-run" "cancel" driverError
      else match category with
      | category_timeout =>
          Failures.classifyAiraChildFailure (ChildRunner.evidence_at "child-run" "timeout" driverError <| Failures.timedOut := true |>)
      | tool_budget_exceeded =>
          Failures.buildAiraChildFailure (input task_failure category driverError (js "child-run") (js "tool-budget") attempted None)
      | _ =>
          let kind := if bool_decide (category = permission_denied) then environment_failure else capability_failure in
          match default [] (capabilityGaps r) with
          | gap :: gaps => Failures.buildAiraChildFailure
              (input kind category driverError (Failures.gap_component gap) (Failures.gap_operation gap) not_attempted (Some (gap :: gaps)))
          | [] => Failures.buildAiraChildFailure
              (input kind category driverError (js "child-run") (js "execute") execution_unknown None)
          end
      end
  end.

(** ** Executing a run *)

Definition with_batch (n : nat) (f : batch → batch) (m : Manager) : Manager := m <| batches := alter f n (batches m) |>.
Definition await (j : job) (m : Manager) : Manager := m <| jobs := jobs m ++ [j] |>.

(** [executeRun] returns; the scheduler continues in a step of its own. *)
Definition finish (n : nat) (t : jsstr) (out : Scheduler.outcome) (m : Manager) : Manager :=
  with_batch n (λ b, b <| b_finished := b_finished b ++ [(t, out)] |>) m.

Definition index_of (t : jsstr) (b : batch) : option nat :=
  fst <$> list_find (λ p, Scheduler.taskId (Scheduler.run_task p) = t) (b_prepared b).
Definition spec_of (t : jsstr) (b : batch) : option AiraChildTaskSpec := index_of t b ≫= λ k, b_specs b !! k.
Definition runId_of (t : jsstr) (b : batch) : option jsstr := index_of t b ≫= λ k, Scheduler.runId <$> b_prepared b !! k.

Definition start_run (r : AiraChildRun) : AiraChildRun :=
  r <| startedAt := Some (default (now env) (startedAt r)) |> <| status := run_running |> <| phase := phase_running |>.

Definition executeRun (n : nat) (t : jsstr) (m : Manager) : Manager :=
  match batches m !! n ≫= runId_of t with
  | None => m
  | Some runId =>
      match mget runId (runs m) with
      | None => finish n t Scheduler.o_failed m
      | Some i =>
          let k := length (controllers m) in
          let m := m <| controllers := controllers m ++ [false] |> <| runAborts := mset runId k (runAborts m) |> in
          let m := publish (record_status i (update_run i start_run m)) in
          await (j_resolve {| x_batch := n; x_task := t; x_run := i; x_controller := k |}) m
      end
  end.

(** [signal.aborted] *)
Definition aborted (x : execution) (m : Manager) : bool :=
  match batches m !! x_batch x with Some b => Scheduler.aborted (b_sched b) | None => false end
  || default false (controllers m !! x_controller x).

(** [finally], and the value returned to the scheduler. *)
Definition leave (x : execution) (out : Scheduler.outcome) (m : Manager) : Manager :=
  let m := match heap m !! x_run x with Some r => m <| runAborts := mdelete (id r) (runAborts m) |> | None => m end in
  finish (x_batch x) (x_task x) out m.

Definition launch_of (r : AiraChildRun) (spec : AiraChildTaskSpec) (s : AiraOrchestrationSettings) (i : nat) : launch :=
  let toolSet := buildAiraChildToolSet (sp_role spec) (mode env) (executionManager o) (intelligence o) in
  let envelope := ChildEnvelope.buildAiraChildEnvelope {|
    ChildEnvelope.in_role := sp_role spec; ChildEnvelope.in_task := sp_task spec; ChildEnvelope.in_mode := mode env;
    ChildEnvelope.in_projectRoot := cwd o; ChildEnvelope.in_project := project env;
    ChildEnvelope.in_files := Some (boundChildList (default [] (sp_files spec)) ChildEnvelope.MAX_CHILD_FILES 200);
    ChildEnvelope.in_context := Some (boundChildText (default [] (sp_context spec)) ChildEnvelope.MAX_CHILD_CONTEXT_CHARS);
    ChildEnvelope.in_mutatingAllowed := ts_mutating toolSet |} in
  {| l_prompt := ChildEnvelope.prompt envelope; l_systemPrompt := ChildEnvelope.systemPrompt envelope; l_tools := ts_tools toolSet;
     l_gate := permissionGate o; l_timeoutMs := clampChildTimeout (default (t_ms (timeoutMs s)) (sp_timeoutMs spec)) (timeoutMs s);
     l_maxToolRounds := Verifier.ceil_div (toolBudget_of (sp_role spec)) 4; l_run := i |}.

Definition after_resolve (x : execution) (res : resolution) (m : Manager) : Manager :=
  match batches m !! x_batch x ≫= λ b, (λ s, (b, s)) <$> spec_of (x_task x) b with
  | None => m
  | Some (b, spec) =>
      match res with
      | res_runtime resolved =>
          let m := publish (update_run (x_run x) (λ r, r <| resolvedModel := Some resolved |>) m) in
          let gaps := ts_capabilityGaps (buildAiraChildToolSet (sp_role spec) (mode env) (executionManager o) (intelligence o)) in
          let m := match gaps with [] => m | _ => update_run (x_run x) (λ r, r <| capabilityGaps := Some gaps |>) m end in
          match heap m !! x_run x with
          | Some r => await (j_runner x) (m <| launches := launches m ++ [launch_of r spec (b_settings b) (x_run x)] |>)
          | None => m
          end
      | _ =>
          let message := if aborted x m then js "cancelled"
                         else match res with res_unavailable reason => reason | _ => js "child model unavailable" end in
          let failure := if aborted x m then cancelled_at "child-model" "resolve" message
                         else Failures.buildAiraChildFailure
                                (input capability_failure model_unavailable message (js "child-model") (js "resolve") not_attempted None) in
          leave x Scheduler.o_failed (failRun (x_run x) failure m)
      end
  end.

Definition note_budget (t : Verifier.telemetry) (r : AiraChildRun) : AiraChildRun :=
  match t with
  | Some (used, limit, ext) => r <| toolBudgetUsed := Some used |> <| toolBudgetLimit := Some limit |> <| toolBudgetExtensions := Some ext |>
  | None => r
  end.

Definition after_runner (x : execution) (out : ChildRunner.AiraChildOutcome) (m : Manager) : Manager :=
  match out with
  | ChildRunner.c_fail driverError e b =>
      let m := update_run (x_run x) (note_budget b) m in
      match heap m !! x_run x with
      | Some r => leave x Scheduler.o_failed (failRun (x_run x) (failureOf r driverError e (aborted x m)) m)
      | None => m
      end
  | ChildRunner.c_ok res _ usage b =>
      let m := update_run (x_run x) (λ r, note_budget b r <| tokenUsage := usage |>) m in
      if bool_decide (cr_status res = child_completed) then
        leave x Scheduler.o_completed (settleRun (x_run x) run_completed None None (Some res) m)
      else
        let failure := Failures.buildAiraChildFailure
          (input task_failure driver (cr_summary res) (js "child-run") (js "acceptance") attempted None) in
        leave x Scheduler.o_failed (settleRun (x_run x) run_failed (Some failure) (Some (cr_summary res)) (Some res) m)
  end.

(** [catch] *)
Definition after_throw (x : execution) (e : Failures.thrown) (m : Manager) : Manager :=
  let evidence := Failures.toAiraFailureEvidence e (js "child run failed") in
  let failure := if aborted x m then cancelled_at "orchestration" "cancel" (js "cancelled")
    else Failures.classifyAiraChildFailure
           (evidence <| Failures.e_origin := Some (default Failures.o_capability (Failures.e_origin evidence)) |>
                     <| Failures.e_component := Some (default (js "orchestration") (Failures.e_component evidence)) |>
                     <| Failures.e_operation := Some (default (js "execute") (Failures.e_operation evidence)) |>) in
  leave x Scheduler.o_failed (failRun (x_run x) failure m).

(** ** The scheduler's callbacks *)

Definition onStarted (n : nat) (t : jsstr) (m : Manager) : Manager :=
  match (batches m !! n ≫= runId_of t) ≫= (λ runId, mget runId (runs m)) with
  | Some i => publish (record_status i (update_run i start_run m))
  | None => m
  end.

Definition skip_failure (cancelled : bool) (reason : jsstr) : Failures.AiraChildFailureInfo :=
  if cancelled then cancelled_at "orchestration" "cancel" (js "cancelled before launch")
  else Failures.buildAiraChildFailure
         (input task_failure dependency_failed (js "upstream dependency failed: " ++ reason) (js "orchestration") (js "dependency")
            not_attempted None).

Definition onSkipped (n : nat) (t reason : jsstr) (m : Manager) : Manager :=
  match batches m !! n with
  | None => m
  | Some b =>
      match runId_of t b ≫= (λ runId, mget runId (runs m)) with
      | None => m
      | Some i =>
          match heap m !! i with
          | Some r =>
              if bool_decide (status r = run_pending) then
                let failure := skip_failure (Scheduler.aborted (b_sched b)) reason in
                let m := update_run i (λ r, r <| status := run_rejected |> <| phase := phase_settled |> <| completedAt := Some (now env) |>
                                             <| durationMs := Some (duration (now env) r) |> <| error := Some failure |>) m in
                publish (recordChildEvent (id r) (ChildEvents.ce_failure (now env) (Failures.category failure) (Failures.message failure)) m)
              else m
          | None => m
          end
      end
  end.

Definition on_event (n : nat) (m : Manager) (e : Scheduler.event) : Manager :=
  match e with
  | Scheduler.ev_started t => executeRun n t (onStarted n t m)
  | Scheduler.ev_skipped t reason => onSkipped n t reason m
  end.

(** One step of the scheduler of batch [n], with the callbacks it makes. *)
Definition sched_step (n : nat) (l : Scheduler.label) (m : Manager) : Manager :=
  match batches m !! n with
  | None => m
  | Some b =>
      let allowed := match l with
                     | Scheduler.l_abort => false
                     | Scheduler.l_finish t out => existsb (λ p, bool_decide (p.1 = t) && match p.2, out with
                         | Scheduler.o_completed, Scheduler.o_completed | Scheduler.o_failed, Scheduler.o_failed => true
                         | _, _ => false end) (b_finished b)
                     | _ => true end in
      if negb allowed then m
      else match Scheduler.step (b_prepared b) (maxParallel (b_settings b)) l (b_sched b) with
      | None => m
      | Some s =>
          let fresh := drop (length (Scheduler.events (b_sched b))) (Scheduler.events s) in
          foldl (on_event n) (with_batch n (λ b, b <| b_sched := s |>) m) fresh
      end
  end.

(** ** Requests *)

Definition task_of (t : jsstr) (r : AiraChildRole) (runId : option jsstr) (acc : bool) (why : option jsstr) : batch_task :=
  {| bt_taskId := t; bt_role := r; bt_runId := runId; bt_accepted := acc; bt_reason := why; bt_result := None; bt_failure := None |}.
Definition spec_label (s : AiraChildTaskSpec) : jsstr := default (role_name (sp_role s)) (sp_id s).
Definition rejected_task (s : AiraChildTaskSpec) (why : jsstr) : batch_task := task_of (spec_label s) (sp_role s) None false (Some why).

Definition refusedBatch (specs : list AiraChildTaskSpec) (why : jsstr) : AiraOrchestrationBatchResult :=
  {| br_ok := false; br_batchId := None; br_tasks := (λ s, rejected_task s why) <$> specs |}.
Definition rejectionBatch (specs : list AiraChildTaskSpec) (r : Scheduler.AiraScheduleRejection) : AiraOrchestrationBatchResult :=
  {| br_ok := false; br_batchId := None;
     br_tasks := (λ s, rejected_task s (default (describeRejection r) (preflightChildTask s (mode env)))) <$> specs |}.

Definition taskOutcomes (withResults : bool) (b : batch) (m : Manager) : list batch_task :=
  ((λ p, rejected_task p.1 p.2) <$> b_gated b)
  ++ ((λ p, let run_ := get (Scheduler.runId p) m in
            let base := task_of (Scheduler.taskId (Scheduler.run_task p)) (default explore (role <$> run_)) (Some (Scheduler.runId p)) true None in
            match run_ with
            | Some r => if withResults then
                {| bt_taskId := bt_taskId base; bt_role := bt_role base; bt_runId := bt_runId base; bt_accepted := true; bt_reason := None;
                   bt_result := Some (match result r with Some x => inl x | None => inr (status r) end);
                   bt_failure := if bool_decide (status r = run_completed) then None else Some (toAiraChildFailure (now env) r) |}
                else base
            | None => base
            end) <$> b_prepared b).

Definition answer (n : nat) (r : AiraOrchestrationBatchResult) (m : Manager) : Manager := m <| answers := answers m ++ [(n, r)] |>.

(** [spec.id] if it is more than white space, trimmed. *)
Definition own_id (s : AiraChildTaskSpec) : option jsstr :=
  match trim <$> sp_id s with Some ((_ :: _) as t) => Some t | _ => None end.
Definition scheduled (i : nat) (s : AiraChildTaskSpec) : Scheduler.AiraScheduledTask :=
  {| Scheduler.taskId := default (generatedTaskId (sp_role s) (task_uuid env i)) (own_id s);
     Scheduler.dependencies := default [] (sp_dependencies s); Scheduler.timeoutMs := None |}.

Definition new_run (s : AiraOrchestrationSettings) (spec : AiraChildTaskSpec) (p : Scheduler.AiraSchedulerRunTask) : AiraChildRun :=
  let deps := Scheduler.dependencies (Scheduler.run_task p) in
  {| id := Scheduler.runId p; taskId := Scheduler.taskId (Scheduler.run_task p); createdAt := now env; role := sp_role spec;
     task := boundChildText (sp_task spec) ChildEnvelope.MAX_CHILD_TASK_CHARS; dependencies := deps; status := run_pending;
     phase := if bool_decide (deps = []) then waiting_capacity else waiting_dependency;
     model := Some (default (set_model s) (sp_model spec)); resolvedModel := None; startedAt := None; completedAt := None; durationMs := None;
     result := None; error := None; tokenUsage := None; activity := None; toolBudgetUsed := None;
     toolBudgetLimit := Some (toolBudget_of (sp_role spec)); toolBudgetExtensions := None; lastActivityAt := None; capabilityGaps := None |}.

Definition batch_name : jsstr := js "b-" ++ radix36 (now env) ++ js "-" ++ slice0 4 (batch_uuid env).

(** Of the accepted tasks: the runs, the batch and its scheduler. *)
Definition launch_batch (n : nat) (awaitResults : bool) (gated : list (AiraChildTaskSpec * jsstr)) (accepted : list AiraChildTaskSpec)
    (prepared : list Scheduler.AiraSchedulerRunTask) (sched : Scheduler.sched) (m : Manager) : Manager :=
  let s := settings env in
  let m := m <| activeBatches := activeBatches m ++ [length (batches m)] |>
             <| epochStartedAt := Some (default (now env) (epochStartedAt m)) |> in
  let m := foldl (λ m sp, recordRun (new_run s sp.1 sp.2) m) m (zip accepted prepared) in
  let m := publish m in
  let b := {| b_prepared := prepared; b_specs := accepted; b_gated := gated; b_settings := s; b_sched := sched; b_finished := [];
              b_caller := if awaitResults then Some n else None; b_id := batch_name; b_closed := false |} in
  let k := length (batches m) in
  let m := m <| batches := batches m ++ [b] |> in
  let m := foldl (on_event k) m (Scheduler.events sched) in
  if awaitResults then m
  else answer n {| br_ok := true; br_batchId := Some batch_name; br_tasks := taskOutcomes false b m |} m.

Definition schedule (specs : list AiraChildTaskSpec) (awaitResults : bool) (m : Manager) : Manager :=
  let n := scheduleCalls m in
  let m := m <| scheduleCalls := S n |> in
  if disposed m then answer n (refusedBatch specs (js "session disposed")) m
  else if negb (os_set_enabled (settings env)) then
    answer n (refusedBatch specs (js "orchestration is disabled (orchestration.enabled=false)")) m
  else if negb (runtime_active env) then answer n (refusedBatch specs (js "session not active")) m
  else match specs with
  | [] => answer n {| br_ok := true; br_batchId := None; br_tasks := [] |} m
  | _ =>
      if default Scheduler.MAX_CHILD_TASKS_PER_BATCH (maxTasksPerBatch o) <? zlen specs then
        answer n (refusedBatch specs (js "too many tasks: " ++ num_str (zlen specs) ++ js " exceeds the maximum of "
                                      ++ num_str Scheduler.MAX_CHILD_TASKS_PER_BATCH)) m
      else
        let gated := omap (λ s, (λ why, (s, why)) <$> preflightChildTask s (mode env)) specs in
        let accepted := filter (λ s, preflightChildTask s (mode env) = None) specs in
        match accepted with
        | [] => answer n {| br_ok := false; br_batchId := None; br_tasks := (λ p, rejected_task p.1 p.2) <$> gated |} m
        | _ =>
            match Scheduler.prepareAiraSchedule (run_uuid env) (imap scheduled accepted) with
            | Some (Ok prepared) =>
                match Scheduler.runAiraScheduler prepared false with
                | Some sched => launch_batch n awaitResults gated accepted prepared sched m
                | None => m
                end
            | Some (Err r) => answer n (rejectionBatch specs r) m
            | None => m
            end
        end
  end.

(** The promise of the batch's scheduler is settled. *)
Definition batch_done (b : batch) : bool :=
  forallb (λ t, bool_decide (Scheduler.ctls (b_sched b) !! t = Some Scheduler.c_done)) (Scheduler.ids (b_prepared b)).
Definition close_batch (n : nat) (m : Manager) : Manager :=
  match batches m !! n with
  | None => m
  | Some b =>
      if b_closed b || negb (batch_done b) then m
      else
        let m := with_batch n (λ b, b <| b_closed := true |>) m in
        let m := epochEnd (m <| activeBatches := filter (λ k, k ≠ n) (activeBatches m) |>) in
        match b_caller b with
        | Some c => answer c {| br_ok := true; br_batchId := Some (b_id b); br_tasks := taskOutcomes true b m |} m
        | None => m
        end
  end.

(** ** Cancellation *)

Definition abort_controller (m : Manager) (k : nat) : Manager := m <| controllers := <[k := true]> (controllers m) |>.
Definition abort_batch (m : Manager) (n : nat) : Manager := with_batch n (λ b, b <| b_sched := Scheduler.set_aborted (b_sched b) |>) m.
Definition abort_all (m : Manager) : Manager := foldl abort_batch (foldl abort_controller m ((runAborts m).*2)) (activeBatches m).

(** The result is [{ ok: true, tasks: [] }] in every case. *)
Definition cancel (runId : option jsstr) (m : Manager) : Manager :=
  match runId with
  | Some ((_ :: _) as i) => match mget i (runAborts m) with Some k => abort_controller m k | None => m end
  | _ => abort_all m
  end.

Definition dispose (m : Manager) : Manager :=
  if disposed m then m
  else
    let m := abort_all (m <| disposed := true |>) in
    publish (m <| activeBatches := [] |> <| runAborts := [] |> <| listeners := [] |> <| buffers := [] |> <| eventListeners := [] |>).

(** ** Steps *)

Definition run_events (runId : jsstr) (m : Manager) : list AiraChildEvent :=
  match mget runId (buffers m) with Some b => ChildEvents.events b | None => [] end.
Definition subscribeEvents (runId : jsstr) (l : nat) (m : Manager) : Manager :=
  match mget runId (eventListeners m) with
  | Some ls => m <| eventListeners := mset runId (if bool_decide (l ∈ ls) then ls else ls ++ [l]) (eventListeners m) |>
  | None => m
  end.

Definition resume (j : job) (s : settlement) (m : Manager) : option Manager :=
  match j, s with
  | j_resolve x, s_resolved res => Some (after_resolve x res m)
  | j_runner x, s_outcome out => Some (after_runner x out m)
  | j_resolve x, s_rejected e | j_runner x, s_rejected e => Some (after_throw x e m)
  | _, _ => None
  end.

Inductive call :=
| c_schedule (specs : list AiraChildTaskSpec) (awaitResults : bool) | c_cancel (runId : option jsstr) | c_status
| c_subscribe (l : nat) | c_unsubscribe (l : nat) | c_subscribeEvents (runId : jsstr) (l : nat) | c_dispose
| c_sched (n : nat) (l : Scheduler.label)          (** the scheduler of batch [n] continues *)
| c_close (n : nat)                                (** the promise of batch [n] is settled *)
| c_settle (n : nat) (s : settlement)              (** the [n]-th awaited call settles *)
| c_child_event (n : nat) (e : AiraChildEvent)     (** the runner that is the [n]-th awaited call emits an event *).

Definition run (c : call) (m : Manager) : Manager :=
  match c with
  | c_schedule specs awaitResults => schedule specs awaitResults m
  | c_cancel runId => cancel runId m
  | c_status => publish m
  | c_subscribe l => m <| listeners := if bool_decide (l ∈ listeners m) then listeners m else listeners m ++ [l] |>
  | c_unsubscribe l => m <| listeners := filter (λ x, x ≠ l) (listeners m) |>
  | c_subscribeEvents runId l => subscribeEvents runId l m
  | c_dispose => dispose m
  | c_sched n l => sched_step n l m
  | c_close n => close_batch n m
  | c_settle n s =>
      match jobs m !! n with
      | None => m
      | Some j => default m (resume j s (m <| jobs := delete n (jobs m) |>))
      end
  | c_child_event n e =>
      match jobs m !! n with
      | Some (j_runner x) => match heap m !! x_run x with Some r => recordChildEvent (id r) e m | None => m end
      | _ => m
      end
  end.
End Manager.

Section Runs.
Context (o : Options).
Definition steps (m : Manager) (l : list (Env * call)) : Manager := foldl (λ m c, run o c.1 c.2 m) m l.

(** [Date.now()] is at most 8.64e15, below [Number.MAX_SAFE_INTEGER]. *)
Inductive reachable : Manager → Prop :=
| reachable_start env : 0 <= now env <= MAX_DATE → reachable (createAiraOrchestrationManager env)
| reachable_step env c m : reachable m → 0 <= now env <= MAX_DATE → reachable (run o env c m).
End Runs.

End OrchManager.
