(* ===== verification/OrchManagerProps.v ===== *)
(** * Properties of the orchestration manager

    The history of runs is bounded; the snapshot agrees with the runs after every call; what a
    child may be launched with; and where the bound of the history and the cancellation of one
    run do less than they promise. *)
From S2P Require Import Prelude JsMap JsString OrchTypes Scheduler Capabilities Failures ModelCall Verifier ChildData ChildEvents ChildRunner.
From S2P Require Import OrchManager.

Module OrchManagerProps.
Import ChildData OrchManager.
#[local] Existing Instances Capabilities.AiraMode_eq_dec child_status_eq_dec ChildRunner.evidence_rebuild.

(** ** Frames *)

(** What the store and the map of runs are, up to the contents of the runs. *)
Definition shape (m : Manager) : list (jsstr * nat) * list (jsstr * AiraChildRole) := (runs m, (λ r, (id r, role r)) <$> heap m).
(** What the counts of the snapshot depend on, with the snapshot. *)
Definition seen (m : Manager) : AiraOrchestrationStatus * option AiraOrchestrationStatus * list AiraChildRunStatus * list nat :=
  (snapshot m, state_orchestration m, status <$> live m, activeBatches m).

Definition dated (m : Manager) : Prop := Forall (λ r, default 0 (completedAt r) <= MAX_DATE) (heap m).

Lemma heap_update {B} (g : AiraChildRun → B) i f m : (∀ r, g (f r) = g r) → g <$> heap (update_run i f m) = g <$> heap m.
Proof.
  intros Hf. unfold update_run. cbn. apply list_eq. intros j. rewrite !list_lookup_fmap, list_lookup_alter.
  case_decide; [subst|done]. destruct (heap m !! j); cbn; by rewrite ?Hf.
Qed.
Lemma shape_update i f m : (∀ r, id (f r) = id r ∧ role (f r) = role r) → shape (update_run i f m) = shape m.
Proof. intros Hf. unfold shape. rewrite heap_update; [done|]. intros r. by destruct (Hf r) as [-> ->]. Qed.

Lemma statuses_live m : status <$> live m = omap (λ kv, status <$> heap m !! kv.2) (runs m).
Proof.
  unfold live. induction (runs m) as [|kv l IH]; [done|]. cbn [omap list_omap]. destruct (heap m !! kv.2); cbn; by rewrite <-IH.
Qed.
Lemma seen_update i f m : (∀ r, status (f r) = status r) → seen (update_run i f m) = seen m.
Proof.
  intros Hf. unfold seen. rewrite !statuses_live. cbn. do 2 f_equal. induction (runs m) as [|kv l IH]; [done|].
  assert (E : status <$> alter f i (heap m) !! kv.2 = status <$> heap m !! kv.2).
  { rewrite list_lookup_alter. case_decide; [subst|done]. destruct (heap m !! kv.2); cbn; by rewrite ?Hf. }
  cbn [omap list_omap]. rewrite E. by rewrite IH.
Qed.
Lemma dated_update i f m : (∀ r, default 0 (completedAt r) <= MAX_DATE → default 0 (completedAt (f r)) <= MAX_DATE) →
  dated m → dated (update_run i f m).
Proof. intros Hf Hm. unfold dated, update_run. cbn. apply Forall_alter; [done|]. intros x Hx Hd. by apply Hf. Qed.

Section Manager.
Context (o : Options) (env : Env).

(** *** Nothing but the contents of a run changes *)

(** What an event leaves alone of its run. *)
Record same_core (r r' : AiraChildRun) : Prop := {
  sc_id : id r' = id r; sc_role : role r' = role r; sc_status : status r' = status r; sc_phase : phase r' = phase r; sc_completedAt : completedAt r' = completedAt r;
  sc_result : result r' = result r; sc_error : error r' = error r }.

Lemma event_rel (R : Manager → Manager → Prop) `{!PreOrder R} k e m :
  (∀ m b, R m (m <| buffers := b |>)) → (∀ m i f, (∀ r, same_core r (f r)) → R m (update_run i f m)) →
  (∀ m d, R m (m <| delivered_events := d |>)) → R m (recordChildEvent k e m).
Proof.
  intros Hb Hu Hd. unfold recordChildEvent. destruct (mget k (buffers m)) as [b|]; [cbv zeta|done].
  set (m1 := m <| buffers := _ |>). assert (H1 : R m m1) by apply Hb. clearbody m1.
  set (m2 := match mget k (runs m1) with Some i => _ | None => m1 end).
  assert (H2 : R m m2) by (unfold m2; destruct (mget k (runs m1)); [transitivity m1; [done|]; apply Hu; intros r; by case_match|done]).
  clearbody m2. destruct (mget k (eventListeners m2)); [|done]. transitivity m2; [done|apply Hd].
Qed.


(** What a child is launched with. *)
Definition contained (l : launch) : Prop :=
  (mode env = Capabilities.plan → ∀ t, t ∈ l_tools l → t ∈ AIRA_CHILD_READ_TOOL_NAMES ++ default [] (intelligence o))
  ∧ (∀ t, t ∈ l_tools l → t ∈ AIRA_CHILD_READ_TOOL_NAMES ++ default [] (intelligence o) ++ (js <$> ["write"; "edit"]%string)
                                ++ (if executionManager o then AIRA_CHILD_PROCESS_TOOL_NAMES else []))
  ∧ l_gate l = permissionGate o ∧ l_timeoutMs l <= MAX_CHILD_TIMEOUT_MS.

(** Steps that neither add nor drop a run, that stay within the clock and launch contained children. *)
Definition tame (m m' : Manager) : Prop :=
  shape m' = shape m ∧ (0 <= now env <= MAX_DATE → dated m → dated m')
  ∧ ∀ P, (∀ l, contained l → P l) → Forall P (launches m) → Forall P (launches m').
#[local] Instance tame_preorder : PreOrder tame.
Proof. split; [done|]. intros a b c (H1 & D1 & L1) (H2 & D2 & L2). split_and!; [by rewrite H2|auto|auto]. Qed.
#[local] Instance same_preorder {A} (f : Manager → A) : PreOrder (λ m m', f m' = f m).
Proof. split; [done|]. intros a b c H1 H2. by rewrite H2. Qed.

Lemma tame_event k e m : tame m (recordChildEvent k e m).
Proof.
  apply (event_rel tame); [done| |done]. intros ??? H. split_and!; [apply shape_update; intros r; by destruct (H r)| |done].
  intros _. apply dated_update. intros r. by rewrite (sc_completedAt _ _ (H r)).
Qed.
Lemma seen_event k e m : seen (recordChildEvent k e m) = seen m.
Proof. apply (event_rel (λ m m', seen m' = seen m)); [done| |done]. intros ??? H. apply seen_update. intros r. apply H. Qed.

Lemma tame_record_status i m : tame m (record_status env i m).
Proof. unfold record_status. destruct (heap m !! i); [apply tame_event|done]. Qed.
Lemma seen_record_status i m : seen (record_status env i m) = seen m.
Proof. unfold record_status. destruct (heap m !! i); [apply seen_event|done]. Qed.

Lemma phases_record_status i m : phase <$> heap (record_status env i m) = phase <$> heap m.
Proof.
  unfold record_status. destruct (heap m !! i); [|done].
  pose proof (same_preorder (λ m, phase <$> heap m)) as Hpre.
  apply (event_rel (λ m m', phase <$> heap m' = phase <$> heap m)); [done| |done].
  intros ??? H. apply heap_update. intros r'. apply H.
Qed.

(** *** The snapshot *)

(** The snapshot is the state's, and counts the runs of the history. *)
Definition synced (m : Manager) : Prop :=
  state_orchestration m = Some (snapshot m)
  ∧ os_runningCount (snapshot m) = zlen (filter (λ s, s = run_running) (status <$> live m))
  ∧ os_queuedCount (snapshot m) = zlen (filter (λ s, s = run_pending) (status <$> live m))
  ∧ (os_status (snapshot m) = orch_active
     ↔ (∃ s, s ∈ status <$> live m ∧ (s = run_pending ∨ s = run_running)) ∨ activeBatches m ≠ []).

Lemma synced_seen m m' : seen m' = seen m → synced m → synced m'.
Proof. unfold seen. intros [= E1 E2 E3 E4] (H1 & H2 & H3 & H4). unfold synced. rewrite E1, E2, E3, E4. done. Qed.

Lemma filter_status s (l : list AiraChildRun) : zlen (filter (λ r, status r = s) l) = zlen (filter (λ x, x = s) (status <$> l)).
Proof. induction l as [|r l IH]; [done|]. cbn [fmap list_fmap]. rewrite !filter_cons. case_decide; rewrite ?zlen_cons; lia. Qed.

Lemma synced_publish m : synced (publish env m).
Proof.
  unfold synced. split_and!; [done|apply filter_status|apply filter_status|]. unfold publish. cbn.
  set (act := filter _ (live m)). change (live (_ <| delivered := _ |>)) with (live m).
  assert (Ha : 0 < zlen act ↔ ∃ s, s ∈ status <$> live m ∧ (s = run_pending ∨ s = run_running)).
  { assert (Hin : ∀ r, r ∈ act ↔ r ∈ live m ∧ (status r = run_pending ∨ status r = run_running)).
    { intros r. unfold act. rewrite list_elem_of_filter. unfold is_active. rewrite orb_true_iff, !bool_decide_eq_true. tauto. }
    split.
    - destruct act as [|r l]; [done|]. intros _. destruct (proj1 (Hin r) (list_elem_of_here r l)) as [Hl Hs].
      exists (status r). split; [by apply list_elem_of_fmap_2|done].
    - intros (s & (r & -> & Hr)%list_elem_of_fmap & Hs). destruct act as [|r' l] eqn:E; [|rewrite zlen_cons; pose proof (zlen_nonneg l); lia].
      by assert (r ∈ []) as ?%not_elem_of_nil by (apply Hin; done). }
  assert (Hb : 0 < zlen (activeBatches m) ↔ activeBatches m ≠ []).
  { destruct (activeBatches m) as [|b l]; [done|]. rewrite zlen_cons. pose proof (zlen_nonneg l). split; [done|lia]. }
  rewrite <-Ha, <-Hb. clearbody act. destruct (0 <? zlen act) eqn:E1, (0 <? zlen (activeBatches m)) eqn:E2; bool_prop; cbn; split;
    try done; try lia; by auto.
Qed.

(** *** Settling a run *)

Definition settling (i : nat) (s : AiraChildRunStatus) (failure : option Failures.AiraChildFailureInfo) (res : option AiraChildResult) :=
  update_run i (λ r,
    (match failure with Some f => r <| error := Some f |> | None => r end)
      <| status := s |> <| phase := phase_settled |> <| completedAt := Some (now env) |>
      <| durationMs := Some (duration (now env) r) |> <| result := match res with Some x => Some x | None => result r end |>).

(** A settled run has its completion on record, and the snapshot is published. *)
Lemma settleRun_eq i s failure message res m :
  ∃ m', settleRun env i s failure message res m = publish env m'
        ∧ (m' = settling i s failure res m ∨ ∃ k e, m' = recordChildEvent k e (settling i s failure res m)).
Proof.
  unfold settleRun, settling. cbv zeta. set (m1 := update_run _ _ m). destruct (heap m1 !! i) as [r|]; eexists; split; eauto.
Qed.

Lemma synced_settleRun i s failure message res m : synced (settleRun env i s failure message res m).
Proof. destruct (settleRun_eq i s failure message res m) as (m' & -> & _). apply synced_publish. Qed.
Lemma synced_failRun i failure m : synced (failRun env i failure m).
Proof. apply synced_settleRun. Qed.
Lemma seen_leave x out m : seen (leave x out m) = seen m.
Proof. unfold leave, finish. by destruct (heap m !! x_run x). Qed.
Lemma synced_leave x out m : synced m → synced (leave x out m).
Proof. apply synced_seen, seen_leave. Qed.

Lemma synced_await j m : synced m → synced (await j m).
Proof. done. Qed.

Lemma synced_after_resolve x res m : synced m → synced (after_resolve o env x res m).
Proof.
  intros Hm. unfold after_resolve. destruct (_ ≫= _) as [[b spec]|]; [|done].
  destruct res; try apply synced_leave, synced_failRun. cbv zeta. set (m1 := publish env _). set (m2 := match ts_capabilityGaps _ with [] => m1 | _ => _ end).
  assert (H : synced m2).
  { apply (synced_seen m1); [|apply synced_publish]. unfold m2. case_match; [done|]. by apply seen_update. }
  clearbody m2. by destruct (heap m2 !! x_run x).
Qed.
Lemma synced_after_runner x out m : synced m → synced (after_runner env x out m).
Proof.
  intros Hm. destruct out as [res turns usage b|e f b]; cbn [after_runner].
  - case_bool_decide; apply synced_leave, synced_settleRun.
  - set (m1 := update_run _ _ m). assert (H : synced m1) by (apply (synced_seen m); [apply seen_update; intros r; by destruct b as [[[]]|]|done]).
    clearbody m1. destruct (heap m1 !! x_run x); [apply synced_leave, synced_failRun|done].
Qed.
Lemma synced_after_throw x e m : synced (after_throw env x e m).
Proof. apply synced_leave, synced_failRun. Qed.

Lemma synced_executeRun n t m : synced m → synced (executeRun env n t m).
Proof.
  intros Hm. unfold executeRun. destruct (_ ≫= _) as [runId|]; [|done].
  destruct (mget runId (runs m)) as [i|]; [|done]. apply synced_await, synced_publish.
Qed.
Lemma synced_on_event n m e : synced m → synced (on_event env n m e).
Proof.
  intros Hm. destruct e as [t|t reason]; cbn [on_event].
  - apply synced_executeRun. unfold onStarted. destruct (_ ≫= _) as [i|]; [apply synced_publish|done].
  - unfold onSkipped. destruct (batches m !! n) as [b|]; [|done]. destruct (_ ≫= _) as [i|]; [|done].
    destruct (heap m !! i) as [r|]; [|done]. case_bool_decide; [apply synced_publish|done].
Qed.
Lemma synced_on_events n es m : synced m → synced (foldl (on_event env n) m es).
Proof. revert m. induction es as [|e es IH]; intros m Hm; [done|]. by apply IH, synced_on_event. Qed.

Lemma synced_sched_step n l m : synced m → synced (sched_step env n l m).
Proof.
  intros Hm. unfold sched_step. destruct (batches m !! n) as [b|]; [|done]. cbv zeta. case_match; [done|].
  destruct (Scheduler.step _ _ l _) as [s|]; [|done]. by apply synced_on_events.
Qed.
(** A request is answered at once, or its accepted tasks become a batch. *)
Definition called (m : Manager) : Manager := m <| scheduleCalls := S (scheduleCalls m) |>.
Definition accepted_specs (specs : list AiraChildTaskSpec) : list AiraChildTaskSpec := filter (λ s, preflightChildTask s (mode env) = None) specs.
Lemma schedule_cases specs w m :
  (∃ r, schedule o env specs w m = answer (scheduleCalls m) r (called m))
  ∨ schedule o env specs w m = called m
  ∨ ∃ gated prepared sched, accepted_specs specs ≠ []
      ∧ Scheduler.prepareAiraSchedule (run_uuid env) (imap (scheduled env) (accepted_specs specs)) = Some (Ok prepared)
      ∧ Scheduler.runAiraScheduler prepared false = Some sched
      ∧ schedule o env specs w m = launch_batch env (scheduleCalls m) w gated (accepted_specs specs) prepared sched (called m).
Proof.
  unfold schedule. cbv zeta. fold (called m). fold (accepted_specs specs). destruct (disposed (called m)); [eauto|].
  destruct (negb (os_set_enabled _)); [eauto|]. destruct (negb (runtime_active env)); [eauto|].
  destruct specs as [|sp specs]; [eauto|]. generalize (sp :: specs) as l. clear sp specs. intros l. destruct (_ <? zlen l); [eauto|].
  destruct (accepted_specs l) as [|a acc] eqn:Ea; [eauto|]. rewrite <-Ea. assert (Hne : accepted_specs l ≠ []) by (by rewrite Ea). clear Ea.
  destruct (Scheduler.prepareAiraSchedule _ _) as [[prepared|e]|] eqn:Ep; [|eauto|eauto].
  destruct (Scheduler.runAiraScheduler prepared false) as [sched|] eqn:Es; [|eauto]. right. right. eexists _, _, _. split_and!; done.
Qed.

Lemma synced_schedule specs w m : synced m → synced (schedule o env specs w m).
Proof.
  intros Hm. destruct (schedule_cases specs w m) as [(r & ->)|[->|(gated & prepared & sched & _ & _ & _ & ->)]]; [done..|].
  unfold launch_batch. cbv zeta. set (m1 := publish env _). set (k := length (batches m1)). set (m2 := m1 <| batches := _ |>).
  set (m3 := foldl _ m2 _). assert (H3 : synced m3) by (apply synced_on_events, (synced_seen m1); [done|apply synced_publish]).
  clearbody m3. by destruct w.
Qed.
Lemma synced_close n m : synced m → synced (close_batch env n m).
Proof.
  intros Hm. unfold close_batch. destruct (batches m !! n) as [b|]; [|done]. case_match; [done|]. cbv zeta. unfold epochEnd.
  set (m1 := with_batch _ _ m <| activeBatches := _ |>). set (m2 := publish env _). assert (H2 : synced m2) by apply synced_publish.
  clearbody m2. by destruct (b_caller b).
Qed.
Lemma seen_abort_all m : seen (abort_all m) = seen m.
Proof.
  assert (E : ∀ l m, seen (foldl abort_controller m l) = seen m) by (intros l; induction l as [|k l IH]; intros m'; [done|exact (IH (abort_controller m' k))]).
  assert (E2 : ∀ l m, seen (foldl abort_batch m l) = seen m) by (intros l; induction l as [|k l IH]; intros m'; [done|exact (IH (abort_batch m' k))]).
  unfold abort_all. by rewrite E2, E.
Qed.
Lemma synced_run c m : synced m → synced (run o env c m).
Proof.
  intros Hm. destruct c as [specs w|runId| |l|l|runId l| |n l|n|n s|n e]; cbn [run]; try done.
  - by apply synced_schedule.
  - unfold cancel. destruct runId as [[|u i]|]; try (apply (synced_seen m); [apply seen_abort_all|done]). by case_match.
  - apply synced_publish.
  - unfold subscribeEvents. by case_match.
  - unfold dispose. destruct (disposed m); [done|]. apply synced_publish.
  - by apply synced_sched_step.
  - by apply synced_close.
  - destruct (jobs m !! n) as [j|]; [|done]. set (m1 := m <| jobs := _ |>). assert (H1 : synced m1) by done. clearbody m1.
    destruct j, s; cbn [resume default]; try done; by eauto using synced_after_resolve, synced_after_runner, synced_after_throw.
  - destruct (jobs m !! n) as [[]|]; try done. destruct (heap m !! _); [|done]. apply (synced_seen m); [apply seen_event|done].
Qed.

(** ** The history of runs *)

Lemma tame_update i f m :
  (∀ r, (id (f r) = id r ∧ role (f r) = role r) ∧ (completedAt (f r) = completedAt r ∨ completedAt (f r) = Some (now env))) →
  tame m (update_run i f m).
Proof.
  intros Hf. split_and!; [apply shape_update; intros r; apply Hf| |done]. intros Hn. apply dated_update. intros r Hr.
  destruct (proj2 (Hf r)) as [-> | ->]; cbn; [done|lia].
Qed.
Lemma tame_publish m : tame m (publish env m). Proof. done. Qed.
Lemma tame_settleRun i s failure message res m : tame m (settleRun env i s failure message res m).
Proof.
  assert (H : tame m (settling i s failure res m)) by (apply tame_update; intros r; split; [by destruct failure|by right]).
  destruct (settleRun_eq i s failure message res m) as (m' & -> & [-> |(k & e & ->)]); [exact H|].
  transitivity (settling i s failure res m); [exact H|]. exact (tame_event k e _).
Qed.
Lemma tame_failRun i failure m : tame m (failRun env i failure m).
Proof.
  unfold failRun. cbv zeta. set (m1 := update_run _ _ m). assert (H1 : tame m m1) by (apply tame_update; intros r; by auto).
  clearbody m1. set (m2 := match heap m1 !! i with Some _ => _ | None => m1 end).
  assert (H2 : tame m1 m2) by (unfold m2; destruct (heap m1 !! i); [apply tame_event|done]). clearbody m2.
  transitivity m1; [done|]. transitivity m2; [done|]. apply tame_settleRun.
Qed.
Lemma tame_leave x out m : tame m (leave x out m).
Proof. unfold leave, finish. by destruct (heap m !! x_run x). Qed.
Lemma tame_left x out m m' : tame m m' → tame m (leave x out m').
Proof. intros H. transitivity m'; [done|apply tame_leave]. Qed.

Lemma elem_grant t names : ∀ tools, t ∈ grant tools names → t ∈ tools ∨ t ∈ names.
Proof.
  unfold grant. induction names as [|n names IH]; intros tools H; [by left|]. cbn [foldl] in H. apply IH in H as [H|H]; [|right; by right].
  case_bool_decide; [by left|]. apply elem_of_app in H as [?|H]; [by left|]. apply list_elem_of_singleton in H as ->. right. left.
Qed.

Lemma tools_contained r m t : t ∈ ts_tools (buildAiraChildToolSet r m (executionManager o) (intelligence o)) →
  t ∈ AIRA_CHILD_READ_TOOL_NAMES ++ default [] (intelligence o)
  ∨ m ≠ Capabilities.plan ∧ t ∈ (js <$> ["write"; "edit"]%string) ++ (if executionManager o then AIRA_CHILD_PROCESS_TOOL_NAMES else []).
Proof.
  unfold buildAiraChildToolSet. cbv zeta. cbn [ts_tools]. set (classes := if bool_decide (m = Capabilities.plan) then _ else _).
  assert (Hc : m = Capabilities.plan → rc_mutating ∉ classes ∧ rc_process ∉ classes).
  { intros ->. unfold classes. rewrite bool_decide_eq_true_2 by done. by rewrite !list_elem_of_filter; split; intros [[] _]. }
  clearbody classes. set (t1 := match intelligence o with Some _ => _ | None => _ end).
  assert (H1 : ∀ t, t ∈ t1 → t ∈ AIRA_CHILD_READ_TOOL_NAMES ++ default [] (intelligence o)).
  { intros u Hu. unfold t1 in Hu. apply elem_of_app. destruct (intelligence o) as [names|]; [|by left]. cbn. case_match; [|by left].
    by apply elem_grant in Hu. }
  clearbody t1. set (t2 := if bool_decide (rc_mutating ∈ classes) then _ else t1).
  assert (H2 : ∀ t, t ∈ t2 → t ∈ t1 ∨ m ≠ Capabilities.plan ∧ t ∈ (js <$> ["write"; "edit"]%string)).
  { intros u Hu. unfold t2 in Hu. case_bool_decide as E; [|by left]. apply elem_grant in Hu as [?|?]; [by left|right]. split; [|done].
    intros Hp. by apply (proj1 (Hc Hp)). }
  clearbody t2. intros Ht. destruct (bool_decide (rc_process ∈ classes) && executionManager o) eqn:E.
  - apply andb_true_iff in E as [E1%bool_decide_eq_true E2]. rewrite E2. apply elem_grant in Ht as [[?|[? ?]]%H2|Ht]; [left; by apply H1|right; split; [done|apply elem_of_app; by left]|].
    right. split; [|apply elem_of_app; by right]. intros Hp. by apply (proj2 (Hc Hp)).
  - apply H2 in Ht as [?|[? ?]]; [left; by apply H1|right; split; [done|apply elem_of_app; by left]].
Qed.

Lemma launch_contained r spec s i : contained (launch_of o env r spec s i).
Proof.
  unfold contained, launch_of. cbn [l_tools l_gate l_timeoutMs]. split_and!.
  - intros Hp t [?|[? ?]]%tools_contained; [done|done].
  - intros t Ht%tools_contained. rewrite app_assoc, elem_of_app. tauto.
  - done.
  - unfold clampChildTimeout. repeat case_match; lia.
Qed.

Lemma tame_after_resolve x res m : tame m (after_resolve o env x res m).
Proof.
  unfold after_resolve. destruct (_ ≫= _) as [[b spec]|]; [|done].
  destruct res; try apply tame_left, tame_failRun. cbv zeta. set (m1 := publish env _).
  assert (H1 : tame m m1) by (apply tame_update; by auto). clearbody m1.
  set (m2 := match ts_capabilityGaps _ with [] => m1 | _ => _ end).
  assert (H2 : tame m1 m2) by (unfold m2; case_match; [done|apply tame_update; by auto]). clearbody m2.
  transitivity m1; [done|]. transitivity m2; [done|]. destruct (heap m2 !! x_run x); [|done].
  split_and!; [done|done|]. intros P HP Hl. cbn. apply Forall_app. split; [done|]. apply Forall_singleton, HP, launch_contained.
Qed.
Lemma tame_after_runner x out m : tame m (after_runner env x out m).
Proof.
  destruct out as [res turns usage b|e f b]; cbn [after_runner]; set (m1 := update_run _ _ m);
    (assert (H1 : tame m m1) by (apply tame_update; intros r; destruct b as [[[]]|]; by auto)); clearbody m1.
  - case_bool_decide; apply tame_left; (transitivity m1; [done|apply tame_settleRun]).
  - destruct (heap m1 !! x_run x); [|done]. apply tame_left. transitivity m1; [done|apply tame_failRun].
Qed.
Lemma tame_executeRun n t m : tame m (executeRun env n t m).
Proof.
  unfold executeRun. destruct (_ ≫= _) as [runId|]; [|done]. destruct (mget runId (runs m)) as [i|]; [|done]. cbv zeta.
  set (m1 := m <| controllers := _ |> <| runAborts := _ |>). assert (H1 : tame m m1) by done. clearbody m1.
  set (m2 := update_run i _ m1). assert (H2 : tame m1 m2) by (apply tame_update; by auto). clearbody m2.
  transitivity m1; [done|]. transitivity m2; [done|]. exact (tame_record_status i m2).
Qed.
Lemma tame_on_event n m e : tame m (on_event env n m e).
Proof.
  destruct e as [t|t reason]; cbn [on_event].
  - transitivity (onStarted env n t m); [|apply tame_executeRun]. unfold onStarted. destruct (_ ≫= _) as [i|]; [|done].
    set (m2 := update_run i _ m). assert (H2 : tame m m2) by (apply tame_update; by auto). clearbody m2.
    transitivity m2; [done|]. exact (tame_record_status i m2).
  - unfold onSkipped. destruct (batches m !! n) as [b|]; [|done]. destruct (_ ≫= _) as [i|]; [|done].
    destruct (heap m !! i) as [r|]; [|done]. case_bool_decide; [|done]. cbv zeta.
    set (m2 := update_run i _ m). assert (H2 : tame m m2) by (apply tame_update; by auto). clearbody m2.
    transitivity m2; [done|]. exact (tame_event _ _ m2).
Qed.
Lemma tame_on_events n es m : tame m (foldl (on_event env n) m es).
Proof. revert m. induction es as [|e es IH]; intros m; [done|]. transitivity (on_event env n m e); [apply tame_on_event|apply IH]. Qed.
Lemma tame_sched_step n l m : tame m (sched_step env n l m).
Proof.
  unfold sched_step. destruct (batches m !! n) as [b|]; [|done]. cbv zeta. case_match; [done|].
  destruct (Scheduler.step _ _ l _) as [s|]; [|done]. set (m1 := with_batch _ _ m). assert (H1 : tame m m1) by done. clearbody m1.
  transitivity m1; [done|]. apply tame_on_events.
Qed.
Lemma tame_abort_all m : tame m (abort_all m).
Proof.
  assert (E : ∀ l m, tame m (foldl abort_controller m l)) by (intros l; induction l as [|k l IH]; intros m'; [done|exact (IH (abort_controller m' k))]).
  assert (E2 : ∀ l m, tame m (foldl abort_batch m l)) by (intros l; induction l as [|k l IH]; intros m'; [done|exact (IH (abort_batch m' k))]).
  unfold abort_all. set (m1 := foldl abort_controller _ _). transitivity m1; [apply E|apply E2].
Qed.
Lemma tame_run c m : match c with c_schedule _ _ => True | _ => tame m (run o env c m) end.
Proof.
  destruct c as [specs w|runId| |l|l|runId l| |n l|n|n s|n e]; cbn [run]; try done.
  - unfold cancel. destruct runId as [[|u i]|]; try apply tame_abort_all. by case_match.
  - unfold subscribeEvents. by case_match.
  - unfold dispose. destruct (disposed m); [done|]. exact (tame_abort_all (m <| disposed := true |>)).
  - apply tame_sched_step.
  - unfold close_batch. destruct (batches m !! n) as [b|]; [|done]. case_match; [done|]. cbv zeta. unfold epochEnd.
    set (m1 := with_batch _ _ m <| activeBatches := _ |>). clear. by destruct (b_caller b); destruct (existsb is_active (live m1)).
  - destruct (jobs m !! n) as [j|]; [|done]. set (m1 := m <| jobs := _ |>). assert (H1 : tame m m1) by done. clearbody m1.
    destruct j, s; cbn [resume default from_option Datatypes.id]; try done; (transitivity m1; [done|]); [apply tame_after_resolve|apply tame_left, tame_failRun|apply tame_after_runner|apply tame_left, tame_failRun].
  - destruct (jobs m !! n) as [[]|]; try done. destruct (heap m !! _); [|done]. apply tame_event.
Qed.

Section Clock.
Context (Hnow : 0 <= now env <= MAX_DATE).

(** Every entry of the map names the run object with its id, and there are at most [n]. *)
Record stored (n : Z) (m : Manager) : Prop := {
  st_keys : NoDup (runs m).*1;
  st_runs : ∀ k i, (k, i) ∈ runs m → (id <$> heap m) !! i = Some k;
  st_bound : zlen (runs m) <= n;
  st_dated : dated m }.

Lemma stored_tame n m m' : tame m m' → stored n m → stored n m'.
Proof.
  intros ([= E1 E2] & Hd & _) [H1 H2 H3 H4]. constructor; [by rewrite E1| |by rewrite E1|auto]. intros k i. rewrite E1. intros Hk%H2.
  apply (f_equal (fmap fst)) in E2. rewrite <-!list_fmap_compose in E2. change (compose fst _) with id in E2. by rewrite E2.
Qed.

(** The heads of a sorted list: an element that is not below the others is not first. *)
Lemma sort_by_snoc_head {A} (le : A → A → bool) l x : l ≠ [] → Forall (λ y, le y x = true) l →
  ∃ y r, sort_by le (l ++ [x]) = y :: r ∧ y ∈ l.
Proof.
  intros Hl. induction 1 as [|a l Ha Hall IH]; [done|]. change (sort_by le ((a :: l) ++ [x])) with (insert_by le a (sort_by le (l ++ [x]))).
  destruct l as [|b l]; cbn [app sort_by foldr insert_by].
  { rewrite Ha. exists a, [x]. split; [done|left]. }
  destruct (IH ltac:(done)) as (y & r & Hs & Hy). cbn [app sort_by foldr] in Hs. rewrite Hs. cbn [insert_by].
  destruct (le a y); [exists a, (y :: r)|exists y, (insert_by le a r)]; (split; [done|]); [left|by right].
Qed.

Definition candidates (m : Manager) (l : list (jsstr * nat)) : list (nat * AiraChildRun) :=
  omap (λ kv, (λ r, (kv.2, r)) <$> heap m !! kv.2) l.
Lemma elem_candidates m l p : p ∈ candidates m l → ∃ k, (k, p.1) ∈ l ∧ heap m !! p.1 = Some p.2.
Proof.
  unfold candidates. rewrite list_elem_of_omap. intros ([k i] & Hin & Hp). cbn in Hp. destruct (heap m !! i) eqn:E; [|done].
  injection Hp as <-. by exists k.
Qed.
Lemma settled_key_le r : default 0 (completedAt r) <= MAX_DATE → settled_key r <= MAX_SAFE_INTEGER.
Proof. unfold settled_key, MAX_DATE, MAX_SAFE_INTEGER. case_bool_decide; lia. Qed.

(** The run that was just added is not evicted, and the oldest settled run is. *)
Lemma evict_stored i m l k : stored (1 + MAX_MANAGER_RUN_HISTORY) m → runs m = l ++ [(k, i)] → l ≠ [] → (∀ kv, kv ∈ l → kv.2 ≠ i) →
  (∀ r, heap m !! i = Some r → phase r ≠ phase_settled) → stored MAX_MANAGER_RUN_HISTORY (evict i m).
Proof.
  intros Hst Hr Hl Hi Hph. pose proof Hst as [Hk Hru Hb Hd].
  assert (Hall : ∀ k j, (k, j) ∈ runs m → ∃ r, heap m !! j = Some r ∧ id r = k).
  { intros k' j Hin. specialize (Hru _ _ Hin). rewrite list_lookup_fmap in Hru. destruct (heap m !! j) as [r|]; [|done].
    injection Hru as Hru. by exists r. }
  destruct (Hall k i) as (ri & Hri & Hidi); [rewrite Hr; apply elem_of_app; right; left|].
  assert (Hc : candidates m (runs m) = candidates m l ++ [(i, ri)]).
  { unfold candidates. rewrite Hr, omap_app. cbn. by rewrite Hri. }
  destruct (sort_by_snoc_head (λ a b : nat * AiraChildRun, settled_key a.2 <=? settled_key b.2) (candidates m l) (i, ri)) as ([j r] & rest & Hs & Hj).
  - destruct l as [|[k0 j0] l]; [done|]. unfold candidates. cbn [omap list_omap snd].
    destruct (Hall k0 j0) as (r0 & Hr0 & _); [rewrite Hr; left|]. by rewrite Hr0.
  - apply Forall_forall. intros [j r] Hj. apply Z.leb_le. cbn [snd]. destruct (elem_candidates _ _ _ Hj) as (k' & _ & Hr').
    transitivity MAX_SAFE_INTEGER; [apply settled_key_le|].
    + unfold dated in Hd. rewrite Forall_forall in Hd. apply Hd. by eapply list_elem_of_lookup_2.
    + unfold settled_key at 1. rewrite bool_decide_eq_false_2; [done|by apply Hph].
  - unfold evict. fold (candidates m (runs m)). rewrite Hc, Hs. destruct (elem_candidates _ _ _ Hj) as (k' & Hin & Hr'). cbn in Hin, Hr'.
    rewrite bool_decide_eq_false_2 by (exact (Hi _ Hin)).
    destruct (Hall k' j) as (r' & Hrj & Hid); [rewrite Hr; apply elem_of_app; by left|]. rewrite Hr' in Hrj. injection Hrj as <-.
    constructor; cbn.
    + by apply NoDup_mdelete.
    + intros k2 i2 H2%elem_mdelete. by apply Hru.
    + rewrite zlen_mdelete_present; [lia|]. rewrite Hid. exists j. apply elem_mget; [done|]. rewrite Hr. apply elem_of_app. by left.
    + done.
Qed.

Lemma recordRun_stored r m : phase r ≠ phase_settled → completedAt r = None →
  stored MAX_MANAGER_RUN_HISTORY m → stored MAX_MANAGER_RUN_HISTORY (recordRun env r m).
Proof.
  intros Hph Hc [Hk Hr Hb Hd]. unfold recordRun. cbv zeta. set (i := length (heap m)).
  set (m1 := m <| heap := _ |> <| runs := _ |> <| buffers := _ |> <| eventListeners := _ |>).
  assert (Hlt : ∀ k j, (k, j) ∈ runs m → (j < i)%nat).
  { intros k j Hin. specialize (Hr _ _ Hin). apply lookup_lt_Some in Hr. by rewrite length_fmap in Hr. }
  assert (H1 : stored (1 + MAX_MANAGER_RUN_HISTORY) m1 ∧ phase <$> heap m1 = (phase <$> heap m) ++ [phase r]).
  { split; [|by unfold m1; cbn; rewrite fmap_app]. constructor; cbn.
    - by apply NoDup_mset.
    - intros k j [[= -> ->]|Hin]%elem_mset; rewrite fmap_app.
      + unfold i. rewrite lookup_app_r, length_fmap, Nat.sub_diag by (rewrite length_fmap; lia). done.
      + rewrite lookup_app_l; [by apply Hr|]. rewrite length_fmap. by eapply Hlt.
    - pose proof (zlen_mset_le (id r) i (runs m)). lia.
    - unfold dated. cbn. apply Forall_app. split; [exact Hd|]. apply Forall_singleton. rewrite Hc. done. }
  destruct H1 as [H1 Hp1]. assert (Hr1 : runs m1 = mset (id r) i (runs m)) by done. clearbody m1.
  pose proof (tame_record_status i m1) as Ht. pose proof (phases_record_status i m1) as Hp2.
  set (m2 := record_status env i m1) in *. clearbody m2.
  assert (H2 : stored (1 + MAX_MANAGER_RUN_HISTORY) m2) by by eapply stored_tame.
  assert (Hr2 : runs m2 = mset (id r) i (runs m)) by (destruct Ht as ([= E _] & _); congruence).
  destruct (zlen (runs m2) <=? MAX_MANAGER_RUN_HISTORY) eqn:E; bool_prop.
  - destruct H2 as [? ? _ ?]. by constructor.
  - destruct (mget (id r) (runs m)) as [j|] eqn:Ej.
    { exfalso. rewrite Hr2 in E. assert (zlen (mset (id r) i (runs m)) = zlen (runs m)); [|lia].
      pose proof (mset_keys_present (id r) i (runs m) (ex_intro _ j Ej)) as E2. apply (f_equal zlen) in E2. unfold zlen in *.
      by rewrite !length_fmap in E2. }
    rewrite mset_keys_absent in Hr2 by done. apply (evict_stored i m2 (runs m) (id r)); [done..| | |].
    + intros Hn. rewrite Hr2, Hn in E. cbn in E. unfold MAX_MANAGER_RUN_HISTORY in E. unfold zlen in E. cbn in E. lia.
    + intros [k j] Hin. specialize (Hlt _ _ Hin). cbn. lia.
    + intros r' Hr'. rewrite Hp1 in Hp2. assert (Hl : (phase <$> heap m2) !! i = Some (phase r)).
      { rewrite Hp2. unfold i. by rewrite lookup_app_r, length_fmap, Nat.sub_diag by (rewrite length_fmap; lia). }
      rewrite list_lookup_fmap, Hr' in Hl. injection Hl as ->. done.
Qed.

Lemma recordRuns_stored s l m : stored MAX_MANAGER_RUN_HISTORY m →
  stored MAX_MANAGER_RUN_HISTORY (foldl (λ m sp, recordRun env (new_run env s sp.1 sp.2) m) m l).
Proof.
  revert m. induction l as [|[spec p] l IH]; intros m Hm; [done|]. apply IH, recordRun_stored; [|done|done]. cbn. by case_bool_decide.
Qed.

Lemma schedule_stored specs w m : stored MAX_MANAGER_RUN_HISTORY m → stored MAX_MANAGER_RUN_HISTORY (schedule o env specs w m).
Proof.
  intros Hm. assert (Ha : ∀ n r m, stored MAX_MANAGER_RUN_HISTORY m → stored MAX_MANAGER_RUN_HISTORY (answer n r m)) by (intros ? ? ?; by apply stored_tame).
  assert (Hm' : stored MAX_MANAGER_RUN_HISTORY (called m)) by (revert Hm; by apply stored_tame).
  destruct (schedule_cases specs w m) as [(r & ->)|[->|(gated & prepared & sched & _ & _ & _ & ->)]]; [by apply Ha|done|].
  unfold launch_batch. cbv zeta. set (m1 := foldl _ (called m <| activeBatches := _ |> <| epochStartedAt := _ |>) _).
  assert (H1 : stored MAX_MANAGER_RUN_HISTORY m1) by (apply recordRuns_stored; revert Hm'; by apply stored_tame). clearbody m1.
  set (m2 := publish env m1 <| batches := _ |>). assert (H2 : stored MAX_MANAGER_RUN_HISTORY m2) by (revert H1; by apply stored_tame).
  clearbody m2. set (m3 := foldl _ m2 _). assert (H3 : stored MAX_MANAGER_RUN_HISTORY m3) by (eapply stored_tame; [apply tame_on_events|done]).
  clearbody m3. destruct w; [done|by apply Ha].
Qed.
Lemma run_stored c m : stored MAX_MANAGER_RUN_HISTORY m → stored MAX_MANAGER_RUN_HISTORY (run o env c m).
Proof. intros Hm. pose proof (tame_run c m) as Ht. destruct c; try (by eapply stored_tame). by apply schedule_stored. Qed.
End Clock.

(** *** What a batch adds *)

Lemma launches_recordRun r m : launches (recordRun env r m) = launches m.
Proof.
  unfold recordRun. cbv zeta. set (m1 := m <| heap := _ |> <| runs := _ |> <| buffers := _ |> <| eventListeners := _ |>).
  assert (H1 : launches (record_status env (length (heap m)) m1) = launches m1).
  { unfold record_status. destruct (heap m1 !! _); [|done]. by apply (event_rel (λ m m', launches m' = launches m)). }
  set (m2 := record_status env _ m1) in *. assert (H2 : launches m2 = launches m) by (rewrite H1; done). clearbody m2.
  destruct (zlen (runs m2) <=? _); [done|]. rewrite <-H2. unfold evict. case_match; [done|]. by repeat case_match.
Qed.
Lemma roles_recordRun r m : role <$> heap (recordRun env r m) = (role <$> heap m) ++ [role r].
Proof.
  unfold recordRun. cbv zeta. set (m1 := m <| heap := _ |> <| runs := _ |> <| buffers := _ |> <| eventListeners := _ |>).
  assert (H1 : role <$> heap (record_status env (length (heap m)) m1) = role <$> heap m1).
  { pose proof (tame_record_status (length (heap m)) m1) as ([= _ E] & _). apply (f_equal (fmap snd)) in E. by rewrite <-!list_fmap_compose in E. }
  set (m2 := record_status env _ m1) in *. assert (H2 : role <$> heap m2 = (role <$> heap m) ++ [role r]) by (rewrite H1; unfold m1; cbn; by rewrite fmap_app).
  clearbody m2. destruct (zlen (runs m2) <=? _); [done|]. rewrite <-H2. unfold evict. case_match; [done|]. by repeat case_match.
Qed.
Lemma recordRuns_adds s l m : let m' := foldl (λ m sp, recordRun env (new_run env s sp.1 sp.2) m) m l in
  launches m' = launches m ∧ role <$> heap m' = (role <$> heap m) ++ ((λ sp, sp_role sp.1) <$> l).
Proof.
  cbv zeta. revert m. induction l as [|[spec p] l IH]; intros m; [by rewrite app_nil_r|]. cbn [foldl fst snd].
  destruct (IH (recordRun env (new_run env s spec p) m)) as [-> ->]. rewrite launches_recordRun, roles_recordRun, <-app_assoc. done.
Qed.

Lemma accepted_in_plan specs : mode env = Capabilities.plan → Forall (λ s, isAiraChildRoleReadOnly (sp_role s) = true) (accepted_specs specs).
Proof.
  intros Hp. apply Forall_forall. intros s [Hs _]%list_elem_of_filter. unfold preflightChildTask in Hs.
  rewrite bool_decide_eq_true_2 in Hs by done. by destruct (isAiraChildRoleReadOnly (sp_role s)).
Qed.

Lemma roles_tame m m' : tame m m' → role <$> heap m' = role <$> heap m.
Proof. intros ([= _ E] & _). apply (f_equal (fmap snd)) in E. by rewrite <-!list_fmap_compose in E. Qed.

(** What a call launches, and the roles of the runs that it adds. *)
Definition adds (m m' : Manager) : Prop :=
  (∀ P, (∀ l, contained l → P l) → Forall P (launches m) → Forall P (launches m'))
  ∧ ∃ rs, role <$> heap m' = (role <$> heap m) ++ rs ∧ (mode env = Capabilities.plan → Forall (λ r, isAiraChildRoleReadOnly r = true) rs).

Lemma adds_tame m m' : tame m m' → adds m m'.
Proof. intros H. split; [apply H|]. exists []. split; [rewrite app_nil_r; by apply roles_tame|constructor]. Qed.

Lemma schedule_adds specs w m : adds m (schedule o env specs w m).
Proof.
  destruct (schedule_cases specs w m) as [(r & ->)|[->|(gated & prepared & sched & _ & Hp & _ & ->)]]; [by apply adds_tame..|].
  unfold launch_batch. cbv zeta. set (m1 := foldl _ (called m <| activeBatches := _ |> <| epochStartedAt := _ |>) _).
  pose proof (recordRuns_adds (settings env) (zip (accepted_specs specs) prepared) (called m <| activeBatches := activeBatches (called m) ++ [length (batches (called m))] |>
             <| epochStartedAt := Some (default (now env) (epochStartedAt (called m))) |>)) as [Hl Hr]. fold m1 in Hl, Hr. clearbody m1.
  set (m2 := publish env m1 <| batches := _ |>). set (m3 := foldl _ m2 _).
  assert (H3 : tame m1 m3) by (transitivity m2; [done|apply tame_on_events]). clearbody m3. clear m2.
  assert (H : adds m m3).
  { split.
    - intros P HP HL. apply H3; [done|]. by rewrite Hl.
    - eexists. split; [rewrite (roles_tame _ _ H3), Hr; done|]. intros Hplan. apply Forall_fmap, Forall_forall. intros [sp p] Hin. cbn.
      pose proof (accepted_in_plan specs Hplan) as Hacc. rewrite Forall_forall in Hacc. apply Hacc. by apply elem_of_zip_l in Hin. }
  destruct w; [done|]. exact H.
Qed.
Lemma run_adds c m : adds m (run o env c m).
Proof. pose proof (tame_run c m) as Ht. destruct c; try (by apply adds_tame). apply schedule_adds. Qed.
End Manager.

Lemma reachable_stored o m : reachable o m → stored MAX_MANAGER_RUN_HISTORY m.
Proof.
  induction 1 as [env Hn|env c m _ IH Hn]; [|by apply run_stored]. constructor; try done; [constructor|by intros k i ?%not_elem_of_nil|constructor].
Qed.

(** ** The theorems *)

(** The history of runs is bounded: whatever is scheduled, the manager keeps at most 64 runs,
    each under its own id. *)
Theorem history_is_bounded o m : reachable o m →
  zlen (runs m) <= MAX_MANAGER_RUN_HISTORY ∧ NoDup (runs m).*1 ∧ ∀ k i, mget k (runs m) = Some i → ∃ r, heap m !! i = Some r ∧ id r = k.
Proof.
  intros H%reachable_stored. split_and!; [apply H|apply H|]. intros k i Hk%mget_elem. apply (st_runs _ _ H) in Hk.
  rewrite list_lookup_fmap in Hk. destruct (heap m !! i) as [r|]; [|done]. injection Hk as Hk. by exists r.
Qed.

(** The snapshot is never out of date about the runs: after every call the session state holds the
    snapshot, whose running and queued counts are those of the history, and which is active exactly
    when a run is pending or running or a batch is not settled. *)
Theorem snapshot_counts_the_runs o m : reachable o m → synced m.
Proof. induction 1 as [env _|env c m _ IH _]; [apply (synced_publish env (construct env))|by apply synced_run]. Qed.

(** Whatever is called in whatever state, every child that the call launches goes through the
    permission gate of the host, has at most fifteen minutes, and gets no tool but those of its
    class; in PLAN it gets read and intelligence tools only, even when its run was accepted in
    another mode, and every run that the call accepts in PLAN has a read-only role. *)
Theorem children_are_contained o env c m :
  (∀ l, l ∈ launches (run o env c m) → l ∈ launches m ∨ contained o env l)
  ∧ (mode env = Capabilities.plan → ∀ i r, heap m !! i = None → heap (run o env c m) !! i = Some r → isAiraChildRoleReadOnly (role r) = true).
Proof.
  destruct (run_adds o env c m) as (HL & rs & Hrs & Hplan). split.
  - apply Forall_forall, HL; [by auto|]. apply Forall_forall. by auto.
  - intros Hp i r Hi Hr. apply (f_equal (.!! i)) in Hrs. rewrite list_lookup_fmap, Hr in Hrs. symmetry in Hrs.
    rewrite lookup_app_r in Hrs by (rewrite length_fmap; by apply lookup_ge_None_1). apply list_elem_of_lookup_2 in Hrs.
    specialize (Hplan Hp). rewrite Forall_forall in Hplan. by apply Hplan.
Qed.

End OrchManagerProps.
