(* ===== verification/OrchView.v ===== *)
(** * The orchestration manager: concrete requests, and the view of its runs

    Module [OrchSample]: requests for the theorems to hold of.  Modules [Stages] and
    [OrchView]: what the life of the runs depends on.  The requests show where the manager does less than it promises: a task that is lost, a cancellation without
    effect, an epoch that does not end. *)
From S2P Require Import Prelude JsMap JsString OrchTypes Scheduler SchedulerProps Capabilities Failures ModelCall Verifier ChildData ChildEvents.
From S2P Require Import ChildRunner OrchManager OrchManagerProps.

Module OrchSample.
Import ChildData OrchManager OrchManagerProps.
#[local] Existing Instances child_status_eq_dec Scheduler.ctl_eq_dec.

Definition options0 : Options :=
  {| cwd := js "/w"; executionManager := false; intelligence := None; permissionGate := None; maxTasksPerBatch := None |}.
Definition settings0 : AiraOrchestrationSettings := DEFAULT_AIRA_ORCHESTRATION_SETTINGS.
(** The [k]-th call. *)
Definition env0 (k : Z) : Env :=
  {| now := 1000 + k; task_uuid := λ _, js "u"; run_uuid := λ t, t ++ js "-" ++ num_str k; batch_uuid := js "0123"; settings := settings0;
     runtime_active := true; mode := Capabilities.build; project := None |}.
Definition spec0 (name : string) : AiraChildTaskSpec :=
  {| sp_id := Some (js name); sp_role := explore; sp_task := js "look"; sp_dependencies := None; sp_files := None; sp_context := None;
     sp_model := None; sp_timeoutMs := None; sp_requiredCapabilities := None |}.
Definition numbered (l : list call) : list (Env * call) := imap (λ k c, (env0 (Z.of_nat k), c)) l.
Definition run0 (l : list call) : Manager := steps options0 (createAiraOrchestrationManager (env0 0)) (numbered l).

Definition clock_ok (c : Env * call) : bool := (0 <=? now c.1) && (now c.1 <=? MAX_DATE).
Lemma orch_steps_reachable o m l : reachable o m → forallb clock_ok l = true → reachable o (steps o m l).
Proof.
  revert m. induction l as [|[env c] l IH]; intros m Hm Hl; [done|]. cbn in Hl. apply andb_true_iff in Hl as [Hc Hl].
  apply (IH (run o env c m)); [|done]. unfold clock_ok in Hc. cbn in Hc. bool_prop. apply reachable_step; [done|lia].
Qed.
Lemma run0_reachable l : forallb clock_ok (numbered l) = true → reachable options0 (run0 l).
Proof. apply orch_steps_reachable, reachable_start. cbn. unfold MAX_DATE. lia. Qed.

(** ** A task is lost *)

Definition eight : list AiraChildTaskSpec := spec0 <$> ["a"; "b"; "c"; "d"; "e"; "f"; "g"; "h"]%string.
Definition nine_batches : list call :=
  replicate 9 (c_schedule eight true) ++ (c_sched 0 <$> [Scheduler.l_start (js "a"); Scheduler.l_deps (js "a"); Scheduler.l_slot (js "a")]).

(** The first run is pending and no longer in the history, and its task has failed. *)
Definition lost (m : Manager) : bool :=
  forallb is_active (live m)
  && match heap m !! 0%nat, batches m !! 0%nat with
     | Some r, Some b => bool_decide (status r = run_pending) && negb (mhas (id r) (runs m))
         && match b_finished b with [(t, Scheduler.o_failed)] => bool_decide (t = taskId r) | _ => false end
     | _, _ => false
     end
  && match launches m, jobs m with [], [] => true | _, _ => false end.
Lemma lost_inv m : lost m = true → Forall (λ r, is_active r = true) (live m) ∧ launches m = [] ∧ jobs m = []
  ∧ ∃ r b, heap m !! 0%nat = Some r ∧ status r = run_pending ∧ mget (id r) (runs m) = None
           ∧ batches m !! 0%nat = Some b ∧ b_finished b = [(taskId r, Scheduler.o_failed)].
Proof.
  unfold lost. intros H. apply andb_true_iff in H as [H H3]. apply andb_true_iff in H as [H1 H2]. split.
  { apply Forall_forall. intros r Hr. rewrite forallb_forall in H1. apply H1. by apply list_elem_of_In. }
  destruct (launches m), (jobs m); try done. destruct (heap m !! 0%nat) as [r|], (batches m !! 0%nat) as [b|]; try done.
  apply andb_true_iff in H2 as [H2 H4]. apply andb_true_iff in H2 as [H2%bool_decide_eq_true H5]. split; [done|]. split; [done|].
  exists r, b. unfold mhas in H5. destruct (mget (id r) (runs m)); [done|]. split_and!; try done.
  destruct (b_finished b) as [|[t []] []]; try done. apply bool_decide_eq_true in H4 as ->. done.
Qed.
Lemma nine_batches_lost : lost (run0 nine_batches) = true.
Proof. vm_compute. reflexivity. Qed.

(** More than 64 runs that have not settled do not fit in the history: after nine accepted batches
    of eight tasks, with nothing settled, the first run has been evicted although it is pending,
    and its task fails without a child having been asked for and without a failure on record. *)
Theorem active_run_is_evicted : ∃ m r b, reachable options0 m ∧ Forall (λ r, is_active r = true) (live m)
  ∧ heap m !! 0%nat = Some r ∧ status r = run_pending ∧ mget (id r) (runs m) = None
  ∧ batches m !! 0%nat = Some b ∧ b_finished b = [(taskId r, Scheduler.o_failed)] ∧ launches m = [] ∧ jobs m = [].
Proof.
  destruct (lost_inv _ nine_batches_lost) as (H1 & H2 & H3 & r & b & H4 & H5 & H6 & H7 & H8).
  exists (run0 nine_batches), r, b. split; [|by split_and!]. apply run0_reachable. vm_compute. reflexivity.
Qed.

(** ** Cancelling a run that waits *)

Definition one_task : list call := [c_schedule [spec0 "a"] true].
Definition after_cancel : list call :=
  (c_sched 0 <$> [Scheduler.l_start (js "a"); Scheduler.l_deps (js "a"); Scheduler.l_slot (js "a")]) ++ [c_settle 0 (s_resolved (res_runtime (js "m")))].
Definition cancel_a : call := c_cancel (Some (js "a-0")).

Definition still_launched (m : Manager) : bool :=
  match launches m, heap m !! 0%nat, controllers m with [_], Some r, [false] => bool_decide (status r = run_running) | _, _, _ => false end.

(** Cancelling one run has no effect before the run is started: the call answers [ok], and the
    child is launched all the same, under a signal that is not aborted. *)
Theorem cancel_misses_a_queued_run :
  run0 (one_task ++ [cancel_a]) = run0 one_task ∧ still_launched (run0 (one_task ++ cancel_a :: after_cancel)) = true.
Proof. split; vm_compute; reflexivity. Qed.

(** ** The epoch *)

Definition to_the_end : list call :=
  one_task ++ (c_sched 0 <$> [Scheduler.l_start (js "a"); Scheduler.l_deps (js "a"); Scheduler.l_slot (js "a")])
  ++ [c_settle 0 (s_resolved (res_unavailable (js "no model"))); c_sched 0 (Scheduler.l_finish (js "a") Scheduler.o_failed); c_close 0].
Definition epoch_shown (m : Manager) : bool :=
  match epochStartedAt m, os_epochStartedAt (snapshot m), answers m, os_status (snapshot m) with None, Some _, [_], orch_idle => true | _, _, _, _ => false end.

(** The epoch of the snapshot does not end: when the only batch has answered and everything is idle,
    the manager has no epoch but the snapshot still shows when the last one started. *)
Theorem epoch_outlives_the_work : epoch_shown (run0 to_the_end) = true.
Proof. vm_compute. reflexivity. Qed.
End OrchSample.

(** * The orchestration manager: what the life of the runs depends on

    A step of the scheduler moves at most one task out of its stage, and its events say which.  Of
    the manager only a view matters for the life of the runs; each handler is a simple change of
    the view. *)

(** ** What a step of the scheduler does to the tasks *)

Module Stages.
Import Scheduler SchedulerProps.

(** A task waits, executes, or is done. *)
Inductive stage := waits_ | executes | is_done.
Definition stage_of (s : sched) (t : jsstr) : stage :=
  match ctls s !! t with Some c_executing => executes | Some c_done => is_done | _ => waits_ end.

Definition stage_moves (s s' : sched) (t : jsstr) (a b : stage) : Prop :=
  stage_of s t = a ∧ stage_of s' t = b ∧ ∀ u, u ≠ t → stage_of s' u = stage_of s u.

Inductive moved (s s' : sched) : label → list event → Prop :=
| mv_start t : stage_moves s s' t waits_ executes → moved s s' (l_slot t) [ev_started t]
| mv_skip t l r : stage_moves s s' t waits_ is_done → (∀ u o, l ≠ l_finish u o) → moved s s' l [ev_skipped t r]
| mv_finish t o es : stage_moves s s' t executes is_done → es = match o with o_throws msg => [ev_skipped t msg] | _ => [] end →
    moved s s' (l_finish t o) es
| mv_none l : (∀ u, stage_of s' u = stage_of s u) → (∀ u o, l ≠ l_finish u o) → moved s s' l [].

Section Run.
Context (tasks : list AiraSchedulerRunTask) (maxOption : Z).
Notation full := (full_inv tasks maxOption).

Lemma woken_stage f u k c : match woken tasks f u k c with c_executing => executes | c_done => is_done | _ => waits_ end
  = match c with c_executing => executes | c_done => is_done | _ => waits_ end.
Proof. destruct c; cbn; try done. by case_decide. Qed.

Lemma settle_stages ok t s c : dep_inv tasks s → ctls s !! t = Some c → plain c →
  stage_moves s (settle tasks ok t s) t (stage_of s t) is_done.
Proof.
  intros Hd Ht Hp. unfold stage_moves, stage_of. split; [done|]. split.
  - by rewrite (settle_ctls tasks ok t s c t Hd Ht Hp), decide_True by done.
  - intros u Hu. rewrite (settle_ctls tasks ok t s c u Hd Ht Hp), decide_False by done.
    destruct (ctls s !! u) as [cu|]; [|done]. cbn. case_decide; [done|]. apply woken_stage.
Qed.

Lemma release_stages s : (∀ u, u ∈ waiters s → ctls s !! u = Some c_queued) → ∀ u, stage_of (release_slot s) u = stage_of s u.
Proof.
  intros Hw u. destruct (release_fields s) as (_ & _ & _ & _ & Hc). unfold stage_of. rewrite Hc.
  destruct (waiters s) as [|next ws]; [done|]. case_decide; [subst; by rewrite Hw by left|done].
Qed.

Lemma set_stage s s' t c c0 : ctls s !! t = Some c0 → ctls s' = <[t := c]> (ctls s) →
  stage_of s' t = match c with c_executing => executes | c_done => is_done | _ => waits_ end ∧ ∀ u, u ≠ t → stage_of s' u = stage_of s u.
Proof. intros Ht Hc. unfold stage_of. rewrite Hc, lookup_insert_eq. split; [done|]. intros u Hu. by rewrite lookup_insert_ne. Qed.

Lemma moved_same s s1 s2 l es : moved s s1 l es → (∀ u, stage_of s2 u = stage_of s1 u) → moved s s2 l es.
Proof.
  intros [t (H1 & H2 & H3)|t l0 r (H1 & H2 & H3) Hl|t out es0 (H1 & H2 & H3) He|l0 H Hl] Hst.
  - apply mv_start. split_and!; [done|by rewrite Hst|]. intros u Hu. rewrite Hst. by apply H3.
  - apply mv_skip; [|done]. split_and!; [done|by rewrite Hst|]. intros u Hu. rewrite Hst. by apply H3.
  - apply mv_finish; [|done]. split_and!; [done|by rewrite Hst|]. intros u Hu. rewrite Hst. by apply H3.
  - apply mv_none; [|done]. intros u. rewrite Hst. apply H.
Qed.

Definition outcome_of (s s' : sched) (l : label) : Prop :=
  aborted s' = (match l with l_abort => true | _ => aborted s end) ∧ ∃ es, events s' = events s ++ es ∧ moved s s' l es.

Lemma skip_outcome t r s c l : dep_inv tasks s → ctls s !! t = Some c → plain c → c ≠ c_executing → (∀ u o, l ≠ l_finish u o) → l ≠ l_abort →
  outcome_of s (skip tasks t r (set_ctl t c_done s)) l.
Proof.
  intros Hd Ht Hp He Hl Ha. rewrite skip_eq. destruct (settle_fields tasks false t s) as (_ & _ & _ & _ & _ & _ & _ & Hev & Hab).
  split; [by destruct l|]. exists [ev_skipped t r]. split; [cbn; by rewrite Hev|]. apply mv_skip; [|done].
  destruct (settle_stages false t s c Hd Ht Hp) as (_ & H2 & H3). split_and!; [|exact H2|exact H3]. unfold stage_of. rewrite Ht.
  destruct Hp as [Hp _]. by destruct c.
Qed.

Lemma step_moved l s s' : NoDup (ids tasks) → full s → step tasks maxOption l s = Some s' → outcome_of s s' l.
Proof.
  intros Hnd [Hd Hs He] Hstep. destruct l as [t|t|t|t out|]; cbn [step] in Hstep.
  - destruct (ctls s !! t) as [[]|] eqn:Ht; try discriminate. destruct (aborted s) eqn:Ea; injection Hstep as <-.
    + by apply (skip_outcome t cancelled_reason s c_new).
    + assert (Hc : ∃ c, ctls (waitForDependencies tasks t s) = <[t := c]> (ctls s) ∧ c ≠ c_executing ∧ c ≠ c_done
        ∧ events (waitForDependencies tasks t s) = events s ∧ aborted (waitForDependencies tasks t s) = aborted s).
      { destruct (wait_cases tasks t s) as [[_ ->]|[_ ->]]; eexists; by split_and!. }
      destruct Hc as (c & Hc & H1 & H2 & Hev & Hab). split; [by rewrite Hab|]. exists []. split; [by rewrite Hev, app_nil_r|].
      apply mv_none; [|done]. destruct (set_stage s _ t c _ Ht Hc) as [H3 H4]. intros u. destruct (decide (u = t)) as [->|]; [|by apply H4].
      rewrite H3. unfold stage_of. rewrite Ht. by destruct c.
  - destruct (ctls s !! t) as [[| |[]| | | |]|] eqn:Ht; try discriminate; injection Hstep as <-.
    + assert (Hc : ∃ c, ctls (acquire tasks maxOption t s) = <[t := c]> (ctls s) ∧ c ≠ c_executing ∧ c ≠ c_done
        ∧ events (acquire tasks maxOption t s) = events s ∧ aborted (acquire tasks maxOption t s) = aborted s).
      { unfold acquire. case_match; eexists; by split_and!. }
      destruct Hc as (c & Hc & H1 & H2 & Hev & Hab). split; [done|]. exists []. split; [by rewrite Hev, app_nil_r|].
      apply mv_none; [|done]. destruct (set_stage s _ t c _ Ht Hc) as [H3 H4]. intros u. destruct (decide (u = t)) as [->|]; [|by apply H4].
      rewrite H3. unfold stage_of. rewrite Ht. by destruct c.
    + apply (skip_outcome t _ s (c_deps false)); try done.
  - destruct (ctls s !! t) as [[]|] eqn:Ht; try discriminate. destruct (aborted s) eqn:Ea; injection Hstep as <-.
    + destruct (skip_outcome t cancelled_reason s c_slot (l_slot t) Hd Ht) as (Hab & es & Hev & Hm); [done..|].
      rewrite finally_eq. set (s1 := skip tasks t cancelled_reason (set_ctl t c_done s)) in *.
      assert (Hw : ∀ u, u ∈ waiters s1 → ctls s1 !! u = Some c_queued).
      { assert (Hid : t ∈ ids tasks) by (rewrite <-(dv_dom _ _ Hd), Ht; eauto).
        pose proof (slot_settle tasks maxOption false t s c_slot Hnd Hd Hs Hid Ht) as Hset. unfold s1. rewrite skip_eq. cbn [waiters ctls emit].
        intros u Hu. by apply (sv_waiters _ _ _ _ (Hset ltac:(done) ltac:(done))). }
      clearbody s1. pose proof (release_stages s1 Hw) as Hst. destruct (release_fields s1) as (_ & _ & Hev2 & Hab2 & _).
      split; [cbn; by rewrite Hab2, Hab|]. exists es. split; [cbn; by rewrite Hev2, Hev|].
      eapply moved_same; [exact Hm|exact Hst].
    + split; [done|]. exists [ev_started t]. split; [done|]. apply mv_start.
      destruct (set_stage s (set_ctl t c_executing (emit (ev_started t) s)) t c_executing _ Ht eq_refl) as [H3 H4].
      split_and!; [unfold stage_of; by rewrite Ht|exact H3|exact H4].
  - destruct (ctls s !! t) as [[]|] eqn:Ht; try discriminate. injection Hstep as <-.
    set (ok := match out with o_completed => true | _ => false end).
    assert (Hw : ∀ u, u ∈ waiters s → ctls (set_ctl t c_done s) !! u = Some c_queued).
    { intros u Hu. apply (sv_waiters _ _ _ _ Hs) in Hu. cbn. rewrite lookup_insert_ne; [done|]. intros ->. congruence. }
    assert (Hid : t ∈ ids tasks) by (rewrite <-(dv_dom _ _ Hd), Ht; eauto).
    pose proof (slot_settle tasks maxOption ok t s c_executing Hnd Hd Hs Hid Ht ltac:(done) ltac:(done)) as Hset.
    destruct (settle_fields tasks ok t s) as (_ & _ & _ & _ & _ & _ & _ & Hev & Hab).
    destruct (settle_stages ok t s c_executing Hd Ht ltac:(done)) as (H1 & H2 & H3).
    pose proof (release_stages (settle tasks ok t s) (λ u, proj1 (sv_waiters _ _ _ _ Hset u))) as Hst.
    destruct (release_fields (settle tasks ok t s)) as (_ & _ & Hev2 & Hab2 & _).
    assert (Hmoves : stage_moves s (release_slot (settle tasks ok t s)) t executes is_done).
    { split_and!; [unfold stage_of; by rewrite Ht|by rewrite Hst|]. intros u Hu. rewrite Hst. by apply H3. }
    destruct out as [| |msg].
    + change ok with true in *. rewrite finally_eq, release_notify by exact Hw. fold (settle tasks true t s). split; [by rewrite Hab2|].
      exists []. split; [by rewrite Hev2, Hev, app_nil_r|]. by apply mv_finish.
    + change ok with false in *. rewrite finally_eq, release_notify by exact Hw. fold (settle tasks false t s). split; [by rewrite Hab2|].
      exists []. split; [by rewrite Hev2, Hev, app_nil_r|]. by apply mv_finish.
    + change ok with false in *. rewrite finish_eq by exact Hw. fold (settle tasks false t s). split; [by rewrite <-Hab, <-Hab2|].
      exists [ev_skipped t msg]. split; [by rewrite <-Hev, <-Hev2|]. by apply mv_finish.
  - injection Hstep as <-. split; [done|]. exists []. split; [by rewrite app_nil_r|]. by apply mv_none.
Qed.
End Run.
End Stages.

(** ** What the life of the runs depends on *)

Module OrchView.
Import ChildData OrchManager OrchManagerProps Stages.
#[local] Existing Instances child_status_eq_dec Scheduler.ctl_eq_dec.

Notation run_core := (jsstr * AiraChildRunStatus * AiraChildPhase)%type.
Definition core (r : AiraChildRun) : run_core := (id r, status r, phase r).
Definition exec_of (j : job) : execution := match j with j_resolve x | j_runner x => x end.

Record view := {
  v_core : list run_core; v_runs : list (jsstr * nat); v_batches : list batch; v_execs : list execution; v_active : list nat;
  v_disposed : bool }.
#[local] Instance view_rebuild : Rebuild view := λ v,
  Build_view (v_core v) (v_runs v) (v_batches v) (v_execs v) (v_active v) (v_disposed v).
Definition view_of (m : Manager) : view :=
  {| v_core := core <$> heap m; v_runs := runs m; v_batches := batches m; v_execs := exec_of <$> jobs m; v_active := activeBatches m;
     v_disposed := disposed m |}.

Definition v_set (i : nat) (s : AiraChildRunStatus) (p : AiraChildPhase) (v : view) : view := v <| v_core := alter (λ c, (c.1.1, s, p)) i (v_core v) |>.
Definition v_finish (n : nat) (t : jsstr) (out : Scheduler.outcome) (v : view) : view :=
  v <| v_batches := alter (λ b, b <| b_finished := b_finished b ++ [(t, out)] |>) n (v_batches v) |>.
Definition v_await (x : execution) (v : view) : view := v <| v_execs := v_execs v ++ [x] |>.
Definition v_sched (n : nat) (s : Scheduler.sched) (v : view) : view := v <| v_batches := alter (λ b, b <| b_sched := s |>) n (v_batches v) |>.

Definition over (s : AiraChildRunStatus) : Prop := s ≠ run_pending ∧ s ≠ run_running.

Lemma view_update i f m : (∀ r, core (f r) = core r) → view_of (update_run i f m) = view_of m.
Proof. intros Hf. unfold view_of. by rewrite heap_update. Qed.
Lemma view_set i f s p m : (∀ r, core (f r) = (id r, s, p)) → view_of (update_run i f m) = v_set i s p (view_of m).
Proof.
  intros Hf. unfold view_of, v_set, update_run, update_with. cbn.
  assert (E : core <$> alter f i (heap m) = alter (λ c, (c.1.1, s, p)) i (core <$> heap m)); [|by rewrite E].
  apply list_eq. intros j. rewrite list_lookup_fmap, !list_lookup_alter. rewrite !list_lookup_fmap.
  case_decide; [subst|done]. destruct (heap m !! j); cbn; by rewrite ?Hf.
Qed.
Lemma v_set_twice i s p s' p' v : v_set i s' p' (v_set i s p v) = v_set i s' p' v.
Proof.
  unfold v_set, update_with. cbn. f_equal. apply list_eq. intros j. rewrite !list_lookup_alter. repeat case_decide; try done.
  by destruct (v_core v !! _).
Qed.

Section Manager.
Context (o : Options) (env : Env).

Lemma view_event k e m : view_of (recordChildEvent k e m) = view_of m.
Proof.
  pose proof (same_preorder view_of) as Hpre. apply (event_rel (λ m m', view_of m' = view_of m)); [done| |done].
  intros ??? H. apply view_update. intros r. unfold core. by destruct (H r) as [-> _ -> -> _ _ _].
Qed.
Lemma view_record_status i m : view_of (record_status env i m) = view_of m.
Proof. unfold record_status. destruct (heap m !! i); [apply view_event|done]. Qed.
Lemma view_publish m : view_of (publish env m) = view_of m. Proof. done. Qed.

Lemma view_settleRun i s failure message res m : view_of (settleRun env i s failure message res m) = v_set i s phase_settled (view_of m).
Proof.
  assert (H : view_of (settling env i s failure res m) = v_set i s phase_settled (view_of m)) by (apply view_set; intros r; by destruct failure).
  destruct (settleRun_eq env i s failure message res m) as (m' & -> & [-> |(k & e & ->)]); rewrite view_publish, ?view_event; exact H.
Qed.
Lemma view_failRun i failure m : view_of (failRun env i failure m) = v_set i (failed_status (Failures.kind failure)) phase_settled (view_of m).
Proof.
  unfold failRun. cbv zeta. rewrite view_settleRun. set (m1 := update_run _ _ m). assert (H1 : view_of m1 = view_of m) by (by apply view_update).
  clearbody m1. rewrite <-H1. f_equal. destruct (heap m1 !! i); [apply view_event|done].
Qed.
Lemma view_leave x out m : view_of (leave x out m) = v_finish (x_batch x) (x_task x) out (view_of m).
Proof. unfold leave. by destruct (heap m !! x_run x). Qed.
Lemma failed_over k : over (failed_status k).
Proof. by destruct k. Qed.

(** What a settled call of [executeRun] does: the child is launched and awaited, or the run is settled. *)
Definition settles (x : execution) (v v' : view) : Prop :=
  v' = v_await x v ∨ ∃ s out, over s ∧ v' = v_finish (x_batch x) (x_task x) out (v_set (x_run x) s phase_settled v).

Lemma settles_failRun x failure m m1 : view_of m1 = view_of m →
  settles x (view_of m) (view_of (leave x Scheduler.o_failed (failRun env (x_run x) failure m1))).
Proof. intros Hm. right. eexists _, _. split; [apply failed_over|]. by rewrite view_leave, view_failRun, Hm. Qed.
Lemma settles_settleRun x s out failure message res m m1 : over s → view_of m1 = view_of m →
  settles x (view_of m) (view_of (leave x out (settleRun env (x_run x) s failure message res m1))).
Proof. intros Hs Hm. right. eexists s, _. split; [done|]. by rewrite view_leave, view_settleRun, Hm. Qed.

Lemma after_resolve_settles x res m : is_Some (batches m !! x_batch x ≫= λ b, (λ s, (b, s)) <$> spec_of (x_task x) b) → is_Some (heap m !! x_run x) →
  settles x (view_of m) (view_of (after_resolve o env x res m)).
Proof.
  intros [[b spec] Hb] Hr. unfold after_resolve. rewrite Hb. destruct res; try (by apply settles_failRun). cbv zeta.
  set (m1 := publish env _). assert (H1 : view_of m1 = view_of m) by (by apply view_update).
  assert (Hr1 : is_Some (heap m1 !! x_run x)) by (unfold m1; cbn; rewrite list_lookup_alter; case_decide; [by apply fmap_is_Some|done]). clearbody m1.
  set (m2 := match ts_capabilityGaps _ with [] => m1 | _ => _ end).
  assert (H2 : view_of m2 = view_of m1 ∧ is_Some (heap m2 !! x_run x)).
  { unfold m2. case_match; [done|]. split; [by apply view_update|]. cbn. rewrite list_lookup_alter. case_decide; [by apply fmap_is_Some|done]. }
  clearbody m2. destruct H2 as [H2 [r Hr2]]. rewrite Hr2. left. unfold v_await. rewrite <-H1, <-H2. unfold view_of. cbn. by rewrite fmap_app.
Qed.
Lemma after_runner_settles x out m : is_Some (heap m !! x_run x) → settles x (view_of m) (view_of (after_runner env x out m)).
Proof.
  intros Hr. destruct out as [res turns usage b|e f b]; cbn [after_runner]; set (m1 := update_run _ _ m);
    (assert (H1 : view_of m1 = view_of m) by (apply view_update; intros r; by destruct b as [[[]]|])).
  - case_bool_decide; by apply settles_settleRun.
  - assert (Hr1 : is_Some (heap m1 !! x_run x)) by (unfold m1; cbn; rewrite list_lookup_alter; case_decide; [by apply fmap_is_Some|done]).
    clearbody m1. destruct Hr1 as [r ->]. by apply settles_failRun.
Qed.
Lemma after_throw_settles x e m : settles x (view_of m) (view_of (after_throw env x e m)).
Proof. by apply settles_failRun. Qed.

Lemma view_start i m : view_of (publish env (record_status env i (update_run i (start_run env) m))) = v_set i run_running phase_running (view_of m).
Proof. rewrite view_publish, view_record_status. by apply view_set. Qed.

Lemma on_started n t m b runId : batches m !! n = Some b → runId_of t b = Some runId →
  view_of (on_event env n m (Scheduler.ev_started t))
  = match mget runId (runs m) with
    | None => v_finish n t Scheduler.o_failed (view_of m)
    | Some i => v_await {| x_batch := n; x_task := t; x_run := i; x_controller := length (controllers m) |} (v_set i run_running phase_running (view_of m))
    end.
Proof.
  pose proof (same_preorder controllers) as Hpre. intros Hb Ht. cbn [on_event]. unfold onStarted. rewrite Hb. cbn [mbind option_bind]. rewrite Ht. cbn [mbind option_bind].
  destruct (mget runId (runs m)) as [i|] eqn:Hi.
  - set (m1 := publish env _). pose proof (view_start i m) as H1. fold m1 in H1.
    assert (Hc : controllers m1 = controllers m).
    { unfold m1. change (controllers (publish env ?x)) with (controllers x). unfold record_status. destruct (heap _ !! i); [|done].
      transitivity (controllers (update_run i (start_run env) m)); [|done]. by apply (event_rel (λ m m', controllers m' = controllers m)). }
    assert (Hb1 : batches m1 !! n = Some b) by (change (v_batches (view_of m1) !! n = Some b); rewrite H1; done).
    assert (Hr1 : runs m1 = runs m) by (change (v_runs (view_of m1) = runs m); rewrite H1; done). clearbody m1.
    unfold executeRun. rewrite Hb1. cbn [mbind option_bind]. rewrite Ht, Hr1, Hi, Hc. cbv zeta.
    set (m2 := m1 <| controllers := _ |> <| runAborts := _ |>). assert (H2 : view_of m2 = view_of m1) by done. clearbody m2.
    pose proof (view_start i m2) as H3. rewrite H2, H1, v_set_twice in H3. rewrite <-H3.
    set (m3 := publish env _). clearbody m3. unfold v_await, view_of, await, update_with. cbn. by rewrite fmap_app.
  - unfold executeRun. rewrite Hb. cbn [mbind option_bind]. by rewrite Ht, Hi.
Qed.

Lemma on_skipped n t why m b runId : batches m !! n = Some b → runId_of t b = Some runId →
  view_of (on_event env n m (Scheduler.ev_skipped t why))
  = match mget runId (runs m) with
    | None => view_of m
    | Some i => match v_core (view_of m) !! i with
                | Some c => if bool_decide (c.1.2 = run_pending) then v_set i run_rejected phase_settled (view_of m) else view_of m
                | None => view_of m
                end
    end.
Proof.
  intros Hb Ht. cbn [on_event]. unfold onSkipped. rewrite Hb, Ht. cbn [mbind option_bind].
  destruct (mget runId (runs m)) as [i|] eqn:Hi; [|done]. change (v_core (view_of m)) with (core <$> heap m). rewrite list_lookup_fmap.
  destruct (heap m !! i) as [r|]; [|done]. cbn [fmap option_fmap option_map core fst snd]. case_bool_decide; [|done].
  rewrite view_publish, view_event. by apply view_set.
Qed.
End Manager.
End OrchView.
