(* ===== verification/OrchLifecycle.v ===== *)
(** * The life of a run: the scheduler and the manager together

    A run is pending while its task waits, running while it executes, and settled when the task is
    done.  So the results of a batch are those of settled runs, every running run is awaited, and
    the cancellation of everything reaches every child. *)
From S2P Require Import Prelude JsMap JsString OrchTypes Scheduler SchedulerProps Capabilities Failures ModelCall Verifier ChildData ChildEvents.
From S2P Require Import ChildRunner OrchManager OrchManagerProps OrchView.

Module OrchLifecycle.
Import ChildData OrchManager OrchManagerProps Stages OrchView.
#[local] Existing Instances child_status_eq_dec Scheduler.ctl_eq_dec view_rebuild.

Notation task_id p := (Scheduler.taskId (Scheduler.run_task p)).
Notation core_status c := (c.1.2).
Notation core_phase c := (c.2).

(** ** The invariant *)

Definition v_ids (v : view) : list jsstr := (λ c, c.1.1) <$> v_core v.
Definition settled_core (c : run_core) : Prop := core_phase c = phase_settled ∧ over (core_status c).
Definition finished_tasks (b : batch) : list jsstr := (b_finished b).*1.

(** What the run of a task must be like. *)
Definition task_ok (v : view) (n : nat) (b : batch) (t : jsstr) (c : run_core) : Prop :=
  match stage_of (b_sched b) t with
  | waits_ => core_status c = run_pending ∧ core_phase c ≠ phase_settled
  | executes => (t ∈ finished_tasks b ∧ settled_core c)
                ∨ (t ∉ finished_tasks b ∧ core_status c = run_running ∧ ∃ x, x ∈ v_execs v ∧ x_batch x = n ∧ x_task x = t)
  | is_done => settled_core c
  end.

Record batch_ok (b : batch) : Prop := {
  bo_ids : NoDup (Scheduler.ids (b_prepared b));
  bo_runs : NoDup (Scheduler.runId <$> b_prepared b);
  bo_specs : length (b_specs b) = length (b_prepared b);
  bo_sched : SchedulerProps.full_inv (b_prepared b) (maxParallel (b_settings b)) (b_sched b);
  bo_finished : ∀ t, t ∈ finished_tasks b → stage_of (b_sched b) t ≠ waits_;
  bo_closed : b_closed b = true → batch_done b = true }.

Definition owns (v : view) (n : nat) (b : batch) (p : Scheduler.AiraSchedulerRunTask) : Prop := v_batches v !! n = Some b ∧ p ∈ b_prepared b.

(** An outstanding call of [executeRun]. *)
Definition exec_ok (v : view) (x : execution) : Prop :=
  ∃ b p, owns v (x_batch x) b p ∧ task_id p = x_task x ∧ v_ids v !! x_run x = Some (Scheduler.runId p)
         ∧ stage_of (b_sched b) (x_task x) = executes ∧ x_task x ∉ finished_tasks b.

Record life (v : view) : Prop := {
  lf_ids : NoDup (v_ids v);
  lf_keys : NoDup (v_runs v).*1;
  lf_runs : ∀ k i, mget k (v_runs v) = Some i → v_ids v !! i = Some k;
  lf_batch : ∀ n b, v_batches v !! n = Some b → batch_ok b;
  lf_known : ∀ n b p, owns v n b p → Scheduler.runId p ∈ v_ids v;
  lf_owner : ∀ k, k ∈ v_ids v → ∃ n b p, owns v n b p ∧ Scheduler.runId p = k;
  lf_apart : ∀ n n' b b' p p', owns v n b p → owns v n' b' p' → Scheduler.runId p = Scheduler.runId p' → n = n' ∧ p = p';
  lf_execs : NoDup ((λ x, (x_batch x, x_task x)) <$> v_execs v);
  lf_exec : ∀ x, x ∈ v_execs v → exec_ok v x;
  lf_task : ∀ n b p i c, owns v n b p → mget (Scheduler.runId p) (v_runs v) = Some i → v_core v !! i = Some c → task_ok v n b (task_id p) c;
  lf_open : ∀ n b, v_batches v !! n = Some b → b_closed b = false → n ∈ v_active v ∨ Scheduler.aborted (b_sched b) = true }.

Lemma task_unique b p p' : batch_ok b → p ∈ b_prepared b → p' ∈ b_prepared b → task_id p = task_id p' → p = p'.
Proof.
  intros Hb [i Hi]%list_elem_of_lookup [j Hj]%list_elem_of_lookup E. pose proof (bo_ids b Hb) as Hnd.
  assert (i = j) as ->; [|congruence]. eapply NoDup_lookup; [exact Hnd|..]; unfold Scheduler.ids; rewrite list_lookup_fmap.
  - by rewrite Hi.
  - rewrite Hj. cbn. by rewrite E.
Qed.

Lemma v_ids_set i s p v : v_ids (v_set i s p v) = v_ids v.
Proof.
  unfold v_ids, v_set, update_with. cbn. apply list_eq. intros j. rewrite !list_lookup_fmap, list_lookup_alter.
  case_decide; [subst|done]. by destruct (v_core v !! j).
Qed.
Lemma v_core_set i s p v j : v_core (v_set i s p v) !! j = if decide (j = i) then (λ c, (c.1.1, s, p)) <$> v_core v !! j else v_core v !! j.
Proof. unfold v_set, update_with. cbn. rewrite list_lookup_alter. repeat case_decide; congruence. Qed.

(** *** Changes of one batch *)

Lemma owns_alter v v' n f n' b' p : v_batches v' = alter f n (v_batches v) → (∀ b, b_prepared (f b) = b_prepared b) →
  owns v' n' b' p ↔ ∃ b, owns v n' b p ∧ b' = (if decide (n' = n) then f b else b).
Proof.
  intros Hb Hf. unfold owns. rewrite Hb, list_lookup_alter. destruct (decide (n = n')) as [<-|Hn].
  - destruct (v_batches v !! n) as [b|]; cbn; (split; [intros [E Hp]|intros (b0 & [E Hp] & ->)]); try done.
    + injection E as <-. exists b. by rewrite decide_True, <-(Hf b).
    + injection E as <-. by rewrite decide_True, Hf.
  - split; [intros [E Hp]; exists b'; by rewrite decide_False by congruence|intros (b & [E Hp] & ->); by rewrite decide_False by congruence].
Qed.
Lemma owns_self v n b p : owns v n b p → v_batches v !! n = Some b ∧ p ∈ b_prepared b. Proof. done. Qed.

Lemma life_change v v' n f :
  life v → v_ids v' = v_ids v → v_runs v' = v_runs v → v_batches v' = alter f n (v_batches v) → (∀ b, b_prepared (f b) = b_prepared b) →
  (∀ b, v_batches v !! n = Some b → batch_ok b → batch_ok (f b)) →
  NoDup ((λ x, (x_batch x, x_task x)) <$> v_execs v') → (∀ x, x ∈ v_execs v' → exec_ok v' x) →
  (∀ n' b p i c, owns v n' b p → mget (Scheduler.runId p) (v_runs v) = Some i → v_core v' !! i = Some c →
     task_ok v' n' (if decide (n' = n) then f b else b) (task_id p) c) →
  (∀ n' b, v_batches v' !! n' = Some b → b_closed b = false → n' ∈ v_active v' ∨ Scheduler.aborted (b_sched b) = true) →
  life v'.
Proof.
  intros [H1 H2 H3 H4 H5 H6 H7 H8 H9 H10 H11] Ei Er Eb Hf Hok Hx1 Hx2 Ht Ho.
  pose proof (λ n' b' p, owns_alter v v' n f n' b' p Eb Hf) as Hown. constructor; rewrite ?Ei, ?Er; try done.
  - intros n' b'. rewrite Eb, list_lookup_alter. case_decide as E; [|apply H4]. subst n'. destruct (v_batches v !! n) as [b|] eqn:Hb; [|done].
    intros [= <-]. apply Hok; [done|]. by apply (H4 n).
  - intros n' b' p (b & Hp & _)%Hown. by eapply H5.
  - intros k (n' & b & p & Hp & Hk)%H6. exists n', (if decide (n' = n) then f b else b), p. split; [|done]. apply Hown. by exists b.
  - intros n1 n2 b1 b2 p1 p2 (b1' & Hp1 & _)%Hown (b2' & Hp2 & _)%Hown. by eapply H7.
  - intros n' b' p i c (b & Hp & ->)%Hown Hi Hc. by eapply Ht.
Qed.

(** The order of the outstanding calls does not matter. *)
Lemma life_execs_perm v l : life v → l ≡ₚ v_execs v → life (v <| v_execs := l |>).
Proof.
  intros Hl Hp. assert (Hx : ∀ x, x ∈ l ↔ x ∈ v_execs v) by (intros x; by rewrite Hp).
  destruct Hl as [H1 H2 H3 H4 H5 H6 H7 H8 H9 H10 H11]. constructor; try done.
  - cbn. by rewrite Hp.
  - intros x Hin%Hx. apply (H9 x Hin).
  - intros n b p i c Ho Hi Hc. specialize (H10 n b p i c Ho Hi Hc). unfold task_ok in *. destruct (stage_of _ _); try done.
    destruct H10 as [?|(? & ? & x & ? & ?)]; [by left|right]. split_and!; [done|done|]. exists x. split; [by apply Hx|done].
Qed.

(** The run at the index of an outstanding call is the run of its task. *)
Lemma run_of_exec v n b p x i : life v → owns v n b p → exec_ok v x → mget (Scheduler.runId p) (v_runs v) = Some i →
  i = x_run x ↔ n = x_batch x ∧ task_id p = x_task x.
Proof.
  intros Hl Ho (b' & p' & Ho' & Ht & Hi & _) Hm%(lf_runs v Hl). split.
  - intros ->. assert (E : Scheduler.runId p' = Scheduler.runId p) by congruence.
    destruct (lf_apart v Hl _ _ _ _ _ _ Ho' Ho E) as [-> ->]. done.
  - intros [-> E]. destruct Ho as [Hb Hp], Ho' as [Hb' Hp']. assert (b' = b) as -> by congruence.
    assert (p' = p) as -> by (eapply (task_unique b); [by eapply lf_batch|done..|congruence]).
    by apply (NoDup_lookup _ _ _ _ (lf_ids v Hl) Hm Hi).
Qed.

(** *** An outstanding call settles the run *)

Lemma life_settle v x l s out : life v → v_execs v ≡ₚ x :: l → over s →
  life (v_finish (x_batch x) (x_task x) out (v_set (x_run x) s phase_settled (v <| v_execs := l |>))).
Proof.
  intros Hl Hp Hs. set (v' := v_finish _ _ _ _).
  assert (Hx : exec_ok v x) by (apply (lf_exec v Hl); rewrite Hp; left).
  assert (Hnd : NoDup ((λ y, (x_batch y, x_task y)) <$> x :: l)) by (rewrite <-Hp; apply (lf_execs v Hl)).
  rewrite fmap_cons, NoDup_cons in Hnd. destruct Hnd as [Hnx Hnd].
  assert (Hother : ∀ y, y ∈ l → x_batch y = x_batch x → x_task y ≠ x_task x).
  { intros y Hy E1 E2. apply Hnx. apply list_elem_of_fmap. exists y. by rewrite E1, E2. }
  assert (Hids : v_ids v' = v_ids v) by exact (v_ids_set (x_run x) s phase_settled (v <| v_execs := l |>)).
  set (f := λ b, b <| b_finished := b_finished b ++ [(x_task x, out)] |>).
  assert (Hfin : ∀ b t, t ∈ finished_tasks (f b) ↔ t ∈ finished_tasks b ∨ t = x_task x).
  { intros b t. unfold finished_tasks, f, update_with. cbn. rewrite fmap_app, elem_of_app. cbn. by rewrite list_elem_of_singleton. }
  apply (life_change v v' (x_batch x) f); try done.
  - intros b Hb [B1 B2 B3 B4 B5 B6]. constructor; try done. intros t Ht%Hfin. destruct Ht as [Ht| ->]; [by apply B5|].
    destruct Hx as (b' & p & [Hb' _] & _ & _ & Hst & _). assert (b' = b) as -> by congruence. change (b_sched (f b)) with (b_sched b). by rewrite Hst.
  - intros y Hy. assert (Hyv : exec_ok v y) by (apply (lf_exec v Hl); rewrite Hp; by right).
    destruct Hyv as (b & p & Ho & Ht & Hi & Hst & Hnf). exists (if decide (x_batch y = x_batch x) then f b else b), p. split_and!.
    + apply (owns_alter v v' (x_batch x) f); [done|done|]. by exists b.
    + done.
    + by rewrite Hids.
    + by case_decide.
    + case_decide as E; [|done]. intros [?| Hc]%Hfin; [done|]. by apply (Hother y Hy).
  - intros n b p i c Ho Hi Hc. change (v_core v' !! i) with (v_core (v_set (x_run x) s phase_settled (v <| v_execs := l |>)) !! i) in Hc.
    rewrite v_core_set in Hc. pose proof (run_of_exec v n b p x i Hl Ho Hx Hi) as Hiff. destruct (decide (i = x_run x)) as [Ei|Ei].
    + destruct (proj1 Hiff Ei) as [-> Et]. rewrite decide_True by done. change (v_core (v <| v_execs := l |>)) with (v_core v) in Hc.
      destruct (v_core v !! i) as [c0|]; [|done]. injection Hc as <-. destruct Hx as (b' & p' & [Hb' _] & _ & _ & Hst & _).
      assert (b' = b) as -> by (destruct Ho; congruence). unfold task_ok. change (b_sched (f b)) with (b_sched b). rewrite Et, Hst. left.
      split; [apply Hfin; by right|done].
    + pose proof (lf_task v Hl n b p i c Ho Hi Hc) as Hok. assert (Hne : n = x_batch x → task_id p ≠ x_task x) by tauto.
      assert (Hst : stage_of (b_sched (if decide (n = x_batch x) then f b else b)) (task_id p) = stage_of (b_sched b) (task_id p)) by by case_decide.
      unfold task_ok in *. rewrite Hst. destruct (stage_of (b_sched b) (task_id p)); try done. destruct Hok as [[Ht Hc2]|(Ht & Hr & y & Hy & Hyn & Hyt)].
      * left. split; [|done]. case_decide; [apply Hfin; by left|done].
      * right. split_and!; [|done|].
        -- case_decide; [|done]. intros [?|?]%Hfin; [done|]. by apply Hne.
        -- exists y. split_and!; [|done|done]. rewrite Hp in Hy. apply elem_of_cons in Hy as [->|Hy]; [|done]. exfalso. by apply Ei, Hiff.
  - intros n b Hb Hcl. cbn in Hb. rewrite list_lookup_alter in Hb. case_decide; [|by eapply (lf_open v Hl)].
    subst n. destruct (v_batches v !! x_batch x) as [b0|] eqn:Hb0; [|done]. injection Hb as <-. by apply (lf_open v Hl _ b0).
Qed.

(** *** A step of the scheduler *)

Lemma batch_done_stages b : batch_done b = true ↔ ∀ t, t ∈ Scheduler.ids (b_prepared b) → stage_of (b_sched b) t = is_done.
Proof.
  unfold batch_done. rewrite forallb_forall. split; intros H t Ht.
  - apply list_elem_of_In in Ht. specialize (H t Ht). apply bool_decide_eq_true in H. unfold stage_of. by rewrite H.
  - apply list_elem_of_In in Ht. specialize (H t Ht). apply bool_decide_eq_true. unfold stage_of in H. by destruct (Scheduler.ctls _ !! t) as [[]|].
Qed.

Lemma moved_keeps s s' l es u : moved s s' l es →
  (stage_of s u ≠ waits_ → stage_of s' u ≠ waits_) ∧ (stage_of s u = is_done → stage_of s' u = is_done).
Proof.
  assert (Hm : ∀ t a z, stage_moves s s' t a z → z ≠ waits_ → a ≠ is_done →
    (stage_of s u ≠ waits_ → stage_of s' u ≠ waits_) ∧ (stage_of s u = is_done → stage_of s' u = is_done)).
  { intros t a z (H1 & H2 & H3) Hz Ha. destruct (decide (u = t)) as [->|Hu]; [|by rewrite H3]. rewrite H1, H2. by split. }
  intros [t H|t l0 r H Hl|t out es0 H He|l0 H Hl]; try (by eapply Hm). by rewrite H.
Qed.

Lemma moved_inv s s' l es : moved s s' l es →
  (∃ t, es = [Scheduler.ev_started t] ∧ stage_moves s s' t waits_ executes)
  ∨ (∃ t r, es = [Scheduler.ev_skipped t r] ∧ stage_moves s s' t waits_ is_done)
  ∨ (∃ t out, l = Scheduler.l_finish t out ∧ stage_moves s s' t executes is_done
      ∧ es = match out with Scheduler.o_throws msg => [Scheduler.ev_skipped t msg] | _ => [] end)
  ∨ (es = [] ∧ ∀ u, stage_of s' u = stage_of s u).
Proof.
  intros [t H|t l0 r H _|t out es0 H He|l0 H _]; [left|right; left|right; right; left|right; right; right]; eauto.
Qed.

Definition resched (s : Scheduler.sched) (fin : list (jsstr * Scheduler.outcome)) (b : batch) : batch :=
  b <| b_sched := s |> <| b_finished := b_finished b ++ fin |>.
Lemma finished_resched s fin b : finished_tasks (resched s fin b) = finished_tasks b ++ fin.*1.
Proof. unfold finished_tasks, resched, update_with. cbn. by rewrite fmap_app. Qed.

Lemma finished_resched_nil s b : finished_tasks (resched s [] b) = finished_tasks b.
Proof. by rewrite finished_resched, app_nil_r. Qed.

Lemma batch_ok_step b l s' es fin : batch_ok b →
  Scheduler.step (b_prepared b) (maxParallel (b_settings b)) l (b_sched b) = Some s' → moved (b_sched b) s' l es →
  (∀ t, t ∈ fin.*1 → stage_of s' t ≠ waits_) → batch_ok (resched s' fin b).
Proof.
  intros [B1 B2 B3 B4 B5 B6] Hs Hm Hf. constructor; try done.
  - by eapply SchedulerProps.step_full.
  - rewrite finished_resched. intros t [Ht|Ht]%elem_of_app; [|by apply Hf]. eapply moved_keeps; [exact Hm|by apply B5].
  - intros Hc%B6. apply batch_done_stages. intros t Ht. eapply moved_keeps; [exact Hm|]. by apply batch_done_stages.
Qed.

(** One task moves: only its run changes, and at most one call of it begins. *)
Lemma life_moved v v' n b p s' a z fin new :
  life v → owns v n b p → stage_moves (b_sched b) s' (task_id p) a z → batch_ok (resched s' fin b) →
  (∀ t, t ∈ fin.*1 → t = task_id p) →
  v_ids v' = v_ids v → v_runs v' = v_runs v → v_batches v' = alter (resched s' fin) n (v_batches v) → v_active v' = v_active v →
  (∀ i, mget (Scheduler.runId p) (v_runs v) ≠ Some i → v_core v' !! i = v_core v !! i) →
  v_execs v' = v_execs v ++ new → (length new <= 1)%nat → (∀ x, x ∈ new → x_batch x = n ∧ x_task x = task_id p ∧ exec_ok v' x) →
  (∀ y, y ∈ v_execs v → x_batch y = n → x_task y ≠ task_id p) →
  (∀ i c, mget (Scheduler.runId p) (v_runs v) = Some i → v_core v' !! i = Some c → task_ok v' n (resched s' fin b) (task_id p) c) →
  (Scheduler.aborted (b_sched b) = true → Scheduler.aborted s' = true) →
  life v'.
Proof.
  intros Hl Ho Hst Hok Hfin Hids Hruns Hb Hact Hcore Hx Hlen Hnew Hold Htask Hab. destruct Hst as (S1 & S2 & S3).
  assert (Hother : ∀ n' b' p', owns v n' b' p' → (n' = n → task_id p' ≠ task_id p) →
    let b2 := if decide (n' = n) then resched s' fin b' else b' in
    stage_of (b_sched b2) (task_id p') = stage_of (b_sched b') (task_id p')
    ∧ (task_id p' ∈ finished_tasks b2 ↔ task_id p' ∈ finished_tasks b')).
  { intros n' b' p' Ho' Hne. cbv zeta. case_decide as E; [|done]. subst n'. assert (b' = b) as -> by (destruct Ho, Ho'; congruence).
    split; [apply (S3 (task_id p')); by apply Hne|]. rewrite finished_resched, elem_of_app. split; [|by auto].
    intros [?|?%Hfin]; [done|]. by destruct (Hne eq_refl). }
  apply (life_change v v' n (resched s' fin)); try done.
  - intros b0 Hb0 _. assert (b0 = b) as -> by (destruct Ho; congruence). done.
  - rewrite Hx, fmap_app. apply NoDup_app. split; [apply (lf_execs v Hl)|]. split.
    + intros q (y & -> & Hy)%list_elem_of_fmap (x & E & Hx')%list_elem_of_fmap. destruct (Hnew x Hx') as (E1 & E2 & _).
      injection E as Ey1 Ey2. apply (Hold y Hy); congruence.
    + destruct new as [|x [|]]; [constructor|apply NoDup_singleton|cbn in Hlen; lia].
  - intros y. rewrite Hx. intros [Hy|Hy]%elem_of_app; [|by apply Hnew].
    destruct (lf_exec v Hl y Hy) as (b' & p' & Ho' & Ht & Hi & Hs1 & Hf1).
    destruct (Hother (x_batch y) b' p' Ho') as [E1 E2]; [rewrite Ht; by apply Hold|].
    exists (if decide (x_batch y = n) then resched s' fin b' else b'), p'. split_and!.
    + apply (owns_alter v v' n (resched s' fin)); [done|done|]. by exists b'.
    + done.
    + by rewrite Hids.
    + rewrite <-Ht, E1, Ht. done.
    + rewrite <-Ht, E2, Ht. done.
  - intros n' b' p' i c Ho' Hi Hc. destruct (decide (n' = n ∧ task_id p' = task_id p)) as [[-> E]|Hne].
    + rewrite decide_True by done. assert (b' = b) as -> by (destruct Ho, Ho'; congruence).
      assert (p' = p) as -> by (destruct Ho, Ho'; eapply task_unique; [by eapply lf_batch|done..]). by eapply Htask.
    + destruct (Hother n' b' p' Ho') as [E1 E2]; [intros -> E; by apply Hne|]. rewrite Hcore in Hc.
      2: { intros Hi'. apply Hne. apply (lf_runs v Hl) in Hi, Hi'. destruct (lf_apart v Hl n' n b' b p' p Ho' Ho) as [-> ->]; [congruence|done]. }
      pose proof (lf_task v Hl _ _ _ _ _ Ho' Hi Hc) as Hk. unfold task_ok in *. rewrite E1. destruct (stage_of (b_sched b') (task_id p')); try done.
      rewrite E2. destruct Hk as [?|(? & ? & y & Hy & ? & ?)]; [by left|right]. split_and!; [done|done|]. exists y. split; [|done].
      rewrite Hx. apply elem_of_app. by left.
  - intros n' b'. rewrite Hb, Hact, list_lookup_alter. case_decide as E; [|apply (lf_open v Hl)]. subst n'.
    destruct Ho as [Hb0 _]. rewrite Hb0. intros [= <-] Hcl. destruct (lf_open v Hl n b Hb0 Hcl) as [?|?]; [by left|right]. by apply Hab.
Qed.

Lemma runId_of_task b p : batch_ok b → p ∈ b_prepared b → runId_of (task_id p) b = Some (Scheduler.runId p) ∧ is_Some (spec_of (task_id p) b).
Proof.
  intros Hb Hp. assert (Hi : ∃ i, index_of (task_id p) b = Some i ∧ b_prepared b !! i = Some p).
  { unfold index_of. destruct (list_find_elem_of (λ q, task_id q = task_id p) (b_prepared b) p Hp eq_refl) as [[i q] E]. rewrite E.
    apply list_find_Some in E as (Hq & Ht & _). exists i. split; [done|].
    by rewrite <-(task_unique b q p Hb (list_elem_of_lookup_2 _ _ _ Hq) Hp Ht). }
  destruct Hi as (i & Hi & Hq). unfold runId_of, spec_of. rewrite Hi. cbn. rewrite Hq. split; [done|]. apply lookup_lt_is_Some.
  rewrite (bo_specs b Hb). by eapply lookup_lt_Some.
Qed.

Lemma staged_task b t : batch_ok b → stage_of (b_sched b) t ≠ waits_ → ∃ p, p ∈ b_prepared b ∧ task_id p = t.
Proof.
  intros Hb Hs. assert (Hin : t ∈ Scheduler.ids (b_prepared b)).
  { apply (SchedulerProps.dv_dom _ _ (SchedulerProps.fi_dep _ _ _ (bo_sched b Hb))). unfold stage_of in Hs. by destruct (Scheduler.ctls _ !! t). }
  apply list_elem_of_fmap in Hin as (p & -> & Hp). by exists p.
Qed.

Lemma alter_sched n s' v : v_batches (v_sched n s' v) = alter (resched s' []) n (v_batches v).
Proof.
  unfold v_sched, update_with. cbn. apply list_alter_ext; [|done]. intros b _. unfold resched, update_with. cbn. by rewrite app_nil_r.
Qed.
Lemma alter_sched_finish n t out s' v : v_batches (v_finish n t out (v_sched n s' v)) = alter (resched s' [(t, out)]) n (v_batches v).
Proof.
  unfold v_finish, v_sched, update_with. cbn. apply list_eq. intros j. rewrite !list_lookup_alter. repeat case_decide; try done. by destruct (v_batches v !! _).
Qed.

(** What the manager does after a step of the scheduler with the events [es]. *)
Definition follow (n : nat) (b : batch) (k : nat) (es : list Scheduler.event) (v : view) : view :=
  match es with
  | [Scheduler.ev_started t] =>
      match runId_of t b ≫= (λ runId, mget runId (v_runs v)) with
      | Some i => v_await {| x_batch := n; x_task := t; x_run := i; x_controller := k |} (v_set i run_running phase_running v)
      | None => v_finish n t Scheduler.o_failed v
      end
  | [Scheduler.ev_skipped t _] =>
      match runId_of t b ≫= (λ runId, mget runId (v_runs v)) with
      | Some i => match v_core v !! i with
                  | Some c => if bool_decide (core_status c = run_pending) then v_set i run_rejected phase_settled v else v
                  | None => v
                  end
      | None => v
      end
  | _ => v
  end.

Section Step.
Context (v : view) (n : nat) (b : batch) (l : Scheduler.label) (s' : Scheduler.sched) (k : nat).
Context (Hl : life v) (Hb : v_batches v !! n = Some b).
Context (Hstep : Scheduler.step (b_prepared b) (maxParallel (b_settings b)) l (b_sched b) = Some s').
Context (Hab : Scheduler.aborted (b_sched b) = true → Scheduler.aborted s' = true).

Lemma ok_b : batch_ok b. Proof. by eapply lf_batch. Qed.
Lemma ok_s fin es : moved (b_sched b) s' l es → (∀ t, t ∈ fin.*1 → stage_of s' t ≠ waits_) → batch_ok (resched s' fin b).
Proof. intros Hm. eapply batch_ok_step; [apply ok_b|done|exact Hm]. Qed.
Lemma not_executing t y : stage_of (b_sched b) t = waits_ → y ∈ v_execs v → x_batch y = n → x_task y ≠ t.
Proof. intros Hs (b' & p' & [Hb' _] & _ & _ & Hst & _)%(lf_exec v Hl) <- <-. assert (b' = b) as -> by congruence. congruence. Qed.
Lemma not_finished t : stage_of (b_sched b) t = waits_ → t ∉ finished_tasks b.
Proof. intros Hs Hf. by apply (bo_finished b ok_b t Hf). Qed.

Lemma life_start t : moved (b_sched b) s' l [Scheduler.ev_started t] → stage_moves (b_sched b) s' t waits_ executes →
  life (follow n b k [Scheduler.ev_started t] (v_sched n s' v)).
Proof.
  intros Hm Hst. destruct (staged_task (resched s' [] b) t) as (p & Hp & Ht).
  { eapply ok_s; [exact Hm|by intros ? ?%not_elem_of_nil]. }
  { change (stage_of s' t ≠ waits_). by destruct Hst as (_ & -> & _). }
  change (b_prepared (resched s' [] b)) with (b_prepared b) in Hp. subst t. assert (Ho : owns v n b p) by done.
  destruct (runId_of_task b p ok_b Hp) as [Hr _]. cbn [follow]. rewrite Hr. cbn [mbind option_bind]. change (v_runs (v_sched n s' v)) with (v_runs v).
  destruct Hst as (S1 & S2 & S3). destruct (mget (Scheduler.runId p) (v_runs v)) as [i|] eqn:Hi.
  - set (x := Build_execution n (task_id p) i k). set (v' := v_await x _).
    assert (Hids : v_ids v' = v_ids v) by exact (v_ids_set i run_running phase_running (v_sched n s' v)).
    assert (Hbt : v_batches v' = alter (resched s' []) n (v_batches v)) by exact (alter_sched n s' v).
    assert (Hxe : v_execs v' = v_execs v ++ [x]) by done.
    apply (life_moved v v' n b p s' waits_ executes [] [x]); try done.
    + eapply ok_s; [exact Hm|by intros ? ?%not_elem_of_nil].
    + by intros t ?%not_elem_of_nil.
    + intros j Hj. change (v_core v' !! j) with (v_core (v_set i run_running phase_running (v_sched n s' v)) !! j). rewrite v_core_set.
      case_decide; [|done]. subst j. by destruct Hj.
    + intros y ->%list_elem_of_singleton. split; [done|]. split; [done|]. exists (resched s' [] b), p. split_and!.
      * apply (owns_alter v v' n (resched s' [])); [done|done|]. exists b. split; [done|]. by rewrite decide_True.
      * done.
      * rewrite Hids. by apply (lf_runs v Hl).
      * exact S2.
      * rewrite finished_resched_nil. by apply not_finished.
    + intros y Hy Hn. by apply not_executing.
    + intros j c Hj Hc. assert (j = i) as -> by congruence.
      change (v_core v' !! i) with (v_core (v_set i run_running phase_running (v_sched n s' v)) !! i) in Hc.
      rewrite v_core_set, decide_True in Hc by done. apply fmap_Some in Hc as (c0 & _ & ->). unfold task_ok.
      change (b_sched (resched s' [] b)) with s'. rewrite S2. right. rewrite finished_resched_nil.
      split_and!; [by apply not_finished|done|]. exists x. rewrite Hxe. split; [apply elem_of_app; right; left|done].
  - set (v' := v_finish _ _ _ _). pose proof (alter_sched_finish n (task_id p) Scheduler.o_failed s' v) as Hbt.
    apply (life_moved v v' n b p s' waits_ executes [(task_id p, Scheduler.o_failed)] []); try done.
    + eapply ok_s; [exact Hm|]. intros t ->%list_elem_of_singleton. cbn [fst]. by rewrite S2.
    + by intros t ->%list_elem_of_singleton.
    + by rewrite app_nil_r.
    + cbn. lia.
    + by intros y ?%not_elem_of_nil.
    + intros y Hy Hn. by apply not_executing.
    + intros j c Hj. congruence.
Qed.

Lemma life_skip t why : moved (b_sched b) s' l [Scheduler.ev_skipped t why] → stage_moves (b_sched b) s' t waits_ is_done →
  life (follow n b k [Scheduler.ev_skipped t why] (v_sched n s' v)).
Proof.
  intros Hm Hst. destruct (staged_task (resched s' [] b) t) as (p & Hp & Ht).
  { eapply ok_s; [exact Hm|by intros ? ?%not_elem_of_nil]. }
  { change (stage_of s' t ≠ waits_). by destruct Hst as (_ & -> & _). }
  change (b_prepared (resched s' [] b)) with (b_prepared b) in Hp. subst t. assert (Ho : owns v n b p) by done.
  destruct (runId_of_task b p ok_b Hp) as [Hr _]. cbn [follow]. rewrite Hr. cbn [mbind option_bind].
  change (v_runs (v_sched n s' v)) with (v_runs v). change (v_core (v_sched n s' v)) with (v_core v).
  set (v' := match mget (Scheduler.runId p) (v_runs v) with Some i => _ | None => v_sched n s' v end).
  pose proof Hst as (S1 & S2 & S3).
  assert (H : v_ids v' = v_ids v ∧ v_runs v' = v_runs v ∧ v_batches v' = alter (resched s' []) n (v_batches v) ∧ v_active v' = v_active v
    ∧ (∀ i, mget (Scheduler.runId p) (v_runs v) ≠ Some i → v_core v' !! i = v_core v !! i) ∧ v_execs v' = v_execs v
    ∧ ∀ i c, mget (Scheduler.runId p) (v_runs v) = Some i → v_core v' !! i = Some c → settled_core c).
  { unfold v'. destruct (mget (Scheduler.runId p) (v_runs v)) as [i|] eqn:Hi; [|split_and!; try done; apply alter_sched].
    assert (Hci : ∃ c, v_core v !! i = Some c) by (pose proof (lf_runs v Hl _ _ Hi) as Hk; unfold v_ids in Hk; rewrite list_lookup_fmap in Hk;
      destruct (v_core v !! i) as [c|]; [by exists c|done]).
    destruct Hci as [c Hci]. rewrite Hci. pose proof (lf_task v Hl n b p i c Ho Hi Hci) as Hok. unfold task_ok in Hok. rewrite S1 in Hok.
    rewrite bool_decide_eq_true_2 by apply Hok. split_and!; try done.
    - exact (v_ids_set i run_rejected phase_settled (v_sched n s' v)).
    - exact (alter_sched n s' v).
    - intros j Hj. rewrite v_core_set. case_decide; [|done]. subst j. by destruct Hj.
    - intros j c' Hj Hc. assert (j = i) as -> by congruence. rewrite v_core_set, decide_True in Hc by done.
      change (v_core (v_sched n s' v)) with (v_core v) in Hc. rewrite Hci in Hc. injection Hc as <-. by split. }
  clearbody v'. destruct H as (H1 & H2 & H3 & H4 & H5 & H6 & H7).
  apply (life_moved v v' n b p s' waits_ is_done [] []); try done.
  - eapply ok_s; [exact Hm|by intros ? ?%not_elem_of_nil].
  - by intros t ?%not_elem_of_nil.
  - by rewrite app_nil_r.
  - cbn. lia.
  - by intros y ?%not_elem_of_nil.
  - intros y Hy Hn. by apply not_executing.
  - intros i c Hi Hc. unfold task_ok. change (b_sched (resched s' [] b)) with s'. rewrite S2. by apply (H7 i).
Qed.

Lemma life_finish t : moved (b_sched b) s' l [] → stage_moves (b_sched b) s' t executes is_done → t ∈ finished_tasks b → life (v_sched n s' v).
Proof.
  intros Hm Hst Hf. pose proof Hst as (S1 & S2 & S3). destruct (staged_task b t ok_b) as (p & Hp & Ht); [by rewrite S1|]. subst t.
  assert (Ho : owns v n b p) by done.
  apply (life_moved v (v_sched n s' v) n b p s' executes is_done [] []); try done.
  - eapply ok_s; [exact Hm|by intros ? ?%not_elem_of_nil].
  - by intros t ?%not_elem_of_nil.
  - apply alter_sched.
  - cbn. by rewrite app_nil_r.
  - cbn. lia.
  - by intros y ?%not_elem_of_nil.
  - intros y (b' & p' & [Hb' _] & _ & _ & _ & Hnf)%(lf_exec v Hl) <- E. assert (b' = b) as -> by congruence. by rewrite E in Hnf.
  - intros i c Hi Hc. unfold task_ok. change (b_sched (resched s' [] b)) with s'. rewrite S2.
    pose proof (lf_task v Hl n b p i c Ho Hi Hc) as Hok. unfold task_ok in Hok. rewrite S1 in Hok. by destruct Hok as [[_ ?]|[? _]].
Qed.

Lemma life_none : moved (b_sched b) s' l [] → (∀ u, stage_of s' u = stage_of (b_sched b) u) → life (v_sched n s' v).
Proof.
  intros Hm Hst. assert (Hsame : ∀ n' b' t, v_batches v !! n' = Some b' →
    let b2 := if decide (n' = n) then resched s' [] b' else b' in
    stage_of (b_sched b2) t = stage_of (b_sched b') t ∧ finished_tasks b2 = finished_tasks b').
  { intros n' b' t Hb'. cbv zeta. case_decide; [|done]. subst n'. assert (b' = b) as -> by congruence. split; [apply Hst|apply finished_resched_nil]. }
  apply (life_change v (v_sched n s' v) n (resched s' [])); try done.
  - apply alter_sched.
  - intros b0 Hb0 _. assert (b0 = b) as -> by congruence. eapply ok_s; [exact Hm|by intros ? ?%not_elem_of_nil].
  - apply (lf_execs v Hl).
  - intros y Hy. destruct (lf_exec v Hl y Hy) as (b' & p' & Ho' & Ht & Hi & Hs1 & Hf1). pose proof Ho' as [Hb' _].
    destruct (Hsame _ _ (x_task y) Hb') as [E1 E2]. exists (if decide (x_batch y = n) then resched s' [] b' else b'), p'. split_and!; try done.
    + apply (owns_alter v (v_sched n s' v) n (resched s' [])); [apply alter_sched|done|]. by exists b'.
    + by rewrite E1.
    + by rewrite E2.
  - intros n' b' p i c Ho' Hi Hc. pose proof Ho' as [Hb' _]. destruct (Hsame _ _ (task_id p) Hb') as [E1 E2].
    pose proof (lf_task v Hl n' b' p i c Ho' Hi Hc) as Hok. unfold task_ok in *. by rewrite E1, E2.
  - intros n' b'. rewrite alter_sched, list_lookup_alter. case_decide as E; [|apply (lf_open v Hl)]. subst n'. rewrite Hb.
    intros [= <-] Hcl. destruct (lf_open v Hl n b Hb Hcl) as [?|?]; [by left|right]. by apply Hab.
Qed.

(** Whatever the scheduler does, the runs follow. *)
Lemma life_step es : moved (b_sched b) s' l es → (∀ t out, l = Scheduler.l_finish t out → t ∈ finished_tasks b ∧ ∀ msg, out ≠ Scheduler.o_throws msg) →
  life (follow n b k es (v_sched n s' v)).
Proof.
  intros Hm Hfin. destruct (moved_inv _ _ _ _ Hm) as [(t & -> & H)|[(t & r & -> & H)|[(t & out & El & H & ->)|[-> H]]]].
  - by apply life_start.
  - by apply life_skip.
  - destruct (Hfin t out El) as [Hf Hth]. destruct out as [| |msg]; [by eapply life_finish|by eapply life_finish|by destruct (Hth msg)].
  - by apply life_none.
Qed.
End Step.
End OrchLifecycle.

(** * The life of a run: every call of the manager

    Every call keeps the invariant of [OrchLifecycle]; what follows for the results of a batch, for
    the running runs and for the cancellation of everything. *)

Module OrchLives.
Import ChildData OrchManager OrchManagerProps Stages OrchView OrchLifecycle.
#[local] Existing Instances child_status_eq_dec Scheduler.ctl_eq_dec view_rebuild same_preorder.

(** ** What a batch adds to the view *)

Section Manager.
Context (o : Options) (env : Env).

Lemma core_recordRun r m : core <$> heap (recordRun env r m) = (core <$> heap m) ++ [core r].
Proof.
  unfold recordRun. cbv zeta. set (m1 := m <| heap := _ |> <| runs := _ |> <| buffers := _ |> <| eventListeners := _ |>).
  pose proof (f_equal v_core (view_record_status env (length (heap m)) m1)) as H1. cbn [view_of v_core] in H1.
  set (m2 := record_status env _ m1) in *. assert (H2 : core <$> heap m2 = (core <$> heap m) ++ [core r]) by (rewrite H1; unfold m1; cbn; by rewrite fmap_app).
  clearbody m2. destruct (zlen (runs m2) <=? _); [done|]. rewrite <-H2. unfold evict. case_match; [done|]. by repeat case_match.
Qed.

(** What [recordRun] leaves alone. *)
Definition rest (m : Manager) : list batch * list job * list nat * bool := (batches m, jobs m, activeBatches m, disposed m).
Lemma rest_recordRun r m : rest (recordRun env r m) = rest m.
Proof.
  unfold recordRun. cbv zeta. set (m1 := m <| heap := _ |> <| runs := _ |> <| buffers := _ |> <| eventListeners := _ |>).
  assert (H1 : rest (record_status env (length (heap m)) m1) = rest m1).
  { unfold record_status. destruct (heap m1 !! _); [|done]. by apply (event_rel (λ m m', rest m' = rest m)). }
  set (m2 := record_status env _ m1) in *. assert (H2 : rest m2 = rest m) by (rewrite H1; done). clearbody m2.
  destruct (zlen (runs m2) <=? _); [done|]. rewrite <-H2. unfold evict. case_match; [done|]. by repeat case_match.
Qed.
Lemma runs_recordRun r m k i : (k, i) ∈ runs (recordRun env r m) → (k, i) ∈ runs m ∨ (length (heap m) <= i)%nat.
Proof.
  unfold recordRun. cbv zeta. set (m1 := m <| heap := _ |> <| runs := _ |> <| buffers := _ |> <| eventListeners := _ |>).
  pose proof (f_equal v_runs (view_record_status env (length (heap m)) m1)) as H1. cbn [view_of v_runs] in H1.
  set (m2 := record_status env _ m1) in *.
  assert (H2 : (k, i) ∈ runs m2 → (k, i) ∈ runs m ∨ (length (heap m) <= i)%nat).
  { rewrite H1. unfold m1. cbn. intros [[= -> ->]|?]%elem_mset; [by right|by left]. }
  clearbody m2. destruct (zlen (runs m2) <=? _); [done|]. unfold evict. case_match; [done|]. case_match. case_match; [done|].
  intros Hin. cbn in Hin. apply elem_mdelete in Hin. auto.
Qed.

Definition new_core (p : Scheduler.AiraSchedulerRunTask) : run_core :=
  (Scheduler.runId p, run_pending, if bool_decide (Scheduler.dependencies (Scheduler.run_task p) = []) then waiting_capacity else waiting_dependency).

Lemma recordRuns_view s l m : let m' := foldl (λ m sp, recordRun env (new_run env s sp.1 sp.2) m) m l in
  core <$> heap m' = (core <$> heap m) ++ ((λ sp, new_core sp.2) <$> l) ∧ rest m' = rest m
  ∧ ∀ k i, (k, i) ∈ runs m' → (k, i) ∈ runs m ∨ (length (heap m) <= i)%nat.
Proof.
  cbv zeta. revert m. induction l as [|[spec p] l IH]; intros m; [split_and!; [by rewrite app_nil_r|done|by left]|]. cbn [foldl fst snd].
  set (m1 := recordRun env _ m). destruct (IH m1) as (H1 & H2 & H3).
  assert (Hlen : length (heap m1) = S (length (heap m))).
  { rewrite <-!(length_fmap core). unfold m1. rewrite core_recordRun, length_app. cbn. rewrite length_fmap. lia. }
  split_and!.
  - rewrite H1. unfold m1. rewrite core_recordRun, <-app_assoc. done.
  - rewrite H2. apply rest_recordRun.
  - intros k i [Hk|Hk]%H3; [|right; lia]. by apply runs_recordRun in Hk.
Qed.
End Manager.

Lemma life_add v v' b :
  life v → v_core v' = v_core v ++ (new_core <$> b_prepared b) → v_batches v' = v_batches v ++ [b] → v_execs v' = v_execs v →
  v_active v' = v_active v ++ [length (v_batches v)] → batch_ok b → (∀ t, stage_of (b_sched b) t = waits_) →
  (∀ p, p ∈ b_prepared b → Scheduler.runId p ∉ v_ids v) → NoDup (v_runs v').*1 →
  (∀ k i, mget k (v_runs v') = Some i → v_ids v' !! i = Some k) →
  (∀ k i, (k, i) ∈ v_runs v' → (k, i) ∈ v_runs v ∨ (length (v_core v) <= i)%nat) → life v'.
Proof.
  intros Hl Hc Hb Hx Ha Hok Hw Hfresh Hk Hr Hnew.
  assert (Hids : v_ids v' = v_ids v ++ (Scheduler.runId <$> b_prepared b)).
  { unfold v_ids. by rewrite Hc, fmap_app, <-list_fmap_compose. }
  assert (Hown : ∀ n b' p, owns v' n b' p ↔ owns v n b' p ∨ (n = length (v_batches v) ∧ b' = b ∧ p ∈ b_prepared b)).
  { intros n b' p. unfold owns. rewrite Hb, lookup_snoc_Some. split; [intros [[[? ?]|[-> <-]] ?]; auto|].
    intros [[Hn ?]|(-> & -> & ?)]; [|by auto]. split; [left|done]. split; [by eapply lookup_lt_Some|done]. }
  assert (Hin : ∀ k, k ∈ v_ids v → k ∈ Scheduler.runId <$> b_prepared b → False).
  { intros k Hk1 (p & -> & Hp)%list_elem_of_fmap. by apply (Hfresh p Hp). }
  assert (Hnd : NoDup (v_ids v')).
  { rewrite Hids. apply NoDup_app. split; [apply (lf_ids v Hl)|]. split; [intros k Hk1 Hk2; by apply (Hin k)|apply (bo_runs b Hok)]. }
  constructor; try done.
  - intros n b'. rewrite Hb, lookup_snoc_Some. intros [[_ Hb']|[_ <-]]; [by eapply lf_batch|done].
  - intros n b' p. rewrite Hids, elem_of_app, Hown. intros [Ho|(-> & -> & Hp)]; [left; by eapply lf_known|right; by apply list_elem_of_fmap_2].
  - intros k. rewrite Hids, elem_of_app. intros [(n & b' & p & Ho & <-)%(lf_owner v Hl)|(p & -> & Hp)%list_elem_of_fmap].
    + exists n, b', p. split; [|done]. apply Hown. by left.
    + exists (length (v_batches v)), b, p. split; [|done]. apply Hown. by right.
  - intros n n' b1 b2 p p' [Ho|(-> & -> & Hp)]%Hown [Ho'|(-> & -> & Hp')]%Hown E; [by eapply lf_apart| | |].
    + exfalso. apply (Hfresh p' Hp'). rewrite <-E. by eapply lf_known.
    + exfalso. apply (Hfresh p Hp). rewrite E. by eapply lf_known.
    + split; [done|]. apply list_elem_of_lookup in Hp as [i Hi], Hp' as [j Hj]. assert (i = j) as ->; [|congruence].
      eapply NoDup_lookup; [apply (bo_runs b Hok)|..]; rewrite list_lookup_fmap; [by rewrite Hi|]. rewrite Hj. cbn. by rewrite E.
  - rewrite Hx. apply (lf_execs v Hl).
  - intros x. rewrite Hx. intros (b' & p & Ho & Ht & Hi & Hs & Hf)%(lf_exec v Hl). exists b', p. split_and!; try done.
    + apply Hown. by left.
    + rewrite Hids. by apply lookup_app_l_Some.
  - intros n b' p i c Ho Hi Hci. pose proof (Hr _ _ Hi) as Hidx. rewrite Hc in Hci. apply Hown in Ho as [Ho|(-> & -> & Hp)].
    + pose proof (lf_known v Hl _ _ _ Ho) as Hkn. apply list_elem_of_lookup in Hkn as [j Hj]. assert (i = j) as ->.
      { eapply NoDup_lookup; [exact Hnd|exact Hidx|]. rewrite Hids. by apply lookup_app_l_Some. }
      assert (Hlt : (j < length (v_core v))%nat) by (apply lookup_lt_Some in Hj; unfold v_ids in Hj; by rewrite length_fmap in Hj).
      rewrite lookup_app_l in Hci by done. apply mget_elem in Hi. destruct (Hnew _ _ Hi) as [Hi'|?]; [|lia].
      pose proof (lf_task v Hl n b' p j c Ho (elem_mget _ _ _ (lf_keys v Hl) Hi') Hci) as Hok'. unfold task_ok in *. by rewrite Hx.
    + rewrite Hids in Hidx.
      apply lookup_app_Some in Hci as [Hci|[Hge Hci]].
      * exfalso. apply (Hfresh p Hp). apply list_elem_of_lookup. exists i. rewrite lookup_app_l in Hidx; [done|].
          apply lookup_lt_Some in Hci. unfold v_ids. by rewrite length_fmap.
      * rewrite list_lookup_fmap in Hci. apply fmap_Some in Hci as (q & _ & ->). unfold task_ok. rewrite Hw. cbn. by case_bool_decide.
  - intros n b'. rewrite Hb, Ha, lookup_snoc_Some. intros [[_ Hb']|[-> <-]] Hcl.
    + destruct (lf_open v Hl n b' Hb' Hcl) as [?|?]; [left|by right]. apply elem_of_app. by left.
    + left. apply elem_of_app. right. left.
Qed.

(** ** Every call keeps the runs in step with their tasks *)

(** [randomUUID()]: the ids of the runs of a batch are new and distinct. *)
Definition fresh (env : Env) (c : call) (m : Manager) : Prop :=
  match c with
  | c_schedule specs _ => ∀ prepared,
      Scheduler.prepareAiraSchedule (run_uuid env) (imap (scheduled env) (accepted_specs env specs)) = Some (Ok prepared) →
      NoDup (Scheduler.runId <$> prepared) ∧ ∀ p, p ∈ prepared → Scheduler.runId p ∉ id <$> heap m
  | _ => True
  end.

(** The states in which every new run has had a new id. *)
Inductive lives (o : Options) : Manager → Prop :=
| lives_start env : 0 <= now env <= MAX_DATE → lives o (createAiraOrchestrationManager env)
| lives_step env c m : lives o m → 0 <= now env <= MAX_DATE → fresh env c m → lives o (run o env c m).
Lemma lives_reachable o m : lives o m → reachable o m.
Proof. induction 1; [by apply reachable_start|by apply reachable_step]. Qed.

Lemma v_ids_view m : v_ids (view_of m) = id <$> heap m.
Proof. unfold v_ids. cbn. by rewrite <-list_fmap_compose. Qed.

Section Call.
Context (o : Options) (env : Env).

Lemma start_waits tasks t : stage_of (Scheduler.start_state tasks false) t = waits_.
Proof.
  unfold stage_of, Scheduler.start_state. cbn. destruct (list_to_map _ !! t) as [c|] eqn:E; [|done].
  apply elem_of_list_to_map_2, list_elem_of_fmap in E as (u & [= _ ->] & _). done.
Qed.

Lemma life_launch n w specs gated prepared sched m :
  life (view_of m) → stored MAX_MANAGER_RUN_HISTORY m → 0 <= now env <= MAX_DATE →
  Scheduler.prepareAiraSchedule (run_uuid env) (imap (scheduled env) (accepted_specs env specs)) = Some (Ok prepared) →
  Scheduler.runAiraScheduler prepared false = Some sched →
  NoDup (Scheduler.runId <$> prepared) → (∀ p, p ∈ prepared → Scheduler.runId p ∉ id <$> heap m) →
  life (view_of (launch_batch env n w gated (accepted_specs env specs) prepared sched m)).
Proof.
  intros Hl Hst Hnow Hp Hs Hnd Hfresh. set (tasks := imap (scheduled env) (accepted_specs env specs)) in *.
  destruct (SchedulerProps.prepare_spec tasks (run_uuid env)) as (res & Hres & Hvalid). rewrite Hp in Hres. injection Hres as <-.
  destruct Hvalid as [Hvalid Hprep]. assert (Ht : Scheduler.run_task <$> prepared = tasks).
  { rewrite Hprep, <-list_fmap_compose. apply list_fmap_id. }
  rewrite <-Ht in Hvalid. destruct (SchedulerProps.valid_starts prepared false sched Hvalid Hs) as [-> Hids].
  assert (Hlen : length (accepted_specs env specs) = length prepared).
  { rewrite Hprep, length_fmap. unfold tasks. by rewrite length_imap. }
  unfold launch_batch. cbv zeta. set (m0 := m <| activeBatches := _ |> <| epochStartedAt := _ |>).
  set (m1 := foldl _ m0 _). destruct (recordRuns_view env (settings env) (zip (accepted_specs env specs) prepared) m0) as (V1 & V2 & V3).
  fold m1 in V1, V2, V3. assert (S1 : stored MAX_MANAGER_RUN_HISTORY m1).
  { apply (recordRuns_stored o env Hnow). revert Hst. by apply (stored_tame o env). }
  clearbody m1. cbn [Scheduler.start_state Scheduler.events foldl].
  set (b := Build_batch _ _ _ _ _ _ _ _ _). set (m2 := publish env m1 <| batches := _ |>).
  assert (H : life (view_of m2)); [|clearbody m2; by destruct w].
  injection V2 as E1 E2 E3 E4.
  apply (life_add (view_of m) (view_of m2) b); try done.
  - change (core <$> heap m1 = (core <$> heap m) ++ (new_core <$> prepared)). rewrite V1. f_equal.
    change (λ sp : AiraChildTaskSpec * Scheduler.AiraSchedulerRunTask, new_core sp.2) with (new_core ∘ snd (A := AiraChildTaskSpec) (B := Scheduler.AiraSchedulerRunTask)).
    by rewrite list_fmap_compose, snd_zip by lia.
  - change (batches m1 ++ [b] = batches m ++ [b]). by rewrite E1.
  - change (exec_of <$> jobs m1 = exec_of <$> jobs m). by rewrite E2.
  - constructor; try done; [by apply SchedulerProps.start_full|by intros t ?%not_elem_of_nil].
  - intros t. apply start_waits.
  - intros p Hin. rewrite v_ids_view. by apply Hfresh.
  - apply (st_keys _ _ S1).
  - intros k i Hk. rewrite v_ids_view. apply (st_runs _ _ S1). by apply mget_elem.
  - intros k i Hin. destruct (V3 k i Hin) as [?|Hge]; [by left|right]. cbn. by rewrite length_fmap.
Qed.

Lemma life_settles x v l v' : life v → v_execs v ≡ₚ x :: l → settles x (v <| v_execs := l |>) v' → life v'.
Proof.
  intros Hl Hp [->|(s & out & Hs & ->)]; [|by apply life_settle].
  change (life (v <| v_execs := l ++ [x] |>)). apply life_execs_perm; [done|]. rewrite Hp. by rewrite Permutation_app_comm.
Qed.

Lemma life_settled_call n s m : life (view_of m) → life (view_of (run o env (c_settle n s) m)).
Proof.
  intros Hl. cbn [run]. destruct (jobs m !! n) as [j|] eqn:Hj; [|done]. set (m1 := m <| jobs := delete n (jobs m) |>).
  assert (Hp : v_execs (view_of m) ≡ₚ exec_of j :: v_execs (view_of m1)).
  { cbn. rewrite <-fmap_cons. apply fmap_Permutation. by apply delete_Permutation. }
  assert (Hx : exec_ok (view_of m) (exec_of j)) by (apply (lf_exec _ Hl); rewrite Hp; left).
  destruct Hx as (b & p & [Hb Hpb] & Ht & Hi & _). cbn in Hb.
  assert (Hr : is_Some (heap m1 !! x_run (exec_of j))).
  { rewrite v_ids_view, list_lookup_fmap in Hi. change (heap m1) with (heap m). by destruct (heap m !! _). }
  assert (Hspec : is_Some (batches m1 !! x_batch (exec_of j) ≫= λ b, (λ s, (b, s)) <$> spec_of (x_task (exec_of j)) b)).
  { change (batches m1) with (batches m). rewrite Hb. cbn. rewrite <-Ht. apply fmap_is_Some. apply runId_of_task; [by eapply (lf_batch _ Hl)|done]. }
  change (view_of m1) with (view_of m <| v_execs := v_execs (view_of m1) |>) in *.
  destruct j as [x|x], s as [res|out|e]; cbn [resume default from_option Datatypes.id exec_of] in *; try done;
    (eapply (life_settles x (view_of m)); [done|exact Hp|]);
    [by apply (after_resolve_settles o env x res m1)|apply (after_throw_settles env x e m1)
    |by apply (after_runner_settles env x out m1)|apply (after_throw_settles env x e m1)].
Qed.

Lemma life_sched_step n l m : life (view_of m) → life (view_of (sched_step env n l m)).
Proof.
  intros Hl. unfold sched_step. destruct (batches m !! n) as [b|] eqn:Hb; [|done]. cbv zeta.
  destruct (negb _) eqn:Hallow; [done|]. destruct (Scheduler.step _ _ l _) as [s'|] eqn:Hs; [|done].
  pose proof (lf_batch _ Hl n b Hb) as Hok.
  destruct (step_moved (b_prepared b) (maxParallel (b_settings b)) l (b_sched b) s' (bo_ids b Hok) (bo_sched b Hok) Hs) as (Hab & es & Hev & Hm).
  rewrite Hev, drop_app_length. set (m1 := with_batch n _ m). assert (H1 : view_of m1 = v_sched n s' (view_of m)) by done.
  assert (Hb1 : batches m1 !! n = Some (b <| b_sched := s' |>)) by (unfold m1, with_batch; cbn; by rewrite list_lookup_alter, decide_True, Hb).
  assert (Hab' : Scheduler.aborted (b_sched b) = true → Scheduler.aborted s' = true) by (rewrite Hab; by destruct l).
  assert (Hfin : ∀ t out, l = Scheduler.l_finish t out → t ∈ finished_tasks b ∧ ∀ msg, out ≠ Scheduler.o_throws msg).
  { intros t out ->. apply negb_false_iff, existsb_exists in Hallow as ([t' out'] & Hin & Hq). cbn in Hq. apply andb_true_iff in Hq as [Hq1 Hq2].
    apply bool_decide_eq_true in Hq1 as ->. split; [apply list_elem_of_fmap; exists (t, out'); by apply list_elem_of_In in Hin|].
    intros msg ->. by destruct out'. }
  pose proof (λ k, life_step (view_of m) n b l s' k Hl Hb Hs Hab' es Hm Hfin) as Hlife.
  assert (Hfol : ∃ k, view_of (foldl (on_event env n) m1 es) = follow n b k es (v_sched n s' (view_of m))).
  { destruct (moved_inv _ _ _ _ Hm) as [(t & -> & Hst)|[(t & r & -> & Hst)|[(t & out & -> & _ & ->)|[-> _]]]].
    - destruct (staged_task (resched s' [] b) t) as (p & Hp & <-).
      { eapply batch_ok_step; [exact Hok|exact Hs|exact Hm|by intros ? ?%not_elem_of_nil]. }
      { change (stage_of s' t ≠ waits_). by destruct Hst as (_ & -> & _). }
      destruct (runId_of_task b p Hok Hp) as [Hr _]. exists (length (controllers m1)). cbn [foldl].
      rewrite (on_started env n (task_id p) m1 (b <| b_sched := s' |>) (Scheduler.runId p) Hb1 Hr), H1. cbn [follow]. rewrite Hr. done.
    - destruct (staged_task (resched s' [] b) t) as (p & Hp & <-).
      { eapply batch_ok_step; [exact Hok|exact Hs|exact Hm|by intros ? ?%not_elem_of_nil]. }
      { change (stage_of s' t ≠ waits_). by destruct Hst as (_ & -> & _). }
      destruct (runId_of_task b p Hok Hp) as [Hr _]. exists 0%nat. cbn [foldl].
      rewrite (on_skipped env n (task_id p) r m1 (b <| b_sched := s' |>) (Scheduler.runId p) Hb1 Hr), H1. cbn [follow]. rewrite Hr. done.
    - exists 0%nat. destruct (Hfin t out eq_refl) as [_ Hth]. destruct out as [| |msg]; [exact H1|exact H1|by destruct (Hth msg)].
    - exists 0%nat. exact H1. }
  destruct Hfol as [k ->]. apply Hlife.
Qed.

Lemma life_abort_batch n m : life (view_of m) → life (view_of (abort_batch m n)).
Proof.
  intros Hl. destruct (batches m !! n) as [b|] eqn:Hb.
  - assert (E : view_of (abort_batch m n) = v_sched n (Scheduler.set_aborted (b_sched b)) (view_of m)).
    { unfold abort_batch, with_batch, v_sched, view_of, update_with. cbn. f_equal. apply list_alter_ext; [|done]. intros x Hx. by simplify_eq. }
    rewrite E. eapply (life_none (view_of m) n b Scheduler.l_abort); try done. by apply mv_none.
  - assert (E : view_of (abort_batch m n) = view_of m); [|by rewrite E].
    unfold abort_batch, with_batch, view_of, update_with. cbn. f_equal. apply list_eq. intros j. rewrite list_lookup_alter. case_decide; [subst|done]. by rewrite Hb.
Qed.
Lemma view_abort_controllers l m : view_of (foldl abort_controller m l) = view_of m.
Proof. revert m. induction l as [|k l IH]; intros m; [done|]. exact (IH (abort_controller m k)). Qed.
Lemma life_abort_all m : life (view_of m) → life (view_of (abort_all m)).
Proof.
  intros Hl. unfold abort_all. set (m1 := foldl abort_controller m _). assert (H1 : life (view_of m1)) by (unfold m1; by rewrite view_abort_controllers).
  clearbody m1. revert m1 H1. generalize (activeBatches m) as l. induction l as [|n l IH]; intros m1 H1; [done|]. by apply IH, life_abort_batch.
Qed.

(** Every active batch is aborted. *)
Lemma abort_batches_aborted l m n b : batches (foldl abort_batch m l) !! n = Some b →
  (n ∈ l ∨ ∀ b0, batches m !! n = Some b0 → Scheduler.aborted (b_sched b0) = true) → Scheduler.aborted (b_sched b) = true.
Proof.
  revert m. induction l as [|k l IH]; intros m Hb H; cbn [foldl] in Hb.
  { destruct H as [?%not_elem_of_nil|H]; [done|by apply H]. }
  apply (IH (abort_batch m k) Hb). destruct (decide (n = k)) as [->|Hn].
  - right. intros b0. cbn. rewrite list_lookup_alter, decide_True by done. intros (b1 & _ & ->)%fmap_Some. done.
  - destruct H as [[?|?]%elem_of_cons|H]; [done|by left|right]. intros b0. cbn. rewrite list_lookup_alter, decide_False by done. apply H.
Qed.
Lemma abort_all_active m : activeBatches (abort_all m) = activeBatches m.
Proof.
  assert (E : ∀ l m, activeBatches (foldl abort_controller m l) = activeBatches m) by (intros l; induction l as [|k l IH]; intros m'; [done|exact (IH (abort_controller m' k))]).
  assert (E2 : ∀ l m, activeBatches (foldl abort_batch m l) = activeBatches m) by (intros l; induction l as [|k l IH]; intros m'; [done|exact (IH (abort_batch m' k))]).
  unfold abort_all. by rewrite E2, E.
Qed.
Lemma abort_all_aborts m n b : life (view_of m) → batches (abort_all m) !! n = Some b → b_closed b = false → Scheduler.aborted (b_sched b) = true.
Proof.
  intros Hl Hb Hcl. destruct (lf_open _ (life_abort_all m Hl) n b Hb Hcl) as [Hin|?]; [|done]. change (n ∈ activeBatches (abort_all m)) in Hin.
  rewrite abort_all_active in Hin. unfold abort_all in Hb. apply (abort_batches_aborted _ _ _ _ Hb). by left.
Qed.

Lemma life_run c m : life (view_of m) → stored MAX_MANAGER_RUN_HISTORY m → 0 <= now env <= MAX_DATE → fresh env c m → life (view_of (run o env c m)).
Proof.
  intros Hl Hst Hnow Hf. destruct c as [specs w|runId| |i|i|runId i| |n l|n|n s|n e]; try done.
  - cbn [run]. destruct (schedule_cases o env specs w m) as [(r & ->)|[->|(gated & prepared & sched & _ & Hp & Hs & ->)]]; [done..|].
    destruct (Hf prepared Hp) as [Hnd Hfr]. apply life_launch; try done. revert Hst. by apply (stored_tame o env).
  - cbn [run]. unfold cancel. destruct runId as [[|u i]|]; try (by apply life_abort_all). by case_match.
  - cbn [run]. unfold subscribeEvents. by case_match.
  - cbn [run]. unfold dispose. destruct (disposed m) eqn:Ed; [done|]. set (m0 := m <| disposed := true |>).
    assert (H0 : life (view_of m0)) by (by destruct Hl; constructor). pose proof (life_abort_all m0 H0) as H1.
    pose proof (λ n b, abort_all_aborts m0 n b H0) as Ha. set (m1 := abort_all m0) in *. clearbody m1. rewrite view_publish.
    destruct H1. constructor; try done. intros n b Hb Hcl. right. by apply (Ha n b).
  - cbn [run]. by apply life_sched_step.
  - cbn [run]. unfold close_batch. destruct (batches m !! n) as [b|] eqn:Hb; [|done]. destruct (_ || _) eqn:Hc; [done|].
    apply orb_false_iff in Hc as [Hcl Hdone]. apply negb_false_iff in Hdone. cbv zeta.
    set (m1 := epochEnd env _). assert (H1 : life (view_of m1)); [|clearbody m1; by destruct (b_caller b)].
    set (f := λ b : batch, b <| b_closed := true |>).
    assert (E : view_of m1 = view_of m <| v_batches := alter f n (batches m) |> <| v_active := filter (λ k, k ≠ n) (activeBatches m) |>).
    { unfold m1, epochEnd. by destruct (existsb is_active _). }
    rewrite E. set (v' := _ <| v_active := _ |>). clear m1 E. apply (life_change (view_of m) v' n f); try done.
    + intros b0 Hb0 [B1 B2 B3 B4 B5 B6]. constructor; try done. intros _. change (batches m !! n = Some b0) in Hb0. by simplify_eq.
    + apply (lf_execs _ Hl).
    + intros x (b' & p & [Hb' Hp'] & Ht & Hi & Hst' & Hnf)%(lf_exec _ Hl). exists (if decide (x_batch x = n) then f b' else b'), p. split_and!; try done.
      * apply (owns_alter (view_of m) v' n f); [done|done|]. by exists b'.
      * by case_decide.
      * by case_decide.
    + intros n' b' p i c Ho Hi Hci. pose proof (lf_task _ Hl n' b' p i c Ho Hi Hci) as Hok. unfold task_ok in *. by case_decide.
    + intros n' b'. cbn. rewrite list_lookup_alter. case_decide as En.
      * intros (b1 & _ & ->)%fmap_Some. done.
      * intros Hb' Hcl'. destruct (lf_open _ Hl n' b' Hb' Hcl') as [Hin|?]; [left|by right]. apply list_elem_of_filter. by split.
  - by apply life_settled_call.
  - cbn [run]. destruct (jobs m !! n) as [[]|]; try done. destruct (heap m !! _); [|done]. by rewrite view_event.
Qed.
End Call.

Lemma lives_life o m : lives o m → life (view_of m).
Proof.
  induction 1 as [env Hn|env c m Hm IH Hn Hf].
  - change (life (view_of (construct env))). constructor; try apply NoDup_nil_2; try done; try (by intros ? ?%not_elem_of_nil).
    all: try (by intros ??? [? _]); try (by intros ??????[? _]); by intros ????? [? _].
  - apply life_run; [done| |done|done]. eapply reachable_stored, lives_reachable, Hm.
Qed.

(** ** The theorems *)

Lemma live_run m r : stored MAX_MANAGER_RUN_HISTORY m → r ∈ live m →
  ∃ i, heap m !! i = Some r ∧ mget (id r) (runs m) = Some i.
Proof.
  intros Hst Hr. unfold live in Hr. apply list_elem_of_omap in Hr as ([k i] & Hin & Hi). cbn in Hi. exists i. split; [done|].
  pose proof (st_runs _ _ Hst k i Hin) as Hk. rewrite list_lookup_fmap, Hi in Hk. injection Hk as ->. by apply elem_mget; [apply Hst|].
Qed.

Lemma live_task o m r : lives o m → r ∈ live m →
  ∃ n b p i, owns (view_of m) n b p ∧ Scheduler.runId p = id r ∧ mget (id r) (runs m) = Some i ∧ heap m !! i = Some r
             ∧ task_ok (view_of m) n b (task_id p) (core r).
Proof.
  intros Hm Hr. pose proof (lives_life o m Hm) as Hl. pose proof (reachable_stored o m (lives_reachable o m Hm)) as Hst.
  destruct (live_run m r Hst Hr) as (i & Hi & Hk). assert (Hin : id r ∈ v_ids (view_of m)).
  { rewrite v_ids_view. apply list_elem_of_fmap_2. by eapply list_elem_of_lookup_2. }
  destruct (lf_owner _ Hl _ Hin) as (n & b & p & Ho & Hp). exists n, b, p, i. split_and!; try done.
  apply (lf_task _ Hl n b p i (core r) Ho); [by rewrite Hp|]. cbn. by rewrite list_lookup_fmap, Hi.
Qed.

Lemma task_in b p : p ∈ b_prepared b → task_id p ∈ Scheduler.ids (b_prepared b).
Proof. exact (list_elem_of_fmap_2 (λ q, task_id q) (b_prepared b) p). Qed.

Lemma done_runs_settled o m n b p r : lives o m → batches m !! n = Some b → batch_done b = true → p ∈ b_prepared b →
  get (Scheduler.runId p) m = Some r → phase r = phase_settled ∧ over (status r).
Proof.
  intros Hm Hb Hd Hp Hr. pose proof (lives_life o m Hm) as Hl. unfold get in Hr. destruct (mget _ (runs m)) as [i|] eqn:Hi; [|done]. cbn in Hr.
  pose proof (lf_task _ Hl n b p i (core r) ltac:(done) Hi) as Hok. cbn [view_of v_core] in Hok. rewrite list_lookup_fmap, Hr in Hok.
  specialize (Hok eq_refl). unfold task_ok in Hok. rewrite (proj1 (batch_done_stages b) Hd) in Hok; [exact Hok|]. by apply task_in.
Qed.

(** A batch that has ended reports settled runs only: when all its tasks are done, every run of the
    batch that the history still holds is settled, and no result that the caller gets says
    pending or running. *)
Theorem batch_results_are_settled o m n b : lives o m → batches m !! n = Some b → batch_done b = true →
  (∀ p r, p ∈ b_prepared b → get (Scheduler.runId p) m = Some r → phase r = phase_settled ∧ over (status r))
  ∧ ∀ env t, t ∈ taskOutcomes env true b m → bt_result t ≠ Some (inr run_pending) ∧ bt_result t ≠ Some (inr run_running).
Proof.
  intros Hm Hb Hd. pose proof (λ p r, done_runs_settled o m n b p r Hm Hb Hd) as Hs. split; [exact Hs|].
  intros env t Ht. unfold taskOutcomes in Ht. apply elem_of_app in Ht as [(q & -> & _)%list_elem_of_fmap|(p & -> & Hp)%list_elem_of_fmap]; [done|].
  destruct (get (Scheduler.runId p) m) as [r|] eqn:Hr; [|done]. destruct (Hs p r Hp Hr) as [_ [H1 H2]]. cbn. destruct (result r); split; congruence.
Qed.

(** No run is left hanging: every run of the history that is running has an outstanding call of
    the model or of the child behind it, and every pending one belongs to a task that still waits
    in a batch that is not closed. *)
Theorem no_run_is_left_hanging o m r : lives o m → r ∈ live m →
  (status r = run_running → ∃ j, j ∈ jobs m ∧ heap m !! x_run (exec_of j) = Some r)
  ∧ (status r = run_pending → ∃ n b p, batches m !! n = Some b ∧ p ∈ b_prepared b ∧ Scheduler.runId p = id r
       ∧ b_closed b = false ∧ stage_of (b_sched b) (task_id p) = waits_).
Proof.
  intros Hm Hr. destruct (live_task o m r Hm Hr) as (n & b & p & i & Ho & Hp & Hi & Hh & Hok). pose proof (lives_life o m Hm) as Hl.
  unfold task_ok in Hok. cbn [core fst snd] in Hok. destruct (stage_of (b_sched b) (task_id p)) eqn:Est.
  - destruct Hok as [Hs Hph]. split; [congruence|]. intros _. destruct Ho as [Hb Hpb]. exists n, b, p. split_and!; try done.
    destruct (b_closed b) eqn:Ec; [|done]. pose proof (bo_closed b (lf_batch _ Hl n b Hb) Ec) as Hd.
    rewrite (proj1 (batch_done_stages b) Hd) in Est; [done|]. by apply task_in.
  - destruct Hok as [[_ [_ [H1 H2]]]|(_ & Hs & x & Hx & Hxn & Hxt)]; [split; intros E; [by destruct H2|by destruct H1]|]. split; [|congruence]. intros _.
    apply list_elem_of_fmap in Hx as (j & -> & Hj). exists j. split; [done|].
    assert (E : i = x_run (exec_of j)); [|by rewrite <-E]. apply (run_of_exec (view_of m) n b p (exec_of j) i Hl Ho).
    + apply (lf_exec _ Hl). by apply list_elem_of_fmap_2.
    + by rewrite Hp.
    + by split.
  - destruct Hok as [_ [H1 H2]]. split; intros E; [by destruct H2|by destruct H1].
Qed.

(** Cancelling everything reaches every child: afterwards the signal of every outstanding call is
    aborted, and so is the signal of every batch that is not closed, so that no waiting task of it
    starts any more. *)
Theorem cancel_reaches_every_child o env m : lives o m →
  let m' := run o env (c_cancel None) m in
  jobs m' = jobs m ∧ (∀ j, j ∈ jobs m' → aborted (exec_of j) m' = true)
  ∧ ∀ n b, batches m' !! n = Some b → b_closed b = false → Scheduler.aborted (b_sched b) = true.
Proof.
  intros Hm. cbv zeta. cbn [run cancel]. pose proof (lives_life o m Hm) as Hl. pose proof (life_abort_all m Hl) as Hl'.
  pose proof (λ n b, abort_all_aborts m n b Hl) as Ha. split_and!; [|intros j Hj|exact Ha].
  - assert (E2 : ∀ l m, jobs (foldl abort_batch m l) = jobs m) by (intros l; induction l as [|k l IH]; intros m'; [done|exact (IH (abort_batch m' k))]).
    assert (E : ∀ l m, jobs (foldl abort_controller m l) = jobs m) by (intros l; induction l as [|k l IH]; intros m'; [done|exact (IH (abort_controller m' k))]).
    unfold abort_all. by rewrite E2, E.
  - set (m' := abort_all m) in *. clearbody m'. destruct (lf_exec _ Hl' (exec_of j)) as (b & p & [Hb Hp] & Ht & _ & Hst & _); [by apply list_elem_of_fmap_2|].
    cbn in Hb. unfold aborted. rewrite Hb. rewrite (Ha _ b Hb); [done|]. destruct (b_closed b) eqn:Ec; [|done].
    pose proof (bo_closed b (lf_batch _ Hl' _ b Hb) Ec) as Hd. rewrite <-Ht, (proj1 (batch_done_stages b) Hd) in Hst; [done|]. by apply task_in.
Qed.

(** ** Witnesses *)

Import OrchSample.

(** Every call is on time and its new ids are new. *)
Definition fresh_b (env : Env) (c : call) (m : Manager) : bool :=
  match c with
  | c_schedule specs _ =>
      match Scheduler.prepareAiraSchedule (run_uuid env) (imap (scheduled env) (accepted_specs env specs)) with
      | Some (Ok prepared) => bool_decide (NoDup (Scheduler.runId <$> prepared))
                              && forallb (λ p, negb (bool_decide (Scheduler.runId p ∈ id <$> heap m))) prepared
      | _ => true
      end
  | _ => true
  end.
Fixpoint lives_b (o : Options) (m : Manager) (l : list (Env * call)) : bool :=
  match l with
  | [] => true
  | c :: l => clock_ok c && fresh_b c.1 c.2 m && lives_b o (run o c.1 c.2 m) l
  end.
Lemma fresh_b_ok env c m : fresh_b env c m = true → fresh env c m.
Proof.
  destruct c; try done. cbn [fresh_b fresh]. intros H prepared Hp. rewrite Hp in H. apply andb_true_iff in H as [H1%bool_decide_eq_true H2].
  split; [done|]. intros p Hin Hk. rewrite forallb_forall in H2. specialize (H2 p (proj1 (list_elem_of_In _ _) Hin)).
  rewrite bool_decide_eq_true_2 in H2 by done. done.
Qed.
Lemma steps_lives o m l : lives o m → lives_b o m l = true → lives o (steps o m l).
Proof.
  revert m. induction l as [|[env c] l IH]; intros m Hm Hl; [done|]. cbn [lives_b fst snd] in Hl. apply andb_true_iff in Hl as [Hc Hl].
  apply andb_true_iff in Hc as [Hc Hf]. apply (IH (run o env c m)); [|done]. unfold clock_ok in Hc. cbn [fst] in Hc. bool_prop.
  apply lives_step; [done|lia|by apply fresh_b_ok].
Qed.
Lemma run0_lives l : lives_b options0 (createAiraOrchestrationManager (env0 0)) (numbered l) = true → lives options0 (run0 l).
Proof. apply steps_lives, lives_start. cbn. unfold MAX_DATE. lia. Qed.

Definition ended (m : Manager) : bool := match batches m with b :: _ => batch_done b | [] => false end.
Lemma ended_inv m : ended m = true → ∃ b, batches m !! 0%nat = Some b ∧ batch_done b = true.
Proof. unfold ended. destruct (batches m) as [|b l]; [done|]. by exists b. Qed.
Definition first_runs (m : Manager) : bool := match live m with r :: _ => bool_decide (status r = run_running) | [] => false end.
Lemma first_runs_inv m : first_runs m = true → ∃ r, r ∈ live m ∧ status r = run_running.
Proof. unfold first_runs. destruct (live m) as [|r l]; [done|]. intros H%bool_decide_eq_true. exists r. split; [left|done]. Qed.

Definition executing0 : list call :=
  one_task ++ (c_sched 0 <$> [Scheduler.l_start (js "a"); Scheduler.l_deps (js "a"); Scheduler.l_slot (js "a")]).

Lemma history_is_bounded_witness : zlen (runs (run0 nine_batches)) <= MAX_MANAGER_RUN_HISTORY.
Proof. exact (proj1 (history_is_bounded options0 _ (run0_reachable nine_batches ltac:(vm_compute; reflexivity)))). Defined.
Lemma snapshot_counts_the_runs_witness : synced (run0 executing0).
Proof. exact (snapshot_counts_the_runs options0 _ (run0_reachable executing0 ltac:(vm_compute; reflexivity))). Defined.
Lemma batch_results_are_settled_witness : ∃ b, batches (run0 to_the_end) !! 0%nat = Some b
  ∧ ∀ p r, p ∈ b_prepared b → get (Scheduler.runId p) (run0 to_the_end) = Some r → phase r = phase_settled ∧ over (status r).
Proof.
  destruct (ended_inv (run0 to_the_end) ltac:(vm_compute; reflexivity)) as (b & Hb & Hd). exists b. split; [exact Hb|].
  exact (proj1 (batch_results_are_settled options0 _ 0%nat b (run0_lives to_the_end ltac:(vm_compute; reflexivity)) Hb Hd)).
Defined.
Lemma no_run_is_left_hanging_witness : ∃ r j, r ∈ live (run0 executing0) ∧ j ∈ jobs (run0 executing0).
Proof.
  destruct (first_runs_inv (run0 executing0) ltac:(vm_compute; reflexivity)) as (r & Hr & Hs). exists r.
  destruct (proj1 (no_run_is_left_hanging options0 _ r (run0_lives executing0 ltac:(vm_compute; reflexivity)) Hr) Hs) as (j & Hj & _).
  exists j. split; [exact Hr|exact Hj].
Defined.
Lemma cancel_reaches_every_child_witness : jobs (run options0 (env0 9) (c_cancel None) (run0 executing0)) = jobs (run0 executing0).
Proof. exact (proj1 (cancel_reaches_every_child options0 (env0 9) _ (run0_lives executing0 ltac:(vm_compute; reflexivity)))). Defined.
End OrchLives.
