(* ===== verification/JsonTexts.v ===== *)
(** * Torn JSON

    [JSON.parse] on the prefixes of what [JSON.stringify] wrote: what was read stays read when
    more text follows, so that a proper prefix of an object is never a JSON text; and a
    written value holds no line break. *)
From stdpp Require Import pretty.
From S2P Require Import Prelude JsMap JsString Json.

Module JsonPrefix.
Import Json.

(** ** More text *)

Lemma skip_ws_app s t : skip_ws (s ++ t) = match skip_ws s with [] => skip_ws t | k => k ++ t end.
Proof. induction s as [|u s IH]; [done|]. cbn. destruct (is_json_ws u); [exact IH|done]. Qed.

Lemma skip_ws_more s u s1 t : skip_ws s = u :: s1 → skip_ws (s ++ t) = u :: s1 ++ t.
Proof. intros H. by rewrite skip_ws_app, H. Qed.

Lemma cons_fst_Some u r k s : cons_fst u r = Some (k, s) ↔ ∃ k', k = u :: k' ∧ r = Some (k', s).
Proof. unfold cons_fst. destruct r as [[k' s']|]; cbn; naive_solver. Qed.

Lemma parse_string_more t n : ∀ s k r, (length s <= n)%nat → parse_string s = Some (k, r) → parse_string (s ++ t) = Some (k, r ++ t).
Proof.
  assert (Hc : ∀ u r r', (∀ k s, r = Some (k, s) → r' = Some (k, s ++ t)) → ∀ k s, cons_fst u r = Some (k, s) → cons_fst u r' = Some (k, s ++ t)).
  { intros u r r' H k s (k' & -> & Hr)%cons_fst_Some. apply cons_fst_Some. eauto. }
  induction n as [|n IH]; intros s k r Hn H; (destruct s as [|u s]; [done|]); cbn [length] in Hn; [lia|].
  cbn [app parse_string] in *. destruct (u =? 34); [by injection H as <- <-|]. destruct (u =? 92).
  - destruct s as [|c s]; [done|]. cbn [app length] in *. destruct (if c =? 47 then _ else _).
    + revert H. apply Hc. intros k0 s0. apply IH. lia.
    + destruct (c =? 117); [|done]. destruct s as [|a [|b [|c' [|d s]]]]; try done. cbn [app length] in *.
      destruct (hex_value a), (hex_value b), (hex_value c'), (hex_value d); try done. revert H. apply Hc. intros k0 s0. apply IH. lia.
  - destruct (u <? 32); [done|]. revert H. apply Hc. intros k0 s0. apply IH. lia.
Qed.

Lemma starts_with_app p s t : startsWith p s = true → startsWith p (s ++ t) = true ∧ (length p <= length s)%nat.
Proof.
  revert s. induction p as [|x p IH]; intros s H; cbn; [split; [done|lia]|]. destruct s as [|y s]; [done|]. cbn in *.
  apply andb_true_iff in H as [H1 H2]. destruct (IH s H2) as [E L]. rewrite H1, E. split; [done|lia].
Qed.

Lemma keyword_more w v s v' r t : keyword w v s = Some (v', r) → keyword w v (s ++ t) = Some (v', r ++ t).
Proof.
  unfold keyword. destruct (startsWith (js w) s) eqn:E; [|done]. intros [= <- <-]. apply (starts_with_app _ _ t) in E as [-> L].
  by rewrite drop_app_le.
Qed.
Lemma keyword_head w v u c s : js w = c :: drop 1 (js w) → (c =? u) = false → keyword w v (u :: s) = None.
Proof. unfold keyword. intros -> E. cbn. by rewrite E. Qed.
Lemma keyword_first w v u c s x : js w = c :: drop 1 (js w) → keyword w v (u :: s) = Some x → u = c.
Proof. unfold keyword. intros ->. cbn. destruct (c =? u) eqn:E; [lia|done]. Qed.

Lemma span_more f s k r t : span f s = (k, r) → r ≠ [] → span f (s ++ t) = (k, r ++ t).
Proof.
  revert k r. induction s as [|u s IH]; intros k r H Hr; cbn in *; [by injection H as <- <-|]. destruct (f u).
  - destruct (span f s) as [k' r'] eqn:E. injection H as <- <-. by rewrite (IH k' r').
  - by injection H as <- <-.
Qed.

Definition is_number (v : json) : bool := match v with j_number _ => true | _ => false end.
(** A reader that is not disturbed by what follows, unless a number ends with the text. *)
Definition steady (pv : jsstr → option (json * jsstr)) (t : jsstr) : Prop :=
  ∀ s v r, pv s = Some (v, r) → r ≠ [] ∨ is_number v = false → pv (s ++ t) = Some (v, r ++ t).

Section Steady.
Context (pv : jsstr → option (json * jsstr)) (t : jsstr) (Hpv : steady pv t).

Lemma items_more n : ∀ s l r, items pv n s = Some (l, r) → items pv n (s ++ t) = Some (l, r ++ t).
Proof.
  induction n as [|n IH]; intros s l r H; [done|]. cbn [items] in *. destruct (pv s) as [[v s1]|] eqn:E; [|done].
  destruct (skip_ws s1) as [|u s2] eqn:Es; [done|]. rewrite (Hpv s v s1 E) by (left; by intros ->). rewrite (skip_ws_more _ _ _ _ Es).
  destruct (u =? 93); [by injection H as <- <-|]. destruct (u =? 44); [|done].
  destruct (items pv n s2) as [[l' r']|] eqn:Ei; [|done]. injection H as <- <-. by rewrite (IH _ _ _ Ei).
Qed.

Lemma member_more s k v r : member pv s = Some (k, v, r) → r ≠ [] ∨ is_number v = false → member pv (s ++ t) = Some (k, v, r ++ t).
Proof.
  unfold member. intros H Hr. destruct (skip_ws s) as [|q s1] eqn:E1; [done|]. rewrite (skip_ws_more _ _ _ _ E1). destruct (q =? 34); [|done].
  destruct (parse_string s1) as [[k' s2]|] eqn:E2; [|done]. rewrite (parse_string_more t _ _ _ _ (le_n _) E2).
  destruct (skip_ws s2) as [|c s3] eqn:E3; [done|]. rewrite (skip_ws_more _ _ _ _ E3). destruct (c =? 58); [|done].
  destruct (pv s3) as [[v' r']|] eqn:E4; [|done]. injection H as -> -> ->. by rewrite (Hpv s3 v r E4 Hr).
Qed.

Lemma members_more n : ∀ s l r, members_to pv n s = Some (l, r) → members_to pv n (s ++ t) = Some (l, r ++ t).
Proof.
  induction n as [|n IH]; intros s l r H; [done|]. cbn [members_to] in *. destruct (member pv s) as [[[k v] s1]|] eqn:E; [|done].
  destruct (skip_ws s1) as [|u s2] eqn:Es; [done|]. rewrite (member_more s k v s1 E) by (left; by intros ->). rewrite (skip_ws_more _ _ _ _ Es).
  destruct (u =? 125); [by injection H as <- <-|]. destruct (u =? 44); [|done].
  destruct (members_to pv n s2) as [[l' r']|] eqn:Ei; [|done]. injection H as <- <-. by rewrite (IH _ _ _ Ei).
Qed.
End Steady.

Lemma fmap_pair {A B} (f : A → B) (o : option (A * jsstr)) b r :
  (λ p, (f p.1, p.2)) <$> o = Some (b, r) ↔ ∃ a, o = Some (a, r) ∧ f a = b.
Proof. destruct o as [[a r']|]; cbn; naive_solver. Qed.

Lemma parse_value_more t fuel : steady (parse_value fuel) t.
Proof.
  induction fuel as [|fuel IH]; intros s v r H Hr; [done|]. cbn [parse_value] in *.
  destruct (skip_ws s) as [|u s1] eqn:Es; [done|]. rewrite (skip_ws_more _ _ _ t Es).
  destruct (u =? 34).
  { apply fmap_pair in H as (k & H & <-). by rewrite (parse_string_more t _ _ _ _ (le_n _) H). }
  destruct (u =? 91).
  { destruct (skip_ws s1) as [|w s2] eqn:E1; [done|]. rewrite (skip_ws_more _ _ _ _ E1). destruct (w =? 93); [by injection H as <- <-|].
    apply fmap_pair in H as (l & H & <-). by rewrite (items_more _ t IH _ _ _ _ H). }
  destruct (u =? 123).
  { destruct (skip_ws s1) as [|w s2] eqn:E1; [done|]. rewrite (skip_ws_more _ _ _ _ E1). destruct (w =? 125); [by injection H as <- <-|].
    apply fmap_pair in H as (l & H & <-). by rewrite (members_more _ t IH _ _ _ _ H). }
  destruct (number_char u) eqn:Eu.
  { change (u :: s1 ++ t) with ((u :: s1) ++ t). destruct (span number_char (u :: s1)) as [k r'] eqn:E.
    destruct (valid_number k) eqn:Ek; [|done]. injection H as <- <-. destruct Hr as [Hr|]; [|done].
    by rewrite (span_more _ _ _ _ _ E Hr), Ek. }
  change (u :: s1 ++ t) with ((u :: s1) ++ t). destruct (keyword "null" j_null (u :: s1)) as [[v' r']|] eqn:E1.
  { injection H as -> ->. by rewrite (keyword_more _ _ _ _ _ t E1). }
  assert (N : ∀ c, keyword "true" (j_bool true) (u :: s1) = Some c ∨ keyword "false" (j_bool false) (u :: s1) = Some c →
                keyword "null" j_null ((u :: s1) ++ t) = None).
  { intros c Hc. cbn [app]. apply (keyword_head _ _ u 110); [done|]. destruct Hc as [Hc | Hc]; [apply (keyword_first _ _ u 116) in Hc | apply (keyword_first _ _ u 102) in Hc]; done || by subst. }
  destruct (keyword "true" (j_bool true) (u :: s1)) as [[v' r']|] eqn:E2.
  { injection H as -> ->. rewrite (N _ (or_introl eq_refl)). by rewrite (keyword_more _ _ _ _ _ t E2). }
  rewrite (N _ (or_intror H)). replace (keyword "true" (j_bool true) ((u :: s1) ++ t)) with (@None (json * jsstr)).
  2: { symmetry. cbn [app]. apply (keyword_head _ _ u 116); [done|]. apply (keyword_first _ _ u 102) in H; [by subst | done]. }
  by apply keyword_more.
Qed.

(** ** More fuel *)

Section Fuel.
Context (pv pv' : jsstr → option (json * jsstr)) (Hpv : ∀ s x, pv s = Some x → pv' s = Some x).

Lemma items_fuel n : ∀ n' s x, (n <= n')%nat → items pv n s = Some x → items pv' n' s = Some x.
Proof.
  induction n as [|n IH]; intros [|n'] s x Hn H; [done|done|lia|]. cbn [items] in *. destruct (pv s) as [[v s1]|] eqn:E; [|done].
  rewrite (Hpv _ _ E). destruct (skip_ws s1) as [|u s2]; [done|]. destruct (u =? 93); [done|]. destruct (u =? 44); [|done].
  destruct (items pv n s2) eqn:Ei; [|done]. by rewrite (IH n' s2 _ ltac:(lia) Ei).
Qed.

Lemma members_fuel n : ∀ n' s x, (n <= n')%nat → members_to pv n s = Some x → members_to pv' n' s = Some x.
Proof.
  assert (Hm : ∀ s x, member pv s = Some x → member pv' s = Some x).
  { intros s x. unfold member. destruct (skip_ws s) as [|q s1]; [done|]. destruct (q =? 34); [|done].
    destruct (parse_string s1) as [[k s2]|]; [|done]. destruct (skip_ws s2) as [|c s3]; [done|]. destruct (c =? 58); [|done].
    destruct (pv s3) as [[v r]|] eqn:E; [|done]. by rewrite (Hpv _ _ E). }
  induction n as [|n IH]; intros [|n'] s x Hn H; [done|done|lia|]. cbn [members_to] in *. destruct (member pv s) as [[[k v] s1]|] eqn:E; [|done].
  rewrite (Hm _ _ E). destruct (skip_ws s1) as [|u s2]; [done|]. destruct (u =? 125); [done|]. destruct (u =? 44); [|done].
  destruct (members_to pv n s2) eqn:Ei; [|done]. by rewrite (IH n' s2 _ ltac:(lia) Ei).
Qed.
End Fuel.

Lemma parse_value_fuel f : ∀ f' s x, (f <= f')%nat → parse_value f s = Some x → parse_value f' s = Some x.
Proof.
  induction f as [|f IH]; intros [|f'] s x Hf H; [done|done|lia|]. cbn [parse_value] in *. destruct (skip_ws s) as [|u s1]; [done|].
  destruct (u =? 34); [done|].
  destruct (u =? 91).
  { destruct (skip_ws s1) as [|w s2]; [done|]. destruct (w =? 93); [done|]. destruct (items (parse_value f) f s1) eqn:E; [|done].
    rewrite (items_fuel _ (parse_value f') (λ s x, IH f' s x ltac:(lia)) f f' _ _ ltac:(lia) E). done. }
  destruct (u =? 123); [|done]. destruct (skip_ws s1) as [|w s2]; [done|]. destruct (w =? 125); [done|].
  destruct (members_to (parse_value f) f s1) eqn:E; [|done].
  rewrite (members_fuel _ (parse_value f') (λ s x, IH f' s x ltac:(lia)) f f' _ _ ltac:(lia) E). done.
Qed.

(** ** Prefixes of objects *)

Lemma parse_object_head f s v r : parse_value f (123 :: s) = Some (v, r) → is_number v = false.
Proof.
  destruct f as [|f]; [done|]. cbn [parse_value]. rewrite skip_ws_head by done. change (123 =? 34) with false. change (123 =? 91) with false.
  change (123 =? 123) with true. cbv beta iota. destruct (skip_ws s) as [|w s2]; [done|]. destruct (w =? 125); [by intros [= <- _]|].
  intros (l & _ & <-)%fmap_pair. done.
Qed.

(** A proper prefix of a written object is no JSON text. *)
Lemma torn_object extra m p t : json_ok (j_object m) → stringify_with extra (j_object m) = p ++ t → t ≠ [] → parse p = None.
Proof.
  intros Hok E Ht. destruct (parse p) as [v|] eqn:Ep; [|done]. exfalso. unfold parse in Ep.
  destruct (parse_value (S (length p)) p) as [[v' r]|] eqn:Ev; [|done]. destruct p as [|u p]; [done|].
  assert (u = 123) as -> by (by injection E).
  pose proof (parse_value_more t _ _ _ _ Ev (or_intror (parse_object_head _ _ _ _ Ev))) as Hm.
  pose proof (parse_stringify_with extra (j_object m) (S (length (stringify_with extra (j_object m)))) ltac:(lia) [] Hok I) as Hs.
  rewrite app_nil_r, E in Hs. eapply (parse_value_fuel _ (S (length ((123 :: p) ++ t)))) in Hm; [|rewrite length_app; lia].
  rewrite Hs in Hm. injection Hm as _ Hr. symmetry in Hr. by apply app_nil in Hr as [_ ?].
Qed.

(** ** Line breaks *)

Lemma join_no_break (l : list jsstr) : Forall (λ s, 10 ∉ s) l → 10 ∉ join [44] l.
Proof.
  induction l as [|x [|y l] IH]; [by intros _ ?%elem_of_nil | by intros [? _]%Forall_cons |]. intros [Hx Hl]%Forall_cons.
  change (join [44] (x :: y :: l)) with (x ++ [44] ++ join [44] (y :: l)). rewrite !elem_of_app, list_elem_of_singleton.
  specialize (IH Hl). naive_solver.
Qed.

Lemma hex4_no_break u : 0 <= u → 10 ∉ hex4 u.
Proof.
  intros Hu. assert (Hh : ∀ n, 0 <= n → 10 ≠ hex_digit n) by (intros n; unfold hex_digit; destruct (n <? 10) eqn:?; lia).
  unfold hex4. rewrite !not_elem_of_cons. split_and!; try (apply Hh; lia); try done. apply not_elem_of_nil.
Qed.

Lemma letter_no_break u c : letter_of u = Some c → c ≠ 10.
Proof.
  unfold letter_of. destruct (find _ short_escapes) as [p|] eqn:E; [|done]. intros [= <-]. apply find_some in E as [E _].
  unfold short_escapes in E. cbn in E. intuition (subst; done).
Qed.

Lemma escape_no_break extra n : ∀ s, (length s <= n)%nat → forallb is_unit s = true → 10 ∉ escape extra s.
Proof.
  induction n as [|n IH]; intros [|u k] Hl Hs; cbn [length escape] in *; try lia; try apply not_elem_of_nil.
  cbn [forallb] in Hs. apply andb_true_iff in Hs as [Hu Hs]. assert (H0 : 0 <= u) by (unfold is_unit in Hu; lia).
  assert (IHk : 10 ∉ escape extra k) by (apply IH; [lia|done]).
  assert (Hr : ∀ u, is_high u = true ∨ is_low u = true → u ≠ 10) by (intros x; unfold is_high, is_low; lia).
  destruct (is_high u) eqn:Eh.
  - destruct k as [|v k]; [by apply hex4_no_break|]. destruct (is_low v) eqn:El.
    + cbn [length forallb] in *. apply andb_true_iff in Hs as [_ Hs]. rewrite !not_elem_of_cons.
      split_and!; [by apply not_eq_sym, Hr; left | by apply not_eq_sym, Hr; right |]. apply IH; [lia|done].
    + rewrite not_elem_of_app. split; [by apply hex4_no_break | done].
  - destruct (is_low u); [rewrite not_elem_of_app; split; [by apply hex4_no_break | done]|].
    rewrite not_elem_of_app. split; [|done]. unfold escape_unit. destruct (letter_of u) as [c|] eqn:E.
    + apply letter_no_break in E. rewrite !not_elem_of_cons. split_and!; [done | by apply not_eq_sym | apply not_elem_of_nil].
    + destruct (u <? 32) eqn:E1; [by apply hex4_no_break|]. destruct (extra u); [by apply hex4_no_break|]. intros E2%list_elem_of_singleton. lia.
Qed.

Lemma quote_no_break extra s : forallb is_unit s = true → 10 ∉ quote extra s.
Proof.
  intros Hs. unfold quote. rewrite !not_elem_of_app, !list_elem_of_singleton. split_and!; [done | by eapply escape_no_break | done].
Qed.

Lemma stringify_no_break extra v : json_ok v → 10 ∉ stringify_with extra v.
Proof.
  induction v as [|[]|t|s|l IH|m IH] using json_ind'; intros Hok; cbn [stringify_with].
  1,2,3: by apply (bool_decide_unpack (_ ∉ _)).
  - destruct Hok as [_ Ht]. intros Hin%list_elem_of_In. rewrite forallb_forall in Ht. by apply Ht in Hin.
  - by apply quote_no_break.
  - apply json_ok_array in Hok. rewrite !not_elem_of_app, !list_elem_of_singleton. split_and!; [done | | done]. apply join_no_break, Forall_fmap.
    rewrite Forall_forall in IH, Hok. apply Forall_forall. intros x Hx. by apply IH, Hok.
  - apply json_ok_object in Hok as [_ Hok]. change (10 ∉ [123] ++ join [44] (member_text extra <$> m) ++ [125]).
    rewrite !not_elem_of_app, !list_elem_of_singleton. split_and!; [done | | done]. apply join_no_break, Forall_fmap.
    rewrite Forall_forall in IH, Hok. apply Forall_forall. intros kv Hkv. destruct (Hok kv Hkv) as [Hk Hv]. change (10 ∉ quote extra kv.1 ++ [58] ++ stringify_with extra kv.2).
    rewrite !not_elem_of_app, list_elem_of_singleton. split_and!; [by apply quote_no_break | done | by apply IH].
Qed.

End JsonPrefix.

(** * Numbers in JSON texts

    The safe integer that a numeral of a JSON text denotes, if it denotes one: the numeral
    stands for the double nearest to its decimal value, which [Number.isSafeInteger] then
    tests. *)



Module JsonNumber.
Import Json.

Definition digits_value (s : jsstr) : Z := foldl (λ acc u, acc * 10 + (u - 48)) 0 s.

Record numeral := mkNumeral { negative : bool; mantissa : Z; exponent : Z }.

(** The parts of a numeral that [valid_number] accepts. *)
Definition read_numeral (t : jsstr) : numeral :=
  let neg := match t with u :: _ => u =? 45 | [] => false end in
  let t := if neg then drop 1 t else t in
  let '(int, t) := span is_digit t in
  let '(frac, t) := match t with u :: t' => if u =? 46 then span is_digit t' else ([], t) | [] => ([], []) end in
  let e := match t with
           | _ :: u :: t' => if u =? 45 then - digits_value t' else if u =? 43 then digits_value t' else digits_value (u :: t')
           | _ => 0
           end in
  mkNumeral neg (digits_value (int ++ frac)) (e - zlen frac).

(** [n / d] rounded to an integer, a half to the even one. *)
Definition round_half_even (n d : Z) : Z :=
  let q := n / d in
  match 2 * (n mod d) ?= d with Lt => q | Gt => q + 1 | Eq => if Z.even q then q else q + 1 end.

(** The double nearest to [n / d], if it is an integer below [2 ^ 53]. *)
Definition nearest_integer (n d : Z) : option Z :=
  let k := Z.log2 (n / d) in
  if n <? d then
    if n * 2 ^ 1075 <=? d then Some 0
    else if d * (2 ^ 54 - 1) <=? n * 2 ^ 54 then Some 1 else None
  else if 52 <? k then None
  else
    let m := round_half_even (n * 2 ^ (52 - k)) d in
    if m mod 2 ^ (52 - k) =? 0 then Some (m / 2 ^ (52 - k)) else None.

(** The value of a number for which [Number.isSafeInteger] holds. *)
Definition safe_integer (t : jsstr) : option Z :=
  let n := read_numeral t in
  let v := if 0 <=? exponent n then nearest_integer (mantissa n * 10 ^ exponent n) 1
           else nearest_integer (mantissa n) (10 ^ (- exponent n)) in
  match v with
  | Some v => if v <=? MAX_SAFE_INTEGER then Some (if negative n then - v else v) else None
  | None => None
  end.

Example integers_are_read : safe_integer <$> (js <$> ["0"; "-7"; "12"; "9007199254740991"; "9007199254740992"; "1e3"; "2.50e1"; "0.5";
                                              "1.00000000000000000001"; "9007199254740991.4"; "1e400"; "-0"])
  = [Some 0; Some (-7); Some 12; Some 9007199254740991; None; Some 1000; Some 25; None; Some 1; Some 9007199254740991; None; Some 0].
Proof. vm_compute. reflexivity. Qed.

(** ** Written integers *)

(** A run of decimal digits and its value. *)
Definition decimal (l : jsstr) (v : Z) : Prop := forallb is_digit l = true ∧ digits_value l = v.

Lemma digits_snoc l u : digits_value (l ++ [u]) = digits_value l * 10 + (u - 48).
Proof. unfold digits_value. by rewrite foldl_app. Qed.

Lemma char_code x : (x < 10)%N → Z.of_N (Ascii.N_of_ascii (pretty_N_char x)) = 48 + Z.of_N x.
Proof.
  intros H. assert (x = 0 ∨ x = 1 ∨ x = 2 ∨ x = 3 ∨ x = 4 ∨ x = 5 ∨ x = 6 ∨ x = 7 ∨ x = 8 ∨ x = 9)%N by lia.
  by repeat destruct H0 as [-> | H0]; subst.
Qed.

Lemma pretty_digits x s : (0 < x)%N → ∃ l, codes (pretty_N_go x s) = l ++ codes s ∧ decimal l (Z.of_N x) ∧ head l ≠ Some 48 ∧ l ≠ [].
Proof.
  revert s. induction (N.lt_wf_0 x) as [x _ IH]. intros s Hx. rewrite pretty_N_go_step by done.
  assert (Hm : (x `mod` 10 < 10)%N) by (by apply N.mod_lt). pose proof (char_code _ Hm) as Hc.
  pose proof (N.div_mod x 10 ltac:(done)) as Hx10.
  assert (Hd : is_digit (48 + Z.of_N (x `mod` 10)) = true).
  { unfold is_digit. apply andb_true_iff. split; apply Z.leb_le; clear -Hm; generalize dependent (x `mod` 10)%N; lia. }
  destruct (decide (x `div` 10 = 0)%N) as [E|E].
  - rewrite E, pretty_N_go_0. exists [48 + Z.of_N (x `mod` 10)]. split_and!; [by cbn; rewrite Hc | split; [by cbn; rewrite Hd | unfold digits_value; cbn [foldl]; lia] | | done].
    cbn [head]. intros H0. assert (Hz : 48 + Z.of_N (x `mod` 10) = 48) by congruence. lia.
  - destruct (IH (x `div` 10)%N (N.div_lt x 10 Hx eq_refl) (String.String (pretty_N_char (x `mod` 10)) s) ltac:(lia)) as (l & -> & [D1 D2] & H1 & H2).
    exists (l ++ [48 + Z.of_N (x `mod` 10)]). split_and!.
    + rewrite <- app_assoc. cbn. by rewrite Hc.
    + split; [rewrite forallb_app, D1; cbn; by rewrite Hd|]. rewrite digits_snoc, D2. lia.
    + by destruct l.
    + by destruct l.
Qed.

Lemma num_str_digits q : 0 <= q → ∃ l, num_str q = l ∧ decimal l q ∧ (q ≠ 0 → head l ≠ Some 48) ∧ l ≠ [] ∧ (q = 0 → l = [48]).
Proof.
  intros Hq. unfold num_str. destruct q as [|p|p]; [|clear Hq|lia].
  - exists [48]. split_and!; done.
  - destruct (pretty_digits (Npos p) "" ltac:(lia)) as (l & E & [D1 D2] & H1 & H2). rewrite app_nil_r in E. exists l.
    change (pretty (Z.pos p)) with (pretty_N_go (Npos p) ""). rewrite js_ascii; rewrite E; [split_and!; done |].
    apply forallb_forall. intros u Hu. rewrite forallb_forall in D1. apply D1 in Hu. unfold is_digit in Hu. apply andb_true_iff in Hu as [_ Hu]. apply Z.leb_le in Hu. apply Z.ltb_lt. lia.
Qed.

Lemma span_all f s : forallb f s = true → span f s = (s, []).
Proof. intros H. pose proof (span_app f s [] H I) as E. by rewrite app_nil_r in E. Qed.

Lemma nearest_exact q : 0 <= q <= MAX_SAFE_INTEGER → nearest_integer q 1 = Some q.
Proof.
  intros Hq. unfold nearest_integer, MAX_SAFE_INTEGER in *. destruct (q <? 1) eqn:E.
  - assert (q = 0) as -> by lia. done.
  - rewrite Z.div_1_r. assert (Hk : Z.log2 q < 53) by (apply Z.log2_lt_pow2; lia). assert (0 <= Z.log2 q) by apply Z.log2_nonneg.
    replace (52 <? Z.log2 q) with false by lia.
    assert (Hp : 0 < 2 ^ (52 - Z.log2 q)) by (apply Z.pow_pos_nonneg; lia). generalize dependent (2 ^ (52 - Z.log2 q)). intros P Hp.
    unfold round_half_even. rewrite Z.mod_1_r, Z.div_1_r. change (2 * 0 ?= 1) with Lt. cbv beta iota zeta.
    rewrite Z_mod_mult, Z.div_mul by lia. done.
Qed.

Lemma safe_integer_num_str q : 0 <= q <= MAX_SAFE_INTEGER → safe_integer (num_str q) = Some q.
Proof.
  intros Hq. destruct (num_str_digits q ltac:(lia)) as (l & -> & [D1 D2] & _ & Hl & _).
  assert (Hneg : match l with u :: _ => u =? 45 | [] => false end = false).
  { destruct l as [|u l]; [done|]. cbn in D1. apply andb_true_iff in D1 as [D1 _]. unfold is_digit in D1. lia. }
  assert (E : read_numeral l = mkNumeral false q 0).
  { unfold read_numeral. rewrite Hneg, span_all by done. f_equal. by rewrite app_nil_r. }
  unfold safe_integer. rewrite E. change (10 ^ exponent _) with 1. change (0 <=? exponent _) with true. cbv beta iota.
  cbn [mantissa negative]. rewrite Z.mul_1_r, nearest_exact by done. by rewrite (proj2 (Z.leb_le q MAX_SAFE_INTEGER)) by lia.
Qed.

(** A written integer is a JSON number. *)
Lemma num_str_ok q : 0 <= q → json_ok (j_number (num_str q)).
Proof.
  intros Hq. destruct (num_str_digits q Hq) as (l & -> & [D1 D2] & H1 & H2 & H3). cbn [json_ok].
  assert (Hc : forallb number_char l = true).
  { apply forallb_forall. intros u Hu. rewrite forallb_forall in D1. apply D1 in Hu. unfold number_char. by rewrite Hu. }
  split; [|exact Hc]. destruct (decide (q = 0)) as [E|E]; [by rewrite (H3 E)|]. specialize (H1 E).
  destruct l as [|u l]; [done|]. assert (Hu : (u =? 45) = false ∧ (u =? 48) = false).
  { pose proof D1 as D1'. cbn in D1'. apply andb_true_iff in D1' as [D1' _]. unfold is_digit in D1'. cbn in H1. split; [lia|]. apply Z.eqb_neq. congruence. }
  destruct Hu as [U1 U2]. unfold valid_number. rewrite U1, U2. unfold some_digits. rewrite span_all by done. done.
Qed.

End JsonNumber.
