(* ===== verification/AgentData.v ===== *)
(** * Messages, session entries and lane records

    The data of the durable agent sessions: [agent/src/harness/session/types.ts], with the
    messages of [agent/src/types.ts], [agent/src/harness/messages.ts] and
    [ai/src/types.ts].  A field that no modelled function reads is kept inside one
    JSON value of its object. *)
From S2P Require Import Prelude JsMap JsString Json.

Module AgentData.
Import Json.

(** ** Messages *)

Inductive StopReason := stop_pending | stop_stop | stop_length | stop_toolUse | stop_error | stop_aborted | stop_deferred.
#[export] Instance StopReason_eq : EqDecision StopReason.
Proof. solve_decision. Defined.

Record AgentToolCall := mkToolCall { tc_id : jsstr; tc_name : jsstr; tc_arguments : json }.

(** An item of an assistant message: a tool call, or text and thinking. *)
Inductive content_item := c_toolCall (t : AgentToolCall) | c_other (item : json).

(** The handle of a deferred response: an object, which is always truthy. *)
Definition DeferredHandle := json.

(** The counters the statistics add up; a cost is a double. *)
Record Usage := mkUsage { u_input : Z; u_output : Z; u_cacheRead : Z; u_cacheWrite : Z; u_totalTokens : Z; u_cost_total : jsnum }.

Record AssistantMessage := mkAssistant {
  am_content : list content_item; am_provider : jsstr; am_model : jsstr; am_usage : Usage; am_stopReason : StopReason;
  am_deferred : option DeferredHandle; am_errorMessage : option jsstr; am_rest : json }.

Record ToolResultMessage := mkToolResult {
  tr_toolCallId : jsstr; tr_toolName : jsstr; tr_content : json; tr_details : option json; tr_usage : option json;
  tr_addedToolNames : option (list jsstr); tr_isError : bool; tr_timestamp : Z }.

Inductive AgentMessage :=
| m_user (rest : json)
| m_assistant (a : AssistantMessage)
| m_toolResult (t : ToolResultMessage)
| m_bashExecution (rest : json)
| m_custom (rest : json)
| m_branchSummary (summary fromId : jsstr) (timestamp : Z)
| m_compactionSummary (summary : jsstr) (tokensBefore timestamp : Z).

Inductive Role := r_user | r_assistant | r_toolResult | r_bashExecution | r_custom | r_branchSummary | r_compactionSummary.
#[export] Instance Role_eq : EqDecision Role.
Proof. solve_decision. Defined.

Definition role (m : AgentMessage) : Role :=
  match m with
  | m_user _ => r_user | m_assistant _ => r_assistant | m_toolResult _ => r_toolResult | m_bashExecution _ => r_bashExecution
  | m_custom _ => r_custom | m_branchSummary _ _ _ => r_branchSummary | m_compactionSummary _ _ _ => r_compactionSummary
  end.

Definition assistant_of (m : AgentMessage) : option AssistantMessage :=
  match m with m_assistant a => Some a | _ => None end.
Definition toolCalls (a : AssistantMessage) : list AgentToolCall :=
  omap (λ c, match c with c_toolCall t => Some t | c_other _ => None end) (am_content a).

(** ** Entries *)

Inductive EntryType := t_message | t_model_change | t_thinking_level_change | t_active_tools_change | t_compaction
                     | t_branch_summary | t_custom.
#[export] Instance EntryType_eq : EqDecision EntryType.
Proof. solve_decision. Defined.

Inductive EntryBody :=
| message (m : AgentMessage) (terminate : bool)
| model_change (provider modelId : jsstr)
| thinking_level_change (thinkingLevel : jsstr)
| active_tools_change (activeToolNames : list jsstr)
| compaction (summary : jsstr) (retainedTail : list AgentMessage) (tokensBefore : Z) (details usage : option json)
| branch_summary (fromId summary : jsstr) (details usage : option json)
| custom (customType : jsstr) (data : option json).

Definition type_of (b : EntryBody) : EntryType :=
  match b with
  | message _ _ => t_message | model_change _ _ => t_model_change | thinking_level_change _ => t_thinking_level_change
  | active_tools_change _ => t_active_tools_change | compaction _ _ _ _ _ => t_compaction
  | branch_summary _ _ _ _ => t_branch_summary | custom _ _ => t_custom
  end.

Record Entry := mkEntry { e_id : jsstr; e_seq : Z; e_parentId : option jsstr; e_timestamp : Z; e_body : EntryBody }.
(** An entry without what the storage assigns. *)
Record ProvisionedEntry := mkProvisioned { p_id : jsstr; p_body : EntryBody }.

Definition e_type (e : Entry) : EntryType := type_of (e_body e).
Definition e_assistant (e : Entry) : option AssistantMessage :=
  match e_body e with message m _ => assistant_of m | _ => None end.

(** ** Records *)

(** What the records of every type share, around what is their own. *)
Record Rec (B : Type) := mkRec { r_id : jsstr; r_seq : Z; r_lane : jsstr; r_timestamp : Z; r_body : B }.
Arguments mkRec {B} _ _ _ _ _.
Arguments r_id {B} _.
Arguments r_seq {B} _.
Arguments r_lane {B} _.
Arguments r_timestamp {B} _.
Arguments r_body {B} _.
(** A record without what the storage assigns. *)
Record NewRecord (B : Type) := mkNew { n_id : jsstr; n_lane : jsstr; n_body : B }.
Arguments mkNew {B} _ _ _.
Arguments n_id {B} _.
Arguments n_lane {B} _.
Arguments n_body {B} _.

Definition rec_map {A B} (f : A → B) (r : Rec A) : Rec B := mkRec (r_id r) (r_seq r) (r_lane r) (r_timestamp r) (f (r_body r)).

Record RetryPolicy := mkRetry { rp_enabled : bool; rp_maxRetries : Z; rp_baseDelayMs : Z; rp_maxAgentDelayMs : option Z }.
Record GenerationConfiguration := mkConfiguration {
  gc_provider : jsstr; gc_modelId : jsstr; gc_thinkingLevel : jsstr; gc_streamOptions : json; gc_retryPolicy : RetryPolicy }.

Inductive OperationIntent :=
| run_intent (originalPrompt : list AgentMessage) (initialMessages : list ProvisionedEntry)
    (generation : option GenerationConfiguration) (rest : json)
| compaction_intent (customInstructions : option jsstr) (resultEntryId : jsstr)
| navigation_intent (targetId : option jsstr) (summarize : bool) (customInstructions label summaryEntryId : option jsstr).

Inductive OperationKind := k_run | k_compaction | k_navigation.
#[export] Instance OperationKind_eq : EqDecision OperationKind.
Proof. solve_decision. Defined.
Definition intent_kind (i : OperationIntent) : OperationKind :=
  match i with run_intent _ _ _ _ => k_run | compaction_intent _ _ => k_compaction | navigation_intent _ _ _ _ _ => k_navigation end.

Record OperationStarted := mkStarted { os_sourceLeafId : option jsstr; os_intent : OperationIntent }.

Inductive GenerationStatus := gen_intent | gen_effect_pending | gen_retry_wait | gen_deferred | gen_cancelled | gen_settled.
#[export] Instance GenerationStatus_eq : EqDecision GenerationStatus.
Proof. solve_decision. Defined.

Record GenerationState := mkGeneration {
  g_runId : jsstr; g_stepId : jsstr; g_status : GenerationStatus; g_attempt : Z; g_responseEntryId : jsstr; g_usageId : jsstr;
  g_configuration : GenerationConfiguration; g_notBefore : option Z; g_errorMessage : option jsstr; g_deferred : option json }.
#[export] Instance generation_rebuild : Rebuild GenerationState := λ g,
  mkGeneration (g_runId g) (g_stepId g) (g_status g) (g_attempt g) (g_responseEntryId g) (g_usageId g) (g_configuration g)
    (g_notBefore g) (g_errorMessage g) (g_deferred g).

Inductive Outcome := o_completed | o_aborted | o_failed | o_declined.
#[export] Instance Outcome_eq : EqDecision Outcome.
Proof. solve_decision. Defined.
Record OperationFinished := mkFinished { of_runId : jsstr; of_outcome : Outcome; of_error : option (jsstr * jsstr) }.

Inductive StepKind := step_assistant | step_compaction | step_branch_summary.
#[export] Instance StepKind_eq : EqDecision StepKind.
Proof. solve_decision. Defined.

(** The reason of a compaction is checked at run time and therefore any text. *)
Definition manual : jsstr := js "manual".
Definition threshold : jsstr := js "threshold".
Definition overflow : jsstr := js "overflow".

Record StepAttempt := mkAttempt {
  sa_runId : jsstr; sa_step : StepKind; sa_attempt : Z; sa_resultEntryId : jsstr; sa_compactionReason : option jsstr }.

Inductive Replay := never | safe.
#[export] Instance Replay_eq : EqDecision Replay.
Proof. solve_decision. Defined.

Record ToolStarted := mkToolStarted {
  ts_runId : jsstr; ts_assistantEntryId : jsstr; ts_toolIndex : Z; ts_toolCallId : jsstr; ts_toolName : jsstr;
  ts_effectiveArgs : json; ts_resultEntryId : jsstr; ts_replay : Replay }.

Inductive ToolExecutionStatus :=
  x_planned | x_effect_pending | x_checkpointed | x_outcome_ready | x_completed | x_failed | x_cancelled | x_interrupted.
#[export] Instance ToolExecutionStatus_eq : EqDecision ToolExecutionStatus.
Proof. solve_decision. Defined.

(** [DurableToolOutcome] of [agent/src/harness/tool-execution.ts], the only JSON value that is stored as outcome or
    checkpoint of a tool. *)
Record DurableToolOutcome := mkOutcome {
  do_content : json; do_details : option json; do_usage : option json; do_addedToolNames : option (list jsstr);
  do_terminate : option bool; do_isError : bool }.

Record ToolExecutionState := mkToolState {
  x_runId : jsstr; x_assistantEntryId : jsstr; x_toolIndex : Z; x_toolCallId : jsstr; x_toolName : jsstr;
  x_invocationId : jsstr; x_resultEntryId : jsstr; x_args : json; x_replay : Replay; x_status : ToolExecutionStatus;
  x_checkpoint : option DurableToolOutcome; x_outcome : option DurableToolOutcome; x_errorMessage : option jsstr }.
#[export] Instance toolstate_rebuild : Rebuild ToolExecutionState := λ x,
  mkToolState (x_runId x) (x_assistantEntryId x) (x_toolIndex x) (x_toolCallId x) (x_toolName x) (x_invocationId x)
    (x_resultEntryId x) (x_args x) (x_replay x) (x_status x) (x_checkpoint x) (x_outcome x) (x_errorMessage x).

Inductive Queue := steer | followUp | nextRun.
#[export] Instance Queue_eq : EqDecision Queue.
Proof. solve_decision. Defined.

Record QueueEnqueued := mkEnqueued { qe_queue : Queue; qe_runId : option jsstr; qe_target : ProvisionedEntry }.
Record QueueConsumed := mkConsumed { qc_operationId : jsstr; qc_queue : Queue; qc_entryId : jsstr }.

Inductive UsageCause := u_assistant | u_compaction | u_branch_summary | u_deferred_fetch | u_tool | u_hook | u_adjustment.
#[export] Instance UsageCause_eq : EqDecision UsageCause.
Proof. solve_decision. Defined.
Record UsageRecord := mkUsageRecord {
  us_usage : Usage; us_cause : UsageCause; us_runId : option jsstr; us_entryId : option jsstr; us_attempt : option Z;
  us_stopReason : option StopReason; us_rest : json }.

Inductive RecordBody :=
| operation_started (o : OperationStarted)
| generation_state (g : GenerationState)
| abort_requested (runId : jsstr)
| operation_finished (f : OperationFinished)
| step_attempt (a : StepAttempt)
| tool_started (t : ToolStarted)
| tool_execution_state (x : ToolExecutionState)
| queue_enqueued (q : QueueEnqueued)
| queue_cancelled (runId : option jsstr) (entryId : jsstr)
| queue_consumed (q : QueueConsumed)
| write_deferred (runId : jsstr) (target : ProvisionedEntry)
| usage (u : UsageRecord).
Notation LaneRecord := (Rec RecordBody).

Inductive RecordType :=
  rt_operation_started | rt_generation_state | rt_abort_requested | rt_operation_finished | rt_step_attempt | rt_tool_started
| rt_tool_execution_state | rt_queue_enqueued | rt_queue_cancelled | rt_queue_consumed | rt_write_deferred | rt_usage.
#[export] Instance RecordType_eq : EqDecision RecordType.
Proof. solve_decision. Defined.

Definition record_type (b : RecordBody) : RecordType :=
  match b with
  | operation_started _ => rt_operation_started | generation_state _ => rt_generation_state
  | abort_requested _ => rt_abort_requested | operation_finished _ => rt_operation_finished
  | step_attempt _ => rt_step_attempt | tool_started _ => rt_tool_started
  | tool_execution_state _ => rt_tool_execution_state | queue_enqueued _ => rt_queue_enqueued
  | queue_cancelled _ _ => rt_queue_cancelled | queue_consumed _ => rt_queue_consumed
  | write_deferred _ _ => rt_write_deferred | usage _ => rt_usage
  end.

(** [record.runId], where the record has one; the start of an operation has none. *)
Definition runId (b : RecordBody) : option jsstr :=
  match b with
  | operation_started _ | queue_consumed _ => None
  | generation_state g => Some (g_runId g)
  | abort_requested r => Some r
  | operation_finished f => Some (of_runId f)
  | step_attempt a => Some (sa_runId a)
  | tool_started t => Some (ts_runId t)
  | tool_execution_state x => Some (x_runId x)
  | queue_enqueued q => qe_runId q
  | queue_cancelled r _ => r
  | write_deferred r _ => Some r
  | usage u => us_runId u
  end.

(** The records of one type, as that type. *)
Definition pick {B} (f : RecordBody → option B) (r : LaneRecord) : option (Rec B) :=
  match f (r_body r) with
  | Some b => Some (mkRec (r_id r) (r_seq r) (r_lane r) (r_timestamp r) b)
  | None => None
  end.
Definition as_started (b : RecordBody) : option OperationStarted := match b with operation_started o => Some o | _ => None end.
Definition as_generation (b : RecordBody) : option GenerationState := match b with generation_state g => Some g | _ => None end.
Definition as_tool_state (b : RecordBody) : option ToolExecutionState :=
  match b with tool_execution_state x => Some x | _ => None end.
Definition as_finished (b : RecordBody) : option OperationFinished := match b with operation_finished f => Some f | _ => None end.
Definition as_enqueued (b : RecordBody) : option QueueEnqueued := match b with queue_enqueued q => Some q | _ => None end.
Definition as_attempt (b : RecordBody) : option StepAttempt := match b with step_attempt a => Some a | _ => None end.

(** ** Errors *)

Inductive SessionErrorCode :=
  not_found | already_exists | invalid_entry | invalid_payload | invalid_lane | invalid_query | invalid_fork_target | storage.
#[export] Instance SessionErrorCode_eq : EqDecision SessionErrorCode.
Proof. solve_decision. Defined.
Record SessionError := mkError { code : SessionErrorCode; error_message : jsstr }.

End AgentData.
