(* ===== verification/SessionState.v ===== *)
(** * The state of a session

    Models [agent/src/harness/session/state.ts] and, around it, the storage in memory of
    [agent/src/harness/session/memory.ts] with [fork-policy.ts]: the append-only log of
    entries, records, lanes and facts, its queries and its forks.

    [structuredClone] is the identity, because no value here is mutated.  Every method
    of the storage is synchronous up to its promise, so that it is one function of the
    state; the clock is an argument. *)
From S2P Require Import Prelude JsMap JsString Json AgentData.

Module SessionState.
Import AgentData.

Inductive EntryOrder := newestFirst | oldestFirst.
#[export] Instance EntryOrder_eq : EqDecision EntryOrder.
Proof. solve_decision. Defined.

Record EntryQuery := mkEntryQuery {
  q_type : option EntryType; q_customType : option jsstr; q_order : option EntryOrder; q_limit : option Z; q_cursor : option Z }.
Record BranchBounds := mkBounds { b_start : option jsstr; b_stopAtType : option EntryType; b_stopAtId : option jsstr }.
Record RecordQuery := mkRecordQuery {
  rq_lane : option jsstr; rq_type : option RecordType; rq_runId : option jsstr; rq_operationKind : option OperationKind;
  rq_afterSeq : option Z; rq_order : option EntryOrder; rq_limit : option Z }.

Record SessionStats := mkStats {
  messageCount : Z; cachedTokens : Z; uncachedTokens : Z; totalTokens : Z;
  (** the doubles that were added, oldest first: their sum is left to floating point *)
  costTotal : list jsnum }.
#[export] Instance stats_rebuild : Rebuild SessionStats := λ s,
  mkStats (messageCount s) (cachedTokens s) (uncachedTokens s) (totalTokens s) (costTotal s).

Inductive SessionMutation :=
| mut_entry (lane : option jsstr) (entry : Entry)
| mut_record (record : LaneRecord)
| mut_lane (seq : Z) (lane : jsstr) (leafId : option jsstr)
| mut_name (seq : Z) (name : option jsstr)
| mut_label (seq : Z) (targetId : jsstr) (label : option jsstr).

Inductive LogItem :=
| log_entry (seq : Z) (entry : Entry)
| log_record (seq : Z) (record : LaneRecord)
| log_lane (seq : Z) (lane : jsstr) (leafId : option jsstr)
| log_name (seq : Z) (name : option jsstr)
| log_label (seq : Z) (targetId : jsstr) (label : option jsstr).
Definition log_seq (i : LogItem) : Z :=
  match i with log_entry q _ | log_record q _ | log_lane q _ _ | log_name q _ | log_label q _ _ => q end.

Record State := mkState {
  sequence : Z;
  usedIds : gset jsstr;
  entries : list Entry;
  entriesById : gmap jsstr Entry;
  records : list LaneRecord;
  openOperationsByLane : gmap jsstr (list (jsstr * Rec OperationStarted));
  lanes : list (jsstr * option jsstr);
  log : list LogItem;
  stats : SessionStats;
  name : option jsstr;
  labels : gmap jsstr jsstr }.
#[export] Instance state_rebuild : Rebuild State := λ s,
  mkState (sequence s) (usedIds s) (entries s) (entriesById s) (records s) (openOperationsByLane s) (lanes s) (log s)
    (stats s) (name s) (labels s).

Definition newState (initialLanes : list jsstr) : State :=
  mkState 0 ∅ [] ∅ [] ∅ (mof_list ((λ l, (l, None)) <$> initialLanes)) [] (mkStats 0 0 0 0 []) None ∅.
Definition DEFAULT_LANES : list jsstr := [js "main"].

Definition nextSequence (s : State) : Z := sequence s + 1.

(** ** Checks *)

Definition fail {A} (c : SessionErrorCode) (m : jsstr) : result SessionError A := Err (mkError c m).
Definition require (b : bool) (c : SessionErrorCode) (m : jsstr) : result SessionError () := guard_err (negb b) (mkError c m).

Definition getLanes (s : State) : list (jsstr * option jsstr) := lanes s.
Definition requireLane (lane : jsstr) (s : State) : result SessionError (option jsstr) :=
  match mget lane (lanes s) with
  | Some leafId => Ok leafId
  | None => fail invalid_lane (js "Lane not found: " ++ lane)
  end.
Definition validateNewLane (lane : jsstr) (s : State) : result SessionError () :=
  require (negb (mhas lane (lanes s))) already_exists (js "Lane already exists: " ++ lane).
Definition hasEntry (id : jsstr) (s : State) : bool := bool_decide (is_Some (entriesById s !! id)).
(** A [null] target is the root. *)
Definition known (target : option jsstr) (s : State) : bool := match target with None => true | Some id => hasEntry id s end.
Definition validateTarget (target : option jsstr) (s : State) : result SessionError () :=
  require (known target s) not_found (js "Entry not found: " ++ default [] target).
Definition validateUnusedId (id : jsstr) (s : State) : result SessionError () :=
  require (negb (bool_decide (id ∈ usedIds s))) already_exists (js "Session id already exists: " ++ id).

Definition assertValidLimit (limit : option Z) : result SessionError () :=
  require (match limit with Some l => 0 <? l | None => true end) invalid_query (js "limit must be a positive integer").
Definition assertValidCursor (afterSeq : option Z) : result SessionError () :=
  require (match afterSeq with Some q => 0 <=? q | None => true end) invalid_query
    (js "cursor sequence must be a non-negative integer").

(** ** Mutations *)

Definition invalid {A} (m : jsstr) : result SessionError A := fail invalid_entry (js "Invalid session mutation: " ++ m).
Definition valid (b : bool) (m : jsstr) : result SessionError () := if b then Ok () else invalid m.

Definition mutation_seq (m : SessionMutation) : Z :=
  match m with mut_entry _ e => e_seq e | mut_record r => r_seq r | mut_lane q _ _ | mut_name q _ | mut_label q _ _ => q end.

Definition add_log (i : LogItem) (s : State) : State := s <| log := log s ++ [i] |>.

Definition apply_entry (lane : option jsstr) (entry : Entry) (s : State) : result SessionError State :=
  let* _ := valid (negb (bool_decide (e_id entry ∈ usedIds s))) (js "contains duplicate id " ++ e_id entry) in
  let* _ := match lane with
            | None => Ok ()
            | Some l => match mget l (lanes s) with
                        | None => invalid (js "references missing lane " ++ l)
                        | Some leafId => valid (bool_decide (e_parentId entry = leafId)) (js "does not chain to the lane leaf")
                        end
            end in
  let* _ := valid (known (e_parentId entry) s) (js "references missing parent " ++ default [] (e_parentId entry)) in
  let s := s <| sequence := e_seq entry |> <| usedIds := {[e_id entry]} ∪ usedIds s |> <| entries := entries s ++ [entry] |>
             <| entriesById := <[e_id entry := entry]> (entriesById s) |> in
  let s := match lane with Some l => s <| lanes := mset l (Some (e_id entry)) (lanes s) |> | None => s end in
  let s := add_log (log_entry (e_seq entry) entry) s in
  Ok (if bool_decide (e_type entry = t_message)
      then s <| stats := stats s <| messageCount := messageCount (stats s) + 1 |> |> else s).

Definition track_operation (r : LaneRecord) (s : State) : State :=
  match r_body r with
  | operation_started o =>
      let open := default [] (openOperationsByLane s !! r_lane r) in
      let o := mkRec (r_id r) (r_seq r) (r_lane r) (r_timestamp r) o in
      s <| openOperationsByLane := <[r_lane r := mset (r_id r) o open]> (openOperationsByLane s) |>
  | operation_finished f =>
      match openOperationsByLane s !! r_lane r with
      | Some open => s <| openOperationsByLane := <[r_lane r := mdelete (of_runId f) open]> (openOperationsByLane s) |>
      | None => s
      end
  | _ => s
  end.

Definition add_usage (u : Usage) (t : SessionStats) : SessionStats :=
  mkStats (messageCount t) (cachedTokens t + u_cacheRead u) (uncachedTokens t + (u_input u + u_cacheWrite u))
    (totalTokens t + u_totalTokens u) (costTotal t ++ [u_cost_total u]).

Definition apply_record (r : LaneRecord) (s : State) : result SessionError State :=
  let* _ := valid (mhas (r_lane r) (lanes s)) (js "references missing lane " ++ r_lane r) in
  let* _ := valid (negb (bool_decide (r_id r ∈ usedIds s))) (js "contains duplicate id " ++ r_id r) in
  let s := s <| sequence := r_seq r |> <| usedIds := {[r_id r]} ∪ usedIds s |> <| records := records s ++ [r] |> in
  let s := add_log (log_record (r_seq r) r) (track_operation r s) in
  Ok (match r_body r with usage u => s <| stats := add_usage (us_usage u) (stats s) |> | _ => s end).

Definition applyMutation (m : SessionMutation) (s : State) : result SessionError State :=
  let* _ := valid (mutation_seq m =? sequence s + 1) (js "has non-consecutive seq " ++ num_str (mutation_seq m)) in
  match m with
  | mut_entry lane entry => apply_entry lane entry s
  | mut_record r => apply_record r s
  | mut_lane seq lane leafId =>
      let* _ := valid (known leafId s) (js "references missing lane target " ++ default [] leafId) in
      Ok (add_log (log_lane seq lane leafId) (s <| sequence := seq |> <| lanes := mset lane leafId (lanes s) |>))
  | mut_name seq n => Ok (add_log (log_name seq n) (s <| sequence := seq |> <| name := n |>))
  | mut_label seq targetId label =>
      let* _ := valid (hasEntry targetId s) (js "references missing label target " ++ targetId) in
      let labels' := match label with None => delete targetId (labels s) | Some l => <[targetId := l]> (labels s) end in
      Ok (add_log (log_label seq targetId label) (s <| sequence := seq |> <| labels := labels' |>))
  end.

(** ** Queries *)

Definition getEntry (id : jsstr) (s : State) : option Entry := entriesById s !! id.

Definition ordered {A} (items : list A) (order : option EntryOrder) : list A :=
  if bool_decide (order = Some oldestFirst) then items else rev items.

(** The loop of every query: [items] are what the iterator yields and [fin] the exception it ends with; the loop keeps
    what matches and leaves after an item that is a bound or when the limit is reached. *)
Fixpoint collect {A} (keep stop : A → bool) (limit : option Z) (results : list A) (fin : option SessionError) (items : list A)
    : result SessionError (list A) :=
  match items with
  | [] => match fin with Some e => Err e | None => Ok results end
  | x :: items =>
      let results := if keep x then results ++ [x] else results in
      if stop x || bool_decide (Some (zlen results) = limit) then Ok results else collect keep stop limit results fin items
  end.

Definition matches {A} `{EqDecision A} (want : option A) (have : A) : bool :=
  match want with None => true | Some w => bool_decide (have = w) end.

Definition matchesEntryQuery (q : EntryQuery) (e : Entry) : bool :=
  matches (q_type q) (e_type e)
  && match q_customType q with
     | None => true
     | Some c => match e_body e with custom c' _ => bool_decide (c' = c) | _ => false end
     end
  && match q_cursor q with
     | None => true
     | Some a => if bool_decide (q_order q = Some oldestFirst) then a <? e_seq e else e_seq e <? a
     end.

Definition findEntries (q : EntryQuery) (s : State) : result SessionError (list Entry) :=
  let* _ := assertValidLimit (q_limit q) in
  let* _ := assertValidCursor (q_cursor q) in
  collect (matchesEntryQuery q) (λ _, false) (q_limit q) [] None (ordered (entries s) (q_order q)).

Definition reachedBound (b : BranchBounds) (e : Entry) : bool :=
  match b_stopAtId b with Some i => bool_decide (e_id e = i) | None => false end
  || match b_stopAtType b with Some t => bool_decide (e_type e = t) | None => false end.

(** The generator [walkToRoot]: what it yields, and how it ends.  The fuel is the number of entries and one more: no
    entry is yielded twice. *)
Fixpoint walk (fuel : nat) (b : BranchBounds) (s : State) (visited : gset jsstr) (current : Entry)
    : list Entry * option SessionError :=
  match fuel with
  | O => ([], None)
  | S fuel =>
      if bool_decide (e_id current ∈ visited)
      then ([], Some (mkError invalid_entry (js "Session branch contains a cycle at " ++ e_id current)))
      else if reachedBound b current then ([current], None)
      else match e_parentId current with
           | None => ([current], None)
           | Some parentId =>
               match entriesById s !! parentId with
               | None => ([current], Some (mkError invalid_entry (js "Entry not found: " ++ parentId)))
               | Some p => prod_map (cons current) id (walk fuel b s ({[e_id current]} ∪ visited) p)
               end
           end
  end.
Definition walkToRoot (start : option jsstr) (b : BranchBounds) (s : State) : list Entry * option SessionError :=
  match start with
  | None => ([], None)
  | Some i => match entriesById s !! i with
              | None => ([], Some (mkError not_found (js "Entry not found: " ++ i)))
              | Some e => walk (S (size (entriesById s))) b s ∅ e
              end
  end.
Definition no_bounds : BranchBounds := mkBounds None None None.

Definition findEntriesOnBranch (q : EntryQuery) (b : BranchBounds) (start : jsstr) (s : State)
    : result SessionError (list Entry) :=
  let* _ := assertValidLimit (q_limit q) in
  let* _ := assertValidCursor (q_cursor q) in
  if bool_decide (q_order q = Some oldestFirst) then
    let '(path, fin) := walkToRoot (Some start) no_bounds s in
    let* _ := match fin with Some e => Err e | None => Ok () end in
    collect (matchesEntryQuery q) (reachedBound b) (q_limit q) [] None (rev path)
  else
    let '(path, fin) := walkToRoot (Some start) b s in
    collect (matchesEntryQuery q) (λ _, false) (q_limit q) [] fin path.

Definition matchesRecordQuery (q : RecordQuery) (r : LaneRecord) : bool :=
  matches (rq_lane q) (r_lane r)
  && matches (rq_type q) (record_type (r_body r))
  && match rq_runId q with
     | None => true
     | Some i => match r_body r with
                 | operation_started _ => bool_decide (r_id r = i)
                 | b => bool_decide (runId b = Some i)
                 end
     end
  && match rq_operationKind q with
     | None => true
     | Some k => match r_body r with operation_started o => bool_decide (intent_kind (os_intent o) = k) | _ => false end
     end
  && match rq_afterSeq q with None => true | Some a => a <? r_seq r end.

Definition findRecords (q : RecordQuery) (s : State) : result SessionError (list LaneRecord) :=
  let* _ := assertValidLimit (rq_limit q) in
  let* _ := assertValidCursor (rq_afterSeq q) in
  collect (matchesRecordQuery q) (λ _, false) (rq_limit q) [] None (ordered (records s) (rq_order q)).

Definition findOpenOperations (lane : jsstr) (limit : option Z) (s : State) : result SessionError (list (Rec OperationStarted)) :=
  let* _ := assertValidLimit limit in
  let open := rev (default [] (openOperationsByLane s !! lane)).*2 in
  Ok (match limit with None => open | Some l => take (Z.to_nat l) open end).

Definition getLog (afterSeq limit : option Z) (s : State) : result SessionError (list LogItem) :=
  let* _ := assertValidLimit limit in
  let* _ := assertValidCursor afterSeq in
  collect (λ i, match afterSeq with Some a => negb (log_seq i <=? a) | None => true end) (λ _, false) limit [] None (log s).

Definition getName (s : State) : option jsstr := name s.
Definition getLabel (id : jsstr) (s : State) : option jsstr := labels s !! id.
Definition getStats (s : State) : SessionStats := stats s.

(** ** Forks *)

Inductive ForkStateDisposition := copy | exclude | reconstruct.
#[export] Instance disposition_eq : EqDecision ForkStateDisposition.
Proof. solve_decision. Defined.
Inductive StateKind := kind_entry | kind_record | kind_lane | kind_fact.
Definition classifyForkState (kind : StateKind) : ForkStateDisposition :=
  match kind with kind_entry | kind_fact => copy | kind_lane => reconstruct | kind_record => exclude end.

Inductive ForkPosition := before | at_entry.
#[export] Instance position_eq : EqDecision ForkPosition.
Proof. solve_decision. Defined.
Inductive ForkOptions :=
| fork_branch (branch : jsstr) (entryId : option jsstr) (position : option ForkPosition)
| fork_tree.

Definition isOnBranch (tipId : option jsstr) (entryId : jsstr) (s : State) : result SessionError bool :=
  match tipId with
  | None => Ok false
  | Some _ =>
      let '(path, fin) := walkToRoot tipId no_bounds s in
      if existsb (λ e, bool_decide (e_id e = entryId)) path then Ok true
      else match fin with Some e => Err e | None => Ok false end
  end.

Definition oldest_first : EntryQuery := mkEntryQuery None None (Some oldestFirst) None None.

(** The entry a branch is cut at. *)
Definition fork_target (branch : jsstr) (entryId : option jsstr) (position : option ForkPosition) (s : State)
    : result SessionError (option jsstr) :=
  let* sourceTip := requireLane branch s in
  match (match entryId with Some i => Some i | None => sourceTip end) with
  | None => Ok None
  | Some selectedEntryId =>
      match getEntry selectedEntryId s with
      | Some entry =>
          if bool_decide (e_type entry = t_message) then
            let* on := isOnBranch sourceTip selectedEntryId s in
            if on then
              Ok (match default (match entryId with None => at_entry | Some _ => before end) position with
                  | at_entry => Some (e_id entry)
                  | before => e_parentId entry
                  end)
            else fail invalid_fork_target (js "Fork target is not on branch " ++ quoted branch ++ js ": " ++ selectedEntryId)
          else fail invalid_fork_target (js "Fork target is not a message entry: " ++ selectedEntryId)
      | None => fail invalid_fork_target (js "Fork target is not a message entry: " ++ selectedEntryId)
      end
  end.

Definition copiedEntries (o : ForkOptions) (s : State) : result SessionError (list Entry * list (jsstr * option jsstr)) :=
  match o with
  | fork_tree =>
      let* copied := findEntries oldest_first s in
      Ok (copied, getLanes s)
  | fork_branch branch entryId position =>
      let* _ := require (negb (bool_decide (branch = []))) invalid_fork_target
                  (js "Fork requires an explicit non-empty source branch") in
      let* targetId := fork_target branch entryId position s in
      let* copied := match targetId with None => Ok [] | Some i => findEntriesOnBranch oldest_first no_bounds i s end in
      Ok (copied, [(branch, targetId)])
  end.

(** The mutations, numbered from one in the order they are pushed. *)
Definition with_seq (m : Z → SessionMutation) (acc : Z * list SessionMutation) : Z * list SessionMutation :=
  (acc.1 + 1, acc.2 ++ [m acc.1]).
Definition renumber (q : Z) (e : Entry) : Entry := mkEntry (e_id e) q (e_parentId e) (e_timestamp e) (e_body e).

Definition createForkMutations (o : ForkOptions) (s : State) : result SessionError (list SessionMutation) :=
  let* (copied, forkLanes) := copiedEntries o s in
  let acc := (1, []) in
  let acc := if bool_decide (classifyForkState kind_entry = copy)
             then foldl (λ acc e, with_seq (λ q, mut_entry None (renumber q e)) acc) acc copied else acc in
  let acc := if bool_decide (classifyForkState kind_lane = reconstruct)
             then foldl (λ acc p, with_seq (λ q, mut_lane q p.1 p.2) acc) acc forkLanes else acc in
  let acc := match name s with
             | Some n => if bool_decide (classifyForkState kind_fact = copy)
                         then with_seq (λ q, mut_name q (Some n)) acc else acc
             | None => acc
             end in
  let acc := foldl (λ acc e, match labels s !! e_id e with
                             | Some l => with_seq (λ q, mut_label q (e_id e) (Some l)) acc
                             | None => acc
                             end) acc copied in
  Ok acc.2.

Definition fork (o : ForkOptions) (s : State) : result SessionError State :=
  let* mutations := createForkMutations o s in
  foldM (λ s m, applyMutation m s) (newState []) mutations.

End SessionState.

(** ** The storage in memory *)
Module Storage.
Import AgentData SessionState.

(** A method of the storage: it fails before it changes anything, or is one mutation. *)
Notation M := (stres State SessionError).
Definition check {A} (f : State → result SessionError A) : M A := λ s, (s, f s).
Definition apply (m : State → SessionMutation) : M () := λ s,
  match applyMutation (m s) s with Ok s' => (s', Ok ()) | Err e => (s, Err e) end.

Definition createLane (lane : jsstr) (at_ : option jsstr) : M () :=
  check (validateNewLane lane);; check (validateTarget at_);; apply (λ s, mut_lane (nextSequence s) lane at_).
Definition moveLane (lane : jsstr) (to : option jsstr) : M () :=
  _ ← check (requireLane lane); check (validateTarget to);; apply (λ s, mut_lane (nextSequence s) lane to).

Definition appendEntry (now : Z) (newEntry : ProvisionedEntry) (lane : jsstr) : M Entry :=
  parentId ← check (requireLane lane);
  check (validateUnusedId (p_id newEntry));;
  s ← get;
  let entry := mkEntry (p_id newEntry) (nextSequence s) parentId now (p_body newEntry) in
  apply (λ _, mut_entry (Some lane) entry);;
  mret entry.

Definition appendRecord (now : Z) (n : NewRecord RecordBody) : M LaneRecord :=
  _ ← check (requireLane (n_lane n));
  check (validateUnusedId (n_id n));;
  current ← check (findOpenOperations (n_lane n) (Some 1));
  match current, n_body n with
  | c :: _, operation_started _ =>
      throw (mkError storage (js "Lane " ++ n_lane n ++ js " already has an open operation " ++ r_id c))
  | _, _ =>
      s ← get;
      let record := mkRec (n_id n) (nextSequence s) (n_lane n) now (n_body n) in
      apply (λ _, mut_record record);;
      mret record
  end.

Definition setName (n : option jsstr) : M () := apply (λ s, mut_name (nextSequence s) n).
Definition setLabel (id : jsstr) (label : option jsstr) : M () :=
  check (validateTarget (Some id));; apply (λ s, mut_label (nextSequence s) id label).

End Storage.

(** * The session log is a forest with unique ids

    The invariant of every state that [applyMutation] builds, whatever mutations it is
    given (they come from the storage, from a fork or from a file), and what it gives the
    queries: a walk to the root ends and never meets an error, and a query for a branch
    returns the path that the parents describe. *)

Module SessionStateProps.
Import AgentData SessionState.

(** ** The invariant *)

Definition entry_ids (s : State) : list jsstr := e_id <$> entries s.
Definition record_ids (s : State) : list jsstr := r_id <$> records s.

Record wf (s : State) : Prop := {
  wf_sequence : 0 <= sequence s;
  wf_log : log_seq <$> log s = seqZ 1 (sequence s);
  wf_used : ∀ i, i ∈ usedIds s ↔ i ∈ entry_ids s ∨ i ∈ record_ids s;
  wf_entry_ids : NoDup (entry_ids s);
  wf_record_ids : NoDup (record_ids s);
  wf_disjoint : ∀ i, i ∈ entry_ids s → i ∉ record_ids s;
  wf_byId : ∀ i e, entriesById s !! i = Some e ↔ e ∈ entries s ∧ e_id e = i;
  wf_parents : ∀ k e p, entries s !! k = Some e → e_parentId e = Some p → p ∈ take k (entry_ids s);
  wf_entry_seqs : StronglySorted Z.lt (e_seq <$> entries s) ∧ Forall (λ q, 0 < q <= sequence s) (e_seq <$> entries s);
  wf_record_seqs : StronglySorted Z.lt (r_seq <$> records s) ∧ Forall (λ q, 0 < q <= sequence s) (r_seq <$> records s);
  wf_lanes : NoDup (lanes s).*1 ∧ Forall (λ p, known p.2 s = true) (lanes s);
  wf_labels : ∀ i, is_Some (labels s !! i) → hasEntry i s = true }.

Inductive reachable (initialLanes : list jsstr) : State → Prop :=
| reach_new : reachable initialLanes (newState initialLanes)
| reach_mutation s m s' : reachable initialLanes s → applyMutation m s = Ok s' → reachable initialLanes s'.

(** ** Elementary facts *)

Lemma valid_Ok b m u : valid b m = Ok u ↔ b = true.
Proof. destruct b, u; split; done. Qed.
Lemma require_Ok b c m u : require b c m = Ok u ↔ b = true.
Proof. destruct b, u; split; done. Qed.

Lemma hasEntry_ids s i : wf s → hasEntry i s = true ↔ i ∈ entry_ids s.
Proof.
  intros W. unfold hasEntry, entry_ids. rewrite bool_decide_eq_true, list_elem_of_fmap. split.
  - intros [e He]. apply (wf_byId _ W) in He as [He <-]. eauto.
  - intros (e & -> & He). exists e. by apply (wf_byId _ W).
Qed.
Lemma known_ids s t : wf s → known t s = true ↔ match t with None => True | Some i => i ∈ entry_ids s end.
Proof. intros W. destruct t; cbn; [by apply hasEntry_ids | done]. Qed.

Lemma sorted_snoc (l : list Z) q : StronglySorted Z.lt l → Forall (λ x, 0 < x < q) l → StronglySorted Z.lt (l ++ [q]).
Proof.
  induction 1 as [|x l Hs IH Hx]; intros Hq; cbn; [repeat constructor|].
  apply Forall_cons in Hq as [? ?]. constructor; [by apply IH|]. apply Forall_app. split; [done|]. repeat constructor. lia.
Qed.
Lemma seqs_snoc (l : list Z) q :
  StronglySorted Z.lt l ∧ Forall (λ x, 0 < x <= q) l → 0 <= q →
  StronglySorted Z.lt (l ++ [q + 1]) ∧ Forall (λ x, 0 < x <= q + 1) (l ++ [q + 1]).
Proof.
  intros [Hs Hq] ?. split.
  - apply sorted_snoc; [done|]. eapply Forall_impl; [exact Hq|]. cbn. lia.
  - apply Forall_app. split; [eapply Forall_impl; [exact Hq|]; cbn; lia | repeat constructor; lia].
Qed.
Lemma seqs_mono (l : list Z) q q' :
  StronglySorted Z.lt l ∧ Forall (λ x, 0 < x <= q) l → q <= q' → StronglySorted Z.lt l ∧ Forall (λ x, 0 < x <= q') l.
Proof. intros [Hs Hq] ?. split; [done|]. eapply Forall_impl; [exact Hq|]. cbn. lia. Qed.

(** The new sequence number extends the log. *)
Lemma log_snoc s i : log_seq <$> log s = seqZ 1 (sequence s) → 0 <= sequence s → log_seq i = sequence s + 1 →
  log_seq <$> log s ++ [i] = seqZ 1 (sequence s + 1).
Proof.
  intros E H Hi. rewrite fmap_app, E, seqZ_app by lia. f_equal. cbn. rewrite Hi, seqZ_cons, seqZ_nil by lia. f_equal. lia.
Qed.

(** What a mutation leaves alone. *)
Lemma hasEntry_eq s s' i : entriesById s' = entriesById s → hasEntry i s' = hasEntry i s.
Proof. unfold hasEntry. by intros ->. Qed.
Lemma known_eq s s' t : entriesById s' = entriesById s → known t s' = known t s.
Proof. intros E. destruct t; [by apply hasEntry_eq | done]. Qed.

Lemma lanes_mset l t (m : list (jsstr * option jsstr)) s :
  NoDup m.*1 ∧ Forall (λ p, known p.2 s = true) m → known t s = true →
  NoDup (mset l t m).*1 ∧ Forall (λ p, known p.2 s = true) (mset l t m).
Proof.
  intros [Hn Hf] Ht. split; [by apply NoDup_mset|]. apply Forall_forall. intros p Hp.
  apply elem_mset in Hp as [-> | Hp]; [done|]. by eapply Forall_forall in Hf.
Qed.

Section Keep.
Context (s : State) (W : wf s).

Lemma wf_lane seq l t : known t s = true → seq = sequence s + 1 →
  wf (add_log (log_lane seq l t) (s <| sequence := seq |> <| lanes := mset l t (lanes s) |>)).
Proof.
  intros Ht ->. destruct W. pose proof (lanes_mset l t (lanes s) s wf_lanes0 Ht).
  constructor; unfold entry_ids, record_ids, hasEntry; unfold add_log, update_with; cbn; try done; try lia.
  - by apply log_snoc.
  - eapply seqs_mono; [done | lia].
  - eapply seqs_mono; [done | lia].
Qed.

Lemma wf_name seq n : seq = sequence s + 1 → wf (add_log (log_name seq n) (s <| sequence := seq |> <| name := n |>)).
Proof.
  intros ->. destruct W.
  constructor; unfold entry_ids, record_ids, hasEntry; unfold add_log, update_with; cbn; try done; try lia.
  - by apply log_snoc.
  - eapply seqs_mono; [done | lia].
  - eapply seqs_mono; [done | lia].
Qed.

Lemma wf_label seq i l lbls : seq = sequence s + 1 → (∀ j, is_Some (lbls !! j) → hasEntry j s = true) →
  wf (add_log (log_label seq i l) (s <| sequence := seq |> <| labels := lbls |>)).
Proof.
  intros -> Hl. destruct W.
  constructor; unfold entry_ids, record_ids, hasEntry; unfold add_log, update_with; cbn; try done; try lia.
  - by apply log_snoc.
  - eapply seqs_mono; [done | lia].
  - eapply seqs_mono; [done | lia].
Qed.

(** An entry is pushed; the lanes move to known entries and the statistics are free. *)
Lemma wf_push_entry s' e :
  e_seq e = sequence s + 1 → e_id e ∉ usedIds s → known (e_parentId e) s = true →
  sequence s' = e_seq e → usedIds s' = {[e_id e]} ∪ usedIds s → entries s' = entries s ++ [e] →
  entriesById s' = <[e_id e := e]> (entriesById s) → records s' = records s → labels s' = labels s →
  (∃ i, log s' = log s ++ [i] ∧ log_seq i = e_seq e) →
  (lanes s' = lanes s ∨ ∃ l, lanes s' = mset l (Some (e_id e)) (lanes s)) → wf s'.
Proof.
  intros Hq Hu Hk E1 E2 E3 E4 E5 E6 (i & E7 & Hi) E8.
  assert (Hnew : e_id e ∉ entry_ids s ∧ e_id e ∉ record_ids s).
  { rewrite (wf_used _ W) in Hu. tauto. }
  assert (Hids : entry_ids s' = entry_ids s ++ [e_id e]) by (unfold entry_ids; by rewrite E3, fmap_app).
  assert (Hrids : record_ids s' = record_ids s) by (unfold record_ids; by rewrite E5).
  assert (Hhas : ∀ j, hasEntry j s = true → hasEntry j s' = true).
  { intros j. unfold hasEntry. rewrite !bool_decide_eq_true, E4, lookup_insert_is_Some'. tauto. }
  assert (Hme : hasEntry (e_id e) s' = true).
  { unfold hasEntry. rewrite bool_decide_eq_true, E4, lookup_insert_is_Some'. tauto. }
  pose proof (known_ids _ (e_parentId e) W) as Hpar.
  destruct W as [W0 W1 W2 W3 W4 W5 W6 W7 W8 W9 [W10 W11] W12]. destruct Hnew as [Hn1 Hn2].
  constructor; rewrite ?E1, ?E5, ?E6, ?Hids, ?Hrids, ?Hq.
  - lia.
  - rewrite E7. apply log_snoc; [done..|]. by rewrite Hi, Hq.
  - intros j. rewrite E2, elem_of_union, elem_of_singleton, elem_of_app, list_elem_of_singleton, W2. tauto.
  - apply NoDup_app. split_and!; [done | | apply NoDup_singleton]. intros j Hj ->%list_elem_of_singleton. done.
  - done.
  - intros j [Hj | ->%list_elem_of_singleton]%elem_of_app; [by apply W5 | done].
  - intros j x. rewrite E4, E3, lookup_insert_Some, elem_of_app, list_elem_of_singleton, W6. split.
    + intros [[<- <-] | (Hne & Hx & Hj)]; tauto.
    + intros [[Hx | ->] <-]; [right | by left]. split_and!; [|done..]. intros Heq. apply Hn1. rewrite Heq.
      unfold entry_ids. apply list_elem_of_fmap. eauto.
  - intros k x p' Hx Hp'. rewrite E3 in Hx. apply lookup_snoc_Some in Hx as [[Hlt Hx] | [-> <-]].
    + rewrite take_app_le by (unfold entry_ids; rewrite length_fmap; lia). by eapply W7.
    + pose proof (length_fmap e_id (entries s)) as Hlen. fold (entry_ids s) in Hlen. rewrite take_app_length' by lia. rewrite Hp' in Hpar, Hk. by apply Hpar.
  - rewrite E3, fmap_app. cbn. rewrite Hq. by apply seqs_snoc.
  - eapply seqs_mono; [done | lia].
  - assert (Hall : Forall (λ p, known p.2 s' = true) (lanes s)).
    { eapply Forall_impl; [exact W11|]. intros [l [j|]]; cbn; [apply Hhas | done]. }
    destruct E8 as [-> | [l ->]]; [done|]. by apply lanes_mset.
  - auto.
Qed.

Lemma wf_push_record s' r :
  r_seq r = sequence s + 1 → r_id r ∉ usedIds s → sequence s' = r_seq r → usedIds s' = {[r_id r]} ∪ usedIds s →
  records s' = records s ++ [r] → entries s' = entries s → entriesById s' = entriesById s → lanes s' = lanes s →
  labels s' = labels s → (∃ i, log s' = log s ++ [i] ∧ log_seq i = r_seq r) → wf s'.
Proof.
  intros Hq Hu E1 E2 E3 E4 E5 E6 E7 (i & E8 & Hi).
  assert (Hnew : r_id r ∉ entry_ids s ∧ r_id r ∉ record_ids s).
  { rewrite (wf_used _ W) in Hu. tauto. }
  assert (Hids : entry_ids s' = entry_ids s) by (unfold entry_ids; by rewrite E4).
  assert (Hrids : record_ids s' = record_ids s ++ [r_id r]) by (unfold record_ids; by rewrite E3, fmap_app).
  destruct W as [W0 W1 W2 W3 W4 W5 W6 W7 W8 W9 [W10 W11] W12]. destruct Hnew as [Hn1 Hn2].
  constructor; rewrite ?E1, ?E4, ?E6, ?E7, ?Hids, ?Hrids, ?Hq; try done.
  - lia.
  - rewrite E8. apply log_snoc; [done..|]. by rewrite Hi, Hq.
  - intros j. rewrite E2, elem_of_union, elem_of_singleton, elem_of_app, list_elem_of_singleton, W2. tauto.
  - apply NoDup_app. split_and!; [done | | apply NoDup_singleton]. intros j Hj ->%list_elem_of_singleton. done.
  - intros j Hj [Hr | ->%list_elem_of_singleton]%elem_of_app; [by eapply W5 | done].
  - intros j x. rewrite E5. apply W6.
  - eapply seqs_mono; [done | lia].
  - rewrite E3, fmap_app. cbn. rewrite Hq. by apply seqs_snoc.
  - split; [done|]. eapply Forall_impl; [exact W11|]. intros p. by rewrite (known_eq s s').
  - intros j Hj. rewrite (hasEntry_eq s s') by done. auto.
Qed.

End Keep.

(** ** Every mutation keeps it *)

Lemma apply_entry_wf lane e s s' : wf s → e_seq e = sequence s + 1 → apply_entry lane e s = Ok s' → wf s'.
Proof.
  intros W Hq H. unfold apply_entry in H. apply rbind_Ok in H as (u1 & H1 & H). apply rbind_Ok in H as (u2 & _ & H).
  apply rbind_Ok in H as (u3 & H3 & H). apply valid_Ok in H1, H3. bool_prop. injection H as <-.
  apply (wf_push_entry s W _ e); try done; destruct lane, (bool_decide (e_type e = t_message)); cbn; eauto.
Qed.

Lemma track_operation_rest r s : let s' := track_operation r s in
  sequence s' = sequence s ∧ usedIds s' = usedIds s ∧ entries s' = entries s ∧ entriesById s' = entriesById s ∧
  records s' = records s ∧ lanes s' = lanes s ∧ log s' = log s ∧ labels s' = labels s ∧ name s' = name s ∧ stats s' = stats s.
Proof. unfold track_operation. repeat case_match; done. Qed.

Lemma apply_record_wf r s s' : wf s → r_seq r = sequence s + 1 → apply_record r s = Ok s' → wf s'.
Proof.
  intros W Hq H. unfold apply_record in H. apply rbind_Ok in H as (u1 & _ & H). apply rbind_Ok in H as (u2 & H2 & H).
  apply valid_Ok in H2. bool_prop. cbv zeta in H. set (s1 := s <| _ := _ |> <| _ := _ |> <| _ := _ |>) in H.
  destruct (track_operation_rest r s1) as (T1 & T2 & T3 & T4 & T5 & T6 & T7 & T8 & _).
  apply (f_equal (λ x, match x with Ok y => y | Err _ => s end)) in H. cbv beta iota in H.
  apply (wf_push_record s W _ r); try done; rewrite <- H; clear H; destruct (r_body r); cbn;
    rewrite ?T1, ?T2, ?T3, ?T4, ?T5, ?T6, ?T7, ?T8; eauto.
Qed.

Lemma apply_mutation_wf m s s' : wf s → applyMutation m s = Ok s' → wf s'.
Proof.
  intros W H. unfold applyMutation in H. apply rbind_Ok in H as (u & Hq & H). apply valid_Ok, Z.eqb_eq in Hq.
  destruct m as [lane e | r | q l t | q n | q i l]; cbn in Hq.
  - by eapply apply_entry_wf.
  - by eapply apply_record_wf.
  - apply rbind_Ok in H as (u2 & H2 & H). apply valid_Ok in H2. injection H as <-. by apply wf_lane.
  - injection H as <-. by apply wf_name.
  - apply rbind_Ok in H as (u2 & H2 & H). apply valid_Ok in H2. injection H as <-. apply wf_label; [done..|].
    intros j. destruct l; rewrite ?lookup_insert_is_Some', ?lookup_delete_is_Some.
    + intros [<- | Hj]; [done | by apply W].
    + intros [_ Hj]. by apply W.
Qed.

Lemma new_wf l : wf (newState l).
Proof.
  assert (Hk : ∀ (L : list jsstr) m, NoDup m.*1 ∧ Forall (λ p : jsstr * option jsstr, p.2 = None) m →
    let m' := foldl (λ m kv, mset kv.1 kv.2 m) m ((λ x, (x, None)) <$> L) in
    NoDup m'.*1 ∧ Forall (λ p : jsstr * option jsstr, p.2 = None) m').
  { intros L. induction L as [|x L IH]; intros m [Hn Hf]; [done|]. cbn. apply IH. split; [by apply NoDup_mset|].
    apply Forall_forall. intros p [-> | Hp]%elem_mset; [done|]. by eapply Forall_forall in Hf. }
  specialize (Hk l []). cbv zeta in Hk. destruct Hk as [Hn Hf]; [by split; constructor|].
  constructor; unfold entry_ids, record_ids; cbn; try by repeat constructor.
  - intros i. set_solver.
  - by intros i ?%elem_of_nil.
  - intros i e. rewrite lookup_empty. split; [done|]. by intros [?%elem_of_nil _].
  - split; [exact Hn|]. eapply Forall_impl; [exact Hf|]. by intros [? ?]; cbn; intros ->.
  - intros i [x Hx]. by rewrite lookup_empty in Hx.
Qed.

Lemma session_reachable_wf l s : reachable l s → wf s.
Proof. induction 1; [apply new_wf | by eapply apply_mutation_wf]. Qed.

End SessionStateProps.
