(* ===== verification/SessionQueries.v ===== *)
(** * Branches and forks

    On the states of [SessionState]: the walk to the root yields the path that the
    parents describe and ends; a branch query returns the part of it that the bounds, the
    filters and the limit select; a fork never fails and copies exactly the entries of its
    scope, with their labels and the name, and no record. *)
From S2P Require Import Prelude JsMap JsString Json AgentData SessionState.

Module SessionQueries.
Import AgentData SessionState SessionStateProps.

(** ** The path to the root *)

Inductive path_to_root (s : State) : Entry → list Entry → Prop :=
| path_root e : e_parentId e = None → path_to_root s e [e]
| path_parent e i p l : e_parentId e = Some i → entriesById s !! i = Some p → path_to_root s p l → path_to_root s e (e :: l).

(** A list up to its first bound, inclusive. *)
Fixpoint cut {A} (stop : A → bool) (l : list A) : list A :=
  match l with [] => [] | x :: l => if stop x then [x] else x :: cut stop l end.
Definition upTo {A} (limit : option Z) (l : list A) : list A :=
  match limit with Some n => take (Z.to_nat n) l | None => l end.

(** What a branch query selects, in the order it is asked for. *)
Definition select (q : EntryQuery) (b : BranchBounds) (path : list Entry) : list Entry :=
  upTo (q_limit q) (filter (λ e, matchesEntryQuery q e = true)
    (cut (reachedBound b) (if bool_decide (q_order q = Some oldestFirst) then rev path else path))).

Lemma path_unique s e l1 l2 : path_to_root s e l1 → path_to_root s e l2 → l1 = l2.
Proof.
  intros H. revert l2. induction H as [e He | e i p l He Hp Hl IH]; intros l2 H2; inversion H2; subst; try congruence.
  f_equal. apply IH. congruence.
Qed.

Section Walk.
Context (s : State) (W : wf s).

(** The position of an entry bounds the length of its path. *)
Lemma parent_before k e i : entries s !! k = Some e → e_parentId e = Some i →
  ∃ j p, (j < k)%nat ∧ entries s !! j = Some p ∧ e_id p = i ∧ entriesById s !! i = Some p.
Proof.
  intros Hk Hi. pose proof (wf_parents _ W _ _ _ Hk Hi) as Hin. apply list_elem_of_lookup in Hin as [j Hj].
  apply lookup_take_Some in Hj as [Hj Hjk]. unfold entry_ids in Hj. apply list_lookup_fmap_Some in Hj as (p & -> & Hp).
  exists j, p. split_and!; [done..|]. apply (wf_byId _ W). split; [by eapply list_elem_of_lookup_2|done].
Qed.

Lemma same_position k j e f : entries s !! k = Some e → entries s !! j = Some f → e_id e = e_id f → k = j.
Proof.
  intros Hk Hj Hid. apply (NoDup_lookup (entry_ids s) k j (e_id e)); [apply W|..]; unfold entry_ids; rewrite list_lookup_fmap.
  - by rewrite Hk.
  - rewrite Hj. cbn. by rewrite Hid.
Qed.

Lemma path_exists k e : entries s !! k = Some e → ∃ l, path_to_root s e l ∧ (length l <= S k)%nat.
Proof.
  revert e. induction (lt_wf k) as [k _ IH]; intros e Hk. destruct (e_parentId e) as [i|] eqn:Hi.
  - destruct (parent_before _ _ _ Hk Hi) as (j & p & Hjk & Hj & _ & Hp). destruct (IH j Hjk p Hj) as (l & Hl & Hlen).
    exists (e :: l). split; [by eapply path_parent | cbn; lia].
  - exists [e]. split; [by constructor | cbn; lia].
Qed.

Lemma walk_path b fuel : ∀ k e visited l,
  entries s !! k = Some e → (k < fuel)%nat → (∀ j f, entries s !! j = Some f → e_id f ∈ visited → (k < j)%nat) →
  path_to_root s e l → walk fuel b s visited e = (cut (reachedBound b) l, None).
Proof.
  induction fuel as [|fuel IH]; intros k e visited l Hk Hf Hv Hl; [lia|]. cbn [walk].
  rewrite bool_decide_eq_false_2 by (intros Hin; specialize (Hv _ _ Hk Hin); lia).
  inversion Hl as [? He | ? i p l' He Hp Hl']; subst.
  - rewrite He. cbn. by destruct (reachedBound b e).
  - rewrite He, Hp. cbn [cut]. destruct (reachedBound b e); [done|].
    destruct (parent_before _ _ _ Hk He) as (j & p' & Hjk & Hj & _ & Hp'). assert (p' = p) as -> by congruence.
    erewrite (IH j); [done | done | lia | | done].
    intros j' f Hj' [Hin | Hin]%elem_of_union; [|specialize (Hv _ _ Hj' Hin); lia].
    apply elem_of_singleton in Hin. rewrite (same_position j' k f e); [lia | done..].
Qed.

Lemma entry_position i e : entriesById s !! i = Some e → ∃ k, entries s !! k = Some e ∧ (k < size (entriesById s))%nat.
Proof.
  intros He. apply (wf_byId _ W) in He as [He _]. apply list_elem_of_lookup in He as [k Hk]. exists k. split; [done|].
  assert (Hsize : size (entriesById s) = length (entries s)).
  { assert (entriesById s = list_to_map ((λ e, (e_id e, e)) <$> entries s)) as ->.
    - apply map_eq. intros j. apply option_eq. intros x. rewrite (wf_byId _ W).
      rewrite <- elem_of_list_to_map.
      + rewrite list_elem_of_fmap. split; [intros [? <-]; eauto | intros (y & [= -> ->] & ?); done].
      + rewrite <- list_fmap_compose. apply W.
    - rewrite map_size_list_to_map; [by rewrite length_fmap|]. rewrite <- list_fmap_compose. apply W. }
  rewrite Hsize. by eapply lookup_lt_Some.
Qed.

Lemma walkToRoot_path b i e l : entriesById s !! i = Some e → path_to_root s e l →
  walkToRoot (Some i) b s = (cut (reachedBound b) l, None).
Proof.
  intros He Hl. unfold walkToRoot. rewrite He. destruct (entry_position _ _ He) as (k & Hk & Hlt). apply (walk_path b _ k); [done | lia | | done].
  intros j f _ Hin. by apply not_elem_of_empty in Hin.
Qed.

End Walk.

(** ** The loop of the queries *)

Lemma cut_false {A} (l : list A) : cut (λ _, false) l = l.
Proof. induction l; cbn; congruence. Qed.

Lemma collect_spec {A} (keep stop : A → bool) limit (items results : list A) :
  match limit with Some n => zlen results < n | None => True end →
  collect keep stop limit results None items
  = Ok (results ++ upTo (match limit with Some n => Some (n - zlen results) | None => None end)
                     (filter (λ x, keep x = true) (cut stop items))).
Proof.
  revert results. induction items as [|x items IH]; intros results Hl; cbn [collect cut].
  - destruct limit; cbn; by rewrite ?take_nil, app_nil_r.
  - assert (Hkeep : ∀ L, filter (λ y, keep y = true) (x :: L) = (if keep x then [x] else []) ++ filter (λ y, keep y = true) L).
    { intros L. rewrite filter_cons. by destruct (keep x); cbn. }
    set (res := if keep x then results ++ [x] else results).
    assert (Hres : zlen res <= zlen results + 1 ∧ results ++ (if keep x then [x] else []) = res).
    { unfold res. destruct (keep x); [autorewrite with js|]; rewrite ?app_nil_r; split; try done; lia. }
    destruct Hres as [Hlen Happ]. destruct (stop x) eqn:Es; cbn [orb].
    + rewrite Hkeep. cbn. rewrite app_nil_r. f_equal. rewrite <- Happ. f_equal. destruct limit as [n|]; [|done]. cbn.
      rewrite take_ge; [done|]. destruct (keep x); cbn; lia.
    + case_bool_decide as Ed.
      * subst limit. f_equal. rewrite Hkeep. unfold res in *. destruct (keep x) eqn:Ek; [|cbn in Hl; lia].
        cbn. f_equal. autorewrite with js. replace (zlen results + (1 + 0) - zlen results) with 1 by lia. done.
      * assert (Hz : match limit with Some n => zlen res < n | None => True end) by (destruct limit; [|done]; assert (zlen res ≠ z) by congruence; lia).
        rewrite IH by exact Hz. f_equal. rewrite Hkeep, <- Happ, <- (app_assoc results). f_equal.
        destruct limit as [n|]; [|done]. unfold res in Hz. cbn. rewrite take_app. destruct (keep x); autorewrite with js in *; cbn.
        -- rewrite (take_ge [x]) by (cbn; lia). cbn. do 2 f_equal. lia.
        -- rewrite take_nil. cbn. do 2 f_equal. lia.
Qed.

Lemma collect_from_nothing {A} (keep stop : A → bool) limit (items : list A) u :
  assertValidLimit limit = Ok u →
  collect keep stop limit [] None items = Ok (upTo limit (filter (λ x, keep x = true) (cut stop items))).
Proof.
  intros Hv%require_Ok. rewrite collect_spec.
  - cbn. destruct limit; [|done]. by rewrite Z.sub_0_r.
  - destruct limit; [|done]. unfold zlen. cbn. lia.
Qed.

Definition valid_query (q : EntryQuery) : Prop := assertValidLimit (q_limit q) = Ok () ∧ assertValidCursor (q_cursor q) = Ok ().

Lemma find_on_branch s q b i e path : wf s → valid_query q → entriesById s !! i = Some e → path_to_root s e path →
  findEntriesOnBranch q b i s = Ok (select q b path).
Proof.
  intros W [Hl Hc] He Hp. unfold findEntriesOnBranch, select. rewrite Hl, Hc. cbn [rbind].
  case_bool_decide as Ho; rewrite (walkToRoot_path s W _ i e path He Hp).
  - cbn [rbind]. assert (Hcut : cut (reachedBound no_bounds) path = path).
    { clear. induction path as [|x l IH]; [done|]. cbn in *. by rewrite IH. }
    rewrite Hcut. by erewrite collect_from_nothing.
  - erewrite collect_from_nothing by done. by rewrite cut_false.
Qed.

Lemma find_all s q : valid_query q →
  findEntries q s = Ok (upTo (q_limit q) (filter (λ e, matchesEntryQuery q e = true) (ordered (entries s) (q_order q)))).
Proof.
  intros [Hl Hc]. unfold findEntries. rewrite Hl, Hc. cbn [rbind]. erewrite collect_from_nothing by done. by rewrite cut_false.
Qed.

Lemma find_records s q : assertValidLimit (rq_limit q) = Ok () → assertValidCursor (rq_afterSeq q) = Ok () →
  findRecords q s = Ok (upTo (rq_limit q) (filter (λ r, matchesRecordQuery q r = true) (ordered (records s) (rq_order q)))).
Proof.
  intros Hl Hc. unfold findRecords. rewrite Hl, Hc. cbn [rbind]. erewrite collect_from_nothing by done. by rewrite cut_false.
Qed.

Lemma wf_path s i e : wf s → entriesById s !! i = Some e → ∃ path, path_to_root s e path.
Proof. intros W He. destruct (entry_position s W _ _ He) as (k & Hk & _). destruct (path_exists s W k e Hk) as (l & Hl & _). eauto. Qed.

(** ** Forks *)

(** The mutations of one phase of a fork, numbered from [q]. *)
Definition numbered {A} (f : A → Z → SessionMutation) (q : Z) (l : list A) : list SessionMutation :=
  imap (λ i x, f x (q + Z.of_nat i)) l.

Lemma foldl_with_seq {A} (f : A → Z → SessionMutation) (l : list A) q acc :
  foldl (λ a x, with_seq (f x) a) (q, acc) l = (q + zlen l, acc ++ numbered f q l).
Proof.
  revert q acc. induction l as [|x l IH]; intros q acc; cbn.
  - unfold zlen. by rewrite app_nil_r, Z.add_0_r.
  - change (with_seq (f x) (q, acc)) with (q + 1, acc ++ [f x q]). rewrite IH. autorewrite with js. unfold numbered. cbn. f_equal; [lia|]. rewrite <- app_assoc. cbn. do 2 f_equal.
    + f_equal. lia.
    + apply imap_ext. intros i y _. cbn. f_equal. lia.
Qed.

Lemma foldl_with_seq_some {A} (f : A → option (Z → SessionMutation)) (l : list A) acc :
  foldl (λ a x, match f x with Some g => with_seq g a | None => a end) acc l
  = foldl (λ a g, with_seq g a) acc (omap f l).
Proof. revert acc. induction l as [|x l IH]; intros acc; cbn; [done|]. rewrite IH. by destruct (f x). Qed.

(** Every fork is these mutations. *)
Definition fork_mutations (copied : list Entry) (forkLanes : list (jsstr * option jsstr)) (s : State) : list SessionMutation :=
  let n := zlen copied in
  let m := n + zlen forkLanes in
  numbered (λ e q, mut_entry None (renumber q e)) 1 copied
  ++ numbered (λ p q, mut_lane q p.1 p.2) (1 + n) forkLanes
  ++ match name s with Some nm => [mut_name (1 + m) (Some nm)] | None => [] end
  ++ numbered (λ g q, g q) (1 + m + match name s with Some _ => 1 | None => 0 end)
       (omap (λ e, (λ l q, mut_label q (e_id e) (Some l)) <$> labels s !! e_id e) copied).

Lemma createForkMutations_eq o s copied forkLanes : copiedEntries o s = Ok (copied, forkLanes) →
  createForkMutations o s = Ok (fork_mutations copied forkLanes s).
Proof.
  intros E. unfold createForkMutations. rewrite E. cbn [rbind]. f_equal.
  rewrite !bool_decide_eq_true_2 by done. rewrite !foldl_with_seq.
  assert (Hl : ∀ acc, foldl (λ acc e, match labels s !! e_id e with
                                | Some l => with_seq (λ q, mut_label q (e_id e) (Some l)) acc
                                | None => acc end) acc copied
             = foldl (λ a g, with_seq g a) acc (omap (λ e, (λ l q, mut_label q (e_id e) (Some l)) <$> labels s !! e_id e) copied)).
  { intros acc. rewrite <- foldl_with_seq_some. clear. revert acc. induction copied as [|e l IH]; intros acc; cbn; [done|].
    rewrite IH. by destruct (labels s !! e_id e). }
  rewrite Hl. unfold fork_mutations. destruct (name s) as [nm|]; unfold with_seq; cbn [fst snd].
  - rewrite (foldl_with_seq (λ g q, g q)). cbn [snd]. rewrite <- !app_assoc. cbn. do 3 f_equal; [f_equal; lia|]. f_equal. lia.
  - rewrite (foldl_with_seq (λ g q, g q)). cbn [snd]. rewrite <- !app_assoc. cbn. do 3 f_equal. lia.
Qed.

(** A list of entries that can be copied in order: every parent comes before its children. *)
Definition closed (es : list Entry) : Prop :=
  NoDup (e_id <$> es) ∧ ∀ k e p, es !! k = Some e → e_parentId e = Some p → p ∈ take k (e_id <$> es).

Lemma entries_closed s : wf s → closed (entries s).
Proof. intros W. split; [apply W | apply (wf_parents _ W)]. Qed.

Lemma path_positions s e l k : wf s → path_to_root s e l → entries s !! k = Some e →
  ∀ f, f ∈ l → ∃ j, (j <= k)%nat ∧ entries s !! j = Some f.
Proof.
  intros W H. revert k. induction H as [e He | e i p l He Hp Hl IH]; intros k Hk f Hf.
  - apply list_elem_of_singleton in Hf as ->. eauto.
  - apply elem_of_cons in Hf as [-> | Hf]; [eauto|]. destruct (parent_before s W _ _ _ Hk He) as (j & p' & Hjk & Hj & _ & Hp').
    assert (p' = p) as -> by congruence. destruct (IH j Hj f Hf) as (j' & ? & ?). exists j'. split; [lia | done].
Qed.

Lemma path_closed s e l : wf s → path_to_root s e l → (∃ k, entries s !! k = Some e) →
  closed (rev l) ∧ Forall (λ f, f ∈ entries s) l ∧ ∃ l', l = e :: l'.
Proof.
  intros W H. induction H as [e He | e i p l He Hp Hl IH]; intros [k Hk].
  - split_and!; [|repeat constructor; by eapply list_elem_of_lookup_2 | eauto]. split; [apply NoDup_singleton|].
    intros [|j] f q; cbn; [intros [= <-]; congruence | done].
  - destruct (parent_before s W _ _ _ Hk He) as (j & p' & Hjk & Hj & Hid & Hp'). assert (p' = p) as -> by congruence.
    destruct IH as ([Hn Hc] & Hin & l' & Hl'); [eauto|].
    split_and!; [|constructor; [by eapply list_elem_of_lookup_2 | done] | eauto]. cbn [rev]. split.
    + rewrite fmap_app. apply NoDup_app. split_and!; [done | | apply NoDup_singleton]. cbn. intros x Hx ->%list_elem_of_singleton.
      apply list_elem_of_fmap in Hx as (f & Hf & Hfl). rewrite list_elem_of_In, <- in_rev, <- list_elem_of_In in Hfl.
      destruct (path_positions s p l j W Hl Hj f Hfl) as (j' & Hle & Hj').
      pose proof (same_position s W j' k f e Hj' Hk (eq_sym Hf)). lia.
    + intros k' f q Hf Hq. rewrite fmap_app. apply lookup_snoc_Some in Hf as [[Hlt Hf] | [-> <-]].
      * rewrite take_app_le by (rewrite length_fmap; lia). by eapply Hc.
      * rewrite take_app_length' by (by rewrite length_fmap). assert (q = e_id p) as -> by congruence.
        apply list_elem_of_fmap. exists p. split; [done|]. subst l. cbn. apply elem_of_app. right. by apply list_elem_of_singleton.
Qed.

(** What a phase keeps. *)
Definition copied_into (s : State) (es : list Entry) (s' : State) : Prop :=
  wf s' ∧ sequence s' = sequence s + zlen es ∧ entries s' = entries s ++ imap (λ i e, renumber (sequence s + 1 + Z.of_nat i) e) es ∧
  records s' = records s ∧ lanes s' = lanes s ∧ name s' = name s ∧ labels s' = labels s.

Notation apply_all := (foldM (λ s m, applyMutation m s)).

Lemma apply_copies es : ∀ s, wf s → NoDup (e_id <$> es) → (∀ e, e ∈ es → e_id e ∉ usedIds s) →
  (∀ k e p, es !! k = Some e → e_parentId e = Some p → p ∈ entry_ids s ∨ p ∈ take k (e_id <$> es)) →
  ∃ s', apply_all s (numbered (λ e q, mut_entry None (renumber q e)) (sequence s + 1) es) = Ok s' ∧ copied_into s es s'.
Proof.
  induction es as [|e es IH]; intros s W Hn Hu Hp.
  - exists s. split; [done|]. unfold copied_into. cbn. rewrite app_nil_r. unfold zlen. cbn. split_and!; try done. lia.
  - cbn in Hn. apply NoDup_cons in Hn as [He Hn].
    destruct (applyMutation (mut_entry None (renumber (sequence s + 1) e)) s) as [s1|er] eqn:E.
    2: { exfalso. unfold applyMutation in E. cbn in E. rewrite Z.eqb_refl in E. cbn in E. unfold apply_entry in E. cbn in E.
         rewrite bool_decide_eq_false_2 in E by (apply Hu; by left). cbn in E.
         assert (Hk : known (e_parentId e) s = true).
         { apply (known_ids _ _ W). destruct (e_parentId e) as [p|] eqn:Ep; [|done].
           destruct (Hp 0%nat e p eq_refl Ep) as [|Hin]; [done|]. by apply elem_of_nil in Hin. }
         by rewrite Hk in E. }
    pose proof (apply_mutation_wf _ _ _ W E) as W1.
    assert (F : sequence s1 = sequence s + 1 ∧ usedIds s1 = {[e_id e]} ∪ usedIds s ∧
      entries s1 = entries s ++ [renumber (sequence s + 1) e] ∧ records s1 = records s ∧ lanes s1 = lanes s ∧ name s1 = name s ∧
      labels s1 = labels s).
    { unfold applyMutation in E. apply rbind_Ok in E as (? & _ & E). cbn in E. unfold apply_entry in E.
      apply rbind_Ok in E as (? & _ & E). apply rbind_Ok in E as (? & _ & E). apply rbind_Ok in E as (? & _ & E).
      injection E as <-. by destruct (bool_decide _). }
    destruct F as (F1 & F2 & F3 & F4 & F5 & F6 & F7).
    destruct (IH s1 W1 Hn) as (s2 & E2 & G1 & G2 & G3 & G4 & G5 & G6 & G7).
    { intros f Hf. rewrite F2. intros [Hx%elem_of_singleton | Hx]%elem_of_union.
      - apply He. rewrite <- Hx. apply list_elem_of_fmap. eauto.
      - revert Hx. apply Hu. by right. }
    { intros k f p Hk Hpf. unfold entry_ids. rewrite F3, fmap_app, elem_of_app. cbn.
      destruct (Hp (S k) f p Hk Hpf) as [? | Hin]; [by left; left|]. cbn in Hin. apply elem_of_cons in Hin as [-> | ?]; [|by right].
      left. right. by apply list_elem_of_singleton. }
    exists s2. split.
    + unfold numbered in *. cbn [imap foldM rbind]. change (Z.of_nat 0) with 0. rewrite Z.add_0_r, E. cbn [rbind]. rewrite <- E2, F1.
      f_equal. apply imap_ext. intros i x _. cbn. f_equal. f_equal. lia.
    + split_and!; [done | rewrite G2, F1; autorewrite with js; lia | | congruence..].
      rewrite G3, F3, F1, <- app_assoc. cbn. do 2 f_equal; [f_equal; lia|]. apply imap_ext. intros i x _. cbn. f_equal. lia.
Qed.

(** The other phases move lanes, set the name and set labels. *)
Lemma apply_lane_list (ps : list (jsstr * option jsstr)) : ∀ s, Forall (λ p, known p.2 s = true) ps → ∃ s',
  apply_all s (numbered (λ p q, mut_lane q p.1 p.2) (sequence s + 1) ps) = Ok s' ∧ sequence s' = sequence s + zlen ps ∧
  entries s' = entries s ∧ entriesById s' = entriesById s ∧ records s' = records s ∧
  lanes s' = foldl (λ m kv, mset kv.1 kv.2 m) (lanes s) ps ∧ name s' = name s ∧ labels s' = labels s.
Proof.
  induction ps as [|p ps IH]; intros s Hk.
  - exists s. unfold zlen. cbn. split_and!; try done. lia.
  - apply Forall_cons in Hk as [Hp Hk].
    set (s1 := add_log (log_lane (sequence s + 1) p.1 p.2) (s <| sequence := sequence s + 1 |> <| lanes := mset p.1 p.2 (lanes s) |>)).
    destruct (IH s1) as (s2 & E & F1 & F2 & F3 & F4 & F5 & F6 & F7).
    { eapply Forall_impl; [exact Hk|]. intros x. by rewrite (known_eq s s1). }
    exists s2. split_and!; [|rewrite F1; autorewrite with js; cbn; lia | done..].
    unfold numbered in *. cbn [imap foldM rbind]. change (Z.of_nat 0) with 0. rewrite Z.add_0_r.
    replace (applyMutation (mut_lane (sequence s + 1) p.1 p.2) s) with (Ok (E := SessionError) s1).
    + cbn [rbind]. rewrite <- E. f_equal. apply imap_ext. intros i x _. cbn. f_equal. lia.
    + unfold applyMutation. cbn. rewrite Z.eqb_refl, Hp. done.
Qed.

Lemma apply_label_list (ls : list (jsstr * jsstr)) : ∀ s, Forall (λ p, hasEntry p.1 s = true) ls → ∃ s',
  apply_all s (numbered (λ p q, mut_label q p.1 (Some p.2)) (sequence s + 1) ls) = Ok s' ∧
  entries s' = entries s ∧ records s' = records s ∧ lanes s' = lanes s ∧ name s' = name s ∧
  labels s' = foldl (λ m p, <[p.1 := p.2]> m) (labels s) ls.
Proof.
  induction ls as [|p ls IH]; intros s Hk.
  - by exists s.
  - apply Forall_cons in Hk as [Hp Hk].
    set (s1 := add_log (log_label (sequence s + 1) p.1 (Some p.2)) (s <| sequence := sequence s + 1 |> <| labels := <[p.1 := p.2]> (labels s) |>)).
    destruct (IH s1) as (s2 & E & F1 & F2 & F3 & F4 & F5).
    { eapply Forall_impl; [exact Hk|]. intros x. by rewrite (hasEntry_eq s s1). }
    exists s2. split_and!; [|done..].
    unfold numbered in *. cbn [imap foldM rbind]. change (Z.of_nat 0) with 0. rewrite Z.add_0_r.
    replace (applyMutation (mut_label (sequence s + 1) p.1 (Some p.2)) s) with (Ok (E := SessionError) s1).
    + cbn [rbind]. rewrite <- E. f_equal. apply imap_ext. intros i x _. cbn. f_equal. lia.
    + unfold applyMutation. cbn. rewrite Z.eqb_refl. cbn. by rewrite Hp.
Qed.

(** ** What a fork contains *)

Definition scope (o : ForkOptions) (s : State) (copied : list Entry) (forkLanes : list (jsstr * option jsstr)) : Prop :=
  match o with
  | fork_tree => copied = entries s ∧ forkLanes = lanes s
  | fork_branch branch entryId position => ∃ target,
      fork_target branch entryId position s = Ok target ∧ forkLanes = [(branch, target)] ∧
      match target with
      | None => copied = []
      | Some i => ∃ e path, getEntry i s = Some e ∧ path_to_root s e path ∧ copied = rev path
      end
  end.

Lemma lane_known s l t : wf s → mget l (lanes s) = Some t → known t s = true.
Proof. intros W Hl. apply mget_elem in Hl. destruct (wf_lanes _ W) as [_ Hf]. rewrite Forall_forall in Hf. apply (Hf _ Hl). Qed.

Lemma fork_target_cases s b e p : wf s →
  (∃ er, fork_target b e p s = Err er ∧ (code er = invalid_fork_target ∨ code er = invalid_lane))
  ∨ ∃ t, fork_target b e p s = Ok t ∧ known t s = true.
Proof.
  intros W. unfold fork_target, requireLane. destruct (mget b (lanes s)) as [tip|] eqn:Hl; cbn [rbind]; [|left; eauto].
  destruct (match e with Some i => Some i | None => tip end) as [i|]; [|right; eauto].
  destruct (getEntry i s) as [x|] eqn:Hx; [|left; eauto]. case_bool_decide; [|left; eauto].
  assert (Hon : ∃ r, isOnBranch tip i s = Ok r).
  { unfold isOnBranch. destruct tip as [t|]; [|eauto]. pose proof (lane_known _ _ _ W Hl) as Hk. apply bool_decide_eq_true in Hk as [y Hy].
    destruct (wf_path s t y W Hy) as [path Hpath]. rewrite (walkToRoot_path s W _ t y path Hy Hpath). destruct (existsb _ _); eauto. }
  destruct Hon as [r ->]. cbn [rbind]. destruct r; [|left; eauto]. right. eexists. split; [done|].
  apply (wf_byId _ W) in Hx as [Hin Hid]. apply list_elem_of_lookup in Hin as [k Hk]. apply (known_ids _ _ W).
  destruct (default _ p).
  - destruct (e_parentId x) as [q|] eqn:Hq; [|done]. pose proof (wf_parents _ W _ _ _ Hk Hq) as Hin. apply elem_of_take in Hin as (? & ? & _). by eapply list_elem_of_lookup_2.
  - apply list_elem_of_fmap. exists x. split; [done | by eapply list_elem_of_lookup_2].
Qed.

Lemma valid_oldest : valid_query oldest_first.
Proof. done. Qed.

Lemma filter_true {A} (f : A → bool) (l : list A) : (∀ x, f x = true) → filter (λ x, f x = true) l = l.
Proof. intros H. apply filter_all, Forall_forall. auto. Qed.

Lemma copied_scope s o : wf s →
  (∃ er, copiedEntries o s = Err er ∧ (code er = invalid_fork_target ∨ code er = invalid_lane))
  ∨ ∃ copied forkLanes, copiedEntries o s = Ok (copied, forkLanes) ∧ scope o s copied forkLanes
      ∧ closed copied ∧ NoDup forkLanes.*1 ∧ Forall (λ p, match p.2 with None => True | Some i => i ∈ e_id <$> copied end) forkLanes.
Proof.
  intros W. destruct o as [b e p|].
  - unfold copiedEntries. destruct (require _ _ _) as [u|er] eqn:Er; cbn [rbind].
    2: { left. unfold require, guard_err in Er. destruct (negb _); [|done]. injection Er as <-. eauto. }
    destruct (fork_target_cases s b e p W) as [(er & E & Hc) | (t & E & Hk)]; rewrite E; cbn [rbind]; [left; eauto|].
    right. destruct t as [i|].
    + pose proof Hk as [x Hx]%bool_decide_eq_true. destruct (wf_path s i x W Hx) as [path Hpath].
      destruct (entry_position s W _ _ Hx) as (k & Hpos & _).
      destruct (path_closed s x path W Hpath (ex_intro _ _ Hpos)) as (Hc & _ & l' & Hl').
      rewrite (find_on_branch s oldest_first no_bounds i x path W valid_oldest Hx Hpath). cbn [rbind].
      assert (Hsel : select oldest_first no_bounds path = rev path).
      { unfold select. cbn [q_limit oldest_first upTo q_order]. rewrite bool_decide_eq_true_2 by done.
        rewrite filter_true by done. clear. induction (rev path) as [|y l IH]; [done|]. cbn in *. by rewrite IH. }
      rewrite Hsel. eexists _, _. split_and!; [done | | done | apply NoDup_singleton |].
      * exists (Some i). split_and!; [done..|]. by exists x, path.
      * repeat constructor. cbn. apply list_elem_of_fmap. exists x. split; [symmetry; by apply (wf_byId _ W)|].
        rewrite list_elem_of_In, <- in_rev, Hl'. by left.
    + eexists _, _. split_and!; [done | by exists None | | apply NoDup_singleton | by repeat constructor].
      split; [constructor | done].
  - right. unfold copiedEntries. rewrite (find_all s oldest_first valid_oldest). cbn [rbind q_limit oldest_first upTo].
    rewrite filter_true by done. unfold ordered. rewrite bool_decide_eq_true_2 by done.
    eexists _, _. split_and!; [done | done | by apply entries_closed | apply W |]. destruct (wf_lanes _ W) as [_ Hf].
    eapply Forall_impl; [exact Hf|]. intros p Hp. by apply (known_ids s p.2 W).
Qed.

Lemma mof_list_id (ps : list (jsstr * option jsstr)) acc :
  NoDup (acc ++ ps).*1 → foldl (λ m kv, mset kv.1 kv.2 m) acc ps = acc ++ ps.
Proof.
  revert acc. induction ps as [|[k v] ps IH]; intros acc Hn; cbn; [by rewrite app_nil_r|]. rewrite mset_keys_absent.
  - rewrite IH; rewrite <- app_assoc; [done|]. done.
  - apply mget_None. rewrite fmap_app in Hn. apply NoDup_app in Hn as (_ & Hn & _). intros Hin. apply (Hn k Hin). cbn. by left.
Qed.

(** The labels of the copied entries. *)
Definition label_pairs (s : State) (es : list Entry) : list (jsstr * jsstr) :=
  omap (λ e, (λ l, (e_id e, l)) <$> labels s !! e_id e) es.

Lemma label_pairs_lookup (s : State) (es : list Entry) (m : gmap jsstr jsstr) (i : jsstr) :
  foldl (λ m p, <[p.1 := p.2]> m) m (label_pairs s es) !! i
  = if bool_decide (i ∈ e_id <$> es ∧ is_Some (labels s !! i)) then labels s !! i else m !! i.
Proof.
  revert m. induction es as [|e es IH]; intros m; cbn.
  - rewrite bool_decide_eq_false_2; [done|]. by intros [?%elem_of_nil _].
  - unfold label_pairs in IH. destruct (labels s !! e_id e) as [l|] eqn:El; cbn; rewrite IH; clear IH.
    + destruct (decide (i = e_id e)) as [-> | Hne].
      * rewrite lookup_insert, El, (bool_decide_eq_true_2 (_ ∈ _ :: _ ∧ _)) by (split; [by left | eauto]).
        destruct (decide _); [|done]. by destruct (bool_decide _).
      * rewrite lookup_insert_ne by done. erewrite bool_decide_ext; [done|]. rewrite elem_of_cons. tauto.
    + erewrite bool_decide_ext; [done|]. rewrite elem_of_cons. split; [tauto|]. intros [[-> | ?] Hs]; [|done].
      rewrite El in Hs. by destruct Hs.
Qed.

Lemma label_mutations s es q :
  numbered (λ g q, g q) q (omap (λ e, (λ l q, mut_label q (e_id e) (Some l)) <$> labels s !! e_id e) es)
  = numbered (λ p q, mut_label q p.1 (Some p.2)) q (label_pairs s es).
Proof.
  assert (omap (λ e, (λ l q, mut_label q (e_id e) (Some l)) <$> labels s !! e_id e) es
          = (λ p q, mut_label q p.1 (Some p.2)) <$> label_pairs s es) as ->.
  { unfold label_pairs. induction es as [|e es IH]; cbn; [done|]. rewrite IH. by destruct (labels s !! e_id e). }
  unfold numbered. rewrite imap_fmap. apply imap_ext. by intros.
Qed.

Lemma apply_app (s : State) l1 l2 s1 : apply_all s l1 = Ok s1 → apply_all s (l1 ++ l2) = apply_all s1 l2.
Proof. intros E. by rewrite foldM_app, E. Qed.

Lemma apply_all_wf l : ∀ s s', wf s → apply_all s l = Ok s' → wf s'.
Proof.
  induction l as [|m l IH]; intros s s' W; cbn; [by intros [= <-]|]. intros H. apply rbind_Ok in H as (s1 & H1 & H2).
  eapply IH; [|exact H2]. by eapply apply_mutation_wf.
Qed.

(** The content of a fork. *)
Definition fork_of (s : State) (copied : list Entry) (forkLanes : list (jsstr * option jsstr)) (s' : State) : Prop :=
  entries s' = imap (λ i e, renumber (1 + Z.of_nat i) e) copied ∧ records s' = [] ∧ lanes s' = forkLanes ∧ name s' = name s ∧
  (∀ i, labels s' !! i = if bool_decide (i ∈ e_id <$> copied) then labels s !! i else None) ∧ wf s'.

Lemma fork_succeeds s copied forkLanes : wf s → closed copied → NoDup forkLanes.*1 →
  Forall (λ p, match p.2 with None => True | Some i => i ∈ e_id <$> copied end) forkLanes →
  ∃ s', apply_all (newState []) (fork_mutations copied forkLanes s) = Ok s' ∧ fork_of s copied forkLanes s'.
Proof.
  intros W [Hn Hc] Hl Hk. pose proof (new_wf []) as W0.
  destruct (apply_copies copied (newState []) W0 Hn) as (s1 & E1 & W1 & A1 & A2 & A3 & A4 & A5 & A6).
  { intros e _. apply not_elem_of_empty. }
  { intros k e p He Hp. right. by eapply Hc. }
  cbn in A1, A2, A3, A4, A5, A6.
  assert (Hids : entry_ids s1 = e_id <$> copied).
  { unfold entry_ids. rewrite A2, fmap_imap. cbn. rewrite <- (imap_const e_id). apply imap_ext. done. }
  destruct (apply_lane_list forkLanes s1) as (s2 & E2 & B1 & B2 & B3 & B4 & B5 & B6 & B7).
  { eapply Forall_impl; [exact Hk|]. intros p Hp. apply (known_ids s1 p.2 W1). by rewrite Hids. }
  rewrite A4, (mof_list_id forkLanes []) in B5 by done. cbn in B5.
  set (s3 := match name s with Some nm => add_log (log_name (sequence s2 + 1) (Some nm)) (s2 <| sequence := sequence s2 + 1 |> <| name := Some nm |>) | None => s2 end).
  assert (E3 : apply_all s2 (match name s with Some nm => [mut_name (sequence s2 + 1) (Some nm)] | None => [] end) = Ok s3).
  { unfold s3. destruct (name s); [|done]. cbn [foldM rbind]. unfold applyMutation. cbn [mutation_seq]. by rewrite Z.eqb_refl. }
  assert (F3 : entries s3 = entries s2 ∧ entriesById s3 = entriesById s2 ∧ records s3 = records s2 ∧ lanes s3 = lanes s2 ∧
    name s3 = name s ∧ labels s3 = labels s2 ∧ sequence s3 = sequence s2 + match name s with Some _ => 1 | None => 0 end).
  { unfold s3. destruct (name s); cbn; split_and!; try done; [by rewrite B6 | lia]. }
  destruct F3 as (C1 & C2 & C3 & C4 & C5 & C6 & C7).
  destruct (apply_label_list (label_pairs s copied) s3) as (s4 & E4 & D1 & D2 & D3 & D4 & D5).
  { apply Forall_forall. intros [i l] Hi. unfold label_pairs in Hi. apply list_elem_of_omap in Hi as (e & He & Hl').
    destruct (labels s !! e_id e); [|done]. injection Hl' as <- <-. cbn. rewrite (hasEntry_eq s1 s3) by congruence.
    apply (hasEntry_ids s1 _ W1). rewrite Hids. apply list_elem_of_fmap. eauto. }
  assert (Hall : apply_all (newState []) (fork_mutations copied forkLanes s) = Ok s4).
  { unfold fork_mutations. rewrite (apply_app _ _ _ s1) by exact E1. rewrite (apply_app _ _ _ s2) by (replace (1 + zlen copied) with (sequence s1 + 1) by lia; exact E2).
    rewrite (apply_app _ _ _ s3) by (replace (1 + (zlen copied + zlen forkLanes)) with (sequence s2 + 1) by lia; exact E3).
    rewrite label_mutations. replace (1 + (zlen copied + zlen forkLanes) + _) with (sequence s3 + 1) by lia. exact E4. }
  exists s4. split; [exact Hall|]. split_and!; [by rewrite D1, C1, B2, A2 | congruence | congruence | congruence | |].
  - intros i. rewrite D5, label_pairs_lookup, C6, B7, A6. destruct (decide (i ∈ e_id <$> copied)) as [Hi|Hi].
    + rewrite (bool_decide_eq_true_2 (i ∈ _)) by done. case_bool_decide as Hd; [done|].
      rewrite lookup_empty. symmetry. apply eq_None_not_Some. tauto.
    + rewrite !bool_decide_eq_false_2 by tauto. apply lookup_empty.
  - exact (apply_all_wf _ _ _ W0 Hall).
Qed.

(** ** Theorems *)

(** A query for a branch returns the path of the entry to the root: in every state that mutations can build, the walk
    along the parents ends without an error, and the query answers with the entries of that one path, cut at the
    first entry that is a bound in the direction of the query, filtered and limited.  An unknown start is
    "not found". *)
Theorem branch_query_returns_the_path initialLanes s q b start : reachable initialLanes s → valid_query q →
  match getEntry start s with
  | None => findEntriesOnBranch q b start s = Err (mkError not_found (js "Entry not found: " ++ start))
  | Some e => ∃ path, path_to_root s e path ∧ (∀ other, path_to_root s e other → other = path) ∧
                findEntriesOnBranch q b start s = Ok (select q b path)
  end.
Proof.
  intros R Hq. pose proof (session_reachable_wf _ _ R) as W. unfold getEntry. destruct (entriesById s !! start) as [e|] eqn:He.
  - destruct (wf_path s start e W He) as [path Hp]. exists path. split_and!; [done | | by apply (find_on_branch s q b start e)].
    intros other Ho. by eapply path_unique.
  - destruct Hq as [Hl Hc]. unfold findEntriesOnBranch, walkToRoot. rewrite Hl, Hc, He. by destruct (bool_decide _).
Qed.

(** A fork is refused for its target or copies its scope: from every state that mutations can build, it
    either answers that the lane or the target is invalid, or succeeds, and then the new session holds the entries of
    its scope, renumbered from one and otherwise the same (the whole session, or the path from the root to the
    target), the lanes of the scope, the name, the labels of the copied entries and no record. *)
Theorem fork_copies_its_scope initialLanes s o : reachable initialLanes s →
  (∃ e, fork o s = Err e ∧ (code e = invalid_fork_target ∨ code e = invalid_lane))
  ∨ ∃ copied forkLanes s', scope o s copied forkLanes ∧ fork o s = Ok s' ∧ fork_of s copied forkLanes s'.
Proof.
  intros R. pose proof (session_reachable_wf _ _ R) as W. unfold fork.
  destruct (copied_scope s o W) as [(e & E & Hc) | (copied & ps & E & Hs & Hcl & Hn & Hk)].
  - left. exists e. split; [|done]. unfold createForkMutations. by rewrite E.
  - right. destruct (fork_succeeds s copied ps W Hcl Hn Hk) as (s' & E' & F). exists copied, ps, s'.
    split_and!; [done | | done]. by rewrite (createForkMutations_eq o s copied ps E).
Qed.

End SessionQueries.
