(* ===== verification/Session.v ===== *)
(** * Sessions

    Models [agent/src/harness/session/session.ts] over the storage in memory.  A
    mutation of a session is one job of its mutation line
    ([agent/src/harness/session/mutation-line.ts]): the jobs of one session run one after
    the other, each to its end, so that a job is one function of the state.  A job
    that fails midway keeps what it already stored.

    [assertJsonSerializable] accepts every value of this model, whose payloads are JSON by
    type.  The identifiers a job draws are arguments, in the order of the draws. *)
From S2P Require Import Prelude JsMap JsString Json AgentData SessionState.

(** ** The mutation line

    A job that is running ends by itself; the line remembers the jobs that wait for it. *)
Module MutationLine.

Section Line.
Context {Job Error : Type}.

Inductive line_event := job_started (j : Job) | job_ended (j : Job) | job_refused (j : Job) (e : Error).
Record Line := mkLine { waiting : list Job; running : option Job; sealedError : option Error; history : list line_event }.
Definition newLine : Line := mkLine [] None None [].

(** [run]: a sealed line refuses at once, an open one appends the job to its tail. *)
Definition run (j : Job) (l : Line) : Line :=
  match sealedError l with
  | Some e => mkLine (waiting l) (running l) (sealedError l) (history l ++ [job_refused j e])
  | None => mkLine (waiting l ++ [j]) (running l) (sealedError l) (history l)
  end.

(** The continuation of the job before: the line may have been sealed meanwhile. *)
Definition next (l : Line) : Line :=
  match running l, waiting l with
  | None, j :: js =>
      match sealedError l with
      | Some e => mkLine js None (Some e) (history l ++ [job_refused j e])
      | None => mkLine js (Some j) None (history l ++ [job_started j])
      end
  | _, _ => l
  end.

Definition settle (l : Line) : Line :=
  match running l with
  | Some j => mkLine (waiting l) None (sealedError l) (history l ++ [job_ended j])
  | None => l
  end.

Definition seal (e : Error) (l : Line) : Line :=
  mkLine (waiting l) (running l) (Some (default e (sealedError l))) (history l).

Inductive call := c_run (j : Job) | c_next | c_settle | c_seal (e : Error).
Definition step (l : Line) (c : call) : Line :=
  match c with c_run j => run j l | c_next => next l | c_settle => settle l | c_seal e => seal e l end.
End Line.
Arguments line_event : clear implicits.
Arguments Line : clear implicits.
Arguments call : clear implicits.

End MutationLine.

Module Session.
Import AgentData SessionState Storage.

(** ** Queries *)

Definition getTipId (lane : jsstr) (s : State) : result SessionError (option jsstr) :=
  match find (λ p, bool_decide (p.1 = lane)) (getLanes s) with
  | Some p => Ok p.2
  | None => fail invalid_lane (js "Lane not found: " ++ lane)
  end.

Definition with_limit (l : option Z) (q : EntryQuery) : EntryQuery :=
  mkEntryQuery (q_type q) (q_customType q) (q_order q) l (q_cursor q).

(** [queryEntries], with the limit the storage is asked for. *)
Definition queryEntries (q : EntryQuery) (resultLimit : option Z) (s : State) : result SessionError (list Entry) :=
  let* _ := assertValidLimit (q_limit q) in
  let* _ := assertValidCursor (q_cursor q) in
  SessionState.findEntries (if bool_decide (resultLimit = q_limit q) then q else with_limit resultLimit q) s.
Definition findEntries (q : EntryQuery) (s : State) := queryEntries q (q_limit q) s.
Definition findEntry (q : EntryQuery) (s : State) : result SessionError (option Entry) :=
  let* l := queryEntries q (Some 1) s in Ok (head l).

Definition queryBranchEntries (defaultLane : jsstr) (q : EntryQuery) (b : BranchBounds) (resultLimit : option Z) (s : State)
    : result SessionError (list Entry) :=
  let* _ := assertValidLimit (q_limit q) in
  let* _ := assertValidCursor (q_cursor q) in
  let* start := match b_start b with Some i => Ok (Some i) | None => getTipId defaultLane s end in
  match start with
  | None => Ok []
  | Some i => SessionState.findEntriesOnBranch
                (if bool_decide (resultLimit = q_limit q) then q else with_limit resultLimit q) b i s
  end.
Definition findEntriesOnBranchFor (lane : jsstr) (q : EntryQuery) (b : BranchBounds) (s : State) :=
  queryBranchEntries lane q b (q_limit q) s.
Definition findEntryOnBranchFor (lane : jsstr) (q : EntryQuery) (b : BranchBounds) (s : State)
    : result SessionError (option Entry) :=
  let* l := queryBranchEntries lane q b (Some 1) s in Ok (head l).

Definition queryRecords (q : RecordQuery) (s : State) : result SessionError (list LaneRecord) :=
  let* _ := assertValidLimit (rq_limit q) in
  let* _ := assertValidCursor (rq_afterSeq q) in
  let* _ := require (match rq_operationKind q with
                     | None => true
                     | Some _ => bool_decide (rq_type q = Some rt_operation_started)
                     end) invalid_query (js "operationKind requires type " ++ quoted (js "operation_started")) in
  findRecords q s.

(** The queries for the records of a lane of one type, oldest or newest first. *)
Definition lane_query (lane : jsstr) (t : option RecordType) (order : EntryOrder) (limit : option Z) : RecordQuery :=
  mkRecordQuery (Some lane) t None None None (Some order) limit.

(** ** Appending *)

Definition appendMessageTo (lane id : jsstr) (now : Z) (m : AgentMessage) : M jsstr :=
  entry ← appendEntry now (mkProvisioned id (message m false)) lane; mret (e_id entry).
Definition appendCustomEntryTo (lane id : jsstr) (now : Z) (customType : jsstr) (data : option Json.json) : M jsstr :=
  entry ← appendEntry now (mkProvisioned id (custom customType data)) lane; mret (e_id entry).

(** [acquireBranch]: gets or creates. *)
Definition acquireBranch (lane : jsstr) (at_ : option jsstr) : M () :=
  s ← get; if existsb (λ p, bool_decide (p.1 = lane)) (getLanes s) then mret () else createLane lane at_.

Definition append {B} (inj : B → RecordBody) (now : Z) (n : NewRecord B) : M (Rec B) :=
  r ← appendRecord now (mkNew (n_id n) (n_lane n) (inj (n_body n)));
  mret (mkRec (r_id r) (r_seq r) (r_lane r) (r_timestamp r) (n_body n)).

(** ** Generations *)

(** The newest state of the lane, whatever the operation. *)
Definition current_generation (lane : jsstr) (s : State) : result SessionError (option (Rec GenerationState)) :=
  let* l := findRecords (lane_query lane (Some rt_generation_state) newestFirst (Some 1)) s in
  Ok (head l ≫= pick as_generation).

Definition is_generation (expected : jsstr * GenerationStatus) (c : option (Rec GenerationState)) : bool :=
  match c with Some c => bool_decide (r_id c = expected.1) && bool_decide (g_status (r_body c) = expected.2) | None => false end.

Definition transitionGeneration (lane : jsstr) (expected : jsstr * GenerationStatus) (now : Z) (next : NewRecord GenerationState)
    : M (option (Rec GenerationState)) :=
  current ← check (current_generation lane);
  if is_generation expected current then r ← append generation_state now next; mret (Some r) else mret None.

Record StartGeneration := mkStartGeneration {
  sg_lane : jsstr; sg_operationId : jsstr; sg_stepId : jsstr; sg_originalPrompt : list AgentMessage;
  sg_initialMessages : list ProvisionedEntry; sg_configuration : GenerationConfiguration; sg_responseEntryId : jsstr;
  sg_usageId : jsstr }.

Definition startGeneration (o : StartGeneration) (id : jsstr) (now : Z) : M (Rec GenerationState) :=
  sourceLeafId ← check (getTipId (sg_lane o));
  _ ← append operation_started now (mkNew (sg_operationId o) (sg_lane o)
        (mkStarted sourceLeafId (run_intent (sg_originalPrompt o) (sg_initialMessages o) (Some (sg_configuration o)) Json.j_null)));
  append generation_state now (mkNew id (sg_lane o)
    (mkGeneration (sg_operationId o) (sg_stepId o) gen_intent 1 (sg_responseEntryId o) (sg_usageId o) (sg_configuration o)
       None None None)).

Record CommitGeneration := mkCommitGeneration {
  cg_lane : jsstr; cg_expected : jsstr * GenerationStatus; cg_response : ProvisionedEntry; cg_usage : NewRecord UsageRecord;
  cg_nextState : NewRecord GenerationState; cg_finish : option (NewRecord OperationFinished) }.

Definition commitGenerationOutcome (o : CommitGeneration) (now : Z) : M bool :=
  current ← check (current_generation (cg_lane o));
  if is_generation (cg_expected o) current then
    _ ← appendEntry now (cg_response o) (cg_lane o);
    _ ← append usage now (cg_usage o);
    _ ← append generation_state now (cg_nextState o);
    match cg_finish o with
    | Some f => _ ← append operation_finished now f; mret true
    | None => mret true
    end
  else mret false.

(** ** Tools *)

Definition tool_states (lane : jsstr) (s : State) : result SessionError (list (Rec ToolExecutionState)) :=
  let* l := findRecords (lane_query lane (Some rt_tool_execution_state) oldestFirst None) s in
  Ok (omap (pick as_tool_state) l).

Record StartTool := mkStartTool {
  st_lane : jsstr; st_runId : jsstr; st_assistantEntryId : jsstr; st_toolIndex : Z; st_toolCallId : jsstr; st_toolName : jsstr;
  st_args : Json.json; st_replay : Replay }.

(** The identifiers of the invocation, its result, its start and its first state. *)
Definition startToolExecution (o : StartTool) (invocationId resultEntryId startId stateId : jsstr) (now : Z)
    : M (Rec ToolExecutionState) :=
  _ ← append tool_started now (mkNew startId (st_lane o)
        (mkToolStarted (st_runId o) (st_assistantEntryId o) (st_toolIndex o) (st_toolCallId o) (st_toolName o) (st_args o)
           resultEntryId (st_replay o)));
  append tool_execution_state now (mkNew stateId (st_lane o)
    (mkToolState (st_runId o) (st_assistantEntryId o) (st_toolIndex o) (st_toolCallId o) (st_toolName o) invocationId
       resultEntryId (st_args o) (st_replay o) x_planned None None None)).

Definition is_tool (expected : jsstr * ToolExecutionStatus) (c : option (Rec ToolExecutionState)) : bool :=
  match c with Some c => bool_decide (r_id c = expected.1) && bool_decide (x_status (r_body c) = expected.2) | None => false end.
Definition with_id {B} (id : jsstr) (l : list (Rec B)) : option (Rec B) := find (λ r, bool_decide (r_id r = id)) l.
Definition latestByInvocation (l : list (Rec ToolExecutionState)) : list (jsstr * Rec ToolExecutionState) :=
  foldl (λ m r, mset (x_invocationId (r_body r)) r m) [] l.

Definition transitionToolExecution (lane : jsstr) (expected : jsstr * ToolExecutionStatus) (now : Z)
    (next : NewRecord ToolExecutionState) : M (option (Rec ToolExecutionState)) :=
  records ← check (tool_states lane);
  let invocation := match with_id expected.1 records with Some r => x_invocationId (r_body r) | None => [] end in
  let current := mget invocation (latestByInvocation records) in
  if is_tool expected current then r ← append tool_execution_state now next; mret (Some r) else mret None.

(** [{ ...state, id, ... }] *)
Definition again {B} (r : Rec B) (id : jsstr) (b : B) : NewRecord B := mkNew id (r_lane r) b.

Definition checkpointToolExecution (lane : jsstr) (expected : jsstr * ToolExecutionStatus) (checkpoint : DurableToolOutcome)
    (id : jsstr) (now : Z) : M (option (Rec ToolExecutionState)) :=
  records ← check (tool_states lane);
  let current := match with_id expected.1 records with
                 | Some e => last (filter (λ r, x_invocationId (r_body r) = x_invocationId (r_body e)) records)
                 | None => None
                 end in
  match current with
  | Some c => if is_tool expected current then
                r ← append tool_execution_state now
                      (again c id (r_body c <| x_status := x_checkpointed |> <| x_checkpoint := Some checkpoint |>));
                mret (Some r)
              else mret None
  | None => mret None
  end.

Definition commitToolOutcome (lane : jsstr) (expected : jsstr * ToolExecutionStatus) (state : Rec ToolExecutionState)
    (outcome : DurableToolOutcome) (status : option ToolExecutionStatus) (id : jsstr) (now : Z)
    : M (option (Rec ToolExecutionState)) :=
  transitionToolExecution lane expected now
    (again state id (r_body state <| x_status := default x_outcome_ready status |> <| x_outcome := Some outcome |>)).

Definition has_outcome (x : ToolExecutionStatus) : bool :=
  match x with x_outcome_ready | x_failed | x_cancelled | x_interrupted => true | _ => false end.

Definition placeToolOutcome (lane : jsstr) (state : Rec ToolExecutionState) (result : ProvisionedEntry) (id : jsstr) (now : Z)
    : M bool :=
  records ← check (tool_states lane);
  let current := filter (λ r, x_assistantEntryId (r_body r) = x_assistantEntryId (r_body state)
                              ∧ x_toolIndex (r_body r) <= x_toolIndex (r_body state)) records in
  match with_id (r_id state) current with
  | Some st =>
      if has_outcome (x_status (r_body st)) then
        let latestByIndex := foldl (λ m r, mset (x_toolIndex (r_body r)) r m) [] current in
        if existsb (λ r, (x_toolIndex (r_body r) <? x_toolIndex (r_body st))
                         && negb (bool_decide (x_status (r_body r) = x_completed))) latestByIndex.*2
        then mret false
        else
          _ ← appendEntry now result lane;
          _ ← append tool_execution_state now (again st id (r_body st <| x_status := x_completed |>));
          mret true
      else mret false
  | None => mret false
  end.

(** ** The inbox *)

Definition queue_name (q : Queue) : string := match q with steer => "steer" | followUp => "followUp" | nextRun => "nextRun" end.
Definition enqueueInboxItem (lane : jsstr) (queue : Queue) (target : ProvisionedEntry) (run : option jsstr) (id : jsstr) (now : Z)
    : M (Rec QueueEnqueued) :=
  if negb (bool_decide (queue = nextRun)) && bool_decide (run = None)
  then throw (mkError invalid_payload (js (queue_name queue) ++ js " inbox items require an operation id"))
  else append queue_enqueued now
         (mkNew id lane (mkEnqueued queue (if bool_decide (queue = nextRun) then None else run) target)).

Definition cancelledIds (l : list LaneRecord) : list jsstr :=
  omap (λ r, match r_body r with queue_cancelled _ e => Some e | _ => None end) l.
Definition consumedIds (l : list LaneRecord) : list jsstr :=
  omap (λ r, match r_body r with queue_consumed c => Some (qc_entryId c) | _ => None end) l.
(** The enqueued items of [records] that are neither cancelled nor consumed. *)
Definition open_items (l : list LaneRecord) : list (Rec QueueEnqueued) :=
  filter (λ q, p_id (qe_target (r_body q)) ∉ cancelledIds l ∧ p_id (qe_target (r_body q)) ∉ consumedIds l)
    (omap (pick as_enqueued) l).

Definition listInbox (lane : jsstr) (s : State) : result SessionError (list (Rec QueueEnqueued)) :=
  let* records := queryRecords (lane_query lane None oldestFirst None) s in
  Ok (open_items records).

Definition pending_map (l : list LaneRecord) : list (jsstr * Rec QueueEnqueued) :=
  mof_list ((λ q, (p_id (qe_target (r_body q)), q)) <$> open_items l).

(** The loop over the entry ids, with one fresh identifier for each. *)
Fixpoint consume_all (lane operationId : jsstr) (pending : list (jsstr * Rec QueueEnqueued)) (now : Z)
    (entryIds ids : list jsstr) : M () :=
  match entryIds, ids with
  | entryId :: entryIds, id :: ids =>
      match mget entryId pending with
      | Some item =>
          _ ← append queue_consumed now (mkNew id lane (mkConsumed operationId (qe_queue (r_body item)) entryId));
          consume_all lane operationId pending now entryIds ids
      | None => mret ()
      end
  | _, _ => mret ()
  end.

Definition consumeInbox (lane operationId : jsstr) (entryIds ids : list jsstr) (now : Z) : M bool :=
  open ← check (findOpenOperations lane (Some 2));
  match open with
  | [o] =>
      if bool_decide (r_id o = operationId) then
        records ← check (findRecords (lane_query lane None oldestFirst None));
        let pending := pending_map records in
        if existsb (λ e, negb (mhas e pending)) entryIds then mret false
        else consume_all lane operationId pending now entryIds ids;; mret true
      else mret false
  | _ => mret false
  end.

(** ** Cancellation *)

Inductive AbortAnswer := requested | already_requested | already_terminal | unknown.
#[export] Instance AbortAnswer_eq : EqDecision AbortAnswer.
Proof. solve_decision. Defined.

Definition requestAbort (lane operationId id : jsstr) (now : Z) : M AbortAnswer :=
  starts ← check (findRecords (lane_query lane (Some rt_operation_started) newestFirst None));
  if negb (existsb (λ r, bool_decide (r_id r = operationId)) starts) then mret unknown
  else
    finished ← check (findRecords (lane_query lane (Some rt_operation_finished) newestFirst None));
    if existsb (λ r, bool_decide (runId (r_body r) = Some operationId)) finished then mret already_terminal
    else
      aborts ← check (findRecords (lane_query lane (Some rt_abort_requested) newestFirst None));
      if existsb (λ r, bool_decide (runId (r_body r) = Some operationId)) aborts then mret already_requested
      else _ ← append abort_requested now (mkNew id lane operationId); mret requested.

End Session.
