(* ===== verification/SessionJobs.v ===== *)
(** * Jobs only append

    Every job of a session is a sequence of storage operations, also when it fails, and a
    refused storage operation changes nothing.  What the storage operations keep is
    therefore kept by every job: here, that a lane has at most one open operation, and
    which. *)
From S2P Require Import Prelude JsMap JsString Json AgentData SessionState SessionQueries Session.

Module SessionJobs.
Import AgentData SessionState Storage SessionStateProps SessionQueries Session.

(** ** Storage steps *)

(** The calls of [SessionStorage] that write. *)
Inductive storage_call :=
| s_createLane (lane : jsstr) (at_ : option jsstr)
| s_moveLane (lane : jsstr) (to : option jsstr)
| s_appendEntry (now : Z) (e : ProvisionedEntry) (lane : jsstr)
| s_appendRecord (now : Z) (r : NewRecord RecordBody)
| s_setName (n : option jsstr)
| s_setLabel (id : jsstr) (label : option jsstr).

Definition perform (c : storage_call) (s : State) : State * option SessionError :=
  let answer {A} (r : State * result SessionError A) := (r.1, match r.2 with Ok _ => None | Err e => Some e end) in
  match c with
  | s_createLane l t => answer (createLane l t s)
  | s_moveLane l t => answer (moveLane l t s)
  | s_appendEntry now e l => answer (appendEntry now e l s)
  | s_appendRecord now r => answer (appendRecord now r s)
  | s_setName n => answer (setName n s)
  | s_setLabel i l => answer (setLabel i l s)
  end.

Definition storage_step (s s' : State) : Prop := ∃ c, perform c s = (s', None).
Notation grows := (rtc storage_step).

(** The mutation behind a storage operation. *)
Lemma apply_cases f (s : State) :
  (∃ s', applyMutation (f s) s = Ok s' ∧ apply f s = (s', Ok ())) ∨ (∃ e, apply f s = (s, Err e)).
Proof. unfold apply. destruct (applyMutation (f s) s); eauto. Qed.

(** A call either changes nothing or is one mutation. *)
Lemma perform_cases c s :
  (∃ e, perform c s = (s, Some e))
  ∨ (∃ m s', applyMutation m s = Ok s' ∧ perform c s = (s', None)
       ∧ match c with s_appendRecord _ _ => True | _ => ∀ r, m ≠ mut_record r end).
Proof.
  destruct c as [l t | l t | now e l | now r | n | i l]; unfold perform, createLane, moveLane, appendEntry, appendRecord, setName, setLabel;
    rewrite ?stres_bind_eq; unfold check.
  - destruct (validateNewLane l s); [|left; eauto]. rewrite stres_bind_eq. destruct (validateTarget t s); [|left; eauto].
    destruct (apply_cases (λ s, mut_lane (nextSequence s) l t) s) as [(s' & H & ->) | (e & ->)]; [right | left]; eauto 6.
  - destruct (requireLane l s); [|left; eauto]. rewrite stres_bind_eq. destruct (validateTarget t s); [|left; eauto].
    destruct (apply_cases (λ s, mut_lane (nextSequence s) l t) s) as [(s' & H & ->) | (e & ->)]; [right | left]; eauto 6.
  - destruct (requireLane l s) as [p|]; [|left; eauto]. rewrite stres_bind_eq. destruct (validateUnusedId _ s); [|left; eauto].
    rewrite stres_bind_eq. cbn [get]. rewrite stres_bind_eq.
    destruct (apply_cases (λ _, mut_entry (Some l) (mkEntry (p_id e) (nextSequence s) p now (p_body e))) s) as [(s' & H & ->) | (x & ->)];
      [right | left]; eauto 6.
  - destruct (requireLane _ s); [|left; eauto]. rewrite stres_bind_eq. destruct (validateUnusedId _ s); [|left; eauto].
    rewrite stres_bind_eq. destruct (findOpenOperations _ _ s) as [open|]; [|left; eauto].
    destruct open as [|o open]; [|destruct (n_body r) eqn:Eb]; try (left; eexists; cbn; reflexivity);
      rewrite stres_bind_eq; cbn [get]; rewrite stres_bind_eq;
      (edestruct apply_cases as [(s' & H & E) | (e & E)]; rewrite E; [right | left]; eauto).
  - destruct (apply_cases (λ s, mut_name (nextSequence s) n) s) as [(s' & H & ->) | (e & ->)]; [right | left]; eauto 6.
  - destruct (validateTarget _ s); [|left; eauto].
    destruct (apply_cases (λ s, mut_label (nextSequence s) i l) s) as [(s' & H & ->) | (e & ->)]; [right | left]; eauto 6.
Qed.

Lemma perform_grows c s : grows s (perform c s).1.
Proof.
  destruct (perform_cases c s) as [(e & ->) | (m & s' & _ & H & _)]; [done|]. rewrite H. apply rtc_once. by exists c.
Qed.

(** ** Jobs *)

Definition job {A} (m : M A) : Prop := ∀ s, grows s (m s).1.

Lemma job_ret {A} (a : A) : job (mret a).
Proof. intros s. done. Qed.
Lemma job_throw {A} e : job (throw (A := A) e).
Proof. intros s. done. Qed.
Lemma job_get : job get.
Proof. intros s. done. Qed.
Lemma job_check {A} (f : State → result SessionError A) : job (check f).
Proof. intros s. done. Qed.
Lemma job_bind {A B} (m : M A) (f : A → M B) : job m → (∀ a, job (f a)) → job (m ≫= f).
Proof.
  intros Hm Hf s. rewrite stres_bind_eq. specialize (Hm s). destruct (m s) as [s1 [a|e]]; [|done]. cbn in *. etrans; [exact Hm | apply Hf].
Qed.

Lemma job_createLane l t : job (createLane l t).
Proof. intros s. apply (perform_grows (s_createLane l t)). Qed.
Lemma job_moveLane l t : job (moveLane l t).
Proof. intros s. apply (perform_grows (s_moveLane l t)). Qed.
Lemma job_appendEntry now e l : job (appendEntry now e l).
Proof. intros s. apply (perform_grows (s_appendEntry now e l)). Qed.
Lemma job_appendRecord now r : job (appendRecord now r).
Proof. intros s. apply (perform_grows (s_appendRecord now r)). Qed.
Lemma job_setName n : job (setName n).
Proof. intros s. apply (perform_grows (s_setName n)). Qed.
Lemma job_setLabel i l : job (setLabel i l).
Proof. intros s. apply (perform_grows (s_setLabel i l)). Qed.

Create HintDb jobs.
#[export] Hint Resolve job_ret job_throw job_get job_check job_createLane job_moveLane job_appendEntry job_appendRecord job_setName
  job_setLabel : jobs.
(** Walks through a job. *)
Ltac go_job := repeat first [ solve [eauto with jobs] | apply job_bind; [|intros] | case_match ].

Lemma job_append {B} (inj : B → RecordBody) now n : job (append inj now n).
Proof. unfold append. go_job.  Qed.
#[export] Hint Resolve job_append : jobs.

Section Jobs.
Implicit Types now : Z.
Lemma job_appendMessageTo l i now m : job (appendMessageTo l i now m).
Proof. unfold appendMessageTo. go_job. Qed.
Lemma job_appendCustomEntryTo l i now c d : job (appendCustomEntryTo l i now c d).
Proof. unfold appendCustomEntryTo. go_job. Qed.
Lemma job_acquireBranch l t : job (acquireBranch l t).
Proof. unfold acquireBranch. go_job. Qed.
Lemma job_transitionGeneration l x now n : job (transitionGeneration l x now n).
Proof. unfold transitionGeneration. go_job. Qed.
Lemma job_startGeneration o i now : job (startGeneration o i now).
Proof. unfold startGeneration. go_job. Qed.
Lemma job_commitGenerationOutcome o now : job (commitGenerationOutcome o now).
Proof. unfold commitGenerationOutcome. go_job. Qed.
Lemma job_startToolExecution o a b c d now : job (startToolExecution o a b c d now).
Proof. unfold startToolExecution. go_job. Qed.
Lemma job_transitionToolExecution l x now n : job (transitionToolExecution l x now n).
Proof. unfold transitionToolExecution. go_job. Qed.
Lemma job_checkpointToolExecution l x c i now : job (checkpointToolExecution l x c i now).
Proof. unfold checkpointToolExecution. go_job. Qed.
Lemma job_commitToolOutcome l x st o status i now : job (commitToolOutcome l x st o status i now).
Proof. apply job_transitionToolExecution. Qed.
Lemma job_placeToolOutcome l st r i now : job (placeToolOutcome l st r i now).
Proof. unfold placeToolOutcome. go_job. Qed.
Lemma job_enqueueInboxItem l q t r i now : job (enqueueInboxItem l q t r i now).
Proof. unfold enqueueInboxItem. go_job. Qed.
Lemma job_consume_all l o p now es ids : job (consume_all l o p now es ids).
Proof. revert ids. induction es as [|e es IH]; intros [|i ids]; cbn; go_job. Qed.
#[local] Hint Resolve job_consume_all : jobs.
Lemma job_consumeInbox l o es ids now : job (consumeInbox l o es ids now).
Proof. unfold consumeInbox. go_job. Qed.
Lemma job_requestAbort l o i now : job (requestAbort l o i now).
Proof. unfold requestAbort. go_job. Qed.
End Jobs.
#[export] Hint Resolve job_appendMessageTo job_appendCustomEntryTo job_acquireBranch job_transitionGeneration job_startGeneration
  job_commitGenerationOutcome job_startToolExecution job_transitionToolExecution job_checkpointToolExecution job_commitToolOutcome
  job_placeToolOutcome job_enqueueInboxItem job_consumeInbox job_requestAbort : jobs.

(** ** The open operation of a lane *)

(** The records [rs] finish the operation [id] of the lane. *)
Definition finishes (lane id : jsstr) (r : LaneRecord) : bool :=
  bool_decide (r_lane r = lane) && match r_body r with operation_finished f => bool_decide (of_runId f = id) | _ => false end.
Definition starts_in (lane : jsstr) (r : LaneRecord) : option (Rec OperationStarted) :=
  if bool_decide (r_lane r = lane) then pick as_started r else None.
(** The operations of a lane that no later record of the lane finishes. *)
Fixpoint unfinished (lane : jsstr) (rs : list LaneRecord) : list (Rec OperationStarted) :=
  match rs with
  | [] => []
  | r :: rs =>
      match starts_in lane r with
      | Some o => if existsb (finishes lane (r_id r)) rs then unfinished lane rs else o :: unfinished lane rs
      | None => unfinished lane rs
      end
  end.

Lemma starts_in_id lane r o : starts_in lane r = Some o → r_id o = r_id r.
Proof. unfold starts_in, pick. case_bool_decide; [|done]. destruct (as_started _); [|done]. by intros [= <-]. Qed.

Lemma unfinished_snoc lane rs r :
  unfinished lane (rs ++ [r]) = filter (λ o, finishes lane (r_id o) r = false) (unfinished lane rs) ++ option_list (starts_in lane r).
Proof.
  induction rs as [|x rs IH]; cbn [app unfinished].
  - cbn. by destruct (starts_in lane r).
  - destruct (starts_in lane x) as [o|] eqn:Ex; [|exact IH]. rewrite existsb_app. cbn [existsb]. rewrite orb_false_r.
    destruct (existsb _ rs) eqn:Ef; cbn [orb]; [exact IH|]. rewrite <- (starts_in_id _ _ _ Ex).
    destruct (finishes lane (r_id o) r) eqn:Er.
    + rewrite filter_cons_False by congruence. exact IH.
    + rewrite filter_cons_True by done. cbn. by f_equal.
Qed.

Definition open_in (s : State) (lane : jsstr) : list (jsstr * Rec OperationStarted) := default [] (openOperationsByLane s !! lane).

Record tracked (s : State) : Prop := {
  tracked_open : ∀ lane, (open_in s lane).*2 = unfinished lane (records s);
  tracked_keys : ∀ lane, (open_in s lane).*1 = r_id <$> (open_in s lane).*2;
  tracked_one : ∀ lane, (length (open_in s lane) <= 1)%nat }.

(** A mutation that is not a record leaves the records and the operations alone. *)
Lemma other_mutation m s s' : applyMutation m s = Ok s' → (∀ r, m ≠ mut_record r) →
  records s' = records s ∧ openOperationsByLane s' = openOperationsByLane s.
Proof.
  intros H Hm. unfold applyMutation in H. apply rbind_Ok in H as (_ & _ & H). destruct m as [l e|r|q l t|q n|q i l].
  - unfold apply_entry in H. repeat (apply rbind_Ok in H as (? & _ & H)). injection H as <-. by destruct l, (bool_decide _).
  - by destruct (Hm r).
  - apply rbind_Ok in H as (? & _ & H). by injection H as <-.
  - by injection H as <-.
  - apply rbind_Ok in H as (? & _ & H). by injection H as <-.
Qed.

Lemma record_mutation r s s' : applyMutation (mut_record r) s = Ok s' →
  records s' = records s ++ [r] ∧ openOperationsByLane s' = openOperationsByLane (track_operation r s).
Proof.
  intros H. unfold applyMutation in H. apply rbind_Ok in H as (_ & _ & H). unfold apply_record in H.
  repeat (apply rbind_Ok in H as (? & _ & H)). cbv zeta in H. set (s1 := s <| _ := _ |> <| _ := _ |> <| _ := _ |>) in H.
  destruct (track_operation_rest r s1) as (_ & _ & _ & _ & T & _).
  apply (f_equal (λ x, match x with Ok y => y | Err _ => s end)) in H. cbv beta iota in H.
  assert (Ht : openOperationsByLane (track_operation r s1) = openOperationsByLane (track_operation r s)).
  { unfold track_operation. destruct (r_body r); try done. change (openOperationsByLane s1) with (openOperationsByLane s).
    by destruct (openOperationsByLane s !! r_lane r). }
  rewrite <- H. destruct (r_body r); cbn; rewrite ?T, ?Ht; done.
Qed.

Lemma appendRecord_Ok now n s s' r : appendRecord now n s = (s', Ok r) →
  r = mkRec (n_id n) (nextSequence s) (n_lane n) now (n_body n) ∧ applyMutation (mut_record r) s = Ok s' ∧
  (is_Some (as_started (n_body n)) → open_in s (n_lane n) = []).
Proof.
  unfold appendRecord. rewrite stres_bind_eq. unfold check at 1. destruct (requireLane _ s); [|done]. rewrite stres_bind_eq.
  unfold check at 1. destruct (validateUnusedId _ s); [|done]. rewrite stres_bind_eq. unfold check, findOpenOperations. cbn [rbind].
  fold (open_in s (n_lane n)). set (open := open_in s (n_lane n)).
  assert (Hopen : take (Z.to_nat 1) (rev open.*2) = [] → open = []).
  { destruct open as [|p l] using rev_ind; [done|]. rewrite fmap_app, rev_app_distr. done. }
  replace (assertValidLimit (Some 1)) with (Ok (E := SessionError) ()) by done. cbn [rbind].
  destruct (take (Z.to_nat 1) (rev open.*2)) as [|o l].
  - rewrite stres_bind_eq. cbn [get]. rewrite stres_bind_eq. unfold apply.
    destruct (applyMutation _ s) as [s1|] eqn:E; [|done]. intros [= <- <-]. auto.
  - destruct (n_body n) eqn:Eb; try done; rewrite stres_bind_eq; cbn [get]; rewrite stres_bind_eq; unfold apply;
      (destruct (applyMutation _ s) as [s1|] eqn:E; [|done]); intros [= <- <-]; split_and!; try done; by intros [? ?].
Qed.

Lemma tracked_same s s' : records s' = records s → openOperationsByLane s' = openOperationsByLane s → tracked s → tracked s'.
Proof. intros E1 E2 [T1 T2 T3]. constructor; unfold open_in; rewrite E2; [rewrite E1|..]; auto. Qed.

Lemma mdelete_one_filter {V} (k : jsstr) (m : list (jsstr * V)) : (length m <= 1)%nat →
  mdelete k m = filter (λ p, p.1 ≠ k) m.
Proof.
  intros Hlen. destruct m as [|[k1 v] [|]]; [done | | cbn in Hlen; lia]. rewrite filter_cons. cbn. by repeat case_decide.
Qed.

Lemma tracked_record s r : tracked s → (is_Some (as_started (r_body r)) → open_in s (r_lane r) = []) →
  ∀ s', records s' = records s ++ [r] → openOperationsByLane s' = openOperationsByLane (track_operation r s) → tracked s'.
Proof.
  intros [T1 T2 T3] Hs s' E1 E2.
  assert (Hlane : ∀ lane, open_in s' lane = filter (λ p, finishes lane p.1 r = false) (open_in s lane)
                                            ++ ((λ o, (r_id o, o)) <$> option_list (starts_in lane r))).
  { intros lane. unfold open_in at 1. rewrite E2. unfold starts_in, finishes, track_operation. destruct (decide (r_lane r = lane)) as [<- | Hne].
    - rewrite bool_decide_eq_true_2 by done. unfold pick, update_with. destruct (r_body r) as [o| | |f| | | | | | | |] eqn:Eb; cbn;
        try (rewrite app_nil_r, filter_all by (by apply Forall_forall); done).
      + rewrite lookup_insert, decide_True by done. cbn. fold (open_in s (r_lane r)). rewrite Hs by (cbn; eauto). done.
      + rewrite app_nil_r. unfold open_in. destruct (openOperationsByLane s !! r_lane r) as [open|] eqn:El; cbn; [|by rewrite El].
        rewrite lookup_insert, decide_True by done. cbn. rewrite mdelete_one_filter.
        * apply list_filter_iff. intros p. rewrite bool_decide_eq_false. split; congruence.
        * specialize (T3 (r_lane r)). unfold open_in in T3. by rewrite El in T3.
    - rewrite bool_decide_eq_false_2 by done. cbn. rewrite app_nil_r, filter_all by (by apply Forall_forall).
      unfold open_in, update_with. destruct (r_body r); try done; cbn.
      + by rewrite lookup_insert_ne.
      + destruct (openOperationsByLane s !! r_lane r); [cbn; by rewrite lookup_insert_ne | done]. }
  assert (Hfil : ∀ lane, filter (λ p, finishes lane p.1 r = false) (open_in s lane)
      = filter (λ p, finishes lane (r_id p.2) r = false) (open_in s lane)).
  { intros lane. specialize (T2 lane). revert T2. induction (open_in s lane) as [|p l IH]; [done|]. intros [= E El].
    rewrite !filter_cons, E, IH by done. done. }
  assert (Hsnd : ∀ lane, (open_in s' lane).*2 = unfinished lane (records s')).
  { intros lane. rewrite Hlane, Hfil, E1, unfinished_snoc, <- T1, fmap_app. f_equal.
    - generalize (open_in s lane). intros l. induction l as [|p l IH]; [done|]. rewrite fmap_cons, !filter_cons.
      case_decide; rewrite ?fmap_cons; by rewrite IH.
    - by destruct (starts_in lane r). }
  constructor; [exact Hsnd|..].
  - intros lane. rewrite Hlane, !fmap_app. f_equal; [|by destruct (starts_in lane r)].
    specialize (T2 lane). revert T2. induction (open_in s lane) as [|p l IH]; [done|]. intros [= E El].
    rewrite !filter_cons. case_decide; cbn; rewrite ?E; f_equal; auto.
  - intros lane. rewrite Hlane, length_app, length_fmap. destruct (starts_in lane r) as [o|] eqn:Eo; cbn.
    + unfold starts_in, pick in Eo. case_bool_decide as El; [|done]. destruct (as_started (r_body r)) eqn:Ea; [|done].
      rewrite <- El, Hs by eauto. done.
    + specialize (T3 lane). pose proof (length_filter (λ p, finishes lane p.1 r = false) (open_in s lane)). lia.
Qed.

Inductive stored : State → Prop :=
| stored_new initialLanes : stored (newState initialLanes)
| stored_fork o s s' : stored s → fork o s = Ok s' → stored s'
| stored_step s s' : stored s → storage_step s s' → stored s'.

Lemma stored_job {A} (m : M A) s : job m → stored s → stored (m s).1.
Proof.
  intros Hm Hs. specialize (Hm s). revert Hs. induction Hm as [|s1 s2 s3 H12 _ IH]; [done|]. intros Hs. apply IH. by eapply stored_step.
Qed.

Lemma step_tracked s s' : tracked s → storage_step s s' → tracked s'.
Proof.
  intros T [c Hc]. destruct (perform_cases c s) as [(e & E) | (m & s1 & Hm & E & Hk)]; rewrite E in Hc; [done|]. injection Hc as ->.
  destruct c as [| | |now n| |]; try (destruct (other_mutation _ _ _ Hm Hk) as [E1 E2]; by eapply tracked_same).
  unfold perform in E. destruct (appendRecord now n s) as [s2 [r|e]] eqn:Ea; [|done]. injection E as ->.
  apply appendRecord_Ok in Ea as (-> & Hr & Ho). destruct (record_mutation _ _ _ Hr) as [E1 E2]. refine (tracked_record s (mkRec (n_id n) (nextSequence s) (n_lane n) now (n_body n)) T Ho s' E1 E2).
Qed.

Lemma stored_wf s : stored s → wf s.
Proof.
  induction 1 as [l | o s s' _ W H | s s' _ W [c Hc]]; [apply new_wf | |].
  - unfold fork in H. destruct (createForkMutations o s); [|done]. eapply apply_all_wf; [apply new_wf | exact H].
  - destruct (perform_cases c s) as [(e & E) | (m & s1 & Hm & E & _)]; rewrite E in Hc; [done|]. injection Hc as <-.
    by eapply apply_mutation_wf.
Qed.

Lemma tracked_new l : tracked (newState l).
Proof. constructor; intros lane; unfold open_in; cbn; rewrite lookup_empty; cbn; done || lia. Qed.

Lemma stored_tracked s : stored s → tracked s.
Proof.
  induction 1 as [l | o s s' St _ H | s s' _ T H]; [apply tracked_new | | by eapply step_tracked].
  pose proof (stored_wf _ St) as W. unfold fork in H.
  destruct (copied_scope s o W) as [(e & E & _) | (copied & ps & E & _)].
  - unfold createForkMutations in H. by rewrite E in H.
  - rewrite (createForkMutations_eq o s copied ps E) in H. cbn [rbind] in H. revert H.
    assert (Hf : Forall (λ m, ∀ r, m ≠ mut_record r) (fork_mutations copied ps s)).
    { unfold fork_mutations. rewrite label_mutations. unfold numbered. rewrite !Forall_app. split_and!.
      - apply Forall_forall. intros m Hm. apply elem_of_lookup_imap in Hm as (? & ? & -> & _). done.
      - apply Forall_forall. intros m Hm. apply elem_of_lookup_imap in Hm as (? & ? & -> & _). done.
      - destruct (name s); by repeat constructor.
      - apply Forall_forall. intros m Hm. apply elem_of_lookup_imap in Hm as (? & ? & -> & _). done. }
    generalize (tracked_new []). generalize (newState []). revert Hf. induction (fork_mutations copied ps s) as [|m l IH].
    + by intros _ s0 T [= <-].
    + intros [Hm Hf]%Forall_cons s0 T H. cbn in H. apply rbind_Ok in H as (s1 & H1 & H2). eapply IH; [done| |exact H2].
      destruct (other_mutation _ _ _ H1 Hm). by eapply tracked_same.
Qed.

(** ** Theorems *)

(** C14. A lane runs at most one operation, and it is the one that is not finished: in every state the storage can reach,
    by any jobs on new or forked sessions, the open operations of a lane are exactly the starts recorded in the lane
    that no later record of the lane finishes, and there is at most one. *)
Theorem lane_runs_one_operation s lane : stored s → ∃ open,
  findOpenOperations lane None s = Ok open ∧ open = unfinished lane (records s) ∧ (length open <= 1)%nat.
Proof.
  intros St. destruct (stored_tracked _ St) as [T1 T2 T3]. eexists. split; [done|]. fold (open_in s lane).
  assert (Hrev : rev (open_in s lane).*2 = (open_in s lane).*2).
  { specialize (T3 lane). destruct (open_in s lane) as [|p [|]]; cbn in *; [done..|lia]. }
  rewrite Hrev, T1. split; [done|]. rewrite <- T1, length_fmap. apply T3.
Qed.

(** A mutation appends one item to the log, and what it carries to the entries or the records. *)
Lemma mutation_appends m s s' : applyMutation m s = Ok s' →
  (∃ i, log s' = log s ++ [i] ∧ log_seq i = sequence s + 1) ∧ sequence s' = sequence s + 1 ∧
  match m with
  | mut_entry _ e => entries s' = entries s ++ [e] ∧ records s' = records s
  | mut_record r => entries s' = entries s ∧ records s' = records s ++ [r]
  | _ => entries s' = entries s ∧ records s' = records s
  end.
Proof.
  intros H. unfold applyMutation in H. apply rbind_Ok in H as (u & Hq%valid_Ok & H). apply Z.eqb_eq in Hq.
  destruct m as [l e|r|q l t|q n|q i l]; cbn in Hq.
  - unfold apply_entry in H. repeat (apply rbind_Ok in H as (? & _ & H)). injection H as <-.
    destruct l, (bool_decide _); cbn; split_and!; eauto.
  - unfold apply_record in H. repeat (apply rbind_Ok in H as (? & _ & H)). cbv zeta in H.
    set (s1 := s <| _ := _ |> <| _ := _ |> <| _ := _ |>) in H. destruct (track_operation_rest r s1) as (T1 & _ & T3 & _ & T5 & _ & T7 & _).
    apply (f_equal (λ x, match x with Ok y => y | Err _ => s end)) in H. cbv beta iota in H. rewrite <- H.
    destruct (r_body r); cbn; rewrite ?T1, ?T3, ?T5, ?T7; split_and!; eauto.
  - apply rbind_Ok in H as (? & _ & H). injection H as <-. cbn. split_and!; eauto.
  - injection H as <-. cbn. split_and!; eauto.
  - apply rbind_Ok in H as (? & _ & H). injection H as <-. cbn. split_and!; eauto.
Qed.

(** A refused storage operation changes nothing, and an accepted one keeps everything: the entries and
    the records a session had are still there, in order, after any storage operation. *)
Theorem storage_appends_or_refuses c s : match perform c s with
  | (s', Some _) => s' = s
  | (s', None) => entries s `prefix_of` entries s' ∧ records s `prefix_of` records s' ∧ log s `prefix_of` log s' ∧
      length (log s') = S (length (log s))
  end.
Proof.
  destruct (perform_cases c s) as [(e & ->) | (m & s' & H & -> & _)]; [done|].
  destruct (mutation_appends _ _ _ H) as ((i & Hl & _) & _ & Hm). rewrite Hl, length_app. cbn. destruct m; destruct Hm as [-> ->];
    split_and!; try done; try lia; by apply prefix_app_r.
Qed.

End SessionJobs.
