(* ===== verification/ToolExecution.v ===== *)
(** * Durable tool execution

    Models [agent/src/harness/tool-execution.ts] over the sessions of [Session].  A
    running execution is a process of the state: every [await] of [run] splits it, the
    updates of a tool wait in its checkpoint chain, and a crash drops the processes and
    keeps the session.  The tools themselves and the validation of their arguments
    ([ai/src/utils/validation.ts], over a schema library) are arguments. *)
From S2P Require Import Prelude JsMap JsString Json AgentData SessionState SessionQueries Session SessionJobs.

Module ToolExecution.
Import AgentData SessionState Storage Session.
Import Json (json, j_array, j_object, j_string, quote).

(** ** Outcomes *)

Definition textResult (text : jsstr) (isError : bool) : DurableToolOutcome :=
  mkOutcome (j_array [j_object [(js "type", j_string (js "text")); (js "text", j_string text)]]) None None None None isError.

Record AgentToolResult := mkResult {
  ar_content : json; ar_details : option json; ar_usage : option json; ar_addedToolNames : option (list jsstr);
  ar_terminate : option bool }.
(** What a tool returns or reports: a value with a JSON form, or one that [assertJsonSerializable] rejects. *)
Inductive tool_value := serializable (r : AgentToolResult) | not_serializable (reason : jsstr).

Definition toOutcome (v : tool_value) (isError : bool) : result jsstr DurableToolOutcome :=
  match v with
  | serializable r => Ok (mkOutcome (ar_content r) (ar_details r) (ar_usage r) (ar_addedToolNames r) (ar_terminate r) isError)
  | not_serializable reason => Err reason
  end.

Definition outcomeMessage (call : ToolExecutionState) (outcome : DurableToolOutcome) (now : Z) : AgentMessage :=
  m_toolResult (mkToolResult (x_toolCallId call) (x_toolName call) (do_content outcome) (do_details outcome) (do_usage outcome)
    (do_addedToolNames outcome) (do_isError outcome) now).

Definition stateWith (state : Rec ToolExecutionState) (status : ToolExecutionStatus) (id : jsstr)
    (outcome : option DurableToolOutcome) (errorMessage : option jsstr) : NewRecord ToolExecutionState :=
  let b := r_body state <| x_status := status |> in
  let b := match outcome with None => b | Some _ => b <| x_outcome := outcome |> end in
  again state id (match errorMessage with None => b | Some _ => b <| x_errorMessage := errorMessage |> end).

(** ** Tools *)

Record HarnessTool := mkTool { tool_name : jsstr; tool_prepareArguments : option (json → result jsstr json) }.
Inductive prepared := ready (tool : HarnessTool) (args : json) | refused (outcome : DurableToolOutcome).

Section Execution.
Context (validateToolArguments : HarnessTool → json → result jsstr json).

Definition prepareToolCall (name : jsstr) (arguments : json) (tools : list HarnessTool) : prepared :=
  match find (λ t, bool_decide (tool_name t = name)) tools with
  | None => refused (textResult (js "Tool " ++ quote (const false) name ++ js " is unavailable") true)
  | Some tool =>
      match (let* p := match tool_prepareArguments tool with Some f => f arguments | None => Ok arguments end in
             validateToolArguments tool p) with
      | Ok args => ready tool args
      | Err text => refused (textResult text true)
      end
  end.

(** ** Processes *)

(** How the call of the tool ended. *)
Inductive ending := returned (v : tool_value) | threw (text : jsstr).

(** Where an execution waits.  [durable] is the last state it stored, [chain] the updates that are not stored yet and
    [broken] whether storing one failed. *)
Inductive phase :=
| admitted (pending : Rec ToolExecutionState) (tools : list HarnessTool)
| running (pending durable : Rec ToolExecutionState) (chain : list DurableToolOutcome) (broken : bool)
| ended (pending durable : Rec ToolExecutionState) (chain : list DurableToolOutcome) (broken : bool) (e : ending).

(** [effects] is the history of the calls of tools: the state that admitted each. *)
Record World := mkWorld { session : State; procs : gmap nat phase; effects : list (Rec ToolExecutionState) }.
#[export] Instance world_rebuild : Rebuild World := λ w, mkWorld (session w) (procs w) (effects w).

Context (lane : jsstr).

(** A job of the session, with its answer; an execution whose job fails rejects. *)
Definition on_session {A} (m : M A) (w : World) : World * result SessionError A :=
  let '(s, r) := m (session w) in (w <| session := s |>, r).
Definition set_proc (p : nat) (ph : phase) (w : World) : World := w <| procs := <[p := ph]> (procs w) |>.
Definition stop (p : nat) (w : World) : World := w <| procs := delete p (procs w) |>.

Definition expected (r : Rec ToolExecutionState) : jsstr * ToolExecutionStatus := (r_id r, x_status (r_body r)).
Definition INTERRUPTED : jsstr := js "Tool execution was interrupted; external completion is unknown.".
Definition CANCELLED : jsstr := js "Tool execution was cancelled before completion.".

(** [run], up to the transition that admits the effect. *)
Definition run (p : nat) (state : Rec ToolExecutionState) (tools : list HarnessTool) (id : jsstr) (now : Z) (w : World) : World :=
  let st := x_status (r_body state) in
  if bool_decide (st = x_completed) || has_outcome st then w
  else if bool_decide (st = x_effect_pending) && bool_decide (x_replay (r_body state) = never) then
    (on_session (commitToolOutcome lane (expected state) state (textResult INTERRUPTED true) (Some x_interrupted) id now) w).1
  else
    match on_session (transitionToolExecution lane (expected state) now (stateWith state x_effect_pending id None None)) w with
    | (w, Ok (Some pending)) => set_proc p (admitted pending tools) w
    | (w, _) => w
    end.

Definition cancel (state : Rec ToolExecutionState) (id : jsstr) (now : Z) (w : World) : World :=
  (on_session (commitToolOutcome lane (expected state) state (textResult CANCELLED true) (Some x_cancelled) id now) w).1.

(** The continuation of [run] once the intent is stored: the signal, the preparation, the call. *)
Definition continue_run (p : nat) (aborted : bool) (id : jsstr) (now : Z) (w : World) : World :=
  match procs w !! p with
  | Some (admitted pending tools) =>
      if aborted then cancel pending id now (stop p w)
      else match prepareToolCall (x_toolName (r_body pending)) (x_args (r_body pending)) tools with
           | refused outcome =>
               (on_session (commitToolOutcome lane (r_id pending, x_effect_pending) pending outcome (Some x_failed) id now)
                  (stop p w)).1
           | ready _ _ => set_proc p (running pending pending [] false) (w <| effects := effects w ++ [pending] |>)
           end
  | _ => w
  end.

(** [onUpdate]; after the call has ended updates are ignored. *)
Definition update (p : nat) (v : tool_value) (w : World) : World :=
  match procs w !! p with
  | Some (running pending durable chain broken) =>
      match toOutcome v false with
      | Ok checkpoint => set_proc p (running pending durable (chain ++ [checkpoint]) broken) w
      | Err _ => w
      end
  | _ => w
  end.

(** The next link of the checkpoint chain; after a failure the rest of the chain is skipped. *)
Definition store_checkpoint (durable : Rec ToolExecutionState) (c : DurableToolOutcome) (broken : bool) (id : jsstr) (now : Z)
    (w : World) : World * Rec ToolExecutionState * bool :=
  if broken then (w, durable, true)
  else match on_session (checkpointToolExecution lane (expected durable) c id now) w with
       | (w, Ok (Some next)) => (w, next, false)
       | (w, Ok None) => (w, durable, false)
       | (w, Err _) => (w, durable, true)
       end.
Definition checkpoint (p : nat) (id : jsstr) (now : Z) (w : World) : World :=
  match procs w !! p with
  | Some (running pending durable (c :: chain) broken) =>
      let '(w, durable, broken) := store_checkpoint durable c broken id now w in
      set_proc p (running pending durable chain broken) w
  | Some (ended pending durable (c :: chain) broken e) =>
      let '(w, durable, broken) := store_checkpoint durable c broken id now w in
      set_proc p (ended pending durable chain broken e) w
  | _ => w
  end.

(** The tool's promise settles. *)
Definition end_call (p : nat) (e : ending) (w : World) : World :=
  match procs w !! p with
  | Some (running pending durable chain broken) => set_proc p (ended pending durable chain broken e) w
  | _ => w
  end.

(** The [catch] block: a failed or cancelled outcome. *)
Definition commit_error (p : nat) (durable : Rec ToolExecutionState) (text : jsstr) (aborted : bool) (id : jsstr) (now : Z)
    (w : World) : World :=
  (on_session (commitToolOutcome lane (expected durable) durable (textResult text true)
     (Some (if aborted then x_cancelled else x_failed)) id now) (stop p w)).1.

(** The end of [run], once the chain is empty.  A broken chain rejects; a result without a JSON form and a commit that
    throws go to the [catch] block. *)
Definition settle (p : nat) (aborted : bool) (id id' : jsstr) (now : Z) (w : World) : World :=
  match procs w !! p with
  | Some (ended pending durable [] broken e) =>
      if broken then stop p w
      else match e with
           | threw text => commit_error p durable text aborted id now w
           | returned v =>
               match toOutcome v false with
               | Err reason => commit_error p durable reason aborted id now w
               | Ok outcome =>
                   match on_session (commitToolOutcome lane (expected durable) durable outcome None id now) w with
                   | (w, Ok _) => stop p w
                   | (w, Err e) => commit_error p durable (error_message e) aborted id' now w
                   end
               end
           end
  | _ => w
  end.

(** [place]: the entry of the outcome, then the completed state; the answer is the state that is stored then, if
    the outcome could be placed. *)
Definition newest_of (invocationId : jsstr) (w : World) : result SessionError (option (Rec ToolExecutionState)) :=
  let* states := tool_states lane (session w) in
  Ok (find (λ r, bool_decide (x_invocationId (r_body r) = invocationId)) (rev states)).
Definition place (state : Rec ToolExecutionState) (id : jsstr) (now : Z) (w : World)
    : World * result SessionError (option (Rec ToolExecutionState)) :=
  if bool_decide (x_status (r_body state) = x_completed) then (w, Ok (Some state))
  else match x_outcome (r_body state) with
       | None => (w, Ok None)
       | Some outcome =>
           match on_session (placeToolOutcome lane state
             (mkProvisioned (x_resultEntryId (r_body state)) (message (outcomeMessage (r_body state) outcome now) false)) id now) w with
           | (w, Ok true) => (w, newest_of (x_invocationId (r_body state)) w)
           | (w, Ok false) => (w, Ok None)
           | (w, Err e) => (w, Err e)
           end
       end.

(** ** The calls *)

Inductive call :=
| c_start (runId assistantEntryId : jsstr) (toolIndex : Z) (toolCall : AgentToolCall) (args : json) (replay : Replay)
    (invocationId resultEntryId startId stateId : jsstr) (now : Z)
| c_run (p : nat) (state : Rec ToolExecutionState) (tools : list HarnessTool) (id : jsstr) (now : Z)
| c_continue (p : nat) (aborted : bool) (id : jsstr) (now : Z)
| c_update (p : nat) (v : tool_value)
| c_checkpoint (p : nat) (id : jsstr) (now : Z)
| c_end (p : nat) (e : ending)
| c_settle (p : nat) (aborted : bool) (id id' : jsstr) (now : Z)
| c_cancel (state : Rec ToolExecutionState) (id : jsstr) (now : Z)
| c_place (state : Rec ToolExecutionState) (id : jsstr) (now : Z)
| c_crash
| c_job (job : State → State).

Definition start_options (runId assistantEntryId : jsstr) (toolIndex : Z) (c : AgentToolCall) (args : json) (replay : Replay) : StartTool :=
  mkStartTool lane runId assistantEntryId toolIndex (tc_id c) (tc_name c) args replay.

Definition step (w : World) (c : call) : World :=
  match c with
  | c_start r a i tc args rp inv res sid xid now => (on_session (startToolExecution (start_options r a i tc args rp) inv res sid xid now) w).1
  | c_run p state tools id now => run p state tools id now w
  | c_continue p aborted id now => continue_run p aborted id now w
  | c_update p v => update p v w
  | c_checkpoint p id now => checkpoint p id now w
  | c_end p e => end_call p e w
  | c_settle p aborted id id' now => settle p aborted id id' now w
  | c_cancel state id now => cancel state id now w
  | c_place state id now => (place state id now w).1
  | c_crash => w <| procs := ∅ |>
  | c_job job => w <| session := job (session w) |>
  end.

End Execution.

End ToolExecution.

(** * Every invocation of a tool follows its lifecycle

    What the interleaved executions, recoveries and crashes of one lane leave in the
    session: the states of an invocation form a run of a small automaton, an effect is
    called only after its intent is stored and once per intent, and its result is placed
    once. *)

Module ToolExecutionProps.
Import AgentData SessionState Storage SessionStateProps SessionQueries Session SessionJobs ToolExecution.

(** ** The stored states of a lane *)

Definition lane_tools (lane : jsstr) (s : State) : list (Rec ToolExecutionState) :=
  omap (λ r, if bool_decide (r_lane r = lane) then pick as_tool_state r else None) (records s).
Definition of_invocation (i : jsstr) (l : list (Rec ToolExecutionState)) : list (Rec ToolExecutionState) :=
  filter (λ r, x_invocationId (r_body r) = i) l.

Lemma tool_states_eq lane s : tool_states lane s = Ok (lane_tools lane s).
Proof.
  unfold tool_states. rewrite find_records by done. cbn [rbind rq_limit lane_query upTo rq_order]. f_equal. unfold lane_tools, ordered.
  rewrite bool_decide_eq_true_2 by done. induction (records s) as [|r l IH]; [done|]. rewrite filter_cons. cbn [omap list_omap].
  assert (Hm : matchesRecordQuery (lane_query lane (Some rt_tool_execution_state) oldestFirst None) r
               = bool_decide (r_lane r = lane) && bool_decide (record_type (r_body r) = rt_tool_execution_state)).
  { unfold matchesRecordQuery. cbn. by rewrite !andb_true_r. }
  rewrite Hm. destruct (bool_decide (r_lane r = lane)); cbn [andb]; [|by rewrite decide_False].
  assert (Hp : pick as_tool_state r = None ↔ record_type (r_body r) ≠ rt_tool_execution_state).
  { unfold pick. by destruct (r_body r). }
  destruct (pick as_tool_state r) as [x|] eqn:Ep.
  - rewrite decide_True. { cbn [omap list_omap]. rewrite Ep. by f_equal. }
    apply bool_decide_eq_true. destruct (decide (record_type (r_body r) = rt_tool_execution_state)) as [|Hn]; [done|]. by apply Hp in Hn.
  - rewrite decide_False; [exact IH|]. apply not_true_iff_false, bool_decide_eq_false. by apply Hp.
Qed.

Lemma lane_tools_app lane s s' rs : records s' = records s ++ rs →
  lane_tools lane s' = lane_tools lane s ++ lane_tools lane (s <| records := rs |>).
Proof. intros E. unfold lane_tools. by rewrite E, omap_app. Qed.

Lemma lane_tools_ids lane s : wf s → NoDup (r_id <$> lane_tools lane s).
Proof.
  intros W. eapply sublist_NoDup; [exact (wf_record_ids _ W)|]. unfold lane_tools, record_ids.
  induction (records s) as [|r l IH]; cbn; [done|]. case_bool_decide; [|by constructor].
  unfold pick. destruct (as_tool_state (r_body r)); cbn; by constructor.
Qed.

Lemma same_id lane s a b : wf s → a ∈ lane_tools lane s → b ∈ lane_tools lane s → r_id a = r_id b → a = b.
Proof.
  intros W [k Hk]%list_elem_of_lookup [j Hj]%list_elem_of_lookup E. assert (k = j) as ->.
  { apply (NoDup_lookup _ k j (r_id a) (lane_tools_ids lane s W)); rewrite list_lookup_fmap; [by rewrite Hk | rewrite Hj; cbn; congruence]. }
  congruence.
Qed.

Lemma lane_of lane s r : r ∈ lane_tools lane s → r_lane r = lane.
Proof.
  unfold lane_tools. intros (x & _ & Hx)%list_elem_of_omap. case_bool_decide; [|done]. unfold pick in Hx.
  destruct (as_tool_state _); [|done]. by injection Hx as <-.
Qed.

(** ** What the jobs store *)

(** One state after the other, and no other state of the lane. *)
Definition stores (lane : jsstr) (s s' : State) (l : list (Rec ToolExecutionState)) : Prop :=
  grows s s' ∧ lane_tools lane s' = lane_tools lane s ++ l.

Lemma stores_refl lane s : stores lane s s [].
Proof. split; [done|]. by rewrite app_nil_r. Qed.
Lemma stores_trans lane s1 s2 s3 l l' : stores lane s1 s2 l → stores lane s2 s3 l' → stores lane s1 s3 (l ++ l').
Proof. intros [G1 E1] [G2 E2]. split; [by etrans|]. by rewrite E2, E1, app_assoc. Qed.

Lemma append_stores {B} lane (inj : B → RecordBody) now n s :
  match append inj now n s with
  | (s', Ok r) => r = mkRec (n_id n) (r_seq r) (n_lane n) now (n_body n) ∧
      stores lane s s' (if bool_decide (n_lane n = lane) then
        option_list (match as_tool_state (inj (n_body n)) with Some x => Some (mkRec (n_id n) (r_seq r) (n_lane n) now x) | None => None end)
        else [])
  | (s', Err _) => s' = s
  end.
Proof.
  pose proof (job_append inj now n s) as G. unfold append in *. rewrite stres_bind_eq in *.
  destruct (appendRecord now _ s) as [s' [r|e]] eqn:E.
  - apply appendRecord_Ok in E as (-> & Hm & _). cbn in *. split; [done|]. split; [exact G|].
    destruct (record_mutation _ _ _ Hm) as [Hr _]. unfold lane_tools. rewrite Hr, omap_app. f_equal. cbn.
    case_bool_decide; [|done]. unfold pick. cbn. by destruct (as_tool_state _).
  - destruct (perform_cases (s_appendRecord now (mkNew (n_id n) (n_lane n) (inj (n_body n)))) s) as [(x & Ex) | (m & s1 & _ & Ex & _)];
      unfold perform in Ex; rewrite E in Ex; cbn in Ex; congruence.
Qed.

(** ** The lifecycle of an invocation *)

(** The automaton of the states; only a tool that may be replayed repeats its effect without a checkpoint. *)
Definition may_move (replay : Replay) (a b : ToolExecutionStatus) : bool :=
  match b with
  | x_planned => false
  | x_effect_pending =>
      match a with x_planned | x_checkpointed => true | x_effect_pending => bool_decide (replay = safe) | _ => false end
  | x_checkpointed | x_outcome_ready | x_failed => match a with x_effect_pending | x_checkpointed => true | _ => false end
  | x_interrupted => bool_decide (a = x_effect_pending)
  | x_cancelled => true
  | x_completed => has_outcome a
  end.
Definition moves (x y : ToolExecutionState) : Prop :=
  may_move (x_replay x) (x_status x) (x_status y) = true ∧ x_invocationId y = x_invocationId x ∧ x_replay y = x_replay x ∧
  x_resultEntryId y = x_resultEntryId x.

Inductive lifecycle : list ToolExecutionState → Prop :=
| life_planned x : x_status x = x_planned → lifecycle [x]
| life_move l x y : lifecycle l → last l = Some x → moves x y → lifecycle (l ++ [y]).

Section Jobs.
Context (lane : jsstr).
Notation tools := (lane_tools lane).

Lemma latest_of l i : mget i (latestByInvocation l) = last (of_invocation i l).
Proof.
  induction l as [|r l IH] using rev_ind; [done|]. unfold latestByInvocation, of_invocation in *. rewrite foldl_app, filter_app. cbn.
  rewrite mget_mset, IH. destruct (decide (i = x_invocationId (r_body r))) as [->|Hn]; repeat case_decide; try done.
  - by rewrite last_snoc.
  - by rewrite app_nil_r.
Qed.

Lemma is_tool_Some e c : is_tool e c = true → ∃ r, c = Some r ∧ r_id r = e.1 ∧ x_status (r_body r) = e.2.
Proof. destruct c as [r|]; [|done]. cbn. intros H. bool_prop. eauto. Qed.

Lemma last_elem {A} (l : list A) x : last l = Some x → x ∈ l.
Proof. intros [l' ->]%last_Some. apply elem_of_app. right. by apply list_elem_of_singleton. Qed.
Lemma last_of_invocation i s c : last (of_invocation i (tools s)) = Some c → c ∈ tools s ∧ x_invocationId (r_body c) = i.
Proof. intros H%last_elem. unfold of_invocation in H. apply list_elem_of_filter in H. tauto. Qed.

(** The newest state of its invocation. *)
Definition is_newest (s : State) (c : Rec ToolExecutionState) : Prop :=
  last (of_invocation (x_invocationId (r_body c)) (tools s)) = Some c.

(** Compare and set: a state is stored only after the newest state of its invocation, and that is the expected one. *)
Lemma tool_transition_cases e now next s : n_lane next = lane →
  match transitionToolExecution lane e now next s with
  | (s', Ok (Some x)) => ∃ c, x = mkRec (n_id next) (r_seq x) lane now (n_body next) ∧ is_newest s c ∧ r_id c = e.1 ∧
                              x_status (r_body c) = e.2 ∧ stores lane s s' [x]
  | (s', _) => s' = s
  end.
Proof.
  intros Hl. unfold transitionToolExecution. rewrite stres_bind_eq. unfold check. rewrite tool_states_eq. cbv zeta beta iota.
  rewrite latest_of. set (i := match with_id _ _ with Some _ => _ | None => _ end).
  destruct (is_tool e _) eqn:Et; [|done]. apply is_tool_Some in Et as (c & Hc & E1 & E2). rewrite stres_bind_eq.
  pose proof (append_stores lane tool_execution_state now next s) as H. destruct (append _ _ _ s) as [s' [x|]]; [|done].
  destruct H as [Hx Hs]. rewrite bool_decide_eq_true_2 in Hs by done. cbn in Hs, Hx. rewrite Hl in Hs, Hx. exists c.
  pose proof (last_of_invocation _ _ _ Hc) as [_ Hi]. split_and!; [done | | done | done |].
  - unfold is_newest. rewrite Hi. exact Hc.
  - by rewrite Hx.
Qed.

Lemma checkpoint_cases e v id now s :
  match checkpointToolExecution lane e v id now s with
  | (s', Ok (Some x)) => ∃ c, x = mkRec id (r_seq x) lane now (r_body c <| x_status := x_checkpointed |> <| x_checkpoint := Some v |>) ∧
                              is_newest s c ∧ r_id c = e.1 ∧ x_status (r_body c) = e.2 ∧ stores lane s s' [x]
  | (s', _) => s' = s
  end.
Proof.
  unfold checkpointToolExecution. rewrite stres_bind_eq. unfold check. rewrite tool_states_eq. cbv zeta beta iota.
  destruct (with_id _ _) as [f|]; [|done]. fold (of_invocation (x_invocationId (r_body f)) (tools s)).
  destruct (last _) as [c|] eqn:Hc; [|done]. destruct (is_tool e _) eqn:Et; [|done].
  apply is_tool_Some in Et as (c' & [= <-] & E1 & E2). rewrite stres_bind_eq.
  pose proof (last_of_invocation _ _ _ Hc) as [Hin Hi]. pose proof (lane_of _ _ _ Hin) as Hl.
  pose proof (append_stores lane tool_execution_state now (again c id (r_body c <| x_status := x_checkpointed |> <| x_checkpoint := Some v |>)) s) as H.
  destruct (append _ _ _ s) as [s' [x|]]; [|done]. destruct H as [Hx Hs]. rewrite bool_decide_eq_true_2 in Hs by done. cbn in Hs, Hx.
  exists c. split_and!; [by rewrite <- Hl | | done | done |].
  - unfold is_newest. rewrite Hi. exact Hc.
  - rewrite Hx. exact Hs.
Qed.

(** ** Admissible changes of the session *)

Definition admissible (s s' : State) (l : list (Rec ToolExecutionState)) : Prop :=
  match l with
  | [] => True
  | [x] => x_status (r_body x) = x_planned ∧ Forall (λ r, x_invocationId (r_body r) ≠ x_invocationId (r_body x)) (tools s)
           ∨ (∃ c, is_newest s c ∧ moves (r_body c) (r_body x)) ∧
             (x_status (r_body x) = x_completed → x_resultEntryId (r_body x) ∈ usedIds s' ∧ x_resultEntryId (r_body x) ∉ usedIds s)
  | _ => False
  end.
(** The states are the ones [new], at most one, that the lifecycle admits. *)
Definition advances (s s' : State) (new : list (Rec ToolExecutionState)) : Prop := stores lane s s' new ∧ admissible s s' new.

Lemma advances_refl s : advances s s [].
Proof. split; [apply stores_refl | done]. Qed.

(** A commit by the newest state that the lifecycle admits. *)
Lemma commit_advances s state o st id now : wf s → state ∈ tools s →
  st ≠ Some x_completed → may_move (x_replay (r_body state)) (x_status (r_body state)) (default x_outcome_ready st) = true →
  ∃ new, advances s (commitToolOutcome lane (expected state) state o st id now s).1 new.
Proof.
  intros W Hin Hn Hm. unfold commitToolOutcome. set (next := again state id _).
  pose proof (tool_transition_cases (expected state) now next s (lane_of _ _ _ Hin)) as H.
  destruct (transitionToolExecution _ _ _ _ s) as [s' [[x|]|]]; [|subst; eexists; apply advances_refl..].
  destruct H as (c & Hx & Hc & E1 & E2 & Hs). exists [x]. split; [done|]. cbn. right.
  pose proof (last_of_invocation _ _ _ Hc) as [Hcin _]. assert (c = state) as -> by (by apply (same_id lane s)).
  rewrite Hx. cbn. split; [exists state; split; [done|]; by split_and!|]. intros Hd. destruct st as [[]|]; done.
Qed.

Lemma mutation_used m s s' : applyMutation m s = Ok s' → usedIds s ⊆ usedIds s' ∧ match m with mut_entry _ e => e_id e ∈ usedIds s' ∧ e_id e ∉ usedIds s | _ => True end.
Proof.
  intros H. unfold applyMutation in H. apply rbind_Ok in H as (_ & _ & H). destruct m as [l e|r|q l t|q n|q i l].
  - unfold apply_entry in H. apply rbind_Ok in H as (? & Hv%valid_Ok & H). bool_prop. repeat (apply rbind_Ok in H as (? & _ & H)).
    injection H as <-. destruct l, (bool_decide _); cbn; set_solver.
  - unfold apply_record in H. repeat (apply rbind_Ok in H as (? & _ & H)). cbv zeta in H. set (s1 := s <| _ := _ |> <| _ := _ |> <| _ := _ |>) in H.
    destruct (track_operation_rest r s1) as (_ & T & _). apply (f_equal (λ x, match x with Ok y => y | Err _ => s end)) in H. cbv beta iota in H.
    rewrite <- H. split; [|done]. destruct (r_body r); cbn; rewrite T; cbn; set_solver.
  - apply rbind_Ok in H as (? & _ & H). by injection H as <-.
  - by injection H as <-.
  - apply rbind_Ok in H as (? & _ & H). by injection H as <-.
Qed.

Lemma grows_used s s' : grows s s' → usedIds s ⊆ usedIds s'.
Proof.
  induction 1 as [|s1 s2 s3 [c Hc] _ IH]; [done|]. etrans; [|exact IH].
  destruct (perform_cases c s1) as [(e & E) | (m & s1' & Hm & E & _)]; rewrite E in Hc; [done|]. injection Hc as <-. by apply (mutation_used m).
Qed.

Lemma start_advances o inv res sid xid now s : st_lane o = lane → Forall (λ r, x_invocationId (r_body r) ≠ inv) (tools s) →
  ∃ new, advances s (startToolExecution o inv res sid xid now s).1 new.
Proof.
  intros Hl Hf. unfold startToolExecution. rewrite stres_bind_eq.
  pose proof (append_stores lane tool_started now (mkNew sid (st_lane o)
        (mkToolStarted (st_runId o) (st_assistantEntryId o) (st_toolIndex o) (st_toolCallId o) (st_toolName o) (st_args o) res (st_replay o))) s) as H1.
  destruct (append tool_started _ _ s) as [s1 [x|]]; [|cbn; subst; eexists; apply advances_refl].
  destruct H1 as [_ H1]. assert (H1' : stores lane s s1 []) by (revert H1; by case_bool_decide). clear H1.
  match goal with |- context [append tool_execution_state now ?n s1] => pose proof (append_stores lane tool_execution_state now n s1) as H2;
    destruct (append tool_execution_state now n s1) as [s2 [y|]] end; cbn [fst].
  2: { subst. by exists []. }
  destruct H2 as [_ H2]. rewrite bool_decide_eq_true_2 in H2 by done. cbn in H2. eexists. split; [exact (stores_trans _ _ _ _ _ _ H1' H2)|].
  cbn. left. split; [done|]. exact Hf.
Qed.

Lemma checkpoint_advances durable v id now s : wf s → durable ∈ tools s →
  x_status (r_body durable) = x_effect_pending ∨ x_status (r_body durable) = x_checkpointed →
  let '(s', r) := checkpointToolExecution lane (expected durable) v id now s in
  ∃ new, advances s s' new ∧ match r with Ok (Some x) => x ∈ tools s' ∧ x_status (r_body x) = x_checkpointed | _ => True end.
Proof.
  intros W Hin Hst. pose proof (checkpoint_cases (expected durable) v id now s) as H.
  destruct (checkpointToolExecution _ _ _ _ _ s) as [s' [[x|]|]]; [|subst; eexists; split; [apply advances_refl|done]..].
  destruct H as (c & Hx & Hc & E1 & E2 & Hs). exists [x]. pose proof (last_of_invocation _ _ _ Hc) as [Hcin _].
  assert (c = durable) as -> by (by apply (same_id lane s)). split; [split; [done|]|].
  - cbn. right. rewrite Hx. cbn. split; [exists durable; split; [done|]; split_and!; [|done..]; cbn; by destruct Hst as [-> | ->] | done].
  - split; [|by rewrite Hx]. rewrite (proj2 Hs). apply elem_of_app. right. by apply list_elem_of_singleton.
Qed.

Lemma lifecycle_same l : lifecycle l → ∀ x y, x ∈ l → y ∈ l →
  x_invocationId x = x_invocationId y ∧ x_replay x = x_replay y ∧ x_resultEntryId x = x_resultEntryId y.
Proof.
  assert (Hl : ∀ l, lifecycle l → ∃ y, last l = Some y ∧ ∀ x, x ∈ l →
    x_invocationId x = x_invocationId y ∧ x_replay x = x_replay y ∧ x_resultEntryId x = x_resultEntryId y).
  { induction 1 as [x Hx | l' x y _ (z & Hz & IH) Hlast (_ & M1 & M2 & M3)].
    - exists x. split; [done|]. by intros z ->%list_elem_of_singleton.
    - exists y. split; [apply last_snoc|]. assert (z = x) as -> by congruence.
      intros w [Hw | ->%list_elem_of_singleton]%elem_of_app; [|done]. destruct (IH w Hw) as (? & ? & ?). split_and!; congruence. }
  intros L x y Hx Hy. destruct (Hl l L) as (z & _ & H). destruct (H x Hx) as (? & ? & ?), (H y Hy) as (? & ? & ?). split_and!; congruence.
Qed.

(** Once an invocation has an outcome, its newest state has one, unless it was placed. *)
Lemma outcome_stays l : lifecycle l → ∀ x c, x ∈ l → has_outcome (x_status x) = true → last l = Some c →
  has_outcome (x_status c) = true ∨ ∃ y, y ∈ l ∧ x_status y = x_completed.
Proof.
  induction 1 as [x Hx | l z y L IH Hlast (M & _)]; intros x' c Hin Ho Hc.
  - apply list_elem_of_singleton in Hin as ->. by rewrite Hx in Ho.
  - rewrite last_snoc in Hc. injection Hc as <-. apply elem_of_app in Hin as [Hin | ->%list_elem_of_singleton]; [|by left].
    destruct (IH x' z Hin Ho Hlast) as [Hz | (w & Hw & Hd)].
    + destruct (x_status y) eqn:Ey, (x_status z); try done; (by left) || (right; exists y; split; [|done]; apply elem_of_app; right; by apply list_elem_of_singleton).
    + right. exists w. split; [by apply elem_of_app; left | done].
Qed.

Definition placed_used (s : State) : Prop := ∀ r, r ∈ tools s → x_status (r_body r) = x_completed → x_resultEntryId (r_body r) ∈ usedIds s.
Definition alive (s : State) : Prop := ∀ i, of_invocation i (tools s) = [] ∨ lifecycle (r_body <$> of_invocation i (tools s)).

Lemma appendEntry_stores now e s :
  match appendEntry now e lane s with
  | (s', Ok x) => stores lane s s' [] ∧ p_id e ∈ usedIds s' ∧ p_id e ∉ usedIds s
  | (s', Err _) => s' = s
  end.
Proof.
  pose proof (job_appendEntry now e lane s) as G. unfold appendEntry in *. rewrite stres_bind_eq in *. unfold check at 1. unfold check at 1 in G.
  destruct (requireLane lane s) as [par|]; [|done]. rewrite stres_bind_eq in *. unfold check. unfold check in G.
  destruct (validateUnusedId _ s) as [u|]; [|done]. rewrite stres_bind_eq in *. cbn [get] in *. rewrite stres_bind_eq in *. unfold apply in *.
  destruct (applyMutation _ s) as [s'|] eqn:E; [|done]. cbn in G. cbn [mret stres_ret].
  destruct (mutation_used _ _ _ E) as [_ Hu]. destruct (mutation_appends _ _ _ E) as (_ & _ & _ & Hr).
  split; [|exact Hu]. split; [exact G|]. unfold lane_tools. by rewrite Hr, app_nil_r.
Qed.

Lemma place_advances state result id now s : wf s → alive s → placed_used s → state ∈ tools s →
  p_id result = x_resultEntryId (r_body state) → ∃ new, advances s (placeToolOutcome lane state result id now s).1 new.
Proof.
  intros W A P Hin Hid. unfold placeToolOutcome. rewrite stres_bind_eq. unfold check. rewrite tool_states_eq. cbv zeta beta iota.
  set (current := filter _ (tools s)). destruct (with_id (r_id state) current) as [st|] eqn:Est; [|eexists; apply advances_refl].
  assert (st = state) as ->.
  { unfold with_id in Est. apply find_some in Est as [Hc Hi]. rewrite <- list_elem_of_In in Hc. bool_prop. unfold current in Hc. apply list_elem_of_filter in Hc.
    apply (same_id lane s); [done | tauto | done | done]. }
  destruct (has_outcome (x_status (r_body state))) eqn:Ho; [|eexists; apply advances_refl].
  destruct (existsb _ _); [eexists; apply advances_refl|]. rewrite stres_bind_eq.
  pose proof (appendEntry_stores now result s) as H1. destruct (appendEntry now result lane s) as [s1 [x|]]; [|cbn; subst; eexists; apply advances_refl].
  destruct H1 as (H1 & Hu & Hnu). rewrite stres_bind_eq. pose proof (lane_of _ _ _ Hin) as Hl.
  match goal with |- context [append tool_execution_state now ?n s1] => pose proof (append_stores lane tool_execution_state now n s1) as H2;
    destruct (append tool_execution_state now n s1) as [s2 [y|]] end; cbn [fst].
  2: { subst. by exists []. }
  destruct H2 as [_ H2]. rewrite bool_decide_eq_true_2 in H2 by done. cbn in H2. eexists. split; [exact (stores_trans _ _ _ _ _ _ H1 H2)|].
  cbn. right. rewrite <- Hid. split; [|by intros _; split; [apply (grows_used _ _ (proj1 H2))|]].
  set (i := x_invocationId (r_body state)). assert (Hmem : state ∈ of_invocation i (tools s)) by (unfold of_invocation; rewrite list_elem_of_filter; done).
  destruct (A i) as [E | L]; [rewrite E in Hmem; by apply elem_of_nil in Hmem|].
  destruct (last (of_invocation i (tools s))) as [c|] eqn:Hc; [|apply last_None in Hc; rewrite Hc in Hmem; by apply elem_of_nil in Hmem].
  pose proof (last_of_invocation _ _ _ Hc) as [Hcin Hci]. exists c. split; [unfold is_newest; by rewrite Hci|].
  assert (Hb : r_body state ∈ r_body <$> of_invocation i (tools s)) by (apply list_elem_of_fmap; eauto).
  assert (Hcb : r_body c ∈ r_body <$> of_invocation i (tools s)) by (apply list_elem_of_fmap; exists c; split; [done | by apply last_elem]).
  destruct (lifecycle_same _ L _ _ Hb Hcb) as (S1 & S2 & S3). split; [|by split_and!]. cbn.
  destruct (outcome_stays _ L _ (r_body c) Hb Ho) as [? | (z & Hz & Hd)]; [by rewrite fmap_last, Hc | done |].
  exfalso. apply Hnu. rewrite Hid. destruct (lifecycle_same _ L _ _ Hb Hz) as (_ & _ & ->). apply list_elem_of_fmap in Hz as (r & -> & Hr).
  apply P; [|done]. unfold of_invocation in Hr. apply list_elem_of_filter in Hr. tauto.
Qed.

(** What an admissible change keeps. *)
Lemma of_invocation_app i l k : of_invocation i (l ++ k) = of_invocation i l ++ of_invocation i k.
Proof. apply filter_app. Qed.

Lemma advances_alive s s' new : advances s s' new → alive s → alive s'.
Proof.
  intros [[_ E] H] A i. rewrite E, of_invocation_app. destruct new as [|x [|]]; [rewrite app_nil_r; apply A | | done].
  destruct (decide (x_invocationId (r_body x) = i)) as [<-|Hn].
  2: { assert (of_invocation i [x] = []) as -> by (unfold of_invocation; by rewrite filter_cons_False). rewrite app_nil_r. apply A. }
  assert (of_invocation (x_invocationId (r_body x)) [x] = [x]) as -> by (unfold of_invocation; by rewrite filter_cons_True).
  right. cbn in H. destruct H as [[Hp Hf] | [(c & Hc & M) _]].
  - assert (of_invocation (x_invocationId (r_body x)) (tools s) = []) as ->.
    { unfold of_invocation. clear -Hf. induction Hf; [done|]. by rewrite filter_cons_False. }
    by constructor.
  - assert (Hi : x_invocationId (r_body x) = x_invocationId (r_body c)) by apply M. rewrite Hi. unfold is_newest in Hc. rewrite fmap_app. cbn.
    destruct (A (x_invocationId (r_body c))) as [E0 | L]; [by rewrite E0 in Hc|]. eapply life_move; [done | | done]. by rewrite fmap_last, Hc.
Qed.

(** The results that are placed: at most one for an invocation. *)
Definition placed_once (s : State) : Prop := ∀ i,
  (length (filter (λ r, x_status (r_body r) = x_completed) (of_invocation i (tools s))) <= 1)%nat.

Lemma advances_once s s' new : advances s s' new → alive s → placed_used s → placed_once s → placed_once s'.
Proof.
  intros [[_ E] H] A P O i. rewrite E, of_invocation_app, filter_app. destruct new as [|x [|]]; [rewrite app_nil_r; apply O | | done].
  destruct (decide (x_invocationId (r_body x) = i)) as [<-|Hn].
  2: { assert (of_invocation i [x] = []) as -> by (unfold of_invocation; by rewrite filter_cons_False). rewrite app_nil_r. apply O. }
  assert (of_invocation (x_invocationId (r_body x)) [x] = [x]) as -> by (unfold of_invocation; by rewrite filter_cons_True).
  destruct (decide (x_status (r_body x) = x_completed)) as [Hd|Hd].
  2: { rewrite (filter_cons_False _ x) by done. rewrite app_nil_r. apply O. }
  cbn in H. destruct H as [[Hp _] | [(c & Hc & M) Hu]]; [congruence|]. destruct (Hu Hd) as [_ Hnu].
  set (h := of_invocation (x_invocationId (r_body x)) (tools s)).
  assert (filter (λ r, x_status (r_body r) = x_completed) h = []) as ->.
  2: { rewrite filter_cons_True by done. done. }
  destruct (filter _ h) as [|y l] eqn:Ef; [done|]. exfalso. apply Hnu.
  assert (Hy : y ∈ filter (λ r, x_status (r_body r) = x_completed) h) by (rewrite Ef; by left).
  apply list_elem_of_filter in Hy as [Hyd Hy].
  assert (Hi : x_invocationId (r_body x) = x_invocationId (r_body c)) by apply M.
  unfold is_newest in Hc. rewrite <- Hi in Hc. fold h in Hc. destruct (A (x_invocationId (r_body x))) as [E0 | L]; [fold h in E0; by rewrite E0 in Hc | fold h in L].
  assert (x_resultEntryId (r_body x) = x_resultEntryId (r_body c)) as -> by apply M.
  destruct (lifecycle_same _ L (r_body c) (r_body y)) as (_ & _ & ->).
  - apply list_elem_of_fmap. exists c. split; [done | by apply last_elem].
  - apply list_elem_of_fmap. eauto.
  - apply P; [|done]. unfold h, of_invocation in Hy. apply list_elem_of_filter in Hy. tauto.
Qed.

Lemma advances_placed s s' new : advances s s' new → placed_used s → placed_used s'.
Proof.
  intros [[G E] H] P r Hr Hd. rewrite E in Hr. apply elem_of_app in Hr as [Hr | Hr].
  - apply (grows_used _ _ G). by apply P.
  - destruct new as [|x [|]]; [by apply elem_of_nil in Hr | | done]. apply list_elem_of_singleton in Hr as ->.
    cbn in H. destruct H as [[Hp _] | [_ H]]; [congruence | by apply H].
Qed.

End Jobs.

End ToolExecutionProps.
