(* ===== verification/ToolRuns.v ===== *)
(** * Tools run when their intent is stored

    The executions of one lane as a transition system: calls of [DurableToolExecution] with
    states that the session holds, the awaits of running executions, crashes, and any other
    jobs of the session that store no tool state in the lane. *)
From S2P Require Import Prelude JsMap JsString Json AgentData SessionState SessionQueries Session SessionJobs ToolExecution.

Module ToolRuns.
Import AgentData SessionState Storage SessionStateProps SessionQueries Session SessionJobs ToolExecution ToolExecutionProps.

Section Runs.
Context (validateToolArguments : HarnessTool → Json.json → result jsstr Json.json) (lane : jsstr).
Notation step := (step validateToolArguments lane).
Notation tools := (lane_tools lane).

(** Invocation ids are fresh; [run], [cancel] and [place] are given states of the session, old or new, and a process
    runs once. *)
Definition allowed (w : World) (c : call) : Prop :=
  match c with
  | c_start _ _ _ _ _ _ inv _ _ _ _ => Forall (λ r, x_invocationId (r_body r) ≠ inv) (tools (session w))
  | c_run p state _ _ _ => state ∈ tools (session w) ∧ procs w !! p = None
  | c_cancel state _ _ | c_place state _ _ => state ∈ tools (session w)
  | c_job job => grows (session w) (job (session w)) ∧ tools (job (session w)) = tools (session w)
  | _ => True
  end.

Inductive reachable : World → Prop :=
| reach_new s : stored s → tools s = [] → reachable (mkWorld s ∅ [])
| reach_step w c : reachable w → allowed w c → reachable (step w c).

(** ** The invariant *)

Definition call_open (s : State) (r : Rec ToolExecutionState) : Prop :=
  r ∈ tools s ∧ (x_status (r_body r) = x_effect_pending ∨ x_status (r_body r) = x_checkpointed).
Definition proc_ok (w : World) (ph : phase) : Prop :=
  match ph with
  | admitted pending _ => pending ∈ tools (session w) ∧ x_status (r_body pending) = x_effect_pending ∧ r_id pending ∉ r_id <$> effects w
  | running _ durable _ _ | ended _ durable _ _ _ => call_open (session w) durable
  end.

Record ok (w : World) : Prop := {
  ok_stored : stored (session w);
  ok_alive : alive lane (session w);
  ok_placed : placed_used lane (session w);
  ok_single : placed_once lane (session w);
  ok_effects : Forall (λ e, e ∈ tools (session w) ∧ x_status (r_body e) = x_effect_pending) (effects w);
  ok_once : NoDup (r_id <$> effects w);
  ok_procs : ∀ p ph, procs w !! p = Some ph → proc_ok w ph;
  ok_admitted : ∀ p q a b ta tb, procs w !! p = Some (admitted a ta) → procs w !! q = Some (admitted b tb) → r_id a = r_id b → p = q }.

(** A change of the session that the lifecycle admits. *)
Lemma ok_session w s' new : ok w → advances lane (session w) s' new → ok (w <| session := s' |>).
Proof.
  intros [O1 O2 O3 O8 O4 O5 O6 O7] A. pose proof A as [[G E] _].
  assert (Hin : ∀ r, r ∈ tools (session w) → r ∈ tools s') by (intros r Hr; rewrite E; apply elem_of_app; by left).
  constructor; cbn; try done.
  - revert O1. clear -G. induction G as [|s1 s2 s3 H _ IH]; [done|]. intros St. apply IH. by eapply stored_step.
  - by eapply advances_alive.
  - by eapply advances_placed.
  - by eapply advances_once.
  - eapply Forall_impl; [exact O4|]. intros e [? ?]. auto.
  - intros p ph Hp. specialize (O6 p ph Hp). destruct ph; cbn in *; unfold call_open in *; naive_solver.
Qed.

Lemma ok_wf w : ok w → wf (session w).
Proof. intros O. apply stored_wf, O. Qed.

Lemma ok_on_session {A} w (m : M A) : ok w → (∃ new, advances lane (session w) (m (session w)).1 new) → ok (on_session m w).1.
Proof.
  intros O (new & H). unfold on_session. destruct (m (session w)) as [s' r]. cbn in *. by eapply ok_session.
Qed.

Lemma ok_stop w p : ok w → ok (stop p w).
Proof.
  intros [O1 O2 O3 O8 O4 O5 O6 O7]. constructor; cbn; try done.
  - intros q ph [_ Hq]%lookup_delete_Some. by apply (O6 q).
  - intros q r a b ta tb [_ Hq]%lookup_delete_Some [_ Hr]%lookup_delete_Some. by eapply O7.
Qed.

(** A process moves on; an admitted one must be new. *)
Lemma ok_set_proc w p ph : ok w → proc_ok w ph →
  match ph with admitted a _ => ∀ q b tb, procs w !! q = Some (admitted b tb) → r_id a ≠ r_id b | _ => True end →
  ok (set_proc p ph w).
Proof.
  intros [O1 O2 O3 O8 O4 O5 O6 O7] Hp Hn. constructor; cbn; try done.
  - intros q ph' [[<- <-] | [_ Hq]]%lookup_insert_Some; [by destruct ph | by apply (O6 q)].
  - intros q r a b ta tb [[<- ->] | [Hne Hq]]%lookup_insert_Some [[<- Hr] | [Hne' Hr]]%lookup_insert_Some Hid.
    + done.
    + by destruct (Hn _ _ _ Hr).
    + subst ph. symmetry in Hid. by destruct (Hn _ _ _ Hq).
    + by eapply O7.
Qed.

(** ** Every step keeps it *)

Lemma commit_ok w state o st id now : ok w → state ∈ tools (session w) → st ≠ Some x_completed →
  may_move (x_replay (r_body state)) (x_status (r_body state)) (default x_outcome_ready st) = true →
  ok (on_session (commitToolOutcome lane (expected state) state o st id now) w).1.
Proof. intros O Hin Hs Hm. apply ok_on_session; [done|]. by apply commit_advances; [apply ok_wf|..]. Qed.

Lemma tool_run_ok w p state ts id now : ok w → state ∈ tools (session w) → procs w !! p = None → ok (run lane p state ts id now w).
Proof.
  intros O Hin Hp. unfold run. destruct (bool_decide (x_status (r_body state) = x_completed) || has_outcome _) eqn:Hs; [done|]. bool_prop.
  destruct (bool_decide (x_status (r_body state) = x_effect_pending) && bool_decide (x_replay (r_body state) = never)) eqn:Hn.
  - bool_prop. apply commit_ok; [done..|]. cbn. by apply bool_decide_eq_true.
  - unfold on_session. set (next := stateWith state x_effect_pending id None None).
    pose proof (tool_transition_cases lane (expected state) now next (session w) (lane_of _ _ _ Hin)) as Ht.
    destruct (transitionToolExecution _ _ _ _ _) as [s' [[x|]|]]; [|subst; by destruct w..].
    destruct Ht as (c & Hx & Hc & E1 & E2 & Hst). pose proof (last_of_invocation _ _ _ _ Hc) as [Hcin _].
    assert (c = state) as -> by (by apply (same_id lane (session w)); [apply ok_wf|..]).
    assert (A : advances lane (session w) s' [x]).
    { split; [done|]. right. rewrite Hx. cbn. split; [|done]. exists state. split; [done|]. split_and!; [|done..]. cbn.
      destruct (x_status (r_body state)); try done. cbn in Hn. by destruct (x_replay (r_body state)). }
    pose proof (ok_session _ _ _ O A) as O'. pose proof (ok_wf _ O') as W'. cbn in W'.
    assert (Hx' : x ∈ tools s') by (rewrite (proj2 Hst); apply elem_of_app; right; by apply list_elem_of_singleton).
    assert (Hfresh : ∀ r, r ∈ tools (session w) → r_id x ≠ r_id r).
    { intros r Hr Hid. pose proof (lane_tools_ids lane _ W') as Hn'. rewrite (proj2 Hst), fmap_app in Hn'. apply NoDup_app in Hn' as (_ & Hd & _).
      apply (Hd (r_id r)); [apply list_elem_of_fmap; eauto | rewrite <- Hid; by left]. }
    apply ok_set_proc; [done| |].
    + cbn. split_and!; [done | by rewrite Hx |]. intros (e & Hid & He)%list_elem_of_fmap. pose proof (ok_effects _ O) as F.
      rewrite Forall_forall in F. destruct (F e He) as [Hin' _]. by apply (Hfresh e).
    + intros q b tb Hq. apply Hfresh. by apply (ok_procs _ O) in Hq as [? _].
Qed.

Lemma continue_ok w p aborted id now : ok w → ok (continue_run validateToolArguments lane p aborted id now w).
Proof.
  intros O. unfold continue_run. destruct (procs w !! p) as [[pending ts| |]|] eqn:Hp; try done.
  pose proof (ok_procs _ O _ _ Hp) as (Hin & Hst & Hne). pose proof (ok_stop _ p O) as Os.
  destruct aborted; [by apply (commit_ok (stop p w))|].
  destruct (prepareToolCall _ _ _ _).
  - destruct O as [O1 O2 O3 O8 O4 O5 O6 O7]. constructor; cbn; try done.
    + apply Forall_app. split; [done|]. by repeat constructor.
    + rewrite fmap_app. apply NoDup_app. split_and!; [done | | apply NoDup_singleton]. intros i Hi ->%list_elem_of_singleton. done.
    + intros q ph [[<- <-] | [Hq Hph]]%lookup_insert_Some; [split; [done | by left]|]. specialize (O6 q ph Hph).
      destruct ph as [b tb| |]; try done. destruct O6 as (B1 & B2 & B3). split_and!; [done..|]. cbn. rewrite fmap_app.
      intros [?|Hb%list_elem_of_singleton]%elem_of_app; [done|]. destruct Hq. by eapply O7.
    + intros q r a b ta tb [[_ ?] | [_ Hq]]%lookup_insert_Some [[_ ?] | [_ Hr]]%lookup_insert_Some; try done. by eapply O7.
  - change (r_id pending, x_effect_pending) with (r_id pending, x_effect_pending). rewrite <- Hst at 1.
    apply (commit_ok (stop p w)); [done..|]. cbn. by rewrite Hst.
Qed.

Lemma open_move s r b : call_open s r → match b with x_outcome_ready | x_failed | x_cancelled => true | _ => false end = true →
  may_move (x_replay (r_body r)) (x_status (r_body r)) b = true.
Proof. intros [_ [-> | ->]]; by destruct b. Qed.

Lemma commit_error_ok w p durable text aborted id now : ok w → call_open (session w) durable →
  ok (commit_error lane p durable text aborted id now w).
Proof.
  intros O Hd. apply (commit_ok (stop p w)); [by apply ok_stop | apply Hd | by destruct aborted |].
  apply (open_move (session w)); [done | by destruct aborted].
Qed.

Lemma store_checkpoint_ok w durable c broken id now : ok w → call_open (session w) durable →
  let '(w', durable', _) := store_checkpoint lane durable c broken id now w in
  ok w' ∧ call_open (session w') durable' ∧ procs w' = procs w.
Proof.
  intros O [Hin Hst]. unfold store_checkpoint. destruct broken; [done|]. unfold on_session.
  pose proof (checkpoint_advances lane durable c id now (session w) (ok_wf _ O) Hin Hst) as H.
  destruct (checkpointToolExecution _ _ _ _ _ _) as [s' r]. destruct H as (new & A & Hr). pose proof (ok_session _ _ _ O A) as O'.
  assert (Hin' : durable ∈ tools s') by (destruct A as [[_ ->] _]; apply elem_of_app; by left).
  destruct r as [[x|]|]; (split_and!; [exact O' | | done]); split; cbn; auto; [tauto | right; tauto].
Qed.

Lemma checkpoint_ok w p id now : ok w → ok (checkpoint lane p id now w).
Proof.
  intros O. unfold checkpoint. destruct (procs w !! p) as [[|pending durable [|c chain] broken|pending durable [|c chain] broken e]|] eqn:Hp; try done;
    pose proof (ok_procs _ O _ _ Hp) as Hd; pose proof (store_checkpoint_ok w durable c broken id now O Hd) as H;
    destruct (store_checkpoint _ _ _ _ _ _ w) as [[w' d'] b']; destruct H as (O' & Hd' & _); by apply ok_set_proc.
Qed.

Lemma settle_ok w p aborted id id' now : ok w → ok (settle lane p aborted id id' now w).
Proof.
  intros O. unfold settle. destruct (procs w !! p) as [[| |pending durable [|] broken e]|] eqn:Hp; try done.
  pose proof (ok_procs _ O _ _ Hp) as Hd. cbn in Hd. destruct broken; [by apply ok_stop|].
  destruct e as [v|text]; [|by apply commit_error_ok]. destruct (toOutcome v false) as [o|reason]; [|by apply commit_error_ok].
  assert (Hm : may_move (x_replay (r_body durable)) (x_status (r_body durable)) x_outcome_ready = true) by (by apply (open_move (session w))).
  destruct (commit_advances lane (session w) durable o None id now (ok_wf _ O) (proj1 Hd)) as (new & A); [done..|].
  unfold on_session. destruct (commitToolOutcome _ _ _ _ _ _ _ _) as [s' r]. cbn in A. pose proof (ok_session _ _ _ O A) as O'.
  destruct r; [by apply ok_stop|]. apply commit_error_ok; [done|]. split; cbn; [|apply Hd].
  destruct A as [[_ ->] _]. apply elem_of_app. left. apply Hd.
Qed.

Lemma step_ok w c : ok w → allowed w c → ok (step w c).
Proof.
  intros O Ha. destruct c as [r a i tc args rp inv res sid xid now | p state ts id now | p ab id now | p v | p id now | p e | p ab id id' now
                            | state id now | state id now | | job]; cbn [ToolExecution.step].
  - apply ok_on_session; [done|]. by apply start_advances.
  - destruct Ha. by apply tool_run_ok.
  - by apply continue_ok.
  - unfold update. destruct (procs w !! p) as [[| |]|] eqn:Hp; try done. destruct (toOutcome v false); [|done].
    apply ok_set_proc; [done | | done]. apply (ok_procs _ O _ _ Hp).
  - by apply checkpoint_ok.
  - unfold end_call. destruct (procs w !! p) as [[| |]|] eqn:Hp; try done. apply ok_set_proc; [done | | done]. apply (ok_procs _ O _ _ Hp).
  - by apply settle_ok.
  - unfold cancel. by apply commit_ok.
  - unfold place. case_bool_decide; [done|]. destruct (x_outcome (r_body state)) as [o|]; [|done]. cbn in Ha.
    pose proof (place_advances lane state (mkProvisioned (x_resultEntryId (r_body state)) (message (outcomeMessage (r_body state) o now) false)) id now
      (session w) (ok_wf _ O) (ok_alive _ O) (ok_placed _ O) Ha eq_refl) as (new & A).
    unfold on_session. destruct (placeToolOutcome _ _ _ _ _ _) as [s' r]. cbn in A. pose proof (ok_session _ _ _ O A). by destruct r as [[]|].
  - destruct O as [O1 O2 O3 O8 O4 O5 O6 O7]. constructor; cbn; try done; intros p; by rewrite lookup_empty.
  - destruct Ha as [G E]. apply (ok_session _ _ []); [done|]. split; [|done]. split; [done|]. by rewrite app_nil_r.
Qed.

Lemma tool_runs_ok w : reachable w → ok w.
Proof.
  induction 1 as [s St E | w c _ O Ha]; [|by apply step_ok].
  constructor; cbn; try done; try (intros *; rewrite ?E, ?lookup_empty; done).
  - intros i. left. by rewrite E.
  - intros r. rewrite E. by intros ?%elem_of_nil.
  - intros i. rewrite E. cbn. lia.
  - constructor.
Qed.

(** ** Counting *)

Definition count {A} (f : A → bool) (l : list A) : Z := zlen (filter (λ x, f x = true) l).
Definition in_status (st : ToolExecutionStatus) (x : ToolExecutionState) : bool := bool_decide (x_status x = st).

Lemma count_snoc {A} (f : A → bool) l x : count f (l ++ [x]) = count f l + (if f x then 1 else 0).
Proof. unfold count. rewrite filter_app, zlen_app, filter_cons. by destruct (f x). Qed.

Lemma lifecycle_count l : lifecycle l → Forall (λ x, x_replay x = never) l → ∃ c, last l = Some c ∧
  count (in_status x_effect_pending) l
    <= count (in_status x_checkpointed) l + (match x_status c with x_planned | x_checkpointed => 0 | _ => 1 end).
Proof.
  induction 1 as [x Hx | l z y _ IH Hlast (M & _)]; intros F.
  - exists x. split; [done|]. unfold count, in_status. rewrite !filter_cons, Hx. done.
  - apply Forall_app in F as [F [Hy _]%Forall_cons]. destruct (IH F) as (c & Hc & Hle). assert (c = z) as -> by congruence.
    assert (Hz : x_replay z = never) by (rewrite Forall_forall in F; apply F; by apply last_elem).
    exists y. split; [apply last_snoc|]. rewrite !count_snoc. rewrite Hz in M. unfold in_status at 2 4.
    clear Hc Hlast. revert M Hle. destruct (x_status y), (x_status z); cbn; intros M Hle; repeat case_bool_decide; done || lia.
Qed.

Lemma count_body f (l : list (Rec ToolExecutionState)) : count f (r_body <$> l) = count (λ r, f (r_body r)) l.
Proof.
  unfold count, zlen. f_equal. induction l as [|r l IH]; [done|].
  rewrite fmap_cons, !filter_cons. destruct (decide _); cbn; by rewrite IH.
Qed.

(** The calls of one invocation. *)
Definition effects_of (i : jsstr) (w : World) : list (Rec ToolExecutionState) := of_invocation i (effects w).

Lemma effects_bounded w i : ok w →
  zlen (effects_of i w) <= count (λ r, in_status x_effect_pending (r_body r)) (of_invocation i (tools (session w))).
Proof.
  intros O. unfold count, zlen. apply Nat2Z.inj_le, submseteq_length, NoDup_submseteq.
  - unfold effects_of, of_invocation. apply NoDup_filter. eapply NoDup_fmap_1. apply (ok_once _ O).
  - intros e He. unfold effects_of, of_invocation in *. apply list_elem_of_filter in He as [Hi He].
    pose proof (ok_effects _ O) as F. rewrite Forall_forall in F. destruct (F e He) as [Hin Hst].
    apply list_elem_of_filter. split; [by apply bool_decide_eq_true|]. by apply list_elem_of_filter.
Qed.

(** ** Theorems *)

(** An effect runs only after its intent is stored, and once for each intent: in every reachable state the calls of the
    tools were admitted by different stored states, each of which says that the effect is pending.  This holds
    over every interleaving of executions, cancellations, placements, crashes and recoveries in the lane. *)
Theorem effects_follow_intents w : reachable w →
  NoDup (r_id <$> effects w) ∧
  Forall (λ e, e ∈ tools (session w) ∧ x_status (r_body e) = x_effect_pending) (effects w).
Proof. intros R. pose proof (tool_runs_ok _ R) as O. split; [apply (ok_once _ O) | apply (ok_effects _ O)]. Qed.

(** C13. A tool that must not be replayed runs at most once more than it was checkpointed: for an invocation whose states
    say "never", the number of calls is at most one plus the number of checkpoints its states hold, whatever crashes and
    recoveries there were.  Without a checkpoint it runs at most once. *)
Theorem unsafe_effects_are_bounded w i : reachable w →
  Forall (λ r, x_replay (r_body r) = never) (of_invocation i (tools (session w))) →
  zlen (effects_of i w) <= 1 + count (λ r, in_status x_checkpointed (r_body r)) (of_invocation i (tools (session w))).
Proof.
  intros R F. pose proof (tool_runs_ok _ R) as O. pose proof (effects_bounded w i O) as Hb.
  destruct (ok_alive _ O i) as [E0|L]; [rewrite E0 in Hb |- *; unfold count, zlen in *; cbn in *; lia|].
  destruct (lifecycle_count _ L) as (c & _ & Hc).
  - apply Forall_fmap. exact F.
  - rewrite !count_body in Hc. destruct (x_status c); lia.
Qed.

(** C30. The stored states of an invocation are a run of its lifecycle and its result is placed at most once: in every
    reachable state the states of one invocation start as planned, every next one is a move of the automaton
    [may_move] with the same identity, and at most one is completed. *)
Theorem invocations_follow_their_lifecycle w i : reachable w →
  let states := of_invocation i (tools (session w)) in
  (states = [] ∨ lifecycle (r_body <$> states)) ∧
  count (λ r, in_status x_completed (r_body r)) states <= 1.
Proof.
  intros R states. pose proof (tool_runs_ok _ R) as O. split; [apply (ok_alive _ O)|].
  pose proof (ok_single _ O i) as H. unfold count, in_status, zlen. fold states in H.
  assert (filter (λ r, bool_decide (x_status (r_body r) = x_completed) = true) states = filter (λ r, x_status (r_body r) = x_completed) states) as ->; [|lia].
  apply list_filter_iff. intros r. apply bool_decide_eq_true.
Qed.

End Runs.

End ToolRuns.

(** * Concrete executions of tools

    Small runs of [ToolRuns]: the witnesses of its theorems, and behaviours that a reader of
    [agent/src/harness/tool-execution.ts] may not expect. *)

Module ToolSample.
Import AgentData SessionState Storage SessionStateProps SessionQueries Session SessionJobs ToolExecution ToolExecutionProps ToolRuns.

Definition accept (t : HarnessTool) (args : Json.json) : result jsstr Json.json := Ok args.
Definition main : jsstr := js "main".
Definition tool : HarnessTool := mkTool (js "record") None.
Definition a_call (id : string) : AgentToolCall := mkToolCall (js id) (js "record") (Json.j_object []).

(** The calls of a script name the states they are given by their position in the lane. *)
Inductive line := l_call (c : call) | l_run (p k : nat) (id : string) | l_cancel (k : nat) (id : string) | l_place (k : nat) (id : string).
Definition stored_tool (w : World) (k : nat) : option (Rec ToolExecutionState) := lane_tools main (session w) !! k.
Definition resolve (w : World) (l : line) : option call :=
  match l with
  | l_call c => Some c
  | l_run p k id => (λ r, c_run p r [tool] (js id) 0) <$> stored_tool w k
  | l_cancel k id => (λ r, c_cancel r (js id) 0) <$> stored_tool w k
  | l_place k id => (λ r, c_place r (js id) 0) <$> stored_tool w k
  end.
Definition line_ok (w : World) (l : line) : bool :=
  match l with
  | l_call (c_start _ _ _ _ _ _ inv _ _ _ _) =>
      forallb (λ r, negb (bool_decide (x_invocationId (r_body r) = inv))) (lane_tools main (session w))
  | l_call (c_run _ _ _ _ _ | c_cancel _ _ _ | c_place _ _ _ | c_job _) => false
  | l_call _ => true
  | l_run p _ _ => bool_decide (procs w !! p = None)
  | _ => true
  end.
Fixpoint play (w : World) (ls : list line) : option World :=
  match ls with
  | [] => Some w
  | l :: ls => match resolve w l with
               | Some c => if line_ok w l then play (step accept main w c) ls else None
               | None => None
               end
  end.
Definition world0 : World := mkWorld (newState [main]) ∅ [].

Lemma play_reachable ls : ∀ w w', reachable accept main w → play w ls = Some w' → reachable accept main w'.
Proof.
  induction ls as [|l ls IH]; intros w w' R; cbn; [by intros [= <-]|]. destruct (resolve w l) as [c|] eqn:E; [|done].
  destruct (line_ok w l) eqn:Ho; [|done]. apply IH. apply reach_step; [done|].
  assert (Hin : ∀ k r, stored_tool w k = Some r → r ∈ lane_tools main (session w)) by (intros k r H; by eapply list_elem_of_lookup_2).
  destruct l as [c0 | p k id | k id | k id]; cbn in E.
  - injection E as ->. destruct c; try done. cbn in *. rewrite forallb_forall in Ho. apply Forall_forall. intros r Hr.
    apply list_elem_of_In, Ho in Hr. by bool_prop.
  - destruct (stored_tool w k) eqn:Ek; [|done]. injection E as <-. cbn in *. bool_prop. eauto.
  - destruct (stored_tool w k) eqn:Ek; [|done]. injection E as <-. cbn. eauto.
  - destruct (stored_tool w k) eqn:Ek; [|done]. injection E as <-. cbn. eauto.
Qed.
Lemma world0_reachable : reachable accept main world0.
Proof. apply reach_new; [apply stored_new | done]. Qed.

Definition outcome_value (text : string) (terminate : bool) : tool_value :=
  serializable (mkResult (Json.j_string (js text)) None None None (Some terminate)).
Definition start (inv : string) (index : Z) (replay : Replay) : line :=
  l_call (c_start (js "run-1") (js "assistant") index (a_call inv) (Json.j_object []) replay (js inv) (js (inv ++ "-result"))
            (js (inv ++ "-start")) (js (inv ++ "-0")) 0).

(** An unsafe tool is started, reports progress and the process dies; the recovered execution starts from the state the
    session holds then. *)
Definition crashed_after_checkpoint : list line :=
  [start "t" 0 never; l_run 0 0 "t-1"; l_call (c_continue 0 false (js "t-2") 0); l_call (c_update 0 (outcome_value "half" false));
   l_call (c_checkpoint 0 (js "t-2") 0); l_call c_crash; l_run 1 2 "t-3"; l_call (c_continue 1 false (js "t-4") 0)].
Definition crashed_before_checkpoint : list line :=
  [start "t" 0 never; l_run 0 0 "t-1"; l_call (c_continue 0 false (js "t-2") 0); l_call c_crash; l_run 1 1 "t-3";
   l_call (c_continue 1 false (js "t-4") 0)].
Definition finished_tool : list line :=
  [start "t" 0 safe; l_run 0 0 "t-1"; l_call (c_continue 0 false (js "t-2") 0); l_call (c_end 0 (returned (outcome_value "done" true)));
   l_call (c_settle 0 false (js "t-2") (js "t-3") 0); l_place 2 "t-4"].
Definition after (ls : list line) : World := default world0 (play world0 ls).

Definition statuses (w : World) : list ToolExecutionStatus := (λ r, x_status (r_body r)) <$> lane_tools main (session w).

Example crashed_before_checkpoint_ends :
  (statuses (after crashed_before_checkpoint), zlen (effects (after crashed_before_checkpoint)))
  = ([x_planned; x_effect_pending; x_interrupted], 1).
Proof. vm_compute. reflexivity. Qed.
Example finished_tool_ends : (statuses (after finished_tool), zlen (effects (after finished_tool)))
  = ([x_planned; x_effect_pending; x_outcome_ready; x_completed], 1).
Proof. vm_compute. reflexivity. Qed.

Lemma script_reachable ls : match play world0 ls with Some _ => true | None => false end = true → reachable accept main (after ls).
Proof. unfold after. intros H. destruct (play world0 ls) as [w|] eqn:E; [|done]. eapply play_reachable; [apply world0_reachable | exact E]. Qed.

(** An unsafe tool runs again after a checkpoint: the tool declares that it must not be replayed, reports progress once, and
    the process dies while it runs; the recovery finds the state "checkpointed" and calls the tool a second time, although
    a tool that died before its first report is marked as interrupted. *)
Theorem unsafe_effect_repeats_after_checkpoint :
  (zlen (effects_of (js "t") (after crashed_after_checkpoint)), (λ r, x_replay (r_body r)) <$> effects (after crashed_after_checkpoint),
   statuses (after crashed_after_checkpoint))
  = (2, [never; never], [x_planned; x_effect_pending; x_checkpointed; x_effect_pending]).
Proof. vm_compute. reflexivity. Qed.

(** A tool's wish to end the run is lost when its result is placed: the stored outcome says "terminate", and the entry that
    is placed for it does not. *)
Theorem terminate_is_not_placed :
  let w := after finished_tool in
  ((λ r, x_outcome (r_body r) ≫= do_terminate) <$> stored_tool w 3,
   (λ e, match e_body e with message _ t => t | _ => false end) <$> entries (session w))
  = (Some (Some true), [false]).
Proof. vm_compute. reflexivity. Qed.

(** A cancellation that is given a completed state. *)
Definition cancelled_after_completion : list line := finished_tool ++ [l_cancel 3 "t-5"].

(** A cancellation overwrites a completed invocation: [cancel] does not look at the status it is given, so the newest
    state of a tool whose result is placed can become "cancelled", which recovery wants to place again; that placement is
    refused, now and later, because the result entry exists. *)
Theorem cancel_after_completion_sticks :
  let w := after cancelled_after_completion in
  (last (statuses w), match stored_tool w 4 with Some r => match (place main r (js "t-6") 0 w).2 with Err e => Some (code e) | Ok _ => None end | None => None end)
  = (Some x_cancelled, Some already_exists).
Proof. vm_compute. reflexivity. Qed.

Lemma all_never l : forallb (λ r, bool_decide (x_replay (r_body r) = never)) l = true → Forall (λ r, x_replay (r_body r) = never) l.
Proof. rewrite forallb_forall. intros H. apply Forall_forall. intros r Hr%list_elem_of_In%H. by apply bool_decide_eq_true in Hr. Qed.

Lemma effects_follow_intents_witness :
  let w := after crashed_after_checkpoint in
  zlen (effects w) = 2 ∧ NoDup (r_id <$> effects w) ∧
  Forall (λ e, e ∈ lane_tools main (session w) ∧ x_status (r_body e) = x_effect_pending) (effects w).
Proof.
  split; [vm_compute; reflexivity|]. apply (effects_follow_intents accept main). apply script_reachable. vm_compute. reflexivity.
Defined.

Lemma unsafe_effects_are_bounded_witness :
  let w := after crashed_before_checkpoint in
  zlen (effects_of (js "t") w) = 1 ∧
  zlen (effects_of (js "t") w) <= 1 + count (λ r, in_status x_checkpointed (r_body r)) (of_invocation (js "t") (lane_tools main (session w))).
Proof.
  split; [vm_compute; reflexivity|]. apply (unsafe_effects_are_bounded accept main).
  - apply script_reachable. vm_compute. reflexivity.
  - apply all_never. vm_compute. reflexivity.
Defined.

Lemma invocations_follow_their_lifecycle_witness :
  let w := after finished_tool in
  let states := of_invocation (js "t") (lane_tools main (session w)) in
  zlen states = 4 ∧ (states = [] ∨ lifecycle (r_body <$> states)) ∧ count (λ r, in_status x_completed (r_body r)) states <= 1.
Proof.
  split; [vm_compute; reflexivity|]. apply (invocations_follow_their_lifecycle accept main). apply script_reachable. vm_compute. reflexivity.
Defined.

End ToolSample.
