(* ===== verification/LaneReducer.v ===== *)
(** * Recovery of a lane

    Models [agent/src/harness/reducer.ts]: the validation of a lane's recovery slice and the
    reconstruction of the lane's state from it.  A [throw] is its [reason]; the text for
    people is dropped.  [Guard.IsDeepEqual] of typebox is an argument. *)
From S2P Require Import Prelude JsMap JsString Json AgentData.

Module LaneReducer.
Import AgentData.

Inductive RecordLogCorruptionReason :=
  multiple_open_operations | unknown_operation | record_after_finish | non_consecutive_attempt | invalid_compaction_reason
| queue_after_abort | invalid_queue_cancellation | invalid_queue_consumption | inconsistent_step | tool_call_mismatch
| duplicate_tool_invocation | provisioned_entry_mismatch | invalid_deferred_handle.
#[export] Instance reason_eq : EqDecision RecordLogCorruptionReason.
Proof. solve_decision. Defined.

Record RecordLogSlice := mkSlice {
  lane : jsstr; openOperations : list (Rec OperationStarted); records : list LaneRecord; entries : list Entry }.

Record EffectiveLaneConfiguration := mkEffective {
  model : jsstr * jsstr; thinkingLevel : jsstr; activeToolNames : list jsstr }.

Inductive failure_source := from_step | from_deferred_fetch.
Record TerminalFailureState := mkTerminal { tf_entryId : jsstr; tf_source : failure_source; tf_message : AssistantMessage }.

Record BatchCall := mkBatchCall {
  bc_toolIndex : Z; bc_toolCall : AgentToolCall; bc_started : option (Rec ToolStarted); bc_resultExists : bool; bc_terminate : bool }.
Record ToolBatchState := mkBatch { tb_assistantEntryId : jsstr; tb_calls : list BatchCall; tb_truncated : bool; tb_unresolved : bool }.

Record LaneStep := mkLaneStep {
  ls_kind : StepKind; ls_attempts : Z; ls_resultEntryId : jsstr; ls_compactionReason : option jsstr }.
Record NewestOwn := mkNewest { no_entryId : jsstr; no_type : EntryType; no_role : option Role; no_stopReason : option StopReason }.

Record LaneOperation := mkOperation {
  lo_id : jsstr; lo_intent : OperationIntent; lo_aborting : bool; lo_step : option LaneStep; lo_toolBatch : option ToolBatchState;
  lo_missingInitialMessages : list ProvisionedEntry; lo_pendingSteer : list ProvisionedEntry;
  lo_pendingFollowUp : list ProvisionedEntry; lo_pendingWrites : list ProvisionedEntry; lo_deferred : option DeferredHandle;
  lo_overflowRecoveryUsed : bool; lo_newestOwn : option NewestOwn;
  (** [targets.result] and [targets.summary] *)
  lo_targets : option bool * option bool }.
Record LaneState := mkLaneState {
  ln_lane : jsstr; ln_leafId : option jsstr; ln_operation : option LaneOperation; ln_pendingNextRun : list ProvisionedEntry }.

Record LaneReductionInput := mkInput {
  slice : RecordLogSlice; leafId : option jsstr; ownEntries : list Entry; configurationEntries : list Entry;
  defaults : EffectiveLaneConfiguration }.
Record LaneReductionResult := mkReduction {
  laneState : LaneState; effectiveConfiguration : EffectiveLaneConfiguration; terminalFailure : option TerminalFailureState }.

Notation corrupt r := (Err (r : RecordLogCorruptionReason)).
(** [if (c) corrupt(reason)] *)
Definition refuse (c : bool) (r : RecordLogCorruptionReason) : result RecordLogCorruptionReason () := guard_err c r.

Definition by_id (es : list Entry) : list (jsstr * Entry) := mof_list ((λ e, (e_id e, e)) <$> es).
Definition bySequence (rs : list LaneRecord) : list LaneRecord := sort_by (λ a b, r_seq a <=? r_seq b) rs.
Definition entriesBySequence (es : list Entry) : list Entry := sort_by (λ a b, e_seq a <=? e_seq b) es.

(** ** Validation *)

Section Validation.
Context (IsDeepEqual : ProvisionedEntry → ProvisionedEntry → bool).
Notation check := (result RecordLogCorruptionReason ()).
Implicit Types entriesById : list (jsstr * Entry).

Definition payload (e : Entry) : ProvisionedEntry := mkProvisioned (e_id e) (e_body e).
Definition matchesProvisionedEntry (e : Entry) (target : ProvisionedEntry) : bool := IsDeepEqual (payload e) target.

Definition validateExactProvisionedEntry entriesById (target : ProvisionedEntry) : check :=
  match mget (p_id target) entriesById with
  | Some e => refuse (negb (matchesProvisionedEntry e target)) provisioned_entry_mismatch
  | None => Ok ()
  end.
Definition validateResultEntry entriesById (resultEntryId : jsstr) (matches : Entry → bool) : check :=
  match mget resultEntryId entriesById with
  | Some e => refuse (negb (matches e)) provisioned_entry_mismatch
  | None => Ok ()
  end.

Definition validateAttemptReason (a : StepAttempt) : check :=
  if bool_decide (sa_step a = step_compaction) then
    refuse (negb (bool_decide (sa_compactionReason a ∈ [Some manual; Some threshold; Some overflow]))) invalid_compaction_reason
  else refuse (negb (bool_decide (sa_compactionReason a = None))) invalid_compaction_reason.

(** The attempt before continues the series while its result is not stored, or was stored later than this attempt. *)
Definition continues_series (r : Rec StepAttempt) (previous : option (Rec StepAttempt)) entriesById : bool :=
  match previous with
  | Some p =>
      bool_decide (sa_step (r_body p) = sa_step (r_body r))
      && match mget (sa_resultEntryId (r_body p)) entriesById with None => true | Some e => r_seq r <=? e_seq e end
  | None => false
  end.
Definition expectedAttempt (r : Rec StepAttempt) (previous : option (Rec StepAttempt)) entriesById : Z :=
  match previous with
  | Some p => if continues_series r previous entriesById then sa_attempt (r_body p) + 1 else 1
  | None => 1
  end.
Definition validateAttemptSequence (r : Rec StepAttempt) (previous : option (Rec StepAttempt)) entriesById : check :=
  let* _ := refuse (negb (sa_attempt (r_body r) =? expectedAttempt r previous entriesById)) non_consecutive_attempt in
  match previous with
  | Some p =>
      if negb (continues_series r previous entriesById) || bool_decide (sa_step (r_body r) = step_assistant) then Ok ()
      else
        let* _ := refuse (negb (bool_decide (sa_resultEntryId (r_body r) = sa_resultEntryId (r_body p)))) inconsistent_step in
        refuse (negb (bool_decide (sa_compactionReason (r_body r) = sa_compactionReason (r_body p)))) inconsistent_step
  | None => Ok ()
  end.

Definition is_assistant (e : Entry) : bool := match e_assistant e with Some _ => true | None => false end.
Definition has_type (t : EntryType) (e : Entry) : bool := bool_decide (e_type e = t).

Definition validateAttemptResult entriesById (a : StepAttempt) : check :=
  validateResultEntry entriesById (sa_resultEntryId a)
    (match sa_step a with
     | step_assistant => is_assistant
     | step_compaction => has_type t_compaction
     | step_branch_summary => has_type t_branch_summary
     end).

(** [array[index]] *)
Definition at_index {A} (l : list A) (i : Z) : option A := if 0 <=? i then l !! Z.to_nat i else None.
Definition is_result_of (t : ToolStarted) (e : Entry) : bool :=
  match e_body e with
  | message (m_toolResult r) _ =>
      bool_decide (tr_toolCallId r = ts_toolCallId t) && bool_decide (tr_toolName r = ts_toolName t)
  | _ => false
  end.
Definition invocation_key (t : ToolStarted) : jsstr := ts_assistantEntryId t ++ [0] ++ num_str (ts_toolIndex t).

Definition validateToolStart (t : ToolStarted) entriesById (invocations : gset jsstr)
    : result RecordLogCorruptionReason (gset jsstr) :=
  let* _ := refuse (bool_decide (invocation_key t ∈ invocations)) duplicate_tool_invocation in
  match mget (ts_assistantEntryId t) entriesById ≫= e_assistant with
  | None => corrupt tool_call_mismatch
  | Some a =>
      match at_index (toolCalls a) (ts_toolIndex t) with
      | Some c =>
          let* _ := refuse (negb (bool_decide (tc_id c = ts_toolCallId t) && bool_decide (tc_name c = ts_toolName t))) tool_call_mismatch in
          let* _ := validateResultEntry entriesById (ts_resultEntryId t) (is_result_of t) in
          Ok ({[invocation_key t]} ∪ invocations)
      | None => corrupt tool_call_mismatch
      end
  end.

Definition lacks_handle (e : Entry) : bool :=
  match e_assistant e with
  | Some a => bool_decide (am_stopReason a = stop_deferred) && negb (bool_decide (is_Some (am_deferred a)))
  | None => false
  end.
Definition validateDeferredHandles (es : list Entry) : check := refuse (existsb lacks_handle es) invalid_deferred_handle.

Definition validateOperationResult entriesById (o : OperationStarted) : check :=
  match os_intent o with
  | run_intent _ initialMessages _ _ => foldM (λ _ target, validateExactProvisionedEntry entriesById target) () initialMessages
  | compaction_intent _ resultEntryId => validateResultEntry entriesById resultEntryId (has_type t_compaction)
  | navigation_intent _ _ _ _ summaryEntryId =>
      match summaryEntryId with
      | Some ((_ :: _) as i) => validateResultEntry entriesById i (has_type t_branch_summary)
      | _ => Ok ()
      end
  end.

(** The maps of the loop. *)
Record Seen := mkSeen {
  starts : gset jsstr; finishedAt : gmap jsstr Z; abortedAt : gmap jsstr Z; queueEnqueues : gmap jsstr (Rec QueueEnqueued);
  queueConsumptions : gset jsstr; latestAttempt : gmap jsstr (Rec StepAttempt); toolInvocations : gset jsstr }.
#[export] Instance seen_rebuild : Rebuild Seen := λ s,
  mkSeen (starts s) (finishedAt s) (abortedAt s) (queueEnqueues s) (queueConsumptions s) (latestAttempt s) (toolInvocations s).
Definition nothing_seen : Seen := mkSeen ∅ ∅ ∅ ∅ ∅ ∅ ∅.

(** [m.get(k) !== undefined && seq > m.get(k)] *)
Definition later_than (m : gmap jsstr Z) (k : jsstr) (seq : Z) : bool := match m !! k with Some q => q <? seq | None => false end.

Definition with_body {B} (r : LaneRecord) (b : B) : Rec B := mkRec (r_id r) (r_seq r) (r_lane r) (r_timestamp r) b.

(** What every record of an operation is checked for. *)
Definition validateOwner (s : Seen) (r : LaneRecord) : check :=
  match runId (r_body r) with
  | None => Ok ()
  | Some run =>
      let* _ := refuse (negb (bool_decide (run ∈ starts s))) unknown_operation in
      refuse (later_than (finishedAt s) run (r_seq r)) record_after_finish
  end.

Definition validateCancellation (s : Seen) entriesById (r : LaneRecord) (run : option jsstr) (entryId : jsstr) : check :=
  match queueEnqueues s !! entryId with
  | None => corrupt invalid_queue_cancellation
  | Some q => refuse ((r_seq r <=? r_seq q) || negb (bool_decide (qe_runId (r_body q) = run)) || mhas entryId entriesById)
                invalid_queue_cancellation
  end.
Definition validateConsumption (s : Seen) (r : LaneRecord) (c : QueueConsumed) : check :=
  let* _ := refuse (negb (bool_decide (qc_operationId c ∈ starts s)) || later_than (finishedAt s) (qc_operationId c) (r_seq r))
              invalid_queue_consumption in
  match queueEnqueues s !! qc_entryId c with
  | None => corrupt invalid_queue_consumption
  | Some q => refuse ((r_seq r <=? r_seq q) || negb (bool_decide (qe_queue (r_body q) = qc_queue c))
                      || bool_decide (qc_entryId c ∈ queueConsumptions s)) invalid_queue_consumption
  end.

Definition validateRecord entriesById (s : Seen) (r : LaneRecord) : result RecordLogCorruptionReason Seen :=
  match r_body r with
  | operation_started o =>
      let s := s <| starts := {[r_id r]} ∪ starts s |> in
      let* _ := validateOperationResult entriesById o in Ok s
  | body =>
      let* _ := validateOwner s r in
      match body with
      | operation_finished f => Ok (s <| finishedAt := <[of_runId f := r_seq r]> (finishedAt s) |>)
      | abort_requested run => Ok (s <| abortedAt := <[run := r_seq r]> (abortedAt s) |>)
      | step_attempt a =>
          let* _ := validateAttemptReason a in
          let* _ := validateAttemptSequence (with_body r a) (latestAttempt s !! sa_runId a) entriesById in
          let* _ := validateAttemptResult entriesById a in
          Ok (s <| latestAttempt := <[sa_runId a := with_body r a]> (latestAttempt s) |>)
      | tool_started t =>
          let* invocations := validateToolStart t entriesById (toolInvocations s) in
          Ok (s <| toolInvocations := invocations |>)
      | queue_enqueued q =>
          let* _ := refuse (negb (bool_decide (qe_queue q = nextRun))
                            && match qe_runId q with Some run => later_than (abortedAt s) run (r_seq r) | None => false end)
                      queue_after_abort in
          let* _ := validateExactProvisionedEntry entriesById (qe_target q) in
          Ok (s <| queueEnqueues := <[p_id (qe_target q) := with_body r q]> (queueEnqueues s) |>)
      | queue_cancelled run entryId => let* _ := validateCancellation s entriesById r run entryId in Ok s
      | queue_consumed c =>
          let* _ := validateConsumption s r c in
          Ok (s <| queueConsumptions := {[qc_entryId c]} ∪ queueConsumptions s |>)
      | write_deferred _ target => let* _ := validateExactProvisionedEntry entriesById target in Ok s
      | _ => Ok s
      end
  end.

Definition validateRecordLog (i : RecordLogSlice) : check :=
  let* _ := refuse (1 <? zlen (openOperations i)) multiple_open_operations in
  let entriesById := by_id (entries i) in
  let* _ := validateDeferredHandles (entriesById.*2) in
  let* _ := foldM (validateRecord entriesById) nothing_seen (bySequence (records i)) in
  Ok ().

End Validation.

(** ** Reconstruction *)

Definition derive_entry (c : EffectiveLaneConfiguration) (e : Entry) : EffectiveLaneConfiguration :=
  match e_body e with
  | model_change provider modelId => mkEffective (provider, modelId) (thinkingLevel c) (activeToolNames c)
  | thinking_level_change level => mkEffective (model c) level (activeToolNames c)
  | active_tools_change names => mkEffective (model c) (thinkingLevel c) names
  | message (m_assistant a) _ => mkEffective (am_provider a, am_model a) (thinkingLevel c) (activeToolNames c)
  | _ => c
  end.
Definition deriveEffectiveConfiguration (i : LaneReductionInput) : EffectiveLaneConfiguration :=
  foldl derive_entry (defaults i) (entriesBySequence (by_id (configurationEntries i ++ ownEntries i)).*2).

Definition deriveNewestOwn (e : option Entry) : option NewestOwn :=
  match e with
  | None => None
  | Some e =>
      Some (match e_body e with
            | message (m_assistant a) _ => mkNewest (e_id e) t_message (Some r_assistant) (Some (am_stopReason a))
            | message m _ => mkNewest (e_id e) t_message (Some (role m)) None
            | _ => mkNewest (e_id e) (e_type e) None None
            end)
  end.

Definition calls_tools (e : Entry) : bool :=
  match e_assistant e with Some a => match toolCalls a with [] => false | _ => true end | None => false end.

Definition result_for (toolCallId : jsstr) (e : Entry) : bool :=
  match e_body e with message (m_toolResult r) _ => bool_decide (tr_toolCallId r = toolCallId) | _ => false end.
Definition wants_end (e : option Entry) : bool := match e with Some e => match e_body e with message _ t => t | _ => false end | None => false end.

(** The starts of a batch, by the index of their call; a later start replaces an earlier one. *)
Definition batch_starts (operationId assistantEntryId : jsstr) (rs : list LaneRecord) : list (Z * Rec ToolStarted) :=
  foldl (λ m r, match r_body r with
                | tool_started t =>
                    if bool_decide (ts_runId t = operationId) && bool_decide (ts_assistantEntryId t = assistantEntryId)
                    then mset (ts_toolIndex t) (with_body r t) m else m
                | _ => m
                end) [] rs.

Definition batch_call (assistantEntry : Entry) (starts : list (Z * Rec ToolStarted)) (ownEntries : list Entry)
    (entriesById : list (jsstr * Entry)) (deferredWriteIds : list jsstr) (index : nat) (c : AgentToolCall) : BatchCall :=
  let started := mget (Z.of_nat index) starts in
  let startedResult := started ≫= λ t, mget (ts_resultEntryId (r_body t)) entriesById in
  let blockedResult := find (λ e, (e_seq assistantEntry <? e_seq e) && negb (bool_decide (e_id e ∈ deferredWriteIds))
                                  && result_for (tc_id c) e) ownEntries in
  let result := match startedResult with Some e => Some e | None => blockedResult end in
  mkBatchCall (Z.of_nat index) c started (match result with Some _ => true | None => false end) (wants_end result).

Definition deriveToolBatch (operationId : jsstr) (rs : list LaneRecord) (ownEntries : list Entry)
    (entriesById : list (jsstr * Entry)) (deferredWriteIds : list jsstr) : option ToolBatchState :=
  match find calls_tools (rev ownEntries) with
  | None => None
  | Some assistantEntry =>
      match e_assistant assistantEntry with
      | None => None
      | Some a =>
          let starts := batch_starts operationId (e_id assistantEntry) rs in
          let calls := imap (batch_call assistantEntry starts ownEntries entriesById deferredWriteIds) (toolCalls a) in
          Some (mkBatch (e_id assistantEntry) calls (bool_decide (am_stopReason a = stop_length))
                  (existsb (λ c, negb (bc_resultExists c)) calls))
      end
  end.

Definition cancelledQueueIds (rs : list LaneRecord) : list jsstr :=
  omap (λ r, match r_body r with queue_cancelled _ e => Some e | _ => None end) rs.
Definition consumedQueueIds (rs : list LaneRecord) : list jsstr :=
  omap (λ r, match r_body r with queue_consumed c => Some (qc_entryId c) | _ => None end) rs.
Definition pendingQueueRecords (entriesById : list (jsstr * Entry)) (rs : list LaneRecord) : list QueueEnqueued :=
  filter (λ q, mhas (p_id (qe_target q)) entriesById = false ∧ p_id (qe_target q) ∉ cancelledQueueIds rs
               ∧ p_id (qe_target q) ∉ consumedQueueIds rs) (omap (λ r, as_enqueued (r_body r)) rs).
Definition queued_for (queue : Queue) (run : jsstr) (qs : list QueueEnqueued) : list ProvisionedEntry :=
  qe_target <$> filter (λ q, qe_queue q = queue ∧ qe_runId q = Some run) qs.

Definition of_operation (id : jsstr) (r : LaneRecord) : bool :=
  match r_body r with operation_started _ => bool_decide (r_id r = id) | b => bool_decide (runId b = Some id) end.
Definition initialMessages (i : OperationIntent) : list ProvisionedEntry := match i with run_intent _ l _ _ => l | _ => [] end.

Definition derive_step (entriesById : list (jsstr * Entry)) (rs : list LaneRecord) : option LaneStep :=
  match last (omap (λ r, as_attempt (r_body r)) rs) with
  | Some a =>
      if mhas (sa_resultEntryId a) entriesById then None
      else Some (mkLaneStep (sa_step a) (sa_attempt a) (sa_resultEntryId a)
                   (if bool_decide (sa_step a = step_compaction) then sa_compactionReason a else None))
  | None => None
  end.

(** [Math.max] over the entries of the consumed inputs, from minus infinity. *)
Definition max_seq (m : option Z) (q : Z) : option Z := Some (match m with Some x => Z.max x q | None => q end).
Definition newestConsumedInput (entriesById : list (jsstr * Entry)) (ids : list jsstr) : option Z :=
  foldl (λ m id, match mget id entriesById with
                 | Some e => if bool_decide (e_type e = t_message) then max_seq m (e_seq e) else m
                 | None => m
                 end) None ids.
Definition consumedInputIds (i : OperationIntent) (rs : list LaneRecord) : list jsstr :=
  (p_id <$> initialMessages i)
  ++ omap (λ r, match r_body r with
                | queue_enqueued q => if bool_decide (qe_queue q = nextRun) then None else Some (p_id (qe_target q))
                | _ => None
                end) rs.
Definition overflow_after (newest : option Z) (r : LaneRecord) : bool :=
  match r_body r with
  | step_attempt a =>
      bool_decide (sa_step a = step_compaction) && bool_decide (sa_compactionReason a = Some overflow)
      && match newest with None => true | Some q => q <? r_seq r end
  | _ => false
  end.

Definition own_assistant (e : option Entry) (reason : StopReason) : option AssistantMessage :=
  match e ≫= e_assistant with Some a => if bool_decide (am_stopReason a = reason) then Some a else None | None => None end.

Definition derive_failure (rs : list LaneRecord) (own : list Entry) (deferredWriteIds : list jsstr) : option TerminalFailureState :=
  let newest := last own in
  match newest, own_assistant newest stop_error with
  | Some e, Some a =>
      if bool_decide (e_id e ∈ deferredWriteIds) then None
      else
        let producedByStep := existsb (λ r, match r_body r with step_attempt s => bool_decide (sa_resultEntryId s = e_id e) | _ => false end) rs in
        let previous := last (take (length own - 1) own) in
        let fetched := existsb (λ r, match r_body r with
                                     | usage u => bool_decide (us_cause u = u_deferred_fetch) && bool_decide (us_entryId u = Some (e_id e))
                                     | _ => false
                                     end) rs
                       || match own_assistant previous stop_deferred with Some _ => true | None => false end in
        if producedByStep then Some (mkTerminal (e_id e) from_step a)
        else if fetched then Some (mkTerminal (e_id e) from_deferred_fetch a) else None
  | _, _ => None
  end.

Definition derive_targets (i : OperationIntent) (entriesById : list (jsstr * Entry)) : option bool * option bool :=
  match i with
  | compaction_intent _ resultEntryId => (Some (mhas resultEntryId entriesById), None)
  | navigation_intent _ _ _ _ (Some ((_ :: _) as summary)) => (None, Some (mhas summary entriesById))
  | _ => (None, None)
  end.

Definition derive_operation (started : Rec OperationStarted) (rs : list LaneRecord) (own : list Entry)
    (entriesById : list (jsstr * Entry)) (pending : list QueueEnqueued) : LaneOperation :=
  let id := r_id started in
  let intent := os_intent (r_body started) in
  let operationRecords := filter (λ r, of_operation id r = true) rs in
  let aborting := existsb (λ r, match r_body r with abort_requested _ => true | _ => false end) operationRecords in
  let deferredWrites := omap (λ r, match r_body r with write_deferred _ t => Some t | _ => None end) operationRecords in
  let newest := newestConsumedInput entriesById (consumedInputIds intent operationRecords) in
  mkOperation id intent aborting (derive_step entriesById operationRecords)
    (deriveToolBatch id operationRecords own entriesById (p_id <$> deferredWrites))
    (filter (λ t, mhas (p_id t) entriesById = false) (initialMessages intent))
    (if aborting then [] else queued_for steer id pending)
    (if aborting then [] else queued_for followUp id pending)
    (filter (λ t, mhas (p_id t) entriesById = false) deferredWrites)
    (own_assistant (last own) stop_deferred ≫= am_deferred)
    (existsb (overflow_after newest) operationRecords)
    (deriveNewestOwn (last own))
    (derive_targets intent entriesById).

Section Reduction.
Context (IsDeepEqual : ProvisionedEntry → ProvisionedEntry → bool).

Definition reduceLaneState (i : LaneReductionInput) : result RecordLogCorruptionReason LaneReductionResult :=
  let* _ := validateRecordLog IsDeepEqual (slice i) in
  let rs := bySequence (records (slice i)) in
  let own := entriesBySequence (ownEntries i) in
  let entriesById := by_id (entries (slice i) ++ own) in
  let pending := pendingQueueRecords entriesById rs in
  let started := head (openOperations (slice i)) in
  let captured := match started with Some o => p_id <$> initialMessages (os_intent (r_body o)) | None => [] end in
  let pendingNextRun := qe_target <$> filter (λ q, qe_queue q = nextRun ∧ p_id (qe_target q) ∉ captured) pending in
  let configuration := deriveEffectiveConfiguration i in
  Ok (match started with
      | None => mkReduction (mkLaneState (lane (slice i)) (leafId i) None pendingNextRun) configuration None
      | Some o =>
          let operationRecords := filter (λ r, of_operation (r_id o) r = true) rs in
          let deferredWriteIds := omap (λ r, match r_body r with write_deferred _ t => Some (p_id t) | _ => None end) operationRecords in
          mkReduction (mkLaneState (lane (slice i)) (leafId i) (Some (derive_operation o rs own entriesById pending)) pendingNextRun)
            configuration (derive_failure operationRecords own deferredWriteIds)
      end).

End Reduction.

End LaneReducer.
