(* ===== verification/LaneReducerProps.v ===== *)
(** * What a validated recovery slice guarantees

    The validator of [LaneReducer] is sound for the protocol its messages describe, and the
    recovered state does not depend on the order in which the storage returned the records. *)
From S2P Require Import Prelude JsMap JsString Json AgentData LaneReducer.

Module LaneReducerProps.
Import AgentData LaneReducer.

(** ** The protocol *)

(** The records of a lane, oldest first, as one writer produces them. *)
Record consistent (es : list Entry) (rs : list LaneRecord) : Prop := {
  (** an operation's records come after its start *)
  owner_started : ∀ r run, r ∈ rs → runId (r_body r) = Some run →
    ∃ o, o ∈ rs ∧ is_Some (as_started (r_body o)) ∧ r_id o = run ∧ r_seq o <= r_seq r;
  (** and none after its finish *)
  nothing_after_finish : ∀ r f x run, r ∈ rs → f ∈ rs → r_body f = operation_finished x → of_runId x = run →
    runId (r_body r) = Some run → r_seq r <= r_seq f;
  (** a queued item is consumed once, from the queue it was put into, after it was put there *)
  consumed_once : NoDup (consumedQueueIds rs);
  consumed_queued : ∀ r c, r ∈ rs → r_body r = queue_consumed c → ∃ e q, e ∈ rs ∧ r_body e = queue_enqueued q ∧
    p_id (qe_target q) = qc_entryId c ∧ qe_queue q = qc_queue c ∧ r_seq e < r_seq r;
  (** a tool call is started once, and is a call of the assistant entry it names *)
  started_once : NoDup (omap (λ r, match r_body r with tool_started t => Some (invocation_key t) | _ => None end) rs);
  started_called : ∀ r t, r ∈ rs → r_body r = tool_started t → ∃ e a c, e ∈ es ∧ e_id e = ts_assistantEntryId t ∧
    e_assistant e = Some a ∧ at_index (toolCalls a) (ts_toolIndex t) = Some c ∧ tc_id c = ts_toolCallId t ∧ tc_name c = ts_toolName t;
  (** no input is queued for an operation after its abort *)
  nothing_after_abort : ∀ r q a run, r ∈ rs → a ∈ rs → r_body r = queue_enqueued q → qe_queue q ≠ nextRun → qe_runId q = Some run →
    r_body a = abort_requested run → r_seq r < r_seq a }.

Section Soundness.
Context (IsDeepEqual : ProvisionedEntry → ProvisionedEntry → bool) (es : list Entry).
Notation entriesById := (by_id es).
Notation validate := (foldM (validateRecord IsDeepEqual entriesById) nothing_seen).

(** What the maps of the loop say about the records so far. *)
Record explains (rs : list LaneRecord) (s : Seen) : Prop := {
  x_starts : ∀ i, i ∈ starts s ↔ ∃ o, o ∈ rs ∧ is_Some (as_started (r_body o)) ∧ r_id o = i;
  x_finish : ∀ f x, f ∈ rs → r_body f = operation_finished x → ∃ f' x', f' ∈ rs ∧ r_body f' = operation_finished x' ∧
    of_runId x' = of_runId x ∧ finishedAt s !! of_runId x = Some (r_seq f');
  x_abort : ∀ a run, a ∈ rs → r_body a = abort_requested run → ∃ a', a' ∈ rs ∧ r_body a' = abort_requested run ∧
    abortedAt s !! run = Some (r_seq a');
  x_enqueued : ∀ i q, queueEnqueues s !! i = Some q → ∃ e, e ∈ rs ∧ r_body e = queue_enqueued (r_body q) ∧ r_seq e = r_seq q ∧
    p_id (qe_target (r_body q)) = i;
  x_consumed : ∀ i, i ∈ queueConsumptions s ↔ i ∈ consumedQueueIds rs;
  x_invoked : ∀ k, k ∈ toolInvocations s ↔
    k ∈ omap (λ r, match r_body r with tool_started t => Some (invocation_key t) | _ => None end) rs }.

Lemma refuse_Ok b r u : refuse b r = Ok u ↔ b = false.
Proof. apply guard_err_Ok. Qed.

Lemma by_id_elem i e : mget i entriesById = Some e → e ∈ es ∧ e_id e = i.
Proof.
  assert (H : ∀ l m, (∀ j f, mget j m = Some f → f ∈ es ∧ e_id f = j) → (∀ f, f ∈ l → f ∈ es) →
    ∀ j f, mget j (foldl (λ m kv, mset kv.1 kv.2 m) m ((λ e, (e_id e, e)) <$> l)) = Some f → f ∈ es ∧ e_id f = j).
  { intros l. induction l as [|x l IH]; intros m Hm Hl; cbn; [done|]. apply IH; [|intros f Hf; apply Hl; by right].
    intros j f. rewrite mget_mset. destruct (decide (j = e_id x)) as [->|]; [|apply Hm]. intros [= <-]. split; [apply Hl; by left | done]. }
  apply (H es []); done.
Qed.

(** One turn of the loop. *)
Definition turn (s : Seen) (r : LaneRecord) (s1 : Seen) : Prop :=
  match r_body r with
  | operation_started _ => s1 = s <| starts := {[r_id r]} ∪ starts s |>
  | body => validateOwner s r = Ok () ∧
      match body with
      | operation_finished f => s1 = s <| finishedAt := <[of_runId f := r_seq r]> (finishedAt s) |>
      | abort_requested run => s1 = s <| abortedAt := <[run := r_seq r]> (abortedAt s) |>
      | step_attempt a => s1 = s <| latestAttempt := <[sa_runId a := with_body r a]> (latestAttempt s) |>
      | tool_started t => s1 = s <| toolInvocations := {[invocation_key t]} ∪ toolInvocations s |> ∧
          invocation_key t ∉ toolInvocations s ∧ ∃ a c, mget (ts_assistantEntryId t) entriesById ≫= e_assistant = Some a ∧
            at_index (toolCalls a) (ts_toolIndex t) = Some c ∧ tc_id c = ts_toolCallId t ∧ tc_name c = ts_toolName t
      | queue_enqueued q => s1 = s <| queueEnqueues := <[p_id (qe_target q) := with_body r q]> (queueEnqueues s) |> ∧
          (qe_queue q ≠ nextRun → ∀ run, qe_runId q = Some run → later_than (abortedAt s) run (r_seq r) = false)
      | queue_consumed c => s1 = s <| queueConsumptions := {[qc_entryId c]} ∪ queueConsumptions s |> ∧
          ∃ q, queueEnqueues s !! qc_entryId c = Some q ∧ r_seq q < r_seq r ∧ qe_queue (r_body q) = qc_queue c ∧
            qc_entryId c ∉ queueConsumptions s
      | _ => s1 = s
      end
  end.

Lemma validate_turn s r s1 : validateRecord IsDeepEqual entriesById s r = Ok s1 → turn s r s1.
Proof.
  intros H. unfold validateRecord in H. unfold turn. destruct (r_body r) eqn:Eb.
  1: { apply rbind_Ok in H as (? & _ & H). by injection H as <-. }
  all: apply rbind_Ok in H as ([] & Ho & H); split; [exact Ho|].
  all: try by injection H as <-.
  - do 3 (apply rbind_Ok in H as (? & _ & H)). by injection H as <-.
  - apply rbind_Ok in H as (inv & Ht & H). injection H as <-. unfold validateToolStart in Ht.
    apply rbind_Ok in Ht as (? & Hd%refuse_Ok & Ht). bool_prop. destruct (mget _ _ ≫= _) as [a|]; [|done].
    destruct (at_index _ _) as [c|] eqn:Ec; [|done]. apply rbind_Ok in Ht as (? & Hm%refuse_Ok & Ht). bool_prop.
    apply rbind_Ok in Ht as (? & _ & Ht). injection Ht as <-. split_and!; [done..|]. by exists a, c.
  - apply rbind_Ok in H as (? & Ha%refuse_Ok & H). apply rbind_Ok in H as (? & _ & H). injection H as <-. split; [done|].
    intros Hq run Hr. rewrite Hr, bool_decide_eq_false_2 in Ha by done. exact Ha.
  - apply rbind_Ok in H as (? & _ & H). by injection H as <-.
  - apply rbind_Ok in H as (? & Hc & H). injection H as <-. split; [done|]. unfold validateConsumption in Hc.
    apply rbind_Ok in Hc as (? & _ & Hc). destruct (queueEnqueues s !! _) as [q0|]; [|done]. apply refuse_Ok in Hc. bool_prop. eauto 6.
  - apply rbind_Ok in H as (? & _ & H). by injection H as <-.
Qed.

Lemma owner_Ok s r run : validateOwner s r = Ok () → runId (r_body r) = Some run → run ∈ starts s ∧ later_than (finishedAt s) run (r_seq r) = false.
Proof.
  unfold validateOwner. intros H E. rewrite E in H. apply rbind_Ok in H as (? & H1%refuse_Ok & H2%refuse_Ok). bool_prop. done.
Qed.

Lemma snoc_elim {A} (x y : A) l : x ∈ l ++ [y] ↔ x ∈ l ∨ x = y.
Proof. by rewrite elem_of_app, list_elem_of_singleton. Qed.

(** The equation of a turn. *)
Ltac turn_eq T s1 := destruct T as [_ T]; try lazymatch type of T with _ ∧ _ => destruct T as [T _] end; subst s1.

Lemma turn_explains rs s r s1 : explains rs s → turn s r s1 → explains (rs ++ [r]) s1.
Proof.
  intros [X1 X2 X3 X4 X5 X6] T. unfold turn in T.
  assert (Hst : ∀ i, i ∈ starts s1 ↔ i ∈ starts s ∨ is_Some (as_started (r_body r)) ∧ r_id r = i).
  { intros i. destruct (r_body r) eqn:Eb; cbn.
    1: subst s1; cbn; rewrite elem_of_union, elem_of_singleton; split; [intros [-> | ?]; eauto | intros [? | [_ ->]]; auto].
    all: turn_eq T s1; cbn; split; [auto|]; intros [? | [[? ?] _]]; done. }
  assert (Hfin : ∀ i, finishedAt s1 !! i = match r_body r with operation_finished f => if decide (i = of_runId f) then Some (r_seq r) else finishedAt s !! i | _ => finishedAt s !! i end).
  { intros i. destruct (r_body r); [by subst| |..]; turn_eq T s1; cbn; try done.
    rewrite lookup_insert. by repeat case_decide. }
  assert (Hab : ∀ i, abortedAt s1 !! i = match r_body r with abort_requested run => if decide (i = run) then Some (r_seq r) else abortedAt s !! i | _ => abortedAt s !! i end).
  { intros i. destruct (r_body r); [by subst| |..]; turn_eq T s1; cbn; try done.
    rewrite lookup_insert. by repeat case_decide. }
  assert (Hen : ∀ i, queueEnqueues s1 !! i = match r_body r with queue_enqueued q => if decide (i = p_id (qe_target q)) then Some (with_body r q) else queueEnqueues s !! i | _ => queueEnqueues s !! i end).
  { intros i. destruct (r_body r); [by subst| |..]; turn_eq T s1; cbn; try done.
    rewrite lookup_insert. by repeat case_decide. }
  constructor.
  - intros i. rewrite Hst, X1. setoid_rewrite snoc_elim. naive_solver.
  - intros f x Hf Hx. rewrite snoc_elim in Hf. rewrite Hfin. destruct (r_body r) eqn:Eb.
    4: { case_decide as Hd.
         - exists r, f0. rewrite snoc_elim. split_and!; auto.
         - destruct Hf as [Hf | ->]; [|congruence]. destruct (X2 f x Hf Hx) as (f' & x' & ? & ? & ? & ?). exists f', x'. rewrite snoc_elim. auto. }
    all: destruct Hf as [Hf | ->]; [|congruence]; destruct (X2 f x Hf Hx) as (f' & x' & ? & ? & ? & ?); exists f', x'; rewrite snoc_elim; auto.
  - intros a run Ha Hx. rewrite snoc_elim in Ha. rewrite Hab. destruct (r_body r) eqn:Eb.
    3: { case_decide as Hd.
         - exists r. rewrite snoc_elim. subst. auto.
         - destruct Ha as [Ha | ->]; [|congruence]. destruct (X3 a run Ha Hx) as (a' & ? & ? & ?). exists a'. rewrite snoc_elim. auto. }
    all: destruct Ha as [Ha | ->]; [|congruence]; destruct (X3 a run Ha Hx) as (a' & ? & ? & ?); exists a'; rewrite snoc_elim; auto.
  - intros i q. rewrite Hen. setoid_rewrite snoc_elim. destruct (r_body r) eqn:Eb; try (intros Hq; destruct (X4 i q Hq) as (e & ? & ? & ? & ?); eauto 7; fail).
    case_decide as Hd; [|intros Hq; destruct (X4 i q Hq) as (e & ? & ? & ? & ?); eauto 7]. intros [= <-]. exists r. split_and!; auto.
  - intros i. unfold consumedQueueIds. rewrite omap_app, elem_of_app. fold (consumedQueueIds rs). rewrite <- X5. cbn.
    destruct (r_body r) eqn:Eb; [subst; cbn; set_solver| |..]; turn_eq T s1; cbn; set_solver.
  - intros i. rewrite omap_app, elem_of_app, <- X6. cbn.
    destruct (r_body r) eqn:Eb; [subst; cbn; set_solver| |..]; turn_eq T s1; cbn; set_solver.
Qed.

Lemma turn_consistent rs s r s1 : explains rs s → turn s r s1 → Forall (λ x, r_seq x < r_seq r) rs → consistent es rs → consistent es (rs ++ [r]).
Proof.
  intros X T Hlt [C1 C2 C3 C4 C5 C6 C7]. rewrite Forall_forall in Hlt.
  assert (Hown : ∀ run, runId (r_body r) = Some run → run ∈ starts s ∧ later_than (finishedAt s) run (r_seq r) = false).
  { intros run Hr. apply owner_Ok; [|done]. unfold turn in T. destruct (r_body r); [done|..]; apply T. }
  constructor.
  - intros x run Hx Hr. setoid_rewrite snoc_elim. apply snoc_elim in Hx as [Hx | ->].
    + destruct (C1 x run Hx Hr) as (o & ? & ? & ? & ?). eauto 7.
    + destruct (Hown run Hr) as [Hs _]. apply (x_starts _ _ X) in Hs as (o & Ho & ? & ?). exists o. split_and!; auto. specialize (Hlt o Ho). cbn in Hlt. lia.
  - intros x f y run Hx Hf Hy Hrun Hr. apply snoc_elim in Hx as [Hx | ->], Hf as [Hf | ->].
    + by eapply C2.
    + specialize (Hlt x Hx). cbn in Hlt. lia.
    + destruct (Hown run Hr) as [_ Hl]. destruct (x_finish _ _ X f y Hf Hy) as (f' & x' & Hf' & Hx' & Hid & Hfin). rewrite Hrun in *.
      unfold later_than in Hl. rewrite Hfin in Hl. bool_prop. specialize (C2 f' f y run Hf' Hf Hy Hrun). rewrite Hx' in C2. cbn in C2. rewrite Hid in C2. specialize (C2 eq_refl). lia.
    + lia.
  - unfold consumedQueueIds. rewrite omap_app. apply NoDup_app. split_and!; [exact C3 | | cbn; destruct (r_body r); cbn; first [apply NoDup_nil_2 | apply NoDup_singleton]].
    intros i Hi. unfold turn in T. cbn. destruct (r_body r) eqn:Eb; cbn; try (by apply not_elem_of_nil).
    intros ->%list_elem_of_singleton. destruct T as (_ & _ & q0 & _ & _ & _ & Hn). by apply Hn, (x_consumed _ _ X).
  - intros x c Hx Hc. setoid_rewrite snoc_elim. apply snoc_elim in Hx as [Hx | ->].
    + destruct (C4 x c Hx Hc) as (e & q & ? & ? & ? & ? & ?). eauto 9.
    + unfold turn in T. rewrite Hc in T. destruct T as (_ & _ & q & Hq & Hs & Hk & _). destruct (x_enqueued _ _ X _ _ Hq) as (e & He & Hb & Hse & Hid).
      exists e, (r_body q). split_and!; auto; lia.
  - rewrite omap_app. apply NoDup_app. split_and!; [exact C5 | | cbn; destruct (r_body r); cbn; first [apply NoDup_nil_2 | apply NoDup_singleton]].
    intros i Hi. unfold turn in T. cbn. destruct (r_body r) eqn:Eb; cbn; try (by apply not_elem_of_nil).
    intros ->%list_elem_of_singleton. destruct T as (_ & _ & Hn & _). by apply Hn, (x_invoked _ _ X).
  - intros x t Hx Ht. apply snoc_elim in Hx as [Hx | ->]; [by eapply C6|]. unfold turn in T. rewrite Ht in T.
    destruct T as (_ & _ & _ & a & c & Ha & Hc & ? & ?). destruct (mget _ _) as [e|] eqn:He; [|done]. cbn in Ha. apply by_id_elem in He as [? ?]. eauto 9.
  - intros x q a run Hx Ha Hq Hn Hr Hab. apply snoc_elim in Hx as [Hx | ->], Ha as [Ha | ->].
    + by eapply C7.
    + apply (Hlt x Hx).
    + exfalso. unfold turn in T. rewrite Hq in T. destruct T as (_ & _ & T). specialize (T Hn run Hr).
      destruct (x_abort _ _ X a run Ha Hab) as (a' & Ha' & _ & Hl). unfold later_than in T. rewrite Hl in T. bool_prop. specialize (Hlt a' Ha'). cbn in Hlt. lia.
    + congruence.
Qed.

Lemma validate_sound rs : ∀ s, validate rs = Ok s → StronglySorted (λ a b, r_seq a < r_seq b) rs → explains rs s ∧ consistent es rs.
Proof.
  induction rs as [|r rs IH] using rev_ind; intros s H Hs.
  - injection H as <-. split; constructor; cbn; try (intros *; by intros ?%elem_of_nil); try (by constructor); try (intros *; by rewrite lookup_empty);
      set_solver.
  - rewrite foldM_app in H. apply rbind_Ok in H as (s0 & H0 & H1). cbn in H1. apply rbind_Ok in H1 as (s1 & H1 & [= <-]).
    apply validate_turn in H1. assert (Hlt : Forall (λ x, r_seq x < r_seq r) rs ∧ StronglySorted (λ a b, r_seq a < r_seq b) rs).
    { clear -Hs. induction rs as [|x rs IH]; [by repeat constructor|]. cbn in Hs. inversion Hs as [|? ? Hs' Hx]; subst. destruct (IH Hs') as [? ?].
      apply Forall_app in Hx as [Hx1 Hx2]. rewrite Forall_singleton in Hx2. split; constructor; assumption. }
    destruct Hlt as [Hlt Hs0]. destruct (IH s0 H0 Hs0) as [X C]. split; [by eapply turn_explains | by eapply turn_consistent].
Qed.

End Soundness.

(** ** Order *)

Lemma strictly_sorted (l : list LaneRecord) : NoDup (r_seq <$> l) → StronglySorted (λ a b, r_seq a < r_seq b) (bySequence l).
Proof.
  intros Hn. assert (Hs : Sorted (λ a b, (r_seq a <=? r_seq b) = true) (bySequence l)) by (apply sort_by_sorted; intros a b H; bool_prop; apply Z.leb_le; lia).
  apply Sorted_StronglySorted in Hs; [|intros a b c H1 H2; bool_prop; apply Z.leb_le; lia].
  assert (Hn' : NoDup (r_seq <$> bySequence l)) by (unfold bySequence; by rewrite sort_by_perm).
  induction Hs as [|x k Hs IH Hx]; [constructor|]. cbn in Hn'. apply NoDup_cons in Hn' as [Hnx Hn']. constructor; [by apply IH|].
  apply Forall_forall. intros y Hy. rewrite Forall_forall in Hx. specialize (Hx y Hy). cbn in Hx. bool_prop.
  assert (r_seq x ≠ r_seq y) by (intros E; apply Hnx; rewrite E; apply list_elem_of_fmap; eauto). lia.
Qed.

Lemma sorted_unique (l k : list LaneRecord) : StronglySorted (λ a b, r_seq a < r_seq b) l → StronglySorted (λ a b, r_seq a < r_seq b) k →
  l ≡ₚ k → l = k.
Proof.
  intros Hl. revert k. induction Hl as [|x l Hl IH Hx]; intros k Hk P; [symmetry; by apply Permutation_nil|].
  destruct k as [|y k]; [by apply Permutation_nil_r in P|]. inversion Hk as [|? ? Hk' Hy]; subst. rewrite Forall_forall in Hx, Hy.
  assert (x = y) as ->.
  { assert (Hxk : x ∈ y :: k) by (rewrite <- P; by left). assert (Hyl : y ∈ x :: l) by (rewrite P; by left).
    apply elem_of_cons in Hxk as [|Hxk], Hyl as [|Hyl]; try congruence. specialize (Hx y Hyl). specialize (Hy x Hxk). cbn in *. lia. }
  f_equal. apply IH; [done|]. by apply Permutation_cons_inv in P.
Qed.

Lemma bySequence_perm (l k : list LaneRecord) : l ≡ₚ k → NoDup (r_seq <$> l) → bySequence l = bySequence k.
Proof.
  intros P Hn. apply sorted_unique; [by apply strictly_sorted | apply strictly_sorted; by rewrite <- P |].
  unfold bySequence. by rewrite !sort_by_perm.
Qed.

(** ** Theorems *)

(** The same recovery input with its records in another order. *)
Definition with_records (rs : list LaneRecord) (i : LaneReductionInput) : LaneReductionInput :=
  mkInput (mkSlice (lane (slice i)) (openOperations (slice i)) rs (entries (slice i))) (leafId i) (ownEntries i)
    (configurationEntries i) (defaults i).

(** C15. A log that passes validation follows the protocol: when [validateRecordLog] accepts a slice whose records
    have different sequence numbers, then every record of an operation comes after its start and not after its finish, a
    queued item is consumed once, after it was queued and from its queue, a tool call is started once and is a call of
    its assistant entry, and nothing is queued for an operation after its abort. *)
Theorem validated_log_is_consistent IsDeepEqual i : validateRecordLog IsDeepEqual i = Ok () → NoDup (r_seq <$> records i) →
  consistent (entries i) (bySequence (records i)).
Proof.
  intros H Hn. unfold validateRecordLog in H. apply rbind_Ok in H as (? & _ & H). apply rbind_Ok in H as (? & _ & H).
  apply rbind_Ok in H as (s & H & _). eapply (validate_sound IsDeepEqual (entries i)); [exact H | by apply strictly_sorted].
Qed.

(** Recovery does not depend on the order of the records: a lane is reduced to the same state, the same
    configuration and the same failure, or refused for the same reason, for every order in which the storage
    returns records with different sequence numbers. *)
Theorem recovery_ignores_record_order IsDeepEqual i rs : rs ≡ₚ records (slice i) → NoDup (r_seq <$> rs) →
  reduceLaneState IsDeepEqual (with_records rs i) = reduceLaneState IsDeepEqual i.
Proof.
  intros P Hn. pose proof (bySequence_perm _ _ P Hn) as E.
  unfold reduceLaneState, validateRecordLog, deriveEffectiveConfiguration, with_records.
  cbn [slice lane openOperations records entries leafId ownEntries configurationEntries defaults]. by rewrite E.
Qed.

End LaneReducerProps.
