(* ===== verification/LaneRecovery.v ===== *)
(** * Recovery of what a session stored

    The reducer of [LaneReducer] on the recovery slices of the sessions of [Session]: where
    both say what is pending they agree, and which writes of the session make its own log
    unrecoverable. *)
From S2P Require Import Prelude JsMap JsString Json AgentData SessionState SessionQueries Session SessionJobs LaneReducer LaneReducerProps.

Module LaneRecovery.
Import AgentData.
Module S := SessionState.SessionState.
Import SessionStateProps SessionQueries Session SessionJobs LaneReducer LaneReducerProps.

(** The records of a lane, in the order of the log. *)
Definition lane_records (l : jsstr) (s : S.State) : list LaneRecord := filter (λ r, r_lane r = l) (S.records s).

(** The slice of a lane: at most two open operations, its records, and the entries. *)
Definition slice_of (l : jsstr) (s : S.State) : RecordLogSlice :=
  mkSlice l (take 2 (unfinished l (S.records s))) (lane_records l s) (S.entries s).
Definition input_of (l : jsstr) (leaf : option jsstr) (own configuration : list Entry) (d : EffectiveLaneConfiguration) (s : S.State)
    : LaneReductionInput := mkInput (slice_of l s) leaf own configuration d.

Lemma slice_operations l s : stored s → S.findOpenOperations l (Some 2) s = Ok (openOperations (slice_of l s)).
Proof.
  intros St. destruct (stored_tracked _ St) as [T1 _ T3]. unfold S.findOpenOperations. cbn [rbind]. cbn. fold (open_in s l). rewrite <- T1.
  specialize (T3 l). destruct (open_in s l) as [|p [|]]; cbn in *; [done..|lia].
Qed.

(** ** The log is sorted *)

Lemma sorted_by_seq (l : list LaneRecord) : StronglySorted (λ a b, r_seq a < r_seq b) l → bySequence l = l ∧ NoDup (r_seq <$> l).
Proof.
  intros Hs. assert (Hn : NoDup (r_seq <$> l)).
  { induction Hs as [|x l Hs IH Hx]; [constructor|]. cbn. constructor; [|exact IH]. intros (y & E & Hy)%list_elem_of_fmap.
    rewrite Forall_forall in Hx. specialize (Hx y Hy). cbn in Hx. lia. }
  split; [|exact Hn]. apply sorted_unique; [by apply strictly_sorted | done |]. apply sort_by_perm.
Qed.

Lemma lane_records_sorted l s : wf s → StronglySorted (λ a b, r_seq a < r_seq b) (lane_records l s).
Proof.
  intros W. destruct (wf_record_seqs _ W) as [Hs _]. unfold lane_records. revert Hs.
  induction (S.records s) as [|r rs IH]; intros Hs; [constructor|]. cbn in Hs. inversion Hs as [|? ? Hs' Hr]; subst. rewrite filter_cons.
  case_decide; [|by apply IH]. constructor; [by apply IH|]. apply Forall_forall. intros x Hx. apply list_elem_of_filter in Hx as [_ Hx].
  rewrite Forall_forall in Hr. apply Hr, list_elem_of_fmap. eauto.
Qed.

(** ** The inbox *)

Lemma query_lane l s : queryRecords (lane_query l None S.oldestFirst None) s = Ok (lane_records l s).
Proof.
  change (queryRecords (lane_query l None S.oldestFirst None) s) with (S.findRecords (lane_query l None S.oldestFirst None) s).
  rewrite find_records by done. f_equal. cbn [S.rq_limit lane_query upTo S.rq_order].
  unfold S.ordered. rewrite bool_decide_eq_true_2 by done. unfold lane_records. apply list_filter_iff. intros r.
  unfold S.matchesRecordQuery. cbn. rewrite !andb_true_r. apply bool_decide_eq_true.
Qed.

Lemma pending_is_open ebi rs : pendingQueueRecords ebi rs
  = filter (λ q, mhas (p_id (qe_target q)) ebi = false) (r_body <$> open_items rs).
Proof.
  unfold pendingQueueRecords, open_items. fold (cancelledQueueIds rs) (consumedQueueIds rs).
  change (cancelledIds rs) with (cancelledQueueIds rs). change (consumedIds rs) with (consumedQueueIds rs).
  generalize (cancelledQueueIds rs) (consumedQueueIds rs). intros ca co. induction rs as [|r rs IH]; [done|]. cbn [omap list_omap].
  unfold pick at 1. destruct (as_enqueued (r_body r)) as [q|]; [|exact IH]. rewrite !filter_cons. cbn [r_body].
  destruct (decide (p_id (qe_target q) ∉ ca ∧ p_id (qe_target q) ∉ co)) as [[H1 H2]|Hn].
  - rewrite fmap_cons, filter_cons. cbn [r_body]. repeat case_decide; try (f_equal; exact IH); try exact IH; tauto.
  - rewrite decide_False by tauto. exact IH.
Qed.


Lemma mhas_by_id i es : mhas i (by_id es) = bool_decide (i ∈ e_id <$> es).
Proof.
  assert (H : ∀ m, mhas i (foldl (λ m kv, mset kv.1 kv.2 m) m ((λ e, (e_id e, e)) <$> es)) = mhas i m || bool_decide (i ∈ e_id <$> es)).
  { induction es as [|e es IH]; intros m; cbn; [by rewrite bool_decide_eq_false_2, orb_false_r by (by intros ?%elem_of_nil)|].
    rewrite IH. unfold mhas. rewrite mget_mset. destruct (decide (i = e_id e)) as [->|Hn].
    - rewrite (bool_decide_eq_true_2 (_ ∈ _ :: _)) by constructor. by rewrite orb_true_r.
    - f_equal. apply bool_decide_ext. rewrite elem_of_cons. naive_solver. }
  apply (H []).
Qed.

(** The open items of a queue, for a run if they are not for the next one, that are not stored as entries. *)
Definition unstored (es : list Entry) (queue : Queue) (run : option jsstr) (items : list (Rec QueueEnqueued)) : list ProvisionedEntry :=
  qe_target <$> filter (λ q, qe_queue q = queue ∧ (queue = nextRun ∨ qe_runId q = run) ∧ p_id (qe_target q) ∉ e_id <$> es)
    (r_body <$> items).

Lemma filter_filter {A} (P Q R : A → Prop) `{∀ x, Decision (P x), ∀ x, Decision (Q x), ∀ x, Decision (R x)} (l : list A) :
  (∀ x, R x ↔ P x ∧ Q x) → filter P (filter Q l) = filter R l.
Proof.
  intros E. rewrite list_filter_filter. apply list_filter_iff. intros x. symmetry. apply E.
Qed.

Lemma pending_unstored es rs : pendingQueueRecords (by_id es) rs
  = filter (λ q, p_id (qe_target q) ∉ e_id <$> es) (r_body <$> open_items rs).
Proof. rewrite pending_is_open. apply list_filter_iff. intros q. rewrite mhas_by_id. apply bool_decide_eq_false. Qed.

Lemma queued_unstored es rs queue run : queue ≠ nextRun →
  queued_for queue run (pendingQueueRecords (by_id es) rs) = unstored es queue (Some run) (open_items rs).
Proof.
  intros Hq. unfold queued_for, unstored. rewrite pending_unstored. f_equal. apply filter_filter. naive_solver.
Qed.

Lemma next_unstored es rs (captured : list jsstr) :
  qe_target <$> filter (λ q, qe_queue q = nextRun ∧ p_id (qe_target q) ∉ captured) (pendingQueueRecords (by_id es) rs)
  = filter (λ t, p_id t ∉ captured) (unstored es nextRun None (open_items rs)).
Proof.
  unfold unstored. rewrite pending_unstored. generalize (r_body <$> open_items rs). intros qs. induction qs as [|q qs IH]; [done|].
  rewrite !filter_cons. repeat (case_decide; rewrite ?filter_cons, ?fmap_cons, ?filter_cons); rewrite ?IH; tauto || congruence || done.
Qed.

Section Agreement.
Context (IsDeepEqual : ProvisionedEntry → ProvisionedEntry → bool) (l : jsstr) (leaf : option jsstr) (own configuration : list Entry)
  (d : EffectiveLaneConfiguration).

(** C16. Recovery agrees with the live session: whenever a lane of a stored session is reduced, the recovered operation
    is the one the lane has not finished, what waits for its turns and for the next run is what [listInbox] lists
    and no entry holds yet, in the same order, and an operation that is being aborted gets no further input. *)
Theorem recovery_agrees_with_session s r : stored s →
  reduceLaneState IsDeepEqual (input_of l leaf own configuration d s) = Ok r →
  ∃ items, listInbox l s = Ok items ∧
    let es := S.entries s ++ own in
    let started := head (unfinished l (S.records s)) in
    let captured := default [] ((λ o, p_id <$> initialMessages (os_intent (r_body o))) <$> started) in
    lo_id <$> ln_operation (laneState r) = r_id <$> started ∧
    ln_pendingNextRun (laneState r) = filter (λ t, p_id t ∉ captured) (unstored es nextRun None items) ∧
    ∀ o, ln_operation (laneState r) = Some o →
      lo_pendingSteer o = (if lo_aborting o then [] else unstored es steer (Some (lo_id o)) items) ∧
      lo_pendingFollowUp o = (if lo_aborting o then [] else unstored es followUp (Some (lo_id o)) items).
Proof.
  intros St H. exists (open_items (lane_records l s)). split; [unfold listInbox; by rewrite query_lane|]. cbv zeta.
  destruct (sorted_by_seq _ (lane_records_sorted l s (stored_wf _ St))) as [Hs _].
  assert (Hp : ∀ own, Permutation (entriesBySequence own) own) by (intros; apply sort_by_perm).
  assert (Hu : ∀ q run, unstored (S.entries s ++ entriesBySequence own) q run (open_items (lane_records l s))
               = unstored (S.entries s ++ own) q run (open_items (lane_records l s))).
  { intros q run. unfold unstored. f_equal. apply list_filter_iff. intros x. by rewrite (Hp own). }
  unfold reduceLaneState in H. apply rbind_Ok in H as (? & _ & H). cbn [slice input_of slice_of records entries openOperations lane leafId ownEntries] in H.
  rewrite Hs in H. rewrite next_unstored, Hu in H.
  assert (Hh : head (take 2 (unfinished l (S.records s))) = head (unfinished l (S.records s))) by (by destruct (unfinished _ _)).
  rewrite Hh in H. destruct (head (unfinished l (S.records s))) as [o|]; injection H as <-; cbn; split_and!; try done.
  intros o' [= <-]. cbn. rewrite !queued_unstored, !Hu by done. done.
Qed.
End Agreement.

End LaneRecovery.

(** * Concrete sessions and their recovery

    Small sessions of [Session]: the witnesses of the theorems about them, and writes of the
    session that its own recovery refuses. *)

Module RecoverySample.
Import AgentData SessionState Storage SessionStateProps SessionQueries Session SessionJobs LaneReducer LaneReducerProps LaneRecovery.

Definition main : jsstr := js "main".
Definition op : jsstr := js "op".
Definition user (id : string) : ProvisionedEntry := mkProvisioned (js id) (message (m_user (Json.j_string (js id))) false).
Definition defaults : EffectiveLaneConfiguration := mkEffective (js "provider", js "model") (js "off") [].
Definition configuration : GenerationConfiguration :=
  mkConfiguration (js "provider") (js "model") (js "off") (Json.j_object []) (mkRetry true 2 1000 None).

Definition enqueue (q : Queue) (id : string) : M () := enqueueInboxItem main q (user id) (Some op) (js (id ++ "-queued")) 0;; mret ().
Definition start : M () :=
  startGeneration (mkStartGeneration main op (js "step") [] [] configuration (js "response") (js "usage")) (js "generation") 0;; mret ().
Definition consume (ids : list string) : M () := consumeInbox main op (js <$> ids) ((λ p, js p.2 ++ [p.1]) <$> imap (λ i x, (Z.of_nat i, x)) ids) 0;; mret ().
Definition abort : M () := requestAbort main op (js "abort") 0;; mret ().

Definition after (m : M ()) : State := (m (newState [main])).1.
Definition recover (s : State) : result RecordLogCorruptionReason LaneReductionResult :=
  reduceLaneState (λ _ _, true) (input_of main None [] [] defaults s).
Definition verdict (m : M ()) : option RecordLogCorruptionReason := match recover (after m) with Ok _ => None | Err e => Some e end.

Definition good : M () := start;; enqueue steer "a";; enqueue steer "b";; enqueue nextRun "n";; consume ["a"].
Definition consumed_twice : M () := start;; enqueue steer "a";; consume ["a"; "a"].
Definition queued_after_abort : M () := start;; abort;; enqueue steer "a".
Definition queued_before_start : M () := enqueue steer "a";; start.


Lemma job_enqueue q id : job (enqueue q id).
Proof. unfold enqueue. go_job. Qed.
Lemma job_start : job start.
Proof. unfold start. go_job. Qed.
Lemma job_consume ids : job (consume ids).
Proof. unfold consume. go_job. Qed.
Lemma job_abort : job abort.
Proof. unfold abort. go_job. Qed.
#[local] Hint Resolve job_enqueue job_start job_consume job_abort : jobs.

(** Every write of the session was accepted. *)
Definition accepted (m : M ()) : bool := match (m (newState [main])).2 with Ok _ => true | Err _ => false end.

Lemma after_stored m : job m → stored (after m).
Proof. intros Hm. apply stored_job; [exact Hm | apply stored_new]. Qed.
Lemma good_job : job good.
Proof. unfold good. go_job. Qed.

(** A session stores logs that its own recovery refuses: an item that is named twice in one consumption is consumed
    twice, an item can be queued for a run after its abort was requested, and one can be queued for a run that
    starts only later; each of these writes is accepted, and the recovery of the lane then fails for good. *)
Theorem sessions_store_unrecoverable_logs :
  (verdict good, verdict consumed_twice, verdict queued_after_abort, verdict queued_before_start)
  = (None, Some invalid_queue_consumption, Some queue_after_abort, Some unknown_operation)
  ∧ (accepted consumed_twice && accepted queued_after_abort && accepted queued_before_start)%bool = true.
Proof. vm_compute. split; reflexivity. Qed.

Lemma lane_runs_one_operation_witness :
  zlen (SessionState.records (after good)) = 6 ∧ ∃ open, SessionState.findOpenOperations main None (after good) = Ok open ∧
    open = unfinished main (SessionState.records (after good)) ∧ (length open <= 1)%nat.
Proof.
  split; [vm_compute; reflexivity|]. apply lane_runs_one_operation. apply after_stored, good_job.
Defined.

Lemma recovery_agrees_with_session_witness :
  let s := after good in
  match recover s with
  | Ok r => lo_id <$> ln_operation (laneState r) = r_id <$> head (unfinished main (SessionState.records s)) ∧ zlen (ln_pendingNextRun (laneState r)) = 1
  | Err _ => False
  end.
Proof.
  cbv zeta. destruct (recover (after good)) as [r|] eqn:E; [|vm_compute in E; discriminate E].
  split.
  - destruct (recovery_agrees_with_session (λ _ _, true) main None [] [] defaults (after good) r (after_stored _ good_job) E) as (items & _ & H & _). exact H.
  - vm_compute in E. injection E as <-. vm_compute. reflexivity.
Defined.

Lemma validated_log_is_consistent_witness :
  let i := slice_of main (after good) in
  validateRecordLog (λ _ _, true) i = Ok () ∧ consistent (LaneReducer.entries i) (bySequence (LaneReducer.records i)).
Proof.
  cbv zeta. split; [vm_compute; reflexivity|]. apply (validated_log_is_consistent (λ _ _, true)); [vm_compute; reflexivity|].
  apply (bool_decide_eq_true_1 (NoDup _)). vm_compute. reflexivity.
Defined.

Lemma recovery_ignores_record_order_witness :
  let i := input_of main None [] [] defaults (after good) in
  reduceLaneState (λ _ _, true) (with_records (rev (LaneReducer.records (slice i))) i) = reduceLaneState (λ _ _, true) i
  ∧ rev (LaneReducer.records (slice i)) ≠ LaneReducer.records (slice i).
Proof.
  cbv zeta. split.
  - apply recovery_ignores_record_order; [symmetry; apply Permutation_rev|]. apply (bool_decide_eq_true_1 (NoDup _)). vm_compute. reflexivity.
  - intros H. apply (f_equal (fmap r_seq)) in H. vm_compute in H. discriminate H.
Defined.

(** A session with a second lane, a label and a name. *)
Definition entry (id : string) (seq : Z) (parent : option jsstr) : Entry := mkEntry (js id) seq parent 0 (p_body (user id)).
Definition two_lanes : list SessionMutation :=
  [mut_entry (Some main) (entry "a" 1 None); mut_entry (Some main) (entry "b" 2 (Some (js "a"))); mut_lane 3 (js "side") (Some (js "a"));
   mut_entry (Some (js "side")) (entry "c" 4 (Some (js "a"))); mut_label 5 (js "c") (Some (js "mark")); mut_name 6 (Some (js "session"))].
Definition branched : State := match foldM (λ s m, applyMutation m s) (newState [main]) two_lanes with Ok s => s | Err _ => newState [main] end.

Lemma mutations_reachable ms : ∀ s s', reachable [main] s → foldM (λ s m, applyMutation m s) s ms = Ok s' → reachable [main] s'.
Proof.
  induction ms as [|m ms IH]; intros s s' R H; [by injection H as <-|]. cbn in H. apply rbind_Ok in H as (s1 & H1 & H2).
  eapply IH; [|exact H2]. by eapply reach_mutation.
Qed.
Lemma branched_reachable : reachable [main] branched.
Proof.
  unfold branched. destruct (foldM _ _ two_lanes) as [s|] eqn:E; [|apply reach_new]. eapply mutations_reachable; [apply reach_new | exact E].
Qed.

Lemma branch_query_returns_the_path_witness :
  let q := mkEntryQuery None None (Some newestFirst) (Some 5) None in
  (e_id <$> SessionState.entries branched) = [js "a"; js "b"; js "c"] ∧
  match getEntry (js "c") branched with
  | None => False
  | Some e => ∃ path, path_to_root branched e path ∧ (∀ other, path_to_root branched e other → other = path) ∧
                SessionState.findEntriesOnBranch q no_bounds (js "c") branched = Ok (select q no_bounds path)
  end.
Proof.
  cbv zeta. split; [vm_compute; reflexivity|].
  pose proof (branch_query_returns_the_path [main] branched (mkEntryQuery None None (Some newestFirst) (Some 5) None) no_bounds (js "c")
    branched_reachable (conj eq_refl eq_refl)) as H.
  destruct (getEntry (js "c") branched) eqn:E; [exact H|]. vm_compute in E. discriminate E.
Defined.

Lemma fork_copies_its_scope_witness :
  let o := fork_branch (js "side") (Some (js "c")) (Some at_entry) in
  match fork o branched with Ok s => (e_id <$> SessionState.entries s) = [js "a"; js "c"] | Err _ => False end ∧
  ((∃ e, fork o branched = Err e ∧ (code e = invalid_fork_target ∨ code e = invalid_lane))
   ∨ ∃ copied forkLanes s', scope o branched copied forkLanes ∧ fork o branched = Ok s' ∧ fork_of branched copied forkLanes s').
Proof.
  cbv zeta. split; [vm_compute; reflexivity|]. apply (fork_copies_its_scope [main]). apply branched_reachable.
Defined.

End RecoverySample.
