(* ===== verification/JsonlCodec.v ===== *)
(** * The lines of a session file

    Models [agent/src/harness/session/jsonl/codec.ts] with the types of [types.ts] and
    [errors.ts]: the header and the mutations of a session as lines of JSON.

    A mutation is decoded into the object that the line holds, without the members that
    frame it; that object as an entry or a record is the cast of the source, an argument of
    the storage.  Nothing modelled reads the [cause] of an error. *)
From S2P Require Import Prelude JsMap JsString Json JsonTexts AgentData.

Module JsonlCodec.
Import Json JsonNumber AgentData.

Notation members := (list (jsstr * json)).
(** [JsonlDecodeError] *)
Inductive JsonlDecodeError := err_syntax | err_schema (message : jsstr).
Notation decoded := (result JsonlDecodeError).
Definition schema {A} (message : string) : decoded A := Err (err_schema (js message)).
Definition schema_of {A} (message : string) (what : jsstr) : decoded A := Err (err_schema (js message ++ what)).

Definition ENTRY_TYPES : list string :=
  ["message"; "model_change"; "thinking_level_change"; "active_tools_change"; "compaction"; "branch_summary"; "custom"].
Definition RECORD_TYPES : list string :=
  ["operation_started"; "generation_state"; "abort_requested"; "operation_finished"; "step_attempt"; "tool_started";
   "tool_execution_state"; "queue_enqueued"; "queue_cancelled"; "queue_consumed"; "write_deferred"; "usage"].
Definition OPERATION_KINDS : list string := ["run"; "compaction"; "navigation"].
Definition one_of (names : list string) (s : jsstr) : bool := existsb (λ n, str_eqb s (js n)) names.

Definition parseObject (line : jsstr) : decoded members :=
  match parse line with
  | None => Err err_syntax
  | Some (j_object m) => Ok m
  | Some _ => schema "is not a JSON object"
  end.

(** [value.key] *)
Definition field (key : string) (value : members) : option json := mget (js key) value.

Definition requireString (v : option json) (what : string) : decoded jsstr :=
  match v with Some (j_string s) => Ok s | _ => schema ("has invalid " ++ what) end.
Definition requireSequence (v : option json) : decoded Z :=
  match v with
  | Some (j_number t) => match safe_integer t with Some n => if n <=? 0 then schema "has invalid seq" else Ok n
                                                | None => schema "has invalid seq" end
  | _ => schema "has invalid seq"
  end.
Definition requireTimestamp (v : option json) : decoded Z :=
  match v with
  | Some (j_number t) => match safe_integer t with Some n => if n <? 0 then schema "has invalid timestamp" else Ok n
                                                | None => schema "has invalid timestamp" end
  | _ => schema "has invalid timestamp"
  end.
Definition requireNullableId (v : option json) (what : string) : decoded (option jsstr) :=
  match v with Some j_null => Ok None | Some (j_string s) => Ok (Some s) | _ => schema ("has invalid " ++ what) end.
(** [value !== undefined && typeof value !== "string"] is refused. *)
Definition optional_string (v : option json) (what : string) : decoded (option jsstr) :=
  match v with None => Ok None | Some (j_string s) => Ok (Some s) | Some _ => schema ("has invalid " ++ what) end.

(** ** Headers *)

Record JsonlV4Header := mkHeader {
  h_id : jsstr; h_createdAt : Z; h_cwd : jsstr; h_parentSessionId : option jsstr; h_legacyParentSessionPath : option jsstr;
  h_metadata : option members; h_initialLanes : option (list jsstr) }.
Record JsonlSessionMetadata := mkMetadata {
  md_id : jsstr; md_createdAt : Z; md_cwd : jsstr; md_path : jsstr; md_modifiedAt : Z; md_parentSessionId : option jsstr;
  md_legacyParentSessionPath : option jsstr; md_metadata : option members }.

Definition strings_of (l : list json) : option (list jsstr) :=
  mapM (λ v, match v with j_string s => Some s | _ => None end) l.

Definition decodeHeader (line : jsstr) : decoded JsonlV4Header :=
  let* value := parseObject line in
  let* _ := guard_err (negb (string_is (field "kind" value) "header")) (err_schema (js "is not a header")) in
  let* _ := guard_err (negb (match field "version" value with Some (j_number t) => bool_decide (safe_integer t = Some 4) | _ => false end))
              (err_schema (js "has unsupported session version")) in
  let* parentSessionId := optional_string (field "parentSessionId" value) "parentSessionId" in
  let* legacyParentSessionPath := optional_string (field "legacyParentSessionPath" value) "legacyParentSessionPath" in
  let* _ := guard_err (match parentSessionId, legacyParentSessionPath with Some _, Some _ => true | _, _ => false end)
              (err_schema (js "has both parentSessionId and legacyParentSessionPath")) in
  let* metadata := match field "metadata" value with
                   | None => Ok None
                   | Some (j_object m) => Ok (Some m)
                   | Some _ => schema "has invalid metadata"
                   end in
  let* initialLanes := match field "initialLanes" value with
                       | None => Ok None
                       | Some (j_array l) => match strings_of l with
                                             | Some names => Ok (Some names)
                                             | None => schema "has invalid initialLanes"
                                             end
                       | Some _ => schema "has invalid initialLanes"
                       end in
  let* id := requireString (field "id" value) "id" in
  let* createdAt := requireTimestamp (field "createdAt" value) in
  let* cwd := requireString (field "cwd" value) "cwd" in
  Ok (mkHeader id createdAt cwd parentSessionId legacyParentSessionPath metadata initialLanes).
Definition parseHeader (line : jsstr) : decoded JsonlV4Header := decodeHeader line.

(** A member that [JSON.stringify] leaves out when it is [undefined]. *)
Definition optional (key : string) (v : option json) : members := match v with Some v => [(js key, v)] | None => [] end.
Definition number (n : Z) : json := j_number (num_str n).
Definition text (s : string) : json := j_string (js s).

Definition header_object (h : JsonlV4Header) : members :=
  [(js "kind", text "header"); (js "version", number 4); (js "id", j_string (h_id h)); (js "createdAt", number (h_createdAt h));
   (js "cwd", j_string (h_cwd h))]
  ++ optional "parentSessionId" (j_string <$> h_parentSessionId h)
  ++ optional "legacyParentSessionPath" (j_string <$> h_legacyParentSessionPath h)
  ++ optional "metadata" (j_object <$> h_metadata h)
  ++ optional "initialLanes" ((λ l, j_array (j_string <$> l)) <$> h_initialLanes h).
Definition encodeHeader (h : JsonlV4Header) : jsstr := stringify (j_object (header_object h)) ++ [10].

Definition metadataFromHeader (h : JsonlV4Header) (path : jsstr) (modifiedAt : Z) : JsonlSessionMetadata :=
  mkMetadata (h_id h) (h_createdAt h) (h_cwd h) path modifiedAt (h_parentSessionId h) (h_legacyParentSessionPath h) (h_metadata h).

(** ** Mutations *)

(** A mutation whose entry or record is the object of the line. *)
Inductive LineMutation :=
| line_entry (lane : option jsstr) (entry : members)
| line_record (record : members)
| line_lane (seq : Z) (lane : jsstr) (leafId : option jsstr)
| line_name (seq : Z) (name : option jsstr)
| line_label (seq : Z) (targetId : jsstr) (label : option jsstr).

(** [{ ...fields, ...more }] *)
Definition spread (fields more : members) : members := foldl (λ m kv, mset kv.1 kv.2 m) fields more.
Definition nullable (id : option jsstr) : json := match id with Some i => j_string i | None => j_null end.

Definition parseEntryMutation (value : members) (seq : Z) : decoded LineMutation :=
  let* lane := match field "lane" value with
               | None => Ok None
               | v => let* l := requireString v "lane" in Ok (Some l)
               end in
  let* id := requireString (field "id" value) "id" in
  let* type := requireString (field "type" value) "entry type" in
  let* _ := if one_of ENTRY_TYPES type then Ok () else schema_of "has unknown entry type " type in
  let* parentId := requireNullableId (field "parentId" value) "parentId" in
  let* timestamp := requireTimestamp (field "timestamp" value) in
  let* _ := if str_eqb type (js "custom") then requireString (field "customType" value) "customType" else Ok [] in
  Ok (line_entry lane (spread (mdelete (js "lane") (mdelete (js "kind") value))
        [(js "id", j_string id); (js "type", j_string type); (js "parentId", nullable parentId); (js "seq", number seq);
         (js "timestamp", number timestamp)])).

Definition check_operation_kind (value : members) : decoded () :=
  match field "intent" value with
  | Some (j_object intent) =>
      let* kind := requireString (field "kind" intent) "operation kind" in
      if one_of OPERATION_KINDS kind then Ok () else schema_of "has unknown operation kind " kind
  | _ => schema "has invalid intent"
  end.
Definition check_consumed (value : members) : decoded () :=
  let* _ := requireString (field "operationId" value) "operationId" in
  let* _ := requireString (field "entryId" value) "entryId" in
  let* queue := requireString (field "queue" value) "queue" in
  if one_of ["steer"; "followUp"; "nextRun"] queue then Ok () else schema_of "has invalid queue " queue.

Definition parseRecordMutation (value : members) (seq : Z) : decoded LineMutation :=
  let* id := requireString (field "id" value) "id" in
  let* lane := requireString (field "lane" value) "lane" in
  let* type := requireString (field "type" value) "record type" in
  let* _ := if one_of RECORD_TYPES type then Ok () else schema_of "has unknown record type " type in
  let* timestamp := requireTimestamp (field "timestamp" value) in
  let* _ := if str_eqb type (js "operation_started") then check_operation_kind value else Ok () in
  let* _ := if str_eqb type (js "operation_finished") then requireString (field "runId" value) "runId" else Ok [] in
  let* _ := if str_eqb type (js "queue_consumed") then check_consumed value else Ok () in
  Ok (line_record (spread (mdelete (js "kind") value)
        [(js "id", j_string id); (js "lane", j_string lane); (js "type", j_string type); (js "seq", number seq);
         (js "timestamp", number timestamp)])).

Definition parseLaneMutation (value : members) (seq : Z) : decoded LineMutation :=
  let* lane := requireString (field "lane" value) "lane" in
  let* leafId := requireNullableId (field "leafId" value) "leafId" in
  Ok (line_lane seq lane leafId).

Definition parseFactMutation (value : members) (seq : Z) : decoded LineMutation :=
  if string_is (field "fact" value) "name" then
    let* name := optional_string (field "name" value) "name" in Ok (line_name seq name)
  else if string_is (field "fact" value) "label" then
    let* label := optional_string (field "label" value) "label" in
    let* targetId := requireString (field "targetId" value) "targetId" in
    Ok (line_label seq targetId label)
  else schema "has unknown fact type".

Definition decodeMutation (line : jsstr) : decoded LineMutation :=
  let* value := parseObject line in
  let* seq := requireSequence (field "seq" value) in
  let kind := field "kind" value in
  if string_is kind "entry" then parseEntryMutation value seq
  else if string_is kind "record" then parseRecordMutation value seq
  else if string_is kind "lane" then parseLaneMutation value seq
  else if string_is kind "fact" then parseFactMutation value seq
  else schema "has unknown mutation kind".
Definition parseMutation (line : jsstr) : decoded LineMutation := decodeMutation line.

Definition mutation_object (m : LineMutation) : members :=
  match m with
  | line_entry lane entry => spread ([(js "kind", text "entry")] ++ optional "lane" (j_string <$> lane)) entry
  | line_record record => spread [(js "kind", text "record")] record
  | line_lane seq lane leafId => [(js "kind", text "lane"); (js "seq", number seq); (js "lane", j_string lane); (js "leafId", nullable leafId)]
  | line_name seq name => [(js "kind", text "fact"); (js "seq", number seq); (js "fact", text "name")] ++ optional "name" (j_string <$> name)
  | line_label seq targetId label =>
      [(js "kind", text "fact"); (js "seq", number seq); (js "fact", text "label"); (js "targetId", j_string targetId)]
      ++ optional "label" (j_string <$> label)
  end.
Definition encodeMutation (m : LineMutation) : jsstr := stringify (j_object (mutation_object m)) ++ [10].

End JsonlCodec.

(** * Lines are read back

    What [encodeMutation] and [encodeHeader] of [JsonlCodec] write is one line that is read
    back, and no proper prefix of the line is JSON. *)

Module JsonlCodecProps.
Import Json JsonPrefix JsonNumber AgentData JsonlCodec.

(** ** Objects *)

Lemma spread_distinct (base e : members) : NoDup (base ++ e).*1 → spread base e = base ++ e.
Proof.
  revert base. induction e as [|[k v] e IH]; intros base H; cbn; [by rewrite app_nil_r|]. rewrite mset_keys_absent; [rewrite IH|].
  - by rewrite <-app_assoc.
  - by rewrite <-app_assoc.
  - apply mget_None. rewrite fmap_app in H. apply NoDup_app in H as (_ & Hd & _). intros Hin. apply (Hd k Hin). by left.
Qed.

Lemma mset_same k (v : json) (m : members) : mget k m = Some v → mset k v m = m.
Proof.
  induction m as [|[k' v'] m IH]; cbn; [done|]. case_decide; [by intros [= ->]; subst|]. intros Hk. by rewrite IH.
Qed.

Lemma spread_present (e more : members) : Forall (λ kv, mget kv.1 e = Some kv.2) more → spread e more = e.
Proof. induction 1 as [|[k v] more Hk _ IH]; [done|]. cbn in *. by rewrite mset_same. Qed.

Lemma mget_app k (a b : members) : mget k (a ++ b) = match mget k a with Some v => Some v | None => mget k b end.
Proof. induction a as [|[k' v'] a IH]; cbn; [done|]. by case_decide. Qed.

Lemma mdelete_head k v (m : members) : mdelete k ((k, v) :: m) = m.
Proof. cbn. by rewrite decide_True. Qed.

(** Whether a text consists of UTF-16 units. *)
Notation units := (forallb is_unit).
Definition optional_units (s : option jsstr) : Prop := match s with Some s => units s = true | None => True end.
Definition seq_ok (q : Z) : Prop := 0 < q <= MAX_SAFE_INTEGER.
Definition time_ok (t : Z) : Prop := 0 <= t <= MAX_SAFE_INTEGER.

Lemma json_ok_members (m : members) : NoDup m.*1 → Forall (λ kv, units kv.1 = true ∧ json_ok kv.2) m → json_ok (j_object m).
Proof. intros Hn Hf. split; [done|]. clear Hn. induction Hf as [|kv m Hk _ IH]; [done|]. by split. Qed.

Lemma number_ok q : 0 <= q → json_ok (number q).
Proof. apply num_str_ok. Qed.
Lemma nullable_ok i : optional_units i → json_ok (nullable i).
Proof. by destruct i. Qed.
Lemma optional_ok key v : units (js key) = true → match v with Some v => json_ok v | None => True end →
  Forall (λ kv, units kv.1 = true ∧ json_ok kv.2) (optional key v).
Proof. destruct v; intros; [apply Forall_singleton; done | done]. Qed.

(** ** Mutations *)

(** The object of an entry or a record, without what frames it. *)
Record object_line (e : members) (id type : jsstr) (seq timestamp : Z) : Prop := {
  ol_ok : json_ok (j_object e);
  ol_id : field "id" e = Some (j_string id);
  ol_type : field "type" e = Some (j_string type);
  ol_seq : field "seq" e = Some (number seq) ∧ seq_ok seq;
  ol_timestamp : field "timestamp" e = Some (number timestamp) ∧ time_ok timestamp;
  ol_kind : field "kind" e = None }.

Definition line_ok (m : LineMutation) : Prop :=
  match m with
  | line_entry lane e => optional_units lane ∧ ∃ id type parentId seq timestamp, object_line e id type seq timestamp ∧
      one_of ENTRY_TYPES type = true ∧ field "parentId" e = Some (nullable parentId) ∧ field "lane" e = None ∧
      (type = js "custom" → ∃ c, field "customType" e = Some (j_string c))
  | line_record e => ∃ id type lane seq timestamp, object_line e id type seq timestamp ∧ one_of RECORD_TYPES type = true ∧
      field "lane" e = Some (j_string lane) ∧ (type = js "operation_started" → check_operation_kind e = Ok ()) ∧
      (type = js "operation_finished" → ∃ r, field "runId" e = Some (j_string r)) ∧ (type = js "queue_consumed" → check_consumed e = Ok ())
  | line_lane seq lane leafId => seq_ok seq ∧ units lane = true ∧ optional_units leafId
  | line_name seq name => seq_ok seq ∧ optional_units name
  | line_label seq targetId label => seq_ok seq ∧ units targetId = true ∧ optional_units label
  end.

Lemma requireSequence_number q : seq_ok q → requireSequence (Some (number q)) = Ok q.
Proof.
  intros [H1 H2]. unfold requireSequence, number. rewrite safe_integer_num_str by lia. by rewrite (proj2 (Z.leb_gt q 0)) by lia.
Qed.
Lemma requireTimestamp_number t : time_ok t → requireTimestamp (Some (number t)) = Ok t.
Proof.
  intros H. unfold requireTimestamp, number. rewrite safe_integer_num_str by done. destruct H. by rewrite (proj2 (Z.ltb_ge t 0)) by lia.
Qed.
Lemma requireNullableId_nullable i what : requireNullableId (Some (nullable i)) what = Ok i.
Proof. by destruct i. Qed.

(** The frame of an entry. *)
Definition entry_frame (lane : option jsstr) : members := [(js "kind", text "entry")] ++ optional "lane" (j_string <$> lane).

Lemma entry_object lane e : field "kind" e = None → field "lane" e = None → NoDup e.*1 →
  mutation_object (line_entry lane e) = entry_frame lane ++ e ∧ NoDup (entry_frame lane ++ e).*1.
Proof.
  intros H1 H2 Hn. unfold field in *. apply mget_None in H1, H2. cbn [mutation_object]. fold (entry_frame lane).
  assert (NoDup (entry_frame lane ++ e).*1); [|split; [by apply spread_distinct | done]].
  rewrite fmap_app. apply NoDup_app. split_and!; [|by destruct lane; intros x; cbn; rewrite ?elem_of_cons; intros ?; destruct_or?; subst; set_solver | done].
  destruct lane; cbn; apply (bool_decide_unpack _); vm_compute; done.
Qed.

Lemma record_object e : field "kind" e = None → NoDup e.*1 →
  mutation_object (line_record e) = (js "kind", text "record") :: e ∧ NoDup ((js "kind", text "record") :: e).*1.
Proof.
  intros H Hn. apply mget_None in H. assert (NoDup ((js "kind", text "record") :: e).*1) by (by constructor).
  split; [by apply (spread_distinct [_]) | done].
Qed.

Lemma members_ok e : json_ok (j_object e) → NoDup e.*1 ∧ Forall (λ kv, units kv.1 = true ∧ json_ok kv.2) e.
Proof. apply json_ok_object. Qed.

(** The members of a literal object, one by one. *)
Ltac each_member := repeat (apply Forall_cons_2; [split; cbn [fst snd]; [vm_compute; reflexivity | try done]|]); try apply Forall_nil_2.

Lemma mutation_object_ok m : line_ok m → json_ok (j_object (mutation_object m)).
Proof.
  destruct m as [lane e|e|q l t|q n|q i l]; cbn [line_ok].
  - intros (Hl & id & type & p & q & ts & [O1 _ _ _ _ O6] & _ & _ & H & _). apply members_ok in O1 as [O1 O2].
    destruct (entry_object lane e O6 H O1) as [-> Hn]. apply json_ok_members; [done|]. apply Forall_app. split; [|done].
    apply Forall_app. split; [by repeat constructor|]. apply optional_ok; [done|]. by destruct lane.
  - intros (id & type & l & q & ts & [O1 _ _ _ _ O6] & _). apply members_ok in O1 as [O1 O2].
    destruct (record_object e O6 O1) as [-> Hn]. apply json_ok_members; [done|]. by constructor.
  - intros ([Hq _] & Hl & Ht). apply json_ok_members; [by apply (bool_decide_unpack _); vm_compute|].
    each_member; [apply number_ok; lia | by apply nullable_ok].
  - intros ([Hq _] & Hn). apply json_ok_members; [destruct n; by apply (bool_decide_unpack _); vm_compute|].
    apply Forall_app. split; [|apply optional_ok; [done|]; by destruct n]. each_member. apply number_ok. lia.
  - intros ([Hq _] & Hi & Hl). apply json_ok_members; [destruct l; by apply (bool_decide_unpack _); vm_compute|].
    apply Forall_app. split; [|apply optional_ok; [done|]; by destruct l]. each_member. apply number_ok. lia.
Qed.

(** A member that is not one of the frame is the one of the object. *)
Lemma field_entry key lane e : field key (entry_frame lane) = None → field key (entry_frame lane ++ e) = field key e.
Proof. unfold field. intros H. by rewrite mget_app, H. Qed.
Lemma field_record key e : js key ≠ js "kind" → field key ((js "kind", text "record") :: e) = field key e.
Proof. unfold field. intros H. cbn. by rewrite decide_False. Qed.

Lemma parse_entry lane e : line_ok (line_entry lane e) → decodeMutation (stringify (j_object (mutation_object (line_entry lane e)))) = Ok (line_entry lane e).
Proof.
  intros Hok. pose proof (mutation_object_ok _ Hok) as Hj. destruct Hok as (Hl & id & type & p & q & ts & O & Ht & Hp & Hn & Hc).
  destruct O as [O1 O2 O3 [O4 Hq] [O5 Hts] O6]. apply members_ok in O1 as [Hd _].
  unfold decodeMutation, parseObject. unfold stringify. rewrite (parse_stringify _ _ Hj).
  destruct (entry_object lane e O6 Hn Hd) as [-> _]. cbn [rbind].
  assert (F : ∀ key, field key (entry_frame None) = None → js key ≠ js "lane" → field key (entry_frame lane ++ e) = field key e).
  { intros key Hk Hkl. apply field_entry. destruct lane; [|exact Hk]. unfold field, entry_frame in *. cbn in *. case_decide; [done|]. by rewrite decide_False. }
  rewrite (F "seq"), O4, requireSequence_number by done. cbn [rbind].
  replace (field "kind" (entry_frame lane ++ e)) with (Some (text "entry")) by done. cbn [string_is].
  replace (string_is (Some (text "entry")) "entry") with true by done. unfold parseEntryMutation.
  assert (Hlane : field "lane" (entry_frame lane ++ e) = j_string <$> lane).
  { destruct lane; [done|]. rewrite field_entry by done. exact Hn. }
  assert (Hbody : mdelete (js "lane") (mdelete (js "kind") (entry_frame lane ++ e)) = e).
  { destruct lane as [l|].
    - change (entry_frame (Some l) ++ e) with ((js "kind", text "entry") :: (js "lane", j_string l) :: e). by rewrite !mdelete_head.
    - change (entry_frame None ++ e) with ((js "kind", text "entry") :: e). rewrite mdelete_head. by apply mdelete_absent. }
  rewrite Hlane, Hbody, (F "id"), (F "type"), (F "parentId"), (F "timestamp"), (F "customType"), O2, O3, Hp, O5 by done.
  rewrite requireNullableId_nullable, requireTimestamp_number by done.
  assert (Hs : spread e [(js "id", j_string id); (js "type", j_string type); (js "parentId", nullable p); (js "seq", number q);
                (js "timestamp", number ts)] = e) by (apply spread_present; repeat constructor; cbn; assumption).
  destruct lane as [l|]; cbn [fmap option_fmap option_map requireString rbind]; rewrite Ht; cbn [rbind]; rewrite Hs;
    (destruct (str_eqb type (js "custom")) eqn:Ec; [|done]); (destruct Hc as [c ->]; [by apply bool_decide_eq_true in Ec | done]).
Qed.

Lemma parse_record e : line_ok (line_record e) → decodeMutation (stringify (j_object (mutation_object (line_record e)))) = Ok (line_record e).
Proof.
  intros Hok. pose proof (mutation_object_ok _ Hok) as Hj. destruct Hok as (id & type & lane & q & ts & O & Ht & Hl & H1 & H2 & H3).
  destruct O as [O1 O2 O3 [O4 Hq] [O5 Hts] O6]. apply members_ok in O1 as [Hd _].
  unfold decodeMutation, parseObject. unfold stringify. rewrite (parse_stringify _ _ Hj).
  destruct (record_object e O6 Hd) as [-> _]. cbn [rbind].
  rewrite (field_record "seq"), O4, requireSequence_number by done. cbn [rbind].
  replace (field "kind" ((js "kind", text "record") :: e)) with (Some (text "record")) by done.
  replace (string_is (Some (text "record")) "entry") with false by done. replace (string_is (Some (text "record")) "record") with true by done.
  unfold parseRecordMutation. rewrite mdelete_head, !field_record by done. rewrite O2, Hl, O3, O5. cbn [requireString rbind]. rewrite Ht. cbn [rbind].
  rewrite requireTimestamp_number by done. cbn [rbind].
  assert (Hs : spread e [(js "id", j_string id); (js "lane", j_string lane); (js "type", j_string type); (js "seq", number q);
                (js "timestamp", number ts)] = e) by (apply spread_present; repeat constructor; cbn; assumption).
  rewrite Hs. unfold check_operation_kind, check_consumed in *. rewrite !field_record by done.
  destruct (str_eqb type (js "operation_started")) eqn:E1; [rewrite H1 by (by apply bool_decide_eq_true in E1)|]; cbn [rbind].
  all: destruct (str_eqb type (js "operation_finished")) eqn:E2; [destruct H2 as [r ->]; [by apply bool_decide_eq_true in E2|]|]; cbn [requireString rbind].
  all: destruct (str_eqb type (js "queue_consumed")) eqn:E3; [rewrite H3 by (by apply bool_decide_eq_true in E3)|]; done.
Qed.

Lemma parse_written m : line_ok m → decodeMutation (stringify (j_object (mutation_object m))) = Ok m.
Proof.
  intros Hok. destruct m as [lane e|e|q l t|q n|q i l]; [by apply parse_entry | by apply parse_record |..];
    pose proof (mutation_object_ok _ Hok) as Hj; destruct Hok as [Hq Hu]; unfold decodeMutation, parseObject, stringify; rewrite (parse_stringify _ _ Hj);
    cbn [rbind mutation_object].
  - replace (field "seq" _) with (Some (number q)) by done. rewrite requireSequence_number by done. cbn [rbind].
    replace (field "kind" _) with (Some (text "lane")) by done.
    change (string_is (Some (text "lane")) "entry") with false. change (string_is (Some (text "lane")) "record") with false.
    change (string_is (Some (text "lane")) "lane") with true. unfold parseLaneMutation.
    replace (field "lane" _) with (Some (j_string l)) by done. replace (field "leafId" _) with (Some (nullable t)) by done.
    cbn [requireString rbind]. by rewrite requireNullableId_nullable.
  - replace (field "seq" _) with (Some (number q)) by (by destruct n). rewrite requireSequence_number by done. by destruct n.
  - replace (field "seq" _) with (Some (number q)) by (by destruct l). rewrite requireSequence_number by done. by destruct l.
Qed.

(** ** Headers *)

Definition header_ok (h : JsonlV4Header) : Prop :=
  units (h_id h) = true ∧ time_ok (h_createdAt h) ∧ units (h_cwd h) = true ∧ optional_units (h_parentSessionId h) ∧
  optional_units (h_legacyParentSessionPath h) ∧ (h_parentSessionId h = None ∨ h_legacyParentSessionPath h = None) ∧
  match h_metadata h with Some m => json_ok (j_object m) | None => True end ∧
  match h_initialLanes h with Some l => Forall (λ s, units s = true) l | None => True end.

Lemma strings_of_written l : strings_of (j_string <$> l) = Some l.
Proof. induction l as [|s l IH]; [done|]. unfold strings_of in *. cbn. by rewrite IH. Qed.

Lemma strings_ok l : Forall (λ s, units s = true) l → json_ok (j_array (j_string <$> l)).
Proof. induction 1 as [|s l Hs _ IH]; [done|]. by split. Qed.

Lemma header_object_ok h : header_ok h → json_ok (j_object (header_object h)).
Proof.
  intros (H1 & [H2 _] & H3 & H4 & H5 & _ & H7 & H8). destruct h as [id created cwd parent legacy meta lanes].
  cbn [h_id h_createdAt h_cwd h_parentSessionId h_legacyParentSessionPath h_metadata h_initialLanes] in *. apply json_ok_members.
  - destruct parent, legacy, meta, lanes; by apply (bool_decide_unpack _); vm_compute.
  - unfold header_object. cbn [h_id h_createdAt h_cwd h_parentSessionId h_legacyParentSessionPath h_metadata h_initialLanes].
    rewrite !Forall_app. split_and!; [|apply optional_ok; [done|]..]; [|by destruct parent | by destruct legacy | by destruct meta|].
    + each_member; apply number_ok; lia.
    + destruct lanes; [by apply strings_ok | done].
Qed.

Lemma header_roundtrip h : header_ok h → ∃ line, encodeHeader h = line ++ [10] ∧ 10 ∉ line ∧ line ≠ [] ∧ parseHeader line = Ok h.
Proof.
  intros Hok. pose proof (header_object_ok h Hok) as Hj. exists (stringify (j_object (header_object h))).
  split_and!; [done | by apply stringify_no_break | done |].
  unfold parseHeader, decodeHeader, parseObject, stringify. rewrite (parse_stringify _ _ Hj). cbn [rbind].
  destruct Hok as (_ & H2 & _ & _ & _ & H6 & _). destruct h as [id created cwd parent legacy meta lanes]. cbn in H2, H6.
  set (o := header_object _).
  assert (Hl : field "initialLanes" o = (λ l, j_array (j_string <$> l)) <$> lanes) by (by destruct parent, legacy, meta, lanes).
  assert (Hc : field "createdAt" o = Some (number created)) by done.
  assert (Hr : field "kind" o = Some (text "header") ∧ field "version" o = Some (number 4) ∧ field "id" o = Some (j_string id) ∧
    field "cwd" o = Some (j_string cwd) ∧ field "parentSessionId" o = j_string <$> parent ∧
    field "legacyParentSessionPath" o = j_string <$> legacy ∧ field "metadata" o = j_object <$> meta) by (by destruct parent, legacy, meta, lanes).
  clearbody o. destruct Hr as (-> & -> & -> & -> & -> & -> & ->). rewrite Hl, Hc.
  change (negb (string_is (Some (text "header")) "header")) with false. cbn [guard_err rbind].
  replace (match Some (number 4) with Some (j_number t) => bool_decide (safe_integer t = Some 4) | _ => false end) with true
    by (symmetry; apply bool_decide_eq_true, (safe_integer_num_str 4); by vm_compute).
  cbn [negb guard_err rbind].
  assert (Hp : ∀ what (v : option jsstr), optional_string (j_string <$> v) what = Ok v) by (by intros what [v|]).
  rewrite !Hp. cbn [rbind].
  replace (match parent, legacy with Some _, Some _ => true | _, _ => false end) with false by (destruct parent, legacy, H6; done).
  cbn [guard_err rbind]. rewrite requireTimestamp_number by done.
  destruct meta, lanes as [ls|]; cbn [fmap option_fmap option_map rbind requireString]; rewrite ?strings_of_written; done.
Qed.

(** ** Theorems *)

(** A line is read back, and a torn line is recognised: every well-formed mutation is written as one line that ends
    with the only line break in it and decodes to the same mutation, while each proper prefix of the line, a torn
    write, is refused as a syntax error. *)
Theorem line_roundtrip m : line_ok m → ∃ line, encodeMutation m = line ++ [10] ∧ 10 ∉ line ∧ line ≠ [] ∧ parseMutation line = Ok m ∧
  ∀ torn rest, line = torn ++ rest → rest ≠ [] → parseMutation torn = Err err_syntax.
Proof.
  intros Hok. pose proof (mutation_object_ok m Hok) as Hj. exists (stringify (j_object (mutation_object m))). split_and!.
  - done.
  - by apply stringify_no_break.
  - done.
  - by apply parse_written.
  - intros torn rest E Hr. unfold parseMutation, decodeMutation, parseObject. by rewrite (torn_object _ _ _ _ Hj E Hr).
Qed.

End JsonlCodecProps.
