(* ===== verification/JsonlStorage.v ===== *)
(** * The session file

    Models [agent/src/harness/session/jsonl/storage.ts] with [errors.ts]: a session that
    appends each mutation as a line to its file before it applies it, and that is loaded by
    replaying the lines.  The operations of one storage are queued, so that each is one
    function of the storage and its disk; each call of the file system takes how it ends
    as an argument.

    The file holds text: a write that is torn inside of a UTF-8 sequence is not
    distinguished from one torn before it.  An entry or a record of the model as the object
    it is in the program, and back, are arguments. *)
From S2P Require Import Prelude JsMap JsString Json AgentData SessionState JsonlCodec.

Module JsonlStorage.
Import AgentData JsonlCodec.
Module S := SessionState.SessionState.
Import S (State, SessionMutation, mut_entry, mut_record, mut_lane, mut_name, mut_label).

(** ** The file system *)

Record FileError := mkFileError { fe_not_found : bool; fe_message : jsstr }.
Definition fileResult {A} (r : result FileError A) (message : jsstr) : result SessionError A :=
  match r with
  | Ok a => Ok a
  | Err e => Err (mkError (if fe_not_found e then not_found else storage) (message ++ js ": " ++ fe_message e))
  end.
Definition decode_message (e : JsonlDecodeError) : jsstr :=
  match e with err_syntax => js "is not valid JSON" | err_schema m => m end.
Definition invalidFile (path : jsstr) (line : Z) (message : jsstr) : SessionError :=
  mkError invalid_entry (js "Invalid JSONL v4 session " ++ path ++ js ": line " ++ num_str line ++ js " " ++ message).

(** The session file and its temporary sibling. *)
Record Disk := mkDisk { session_file : option jsstr; temp_file : option jsstr }.
#[export] Instance disk_rebuild : Rebuild Disk := λ d, mkDisk (session_file d) (temp_file d).

(** A write succeeds, or fails after a number of characters. *)
Inductive fs_end := fs_ok | fs_fails (written : nat) (e : FileError).
Definition written (f : fs_end) (text : jsstr) : jsstr := match f with fs_ok => text | fs_fails n _ => take n text end.
Definition fs_result (f : fs_end) : result FileError () := match f with fs_ok => Ok () | fs_fails _ e => Err e end.
Definition appendFile (f : fs_end) (text : jsstr) (d : Disk) : Disk * result FileError () :=
  (d <| session_file := Some (default [] (session_file d) ++ written f text) |>, fs_result f).

(** How the calls of the file system end that loading, repairing and publishing make.  [removes]: whether the temporary
    file is removed after a failure; a process that dies leaves the disk of a failure without the removal. *)
Record Ends := mkEnds {
  reads : result FileError (); infos : result FileError (); stages : fs_end; renames : result FileError (); removes : bool;
  appends : fs_end }.
Definition works : Ends := mkEnds (Ok ()) (Ok ()) fs_ok (Ok ()) true fs_ok.

(** [publishFileAtomically]; [populate] gives the text that was staged and whether staging succeeded. *)
Definition publishFileAtomically (x : Ends) (path : jsstr) (populate : jsstr * result SessionError ()) (d : Disk)
    : Disk * result SessionError () :=
  let '(staged, r) := populate in
  match (let* _ := r in fileResult (renames x) (js "Failed to publish staged file " ++ path)) with
  | Ok _ => (mkDisk (Some staged) None, Ok ())
  | Err e => (d <| temp_file := if removes x then None else Some staged |>, Err e)
  end.

(** ** The storage *)

Section Files.
Context (entry_object : Entry → members) (entry_of : members → Entry)
  (record_object : LaneRecord → members) (record_of : members → LaneRecord).

Definition line_of (m : SessionMutation) : LineMutation :=
  match m with
  | mut_entry lane e => line_entry lane (entry_object e)
  | mut_record r => line_record (record_object r)
  | mut_lane q lane leafId => line_lane q lane leafId
  | mut_name q n => line_name q n
  | mut_label q i l => line_label q i l
  end.
Definition mutation_of (l : LineMutation) : SessionMutation :=
  match l with
  | line_entry lane e => mut_entry lane (entry_of e)
  | line_record r => mut_record (record_of r)
  | line_lane q lane leafId => mut_lane q lane leafId
  | line_name q n => mut_name q n
  | line_label q i l => mut_label q i l
  end.

Record JsonlSessionStorage := mkStorage { metadata : JsonlSessionMetadata; state : State }.
(** A storage in a process, with its disk. *)
Record Live := mkLive { storage_of : JsonlSessionStorage; disk : Disk }.
#[export] Instance live_rebuild : Rebuild Live := λ w, mkLive (storage_of w) (disk w).
Definition live_state (w : Live) : State := state (storage_of w).
Definition set_state (s : State) (w : Live) : Live := w <| storage_of := mkStorage (metadata (storage_of w)) s |>.

(** [create] *)
Definition initial_lanes (h : JsonlV4Header) : list jsstr := default S.DEFAULT_LANES (h_initialLanes h).
Definition new_storage (h : JsonlV4Header) (path : jsstr) (mtimeMs : Z) : JsonlSessionStorage :=
  mkStorage (metadataFromHeader h path mtimeMs) (S.newState (initial_lanes h)).
Definition create (f : fs_end) (info : result FileError ()) (path : jsstr) (h : JsonlV4Header) (mtimeMs : Z) (d : Disk)
    : Disk * result SessionError JsonlSessionStorage :=
  (d <| session_file := Some (written f (encodeHeader h)) |>,
   let* _ := fileResult (fs_result f) (js "Failed to initialize session " ++ path) in
   let* _ := fileResult info (js "Failed to read session metadata " ++ path) in Ok (new_storage h path mtimeMs)).

Notation M := (stres Live SessionError).
Definition check {A} (g : State → result SessionError A) : M A := λ w, (w, g (live_state w)).
Definition appendMutation (f : fs_end) (m : SessionMutation) : M () := λ w,
  let '(d, r) := appendFile f (encodeMutation (line_of m)) (disk w) in
  (w <| disk := d |>, fileResult r (js "Failed to append session " ++ md_path (metadata (storage_of w)))).
Definition applyMutation (m : SessionMutation) : M () := λ w,
  match S.applyMutation m (live_state w) with Ok s => (set_state s w, Ok ()) | Err e => (w, Err e) end.
(** First the line, then the state. *)
Definition commit (f : fs_end) (m : SessionMutation) : M () := appendMutation f m;; applyMutation m.

Definition createLane (f : fs_end) (lane : jsstr) (at_ : option jsstr) : M () :=
  check (S.validateNewLane lane);; check (S.validateTarget at_);;
  s ← check Ok; commit f (mut_lane (S.nextSequence s) lane at_).
Definition moveLane (f : fs_end) (lane : jsstr) (to : option jsstr) : M () :=
  _ ← check (S.requireLane lane); check (S.validateTarget to);;
  s ← check Ok; commit f (mut_lane (S.nextSequence s) lane to).
Definition appendEntry (f : fs_end) (now : Z) (newEntry : ProvisionedEntry) (lane : jsstr) : M Entry :=
  parentId ← check (S.requireLane lane);
  check (S.validateUnusedId (p_id newEntry));;
  s ← check Ok;
  let entry := mkEntry (p_id newEntry) (S.nextSequence s) parentId now (p_body newEntry) in
  commit f (mut_entry (Some lane) entry);; mret entry.
Definition appendRecord (f : fs_end) (now : Z) (n : NewRecord RecordBody) : M LaneRecord :=
  _ ← check (S.requireLane (n_lane n));
  check (S.validateUnusedId (n_id n));;
  current ← check (S.findOpenOperations (n_lane n) (Some 1));
  match current, n_body n with
  | c :: _, operation_started _ =>
      throw (mkError storage (js "Lane " ++ n_lane n ++ js " already has an open operation " ++ r_id c))
  | _, _ =>
      s ← check Ok;
      let record := mkRec (n_id n) (S.nextSequence s) (n_lane n) now (n_body n) in
      commit f (mut_record record);; mret record
  end.
Definition setName (f : fs_end) (n : option jsstr) : M () := s ← check Ok; commit f (mut_name (S.nextSequence s) n).
Definition setLabel (f : fs_end) (id : jsstr) (label : option jsstr) : M () :=
  check (S.validateTarget (Some id));; s ← check Ok; commit f (mut_label (S.nextSequence s) id label).

(** ** Loading *)

Definition physical_lines (content : jsstr) : list jsstr :=
  let lines := split_lines content in if bool_decide (last lines = Some []) then removelast lines else lines.

(** The loop over the lines: the state, and whether the last line is a torn write. *)
Fixpoint replay (path : jsstr) (index : Z) (lines : list jsstr) (s : State) : result SessionError (State * bool) :=
  match lines with
  | [] => Ok (s, false)
  | line :: rest =>
      match parseMutation line with
      | Err e =>
          match e, rest with
          | err_syntax, [] => Ok (s, true)
          | _, _ => Err (invalidFile path (index + 1) (decode_message e))
          end
      | Ok m =>
          match S.applyMutation (mutation_of m) s with
          | Ok s => replay path (index + 1) rest s
          | Err e => Err (if bool_decide (code e = invalid_entry) then invalidFile path (index + 1) (error_message e) else e)
          end
      end
  end.

Inductive Repair := intact | drop_tail (validPrefix : jsstr) | terminate.

(** What [load] makes of the content of the file, before it repairs it. *)
Definition read_session (info : result FileError ()) (path : jsstr) (mtimeMs : Z) (content : jsstr)
    : result SessionError (JsonlSessionStorage * Repair) :=
  let lines := physical_lines content in
  match lines with
  | [] | [] :: _ => Err (invalidFile path 1 (js "is missing a header"))
  | first :: rest =>
      match parseHeader first with
      | Err e => Err (invalidFile path 1 (decode_message e))
      | Ok h =>
          let* _ := fileResult info (js "Failed to read session metadata " ++ path) in
          let* (s, torn) := replay path 1 rest (S.newState (initial_lanes h)) in
          let st := mkStorage (metadataFromHeader h path mtimeMs) s in
          Ok (st, if torn : bool then drop_tail (join [10] (removelast lines) ++ [10])
                  else if ends_line content then intact else terminate)
      end
  end.

Definition load (x : Ends) (path : jsstr) (mtimeMs : Z) (d : Disk) : Disk * result SessionError JsonlSessionStorage :=
  match (let* _ := reads x in match session_file d with Some c => Ok c | None => Err (mkFileError true []) end) with
  | Err e => (d, fileResult (Err e) (js "Failed to read session " ++ path))
  | Ok content =>
      match read_session (infos x) path mtimeMs content with
      | Err e => (d, Err e)
      | Ok (st, intact) => (d, Ok st)
      | Ok (st, drop_tail validPrefix) =>
          let '(d, r) := publishFileAtomically x path
                           (written (stages x) validPrefix,
                            fileResult (fs_result (stages x)) (js "Failed to stage torn-tail repair " ++ path)) d in
          (d, let* _ := r in Ok st)
      | Ok (st, terminate) =>
          let '(d, r) := appendFile (appends x) [10] d in
          (d, let* _ := fileResult r (js "Failed to repair unterminated session tail " ++ path) in Ok st)
      end
  end.

(** ** Forks *)

(** The lines of a session with these mutations. *)
Definition session_text (h : JsonlV4Header) (ms : list SessionMutation) : jsstr :=
  encodeHeader h ++ concat ((λ m, encodeMutation (line_of m)) <$> ms).

Definition validateFork (o : S.ForkOptions) (w : Live) : result SessionError () := let* _ := S.createForkMutations o (live_state w) in Ok ().

(** The loop that fills the file of a fork: each mutation is appended to [text] and applied; [ends] are the ends of the
    appends, those that are not given succeed. *)
Fixpoint stage (path : jsstr) (ends : list fs_end) (ms : list SessionMutation) (text : jsstr) (s : State)
    : jsstr * result SessionError () :=
  match ms with
  | [] => (text, Ok ())
  | m :: ms =>
      let f := hd fs_ok ends in
      let text := text ++ written f (encodeMutation (line_of m)) in
      match (let* _ := fileResult (fs_result f) (js "Failed to append session " ++ path) in S.applyMutation m s) with
      | Ok s => stage path (tl ends) ms text s
      | Err e => (text, Err e)
      end
  end.

(** [fork] into the file of another session with the disk [d]. *)
Definition fork (x : Ends) (ends : list fs_end) (path : jsstr) (h : JsonlV4Header) (o : S.ForkOptions) (mtimeMs : Z) (w : Live) (d : Disk)
    : Disk * result SessionError JsonlSessionStorage :=
  match S.createForkMutations o (live_state w) with
  | Err e => (d, Err e)
  | Ok mutations =>
      let tempPath := path ++ js ".tmp" in
      let text := written (stages x) (encodeHeader h) in
      let populate :=
        match (let* _ := fileResult (fs_result (stages x)) (js "Failed to initialize session " ++ tempPath) in
               fileResult (infos x) (js "Failed to read session metadata " ++ tempPath)) with
        | Ok _ => stage tempPath ends mutations text (S.newState (initial_lanes h))
        | Err e => (text, Err e)
        end in
      match publishFileAtomically x path populate d with
      | (d, Ok _) => load x path mtimeMs d
      | (d, Err e) => (d, Err e)
      end
  end.

End Files.
End JsonlStorage.
