(* ===== verification/JsonlProps.v ===== *)
(** * What a session file keeps

    The storage of [JsonlStorage] agrees with the storage in memory, and its file with its
    state: what was acknowledged is loaded again after a crash in the middle of any write, and
    an interrupted repair is repaired the next time. *)
From S2P Require Import Prelude JsMap JsString Json JsonTexts AgentData SessionState SessionQueries Session SessionJobs JsonlCodec JsonlStorage.

Module JsonlProps.
Import AgentData JsonlCodec JsonlCodecProps JsonlStorage.
Import SessionState.SessionState (State, SessionMutation, mut_entry, mut_record, mut_lane, mut_name, mut_label, nextSequence).
Import SessionStateProps SessionQueries SessionJobs.
Module St := SessionState.Storage.
Module S := SessionState.SessionState.

(** ** Lines *)

Lemma removelast_snoc {A} (l : list A) x : removelast (l ++ [x]) = l.
Proof. apply removelast_last. Qed.

Lemma physical_written ls t : Forall (λ l, 10 ∉ l) ls → 10 ∉ t →
  physical_lines (concat (ended <$> ls) ++ t) = ls ++ (if bool_decide (t = []) then [] else [t]).
Proof.
  intros Hl Ht. unfold physical_lines. rewrite split_lines_written by done. rewrite last_snoc.
  destruct t as [|u t]; [|done]. rewrite !bool_decide_eq_true_2 by done. by rewrite removelast_snoc, app_nil_r.
Qed.

Lemma ends_line_ended ls l t : ends_line (concat (ended <$> l :: ls) ++ t) = bool_decide (t = []) || ends_line t.
Proof.
  unfold ends_line. destruct t as [|u t] using rev_ind.
  - rewrite app_nil_r, (bool_decide_eq_true_2 ([] = [])) by done. cbn [orb]. apply bool_decide_eq_true.
    rewrite <- join_ended. by rewrite last_snoc.
  - rewrite app_assoc, !last_snoc. rewrite (bool_decide_eq_false_2 (t ++ [u] = [])) by (by destruct t). done.
Qed.

(** ** The two storages *)

(** The mutation of a storage operation, after its checks. *)
Definition planned (c : storage_call) (s : State) : result SessionError SessionMutation :=
  match c with
  | s_createLane lane t =>
      let* _ := S.validateNewLane lane s in let* _ := S.validateTarget t s in
      Ok (mut_lane (nextSequence s) lane t)
  | s_moveLane lane t =>
      let* _ := S.requireLane lane s in let* _ := S.validateTarget t s in
      Ok (mut_lane (nextSequence s) lane t)
  | s_appendEntry now e lane =>
      let* parentId := S.requireLane lane s in
      let* _ := S.validateUnusedId (p_id e) s in
      Ok (mut_entry (Some lane) (mkEntry (p_id e) (nextSequence s) parentId now (p_body e)))
  | s_appendRecord now r =>
      let* _ := S.requireLane (n_lane r) s in
      let* _ := S.validateUnusedId (n_id r) s in
      let* current := S.findOpenOperations (n_lane r) (Some 1) s in
      match current, n_body r with
      | o :: _, operation_started _ =>
          Err (mkError storage (js "Lane " ++ n_lane r ++ js " already has an open operation " ++ r_id o))
      | _, _ => Ok (mut_record (mkRec (n_id r) (nextSequence s) (n_lane r) now (n_body r)))
      end
  | s_setName n => Ok (mut_name (nextSequence s) n)
  | s_setLabel i l => let* _ := S.validateTarget (Some i) s in Ok (mut_label (nextSequence s) i l)
  end.

(** What an operation returns to its caller. *)
Inductive value := v_none | v_entry (e : Entry) | v_record (r : LaneRecord).
Definition returned {A} (f : A → value) (r : result SessionError A) : result SessionError value := rbind r (λ a, Ok (f a)).
Definition returns (c : storage_call) (s : State) : result SessionError value :=
  match c with
  | s_createLane l t => returned (λ _, v_none) (St.createLane l t s).2
  | s_moveLane l t => returned (λ _, v_none) (St.moveLane l t s).2
  | s_appendEntry now e l => returned v_entry (St.appendEntry now e l s).2
  | s_appendRecord now r => returned v_record (St.appendRecord now r s).2
  | s_setName n => returned (λ _, v_none) (St.setName n s).2
  | s_setLabel i l => returned (λ _, v_none) (St.setLabel i l s).2
  end.
(** What is made by a mutation. *)
Definition made (m : SessionMutation) : value := match m with mut_entry _ e => v_entry e | mut_record r => v_record r | _ => v_none end.

Lemma called_planned c s : (perform c s, returns c s) =
  match planned c s with
  | Err e => ((s, Some e), Err e)
  | Ok m => match S.applyMutation m s with Ok s' => ((s', None), Ok (made m)) | Err e => ((s, Some e), Err e) end
  end.
Proof.
  destruct c as [l t | l t | now e l | now r | n | i l]; unfold perform, returns, planned, St.createLane, St.moveLane, St.appendEntry, St.appendRecord, St.setName, St.setLabel;
    rewrite ?stres_bind_eq; unfold St.check.
  - destruct (S.validateNewLane l s); [|done]. rewrite stres_bind_eq. destruct (S.validateTarget t s); [|done].
    cbn [rbind]. unfold St.apply. by destruct (S.applyMutation _ s).
  - destruct (S.requireLane l s); [|done]. rewrite stres_bind_eq. destruct (S.validateTarget t s); [|done].
    cbn [rbind]. unfold St.apply. by destruct (S.applyMutation _ s).
  - destruct (S.requireLane l s) as [p|]; [|done]. rewrite stres_bind_eq.
    destruct (S.validateUnusedId _ s); [|done]. rewrite stres_bind_eq. cbn [get rbind]. rewrite stres_bind_eq.
    unfold St.apply. by destruct (S.applyMutation _ s).
  - destruct (S.requireLane _ s); [|done]. rewrite stres_bind_eq. destruct (S.validateUnusedId _ s); [|done].
    rewrite stres_bind_eq. destruct (S.findOpenOperations _ _ s) as [open|]; [|done]. cbn [rbind].
    destruct open as [|o open]; [|destruct (n_body r) eqn:Eb; [done|..]]; rewrite stres_bind_eq; cbn [get]; rewrite stres_bind_eq;
      unfold St.apply; by destruct (S.applyMutation _ s).
  - unfold St.apply. by destruct (S.applyMutation _ s).
  - destruct (S.validateTarget _ s); [|done]. cbn [rbind]. unfold St.apply. by destruct (S.applyMutation _ s).
Qed.
Lemma perform_planned c s : perform c s =
  match planned c s with
  | Err e => (s, Some e)
  | Ok m => match S.applyMutation m s with Ok s' => (s', None) | Err e => (s, Some e) end
  end.
Proof. pose proof (called_planned c s) as H. destruct (planned c s) as [m|e]; [|congruence]. destruct (S.applyMutation m s); congruence. Qed.

(** A mutation that was checked is applied. *)
Lemma planned_applies c s m : wf s → planned c s = Ok m → ∃ s', S.applyMutation m s = Ok s'.
Proof.
  intros W H. assert (Hv : ∀ t, S.validateTarget t s = Ok () → S.known t s = true)
    by (intros t Ht; by apply require_Ok in Ht).
  assert (Hlk : ∀ l p, S.requireLane l s = Ok p → mget l (S.lanes s) = Some p ∧ S.known p s = true).
  { intros l p. unfold S.requireLane. destruct (mget l _) as [q|] eqn:E; [|done]. intros [= ->]. split; [done|].
    by eapply lane_known. }
  assert (Hid : ∀ i u, S.validateUnusedId i s = Ok u → bool_decide (i ∈ S.usedIds s) = false).
  { intros i u Hu. apply require_Ok in Hu. by apply negb_true_iff in Hu. }
  unfold S.applyMutation. destruct c as [l t | l t | now e l | now r | n | i l]; cbn [planned] in H.
  - apply rbind_Ok in H as (? & _ & H). apply rbind_Ok in H as ([] & Ht%Hv & H). injection H as <-. cbn [S.mutation_seq].
    unfold nextSequence. rewrite Z.eqb_refl, Ht. eauto.
  - apply rbind_Ok in H as (? & _ & H). apply rbind_Ok in H as ([] & Ht%Hv & H). injection H as <-. cbn [S.mutation_seq].
    unfold nextSequence. rewrite Z.eqb_refl, Ht. eauto.
  - apply rbind_Ok in H as (p & [Hp Hk]%Hlk & H). apply rbind_Ok in H as (u & Hu%Hid & H). injection H as <-.
    unfold nextSequence, S.apply_entry. cbn [S.mutation_seq e_seq e_id e_parentId]. rewrite Z.eqb_refl.
    cbn [S.valid rbind]. rewrite Hu, Hp. cbn [negb S.valid rbind].
    rewrite bool_decide_eq_true_2 by done. cbn [S.valid rbind]. rewrite Hk. eauto.
  - apply rbind_Ok in H as (p & [Hp Hk]%Hlk & H). apply rbind_Ok in H as (u & Hu%Hid & H). apply rbind_Ok in H as (cur & _ & H).
    assert (m = mut_record (mkRec (n_id r) (nextSequence s) (n_lane r) now (n_body r))) as -> by (destruct cur, (n_body r); congruence).
    unfold nextSequence, S.apply_record, mhas. cbn [S.mutation_seq r_seq r_id r_lane]. rewrite Z.eqb_refl.
    cbn [S.valid rbind]. rewrite Hu, Hp. cbn [negb S.valid rbind]. eauto.
  - injection H as <-. cbn [S.mutation_seq]. unfold nextSequence. rewrite Z.eqb_refl. cbn. eauto.
  - apply rbind_Ok in H as ([] & Ht%Hv & H). injection H as <-. cbn [S.mutation_seq].
    unfold nextSequence. rewrite Z.eqb_refl. cbn [S.valid rbind]. cbn [S.known] in Ht. rewrite Ht. eauto.
Qed.

Section Files.
Context (entry_object : Entry → members) (entry_of : members → Entry)
  (record_object : LaneRecord → members) (record_of : members → LaneRecord).
Notation line_of := (line_of entry_object record_object).
Notation mutation_of := (mutation_of entry_of record_of).
Notation replay := (replay entry_of record_of).
Notation read_session := (read_session entry_of record_of).
Notation load := (load entry_of record_of).
Notation session_text := (session_text entry_object record_object).
Notation stage := (stage entry_object record_object).
Notation fork := (fork entry_object entry_of record_object record_of).
Notation apply_all := (foldM (λ s m, S.applyMutation m s)).

(** A mutation whose line shows it: the object of its entry or record is well formed and is cast back to it. *)
Definition plain (m : SessionMutation) : Prop := line_ok (line_of m) ∧ mutation_of (line_of m) = m.
(** The line of a mutation, without its end. *)
Definition text_of (m : SessionMutation) : jsstr := Json.stringify (Json.j_object (mutation_object (line_of m))).

Lemma plain_line m : plain m → 10 ∉ text_of m ∧ text_of m ≠ [] ∧ parseMutation (text_of m) = Ok (line_of m) ∧
  ∀ torn rest, text_of m = torn ++ rest → rest ≠ [] → parseMutation torn = Err err_syntax.
Proof.
  intros [H _]. destruct (line_roundtrip _ H) as (line & E & H1 & H2 & H3 & H4). apply app_inv_tail in E. unfold text_of. rewrite E. done.
Qed.

Lemma replay_plain path ms : ∀ i s s' rest, Forall plain ms → apply_all s ms = Ok s' →
  replay path i ((text_of <$> ms) ++ rest) s = replay path (i + zlen ms) rest s'.
Proof.
  induction ms as [|m ms IH]; intros i s s' rest Hp H.
  - injection H as <-. by rewrite zlen_nil, Z.add_0_r.
  - apply Forall_cons in Hp as [Hm Hp]. cbn in H. apply rbind_Ok in H as (s1 & H1 & H2). cbn [fmap list_fmap app JsonlStorage.replay].
    destruct (plain_line m Hm) as (_ & _ & -> & _). destruct Hm as [_ ->]. rewrite H1, (IH _ _ _ _ Hp H2), zlen_cons. f_equal. lia.
Qed.

(** ** Reading the file *)

Lemma session_text_lines h ms : header_ok h → Forall plain ms → ∃ hl, parseHeader hl = Ok h ∧ hl ≠ [] ∧ Forall (λ l, 10 ∉ l) (hl :: (text_of <$> ms)) ∧
  session_text h ms = concat (ended <$> hl :: (text_of <$> ms)).
Proof.
  intros Hh Hp. destruct (header_roundtrip h Hh) as (hl & E & H1 & H2 & H3). exists hl. split_and!; [done | done | |].
  - constructor; [done|]. apply Forall_fmap. eapply Forall_impl; [exact Hp|]. intros m Hm. apply (plain_line m Hm).
  - unfold JsonlStorage.session_text. cbn [fmap list_fmap concat]. rewrite E. f_equal. induction ms as [|m ms IH]; [done|].
    apply Forall_cons in Hp as [_ Hp]. cbn [fmap list_fmap concat]. f_equal. by apply IH.
Qed.

(** What follows the lines that are complete. *)
Inductive tail_of (s : State) : jsstr → State → bool → Prop :=
| tail_nothing : tail_of s [] s false
| tail_torn m torn rest : plain m → text_of m = torn ++ rest → torn ≠ [] → rest ≠ [] → tail_of s torn s true
| tail_whole m s' : plain m → S.applyMutation m s = Ok s' → tail_of s (text_of m) s' false.

Lemma tail_no_break s t s' b : tail_of s t s' b → 10 ∉ t.
Proof.
  intros [|m torn rest Hm E _ _|m s1 Hm _]; [apply not_elem_of_nil| |apply (plain_line m Hm)].
  destruct (plain_line m Hm) as (H & _). rewrite E in H. by apply not_elem_of_app in H as [? _].
Qed.

Lemma read_written path mt h ms s t s' torn : header_ok h → Forall plain ms → apply_all (S.newState (initial_lanes h)) ms = Ok s →
  tail_of s t s' torn →
  read_session (Ok ()) path mt (session_text h ms ++ t) =
    Ok (mkStorage (metadataFromHeader h path mt) s',
        if torn then drop_tail (session_text h ms) else if bool_decide (t = []) then intact else terminate).
Proof.
  intros Hh Hp H Ht. destruct (session_text_lines h ms Hh Hp) as (hl & H1 & H2 & H3 & E). pose proof (tail_no_break _ _ _ _ Ht) as Hb.
  unfold JsonlStorage.read_session. rewrite E, physical_written, ends_line_ended by done. cbn [app]. destruct hl as [|u hl]; [done|].
  rewrite H1, (replay_plain path ms 1 _ s) by done. destruct Ht as [|m torn rest Hm Et Hn Hr|m s' Hm Ha].
  - done.
  - rewrite (bool_decide_eq_false_2 (torn = [])) by done. cbn [JsonlStorage.replay]. destruct (plain_line m Hm) as (_ & _ & _ & Hs).
    rewrite (Hs torn rest) by done. cbn [rbind]. rewrite app_comm_cons, removelast_snoc. by rewrite join_ended.
  - destruct (plain_line m Hm) as (Hb' & Hne & Hpm & _). rewrite (bool_decide_eq_false_2 (text_of m = [])) by done.
    cbn [JsonlStorage.replay]. rewrite Hpm. destruct Hm as [_ ->]. rewrite Ha. cbn [rbind orb].
    replace (ends_line (text_of m)) with false; [done|]. symmetry. unfold ends_line. apply bool_decide_eq_false. intros Hl.
    apply Hb'. apply last_Some in Hl as [l ->]. apply elem_of_app. right. by left.
Qed.

(** ** Operations *)

Notation createLane := (createLane entry_object record_object).
Notation moveLane := (moveLane entry_object record_object).
Notation appendEntry := (appendEntry entry_object record_object).
Notation appendRecord := (appendRecord entry_object record_object).
Notation setName := (setName entry_object record_object).
Notation setLabel := (setLabel entry_object record_object).
Notation commit := (commit entry_object record_object).

Definition perform_file (f : fs_end) (c : storage_call) (w : Live) : Live * option SessionError :=
  let answer {A} (r : Live * result SessionError A) := (r.1, match r.2 with Ok _ => None | Err e => Some e end) in
  match c with
  | s_createLane l t => answer (createLane f l t w)
  | s_moveLane l t => answer (moveLane f l t w)
  | s_appendEntry now e l => answer (appendEntry f now e l w)
  | s_appendRecord now r => answer (appendRecord f now r w)
  | s_setName n => answer (setName f n w)
  | s_setLabel i l => answer (setLabel f i l w)
  end.

Definition returns_file (f : fs_end) (c : storage_call) (w : Live) : result SessionError value :=
  match c with
  | s_createLane l t => returned (λ _, v_none) (createLane f l t w).2
  | s_moveLane l t => returned (λ _, v_none) (moveLane f l t w).2
  | s_appendEntry now e l => returned v_entry (appendEntry f now e l w).2
  | s_appendRecord now r => returned v_record (appendRecord f now r w).2
  | s_setName n => returned (λ _, v_none) (setName f n w).2
  | s_setLabel i l => returned (λ _, v_none) (setLabel f i l w).2
  end.

Lemma called_file_planned f c w : (perform_file f c w, returns_file f c w) =
  match planned c (live_state w) with
  | Err e => ((w, Some e), Err e)
  | Ok m => match commit f m w with (w', Ok _) => ((w', None), Ok (made m)) | (w', Err e) => ((w', Some e), Err e) end
  end.
Proof.
  destruct c as [l t | l t | now e l | now r | n | i l]; unfold perform_file, returns_file, planned, JsonlStorage.createLane, JsonlStorage.moveLane,
    JsonlStorage.appendEntry, JsonlStorage.appendRecord, JsonlStorage.setName, JsonlStorage.setLabel; rewrite ?stres_bind_eq; unfold check.
  - destruct (S.validateNewLane l _); [|done]. rewrite stres_bind_eq. destruct (S.validateTarget t _); [|done]. cbn [rbind].
    rewrite stres_bind_eq. by destruct (commit _ _ w) as [w' []].
  - destruct (S.requireLane l _); [|done]. rewrite stres_bind_eq. destruct (S.validateTarget t _); [|done]. cbn [rbind].
    rewrite stres_bind_eq. by destruct (commit _ _ w) as [w' []].
  - destruct (S.requireLane l _) as [p|]; [|done]. rewrite stres_bind_eq. destruct (S.validateUnusedId _ _); [|done].
    rewrite stres_bind_eq. cbn [rbind]. rewrite stres_bind_eq. by destruct (commit _ _ w) as [w' []].
  - destruct (S.requireLane _ _); [|done]. rewrite stres_bind_eq. destruct (S.validateUnusedId _ _); [|done].
    rewrite stres_bind_eq. destruct (S.findOpenOperations _ _ _) as [open|]; [|done]. cbn [rbind].
    destruct open as [|o open]; [|destruct (n_body r) eqn:Eb; [done|..]]; rewrite stres_bind_eq; cbn [rbind]; rewrite stres_bind_eq;
      by destruct (commit _ _ w) as [w' []].
  - cbn [rbind]. by destruct (commit _ _ w) as [w' []].
  - destruct (S.validateTarget _ _); [|done]. cbn [rbind]. rewrite stres_bind_eq. by destruct (commit _ _ w) as [w' []].
Qed.

Lemma perform_file_planned f c w : perform_file f c w =
  match planned c (live_state w) with
  | Err e => (w, Some e)
  | Ok m => match commit f m w with (w', Ok _) => (w', None) | (w', Err e) => (w', Some e) end
  end.
Proof.
  pose proof (called_file_planned f c w) as H. destruct (planned c _) as [m|e]; [|congruence]. destruct (commit f m w) as [w' []]; congruence.
Qed.

(** The file of a storage, when it exists. *)
Definition content (w : Live) : jsstr := default [] (session_file (disk w)).

Lemma perform_file_cases f c w : wf (live_state w) →
  match planned c (live_state w) with
  | Err e => perform_file f c w = (w, Some e)
  | Ok m => ∃ s', S.applyMutation m (live_state w) = Ok s' ∧ perform c (live_state w) = (s', None) ∧
      let d := disk w <| session_file := Some (content w ++ written f (encodeMutation (line_of m))) |> in
      match f with
      | fs_ok => perform_file f c w = (mkLive (mkStorage (metadata (storage_of w)) s') d, None)
      | fs_fails _ _ => ∃ e, perform_file f c w = (mkLive (storage_of w) d, Some e)
      end
  end.
Proof.
  intros W. rewrite perform_file_planned, perform_planned. destruct (planned c (live_state w)) as [m|e] eqn:E; [|done].
  destruct (planned_applies c _ m W E) as [s' H]. exists s'. split; [done|]. split; [by rewrite H|]. cbv zeta.
  unfold JsonlStorage.commit. rewrite stres_bind_eq. unfold appendMutation, appendFile, content. destruct f as [|n e]; cbn [fs_result written fileResult].
  - unfold applyMutation. unfold live_state in *. cbn. unfold update_with. cbn. by rewrite H.
  - eexists. unfold update_with. cbn. done.
Qed.

(** ** Storages and their files *)

Context (path : jsstr) (h : JsonlV4Header).

Definition plain_call (c : storage_call) (w : Live) : Prop := match planned c (live_state w) with Ok m => plain m | Err _ => True end.

Definition plain_fork (o : S.ForkOptions) (w : Live) : Prop :=
  match S.createForkMutations o (live_state w) with Ok ms => Forall plain ms | Err _ => True end.

(** The storages of the session [h] and their disks: created or forked from any session, changed by operations, and loaded again after a crash in the
    middle of an operation. *)
Inductive durable : Live → Prop :=
| durable_create mt d d' st : header_ok h → create fs_ok (Ok ()) path h mt d = (d', Ok st) → durable (mkLive st d')
| durable_fork source o mt d d' st : header_ok h → plain_fork o source →
    fork works [] path h o mt source d = (d', Ok st) → durable (mkLive st d')
| durable_call w c : durable w → plain_call c w → durable (perform_file fs_ok c w).1
| durable_crash w c n e mt d st : durable w → plain_call c w →
    load works path mt (disk (perform_file (fs_fails n e) c w).1) = (d, Ok st) → durable (mkLive st d).

(** The file is the lines of the mutations that made the state. *)
Definition in_sync (w : Live) : Prop := header_ok h ∧ ∃ ms, Forall plain ms ∧ session_file (disk w) = Some (session_text h ms) ∧
  apply_all (S.newState (initial_lanes h)) ms = Ok (live_state w).

Lemma in_sync_wf w : in_sync w → wf (live_state w).
Proof. intros (_ & ms & _ & _ & H). eapply apply_all_wf; [apply new_wf | exact H]. Qed.

Lemma session_text_snoc ms m : session_text h (ms ++ [m]) = session_text h ms ++ encodeMutation (line_of m).
Proof. unfold JsonlStorage.session_text. rewrite fmap_app, concat_app. cbn. by rewrite app_nil_r, app_assoc. Qed.

Lemma apply_snoc s ms m s1 s2 : apply_all s ms = Ok s1 → S.applyMutation m s1 = Ok s2 → apply_all s (ms ++ [m]) = Ok s2.
Proof. intros H1 H2. rewrite foldM_app, H1. cbn. by rewrite H2. Qed.

Lemma in_sync_extend w m s' st d : in_sync w → plain m → S.applyMutation m (live_state w) = Ok s' → state st = s' →
  session_file d = Some (content w ++ encodeMutation (line_of m)) → in_sync (mkLive st d).
Proof.
  intros (Hh & ms & Hp & Hf & Ha) Hm H <- Hd. split; [done|]. exists (ms ++ [m]). split_and!.
  - apply Forall_app. split; [done|]. by apply Forall_singleton.
  - rewrite session_text_snoc. cbn. rewrite Hd. unfold content. by rewrite Hf.
  - unfold live_state. cbn. by eapply apply_snoc.
Qed.

Lemma in_sync_call w c : in_sync w → plain_call c w → in_sync (perform_file fs_ok c w).1.
Proof.
  intros I Hc. pose proof (perform_file_cases fs_ok c w (in_sync_wf w I)) as H. unfold plain_call in Hc.
  destruct (planned c (live_state w)) as [m|e]; [|by rewrite H]. destruct H as (s' & Ha & _ & ->). by eapply in_sync_extend.
Qed.

(** Whether the whole line was written. *)
Definition line_written (n : nat) (c : storage_call) (w : Live) : bool :=
  match planned c (live_state w) with Ok m => (length (text_of m) <=? n)%nat | Err _ => false end.

(** Loading after a write that failed or was torn. *)
Lemma load_torn w c n e mt : in_sync w → plain_call c w → let d0 := disk (perform_file (fs_fails n e) c w).1 in
  ∃ d st, load works path mt d0 = (d, Ok st) ∧ in_sync (mkLive st d) ∧
    metadata st = metadataFromHeader h path mt ∧
    state st = (if line_written n c w then (perform c (live_state w)).1 else live_state w).
Proof.
  intros I Hc d0. pose proof (in_sync_wf w I) as W. destruct I as (Hh & ms & Hp & Hf & Ha).
  pose proof (perform_file_cases (fs_fails n e) c w W) as H. unfold plain_call in Hc. unfold line_written.
  destruct (planned c (live_state w)) as [m|x].
  2: { subst d0. rewrite H. cbn [fst]. unfold JsonlStorage.load. cbn [works reads infos rbind]. rewrite Hf.
       pose proof (read_written path mt h ms _ [] _ false Hh Hp Ha (tail_nothing _)) as Hr. rewrite app_nil_r in Hr. rewrite Hr.
       rewrite bool_decide_eq_true_2 by done. eexists _, _. split_and!; [done | | done | done]. split; [done|]. by exists ms. }
  destruct H as (s' & Hs & Hm & e' & He). subst d0. rewrite He, Hm. cbn [fst disk]. unfold content in *. rewrite Hf. cbn [default written]. unfold id.
  unfold JsonlStorage.load, update_with. cbn [session_file disk_rebuild rebuild works reads infos rbind]. change (encodeMutation (line_of m)) with (text_of m ++ [10]).
  destruct (Nat.leb_spec (length (text_of m)) n) as [Hn|Hn].
  - rewrite take_app_ge by done. destruct (n - length (text_of m))%nat as [|k] eqn:Ek.
    + rewrite take_0, app_nil_r. rewrite (read_written path mt h ms _ _ _ _ Hh Hp Ha (tail_whole _ m s' Hc Hs)).
      destruct (plain_line m Hc) as (_ & Hne & _). rewrite bool_decide_eq_false_2 by done. cbn.
      eexists _, _. split_and!; [done | | done | done]. eapply (in_sync_extend w m s'); try done; [split; [done|]; by exists ms|].
      unfold content. rewrite Hf. cbn. by rewrite <- app_assoc.
    + replace (take (S k) [10]) with [10] by (by destruct k). change (text_of m ++ [10]) with (encodeMutation (line_of m)).
      rewrite <- session_text_snoc. pose proof (read_written path mt h (ms ++ [m]) s' [] s' false Hh) as Hr. rewrite app_nil_r in Hr.
      rewrite Hr; [|apply Forall_app; split; [done|by apply Forall_singleton] | by eapply apply_snoc | constructor].
      rewrite bool_decide_eq_true_2 by done. eexists _, _. split_and!; [done | | done | done].
      split; [done|]. exists (ms ++ [m]). split_and!; [apply Forall_app; split; [done|by apply Forall_singleton] | done | by eapply apply_snoc].
  - rewrite take_app_le by lia. destruct (decide (take n (text_of m) = [])) as [En|En].
    + rewrite En, app_nil_r. pose proof (read_written path mt h ms _ [] _ false Hh Hp Ha (tail_nothing _)) as Hr. rewrite app_nil_r in Hr. rewrite Hr.
      rewrite bool_decide_eq_true_2 by done. eexists _, _. split_and!; [done | | done | done]. split; [done|]. by exists ms.
    + assert (Ht : tail_of (live_state w) (take n (text_of m)) (live_state w) true).
      { eapply (tail_torn _ m _ (drop n (text_of m))); [done | by rewrite take_drop | done |]. intros Ed. apply (f_equal length) in Ed.
        rewrite length_drop in Ed. change (length []) with 0%nat in Ed. lia. }
      rewrite (read_written path mt h ms _ _ _ _ Hh Hp Ha Ht). cbn.
      eexists _, _. split_and!; [done | | done | done]. split; [done|]. by exists ms.
Qed.

(** Staging appends the lines, as long as the mutations apply. *)
Lemma stage_works pth ms : ∀ t s, let '(t', r) := stage pth [] ms t s in
  match r with
  | Ok _ => t' = t ++ concat ((λ m, encodeMutation (line_of m)) <$> ms) ∧ ∃ s', apply_all s ms = Ok s'
  | Err e => apply_all s ms = Err e
  end.
Proof.
  induction ms as [|m ms IH]; intros t s; [split; [by rewrite app_nil_r | by eexists]|]. cbn [JsonlStorage.stage hd fs_result fileResult rbind written tl foldM].
  destruct (S.applyMutation m s) as [s'|e]; cbn [rbind]; [|done]. specialize (IH (t ++ encodeMutation (line_of m)) s').
  destruct (stage _ _ ms _ s') as [t' [[]|e]]; [|done]. destruct IH as [-> H]. split; [|done]. cbn [fmap list_fmap concat]. by rewrite app_assoc.
Qed.

(** A fork of mutations that apply. *)
Lemma fork_loads o mt w d ms : header_ok h → plain_fork o w → S.createForkMutations o (live_state w) = Ok ms →
  match apply_all (S.newState (initial_lanes h)) ms with
  | Ok s => fork works [] path h o mt w d = (mkDisk (Some (session_text h ms)) None, Ok (mkStorage (metadataFromHeader h path mt) s))
  | Err e => fork works [] path h o mt w d = (d <| temp_file := None |>, Err e)
  end.
Proof.
  intros Hh Hp E. unfold plain_fork in Hp. rewrite E in Hp. unfold JsonlStorage.fork. rewrite E. cbn [works infos stages fs_result fileResult rbind written].
  pose proof (stage_works (path ++ js ".tmp") ms (encodeHeader h) (S.newState (initial_lanes h))) as Hs.
  destruct (stage _ _ ms _ _) as [t [[]|e]]; unfold publishFileAtomically; cbn [works renames removes rbind fileResult]; [|by rewrite Hs].
  destruct Hs as (-> & s & Es). rewrite Es. fold (session_text h ms).
  unfold JsonlStorage.load. cbn [works reads infos rbind session_file].
  pose proof (read_written path mt h ms s [] s false Hh Hp Es (tail_nothing _)) as Hr. rewrite app_nil_r in Hr. rewrite Hr.
  by rewrite bool_decide_eq_true_2 by done.
Qed.

Lemma fork_in_sync o mt w d d' st : header_ok h → plain_fork o w → fork works [] path h o mt w d = (d', Ok st) → in_sync (mkLive st d').
Proof.
  intros Hh Hp H. destruct (S.createForkMutations o (live_state w)) as [ms|e] eqn:E; [|unfold JsonlStorage.fork in H; by rewrite E in H].
  pose proof (fork_loads o mt w d ms Hh Hp E) as F. unfold plain_fork in Hp. rewrite E in Hp.
  destruct (apply_all _ ms) as [s|] eqn:Es; rewrite H in F; [|done]. injection F as -> ->. split; [done|]. by exists ms.
Qed.

Lemma durable_in_sync w : durable w → in_sync w.
Proof.
  induction 1 as [mt d d' st Hh H | source o mt d d' st Hh Hp H | w c _ I Hc | w c n e mt d st _ I Hc H].
  - unfold create in H. injection H as <- <-. split; [done|]. exists []. split_and!; [done | | done].
    cbn. unfold JsonlStorage.session_text. cbn. by rewrite app_nil_r.
  - by eapply fork_in_sync.
  - by apply in_sync_call.
  - destruct (load_torn w c n e mt I Hc) as (d' & st' & H' & I' & _). rewrite H in H'. by injection H' as -> ->.
Qed.

(** ** Repairs *)

Lemma replay_torn pth rest : ∀ i s0 s, replay pth i rest s0 = Ok (s, true) → ∃ rest' x, rest = rest' ++ [x] ∧ replay pth i rest' s0 = Ok (s, false).
Proof.
  induction rest as [|l rest IH]; intros i s0 s H; [done|]. cbn [JsonlStorage.replay] in H. destruct (parseMutation l) as [m|[|x]] eqn:El; [| |done].
  - destruct (S.applyMutation _ s0) as [s1|] eqn:Ea; [|done]. apply IH in H as (rest' & x & -> & H). exists (l :: rest'), x.
    split; [done|]. cbn [JsonlStorage.replay]. by rewrite El, Ea.
  - destruct rest; [|done]. injection H as <-. by exists [], l.
Qed.

Lemma lines_of_content c : Forall (λ l, 10 ∉ l) (physical_lines c) ∧
  (ends_line c = false → physical_lines c ≠ [] → physical_lines (c ++ [10]) = physical_lines c).
Proof.
  destruct (split_lines_spec c) as (ls & t & -> & Hl & Ht). rewrite physical_written by done. split.
  - apply Forall_app. split; [done|]. case_bool_decide; [constructor | by apply Forall_singleton].
  - intros He Hn. case_bool_decide as Et.
    + subst t. destruct ls as [|l ls]; [by destruct Hn|]. by rewrite ends_line_ended in He.
    + pose proof (physical_written (ls ++ [t]) [] ltac:(apply Forall_app; split; [done|by apply Forall_singleton]) ltac:(apply not_elem_of_nil)) as E.
      rewrite bool_decide_eq_true_2, !app_nil_r in E by done. rewrite <- E. f_equal. rewrite fmap_app, concat_app, <- app_assoc.
      f_equal. change (concat (ended <$> [t])) with (ended t ++ []). by rewrite app_nil_r.
Qed.

Lemma reread pth mt c st r : read_session (Ok ()) pth mt c = Ok (st, r) →
  match r with
  | intact => True
  | drop_tail vp => read_session (Ok ()) pth mt vp = Ok (st, intact)
  | terminate => read_session (Ok ()) pth mt (c ++ [10]) = Ok (st, intact)
  end.
Proof.
  destruct (lines_of_content c) as [Hl Ht]. unfold JsonlStorage.read_session at 1. destruct (physical_lines c) as [|first rest] eqn:Ep; [done|]. rewrite ?Ep in Hl, Ht.
  destruct first as [|u first]; [done|]. destruct (parseHeader (u :: first)) as [h0|] eqn:Eh; [|done].
  destruct (replay _ _ rest _) as [[s torn]|] eqn:Er; [|done]. cbn [rbind].
  set (cut := removelast ((u :: first) :: rest)). intros [= <- <-]. destruct torn; subst cut.
  - apply replay_torn in Er as (rest' & x & -> & Er). rewrite app_comm_cons, removelast_snoc, join_ended.
    rewrite app_comm_cons in Hl. apply Forall_app in Hl as [Hl _]. unfold JsonlStorage.read_session.
    pose proof (physical_written _ [] Hl ltac:(apply not_elem_of_nil)) as E. rewrite app_nil_r in E. rewrite E, bool_decide_eq_true_2, app_nil_r by done.
    rewrite Eh, Er. cbn [rbind]. pose proof (ends_line_ended rest' (u :: first) []) as El. rewrite app_nil_r in El. by rewrite El.
  - destruct (ends_line c) eqn:Ee; [done|]. unfold JsonlStorage.read_session. rewrite (Ht eq_refl), Eh, Er by done. cbn [rbind].
    unfold ends_line. by rewrite last_snoc.
Qed.

Lemma load_again pth mt st r c d : session_file d = Some c → read_session (Ok ()) pth mt c = Ok (st, r) →
  ∃ d', load works pth mt d = (d', Ok st) ∧
    session_file d' = Some (match r with intact => c | drop_tail vp => vp | terminate => c ++ [10] end).
Proof. intros Hd H. unfold JsonlStorage.load. cbn [works reads infos rbind]. rewrite Hd, H. destruct r; cbn; rewrite ?Hd; eauto. Qed.

Lemma read_info_fails pth mt c e : ∃ e', read_session (Err e) pth mt c = Err e'.
Proof.
  unfold JsonlStorage.read_session. destruct (physical_lines c) as [|[|u l] rest]; [eauto..|]. destruct (parseHeader (u :: l)); cbn; eauto.
Qed.

(** What staging wrote when it succeeded. *)
Lemma stage_whole pth ms : ∀ ends t s t', stage pth ends ms t s = (t', Ok ()) → t' = t ++ concat ((λ m, encodeMutation (line_of m)) <$> ms).
Proof.
  induction ms as [|m ms IH]; intros ends t s t' H; cbn [JsonlStorage.stage] in H; [injection H as ->; by rewrite app_nil_r|].
  destruct (hd fs_ok ends) as [|n e]; cbn [fs_result fileResult rbind written] in H; [|done].
  destruct (S.applyMutation m s) as [s'|e]; [|done]. apply IH in H as ->. cbn [fmap list_fmap concat]. by rewrite app_assoc.
Qed.

Lemma stage_applied pth ms : ∀ ends t s t', stage pth ends ms t s = (t', Ok ()) → ∃ s', apply_all s ms = Ok s'.
Proof.
  induction ms as [|m ms IH]; intros ends t s t' H; cbn [JsonlStorage.stage foldM] in *; [by eexists|].
  destruct (hd fs_ok ends) as [|n e]; cbn [fs_result fileResult rbind written] in H; [|done].
  destruct (S.applyMutation m s) as [s'|e]; [|done]. by apply IH in H.
Qed.

Lemma load_whole x pth mt d hd ms : header_ok hd → Forall plain ms → (∃ s, apply_all (S.newState (initial_lanes hd)) ms = Ok s) →
  session_file d = Some (session_text hd ms) → session_file (load x pth mt d).1 = session_file d.
Proof.
  intros Hh Hp [s E] Hd. unfold JsonlStorage.load. destruct (reads x); cbn [rbind]; [|done]. rewrite Hd.
  destruct (infos x) as [[]|e]; [|by destruct (read_info_fails pth mt (session_text hd ms) e) as [e' ->]].
  pose proof (read_written pth mt hd ms s [] s false Hh Hp E (tail_nothing _)) as Hr. rewrite app_nil_r in Hr. rewrite Hr.
  by rewrite bool_decide_eq_true_2 by done.
Qed.

(** However the file system behaves, a destination is untouched or holds the whole fork. *)
Lemma fork_atomic x ends o mt w d : header_ok h → plain_fork o w → let d' := (fork x ends path h o mt w d).1 in
  session_file d' = session_file d ∨ ∃ ms, S.createForkMutations o (live_state w) = Ok ms ∧ session_file d' = Some (session_text h ms).
Proof.
  intros Hh Hp. cbv zeta. unfold plain_fork in Hp. unfold JsonlStorage.fork. destruct (S.createForkMutations o (live_state w)) as [ms|e]; [|by left].
  unfold publishFileAtomically. destruct (fs_result (stages x)) as [[]|e] eqn:Ef; cbn [fileResult rbind]; [|by left].
  destruct (infos x) as [[]|e] eqn:Ei; cbn [fileResult rbind]; [|by left].
  destruct (stage _ _ ms _ _) as [t [[]|e]] eqn:Es; cbn [rbind]; [|by left].
  destruct (renames x) as [[]|e] eqn:Er; cbn [fileResult rbind]; [|by left]. right. exists ms. split; [done|].
  destruct (stages x) as [|n e]; [|done]. pose proof (stage_applied _ _ _ _ _ _ Es) as Ha. apply stage_whole in Es as ->. cbn [written].
  fold (session_text h ms). by rewrite (load_whole x path mt _ h ms).
Qed.

(** ** Theorems *)

(** C11. A crash loses at most the write it interrupts: when a process dies in the middle of an operation, after
    any number of characters of the line, the file loads again, to the state before the operation, or to the
    state after it exactly if the whole line was written, and the loaded storage is again in step with its file. *)
Theorem session_survives_crashes w c n e mt : durable w → plain_call c w →
  ∃ d st, load works path mt (disk (perform_file (fs_fails n e) c w).1) = (d, Ok st) ∧
    metadata st = metadataFromHeader h path mt ∧
    state st = (if line_written n c w then (perform c (live_state w)).1 else live_state w) ∧ durable (mkLive st d).
Proof.
  intros D Hc. destruct (load_torn w c n e mt (durable_in_sync w D) Hc) as (d & st & H & _ & Hm & Hs).
  exists d, st. split_and!; [done..|]. by eapply durable_crash.
Qed.

(** C12. The storage in a file refines the storage in memory: while the disk works, every operation answers as the one in
    memory does, with the same entry or record, and leaves the same state; a refused operation writes nothing, an accepted
    one appends one line. *)
Theorem file_storage_refines_memory w c : durable w →
  let '(w', r) := perform_file fs_ok c w in
  perform c (live_state w) = (live_state w', r) ∧ returns_file fs_ok c w = returns c (live_state w) ∧
  metadata (storage_of w') = metadata (storage_of w) ∧
  match r with
  | Some _ => w' = w
  | None => ∃ m, planned c (live_state w) = Ok m ∧ session_file (disk w') = Some (content w ++ text_of m ++ [10])
  end.
Proof.
  intros D. pose proof (in_sync_wf w (durable_in_sync w D)) as W. pose proof (perform_file_cases fs_ok c w W) as H.
  pose proof (called_planned c (live_state w)) as C. pose proof (called_file_planned fs_ok c w) as F.
  destruct (planned c (live_state w)) as [m|x] eqn:E.
  - destruct H as (s' & Ha & Hm & Hf). rewrite Hf, Hm in *. rewrite Ha in C. destruct (commit fs_ok m w) as [w' [u|e]]; [|congruence].
    split_and!; [done|congruence|done|]. exists m. done.
  - rewrite H, perform_planned, E. split_and!; [done|congruence|done|done].
Qed.

(** A fork in a file is the fork in memory, and is published whole or not at all: when the disk works, forking into the
    file of a new session answers as the fork in memory does and the loaded storage has that state and is in step
    with its file; however the calls of the file system end, the destination then holds what it held before, or all
    lines of the fork. *)
Theorem file_fork_refines_memory w o mt d : header_ok h → initial_lanes h = [] → plain_fork o w →
  match S.fork o (live_state w) with
  | Ok s => ∃ d', fork works [] path h o mt w d = (d', Ok (mkStorage (metadataFromHeader h path mt) s)) ∧
              durable (mkLive (mkStorage (metadataFromHeader h path mt) s) d')
  | Err e => ∃ d', fork works [] path h o mt w d = (d', Err e) ∧ session_file d' = session_file d
  end ∧
  ∀ x ends, let d' := (fork x ends path h o mt w d).1 in
    session_file d' = session_file d ∨
    ∃ ms, S.createForkMutations o (live_state w) = Ok ms ∧ session_file d' = Some (session_text h ms).
Proof.
  intros Hh Hl Hp. split.
  - unfold S.fork. destruct (S.createForkMutations o (live_state w)) as [ms|e] eqn:E; cbn [rbind].
    2: { exists d. split; [|done]. unfold JsonlStorage.fork. by rewrite E. }
    pose proof (fork_loads o mt w d ms Hh Hp E) as F. rewrite Hl in F. destruct (apply_all _ ms) as [s|e].
    + eexists. split; [exact F|]. by eapply durable_fork.
    + eexists. split; [exact F | done].
  - intros x ends. by apply fork_atomic.
Qed.

(** An interrupted repair is repaired the next time: if a file can be loaded, then after a load that failed or died at
    any point of its repair it can still be loaded, to the same storage and the same repaired file. *)
Theorem recovery_can_be_interrupted pth mt d d1 st x : load works pth mt d = (d1, Ok st) →
  ∃ d2, load works pth mt (load x pth mt d).1 = (d2, Ok st) ∧ session_file d2 = session_file d1.
Proof.
  intros H. destruct (session_file d) as [c|] eqn:Hd; [|unfold JsonlStorage.load in H; by rewrite Hd in H].
  destruct (read_session (Ok ()) pth mt c) as [[st0 r]|] eqn:Hr; [|unfold JsonlStorage.load in H; cbn [works reads infos rbind] in H; by rewrite Hd, Hr in H].
  destruct (load_again pth mt st0 r c d Hd Hr) as (d' & H' & Hf). rewrite H in H'. injection H' as -> ->. rewrite Hf.
  assert (Hsame : ∀ d0, session_file d0 = Some c → ∃ d2, load works pth mt d0 = (d2, Ok st0) ∧
            session_file d2 = Some (match r with intact => c | drop_tail vp => vp | terminate => c ++ [10] end))
    by (intros d0 H0; exact (load_again pth mt st0 r c d0 H0 Hr)).
  pose proof (reread pth mt c st0 r Hr) as Hrr.
  assert (Hdone : ∀ d0 t, session_file d0 = Some t → read_session (Ok ()) pth mt t = Ok (st0, intact) →
            ∃ d2, load works pth mt d0 = (d2, Ok st0) ∧ session_file d2 = Some t)
    by (intros d0 t H0 Ht; exact (load_again pth mt st0 intact t d0 H0 Ht)).
  unfold JsonlStorage.load at 2. destruct x as [[[]|e1] [[]|e2] f rn rm ap]; cbn [reads infos stages renames removes appends rbind];
    [rewrite Hd, Hr | rewrite Hd | by apply Hsame..].
  2: { destruct (read_info_fails pth mt c e2) as [e' ->]. by apply Hsame. }
  destruct r as [|vp|].
  - by apply Hsame.
  - unfold publishFileAtomically, update_with. destruct f as [|n e], rn as [[]|e']; cbn [fst fs_result fileResult rbind written renames];
      try (apply Hsame; exact Hd). apply Hdone; [reflexivity | exact Hrr].
  - destruct ap as [|[|n] e]; unfold appendFile, update_with; rewrite Hd;
      cbn [fst session_file disk_rebuild rebuild written default fs_result take]; unfold id.
    + apply Hdone; [reflexivity | exact Hrr].
    + rewrite app_nil_r. by apply Hsame.
    + rewrite take_nil. apply Hdone; [reflexivity | exact Hrr].
Qed.

End Files.
End JsonlProps.

(** * Concrete session files

    A session with an entry of each of two types, a record, two lanes, a name and a label: the
    witnesses of the theorems about files, and a write that fails in a process that goes on. *)

Module JsonlSample.
Import Json JsonNumber AgentData JsonlCodec JsonlCodecProps JsonlStorage JsonlProps.
Import SessionState.SessionState (SessionMutation, mut_entry, mut_record, mut_lane, mut_name, mut_label, fork_tree, fork_branch).
Import SessionJobs.

(** ** Entries and records as objects

    The casts for the types the sample uses: custom and user entries, and abort records. *)

Definition str (key : string) (m : members) : jsstr := match field key m with Some (j_string s) => s | _ => [] end.
Definition num (key : string) (m : members) : Z :=
  match field key m with Some (j_number t) => default 0 (safe_integer t) | _ => 0 end.
Definition id_of (key : string) (m : members) : option jsstr := match field key m with Some (j_string s) => Some s | _ => None end.

Definition entry_object (e : Entry) : members :=
  [(js "id", j_string (e_id e))] ++
  match e_body e with
  | custom c data => [(js "type", text "custom"); (js "customType", j_string c)] ++ optional "data" data
  | message (m_user j) _ => [(js "type", text "message"); (js "message", j)]
  | _ => []
  end ++ [(js "parentId", nullable (e_parentId e)); (js "seq", number (e_seq e)); (js "timestamp", number (e_timestamp e))].
Definition entry_of (m : members) : Entry :=
  mkEntry (str "id" m) (num "seq" m) (id_of "parentId" m) (num "timestamp" m)
    (if string_is (field "type" m) "custom" then custom (str "customType" m) (field "data" m)
     else message (m_user (default j_null (field "message" m))) false).
Definition record_object (r : LaneRecord) : members :=
  [(js "id", j_string (r_id r)); (js "lane", j_string (r_lane r))] ++
  match r_body r with abort_requested run => [(js "type", text "abort_requested"); (js "runId", j_string run)] | _ => [] end ++
  [(js "seq", number (r_seq r)); (js "timestamp", number (r_timestamp r))].
Definition record_of (m : members) : LaneRecord :=
  mkRec (str "id" m) (num "seq" m) (str "lane" m) (num "timestamp" m) (abort_requested (str "runId" m)).

Notation step f := (perform_file entry_object record_object f).
Notation load := (JsonlStorage.load entry_of record_of).
Notation plain := (JsonlProps.plain entry_object entry_of record_object record_of).
Notation plain_call := (JsonlProps.plain_call entry_object entry_of record_object record_of).
Notation durable := (JsonlProps.durable entry_object entry_of record_object record_of).

(** ** A session *)

Definition path : jsstr := js "/sessions/a.jsonl".
Definition header : JsonlV4Header := mkHeader (js "a") 1700000000000 (js "/work") None None (Some [(js "by", j_string (js "test"))]) (Some [js "main"]).
Definition empty_disk : Disk := mkDisk None None.
Definition created : Live := mkLive (new_storage header path 0) (create fs_ok (Ok ()) path header 0 empty_disk).1.

Definition note : ProvisionedEntry := mkProvisioned (js "n") (custom (js "note") (Some (j_array [j_bool true; j_string [34; 10; 0xD83D]]))).
Definition prompt : ProvisionedEntry := mkProvisioned (js "p") (message (m_user (j_object [(js "role", text "user"); (js "content", text "hi")])) false).
Definition calls : list storage_call :=
  [s_appendEntry 10 note (js "main"); s_appendEntry 11 prompt (js "main"); s_appendRecord 12 (mkNew (js "r") (js "main") (abort_requested (js "run")));
   s_createLane (js "side") (Some (js "n")); s_moveLane (js "side") None; s_setName (Some (js "title")); s_setLabel (js "p") (Some (js "mark"))].
Definition session (n : nat) : Live := foldl (λ w c, (step fs_ok c w).1) created (take n calls).

Ltac value_of t := let v := eval vm_compute in t in replace t with v by (vm_compute; reflexivity).
Ltac obj :=
  cbn [fst snd];
  lazymatch goal with
  | |- json_ok (j_object ?m) =>
      value_of m; apply json_ok_members; [by apply (bool_decide_unpack _); vm_compute |];
      repeat (apply Forall_cons; split; [split; [reflexivity | obj]|]); apply Forall_nil; exact I
  | |- _ => vm_compute; repeat split
  end.
Ltac line_object := split; [obj | reflexivity | reflexivity | split; [reflexivity | by split; vm_compute] |
  split; [reflexivity | by split; vm_compute] | reflexivity].

Lemma header_fine : header_ok header.
Proof. unfold header_ok. split_and!; [done | by split; vm_compute | done | done | done | by left | cbn [h_metadata header]; obj | repeat constructor]. Qed.

(** Every planned mutation of the session is shown by its line. *)
Ltac plain_mutation :=
  split; [|reflexivity]; cbn [JsonlStorage.line_of line_ok];
  lazymatch goal with
  | |- _ ∧ ∃ id type parentId seq timestamp, object_line ?e id type seq timestamp ∧ _ =>
      split; [try reflexivity; exact I|];
      exists (str "id" e), (str "type" e), (id_of "parentId" e), (num "seq" e), (num "timestamp" e);
      split; [line_object|]; split_and!; [reflexivity | reflexivity | reflexivity |];
      first [by intros E; vm_compute in E | intros _; exists (str "customType" e); reflexivity]
  | |- ∃ id type lane seq timestamp, object_line ?e id type seq timestamp ∧ _ =>
      exists (str "id" e), (str "type" e), (str "lane" e), (num "seq" e), (num "timestamp" e);
      split; [line_object|]; split_and!; [reflexivity | reflexivity | by intros E; vm_compute in E ..]
  | |- _ => split_and!; try reflexivity; try (by vm_compute); try exact I; by split; vm_compute
  end.

Lemma session_durable : durable path header (session 7).
Proof.
  unfold session. cbn [calls take foldl].
  repeat (apply durable_call; [|unfold JsonlProps.plain_call; match goal with |- context [planned ?c ?s] => value_of (planned c s) end; plain_mutation]).
  apply (durable_create _ _ _ _ _ _ 0 empty_disk); [apply header_fine | reflexivity].
Qed.

(** ** Witnesses *)

Definition note_line : LineMutation :=
  line_entry (Some (js "main")) (entry_object (mkEntry (js "n") 1 None 10 (p_body note))).

Lemma line_roundtrip_witness : line_ok note_line ∧ ∃ line, encodeMutation note_line = line ++ [10] ∧ 10 ∉ line ∧ line ≠ [] ∧
  parseMutation line = Ok note_line ∧ ∀ torn rest, line = torn ++ rest → rest ≠ [] → parseMutation torn = Err err_syntax.
Proof.
  assert (H : line_ok note_line).
  { unfold note_line. cbn [line_ok]. split; [reflexivity|].
    set (e := entry_object _). exists (str "id" e), (str "type" e), (id_of "parentId" e), (num "seq" e), (num "timestamp" e). subst e.
    split; [line_object|]. split_and!; [reflexivity | reflexivity | reflexivity |]. intros _. exists (js "note"). reflexivity. }
  split; [exact H | exact (line_roundtrip _ H)].
Defined.

Definition rename_session : storage_call := s_setName (Some (js "other")).
Definition disk_full : FileError := mkFileError false (js "ENOSPC").
(** The disk after a process died in the middle of the line. *)
Definition torn_disk : Disk := disk (step (fs_fails 20 disk_full) rename_session (session 7)).1.

Lemma rename_plain : plain_call rename_session (session 7).
Proof. unfold JsonlProps.plain_call. match goal with |- context [planned ?c ?s] => value_of (planned c s) end. plain_mutation. Qed.

Lemma session_survives_crashes_witness :
  line_written entry_object record_object 20 rename_session (session 7) = false ∧
  ∃ d st, load works path 9 torn_disk = (d, Ok st) ∧ metadata st = metadataFromHeader header path 9 ∧
    state st = live_state (session 7) ∧ durable path header (mkLive st d).
Proof.
  assert (E : line_written entry_object record_object 20 rename_session (session 7) = false) by (vm_compute; reflexivity).
  split; [exact E|].
  pose proof (session_survives_crashes _ _ _ _ path header (session 7) rename_session 20 disk_full 9 session_durable rename_plain) as H.
  rewrite E in H. exact H.
Defined.

Lemma file_storage_refines_memory_witness :
  let '(w', r) := step fs_ok rename_session (session 7) in
  r = None ∧ perform rename_session (live_state (session 7)) = (live_state w', r) ∧ metadata (storage_of w') = metadata (storage_of (session 7)).
Proof.
  pose proof (file_storage_refines_memory _ _ _ _ path header (session 7) rename_session session_durable) as H.
  assert (E : (step fs_ok rename_session (session 7)).2 = None) by (vm_compute; reflexivity).
  destruct (step fs_ok rename_session (session 7)) as [w' r]. cbn [snd] in E. subst r. destruct H as (H1 & _ & H2 & _). split_and!; [reflexivity | exact H1 | exact H2].
Defined.

Definition fork_header : JsonlV4Header := mkHeader (js "b") 1700000000001 (js "/work") (Some (js "a")) None None (Some []).
Definition fork_path : jsstr := js "/sessions/b.jsonl".

Lemma fork_plain : JsonlProps.plain_fork entry_object entry_of record_object record_of fork_tree (session 7).
Proof.
  unfold JsonlProps.plain_fork.
  match goal with |- context [SessionState.SessionState.createForkMutations ?o ?s] => value_of (SessionState.SessionState.createForkMutations o s) end.
  repeat (apply Forall_cons; split; [plain_mutation|]). apply Forall_nil; exact I.
Qed.

Lemma file_fork_refines_memory_witness :
  match SessionState.SessionState.fork fork_tree (live_state (session 7)) with
  | Ok s => ∃ d', fork entry_object entry_of record_object record_of works [] fork_path fork_header fork_tree 9 (session 7) empty_disk
                    = (d', Ok (mkStorage (metadataFromHeader fork_header fork_path 9) s)) ∧
                  durable fork_path fork_header (mkLive (mkStorage (metadataFromHeader fork_header fork_path 9) s) d')
  | Err _ => False
  end.
Proof.
  assert (Hh : header_ok fork_header) by (unfold header_ok; split_and!; [done | by split; vm_compute | done | done | done | by right | done | repeat constructor]).
  pose proof (file_fork_refines_memory entry_object entry_of record_object record_of fork_path fork_header (session 7) fork_tree 9 empty_disk Hh eq_refl fork_plain) as [H _].
  destruct (SessionState.SessionState.fork fork_tree (live_state (session 7))) eqn:E; [exact H|]. vm_compute in E. discriminate E.
Defined.

Lemma recovery_can_be_interrupted_witness : ∃ d1 st, load works path 9 torn_disk = (d1, Ok st) ∧
  ∀ x, ∃ d2, load works path 9 (load x path 9 torn_disk).1 = (d2, Ok st) ∧ session_file d2 = session_file d1.
Proof.
  assert (H : ∃ d1 st, load works path 9 torn_disk = (d1, Ok st)) by (eexists _, _; vm_compute; reflexivity).
  destruct H as (d1 & st & H). exists d1, st. split; [exact H|]. intros x.
  exact (recovery_can_be_interrupted entry_of record_of path 9 torn_disk d1 st x H).
Defined.

(** ** A failure the process survives *)

(** The process goes on after an append that failed, with these names; the answers, and the session that is loaded
    afterwards. *)
Definition name_to (n : string) (w : Live) : Live * option SessionError := step fs_ok (s_setName (Some (js n))) w.
Definition after_failure (n : nat) (names : list string) : list (option SessionError) * result SessionErrorCode (option jsstr) :=
  let w := (step (fs_fails n disk_full) rename_session (session 7)).1 in
  let '(w, answers) := foldl (λ '(w, answers) s, let '(w, r) := name_to s w in (w, answers ++ [r])) (w, []) names in
  (answers, match (load works path 9 (disk w)).2 with Ok st => Ok (SessionState.SessionState.name (state st)) | Err e => Err (code e) end).

(** An append that fails is not rolled back: the process goes on with the storage as if nothing had been written.  After a
    part of the line was written, the next change continues that line: it is acknowledged, and loading drops it as a
    torn tail; with one more change, the file cannot be loaded.  After the whole line was written, the next change has
    its number, and the file cannot be loaded.  Only a write of nothing is harmless. *)
Theorem failed_append_corrupts :
  after_failure 20 ["third"] = ([None], Ok (Some (js "title"))) ∧
  after_failure 20 ["third"; "fourth"] = ([None; None], Err invalid_entry) ∧
  after_failure 60 ["third"] = ([None], Err invalid_entry) ∧
  after_failure 0 ["third"] = ([None], Ok (Some (js "third"))).
Proof. split_and!; vm_compute; reflexivity. Qed.

End JsonlSample.
