(* ===== verification/Retry.v ===== *)
(** * Retries of a provider call

    Models [ai/src/utils/retry.ts]: which failed messages look transient, the delay before a
    retry and the loop around one call.  The messages that the calls produce and the sleeps
    that are aborted are arguments; the callbacks succeed, and what they are given is
    recorded.  The numbers of a policy are integers. *)
From S2P Require Import Prelude JsMap JsString Policy Presentation Regex Json AgentData.

Module Retry.
Import AgentData.
Notation ascii_lower := Presentation.ascii_lower.

(** ** Classification *)

(** A pattern of the source: characters, each followed by [?] or not, and [.]. *)
Fixpoint phrase (s : jsstr) : list Regex.re :=
  let atom u := if u =? 46 then Regex.any else Regex.Chr (λ v, ascii_lower v =? ascii_lower u) in
  match s with
  | u :: 63 :: s => Regex.opt (atom u) :: phrase s
  | u :: s => atom u :: phrase s
  | [] => []
  end.
Definition buildProviderErrorPattern (patterns : list string) : Regex.re := Regex.alt ((λ s, Regex.seq (phrase (js s))) <$> patterns).

Definition NON_RETRYABLE_PROVIDER_LIMIT_ERROR_PATTERN : Regex.re := buildProviderErrorPattern
  ["GoUsageLimitError"; "FreeUsageLimitError"; "Monthly usage limit reached"; "available balance"; "insufficient_quota"; "out of budget";
   "quota exceeded"; "billing"].
Definition RETRYABLE_PROVIDER_ERROR_PATTERN : Regex.re := buildProviderErrorPattern
  ["overloaded"; "currently experiencing high demand"; "rate.?limit"; "too many requests"; "429"; "500"; "502"; "503"; "504"; "520"; "524";
   "service.?unavailable"; "server.?error"; "internal.?error"; "provider.?returned.?error";
   "exceeded request buffer limit while retrying upstream"; "network.?error"; "connection.?error"; "connection.?refused";
   "connection.?lost"; "other side closed"; "fetch failed"; "getaddrinfo"; "ENOTFOUND"; "EAI_AGAIN"; "upstream.?connect";
   "reset before headers"; "socket hang up"; "socket connection was closed"; "timed? out"; "timeout"; "terminated"; "websocket.?closed";
   "websocket.?error"; "ended without"; "stream ended before message_stop"; "stream ended before a terminal response event";
   "http2 request did not get a response"; "retry delay"; "you can retry your request"; "try your request again";
   "please retry your request"; "ResourceExhausted"].

Definition isRetryableAssistantError (m : AssistantMessage) : bool :=
  match am_errorMessage m with
  | Some (u :: text) =>
      bool_decide (am_stopReason m = stop_error)
      && negb (Regex.test NON_RETRYABLE_PROVIDER_LIMIT_ERROR_PATTERN (u :: text))
      && Regex.test RETRYABLE_PROVIDER_ERROR_PATTERN (u :: text)
  | _ => false
  end.

(** ** Delays *)

Definition DEFAULT_MAX_AGENT_RETRY_DELAY_MS : Z := 60000.
(** The product of a safe integer and a power of two is exact, or too large to be safe. *)
Definition retryDelayMs (p : RetryPolicy) (attempt : Z) : Z :=
  let delay := rp_baseDelayMs p * 2 ^ Z.max 0 (attempt - 1) in
  let safeDelay := if is_safe delay then delay else MAX_SAFE_INTEGER in
  Z.min safeDelay (default DEFAULT_MAX_AGENT_RETRY_DELAY_MS (rp_maxAgentDelayMs p)).

(** ** The loop *)

Inductive retry_event :=
| ev_call (index : nat)
| ev_scheduled (attempt maxAttempts delayMs : Z) (errorMessage : jsstr)
| ev_sleep (delayMs : Z)
| ev_attempt_start
| ev_finished (success : bool) (attempt : Z) (finalError : option jsstr).

Definition with_stop (r : StopReason) (e : option jsstr) (m : AssistantMessage) : AssistantMessage :=
  mkAssistant (am_content m) (am_provider m) (am_model m) (am_usage m) r (am_deferred m) e (am_rest m).

Section Loop.
Context (produce : nat → AssistantMessage) (interrupted : nat → bool).

Definition when_retried (last : option (Z * jsstr)) (f : Z → retry_event) : list retry_event :=
  match last with Some l => [f l.1] | None => [] end.

(** The rounds from the call [n] on.  The fuel is the number of retries that are left and one more. *)
Fixpoint rounds (fuel n : nat) (policy : option RetryPolicy) (maxAttempts attempt : Z) (last : option (Z * jsstr))
    : option (list retry_event * AssistantMessage) :=
  match fuel with
  | O => None
  | S fuel =>
      let response := produce n in
      let stop (events : list retry_event) := Some (ev_call n :: events, response) in
      if bool_decide (am_stopReason response = stop_aborted) then stop (when_retried last (λ a, ev_finished false a None))
      else if negb (bool_decide (am_stopReason response = stop_error)) then stop (when_retried last (λ a, ev_finished true a None))
      else if (maxAttempts <=? attempt) || negb (isRetryableAssistantError response) then
        stop (when_retried last (λ a, ev_finished false a (am_errorMessage response)))
      else
        match policy with
        | None => None
        | Some p =>
            let attempt := attempt + 1 in
            let errorMessage := match am_errorMessage response with Some (u :: s) => u :: s | _ => js "Unknown error" end in
            let delayMs := retryDelayMs p attempt in
            let events := [ev_call n; ev_scheduled attempt maxAttempts delayMs errorMessage; ev_sleep delayMs] in
            if interrupted n then
              Some (events ++ [ev_finished false attempt (Some errorMessage)], with_stop stop_aborted None response)
            else
              prod_map (λ more, events ++ ev_attempt_start :: more) id <$> rounds fuel (S n) policy maxAttempts attempt (Some (attempt, errorMessage))
        end
  end.

Definition max_attempts (policy : option RetryPolicy) : Z :=
  match policy with Some p => if rp_enabled p then rp_maxRetries p else 0 | None => 0 end.
Definition retryAssistantCall (policy : option RetryPolicy) : option (list retry_event * AssistantMessage) :=
  let maxAttempts := max_attempts policy in rounds (S (Z.to_nat maxAttempts)) 0 policy maxAttempts 0 None.

End Loop.

(** ** What the loop does *)

Definition is_call (e : retry_event) : bool := match e with ev_call _ => true | _ => false end.
Definition calls (l : list retry_event) : nat := length (filter is_call l).
Definition delays (l : list retry_event) : list Z := omap (λ e, match e with ev_sleep d => Some d | _ => None end) l.
Definition retryable (m : AssistantMessage) : Prop := am_stopReason m = stop_error ∧ isRetryableAssistantError m = true.

(** The events of the first [k] rounds from [n] on, when each is retried. *)
Fixpoint retries (produce : nat → AssistantMessage) (p : RetryPolicy) (maxAttempts : Z) (n k : nat) : list retry_event :=
  match k with
  | O => []
  | S k =>
      let delay := retryDelayMs p (Z.of_nat n + 1) in
      [ev_call n; ev_scheduled (Z.of_nat n + 1) maxAttempts delay (default [] (am_errorMessage (produce n))); ev_sleep delay; ev_attempt_start]
      ++ retries produce p maxAttempts (S n) k
  end.
(** What is reported when the call [k] is the last one. *)
Definition report (k : nat) (m : AssistantMessage) : list retry_event :=
  if bool_decide (k = 0%nat) then []
  else [ev_finished (negb (bool_decide (am_stopReason m = stop_aborted)) && negb (bool_decide (am_stopReason m = stop_error))) (Z.of_nat k)
          (if bool_decide (am_stopReason m = stop_error) then am_errorMessage m else None)].

Lemma retryable_message m : isRetryableAssistantError m = true →
  match am_errorMessage m with Some (u :: s) => u :: s | _ => js "Unknown error" end = default [] (am_errorMessage m).
Proof. intros H. unfold isRetryableAssistantError in H. by destruct (am_errorMessage m) as [[|u s]|]. Qed.

Lemma retryable_error m : isRetryableAssistantError m = true → am_stopReason m = stop_error.
Proof.
  intros H. unfold isRetryableAssistantError in H. destruct (am_errorMessage m) as [[|u s]|]; [done| |done].
  apply andb_true_iff in H as [[H _]%andb_true_iff _]. by apply bool_decide_eq_true in H.
Qed.

Section Outcome.
Context (produce : nat → AssistantMessage) (interrupted : nat → bool).

(** The loop ends with the call [k], or is interrupted in the sleep after it. *)
Definition ends_at (policy : option RetryPolicy) (maxAttempts : Z) (n k : nat) (ev : list retry_event) (r : AssistantMessage) : Prop :=
  let m := produce (n + k) in
  let before p := retries produce p maxAttempts n k in
  let goes_on := isRetryableAssistantError m = true ∧ Z.of_nat (n + k) < maxAttempts in
  (¬ goes_on ∧ r = m ∧ ∃ pre, ev = pre ++ ev_call (n + k) :: report (n + k) m ∧
     match policy with Some p => pre = before p | None => pre = [] ∧ k = 0%nat end)
  ∨ (goes_on ∧ interrupted (n + k) = true ∧ r = with_stop stop_aborted None m ∧ ∃ p, policy = Some p ∧
       let delay := retryDelayMs p (Z.of_nat (n + k) + 1) in
       ev = before p ++ [ev_call (n + k); ev_scheduled (Z.of_nat (n + k) + 1) maxAttempts delay (default [] (am_errorMessage m)); ev_sleep delay;
                         ev_finished false (Z.of_nat (n + k) + 1) (Some (default [] (am_errorMessage m)))]).

Lemma retries_end policy maxAttempts fuel : ∀ n last, (policy = None → maxAttempts <= 0) →
  (Z.to_nat (maxAttempts - Z.of_nat n) < fuel)%nat → (∀ f, when_retried last f = if bool_decide (n = 0%nat) then [] else [f (Z.of_nat n)]) →
  ∃ k ev r, rounds produce interrupted fuel n policy maxAttempts (Z.of_nat n) last = Some (ev, r) ∧
    (∀ i, (i < k)%nat → isRetryableAssistantError (produce (n + i)) = true ∧ Z.of_nat (n + i) < maxAttempts ∧ interrupted (n + i) = false) ∧
    ends_at policy maxAttempts n k ev r.
Proof.
  induction fuel as [|fuel IH]; intros n last Hp Hf Hl; [lia|]. cbn [rounds].
  assert (Hstop : ∀ ev, ¬ (isRetryableAssistantError (produce n) = true ∧ Z.of_nat n < maxAttempts) → ev = report n (produce n) →
    ∃ k ev' r, Some (ev_call n :: ev, produce n) = Some (ev', r) ∧
    (∀ i, (i < k)%nat → isRetryableAssistantError (produce (n + i)) = true ∧ Z.of_nat (n + i) < maxAttempts ∧ interrupted (n + i) = false) ∧
    ends_at policy maxAttempts n k ev' r).
  { intros ev Hn ->. exists 0%nat. eexists _, _. split; [done|]. split; [lia|]. left. rewrite Nat.add_0_r. split_and!; [done..|]. exists []. by destruct policy. }
  destruct (decide (am_stopReason (produce n) = stop_aborted)) as [Ha|Ha].
  { rewrite (bool_decide_eq_true_2 (am_stopReason (produce n) = stop_aborted)) by done. apply Hstop; [intros [E _]; apply retryable_error in E; congruence|]. rewrite Hl. unfold report. rewrite Ha. by destruct (bool_decide (n = 0%nat)). }
  rewrite (bool_decide_eq_false_2 (am_stopReason (produce n) = stop_aborted)) by done.
  destruct (decide (am_stopReason (produce n) = stop_error)) as [He|He].
  2: { rewrite (bool_decide_eq_false_2 (am_stopReason (produce n) = stop_error)) by done. cbn [negb]. apply Hstop; [intros [E _]; apply retryable_error in E; congruence|]. rewrite Hl. unfold report.
       rewrite (bool_decide_eq_false_2 (am_stopReason _ = stop_aborted)), (bool_decide_eq_false_2 (am_stopReason _ = stop_error)) by done. by case_bool_decide. }
  rewrite (bool_decide_eq_true_2 (am_stopReason (produce n) = stop_error)) by done. cbn [negb].
  destruct ((maxAttempts <=? Z.of_nat n) || negb (isRetryableAssistantError (produce n))) eqn:Hs.
  { apply Hstop; [intros [E1 E2]; rewrite E1 in Hs; lia|]. rewrite Hl. unfold report. rewrite He. by destruct (bool_decide (n = 0%nat)). }
  apply orb_false_iff in Hs as [Hs1 Hs2%negb_false_iff]. destruct policy as [p|]; [|lia]. rewrite (retryable_message _ Hs2).
  destruct (interrupted n) eqn:Hi.
  - exists 0%nat. eexists _, _. split; [done|]. split; [lia|]. right. rewrite !Nat.add_0_r. split_and!; [done | lia | done | done |]. by exists p.
  - destruct (IH (S n) (Some (Z.of_nat n + 1, default [] (am_errorMessage (produce n)))) Hp ltac:(lia)) as (k & ev & r & E & Hk & He').
    { intros f. cbn. rewrite bool_decide_eq_false_2 by done. do 2 f_equal. lia. }
    replace (Z.of_nat (S n)) with (Z.of_nat n + 1) in E by lia. rewrite E. exists (S k). eexists _, _. split; [done|]. split.
    + intros [|i] Hik; [rewrite Nat.add_0_r; split_and!; [done | lia | done]|]. rewrite Nat.add_succ_r. apply (Hk i). lia.
    + unfold ends_at in *. cbn [retries]. rewrite !Nat.add_succ_r. change (S n + k)%nat with (S (n + k)) in He'. destruct He' as [(H1 & H2 & pre & -> & ->) | (H1 & H2 & H3 & p' & [= <-] & ->)].
      * left. split_and!; [done..|]. eexists. split; [|reflexivity]. done.
      * right. split; [exact H1|]. split_and!; [done | done |]. by exists p.
Qed.

(** The retry loop ends, within its budget: for some [k] that is at most the number of retries of an enabled policy, the
    calls before the call [k] failed transiently and were retried, each after its announced delay; the call [k] is the
    last one, and is not transient or exhausts the budget, or the sleep after it was aborted.  The answer is the
    message of the call [k], in the second case as aborted, and the events are exactly those of these rounds. *)
Theorem retry_loop_is_bounded policy : ∃ k ev r, retryAssistantCall produce interrupted policy = Some (ev, r) ∧
  Z.of_nat k <= Z.max 0 (max_attempts policy) ∧
  (∀ i, (i < k)%nat → isRetryableAssistantError (produce i) = true ∧ interrupted i = false) ∧
  ends_at policy (max_attempts policy) 0 k ev r.
Proof.
  destruct (retries_end policy (max_attempts policy) (S (Z.to_nat (max_attempts policy))) 0 None) as (k & ev & r & E & Hk & He);
    [by intros -> | cbn; lia | done |]. exists k, ev, r. split; [exact E|]. split; [|split; [|exact He]].
  - destruct k as [|k]; [lia|]. destruct (Hk k ltac:(lia)) as (_ & ? & _). cbn in *. lia.
  - intros i Hi. destruct (Hk i Hi) as (? & _ & ?). done.
Qed.

End Outcome.

(** A delay is exponential up to its cap: the retry [attempt] waits for the base delay times two to the number of
    retries before it, but never longer than the cap of the policy or a minute without one. *)
Theorem retry_delay_is_capped p attempt : 0 <= rp_baseDelayMs p →
  let cap := default DEFAULT_MAX_AGENT_RETRY_DELAY_MS (rp_maxAgentDelayMs p) in
  let exact := rp_baseDelayMs p * 2 ^ Z.max 0 (attempt - 1) in
  retryDelayMs p attempt <= cap ∧ (cap <= MAX_SAFE_INTEGER → retryDelayMs p attempt = Z.min exact cap) ∧
  (attempt <= 1 → exact = rp_baseDelayMs p) ∧ (1 <= attempt → retryDelayMs p attempt <= retryDelayMs p (attempt + 1)).
Proof.
  intros Hb cap exact. unfold retryDelayMs. fold cap exact. assert (H0 : 0 <= exact) by (apply Z.mul_nonneg_nonneg; [done | by apply Z.pow_nonneg]).
  unfold is_safe. split_and!.
  - lia.
  - intros Hc. destruct (Z.leb_spec exact MAX_SAFE_INTEGER), (Z.leb_spec (- MAX_SAFE_INTEGER) exact); cbn [andb]; unfold MAX_SAFE_INTEGER in *; lia.
  - intros Ha. unfold exact. replace (Z.max 0 (attempt - 1)) with 0 by lia. lia.
  - intros Ha. replace (Z.max 0 (attempt + 1 - 1)) with (Z.succ (Z.max 0 (attempt - 1))) by lia. rewrite Z.pow_succ_r by lia.
    replace (rp_baseDelayMs p * (2 * _)) with (2 * exact) by (unfold exact; lia).
    destruct (Z.leb_spec exact MAX_SAFE_INTEGER), (Z.leb_spec (- MAX_SAFE_INTEGER) exact), (Z.leb_spec (2 * exact) MAX_SAFE_INTEGER),
      (Z.leb_spec (- MAX_SAFE_INTEGER) (2 * exact)); cbn [andb]; unfold MAX_SAFE_INTEGER in *; lia.
Qed.

Lemma retry_delay_is_capped_witness :
  let p := mkRetry true 3 1000 (Some 5000) in retryDelayMs p 1 = 1000 ∧ retryDelayMs p 4 = 5000 ∧ retryDelayMs p 4 <= 5000.
Proof. split_and!; [reflexivity | reflexivity | exact (proj1 (retry_delay_is_capped (mkRetry true 3 1000 (Some 5000)) 4 ltac:(done)))]. Defined.

(** ** Examples *)

Definition failed (text : string) : AssistantMessage :=
  mkAssistant [] [] [] (mkUsage 0 0 0 0 0 (NInt 0)) stop_error None (Some (js text)) Json.j_null.

Example transient_messages : forallb (λ s, isRetryableAssistantError (failed s))
  ["529 Overloaded_error"; "Rate limit reached"; "RATE-LIMIT"; "ratelimit"; "request timed out"; "time out"; "TIMEOUT"; "connect ECONNRESET 500";
   "stream ended without a stop"] = true.
Proof. vm_compute. reflexivity. Qed.
Example permanent_messages : existsb (λ s, isRetryableAssistantError (failed s))
  [""; "invalid api key"; "429 insufficient_quota"; "Quota exceeded, rate limit"; "rate  limit"; "billing: 503"] = false.
Proof. vm_compute. reflexivity. Qed.

End Retry.
