(* ===== verification/Generation.v ===== *)
(** * Durable generation

    Models [agent/src/harness/generation.ts] over the sessions of [Session].  A running
    generation is a process of the state: it waits for its intent to be stored and for the
    provider, and a crash drops it and keeps the session.  The provider is the environment:
    what it answers is the argument of the step that ends the wait.

    Times are integers, so that the delay of a retry is exact as long as it is a safe
    integer.  The identifiers that a step draws are arguments. *)
From S2P Require Import Prelude JsMap JsString Json AgentData SessionState Session Retry.

Module Generation.
Import AgentData SessionState Storage Session.

(** ** The answers and the records *)

Inductive GenerationWait :=
| waiting_retry (notBefore : option Z)
| waiting_deferred (deferred : option DeferredHandle)
| w_completed (response : AssistantMessage)
| w_failed (response : AssistantMessage)
| w_cancelled (response : option AssistantMessage).

Definition messageEntry (m : AssistantMessage) (id : jsstr) : ProvisionedEntry := mkProvisioned id (message (m_assistant m) false).

Definition usageRecord (state : Rec GenerationState) (m : AssistantMessage) : NewRecord UsageRecord :=
  mkNew (g_usageId (r_body state)) (r_lane state)
    (mkUsageRecord (am_usage m) u_assistant (Some (g_runId (r_body state))) (Some (g_responseEntryId (r_body state)))
       (Some (g_attempt (r_body state))) (Some (if bool_decide (am_stopReason m = stop_pending) then stop_error else am_stopReason m)) Json.j_null).

Definition finish_id (g : GenerationState) : jsstr := js "finish:" ++ g_runId g ++ js ":" ++ num_str (g_attempt g).
Definition finishedRecord (state : Rec GenerationState) (outcome : Outcome) (m : option AssistantMessage) : NewRecord OperationFinished :=
  mkNew (finish_id (r_body state)) (r_lane state)
    (mkFinished (g_runId (r_body state)) outcome
       match m ≫= am_errorMessage with Some (u :: s) => Some (js "assistant_error", u :: s) | _ => None end).

Definition status_name (x : GenerationStatus) : string :=
  match x with
  | gen_intent => "intent" | gen_effect_pending => "effect_pending" | gen_retry_wait => "retry_wait" | gen_deferred => "deferred"
  | gen_cancelled => "cancelled" | gen_settled => "settled"
  end.

(** [ids] and [extra] of the source; an [ids] with more members than these two contributes nothing else. *)
Definition nextState (state : Rec GenerationState) (status : GenerationStatus) (responseEntryId usageId : jsstr)
    (notBefore : option Z) (errorMessage : option jsstr) (deferred : option DeferredHandle) : NewRecord GenerationState :=
  let g := r_body state in
  mkNew (js "generation:" ++ g_runId g ++ js ":" ++ num_str (g_attempt g) ++ js ":" ++ js (status_name status) ++ js ":" ++ responseEntryId)
    (r_lane state)
    (mkGeneration (g_runId g) (g_stepId g) status (g_attempt g) responseEntryId usageId (g_configuration g) notBefore errorMessage deferred).
(** [nextState] with the identifiers of the state. *)
Definition same_ids (state : Rec GenerationState) (status : GenerationStatus) (notBefore : option Z) (errorMessage : option jsstr) :=
  nextState state status (g_responseEntryId (r_body state)) (g_usageId (r_body state)) notBefore errorMessage None.

(** ** The generation of a lane *)

Inductive phase := admitted (pending : Rec GenerationState) | calling (pending : Rec GenerationState).

(** [calls] is the history of the calls of the provider: the state that admitted each. *)
Record World := mkWorld { session : State; procs : gmap nat phase; calls : list (Rec GenerationState) }.
#[export] Instance world_rebuild : Rebuild World := λ w, mkWorld (session w) (procs w) (calls w).

Section Lane.
Context (lane : jsstr).

Definition on_session {A} (m : M A) (w : World) : World * result SessionError A :=
  let '(s, r) := m (session w) in (w <| session := s |>, r).
Definition set_proc (p : nat) (ph : phase) (w : World) : World := w <| procs := <[p := ph]> (procs w) |>.
Definition stop (p : nat) (w : World) : World := w <| procs := delete p (procs w) |>.

Definition expected (r : Rec GenerationState) : jsstr * GenerationStatus := (r_id r, g_status (r_body r)).

Record GenerationRequest := mkRequest {
  gr_operationId : jsstr; gr_stepId : option jsstr; gr_originalPrompt : option (list AgentMessage);
  gr_initialMessages : list ProvisionedEntry; gr_configuration : GenerationConfiguration }.
Definition start_options (r : GenerationRequest) (responseEntryId usageId : jsstr) : StartGeneration :=
  mkStartGeneration lane (gr_operationId r) (default (js "step:" ++ gr_operationId r) (gr_stepId r)) (default [] (gr_originalPrompt r))
    (gr_initialMessages r) (gr_configuration r) responseEntryId usageId.
Definition start (r : GenerationRequest) (responseEntryId usageId id : jsstr) (now : Z) : World → World * result SessionError (Rec GenerationState) :=
  on_session (startGeneration (start_options r responseEntryId usageId) id now).

(** The state that admits the next call. *)
Definition next_pending (state : Rec GenerationState) (responseEntryId usageId : jsstr) : NewRecord GenerationState :=
  let n := nextState state gen_effect_pending responseEntryId usageId None None None in
  mkNew (n_id n) (n_lane n)
    (n_body n <| g_attempt := if bool_decide (g_status (r_body state) = gen_intent) then 1 else g_attempt (r_body state) + 1 |>).

(** [run], up to the stored intent; an answer when the run ends here. *)
Definition run (p : nat) (state : Rec GenerationState) (responseEntryId usageId : jsstr) (now : Z) (w : World)
    : World * option (result SessionError GenerationWait) :=
  let g := r_body state in
  if bool_decide (g_status g = gen_retry_wait) && match g_notBefore g with Some t => now <? t | None => false end
  then (w, Some (Ok (waiting_retry (g_notBefore g))))
  else match on_session (transitionGeneration lane (expected state) now (next_pending state responseEntryId usageId)) w with
       | (w, Ok (Some pending)) => (set_proc p (admitted pending) w, None)
       | (w, Ok None) => (w, Some (Ok (waiting_retry None)))
       | (w, Err e) => (w, Some (Err e))
       end.

Definition cancel (state : Rec GenerationState) (now : Z) (w : World) : World * result SessionError bool :=
  let g := r_body state in
  if bool_decide (g_status g = gen_settled) || bool_decide (g_status g = gen_cancelled) then (w, Ok false)
  else match on_session (transitionGeneration lane (expected state) now (same_ids state gen_cancelled None None)) w with
       | (w, Ok (Some transitioned)) =>
           let '(w, r) := on_session (append operation_finished now (finishedRecord transitioned o_aborted None)) w in
           (w, let* _ := r in Ok true)
       | (w, Ok None) => (w, Ok false)
       | (w, Err e) => (w, Err e)
       end.

(** The continuation of [run] once the intent is stored: the signal, then the call. *)
Definition continue_run (p : nat) (aborted : bool) (now : Z) (w : World) : World * option (result SessionError GenerationWait) :=
  match procs w !! p with
  | Some (admitted pending) =>
      if aborted then
        let '(w, r) := cancel pending now (stop p w) in (w, Some (let* _ := r in Ok (w_cancelled None)))
      else (set_proc p (calling pending) (w <| calls := calls w ++ [pending] |>), None)
  | _ => (w, None)
  end.

(** ** Settling a response *)

Definition commit (state : Rec GenerationState) (response : AssistantMessage) (next : NewRecord GenerationState)
    (finish : option (NewRecord OperationFinished)) (now : Z) : World → World * result SessionError bool :=
  on_session (commitGenerationOutcome
    (mkCommitGeneration lane (r_id state, gen_effect_pending) (messageEntry response (g_responseEntryId (r_body state)))
       (usageRecord state response) next finish) now).

Inductive terminal := t_cancelled | t_deferred | t_settled | t_failed.
#[export] Instance terminal_eq : EqDecision terminal.
Proof. solve_decision. Defined.
Definition terminal_status (t : terminal) : GenerationStatus :=
  match t with t_cancelled => gen_cancelled | t_deferred => gen_deferred | t_settled | t_failed => gen_settled end.
Definition terminal_outcome (t : terminal) : option Outcome :=
  match t with t_deferred => None | t_cancelled => Some o_aborted | t_failed => Some o_failed | t_settled => Some o_completed end.
Definition commitTerminal (state : Rec GenerationState) (response : AssistantMessage) (t : terminal) (now : Z) :=
  commit state response (same_ids state (terminal_status t) None None)
    ((λ o, finishedRecord state o (Some response)) <$> terminal_outcome t) now.

Definition retriesRemaining (g : GenerationState) : bool :=
  let p := gc_retryPolicy (g_configuration g) in rp_enabled p && (g_attempt g <=? rp_maxRetries p).
Definition retryDelay (g : GenerationState) : Z :=
  rp_baseDelayMs (gc_retryPolicy (g_configuration g)) * 2 ^ Z.max 0 (g_attempt g - 1).
Definition retry_state (state : Rec GenerationState) (response : AssistantMessage) (now : Z) : NewRecord GenerationState :=
  same_ids state gen_retry_wait (Some (now + retryDelay (r_body state))) (Some (default (js "Assistant request failed") (am_errorMessage response))).

Definition settle (state : Rec GenerationState) (response : AssistantMessage) (now : Z) (w : World) : World * result SessionError GenerationWait :=
  let answer (committed : World * result SessionError bool) (yes no : GenerationWait) :=
    (committed.1, let* c := committed.2 in Ok (if c : bool then yes else no)) in
  let terminally t yes no := answer (commitTerminal state response t now w) yes no in
  match am_stopReason response with
  | stop_aborted => terminally t_cancelled (w_cancelled (Some response)) (waiting_retry None)
  | stop_deferred =>
      match am_deferred response with
      | None => terminally t_failed (w_failed response) (waiting_retry None)
      | Some d => terminally t_deferred (waiting_deferred (Some d)) (waiting_deferred None)
      end
  | stop_error =>
      if Retry.isRetryableAssistantError response && retriesRemaining (r_body state) then
        let retry := retry_state state response now in
        answer (commit state response retry None now w) (waiting_retry (g_notBefore (n_body retry))) (waiting_retry None)
      else terminally t_failed (w_failed response) (waiting_retry None)
  | _ => terminally t_settled (w_completed response) (waiting_retry None)
  end.

(** The provider answered. *)
Definition answered (p : nat) (response : AssistantMessage) (now : Z) (w : World) : World * option (result SessionError GenerationWait) :=
  match procs w !! p with
  | Some (calling pending) => let '(w, r) := settle pending response now (stop p w) in (w, Some r)
  | _ => (w, None)
  end.

(** ** The calls *)

Inductive call :=
| c_start (r : GenerationRequest) (responseEntryId usageId id : jsstr) (now : Z)
| c_run (p : nat) (state : Rec GenerationState) (responseEntryId usageId : jsstr) (now : Z)
| c_continue (p : nat) (aborted : bool) (now : Z)
| c_answered (p : nat) (response : AssistantMessage) (now : Z)
| c_threw (p : nat)
| c_cancel (state : Rec GenerationState) (now : Z)
| c_crash
| c_job (job : State → State).

Definition step (w : World) (c : call) : World :=
  match c with
  | c_start r resp us id now => (start r resp us id now w).1
  | c_run p state resp us now => (run p state resp us now w).1
  | c_continue p aborted now => (continue_run p aborted now w).1
  | c_answered p response now => (answered p response now w).1
  | c_threw p => match procs w !! p with Some (calling _) => stop p w | _ => w end
  | c_cancel state now => (cancel state now w).1
  | c_crash => w <| procs := ∅ |>
  | c_job job => w <| session := job (session w) |>
  end.

End Lane.

Definition generationConfiguration (provider modelId thinkingLevel : jsstr) (streamOptions : option Json.json) (retryPolicy : RetryPolicy)
    : GenerationConfiguration :=
  mkConfiguration provider modelId thinkingLevel (default (Json.j_object []) streamOptions) retryPolicy.

End Generation.
