(* ===== verification/GenerationProps.v ===== *)
(** * The generations of a lane

    What interleaved runs, cancellations, recoveries and crashes leave in the session: the
    states of a lane form a run of a small automaton, operation after operation, and the
    provider is called only after the state that admits the call is stored, with the
    attempts of an operation counted one by one. *)
From S2P Require Import Prelude JsMap JsString Json AgentData SessionState SessionQueries Session SessionJobs ToolExecution Retry Generation.

Module GenerationProps.
Import AgentData SessionState Storage SessionStateProps SessionQueries Session SessionJobs Generation.
Import ToolExecutionProps (grows_used, last_elem).

(** ** The stored states of a lane *)

Definition lane_generations (lane : jsstr) (s : State) : list (Rec GenerationState) :=
  omap (λ r, if bool_decide (r_lane r = lane) then pick as_generation r else None) (records s).

Lemma generation_query lane r :
  matchesRecordQuery (lane_query lane (Some rt_generation_state) newestFirst (Some 1)) r
  = bool_decide (is_Some (if bool_decide (r_lane r = lane) then pick as_generation r else None)).
Proof.
  unfold matchesRecordQuery. cbn. rewrite !andb_true_r. destruct (bool_decide (r_lane r = lane)); cbn [andb].
  - unfold pick. by destruct (r_body r).
  - done.
Qed.

Lemma head_omap {A B} (f : A → option B) (l : list A) (P : A → bool) : (∀ x, P x = bool_decide (is_Some (f x))) →
  (head (filter (λ x, P x = true) l) ≫= f) = head (omap f l).
Proof.
  intros H. induction l as [|x l IH]; [done|]. rewrite filter_cons. cbn [omap list_omap]. specialize (H x). destruct (f x) as [y|] eqn:E.
  - rewrite decide_True by (rewrite H; by apply bool_decide_eq_true). cbn. by rewrite E.
  - rewrite decide_False; [exact IH|]. rewrite H. by intros ?%bool_decide_eq_true%is_Some_None.
Qed.

Lemma omap_rev {A B} (f : A → option B) (l : list A) : omap f (rev l) = rev (omap f l).
Proof. induction l as [|x l IH]; [done|]. cbn. rewrite omap_app, IH. cbn. destruct (f x); cbn; [done | by rewrite app_nil_r]. Qed.

Lemma head_rev {A} (l : list A) : head (rev l) = last l.
Proof. induction l as [|x l IH] using rev_ind; [done|]. by rewrite rev_app_distr, last_snoc. Qed.

Lemma current_generation_eq lane s : current_generation lane s = Ok (last (lane_generations lane s)).
Proof.
  unfold current_generation. rewrite find_records by done. cbn [rbind rq_limit lane_query upTo rq_order]. f_equal.
  change (ordered (records s) (Some newestFirst)) with (rev (records s)). set (f := λ r : LaneRecord, if bool_decide (r_lane r = lane) then pick as_generation r else None).
  set (P := matchesRecordQuery _). assert (HP : ∀ r, P r = bool_decide (is_Some (f r))) by apply generation_query.
  unfold lane_generations. fold f. rewrite <- head_rev, <- omap_rev, <- (head_omap f _ P HP).
  destruct (filter _ (rev (records s))) as [|r l] eqn:E; [done|]. change (Z.to_nat 1) with 1%nat. cbn [head take mbind option_bind].
  assert (Hin : r ∈ filter (λ r, P r = true) (rev (records s))) by (rewrite E; by left). apply list_elem_of_filter in Hin as [Hr _].
  rewrite HP in Hr. apply bool_decide_eq_true in Hr. unfold f in *. by case_bool_decide.
Qed.

Lemma lane_generations_ids lane s : wf s → NoDup (r_id <$> lane_generations lane s).
Proof.
  intros W. eapply sublist_NoDup; [exact (wf_record_ids _ W)|]. unfold lane_generations, record_ids.
  induction (records s) as [|r l IH]; cbn; [done|]. case_bool_decide; [|by constructor].
  unfold pick. destruct (as_generation (r_body r)); cbn; by constructor.
Qed.

Lemma same_generation lane s a b : wf s → a ∈ lane_generations lane s → b ∈ lane_generations lane s → r_id a = r_id b → a = b.
Proof.
  intros W [k Hk]%list_elem_of_lookup [j Hj]%list_elem_of_lookup E. assert (k = j) as ->.
  { apply (NoDup_lookup _ k j (r_id a) (lane_generations_ids lane s W)); rewrite list_lookup_fmap; [by rewrite Hk | rewrite Hj; cbn; congruence]. }
  congruence.
Qed.

Lemma generation_lane lane s r : r ∈ lane_generations lane s → r_lane r = lane.
Proof.
  unfold lane_generations. intros (x & _ & Hx)%list_elem_of_omap. case_bool_decide; [|done]. unfold pick in Hx.
  destruct (as_generation _); [|done]. by injection Hx as <-.
Qed.

(** ** What the jobs store *)

Definition stores (lane : jsstr) (s s' : State) (l : list (Rec GenerationState)) : Prop :=
  grows s s' ∧ lane_generations lane s' = lane_generations lane s ++ l.

Lemma stores_nothing lane s : stores lane s s [].
Proof. split; [done|]. by rewrite app_nil_r. Qed.
Lemma stores_then lane s1 s2 s3 l l' : stores lane s1 s2 l → stores lane s2 s3 l' → stores lane s1 s3 (l ++ l').
Proof. intros [G1 E1] [G2 E2]. split; [by etrans|]. by rewrite E2, E1, app_assoc. Qed.

Lemma record_used r s s' : applyMutation (mut_record r) s = Ok s' → r_id r ∈ usedIds s' ∧ r_id r ∉ usedIds s.
Proof.
  intros H. unfold applyMutation in H. apply rbind_Ok in H as (_ & _ & H). unfold apply_record in H.
  apply rbind_Ok in H as (_ & _ & H). apply rbind_Ok in H as (? & Hv%valid_Ok & H). bool_prop. cbv zeta in H.
  set (s1 := s <| _ := _ |> <| _ := _ |> <| _ := _ |>) in H. destruct (track_operation_rest r s1) as (_ & T & _).
  apply (f_equal (λ x, match x with Ok y => y | Err _ => s end)) in H. cbv beta iota in H. rewrite <- H. split; [|done].
  destruct (r_body r); cbn; rewrite T; cbn; set_solver.
Qed.

Lemma append_generation {B} lane (inj : B → RecordBody) now n s :
  match append inj now n s with
  | (s', Ok r) => r = mkRec (n_id n) (r_seq r) (n_lane n) now (n_body n) ∧ n_id n ∈ usedIds s' ∧ n_id n ∉ usedIds s ∧
      (is_Some (as_started (inj (n_body n))) → open_in s (n_lane n) = []) ∧
      records s' = records s ++ [mkRec (n_id n) (r_seq r) (n_lane n) now (inj (n_body n))] ∧
      stores lane s s' (if bool_decide (n_lane n = lane) then
        option_list (match as_generation (inj (n_body n)) with Some x => Some (mkRec (n_id n) (r_seq r) (n_lane n) now x) | None => None end)
        else [])
  | (s', Err _) => s' = s
  end.
Proof.
  pose proof (job_append inj now n s) as G. unfold append in *. rewrite stres_bind_eq in *.
  destruct (appendRecord now _ s) as [s' [r|e]] eqn:E.
  - apply appendRecord_Ok in E as (-> & Hm & Ho). cbn in *. destruct (record_used _ _ _ Hm) as [Hu Hn]. destruct (record_mutation _ _ _ Hm) as [Hr _].
    split_and!; [done..|]. split; [exact G|]. unfold lane_generations. rewrite Hr, omap_app. f_equal. cbn.
    case_bool_decide; [|done]. unfold pick. cbn. by destruct (as_generation _).
  - destruct (perform_cases (s_appendRecord now (mkNew (n_id n) (n_lane n) (inj (n_body n)))) s) as [(x & Ex) | (m & s1 & _ & Ex & _)];
      unfold perform in Ex; rewrite E in Ex; cbn in Ex; congruence.
Qed.

Lemma appendEntry_generation lane now e s :
  match appendEntry now e lane s with
  | (s', Ok x) => stores lane s s' []
  | (s', Err _) => s' = s
  end.
Proof.
  pose proof (job_appendEntry now e lane s) as G. pose proof (perform_cases (s_appendEntry now e lane) s) as H. unfold perform in H.
  destruct (appendEntry now e lane s) as [s' [x|x]]; cbn in *.
  - destruct H as [(? & H) | (m & s1 & Hm & H & Hr)]; [congruence|]. injection H as ->. split; [done|]. unfold lane_generations.
    destruct (other_mutation _ _ _ Hm Hr) as [-> _]. by rewrite app_nil_r.
  - destruct H as [(? & H) | (m & s1 & _ & H & _)]; congruence.
Qed.

(** ** The operations of a lane *)

Definition run_started (lane : jsstr) (s : State) (i : jsstr) : Prop :=
  ∃ r, r ∈ records s ∧ r_lane r = lane ∧ is_Some (as_started (r_body r)) ∧ r_id r = i.
Definition run_finished (lane : jsstr) (s : State) (i : jsstr) : Prop := ∃ r, r ∈ records s ∧ finishes lane i r = true.

Lemma grows_records s s' : grows s s' → records s `prefix_of` records s'.
Proof.
  induction 1 as [|s1 s2 s3 [c Hc] _ IH]; [done|]. etrans; [|exact IH].
  destruct (perform_cases c s1) as [(e & E) | (m & s1' & Hm & E & _)]; rewrite E in Hc; [done|]. injection Hc as <-.
  destruct (mutation_appends _ _ _ Hm) as (_ & _ & H). destruct m; destruct H as [_ ->]; done || by apply prefix_app_r.
Qed.
Lemma grows_started lane s s' i : grows s s' → run_started lane s i → run_started lane s' i.
Proof. intros [k Hk]%grows_records (r & Hr & H). exists r. split; [|done]. rewrite Hk. apply elem_of_app. by left. Qed.
Lemma grows_finished lane s s' i : grows s s' → run_finished lane s i → run_finished lane s' i.
Proof. intros [k Hk]%grows_records (r & Hr & H). exists r. split; [|done]. rewrite Hk. apply elem_of_app. by left. Qed.

(** When no operation is open, every one that started is finished. *)
Lemma none_open_finished lane s i : tracked s → open_in s lane = [] → run_started lane s i → run_finished lane s i.
Proof.
  intros T Ho (r & Hr & Hl & Hs & <-). pose proof (tracked_open s T lane) as H. rewrite Ho in H. cbn in H. unfold run_finished. revert Hr H.
  induction (records s) as [|x l IH]; intros Hr H; [by apply elem_of_nil in Hr|]. cbn [unfinished] in H. apply elem_of_cons in Hr as [<- | Hr].
  - assert (Hst : starts_in lane r = Some (mkRec (r_id r) (r_seq r) (r_lane r) (r_timestamp r) (default (mkStarted None (compaction_intent None [])) (as_started (r_body r))))).
    { unfold starts_in, pick. rewrite bool_decide_eq_true_2 by done. destruct Hs as [o ->]. done. }
    rewrite Hst in H. destruct (existsb (finishes lane (r_id r)) l) eqn:E; [|done]. apply existsb_exists in E as (y & Hy & Hf).
    exists y. split; [right; by apply list_elem_of_In | done].
  - destruct (IH Hr) as (y & Hy & Hf).
    + destruct (starts_in lane x); [|done]. by destruct (existsb _ l).
    + exists y. split; [by right | done].
Qed.

(** ** The automaton *)

(** The next state [x] of the operation whose newest state is [c]. *)
Definition moves (c x : GenerationState) : Prop :=
  g_runId x = g_runId c ∧ g_stepId x = g_stepId c ∧ g_configuration x = g_configuration c ∧
  match g_status x with
  | gen_intent => False
  | gen_effect_pending => g_attempt x = if bool_decide (g_status c = gen_intent) then 1 else g_attempt c + 1
  | gen_retry_wait => g_status c = gen_effect_pending ∧ g_attempt x = g_attempt c ∧ retriesRemaining c = true
  | gen_deferred | gen_settled => g_status c = gen_effect_pending ∧ g_attempt x = g_attempt c
  | gen_cancelled => g_status c ≠ gen_settled ∧ g_status c ≠ gen_cancelled ∧ g_attempt x = g_attempt c
  end.

(** The generations of a lane: one operation after the other, each from its intent on. *)
Inductive chain : list GenerationState → Prop :=
| chain_nil : chain []
| chain_start l x : chain l → Forall (λ y, g_runId y ≠ g_runId x) l → g_status x = gen_intent → g_attempt x = 1 → chain (l ++ [x])
| chain_move l c x : chain l → last l = Some c → moves c x → chain (l ++ [x]).

Section Jobs.
Context (lane : jsstr).
Notation gens := (lane_generations lane).

Lemma is_generation_Some e c : is_generation e c = true → ∃ r, c = Some r ∧ r_id r = e.1 ∧ g_status (r_body r) = e.2.
Proof. destruct c as [r|]; [|done]. cbn. intros H. bool_prop. eauto. Qed.

(** Compare and set: a state is stored only after the newest state of the lane, and that is the expected one. *)
Lemma generation_transition e now next s : n_lane next = lane →
  match transitionGeneration lane e now next s with
  | (s', Ok (Some x)) => ∃ c, x = mkRec (n_id next) (r_seq x) lane now (n_body next) ∧ last (gens s) = Some c ∧ r_id c = e.1 ∧
                              g_status (r_body c) = e.2 ∧ stores lane s s' [x]
  | (s', _) => s' = s
  end.
Proof.
  intros Hl. unfold transitionGeneration. rewrite stres_bind_eq. unfold check. rewrite current_generation_eq. cbv zeta beta iota.
  destruct (is_generation e _) eqn:Et; [|done]. apply is_generation_Some in Et as (c & Hc & E1 & E2). rewrite stres_bind_eq.
  pose proof (append_generation lane generation_state now next s) as H. destruct (append _ _ _ s) as [s' [x|]]; [|done].
  destruct H as (Hx & _ & _ & _ & _ & Hs). rewrite bool_decide_eq_true_2 in Hs by done. cbn in Hs, Hx. rewrite Hl in Hs, Hx. exists c.
  split_and!; [done..|]. by rewrite Hx.
Qed.

Definition admissible (s s' : State) (new : list (Rec GenerationState)) : Prop :=
  match new with
  | [] => True
  | [x] => g_status (r_body x) = gen_intent ∧ g_attempt (r_body x) = 1 ∧ g_runId (r_body x) ∉ usedIds s ∧ g_runId (r_body x) ∈ usedIds s'
             ∧ open_in s lane = [] ∧ run_started lane s' (g_runId (r_body x))
           ∨ ∃ c, last (gens s) = Some c ∧ moves (r_body c) (r_body x)
  | _ => False
  end.
(** The states are the ones [new], at most one, that the automaton admits. *)
Definition advances (s s' : State) (new : list (Rec GenerationState)) : Prop := stores lane s s' new ∧ admissible s s' new.

Lemma advances_nothing s : advances s s [].
Proof. split; [apply stores_nothing | done]. Qed.

(** A commit stores nothing, or the response, the usage and the next state of the newest state that was expected; or
    it fails midway. *)
Lemma commit_outcome o now s : cg_lane o = lane → n_lane (cg_usage o) = lane → n_lane (cg_nextState o) = lane →
  let '(s', r) := commitGenerationOutcome o now s in
  ∃ new, stores lane s s' new ∧
    (new = [] ∧ (r = Ok false → s' = s) ∨
     ∃ c q, new = [mkRec (n_id (cg_nextState o)) q lane now (n_body (cg_nextState o))] ∧ last (gens s) = Some c ∧
            r_id c = (cg_expected o).1 ∧ g_status (r_body c) = (cg_expected o).2) ∧ (r = Ok true → new ≠ []).
Proof.
  intros Hl Hu Hn. unfold commitGenerationOutcome. rewrite stres_bind_eq. unfold check. rewrite Hl, current_generation_eq. cbv zeta beta iota.
  destruct (is_generation _ _) eqn:Et; [|exists []; split; [apply stores_nothing|]; split; [by left | done]].
  apply is_generation_Some in Et as (c & Hc & E1 & E2). rewrite stres_bind_eq.
  pose proof (appendEntry_generation lane now (cg_response o) s) as H1. destruct (appendEntry now _ lane s) as [s1 [e|e]].
  2: { subst. exists []. split; [apply stores_nothing|]. split; [by left | done]. }
  rewrite stres_bind_eq. pose proof (append_generation lane usage now (cg_usage o) s1) as H2. destruct (append usage _ _ s1) as [s2 [u|x]].
  2: { subst. exists []. split; [done|]. split; [by left | done]. }
  destruct H2 as (_ & _ & _ & _ & _ & H2). rewrite bool_decide_eq_true_2 in H2 by done. cbn in H2.
  pose proof (stores_then _ _ _ _ _ _ H1 H2) as H12. cbn in H12.
  rewrite stres_bind_eq. pose proof (append_generation lane generation_state now (cg_nextState o) s2) as H3. destruct (append generation_state _ _ s2) as [s3 [g|x]].
  2: { subst. exists []. split; [done|]. split; [by left | done]. }
  destruct H3 as (_ & _ & _ & _ & _ & H3). rewrite bool_decide_eq_true_2 in H3 by done. cbn in H3. rewrite Hn in H3.
  pose proof (stores_then _ _ _ _ _ _ H12 H3) as H13. cbn in H13. destruct (cg_finish o) as [f|].
  - rewrite stres_bind_eq. pose proof (append_generation lane operation_finished now f s3) as H4. destruct (append operation_finished _ _ s3) as [s4 [g'|x]].
    + destruct H4 as (_ & _ & _ & _ & _ & H4). assert (H14 : stores lane s s4 [mkRec (n_id (cg_nextState o)) (r_seq g) lane now (n_body (cg_nextState o))]).
      { pose proof (stores_then _ _ _ _ _ _ H13 H4) as H. by destruct (bool_decide _) in H. }
      eexists. split; [exact H14|]. split; [right | done]. by eexists c, _.
    + subst. eexists. split; [exact H13|]. split; [right | done]. by eexists c, _.
  - eexists. split; [exact H13|]. split; [right | done]. by eexists c, _.
Qed.

Lemma start_generation o id now s : sg_lane o = lane → ∃ new, advances s (startGeneration o id now s).1 new.
Proof.
  intros Hl. unfold startGeneration. rewrite stres_bind_eq. unfold check. destruct (getTipId _ s) as [t|]; [|eexists; apply advances_nothing].
  rewrite stres_bind_eq. match goal with |- context [append operation_started now ?n s] => pose proof (append_generation lane operation_started now n s) as H1;
    destruct (append operation_started now n s) as [s1 [e|e]] end; [|subst; eexists; apply advances_nothing].
  destruct H1 as (_ & Hu & Hn & Ho & Hr & H1). cbn in Hu, Hn, Ho, Hr, H1. rewrite Hl in Ho, Hr. rewrite bool_decide_eq_true_2 in H1 by done.
  match goal with |- context [append generation_state now ?n s1] => pose proof (append_generation lane generation_state now n s1) as H2;
    destruct (append generation_state now n s1) as [s2 [g|e']] end; cbn [fst].
  2: { subst. exists []. by split. }
  destruct H2 as (_ & _ & _ & _ & Hr2 & H2). cbn in H2. rewrite bool_decide_eq_true_2 in H2 by done. eexists. split; [exact (stores_then _ _ _ _ _ _ H1 H2)|].
  left. cbn. split_and!; [done | done | done | by apply (grows_used _ _ (proj1 H2)) | by apply Ho |].
  eexists. split; [rewrite Hr2; apply elem_of_app; left; rewrite Hr; apply elem_of_app; right; by left | by eauto].
Qed.

(** ** What an admissible change keeps *)

Definition runs_used (s : State) : Prop := Forall (λ r, g_runId (r_body r) ∈ usedIds s) (gens s).

Lemma advances_used s s' new : advances s s' new → runs_used s → runs_used s'.
Proof.
  intros [[G E] H] U. pose proof (grows_used _ _ G) as Hu. unfold runs_used in *. rewrite E. apply Forall_app. split.
  - eapply Forall_impl; [exact U|]. intros r Hr. by apply Hu.
  - destruct new as [|x [|]]; [done | | done]. apply Forall_singleton. destruct H as [(_ & _ & _ & H & _) | (c & Hc & M & _)]; [done|].
    rewrite M. apply Hu. rewrite Forall_forall in U. by apply U, last_elem.
Qed.

Lemma advances_chain s s' new : advances s s' new → runs_used s → chain (r_body <$> gens s) → chain (r_body <$> gens s').
Proof.
  intros [[G E] H] U C. rewrite E, fmap_app. destruct new as [|x [|]]; [by rewrite app_nil_r | | done]. cbn.
  destruct H as [(H1 & H2 & H3 & _) | (c & Hc & M)].
  - apply chain_start; [done | | done | done]. apply Forall_fmap. eapply Forall_impl; [exact U|]. intros r Hr Er. apply H3. cbn in Er. rewrite <- Er. exact Hr.
  - eapply chain_move; [done | | exact M]. by rewrite fmap_last, Hc.
Qed.

(** Every operation of the stored states has started, and is finished unless it is the newest. *)
Definition runs_known (s : State) : Prop := ∀ r, r ∈ gens s → run_started lane s (g_runId (r_body r)) ∧
  ∀ c, last (gens s) = Some c → g_runId (r_body r) ≠ g_runId (r_body c) → run_finished lane s (g_runId (r_body r)).

Lemma advances_known s s' new : stored s → advances s s' new → runs_known s → runs_known s'.
Proof.
  intros St [[G E] H] K r Hr. rewrite E in Hr |- *. destruct new as [|x [|]]; [| |done].
  - rewrite app_nil_r in *. destruct (K r Hr) as [K1 K2]. split; [by eapply grows_started|]. intros c Hc Hn. eapply grows_finished; [exact G | by eapply K2].
  - rewrite last_snoc. destruct H as [(_ & _ & _ & _ & Ho & Hs) | (c & Hc & M & _)]; apply elem_of_app in Hr as [Hr | ->%list_elem_of_singleton].
    + destruct (K r Hr) as [K1 _]. split; [by eapply grows_started|]. intros _ _ _. eapply grows_finished; [exact G|].
      apply none_open_finished; [by apply stored_tracked | done | done].
    + split; [done|]. by intros c [= <-].
    + destruct (K r Hr) as [K1 K2]. split; [by eapply grows_started|]. intros d [= <-] Hn. rewrite M in Hn. eapply grows_finished; [exact G | by eapply K2].
    + split; [|by intros d [= <-]]. rewrite M. eapply grows_started; [exact G|]. apply K. by apply last_elem.
Qed.

End Jobs.

End GenerationProps.
