(* ===== verification/GenerationRuns.v ===== *)
(** * Generations run when their intent is stored

    The generations of one lane as a transition system: calls of [DurableGeneration] with
    states that the session holds, the awaits of running generations, crashes, and any other
    jobs of the session that store no generation state in the lane. *)
From S2P Require Import Prelude JsMap JsString Json AgentData SessionState SessionQueries Session SessionJobs ToolExecution Retry Generation.
From S2P Require Import GenerationProps.

Module GenerationRuns.
Import AgentData SessionState Storage SessionStateProps SessionQueries Session SessionJobs Generation GenerationProps.
Import ToolExecutionProps (last_elem).

Section Runs.
Context (lane : jsstr).
Notation step := (step lane).
Notation gens := (lane_generations lane).

(** [run] and [cancel] are given states of the session, old or new, and a process runs once. *)
Definition allowed (w : World) (c : call) : Prop :=
  match c with
  | c_run p state _ _ _ => state ∈ gens (session w) ∧ procs w !! p = None
  | c_cancel state _ => state ∈ gens (session w)
  | c_job job => grows (session w) (job (session w)) ∧ gens (job (session w)) = gens (session w)
  | _ => True
  end.

Inductive reachable : World → Prop :=
| reach_new s : stored s → gens s = [] → reachable (mkWorld s ∅ [])
| reach_step w c : reachable w → allowed w c → reachable (step w c).

(** ** The invariant *)

Definition pending_in (s : State) (r : Rec GenerationState) : Prop := r ∈ gens s ∧ g_status (r_body r) = gen_effect_pending.
Definition proc_ok (w : World) (ph : phase) : Prop :=
  match ph with
  | admitted r => pending_in (session w) r ∧ r_id r ∉ r_id <$> calls w
  | calling r => pending_in (session w) r
  end.

Record ok (w : World) : Prop := {
  ok_stored : stored (session w);
  ok_used : runs_used lane (session w);
  ok_known : runs_known lane (session w);
  ok_chain : chain (r_body <$> gens (session w));
  ok_calls : Forall (pending_in (session w)) (calls w);
  ok_once : NoDup (r_id <$> calls w);
  ok_procs : ∀ p ph, procs w !! p = Some ph → proc_ok w ph;
  ok_admitted : ∀ p q a b, procs w !! p = Some (admitted a) → procs w !! q = Some (admitted b) → r_id a = r_id b → p = q }.

Lemma generation_ok_wf w : ok w → wf (session w).
Proof. intros O. apply stored_wf, O. Qed.

(** A change of the session that the automaton admits. *)
Lemma generation_ok_session w s' new : ok w → advances lane (session w) s' new → ok (w <| session := s' |>).
Proof.
  intros [O1 O2 O8 O3 O4 O5 O6 O7] A. pose proof A as [[G E] _].
  assert (Hin : ∀ r, pending_in (session w) r → pending_in s' r).
  { intros r [Hr ?]. split; [|done]. rewrite E. apply elem_of_app. by left. }
  constructor; cbn; try done.
  - revert O1. clear -G. induction G as [|s1 s2 s3 H _ IH]; [done|]. intros St. apply IH. by eapply stored_step.
  - by eapply advances_used.
  - by eapply advances_known.
  - by eapply advances_chain.
  - eapply Forall_impl; [exact O4 | exact Hin].
  - intros p ph Hp. specialize (O6 p ph Hp). destruct ph; cbn in *; [destruct O6; auto | auto].
Qed.

Lemma generation_ok_on_session {A} w (m : M A) : ok w → (∃ new, advances lane (session w) (m (session w)).1 new) → ok (on_session m w).1.
Proof. intros O (new & H). unfold on_session. destruct (m (session w)) as [s' r]. cbn in *. by eapply generation_ok_session. Qed.

Lemma generation_ok_stop w p : ok w → ok (stop p w).
Proof.
  intros [O1 O2 O8 O3 O4 O5 O6 O7]. constructor; cbn; try done.
  - intros q ph [_ Hq]%lookup_delete_Some. by apply (O6 q).
  - intros q r a b [_ Hq]%lookup_delete_Some [_ Hr]%lookup_delete_Some. by eapply O7.
Qed.

(** ** Every step keeps it *)

Lemma stores_of s (next : NewRecord GenerationState) s' x c state :
  wf s → state ∈ gens s → last (gens s) = Some c → r_id c = r_id state → stores lane s s' [x] → r_body x = n_body next →
  moves (r_body state) (n_body next) → advances lane s s' [x].
Proof.
  intros W Hin Hc Hid Hs Hx M. split; [done|]. right. assert (c = state) as -> by (by apply (same_generation lane s); [|apply last_elem|..]).
  exists state. by rewrite Hx.
Qed.

Lemma transition_ok w state now next : ok w → state ∈ gens (session w) → n_lane next = lane → moves (r_body state) (n_body next) →
  let '(s', r) := transitionGeneration lane (expected state) now next (session w) in
  ok (w <| session := s' |>) ∧ match r with Ok (Some x) => x ∈ gens s' ∧ (∀ r, r ∈ gens (session w) → r_id x ≠ r_id r) ∧ r_body x = n_body next | _ => s' = session w end.
Proof.
  intros O Hin Hl M. pose proof (generation_transition lane (expected state) now next (session w) Hl) as H.
  destruct (transitionGeneration _ _ _ _ _) as [s' [[x|]|]]; [|subst; by split; [destruct w|]..].
  destruct H as (c & Hx & Hc & E1 & _ & Hs). assert (Hb : r_body x = n_body next) by (by rewrite Hx).
  assert (A : advances lane (session w) s' [x]) by (by apply (stores_of (session w) next s' x c state); [apply generation_ok_wf|..]).
  pose proof (generation_ok_session _ _ _ O A) as O'. split; [done|]. split_and!; [|..]; [| |done].
  - rewrite (proj2 Hs). apply elem_of_app. right. by apply list_elem_of_singleton.
  - intros r Hr Hid. pose proof (lane_generations_ids lane _ (generation_ok_wf _ O')) as Hn. cbn in Hn. rewrite (proj2 Hs), fmap_app in Hn.
    apply NoDup_app in Hn as (_ & Hd & _). apply (Hd (r_id r)); [apply list_elem_of_fmap; eauto | rewrite <- Hid; by left].
Qed.

Lemma run_moves state resp us : moves (r_body state) (n_body (next_pending state resp us)).
Proof. unfold moves, next_pending. cbn. unfold update_with. cbn. done. Qed.

Lemma generation_run_ok w p state resp us now : ok w → state ∈ gens (session w) → procs w !! p = None → ok (run lane p state resp us now w).1.
Proof.
  intros O Hin Hp. unfold run. destruct (bool_decide _ && _); [done|]. unfold on_session.
  pose proof (transition_ok w state now (next_pending state resp us) O Hin (generation_lane _ _ _ Hin) (run_moves state resp us)) as H.
  destruct (transitionGeneration _ _ _ _ _) as [s' [[x|]|]]; destruct H as [O' H]; [|done..]. destruct H as (Hx & Hnew & Hb).
  assert (Hs : pending_in s' x) by (split; [done|]; by rewrite Hb).
  assert (Hc : r_id x ∉ r_id <$> calls w).
  { intros (e & Hid & He)%list_elem_of_fmap. pose proof (ok_calls _ O) as F. rewrite Forall_forall in F. destruct (F e He) as [Hin' _]. by apply (Hnew e). }
  destruct O' as [O1 O2 O8 O3 O4 O5 O6 O7]. cbn in *. constructor; cbn; try done.
  - intros q ph [[<- <-] | [_ Hq]]%lookup_insert_Some; [done | by apply (O6 q)].
  - intros q r a b [[<- E1] | [_ Hq]]%lookup_insert_Some [[<- E2] | [_ Hr]]%lookup_insert_Some Hid; [done | | |by eapply O7].
    + injection E1 as <-. destruct (O6 _ _ Hr) as [_ Hb']. apply (ok_procs _ O) in Hr as [[Hb'' _] _]. by destruct (Hnew b).
    + injection E2 as <-. apply (ok_procs _ O) in Hq as [[Ha _] _]. by destruct (Hnew a).
Qed.

Lemma cancel_moves state : g_status (r_body state) ≠ gen_settled → g_status (r_body state) ≠ gen_cancelled →
  moves (r_body state) (n_body (same_ids state gen_cancelled None None)).
Proof. done. Qed.

(** A finish stores no generation. *)
Lemma finish_ok w f now : ok w → ok (on_session (append operation_finished now f) w).1.
Proof.
  intros O. apply generation_ok_on_session; [done|]. pose proof (append_generation lane operation_finished now f (session w)) as H.
  destruct (append _ _ _ _) as [s' [x|]]; cbn; [|subst; exists []; apply advances_nothing].
  destruct H as (_ & _ & _ & _ & _ & H). exists []. split; [|done]. cbn in H. by destruct (bool_decide _) in H.
Qed.

Lemma cancel_ok w state now : ok w → state ∈ gens (session w) → ok (cancel lane state now w).1.
Proof.
  intros O Hin. unfold cancel. destruct (bool_decide _ || _) eqn:Hs; [done|]. bool_prop. unfold on_session at 1.
  pose proof (transition_ok w state now (same_ids state gen_cancelled None None) O Hin (generation_lane _ _ _ Hin)) as Ht.
  destruct (transitionGeneration _ _ _ _ _) as [s' r]. destruct Ht as [O' _]; [apply cancel_moves; tauto|].
  destruct r as [[x|]|]; [|done..]. pose proof (finish_ok _ (finishedRecord x o_aborted None) now O') as F.
  by destruct (on_session _ _) as [w' r'].
Qed.

Lemma generation_continue_ok w p aborted now : ok w → ok (continue_run lane p aborted now w).1.
Proof.
  intros O. unfold continue_run. destruct (procs w !! p) as [[r|r]|] eqn:Hp; try done. pose proof (ok_procs _ O _ _ Hp) as [Hr Hn].
  destruct aborted.
  - pose proof (cancel_ok (stop p w) r now (generation_ok_stop _ p O) (proj1 Hr)) as H. by destruct (cancel _ _ _ _).
  - destruct O as [O1 O2 O8 O3 O4 O5 O6 O7]. constructor; cbn; try done.
    + apply Forall_app. split; [done|]. by apply Forall_singleton.
    + rewrite fmap_app. apply NoDup_app. split_and!; [done | | apply NoDup_singleton]. intros i Hi ->%list_elem_of_singleton. done.
    + intros q ph [[<- <-] | [Hq Hph]]%lookup_insert_Some; [done|]. specialize (O6 q ph Hph). destruct ph as [b|]; [|done].
      destruct O6 as [B1 B2]. split; [done|]. cbn. rewrite fmap_app. intros [?|Hb%list_elem_of_singleton]%elem_of_app; [done|]. destruct Hq. by eapply O7.
    + intros q r' a b [[_ ?] | [_ Hq]]%lookup_insert_Some [[_ ?] | [_ Hr']]%lookup_insert_Some; try done. by eapply O7.
Qed.

Lemma generation_commit_ok w state response next finish now : ok w → pending_in (session w) state → n_lane next = lane → moves (r_body state) (n_body next) →
  ok (commit lane state response next finish now w).1.
Proof.
  intros O [Hin Hst] Hl M. apply generation_ok_on_session; [done|]. set (o := mkCommitGeneration _ _ _ _ _ _).
  pose proof (commit_outcome lane o now (session w) eq_refl (generation_lane _ _ _ Hin) Hl) as H.
  destruct (commitGenerationOutcome o now (session w)) as [s' r]. destruct H as (new & Hs & H & _). exists new.
  destruct H as [[-> _] | (c & q & -> & Hc & E1 & E2)]; [by split|]. eapply stores_of; [by apply generation_ok_wf | exact Hin | exact Hc | done | done | done | done].
Qed.

Lemma terminal_moves state t : g_status (r_body state) = gen_effect_pending → moves (r_body state) (n_body (same_ids state (terminal_status t) None None)).
Proof. intros H. destruct t; unfold moves; cbn; rewrite H; done. Qed.
Lemma retry_moves state response now : g_status (r_body state) = gen_effect_pending → retriesRemaining (r_body state) = true →
  moves (r_body state) (n_body (retry_state state response now)).
Proof. intros H1 H2. unfold moves. cbn. by rewrite H1, H2. Qed.

Lemma generation_settle_ok w state response now : ok w → pending_in (session w) state → ok (settle lane state response now w).1.
Proof.
  intros O Hp. pose proof Hp as [Hin Hst].
  assert (Ht : ∀ t, ok (commitTerminal lane state response t now w).1)
    by (intros t; apply generation_commit_ok; [done | done | exact (generation_lane _ _ _ Hin) | by apply terminal_moves]).
  unfold settle. destruct (am_stopReason response); try apply Ht.
  - destruct (Retry.isRetryableAssistantError response && _) eqn:Er; [|apply Ht]. apply andb_true_iff in Er as [_ Er].
    apply generation_commit_ok; [done | done | exact (generation_lane _ _ _ Hin) | by apply retry_moves].
  - destruct (am_deferred response); apply Ht.
Qed.

Lemma generation_step_ok w c : ok w → allowed w c → ok (step w c).
Proof.
  intros O Ha. destruct c as [r resp us id now | p state resp us now | p ab now | p response now | p | state now | | job]; cbn [Generation.step].
  - apply generation_ok_on_session; [done|]. by apply start_generation.
  - destruct Ha. by apply generation_run_ok.
  - by apply generation_continue_ok.
  - unfold answered. destruct (procs w !! p) as [[r|r]|] eqn:Hp; try done. pose proof (ok_procs _ O _ _ Hp) as Hr.
    pose proof (generation_settle_ok (stop p w) r response now (generation_ok_stop _ p O) Hr) as H. by destruct (settle _ _ _ _ _).
  - destruct (procs w !! p) as [[r|r]|]; [done | by apply generation_ok_stop | done].
  - by apply cancel_ok.
  - destruct O as [O1 O2 O8 O3 O4 O5 O6 O7]. constructor; cbn; try done; intros p; by rewrite lookup_empty.
  - destruct Ha as [G E]. apply (generation_ok_session _ _ []); [done|]. split; [|done]. split; [done|]. by rewrite app_nil_r.
Qed.

Lemma generation_runs_ok w : reachable w → ok w.
Proof.
  induction 1 as [s St E | w c _ O Ha]; [|by apply generation_step_ok].
  constructor; cbn; try done; try (unfold runs_used; rewrite E; done || constructor).
  - intros r. rewrite E. by intros ?%elem_of_nil.
  - constructor.
Qed.

(** ** Counting *)

(** The attempts of the states of the operation [i] with the status [st]. *)
Definition marks (st : GenerationStatus) (i : jsstr) (l : list GenerationState) : list Z :=
  g_attempt <$> filter (λ g, g_runId g = i ∧ g_status g = st) l.
Definition marked (st : GenerationStatus) : Prop := st = gen_effect_pending ∨ st = gen_retry_wait.

Lemma marks_snoc st i l x : marks st i (l ++ [x]) = marks st i l ++ (if bool_decide (g_runId x = i ∧ g_status x = st) then [g_attempt x] else []).
Proof. unfold marks. rewrite filter_app, fmap_app, filter_cons. do 2 case_decide; rewrite ?bool_decide_eq_true_2, ?bool_decide_eq_false_2 by done; done. Qed.

Record counted (l : list GenerationState) : Prop := {
  cnt_sorted : ∀ st i, marked st → StronglySorted Z.lt (marks st i l);
  cnt_positive : Forall (λ g, 1 <= g_attempt g ∧ (g_status g = gen_intent → g_attempt g = 1)) l;
  cnt_last : ∀ c, last l = Some c → ∀ st, marked st →
    Forall (λ a, a <= g_attempt c) (marks st (g_runId c) l) ∧ (g_status c = gen_intent → marks st (g_runId c) l = []) ∧
    (g_status c = gen_effect_pending → Forall (λ a, a < g_attempt c) (marks gen_retry_wait (g_runId c) l));
  cnt_same : ∀ x y, x ∈ l → y ∈ l → g_runId x = g_runId y → g_configuration x = g_configuration y;
  cnt_budget : Forall (λ g, g_status g = gen_retry_wait → retriesRemaining g = true) l }.

Lemma marks_positive st i l : Forall (λ g, 1 <= g_attempt g ∧ (g_status g = gen_intent → g_attempt g = 1)) l → Forall (λ a, 1 <= a) (marks st i l).
Proof.
  intros H. unfold marks. apply Forall_fmap, Forall_forall. intros g [_ Hg]%list_elem_of_filter. rewrite Forall_forall in H. by apply H.
Qed.

Lemma marks_fresh st i l : Forall (λ y, g_runId y ≠ i) l → marks st i l = [].
Proof. intros H. unfold marks. induction H as [|y l Hy _ IH]; [done|]. rewrite filter_cons_False; [done|]. by intros [? _]. Qed.

Lemma counted_start l x : counted l → Forall (λ y, g_runId y ≠ g_runId x) l → g_status x = gen_intent → g_attempt x = 1 → counted (l ++ [x]).
Proof.
  intros [C1 C2 C3 C4 C5] Hf Hs Ha.
  assert (Hm : ∀ st i, marked st → marks st i (l ++ [x]) = marks st i l).
  { intros st i Hst. rewrite marks_snoc, bool_decide_eq_false_2, app_nil_r; [done|]. rewrite Hs. intros [_ E]. subst. by destruct Hst. }
  constructor.
  - intros st i Hst. rewrite Hm by done. by apply C1.
  - apply Forall_app. split; [done|]. apply Forall_singleton. split; [lia | done].
  - intros c Hc st Hst. rewrite last_snoc in Hc. injection Hc as <-. rewrite !Hm by (done || by right). rewrite !marks_fresh by done.
    split_and!; [constructor | done | constructor].
  - rewrite Forall_forall in Hf. intros a b [Ha'|Ha'%list_elem_of_singleton]%elem_of_app [Hb|Hb%list_elem_of_singleton]%elem_of_app E; subst; auto.
    + by destruct (Hf a).
    + symmetry in E. by destruct (Hf b).
  - apply Forall_app. split; [done|]. apply Forall_singleton. by rewrite Hs.
Qed.

Lemma counted_move l c x : counted l → last l = Some c → moves c x → counted (l ++ [x]).
Proof.
  intros [C1 C2 C3 C4 C5] Hc (M1 & _ & M2 & M). pose proof (last_elem _ _ Hc) as Hin.
  assert (Hpos : 1 <= g_attempt c ∧ (g_status c = gen_intent → g_attempt c = 1)) by (rewrite Forall_forall in C2; by apply C2). destruct Hpos as [Hpos Hone].
  destruct (C3 c Hc gen_effect_pending ltac:(by left)) as (P1 & P2 & _). destruct (C3 c Hc gen_retry_wait ltac:(by right)) as (R1 & R2 & R3).
  (** No mark of the operation is beyond the new state; at a mark, none is there yet. *)
  assert (Hx : g_attempt c <= g_attempt x ∧ ∀ st, marked st → Forall (λ a, a <= g_attempt x) (marks st (g_runId c) l) ∧
    (g_status x = st → Forall (λ a, a < g_attempt x) (marks st (g_runId c) l))).
  { destruct (g_status x) eqn:Ex; try done.
    - destruct (decide (g_status c = gen_intent)) as [Hi|Hi].
      + rewrite bool_decide_eq_true_2 in M by done. rewrite (Hone Hi). split; [lia|]. intros st [-> | ->]; rewrite ?P2, ?R2 by done; split; constructor.
      + rewrite bool_decide_eq_false_2 in M by done. split; [lia|].
        intros st [-> | ->]; (split; [eapply Forall_impl; [eassumption|]; cbn; lia | intros; eapply Forall_impl; [eassumption|]; cbn; lia]).
    - destruct M as (E & M & _). split; [lia|]. rewrite M. intros st [-> | ->]; [done|]. split; [done | intros _; by apply R3].
    - destruct M as (E & M). split; [lia|]. rewrite M. intros st [-> | ->]; done.
    - destruct M as (_ & _ & M). split; [lia|]. rewrite M. intros st [-> | ->]; done.
    - destruct M as (E & M). split; [lia|]. rewrite M. intros st [-> | ->]; done. }
  destruct Hx as [Hle Hx].
  assert (Hm : ∀ st, marked st → marks st (g_runId x) (l ++ [x]) = marks st (g_runId c) l ++ (if bool_decide (g_status x = st) then [g_attempt x] else [])).
  { intros st _. rewrite marks_snoc, M1. f_equal. by rewrite (bool_decide_ext (g_runId c = g_runId c ∧ g_status x = st) (g_status x = st)) by tauto. }
  constructor.
  - intros st i Hst. destruct (decide (g_runId x = i)) as [<-|Hn].
    + rewrite Hm by done. destruct (Hx st Hst) as [_ Hlt]. destruct (decide (g_status x = st)) as [Es|Es].
      2: { rewrite bool_decide_eq_false_2, app_nil_r by done. by apply C1. }
      rewrite bool_decide_eq_true_2 by done. apply sorted_snoc; [by apply C1|]. specialize (Hlt Es). pose proof (marks_positive st (g_runId c) l C2) as Hp. rewrite Forall_forall in *.
      intros a Ha. specialize (Hlt a Ha). specialize (Hp a Ha). lia.
    + rewrite marks_snoc, bool_decide_eq_false_2, app_nil_r by (by intros [? _]). by apply C1.
  - apply Forall_app. split; [done|]. apply Forall_singleton. split; [lia|]. intros Hi. rewrite Hi in M. done.
  - intros d Hd st Hst. rewrite last_snoc in Hd. injection Hd as <-. rewrite !Hm by (done || by right). destruct (Hx st Hst) as [Hu _].
    split_and!.
    + apply Forall_app. split; [done|]. destruct (bool_decide (g_status x = st)); [|done]. by apply Forall_singleton.
    + intros Hi. rewrite Hi in M. done.
    + intros Hp. rewrite bool_decide_eq_false_2, app_nil_r by congruence. rewrite Hp in M. destruct (decide (g_status c = gen_intent)) as [Hi|Hi].
      * rewrite R2 by done. constructor.
      * rewrite bool_decide_eq_false_2 in M by done. eapply Forall_impl; [exact R1|]. cbn. lia.
  - intros a b [Ha|Ha%list_elem_of_singleton]%elem_of_app [Hb|Hb%list_elem_of_singleton]%elem_of_app E; subst; [auto | | | done].
    + rewrite M2. apply C4; [done | done | congruence].
    + rewrite M2. apply C4; [done | done | congruence].
  - apply Forall_app. split; [done|]. apply Forall_singleton. intros Er. rewrite Er in M. destruct M as (_ & Ea & Eb).
    unfold retriesRemaining in *. by rewrite M2, Ea.
Qed.

Lemma chain_counted l : chain l → counted l.
Proof.
  induction 1 as [|l x _ IH Hf Hs Ha|l c x _ IH Hc M]; [|by apply counted_start | by eapply counted_move].
  constructor; [constructor | constructor | done | | constructor]. intros x y Hx. by apply elem_of_nil in Hx.
Qed.

Lemma sorted_length (l : list Z) lo hi : StronglySorted Z.lt l → Forall (λ a, lo < a <= hi) l → zlen l <= Z.max 0 (hi - lo).
Proof.
  intros H. revert lo. induction H as [|a l _ IH Ha]; intros lo Hf; [unfold zlen; cbn; lia|]. apply Forall_cons in Hf as [Hlo Hf].
  rewrite zlen_cons. assert (zlen l <= Z.max 0 (hi - a)); [|lia]. apply IH. rewrite Forall_forall in *. intros b Hb. specialize (Ha b Hb). specialize (Hf b Hb). lia.
Qed.

Lemma marks_count st i (k : list (Rec GenerationState)) :
  zlen (filter (λ x, g_runId (r_body x) = i ∧ g_status (r_body x) = st) k) = zlen (marks st i (r_body <$> k)).
Proof.
  unfold marks. induction k as [|x k IH]; [done|]. cbn [fmap list_fmap]. rewrite !filter_cons.
  destruct (decide (g_runId (r_body x) = i ∧ g_status (r_body x) = st)); cbn [fmap list_fmap]; rewrite ?zlen_cons; [by f_equal | exact IH].
Qed.

Lemma marks_unique l : chain l → ∀ k j a b, l !! k = Some a → l !! j = Some b → g_runId a = g_runId b → g_status a = gen_effect_pending →
  g_status b = gen_effect_pending → g_attempt a = g_attempt b → k = j.
Proof.
  intros C. pose proof (chain_counted _ C) as [S _ _ _ _]. intros k j a b Hk Hj Hr Ha Hb E. specialize (S gen_effect_pending (g_runId a) ltac:(by left)).
  revert k j Hk Hj S. clear C. induction l as [|x l IH]; intros k j Hk Hj S; [done|]. unfold marks in *.
  assert (Hin : ∀ (i : nat) y, l !! i = Some y → g_runId y = g_runId a → g_status y = gen_effect_pending →
    g_attempt y ∈ g_attempt <$> filter (λ g, g_runId g = g_runId a ∧ g_status g = gen_effect_pending) l).
  { intros i y Hi Hy1 Hy2. apply list_elem_of_fmap. exists y. split; [done|]. apply list_elem_of_filter. split; [done|]. by eapply list_elem_of_lookup_2. }
  rewrite filter_cons in S. destruct k as [|k], j as [|j]; cbn in Hk, Hj; [done | | |].
  - injection Hk as ->. rewrite decide_True in S by done. cbn in S. inversion S as [|? ? _ Hlt]; subst. rewrite Forall_forall in Hlt.
    specialize (Hlt _ (Hin j b Hj (eq_sym Hr) Hb)). lia.
  - injection Hj as ->. rewrite decide_True in S by done. cbn in S. inversion S as [|? ? _ Hlt]; subst. rewrite Forall_forall in Hlt.
    specialize (Hlt _ (Hin k a Hk eq_refl Ha)). lia.
  - f_equal. apply IH; [done..|]. case_decide; [|done]. by inversion S.
Qed.

(** ** Theorems *)

(** C18. The provider is called once per stored attempt: in every reachable state, whatever runs are interleaved, cancelled,
    repeated or cut off by crashes, each call was admitted by an "effect_pending" state that the session stores, no state
    admitted two calls, and no two calls of an operation have the same attempt. *)
Theorem provider_calls_are_counted w : reachable w →
  Forall (λ e, e ∈ gens (session w) ∧ g_status (r_body e) = gen_effect_pending) (calls w) ∧ NoDup (r_id <$> calls w) ∧
  ∀ a b, a ∈ calls w → b ∈ calls w → g_runId (r_body a) = g_runId (r_body b) → g_attempt (r_body a) = g_attempt (r_body b) → a = b.
Proof.
  intros R. pose proof (generation_runs_ok w R) as O. split_and!; [apply O | apply O |]. intros a b Ha Hb Hr E.
  pose proof (ok_calls _ O) as F. rewrite Forall_forall in F. destruct (F a Ha) as [Ia Sa], (F b Hb) as [Ib Sb].
  apply list_elem_of_lookup in Ia as [k Hk], Ib as [j Hj].
  assert (k = j); [|congruence]. eapply (marks_unique _ (ok_chain _ O) k j); [by rewrite list_lookup_fmap, Hk | by rewrite list_lookup_fmap, Hj | done..].
Qed.

(** C19. Retries stay within the budget of the operation: across all runs, resumptions and crashes, the number of retries that an
    operation schedules is at most the "maxRetries" of its configuration, and zero when retrying is disabled. *)
Theorem retries_stay_within_budget w r : reachable w → r ∈ gens (session w) →
  let policy := gc_retryPolicy (g_configuration (r_body r)) in
  zlen (filter (λ x, g_runId (r_body x) = g_runId (r_body r) ∧ g_status (r_body x) = gen_retry_wait) (gens (session w)))
    <= if rp_enabled policy then Z.max 0 (rp_maxRetries policy) else 0.
Proof.
  intros R Hr policy. pose proof (generation_runs_ok w R) as O. set (l := r_body <$> gens (session w)).
  pose proof (chain_counted l (ok_chain _ O)) as [S P _ C B]. set (i := g_runId (r_body r)).
  assert (E : zlen (filter (λ x, g_runId (r_body x) = i ∧ g_status (r_body x) = gen_retry_wait) (gens (session w))) = zlen (marks gen_retry_wait i l)).
  { apply marks_count. }
  rewrite E. assert (Hb : ∀ g, g ∈ l → g_runId g = i → g_status g = gen_retry_wait → rp_enabled policy = true ∧ 1 <= g_attempt g <= rp_maxRetries policy).
  { intros g Hg Hi Hs. rewrite Forall_forall in B, P. specialize (B g Hg Hs). destruct (P g Hg) as [? _]. unfold retriesRemaining in B.
    rewrite (C g (r_body r)) in B by (done || apply list_elem_of_fmap; eauto). fold policy in B. apply andb_true_iff in B as [? B]. split; [done | lia]. }
  destruct (rp_enabled policy) eqn:Ep.
  - transitivity (Z.max 0 (rp_maxRetries policy - 0)); [|lia]. apply sorted_length; [by apply S; right|].
    unfold marks. apply Forall_fmap, Forall_forall. intros g [[Hi Hs] Hg]%list_elem_of_filter. destruct (Hb g Hg Hi Hs) as [_ [? ?]]. split; [apply Z.lt_le_trans with 1; [done | assumption] | assumption].
  - assert (marks gen_retry_wait i l = []) as ->; [|done]. unfold marks. destruct (filter _ l) as [|g f] eqn:Ef; [done|].
    assert (Hg : g ∈ filter (λ g, g_runId g = i ∧ g_status g = gen_retry_wait) l) by (rewrite Ef; by left).
    apply list_elem_of_filter in Hg as [[Hi Hs] Hg]. by destruct (Hb g Hg Hi Hs).
Qed.

End Runs.
End GenerationRuns.

(** * How a response settles a generation

    The whole outcome of a response that arrives for the newest state of its lane, branch by
    branch, and that a response for any other state changes nothing. *)

Module GenerationSettle.
Import AgentData SessionState Storage SessionStateProps SessionQueries Session SessionJobs Generation GenerationProps.

(** ** Appends that succeed *)

Definition in_lane (lane : jsstr) (tip : option jsstr) (s : State) : Prop := wf s ∧ mget lane (lanes s) = Some tip.

(** The newest entry, one more record. *)
Definition with_record (s s' : State) (r : LaneRecord) : Prop :=
  entries s' = entries s ∧ records s' = records s ++ [r] ∧ lanes s' = lanes s ∧ usedIds s' = {[r_id r]} ∪ usedIds s ∧ wf s'.

Lemma record_applies r s : wf s → r_seq r = nextSequence s → mhas (r_lane r) (lanes s) = true → r_id r ∉ usedIds s →
  ∃ s', applyMutation (mut_record r) s = Ok s' ∧ with_record s s' r.
Proof.
  intros W Hq Hl Hi.
  assert (Hm : ∃ s', applyMutation (mut_record r) s = Ok s' ∧ entries s' = entries s ∧ records s' = records s ++ [r] ∧ lanes s' = lanes s ∧
    usedIds s' = {[r_id r]} ∪ usedIds s).
  { unfold applyMutation. cbn [mutation_seq]. rewrite Hq. unfold nextSequence. rewrite Z.eqb_refl. cbn [valid rbind].
    unfold apply_record. rewrite Hl. cbn [valid rbind]. rewrite bool_decide_eq_false_2 by done. cbn [negb valid rbind]. cbv zeta.
    set (s1 := s <| _ := _ |> <| _ := _ |> <| _ := _ |>). destruct (track_operation_rest r s1) as (_ & T2 & T3 & _ & T5 & T6 & _).
    eexists. split; [reflexivity|]. destruct (r_body r); cbn; rewrite ?T2, ?T3, ?T5, ?T6; done. }
  destruct Hm as (s' & Hm & H1 & H2 & H3 & H4). exists s'. split; [done|]. split_and!; [done..|]. by eapply apply_mutation_wf.
Qed.

Lemma append_applies {B} (inj : B → RecordBody) now n lane tip s : in_lane lane tip s → n_lane n = lane → n_id n ∉ usedIds s → as_started (inj (n_body n)) = None →
  ∃ s' q, append inj now n s = (s', Ok (mkRec (n_id n) q lane now (n_body n))) ∧ with_record s s' (mkRec (n_id n) q lane now (inj (n_body n))).
Proof.
  intros [W Hl] <- Hi Hs. destruct (record_applies (mkRec (n_id n) (nextSequence s) (n_lane n) now (inj (n_body n))) s W eq_refl) as (s' & Hm & Hr).
  { unfold mhas. cbn. by rewrite Hl. }
  { done. }
  exists s', (nextSequence s). split; [|done]. unfold append, appendRecord, requireLane. rewrite stres_bind_eq, stres_bind_eq. cbn [n_lane n_id n_body]. unfold check at 1. rewrite Hl.
  rewrite stres_bind_eq. unfold check at 1, validateUnusedId, require. rewrite bool_decide_eq_false_2 by done. cbn [negb guard_err].
  rewrite stres_bind_eq. unfold check, findOpenOperations. cbn [rbind]. replace (assertValidLimit (Some 1)) with (Ok (E := SessionError) ()) by done. cbn [rbind].
  destruct (take _ _) as [|o l]; [|destruct (inj (n_body n)) eqn:Eb; [done|..]];
    rewrite stres_bind_eq; cbn [get]; rewrite stres_bind_eq; unfold apply; by rewrite Hm.
Qed.

Lemma entry_applies now e lane tip s : in_lane lane tip s → p_id e ∉ usedIds s →
  ∃ s' q, let entry := mkEntry (p_id e) q tip now (p_body e) in
    appendEntry now e lane s = (s', Ok entry) ∧ entries s' = entries s ++ [entry] ∧ records s' = records s ∧
    mget lane (lanes s') = Some (Some (p_id e)) ∧ usedIds s' = {[p_id e]} ∪ usedIds s ∧ wf s'.
Proof.
  intros [W Hl] Hi. set (entry := mkEntry (p_id e) (nextSequence s) tip now (p_body e)).
  assert (Hk : known tip s = true) by (by eapply lane_known).
  assert (Hm : ∃ s', applyMutation (mut_entry (Some lane) entry) s = Ok s' ∧ entries s' = entries s ++ [entry] ∧ records s' = records s ∧
    lanes s' = mset lane (Some (p_id e)) (lanes s) ∧ usedIds s' = {[p_id e]} ∪ usedIds s).
  { unfold applyMutation. cbn [mutation_seq e_seq entry]. unfold nextSequence. rewrite Z.eqb_refl. cbn [valid rbind]. unfold apply_entry. cbn [e_id e_parentId entry].
    rewrite bool_decide_eq_false_2, Hl by done. cbn [negb valid rbind]. rewrite bool_decide_eq_true_2 by done. cbn [valid rbind]. rewrite Hk. cbn [valid rbind].
    eexists. split; [reflexivity|]. destruct (bool_decide _); cbn; done. }
  destruct Hm as (s' & Hm & H1 & H2 & H3 & H4). exists s', (nextSequence s). cbv zeta. split_and!; [|done..| |done|].
  - unfold appendEntry, requireLane. rewrite stres_bind_eq. unfold check at 1. rewrite Hl. rewrite stres_bind_eq. unfold check at 1, validateUnusedId, require.
    rewrite bool_decide_eq_false_2 by done. cbn [negb guard_err]. rewrite stres_bind_eq. cbn [get]. rewrite stres_bind_eq. unfold apply. fold entry. by rewrite Hm.
  - rewrite H3, mget_mset. by rewrite decide_True.
  - by eapply apply_mutation_wf.
Qed.

(** ** Commits *)

(** What a commit of the newest state stores. *)
Definition committed (s s' : State) (lane : jsstr) (tip : option jsstr) (now : Z) (o : CommitGeneration) : Prop :=
  (∃ q, entries s' = entries s ++ [mkEntry (p_id (cg_response o)) q tip now (p_body (cg_response o))]) ∧
  mget lane (lanes s') = Some (Some (p_id (cg_response o))) ∧
  ∃ q1 q2 rs, records s' = records s ++ [mkRec (n_id (cg_usage o)) q1 lane now (usage (n_body (cg_usage o)));
                                         mkRec (n_id (cg_nextState o)) q2 lane now (generation_state (n_body (cg_nextState o)))] ++ rs ∧
    match cg_finish o with
    | Some f => ∃ q3, rs = [mkRec (n_id f) q3 lane now (operation_finished (n_body f))]
    | None => rs = []
    end.

Definition commit_ids (o : CommitGeneration) : list jsstr :=
  [p_id (cg_response o); n_id (cg_usage o); n_id (cg_nextState o)] ++ option_list (n_id <$> cg_finish o).

Lemma commit_applies o lane tip now s c : in_lane lane tip s → cg_lane o = lane → n_lane (cg_usage o) = lane → n_lane (cg_nextState o) = lane →
  match cg_finish o with Some f => n_lane f = lane | None => True end → last (lane_generations lane s) = Some c →
  cg_expected o = (r_id c, g_status (r_body c)) → NoDup (commit_ids o) → Forall (λ i, i ∉ usedIds s) (commit_ids o) →
  ∃ s', commitGenerationOutcome o now s = (s', Ok true) ∧ committed s s' lane tip now o.
Proof.
  intros I Hl Hu Hn Hf Hc He Hd Hfr. unfold commitGenerationOutcome. rewrite stres_bind_eq. unfold check. rewrite Hl, current_generation_eq. cbv zeta beta iota.
  rewrite He, Hc. unfold is_generation. cbn [fst snd]. rewrite !bool_decide_eq_true_2 by done. cbn [andb].
  unfold commit_ids in Hd, Hfr. cbn [app] in Hd, Hfr. apply NoDup_cons in Hd as [D1 Hd]. apply NoDup_cons in Hd as [D2 Hd]. apply NoDup_cons in Hd as [D3 _].
  apply Forall_cons in Hfr as [F1 Hfr]. apply Forall_cons in Hfr as [F2 Hfr]. apply Forall_cons in Hfr as [F3 F4].
  rewrite !not_elem_of_cons in D1. rewrite !not_elem_of_cons in D2.
  destruct (entry_applies now (cg_response o) lane tip s I F1) as (s1 & q0 & E1 & A1 & A2 & A3 & A4 & W1). cbn in E1.
  rewrite stres_bind_eq, E1. assert (I1 : in_lane lane (Some (p_id (cg_response o))) s1) by done.
  destruct (append_applies usage now (cg_usage o) lane _ s1 I1 Hu) as (s2 & q1 & E2 & B1 & B2 & B3 & B4 & W2); [rewrite A4, elem_of_union, elem_of_singleton; intuition congruence | done |].
  rewrite stres_bind_eq, E2. assert (I2 : in_lane lane (Some (p_id (cg_response o))) s2) by (split; [done | by rewrite B3]).
  destruct (append_applies generation_state now (cg_nextState o) lane _ s2 I2 Hn) as (s3 & q2 & E3 & C1 & C2 & C3 & C4 & W3).
  { rewrite B4, A4, !elem_of_union, !elem_of_singleton. cbn [r_id]. intuition congruence. }
  { done. }
  rewrite stres_bind_eq, E3. assert (I3 : in_lane lane (Some (p_id (cg_response o))) s3) by (split; [done | by rewrite C3, B3]).
  assert (Hall : entries s3 = entries s1 ∧ records s3 = records s ++ [mkRec (n_id (cg_usage o)) q1 lane now (usage (n_body (cg_usage o)));
    mkRec (n_id (cg_nextState o)) q2 lane now (generation_state (n_body (cg_nextState o)))]).
  { split; [congruence|]. by rewrite C2, B2, A2, <- app_assoc. }
  destruct Hall as [Hen Hre]. unfold committed. destruct (cg_finish o) as [f|].
  - cbn in D1, D2, D3, F4. apply Forall_cons in F4 as [F4 _]. destruct (append_applies operation_finished now f lane _ s3 I3 Hf) as (s4 & q3 & E4 & G1 & G2 & G3 & G4 & W4).
    { rewrite C4, B4, A4, !elem_of_union, !elem_of_singleton. cbn [r_id]. rewrite !list_elem_of_singleton in *. intuition congruence. }
    { done. }
    rewrite stres_bind_eq, E4. exists s4. split; [done|]. split_and!.
    + exists q0. by rewrite G1, Hen.
    + rewrite G3. apply I3.
    + exists q1, q2. eexists. split; [by rewrite G2, Hre, <- app_assoc | eauto].
  - exists s3. split; [done|]. split_and!; [exists q0; by rewrite Hen | apply I3 |]. exists q1, q2, []. by rewrite app_nil_r.
Qed.

(** ** Theorems *)

(** The identifiers of the records that settling [state] may store are new. *)
Definition fresh_ids (state : Rec GenerationState) (s : State) : Prop :=
  ∀ st, st ≠ gen_effect_pending → let ids := [g_responseEntryId (r_body state); g_usageId (r_body state); n_id (same_ids state st None None); finish_id (r_body state)] in
    NoDup ids ∧ Forall (λ i, i ∉ usedIds s) ids.

(** The next state and the end of the operation that an answer stands for. *)
Definition answer_means (state : Rec GenerationState) (response : AssistantMessage) (now : Z) (a : GenerationWait)
    (next : GenerationState) (finish : option Outcome) : Prop :=
  let transient := Retry.isRetryableAssistantError response = true ∧ retriesRemaining (r_body state) = true in
  match a with
  | waiting_retry t => am_stopReason response = stop_error ∧ transient ∧ t = Some (now + retryDelay (r_body state)) ∧
      g_status next = gen_retry_wait ∧ g_notBefore next = t ∧ finish = None
  | waiting_deferred d => am_stopReason response = stop_deferred ∧ d = am_deferred response ∧ d ≠ None ∧ g_status next = gen_deferred ∧ finish = None
  | w_completed r => r = response ∧ am_stopReason response ∉ [stop_aborted; stop_error; stop_deferred] ∧ g_status next = gen_settled ∧ finish = Some o_completed
  | w_failed r => r = response ∧ (am_stopReason response = stop_error ∧ ¬ transient ∨ am_stopReason response = stop_deferred ∧ am_deferred response = None) ∧
      g_status next = gen_settled ∧ finish = Some o_failed
  | w_cancelled r => r = Some response ∧ am_stopReason response = stop_aborted ∧ g_status next = gen_cancelled ∧ finish = Some o_aborted
  end.

Lemma commit_in_lane lane state tip response next finish now w : in_lane lane tip (session w) → last (lane_generations lane (session w)) = Some state →
  g_status (r_body state) = gen_effect_pending → fresh_ids state (session w) → (∃ st, st ≠ gen_effect_pending ∧ n_id next = n_id (same_ids state st None None)) → n_lane next = r_lane state →
  match finish with Some f => n_id f = finish_id (r_body state) ∧ n_lane f = r_lane state | None => True end →
  let o := mkCommitGeneration lane (r_id state, gen_effect_pending) (messageEntry response (g_responseEntryId (r_body state))) (usageRecord state response) next finish in
  ∃ s', commit lane state response next finish now w = (w <| session := s' |>, Ok true) ∧ committed (session w) s' lane tip now o.
Proof.
  intros I Hc Hs Hf (st & Hst & Hi) Hnl Hfl o. assert (Hl : r_lane state = lane) by (apply (generation_lane _ (session w)); by apply ToolExecutionProps.last_elem).
  destruct (commit_applies o lane tip now (session w) state I) as (s' & E & Hs').
  - done.
  - done.
  - by cbn; rewrite Hnl.
  - destruct finish; cbn; [|done]. destruct Hfl. congruence.
  - done.
  - cbn. by rewrite Hs.
  - unfold commit_ids. cbn. rewrite Hi. destruct (Hf st Hst) as [Hd _]. cbn zeta in Hd. destruct finish as [f|]; cbn; [by destruct Hfl as [-> _]|].
    apply (NoDup_app [_; _; _] [_]) in Hd. apply Hd.
  - unfold commit_ids. cbn. rewrite Hi. destruct (Hf st Hst) as [_ Hd]. cbn zeta in Hd. destruct finish as [f|]; cbn; [by destruct Hfl as [-> _]|].
    apply (Forall_app _ [_; _; _] [_]) in Hd. apply Hd.
  - exists s'. split; [|done]. unfold commit, on_session. fold o. by rewrite E.
Qed.

(** C17. A response settles its generation: for the newest state of the lane, while its effect is pending, the session stores the
    response as the entry that was reserved for it at the tip of the lane, its usage, the next state and, exactly if the
    answer is final, the end of the operation; the answer, the state and the outcome are the ones of its stop
    reason, and a transient error waits for a retry only within the budget.  For any other state nothing is stored and
    the answer is to wait. *)
Theorem response_settles_generation lane tip state response now w : in_lane lane tip (session w) → state ∈ lane_generations lane (session w) →
  g_status (r_body state) = gen_effect_pending → fresh_ids state (session w) →
  let '(w', r) := settle lane state response now w in
  (last (lane_generations lane (session w)) = Some state →
    ∃ a next finish, r = Ok a ∧ answer_means state response now a (n_body next) finish ∧
      committed (session w) (session w') lane tip now
        (mkCommitGeneration lane (r_id state, gen_effect_pending) (messageEntry response (g_responseEntryId (r_body state))) (usageRecord state response)
           next ((λ o, finishedRecord state o (Some response)) <$> finish))) ∧
  (last (lane_generations lane (session w)) ≠ Some state → w' = w ∧ (r = Ok (waiting_retry None) ∨ r = Ok (waiting_deferred None))).
Proof.
  intros I Hin Hs Hf.
  assert (Hold : last (lane_generations lane (session w)) ≠ Some state → ∀ next finish, commit lane state response next finish now w = (w, Ok false)).
  { intros Hne next finish. unfold commit, on_session, commitGenerationOutcome. rewrite stres_bind_eq. unfold check. cbn [cg_lane]. rewrite current_generation_eq.
    cbv zeta beta iota. cbn [cg_expected]. destruct (last _) as [c|] eqn:El; [|by destruct w]. unfold is_generation. cbn [fst snd].
    destruct (decide (r_id c = r_id state)) as [E|E].
    - destruct Hne. f_equal. apply (same_generation lane (session w)); [apply I | by apply ToolExecutionProps.last_elem | done | done].
    - rewrite bool_decide_eq_false_2 by done. cbn [andb]. by destruct w. }
  assert (Hnew : last (lane_generations lane (session w)) = Some state → ∀ next finish, (∃ st, st ≠ gen_effect_pending ∧ n_id next = n_id (same_ids state st None None)) → n_lane next = r_lane state →
    ∃ s', commit lane state response next ((λ o, finishedRecord state o (Some response)) <$> finish) now w = (w <| session := s' |>, Ok true) ∧
      committed (session w) s' lane tip now (mkCommitGeneration lane (r_id state, gen_effect_pending) (messageEntry response (g_responseEntryId (r_body state)))
        (usageRecord state response) next ((λ o, finishedRecord state o (Some response)) <$> finish))).
  { intros Hc next finish Hi Hl. apply commit_in_lane; try done. by destruct finish. }
  destruct (settle lane state response now w) as [w' r] eqn:E. split; intros Hc; [specialize (Hnew Hc); clear Hold | specialize (Hold Hc); clear Hnew].
  - assert (Ht : ∀ t yes no, (∀ next, g_status next = terminal_status t → answer_means state response now yes next (terminal_outcome t)) →
      ((commitTerminal lane state response t now w).1, let* c := (commitTerminal lane state response t now w).2 in Ok (if c : bool then yes else no)) = (w', r) →
      ∃ a next finish, r = Ok a ∧ answer_means state response now a (n_body next) finish ∧
        committed (session w) (session w') lane tip now (mkCommitGeneration lane (r_id state, gen_effect_pending)
          (messageEntry response (g_responseEntryId (r_body state))) (usageRecord state response) next ((λ o, finishedRecord state o (Some response)) <$> finish))).
    { intros t yes no Hy Ec. destruct (Hnew (same_ids state (terminal_status t) None None) (terminal_outcome t) ltac:(eexists; split; [|reflexivity]; by destruct t) eq_refl) as (s' & E' & Hs').
      unfold commitTerminal in Ec. rewrite E' in Ec. injection Ec as <- <-. exists yes, (same_ids state (terminal_status t) None None), (terminal_outcome t).
      split_and!; [done | by apply Hy | exact Hs']. }
    unfold settle in E. destruct (am_stopReason response) eqn:Er.
    all: try (eapply Ht; [|exact E]; intros next Hn; cbn; rewrite Er, Hn; split_and!; try done; rewrite !not_elem_of_cons; split_and!; try done; apply not_elem_of_nil).
    + destruct (Retry.isRetryableAssistantError response && retriesRemaining (r_body state)) eqn:Et.
      * apply andb_true_iff in Et. destruct (Hnew (retry_state state response now) None) as (s' & E' & Hs'); [by exists gen_retry_wait | done |].
        cbn [fmap option_fmap option_map] in E', Hs'. cbv zeta in E. rewrite E' in E. injection E as <- <-. eexists _, (retry_state state response now), None.
        split; [reflexivity|]. split; [|exact Hs']. cbn. rewrite Er. split_and!; try done; apply Et.
      * eapply Ht; [|exact E]. intros next Hn. cbn. rewrite Er, Hn. split_and!; try done. left. split; [done|]. intros [E1 E2]. by rewrite E1, E2 in Et.
    + destruct (am_deferred response) as [d|] eqn:Ed; (eapply Ht; [|exact E]); intros next Hn; cbn; rewrite Er, Hn; split_and!; try done; by right.
  - unfold settle, commitTerminal in E. rewrite !Hold in E. cbn in E.
    destruct (am_stopReason response); [..|destruct (am_deferred response)]; try (injection E as <- <-; auto).
    destruct (_ && _); injection E as <- <-; auto.
Qed.

End GenerationSettle.
