(* ===== verification/OperationBoundary.v ===== *)
(** * The boundary of an operation

    Models [agent/src/harness/operation-boundary.ts]: what a lane reports about one of its
    operations, and how an interrupted operation is to be recovered.  Its other methods are
    the jobs of [Session] under their own names. *)
From S2P Require Import Prelude JsMap JsString Json AgentData SessionState SessionQueries Session SessionJobs ToolExecution Retry Generation.
From S2P Require Import GenerationProps GenerationRuns.

Module OperationBoundary.
Import AgentData SessionState Session.

Inductive OperationTerminalStatus := ts_completed | ts_failed | ts_cancelled | ts_declined.
Record OperationResult := mkOperationResult { operationId : jsstr; status : OperationTerminalStatus; outcome : Outcome; endedAt : Z }.

Inductive Phase := ph_starting | ph_running | ph_waiting | ph_cancellation_requested | ph_interrupted.
#[export] Instance Phase_eq : EqDecision Phase.
Proof. solve_decision. Defined.
Inductive OperationObservation :=
| ob_unknown (operationId : jsstr)
| ob_pending (operationId : jsstr) (operation : Rec OperationStarted) (phase : Phase)
| ob_terminal (operationId : jsstr) (r : OperationResult).

Inductive RecoveryAction :=
| ra_unknown (operationId : jsstr)
| resume_generation (state : Rec GenerationState)
| resume_tool (state : Rec ToolExecutionState)
| materialize_tool (state : Rec ToolExecutionState)
| reconcile_cancellation (operationId : jsstr)
| ra_wait_retry (operationId : jsstr)
| ra_wait_deferred (operationId : jsstr)
| ra_terminal (r : OperationResult)
| ra_interrupted (operationId : jsstr).  (** the reason is always "unsafe_tool_effect" *)

Definition terminalStatus (o : Outcome) : OperationTerminalStatus :=
  match o with o_completed => ts_completed | o_failed => ts_failed | o_aborted => ts_cancelled | o_declined => ts_declined end.
Definition result_of (r : Rec OperationFinished) : OperationResult :=
  mkOperationResult (of_runId (r_body r)) (terminalStatus (of_outcome (r_body r))) (of_outcome (r_body r)) (r_timestamp r).

Section Boundary.
Context (lane : jsstr).

(** The records of one type, of an operation if one is given, as that type. *)
Definition typed {B} (t : RecordType) (f : RecordBody → option B) (run : option jsstr) (s : State) : result SessionError (list (Rec B)) :=
  let* l := queryRecords (mkRecordQuery (Some lane) (Some t) run None None (Some oldestFirst) None) s in Ok (omap (pick f) l).
Definition latest {B} (l : list B) : option B := last l.

Definition as_abort (b : RecordBody) : option jsstr := match b with abort_requested r => Some r | _ => None end.
Definition generation_of (op : jsstr) (s : State) : result SessionError (option (Rec GenerationState)) :=
  let* l := typed rt_generation_state as_generation (Some op) s in Ok (latest l).
Definition tool_of (op : jsstr) (s : State) : result SessionError (option (Rec ToolExecutionState)) :=
  let* l := typed rt_tool_execution_state as_tool_state (Some op) s in Ok (latest l).

Definition observe (op : jsstr) (s : State) : result SessionError OperationObservation :=
  let* starts := typed rt_operation_started as_started None s in
  match find (λ r, bool_decide (r_id r = op)) starts with
  | None => Ok (ob_unknown op)
  | Some started =>
      let* finished := typed rt_operation_finished as_finished (Some op) s in
      match latest finished with
      | Some f => Ok (ob_terminal op (result_of f))
      | None =>
          let* aborts := typed rt_abort_requested as_abort (Some op) s in
          match latest aborts with
          | Some _ => Ok (ob_pending op started ph_cancellation_requested)
          | None =>
              let* generation := generation_of op s in
              let waits := match generation with
                           | Some g => bool_decide (g_status (r_body g) = gen_retry_wait) || bool_decide (g_status (r_body g) = gen_deferred)
                           | None => false
                           end in
              if waits then Ok (ob_pending op started ph_waiting)
              else
                let* tool := tool_of op s in
                let unsafe := match tool with
                              | Some t => bool_decide (x_status (r_body t) = x_effect_pending) && bool_decide (x_replay (r_body t) = never)
                              | None => false
                              end in
                Ok (ob_pending op started
                      (if unsafe then ph_interrupted
                       else match generation, tool with None, None => ph_starting | _, _ => ph_running end))
          end
      end
  end.

(** The second half of [recover], for an operation without a generation in progress. *)
Definition recover_tool (op : jsstr) (s : State) : result SessionError RecoveryAction :=
  let* tool := tool_of op s in
  match tool with
  | Some t =>
      match x_status (r_body t) with
      | x_planned | x_checkpointed | x_effect_pending =>
          Ok (if bool_decide (x_replay (r_body t) = never) && bool_decide (x_status (r_body t) = x_effect_pending)
              then ra_interrupted op else resume_tool t)
      | x_outcome_ready | x_failed | x_cancelled | x_interrupted => Ok (materialize_tool t)
      | x_completed => Ok (ra_wait_retry op)
      end
  | None => Ok (ra_wait_retry op)
  end.

Definition recover (op : jsstr) (s : State) : result SessionError RecoveryAction :=
  let* observation := observe op s in
  match observation with
  | ob_unknown op => Ok (ra_unknown op)
  | ob_terminal _ r => Ok (ra_terminal r)
  | ob_pending _ _ ph_cancellation_requested => Ok (reconcile_cancellation op)
  | ob_pending _ _ _ =>
      let* generation := generation_of op s in
      match generation with
      | Some g =>
          match g_status (r_body g) with
          | gen_intent | gen_effect_pending => Ok (resume_generation g)
          | gen_retry_wait => Ok (ra_wait_retry op)
          | gen_deferred => Ok (ra_wait_deferred op)
          | gen_cancelled => Ok (reconcile_cancellation op)
          | gen_settled => recover_tool op s
          end
      | None => recover_tool op s
      end
  end.

End Boundary.
End OperationBoundary.

(** * What the boundary promises

    The observation of an operation is a function of the records of its lane, and a generation
    that recovery wants resumed is the newest of its lane, so that it can be run. *)

Module BoundaryProps.
Import AgentData SessionState Storage SessionStateProps SessionQueries Session SessionJobs Generation GenerationProps GenerationRuns GenerationSettle OperationBoundary.

Section Boundary.
Context (lane : jsstr).

(** ** The records of a lane *)

(** The records of one type, of an operation if one is given. *)
Definition of_run {B} (f : RecordBody → option B) (run : option jsstr) (s : State) : list (Rec B) :=
  omap (λ r, if bool_decide (r_lane r = lane) && match run with Some i => bool_decide (runId (r_body r) = Some i) | None => true end
             then pick f r else None) (records s).

Lemma typed_eq {B} t (f : RecordBody → option B) run s :
  (∀ b, is_Some (f b) ↔ record_type b = t) → (run = None ∨ t ≠ rt_operation_started) → typed lane t f run s = Ok (of_run f run s).
Proof.
  intros Hf Hr. unfold typed, queryRecords. cbn [assertValidLimit assertValidCursor rbind rq_limit rq_afterSeq rq_operationKind]. unfold assertValidLimit, assertValidCursor, require.
  cbn [guard_err negb rbind]. rewrite find_records by done. cbn [rbind rq_limit upTo rq_order]. f_equal. unfold ordered. rewrite bool_decide_eq_true_2 by done.
  unfold of_run. induction (records s) as [|r l IH]; [done|]. rewrite filter_cons. cbn [omap list_omap].
  assert (Hm : matchesRecordQuery (mkRecordQuery (Some lane) (Some t) run None None (Some oldestFirst) None) r
    = bool_decide (r_lane r = lane) && bool_decide (record_type (r_body r) = t) && match run with Some i => bool_decide (runId (r_body r) = Some i) | None => true end).
  { unfold matchesRecordQuery. cbn [rq_lane rq_type rq_runId rq_operationKind rq_afterSeq matches]. rewrite !andb_true_r.
    destruct (decide (record_type (r_body r) = t)) as [Ht|Ht]; [|by rewrite (bool_decide_eq_false_2 (record_type (r_body r) = t)), !andb_false_r by done].
    destruct run as [i|]; [|done]. destruct (r_body r); try done. destruct Hr; [done|]. by subst t. }
  rewrite Hm. destruct (bool_decide (r_lane r = lane)); cbn [andb]; [|by rewrite decide_False].
  destruct (decide (record_type (r_body r) = t)) as [Ht|Ht].
  - rewrite bool_decide_eq_true_2 by done. cbn [andb]. destruct (match run with Some i => _ | None => true end); [|by rewrite decide_False].
    rewrite decide_True by done. cbn [omap list_omap]. destruct (pick f r); by rewrite <- IH.
  - rewrite bool_decide_eq_false_2 by done. cbn [andb]. rewrite decide_False by done. rewrite IH.
    assert (pick f r = None) as ->. { unfold pick. destruct (f (r_body r)) eqn:E; [|done]. destruct Ht. apply Hf. by rewrite E. }
    by destruct (match run with Some i => _ | None => true end).
Qed.

Definition starts (s : State) : list (Rec OperationStarted) := of_run as_started None s.
Definition finishes_of (op : jsstr) (s : State) : list (Rec OperationFinished) := of_run as_finished (Some op) s.
Definition aborts_of (op : jsstr) (s : State) : list (Rec jsstr) := of_run as_abort (Some op) s.
Definition generations_of (op : jsstr) (s : State) : list (Rec GenerationState) := of_run as_generation (Some op) s.
Definition tools_of (op : jsstr) (s : State) : list (Rec ToolExecutionState) := of_run as_tool_state (Some op) s.

Ltac kinds := let b := fresh in intros b; split; [by intros [? ?]; destruct b | by destruct b; eauto].
Lemma typed_starts s : typed lane rt_operation_started as_started None s = Ok (starts s).
Proof. apply typed_eq; [kinds | by left]. Qed.
Lemma typed_finished op s : typed lane rt_operation_finished as_finished (Some op) s = Ok (finishes_of op s).
Proof. apply typed_eq; [kinds | by right]. Qed.
Lemma typed_aborts op s : typed lane rt_abort_requested as_abort (Some op) s = Ok (aborts_of op s).
Proof. apply typed_eq; [kinds | by right]. Qed.
Lemma generation_of_eq op s : generation_of lane op s = Ok (last (generations_of op s)).
Proof. unfold generation_of. rewrite typed_eq; [done | kinds | by right]. Qed.
Lemma tool_of_eq op s : tool_of lane op s = Ok (last (tools_of op s)).
Proof. unfold tool_of. rewrite typed_eq; [done | kinds | by right]. Qed.

(** What a report says of the records of the lane. *)
Definition reports (op : jsstr) (s : State) (ob : OperationObservation) : Prop :=
  match ob with
  | ob_unknown i => i = op ∧ Forall (λ r, r_id r ≠ op) (starts s)
  | ob_terminal i r => i = op ∧ (∃ o, o ∈ starts s ∧ r_id o = op) ∧ ∃ f, last (finishes_of op s) = Some f ∧ r = result_of f
  | ob_pending i o ph => i = op ∧ o ∈ starts s ∧ r_id o = op ∧ finishes_of op s = [] ∧
      match ph with
      | ph_cancellation_requested => aborts_of op s ≠ []
      | ph_waiting => aborts_of op s = [] ∧ ∃ g, last (generations_of op s) = Some g ∧ g_status (r_body g) ∈ [gen_retry_wait; gen_deferred]
      | ph_interrupted => aborts_of op s = [] ∧ ∃ t, last (tools_of op s) = Some t ∧ x_status (r_body t) = x_effect_pending ∧ x_replay (r_body t) = never
      | ph_running => aborts_of op s = [] ∧ (generations_of op s ≠ [] ∨ tools_of op s ≠ [])
      | ph_starting => aborts_of op s = [] ∧ generations_of op s = [] ∧ tools_of op s = []
      end
  end.

Lemma observe_reports op s : ∃ ob, observe lane op s = Ok ob ∧ reports op s ob.
Proof.
  unfold observe. rewrite typed_starts. cbn [rbind]. destruct (find _ (starts s)) as [o|] eqn:Ef.
  2: { eexists. split; [done|]. split; [done|]. apply Forall_forall. intros r Hr E. pose proof (find_none _ _ Ef r (proj1 (list_elem_of_In _ _) Hr)) as Hn.
       by apply bool_decide_eq_false in Hn. }
  apply find_some in Ef as [Ho%list_elem_of_In Hid%bool_decide_eq_true].
  assert (Hl : ∀ {A} (l : list A), last l = None → l = []) by (intros A l; apply last_None).
  rewrite typed_finished. cbn [rbind]. unfold latest. destruct (last (finishes_of op s)) as [f|] eqn:Hf; [eexists; split; [done|]; cbn; split_and!; eauto|].
  apply Hl in Hf. rewrite typed_aborts. cbn [rbind]. destruct (last (aborts_of op s)) as [a|] eqn:Ha.
  { eexists. split; [done|]. cbn. split_and!; [done..|]. intros E. by rewrite E in Ha. }
  apply Hl in Ha. rewrite generation_of_eq. cbn [rbind].
  destruct (match last (generations_of op s) with Some g => bool_decide _ || _ | None => false end) eqn:Hw.
  { eexists. split; [done|]. cbn. split_and!; [done..|]. destruct (last (generations_of op s)) as [g|]; [|done]. exists g. split; [done|].
    apply orb_true_iff in Hw as [Hw%bool_decide_eq_true | Hw%bool_decide_eq_true]; rewrite Hw; [by left | by right; left]. }
  rewrite tool_of_eq. cbn [rbind]. eexists. split; [done|]. cbn. split_and!; [done..|].
  assert (Hrun : ∀ g, last (generations_of op s) = Some g → generations_of op s ≠ []) by (intros g Hg E; by rewrite E in Hg).
  destruct (last (tools_of op s)) as [t|] eqn:Ht.
  - assert (Htn : tools_of op s ≠ []) by (intros E; by rewrite E in Ht).
    destruct (bool_decide (x_status (r_body t) = x_effect_pending)) eqn:E1, (bool_decide (x_replay (r_body t) = never)) eqn:E2; cbn [andb];
      try (destruct (last (generations_of op s)) eqn:Hg; (split; [done | by right])). bool_prop. split; [done|]. by exists t.
  - destruct (last (generations_of op s)) as [g|] eqn:Hg; [split; [done|]; left; by eapply Hrun|]. split_and!; [done | by apply Hl..].
Qed.

(** ** Theorems *)

(** An observation is what the lane recorded: observing never fails, an operation is unknown exactly if the lane never
    started it, it is terminal with its last finish, and otherwise it is pending in the phase that its abort, its last
    generation and its last tool state give. *)
Theorem observation_reports_the_lane op s : ∃ ob, observe lane op s = Ok ob ∧ reports op s ob ∧
  (∀ other, reports op s other → match ob, other with ob_unknown _, ob_unknown _ | ob_terminal _ _, ob_terminal _ _ | ob_pending _ _ _, ob_pending _ _ _ => True | _, _ => False end).
Proof.
  destruct (observe_reports op s) as (ob & H & R). exists ob. split_and!; [done..|]. intros other R'.
  assert (Hno : ∀ o, o ∈ starts s → r_id o = op → ¬ Forall (λ r, r_id r ≠ op) (starts s)) by (intros o Ho Hi F; rewrite Forall_forall in F; by apply (F o)).
  destruct ob as [i|i o ph|i r], other as [i'|i' o' ph'|i' r']; cbn in R, R'; try exact I.
  - destruct R as [_ F], R' as (_ & Ho & Hi & _). by destruct (Hno o').
  - destruct R as [_ F], R' as (_ & (o & Ho & Hi) & _). by destruct (Hno o).
  - destruct R' as [_ F], R as (_ & Ho & Hi & _). by destruct (Hno o).
  - destruct R as (_ & _ & _ & E & _), R' as (_ & _ & f & Hf & _). by rewrite E in Hf.
  - destruct R' as [_ F], R as (_ & (o & Ho & Hi) & _). by destruct (Hno o).
  - destruct R' as (_ & _ & _ & E & _), R as (_ & _ & f & Hf & _). by rewrite E in Hf.
Qed.

Lemma generations_of_lane op s : generations_of op s = filter (λ r, g_runId (r_body r) = op) (lane_generations lane s).
Proof.
  unfold generations_of, of_run, lane_generations. induction (records s) as [|r l IH]; [done|]. cbn [omap list_omap].
  destruct (bool_decide (r_lane r = lane)); cbn [andb]; [|exact IH]. destruct (pick as_generation r) as [g|] eqn:Eg.
  - assert (Hr : runId (r_body r) = Some (g_runId (r_body g))).
    { unfold pick in Eg. destruct (r_body r); try done. by injection Eg as <-. }
    rewrite Hr, filter_cons. case_bool_decide; case_decide; try congruence; by rewrite IH.
  - by destruct (bool_decide (runId (r_body r) = Some op)).
Qed.

Lemma finished_of_lane op s : run_finished lane s op → finishes_of op s ≠ [].
Proof.
  intros (r & Hr & Hf) E. unfold finishes in Hf. apply andb_true_iff in Hf as [Hl Hf]. destruct (r_body r) eqn:Eb; try done. apply bool_decide_eq_true in Hf.
  assert (Hin : mkRec (r_id r) (r_seq r) (r_lane r) (r_timestamp r) f ∈ finishes_of op s).
  { unfold finishes_of, of_run. apply list_elem_of_omap. exists r. split; [done|]. rewrite Hl, Eb. cbn [runId andb]. rewrite bool_decide_eq_true_2 by congruence.
    unfold pick. by rewrite Eb. }
  rewrite E in Hin. by apply elem_of_nil in Hin.
Qed.

(** A generation to be resumed is the newest state of its lane. *)
Lemma resumed_is_newest w op st : GenerationRuns.reachable lane w → recover lane op (session w) = Ok (resume_generation st) →
  last (lane_generations lane (session w)) = Some st ∧ g_runId (r_body st) = op ∧ g_status (r_body st) ∈ [gen_intent; gen_effect_pending].
Proof.
  intros R H. pose proof (generation_runs_ok lane w R) as O. unfold recover in H. destruct (observe_reports op (session w)) as (ob & E & Hr). rewrite E in H. cbn [rbind] in H.
  assert (Ht : ∀ g, recover_tool lane op (session w) ≠ Ok (resume_generation g)).
  { intros g. unfold recover_tool. rewrite tool_of_eq. cbn [rbind]. destruct (last _) as [t|]; [|done]. by destruct (x_status (r_body t)); try destruct (_ && _). }
  destruct ob as [i|i o ph|i r]; [done| |done]. destruct Hr as (-> & _ & _ & Hf & _).
  assert (H' : (let* generation := generation_of lane op (session w) in
      match generation with
      | Some g => match g_status (r_body g) with
          | gen_intent | gen_effect_pending => Ok (resume_generation g) | gen_retry_wait => Ok (ra_wait_retry op) | gen_deferred => Ok (ra_wait_deferred op)
          | gen_cancelled => Ok (reconcile_cancellation op) | gen_settled => recover_tool lane op (session w) end
      | None => recover_tool lane op (session w) end) = Ok (resume_generation st)) by (by destruct ph). clear H.
  rewrite generation_of_eq in H'. cbn [rbind] in H'. destruct (last (generations_of op (session w))) as [g|] eqn:Hg; [|by destruct (Ht st)].
  assert (g = st ∧ g_status (r_body g) ∈ [gen_intent; gen_effect_pending]) as [<- Hst].
  { destruct (g_status (r_body g)) eqn:Es; try done; try (injection H' as ->); try by destruct (Ht st).
    - split; [done | by left].
    - split; [done | right; by left]. }
  rewrite generations_of_lane in Hg.
  assert (Hin : g ∈ lane_generations lane (session w) ∧ g_runId (r_body g) = op).
  { apply ToolExecutionProps.last_elem in Hg. by apply list_elem_of_filter in Hg as [? ?]. }
  destruct Hin as [Hin Hop]. split_and!; [|done..]. destruct (last (lane_generations lane (session w))) as [c|] eqn:Hc.
  2: { apply last_None in Hc. rewrite Hc in Hin. by apply elem_of_nil in Hin. }
  destruct (decide (g_runId (r_body c) = op)) as [Hco|Hco].
  - apply last_Some in Hc as [l' Hl']. rewrite Hl', filter_app, filter_cons_True in Hg by done. cbn in Hg. rewrite last_snoc in Hg. congruence.
  - destruct (ok_known _ _ O g Hin) as [_ K]. destruct (finished_of_lane op (session w)); [|done]. rewrite <- Hop. apply (K c Hc). congruence.
Qed.

(** C20. What recovery resumes can run: if recovery wants a generation resumed, its state is the newest of the lane, and running
    it stores the intent of the next attempt and is admitted to call the provider, given new identifiers. *)
Theorem recovered_generation_runs w op st tip p resp us now : GenerationRuns.reachable lane w → recover lane op (session w) = Ok (resume_generation st) →
  in_lane lane tip (session w) → n_id (next_pending st resp us) ∉ usedIds (session w) →
  ∃ w' pending, run lane p st resp us now w = (w', None) ∧ procs w' !! p = Some (admitted pending) ∧
    lane_generations lane (session w') = lane_generations lane (session w) ++ [pending] ∧ g_runId (r_body pending) = op ∧
    g_attempt (r_body pending) = (if bool_decide (g_status (r_body st) = gen_intent) then 1 else g_attempt (r_body st) + 1).
Proof.
  intros R H I Hn. destruct (resumed_is_newest w op st R H) as (Hl & Hop & Hst).
  assert (Hlane : r_lane st = lane) by (apply (generation_lane _ (session w)); by apply ToolExecutionProps.last_elem).
  destruct (append_applies generation_state now (next_pending st resp us) lane tip (session w) I Hlane Hn eq_refl) as (s' & q & E & Hs).
  pose proof (append_generation lane generation_state now (next_pending st resp us) (session w)) as Hg. rewrite E in Hg.
  destruct Hg as (_ & _ & _ & _ & _ & _ & Hg). rewrite bool_decide_eq_true_2 in Hg by done. cbn [option_list as_generation] in Hg.
  assert (Hnl : n_lane (next_pending st resp us) = lane) by exact Hlane. rewrite Hnl in Hg.
  eexists _, _. split.
  - unfold run. replace (bool_decide (g_status (r_body st) = gen_retry_wait)) with false.
    2: { symmetry. apply bool_decide_eq_false. intros Hr. rewrite Hr in Hst. by rewrite !elem_of_cons, elem_of_nil in Hst; naive_solver. }
    cbn [andb]. unfold on_session, transitionGeneration. rewrite stres_bind_eq. unfold check. rewrite current_generation_eq. cbv zeta beta iota.
    rewrite Hl. unfold is_generation, expected. cbn [fst snd]. rewrite !bool_decide_eq_true_2 by done. cbn [andb]. rewrite stres_bind_eq, E. reflexivity.
  - cbn. rewrite lookup_insert, decide_True by done. split; [reflexivity|]. split; [rewrite Hg; reflexivity|]. split; [exact Hop | done].
Qed.

End Boundary.
End BoundaryProps.
