(* ===== verification/GenerationSample.v ===== *)
(** * Concrete generations

    Scripts of runs, answers and crashes on a new session: the witnesses of the theorems about
    generations and their recovery, and what the code does that its comments do not say. *)
From S2P Require Import Prelude JsMap JsString Json AgentData SessionState SessionQueries Session SessionJobs Retry Generation GenerationProps.
From S2P Require Import GenerationRuns OperationBoundary.

Module GenerationSample.
Import AgentData SessionState Storage SessionStateProps Session SessionJobs Generation GenerationProps GenerationRuns GenerationSettle OperationBoundary BoundaryProps.

Definition main : jsstr := js "main".
Definition op : jsstr := js "op".
Definition configuration (maxRetries : Z) (cap : option Z) : GenerationConfiguration :=
  generationConfiguration (js "provider") (js "model") (js "off") None (mkRetry true maxRetries 1000 cap).
Definition request (maxRetries : Z) (cap : option Z) : GenerationRequest := mkRequest op None None [] (configuration maxRetries cap).
Definition answer (stopReason : StopReason) (error : option string) (deferred : option Json.json) : AssistantMessage :=
  mkAssistant [] (js "provider") (js "model") (mkUsage 1 1 0 0 2 (NInt 0)) stopReason deferred (js <$> error) Json.j_null.
Definition done_ : AssistantMessage := answer stop_stop None None.
Definition overloaded : AssistantMessage := answer stop_error (Some "overloaded") None.
Definition deferred : AssistantMessage := answer stop_deferred None (Some (Json.j_object [(js "id", Json.j_string (js "job"))])).

(** ** Scripts

    A step of a script works on the newest state of the lane; the identifiers it draws are named after [n]. *)

Inductive act := start_ (r : GenerationRequest) | run_ (p : nat) (n : string) (now : Z) | go_ (p : nat) | answer_ (p : nat) (m : AssistantMessage) (now : Z) | crash_.
Definition newest (w : World) : option (Rec GenerationState) := last (lane_generations main (session w)).
Definition call_of (a : act) (w : World) : option call :=
  match a with
  | start_ r => Some (c_start r (js "response") (js "usage") (js "generation") 0)
  | run_ p n now => if bool_decide (is_Some (procs w !! p)) then None
                    else (λ st, c_run p st (js (n ++ "-response")) (js (n ++ "-usage")) now) <$> newest w
  | go_ p => Some (c_continue p false 0)
  | answer_ p m now => Some (c_answered p m now)
  | crash_ => Some c_crash
  end.
Definition act_on (w : World) (a : act) : World := match call_of a w with Some c => step main w c | None => w end.
Definition fresh_world : World := mkWorld (newState [main]) ∅ [].
Definition after (l : list act) : World := foldl act_on fresh_world l.

Lemma act_reachable w a : reachable main w → reachable main (act_on w a).
Proof.
  intros R. unfold act_on. destruct (call_of a w) as [c|] eqn:E; [|done]. apply reach_step; [done|].
  destruct a as [r|p n now|p|p m now|]; cbn in E; try (injection E as <-; exact I).
  case_bool_decide as Hp; [done|]. destruct (newest w) as [st|] eqn:En; [|done]. injection E as <-. split.
  - by apply ToolExecution.ToolExecutionProps.last_elem.
  - by apply eq_None_not_Some.
Qed.
Lemma generations_reachable l : reachable main (after l).
Proof.
  unfold after. assert (R : reachable main fresh_world) by (apply reach_new; [apply stored_new | done]). revert R. generalize fresh_world.
  induction l as [|a l IH]; intros w R; [done|]. apply IH. by apply act_reachable.
Qed.

Definition no_state : Rec GenerationState := mkRec [] 0 [] 0 (mkGeneration [] [] gen_intent 0 [] [] (configuration 0 None) None None None).
Definition newest_of (l : list act) : Rec GenerationState := default no_state (newest (after l)).

(** ** Witnesses *)

Definition interrupted : list act := [start_ (request 2 None); run_ 0 "a" 5; go_ 0; crash_; run_ 1 "b" 6; go_ 1].
Definition retried : list act :=
  [start_ (request 1 None); run_ 0 "a" 5; go_ 0; answer_ 0 overloaded 10; run_ 1 "b" 2000; go_ 1; answer_ 1 overloaded 2010].

Lemma provider_calls_are_counted_witness : let w := after interrupted in
  (λ r, g_attempt (r_body r)) <$> calls w = [1; 2] ∧
  Forall (λ e, e ∈ lane_generations main (session w) ∧ g_status (r_body e) = gen_effect_pending) (calls w) ∧ NoDup (r_id <$> calls w) ∧
  ∀ a b, a ∈ calls w → b ∈ calls w → g_runId (r_body a) = g_runId (r_body b) → g_attempt (r_body a) = g_attempt (r_body b) → a = b.
Proof.
  cbv zeta. split; [vm_compute; reflexivity|]. exact (provider_calls_are_counted main (after interrupted) (generations_reachable interrupted)).
Defined.

Lemma newest_in l : is_Some (newest (after l)) → newest_of l ∈ lane_generations main (session (after l)).
Proof. intros [r Hr]. unfold newest_of. rewrite Hr. by apply ToolExecution.ToolExecutionProps.last_elem. Qed.

Lemma retries_stay_within_budget_witness : let w := after retried in
  g_status (r_body (newest_of retried)) = gen_settled ∧
  zlen (filter (λ x, g_runId (r_body x) = g_runId (r_body (newest_of retried)) ∧ g_status (r_body x) = gen_retry_wait) (lane_generations main (session w))) <= 1.
Proof.
  cbv zeta. split; [vm_compute; reflexivity|].
  pose proof (retries_stay_within_budget main (after retried) (newest_of retried) (generations_reachable retried)
    (newest_in retried ltac:(eexists; vm_compute; reflexivity))) as H. cbv zeta in H.
  replace (gc_retryPolicy (g_configuration (r_body (newest_of retried)))) with (mkRetry true 1 1000 None) in H by (vm_compute; reflexivity). exact H.
Defined.

Definition awaiting : list act := [start_ (request 2 None); run_ 0 "a" 5; go_ 0].

Lemma awaiting_fresh : fresh_ids (newest_of awaiting) (session (after awaiting)).
Proof. intros st Hst. destruct st; try done; split; apply (bool_decide_unpack _); vm_compute; exact I. Qed.
Lemma awaiting_lane : in_lane main None (session (after awaiting)).
Proof. split; [apply (generation_ok_wf main), (generation_runs_ok main), generations_reachable | vm_compute; reflexivity]. Qed.

Lemma response_settles_generation_witness : let w := after awaiting in
  (settle main (newest_of awaiting) done_ 7 w).2 = Ok (w_completed done_) ∧
  ∃ a next finish, (settle main (newest_of awaiting) done_ 7 w).2 = Ok a ∧ answer_means (newest_of awaiting) done_ 7 a (n_body next) finish ∧
    committed (session w) (session (settle main (newest_of awaiting) done_ 7 w).1) main None 7
      (mkCommitGeneration main (r_id (newest_of awaiting), gen_effect_pending) (messageEntry done_ (g_responseEntryId (r_body (newest_of awaiting))))
         (usageRecord (newest_of awaiting) done_) next ((λ o, finishedRecord (newest_of awaiting) o (Some done_)) <$> finish)).
Proof.
  cbv zeta. split; [vm_compute; reflexivity|].
  pose proof (response_settles_generation main None (newest_of awaiting) done_ 7 (after awaiting) awaiting_lane
    (newest_in awaiting ltac:(eexists; vm_compute; reflexivity)) ltac:(vm_compute; reflexivity) awaiting_fresh) as H.
  destruct (settle _ _ _ _ _) as [w' r]. destruct H as [H _]. apply H. vm_compute. reflexivity.
Defined.

Definition crashed : list act := [start_ (request 2 None); run_ 0 "a" 5; go_ 0; crash_].

Lemma crashed_lane : in_lane main None (session (after crashed)).
Proof. split; [apply (generation_ok_wf main), (generation_runs_ok main), generations_reachable | vm_compute; reflexivity]. Qed.

Lemma recovered_generation_runs_witness : let w := after crashed in
  recover main op (session w) = Ok (resume_generation (newest_of crashed)) ∧
  ∃ w' pending, run main 3 (newest_of crashed) (js "r2") (js "u2") 9 w = (w', None) ∧ procs w' !! 3%nat = Some (admitted pending) ∧
    lane_generations main (session w') = lane_generations main (session w) ++ [pending] ∧ g_runId (r_body pending) = op ∧ g_attempt (r_body pending) = 2.
Proof.
  cbv zeta. assert (E : recover main op (session (after crashed)) = Ok (resume_generation (newest_of crashed))) by (vm_compute; reflexivity).
  split; [exact E|].
  exact (recovered_generation_runs main (after crashed) op (newest_of crashed) None 3 (js "r2") (js "u2") 9 (generations_reachable crashed) E crashed_lane
    ltac:(apply (bool_decide_unpack _); vm_compute; exact I)).
Defined.

(** ** What the code does *)

(** The handle of a deferred response is not in the state that waits for it: it is answered to the caller, and lost when the
    process ends. *)
Theorem deferred_handle_is_lost : let w := after awaiting in let '(w', r) := settle main (newest_of awaiting) deferred 7 w in
  r = Ok (waiting_deferred (am_deferred deferred)) ∧ am_deferred deferred ≠ None ∧
  option_map (λ g, (g_status (r_body g), g_deferred (r_body g))) (newest w') = Some (gen_deferred, None).
Proof. vm_compute. split_and!; done. Qed.

(** Running a state that is settled calls the provider again, for an operation that is over, and stores a second end of it. *)
Theorem settled_generation_calls_again : let w := after (awaiting ++ [answer_ 0 done_ 7; run_ 1 "b" 8; go_ 1]) in
  (λ r, g_attempt (r_body r)) <$> calls w = [1; 2] ∧ observe main op (session w) = Ok (ob_terminal op (mkOperationResult op ts_completed o_completed 7)) ∧
  length (finishes_of main op (session (after (awaiting ++ [answer_ 0 done_ 7; run_ 1 "b" 8; go_ 1; answer_ 1 done_ 9])))) = 2%nat.
Proof. vm_compute. split_and!; done. Qed.

(** The delay before a durable retry ignores the cap of the policy, which the retries within a call keep to. *)
Theorem durable_retry_ignores_cap : let p := mkRetry true 9 1000 (Some 5000) in
  let g := mkGeneration op [] gen_effect_pending 5 [] [] (mkConfiguration [] [] [] Json.j_null p) None None None in
  retryDelay g = 16000 ∧ Retry.retryDelayMs p 5 = 5000.
Proof. split; reflexivity. Qed.

(** Recovery resumes a tool that must not be replayed once it has stored a checkpoint. *)
Definition checkpointed_tool : M () :=
  append operation_started 0 (mkNew op main (mkStarted None (compaction_intent None (js "result"))));;
  append tool_execution_state 1 (mkNew (js "tool") main
    (mkToolState op (js "entry") 0 (js "call") (js "deploy") (js "invocation") (js "place") Json.j_null never x_checkpointed None None None));; mret ().
Theorem checkpointed_tool_is_resumed :
  match recover main op (checkpointed_tool (newState [main])).1 with
  | Ok (resume_tool t) => x_replay (r_body t) = never ∧ x_status (r_body t) = x_checkpointed
  | _ => False
  end.
Proof. vm_compute. done. Qed.

End GenerationSample.
