(* ===== verification/AgentLoop.v ===== *)
(** * The agent loop and the programs it is written in

    Module [Program]: programs that may fail and may not end, the monad of the agent loop: a program changes a state and returns, rejects with the
    text of an error, or runs out of the fuel of one of its loops; with the rules of its
    weakest preconditions.  Running out of fuel means that the loop did not end in that
    many rounds: it is a case of its own, about which a statement says what it claims. *)
From S2P Require Import Prelude JsMap JsString Json AgentData SessionState Session ToolExecution.

Module Program.

Inductive outcome (S A : Type) :=
| no_fuel
| rejected (s : S) (text : jsstr)
| returned (s : S) (a : A).
Arguments no_fuel {S A}.
Arguments rejected {S A} s text.
Arguments returned {S A} s a.

Definition prog (S A : Type) : Type := S → outcome S A.

#[export] Instance prog_ret {S} : MRet (prog S) := λ A a s, returned s a.
#[export] Instance prog_bind {S} : MBind (prog S) := λ A B f m s,
  match m s with
  | no_fuel => no_fuel
  | rejected s text => rejected s text
  | returned s a => f a s
  end.

Definition rejects {S A} (text : jsstr) : prog S A := λ s, rejected s text.
Definition exhausted {S A} : prog S A := λ _, no_fuel.
Definition reads {S A} (f : S → A) : prog S A := λ s, returned s (f s).
Definition changes {S} (f : S → S) : prog S () := λ s, returned (f s) ().

(** [for (const x of l) await f(x)] *)
Fixpoint each {S A} (f : A → prog S ()) (l : list A) : prog S () :=
  match l with
  | [] => mret ()
  | x :: l => f x;; each f l
  end.

(** ** Weakest preconditions

    [F] is what is claimed when the fuel ends ([True]: nothing, [False]: that it does not), [E] when the program
    rejects and [Q] when it returns. *)
Section Wp.
Context {S : Type} (F : Prop) (E : S → Prop).

Definition wp {A} (m : prog S A) (s : S) (Q : A → S → Prop) : Prop :=
  match m s with no_fuel => F | rejected s _ => E s | returned s a => Q a s end.

Lemma wp_ret {A} (a : A) s (Q : A → S → Prop) : Q a s → wp (mret a) s Q.
Proof. done. Qed.
Lemma wp_reads {A} (f : S → A) s (Q : A → S → Prop) : Q (f s) s → wp (reads f) s Q.
Proof. done. Qed.
Lemma wp_changes f s (Q : () → S → Prop) : Q () (f s) → wp (changes f) s Q.
Proof. done. Qed.
Lemma wp_exhausted {A} s (Q : A → S → Prop) : F → wp exhausted s Q.
Proof. done. Qed.

Lemma wp_bind {A B} (m : prog S A) (f : A → prog S B) s (Q : B → S → Prop) :
  wp m s (λ a s, wp (f a) s Q) → wp (m ≫= f) s Q.
Proof. unfold wp at 1 3, mbind, prog_bind. by destruct (m s). Qed.

Lemma wp_mono {A} (m : prog S A) s (P Q : A → S → Prop) : wp m s P → (∀ a s, P a s → Q a s) → wp m s Q.
Proof. unfold wp. intros H HPQ. destruct (m s); auto. Qed.

(** A loop over a list keeps what each round keeps. *)
Lemma wp_each {A} (f : A → prog S ()) l s (I : list A → S → Prop) (Q : () → S → Prop) :
  I l s → (∀ x l s, I (x :: l) s → wp (f x) s (λ _, I l)) → (∀ s, I [] s → Q () s) → wp (each f l) s Q.
Proof.
  intros H Hstep Hend. revert s H. induction l as [|x l IH]; intros s H; [by apply Hend|].
  cbn [each]. apply wp_bind. eapply wp_mono; [by apply Hstep|]. intros [] s'. apply IH.
Qed.

Lemma wp_returned {A} (m : prog S A) s s' a (Q : A → S → Prop) : wp m s Q → m s = returned s' a → Q a s'.
Proof. unfold wp. intros H Em. by rewrite Em in H. Qed.
End Wp.

End Program.

(** * The agent loop

    Models [agent/src/agent-loop.ts] with the types of [agent/src/types.ts]: the turns of a
    run, the streaming of a response, and the sequential and parallel execution of its tool
    calls.

    What the loop calls (the provider, the tools, the hooks, the queues and the listener of
    its events) is an environment with a state of its own, so that it may answer anything,
    and differently each time.  A callback of the loop may reject, and the run rejects with
    it; what a tool or a tool hook throws becomes the result of its call; the listener does
    not throw.  The arrays of messages that contexts share are kept in a store.  A run, a
    stream and the tools of a batch may go on forever: each loop has fuel. *)

Module AgentLoop.
Import AgentData Program.
Import Json (json, j_array, j_object, j_string, j_null).
Import ToolExecution (AgentToolResult, mkResult, ar_content, ar_details, ar_usage, ar_addedToolNames, ar_terminate).

(** ** Data *)

Inductive ToolExecutionMode := sequential | parallel.
#[export] Instance mode_eq : EqDecision ToolExecutionMode.
Proof. solve_decision. Defined.

Record AgentTool := mkAgentTool {
  at_name : jsstr; at_executionMode : option ToolExecutionMode; at_prepareArguments : option (json → result jsstr json) }.

(** A context; its messages are an array of the store. *)
Record AgentContext := mkContext { systemPrompt : jsstr; ctx_messages : nat; tools : option (list AgentTool) }.

Inductive AgentEvent :=
| agent_start
| agent_end (messages : list AgentMessage)
| turn_start
| turn_end (message : AssistantMessage) (toolResults : list ToolResultMessage)
| message_start (m : AgentMessage)
| message_update (m : AgentMessage)
| message_end (m : AgentMessage)
| tool_execution_start (toolCallId toolName : jsstr) (args : json)
| tool_execution_update (toolCallId toolName : jsstr) (args : json) (partialResult : AgentToolResult)
| tool_execution_end (toolCallId toolName : jsstr) (r : AgentToolResult) (isError : bool).

(** The model and the reasoning level, the part of the configuration that turns may replace. *)
Record Options := mkOptions { model_provider : jsstr; model_id : jsstr; reasoning : option jsstr }.

Record BeforeToolCallResult := mkBefore { block : bool; reason : option jsstr; b_terminate : option bool }.
Record AfterToolCallResult := mkAfter {
  a_content : option json; a_details : option json; a_isError : option bool; a_usage : option json; a_terminate : option bool }.
(** What a tool or a hook did. *)
Inductive attempt (A : Type) := answered (a : A) | threw (text : jsstr).
Arguments answered {A} _.
Arguments threw {A} _.

(** [PrepareNextTurnContext] *)
Record Turn := mkTurn { t_message : AssistantMessage; t_toolResults : list ToolResultMessage; t_context : AgentContext; t_newMessages : list AgentMessage }.
(** A replacement of the context: its messages are an array that exists, or a new one. *)
Record TurnUpdate := mkUpdate {
  u_context : option (jsstr * (nat + list AgentMessage) * option (list AgentTool)); u_model : option (jsstr * jsstr); u_thinkingLevel : option jsstr }.

(** The events of a response; [se_part] are the nine kinds of "start", "delta" and "end" of a part. *)
Inductive stream_event := se_start (partial : AssistantMessage) | se_part (partial : AssistantMessage) | se_done | se_error.
Record Request := mkRequest {
  rq_options : Options; rq_systemPrompt : jsstr; rq_messages : list AgentMessage; rq_tools : option (list AgentTool); rq_apiKey : option jsstr }.

(** ** Tool calls *)

Record PreparedToolCall := mkPrepared { pc_toolCall : AgentToolCall; pc_tool : AgentTool; pc_args : json }.
Record Finalized := mkFinalized { f_toolCall : AgentToolCall; f_result : AgentToolResult; f_isError : bool }.
(** The phases of a prepared call: its tool runs, its hook decides, it is finalized. *)
Inductive process :=
| p_running (c : PreparedToolCall)
| p_hook (c : PreparedToolCall) (executed : AgentToolResult) (isError : bool)
| p_done (f : Finalized).
(** What can happen to a running call. *)
Inductive happening :=
| h_update (r : AgentToolResult)
| h_ended (r : attempt AgentToolResult)
| h_hooked (r : attempt (option AfterToolCallResult)).

Definition textContent (text : jsstr) : json := j_array [j_object [(js "type", j_string (js "text")); (js "text", j_string text)]].
Definition createErrorToolResult (text : jsstr) : AgentToolResult := mkResult (textContent text) (Some (j_object [])) None None None.
Definition with_terminate (r : AgentToolResult) : AgentToolResult :=
  mkResult (ar_content r) (ar_details r) (ar_usage r) (ar_addedToolNames r) (Some true).

Definition shouldTerminateToolBatch (l : list Finalized) : bool :=
  negb (length l =? 0)%nat && forallb (λ f, bool_decide (ar_terminate (f_result f) = Some true)) l.

Definition createToolResultMessage (f : Finalized) (now : Z) : ToolResultMessage :=
  let r := f_result f in
  mkToolResult (tc_id (f_toolCall f)) (tc_name (f_toolCall f)) (match ar_content r with j_null => j_array [] | c => c end)
    (ar_details r) (ar_usage r) (match ar_addedToolNames r with Some (_ :: _) => ar_addedToolNames r | _ => None end)
    (f_isError f) now.

(** What the hook replaces. *)
Definition overridden (a : AfterToolCallResult) (r : AgentToolResult) : AgentToolResult :=
  mkResult (default (ar_content r) (a_content a))
    (match a_details a with None => ar_details r | d => d end) (match a_usage a with None => ar_usage r | u => u end)
    (ar_addedToolNames r) (match a_terminate a with None => ar_terminate r | t => t end).
Definition finalizeExecutedToolCall (c : PreparedToolCall) (r : AgentToolResult) (isError : bool)
    (answer : attempt (option AfterToolCallResult)) : Finalized :=
  match answer with
  | answered None => mkFinalized (pc_toolCall c) r isError
  | answered (Some a) => mkFinalized (pc_toolCall c) (overridden a r) (default isError (a_isError a))
  | threw text => mkFinalized (pc_toolCall c) (createErrorToolResult text) true
  end.

Definition find_tool (name : jsstr) (ts : option (list AgentTool)) : option AgentTool :=
  find (λ t, bool_decide (at_name t = name)) (default [] ts).
Definition prepareToolCallArguments (tool : AgentTool) (c : AgentToolCall) : result jsstr AgentToolCall :=
  match at_prepareArguments tool with
  | None => Ok c
  | Some f => let* args := f (tc_arguments c) in Ok (mkToolCall (tc_id c) (tc_name c) args)
  end.

(** ** The environment *)

Section Loop.
Context {W : Type} (validateToolArguments : AgentTool → AgentToolCall → result jsstr json).

(** [AgentLoopConfig] with the signal, the stream function and the listener; an absent callback answers as the code
    does without it.  [execute] is the part of a tool that runs before its first [await], with the updates it reports;
    [next] is what happens next to the running calls of a batch. *)
Record Environment := mkEnvironment {
  emit : AgentEvent → W → W;
  aborted : W → bool;
  now : W → Z;
  toolExecution : ToolExecutionMode;
  apiKey : option jsstr;
  has_afterToolCall : bool;
  getSteeringMessages : W → W * attempt (list AgentMessage);
  getFollowUpMessages : W → W * attempt (list AgentMessage);
  prepareNextTurn : Turn → list AgentMessage → W → W * attempt (option TurnUpdate);
  shouldStopAfterTurn : Turn → list AgentMessage → W → W * attempt bool;
  transformContext : list AgentMessage → W → W * attempt (list AgentMessage);
  convertToLlm : list AgentMessage → W → W * attempt (list AgentMessage);
  onContextPayload : list AgentMessage → AgentContext → list AgentMessage → W → W;
  getApiKey : jsstr → W → W * attempt (option jsstr);
  streamFn : Request → W → W * attempt ();
  next_event : W → W * attempt (option stream_event);
  response_result : W → W * attempt AssistantMessage;
  beforeToolCall : AssistantMessage → AgentToolCall → json → AgentContext → list AgentMessage → W
    → W * attempt (option BeforeToolCallResult);
  execute : PreparedToolCall → W → W * list AgentToolResult;
  next : AssistantMessage → AgentContext → list process → W → W * (nat * happening) }.
Context (env : Environment).

(** A run: the world, the events that were emitted, the arrays of messages, the answer so far; and the history: the
    calls that were executed with their message, what the queues gave, and the messages of each request. *)
Record Run := mkRun {
  world : W; trace : list AgentEvent; arrays : list (list AgentMessage); newMessages : list AgentMessage;
  executed : list (AssistantMessage * AgentContext * PreparedToolCall); polled : list AgentMessage;
  requests : list (list AgentMessage) }.
#[export] Instance run_rebuild : Rebuild Run := λ r,
  mkRun (world r) (trace r) (arrays r) (newMessages r) (executed r) (polled r) (requests r).
Notation M := (prog Run).

Definition emits (e : AgentEvent) : M () :=
  changes (λ r, r <| world := emit env e (world r) |> <| trace := trace r ++ [e] |>).
(** [await config.callback(..)] *)
Definition asks {A} (f : W → W * attempt A) : M A := λ r,
  match f (world r) with
  | (w, answered a) => returned (r <| world := w |>) a
  | (w, threw text) => rejected (r <| world := w |>) text
  end.
(** What the environment does and answers, where an error is one of the answers. *)
Definition acts {A} (f : W → W * A) : M A := λ r, let '(w, a) := f (world r) in returned (r <| world := w |>) a.
Definition does (f : W → W) : M () := changes (λ r, r <| world := f (world r) |>).
Definition is_aborted : M bool := reads (λ r, aborted env (world r)).

Definition contents (ctx : AgentContext) (r : Run) : list AgentMessage := default [] (arrays r !! ctx_messages ctx).
Definition update_messages (ctx : AgentContext) (f : list AgentMessage → list AgentMessage) : M () :=
  changes (λ r, r <| arrays := alter f (ctx_messages ctx) (arrays r) |>).
Definition new_array (l : list AgentMessage) : M nat := λ r, returned (r <| arrays := arrays r ++ [l] |>) (length (arrays r)).
(** [context.messages.push(m)] and [context.messages[context.messages.length - 1] = m] *)
Definition push_message (ctx : AgentContext) (m : AgentMessage) : M () := update_messages ctx (λ l, l ++ [m]).
Definition set_last_message (ctx : AgentContext) (m : AgentMessage) : M () := update_messages ctx (λ l, removelast l ++ [m]).
Definition push_new (m : AgentMessage) : M () := changes (λ r, r <| newMessages := newMessages r ++ [m] |>).

Definition announce (m : AgentMessage) : M () := emits (message_start m);; emits (message_end m).

(** ** Streaming a response *)

Definition complete_message (ctx : AgentContext) (addedPartial : bool) : M AssistantMessage :=
  finalMessage ← asks (response_result env);
  (if addedPartial then set_last_message ctx (m_assistant finalMessage)
   else push_message ctx (m_assistant finalMessage);; emits (message_start (m_assistant finalMessage)));;
  emits (message_end (m_assistant finalMessage));;
  mret finalMessage.

(** The [for await] loop over the events of a response. *)
Fixpoint read_response (fuel : nat) (ctx : AgentContext) (addedPartial : bool) : M AssistantMessage :=
  match fuel with
  | O => exhausted
  | S fuel =>
      event ← asks (next_event env);
      match event with
      | Some (se_start partial) =>
          push_message ctx (m_assistant partial);;
          emits (message_start (m_assistant partial));;
          read_response fuel ctx true
      | Some (se_part partial) =>
          (if addedPartial then
             set_last_message ctx (m_assistant partial);; emits (message_update (m_assistant partial))
           else mret ());;
          read_response fuel ctx addedPartial
      | Some se_done | Some se_error | None => complete_message ctx addedPartial
      end
  end.

Definition resolve_key (resolved : option jsstr) : option jsstr :=
  match resolved with Some (_ :: _) => resolved | _ => apiKey env end.
Definition streamAssistantResponse (fuel : nat) (ctx : AgentContext) (o : Options) : M AssistantMessage :=
  given ← reads (contents ctx);
  changes (λ r, r <| requests := requests r ++ [given] |>);;
  messages ← asks (transformContext env given);
  llmMessages ← asks (convertToLlm env messages);
  does (onContextPayload env messages ctx llmMessages);;
  resolved ← asks (getApiKey env (model_provider o));
  asks (streamFn env (mkRequest o (systemPrompt ctx) llmMessages (tools ctx) (resolve_key resolved)));;
  read_response fuel ctx false.

(** ** Tool calls *)

Definition emitToolExecutionStart (c : AgentToolCall) : M () := emits (tool_execution_start (tc_id c) (tc_name c) (tc_arguments c)).
Definition emitToolExecutionEnd (f : Finalized) : M () :=
  emits (tool_execution_end (tc_id (f_toolCall f)) (tc_name (f_toolCall f)) (f_result f) (f_isError f)).
(** [createToolResultMessage] and [emitToolResultMessage] *)
Definition report (f : Finalized) : M ToolResultMessage :=
  t ← reads (λ r, createToolResultMessage f (now env (world r)));
  announce (m_toolResult t);; mret t.

Definition length_error (name : jsstr) : jsstr :=
  js "Tool call " ++ [34] ++ name ++ [34] ++ js " was not executed: the response hit the output token limit, so its arguments may be truncated. Re-issue the tool call with complete arguments.".
Fixpoint failToolCallsFromTruncatedMessage (cs : list AgentToolCall) : M (list ToolResultMessage) :=
  match cs with
  | [] => mret []
  | c :: cs =>
      emitToolExecutionStart c;;
      let finalized := mkFinalized c (createErrorToolResult (length_error (tc_name c))) true in
      emitToolExecutionEnd finalized;;
      t ← report finalized;
      ts ← failToolCallsFromTruncatedMessage cs;
      mret (t :: ts)
  end.

(** A prepared call, or the outcome of a call that is not executed. *)
Inductive preparation := prepared (c : PreparedToolCall) | immediate (f : Finalized).
Definition refused (c : AgentToolCall) (text : jsstr) : preparation := immediate (mkFinalized c (createErrorToolResult text) true).
Definition ABORTED : jsstr := js "Operation aborted".
Definition blocked (c : AgentToolCall) (b : BeforeToolCallResult) : preparation :=
  let text := match reason b with Some ((_ :: _) as t) => t | _ => js "Tool execution was blocked" end in
  let r := createErrorToolResult text in
  immediate (mkFinalized c (if bool_decide (b_terminate b = Some true) then with_terminate r else r) true).

(** A hook that throws refuses the call. *)
Definition prepareToolCall (ctx : AgentContext) (m : AssistantMessage) (c : AgentToolCall) : M preparation :=
  match find_tool (tc_name c) (tools ctx) with
  | None => mret (refused c (js "Tool " ++ tc_name c ++ js " not found"))
  | Some tool =>
      match (let* c' := prepareToolCallArguments tool c in validateToolArguments tool c') with
      | Err text => mret (refused c text)
      | Ok args =>
          given ← reads (contents ctx);
          before ← acts (beforeToolCall env m c args ctx given);
          stop ← is_aborted;
          mret (match before with
                | threw text => refused c text
                | answered before =>
                    if stop : bool then refused c ABORTED
                    else match before with
                         | Some b => if block b then blocked c b else prepared (mkPrepared c tool args)
                         | None => prepared (mkPrepared c tool args)
                         end
                end)
      end
  end.

(** *** Running calls *)

Definition emitUpdate (c : PreparedToolCall) (partialResult : AgentToolResult) : M () :=
  let tc := pc_toolCall c in emits (tool_execution_update (tc_id tc) (tc_name tc) (tc_arguments tc) partialResult).
Definition settle (f : Finalized) : M process := emitToolExecutionEnd f;; mret (p_done f).
(** [tool.execute(..)]; the call then runs. *)
Definition launch (m : AssistantMessage) (ctx : AgentContext) (c : PreparedToolCall) : M process :=
  changes (λ r, r <| executed := executed r ++ [(m, ctx, c)] |>);;
  updates ← acts (execute env c);
  each (emitUpdate c) updates;;
  mret (p_running c).

(** The tool of a call ended: its hook runs, or the call is finalized. *)
Definition tool_ended (c : PreparedToolCall) (r : AgentToolResult) (isError : bool) : M process :=
  if has_afterToolCall env then mret (p_hook c r isError) else settle (mkFinalized (pc_toolCall c) r isError).
(** What happens to a call; an update after the end is ignored. *)
Definition react (p : process) (h : happening) : M process :=
  match p, h with
  | p_running c, h_update r => emitUpdate c r;; mret p
  | p_running c, h_ended (answered r) => tool_ended c r false
  | p_running c, h_ended (threw text) => tool_ended c (createErrorToolResult text) true
  | p_hook c r isError, h_hooked answer => settle (finalizeExecutedToolCall c r isError answer)
  | _, _ => mret p
  end.

Definition finished (ps : list process) : option (list Finalized) :=
  mapM (λ p, match p with p_done f => Some f | _ => None end) ps.
(** The calls run until all are finalized. *)
Fixpoint drive (fuel : nat) (m : AssistantMessage) (ctx : AgentContext) (ps : list process) : M (list Finalized) :=
  match finished ps with
  | Some fs => mret fs
  | None =>
      match fuel with
      | O => exhausted
      | S fuel =>
          happens ← acts (next env m ctx ps);
          match ps !! happens.1 with
          | Some p => p' ← react p happens.2; drive fuel m ctx (<[happens.1 := p']> ps)
          | None => drive fuel m ctx ps
          end
      end
  end.

(** *** Batches *)

(** One call of a sequential batch: its outcome, the only element of the answer. *)
Definition runToolCall (fuel : nat) (ctx : AgentContext) (m : AssistantMessage) (c : AgentToolCall) : M (list Finalized) :=
  preparation ← prepareToolCall ctx m c;
  match preparation with
  | immediate f => emitToolExecutionEnd f;; mret [f]
  | prepared c => p ← launch m ctx c; drive fuel m ctx [p]
  end.
Fixpoint executeToolCallsSequential (fuel : nat) (ctx : AgentContext) (m : AssistantMessage) (cs : list AgentToolCall)
    : M (list (Finalized * ToolResultMessage)) :=
  match cs with
  | [] => mret []
  | c :: cs =>
      emitToolExecutionStart c;;
      fs ← runToolCall fuel ctx m c;
      match fs with
      | f :: _ =>
          t ← report f;
          stop ← is_aborted;
          if stop : bool then mret [(f, t)]
          else rest ← executeToolCallsSequential fuel ctx m cs; mret ((f, t) :: rest)
      | [] => mret []
      end
  end.

(** The calls are prepared in order, until the signal aborts. *)
Fixpoint prepareToolCalls (ctx : AgentContext) (m : AssistantMessage) (cs : list AgentToolCall) : M (list preparation) :=
  match cs with
  | [] => mret []
  | c :: cs =>
      emitToolExecutionStart c;;
      preparation ← prepareToolCall ctx m c;
      match preparation with immediate f => emitToolExecutionEnd f | prepared _ => mret () end;;
      stop ← is_aborted;
      if stop : bool then mret [preparation]
      else rest ← prepareToolCalls ctx m cs; mret (preparation :: rest)
  end.
(** Each prepared call is then started, unless the signal has aborted. *)
Fixpoint startToolCalls (m : AssistantMessage) (ctx : AgentContext) (entries : list preparation) : M (list process) :=
  match entries with
  | [] => mret []
  | e :: entries =>
      p ← match e with
          | immediate f => mret (p_done f)
          | prepared c =>
              stop ← is_aborted;
              if stop : bool then settle (mkFinalized (pc_toolCall c) (createErrorToolResult ABORTED) true) else launch m ctx c
          end;
      ps ← startToolCalls m ctx entries;
      mret (p :: ps)
  end.
Fixpoint reports (fs : list Finalized) : M (list ToolResultMessage) :=
  match fs with [] => mret [] | f :: fs => t ← report f; ts ← reports fs; mret (t :: ts) end.
Definition executeToolCallsParallel (fuel : nat) (ctx : AgentContext) (m : AssistantMessage) (cs : list AgentToolCall)
    : M (list ToolResultMessage * bool) :=
  entries ← prepareToolCalls ctx m cs;
  ps ← startToolCalls m ctx entries;
  fs ← drive fuel m ctx ps;
  ts ← reports fs;
  mret (ts, shouldTerminateToolBatch fs).

Definition is_sequential (ctx : AgentContext) (c : AgentToolCall) : bool :=
  match find_tool (tc_name c) (tools ctx) with Some t => bool_decide (at_executionMode t = Some sequential) | None => false end.
Definition executeToolCalls (fuel : nat) (ctx : AgentContext) (m : AssistantMessage) : M (list ToolResultMessage * bool) :=
  let cs := toolCalls m in
  if bool_decide (toolExecution env = sequential) || existsb (is_sequential ctx) cs then
    done ← executeToolCallsSequential fuel ctx m cs;
    mret (done.*2, shouldTerminateToolBatch (done.*1))
  else executeToolCallsParallel fuel ctx m cs.
(** The tool calls of a response: the results, and whether the loop goes on for them. *)
Definition tool_batch (fuel : nat) (ctx : AgentContext) (m : AssistantMessage) : M (list ToolResultMessage * bool) :=
  match toolCalls m with
  | [] => mret ([], false)
  | cs =>
      batch ← (if bool_decide (am_stopReason m = stop_length)
               then ts ← failToolCallsFromTruncatedMessage cs; mret (ts, false)
               else executeToolCalls fuel ctx m);
      mret (batch.1, negb batch.2)
  end.

(** ** Turns *)

(** The messages of a queue. *)
Definition polls (f : W → W * attempt (list AgentMessage)) : M (list AgentMessage) :=
  l ← asks f; changes (λ r, r <| polled := polled r ++ l |>);; mret l.

Definition replaced_context (u : jsstr * (nat + list AgentMessage) * option (list AgentTool)) : M AgentContext :=
  let '(prompt, messages, ts) := u in
  match messages with
  | inl i => mret (mkContext prompt i ts)
  | inr l => i ← new_array l; mret (mkContext prompt i ts)
  end.
Definition replaced_options (u : TurnUpdate) (o : Options) : Options :=
  let '(provider, id) := default (model_provider o, model_id o) (u_model u) in
  mkOptions provider id
    (match u_thinkingLevel u with
     | None => reasoning o
     | Some level => if bool_decide (level = js "off") then None else Some level
     end).

(** The start of a turn after another. *)
Definition prepare_turn (ctx : AgentContext) (o : Options) (last : option Turn) (pending : list AgentMessage)
    : M (AgentContext * Options * list AgentMessage) :=
  match last with
  | None => mret (ctx, o, pending)
  | Some turn =>
      given ← reads (contents (t_context turn));
      update ← asks (prepareNextTurn env turn given);
      co ← match update with
           | None => mret (ctx, o)
           | Some u => ctx ← match u_context u with None => mret ctx | Some c => replaced_context c end; mret (ctx, replaced_options u o)
           end;
      pending ← (match pending with [] => polls (getSteeringMessages env) | _ => mret pending end);
      emits turn_start;;
      mret (co.1, co.2, pending)
  end.

Definition inject (ctx : AgentContext) (pending : list AgentMessage) : M () :=
  each (λ m, announce m;; push_message ctx m;; push_new m) pending.
Definition store_result (ctx : AgentContext) (t : ToolResultMessage) : M () :=
  push_message ctx (m_toolResult t);; push_new (m_toolResult t).
Definition end_run : M () := r ← reads newMessages; emits (agent_end r).

Definition has_failed (m : AssistantMessage) : bool :=
  bool_decide (am_stopReason m = stop_error) || bool_decide (am_stopReason m = stop_aborted).

(** One turn: the context, the options and the completed turn with [hasMoreToolCalls]; nothing when the run ended. *)
Definition turn (fuel : nat) (ctx : AgentContext) (o : Options) (last : option Turn) (pending : list AgentMessage)
    : M (option (AgentContext * Options * Turn * bool)) :=
  start ← prepare_turn ctx o last pending;
  let '(ctx, o, pending) := start in
  inject ctx pending;;
  message ← streamAssistantResponse fuel ctx o;
  push_new (m_assistant message);;
  if has_failed message then
    emits (turn_end message []);; end_run;; mret None
  else
    batch ← tool_batch fuel ctx message;
    each (store_result ctx) batch.1;;
    emits (turn_end message batch.1);;
    answer ← reads newMessages;
    given ← reads (contents ctx);
    let done := mkTurn message batch.1 ctx answer in
    stop ← asks (shouldStopAfterTurn env done given);
    if stop : bool then end_run;; mret None else mret (Some (ctx, o, done, batch.2)).

(** Both loops of [runLoop]: a round is a turn, or the poll for follow-up messages. *)
Fixpoint runLoop (turns fuel : nat) (ctx : AgentContext) (o : Options) (last : option Turn) (pending : list AgentMessage)
    (hasMoreToolCalls : bool) : M () :=
  match turns with
  | O => exhausted
  | S turns =>
      if hasMoreToolCalls || negb (length pending =? 0)%nat then
        next ← turn fuel ctx o last pending;
        match next with
        | None => mret ()
        | Some (ctx, o, done, more) =>
            pending ← polls (getSteeringMessages env);
            runLoop turns fuel ctx o (Some done) pending more
        end
      else
        followUps ← polls (getFollowUpMessages env);
        match followUps with
        | [] => end_run
        | _ => runLoop turns fuel ctx o last followUps true
        end
  end.
Definition start_loop (turns fuel : nat) (ctx : AgentContext) (o : Options) : M (list AgentMessage) :=
  pending ← polls (getSteeringMessages env);
  runLoop turns fuel ctx o None pending true;;
  reads newMessages.

(** [runAgentLoop]: the messages of the context are copied. *)
Definition runAgentLoop (turns fuel : nat) (prompts : list AgentMessage) (ctx : AgentContext) (o : Options) : M (list AgentMessage) :=
  given ← reads (contents ctx);
  i ← new_array (given ++ prompts);
  changes (λ r, r <| newMessages := prompts |>);;
  emits agent_start;; emits turn_start;;
  each announce prompts;;
  start_loop turns fuel (mkContext (systemPrompt ctx) i (tools ctx)) o.

(** The checks of [runAgentLoopContinue] and [agentLoopContinue]. *)
Definition continue_error (messages : list AgentMessage) : option jsstr :=
  match last messages with
  | None => Some (js "Cannot continue: no messages in context")
  | Some m => if bool_decide (role m = r_assistant) then Some (js "Cannot continue from message role: assistant") else None
  end.
(** [runAgentLoopContinue]: the array of the context is the caller's. *)
Definition runAgentLoopContinue (turns fuel : nat) (ctx : AgentContext) (o : Options) : M (list AgentMessage) :=
  messages ← reads (contents ctx);
  match continue_error messages with
  | Some text => rejects text
  | None =>
      changes (λ r, r <| newMessages := [] |>);;
      emits agent_start;; emits turn_start;;
      start_loop turns fuel ctx o
  end.

End Loop.

(** [createAgentStream]: the event that ends the stream, and its result. *)
Definition is_end (e : AgentEvent) : bool := match e with agent_end _ => true | _ => false end.
Definition end_result (e : AgentEvent) : list AgentMessage := match e with agent_end ms => ms | _ => [] end.

End AgentLoop.
