(* ===== verification/AgentTools.v ===== *)
(** * What a batch of tool calls does

    Lemmas about the tool calls of [AgentLoop]: the events of a batch are balanced, its
    results answer its calls in order, and a call is executed only if it was admitted. *)
From S2P Require Import Prelude JsMap JsString Json AgentData ToolExecution AgentLoop.

Module AgentTools.
Import AgentData Program AgentLoop.

(** ** The events of tools *)

(** [works l tr l']: while the calls [l] run, the events [tr] happen and then [l'] run. *)
Inductive works : list jsstr → list AgentEvent → list jsstr → Prop :=
| works_nil l l' : l ≡ₚ l' → works l [] l'
| works_start i n a l tr l' : works (i :: l) tr l' → works l (tool_execution_start i n a :: tr) l'
| works_update i n a u l tr l' : i ∈ l → works l tr l' → works l (tool_execution_update i n a u :: tr) l'
| works_end i n x e l k tr l' : l ≡ₚ i :: k → works k tr l' → works l (tool_execution_end i n x e :: tr) l'
| works_result t l tr l' : works l tr l' → works l (message_start (m_toolResult t) :: message_end (m_toolResult t) :: tr) l'.

Definition calls_started (tr : list AgentEvent) : list (jsstr * jsstr * Json.json) :=
  omap (λ e, match e with tool_execution_start i n a => Some (i, n, a) | _ => None end) tr.
Definition results_told (tr : list AgentEvent) : list ToolResultMessage :=
  omap (λ e, match e with message_end (m_toolResult t) => Some t | _ => None end) tr.
Definition as_call (c : AgentToolCall) : jsstr * jsstr * Json.json := (tc_id c, tc_name c, tc_arguments c).
(** A result answers a call. *)
Definition answers (c : AgentToolCall) (t : ToolResultMessage) : Prop := tr_toolCallId t = tc_id c ∧ tr_toolName t = tc_name c.
Definition answer_calls (cs : list AgentToolCall) (ts : list ToolResultMessage) : Prop := Forall2 answers (take (length ts) cs) ts.

#[export] Instance works_proper : Proper ((≡ₚ) ==> eq ==> (≡ₚ) ==> iff) works.
Proof.
  assert (∀ l tr l', works l tr l' → ∀ k k', l ≡ₚ k → l' ≡ₚ k' → works k tr k') as H.
  { induction 1 as [l l' P | i n a l tr l' W IH | i n a u l tr l' Hi W IH | i n x e l q tr l' P W IH | t l tr l' W IH]; intros k k' Hk Hk'.
    - constructor. by rewrite <- Hk, P.
    - constructor. apply IH; [by rewrite Hk | done].
    - constructor; [by rewrite <- Hk | by apply IH].
    - econstructor; [rewrite <- Hk; exact P | by apply IH].
    - constructor. by apply IH. }
  intros l k Hk tr ? <- l' k' Hk'. split; intros W; eapply H; try exact W; [done..| |]; by symmetry.
Qed.

Lemma works_app l tr l1 tr' l' : works l tr l1 → works l1 tr' l' → works l (tr ++ tr') l'.
Proof.
  induction 1 as [l l1 P | i n a l tr l1 V IH | i n a u l tr l1 Hi V IH | i n x e l q tr l1 P V IH | t l tr l1 V IH]; cbn; intros W.
  - by rewrite P.
  - constructor. by apply IH.
  - constructor; [done | by apply IH].
  - econstructor; [exact P | by apply IH].
  - constructor. by apply IH.
Qed.
Lemma works_frame l tr l' k : works l tr l' → works (l ++ k) tr (l' ++ k).
Proof.
  induction 1 as [l l' P | i n a l tr l' W IH | i n a u l tr l' Hi W IH | i n x e l q tr l' P W IH | t l tr l' W IH].
  - constructor. by rewrite P.
  - constructor. exact IH.
  - constructor; [apply elem_of_app; by left | done].
  - apply (works_end _ _ _ _ _ (q ++ k)); [by rewrite P | done].
  - by constructor.
Qed.

Definition not_end (e : AgentEvent) : Prop := is_end e = false.
Lemma works_not_end l tr l' : works l tr l' → Forall not_end tr.
Proof. induction 1; repeat constructor; done. Qed.

(** ** Frames *)

Section Tools.
Context {W : Type} (validate : AgentTool → AgentToolCall → result jsstr Json.json) (env : @Environment W) (F : Prop).
Notation Run := (@Run W).
Implicit Types (r : Run).

(** The calls that are executed were admitted: the tool exists, its arguments are valid, and the hook let them pass before
    the signal aborted. *)
Definition admitted (m : AssistantMessage) (ctx : AgentContext) (c : PreparedToolCall) : Prop :=
  find_tool (tc_name (pc_toolCall c)) (tools ctx) = Some (pc_tool c) ∧
  (∃ c', prepareToolCallArguments (pc_tool c) (pc_toolCall c) = Ok c' ∧ validate (pc_tool c) c' = Ok (pc_args c)) ∧
  ∃ given w w' b, beforeToolCall env m (pc_toolCall c) (pc_args c) ctx given w = (w', answered b) ∧ aborted env w' = false ∧
    match b with Some b => block b = false | None => True end.

Definition sourced (x : AssistantMessage * AgentContext * PreparedToolCall) : Prop :=
  let '(m, ctx, c) := x in
  pc_toolCall c ∈ toolCalls m ∧ has_failed m = false ∧ am_stopReason m ≠ stop_length ∧ admitted m ctx c.
(** Nothing that was emitted ends the run, and what was executed was admitted. *)
Definition calm r : Prop := Forall not_end (trace r) ∧ Forall sourced (executed r).
(** [quiet tr ex r r']: the events [tr] were emitted and [ex] executed, and the messages are as they were. *)
Record quiet (tr : list AgentEvent) (ex : list (AssistantMessage * AgentContext * PreparedToolCall)) r r' : Prop := mkQuiet {
  q_trace : trace r' = trace r ++ tr; q_executed : executed r' = executed r ++ ex; q_arrays : arrays r' = arrays r;
  q_new : newMessages r' = newMessages r; q_polled : polled r' = polled r; q_requests : requests r' = requests r }.

Lemma quiet_refl r : quiet [] [] r r.
Proof. by split; rewrite ?app_nil_r. Qed.
Lemma quiet_trans tr ex tr' ex' r r1 r' : quiet tr ex r r1 → quiet tr' ex' r1 r' → quiet (tr ++ tr') (ex ++ ex') r r'.
Proof. intros [] []. split; [by rewrite app_assoc; congruence | by rewrite app_assoc; congruence | congruence..]. Qed.
Lemma quiet_calm tr r r' : quiet tr [] r r' → calm r → Forall not_end tr → calm r'.
Proof. unfold calm. intros [-> -> _ _ _ _] [H1 H2] H3. rewrite app_nil_r. split; [by apply Forall_app | done]. Qed.

(** ** The primitives *)

Lemma wp_emits e r (Q : () → Run → Prop) : (∀ r', quiet [e] [] r r' → Q () r') → wp F calm (emits env e) r Q.
Proof. intros H. apply wp_changes, H. by split; rewrite ?app_nil_r. Qed.
Lemma wp_acts {A} (f : W → W * A) r (Q : A → Run → Prop) : (∀ a r', quiet [] [] r r' → Q a r') → wp F calm (acts f) r Q.
Proof. intros H. unfold wp, acts. destruct (f (world r)) as [w a]. apply H. by split; rewrite ?app_nil_r. Qed.
Lemma wp_asks {A} (f : W → W * attempt A) r (Q : A → Run → Prop) :
  calm r → (∀ a r', quiet [] [] r r' → Q a r') → wp F calm (asks f) r Q.
Proof. intros C H. unfold wp, asks. destruct (f (world r)) as [w [a|text]]; [|exact C]. apply H. by split; rewrite ?app_nil_r. Qed.
Lemma wp_does (f : W → W) r (Q : () → Run → Prop) : (∀ r', quiet [] [] r r' → Q () r') → wp F calm (does f) r Q.
Proof. intros H. apply wp_changes, H. by split; rewrite ?app_nil_r. Qed.
Lemma wp_is_aborted r (Q : bool → Run → Prop) : Q (aborted env (world r)) r → wp F calm (is_aborted env) r Q.
Proof. intros H. exact H. Qed.

(** The pieces of the trace of a piece of work. *)
Ltac chain := repeat match goal with
  | H : quiet ?a ?b ?r ?r1, K : quiet ?c ?d ?r1 ?r2 |- _ => pose proof (quiet_trans _ _ _ _ _ _ _ H K); clear H K
  end.

Lemma wp_announce m r (Q : () → Run → Prop) :
  (∀ r', quiet [message_start m; message_end m] [] r r' → Q () r') → wp F calm (announce env m) r Q.
Proof.
  intros H. apply wp_bind, wp_emits. intros r1 Q1. apply wp_emits. intros r2 Q2. apply H.
  exact (quiet_trans _ _ _ _ _ _ _ Q1 Q2).
Qed.

(** A result of the call [c] was told. *)
Lemma wp_report f r (Q : ToolResultMessage → Run → Prop) :
  (∀ t r', answers (f_toolCall f) t → quiet [message_start (m_toolResult t); message_end (m_toolResult t)] [] r r' → Q t r') →
  wp F calm (report env f) r Q.
Proof. intros H. apply wp_bind, wp_reads, wp_bind, wp_announce. intros r' Hr. apply wp_ret, H; [done | exact Hr]. Qed.

Lemma wp_updates c us r (Q : () → Run → Prop) :
  (∀ tr r', quiet tr [] r r' → calls_started tr = [] → results_told tr = [] → (∀ l, tc_id (pc_toolCall c) ∈ l → works l tr l) → Q () r') →
  wp F calm (each (emitUpdate env c) us) r Q.
Proof.
  revert r Q. induction us as [|u us IH]; intros r Q H; cbn [each].
  { apply wp_ret, (H []); [apply quiet_refl | done | done | by constructor]. }
  apply wp_bind, wp_emits. intros r1 Q1. apply IH. intros tr r2 Q2 Hc Ht Hw.
  eapply H; [exact (quiet_trans _ _ _ _ _ _ _ Q1 Q2) | exact Hc | exact Ht |]. intros l Hl. constructor; auto.
Qed.

(** ** Calls *)

Definition entry_call (e : preparation) : AgentToolCall :=
  match e with immediate f => f_toolCall f | prepared c => pc_toolCall c end.
Definition entry_admitted m ctx (e : preparation) : Prop := match e with immediate _ => True | prepared c => admitted m ctx c end.
Definition entry_alive (e : preparation) : list jsstr := match e with immediate _ => [] | prepared c => [tc_id (pc_toolCall c)] end.
Definition call_of (p : process) : AgentToolCall :=
  match p with p_running c | p_hook c _ _ => pc_toolCall c | p_done f => f_toolCall f end.
Definition alive (p : process) : list jsstr :=
  match p with p_running c | p_hook c _ _ => [tc_id (pc_toolCall c)] | p_done _ => [] end.

Lemma wp_prepare ctx m c r (Q : preparation → Run → Prop) :
  (∀ e r', entry_call e = c → entry_admitted m ctx e → quiet [] [] r r' → Q e r') →
  wp F calm (prepareToolCall validate env ctx m c) r Q.
Proof.
  intros H. unfold prepareToolCall. pose proof (quiet_refl r) as R.
  destruct (find_tool (tc_name c) (tools ctx)) as [tool|] eqn:E; [|by apply wp_ret, H].
  destruct (prepareToolCallArguments tool c) as [c'|text] eqn:Ep; cbn [rbind]; [|by apply wp_ret, H].
  destruct (validate tool c') as [args|text] eqn:Ev; [|by apply wp_ret, H].
  apply wp_bind, wp_reads, wp_bind. unfold wp at 1, acts.
  destruct (beforeToolCall env m c args ctx (contents ctx r) (world r)) as [w b] eqn:Eb.
  apply wp_bind, wp_is_aborted, wp_ret. assert (Q0 : quiet [] [] r (r <| world := w |>)) by (split; rewrite ?app_nil_r; done).
  destruct b as [b|text]; [|by apply H]. destruct (aborted env _) eqn:Ea; [by apply H|].
  assert (A : match b with Some b => block b = false | None => True end → admitted m ctx (mkPrepared c tool args)).
  { intros Hb. split_and!; [exact E | by exists c' | by exists (contents ctx r), (world r), w, b]. }
  destruct b as [b|]; [|apply H; [done | by apply A | done]].
  destruct (block b) eqn:Hb; [by apply H | apply H; [done | by apply A | done]].
Qed.

Lemma wp_launch m ctx c r (Q : process → Run → Prop) :
  (∀ tr r', quiet tr [(m, ctx, c)] r r' → calls_started tr = [] → results_told tr = [] →
     (∀ l, tc_id (pc_toolCall c) ∈ l → works l tr l) → Q (p_running c) r') →
  wp F calm (launch env m ctx c) r Q.
Proof.
  intros H. apply wp_bind, wp_changes, wp_bind, wp_acts. intros us r1 Q1. apply wp_bind, wp_updates.
  intros tr r2 Q2 Hc Ht Hw. apply wp_ret, (H tr); [|done..].
  assert (Q0 : quiet [] [(m, ctx, c)] r (r <| executed := executed r ++ [(m, ctx, c)] |>)) by (split; rewrite ?app_nil_r; done).
  exact (quiet_trans _ _ _ _ _ _ _ Q0 (quiet_trans _ _ _ _ _ _ _ Q1 Q2)).
Qed.

Lemma wp_settle f r (Q : process → Run → Prop) :
  (∀ r', quiet [tool_execution_end (tc_id (f_toolCall f)) (tc_name (f_toolCall f)) (f_result f) (f_isError f)] [] r r' → Q (p_done f) r') →
  wp F calm (settle env f) r Q.
Proof. intros H. apply wp_bind, wp_emits. intros r' Hr. by apply wp_ret, H. Qed.

(** A happening moves one call. *)
Lemma wp_react p h r (Q : process → Run → Prop) :
  (∀ p' tr r', call_of p' = call_of p → quiet tr [] r r' → calls_started tr = [] → results_told tr = [] →
     (∀ k, works (alive p ++ k) tr (alive p' ++ k)) → Q p' r') →
  wp F calm (react env p h) r Q.
Proof.
  intros H. assert (Hsame : wp F calm (mret p) r Q) by (apply wp_ret, (H p []); [done | apply quiet_refl | done..|by constructor]).
  assert (Hdone : ∀ f c, call_of p = f_toolCall f → f_toolCall f = c → alive p = [tc_id c] → wp F calm (settle env f) r Q).
  { intros f c Hp Hc Ha. apply wp_settle. intros r' Hr. eapply H; [by rewrite Hp | exact Hr | done | done |].
    intros k. rewrite Ha, Hc. cbn. by eapply works_end, works_nil. }
  assert (Hend : ∀ c x e, p = p_running c → wp F calm (tool_ended env c x e) r Q).
  { intros c x e ->. unfold tool_ended. destruct (has_afterToolCall env); [|by apply (Hdone _ (pc_toolCall c))].
    apply wp_ret, (H _ []); [done | apply quiet_refl | done..|by constructor]. }
  destruct p as [c|c x e|f], h as [u|[x'|text]|a]; try exact Hsame; cbn [react].
  - apply wp_bind, wp_emits. intros r' Hr. apply wp_ret. eapply H; [done | exact Hr | done | done |].
    intros k. constructor; [cbn; by left | by constructor].
  - by apply Hend.
  - by apply Hend.
  - apply (Hdone _ (pc_toolCall c)); unfold finalizeExecutedToolCall; repeat case_match; done.
Qed.

Lemma finished_calls ps fs : finished ps = Some fs → f_toolCall <$> fs = call_of <$> ps ∧ concat (alive <$> ps) = [].
Proof.
  unfold finished. intros H. apply mapM_Some in H. induction H as [|p f ps fs Hp Hps [IH IH']]; [done|].
  destruct p; try done. injection Hp as ->. cbn. by rewrite IH, IH'.
Qed.
Lemma alive_insert ps i p p' : ps !! i = Some p → ∃ k, concat (alive <$> ps) ≡ₚ alive p ++ k ∧ concat (alive <$> <[i:=p']> ps) ≡ₚ alive p' ++ k.
Proof.
  intros H. apply list_elem_of_split_length in H as (l1 & l2 & -> & ->). exists (concat (alive <$> l1) ++ concat (alive <$> l2)).
  rewrite insert_app_r_alt, Nat.sub_diag by done. cbn [insert list_insert]. rewrite !fmap_app, !concat_app. cbn. split; apply Permutation_app_swap_app.
Qed.

(** The calls of a batch end, each once. *)
Lemma wp_drive fuel m ctx ps r (Q : list Finalized → Run → Prop) :
  F → (∀ fs tr r', f_toolCall <$> fs = call_of <$> ps → quiet tr [] r r' → calls_started tr = [] → results_told tr = [] →
     works (concat (alive <$> ps)) tr [] → Q fs r') →
  wp F calm (drive env fuel m ctx ps) r Q.
Proof.
  intros HF. revert ps r Q. induction fuel as [|fuel IH]; intros ps r Q H; cbn [drive].
  all: destruct (finished ps) as [fs|] eqn:E;
    [destruct (finished_calls _ _ E) as [Hc Ha]; apply wp_ret, (H fs []); [done | apply quiet_refl | done..|rewrite Ha; by constructor]|].
  - by apply wp_exhausted.
  - apply wp_bind, wp_acts. intros [i h] r1 Q1. cbn [fst snd]. destruct (ps !! i) as [p|] eqn:Hi.
    + apply wp_bind, wp_react. intros p' tr r2 Hp Q2 Hc Ht Hw. apply IH. intros fs tr' r3 Hfs Q3 Hc' Ht' Hw'.
      destruct (alive_insert ps i p p' Hi) as (k & Hk & Hk').
      apply (H fs ([] ++ tr ++ tr')); [| exact (quiet_trans _ _ _ _ _ _ _ Q1 (quiet_trans _ _ _ _ _ _ _ Q2 Q3)) | | |].
      * rewrite Hfs, list_fmap_insert, Hp. apply list_insert_id. by rewrite list_lookup_fmap, Hi.
      * unfold calls_started in *. cbn. by rewrite omap_app, Hc, Hc'.
      * unfold results_told in *. cbn. by rewrite omap_app, Ht, Ht'.
      * cbn. rewrite Hk. eapply works_app; [apply Hw|]. by rewrite <- Hk'.
    + apply IH. intros fs tr r2 Hfs Q2 Hc Ht Hw. exact (H fs ([] ++ tr) r2 Hfs (quiet_trans _ _ _ _ _ _ _ Q1 Q2) Hc Ht Hw).
Qed.

(** ** Batches *)

Definition complete (cs : list AgentToolCall) (ts : list ToolResultMessage) : Prop :=
  length ts = length cs ∨ ∃ w, aborted env w = true.
(** The calls [cs] were worked on by the events [tr], with the results [ts]: the calls were started in order, each that was
    started ended once, each has its result, in order, and all were started unless the signal aborted. *)
Record told (cs : list AgentToolCall) (ts : list ToolResultMessage) (tr : list AgentEvent) : Prop := mkTold {
  tl_works : works [] tr []; tl_started : calls_started tr = as_call <$> take (length ts) cs; tl_results : results_told tr = ts;
  tl_answers : answer_calls cs ts; tl_complete : complete cs ts }.
(** What was executed for the calls [cs] of the message. *)
Definition ran m ctx (cs : list AgentToolCall) (ex : list PreparedToolCall) : Prop :=
  pc_toolCall <$> ex `sublist_of` cs ∧ Forall (admitted m ctx) ex.
Definition with_source m ctx (ex : list PreparedToolCall) : list (AssistantMessage * AgentContext * PreparedToolCall) :=
  (λ c, (m, ctx, c)) <$> ex.
Definition batch_done m ctx cs ts r r' : Prop :=
  ∃ tr ex, quiet tr (with_source m ctx ex) r r' ∧ told cs ts tr ∧ ran m ctx cs ex.

Lemma works_frame_l l tr l' k : works l tr l' → works (k ++ l) tr (k ++ l').
Proof. intros Hw. rewrite !(Permutation_app_comm k). by apply works_frame. Qed.
Lemma started_app tr tr' : calls_started (tr ++ tr') = calls_started tr ++ calls_started tr'.
Proof. apply omap_app. Qed.
Lemma told_app tr tr' : results_told (tr ++ tr') = results_told tr ++ results_told tr'.
Proof. apply omap_app. Qed.
Lemma source_app m ctx a b : with_source m ctx (a ++ b) = with_source m ctx a ++ with_source m ctx b.
Proof. apply fmap_app. Qed.

(** One call and the rest of the batch. *)
Lemma told_cons c cs t ts tr tr' : works [] tr [] → calls_started tr = [as_call c] → results_told tr = [t] → answers c t →
  told cs ts tr' → told (c :: cs) (t :: ts) (tr ++ tr').
Proof.
  intros Hw Hc Ht Ha [Hw' Hc' Ht' Ha' Hd]. split.
  - by eapply works_app.
  - by rewrite started_app, Hc, Hc'.
  - by rewrite told_app, Ht, Ht'.
  - by constructor.
  - destruct Hd as [Hd|Hd]; [left; cbn; by rewrite Hd | by right].
Qed.
Lemma told_stop c cs t tr : works [] tr [] → calls_started tr = [as_call c] → results_told tr = [t] → answers c t →
  (∃ w, aborted env w = true) → told (c :: cs) [t] tr.
Proof. intros Hw Hc Ht Ha Hd. split; [done..| | by right]. constructor; [exact Ha | constructor]. Qed.
Lemma told_nil : told [] [] [].
Proof. split; [by constructor | done | done | constructor | by left]. Qed.

Lemma wp_truncated m ctx cs r (Q : list ToolResultMessage → Run → Prop) :
  (∀ ts tr r', quiet tr (with_source m ctx []) r r' → told cs ts tr → Q ts r') →
  wp F calm (failToolCallsFromTruncatedMessage env cs) r Q.
Proof.
  revert r Q. induction cs as [|c cs IH]; intros r Q H; cbn [failToolCallsFromTruncatedMessage].
  { apply wp_ret, (H _ []); [apply quiet_refl | apply told_nil]. }
  apply wp_bind, wp_emits. intros r1 Q1. apply wp_bind, wp_emits. intros r2 Q2. apply wp_bind, wp_report. intros t r3 Ht Q3.
  apply wp_bind, IH. intros ts tr r4 Q4 T. apply wp_ret. eapply H.
  - exact (quiet_trans _ _ _ _ _ _ _ (quiet_trans _ _ _ _ _ _ _ Q1 (quiet_trans _ _ _ _ _ _ _ Q2 Q3)) Q4).
  - apply told_cons; [|done..|exact T]. cbn. apply works_start, (works_end _ _ _ _ _ []); [done|]. constructor. by constructor.
Qed.

Lemma wp_run_one fuel ctx m c r (Q : list Finalized → Run → Prop) : F →
  (∀ f tr ex r', f_toolCall f = c → quiet tr (with_source m ctx ex) r r' → ran m ctx [c] ex → calls_started tr = [] → results_told tr = [] →
     works [tc_id c] tr [] → Q [f] r') →
  wp F calm (runToolCall validate env fuel ctx m c) r Q.
Proof.
  intros HF H. apply wp_bind, wp_prepare. intros [pc|f] r1 Hc Ha Q1; cbn in Hc, Ha.
  - apply wp_bind, wp_launch. intros tr r2 Q2 Hs Ht Hw. apply wp_drive; [done|]. intros fs tr' r3 Hf Q3 Hs' Ht' Hw'.
    destruct fs as [|f [|? ?]]; try done. injection Hf as Hf. cbn in Hf, Hw'. rewrite Hc in *.
    eapply (H f _ [pc]); [done | exact (quiet_trans _ _ _ _ _ _ _ Q1 (quiet_trans _ _ _ _ _ _ _ Q2 Q3)) | | | |].
    + split; [cbn; by rewrite Hc | by constructor].
    + cbn. by rewrite started_app, Hs, Hs'.
    + cbn. by rewrite told_app, Ht, Ht'.
    + cbn. eapply works_app; [apply Hw; by left | exact Hw'].
  - apply wp_bind, wp_emits. intros r2 Q2. apply wp_ret. rewrite Hc in *.
    eapply (H f _ []); [done | exact (quiet_trans _ _ _ _ _ _ _ Q1 Q2) | split; [apply sublist_nil_l | done] | done | done |].
    apply (works_end _ _ _ _ _ []); [done | by constructor].
Qed.

Lemma wp_sequential fuel ctx m cs r (Q : list (Finalized * ToolResultMessage) → Run → Prop) : F →
  (∀ done tr ex r', quiet tr (with_source m ctx ex) r r' → told cs done.*2 tr → ran m ctx cs ex → Q done r') →
  wp F calm (executeToolCallsSequential validate env fuel ctx m cs) r Q.
Proof.
  intros HF. revert r Q. induction cs as [|c cs IH]; intros r Q H; cbn [executeToolCallsSequential].
  { apply wp_ret, (H [] [] []); [apply quiet_refl | apply told_nil | by split]. }
  apply wp_bind, wp_emits. intros r1 Q1. apply wp_bind, wp_run_one; [done|]. intros f tr ex r2 Hf Q2 [Hx Ha] Hs Ht Hw.
  apply wp_bind, wp_report. intros t r3 Hans Q3. rewrite Hf in Hans.
  pose proof (quiet_trans _ _ _ _ _ _ _ (quiet_trans _ _ _ _ _ _ _ Q1 Q2) Q3) as Q4. rewrite app_nil_r in Q4.
  set (tr1 := _ ++ _) in Q4. assert (works [] tr1 []) as W1.
  { unfold tr1. cbn. apply works_start. eapply works_app; [exact Hw|]. constructor. by constructor. }
  assert (calls_started tr1 = [as_call c]) as S1 by (unfold tr1; cbn; by rewrite started_app, Hs).
  assert (results_told tr1 = [t]) as T1 by (unfold tr1; cbn; by rewrite told_app, Ht).
  apply wp_bind, wp_is_aborted. destruct (aborted env (world r3)) eqn:Es.
  - apply wp_ret. eapply (H _ tr1 ex); [exact Q4 | apply told_stop; [done..|by exists (world r3)] |].
    split; [|done]. etrans; [exact Hx|]. apply sublist_skip. apply sublist_nil_l.
  - apply wp_bind, IH. intros rest tr' ex' r4 Q5 T [Hx' Ha']. apply wp_ret.
    eapply (H _ (tr1 ++ tr') (ex ++ ex')); [rewrite source_app; exact (quiet_trans _ _ _ _ _ _ _ Q4 Q5) | by apply told_cons |].
    split; [rewrite fmap_app; exact (sublist_app _ [c] _ _ Hx Hx') | by apply Forall_app].
Qed.

Lemma wp_prepare_all ctx m cs r (Q : list preparation → Run → Prop) :
  (∀ es tr r', entry_call <$> es = take (length es) cs → Forall (entry_admitted m ctx) es → (length es = length cs ∨ ∃ w, aborted env w = true) →
     quiet tr [] r r' → calls_started tr = as_call <$> (entry_call <$> es) → results_told tr = [] →
     works [] tr (concat (entry_alive <$> es)) → Q es r') →
  wp F calm (prepareToolCalls validate env ctx m cs) r Q.
Proof.
  revert r Q. induction cs as [|c cs IH]; intros r Q H; cbn [prepareToolCalls].
  { apply wp_ret, (H [] []); [done | done | by left | apply quiet_refl | done | done | by constructor]. }
  apply wp_bind, wp_emits. intros r1 Q1. apply wp_bind, wp_prepare. intros e r2 Hc Ha Q2.
  assert (∀ P : () → Run → Prop, (∀ tr r', quiet tr [] r2 r' → calls_started tr = [] → results_told tr = [] → works [tc_id c] tr (entry_alive e) → P () r') →
    wp F calm (match e with immediate f => emitToolExecutionEnd env f | prepared _ => mret () end) r2 P) as Hend.
  { intros P HP. destruct e as [pc|f]; cbn in Hc; subst c.
    - apply wp_ret, (HP []); [apply quiet_refl | done | done | by constructor].
    - apply wp_emits. intros r3 Q3. apply (HP _ r3 Q3); [done | done |]. apply (works_end _ _ _ _ _ []); [done | by constructor]. }
  apply wp_bind, Hend. intros tr r3 Q3 Hs Ht Hw. apply wp_bind, wp_is_aborted.
  pose proof (quiet_trans _ _ _ _ _ _ _ (quiet_trans _ _ _ _ _ _ _ Q1 Q2) Q3) as Q4. cbn [app] in Q4.
  destruct (aborted env (world r3)) eqn:Es.
  - apply wp_ret. eapply (H [e]); [cbn; by rewrite Hc, take_0 | by constructor | right; by exists (world r3) | exact Q4 | | |]; cbn.
    + transitivity (as_call c :: calls_started tr); [done | by rewrite Hs, Hc].
    + done.
    + rewrite app_nil_r. by apply works_start.
  - apply wp_bind, IH. intros es tr' r4 He Hadm Hcomp Q5 Hs' Ht' Hw'. apply wp_ret.
    eapply (H (e :: es)); [cbn; by rewrite Hc, He | by constructor | | exact (quiet_trans _ _ _ _ _ _ _ Q4 Q5) | | |]; cbn.
    + destruct Hcomp as [->|?]; [by left | by right].
    + transitivity (as_call c :: calls_started (tr ++ tr')); [done | by rewrite started_app, Hs, Hs', Hc].
    + transitivity (results_told (tr ++ tr')); [done | by rewrite told_app, Ht, Ht'].
    + apply works_start. eapply works_app; [exact Hw|]. pose proof (works_frame_l _ _ _ (entry_alive e) Hw') as Hk. by rewrite app_nil_r in Hk.
Qed.

Lemma wp_start_all m ctx es r (Q : list process → Run → Prop) : Forall (entry_admitted m ctx) es →
  (∀ ps tr ex r', call_of <$> ps = entry_call <$> es → quiet tr (with_source m ctx ex) r r' → ran m ctx (entry_call <$> es) ex →
     calls_started tr = [] → results_told tr = [] → works (concat (entry_alive <$> es)) tr (concat (alive <$> ps)) → Q ps r') →
  wp F calm (startToolCalls env m ctx es) r Q.
Proof.
  intros Hes. revert r Q. induction Hes as [|e es He Hes IH]; intros r Q H; cbn [startToolCalls].
  { apply wp_ret, (H [] [] []); [done | apply quiet_refl | by split | done | done | by constructor]. }
  assert (∀ P : process → Run → Prop, (∀ p tr ex r', call_of p = entry_call e → quiet tr (with_source m ctx ex) r r' → ran m ctx [entry_call e] ex →
      calls_started tr = [] → results_told tr = [] → works (entry_alive e) tr (alive p) → P p r') →
    wp F calm (match e with immediate f => mret (p_done f)
      | prepared c => stop ← is_aborted env;
          if stop : bool then settle env (mkFinalized (pc_toolCall c) (createErrorToolResult ABORTED) true) else launch env m ctx c end) r P) as Hone.
  { intros P HP. assert (ran m ctx [entry_call e] []) as R0 by (split; [apply sublist_nil_l | done]). destruct e as [c|f].
    - apply wp_bind, wp_is_aborted. destruct (aborted env (world r)).
      + apply wp_settle. intros r' Hr. eapply (HP _ _ []); [done | exact Hr | done | done | done |].
        apply (works_end _ _ _ _ _ []); [done | by constructor].
      + apply wp_launch. intros tr r' Hr Hs Ht Hw. apply (HP _ tr [c]); [done | exact Hr | | done | done |].
        { split; [done | constructor; [exact He | constructor]]. }
        apply Hw. by left.
    - apply wp_ret, (HP _ [] []); [done | apply quiet_refl | done | done | done | by constructor]. }
  apply wp_bind, Hone. intros p tr ex r1 Hp Q1 [Hx Ha] Hs Ht Hw. apply wp_bind, IH. intros ps tr' ex' r2 Hps Q2 [Hx' Ha'] Hs' Ht' Hw'.
  apply wp_ret, (H _ (tr ++ tr') (ex ++ ex')); cbn.
  - by rewrite Hp, Hps.
  - rewrite source_app. exact (quiet_trans _ _ _ _ _ _ _ Q1 Q2).
  - split; [rewrite fmap_app; exact (sublist_app _ [entry_call e] _ _ Hx Hx') | by apply Forall_app].
  - by rewrite started_app, Hs, Hs'.
  - by rewrite told_app, Ht, Ht'.
  - eapply works_app; [by apply works_frame | by apply works_frame_l].
Qed.

Lemma wp_reports fs r (Q : list ToolResultMessage → Run → Prop) :
  (∀ ts tr r', Forall2 answers (f_toolCall <$> fs) ts → quiet tr [] r r' → calls_started tr = [] → results_told tr = ts → works [] tr [] → Q ts r') →
  wp F calm (reports env fs) r Q.
Proof.
  revert r Q. induction fs as [|f fs IH]; intros r Q H; cbn [reports].
  { apply wp_ret, (H [] []); [constructor | apply quiet_refl | done | done | by constructor]. }
  apply wp_bind, wp_report. intros t r1 Ha Q1. apply wp_bind, IH. intros ts tr r2 Hf Q2 Hs Ht Hw.
  apply wp_ret. eapply H; [by constructor | exact (quiet_trans _ _ _ _ _ _ _ Q1 Q2) | done | by rewrite <- Ht | by constructor].
Qed.

Lemma wp_parallel fuel ctx m cs r (Q : list ToolResultMessage * bool → Run → Prop) : F →
  (∀ b tr ex r', quiet tr (with_source m ctx ex) r r' → told cs b.1 tr → ran m ctx cs ex → Q b r') →
  wp F calm (executeToolCallsParallel validate env fuel ctx m cs) r Q.
Proof.
  intros HF H. apply wp_bind, wp_prepare_all. intros es tr r1 He Ha Hd Q1 Hs Ht Hw.
  apply wp_bind, wp_start_all; [done|]. intros ps tr1 ex r2 Hps Q2 [Hx Hadm] Hs1 Ht1 Hw1.
  apply wp_bind, wp_drive; [done|]. intros fs tr2 r3 Hfs Q3 Hs2 Ht2 Hw2.
  apply wp_bind, wp_reports. intros ts tr3 r4 Hts Q4 Hs3 Ht3 Hw3. rewrite Hfs, Hps in Hts.
  assert (length ts = length es) as El by (apply Forall2_length in Hts; by rewrite length_fmap in Hts).
  apply wp_ret, (H _ (tr ++ tr1 ++ tr2 ++ tr3) ex); cbn [fst].
  - pose proof (quiet_trans _ _ _ _ _ _ _ Q1 (quiet_trans _ _ _ _ _ _ _ Q2 (quiet_trans _ _ _ _ _ _ _ Q3 Q4))) as Q5.
    cbn in Q5. by rewrite app_nil_r in Q5.
  - split.
    + eapply works_app; [exact Hw|]. eapply works_app; [exact Hw1|]. by eapply works_app.
    + by rewrite !started_app, Hs, Hs1, Hs2, Hs3, !app_nil_r, He, El.
    + by rewrite !told_app, Ht, Ht1, Ht2, Ht3.
    + unfold answer_calls. by rewrite El, <- He.
    + unfold complete. by rewrite El.
  - split; [|done]. etrans; [exact Hx|]. rewrite He. apply sublist_take.
Qed.

(** The tool calls of a response. *)
Lemma wp_tool_batch fuel ctx m r (Q : list ToolResultMessage * bool → Run → Prop) : F →
  (∀ b tr ex r', quiet tr (with_source m ctx ex) r r' → told (toolCalls m) b.1 tr → ran m ctx (toolCalls m) ex →
     (am_stopReason m = stop_length → ex = []) → Q b r') →
  wp F calm (tool_batch validate env fuel ctx m) r Q.
Proof.
  intros HF H. unfold tool_batch. destruct (toolCalls m) as [|c cs] eqn:E.
  { apply wp_ret, (H _ [] []); [apply quiet_refl | apply told_nil | by split | done]. }
  apply wp_bind. case_bool_decide as Hl.
  - apply wp_bind, (wp_truncated m ctx). intros ts tr r1 Q1 T. apply wp_ret, wp_ret, (H _ tr []); [done | done | split; [apply sublist_nil_l | done] | done].
  - unfold executeToolCalls. rewrite E. destruct (_ || _).
    + apply wp_bind, wp_sequential; [done|]. intros done tr ex r1 Q1 T R. by apply wp_ret, wp_ret, (H _ tr ex).
    + apply wp_parallel; [done|]. intros b tr ex r1 Q1 T R. by apply wp_ret, (H _ tr ex).
Qed.

End Tools.
End AgentTools.
