(* ===== verification/AgentLoopProps.v ===== *)
(** * Runs of the agent loop

    A run is read as a list of turns: its events, its answer, the requests it sends and
    the calls it executes are those of its turns.  [views_of_run] shows it, and the
    theorems draw from it. *)
From S2P Require Import Prelude JsMap JsString Json AgentData ToolExecution AgentLoop AgentTools.

Module AgentLoopProps.
Import AgentData Program AgentLoop AgentTools.

(** ** Turns *)

(** What a turn did: the messages it injected and the request it sent, the events of the response before its end, the
    response, the events and the results of its tool calls, and what was executed. *)
Record view := mkView {
  v_injected : list AgentMessage; v_request : list AgentMessage; v_speech : list AgentEvent; v_response : AssistantMessage;
  v_work : list AgentEvent; v_results : list ToolResultMessage; v_context : AgentContext; v_executed : list PreparedToolCall }.

Definition announced (ms : list AgentMessage) : list AgentEvent := concat ((λ m, [message_start m; message_end m]) <$> ms).
(** The events of a turn. *)
Definition turn_events (v : view) : list AgentEvent :=
  turn_start :: announced (v_injected v) ++ v_speech v ++ message_end (m_assistant (v_response v)) :: v_work v
    ++ [turn_end (v_response v) (v_results v)].
(** The messages of a turn. *)
Definition turn_messages (v : view) : list AgentMessage :=
  v_injected v ++ m_assistant (v_response v) :: (m_toolResult <$> v_results v).

(** While a response is streamed its partial message is the last of the context. *)
Definition say (l : list AgentMessage) (e : AgentEvent) : list AgentMessage :=
  match e with message_start m => l ++ [m] | message_update m => removelast l ++ [m] | _ => l end.
(** The partial messages that stay in the context when a stream starts its message more than once. *)
Definition leftover (v : view) : list AgentMessage := removelast (foldl say [] (v_speech v)).
(** What a turn adds to the context. *)
Definition turn_context (v : view) : list AgentMessage :=
  v_injected v ++ leftover v ++ m_assistant (v_response v) :: (m_toolResult <$> v_results v).

Definition speaking (e : AgentEvent) : Prop := ∃ a, e = message_start (m_assistant a) ∨ e = message_update (m_assistant a).
Definition starts_message (l : list AgentEvent) : Prop := ∃ p rest, l = message_start (m_assistant p) :: rest.

Lemma announced_app a b : announced (a ++ b) = announced a ++ announced b.
Proof. unfold announced. by rewrite fmap_app, concat_app. Qed.

Lemma speaking_not_end l : Forall speaking l → Forall not_end l.
Proof. intros H. eapply Forall_impl; [exact H|]. by intros e [a [-> | ->]]. Qed.
Lemma announced_not_end l : Forall not_end (announced l).
Proof. induction l as [|m l IH]; cbn; repeat constructor; done. Qed.

Lemma say_prefix l k sp : k ≠ [] → Forall speaking sp → foldl say (l ++ k) sp = l ++ foldl say k sp ∧ foldl say k sp ≠ [].
Proof.
  intros Hk H. revert k Hk. induction H as [|e sp [a [-> | ->]] H IH]; intros k Hk; [done|..]; cbn [foldl say].
  - rewrite <- app_assoc. apply IH. by intros [_ ?]%app_nil.
  - rewrite removelast_app, <- app_assoc by done. apply IH. by intros [_ ?]%app_nil.
Qed.
Lemma say_started l sp : starts_message sp → Forall speaking sp → removelast (foldl say l sp) = l ++ removelast (foldl say [] sp).
Proof.
  intros (p & rest & ->) [_ H]%Forall_cons. cbn [foldl say]. destruct (say_prefix l [m_assistant p] rest) as [-> Hn]; [done..|].
  by rewrite removelast_app.
Qed.

Lemma alter_insert {A} (f : A → A) i x (l : list A) : (i < length l)%nat → alter f i (<[i:=x]> l) = <[i:=f x]> l.
Proof.
  intros Hi. apply list_eq. intros j. destruct (decide (i = j)) as [<-|Hne].
  - rewrite list_lookup_alter, !list_lookup_insert_eq by done. by rewrite decide_True.
  - by rewrite list_lookup_alter_ne, !list_lookup_insert_ne by done.
Qed.

Section Loop.
Context {W : Type} (validate : AgentTool → AgentToolCall → result jsstr Json.json) (env : @Environment W) (F : Prop).
Notation Run := (@Run W).
Implicit Types (r : Run).
Notation told := (told env).
Notation ran := (ran validate env).
Notation calm := (calm validate env).

(** ** Streaming *)

(** The response [m] was streamed by the events [sp]. *)
Record spoken (ctx : AgentContext) (addedPartial : bool) (sp : list AgentEvent) (m : AssistantMessage) r r' : Prop := mkSpoken {
  s_trace : trace r' = trace r ++ sp ++ [message_end (m_assistant m)]; s_speaking : Forall speaking sp;
  s_starts : addedPartial = false → starts_message sp;
  s_arrays : arrays r' = alter (λ l, removelast (foldl say l sp) ++ [m_assistant m]) (ctx_messages ctx) (arrays r);
  s_executed : executed r' = executed r; s_new : newMessages r' = newMessages r; s_polled : polled r' = polled r;
  s_requests : requests r' = requests r }.

Lemma spoken_before ctx a sp m r r1 r' : quiet [] [] r r1 → spoken ctx a sp m r1 r' → spoken ctx a sp m r r'.
Proof. intros [Ht Hx ? ? ? ?] []. rewrite app_nil_r in Ht, Hx. split; first [done | congruence]. Qed.

Lemma wp_complete ctx added r (Q : AssistantMessage → Run → Prop) : calm r →
  (∀ m sp r', spoken ctx added sp m r r' → Q m r') → wp F calm (complete_message env ctx added) r Q.
Proof.
  intros C H. apply wp_bind, wp_asks; [exact C|]. intros m r1 Q1. apply wp_bind. destruct added.
  - apply wp_changes, wp_bind, wp_emits. intros r2 Q2. apply wp_ret, (H m []).
    destruct Q1, Q2; cbn in *. rewrite app_nil_r in *. split; cbn; try congruence; done.
  - apply wp_bind, wp_changes, wp_emits. intros r2 Q2. apply wp_bind, wp_emits. intros r3 Q3. apply wp_ret, (H m [message_start (m_assistant m)]).
    pose proof (quiet_trans _ _ _ _ _ _ _ Q2 Q3) as Q4. destruct Q1, Q4; cbn in *. rewrite app_nil_r in *. split; cbn; try congruence.
    + constructor; [|done]. exists m. by left.
    + intros _. by exists m, [].
    + rewrite q_arrays1, q_arrays0. apply list_alter_ext; [|done]. intros l _. by rewrite removelast_last.
Qed.

Lemma wp_read_response fuel ctx added r (Q : AssistantMessage → Run → Prop) : F → calm r →
  (∀ m sp r', spoken ctx added sp m r r' → Q m r') → wp F calm (read_response env fuel ctx added) r Q.
Proof.
  intros HF. revert added r Q. induction fuel as [|fuel IH]; intros added r Q C H; cbn [read_response]; [by apply wp_exhausted|].
  apply wp_bind, wp_asks; [exact C|]. intros event r1 Q1. pose proof (quiet_calm _ _ _ _ _ Q1 C (Forall_nil_2 _)) as C1.
  assert (Hend : wp F calm (complete_message env ctx added) r1 Q).
  { apply wp_complete; [done|]. intros m sp r' S. apply (H m sp). exact (spoken_before _ _ _ _ _ _ _ Q1 S). }
  destruct event as [[partial|partial| |]|]; try exact Hend.
  - apply wp_bind, wp_changes, wp_bind, wp_emits. intros r2 Q2. apply IH.
    { apply (quiet_calm _ _ _ _ _ Q2); [exact C1 | by repeat constructor]. }
    intros m sp r3 S. apply (H m (message_start (m_assistant partial) :: sp)). destruct Q1, Q2, S; cbn in *. rewrite app_nil_r in *.
    split; try congruence.
    + rewrite s_trace0, q_trace1, q_trace0, <- app_assoc. done.
    + constructor; [|done]. exists partial. by left.
    + intros _. by exists partial, sp.
    + rewrite s_arrays0, q_arrays1, q_arrays0, list_alter_alter_eq. done.
  - destruct added.
    + apply wp_bind, wp_bind, wp_changes, wp_emits. intros r2 Q2. apply IH.
      { apply (quiet_calm _ _ _ _ _ Q2); [exact C1 | by repeat constructor]. }
      intros m sp r3 S. apply (H m (message_update (m_assistant partial) :: sp)). destruct Q1, Q2, S; cbn in *. rewrite app_nil_r in *.
      split; try congruence.
      * rewrite s_trace0, q_trace1, q_trace0, <- app_assoc. done.
      * constructor; [|done]. exists partial. by right.
      * rewrite s_arrays0, q_arrays1, q_arrays0, list_alter_alter_eq. done.
    + apply wp_bind, wp_ret, IH; [done|]. intros m sp r' S. apply (H m sp). exact (spoken_before _ _ _ _ _ _ _ Q1 S).
Qed.

(** The request of a response: what was streamed after the context was read. *)
Lemma wp_stream fuel ctx o r (Q : AssistantMessage → Run → Prop) : F → calm r →
  (∀ m sp r1 r', spoken ctx false sp m r1 r' → quiet [] [] (r <| requests := requests r ++ [contents ctx r] |>) r1 → Q m r') →
  wp F calm (streamAssistantResponse env fuel ctx o) r Q.
Proof.
  intros HF C H. apply wp_bind, wp_reads, wp_bind, wp_changes. set (r0 := r <| requests := _ |>).
  assert (Hq : ∀ r1 r2, quiet [] [] r0 r1 → quiet [] [] r1 r2 → quiet [] [] r0 r2) by (intros r1 r2 A B; exact (quiet_trans _ _ _ _ _ _ _ A B)).
  assert (Hc : ∀ r1, quiet [] [] r0 r1 → calm r1) by (intros r1 A; apply (quiet_calm _ _ _ _ _ A C), Forall_nil_2).
  apply wp_bind, wp_asks; [exact C|]. intros ms r1 Q1. apply wp_bind, wp_asks; [by apply Hc|]. intros llm r2 Q2.
  assert (Q2' := Hq _ _ Q1 Q2). apply wp_bind, wp_does. intros r3 Q3. assert (Q3' := Hq _ _ Q2' Q3).
  apply wp_bind, wp_asks; [by apply Hc|]. intros key r4 Q4. assert (Q4' := Hq _ _ Q3' Q4).
  apply wp_bind, wp_asks; [by apply Hc|]. intros [] r5 Q5. assert (Q5' := Hq _ _ Q4' Q5).
  apply wp_read_response; [done | by apply Hc|]. intros m sp r' S. by apply (H m sp r5).
Qed.

(** ** Turns and runs *)

(** The turn did what a turn does. *)
Record good (v : view) : Prop := mkGood {
  g_speaking : Forall speaking (v_speech v); g_starts : starts_message (v_speech v);
  g_failed : has_failed (v_response v) = true → v_work v = [] ∧ v_results v = [] ∧ v_executed v = [];
  g_told : has_failed (v_response v) = false → told (toolCalls (v_response v)) (v_results v) (v_work v);
  g_ran : ran (v_response v) (v_context v) (toolCalls (v_response v)) (v_executed v);
  g_length : am_stopReason (v_response v) = stop_length → v_executed v = [] }.

Definition keeps_context : Prop :=
  ∀ t given w w' u, prepareNextTurn env t given w = (w', answered (Some u)) → u_context u = None.

Section State.
Context (prompts base : list AgentMessage) (ctx0 : AgentContext) (arrays0 : list (list AgentMessage)).
Context (in_arrays : (ctx_messages ctx0 < length arrays0)%nat).

(** Each request sends what the context was given at first and what the turns before added. *)
Definition requests_ok (vs : list view) : Prop :=
  ∀ vs1 v vs2, vs = vs1 ++ v :: vs2 → v_request v = base ++ concat (turn_context <$> vs1) ++ v_injected v.
Definition opened (open : option (list AgentMessage)) : list AgentEvent :=
  match open with Some ms => turn_start :: announced ms | None => [] end.

(** The run after the turns [vs], where [open] was injected into a turn that began, [pending] is polled and not yet
    injected, and the events end with [tail]. *)
Record state (vs : list view) (open : option (list AgentMessage)) (pending : list AgentMessage) (ctx : AgentContext)
    (tail : list AgentEvent) r : Prop := mkState {
  st_trace : trace r = agent_start :: concat (turn_events <$> vs) ++ opened open ++ tail;
  st_new : newMessages r = concat (turn_messages <$> vs) ++ default [] open;
  st_polled : prompts ++ polled r = concat (v_injected <$> vs) ++ default [] open ++ pending;
  st_executed : executed r = concat ((λ v, with_source (v_response v) (v_context v) (v_executed v)) <$> vs);
  st_requests : requests r = v_request <$> vs;
  st_good : Forall good vs;
  st_context : keeps_context → ctx = ctx0 ∧ requests_ok vs ∧
    arrays r = <[ctx_messages ctx0 := base ++ concat (turn_context <$> vs) ++ default [] open]> arrays0 }.

Lemma good_not_end v : good v → Forall not_end (turn_events v).
Proof.
  intros [Hs _ Hf Ht _ _]. assert (Forall not_end (v_work v)).
  { destruct (has_failed (v_response v)); [destruct Hf as (-> & _); done | by eapply works_not_end, tl_works, Ht]. }
  unfold turn_events. constructor; [done|]. apply Forall_app. split; [apply announced_not_end|]. apply Forall_app. split; [by apply speaking_not_end|].
  constructor; [done|]. apply Forall_app. split; [done | by repeat constructor].
Qed.
Lemma sourced_views vs : Forall good vs →
  Forall (sourced validate env) (concat ((λ v, with_source (v_response v) (v_context v) (v_executed v)) <$> vs)).
Proof.
  induction 1 as [|v vs Hv Hvs IH]; [constructor|]. rewrite fmap_cons. cbn [concat]. apply Forall_app. split; [|exact IH].
  destruct Hv as [_ _ Hf _ [Hsub Hadm] Hlen]. apply Forall_fmap, Forall_forall. intros c Hc. cbn. rewrite Forall_forall in Hadm. split_and!.
  - eapply elem_of_sublist; [|exact Hsub]. by apply list_elem_of_fmap_2.
  - apply not_true_iff_false. intros Hv. destruct (Hf Hv) as (_ & _ & E). rewrite E in Hc. by apply not_elem_of_nil in Hc.
  - intros Hv. rewrite (Hlen Hv) in Hc. by apply not_elem_of_nil in Hc.
  - by apply Hadm.
Qed.
Lemma state_calm vs open pending ctx r : state vs open pending ctx [] r → calm r.
Proof.
  intros S. pose proof (st_good _ _ _ _ _ _ S) as G. split; [|rewrite (st_executed _ _ _ _ _ _ S); by apply sourced_views].
  rewrite (st_trace _ _ _ _ _ _ S). constructor; [done|]. apply Forall_app. split.
  - clear S. induction G as [|v vs' Hv Hvs IH]; [constructor|]. rewrite fmap_cons. cbn [concat].
    apply Forall_app. split; [by apply good_not_end | exact IH].
  - rewrite app_nil_r. destruct open as [ms|]; cbn; [constructor; [done | apply announced_not_end] | done].
Qed.

(** A quiet step emits at the end. *)
Lemma state_quiet vs open pending ctx tr r r' : state vs open pending ctx [] r → quiet tr [] r r' → state vs open pending ctx tr r'.
Proof.
  intros [Ht ? ? ? ? ? Hc] [Kt Kx ? ? ? ?]. rewrite app_nil_r in Kx. split; first [done | congruence | idtac].
  - rewrite Kt, Ht, app_nil_r. cbn. by rewrite <- !app_assoc.
  - intros K. destruct (Hc K) as (? & ? & ?). split_and!; [done..|congruence].
Qed.

Lemma wp_polls (f : W → W * attempt (list AgentMessage)) vs open ctx r (Q : list AgentMessage → Run → Prop) :
  state vs open [] ctx [] r → (∀ l r', state vs open l ctx [] r' → Q l r') → wp F calm (polls f) r Q.
Proof.
  intros S H. apply wp_bind, wp_asks; [by eapply state_calm|]. intros l r1 Q1. apply wp_bind, wp_changes, wp_ret, H.
  destruct (state_quiet _ _ _ _ _ _ _ S Q1). split; cbn; try done. by rewrite app_assoc, st_polled0, !app_nil_r, <- app_assoc.
Qed.

(** ** The start of a turn *)

Definition open_of (last : option Turn) (open : option (list AgentMessage)) : Prop :=
  match last with None => is_Some open | Some _ => open = None end.

Lemma wp_prepare_turn ctx o last vs open pending r (Q : AgentContext * Options * list AgentMessage → Run → Prop) :
  state vs open pending ctx [] r → open_of last open →
  (∀ ctx' o' pending' r', state vs (Some (default [] open)) pending' ctx' [] r' → Q (ctx', o', pending') r') →
  wp F calm (prepare_turn env ctx o last pending) r Q.
Proof.
  intros S Hl H. destruct last as [t|]; cbn [prepare_turn open_of] in *.
  2: { destruct Hl as [ms ->]. by apply wp_ret, H. }
  subst open. apply wp_bind, wp_reads, wp_bind. unfold wp at 1, asks.
  destruct (prepareNextTurn env t (contents (t_context t) r) (world r)) as [w [u|text]] eqn:Eu; [|exact (state_calm _ _ _ _ _ S)].
  set (r1 := r <| world := w |>). assert (S1 : state vs None pending ctx [] r1).
  { apply (state_quiet _ _ _ _ _ r); [done|]. split; rewrite ?app_nil_r; done. }
  assert (Hrest : ∀ co r1, state vs None pending co.1 [] r1 → wp F calm
    (pending ← (match pending with [] => polls (getSteeringMessages env) | _ => mret pending end);
     emits env turn_start;; mret (co.1, co.2, pending)) r1 Q).
  { intros co r2 S2. assert (Hend : ∀ l r3, state vs None l co.1 [] r3 → wp F calm (emits env turn_start;; mret (co.1, co.2, l)) r3 Q).
    { intros l r3 S3. apply wp_bind, wp_emits. intros r4 Q4. apply wp_ret, H. by destruct (state_quiet _ _ _ _ _ _ _ S3 Q4). }
    apply wp_bind. destruct pending as [|m l]; [|by apply wp_ret, Hend]. eapply wp_polls; [exact S2 | exact Hend]. }
  destruct u as [u|]; [|by apply wp_bind, wp_ret, (Hrest (ctx, o))]. apply wp_bind, wp_bind.
  destruct (u_context u) as [[[prompt [i|l]] ts]|] eqn:Ec.
  - apply wp_ret, wp_ret, Hrest. destruct S1. split; try done. intros K. by rewrite (K _ _ _ _ _ Eu) in Ec.
  - apply wp_bind. unfold wp at 1, new_array. apply wp_ret, wp_ret, Hrest. destruct S1. split; try done. intros K. by rewrite (K _ _ _ _ _ Eu) in Ec.
  - by apply wp_ret, wp_ret, Hrest.
Qed.

Lemma wp_inject ctx ms vs inj r (Q : () → Run → Prop) : state vs (Some inj) ms ctx [] r →
  (∀ r', state vs (Some (inj ++ ms)) [] ctx [] r' → Q () r') → wp F calm (inject env ctx ms) r Q.
Proof.
  revert inj r. induction ms as [|m ms IH]; intros inj r S H; cbn [inject each].
  { apply wp_ret, H. by rewrite app_nil_r. }
  apply wp_bind, wp_bind, wp_announce. intros r1 Q1. apply wp_bind, wp_changes, wp_changes. apply (IH (inj ++ [m])); [|by rewrite <- app_assoc].
  destruct (state_quiet _ _ _ _ _ _ _ S Q1). split; cbn in *; try done.
  - rewrite st_trace0, announced_app, !app_nil_r. done.
  - by rewrite st_new0, <- app_assoc.
  - rewrite st_polled0. by rewrite <- (app_assoc inj).
  - intros K. destruct (st_context0 K) as (-> & R & E). split_and!; [done..|].
    rewrite E, alter_insert by done. by rewrite <- !app_assoc.
Qed.
(** ** A whole turn *)

(** The results are stored. *)
Lemma wp_store_results ctx ts r (Q : () → Run → Prop) :
  Q () (r <| arrays := alter (λ l, l ++ (m_toolResult <$> ts)) (ctx_messages ctx) (arrays r) |>
          <| newMessages := newMessages r ++ (m_toolResult <$> ts) |>) →
  wp F calm (each (store_result ctx) ts) r Q.
Proof.
  revert r. induction ts as [|t ts IH]; intros r H; cbn [each].
  - apply wp_ret. rewrite app_nil_r in H. destruct r. cbn in H. rewrite list_alter_id in H; [exact H|]. intros l. apply app_nil_r.
  - apply wp_bind, wp_bind, wp_changes, wp_changes, IH. destruct r. cbn in *. unfold update_with in *. cbn in *.
    rewrite list_alter_alter_eq, <- app_assoc. erewrite list_alter_ext; [exact H| |done]. intros l _. cbn. by rewrite <- app_assoc.
Qed.

(** The response was streamed; its tool calls are next. *)
Record responded vs inj ctx sp m r : Prop := mkResponded {
  rs_trace : trace r = agent_start :: concat (turn_events <$> vs) ++ opened (Some inj) ++ sp ++ [message_end (m_assistant m)];
  rs_new : newMessages r = concat (turn_messages <$> vs) ++ inj ++ [m_assistant m];
  rs_polled : prompts ++ polled r = concat (v_injected <$> vs) ++ inj;
  rs_executed : executed r = concat ((λ v, with_source (v_response v) (v_context v) (v_executed v)) <$> vs);
  rs_requests : ∃ given, requests r = (v_request <$> vs) ++ [given] ∧ (keeps_context → given = base ++ concat (turn_context <$> vs) ++ inj);
  rs_good : Forall good vs;
  rs_speaking : Forall speaking sp; rs_starts : starts_message sp;
  rs_context : keeps_context → ctx = ctx0 ∧ requests_ok vs ∧
    arrays r = <[ctx_messages ctx0 := base ++ concat (turn_context <$> vs) ++ inj ++ removelast (foldl say [] sp) ++ [m_assistant m]]> arrays0 }.

Lemma wp_respond fuel ctx o vs inj r (Q : AssistantMessage → Run → Prop) : F → state vs (Some inj) [] ctx [] r →
  (∀ m sp r', responded vs inj ctx sp m r' → Q m r') →
  wp F calm (streamAssistantResponse env fuel ctx o) r (λ m r1, wp F calm (push_new (m_assistant m)) r1 (λ _, Q m)).
Proof.
  intros HF S H. apply wp_stream; [done | by eapply state_calm|]. intros m sp r1 r2 Sp Q1. apply wp_changes, (H m sp).
  destruct S as [Ht Hn Hp Hx Hr Hg Hc], Q1 as [Kt Kx Ka Kn Kp Kr], Sp as [St Ss Sb Sa Sx Sn Spo Sr]. cbn in *. rewrite app_nil_r in *.
  split; cbn; try done.
  - rewrite St, Kt, Ht. cbn. by rewrite <- !app_assoc.
  - rewrite Sn, Kn, Hn. by rewrite <- app_assoc.
  - by rewrite Spo, Kp, Hp, ?app_nil_r.
  - congruence.
  - exists (contents ctx r). rewrite Sr, Kr, Hr. split; [done|]. intros K. destruct (Hc K) as (-> & _ & E).
    unfold contents. rewrite E, list_lookup_insert_eq by done. done.
  - by apply Sb.
  - intros K. destruct (Hc K) as (-> & R & E). split_and!; [done..|]. rewrite Sa, Ka, E, alter_insert by done. f_equal.
    rewrite say_started by auto. by rewrite <- !app_assoc.
Qed.

(** The turn that a response, its work and its results make. *)
Lemma responded_turn vs inj ctx sp m ts tr ex r r1 r2 : responded vs inj ctx sp m r → quiet tr (with_source m ctx ex) r r1 →
  (has_failed m = true → tr = [] ∧ ts = [] ∧ ex = []) → (has_failed m = false → told (toolCalls m) ts tr) → ran m ctx (toolCalls m) ex →
  (am_stopReason m = stop_length → ex = []) →
  quiet [turn_end m ts] [] (r1 <| arrays := alter (λ l, l ++ (m_toolResult <$> ts)) (ctx_messages ctx) (arrays r1) |>
          <| newMessages := newMessages r1 ++ (m_toolResult <$> ts) |>) r2 →
  ∃ v, v_response v = m ∧ state (vs ++ [v]) None [] ctx [] r2.
Proof.
  intros [Rt Rn Rp Rx (given & Rr & Rg) Rgood Rs Rb Rc] [Kt Kx Ka Kn Kp Kr] Hf Ht Hr Hl [Et Ex Ea En Ep Er].
  exists (mkView inj given sp m tr ts ctx ex). split; [done|]. cbn in *. rewrite app_nil_r in Ex.
  split; rewrite ?fmap_app, ?concat_app; cbn; rewrite ?app_nil_r.
  - rewrite Et, Kt, Rt. unfold turn_events. cbn. rewrite <- !app_assoc. cbn. by rewrite <- !app_assoc.
  - rewrite En, Kn, Rn. unfold turn_messages. cbn. by rewrite <- !app_assoc.
  - by rewrite Ep, Kp, Rp.
  - by rewrite Ex, Kx, Rx.
  - by rewrite Er, Kr, Rr.
  - apply Forall_app. split; [done|]. constructor; [|done]. by split.
  - intros K. destruct (Rc K) as (-> & R & E). split_and!; [done| |].
    + intros vs1 v vs2 Hv. destruct vs2 as [|v' vs2 _] using rev_ind.
      * apply app_inj_tail in Hv as [<- <-]. by apply Rg.
      * rewrite app_comm_cons, app_assoc in Hv. apply app_inj_tail in Hv as [Hv <-]. by apply (R vs1 v vs2).
    + rewrite Ea, Ka, E, alter_insert by done. unfold turn_context, leftover. cbn. by rewrite <- !app_assoc.
Qed.

Definition ended vs ctx r : Prop := state vs None [] ctx [agent_end (newMessages r)] r.
Lemma wp_end_run vs ctx r (Q : () → Run → Prop) : state vs None [] ctx [] r → (∀ r', ended vs ctx r' → Q () r') →
  wp F calm (end_run env) r Q.
Proof.
  intros S H. apply wp_bind, wp_reads, wp_emits. intros r' Q1. apply H. unfold ended. rewrite (q_new _ _ _ _ Q1). by apply (state_quiet _ _ _ _ _ r).
Qed.
Definition fine (v : view) : Prop := has_failed (v_response v) = false.

Lemma wp_turn fuel ctx o last vs open pending r (Q : option (AgentContext * Options * Turn * bool) → Run → Prop) : F →
  state vs open pending ctx [] r → open_of last open →
  (∀ res r', match res with
    | None => ∃ v ctx', ended (vs ++ [v]) ctx' r'
    | Some (ctx', o', done, more) => ∃ v, fine v ∧ state (vs ++ [v]) None [] ctx' [] r'
    end → Q res r') →
  wp F calm (turn validate env fuel ctx o last pending) r Q.
Proof.
  intros HF S Hl H. apply wp_bind. eapply wp_prepare_turn; [exact S | exact Hl |]. clear S Hl ctx o pending r. intros ctx o pending r S.
  apply wp_bind. eapply wp_inject; [exact S|]. clear S r. intros r S. apply wp_bind.
  set (inj := default [] open ++ pending) in *. eapply wp_mono.
  { apply (wp_respond fuel ctx o vs inj r (λ m r', ∃ sp, responded vs inj ctx sp m r') HF S). eauto. }
  clear S r. intros m r R. apply wp_bind. eapply wp_mono; [exact R|]. clear R r. intros [] r [sp R]. destruct (has_failed m) eqn:Em.
  - apply wp_bind, wp_emits. intros r1 Q1.
    destruct (responded_turn _ _ _ _ _ [] [] [] r r r1 R) as (v & <- & Sv); [apply quiet_refl | done | congruence | by split; [apply sublist_nil_l|] | done | |].
    { destruct Q1. destruct r. cbn in *. split; cbn; try done; by rewrite ?app_nil_r, ?list_alter_id by (intros; apply app_nil_r). }
    apply wp_bind. eapply wp_end_run; [exact Sv|]. intros r2 E2. apply wp_ret, H. by exists v, ctx.
  - apply wp_bind, wp_tool_batch; [done|]. intros [ts more] tr ex r1 Q1 T Rn Hlen. cbn [fst snd] in *. apply wp_bind, wp_store_results, wp_bind, wp_emits.
    intros r2 Q2. destruct (responded_turn _ _ _ _ _ ts tr ex r r1 r2 R Q1) as (v & <- & Sv); [congruence | done | done | done | done |].
    apply wp_bind, wp_reads, wp_bind, wp_reads, wp_bind, wp_asks; [by eapply state_calm|]. intros stop r3 Q3.
    pose proof (state_quiet _ _ _ _ _ _ _ Sv Q3) as S3. destruct stop.
    + apply wp_bind. eapply wp_end_run; [exact S3|]. intros r4 E4. apply wp_ret, H. by exists v, ctx.
    + apply wp_ret, H. by exists v.
Qed.

Lemma wp_runLoop turns fuel ctx o last vs open pending more r (Q : () → Run → Prop) : F →
  state vs open pending ctx [] r → open_of last open → (last = None → more = true) → Forall fine vs →
  (∀ vs' v ctx' r', ended (vs' ++ [v]) ctx' r' → Forall fine vs' → Q () r') →
  (last ≠ None → vs ≠ []) →
  wp F calm (runLoop validate env turns fuel ctx o last pending more) r Q.
Proof.
  intros HF. revert ctx o last vs open pending more r. induction turns as [|turns IH]; intros ctx o last vs open pending more r S Hl Hm Hfine H Hvs;
    cbn [runLoop]; [by apply wp_exhausted|].
  destruct (more || negb (length pending =? 0)%nat) eqn:Ec.
  - apply wp_bind. eapply wp_turn; [done | exact S | exact Hl |]. intros [[[[ctx' o'] t] more']|] r1.
    + intros (v & Hv & S1). apply wp_bind. eapply wp_polls; [exact S1|]. intros l r2 S2. eapply IH; [exact S2 | done | done | | exact H |].
      * apply Forall_app. by split; [|constructor].
      * intros _ ?%app_nil. naive_solver.
    + intros (v & ctx' & E1). apply wp_ret. by eapply H.
  - apply orb_false_iff in Ec as [-> Hp]. apply negb_false_iff, Nat.eqb_eq, nil_length_inv in Hp as ->.
    destruct last as [t|]; [|by specialize (Hm eq_refl)]. cbn in Hl. subst open.
    apply wp_bind. eapply wp_polls; [exact S|]. intros l r1 S1. destruct l as [|m l].
    + destruct (exists_last (Hvs ltac:(done))) as (vs' & v & ->). eapply wp_end_run; [exact S1|]. intros r2 E2. eapply H; [exact E2|].
      by apply Forall_app in Hfine as [? _].
    + eapply IH; [exact S1 | done | done | exact Hfine | exact H | exact Hvs].
Qed.
End State.

(** ** Both ways to start *)

Inductive start := with_prompts (prompts : list AgentMessage) | continued.
Definition prompts_of (s : start) : list AgentMessage := match s with with_prompts ps => ps | continued => [] end.
Definition started (s : start) (turns fuel : nat) (ctx : AgentContext) (o : Options) : prog Run (list AgentMessage) :=
  match s with
  | with_prompts prompts => runAgentLoop validate env turns fuel prompts ctx o
  | continued => runAgentLoopContinue validate env turns fuel ctx o
  end.
Definition fresh (w : W) (a : list (list AgentMessage)) : Run := mkRun w [] a [] [] [] [].
Definition messages_of (ctx : AgentContext) (a : list (list AgentMessage)) : list AgentMessage := default [] (a !! ctx_messages ctx).

(** The run [r] is the turns [vs] and answers [ms]. *)
Record run_of (s : start) (ctx : AgentContext) (a : list (list AgentMessage)) (vs : list view) (ms : list AgentMessage) r : Prop := mkRunOf {
  ro_trace : trace r = agent_start :: concat (turn_events <$> vs) ++ [agent_end ms];
  ro_messages : ms = concat (turn_messages <$> vs);
  ro_polled : prompts_of s ++ polled r = concat (v_injected <$> vs);
  ro_executed : executed r = concat ((λ v, with_source (v_response v) (v_context v) (v_executed v)) <$> vs);
  ro_requests : requests r = v_request <$> vs;
  ro_good : Forall good vs;
  ro_last : ∃ before last, vs = before ++ [last] ∧ Forall fine before;
  ro_context : keeps_context → requests_ok (messages_of ctx a) vs ∧
    let final := messages_of ctx a ++ concat (turn_context <$> vs) in
    arrays r = match s with with_prompts _ => a ++ [final] | continued => <[ctx_messages ctx := final]> a end }.

Lemma ended_run_of s ctx a vs v ctx' r arrays0 ctx0 :
  ended (prompts_of s) (messages_of ctx a) ctx0 arrays0 (vs ++ [v]) ctx' r → Forall fine vs →
  match s with with_prompts ps => arrays0 = a ++ [messages_of ctx a ++ ps] ∧ ctx_messages ctx0 = length a
             | continued => arrays0 = a ∧ ctx0 = ctx end →
  run_of s ctx a (vs ++ [v]) (newMessages r) r.
Proof.
  intros [Ht Hn Hp Hx Hr Hg Hc] Hf Hs. cbn in *. rewrite app_nil_r in Hn, Hp. split; try done.
  - by exists vs, v.
  - intros K. destruct (Hc K) as (-> & R & E). split; [done|]. rewrite E, app_nil_r. destruct s as [ps|].
    + destruct Hs as [-> ->]. by rewrite insert_app_r_alt, Nat.sub_diag by done.
    + by destruct Hs as [-> ->].
Qed.

Lemma wp_announce_all ps r (Q : () → Run → Prop) : (∀ r', quiet (announced ps) [] r r' → Q () r') → wp F calm (each (announce env) ps) r Q.
Proof.
  revert r. induction ps as [|p ps IH]; intros r H; cbn [each]; [apply wp_ret, H, quiet_refl|].
  apply wp_bind, wp_announce. intros r1 Q1. apply IH. intros r2 Q2. apply H. exact (quiet_trans _ _ _ _ _ _ _ Q1 Q2).
Qed.

(** The run after its first events. *)
Lemma wp_start_loop prompts base ctx arrays0 turns fuel o r (Q : list AgentMessage → Run → Prop) : F → (ctx_messages ctx < length arrays0)%nat →
  state prompts base ctx arrays0 [] (Some prompts) [] ctx [] r →
  (∀ vs v ctx' r', ended prompts base ctx arrays0 (vs ++ [v]) ctx' r' → Forall fine vs → Q (newMessages r') r') →
  wp F calm (start_loop validate env turns fuel ctx o) r Q.
Proof.
  intros HF Hi S H. apply wp_bind. eapply wp_polls; [exact S|]. intros l r1 S1. apply wp_bind.
  eapply wp_runLoop; [exact Hi | done | exact S1 | by eexists | done | done | | done]. intros vs v ctx' r2 E2 Hf. apply wp_reads. by eapply H.
Qed.

Lemma wp_started s turns fuel ctx o w a : F →
  wp F calm (started s turns fuel ctx o) (fresh w a) (λ ms r, ∃ vs, run_of s ctx a vs ms r).
Proof.
  intros HF. destruct s as [prompts|]; cbn [started].
  - apply wp_bind, wp_reads, wp_bind. unfold wp at 1, new_array. cbn [fresh arrays]. apply wp_bind, wp_changes, wp_bind, wp_emits.
    intros r1 Q1. apply wp_bind, wp_emits. intros r2 Q2. apply wp_bind, wp_announce_all. intros r3 Q3.
    pose proof (quiet_trans _ _ _ _ _ _ _ (quiet_trans _ _ _ _ _ _ _ Q1 Q2) Q3) as [Kt Kx Ka Kn Kp Kr]. cbn in *.
    eapply (wp_start_loop prompts (messages_of ctx a) (mkContext (systemPrompt ctx) (length a) (tools ctx)) (a ++ [messages_of ctx a ++ prompts])).
    + done.
    + cbn. rewrite length_app. cbn. lia.
    + split; cbn; try done.
      * rewrite Kt. by rewrite app_nil_r.
      * by rewrite Kp, !app_nil_r.
      * intros _. split_and!; [done | by intros [] |]. rewrite Ka. by rewrite insert_app_r_alt, Nat.sub_diag by done.
    + intros vs v ctx' r' E Hf. eexists. by eapply (ended_run_of (with_prompts prompts)).
  - apply wp_bind, wp_reads. destruct (continue_error (contents ctx (fresh w a))) eqn:Ec; [by split|].
    apply wp_bind, wp_changes, wp_bind, wp_emits. intros r1 Q1. apply wp_bind, wp_emits. intros r2 Q2.
    pose proof (quiet_trans _ _ _ _ _ _ _ Q1 Q2) as [Kt Kx Ka Kn Kp Kr]. cbn in *.
    assert (Hl : (ctx_messages ctx < length a)%nat).
    { apply lookup_lt_is_Some_1. unfold continue_error, contents in Ec. cbn in Ec. destruct (a !! ctx_messages ctx); [by eexists | done]. }
    eapply (wp_start_loop [] (messages_of ctx a) ctx a); [done | done | |].
    + split; cbn; try done.
      intros _. split_and!; [done | by intros [] |]. rewrite Ka. symmetry. apply list_insert_id. unfold messages_of. rewrite app_nil_r.
      apply lookup_lt_is_Some_2 in Hl as [l Hl]. by rewrite Hl.
    + intros vs v ctx' r' E Hf. eexists. by eapply (ended_run_of continued).
Qed.

End Loop.

(** ** Theorems *)

Section Theorems.
Context {W : Type} (validate : AgentTool → AgentToolCall → result jsstr Json.json) (env : @Environment W).
Notation started := (started validate env).

Lemma run_views s turns fuel ctx o w a r ms : started s turns fuel ctx o (fresh w a) = returned r ms → ∃ vs, run_of validate env s ctx a vs ms r.
Proof. intros H. pose proof (wp_started validate env True s turns fuel ctx o w a I) as K. unfold wp in K. by rewrite H in K. Qed.

(** C7. A run is a sequence of turns, and answers what it announced: its events are the start, the events of its turns
    and one end with the answer, which is the messages of the turns in order.  In each turn the injected messages are
    announced, the response is streamed, each tool call that starts ends exactly once, and the results answer the calls
    in order, all of them unless the signal aborted; only the last turn may have failed. *)
Theorem run_is_made_of_turns s turns fuel ctx o w a r ms : started s turns fuel ctx o (fresh w a) = returned r ms → ∃ vs v,
  trace r = agent_start :: concat (turn_events <$> (vs ++ [v])) ++ [agent_end ms] ∧
  ms = concat (turn_messages <$> (vs ++ [v])) ∧ Forall (good validate env) (vs ++ [v]) ∧ Forall fine vs.
Proof. intros H. destruct (run_views _ _ _ _ _ _ _ _ _ H) as [vs [Ht Hm _ _ _ Hg (before & v & -> & Hf) _]]. by exists before, v. Qed.

(** C21. No message that a queue gave is lost or injected twice: the prompts and everything that was polled for steering and
    follow-up is injected, in that order, and the answer is these messages with the responses and their results. *)
Theorem polled_messages_are_injected s turns fuel ctx o w a r ms : started s turns fuel ctx o (fresh w a) = returned r ms →
  prompts_of s ++ polled r `sublist_of` ms ∧
  ∃ vs, ms ≡ₚ (prompts_of s ++ polled r) ++ (m_assistant ∘ v_response <$> vs) ++ (m_toolResult <$> concat (v_results <$> vs)) ∧
    ms = concat (turn_messages <$> vs).
Proof.
  intros H. destruct (run_views _ _ _ _ _ _ _ _ _ H) as [vs [_ -> -> _ _ _ _ _]]. split; [|exists vs; split; [|done]].
  - clear. induction vs as [|v vs IH]; cbn; [done|]. apply sublist_app; [by apply sublist_inserts_r | done].
  - clear. induction vs as [|v vs IH]; cbn; [done|]. rewrite IH, fmap_app. unfold turn_messages.
    rewrite <- !app_assoc. apply Permutation_app_head. cbn. rewrite (Permutation_app_comm (m_toolResult <$> v_results v) (concat _ ++ _)).
    rewrite <- !app_assoc. rewrite Permutation_middle. apply Permutation_app_head. constructor. apply Permutation_app_head. apply Permutation_app_comm.
Qed.

(** C8. A tool runs only if its call was admitted, whatever happens: when a run returns or rejects, each call that was executed
    belongs to a response that did not fail and was not cut off, names a tool of the context, has valid arguments, and was
    let pass by the hook while the signal had not aborted. *)
Theorem executed_calls_were_admitted s turns fuel ctx o w a : match started s turns fuel ctx o (fresh w a) with
  | no_fuel => True
  | rejected r _ | returned r _ => Forall (sourced validate env) (executed r)
  end.
Proof.
  pose proof (wp_started validate env True s turns fuel ctx o w a I) as H. unfold wp in H.
  destruct (started s turns fuel ctx o (fresh w a)) as [|r t|r ms]; [done | apply H |]. destruct H as (vs & R).
  rewrite (ro_executed _ _ _ _ _ _ _ _ R). apply sourced_views, R.
Qed.

(** A run that rejects has emitted no end: the caller ends it. *)
Theorem rejected_run_has_no_end s turns fuel ctx o w a r text : started s turns fuel ctx o (fresh w a) = rejected r text →
  Forall not_end (trace r).
Proof. intros H. pose proof (wp_started validate env True s turns fuel ctx o w a I) as K. unfold wp in K. rewrite H in K. apply K. Qed.

Lemma turn_context_messages v : leftover v = [] → turn_context v = turn_messages v.
Proof. unfold turn_context. by intros ->. Qed.

(** C29. The model is sent the conversation: while [prepareNextTurn] does not replace the context, the run is turns, which its
    events and its polls show, and the request of each is made from the messages of the context at the start, then what
    each turn before it added, in order, then what it injected itself.  A turn adds its injected messages, its response
    and the results, all that it announced; only a stream that starts its message more than once leaves the partial
    messages before the last in the context too.  With prompts the caller's array is left as it was and a copy is
    extended; without, the messages are added to the caller's array. *)
Theorem requests_follow_the_transcript s turns fuel ctx o w a r ms : started s turns fuel ctx o (fresh w a) = returned r ms →
  keeps_context env →
  ∃ vs, trace r = agent_start :: concat (turn_events <$> vs) ++ [agent_end ms] ∧ Forall (good validate env) vs ∧
    prompts_of s ++ polled r = concat (v_injected <$> vs) ∧ length (requests r) = length vs ∧
    (∀ before v after, vs = before ++ v :: after →
       requests r !! length before = Some (messages_of ctx a ++ concat (turn_context <$> before) ++ v_injected v)) ∧
    (let final := messages_of ctx a ++ concat (turn_context <$> vs) in
     arrays r = match s with with_prompts _ => a ++ [final] | continued => <[ctx_messages ctx := final]> a end) ∧
    Forall (λ v, leftover v = [] → turn_context v = turn_messages v) vs ∧ ms = concat (turn_messages <$> vs).
Proof.
  intros H K. destruct (run_views _ _ _ _ _ _ _ _ _ H) as [vs R]. destruct (ro_context _ _ _ _ _ _ _ _ R K) as [Q A].
  exists vs. split_and!; [apply R | apply R | apply R | by rewrite (ro_requests _ _ _ _ _ _ _ _ R), length_fmap | | exact A | | apply R].
  - intros before v after ->. rewrite (ro_requests _ _ _ _ _ _ _ _ R), fmap_app, lookup_app_r, length_fmap, Nat.sub_diag by by rewrite length_fmap.
    cbn. by rewrite (Q before v after eq_refl).
  - apply Forall_true. apply turn_context_messages.
Qed.

End Theorems.
End AgentLoopProps.
