(* ===== verification/AgentLoopEnds.v ===== *)
(** * Runs of the agent loop end

    In a world that does finitely many things (finite streams, tools that end, queues that
    run dry, a model that stops asking for tools) every run ends, with a bound on the fuel. *)
From S2P Require Import Prelude JsMap JsString Json AgentData ToolExecution AgentLoop AgentTools AgentLoopProps.

Module AgentLoopEnds.
Import AgentData Program AgentLoop AgentLoopProps.

(** A call is moved by its end, and then by the answer of its hook. *)
Definition moves (ps : list process) (i : nat) (h : happening) : Prop :=
  match ps !! i, h with
  | Some (p_running _), h_ended _ | Some (p_hook _ _ _), h_hooked _ => True
  | _, _ => False
  end.
Definition continues (e : stream_event) : Prop := match e with se_start _ | se_part _ => True | se_done | se_error => False end.

Section Ends.
Context {W : Type} (validate : AgentTool → AgentToolCall → result jsstr Json.json) (env : @Environment W) (μ : W → nat).
Notation Run := (@Run W).
Implicit Types (r : Run) (w : W).

(** [μ] bounds what is left of the world: nothing adds to it, and a queued message, an event of a stream that is not its
    last, a call of a tool and a happening that moves no call use it up. *)
Record finite_world : Prop := mkFinite {
  fw_emit e w : (μ (emit env e w) <= μ w)%nat;
  fw_steering w w' l : getSteeringMessages env w = (w', answered l) → (μ w' <= μ w)%nat ∧ (l ≠ [] → (μ w' < μ w)%nat);
  fw_followUp w w' l : getFollowUpMessages env w = (w', answered l) → (μ w' <= μ w)%nat ∧ (l ≠ [] → (μ w' < μ w)%nat);
  fw_prepareNextTurn t l w w' u : prepareNextTurn env t l w = (w', answered u) → (μ w' <= μ w)%nat;
  fw_stop t l w w' b : shouldStopAfterTurn env t l w = (w', answered b) → (μ w' <= μ w)%nat;
  fw_transform l w w' l' : transformContext env l w = (w', answered l') → (μ w' <= μ w)%nat;
  fw_convert l w w' l' : convertToLlm env l w = (w', answered l') → (μ w' <= μ w)%nat;
  fw_payload l c l' w : (μ (onContextPayload env l c l' w) <= μ w)%nat;
  fw_key p w w' k : getApiKey env p w = (w', answered k) → (μ w' <= μ w)%nat;
  fw_stream q w w' u : streamFn env q w = (w', answered u) → (μ w' <= μ w)%nat;
  fw_event w w' e : next_event env w = (w', answered e) → (μ w' <= μ w)%nat ∧ (∀ x, e = Some x → continues x → (μ w' < μ w)%nat);
  fw_result w w' m : response_result env w = (w', answered m) → (μ w' + 2 * length (toolCalls m) <= μ w)%nat;
  fw_before m c args ctx l w : (μ (beforeToolCall env m c args ctx l w).1 <= μ w)%nat;
  fw_execute c w : (μ (execute env c w).1 <= μ w)%nat;
  fw_next m ctx ps w w' i h : next env m ctx ps w = (w', (i, h)) → finished ps = None →
    (μ w' <= μ w)%nat ∧ ((μ w' < μ w)%nat ∨ moves ps i h) }.
Context (finite : finite_world).

Notation wpe := (wp False (λ _ : Run, True)).
Definition left_in (r : Run) : nat := μ (world r).

(** ** The primitives *)

Lemma we_emits e r (Q : () → Run → Prop) : (∀ r', (left_in r' <= left_in r)%nat → Q () r') → wpe (emits env e) r Q.
Proof. intros H. apply wp_changes, H. apply (fw_emit finite). Qed.
Lemma we_asks {A} (f : W → W * attempt A) r (Q : A → Run → Prop) :
  (∀ w a r', f (world r) = (w, answered a) → left_in r' = μ w → Q a r') → wpe (asks f) r Q.
Proof. intros H. unfold wp, asks. destruct (f (world r)) as [w [a|text]] eqn:E; [by eapply H | done]. Qed.
Lemma we_acts {A} (f : W → W * A) r (Q : A → Run → Prop) :
  (∀ w a r', f (world r) = (w, a) → left_in r' = μ w → Q a r') → wpe (acts f) r Q.
Proof. intros H. unfold wp, acts. destruct (f (world r)) as [w a] eqn:E. by eapply H. Qed.
Lemma we_asks_le {A} (f : W → W * attempt A) r (Q : A → Run → Prop) : (∀ w w' a, f w = (w', answered a) → (μ w' <= μ w)%nat) →
  (∀ a r', (left_in r' <= left_in r)%nat → Q a r') → wpe (asks f) r Q.
Proof. intros Hf H. apply we_asks. intros w a r' E Hr. apply H. rewrite Hr. by eapply Hf. Qed.
Lemma we_announce m r (Q : () → Run → Prop) : (∀ r', (left_in r' <= left_in r)%nat → Q () r') → wpe (announce env m) r Q.
Proof. intros H. apply wp_bind, we_emits. intros r1 H1. apply we_emits. intros r2 H2. apply H. lia. Qed.
Lemma we_report f r (Q : ToolResultMessage → Run → Prop) : (∀ t r', (left_in r' <= left_in r)%nat → Q t r') → wpe (report env f) r Q.
Proof. intros H. apply wp_bind, wp_reads, wp_bind, we_announce. intros r1 H1. by apply wp_ret, H. Qed.
Lemma we_each {A} (f : A → prog Run ()) l r (Q : () → Run → Prop) :
  (∀ x r (P : () → Run → Prop), (∀ r', (left_in r' <= left_in r)%nat → P () r') → wpe (f x) r P) →
  (∀ r', (left_in r' <= left_in r)%nat → Q () r') → wpe (each f l) r Q.
Proof.
  intros Hf. revert r. induction l as [|x l IH]; intros r H; cbn [each]; [by apply wp_ret, H|].
  apply wp_bind, Hf. intros r1 H1. apply IH. intros r2 H2. apply H. lia.
Qed.

(** ** Streams *)

Lemma we_complete ctx added r (Q : AssistantMessage → Run → Prop) :
  (∀ m r', (left_in r' + 2 * length (toolCalls m) <= left_in r)%nat → Q m r') → wpe (complete_message env ctx added) r Q.
Proof.
  intros H. apply wp_bind, we_asks. intros w m r1 E H1. apply (fw_result finite) in E. apply wp_bind.
  assert (Hend : ∀ r2, (left_in r2 <= left_in r1)%nat → wpe (emits env (message_end (m_assistant m));; mret m) r2 Q).
  { intros r2 H2. apply wp_bind, we_emits. intros r3 H3. apply wp_ret, H. unfold left_in in *. lia. }
  destruct added; [by apply wp_changes, Hend|]. apply wp_bind, wp_changes, we_emits. intros r2 H2. by apply Hend.
Qed.

Lemma we_read_response fuel ctx added r (Q : AssistantMessage → Run → Prop) : (left_in r < fuel)%nat →
  (∀ m r', (left_in r' + 2 * length (toolCalls m) <= left_in r)%nat → Q m r') → wpe (read_response env fuel ctx added) r Q.
Proof.
  revert added r. induction fuel as [|fuel IH]; intros added r Hf H; [lia|]. cbn [read_response].
  apply wp_bind, we_asks. intros w event r1 E H1. apply (fw_event finite) in E as [Hle Hlt]. change (μ (world r)) with (left_in r) in *.
  assert (Hrest : ∀ x r2, event = Some x → continues x → (left_in r2 <= left_in r1)%nat → ∀ added, wpe (read_response env fuel ctx added) r2 Q).
  { intros x r2 -> Hx H2 added'. specialize (Hlt _ eq_refl Hx). apply IH; [lia|]. intros m r3 H3. apply H. lia. }
  destruct event as [[partial|partial| |]|]; try (apply we_complete; intros m r2 H2; apply H; lia).
  - apply wp_bind, wp_changes, wp_bind, we_emits. intros r2 H2. by eapply Hrest.
  - apply wp_bind. destruct added; [|by apply wp_ret; eapply Hrest]. apply wp_bind, wp_changes, we_emits. intros r2 H2. by eapply Hrest.
Qed.

Lemma we_stream fuel ctx o r (Q : AssistantMessage → Run → Prop) : (left_in r < fuel)%nat →
  (∀ m r', (left_in r' + 2 * length (toolCalls m) <= left_in r)%nat → Q m r') → wpe (streamAssistantResponse env fuel ctx o) r Q.
Proof.
  intros Hf H. apply wp_bind, wp_reads, wp_bind, wp_changes, wp_bind, we_asks_le; [apply (fw_transform finite)|]. intros ms r1 H1.
  apply wp_bind, we_asks_le; [apply (fw_convert finite)|]. intros llm r2 H2. apply wp_bind, wp_changes.
  pose proof (fw_payload finite ms ctx llm (world r2)) as H3. apply wp_bind, we_asks_le; [apply (fw_key finite)|]. intros k r4 H4.
  apply wp_bind, we_asks_le; [apply (fw_stream finite)|]. intros u r5 H5. unfold left_in in *. cbn in *.
  apply we_read_response; [unfold left_in; lia|]. intros m r6 H6. apply H. unfold left_in in *. lia.
Qed.

(** ** Tool calls *)

Definition weight (p : process) : nat := match p with p_running _ => 2 | p_hook _ _ _ => 1 | p_done _ => 0 end.
Definition weights (ps : list process) : nat := sum_list_with weight ps.

Lemma weights_insert ps i p p' : ps !! i = Some p → (weights (<[i:=p']> ps) + weight p = weights ps + weight p')%nat.
Proof.
  unfold weights. revert i. induction ps as [|q ps IH]; intros [|i] H; try done.
  - injection H as ->. cbn. lia.
  - specialize (IH i H). change (<[S i:=p']> (q :: ps)) with (q :: <[i:=p']> ps). cbn [sum_list_with]. lia.
Qed.
Lemma unfinished_weights ps : finished ps = None → (0 < weights ps)%nat.
Proof.
  unfold finished, weights. induction ps as [|p ps IH]; [done|]. cbn. destruct p as [| |f]; cbn; try lia.
  destruct (mapM _ ps) eqn:E; [done|]. intros _. by apply IH.
Qed.

Lemma we_settle f r (Q : process → Run → Prop) : (∀ r', (left_in r' <= left_in r)%nat → Q (p_done f) r') → wpe (settle env f) r Q.
Proof. intros H. apply wp_bind, we_emits. intros r' Hr. by apply wp_ret, H. Qed.
Lemma we_react p h r (Q : process → Run → Prop) :
  (∀ p' r', (left_in r' <= left_in r)%nat → (weight p' <= weight p)%nat →
     (match p, h with p_running _, h_ended _ | p_hook _ _ _, h_hooked _ => (weight p' < weight p)%nat | _, _ => True end) → Q p' r') →
  wpe (react env p h) r Q.
Proof.
  intros H. destruct p as [c|c x e|f], h as [u|[x'|text]|a]; cbn [react]; try (apply wp_ret, H; done).
  - apply wp_bind, we_emits. intros r' Hr. by apply wp_ret, H.
  - unfold tool_ended. destruct (has_afterToolCall env); [apply wp_ret, H; cbn; lia|]. apply we_settle. intros r' Hr. apply H; cbn; lia.
  - unfold tool_ended. destruct (has_afterToolCall env); [apply wp_ret, H; cbn; lia|]. apply we_settle. intros r' Hr. apply H; cbn; lia.
  - apply we_settle. intros r' Hr. apply H; cbn; lia.
Qed.

Lemma we_drive fuel m ctx ps r (Q : list Finalized → Run → Prop) : (left_in r + weights ps <= fuel)%nat →
  (∀ fs r', (left_in r' <= left_in r)%nat → Q fs r') → wpe (drive env fuel m ctx ps) r Q.
Proof.
  revert ps r. induction fuel as [|fuel IH]; intros ps r Hf H; cbn [drive].
  all: destruct (finished ps) as [fs|] eqn:E; [by apply wp_ret, H|]; pose proof (unfinished_weights ps E) as Hw.
  - lia.
  - apply wp_bind, we_acts. intros w [i h] r1 En H1. apply (fw_next finite) in En as [Hle Hd]; [|done]. cbn [fst snd].
    change (μ (world r)) with (left_in r) in *. unfold moves in Hd. destruct (ps !! i) as [p|] eqn:Hi.
    + apply wp_bind, we_react. intros p' r2 H2 Hp Hm. pose proof (weights_insert ps i p p' Hi) as Hws.
      apply IH; [|intros fs r3 H3; apply H; lia].
      destruct Hd as [Hd|Hd]; [lia|]. destruct p, h; try done; lia.
    + apply IH; [|intros fs r3 H3; apply H; lia]. destruct Hd as [Hd|[]]. lia.
Qed.

Lemma we_prepare ctx m c r (Q : preparation → Run → Prop) : (∀ e r', (left_in r' <= left_in r)%nat → Q e r') →
  wpe (prepareToolCall validate env ctx m c) r Q.
Proof.
  intros H. unfold prepareToolCall. destruct (find_tool _ _) as [tool|]; [|by apply wp_ret, H].
  destruct (rbind _ _) as [args|text]; [|by apply wp_ret, H]. apply wp_bind, wp_reads, wp_bind, we_acts. intros w b r1 E H1.
  apply wp_bind, wp_reads, wp_ret, H. rewrite H1. pose proof (fw_before finite m c args ctx (contents ctx r) (world r)) as Hb. by rewrite E in Hb.
Qed.
Lemma we_launch m ctx c r (Q : process → Run → Prop) : (∀ r', (left_in r' <= left_in r)%nat → Q (p_running c) r') → wpe (launch env m ctx c) r Q.
Proof.
  intros H. apply wp_bind, wp_changes, wp_bind, we_acts. intros w us r1 E H1. cbn in E.
  pose proof (fw_execute finite c (world r)) as He. rewrite E in He. cbn in He.
  apply wp_bind, we_each; [intros u r2 P; apply we_emits|]. intros r2 H2. apply wp_ret, H. unfold left_in in *. lia.
Qed.

Lemma we_truncated cs r (Q : list ToolResultMessage → Run → Prop) : (∀ ts r', (left_in r' <= left_in r)%nat → Q ts r') →
  wpe (failToolCallsFromTruncatedMessage env cs) r Q.
Proof.
  revert r Q. induction cs as [|c cs IH]; intros r Q H; cbn [failToolCallsFromTruncatedMessage]; [by apply wp_ret, H|].
  apply wp_bind, we_emits. intros r1 H1. apply wp_bind, we_emits. intros r2 H2. apply wp_bind, we_report. intros t r3 H3.
  apply wp_bind, IH. intros ts r4 H4. apply wp_ret, H. lia.
Qed.

Lemma we_sequential fuel ctx m cs r (Q : list (Finalized * ToolResultMessage) → Run → Prop) : (left_in r + 2 <= fuel)%nat →
  (∀ l r', (left_in r' <= left_in r)%nat → Q l r') → wpe (executeToolCallsSequential validate env fuel ctx m cs) r Q.
Proof.
  revert r Q. induction cs as [|c cs IH]; intros r Q Hf H; cbn [executeToolCallsSequential]; [by apply wp_ret, H|].
  apply wp_bind, we_emits. intros r1 H1. apply wp_bind. apply (wp_mono _ _ _ _ (λ _ r2, (left_in r2 <= left_in r1)%nat)).
  - apply wp_bind, we_prepare. intros [pc|f] r2 H2.
    + apply wp_bind, we_launch. intros r3 H3. apply we_drive; [cbn; lia|]. intros fs r4 H4. lia.
    + apply wp_bind, we_emits. intros r3 H3. apply wp_ret. lia.
  - intros [|f fs] r2 H2; [apply wp_ret, H; lia|]. apply wp_bind, we_report. intros t r3 H3. apply wp_bind, wp_reads.
    destruct (aborted env (world r3)); [apply wp_ret, H; lia|]. apply wp_bind, IH; [lia|]. intros l r4 H4. apply wp_ret, H. lia.
Qed.

Lemma we_prepare_all ctx m cs r (Q : list preparation → Run → Prop) :
  (∀ es r', (left_in r' <= left_in r)%nat → (length es <= length cs)%nat → Q es r') → wpe (prepareToolCalls validate env ctx m cs) r Q.
Proof.
  revert r Q. induction cs as [|c cs IH]; intros r Q H; cbn [prepareToolCalls]; [by apply wp_ret, H|].
  apply wp_bind, we_emits. intros r1 H1. apply wp_bind, we_prepare. intros e r2 H2. apply wp_bind.
  apply (wp_mono _ _ _ _ (λ _ r3, (left_in r3 <= left_in r2)%nat)).
  - destruct e as [pc|f]; [by apply wp_ret | by apply we_emits].
  - intros [] r3 H3. apply wp_bind, wp_reads. destruct (aborted env (world r3)); [apply wp_ret, H; cbn; lia|].
    apply wp_bind, IH. intros es r4 H4 Hl. apply wp_ret, H; cbn; lia.
Qed.
Lemma we_start_all m ctx es r (Q : list process → Run → Prop) :
  (∀ ps r', (left_in r' <= left_in r)%nat → (weights ps <= 2 * length es)%nat → Q ps r') → wpe (startToolCalls env m ctx es) r Q.
Proof.
  revert r Q. induction es as [|e es IH]; intros r Q H; cbn [startToolCalls]; [by apply wp_ret, H|]. apply wp_bind.
  apply (wp_mono _ _ _ _ (λ p r1, (left_in r1 <= left_in r)%nat ∧ (weight p <= 2)%nat)).
  - destruct e as [c|f]; [|apply wp_ret; cbn; lia]. apply wp_bind, wp_reads. destruct (aborted env (world r)).
    + apply we_settle. intros r' Hr. cbn. lia.
    + apply we_launch. intros r' Hr. cbn. lia.
  - intros p r1 [H1 Hp]. apply wp_bind, IH. intros ps r2 H2 Hw. apply wp_ret, H; cbn; unfold weights in *; cbn; lia.
Qed.
Lemma we_reports fs r (Q : list ToolResultMessage → Run → Prop) : (∀ ts r', (left_in r' <= left_in r)%nat → Q ts r') → wpe (reports env fs) r Q.
Proof.
  revert r Q. induction fs as [|f fs IH]; intros r Q H; cbn [reports]; [by apply wp_ret, H|].
  apply wp_bind, we_report. intros t r1 H1. apply wp_bind, IH. intros ts r2 H2. apply wp_ret, H. lia.
Qed.

Lemma we_tool_batch fuel ctx m r (Q : list ToolResultMessage * bool → Run → Prop) : (left_in r + 2 * length (toolCalls m) <= fuel)%nat →
  (∀ b r', (left_in r' <= left_in r)%nat → (b.2 = true → toolCalls m ≠ []) → Q b r') → wpe (tool_batch validate env fuel ctx m) r Q.
Proof.
  intros Hf H. unfold tool_batch. destruct (toolCalls m) as [|c cs] eqn:E; [by apply wp_ret, H|]. apply wp_bind.
  apply (wp_mono _ _ _ _ (λ _ r1, (left_in r1 <= left_in r)%nat)); [|intros b r1 H1; by apply wp_ret, H].
  destruct (bool_decide _).
  - apply wp_bind, we_truncated. intros ts r1 H1. by apply wp_ret.
  - unfold executeToolCalls. rewrite E. destruct (_ || _).
    + apply wp_bind, we_sequential; [cbn in Hf; lia|]. intros l r1 H1. by apply wp_ret.
    + apply wp_bind, we_prepare_all. intros es r1 H1 He. apply wp_bind, we_start_all. intros ps r2 H2 Hw.
      apply wp_bind, we_drive; [lia|]. intros fs r3 H3. apply wp_bind, we_reports. intros ts r4 H4. apply wp_ret. lia.
Qed.

(** ** Turns *)

Lemma we_steering r (Q : list AgentMessage → Run → Prop) :
  (∀ l r', (left_in r' <= left_in r)%nat → (l ≠ [] → (left_in r' < left_in r)%nat) → Q l r') → wpe (polls (getSteeringMessages env)) r Q.
Proof.
  intros H. apply wp_bind, we_asks. intros w l r1 E H1. apply (fw_steering finite) in E as [Hle Hlt]. apply wp_bind, wp_changes, wp_ret, H.
  - change (left_in r1 <= left_in r)%nat. by rewrite H1.
  - intros Hl. change (left_in r1 < left_in r)%nat. rewrite H1. by apply Hlt.
Qed.

Lemma we_prepare_turn ctx o last pending r (Q : AgentContext * Options * list AgentMessage → Run → Prop) :
  (∀ x r', (left_in r' <= left_in r)%nat → Q x r') → wpe (prepare_turn env ctx o last pending) r Q.
Proof.
  intros H. destruct last as [t|]; cbn [prepare_turn]; [|by apply wp_ret, H].
  apply wp_bind, wp_reads, wp_bind, we_asks_le; [apply (fw_prepareNextTurn finite)|]. intros u r1 H1. apply wp_bind.
  apply (wp_mono _ _ _ _ (λ _ r2, (left_in r2 <= left_in r1)%nat)).
  - destruct u as [u|]; [|by apply wp_ret]. apply wp_bind. destruct (u_context u) as [[[prompt [i|l]] ts]|];
      [by do 2 apply wp_ret | by apply wp_bind; do 2 apply wp_ret | by do 2 apply wp_ret].
  - intros co r2 H2. apply wp_bind. apply (wp_mono _ _ _ _ (λ _ r3, (left_in r3 <= left_in r2)%nat)).
    + destruct pending; [by apply we_steering | by apply wp_ret].
    + intros l r3 H3. apply wp_bind, we_emits. intros r4 H4. apply wp_ret, H. lia.
Qed.

Lemma we_turn fuel ctx o last pending r (Q : option (AgentContext * Options * Turn * bool) → Run → Prop) : (left_in r < fuel)%nat →
  (∀ res r', (left_in r' <= left_in r)%nat → (∀ ctx o t, res = Some (ctx, o, t, true) → (left_in r' < left_in r)%nat) → Q res r') →
  wpe (turn validate env fuel ctx o last pending) r Q.
Proof.
  intros Hf H. apply wp_bind, we_prepare_turn. intros [[ctx1 o1] pending1] r1 H1. apply wp_bind, we_each.
  { intros m r2 P HP. apply wp_bind, we_announce. intros r3 H3. by apply wp_bind, wp_changes, wp_changes, HP. }
  intros r2 H2. apply wp_bind, we_stream; [lia|]. intros m r3 H3. apply wp_bind, wp_changes. destruct (has_failed m).
  - apply wp_bind, we_emits. intros r4 H4. apply wp_bind, wp_bind, wp_reads, we_emits. intros r5 H5. apply wp_ret, H; [|done].
    unfold left_in in *. cbn in *. lia.
  - apply wp_bind, we_tool_batch; [unfold left_in in *; cbn in *; lia|]. intros b r4 H4 Hmore. apply wp_bind, we_each.
    { intros t r5 P HP. by apply wp_bind, wp_changes, wp_changes, HP. }
    intros r5 H5. apply wp_bind, we_emits. intros r6 H6. apply wp_bind, wp_reads, wp_bind, wp_reads, wp_bind, we_asks_le; [apply (fw_stop finite)|].
    intros stop r7 H7. assert (Hle : (left_in r7 + 2 * length (toolCalls m) <= left_in r)%nat) by (unfold left_in in *; cbn in *; lia).
    destruct stop.
    + apply wp_bind, wp_bind, wp_reads, we_emits. intros r8 H8. apply wp_ret, H; [lia | done].
    + apply wp_ret, H; [lia|]. intros ? ? ? [= _ _ _ Hb]. specialize (Hmore Hb). destruct (toolCalls m); [done|]. cbn in Hle. lia.
Qed.

Definition waits (more : bool) (pending : list AgentMessage) : nat := if more || negb (length pending =? 0)%nat then 2 else 1.
Lemma we_runLoop turns fuel ctx o last pending more r (Q : () → Run → Prop) :
  (2 * left_in r + waits more pending <= turns)%nat → (left_in r < fuel)%nat → (∀ r', (left_in r' <= left_in r)%nat → Q () r') →
  wpe (runLoop validate env turns fuel ctx o last pending more) r Q.
Proof.
  revert ctx o last pending more r. induction turns as [|turns IH]; intros ctx o last pending more r Ht Hf H; cbn [runLoop];
    [unfold waits in Ht; destruct (_ || _); lia|]. unfold waits in Ht.
  destruct (more || negb (length pending =? 0)%nat) eqn:Ec.
  - apply wp_bind, we_turn; [done|]. intros [[[[ctx' o'] t] more']|] r1 H1 Hm; [|by apply wp_ret, H].
    apply wp_bind, we_steering. intros l r2 H2 Hl. apply IH; [|lia | intros r3 H3; apply H; lia].
    unfold waits. destruct more'; [specialize (Hm _ _ _ eq_refl); cbn; lia|]. cbn. destruct l as [|x l]; cbn; [lia|]. specialize (Hl ltac:(done)). lia.
  - apply wp_bind. apply (wp_mono _ _ _ _ (λ l r1, (left_in r1 <= left_in r)%nat ∧ (l ≠ [] → (left_in r1 < left_in r)%nat))).
    + apply wp_bind, we_asks. intros w l r1 E H1. apply (fw_followUp finite) in E as [Hle Hlt]. apply wp_bind, wp_changes, wp_ret.
      change (left_in (r1 <| polled := _ |>)) with (left_in r1). by rewrite H1.
    + intros l r1 [H1 Hl]. destruct l as [|x l].
      * apply wp_bind, wp_reads, we_emits. intros r2 H2. apply H. lia.
      * specialize (Hl ltac:(done)). apply IH; [unfold waits; cbn; lia | lia | intros r3 H3; apply H; lia].
Qed.

Lemma we_started s turns fuel ctx o w a : (2 * μ w + 2 <= turns)%nat → (μ w < fuel)%nat →
  wpe (started validate env s turns fuel ctx o) (fresh w a) (λ _ _, True).
Proof.
  intros Ht Hf. assert (Hloop : ∀ ctx r, (left_in r <= μ w)%nat → wpe (start_loop validate env turns fuel ctx o) r (λ _ _, True)).
  { intros ctx' r Hr. apply wp_bind, we_steering. intros l r1 H1 _. apply wp_bind, we_runLoop; [unfold waits; cbn; lia | lia|].
    intros r2 H2. by apply wp_reads. }
  destruct s as [prompts|]; cbn [started].
  - apply wp_bind, wp_reads, wp_bind. unfold wp at 1, new_array. apply wp_bind, wp_changes, wp_bind, we_emits. intros r1 H1.
    apply wp_bind, we_emits. intros r2 H2. apply wp_bind, we_each; [intros m r3 P; apply we_announce|]. intros r3 H3. apply Hloop.
    unfold left_in in *. cbn in *. lia.
  - apply wp_bind, wp_reads. destruct (continue_error _); [done|]. apply wp_bind, wp_changes, wp_bind, we_emits. intros r1 H1.
    apply wp_bind, we_emits. intros r2 H2. apply Hloop. unfold left_in in *. cbn in *. lia.
Qed.

(** C22. A run ends when its world is finite: if [μ] bounds what the world still does, twice [μ] and two rounds of the loop and
    more than [μ] rounds of each inner loop are enough for every run, with prompts or continued, to return or to reject. *)
Theorem finite_runs_end s turns fuel ctx o w a : (2 * μ w + 2 <= turns)%nat → (μ w < fuel)%nat →
  started validate env s turns fuel ctx o (fresh w a) ≠ no_fuel.
Proof. intros Ht Hf E. pose proof (we_started s turns fuel ctx o w a Ht Hf) as H. unfold wp in H. by rewrite E in H. Qed.

End Ends.
End AgentLoopEnds.

(** * Invariants of the agent loop

    What every call of the environment keeps, the loop keeps: a rule that lifts an invariant
    of the world, the events and the polled messages to whole runs. *)

Module AgentInvariant.
Import AgentData Program AgentLoop AgentLoopProps.

Section Invariant.
Context {W : Type} (validate : AgentTool → AgentToolCall → result jsstr Json.json) (env : @Environment W).
Context (J : W → list AgentEvent → list AgentMessage → Prop).
Notation Run := (@Run W).

(** A callback keeps the invariant; a poll adds what it gives. *)
Definition kept {A} (f : W → W * A) : Prop := ∀ w tr p, J w tr p → J (f w).1 tr p.
Definition kept_poll (f : W → W * attempt (list AgentMessage)) : Prop :=
  ∀ w tr p, J w tr p → J (f w).1 tr (p ++ match (f w).2 with answered l => l | threw _ => [] end).
Record respects : Prop := mkRespects {
  rp_emit e w tr p : J w tr p → J (emit env e w) (tr ++ [e]) p;
  rp_steering : kept_poll (getSteeringMessages env);
  rp_followUp : kept_poll (getFollowUpMessages env);
  rp_prepareNextTurn t l : kept (prepareNextTurn env t l);
  rp_stop t l : kept (shouldStopAfterTurn env t l);
  rp_transform l : kept (transformContext env l);
  rp_convert l : kept (convertToLlm env l);
  rp_payload l c l' w tr p : J w tr p → J (onContextPayload env l c l' w) tr p;
  rp_key k : kept (getApiKey env k);
  rp_stream q : kept (streamFn env q);
  rp_event : kept (next_event env);
  rp_result : kept (response_result env);
  rp_before m c args ctx l : kept (beforeToolCall env m c args ctx l);
  rp_execute c : kept (execute env c);
  rp_next m ctx ps : kept (next env m ctx ps) }.
Context (R : respects).

Definition holds (r : Run) : Prop := J (world r) (trace r) (polled r).
(** The program keeps the invariant, however it ends. *)
Definition keeps {A} (m : prog Run A) : Prop := ∀ r, holds r → wp True holds m r (λ _, holds).

Lemma loop_keeps_ret {A} (a : A) : keeps (mret a).
Proof. by intros r H. Qed.
Lemma loop_keeps_bind {A B} (m : prog Run A) (f : A → prog Run B) : keeps m → (∀ a, keeps (f a)) → keeps (m ≫= f).
Proof. intros Hm Hf r H. apply wp_bind. eapply wp_mono; [by apply Hm|]. intros a r'. apply Hf. Qed.
Lemma keeps_reads {A} (f : Run → A) : keeps (reads f).
Proof. by intros r H. Qed.
Lemma keeps_exhausted {A} : keeps (@exhausted Run A).
Proof. by intros r H. Qed.
Lemma keeps_rejects {A} t : keeps (@rejects Run A t).
Proof. by intros r H. Qed.
(** A change of what the invariant does not read. *)
Lemma keeps_changes f : (∀ r, world (f r) = world r ∧ trace (f r) = trace r ∧ polled (f r) = polled r) → keeps (changes f).
Proof. intros Hf r H. unfold wp, changes, holds. by destruct (Hf r) as (-> & -> & ->). Qed.
Lemma keeps_new_array l : keeps (new_array l).
Proof. by intros r H. Qed.
Lemma keeps_emits e : keeps (emits env e).
Proof. intros r H. by apply (rp_emit R). Qed.
Lemma keeps_asks {A} (f : W → W * attempt A) : kept f → keeps (asks f).
Proof. intros Hf r H. specialize (Hf _ _ _ H). unfold wp, asks. by destruct (f (world r)) as [w [a|t]]. Qed.
Lemma keeps_acts {A} (f : W → W * A) : kept f → keeps (acts f).
Proof. intros Hf r H. specialize (Hf _ _ _ H). unfold wp, acts. by destruct (f (world r)). Qed.
Lemma keeps_payload l c l' : keeps (does (onContextPayload env l c l')).
Proof. intros r H. by apply (rp_payload R). Qed.
Lemma keeps_polls f : kept_poll f → keeps (polls f).
Proof.
  intros Hf r H. specialize (Hf _ _ _ H). unfold wp, polls, mbind, prog_bind, asks. destruct (f (world r)) as [w [l|t]]; cbn in *.
  - exact Hf.
  - by rewrite app_nil_r in Hf.
Qed.
Lemma keeps_each {A} (f : A → prog Run ()) l : (∀ x, keeps (f x)) → keeps (each f l).
Proof. intros Hf. induction l as [|x l IH]; cbn [each]; [apply loop_keeps_ret | apply loop_keeps_bind; [apply Hf | done]]. Qed.

Local Hint Resolve loop_keeps_ret keeps_reads keeps_exhausted keeps_rejects keeps_emits keeps_payload keeps_new_array
  rp_steering rp_followUp rp_prepareNextTurn rp_stop rp_transform rp_convert rp_key rp_stream rp_event rp_result rp_before rp_execute
  rp_next : core.
(** Follows the program. *)
Local Ltac walk := repeat first
  [ solve [auto] | apply keeps_polls | apply loop_keeps_bind; intros | apply keeps_asks | apply keeps_acts | apply keeps_each; intros
  | apply keeps_changes; intros; done | case_match ].

Lemma keeps_announce m : keeps (announce env m).
Proof. unfold announce. walk. Qed.
Local Hint Resolve keeps_announce : core.
Lemma keeps_report f : keeps (report env f).
Proof. unfold report. walk. Qed.
Local Hint Resolve keeps_report : core.
Lemma loop_keeps_complete ctx b : keeps (complete_message env ctx b).
Proof. unfold complete_message, set_last_message, push_message, update_messages. walk. Qed.
Local Hint Resolve loop_keeps_complete : core.
Lemma keeps_read fuel ctx b : keeps (read_response env fuel ctx b).
Proof. revert b. induction fuel; intros b; cbn [read_response]; unfold set_last_message, push_message, update_messages; walk. Qed.
Local Hint Resolve keeps_read : core.
Lemma keeps_streaming fuel ctx o : keeps (streamAssistantResponse env fuel ctx o).
Proof. unfold streamAssistantResponse. walk. Qed.
Lemma keeps_truncated cs : keeps (failToolCallsFromTruncatedMessage env cs).
Proof. induction cs; cbn [failToolCallsFromTruncatedMessage]; unfold emitToolExecutionStart, emitToolExecutionEnd; walk. Qed.
Lemma keeps_prepare ctx m c : keeps (prepareToolCall validate env ctx m c).
Proof. unfold prepareToolCall, is_aborted. walk. Qed.
Lemma keeps_launch m ctx c : keeps (launch env m ctx c).
Proof. unfold launch, emitUpdate. walk. Qed.
Lemma keeps_react p h : keeps (react env p h).
Proof. unfold react, tool_ended, settle, emitToolExecutionEnd, emitUpdate. walk. Qed.
Local Hint Resolve keeps_streaming keeps_truncated keeps_prepare keeps_launch keeps_react : core.
Lemma keeps_drive fuel m ctx ps : keeps (drive env fuel m ctx ps).
Proof. revert ps. induction fuel; intros ps; cbn [drive]; walk. Qed.
Local Hint Resolve keeps_drive : core.
Lemma keeps_sequential fuel ctx m cs : keeps (executeToolCallsSequential validate env fuel ctx m cs).
Proof.
  induction cs; cbn [executeToolCallsSequential]; unfold runToolCall, emitToolExecutionStart, emitToolExecutionEnd, is_aborted; walk.
Qed.
Lemma keeps_prepare_all ctx m cs : keeps (prepareToolCalls validate env ctx m cs).
Proof. induction cs; cbn [prepareToolCalls]; unfold emitToolExecutionStart, emitToolExecutionEnd, is_aborted; walk. Qed.
Lemma keeps_start_all m ctx es : keeps (startToolCalls env m ctx es).
Proof. induction es; cbn [startToolCalls]; unfold settle, emitToolExecutionEnd, is_aborted; walk. Qed.
Lemma keeps_reports fs : keeps (reports env fs).
Proof. induction fs; cbn [reports]; walk. Qed.
Local Hint Resolve keeps_sequential keeps_prepare_all keeps_start_all keeps_reports : core.
Lemma keeps_batch fuel ctx m : keeps (tool_batch validate env fuel ctx m).
Proof. unfold tool_batch, executeToolCalls, executeToolCallsParallel. walk. Qed.
Lemma keeps_prepare_turn ctx o last pending : keeps (prepare_turn env ctx o last pending).
Proof. unfold prepare_turn, replaced_context. walk. Qed.
Local Hint Resolve keeps_batch keeps_prepare_turn : core.
Lemma keeps_turn fuel ctx o last pending : keeps (turn validate env fuel ctx o last pending).
Proof. unfold turn, inject, end_run, store_result, push_message, push_new, update_messages. walk. Qed.
Local Hint Resolve keeps_turn : core.
Lemma keeps_runLoop turns fuel ctx o last pending more : keeps (runLoop validate env turns fuel ctx o last pending more).
Proof. revert ctx o last pending more. induction turns; intros; cbn [runLoop]; unfold end_run; walk. Qed.
Local Hint Resolve keeps_runLoop : core.

(** An invariant that holds before the first event holds when a run returns and when it rejects. *)
Lemma keeps_started s turns fuel ctx o : keeps (started validate env s turns fuel ctx o).
Proof. destruct s; unfold started, runAgentLoop, runAgentLoopContinue, start_loop; walk. Qed.

End Invariant.
End AgentInvariant.
