(* ===== verification/Agent.v ===== *)
(** * The agent

    Models [agent/src/agent.ts]: the queues, the state that the events of the loop reduce, and
    the lifecycle of a run around [AgentLoop].

    What the agent calls in turn (its listeners, the hooks, the provider, the tools) is
    outside: each call sees the agent, has a state of its own and may call the agent back
    through its methods and setters.  The listeners are one function; they do not throw. *)
From S2P Require Import Prelude JsMap JsString Json AgentData ToolExecution AgentLoop AgentTools AgentLoopProps AgentLoopEnds.

Module Agent.
Import AgentData Program AgentLoop AgentLoopProps.
Import Json (json, j_array, j_object, j_string).
Import ToolExecution (AgentToolResult).

(** ** Queues *)

Inductive QueueMode := all | one_at_a_time.
#[export] Instance QueueMode_eq : EqDecision QueueMode.
Proof. solve_decision. Defined.
Record PendingMessageQueue := mkQueue { q_messages : list AgentMessage; q_mode : QueueMode }.

Definition enqueue (m : AgentMessage) (q : PendingMessageQueue) : PendingMessageQueue := mkQueue (q_messages q ++ [m]) (q_mode q).
Definition hasItems (q : PendingMessageQueue) : bool := negb (length (q_messages q) =? 0)%nat.
Definition drain (q : PendingMessageQueue) : PendingMessageQueue * list AgentMessage :=
  match q_mode q, q_messages q with
  | all, l => (mkQueue [] all, l)
  | one_at_a_time, [] => (q, [])
  | one_at_a_time, m :: l => (mkQueue l one_at_a_time, [m])
  end.
Definition clear (q : PendingMessageQueue) : PendingMessageQueue := mkQueue [] (q_mode q).

(** ** The agent *)

(** The conversion of an agent that is given none. *)
Definition defaultConvertToLlm (l : list AgentMessage) : list AgentMessage :=
  filter (λ m, role m = r_user ∨ role m = r_assistant ∨ role m = r_toolResult) l.

(** [activeRun] says whether the signal of the run has aborted. *)
Record Agent := mkAgent {
  a_systemPrompt : jsstr; a_model : jsstr * jsstr; a_thinkingLevel : jsstr; a_tools : list AgentTool; a_messages : list AgentMessage;
  isStreaming : bool; streamingMessage : option AgentMessage; pendingToolCalls : gset jsstr; errorMessage : option jsstr;
  steeringQueue : PendingMessageQueue; followUpQueue : PendingMessageQueue; activeRun : option bool }.
#[export] Instance agent_rebuild : Rebuild Agent := λ a,
  mkAgent (a_systemPrompt a) (a_model a) (a_thinkingLevel a) (a_tools a) (a_messages a) (isStreaming a) (streamingMessage a)
    (pendingToolCalls a) (errorMessage a) (steeringQueue a) (followUpQueue a) (activeRun a).

(** The constructor; the options that are callbacks are outside. *)
Definition DEFAULT_MODEL : jsstr * jsstr := (js "unknown", js "unknown").
Definition new_agent (systemPrompt : option jsstr) (model : option (jsstr * jsstr)) (thinkingLevel : option jsstr)
    (tools : option (list AgentTool)) (messages : option (list AgentMessage)) (steeringMode followUpMode : option QueueMode) : Agent :=
  mkAgent (default [] systemPrompt) (default DEFAULT_MODEL model) (default (js "off") thinkingLevel) (default [] tools)
    (default [] messages) false None ∅ None (mkQueue [] (default one_at_a_time steeringMode))
    (mkQueue [] (default one_at_a_time followUpMode)) None.

Definition hasQueuedMessages (a : Agent) : bool := hasItems (steeringQueue a) || hasItems (followUpQueue a).

(** The two queues. *)
Inductive which := steering | follow_up.
#[export] Instance which_eq : EqDecision which.
Proof. solve_decision. Defined.
Definition queue_of (k : which) (a : Agent) : PendingMessageQueue := match k with steering => steeringQueue a | follow_up => followUpQueue a end.
Definition set_queue (k : which) (q : PendingMessageQueue) (a : Agent) : Agent :=
  match k with steering => a <| steeringQueue := q |> | follow_up => a <| followUpQueue := q |> end.

(** What may be called at any time. *)
Inductive api :=
| steer (m : AgentMessage)
| followUp (m : AgentMessage)
| clearSteeringQueue
| clearFollowUpQueue
| abort
| set_messages (l : list AgentMessage)
| set_tools (l : list AgentTool)
| set_model (m : jsstr * jsstr)
| set_thinkingLevel (l : jsstr)
| set_systemPrompt (p : jsstr)
| set_steeringMode (m : QueueMode)
| set_followUpMode (m : QueueMode).
Definition apply_api (c : api) (a : Agent) : Agent :=
  match c with
  | steer m => a <| steeringQueue := enqueue m (steeringQueue a) |>
  | followUp m => a <| followUpQueue := enqueue m (followUpQueue a) |>
  | clearSteeringQueue => a <| steeringQueue := clear (steeringQueue a) |>
  | clearFollowUpQueue => a <| followUpQueue := clear (followUpQueue a) |>
  | abort => match activeRun a with Some _ => a <| activeRun := Some true |> | None => a end
  | set_messages l => a <| a_messages := l |>
  | set_tools l => a <| a_tools := l |>
  | set_model m => a <| a_model := m |>
  | set_thinkingLevel l => a <| a_thinkingLevel := l |>
  | set_systemPrompt p => a <| a_systemPrompt := p |>
  | set_steeringMode m => a <| steeringQueue := mkQueue (q_messages (steeringQueue a)) m |>
  | set_followUpMode m => a <| followUpQueue := mkQueue (q_messages (followUpQueue a)) m |>
  end.

Definition reset (a : Agent) : result jsstr Agent :=
  match activeRun a with
  | Some _ => Err (js "Agent is already processing. Wait for completion before resetting.")
  | None => Ok (a <| a_messages := [] |> <| isStreaming := false |> <| streamingMessage := None |> <| pendingToolCalls := ∅ |>
                  <| errorMessage := None |> <| followUpQueue := clear (followUpQueue a) |> <| steeringQueue := clear (steeringQueue a) |>)
  end.

(** The switch of [processEvents]. *)
Definition reduce (e : AgentEvent) (a : Agent) : Agent :=
  match e with
  | message_start m | message_update m => a <| streamingMessage := Some m |>
  | message_end m => a <| streamingMessage := None |> <| a_messages := a_messages a ++ [m] |>
  | tool_execution_start i _ _ => a <| pendingToolCalls := {[i]} ∪ pendingToolCalls a |>
  | tool_execution_end i _ _ _ => a <| pendingToolCalls := pendingToolCalls a ∖ {[i]} |>
  | turn_end m _ => match am_errorMessage m with Some ((_ :: _) as t) => a <| errorMessage := Some t |> | _ => a end
  | agent_end _ => a <| streamingMessage := None |>
  | _ => a
  end.

Section Agent.
Context {X : Type} (validate : AgentTool → AgentToolCall → result jsstr json).

(** How a message leaves its queue. *)
Inductive fate := taken | cleared.

(** The agent with what is outside, the flag of [createLoopConfig]; and the history: the events the listeners saw, the
    messages that entered the queues and those that left them, in order, and whether the transcript was assigned. *)
Record World := mkWorld {
  agent : Agent; outside : X; skipInitialSteeringPoll : bool;
  seen : list AgentEvent; submitted : list (which * AgentMessage); departed : list (which * fate * AgentMessage); assigned : bool }.
#[export] Instance world_rebuild : Rebuild World := λ w,
  mkWorld (agent w) (outside w) (skipInitialSteeringPoll w) (seen w) (submitted w) (departed w) (assigned w).

Definition leaving (k : which) (f : fate) (l : list AgentMessage) (w : World) : World := w <| departed := departed w ++ ((λ m, (k, f, m)) <$> l) |>.

Definition call (c : api) (w : World) : World :=
  let w' := w <| agent := apply_api c (agent w) |> in
  match c with
  | steer m => w' <| submitted := submitted w ++ [(steering, m)] |>
  | followUp m => w' <| submitted := submitted w ++ [(follow_up, m)] |>
  | clearSteeringQueue => leaving steering cleared (q_messages (steeringQueue (agent w))) w'
  | clearFollowUpQueue => leaving follow_up cleared (q_messages (followUpQueue (agent w))) w'
  | set_messages _ => w' <| assigned := true |>
  | _ => w'
  end.

(** What is outside: its answer with the calls it makes. *)
Definition reaction (A : Type) : Type := Agent → X → X * list api * A.
Record Outside := mkOutside {
  o_listener : AgentEvent → reaction ();
  o_now : X → Z;
  o_toolExecution : ToolExecutionMode;
  o_has_afterToolCall : bool;
  o_prepareNextTurn : Turn → list AgentMessage → reaction (attempt (option TurnUpdate));
  o_shouldStopAfterTurn : Turn → list AgentMessage → reaction (attempt bool);
  o_transformContext : list AgentMessage → reaction (attempt (list AgentMessage));
  o_convertToLlm : list AgentMessage → reaction (attempt (list AgentMessage));
  o_onContextPayload : list AgentMessage → AgentContext → list AgentMessage → reaction ();
  o_getApiKey : jsstr → reaction (attempt (option jsstr));
  o_streamFn : Request → reaction (attempt ());
  o_next_event : reaction (attempt (option stream_event));
  o_response_result : reaction (attempt AssistantMessage);
  o_beforeToolCall : AssistantMessage → AgentToolCall → json → AgentContext → list AgentMessage → reaction (attempt (option BeforeToolCallResult));
  o_execute : PreparedToolCall → reaction (list AgentToolResult);
  o_next : AssistantMessage → AgentContext → list process → reaction (nat * happening) }.
Context (out : Outside).

Definition acting {A} (f : reaction A) (w : World) : World * A :=
  let '(x, calls, a) := f (agent w) (outside w) in (foldl (flip call) (w <| outside := x |>) calls, a).

(** [processEvents]: the state, then the listeners. *)
Definition processEvents (e : AgentEvent) (w : World) : World :=
  (acting (o_listener out e) (w <| agent := reduce e (agent w) |> <| seen := seen w ++ [e] |>)).1.

(** [this.steeringQueue.drain()] and [this.followUpQueue.drain()] *)
Definition drains (k : which) (w : World) : World * list AgentMessage :=
  let '(q, l) := drain (queue_of k (agent w)) in (leaving k taken l (w <| agent := set_queue k q (agent w) |>), l).

(** The functions of [createLoopConfig]. *)
Definition getSteeringMessages (w : World) : World * attempt (list AgentMessage) :=
  if skipInitialSteeringPoll w then (w <| skipInitialSteeringPoll := false |>, answered [])
  else let '(w, l) := drains steering w in (w, answered l).
Definition getFollowUpMessages (w : World) : World * attempt (list AgentMessage) :=
  let '(w, l) := drains follow_up w in (w, answered l).
Definition is_aborted (w : World) : bool := bool_decide (activeRun (agent w) = Some true).
Definition createLoopConfig : @Environment World := {|
  AgentLoop.emit := processEvents;
  AgentLoop.aborted := is_aborted;
  AgentLoop.now w := o_now out (outside w);
  AgentLoop.toolExecution := o_toolExecution out;
  AgentLoop.apiKey := None;
  AgentLoop.has_afterToolCall := o_has_afterToolCall out;
  AgentLoop.getSteeringMessages := getSteeringMessages;
  AgentLoop.getFollowUpMessages := getFollowUpMessages;
  AgentLoop.prepareNextTurn t l := acting (o_prepareNextTurn out t l);
  AgentLoop.shouldStopAfterTurn t l := acting (o_shouldStopAfterTurn out t l);
  AgentLoop.transformContext l := acting (o_transformContext out l);
  AgentLoop.convertToLlm l := acting (o_convertToLlm out l);
  AgentLoop.onContextPayload l c l' w := (acting (o_onContextPayload out l c l') w).1;
  AgentLoop.getApiKey p := acting (o_getApiKey out p);
  AgentLoop.streamFn q := acting (o_streamFn out q);
  AgentLoop.next_event := acting (o_next_event out);
  AgentLoop.response_result := acting (o_response_result out);
  AgentLoop.beforeToolCall m c args ctx l := acting (o_beforeToolCall out m c args ctx l);
  AgentLoop.execute c := acting (o_execute out c);
  AgentLoop.next m ctx ps := acting (o_next out m ctx ps) |}.
Definition loop_options (a : Agent) : Options :=
  mkOptions (a_model a).1 (a_model a).2 (if bool_decide (a_thinkingLevel a = js "off") then None else Some (a_thinkingLevel a)).
(** [createContextSnapshot]: a copy of the messages, the only array of the run. *)
Definition createContextSnapshot (a : Agent) : AgentContext := mkContext (a_systemPrompt a) 0 (Some (a_tools a)).

(** ** The lifecycle of a run *)

Definition begin_run (skip : bool) (w : World) : World :=
  w <| agent := agent w <| activeRun := Some false |> <| isStreaming := true |> <| streamingMessage := None |> <| errorMessage := None |> |>
    <| skipInitialSteeringPoll := skip |>.
Definition finishRun (w : World) : World :=
  w <| agent := agent w <| isStreaming := false |> <| streamingMessage := None |> <| pendingToolCalls := ∅ |> <| activeRun := None |> |>.

Definition EMPTY_USAGE : Usage := mkUsage 0 0 0 0 0 (NInt 0).
(** The message of a run that failed; the name of the interface of its model is left out. *)
Definition failureMessage (text : jsstr) (w : World) : AssistantMessage :=
  mkAssistant [c_other (j_object [(js "type", j_string (js "text")); (js "text", j_string [])])] (a_model (agent w)).1 (a_model (agent w)).2
    EMPTY_USAGE (if is_aborted w then stop_aborted else stop_error) None (Some text) (j_object [(js "timestamp", Json.j_number (num_str (o_now out (outside w))))]).
Definition failure_events (m : AssistantMessage) : list AgentEvent :=
  [message_start (m_assistant m); message_end (m_assistant m); turn_end m []; agent_end [m_assistant m]].
Definition handleRunFailure (text : jsstr) (w : World) : World :=
  foldl (flip processEvents) w (failure_events (failureMessage text w)).

(** The loop inside a run; nothing when it does not end within the fuel. *)
Definition loop_of (turns fuel : nat) (s : start) (skip : bool) (w : World) : outcome (@Run World) (list AgentMessage) :=
  started validate createLoopConfig s turns fuel (createContextSnapshot (agent w)) (loop_options (agent w))
    (fresh (begin_run skip w) [a_messages (agent w)]).
(** [runWithLifecycle] of [runPromptMessages] and [runContinuation] *)
Definition runWithLifecycle (turns fuel : nat) (s : start) (skip : bool) (w : World) : option World :=
  match loop_of turns fuel s skip w with
  | no_fuel => None
  | returned r _ => Some (finishRun (world r))
  | rejected r text => Some (finishRun (handleRunFailure text (world r)))
  end.

(** ** The calls that run *)

Inductive prompt_input := pi_text (text : jsstr) (images : list json) (timestamp : Z) | pi_message (m : AgentMessage) | pi_messages (l : list AgentMessage).
Definition normalizePromptInput (i : prompt_input) : list AgentMessage :=
  match i with
  | pi_messages l => l
  | pi_message m => [m]
  | pi_text text images timestamp =>
      [m_user (j_object [(js "role", j_string (js "user"));
                         (js "content", j_array (j_object [(js "type", j_string (js "text")); (js "text", j_string text)] :: images));
                         (js "timestamp", Json.j_number (num_str timestamp))])]
  end.

Definition BUSY_PROMPT : jsstr :=
  js "Agent is already processing a prompt. Use steer() or followUp() to queue messages, or wait for completion.".
Definition prompt (turns fuel : nat) (i : prompt_input) (w : World) : result jsstr (option World) :=
  match activeRun (agent w) with
  | Some _ => Err BUSY_PROMPT
  | None => Ok (runWithLifecycle turns fuel (with_prompts (normalizePromptInput i)) false w)
  end.

Definition continue (turns fuel : nat) (w : World) : result jsstr (option World) :=
  match activeRun (agent w) with
  | Some _ => Err (js "Agent is already processing. Wait for completion before continuing.")
  | None =>
      match last (a_messages (agent w)) with
      | None => Err (js "No messages to continue from")
      | Some m =>
          if bool_decide (role m = r_assistant) then
            let '(w, queuedSteering) := drains steering w in
            match queuedSteering with
            | _ :: _ => Ok (runWithLifecycle turns fuel (with_prompts queuedSteering) true w)
            | [] =>
                let '(w, queuedFollowUps) := drains follow_up w in
                match queuedFollowUps with
                | _ :: _ => Ok (runWithLifecycle turns fuel (with_prompts queuedFollowUps) false w)
                | [] => Err (js "Cannot continue from message role: assistant")
                end
            end
          else Ok (runWithLifecycle turns fuel continued false w)
      end
  end.

End Agent.
End Agent.

(** * The runs of the agent

    What the agent keeps of a run, and what happens to the messages that are queued. *)

Module AgentProps.
Import AgentData Program AgentLoop AgentTools AgentLoopProps AgentInvariant Agent.

(** The messages that events end. *)
Definition messages_ended (tr : list AgentEvent) : list AgentMessage := omap (λ e, match e with message_end m => Some m | _ => None end) tr.

Lemma ended_app a b : messages_ended (a ++ b) = messages_ended a ++ messages_ended b.
Proof. apply omap_app. Qed.

Lemma drain_splits q : (drain q).2 ++ q_messages (drain q).1 = q_messages q.
Proof. unfold drain. destruct (q_mode q) eqn:E, (q_messages q) as [|m l] eqn:El; cbn; rewrite ?app_nil_r; done. Qed.

Section Props.
Context {X : Type} (validate : AgentTool → AgentToolCall → result jsstr Json.json) (out : @Outside X).
Notation World := (@World X).
Notation env := (createLoopConfig out).
Implicit Types (w : World).

(** ** The invariant of a run *)

(** The messages of the queue [k] that were submitted, and that left; and those that were taken from a queue. *)
Definition submitted_to (k : which) (l : list (which * AgentMessage)) : list AgentMessage := (filter (λ x, x.1 = k) l).*2.
Definition left_from (k : which) (l : list (which * fate * AgentMessage)) : list AgentMessage := (filter (λ x, x.1.1 = k) l).*2.
Definition taken_of (l : list (which * fate * AgentMessage)) : list AgentMessage :=
  omap (λ x, match x.1.2 with taken => Some x.2 | cleared => None end) l.

(** Since [w0] the messages [gone] left the queues, which are first in, first out: of each queue what left and what is
    still queued is what was queued and what was submitted since, in order. *)
Definition first_in_first_out (w0 w : World) (gone : list (which * fate * AgentMessage)) : Prop :=
  departed w = departed w0 ++ gone ∧ ∃ new, submitted w = submitted w0 ++ new ∧
    ∀ k, left_from k gone ++ q_messages (queue_of k (agent w)) = q_messages (queue_of k (agent w0)) ++ submitted_to k new.

Lemma submitted_snoc k l j m : submitted_to k (l ++ [(j, m)]) = submitted_to k l ++ (if decide (j = k) then [m] else []).
Proof. unfold submitted_to. rewrite filter_app, fmap_app. f_equal. by destruct j, k. Qed.
Lemma left_app k l l' : left_from k (l ++ l') = left_from k l ++ left_from k l'.
Proof. unfold left_from. by rewrite filter_app, fmap_app. Qed.
Lemma left_one k j f ms : left_from k ((λ m, (j, f, m)) <$> ms) = if decide (j = k) then ms else [].
Proof. unfold left_from. induction ms as [|m ms IH]; [by case_decide|]. rewrite fmap_cons, filter_cons. cbn [fst snd].
  case_decide; [|done]. rewrite fmap_cons. by f_equal. Qed.
Lemma taken_app l l' : taken_of (l ++ l') = taken_of l ++ taken_of l'.
Proof. apply omap_app. Qed.
Lemma taken_one j f ms : taken_of ((λ m, (j, f, m)) <$> ms) = match f with taken => ms | cleared => [] end.
Proof. unfold taken_of. induction ms as [|m ms IH]; [by destruct f|]. destruct f; cbn in *; by rewrite IH. Qed.

(** What leaves the front of a queue. *)
Lemma fifo_leaving w0 w gone j f ms q : first_in_first_out w0 w gone → ms ++ q_messages q = q_messages (queue_of j (agent w)) →
  first_in_first_out w0 (leaving j f ms (w <| agent := set_queue j q (agent w) |>)) (gone ++ ((λ m, (j, f, m)) <$> ms)).
Proof.
  intros (Hd & new & Hs & Hk) Hq. split; [cbn; by rewrite Hd, app_assoc|]. exists new. split; [done|]. intros k. rewrite left_app, left_one, <- Hk. cbn.
  destruct j, k; cbn in *; rewrite ?app_nil_r, <- ?Hq, <- ?app_assoc; done.
Qed.
(** What enters the end of one. *)
Lemma fifo_entering w0 w gone j m a : first_in_first_out w0 w gone → a = set_queue j (enqueue m (queue_of j (agent w))) (agent w) →
  first_in_first_out w0 (w <| agent := a |> <| submitted := submitted w ++ [(j, m)] |>) gone.
Proof.
  intros (Hd & new & Hs & Hk) ->. split; [done|]. exists (new ++ [(j, m)]). split; [cbn; by rewrite Hs, app_assoc|]. intros k.
  rewrite submitted_snoc, app_assoc, <- Hk. cbn. destruct j, k; cbn; rewrite ?app_nil_r, <- ?app_assoc; done.
Qed.
(** A change of anything but the queues' messages. *)
Lemma fifo_same w0 w w' gone : first_in_first_out w0 w gone → departed w' = departed w → submitted w' = submitted w →
  (∀ k, q_messages (queue_of k (agent w')) = q_messages (queue_of k (agent w))) → first_in_first_out w0 w' gone.
Proof. intros (Hd & new & Hs & Hk) Ed Es Eq. split; [by rewrite Ed|]. exists new. split; [by rewrite Es|]. intros k. by rewrite Eq. Qed.

(** [ongoing w0 w tr p]: since [w0] the run emitted [tr] and polled [p].  The listeners saw each event; the transcript is what
    it was with the messages that ended, unless it was assigned; and the queues are first in, first out, where what the
    run polled is what was taken. *)
Record ongoing (w0 w : World) (tr : list AgentEvent) (p : list AgentMessage) : Prop := mkOngoing {
  on_active : is_Some (activeRun (agent w));
  on_seen : seen w = seen w0 ++ tr;
  on_messages : assigned w = false → assigned w0 = false ∧ a_messages (agent w) = a_messages (agent w0) ++ messages_ended tr;
  on_queued : ∃ gone, first_in_first_out w0 w gone ∧ taken_of gone = p }.

Lemma call_ongoing w0 c w tr p : ongoing w0 w tr p → ongoing w0 (call c w) tr p.
Proof.
  intros [Ha Hs Hm (gone & Hf & Hp)].
  assert (Hq : ∃ gone', first_in_first_out w0 (call c w) gone' ∧ taken_of gone' = p).
  { destruct c as [m|m| | | |l|l|m|l|l|m|m].
    1: exists gone; split; [exact (fifo_entering w0 w gone steering m _ Hf eq_refl)|done].
    1: exists gone; split; [exact (fifo_entering w0 w gone follow_up m _ Hf eq_refl)|done].
    1: eexists; split; [exact (fifo_leaving w0 w gone steering cleared _ (clear (steeringQueue (agent w))) Hf (app_nil_r _))|].
    2: eexists; split; [exact (fifo_leaving w0 w gone follow_up cleared _ (clear (followUpQueue (agent w))) Hf (app_nil_r _))|].
    1,2: by rewrite taken_app, taken_one, app_nil_r.
    all: exists gone; split; [|done]; eapply fifo_same; [exact Hf|done..|]; intros []; cbn; by try destruct (activeRun (agent w)). }
  destruct c as [m|m| | | |l|l|m|l|l|m|m]; split; try exact Hq; cbn; try done.
  - destruct Ha as [b Hb]. rewrite Hb. by eexists.
  - intros E. destruct (activeRun (agent w)); by apply Hm.
Qed.
Lemma calls_ongoing w0 cs w tr p : ongoing w0 w tr p → ongoing w0 (foldl (flip call) w cs) tr p.
Proof. revert w. induction cs as [|c cs IH]; intros w H; [done|]. by apply IH, call_ongoing. Qed.
Lemma acting_ongoing {A} w0 (f : reaction A) w tr p : ongoing w0 w tr p → ongoing w0 (acting f w).1 tr p.
Proof. unfold acting. destruct (f (agent w) (outside w)) as [[x cs] a]. intros []. apply calls_ongoing. by split. Qed.
Lemma event_ongoing w0 e w tr p : ongoing w0 w tr p → ongoing w0 (processEvents out e w) (tr ++ [e]) p.
Proof.
  intros [Ha Hs Hm Hq]. apply acting_ongoing. split; cbn.
  - destruct e; cbn; repeat case_match; exact Ha.
  - by rewrite Hs, app_assoc.
  - intros E. destruct (Hm E) as [E0 Em]. split; [done|]. rewrite ended_app, app_assoc, <- Em.
    destruct e; cbn; rewrite ?app_nil_r; repeat case_match; done.
  - destruct Hq as (gone & Hf & Hp). exists gone. split; [|done]. eapply fifo_same; [exact Hf|done..|].
    intros k. destruct e, k; cbn; repeat case_match; done.
Qed.

Lemma drains_ongoing w0 k w tr p : ongoing w0 w tr p → ongoing w0 (drains k w).1 tr (p ++ (drains k w).2).
Proof.
  intros [Ha Hs Hm (gone & Hf & Hp)]. unfold drains. pose proof (drain_splits (queue_of k (agent w))) as D. destruct (drain _) as [q l]. cbn [fst snd] in D |- *.
  split.
  - by destruct k.
  - done.
  - by destruct k.
  - eexists. split; [by apply fifo_leaving|]. by rewrite taken_app, taken_one, Hp.
Qed.
Lemma loop_respects w0 : respects env (ongoing w0).
Proof.
  split; try (intros; intros w tr p; apply acting_ongoing).
  - intros e w tr p. apply event_ongoing.
  - intros w tr p [Ha Hs Hm Hq]. cbn. unfold getSteeringMessages. destruct (skipInitialSteeringPoll w).
    { cbn. rewrite app_nil_r. split; [done..|]. destruct Hq as (gone & Hf & Hp). exists gone. split; [|done]. by eapply fifo_same. }
    pose proof (drains_ongoing w0 steering w tr p (mkOngoing _ _ _ _ Ha Hs Hm Hq)) as H. by destruct (drains steering w).
  - intros w tr p H. cbn. unfold getFollowUpMessages. pose proof (drains_ongoing w0 follow_up w tr p H) as K. by destruct (drains follow_up w).
  - intros l c l' w tr p. apply acting_ongoing.
Qed.

Lemma begin_ongoing skip w : ongoing w (begin_run skip w) [] [].
Proof.
  split; cbn; [by eexists | by rewrite app_nil_r | by rewrite app_nil_r |]. exists []. split; [|done]. split; [cbn; by rewrite app_nil_r|].
  exists []. split; [cbn; by rewrite app_nil_r|]. intros []; cbn; by rewrite app_nil_r.
Qed.

Lemma loop_ongoing turns fuel s skip w : match loop_of validate out turns fuel s skip w with
  | no_fuel => True
  | rejected r _ | returned r _ => ongoing w (world r) (trace r) (polled r)
  end.
Proof.
  pose proof (keeps_started validate env (ongoing w) (loop_respects w) s turns fuel (createContextSnapshot (agent w)) (loop_options (agent w))
    (fresh (begin_run skip w) [a_messages (agent w)]) (begin_ongoing skip w)) as H.
  unfold wp, holds in H. unfold loop_of. by destruct (started _ _ _ _ _ _ _ _).
Qed.

Lemma failure_ongoing text w0 w tr p : ongoing w0 w tr p →
  ongoing w0 (handleRunFailure out text w) (tr ++ failure_events (failureMessage out text w)) p.
Proof.
  intros H. unfold handleRunFailure, failure_events. cbn [foldl flip].
  assert (∀ a b c d : AgentEvent, tr ++ [a; b; c; d] = (((tr ++ [a]) ++ [b]) ++ [c]) ++ [d]) as -> by (intros; by rewrite <- !app_assoc).
  by repeat apply event_ongoing.
Qed.

(** ** The messages of a run are those that its events end *)

Lemma works_ended l tr l' : AgentTools.works l tr l' → messages_ended tr = m_toolResult <$> AgentTools.results_told tr.
Proof. induction 1; try done. unfold messages_ended, AgentTools.results_told in *. cbn. by f_equal. Qed.
Lemma announced_ended ms : messages_ended (announced ms) = ms.
Proof. unfold messages_ended. induction ms as [|m ms IH]; [done|]. cbn. f_equal. exact IH. Qed.
Lemma speaking_ended sp : Forall speaking sp → messages_ended sp = [].
Proof. unfold messages_ended. induction 1 as [|e sp [a [-> | ->]] H IH]; done. Qed.

Lemma turn_ended v : good validate env v → messages_ended (turn_events v) = turn_messages v.
Proof.
  intros G. assert (Hw : messages_ended (v_work v) = m_toolResult <$> v_results v).
  { destruct (has_failed (v_response v)) eqn:E.
    - by destruct (g_failed _ _ _ G E) as (-> & -> & _).
    - pose proof (g_told _ _ _ G E) as T. by rewrite (works_ended _ _ _ (AgentTools.tl_works _ _ _ _ T)), (AgentTools.tl_results _ _ _ _ T). }
  unfold turn_events. rewrite app_comm_cons, ended_app. change (messages_ended (turn_start :: ?l)) with (messages_ended l). rewrite announced_ended.
  unfold turn_messages. f_equal. rewrite ended_app, (speaking_ended _ (g_speaking _ _ _ G)). cbn [app].
  transitivity (m_assistant (v_response v) :: messages_ended (v_work v ++ [turn_end (v_response v) (v_results v)])); [done|].
  by rewrite ended_app, Hw, app_nil_r.
Qed.
Lemma turns_ended vs : Forall (good validate env) vs → messages_ended (concat (turn_events <$> vs)) = concat (turn_messages <$> vs).
Proof.
  induction 1 as [|v vs Hv Hvs IH]; [done|]. rewrite !fmap_cons. cbn [concat]. by rewrite ended_app, turn_ended, IH.
Qed.

(** ** Theorems *)

Definition idle w : Prop :=
  activeRun (agent w) = None ∧ isStreaming (agent w) = false ∧ streamingMessage (agent w) = None ∧ pendingToolCalls (agent w) = ∅.

(** C9. Every run of the agent is bracketed, and the transcript is what the listeners were told: whether the loop returns or
    rejects, the listeners see one "agent_end", as the last event, the agent is idle then, and its messages are those it
    had with the messages that ended during the run, unless they were assigned. *)
Theorem agent_run_is_told turns fuel s skip w w' : runWithLifecycle validate out turns fuel s skip w = Some w' → ∃ tr ms,
  seen w' = seen w ++ tr ++ [agent_end ms] ∧ Forall AgentTools.not_end tr ∧ idle w' ∧
  (assigned w' = false → a_messages (agent w') = a_messages (agent w) ++ messages_ended tr) ∧
  (ms = messages_ended tr ∨ ∃ m, last (messages_ended tr) = Some (m_assistant m) ∧ has_failed m = true ∧ ms = [m_assistant m]).
Proof.
  unfold runWithLifecycle. pose proof (loop_ongoing turns fuel s skip w) as H.
  destruct (loop_of validate out turns fuel s skip w) as [|r text|r ms] eqn:E; [done|..]; intros [= <-].
  - pose proof (failure_ongoing text _ _ _ _ H) as [_ Hs Hm _]. set (m := failureMessage out text (world r)) in *.
    exists (trace r ++ [message_start (m_assistant m); message_end (m_assistant m); turn_end m []]), [m_assistant m].
    assert (Ht : messages_ended (trace r ++ [message_start (m_assistant m); message_end (m_assistant m); turn_end m []]) = messages_ended (trace r) ++ [m_assistant m])
      by by rewrite ended_app.
    split_and!; [rewrite <- app_assoc; exact Hs | | done | |].
    + apply Forall_app. split; [by eapply (rejected_run_has_no_end validate env) | by repeat constructor].
    + intros Ha. destruct (Hm Ha) as [_ Em]. etrans; [exact Em|]. by rewrite Ht, ended_app.
    + right. exists m. rewrite Ht. split_and!; [by apply last_snoc | | done]. unfold m, has_failed, failureMessage. cbn. by destruct (is_aborted (world r)).
  - destruct H as [_ Hs Hm _]. destruct (run_views validate env _ _ _ _ _ _ _ _ _ E) as [vs R].
    pose proof (ro_trace _ _ _ _ _ _ _ _ R) as T. pose proof (ro_good _ _ _ _ _ _ _ _ R) as G.
    exists (agent_start :: concat (turn_events <$> vs)), ms.
    assert (He : messages_ended (agent_start :: concat (turn_events <$> vs)) = ms) by (rewrite (ro_messages _ _ _ _ _ _ _ _ R); by apply turns_ended).
    split_and!; [etrans; [exact Hs|]; by rewrite T | | done | | by left].
    + constructor; [done|]. clear -G. induction G as [|v vs Hv Hvs IH]; [constructor|]. rewrite fmap_cons. cbn [concat].
      apply Forall_app. split; [by eapply good_not_end | exact IH].
    + intros Ha. destruct (Hm Ha) as [_ Em]. etrans; [exact Em|]. rewrite T, app_comm_cons, ended_app. f_equal. apply app_nil_r.
Qed.

(** C10. No queued message is lost or reordered by a run that returns.  Both queues are first in, first out: of each, the
    messages that left during the run and those still queued are, in order, those that were queued and those that were
    submitted since.  A message leaves because it is cleared or because the run takes it; what the run takes it injects:
    the prompts and the taken messages are, in this order, among the messages that the run adds to the transcript (unless
    somebody assigns the transcript). *)
Theorem queued_messages_are_kept turns fuel s skip w r ms : loop_of validate out turns fuel s skip w = returned r ms → ∃ w' gone,
  runWithLifecycle validate out turns fuel s skip w = Some w' ∧ first_in_first_out w w' gone ∧
  prompts_of s ++ taken_of gone `sublist_of` ms ∧
  (assigned w' = false → a_messages (agent w') = a_messages (agent w) ++ ms).
Proof.
  intros E. pose proof (loop_ongoing turns fuel s skip w) as H. unfold runWithLifecycle. rewrite E in *. destruct H as [_ _ Hm (gone & Hf & Hp)].
  exists (finishRun (world r)), gone. split_and!; [done | | |].
  - eapply fifo_same; [exact Hf|done..|]. by intros [].
  - rewrite Hp. by apply (polled_messages_are_injected validate env _ _ _ _ _ _ _ _ _ E).
  - intros Ha. destruct (Hm Ha) as [_ Em]. etrans; [exact Em|]. f_equal. destruct (run_views validate env _ _ _ _ _ _ _ _ _ E) as [vs R].
    rewrite (ro_trace _ _ _ _ _ _ _ _ R), (ro_messages _ _ _ _ _ _ _ _ R), app_comm_cons, ended_app.
    transitivity (messages_ended (agent_start :: concat (turn_events <$> vs))); [apply app_nil_r|]. apply (turns_ended vs), R.
Qed.

End Props.
End AgentProps.
