(* ===== verification/EventStream.v ===== *)
(** * Event streams

    Models [ai/src/utils/event-stream.ts]: the two-array queue and the stream between a
    producer and its consumers, and the stream that [agentLoop] of [agent/src/agent-loop.ts]
    returns. *)
From S2P Require Import Prelude JsString Json AgentData AgentLoop AgentTools AgentLoopProps.

Module EventStream.

(** ** The queue *)

(** Both arrays grow and shrink at their end. *)
Record FifoQueue (A : Type) := mkFifo { incoming : list A; outgoing : list A }.
Arguments mkFifo {A} _ _.
Arguments incoming {A} _.
Arguments outgoing {A} _.

Section Fifo.
Context {A : Type}.
Implicit Types (q : FifoQueue A).

Definition empty : FifoQueue A := mkFifo [] [].
Definition fifo_length q : nat := length (incoming q) + length (outgoing q).
Definition enqueue (x : A) q : FifoQueue A := mkFifo (incoming q ++ [x]) (outgoing q).
(** [while (incoming.length > 0) outgoing.push(incoming.pop())] *)
Definition turn_over q : FifoQueue A :=
  match outgoing q with [] => mkFifo [] (reverse (incoming q)) | _ => q end.
Definition dequeue q : FifoQueue A * option A :=
  let q := turn_over q in
  match last (outgoing q) with
  | Some x => (mkFifo (incoming q) (removelast (outgoing q)), Some x)
  | None => (q, None)
  end.

(** The queue as a list, the next element first. *)
Definition to_list q : list A := reverse (outgoing q) ++ incoming q.

Lemma length_to_list q : length (to_list q) = fifo_length q.
Proof. unfold to_list, fifo_length. rewrite length_app, length_reverse. lia. Qed.
Lemma to_list_enqueue x q : to_list (enqueue x q) = to_list q ++ [x].
Proof. unfold to_list, enqueue. cbn. by rewrite app_assoc. Qed.
Lemma to_list_turn_over q : to_list (turn_over q) = to_list q.
Proof. unfold to_list, turn_over. destruct (outgoing q) as [|x l] eqn:E; cbn [incoming outgoing]; [by rewrite reverse_involutive, app_nil_r | by rewrite E]. Qed.
Lemma dequeue_spec q : match dequeue q with
  | (q', Some x) => to_list q = x :: to_list q'
  | (q', None) => to_list q = [] ∧ to_list q' = []
  end.
Proof.
  unfold dequeue. rewrite <- (to_list_turn_over q). assert (Hn : outgoing (turn_over q) = [] → incoming (turn_over q) = []).
  { unfold turn_over. destruct (outgoing q) eqn:E; cbn [incoming outgoing]; [done | by rewrite E]. }
  destruct (turn_over q) as [i o]. cbn [incoming outgoing] in *. destruct o as [|x l _] using rev_ind.
  - by rewrite (Hn eq_refl).
  - rewrite last_snoc, removelast_last. unfold to_list. cbn [incoming outgoing]. by rewrite reverse_snoc.
Qed.
End Fifo.
#[global] Arguments to_list : simpl never.

(** ** The stream *)

Section Stream.
Context {T R : Type} (isComplete : T → bool) (extractResult : T → R).

(** [final] is the result the promise resolved with; a consumer is a number.  History: what was pushed before the end, and
    what the consumers were given ([None] for "done"). *)
Record Stream := mkStream {
  queue : FifoQueue T; waiting : FifoQueue nat; done : bool; final : option R;
  accepted : list T; given : list (nat * option T) }.
#[export] Instance stream_rebuild : Rebuild Stream := λ s, mkStream (queue s) (waiting s) (done s) (final s) (accepted s) (given s).
Implicit Types (s : Stream).

Definition new_stream : Stream := mkStream empty empty false None [] [].
(** A promise resolves once. *)
Definition resolveFinalResult (r : R) s : Stream := match final s with None => s <| final := Some r |> | Some _ => s end.
Definition give (c : nat) (v : option T) s : Stream := s <| given := given s ++ [(c, v)] |>.

Definition push (e : T) s : Stream :=
  if done s then s
  else
    let s := s <| accepted := accepted s ++ [e] |> in
    let s := if isComplete e then resolveFinalResult (extractResult e) (s <| done := true |>) else s in
    match dequeue (waiting s) with
    | (w, Some c) => give c (Some e) (s <| waiting := w |>)
    | (_, None) => s <| queue := enqueue e (queue s) |>
    end.
(** [while (waiting.length > 0) waiting.dequeue()({ done: true })] *)
Fixpoint notify (fuel : nat) s : Stream :=
  match fuel with
  | O => s
  | S fuel =>
      match dequeue (waiting s) with
      | (w, Some c) => notify fuel (give c None (s <| waiting := w |>))
      | (_, None) => s
      end
  end.
Definition end_stream (result : option R) s : Stream :=
  let s := s <| done := true |> in
  let s := match result with Some r => resolveFinalResult r s | None => s end in
  notify (fifo_length (waiting s)) s.
(** A round of the iterator of a consumer. *)
Definition pull (c : nat) s : Stream :=
  if (0 <? fifo_length (queue s))%nat then
    match dequeue (queue s) with
    | (q, Some e) => give c (Some e) (s <| queue := q |>)
    | (_, None) => s
    end
  else if done s then give c None s
  else s <| waiting := enqueue c (waiting s) |>.

Inductive op := o_push (e : T) | o_end (result : option R) | o_pull (c : nat).
Definition apply (s : Stream) (o : op) : Stream :=
  match o with o_push e => push e s | o_end r => end_stream r s | o_pull c => pull c s end.

(** ** What a stream is for *)

Definition values (g : list (nat * option T)) : list T := omap snd g.
#[local] Arguments values : simpl never.

(** What was accepted was given, in order, or is in the queue; consumers wait only while the queue is empty; the promise
    has resolved once a completing event was accepted. *)
Record ok s : Prop := mkOk {
  ok_order : values (given s) ++ to_list (queue s) = accepted s;
  ok_waiting : to_list (waiting s) ≠ [] → to_list (queue s) = [];
  ok_complete : existsb isComplete (accepted s) = true → done s = true;
  ok_final : final s = None → existsb isComplete (accepted s) = false;
  ok_open : done s = false → final s = None }.

Lemma values_app a b : values (a ++ b) = values a ++ values b.
Proof. apply omap_app. Qed.

Lemma values_none g c : values (g ++ [(c, None)]) = values g.
Proof. rewrite values_app. apply app_nil_r. Qed.
Lemma values_some g c e : values (g ++ [(c, Some e)]) = values g ++ [e].
Proof. apply values_app. Qed.

Lemma ok_new : ok new_stream.
Proof. by split. Qed.
Lemma ok_push e s : ok s → ok (push e s).
Proof.
  intros O. pose proof O as [Ho Hw Hc Hf Hop]. unfold push. destruct (done s) eqn:Ed; [done|].
  set (s1 := s <| accepted := _ |>). set (s2 := if isComplete e then _ else s1).
  assert (H2 : queue s2 = queue s ∧ waiting s2 = waiting s ∧ accepted s2 = accepted s ++ [e] ∧ given s2 = given s ∧
    done s2 = isComplete e ∧ (final s2 = None ↔ isComplete e = false)).
  { unfold s2, s1. destruct (isComplete e) eqn:Ee; cbn; [|rewrite Hop by done; done].
    unfold resolveFinalResult. cbn. rewrite Hop by done. cbn. done. }
  clearbody s2. destruct H2 as (Eq & Ew & Ea & Eg & Edn & Ef). clear s1.
  assert (Hx : existsb isComplete (accepted s) = false) by (apply Hf, Hop; done).
  assert (Hacc : existsb isComplete (accepted s ++ [e]) = isComplete e) by by rewrite existsb_app, Hx; cbn; rewrite orb_false_r.
  pose proof (dequeue_spec (waiting s)) as D. rewrite Ew. destruct (dequeue (waiting s)) as [w [c|]].
  - assert (Hq : to_list (queue s) = []) by (apply Hw; by rewrite D). rewrite Hq, app_nil_r in Ho.
    split; cbn; rewrite ?Ea, ?Eg, ?Edn, ?Eq, ?Hacc; try done.
    + by rewrite values_some, Hq, app_nil_r, Ho.
    + by intros ->%Ef.
    + by intros ->%Ef.
  - destruct D as [D1 D2]. split; cbn; rewrite ?Ea, ?Eg, ?Edn, ?Eq, ?Ew, ?Hacc, ?to_list_enqueue; try done.
    + by rewrite app_assoc, Ho.
    + by intros ->%Ef.
    + by intros ->%Ef.
Qed.
Lemma ok_notify fuel s : ok s → done s = true → ok (notify fuel s) ∧ done (notify fuel s) = true ∧
  accepted (notify fuel s) = accepted s ∧ values (given (notify fuel s)) = values (given s) ∧ final (notify fuel s) = final s.
Proof.
  revert s. induction fuel as [|fuel IH]; intros s O Hd; [done|]. cbn [notify]. pose proof (dequeue_spec (waiting s)) as D.
  destruct (dequeue (waiting s)) as [w [c|]]; [|done]. pose proof O as [Ho Hw Hc Hf Hop].
  assert (Hq : to_list (queue s) = []) by (apply Hw; by rewrite D).
  destruct (IH (give c None (s <| waiting := w |>))) as (O' & Hd' & Ha & Hv & Hfin); [| done |].
  - split; cbn; try done. by rewrite values_none.
  - split_and!; [done | done | done | | done]. rewrite Hv. cbn. apply values_none.
Qed.
Lemma notify_all fuel s : (length (to_list (waiting s)) <= fuel)%nat → to_list (waiting (notify fuel s)) = [].
Proof.
  revert s. induction fuel as [|fuel IH]; intros s Hl; cbn [notify]; [destruct (to_list (waiting s)); [done | cbn in Hl; lia]|].
  pose proof (dequeue_spec (waiting s)) as D. destruct (dequeue (waiting s)) as [w [c|]].
  - apply IH. cbn. rewrite D in Hl. cbn in Hl. lia.
  - apply D.
Qed.
Lemma ok_end r s : ok s → ok (end_stream r s).
Proof.
  intros O. unfold end_stream. apply ok_notify; destruct r as [r|]; unfold resolveFinalResult; destruct O as [Ho Hw Hc Hf Hop]; cbn;
    try destruct (final s) eqn:E; split; cbn; try done; intros; first [congruence | auto].
Qed.
Lemma ok_pull c s : ok s → ok (pull c s).
Proof.
  intros O. pose proof O as [Ho Hw Hc Hf Hop]. unfold pull. rewrite <- length_to_list. destruct (Nat.ltb_spec 0 (length (to_list (queue s)))) as [Hl|Hl].
  - pose proof (dequeue_spec (queue s)) as D. destruct (dequeue (queue s)) as [q [e|]]; [|done].
    assert (Hn : to_list (waiting s) = []).
    { destruct (to_list (waiting s)); [done|]. rewrite Hw in Hl by done. cbn in Hl. lia. }
    split; cbn; try done. rewrite values_some, <- app_assoc. cbn. by rewrite <- D.
  - assert (Hq : to_list (queue s) = []) by (destruct (to_list (queue s)); [done | cbn in Hl; lia]). destruct (done s) eqn:Ed.
    + split; cbn; try done; [by rewrite values_none | congruence].
    + split; cbn; try done; intros; rewrite ?Ed; auto.
Qed.
Lemma ok_run ops : ok (foldl apply new_stream ops).
Proof.
  induction ops as [|o ops IH] using rev_ind; [apply ok_new|]. rewrite foldl_snoc. destruct o; cbn; [by apply ok_push | by apply ok_end | by apply ok_pull].
Qed.

(** C36. A stream is a queue with an end: after any sequence of pushes, pulls and ends the consumers were given, in order and each
    once, the events accepted so far, and the rest waits in the queue; nobody waits while there is an event, and after
    an end nobody waits at all. *)
Theorem stream_delivers_in_order ops : let s := foldl apply new_stream ops in
  values (given s) ++ to_list (queue s) = accepted s ∧ (to_list (waiting s) ≠ [] → to_list (queue s) = []) ∧
  ∀ r, to_list (waiting (end_stream r s)) = [] ∧ done (end_stream r s) = true ∧ accepted (end_stream r s) = accepted s ∧
    values (given (end_stream r s)) = values (given s).
Proof.
  intros s. pose proof (ok_run ops) as O. fold s in O. split_and!; [apply O | apply O |]. intros r. unfold end_stream.
  set (s1 := match r with Some r => resolveFinalResult r (s <| done := true |>) | None => s <| done := true |> end).
  assert (E : waiting s1 = waiting s ∧ accepted s1 = accepted s ∧ given s1 = given s ∧ done s1 = true ∧ ok s1).
  { destruct O as [Ho Hw Hc Hf Hop]. unfold s1, resolveFinalResult. destruct r; cbn; try destruct (final s) eqn:E; cbn; split_and!; try done; split; cbn; try done; intros; first [congruence | auto]. }
  destruct E as (Ew & Ea & Eg & Ed & O1). destruct (ok_notify (fifo_length (waiting s1)) s1 O1 Ed) as (_ & Hd & Ha & Hv & _).
  split_and!; [apply notify_all; by rewrite length_to_list | done | congruence | congruence].
Qed.

(** Pushing while nobody waits. *)
Lemma push_unread e s : done s = false → to_list (waiting s) = [] →
  to_list (queue (push e s)) = to_list (queue s) ++ [e] ∧ to_list (waiting (push e s)) = [] ∧ done (push e s) = isComplete e ∧
  (final s = None → final (push e s) = if isComplete e then Some (extractResult e) else None).
Proof.
  intros Hd Hw. unfold push, resolveFinalResult. rewrite Hd. destruct (isComplete e); cbn; try destruct (final s) eqn:Ef; cbn;
    pose proof (dequeue_spec (waiting s)) as D; destruct (dequeue (waiting s)) as [w [c|]];
    try (rewrite D in Hw; done); cbn; rewrite to_list_enqueue; split_and!; try done; by rewrite Ef.
Qed.
Lemma push_all es s : done s = false → to_list (waiting s) = [] → final s = None → Forall (λ e, isComplete e = false) es →
  let s' := foldl (flip push) s es in
  done s' = false ∧ to_list (waiting s') = [] ∧ final s' = None ∧ to_list (queue s') = to_list (queue s) ++ es.
Proof.
  intros Hd Hw Hf F. revert s Hd Hw Hf. induction F as [|e es He F IH]; intros s Hd Hw Hf; cbn [foldl flip].
  { by rewrite app_nil_r. }
  destruct (push_unread e s Hd Hw) as (Hq & Hw' & Hd' & Hf'). rewrite He in Hd', Hf'.
  destruct (IH (push e s) Hd' Hw' (Hf' Hf)) as (? & ? & ? & Eq). split_and!; [done..|]. by rewrite Eq, Hq, <- app_assoc.
Qed.
Lemma notify_none fuel s : to_list (waiting s) = [] → notify fuel s = s.
Proof.
  intros Hw. destruct fuel; [done|]. cbn [notify]. pose proof (dequeue_spec (waiting s)) as D. destruct (dequeue (waiting s)) as [w [c|]]; [|done].
  by rewrite D in Hw.
Qed.
Lemma end_unread r r' s : to_list (waiting s) = [] → final s = Some r' →
  done (end_stream r s) = true ∧ final (end_stream r s) = Some r' ∧ queue (end_stream r s) = queue s.
Proof.
  intros Hw Hf. unfold end_stream. assert (E : match r with Some r => resolveFinalResult r (s <| done := true |>) | None => s <| done := true |> end = s <| done := true |>).
  { destruct r; [|done]. unfold resolveFinalResult. cbn. by rewrite Hf. }
  rewrite E. by rewrite notify_none.
Qed.
End Stream.

(** ** The stream of an agent loop *)

Section AgentStream.
Import AgentData Program AgentLoop AgentTools AgentLoopProps.
Context {W : Type} (validate : AgentTool → AgentToolCall → result jsstr Json.json) (env : @Environment W).
Notation Stream := (@Stream AgentEvent (list AgentMessage)).
Notation push := (push is_end end_result).

(** The stream of [agentLoop] or [agentLoopContinue] after the run, while nobody reads: its events were pushed, and [then] ends
    it with the messages.  Nothing is done for a run that rejects. *)
Definition agent_stream (o : outcome (@Run W) (list AgentMessage)) : option Stream :=
  match o with
  | no_fuel => None
  | returned r ms => Some (end_stream (Some ms) (foldl (flip push) new_stream (trace r)))
  | rejected r _ => Some (foldl (flip push) new_stream (trace r))
  end.

(** The stream of a run that returns ends with its answer and carries all its events; the stream of a run that rejects is never
    ended: whoever reads it is given the events and then waits forever, and its result stays pending. *)
Theorem agent_stream_ends_unless_rejected s turns fuel ctx o w a st : agent_stream (started validate env s turns fuel ctx o (fresh w a)) = Some st →
  match started validate env s turns fuel ctx o (fresh w a) with
  | no_fuel => False
  | returned r ms => done st = true ∧ final st = Some ms ∧ to_list (queue st) = trace r
  | rejected r _ => done st = false ∧ final st = None ∧ to_list (queue st) = trace r
  end.
Proof.
  destruct (started validate env s turns fuel ctx o (fresh w a)) as [|r text|r ms] eqn:E; cbn [agent_stream]; [done|..]; intros [= <-].
  - pose proof (rejected_run_has_no_end validate env _ _ _ _ _ _ _ _ _ E) as N.
    destruct (push_all is_end end_result (trace r) new_stream) as (H1 & H2 & H3 & H4); [done..|]. split_and!; [done | done | exact H4].
  - destruct (run_is_made_of_turns validate env _ _ _ _ _ _ _ _ _ E) as (vs & v & Ht & Hms & Hg & _).
    set (before := agent_start :: concat (turn_events <$> (vs ++ [v]))). assert (N : Forall not_end before).
    { constructor; [done|]. clear -Hg. induction Hg as [|u us Hu Hus IH]; [constructor|]. rewrite fmap_cons. cbn [concat].
      apply Forall_app. split; [by eapply good_not_end | exact IH]. }
    change (trace r = before ++ [agent_end ms]) in Ht. rewrite Ht, foldl_snoc.
    destruct (push_all is_end end_result before new_stream) as (H1 & H2 & H3 & H4); [done..|]. set (s1 := foldl _ _ before) in *.
    destruct (push_unread is_end end_result (agent_end ms) s1 H1 H2) as (Hq & Hw & Hd & Hf). specialize (Hf H3). cbn [flip].
    destruct (end_unread (Some ms) ms (push (agent_end ms) s1) Hw Hf) as (? & ? & Eq). split_and!; [done..|]. by rewrite Eq, Hq, H4.
Qed.
End AgentStream.
End EventStream.
