(* ===== verification/AgentSample.v ===== *)
(** * Sample runs of the agent loop and of the agent

    For the loop, a world with a script of responses and a queue of steering messages, whose tools echo
    their arguments; and the theorems at its runs. *)
From S2P Require Import Prelude JsMap JsString Json AgentData ToolExecution AgentLoop AgentTools AgentLoopProps AgentLoopEnds Agent EventStream.

Module AgentLoopSample.
Import AgentData Program AgentLoop AgentTools AgentLoopProps AgentLoopEnds.
Import Json (json, j_array, j_object, j_string, j_null).
Import ToolExecution (mkResult).

(** The responses and the queued messages that are left, and whether the signal aborted. *)
Record World := mkWorld { script : list AssistantMessage; queue : list AgentMessage; stopped : bool }.

Definition pop_response (w : World) : World * attempt AssistantMessage :=
  match script w with
  | m :: l => (mkWorld l (queue w) (stopped w), answered m)
  | [] => (w, threw (js "no response"))
  end.
Definition pop_message (w : World) : World * attempt (list AgentMessage) :=
  match queue w with
  | m :: l => (mkWorld (script w) l (stopped w), answered [m])
  | [] => (w, answered [])
  end.
(** The first call that runs ends, with its arguments as its result. *)
Fixpoint next_of (ps : list process) : nat * happening :=
  match ps with
  | [] => (0%nat, h_hooked (answered None))
  | p_running c :: _ => (0%nat, h_ended (answered (mkResult (j_array [pc_args c]) None None None None)))
  | p_hook _ _ _ :: _ => (0%nat, h_hooked (answered None))
  | p_done _ :: ps => let '(i, h) := next_of ps in (S i, h)
  end.
(** The world where a tool whose name is "stop" aborts the signal. *)
Definition env (mode : ToolExecutionMode) : @Environment World := {|
  emit _ w := w; aborted w := stopped w; now _ := 0; toolExecution := mode; apiKey := None; has_afterToolCall := false;
  getSteeringMessages := pop_message; getFollowUpMessages w := (w, answered []);
  prepareNextTurn _ _ w := (w, answered None); shouldStopAfterTurn _ _ w := (w, answered false);
  transformContext l w := (w, answered l); convertToLlm l w := (w, answered l); onContextPayload _ _ _ w := w;
  getApiKey _ w := (w, answered None); streamFn _ w := (w, answered ()); next_event w := (w, answered (Some se_done));
  response_result := pop_response; beforeToolCall _ _ _ _ _ w := (w, answered None);
  execute c w := (mkWorld (script w) (queue w) (stopped w || bool_decide (tc_name (pc_toolCall c) = js "stop")), []);
  next _ _ ps w := (w, next_of ps) |}.
Definition validate (t : AgentTool) (c : AgentToolCall) : result jsstr json := Ok (tc_arguments c).

Definition no_usage : Usage := mkUsage 0 0 0 0 0 (NInt 0).
Definition response (calls : list AgentToolCall) (reason : StopReason) : AssistantMessage :=
  mkAssistant (c_toolCall <$> calls) (js "p") (js "m") no_usage reason None None (j_object []).
Definition user (text : jsstr) : AgentMessage := m_user (j_string text).
Definition tool (name : jsstr) : AgentTool := mkAgentTool name None None.
Definition call (id name : jsstr) : AgentToolCall := mkToolCall id name (j_object []).

Definition context : AgentContext := mkContext (js "system") 0 (Some [tool (js "echo"); tool (js "stop")]).
Definition options : Options := mkOptions (js "p") (js "m") None.
Definition session : World :=
  mkWorld [response [call (js "a") (js "echo"); call (js "b") (js "missing")] stop_toolUse; response [] stop_stop] [user (js "more"); user (js "again")] false.

(** Two calls, the second of a tool that does not exist; a message is injected after each poll. *)
Definition result := started validate (env parallel) (with_prompts [user (js "hi")]) 20 20 context options (fresh session [[]]).
Definition show (m : AgentMessage) : jsstr :=
  match m with m_user (j_string t) => t | m_assistant _ => js "assistant" | m_toolResult t => tr_toolCallId t | _ => [] end.
Definition result_run : @Run World := match result with returned r _ | rejected r _ => r | no_fuel => fresh session [] end.
Definition result_answer : list AgentMessage := match result with returned _ ms => ms | _ => [] end.
Example result_shows : show <$> result_answer = js <$> ["hi"; "more"; "assistant"; "a"; "b"; "again"; "assistant"]%string.
Proof. vm_compute. reflexivity. Qed.

Lemma run_is_made_of_turns_witness : ∃ r ms, result = returned r ms ∧ length ms = 7%nat ∧ ∃ vs v,
  trace r = agent_start :: concat (turn_events <$> (vs ++ [v])) ++ [agent_end ms] ∧
  ms = concat (turn_messages <$> (vs ++ [v])) ∧ Forall (good validate (env parallel)) (vs ++ [v]) ∧ Forall fine vs.
Proof.
  exists result_run, result_answer. split; [vm_compute; reflexivity|]. split; [vm_compute; reflexivity|].
  apply (run_is_made_of_turns validate (env parallel) (with_prompts [user (js "hi")]) 20 20 context options session [[]]).
  vm_compute. reflexivity.
Defined.

Lemma polled_messages_are_injected_witness : polled result_run = [user (js "more"); user (js "again")] ∧
  [user (js "hi")] ++ polled result_run `sublist_of` result_answer.
Proof.
  split; [vm_compute; reflexivity|].
  apply (polled_messages_are_injected validate (env parallel) (with_prompts [user (js "hi")]) 20 20 context options session [[]]).
  vm_compute. reflexivity.
Defined.

(** A run without responses rejects. *)
Definition silent := started validate (env parallel) (with_prompts [user (js "hi")]) 5 5 context options (fresh (mkWorld [] [] false) [[]]).
Definition silent_run : @Run World := match silent with returned r _ | rejected r _ => r | no_fuel => fresh session [] end.
Lemma rejected_run_has_no_end_witness : silent = rejected silent_run (js "no response") ∧ length (trace silent_run) = 4%nat ∧
  Forall not_end (trace silent_run).
Proof.
  split; [vm_compute; reflexivity|]. split; [vm_compute; reflexivity|].
  apply (rejected_run_has_no_end validate (env parallel) (with_prompts [user (js "hi")]) 5 5 context options (mkWorld [] [] false) [[]] _ (js "no response")).
  vm_compute. reflexivity.
Defined.

(** The second request has all that was said before it. *)
Lemma requests_follow_the_transcript_witness : keeps_context (env parallel) ∧ length (requests result_run) = 2%nat ∧
  ∃ vs, trace result_run = agent_start :: concat (turn_events <$> vs) ++ [agent_end result_answer] ∧ length (requests result_run) = length vs ∧
    (∀ before v after, vs = before ++ v :: after → requests result_run !! length before = Some (concat (turn_context <$> before) ++ v_injected v)) ∧
    arrays result_run = [[]; concat (turn_context <$> vs)].
Proof.
  assert (K : keeps_context (env parallel)) by (intros t given w w' u H; discriminate H). split; [exact K|]. split; [vm_compute; reflexivity|].
  pose proof (requests_follow_the_transcript validate (env parallel) (with_prompts [user (js "hi")]) 20 20 context options session [[]]
    result_run result_answer) as H.
  destruct H as (vs & Ht & _ & _ & Hl & Hr & Ha & _); [vm_compute; reflexivity | exact K |].
  exists vs. split; [exact Ht|]. split; [exact Hl|]. split; [exact Hr|exact Ha].
Defined.

Definition left_of (w : World) : nat := 2 * sum_list_with (λ m, length (toolCalls m)) (script w) + length (queue w).
Lemma next_moves ps : finished ps = None → moves ps (next_of ps).1 (next_of ps).2.
Proof.
  unfold finished, moves. induction ps as [|[c|c x e|f] ps IH]; cbn; try done. destruct (mapM _ ps); [done|]. intros _.
  specialize (IH eq_refl). destruct (next_of ps). exact IH.
Qed.
Lemma sample_is_finite mode : finite_world (env mode) left_of.
Proof.
  split; cbn [env]; unfold left_of; cbn; try done; try (by intros; simplify_eq).
  - intros [s [|m q] b] w' l; cbn; intros [= <- <-]; cbn; (split; [lia|]); [done | intros _; lia].
  - intros w w' e [= <- <-]. split; [done|]. by intros x [= <-].
  - intros [[|x s] q b] w' m; cbn; intros [= <- <-]; cbn; lia.
  - intros m ctx ps w w' i h [= <- E] F. split; [done|]. right. pose proof (next_moves ps F) as H. by rewrite E in H.
Qed.
Lemma finite_runs_end_witness : left_of session = 6%nat ∧
  started validate (env sequential) (with_prompts [user (js "hi")]) 14 7 context options (fresh session [[]]) ≠ no_fuel.
Proof.
  split; [reflexivity|]. apply (finite_runs_end validate (env sequential) left_of (sample_is_finite sequential)); vm_compute; lia.
Defined.

End AgentLoopSample.

(** * Sample runs of the agent

    An agent whose user steers while a tool runs, with and without a [prepareNextTurn] that
    fails; and the theorems at its runs. *)

Module AgentSample.
Import AgentData Program AgentLoop AgentLoopProps Agent AgentProps.
Import AgentLoopSample (user, response, call, tool, validate, next_of).

Definition steered : AgentMessage := user (js "use the other file").
Definition pop (l : list AssistantMessage) : list AssistantMessage * list api * attempt AssistantMessage :=
  match l with m :: l => (l, [], answered m) | [] => ([], [], threw (js "no response")) end.
(** The outside is the responses that are left.  While a tool runs the user steers. *)
Definition outside_of (prepareNextTurn_fails : bool) : @Outside (list AssistantMessage) := {|
  o_listener _ _ x := (x, [], ()); o_now _ := 0; o_toolExecution := parallel; o_has_afterToolCall := false;
  o_prepareNextTurn _ _ _ x := (x, [], if prepareNextTurn_fails then threw (js "compaction failed") else answered None);
  o_shouldStopAfterTurn _ _ _ x := (x, [], answered false); o_transformContext l _ x := (x, [], answered l);
  o_convertToLlm l _ x := (x, [], answered (defaultConvertToLlm l)); o_onContextPayload _ _ _ _ x := (x, [], ()); o_getApiKey _ _ x := (x, [], answered None);
  o_streamFn _ _ x := (x, [], answered ()); o_next_event _ x := (x, [], answered (Some se_done)); o_response_result _ := pop;
  o_beforeToolCall _ _ _ _ _ _ x := (x, [], answered None); o_execute _ _ x := (x, [steer steered], []);
  o_next _ _ ps _ x := (x, [], next_of ps) |}.

Definition first : World := mkWorld
  (new_agent None None None (Some [tool (js "echo")]) None None None)
  [response [AgentLoopSample.call (js "a") (js "echo")] stop_toolUse; response [] stop_stop] false [] [] [] false.
Definition ask : start := with_prompts (normalizePromptInput (pi_message (user (js "hi")))).
Definition after (fails : bool) : World :=
  default first (runWithLifecycle validate (outside_of fails) 20 20 ask false first).
Definition run_of_first : @Run (@World (list AssistantMessage)) :=
  match loop_of validate (outside_of false) 20 20 ask false first with returned r _ | rejected r _ => r | no_fuel => fresh first [] end.
Definition answer_of_first : list AgentMessage := match loop_of validate (outside_of false) 20 20 ask false first with returned _ ms => ms | _ => [] end.

Lemma agent_run_is_told_witness : runWithLifecycle validate (outside_of true) 20 20 ask false first = Some (after true) ∧ length (seen (after true)) = 15%nat ∧
  ∃ tr ms, seen (after true) = seen first ++ tr ++ [agent_end ms] ∧ Forall AgentTools.not_end tr ∧ idle (after true).
Proof.
  assert (E : runWithLifecycle validate (outside_of true) 20 20 ask false first = Some (after true)) by (vm_compute; reflexivity).
  split; [exact E|]. split; [vm_compute; reflexivity|].
  destruct (agent_run_is_told validate (outside_of true) 20 20 ask false first (after true) E) as (tr & ms & Hs & Hn & Hi & _).
  exists tr, ms. split; [exact Hs|]. split; [exact Hn | exact Hi].
Defined.

Lemma queued_messages_are_kept_witness : loop_of validate (outside_of false) 20 20 ask false first = returned run_of_first answer_of_first ∧
  ∃ w' gone, submitted w' = [(steering, steered)] ∧ first_in_first_out first w' gone ∧ [user (js "hi")] ++ taken_of gone `sublist_of` answer_of_first.
Proof.
  assert (E : loop_of validate (outside_of false) 20 20 ask false first = returned run_of_first answer_of_first) by (vm_compute; reflexivity). split; [exact E|].
  destruct (queued_messages_are_kept validate (outside_of false) 20 20 ask false first run_of_first answer_of_first E) as (w' & gone & Hw & Hf & Ht & _).
  exists w', gone. split; [|split; [exact Hf | exact Ht]].
  assert (Ew : w' = after false) by (unfold after; rewrite Hw; reflexivity). rewrite Ew. vm_compute. reflexivity.
Defined.

(** A message that steers is lost when [prepareNextTurn] rejects: it was polled at the end of the turn before, and is then
    neither queued nor in the transcript. *)
Theorem steered_message_is_lost : ∃ w, runWithLifecycle validate (outside_of true) 20 20 ask false first = Some w ∧
  submitted w = [(steering, steered)] ∧ departed w = [(steering, taken, steered)] ∧ length (a_messages (agent w)) = 4%nat ∧
  Forall (λ m, m ≠ steered) (a_messages (agent w)).
Proof.
  exists (after true). split; [vm_compute; reflexivity|]. split; [vm_compute; reflexivity|]. split; [vm_compute; reflexivity|].
  split; [vm_compute; reflexivity|]. vm_compute. repeat constructor; discriminate.
Qed.

(** The stream of the run without responses, see [AgentLoopSample.silent]. *)
Definition silent_stream : EventStream.Stream :=
  default EventStream.new_stream (EventStream.agent_stream AgentLoopSample.silent).
Lemma agent_stream_ends_unless_rejected_witness : EventStream.agent_stream AgentLoopSample.silent = Some silent_stream ∧
  match AgentLoopSample.silent with
  | no_fuel => False
  | returned r ms => EventStream.done silent_stream = true ∧ EventStream.final silent_stream = Some ms ∧ EventStream.to_list (EventStream.queue silent_stream) = trace r
  | rejected r _ => EventStream.done silent_stream = false ∧ EventStream.final silent_stream = None ∧ EventStream.to_list (EventStream.queue silent_stream) = trace r
  end.
Proof.
  assert (E : EventStream.agent_stream (started validate (AgentLoopSample.env parallel) (with_prompts [user (js "hi")]) 5 5 AgentLoopSample.context
    AgentLoopSample.options (fresh (AgentLoopSample.mkWorld [] [] false) [[]])) = Some silent_stream) by (vm_compute; reflexivity).
  split; [exact E|]. exact (EventStream.agent_stream_ends_unless_rejected validate (AgentLoopSample.env parallel) (with_prompts [user (js "hi")]) 5 5
    AgentLoopSample.context AgentLoopSample.options (AgentLoopSample.mkWorld [] [] false) [[]] silent_stream E).
Defined.

End AgentSample.
