(* ===== verification/Truncate.v ===== *)
(** * Truncation of tool outputs

    Models [agent/src/harness/utils/truncate.ts]: the first or the last lines of a text that
    fit in a number of lines and a number of UTF-8 bytes, and the end of a line that fits in
    a number of bytes.

    [Buffer] is an object of the platform that may be missing, in which case the file
    counts the bytes itself; a theorem about bytes assumes that [Buffer.byteLength] counts
    them, as Node documents.  A text is a list of UTF-16 units. *)
From S2P Require Import Prelude JsString.

Module Truncate.

Definition DEFAULT_MAX_LINES : Z := 2000.
Definition DEFAULT_MAX_BYTES : Z := 50 * 1024.
Definition GREP_MAX_LINE_LENGTH : Z := 500.

Inductive limit := by_lines | by_bytes.
#[export] Instance limit_eq_dec : EqDecision limit.
Proof. solve_decision. Defined.

Record TruncationResult := mkTruncation {
  content : jsstr; truncated : bool; truncatedBy : option limit; totalLines : Z; totalBytes : Z; outputLines : Z;
  outputBytes : Z; lastLinePartial : bool; firstLineExceedsLimit : bool; maxLines : Z; maxBytes : Z }.
Record TruncationOptions := mkOptions { o_maxLines : option Z; o_maxBytes : option Z }.

(** ** Counting *)

(** [content.search(nonAsciiPattern)] *)
Fixpoint search_non_ascii (s : jsstr) : option Z :=
  match s with
  | [] => None
  | u :: s => if negb ((0 <=? u) && (u <=? 0x7f)) then Some 0 else Z.succ <$> search_non_ascii s
  end.

(** The loop over the units from the first that is not ASCII. *)
Fixpoint count_bytes (s : jsstr) : Z :=
  match s with
  | [] => 0
  | code :: s1 =>
      if code <=? 0x7f then 1 + count_bytes s1
      else if code <=? 0x7ff then 2 + count_bytes s1
      else if is_high code then
        match s1 with
        | next :: s2 => if is_low next then 4 + count_bytes s2 else 3 + count_bytes s1
        | [] => 3
        end
      else 3 + count_bytes s1
  end.

Definition splitLinesForCounting (content : jsstr) : list jsstr :=
  if bool_decide (content = []) then []
  else let lines := split_lines content in if ends_line content then removelast lines else lines.

Fixpoint replaceUnpairedSurrogates (s : jsstr) : jsstr :=
  match s with
  | [] => []
  | code :: s1 =>
      if is_high code then
        match s1 with
        | next :: s2 => if is_low next then code :: next :: replaceUnpairedSurrogates s2
                        else 0xFFFD :: replaceUnpairedSurrogates s1
        | [] => [0xFFFD]
        end
      else if is_low code then 0xFFFD :: replaceUnpairedSurrogates s1
      else code :: replaceUnpairedSurrogates s1
  end.

(** [(n / d).toFixed(1)], of a count and a power of two: the quotient is a double, so
    that only the decimal is rounded, a tie upwards. *)
Definition toFixed1 (n d : Z) : jsstr :=
  let tenths := (2 * 10 * n + d) / (2 * d) in num_str (tenths / 10) ++ js "." ++ num_str (tenths mod 10).

Definition formatSize (n : Z) : jsstr :=
  if n <? 1024 then num_str n ++ js "B"
  else if n <? 1024 * 1024 then toFixed1 n 1024 ++ js "KB"
  else toFixed1 n (1024 * 1024) ++ js "MB".

(** [s.slice(0, n)] for any [n]: a negative [n] counts from the end. *)
Definition slice_to (n : Z) (s : jsstr) : jsstr := if n <? 0 then slice0 (zlen s + n) s else slice0 n s.

Definition truncateLine (line : jsstr) (maxChars : option Z) : jsstr * bool :=
  let maxChars := default GREP_MAX_LINE_LENGTH maxChars in
  if zlen line <=? maxChars then (line, false) else (slice_to maxChars line ++ js "... [truncated]", true).

(** ** From the end of a line *)

(** The width of the character that ends at a unit, its bytes, and whether it is an
    unpaired surrogate; the units come in reverse. *)
Definition character_before (code : Z) (before : jsstr) : nat * Z * bool :=
  if is_low code then
    match before with
    | previous :: _ => if is_high previous then (2%nat, 4, false) else (1%nat, 3, true)
    | [] => (1%nat, 3, true)
    end
  else if is_high code then (1%nat, 3, true)
  else (1%nat, if code <=? 0x7f then 1 else if code <=? 0x7ff then 2 else 3, false).

(** The loop from the end: [r] is what precedes [i], reversed; [start] and whether a surrogate
    needs its replacement.  Each round passes a unit, so that the length is fuel enough. *)
Fixpoint take_back (fuel : nat) (maxBytes outputBytes start : Z) (needsReplacement : bool) (r : jsstr) : Z * bool :=
  match fuel, r with
  | S fuel, code :: before =>
      let '(width, characterBytes, unpairedSurrogate) := character_before code before in
      if maxBytes <? outputBytes + characterBytes then (start, needsReplacement)
      else take_back fuel maxBytes (outputBytes + characterBytes) (start - Z.of_nat width) (needsReplacement || unpairedSurrogate) (drop width r)
  | _, _ => (start, needsReplacement)
  end.

Definition truncateStringToBytesFromEnd (str : jsstr) (maxBytes : Z) : jsstr :=
  if maxBytes <=? 0 then []
  else
    let '(start, needsReplacement) := take_back (length str) maxBytes 0 (zlen str) false (rev str) in
    let output := slice_from start str in
    if needsReplacement then replaceUnpairedSurrogates output else output.

(** ** Head and tail *)

Section Truncation.
Context (runtimeBuffer : option (jsstr → Z)).

Definition utf8ByteLength (content : jsstr) : Z :=
  match runtimeBuffer with
  | Some byteLength => byteLength content
  | None =>
      match search_non_ascii content with
      | None => zlen content
      | Some firstNonAscii => firstNonAscii + count_bytes (slice_from firstNonAscii content)
      end
  end.

(** The line that is added to [n] lines costs its separator too. *)
Definition line_bytes (n : nat) (line : jsstr) : Z := utf8ByteLength line + (if bool_decide (n = 0%nat) then 0 else 1).

(** The loop over the lines: the lines collected and what stopped it. *)
Fixpoint collect_head (maxLines maxBytes : Z) (lines acc : list jsstr) (outputBytesCount : Z) : list jsstr * limit :=
  match lines with
  | [] => (acc, by_lines)
  | line :: rest =>
      if zlen acc <? maxLines then
        let lineBytes := line_bytes (length acc) line in
        if maxBytes <? outputBytesCount + lineBytes then (acc, by_bytes)
        else collect_head maxLines maxBytes rest (acc ++ [line]) (outputBytesCount + lineBytes)
      else (acc, by_lines)
  end.

Definition stopped_by (l : limit) (out total : Z) : limit :=
  match l with by_bytes => by_bytes | by_lines => if out <? total then by_lines else by_bytes end.

Definition untruncated (content : jsstr) (lines bytes maxLines maxBytes : Z) : TruncationResult :=
  mkTruncation content false None lines bytes lines bytes false false maxLines maxBytes.

(** [None] is the [TypeError] of reading the first line of an empty text. *)
Definition truncateHead (content : jsstr) (options : TruncationOptions) : option TruncationResult :=
  let maxLines := default DEFAULT_MAX_LINES (o_maxLines options) in
  let maxBytes := default DEFAULT_MAX_BYTES (o_maxBytes options) in
  let totalBytes := utf8ByteLength content in
  let lines := splitLinesForCounting content in
  let totalLines := zlen lines in
  if (totalLines <=? maxLines) && (totalBytes <=? maxBytes) then Some (untruncated content totalLines totalBytes maxLines maxBytes)
  else
    first ← head lines;
    if maxBytes <? utf8ByteLength first then
      Some (mkTruncation [] true (Some by_bytes) totalLines totalBytes 0 0 false true maxLines maxBytes)
    else
      let '(out, stop) := collect_head maxLines maxBytes lines [] 0 in
      let outputContent := join [10] out in
      Some (mkTruncation outputContent true (Some (stopped_by stop (zlen out) totalLines)) totalLines totalBytes (zlen out)
              (utf8ByteLength outputContent) false false maxLines maxBytes).

(** The loop from the last line: the lines collected, what stopped it, and whether the
    last line is partial; the lines come in reverse. *)
Fixpoint collect_tail (maxLines maxBytes : Z) (lines_rev acc : list jsstr) (outputBytesCount : Z) : list jsstr * limit * bool :=
  match lines_rev with
  | [] => (acc, by_lines, false)
  | line :: rest =>
      if zlen acc <? maxLines then
        let lineBytes := line_bytes (length acc) line in
        if maxBytes <? outputBytesCount + lineBytes then
          if bool_decide (acc = []) then ([truncateStringToBytesFromEnd line maxBytes], by_bytes, true)
          else (acc, by_bytes, false)
        else collect_tail maxLines maxBytes rest (line :: acc) (outputBytesCount + lineBytes)
      else (acc, by_lines, false)
  end.

Definition truncateTail (content : jsstr) (options : TruncationOptions) : TruncationResult :=
  let maxLines := default DEFAULT_MAX_LINES (o_maxLines options) in
  let maxBytes := default DEFAULT_MAX_BYTES (o_maxBytes options) in
  let totalBytes := utf8ByteLength content in
  let lines := splitLinesForCounting content in
  let totalLines := zlen lines in
  if (totalLines <=? maxLines) && (totalBytes <=? maxBytes) then untruncated content totalLines totalBytes maxLines maxBytes
  else
    let '(out, stop, partial) := collect_tail maxLines maxBytes (rev lines) [] 0 in
    let outputContent := join [10] out in
    mkTruncation outputContent true (Some (stopped_by stop (zlen out) totalLines)) totalLines totalBytes (zlen out)
      (utf8ByteLength outputContent) partial false maxLines maxBytes.

End Truncation.

(** ** Bytes *)

Notation unit_str s := (Forall (λ u, is_unit u = true) s).
Definition size (s : jsstr) : Z := zlen (textEncode s).

(** No pair of surrogates stands across the border of two strings. *)
Definition borders (a b : jsstr) : Prop := ¬ ∃ u v, last a = Some u ∧ head b = Some v ∧ is_high u = true ∧ is_low v = true.

Lemma borders_cons u a b : a ≠ [] → borders (u :: a) b → borders a b.
Proof. intros Ha H (x & y & H1 & H2). apply H. exists x, y. destruct a; [done|]. by rewrite last_cons_cons. Qed.

Lemma utf16_scalars_app a b : borders a b → utf16_scalars (a ++ b) = utf16_scalars a ++ utf16_scalars b.
Proof.
  induction a as [|u a IH1 IH2] using str_ind2; intros Hb; [done|]. cbn [app utf16_scalars].
  destruct a as [|v a].
  - cbn [app]. destruct (is_high u) eqn:Hu; [|by destruct (is_low u)].
    destruct b as [|v b]; [done|]. destruct (is_low v) eqn:Hv; [|done].
    destruct Hb. exists u, v. by rewrite Hu, Hv.
  - assert (Hb1 : borders (v :: a) b) by (by eapply borders_cons). specialize (IH1 Hb1).
    cbn [app] in *. destruct (is_high u); [|destruct (is_low u); by rewrite IH1].
    destruct (is_low v); [|by rewrite IH1]. cbn [app]. f_equal. apply (IH2 v); [done|].
    destruct a as [|w a]; [|by eapply borders_cons]. by intros (x & y & H & _).
Qed.

Lemma size_app a b : borders a b → size (a ++ b) = size a + size b.
Proof. intros H. unfold size, textEncode. by rewrite utf16_scalars_app, bind_app, zlen_app. Qed.
Lemma size_nonneg s : 0 <= size s.
Proof. apply zlen_nonneg. Qed.
Lemma borders_line a b : borders a (10 :: b).
Proof. intros (u & v & _ & [= <-] & _ & H). done. Qed.
Lemma line_borders b : borders [10] b.
Proof. intros (u & v & [= <-] & _ & H & _). done. Qed.

Lemma size_line a b : size (a ++ 10 :: b) = size a + 1 + size b.
Proof.
  change (10 :: b) with ([10] ++ b). rewrite size_app by apply borders_line. rewrite size_app by apply line_borders.
  change (size [10]) with 1. lia.
Qed.
Lemma size_join_snoc ls l : ls ≠ [] → size (join [10] (ls ++ [l])) = size (join [10] ls) + 1 + size l.
Proof. intros H. rewrite join_app by done. cbn [app join]. apply size_line. Qed.
Lemma size_join_cons l ls : ls ≠ [] → size (join [10] (l :: ls)) = size l + 1 + size (join [10] ls).
Proof. intros H. rewrite join_cons by done. apply size_line. Qed.

(** The bytes of one scalar value. *)
Definition scalar_size (c : Z) : Z := zlen (utf8_of_scalar c).
Lemma scalar_size_eq c : scalar_size c = if c <? 0x80 then 1 else if c <? 0x800 then 2 else if c <? 0x10000 then 3 else 4.
Proof. unfold scalar_size, utf8_of_scalar. by repeat case_match. Qed.
Lemma size_scalars s : size s = foldr (λ c n, scalar_size c + n) 0 (utf16_scalars s).
Proof.
  unfold size, textEncode. induction (utf16_scalars s) as [|c cs IH]; [done|]. rewrite bind_cons, zlen_app. cbn [foldr]. by rewrite <- IH.
Qed.

(** The loop counts what the encoder writes. *)
Lemma count_bytes_size s : unit_str s → count_bytes s = size s.
Proof.
  rewrite size_scalars. induction s as [|u s IH1 IH2] using str_ind2; [done|]. intros [Hu Hs]%Forall_cons.
  specialize (IH1 Hs). cbn [count_bytes utf16_scalars].
  assert (Hbig : is_high u = true ∨ is_low u = true → 0x800 <= u < 0x10000) by (unfold is_high, is_low, is_unit in *; lia).
  assert (Hr : 0 <= u < 0x10000) by (unfold is_unit in Hu; lia).
  destruct (is_high u) eqn:Hh.
  - rewrite (proj2 (Z.leb_gt u 0x7f)), (proj2 (Z.leb_gt u 0x7ff)) by (specialize (Hbig ltac:(by left)); lia).
    destruct s as [|v s]; [done|]. destruct (is_low v) eqn:Hv.
    + cbn [foldr]. rewrite <- (IH2 v s eq_refl) by (by inversion Hs). rewrite scalar_size_eq.
      repeat case_match; bool_prop; try lia. all: unfold is_high, is_low in *; lia.
    + cbn [foldr]. by rewrite <- IH1.
  - destruct (is_low u) eqn:Hl.
    + rewrite (proj2 (Z.leb_gt u 0x7f)), (proj2 (Z.leb_gt u 0x7ff)) by (specialize (Hbig ltac:(by right)); lia).
      cbn [foldr]. by rewrite <- IH1.
    + cbn [foldr]. rewrite <- IH1, scalar_size_eq. repeat case_match; bool_prop; lia.
Qed.

Lemma search_ascii s i : search_non_ascii s = Some i →
  0 <= i ∧ Forall (λ u, 0 <= u <= 0x7f) (slice0 i s).
Proof.
  revert i. induction s as [|u s IH]; intros i; [done|]. cbn. destruct (negb _) eqn:E.
  - intros [= <-]. split; [lia|constructor].
  - intros (j & Hj & ->)%fmap_Some. destruct (IH j Hj) as [H0 H]. split; [lia|].
    unfold slice0 in *. rewrite Z2Nat.inj_succ by done. cbn [take]. constructor; [bool_prop; lia|done].
Qed.
Lemma search_none s : search_non_ascii s = None → Forall (λ u, 0 <= u <= 0x7f) s.
Proof.
  induction s as [|u s IH]; [constructor|]. cbn. destruct (negb _) eqn:E; [done|].
  intros H%fmap_None. constructor; [bool_prop; lia|auto].
Qed.
Lemma ascii_borders a b : Forall (λ u, 0 <= u <= 0x7f) a → borders a b.
Proof.
  intros H (u & v & Hu & _ & Hh & _). apply last_Some_elem_of in Hu. eapply Forall_forall in H; [|done]. unfold is_high in Hh. lia.
Qed.
Lemma ascii_size a : Forall (λ u, 0 <= u <= 0x7f) a → size a = zlen a.
Proof.
  induction 1 as [|u a Hu Ha IH]; [done|]. change (u :: a) with ([u] ++ a).
  assert (Hb : borders [u] a) by (apply ascii_borders; constructor; [exact Hu|constructor]). rewrite size_app, zlen_app, IH by done. f_equal.
  rewrite size_scalars. cbn. replace (is_high u) with false by (unfold is_high; lia).
  replace (is_low u) with false by (unfold is_low; lia). cbn. rewrite scalar_size_eq, (proj2 (Z.ltb_lt u 0x80)) by lia. done.
Qed.

(** ** The end of a line *)

Lemma borders_last a b b' : borders (a ++ b) b' → b ≠ [] → borders b b'.
Proof.
  intros H Hb (u & v & Hu & H'). apply H. exists u, v. split; [|done].
  apply last_Some in Hu as [l ->]. by rewrite app_assoc, last_snoc.
Qed.
Lemma borders_head a b c : borders a b → b ≠ [] → borders a (b ++ c).
Proof. intros H Hb (u & v & Hu & Hv & H'). apply H. exists u, v. by destruct b. Qed.

(** What the loop reads is the last character of what precedes. *)
Lemma character_before_spec code before w n unpaired : is_unit code = true → character_before code before = (w, n, unpaired) →
  ∃ rest ch c, rev (code :: before) = rest ++ ch ∧ ch ≠ [] ∧ length ch = w ∧ rev (drop w (code :: before)) = rest ∧ borders rest ch
    ∧ utf16_scalars ch = [c] ∧ scalar_size c = n ∧ (unpaired = false → ∀ k, well_formed k = true → well_formed (ch ++ k) = true).
Proof.
  intros Hu. unfold character_before. pose proof Hu as Hr. unfold is_unit in Hr.
  assert (Hone : ∀ n' u', (w, n, unpaired) = (1%nat, n', u') → (∀ v, head before = Some v → is_high v = true → is_low code = false) →
      scalar_size (if is_high code || is_low code then 0xFFFD else code) = n' → (u' = false → is_high code || is_low code = false) →
      ∃ rest ch c, rev (code :: before) = rest ++ ch ∧ ch ≠ [] ∧ length ch = w ∧ rev (drop w (code :: before)) = rest ∧ borders rest ch
        ∧ utf16_scalars ch = [c] ∧ scalar_size c = n ∧ (unpaired = false → ∀ k, well_formed k = true → well_formed (ch ++ k) = true)).
  { intros n' u' [= -> -> ->] Hb Hn Hun. exists (rev before), [code], (if is_high code || is_low code then 0xFFFD else code).
    split_and!; [done..| | | done |].
    - intros (x & v & Hx & [= <-] & Hh & Hl). destruct before as [|y before]; [done|]. cbn [rev] in Hx. rewrite last_snoc in Hx.
      injection Hx as <-. by rewrite (Hb y eq_refl Hh) in Hl.
    - cbn. by destruct (is_high code), (is_low code).
    - intros H k Hk. apply orb_false_iff in Hun as [Hh Hl]; [|exact H]. cbn. by rewrite Hh, Hl, Hu, Hk. }
  destruct (is_low code) eqn:Hl.
  - assert (Hh : is_high code = false) by (unfold is_high, is_low in *; lia). rewrite Hh in Hone.
    destruct before as [|v before]; [intros H; by eapply Hone|]. destruct (is_high v) eqn:Hv.
    + intros [= <- <- <-]. clear Hone. exists (rev before), [v; code], (0x10000 + (v - 0xD800) * 0x400 + (code - 0xDC00)).
      split_and!; try done.
      * cbn [rev]. by rewrite <- app_assoc.
      * intros (x & y & _ & [= <-] & _ & H). unfold is_high, is_low in *. lia.
      * cbn. by rewrite Hv, Hl.
      * rewrite scalar_size_eq. unfold is_high, is_low in *. repeat case_match; bool_prop; lia.
      * intros _ k Hk. cbn. by rewrite Hv, Hl.
    + intros H. eapply Hone; [done| |done|done]. intros x [= <-] Hx. by rewrite Hv in Hx.
  - destruct (is_high code) eqn:Hh; intros H; (eapply Hone; [symmetry; exact H|done| |done]).
    + done.
    + cbn. rewrite scalar_size_eq. repeat case_match; bool_prop; try lia.
Qed.

(** [s] is split into what is dropped and what is kept, between two characters; the kept part
    is the longest that fits. *)
Definition longest_end (limit : Z) (s dropped kept : jsstr) : Prop :=
  s = dropped ++ kept ∧ borders dropped kept ∧ size kept <= limit
  ∧ (dropped = [] ∨ ∃ cs c, utf16_scalars dropped = cs ++ [c] ∧ limit < scalar_size c + size kept).

Lemma take_back_spec fuel limit r kept needs : (length r <= fuel)%nat → unit_str r → borders (rev r) kept →
  size kept <= limit → (needs = false → well_formed kept = true) →
  let '(start, needs') := take_back fuel limit (size kept) (zlen r) needs r in
  ∃ dropped kept', zlen dropped = start ∧ longest_end limit (rev r ++ kept) dropped kept' ∧ (needs' = false → well_formed kept' = true).
Proof.
  revert r kept needs. induction fuel as [|fuel IH]; intros r kept needs Hf Hu Hb Hs Hw.
  - destruct r as [|code before]; [|cbn in Hf; lia]. cbn. exists [], kept. split_and!; [done|split_and!; [done|done|done|by left]|done].
  - destruct r as [|code before]; [cbn; exists [], kept; split_and!; [done|split_and!; [done|done|done|by left]|done]|].
    cbn [take_back]. destruct (character_before code before) as [[w n] unpaired] eqn:E.
    assert (Hc : is_unit code = true) by (by inversion Hu).
    destruct (character_before_spec _ _ _ _ _ Hc E) as (rest & ch & c & Hrev & Hne & Hlen & Hrest & Hbr & Hsc & Hn & Hwf).
    set (r := code :: before) in *. clearbody r.
    assert (Hck : borders ch kept) by (rewrite Hrev in Hb; by eapply borders_last).
    assert (Hsize : size (ch ++ kept) = n + size kept).
    { rewrite size_app by done. f_equal. rewrite size_scalars, Hsc. cbn. lia. }
    destruct (limit <? size kept + n) eqn:El; bool_prop.
    + exists (rev r), kept. split_and!; [by rewrite zlen_rev | | done]. split_and!; [done|done|done|].
      right. exists (utf16_scalars rest), c. rewrite Hrev, utf16_scalars_app, Hsc by done. split; [done|lia].
    + assert (Hzl : zlen r - Z.of_nat w = zlen (drop w r)).
      { rewrite zlen_drop. assert (length r = length (rest ++ ch)) as H by (by rewrite <- Hrev, length_rev).
        rewrite length_app in H. unfold zlen. lia. }
      rewrite Hzl. replace (size kept + n) with (size (ch ++ kept)) by lia.
      assert (Hlr : (length (drop w r) <= fuel)%nat).
      { rewrite length_drop. destruct ch; [done|]. cbn [length] in Hlen. lia. }
      specialize (IH (drop w r) (ch ++ kept) (needs || unpaired) Hlr (Forall_drop _ _ _ Hu)).
      destruct (take_back _ _ _ _ _ _) as [start needs'].
      destruct IH as (dropped & kept' & H1 & H2 & H3).
      * rewrite Hrest. by apply borders_head.
      * lia.
      * intros [Hnd Hup]%orb_false_iff. by apply Hwf, Hw.
      * exists dropped, kept'. split_and!; [done| |done]. by rewrite Hrev, <- Hrest, <- app_assoc in *.
Qed.

(** Replacing the unpaired surrogates does not change the encoding, which replaces them. *)
Lemma replace_spec s : unit_str s →
  well_formed (replaceUnpairedSurrogates s) = true ∧ utf16_scalars (replaceUnpairedSurrogates s) = utf16_scalars s.
Proof.
  induction s as [|u s IH1 IH2] using str_ind2; [done|]. intros [Hu Hs]%Forall_cons. destruct (IH1 Hs) as [IHw IHe].
  cbn [replaceUnpairedSurrogates utf16_scalars]. destruct (is_high u) eqn:Hh.
  - destruct s as [|v s]; [done|]. destruct (is_low v) eqn:Hv.
    + destruct (IH2 v s eq_refl) as [Hw He]; [by inversion Hs|]. cbn [well_formed utf16_scalars]. rewrite Hh, Hv. by rewrite Hw, He.
    + change (well_formed (0xFFFD :: replaceUnpairedSurrogates (v :: s))) with (well_formed (replaceUnpairedSurrogates (v :: s))).
      change (utf16_scalars (0xFFFD :: ?x)) with (0xFFFD :: utf16_scalars x). split; [done|by rewrite <- IHe].
  - destruct (is_low u) eqn:Hl.
    + change (well_formed (0xFFFD :: ?x)) with (well_formed x). change (utf16_scalars (0xFFFD :: ?x)) with (0xFFFD :: utf16_scalars x).
      split; [done|by rewrite <- IHe].
    + cbn [well_formed utf16_scalars]. by rewrite Hh, Hl, Hu, IHw, IHe.
Qed.

(** The end of a line is the longest that fits, with its unpaired surrogates replaced. *)
Theorem line_end_is_longest str limit : unit_str str → 0 < limit →
  ∃ dropped kept, longest_end limit str dropped kept ∧ well_formed (truncateStringToBytesFromEnd str limit) = true
    ∧ textEncode (truncateStringToBytesFromEnd str limit) = textEncode kept.
Proof.
  intros Hu Hl. unfold truncateStringToBytesFromEnd. rewrite (proj2 (Z.leb_gt _ _)) by done.
  assert (Hur : unit_str (rev str)) by (by apply Forall_rev).
  pose proof (take_back_spec (length str) limit (rev str) [] false) as H. rewrite length_rev, zlen_rev in H.
  change (size []) with 0 in H. specialize (H (Nat.le_refl _) Hur). rewrite rev_involutive, app_nil_r in H.
  destruct (take_back _ _ _ _ _ _) as [start needs]. destruct H as (dropped & kept & <- & HL & Hw); [|lia|done|].
  { intros (u & v & _ & [=] & _). }
  exists dropped, kept. pose proof HL as (-> & _). 
  assert (Hd : Z.to_nat (zlen dropped) = length dropped) by apply Nat2Z.id. unfold slice_from. rewrite Hd, drop_app_length. split; [exact HL|]. apply Forall_app in Hu as [_ Hk]. destruct needs; [|by auto].
  destruct (replace_spec kept Hk) as [H1 H2]. split; [done|]. unfold textEncode. by rewrite H2.
Qed.

Lemma line_end_size str limit : unit_str str → size (truncateStringToBytesFromEnd str limit) <= Z.max 0 limit.
Proof.
  intros Hu. destruct (decide (0 < limit)) as [Hl|Hl].
  - destruct (line_end_is_longest str limit Hu Hl) as (dropped & kept & (_ & _ & Hs & _) & _ & He). unfold size in *. rewrite He. lia.
  - unfold truncateStringToBytesFromEnd. rewrite (proj2 (Z.leb_le _ _)) by lia. change (size []) with 0. lia.
Qed.

(** ** The longest part that fits *)

Section Bounds.
Context (runtimeBuffer : option (jsstr → Z)).
Context (byteLength_counts : ∀ byteLength s, runtimeBuffer = Some byteLength → unit_str s → byteLength s = size s).

Notation utf8ByteLength := (utf8ByteLength runtimeBuffer).
Notation line_bytes := (line_bytes runtimeBuffer).

(** Both ways to count give the length of the encoding. *)
Theorem byte_length_is_size s : unit_str s → utf8ByteLength s = size s.
Proof.
  intros Hu. unfold Truncate.utf8ByteLength. destruct runtimeBuffer as [b|] eqn:E; [by apply byteLength_counts|].
  destruct (search_non_ascii s) as [i|] eqn:Es; [|symmetry; by apply ascii_size, search_none].
  destruct (search_ascii s i Es) as [Hi Ha]. unfold slice0 in Ha. unfold slice_from.
  rewrite count_bytes_size by (by apply Forall_drop). rewrite <- (take_drop (Z.to_nat i) s) at 2.
  rewrite size_app, (ascii_size (take _ _)) by (try apply ascii_borders; done). rewrite zlen_take. f_equal.
  assert (i < zlen s); [|lia]. clear -Es. revert i Es. induction s as [|u s IH]; intros i; [done|]. cbn. rewrite zlen_cons.
  pose proof (zlen_nonneg s). destruct (negb _); [intros [= <-]; lia|]. intros (j & Hj & ->)%fmap_Some. specialize (IH j Hj). lia.
Qed.

Notation lines_ok ls := (Forall (λ l, unit_str l) ls).
Definition weight (ls : list jsstr) : Z := size (join [10] ls).
Definition fits (maxLines maxBytes : Z) (ls : list jsstr) : Prop := zlen ls <= maxLines ∧ weight ls <= maxBytes.

Lemma weight_snoc ls l : unit_str l → weight (ls ++ [l]) = weight ls + line_bytes (length ls) l.
Proof.
  intros Hl. unfold Truncate.line_bytes. rewrite byte_length_is_size by done. unfold weight. destruct ls as [|x ls].
  - rewrite bool_decide_eq_true_2 by done. cbn [app join]. change (size []) with 0. lia.
  - rewrite size_join_snoc, bool_decide_eq_false_2 by done. lia.
Qed.
Lemma weight_cons l ls : unit_str l → weight (l :: ls) = weight ls + line_bytes (length ls) l.
Proof.
  intros Hl. unfold Truncate.line_bytes. rewrite byte_length_is_size by done. unfold weight. destruct ls as [|x ls].
  - rewrite bool_decide_eq_true_2 by done. cbn [app join]. change (size []) with 0. lia.
  - rewrite size_join_cons, bool_decide_eq_false_2 by done. lia.
Qed.
Lemma weight_app_l a b : weight a <= weight (a ++ b).
Proof.
  unfold weight. destruct a as [|x a]; [apply size_nonneg|]. destruct b as [|y b]; [by rewrite app_nil_r|].
  rewrite join_app by done. cbn [app]. rewrite size_line. pose proof (size_nonneg (join [10] (y :: b))). lia.
Qed.
Lemma weight_app_r a b : weight b <= weight (a ++ b).
Proof.
  unfold weight. destruct a as [|x a]; [done|]. destruct b as [|y b]; [apply size_nonneg|].
  rewrite join_app by done. cbn [app]. rewrite size_line. pose proof (size_nonneg (join [10] (x :: a))). lia.
Qed.
Lemma fits_prefix maxL maxB a b : a `prefix_of` b → fits maxL maxB b → fits maxL maxB a.
Proof.
  intros [k ->] [H1 H2]. rewrite zlen_app in H1. pose proof (zlen_nonneg k). pose proof (weight_app_l a k). split; lia.
Qed.
Lemma fits_suffix maxL maxB a b : a `suffix_of` b → fits maxL maxB b → fits maxL maxB a.
Proof.
  intros [k ->] [H1 H2]. rewrite zlen_app in H1. pose proof (zlen_nonneg k). pose proof (weight_app_r k a). split; lia.
Qed.

(** Why a loop stopped after [out], in front of [rest]; [grow] adds the next line. *)
Definition stopped (maxL maxB : Z) (grow : list jsstr → jsstr → list jsstr) (out rest : list jsstr) (stop : limit) : Prop :=
  match stop with
  | by_lines => rest = [] ∨ maxL <= zlen out
  | by_bytes => ∃ l rest', rest = l :: rest' ∧ zlen out < maxL ∧ maxB < weight (grow out l)
  end.

Lemma collect_head_spec maxL maxB lines acc out stop : lines_ok lines →
  collect_head runtimeBuffer maxL maxB lines acc (weight acc) = (out, stop) →
  ∃ k rest, lines = k ++ rest ∧ out = acc ++ k ∧ (k = [] ∨ fits maxL maxB out) ∧ stopped maxL maxB (λ o l, o ++ [l]) out rest stop.
Proof.
  revert acc. induction lines as [|l lines IH]; intros acc Hok; cbn [collect_head].
  - intros [= <- <-]. exists [], []. split_and!; [done|by rewrite app_nil_r|by left|by left].
  - apply Forall_cons in Hok as [Hl Hok]. rewrite <- weight_snoc by done. destruct (zlen acc <? maxL) eqn:E1; bool_prop.
    + destruct (maxB <? _) eqn:E2; bool_prop.
      * intros [= <- <-]. exists [], (l :: lines). split_and!; [done|by rewrite app_nil_r|by left|by exists l, lines].
      * intros H. destruct (IH _ Hok H) as (k & rest & -> & -> & Hk & Hstop). exists (l :: k), rest.
        rewrite <- app_assoc in *. split_and!; [done|done| |done]. right. destruct Hk as [->|Hk]; [|done].
        split; [|done]. rewrite zlen_app. cbn. change (zlen [l]) with 1. lia.
    + intros [= <- <-]. exists [], (l :: lines). split_and!; [done|by rewrite app_nil_r|by left|by right].
Qed.

Lemma collect_tail_spec maxL maxB lines_rev acc out stop partial : lines_ok lines_rev →
  collect_tail runtimeBuffer maxL maxB lines_rev acc (weight acc) = (out, stop, partial) →
  if partial then ∃ l rest, acc = [] ∧ lines_rev = l :: rest ∧ out = [truncateStringToBytesFromEnd l maxB] ∧ stop = by_bytes ∧ 0 < maxL ∧ maxB < size l
  else ∃ k rest, lines_rev = k ++ rest ∧ out = rev k ++ acc ∧ (k = [] ∨ fits maxL maxB out) ∧ stopped maxL maxB (λ o l, l :: o) out rest stop.
Proof.
  revert acc. induction lines_rev as [|l lines IH]; intros acc Hok; cbn [collect_tail].
  - intros [= <- <- <-]. exists [], []. split_and!; [done|done|by left|by left].
  - apply Forall_cons in Hok as [Hl Hok]. rewrite <- weight_cons by done. destruct (zlen acc <? maxL) eqn:E1; bool_prop.
    + destruct (maxB <? _) eqn:E2; bool_prop.
      * destruct (bool_decide (acc = [])) eqn:E3; intros [= <- <- <-]; bool_prop; [subst acc|].
        -- by exists l, lines.
        -- exists [], (l :: lines). split_and!; [done|done|by left|by exists l, lines].
      * intros H. specialize (IH _ Hok H). destruct partial; [by destruct IH as (? & ? & [=] & _)|].
        destruct IH as (k & rest & -> & -> & Hk & Hstop). exists (l :: k), rest. cbn [rev]. rewrite <- app_assoc.
        split_and!; [done|done| |done]. right. destruct Hk as [->|Hk]; [|done]. split; [|done]. cbn. rewrite zlen_cons. lia.
    + intros [= <- <- <-]. exists [], (l :: lines). split_and!; [done|done|by left|by right].
Qed.

(** What stopped the loop says that no longer part fits. *)
Lemma stopped_maximal_head maxL maxB out rest stop more : stopped maxL maxB (λ o l, o ++ [l]) out rest stop →
  more `prefix_of` out ++ rest → fits maxL maxB more → more `prefix_of` out.
Proof.
  intros Hs Hp Hf. destruct (prefix_weak_total more out (out ++ rest)) as [?|[[|x k] ->]]; [done|by apply prefix_app_r|done|by rewrite app_nil_r|].
  apply prefix_app_inv in Hp. exfalso. destruct rest as [|l rest]; [by apply prefix_nil_not in Hp|].
  apply prefix_cons_inv_1 in Hp as ->. assert (Hf1 : fits maxL maxB (out ++ [l])).
  { eapply fits_prefix; [|exact Hf]. exists k. by rewrite <- app_assoc. }
  destruct Hf1 as [H1 H2]. rewrite zlen_app in H1. change (zlen [l]) with 1 in H1.
  destruct stop; cbn in Hs; [destruct Hs as [?|?]; [done|lia]|destruct Hs as (? & ? & [= <- <-] & ? & ?); lia].
Qed.
Lemma stopped_maximal_tail maxL maxB out rest stop more : stopped maxL maxB (λ o l, l :: o) out rest stop →
  more `suffix_of` rev rest ++ out → fits maxL maxB more → more `suffix_of` out.
Proof.
  intros Hs Hp Hf. destruct (suffix_weak_total more out (rev rest ++ out)) as [?|[k ->]]; [done|by apply suffix_app_r|done|].
  destruct k as [|x k _] using rev_ind; [done|]. apply suffix_app_inv in Hp. exfalso.
  destruct rest as [|l rest]; cbn [rev] in Hp; [by apply suffix_nil_inv in Hp; destruct k|].
  apply suffix_snoc_inv_1 in Hp as ->. assert (Hf1 : fits maxL maxB (l :: out)).
  { eapply fits_suffix; [|exact Hf]. exists k. by rewrite <- app_assoc. }
  destruct Hf1 as [H1 H2]. rewrite zlen_cons in H1.
  destruct stop; cbn in Hs; [destruct Hs as [?|?]; [done|lia]|destruct Hs as (? & ? & [= <- <-] & ? & ?); lia].
Qed.

(** ** The lines of a text *)

Lemma ends_line_snoc s : ends_line (s ++ [10]) = true.
Proof. unfold ends_line. by rewrite last_snoc, bool_decide_eq_true_2. Qed.
Lemma ends_line_app s t : t ≠ [] → 10 ∉ t → ends_line (s ++ t) = false.
Proof.
  intros Ht H. destruct t as [|u t _] using rev_ind; [done|]. unfold ends_line. rewrite app_assoc, last_snoc.
  apply bool_decide_eq_false_2. intros [= ->]. apply H, elem_of_app. right. by left.
Qed.

Lemma counted_lines s : s ≠ [] → ∃ ls, splitLinesForCounting s = ls ∧ ls ≠ [] ∧ Forall (λ l, 10 ∉ l) ls
  ∧ s = join [10] ls ++ (if ends_line s then [10] else []).
Proof.
  intros Hne. unfold splitLinesForCounting. rewrite bool_decide_eq_false_2 by done.
  destruct (split_lines_spec s) as (ls & t & -> & Hl & Ht). rewrite split_lines_written by done.
  destruct (decide (t = [])) as [->|Hnt].
  - destruct ls as [|l ls]; [done|]. rewrite app_nil_r, <- join_ended, ends_line_snoc. cbv zeta iota. rewrite removelast_last.
    by exists (l :: ls).
  - rewrite ends_line_app by done. cbv zeta iota. exists (ls ++ [t]). split_and!; [done|by destruct ls| |by rewrite app_nil_r, join_written].
    apply Forall_app; split; [done|by constructor].
Qed.

Lemma units_join (P : Z → Prop) ls : Forall P (join [10] ls) → Forall (Forall P) ls.
Proof.
  induction ls as [|l ls IH]; [constructor|]. destruct ls as [|k ls]; [intros H; by constructor|].
  rewrite join_cons by done. intros [Hl [_ H]%Forall_app]%Forall_app. constructor; [done|by apply IH].
Qed.
Lemma counted_units s : unit_str s → lines_ok (splitLinesForCounting s).
Proof.
  intros Hu. destruct (decide (s = [])) as [->|Hne]; [constructor|].
  destruct (counted_lines s Hne) as (ls & -> & _ & _ & E). rewrite E in Hu. apply Forall_app in Hu as [Hu _]. by apply units_join in Hu.
Qed.
Lemma weight_counted s : weight (splitLinesForCounting s) <= size s.
Proof.
  destruct (decide (s = [])) as [->|Hne]; [done|]. destruct (counted_lines s Hne) as (ls & -> & _ & _ & E). rewrite E at 1.
  destruct (ends_line s); [|by rewrite app_nil_r]. rewrite size_line. pose proof (size_nonneg []). unfold weight. lia.
Qed.
Lemma join_prefix out ls : out `prefix_of` ls → join [10] out `prefix_of` join [10] ls.
Proof.
  intros [k ->]. destruct out as [|x out]; [apply prefix_nil|]. destruct k as [|y k]; [by rewrite app_nil_r|].
  rewrite join_app by done. by apply prefix_app_r.
Qed.
Lemma counted_prefix out s : out `prefix_of` splitLinesForCounting s → join [10] out `prefix_of` s.
Proof.
  intros H. destruct (decide (s = [])) as [->|Hne]; [by apply prefix_nil_inv in H as ->|].
  destruct (counted_lines s Hne) as (ls & E & _ & _ & E'). rewrite E in H. rewrite E'. by apply prefix_app_r, join_prefix.
Qed.

(** ** Head *)

Definition max_lines (o : TruncationOptions) : Z := default DEFAULT_MAX_LINES (o_maxLines o).
Definition max_bytes (o : TruncationOptions) : Z := default DEFAULT_MAX_BYTES (o_maxBytes o).

(** The lines of the result: a part of the text's lines that fits (nothing, if nothing
    fits), than which no longer part fits. *)
Definition longest_part (part : list jsstr → list jsstr → Prop) (o : TruncationOptions) (ls out : list jsstr) : Prop :=
  part out ls ∧ (out = [] ∨ fits (max_lines o) (max_bytes o) out)
  ∧ ∀ more, part more ls → fits (max_lines o) (max_bytes o) more → part more out.

(** The counts of a result. *)
Definition counts (s : jsstr) (r : TruncationResult) : Prop :=
  totalLines r = zlen (splitLinesForCounting s) ∧ totalBytes r = size s ∧ outputBytes r = size (content r).

Definition whole_fits (o : TruncationOptions) (s : jsstr) : Prop := zlen (splitLinesForCounting s) <= max_lines o ∧ size s <= max_bytes o.

Lemma first_too_long o ls l : unit_str l → max_bytes o < size l → longest_part prefix o (l :: ls) [].
Proof.
  intros Hl Hb. split_and!; [apply prefix_nil|by left|]. intros [|x more] Hp [_ Hf]; [done|]. exfalso.
  apply prefix_cons_inv_1 in Hp as ->. pose proof (weight_app_l [l] more) as Hw. unfold weight in Hw at 1. cbn [app join] in Hw. lia.
Qed.

Lemma head_longest s o r : unit_str s → truncateHead runtimeBuffer s o = Some r →
  counts s r ∧ (truncated r = false ↔ whole_fits o s) ∧ (truncated r = false → content r = s)
  ∧ ∃ out, longest_part prefix o (splitLinesForCounting s) out ∧ outputLines r = zlen out ∧ content r `prefix_of` s
      ∧ (truncated r = true → content r = join [10] out).
Proof.
  intros Hu. pose proof (counted_units s Hu) as Hlu. pose proof (weight_counted s) as Hw. unfold truncateHead.
  rewrite byte_length_is_size by done. fold (max_lines o) (max_bytes o). destruct (_ && _) eqn:E.
  - intros [= <-]. bool_prop. split_and!; [done|done|done|]. exists (splitLinesForCounting s). cbn.
    split_and!; [|done|done|done]. split_and!; [done|right; split; lia|done].
  - assert (Hn : ¬ whole_fits o s) by (intros [? ?]; apply andb_false_iff in E; destruct E; bool_prop; lia).
    destruct (splitLinesForCounting s) as [|l ls] eqn:Els; [done|]. cbn [head mbind option_bind].
    assert (Hlu1 : unit_str l) by (by inversion Hlu). rewrite byte_length_is_size by done. destruct (max_bytes o <? size l) eqn:E1; bool_prop.
    + intros [= <-]. unfold counts. rewrite Els. cbn. split_and!; [done..|]. exists []. split_and!; [by apply first_too_long|done|apply prefix_nil|done].
    + destruct (collect_head _ _ _ _ _ _) as [out stop] eqn:E2. change 0 with (weight []) in E2.
      destruct (collect_head_spec _ _ _ _ _ _ Hlu E2) as (k & rest & Hls & -> & Hk & Hstop). cbn [app] in *.
      assert (Hp : k `prefix_of` splitLinesForCounting s) by (rewrite Els, Hls; by apply prefix_app_r).
      assert (Hpc := counted_prefix _ _ Hp).
      assert (Huc : unit_str (join [10] k)) by (destruct Hpc as [z Hz]; rewrite Hz in Hu; by apply Forall_app in Hu as [? _]).
      intros [= <-]. unfold counts. rewrite Els. cbn. rewrite byte_length_is_size by done. split_and!; [done..|].
      exists k. split_and!; [|done|done|done]. rewrite Els in Hp. split_and!; [done|done|]. intros more Hm Hf.
      rewrite Hls in Hm. by eapply stopped_maximal_head.
Qed.

(** An empty text has no first line: with a negative limit its truncation throws. *)
Theorem head_throws s o : unit_str s → truncateHead runtimeBuffer s o = None ↔ s = [] ∧ (max_lines o < 0 ∨ max_bytes o < 0).
Proof.
  intros Hu. unfold truncateHead. rewrite byte_length_is_size by done. fold (max_lines o) (max_bytes o).
  destruct (decide (s = [])) as [->|Hne].
  - change (splitLinesForCounting []) with (@nil jsstr). change (size []) with 0. change (zlen (@nil jsstr)) with 0.
    destruct (_ && _) eqn:E; bool_prop; [split; [done|lia]|]. split; [|done]. apply andb_false_iff in E. destruct E; bool_prop; intros _; split; (done || lia).
  - destruct (counted_lines s Hne) as (ls & -> & Hls & _). destruct (_ && _); [split; [done|by intros [? _]]|].
    destruct ls as [|l ls]; [done|]. cbn [head mbind option_bind]. split; [|by intros [? _]].
    destruct (_ <? _); [done|]. by destruct (collect_head _ _ _ _ _ _).
Qed.

(** ** Tail *)

Lemma rev_suffix {A} (k rest : list A) : rev k `suffix_of` rev rest ++ rev k.
Proof. by exists (rev rest). Qed.

Lemma tail_longest s o : unit_str s →
  let r := truncateTail runtimeBuffer s o in
  (truncated r = false ↔ whole_fits o s) ∧ (truncated r = false → content r = s) ∧ totalLines r = zlen (splitLinesForCounting s) ∧ totalBytes r = size s
  ∧ if lastLinePartial r then
      ∃ ls l, splitLinesForCounting s = ls ++ [l] ∧ longest_part suffix o (ls ++ [l]) [] ∧ outputLines r = 1
        ∧ content r = truncateStringToBytesFromEnd l (max_bytes o)
    else ∃ out, longest_part suffix o (splitLinesForCounting s) out ∧ outputLines r = zlen out ∧ (truncated r = true → content r = join [10] out).
Proof.
  intros Hu. pose proof (counted_units s Hu) as Hlu. pose proof (weight_counted s) as Hw. unfold truncateTail.
  rewrite byte_length_is_size by done. fold (max_lines o) (max_bytes o). destruct (_ && _) eqn:E.
  - bool_prop. cbn. split_and!; [done|done|done|done|]. exists (splitLinesForCounting s). split_and!; [|done|done]. split_and!; [done|right; split; lia|done].
  - assert (Hn : ¬ whole_fits o s) by (intros [? ?]; apply andb_false_iff in E; destruct E; bool_prop; lia).
    destruct (collect_tail _ _ _ _ _ _) as [[out stop] partial] eqn:E2. change 0 with (weight []) in E2.
    assert (Hlr : lines_ok (rev (splitLinesForCounting s))) by by apply Forall_rev.
    pose proof (collect_tail_spec _ _ _ _ _ _ _ Hlr E2) as H. cbn. split_and!; [done..|]. destruct partial.
    + destruct H as (l & rest & _ & Hr & -> & _ & HL & HB). exists (rev rest), l.
      assert (Hs : splitLinesForCounting s = rev rest ++ [l]) by (rewrite <- (rev_involutive (splitLinesForCounting s)), Hr; done).
      split_and!; [done| |done|done]. split_and!; [apply suffix_nil|by left|]. intros more Hm [_ Hf]. destruct more as [|x more _] using rev_ind; [done|].
      exfalso. apply suffix_snoc_inv_1 in Hm as ->. pose proof (weight_app_r more [l]) as H1. unfold weight in H1 at 1. cbn [join] in H1. lia.
    + destruct H as (k & rest & Hr & -> & Hk & Hstop). rewrite app_nil_r in *. exists (rev k).
      assert (Hs : splitLinesForCounting s = rev rest ++ rev k) by (rewrite <- (rev_involutive (splitLinesForCounting s)), Hr, rev_app_distr; done).
      rewrite Hs. split_and!; [|done|done]. split_and!; [apply rev_suffix| |].
      * destruct Hk as [->|Hk]; [by left|by right].
      * intros more Hm Hf. by eapply stopped_maximal_tail.
Qed.

(** The output never exceeds the limits, and its bytes are counted. *)
Theorem truncation_bounded s o r : unit_str s → truncateHead runtimeBuffer s o = Some r ∨ truncateTail runtimeBuffer s o = r → truncated r = true →
  size (content r) <= Z.max 0 (max_bytes o) ∧ outputLines r <= Z.max 0 (max_lines o).
Proof.
  intros Hu Hr Ht.
  assert (Hout : ∀ part ls out, longest_part part o ls out → size (join [10] out) <= Z.max 0 (max_bytes o) ∧ zlen out <= Z.max 0 (max_lines o)).
  { intros part ls out (_ & [->|[H1 H2]] & _); [change (size (join [10] [])) with 0; change (zlen (@nil jsstr)) with 0; lia|unfold weight in H2; lia]. }
  destruct Hr as [Hr|Hr].
  - destruct (head_longest s o r Hu Hr) as (_ & _ & _ & out & Hl & -> & _ & Hc). rewrite Hc by done. by eapply Hout.
  - pose proof (tail_longest s o Hu) as H. cbv zeta in H. rewrite Hr in H. destruct H as (Hw & _ & _ & _ & H). destruct (lastLinePartial r) eqn:Ep.
    + destruct H as (ls & l & Hs & _ & Hone & ->). rewrite Hone. assert (Hl : unit_str l).
      { pose proof (counted_units s Hu) as Hx. rewrite Hs in Hx. by apply Forall_app in Hx as [_ [? _]%Forall_cons]. }
      split; [by apply line_end_size|]. enough (0 < max_lines o) by lia.
      clear Hs Hone. unfold truncateTail in Hr. fold (max_lines o) (max_bytes o) in Hr.
      destruct (_ && _) eqn:E; [by subst r|]. destruct (collect_tail _ _ _ _ _ _) as [[out stop] partial] eqn:E2. change 0 with (weight []) in E2.
      assert (Hlr : lines_ok (rev (splitLinesForCounting s))) by by apply Forall_rev, counted_units.
      pose proof (collect_tail_spec _ _ _ _ _ _ _ Hlr E2) as H. subst r. cbn in Ep. subst partial. by destruct H as (? & ? & _ & _ & _ & _ & ? & _).
    + destruct H as (out & Hl & -> & Hc). rewrite Hc by done. by eapply Hout.
Qed.

(** Truncation keeps the longest part that fits.  A text within both limits is returned
    as it is.  Otherwise [truncateHead] returns the longest run of first lines, and
    [truncateTail] of last lines, that has no more lines and no more UTF-8 bytes than the
    limits; only when not even the last line fits, [truncateTail] returns the end of that
    line.  The counts of the result are those of the text and of what is returned. *)
Theorem truncation_keeps_longest_part s o : unit_str s →
  (∀ r, truncateHead runtimeBuffer s o = Some r →
     counts s r ∧ (truncated r = false ↔ whole_fits o s) ∧ (truncated r = false → content r = s)
     ∧ ∃ out, longest_part prefix o (splitLinesForCounting s) out ∧ outputLines r = zlen out ∧ content r `prefix_of` s
         ∧ (truncated r = true → content r = join [10] out))
  ∧ (let r := truncateTail runtimeBuffer s o in
     (truncated r = false ↔ whole_fits o s) ∧ (truncated r = false → content r = s) ∧ totalLines r = zlen (splitLinesForCounting s) ∧ totalBytes r = size s
     ∧ if lastLinePartial r then
         ∃ ls l, splitLinesForCounting s = ls ++ [l] ∧ longest_part suffix o (ls ++ [l]) [] ∧ outputLines r = 1
           ∧ content r = truncateStringToBytesFromEnd l (max_bytes o)
       else ∃ out, longest_part suffix o (splitLinesForCounting s) out ∧ outputLines r = zlen out ∧ (truncated r = true → content r = join [10] out)).
Proof. intros Hu. split; [intros r Hr; by apply head_longest|by apply tail_longest]. Qed.

End Bounds.

(** ** Samples *)

(** [Buffer] as Node documents it. *)
Definition node_buffer : option (jsstr → Z) := Some size.
Definition sample_text : jsstr := js "one" ++ [10] ++ js "two" ++ [10] ++ js "three" ++ [10].
Definition sample_options (l b : Z) : TruncationOptions := mkOptions (Some l) (Some b).

Example head_sample : content <$> truncateHead node_buffer sample_text (sample_options 2 100) = Some (js "one" ++ [10] ++ js "two").
Proof. vm_compute. reflexivity. Qed.
Example tail_sample : content (truncateTail node_buffer sample_text (sample_options 5 9)) = js "two" ++ [10] ++ js "three".
Proof. vm_compute. reflexivity. Qed.
(** Both halves of a pair of surrogates are kept, or neither is. *)
Example tail_partial_sample : content (truncateTail node_buffer [120; 0xD83D; 0xDE00; 121] (sample_options 5 4)) = [121].
Proof. vm_compute. reflexivity. Qed.
(** A size below a megabyte can be rounded to 1024 kilobytes. *)
Example size_sample : formatSize 1048575 = js "1024.0KB".
Proof. vm_compute. reflexivity. Qed.

Lemma truncation_keeps_longest_part_witness :
  (∃ r, truncateHead node_buffer sample_text (sample_options 2 100) = Some r ∧ content r `prefix_of` sample_text)
  ∧ lastLinePartial (truncateTail node_buffer sample_text (sample_options 2 100)) = false.
Proof.
  assert (Hu : unit_str sample_text) by (apply Forall_forall; intros u Hu; vm_compute in Hu; repeat (apply elem_of_cons in Hu as [->|Hu]; [reflexivity|]); by apply elem_of_nil in Hu).
  assert (Hb : ∀ b s, node_buffer = Some b → unit_str s → b s = size s) by (by intros b s [= <-] _).
  split; [|vm_compute; reflexivity].
  destruct (truncateHead node_buffer sample_text (sample_options 2 100)) as [r|] eqn:E; [|vm_compute in E; discriminate].
  exists r. split; [reflexivity|].
  destruct (truncation_keeps_longest_part node_buffer Hb sample_text (sample_options 2 100) Hu) as [H _].
  destruct (H r E) as (_ & _ & _ & out & _ & _ & Hp & _). exact Hp.
Defined.

End Truncate.
