(* ===== verification/EditDiff.v ===== *)
(** * Edits of a text

    Models [agent/src/harness/tools/edit-diff.ts] down to [applyEditsToNormalizedContent]:
    line endings, the exact and the fuzzy search, the application of replacements, and the
    application that keeps the lines it does not touch.

    [s.normalize("NFKC")] is a parameter, because its tables are those of Unicode.  A thrown
    [Error] is its message. *)
From S2P Require Import Prelude JsString.

Module EditDiff.

(** ** Line endings *)

Inductive ending := lf | crlf.
#[export] Instance ending_eq_dec : EqDecision ending.
Proof. solve_decision. Defined.

(** [s.indexOf(p)], [None] for -1. *)
Fixpoint indexOf (p s : jsstr) : option Z :=
  if startsWith p s then Some 0 else match s with [] => None | _ :: s => Z.succ <$> indexOf p s end.

Definition detectLineEnding (content : jsstr) : ending :=
  match indexOf [10] content, indexOf [13; 10] content with
  | None, _ => lf
  | _, None => lf
  | Some lfIdx, Some crlfIdx => if crlfIdx <? lfIdx then crlf else lf
  end.

(** [text.replace(/\r\n/g, "\n")] *)
Fixpoint replace_crlf (s : jsstr) : jsstr :=
  match s with
  | [] => []
  | u :: s1 => if u =? 13 then match s1 with v :: s2 => if v =? 10 then 10 :: replace_crlf s2 else u :: replace_crlf s1 | [] => [u] end
               else u :: replace_crlf s1
  end.
Definition normalizeToLF (text : jsstr) : jsstr := (λ u, if u =? 13 then 10 else u) <$> replace_crlf text.

Definition to_crlf (text : jsstr) : jsstr := text ≫= λ u, if u =? 10 then [13; 10] else [u].
Definition restoreLineEndings (text : jsstr) (e : ending) : jsstr :=
  match e with crlf => to_crlf text | lf => text end.

Definition BOM : Z := 0xFEFF.
Definition stripBom (content : jsstr) : jsstr * jsstr :=
  match content with u :: s => if u =? BOM then ([BOM], s) else ([], content) | [] => ([], content) end.

(** ** Replacements *)

Record TextReplacement := mkReplacement { matchIndex : Z; matchLength : Z; newText : jsstr }.
Record MatchedEdit := mkMatched { editIndex : Z; replacement : TextReplacement }.
Record LineSpan := mkSpan { sp_start : Z; sp_end : Z }.
Record group := mkGroup { startLine : nat; endLine : nat; replacements : list TextReplacement }.

(** [content.match(/[^\n]*\n|[^\n]+/g) ?? []] *)
Definition splitLinesWithEndings (content : jsstr) : list jsstr :=
  match rev (split_lines content) with
  | [] => []
  | t :: ls => (ended <$> rev ls) ++ (if bool_decide (t = []) then [] else [t])
  end.

Fixpoint spans_from (offset : Z) (lines : list jsstr) : list LineSpan :=
  match lines with
  | [] => []
  | line :: lines => let span := mkSpan offset (offset + zlen line) in span :: spans_from (sp_end span) lines
  end.
Definition getLineSpans (content : jsstr) : list LineSpan := spans_from 0 (splitLinesWithEndings content).

Definition outside_error : jsstr := js "Replacement range is outside the base content.".
Definition line_count_error : jsstr := js "Cannot preserve unchanged lines because the base content has a different line count.".
Definition type_error : jsstr := js "TypeError".

Fixpoint find_line (lines : list LineSpan) (position : Z) : option nat :=
  match lines with
  | [] => None
  | line :: lines => if (sp_start line <=? position) && (position <? sp_end line) then Some 0%nat else S <$> find_line lines position
  end.
(** [while (endLine < lines.length && lines[endLine].end < replacementEnd) endLine++] *)
Fixpoint lines_before (lines : list LineSpan) (position : Z) : nat :=
  match lines with
  | [] => 0%nat
  | line :: lines => if sp_end line <? position then S (lines_before lines position) else 0%nat
  end.

Definition getReplacementLineRange (lines : list LineSpan) (r : TextReplacement) : result jsstr (nat * nat) :=
  let replacementStart := matchIndex r in
  let replacementEnd := matchIndex r + matchLength r in
  match find_line lines replacementStart with
  | None => Err outside_error
  | Some startLine =>
      let endLine := (startLine + lines_before (drop startLine lines) replacementEnd)%nat in
      if (length lines <=? endLine)%nat then Err outside_error else Ok (startLine, S endLine)
  end.

(** The loop runs from the last replacement to the first. *)
Definition applyReplacements (content : jsstr) (rs : list TextReplacement) (offset : Z) : jsstr :=
  foldr (λ r result,
    let index := matchIndex r - offset in
    slice0 index result ++ newText r ++ slice_from (index + matchLength r) result) content rs.

Definition by_index (a b : TextReplacement) : bool := matchIndex a - matchIndex b <=? 0.

(** One round of the loop over the sorted replacements; the last group comes first. *)
Definition add_to_groups (lines : list LineSpan) (groups : list group) (r : TextReplacement) : result jsstr (list group) :=
  let* (first, last) := getReplacementLineRange lines r in
  match groups with
  | current :: earlier =>
      if (first <? endLine current)%nat then
        Ok (mkGroup (startLine current) (Nat.max (endLine current) last) (replacements current ++ [r]) :: earlier)
      else Ok (mkGroup first last [r] :: groups)
  | [] => Ok [mkGroup first last [r]]
  end.

(** One round of the loop over the groups: the next original line and the result. *)
Definition write_group (originalLines : list jsstr) (baseContent : jsstr) (baseLines : list LineSpan)
    (state : nat * jsstr) (g : group) : result jsstr (nat * jsstr) :=
  let '(originalLineIndex, result) := state in
  match baseLines !! startLine g, baseLines !! (endLine g - 1)%nat with
  | Some first, Some last =>
      let kept := concat (take (startLine g - originalLineIndex) (drop originalLineIndex originalLines)) in
      let block := slice_from (sp_start first) (slice0 (sp_end last) baseContent) in
      Ok (endLine g, result ++ kept ++ applyReplacements block (replacements g) (sp_start first))
  | _, _ => Err type_error
  end.

Definition applyReplacementsPreservingUnchangedLines (originalContent baseContent : jsstr) (rs : list TextReplacement) : result jsstr jsstr :=
  let originalLines := splitLinesWithEndings originalContent in
  let baseLines := getLineSpans baseContent in
  if negb (length originalLines =? length baseLines)%nat then Err line_count_error
  else
    let* groups := foldM (add_to_groups baseLines) [] (sort_by by_index rs) in
    let* (index, result) := foldM (write_group originalLines baseContent baseLines) (0%nat, []) (rev groups) in
    Ok (result ++ concat (drop index originalLines)).

(** ** Search *)

Record Edit := mkEdit { oldText : jsstr; newText_of : jsstr }.
Record FuzzyMatchResult := mkMatch { found : bool; index : Z; length_of : Z; usedFuzzyMatch : bool; contentForReplacement : jsstr }.
Record AppliedEditsResult := mkApplied { baseContent : jsstr; newContent : jsstr }.

Definition trimEnd (s : jsstr) : jsstr := rev (trimStart (rev s)).

(** The four replacements of single units, one after another. *)
Definition ascii_quote (u : Z) : Z := if (0x2018 <=? u) && (u <=? 0x201B) then 39 else u.
Definition ascii_double_quote (u : Z) : Z := if (0x201C <=? u) && (u <=? 0x201F) then 34 else u.
Definition ascii_dash (u : Z) : Z := if ((0x2010 <=? u) && (u <=? 0x2015)) || (u =? 0x2212) then 45 else u.
Definition plain_space (u : Z) : Z :=
  if (u =? 0xA0) || ((0x2002 <=? u) && (u <=? 0x200A)) || (u =? 0x202F) || (u =? 0x205F) || (u =? 0x3000) then 32 else u.

(** The number of pieces of [s.split(p)], less one. *)
Fixpoint pieces (fuel : nat) (p s : jsstr) : Z :=
  match fuel with
  | O => 0
  | S fuel => match indexOf p s with Some i => 1 + pieces fuel p (slice_from (i + zlen p) s) | None => 0 end
  end.
Definition split_count (p s : jsstr) : Z := if bool_decide (p = []) then zlen s - 1 else pieces (S (length s)) p s.

Definition getNotFoundError (path : jsstr) (editIndex totalEdits : Z) : jsstr :=
  if totalEdits =? 1 then js "Could not find the exact text in " ++ path ++ js ". The old text must match exactly including all whitespace and newlines."
  else js "Could not find edits[" ++ num_str editIndex ++ js "] in " ++ path ++ js ". The oldText must match exactly including all whitespace and newlines.".
Definition getDuplicateError (path : jsstr) (editIndex totalEdits occurrences : Z) : jsstr :=
  if totalEdits =? 1 then
    js "Found " ++ num_str occurrences ++ js " occurrences of the text in " ++ path ++ js ". The text must be unique. Please provide more context to make it unique."
  else js "Found " ++ num_str occurrences ++ js " occurrences of edits[" ++ num_str editIndex ++ js "] in " ++ path
    ++ js ". Each oldText must be unique. Please provide more context to make it unique.".
Definition getEmptyOldTextError (path : jsstr) (editIndex totalEdits : Z) : jsstr :=
  if totalEdits =? 1 then js "oldText must not be empty in " ++ path ++ js "."
  else js "edits[" ++ num_str editIndex ++ js "].oldText must not be empty in " ++ path ++ js ".".
Definition getNoChangeError (path : jsstr) (totalEdits : Z) : jsstr :=
  if totalEdits =? 1 then
    js "No changes made to " ++ path
    ++ js ". The replacement produced identical content. This might indicate an issue with special characters or the text not existing as expected."
  else js "No changes made to " ++ path ++ js ". The replacements produced identical content.".
Definition overlap_error (path : jsstr) (a b : Z) : jsstr :=
  js "edits[" ++ num_str a ++ js "] and edits[" ++ num_str b ++ js "] overlap in " ++ path ++ js ". Merge them into one edit or target disjoint regions.".

(** The first two neighbours of the sorted edits that overlap. *)
Fixpoint overlapping (l : list MatchedEdit) : option (Z * Z) :=
  match l with
  | previous :: ((current :: _) as l') =>
      if matchIndex (replacement current) <? matchIndex (replacement previous) + matchLength (replacement previous)
      then Some (editIndex previous, editIndex current) else overlapping l'
  | _ => None
  end.

Definition by_match (a b : MatchedEdit) : bool := by_index (replacement a) (replacement b).

Section Fuzzy.
Context (nfkc : jsstr → jsstr).

Definition normalizeForFuzzyMatch (text : jsstr) : jsstr :=
  (λ u, plain_space (ascii_dash (ascii_double_quote (ascii_quote u)))) <$> join [10] (trimEnd <$> split_lines (nfkc text)).

Definition fuzzyFindText (content oldText : jsstr) : FuzzyMatchResult :=
  match indexOf oldText content with
  | Some exactIndex => mkMatch true exactIndex (zlen oldText) false content
  | None =>
      let fuzzyContent := normalizeForFuzzyMatch content in
      let fuzzyOldText := normalizeForFuzzyMatch oldText in
      match indexOf fuzzyOldText fuzzyContent with
      | None => mkMatch false (-1) 0 false content
      | Some fuzzyIndex => mkMatch true fuzzyIndex (zlen fuzzyOldText) true fuzzyContent
      end
  end.

Definition countOccurrences (content oldText : jsstr) : Z :=
  split_count (normalizeForFuzzyMatch oldText) (normalizeForFuzzyMatch content).

(** The loop that finds each edit in the content. *)
Fixpoint match_edits (base path : jsstr) (total i : Z) (edits : list Edit) : result jsstr (list MatchedEdit) :=
  match edits with
  | [] => Ok []
  | edit :: edits =>
      let m := fuzzyFindText base (oldText edit) in
      if negb (found m) then Err (getNotFoundError path i total)
      else
        let occurrences := countOccurrences base (oldText edit) in
        if 1 <? occurrences then Err (getDuplicateError path i total occurrences)
        else
          let* l := match_edits base path total (i + 1) edits in
          Ok (mkMatched i (mkReplacement (index m) (length_of m) (newText_of edit)) :: l)
  end.

Definition normalized_edit (e : Edit) : Edit := mkEdit (normalizeToLF (oldText e)) (normalizeToLF (newText_of e)).

Fixpoint first_empty (i : Z) (edits : list Edit) : option Z :=
  match edits with
  | [] => None
  | e :: edits => if bool_decide (oldText e = []) then Some i else first_empty (i + 1) edits
  end.

(** Whether any edit needs the fuzzy search. *)
Definition needs_fuzzy (content : jsstr) (edits : list Edit) : bool := existsb (λ e, usedFuzzyMatch (fuzzyFindText content (oldText e))) edits.

Definition applyEditsToNormalizedContent (normalizedContent : jsstr) (edits : list Edit) (path : jsstr) : result jsstr AppliedEditsResult :=
  let normalizedEdits := normalized_edit <$> edits in
  let total := zlen normalizedEdits in
  match first_empty 0 normalizedEdits with
  | Some i => Err (getEmptyOldTextError path i total)
  | None =>
      let usedFuzzy := needs_fuzzy normalizedContent normalizedEdits in
      let base := if usedFuzzy then normalizeForFuzzyMatch normalizedContent else normalizedContent in
      let* matched := match_edits base path total 0 normalizedEdits in
      let matchedEdits := sort_by by_match matched in
      match overlapping matchedEdits with
      | Some (a, b) => Err (overlap_error path a b)
      | None =>
          let rs := replacement <$> matchedEdits in
          let* newContent :=
            (if usedFuzzy then applyReplacementsPreservingUnchangedLines normalizedContent base rs else Ok (applyReplacements base rs 0)) in
          if str_eqb normalizedContent newContent then Err (getNoChangeError path total)
          else Ok (mkApplied normalizedContent newContent)
      end
  end.

End Fuzzy.

(** ** Search *)

Lemma startsWith_spec p s : startsWith p s = true ↔ ∃ b, s = p ++ b.
Proof.
  revert s. induction p as [|u p IH]; intros s; cbn; [split; [by exists s|done]|]. destruct s as [|v s]; [split; [done|by intros [b [=]]]|].
  rewrite andb_true_iff, Z.eqb_eq, IH. split; [intros [-> [b ->]]; by exists b|intros [b [= -> ->]]; split; [done|by exists b]].
Qed.

(** [p] stands at position [i] of [s]. *)
Definition occurs (p s : jsstr) (i : Z) : Prop := ∃ a b, s = a ++ p ++ b ∧ zlen a = i.

Lemma occurs_cons p u s i : occurs p s i → occurs p (u :: s) (i + 1).
Proof. intros (a & b & -> & <-). exists (u :: a), b. split; [done|]. rewrite zlen_cons. lia. Qed.
Lemma occurs_uncons p u s i : occurs p (u :: s) i → (i = 0 ∧ startsWith p (u :: s) = true) ∨ occurs p s (i - 1).
Proof.
  intros (a & b & E & <-). destruct a as [|v a]; [left; split; [done|]; apply startsWith_spec; by exists b|].
  injection E as _ ->. right. exists a, b. split; [done|]. rewrite zlen_cons. lia.
Qed.

Lemma indexOf_spec p s :
  match indexOf p s with Some i => occurs p s i ∧ ∀ j, occurs p s j → i <= j | None => ∀ j, ¬ occurs p s j end.
Proof.
  induction s as [|u s IH].
  - cbn. destruct (startsWith p []) eqn:E.
    + apply startsWith_spec in E as [b E]. split; [exists [], b; done|]. intros j (a & b' & _ & <-). apply zlen_nonneg.
    + intros j (a & b & H & _). assert (startsWith p [] = true); [|congruence]. apply startsWith_spec. exists [].
      destruct a, p; done.
  - cbn [indexOf]. destruct (startsWith p (u :: s)) eqn:E.
    + pose proof E as [b Hb]%startsWith_spec. split; [by exists [], b|]. intros j (a & b' & _ & <-). apply zlen_nonneg.
    + destruct (indexOf p s) as [i|]; cbn.
      * destruct IH as [H1 H2]. split; [by apply occurs_cons|]. intros j [[_ H]|H]%occurs_uncons; [congruence|]. specialize (H2 _ H). lia.
      * intros j [[_ H]|H]%occurs_uncons; [congruence|by eapply IH].
Qed.
Lemma indexOf_Some p s i : indexOf p s = Some i → occurs p s i.
Proof. intros H. pose proof (indexOf_spec p s) as E. rewrite H in E. apply E. Qed.
Lemma indexOf_first p s i : occurs p s i → (∀ j, occurs p s j → i <= j) → indexOf p s = Some i.
Proof.
  intros H Hm. pose proof (indexOf_spec p s) as E. destruct (indexOf p s) as [k|]; [|by apply E in H].
  destruct E as [E1 E2]. f_equal. specialize (E2 _ H). specialize (Hm _ E1). lia.
Qed.

(** ** Line endings *)

Lemma replace_crlf_id s : 13 ∉ s → replace_crlf s = s.
Proof.
  induction s as [|u s IH]; [done|]. intros [Hu Hs]%not_elem_of_cons. cbn. rewrite (proj2 (Z.eqb_neq u 13)) by done. by rewrite IH.
Qed.
Lemma normalizeToLF_id s : 13 ∉ s → normalizeToLF s = s.
Proof.
  intros H. unfold normalizeToLF. rewrite replace_crlf_id by done. induction s as [|u s IH]; [done|]. apply not_elem_of_cons in H as [Hu Hs].
  cbn. rewrite (proj2 (Z.eqb_neq u 13)) by done. f_equal. by apply IH.
Qed.
Lemma normalizeToLF_no_cr s : 13 ∉ normalizeToLF s.
Proof. unfold normalizeToLF. intros (u & H & _)%list_elem_of_fmap. destruct (u =? 13) eqn:E; [done|]. bool_prop. by subst. Qed.
Lemma normalizeToLF_crlf t : 13 ∉ t → normalizeToLF (to_crlf t) = t.
Proof.
  unfold normalizeToLF. induction t as [|u t IH]; [done|]. intros [Hu Ht]%not_elem_of_cons. unfold to_crlf. rewrite bind_cons. fold (to_crlf t).
  destruct (u =? 10) eqn:E; bool_prop; cbn.
  - subst u. f_equal. by apply IH.
  - rewrite (proj2 (Z.eqb_neq u 13)) by done. cbn. rewrite (proj2 (Z.eqb_neq u 13)) by done. f_equal. by apply IH.
Qed.

Lemma occurs_sub p s i u : occurs p s i → u ∈ p → u ∈ s.
Proof. intros (a & b & -> & _) H. rewrite !elem_of_app. by right; left. Qed.
Lemma detect_lf s : 13 ∉ s → detectLineEnding s = lf.
Proof.
  intros H. unfold detectLineEnding. destruct (indexOf [10] s); [|done]. destruct (indexOf [13; 10] s) as [i|] eqn:E; [|done].
  apply indexOf_Some in E. destruct H. eapply occurs_sub; [done|by left].
Qed.
Lemma to_crlf_app a b : to_crlf (a ++ b) = to_crlf a ++ to_crlf b.
Proof. apply bind_app. Qed.
Lemma to_crlf_id a : 10 ∉ a → to_crlf a = a.
Proof.
  induction a as [|u a IH]; [done|]. intros [Hu Ha]%not_elem_of_cons. unfold to_crlf. rewrite bind_cons. fold (to_crlf a).
  rewrite (proj2 (Z.eqb_neq u 10)) by done. cbn. by rewrite IH.
Qed.
Lemma occurs_char u s i : occurs [u] s i → ∃ a b, s = a ++ u :: b ∧ zlen a = i.
Proof. intros (a & b & -> & <-). by exists a, b. Qed.
Lemma elem_in_prefix {A} (a b k m : list A) u : a ++ b = k ++ u :: m → (length k < length a)%nat → u ∈ a.
Proof.
  intros E H. apply (f_equal (λ l, l !! length k)) in E. rewrite lookup_app_l, list_lookup_middle in E by done. by eapply list_elem_of_lookup_2.
Qed.
Lemma detect_crlf t : 13 ∉ t → 10 ∈ t → detectLineEnding (to_crlf t) = crlf.
Proof.
  intros Hcr H. apply list_elem_of_split_l in H as (a & b & -> & Ha). rewrite not_elem_of_app in Hcr. destruct Hcr as [Hcra _].
  rewrite to_crlf_app, to_crlf_id by done. change (to_crlf (10 :: b)) with (13 :: 10 :: to_crlf b). unfold detectLineEnding.
  assert (E1 : indexOf [13; 10] (a ++ 13 :: 10 :: to_crlf b) = Some (zlen a)).
  { apply indexOf_first; [by exists a, (to_crlf b)|]. intros j (k & m & E & <-). destruct (decide (zlen a <= zlen k)); [done|].
    exfalso. apply Hcra. eapply elem_in_prefix; [exact E|unfold zlen in *; lia]. }
  assert (E2 : indexOf [10] (a ++ 13 :: 10 :: to_crlf b) = Some (zlen a + 1)).
  { apply indexOf_first; [exists (a ++ [13]), (to_crlf b); by rewrite <- app_assoc, zlen_app|]. intros j (k & m & E & <-).
    destruct (decide (zlen a + 1 <= zlen k)); [done|]. exfalso. destruct (decide (zlen k = zlen a)) as [Hk|Hk].
    - apply app_inj_1 in E as [_ [=]]. unfold zlen in Hk. lia.
    - apply Ha. eapply elem_in_prefix; [exact E|unfold zlen in *; lia]. }
  rewrite E1, E2. by rewrite (proj2 (Z.ltb_lt _ _)) by lia.
Qed.

(** A text whose line endings are all alike is restored, and no other. *)
Theorem line_endings_restored s :
  restoreLineEndings (normalizeToLF s) (detectLineEnding s) = s ↔ 13 ∉ s ∨ ∃ t, 13 ∉ t ∧ 10 ∈ t ∧ s = to_crlf t.
Proof.
  split.
  - destruct (detectLineEnding s) eqn:E; cbn; intros H; [left; rewrite <- H; apply normalizeToLF_no_cr|]. right. exists (normalizeToLF s).
    split_and!; [apply normalizeToLF_no_cr| |done]. unfold detectLineEnding in E. destruct (indexOf [10] s) as [i|] eqn:Ei; [|done].
    apply indexOf_Some in Ei. destruct (decide (10 ∈ normalizeToLF s)) as [?|Hn]; [done|]. rewrite to_crlf_id in H by done. rewrite <- H in Ei.
    destruct Hn. eapply occurs_sub; [exact Ei|by left].
  - intros [H|(t & H1 & H2 & ->)]; [by rewrite detect_lf, normalizeToLF_id|]. by rewrite detect_crlf, normalizeToLF_crlf.
Qed.

End EditDiff.
