(* ===== verification/EditProps.v ===== *)
(** * What edits do to a text

    An edit of a text in which every search is exact replaces the texts it names and
    nothing else, whatever the order of the edits; a fuzzy edit rewrites the lines it
    touches and keeps every other line as it was. *)
From S2P Require Import Prelude JsString EditDiff.

Module EditProps.
Import EditDiff.

(** ** Texts with holes *)

(** A text is the gaps before some pieces, the pieces and a tail: [before] has the old texts
    of the pieces, [after] the new ones. *)
Definition before (ps : list (jsstr * Edit)) (tail : jsstr) : jsstr := concat ((λ p, p.1 ++ oldText p.2) <$> ps) ++ tail.
Definition after (ps : list (jsstr * Edit)) (tail : jsstr) : jsstr := concat ((λ p, p.1 ++ newText_of p.2) <$> ps) ++ tail.

(** The replacements that turn the one into the other, in a text that starts at [off]. *)
Fixpoint locate (off : Z) (ps : list (jsstr * Edit)) : list TextReplacement :=
  match ps with
  | [] => []
  | (gap, e) :: ps =>
      mkReplacement (off + zlen gap) (zlen (oldText e)) (newText_of e) :: locate (off + zlen gap + zlen (oldText e)) ps
  end.

Lemma before_cons g e ps tail : before ((g, e) :: ps) tail = g ++ oldText e ++ before ps tail.
Proof. unfold before. cbn. by rewrite <- !app_assoc. Qed.
Lemma after_cons g e ps tail : after ((g, e) :: ps) tail = g ++ newText_of e ++ after ps tail.
Proof. unfold after. cbn. by rewrite <- !app_assoc. Qed.

Lemma slice0_app a b : slice0 (zlen a) (a ++ b) = a.
Proof. unfold slice0, zlen. by rewrite Nat2Z.id, take_app_length. Qed.
Lemma slice_from_app a b : slice_from (zlen a) (a ++ b) = b.
Proof. unfold slice_from, zlen. by rewrite Nat2Z.id, drop_app_length. Qed.

Lemma apply_located pre ps tail off :
  applyReplacements (pre ++ before ps tail) (locate (off + zlen pre) ps) off = pre ++ after ps tail.
Proof.
  revert pre. induction ps as [|[g e] ps IH]; intros pre; [done|]. rewrite before_cons, after_cons. cbn [locate].
  specialize (IH (pre ++ g ++ oldText e)). rewrite !zlen_app in IH. rewrite <- !app_assoc in IH.
  replace (off + (zlen pre + (zlen g + zlen (oldText e)))) with (off + zlen pre + zlen g + zlen (oldText e)) in IH by lia.
  unfold applyReplacements in *. cbn [foldr]. rewrite IH. cbv zeta. cbn [matchIndex matchLength newText].
  replace (off + zlen pre + zlen g - off) with (zlen (pre ++ g)) by (rewrite zlen_app; lia).
  replace (zlen (pre ++ g) + zlen (oldText e)) with (zlen (pre ++ g ++ oldText e)) by (rewrite !zlen_app; lia).
  replace (pre ++ g ++ oldText e ++ after ps tail) with ((pre ++ g ++ oldText e) ++ after ps tail) by (by rewrite <- !app_assoc).
  rewrite slice_from_app. rewrite (app_assoc pre g), <- (app_assoc (pre ++ g)), slice0_app. by rewrite <- !app_assoc.
Qed.
Lemma apply_locate ps tail off : applyReplacements (before ps tail) (locate off ps) off = after ps tail.
Proof. pose proof (apply_located [] ps tail off) as H. by rewrite zlen_nil, Z.add_0_r in H. Qed.

(** ** Replacements in order *)

Notation stop r := (matchIndex r + matchLength r).

(** Replacements that follow one another within [lo] and [hi]. *)
Fixpoint ordered (lo : Z) (rs : list TextReplacement) (hi : Z) : Prop :=
  match rs with
  | [] => lo <= hi
  | r :: rs => lo <= matchIndex r ∧ 0 <= matchLength r ∧ ordered (stop r) rs hi
  end.

(** The text of a replacement in [c], which starts at [off]. *)
Definition text_at (off : Z) (c : jsstr) (r : TextReplacement) : jsstr :=
  slice0 (matchLength r) (slice_from (matchIndex r - off) c).
Definition as_edit (off : Z) (c : jsstr) (r : TextReplacement) : Edit := mkEdit (text_at off c r) (newText r).

Lemma text_at_drop off c r n : 0 <= n → off + n <= matchIndex r → text_at (off + n) (slice_from n c) r = text_at off c r.
Proof.
  intros Hn H. unfold text_at, slice_from. rewrite drop_drop. do 2 f_equal. lia.
Qed.

Lemma ordered_weaken lo lo' rs hi : lo' <= lo → ordered lo rs hi → ordered lo' rs hi.
Proof. destruct rs; cbn; intuition lia. Qed.
Lemma ordered_hi lo rs hi : ordered lo rs hi → lo <= hi.
Proof. revert lo. induction rs as [|r rs IH]; intros lo; cbn; [done|]. intros (H1 & H2 & H3%IH). lia. Qed.
Lemma ordered_ge lo rs hi : ordered lo rs hi → Forall (λ r, lo <= matchIndex r ∧ 0 <= matchLength r ∧ stop r <= hi) rs.
Proof.
  revert lo. induction rs as [|r rs IH]; intros lo; [constructor|]. cbn. intros (H1 & H2 & H3). constructor.
  - apply ordered_hi in H3. lia.
  - specialize (IH _ H3). eapply Forall_impl; [exact IH|]. cbn. intros x ?. lia.
Qed.

(** Replacements in order are the pieces of the text. *)
Lemma locate_exists c off rs : ordered off rs (off + zlen c) →
  ∃ ps tail, c = before ps tail ∧ rs = locate off ps ∧ ps.*2 = as_edit off c <$> rs.
Proof.
  revert c off. induction rs as [|r rs IH]; intros c off; cbn [ordered].
  - intros _. exists [], c. done.
  - intros (H1 & H2 & H3). pose proof (ordered_hi _ _ _ H3) as Hhi.
    set (n := stop r - off). assert (Hn : 0 <= n <= zlen c) by lia.
    destruct (IH (slice_from n c) (stop r)) as (ps & tail & E1 & E2 & E3).
    { unfold slice_from. rewrite zlen_drop. replace (stop r + _) with (off + zlen c) by lia. done. }
    set (g := slice0 (matchIndex r - off) c).
    assert (Eg : zlen g = matchIndex r - off) by (unfold g; rewrite zlen_slice0 by lia; lia).
    assert (Eo : zlen (text_at off c r) = matchLength r).
    { unfold text_at. rewrite zlen_slice0 by done. unfold slice_from. rewrite zlen_drop. lia. }
    exists ((g, as_edit off c r) :: ps), tail. split_and!.
    + rewrite before_cons, <- E1. cbn [as_edit oldText]. unfold g, text_at, slice0, slice_from.
      replace (Z.to_nat n) with (Z.to_nat (matchIndex r - off) + Z.to_nat (matchLength r))%nat by lia.
      rewrite <- drop_drop, !take_drop. done.
    + cbn [locate as_edit oldText newText_of]. rewrite Eg, Eo. destruct r as [i l t]. cbn in *. f_equal; [f_equal; lia|].
      rewrite E2. f_equal. lia.
    + cbn. f_equal. rewrite E3. apply list_fmap_ext. intros i x Hx. unfold as_edit. f_equal.
      replace (stop r) with (off + n) by lia. apply text_at_drop; [lia|].
      apply ordered_ge in H3. eapply Forall_lookup in H3; [|done]. cbn in H3. lia.
Qed.

(** Applying replacements in order is writing the pieces anew. *)
Lemma apply_ordered c off rs : ordered off rs (off + zlen c) →
  ∃ ps tail, c = before ps tail ∧ rs = locate off ps ∧ ps.*2 = as_edit off c <$> rs ∧ applyReplacements c rs off = after ps tail.
Proof.
  intros H. destruct (locate_exists c off rs H) as (ps & tail & E1 & E2 & E3). exists ps, tail. split_and!; [done..|].
  rewrite E2, E1. apply apply_locate.
Qed.

(** ** The edits that are found *)

Lemma sort_by_map {A B} (f : A → B) (le : B → B → bool) l : f <$> sort_by (λ a b, le (f a) (f b)) l = sort_by le (f <$> l).
Proof.
  induction l as [|x l IH]; [done|].
  change (f <$> insert_by (λ a b, le (f a) (f b)) x (sort_by (λ a b, le (f a) (f b)) l) = insert_by le (f x) (sort_by le (f <$> l))).
  rewrite <- IH. generalize (sort_by (λ a b, le (f a) (f b)) l). intros k.
  induction k as [|y k IHk]; [done|]. cbn. destruct (le (f x) (f y)); [done|]. cbn. by rewrite IHk.
Qed.

Definition within (lo hi : Z) (r : TextReplacement) : Prop := lo <= matchIndex r ∧ 0 <= matchLength r ∧ stop r <= hi.

Lemma overlapping_None l lo hi : lo <= hi → overlapping l = None → Forall (λ m, within lo hi (replacement m)) l → ordered lo (replacement <$> l) hi.
Proof.
  revert lo. induction l as [|a l IH]; intros lo Hlh Ho Hf; [done|]. apply Forall_cons in Hf as [(H1 & H2 & H3) Hf]. cbn.
  split_and!; [done|done|]. apply IH; [done| |].
  - destruct l; [done|]. cbn in Ho. by destruct (_ <? _).
  - destruct l as [|b l]; [constructor|]. cbn [overlapping] in Ho. destruct (_ <? _) eqn:E; [done|]. bool_prop.
    assert (Hall : ∀ lo l, overlapping l = None → Forall (λ m, within lo hi (replacement m)) l → ∀ x, head l = Some x →
      Forall (λ m, within (matchIndex (replacement x)) hi (replacement m)) l).
    { clear. intros lo l. induction l as [|x l IHl]; [done|]. intros Ho [(H1 & H2 & H3) Hf]%Forall_cons ? [= <-]. constructor; [split_and!; done || lia|].
      destruct l as [|y l]; [constructor|]. cbn [overlapping] in Ho. destruct (_ <? _) eqn:E; [done|]. bool_prop.
      eapply Forall_impl; [exact (IHl Ho Hf y eq_refl)|]. intros m (K1 & K2 & K3). split_and!; lia. }
    eapply Forall_impl; [exact (Hall lo (b :: l) Ho Hf b eq_refl)|]. intros m (K1 & K2 & K3). split_and!; lia.
Qed.

Section Fuzzy.
Context (nfkc : jsstr → jsstr).
Notation normalizeForFuzzyMatch := (normalizeForFuzzyMatch nfkc).
Notation fuzzyFindText := (fuzzyFindText nfkc).
Notation applyEdits := (applyEditsToNormalizedContent nfkc).

(** The replacement of an edit that is found, and found once. *)
Definition matched (base : jsstr) (e : Edit) : option TextReplacement :=
  let m := fuzzyFindText base (oldText e) in
  if found m && negb (1 <? countOccurrences nfkc base (oldText e)) then Some (mkReplacement (index m) (length_of m) (newText_of e)) else None.

Lemma match_edits_Ok base path total i edits l :
  match_edits nfkc base path total i edits = Ok l → Forall2 (λ e m, matched base e = Some (replacement m)) edits l.
Proof.
  revert i l. induction edits as [|e edits IH]; intros i l; cbn; [intros [= <-]; constructor|].
  destruct (found _) eqn:E1; [|done]. cbn. destruct (1 <? _) eqn:E2; [done|]. intros (k & H & [= <-])%rbind_Ok.
  constructor; [|by eapply IH]. unfold matched. by rewrite E1, E2.
Qed.
Lemma match_edits_total base path total i edits : Forall (λ e, is_Some (matched base e)) edits → ∃ l, match_edits nfkc base path total i edits = Ok l.
Proof.
  intros H. revert i. induction H as [|e edits [r He] _ IH]; intros i; cbn; [by eexists|]. unfold matched in He.
  destruct (found _); [|done]. destruct (1 <? _); [done|]. destruct (IH (i + 1)) as [l ->]. cbn. by eexists.
Qed.
(** What is found stands in the content that is searched. *)
Lemma found_text content old : let m := fuzzyFindText content old in found m = true → usedFuzzyMatch m = false →
  index m = default 0 (indexOf old content) ∧ length_of m = zlen old ∧ occurs old content (index m).
Proof.
  unfold EditDiff.fuzzyFindText. cbv zeta. destruct (indexOf old content) as [i|] eqn:E; [cbn; intros _ _; split_and!; [done..|]; by apply indexOf_Some|].
  destruct (indexOf (normalizeForFuzzyMatch old) _); cbn; [intros _ H|intros H]; discriminate H.
Qed.
Lemma occurs_text p s i t : occurs p s i → text_at 0 s (mkReplacement i (zlen p) t) = p ∧ 0 <= i ∧ i + zlen p <= zlen s.
Proof.
  intros (a & b & -> & <-). unfold text_at. cbn. rewrite Z.sub_0_r, slice_from_app, slice0_app, !zlen_app.
  pose proof (zlen_nonneg a). pose proof (zlen_nonneg b). split; [done|lia].
Qed.

Lemma not_fuzzy content edits e : needs_fuzzy nfkc content edits = false → e ∈ edits → usedFuzzyMatch (fuzzyFindText content (oldText e)) = false.
Proof.
  unfold needs_fuzzy. intros H He. destruct (usedFuzzyMatch _) eqn:E; [|done]. rewrite <- H. symmetry. apply existsb_exists. exists e.
  split; [by apply list_elem_of_In|done].
Qed.

Lemma matched_exact base e r : usedFuzzyMatch (fuzzyFindText base (oldText e)) = false → matched base e = Some r →
  within 0 (zlen base) r ∧ as_edit 0 base r = e ∧ matchLength r = zlen (oldText e) ∧ Some (matchIndex r) = indexOf (oldText e) base.
Proof.
  intros Hu. unfold matched. destruct (found _) eqn:E1; [|done]. cbn. destruct (1 <? _); [done|]. intros [= <-].
  destruct (found_text base (oldText e) E1 Hu) as (H1 & H2 & H3). pose proof H3 as H4. destruct (occurs_text _ _ _ (newText_of e) H3) as (T & ? & ?).
  unfold within, as_edit. cbn. rewrite H2, T. destruct e as [o n]. cbn in *. split_and!; [done|apply zlen_nonneg|done|done|done|].
  rewrite H1. destruct (indexOf o base) eqn:E; [done|]. exfalso. pose proof (indexOf_spec o base) as Hs. rewrite E in Hs. by eapply Hs.
Qed.

(** The steps of an edit that succeeds. *)
Lemma applyEdits_Ok c edits path r : applyEdits c edits path = Ok r →
  let es := normalized_edit <$> edits in
  let fuzzy := needs_fuzzy nfkc c es in
  let base := if fuzzy then normalizeForFuzzyMatch c else c in
  ∃ ms, Forall2 (λ e m, matched base e = Some (replacement m)) es ms ∧ first_empty 0 es = None ∧ overlapping (sort_by by_match ms) = None
    ∧ (if fuzzy then applyReplacementsPreservingUnchangedLines c base (replacement <$> sort_by by_match ms)
       else Ok (applyReplacements base (replacement <$> sort_by by_match ms) 0)) = Ok (newContent r)
    ∧ baseContent r = c ∧ newContent r ≠ c.
Proof.
  unfold applyEditsToNormalizedContent. destruct (first_empty _ _) eqn:E0; [done|]. intros (ms & Hm & H)%rbind_Ok. apply match_edits_Ok in Hm.
  destruct (overlapping _) as [[a b]|] eqn:Eo; [done|]. apply rbind_Ok in H as (n & Hn & H). unfold str_eqb in H. destruct (bool_decide _) eqn:E; [done|].
  injection H as <-. bool_prop. exists ms. cbn. split_and!; [done..| ]. intros ->. done.
Qed.

Lemma sort_perm_fmap ms : replacement <$> sort_by by_match ms ≡ₚ replacement <$> ms.
Proof. apply fmap_Permutation, sort_by_perm. Qed.

(** An edit whose searches are exact replaces what it names, each text once, and nothing
    else: between the replaced texts the content is as before. *)
Lemma exact_edit_splices c edits path r : applyEdits c edits path = Ok r → needs_fuzzy nfkc c (normalized_edit <$> edits) = false →
  baseContent r = c ∧ newContent r ≠ c
  ∧ ∃ ps tail, ps.*2 ≡ₚ normalized_edit <$> edits ∧ c = before ps tail ∧ newContent r = after ps tail
      ∧ (∀ e, e ∈ ps.*2 → oldText e ≠ []).
Proof.
  intros H Hf. destruct (applyEdits_Ok _ _ _ _ H) as (ms & Hm & He & Ho & Hn & Hb & Hne). rewrite Hf in *. cbv iota zeta in *.
  split_and!; [done|done|]. injection Hn as Hn.
  assert (Hw : Forall2 (λ e m, within 0 (zlen c) (replacement m) ∧ as_edit 0 c (replacement m) = e) (normalized_edit <$> edits) ms).
  { apply Forall2_same_length_lookup_2; [by eapply Forall2_length|]. intros i e m Hi Hj.
    destruct (matched_exact c e (replacement m)) as (? & ? & _); [|by eapply Forall2_lookup_lr in Hm|done].
    eapply not_fuzzy; [exact Hf|]. by eapply list_elem_of_lookup_2. }
  assert (Hord : ordered 0 (replacement <$> sort_by by_match ms) (0 + zlen c)).
  { apply overlapping_None; [apply zlen_nonneg|done|]. rewrite (sort_by_perm by_match ms).
    apply Forall_lookup. intros i m Hi. destruct (Forall2_lookup_r _ _ _ _ _ Hw Hi) as (e & _ & ? & _). done. }
  destruct (apply_ordered c 0 _ Hord) as (ps & tail & E1 & E2 & E3 & E4). exists ps, tail.
  assert (Hperm : ps.*2 ≡ₚ normalized_edit <$> edits).
  { rewrite E3, sort_perm_fmap, <- list_fmap_compose. replace (normalized_edit <$> edits) with (as_edit 0 c ∘ replacement <$> ms); [done|].
    clear -Hw. induction Hw as [|e m es ms [_ He] _ IH]; [done|]. cbn. by rewrite He, IH. }
  split_and!; [done|done|congruence|]. intros e Hin. rewrite Hperm in Hin. clear -He Hin. revert He Hin. generalize 0.
  induction (normalized_edit <$> edits) as [|x l IH]; intros i; cbn; [by intros _ ?%elem_of_nil|].
  destruct (bool_decide (oldText x = [])) eqn:E; [done|]. bool_prop. intros H [->|?]%elem_of_cons; [done|by eapply IH].
Qed.

(** ** The order of the edits *)

Lemma some_bounds rs : Forall (λ r, 0 <= matchLength r) rs → ∃ lo hi, lo <= hi ∧ Forall (within lo hi) rs.
Proof.
  induction 1 as [|r rs Hr _ (lo & hi & H & IH)]; [by exists 0, 0|]. exists (Z.min lo (matchIndex r)), (Z.max hi (stop r)).
  split; [lia|]. constructor; [unfold within; lia|]. eapply Forall_impl; [exact IH|]. unfold within. lia.
Qed.
Lemma ordered_inj lo rs hi x y : ordered lo rs hi → Forall (λ r, 0 < matchLength r) rs → x ∈ rs → y ∈ rs → matchIndex x = matchIndex y → x = y.
Proof.
  revert lo. induction rs as [|r rs IH]; intros lo; cbn [ordered]; [by intros _ _ ?%elem_of_nil|].
  intros (H1 & H2 & H3) [Hr Hp]%Forall_cons Hx Hy E. pose proof (ordered_ge _ _ _ H3) as Hge. rewrite Forall_forall in Hge.
  apply elem_of_cons in Hx as [->|Hx], Hy as [->|Hy]; [done| | |by eapply IH].
  - apply Hge in Hy. lia.
  - apply Hge in Hx. lia.
Qed.
Lemma overlapping_cons a b l : overlapping (a :: b :: l) =
  if matchIndex (replacement b) <? stop (replacement a) then Some (editIndex a, editIndex b) else overlapping (b :: l).
Proof. done. Qed.
Lemma overlapping_fmap l l' : replacement <$> l = replacement <$> l' → overlapping l = None → overlapping l' = None.
Proof.
  revert l'. induction l as [|a l IH]; intros l' E; [by destruct l'|]. destruct l' as [|a' l']; [done|]. injection E as Ea E.
  destruct l as [|b l], l' as [|b' l']; [done|done|done|]. pose proof E as E'. injection E' as Eb _.
  rewrite !overlapping_cons, Ea, Eb. destruct (_ <? _); [done|]. apply (IH (b' :: l') E).
Qed.
Lemma matched_pos base e r : oldText e ≠ [] → usedFuzzyMatch (fuzzyFindText base (oldText e)) = false ∨ normalizeForFuzzyMatch (oldText e) ≠ [] →
  matched base e = Some r → 0 < matchLength r.
Proof.
  intros Ho Hn. unfold matched, EditDiff.fuzzyFindText in *. cbv zeta in *.
  assert (Hz : ∀ s : jsstr, s ≠ [] → 0 < zlen s) by (intros [|u s]; [done|]; rewrite zlen_cons; pose proof (zlen_nonneg s); lia).
  destruct (indexOf (oldText e) base); [cbn; case_match; [|done]; intros [= <-]; by apply Hz|].
  destruct (indexOf (normalizeForFuzzyMatch (oldText e)) _); [|done]. cbn in *. case_match; [|done]. intros [= <-]. apply Hz. by destruct Hn.
Qed.
Lemma first_empty_None i es : first_empty i es = None ↔ Forall (λ e, oldText e ≠ []) es.
Proof.
  revert i. induction es as [|e es IH]; intros i; cbn; [split; [constructor|done]|]. rewrite Forall_cons, <- (IH (i + 1)).
  destruct (bool_decide _) eqn:E; bool_prop; [split; [done|by intros [? _]]|]. split; [done|by intros [_ ?]].
Qed.
Lemma needs_fuzzy_perm c es es' : es ≡ₚ es' → needs_fuzzy nfkc c es = needs_fuzzy nfkc c es'.
Proof.
  unfold needs_fuzzy. intros H. apply eq_bool_prop_intro. rewrite !Is_true_true, !existsb_exists.
  split; intros (e & He & Hu); exists e; (split; [|done]); apply list_elem_of_In in He; apply list_elem_of_In; [by rewrite <- H|by rewrite H].
Qed.

Lemma by_index_trans : Transitive (λ a b, by_index a b = true).
Proof. intros a b c. unfold by_index. rewrite !Z.leb_le. lia. Qed.
Lemma sorted_matches ms : replacement <$> sort_by by_match ms = sort_by by_index (replacement <$> ms).
Proof. exact (sort_by_map replacement by_index ms). Qed.
Lemma by_index_strongly l : StronglySorted (λ a b, by_index a b = true) (sort_by by_index l).
Proof.
  apply Sorted_StronglySorted; [exact by_index_trans|]. apply sort_by_sorted. intros a b. unfold by_index. rewrite Z.leb_gt, Z.leb_le. lia.
Qed.

(** Edits that succeed in one order succeed in every other, with the same result. *)
Lemma edit_order_is_irrelevant c edits edits' path r : edits' ≡ₚ edits →
  let es := normalized_edit <$> edits in
  needs_fuzzy nfkc c es = false ∨ Forall (λ e, normalizeForFuzzyMatch (oldText e) ≠ []) es →
  applyEdits c edits path = Ok r → applyEdits c edits' path = Ok r.
Proof.
  intros Hp es Hpos H. destruct (applyEdits_Ok _ _ _ _ H) as (ms & Hm & He & Ho & Hn & Hb & Hne). fold es in Hm, He, Ho, Hn.
  set (es' := normalized_edit <$> edits'). assert (Hpe : es' ≡ₚ es) by (by apply fmap_Permutation).
  pose proof (needs_fuzzy_perm c _ _ Hpe) as Hf. set (base := if needs_fuzzy nfkc c es then normalizeForFuzzyMatch c else c) in *.
  rewrite first_empty_None in He.
  destruct (match_edits_total base path (zlen es') 0 es') as [ms' Hms'].
  { rewrite Hpe. apply Forall_forall. intros e Hin. apply list_elem_of_lookup_1 in Hin as [i Hi].
    destruct (Forall2_lookup_l _ _ _ _ _ Hm Hi) as (m & _ & ->). by eexists. }
  pose proof (match_edits_Ok _ _ _ _ _ _ Hms') as Hm'.
  assert (Hlen : Forall (λ r, 0 < matchLength r) (replacement <$> ms)).
  { apply Forall_fmap, Forall_lookup. intros i m Hi. destruct (Forall2_lookup_r _ _ _ _ _ Hm Hi) as (e & He' & Hme). cbn.
    eapply matched_pos; [|  |exact Hme].
    - rewrite Forall_forall in He. apply He. by eapply list_elem_of_lookup_2.
    - destruct Hpos as [Hx|Hx]; [left|right].
      + unfold base. rewrite Hx. eapply not_fuzzy; [exact Hx|by eapply list_elem_of_lookup_2].
      + rewrite Forall_forall in Hx. apply Hx. by eapply list_elem_of_lookup_2. }
  assert (Hperm : replacement <$> ms' ≡ₚ replacement <$> ms).
  { assert (Hom : ∀ l k, Forall2 (λ e m, matched base e = Some (replacement m)) l k → replacement <$> k = omap (matched base) l).
    { induction 1 as [|e m l k E _ IH]; [done|]. cbn. by rewrite E, IH. }
    rewrite (Hom _ _ Hm), (Hom _ _ Hm'). by rewrite Hpe. }
  assert (Hrs : replacement <$> sort_by by_match ms' = replacement <$> sort_by by_match ms).
  { destruct (some_bounds (replacement <$> sort_by by_match ms)) as (lo & hi & Hlh & Hw).
    { rewrite sort_perm_fmap. eapply Forall_impl; [exact Hlen|]. cbn. lia. }
    rewrite Forall_fmap in Hw. pose proof (overlapping_None _ lo hi Hlh Ho Hw) as Hord.
    assert (Hlen' : Forall (λ r, 0 < matchLength r) (replacement <$> sort_by by_match ms)) by (by rewrite sort_perm_fmap).
    apply (StronglySorted_unique_strong (λ a b, by_index a b = true)).
    - intros x y Hx Hy H1 H2. eapply ordered_inj; [exact Hord|exact Hlen'| |done|unfold by_index in *; bool_prop; lia].
      rewrite sort_perm_fmap in Hx |- *. by rewrite <- Hperm.
    - rewrite sorted_matches. apply by_index_strongly.
    - rewrite sorted_matches. apply by_index_strongly.
    - by rewrite !sort_perm_fmap. }
  unfold applyEditsToNormalizedContent in *. fold es in H. fold es'. rewrite (proj2 (first_empty_None 0 es')) by (by rewrite Hpe).
  rewrite Hf. fold base. rewrite Hms'. cbn [rbind]. rewrite (overlapping_fmap _ _ (eq_sym Hrs) Ho), Hrs, Hn. cbn [rbind].
  unfold str_eqb. rewrite bool_decide_eq_false_2 by done. destruct r as [b n]. cbn in *. by subst.
Qed.

End Fuzzy.
(** ** Lines and their spans *)

Lemma concat_splitLines s : concat (splitLinesWithEndings s) = s.
Proof.
  unfold splitLinesWithEndings. destruct (split_lines_spec s) as (ls & t & -> & Hl & Ht). rewrite split_lines_written, rev_unit, rev_involutive by done.
  rewrite concat_app. f_equal. destruct (bool_decide (t = [])) eqn:E; bool_prop; [by subst|]. cbn. by rewrite app_nil_r.
Qed.

(** Where line [i] starts. *)
Definition start_of (lines : list jsstr) (i : nat) : Z := zlen (concat (take i lines)).

Lemma start_of_S lines i l : lines !! i = Some l → start_of lines (S i) = start_of lines i + zlen l.
Proof. intros H. unfold start_of. rewrite (take_S_r _ _ _ H), concat_app, zlen_app. cbn. by rewrite app_nil_r. Qed.
Lemma start_of_app lines i k : start_of lines (i + k) = start_of lines i + zlen (concat (take k (drop i lines))).
Proof. unfold start_of. rewrite <- zlen_app, <- concat_app. by rewrite take_take_drop. Qed.
Lemma start_of_mono lines i j : (i <= j)%nat → start_of lines i <= start_of lines j.
Proof. intros H. replace j with (i + (j - i))%nat by lia. rewrite start_of_app. pose proof (zlen_nonneg (concat (take (j - i) (drop i lines)))). lia. Qed.
Lemma start_of_length lines : start_of lines (length lines) = zlen (concat lines).
Proof. unfold start_of. by rewrite firstn_all. Qed.

Lemma length_spans off lines : length (spans_from off lines) = length lines.
Proof. revert off. induction lines as [|l lines IH]; intros off; cbn; [done|]. by rewrite IH. Qed.
Lemma spans_lookup off lines i sp : spans_from off lines !! i = Some sp → sp = mkSpan (off + start_of lines i) (off + start_of lines (S i)) ∧ (i < length lines)%nat.
Proof.
  revert off i. induction lines as [|l lines IH]; intros off i; [done|]. destruct i as [|i]; cbn.
  - intros [= <-]. split; [|lia]. unfold start_of. cbn [take concat]. rewrite app_nil_r, zlen_nil. f_equal; lia.
  - intros H. apply IH in H as [-> H]. split; [|lia]. unfold start_of. cbn [take concat]. rewrite !zlen_app. f_equal; lia.
Qed.

Lemma find_line_spec off lines pos i : find_line (spans_from off lines) pos = Some i →
  (i < length lines)%nat ∧ off + start_of lines i <= pos < off + start_of lines (S i).
Proof.
  intros H. enough (∃ sp, spans_from off lines !! i = Some sp ∧ sp_start sp <= pos < sp_end sp) as (sp & Hl & Hs).
  { apply spans_lookup in Hl as [-> Hl]. done. }
  revert i H. induction (spans_from off lines) as [|sp sps IH]; intros i; cbn; [done|]. destruct (_ && _) eqn:E.
  - intros [= <-]. exists sp. bool_prop. done.
  - intros (j & Hj & ->)%fmap_Some. by apply IH.
Qed.
Lemma lines_before_spec sps pos : (∀ sp, sps !! lines_before sps pos = Some sp → pos <= sp_end sp)
  ∧ (∀ j sp, (j < lines_before sps pos)%nat → sps !! j = Some sp → sp_end sp < pos).
Proof.
  induction sps as [|sp sps [IH1 IH2]]; cbn; [split; [done|lia]|]. destruct (_ <? _) eqn:E; bool_prop.
  - split; [done|]. intros [|j] sp' Hj; [by intros [= <-]|]. apply IH2. lia.
  - split; [by intros ? [= <-]|lia].
Qed.

(** The lines of a replacement: it starts in the first, and the last is the first that does
    not end before it. *)
Lemma range_spec lines r a b : getReplacementLineRange (spans_from 0 lines) r = Ok (a, b) →
  (a < b <= length lines)%nat ∧ start_of lines a <= matchIndex r < start_of lines (S a) ∧ stop r <= start_of lines b
  ∧ ∀ j, (a <= j)%nat → (S j < b)%nat → start_of lines (S j) < stop r.
Proof.
  unfold getReplacementLineRange. destruct (find_line _ _) as [i|] eqn:E; [|done]. apply find_line_spec in E as [Hi Hs]. rewrite !Z.add_0_l in Hs.
  destruct (_ <=? _)%nat eqn:E; [done|]. intros [= <- <-]. apply Nat.leb_gt in E. rewrite length_spans in E.
  destruct (lines_before_spec (drop i (spans_from 0 lines)) (stop r)) as [H1 H2]. set (k := lines_before _ _) in *.
  destruct Hs as [Hs1 Hs2]. split_and!; [lia|lia|done|done| |].
  - destruct (lookup_lt_is_Some_2 (spans_from 0 lines) (i + k)) as [sp Hsp]; [by rewrite length_spans|].
    specialize (H1 sp). rewrite lookup_drop in H1. specialize (H1 Hsp). apply spans_lookup in Hsp as [-> _]. cbn in H1. lia.
  - intros j Hj Hb. destruct (lookup_lt_is_Some_2 (spans_from 0 lines) j) as [sp Hsp]; [rewrite length_spans; lia|].
    specialize (H2 (j - i)%nat sp). rewrite lookup_drop in H2. replace (i + (j - i))%nat with j in H2 by lia. specialize (H2 ltac:(lia) Hsp).
    apply spans_lookup in Hsp as [-> _]. cbn in H2. lia.
Qed.
Lemma range_mono lines r r' a b a' b' : matchIndex r <= matchIndex r' →
  getReplacementLineRange (spans_from 0 lines) r = Ok (a, b) → getReplacementLineRange (spans_from 0 lines) r' = Ok (a', b') → (a <= a')%nat.
Proof.
  intros Hi (_ & [H1 _] & _)%range_spec (_ & [_ H2] & _)%range_spec. destruct (decide (a <= a')%nat) as [?|Hn]; [done|].
  pose proof (start_of_mono lines (S a') a ltac:(lia)). lia.
Qed.

(** ** Groups *)

Section Groups.
Context (lines : list jsstr).
Notation spans := (spans_from 0 lines).
Notation range r := (getReplacementLineRange spans r).

(** A group has the lines from [startLine] to [endLine]: its replacements lie in them, and
    each of them is a line of one of its replacements. *)
Record group_ok (g : group) : Prop := {
  go_lines : (startLine g < endLine g <= length lines)%nat;
  go_some : replacements g ≠ [];
  go_inside : ∀ r, r ∈ replacements g → ∃ a b, range r = Ok (a, b) ∧ (startLine g <= a)%nat ∧ (b <= endLine g)%nat;
  go_touched : ∀ j, (startLine g <= j < endLine g)%nat → ∃ r a b, r ∈ replacements g ∧ range r = Ok (a, b) ∧ (a <= j < b)%nat }.

(** The groups from line [i] on follow one another. *)
Fixpoint groups_from (i : nat) (gs : list group) : Prop :=
  match gs with [] => True | g :: gs => (i <= startLine g)%nat ∧ groups_from (endLine g) gs end.

Lemma groups_from_snoc i gs g : groups_from i (gs ++ [g]) ↔ groups_from i gs ∧ (default i (endLine <$> last gs) <= startLine g)%nat.
Proof.
  revert i. induction gs as [|x gs IH]; intros i; cbn; [tauto|]. rewrite IH. destruct gs as [|y gs]; cbn; [tauto|].
  destruct (last (y :: gs)) eqn:E; [tauto|]. by apply last_None in E.
Qed.

(** What is known of the groups, the last first, after the replacements [done] in order. *)
Definition grouped (gs : list group) (past : list TextReplacement) : Prop :=
  groups_from 0 (rev gs) ∧ Forall group_ok gs ∧ concat (replacements <$> rev gs) = past.

Lemma add_to_groups_ok gs past r gs' : grouped gs past → Forall (λ p, matchIndex p <= matchIndex r) past →
  add_to_groups spans gs r = Ok gs' → grouped gs' (past ++ [r]).
Proof.
  intros (Hf & Ho & Hc) Hle H. unfold add_to_groups in H. apply rbind_Ok in H as ([a b] & Hr & H).
  destruct (range_spec _ _ _ _ Hr) as (Hab & _).
  assert (Hnew : group_ok (mkGroup a b [r])).
  { split; cbn; [done|done| |].
    - intros x ->%list_elem_of_singleton. by exists a, b.
    - intros j Hj. exists r, a, b. split; [by left|done]. }
  destruct gs as [|g gs]; [injection H as <-; cbn in Hc; subst past; split_and!; [cbn; lia|by constructor|done]|].
  apply Forall_cons in Ho as [Hg Ho]. cbn [rev] in Hf, Hc. apply groups_from_snoc in Hf as [Hf1 Hf2]. rewrite fmap_app, concat_app in Hc. cbn in Hc. rewrite app_nil_r in Hc.
  assert (Hstart : (startLine g <= a)%nat).
  { destruct (replacements g) as [|x l] eqn:E; [by destruct (go_some g Hg)|]. destruct (go_inside g Hg x) as (a' & b' & Hx & Ha & _); [rewrite E; by left|].
    etransitivity; [exact Ha|]. eapply range_mono; [|exact Hx|exact Hr]. rewrite Forall_forall in Hle. apply Hle. rewrite <- Hc, elem_of_app. right. by left. }
  destruct (a <? endLine g)%nat eqn:E; injection H as <-; unfold grouped; cbn [rev].
  - apply Nat.ltb_lt in E. split_and!.
    + apply groups_from_snoc. done.
    + constructor; [|done]. destruct Hg as [G1 G2 G3 G4]. split; cbn.
      * lia.
      * by destruct (replacements g).
      * intros x [Hx| ->%list_elem_of_singleton]%elem_of_app; [destruct (G3 x Hx) as (a' & b' & ? & ? & ?); exists a', b'; split_and!; [done..|lia]|].
        exists a, b. split_and!; [done|done|lia].
      * intros j Hj. destruct (decide (j < endLine g)%nat) as [Hlt|Hge].
        -- destruct (G4 j ltac:(lia)) as (x & a' & b' & Hx & ? & ?). exists x, a', b'. split_and!; [apply elem_of_app; by left|done|lia|lia].
        -- exists r, a, b. split_and!; [apply elem_of_app; right; by left|done|lia|lia].
    + rewrite fmap_app, concat_app. cbn. by rewrite app_nil_r, app_assoc, Hc.
  - apply Nat.ltb_ge in E. split_and!.
    + apply groups_from_snoc. split; [by apply groups_from_snoc|]. by rewrite last_snoc.
    + constructor; [done|by constructor].
    + rewrite !fmap_app, !concat_app. cbn. by rewrite !app_nil_r, Hc.
Qed.

Lemma by_index_le l r k : StronglySorted (λ a b, by_index a b = true) (l ++ r :: k) → Forall (λ p, matchIndex p <= matchIndex r) l.
Proof.
  induction l as [|x l IH]; [constructor|]. cbn. intros H. apply StronglySorted_inv in H as [H1 H2]. constructor; [|by apply IH].
  rewrite Forall_forall in H2. specialize (H2 r). unfold by_index in H2. assert (matchIndex x - matchIndex r <=? 0 = true); [|bool_prop; lia].
  apply H2, elem_of_app. right. by left.
Qed.
Lemma grouping_ok rs gs past gs' : grouped gs past → StronglySorted (λ a b, by_index a b = true) (past ++ rs) →
  foldM (add_to_groups spans) gs rs = Ok gs' → grouped gs' (past ++ rs).
Proof.
  revert gs past. induction rs as [|r rs IH]; intros gs past Hg Hs; cbn [foldM]; [intros [= <-]; by rewrite app_nil_r|].
  intros (gs1 & H1 & H2)%rbind_Ok. rewrite (cons_middle r past rs) in Hs |- *. rewrite app_assoc in Hs |- *.
  eapply IH; [|exact Hs|exact H2]. eapply add_to_groups_ok; [exact Hg| |exact H1].
  rewrite <- app_assoc in Hs. by eapply by_index_le.
Qed.

(** ** Blocks *)

(** A text and its base, cut at the same lines: [b_first] is the first line of the block,
    [b_edit] the pieces of the base that are written anew. *)
Record block := mkBlock { b_first : nat; b_orig : list jsstr; b_base : list jsstr; b_edit : option (list (jsstr * Edit) * jsstr) }.
Definition block_out (b : block) : jsstr :=
  match b_edit b with None => concat (b_orig b) | Some (ps, tail) => after ps tail end.
Definition block_edits (b : block) : list Edit := match b_edit b with None => [] | Some (ps, _) => ps.*2 end.
Definition block_replacements (b : block) : list TextReplacement :=
  match b_edit b with None => [] | Some (ps, _) => locate (start_of lines (b_first b)) ps end.

(** A replacement meets line [j] when one of the characters it replaces is of that line; a
    replacement of nothing meets the line it stands in.  This is said of positions in the
    text alone, not of the lines that the code computes. *)
Definition meets (r : TextReplacement) (j : nat) : Prop :=
  matchIndex r < start_of lines (S j) ∧ start_of lines j < Z.max (stop r) (matchIndex r + 1).

Lemma range_meets r a b j : range r = Ok (a, b) → (a <= j < b)%nat → meets r j.
Proof.
  intros (Hab & Hs & Hb & Hl)%range_spec Hj. unfold meets. split.
  - pose proof (start_of_mono lines (S a) (S j) ltac:(lia)). lia.
  - destruct (decide (j = a)) as [->|Hne]; [lia|]. destruct j as [|j]; [lia|]. specialize (Hl j ltac:(lia) ltac:(lia)). lia.
Qed.

(** A line of a block that is written anew is met by one of the replacements [rs]. *)
Definition block_ok (rs : list TextReplacement) (b : block) : Prop :=
  length (b_orig b) = length (b_base b)
  ∧ match b_edit b with
    | None => True
    | Some (ps, tail) => concat (b_base b) = before ps tail
        ∧ ∀ j, (b_first b <= j < b_first b + length (b_base b))%nat → ∃ r, r ∈ rs ∧ meets r j
    end.
Fixpoint tiled (i : nat) (bs : list block) : Prop :=
  match bs with [] => True | b :: bs => b_first b = i ∧ tiled (i + length (b_base b)) bs end.

Lemma cut_lines a b : (a <= b)%nat →
  concat lines = concat (take a lines) ++ concat (take (b - a) (drop a lines)) ++ concat (drop b lines).
Proof.
  intros H. rewrite <- !concat_app. f_equal. rewrite <- (take_drop a lines) at 1. f_equal. rewrite <- (take_drop (b - a) (drop a lines)) at 1. f_equal.
  rewrite drop_drop. f_equal. lia.
Qed.
Lemma slice_lines a b : (a <= b)%nat →
  slice_from (start_of lines a) (slice0 (start_of lines b) (concat lines)) = concat (take (b - a) (drop a lines)).
Proof.
  intros H. rewrite (cut_lines a b H). replace (start_of lines b) with (zlen (concat (take a lines) ++ concat (take (b - a) (drop a lines)))).
  - rewrite app_assoc, slice0_app. apply slice_from_app.
  - rewrite zlen_app. fold (start_of lines a). rewrite <- start_of_app. f_equal. lia.
Qed.

Lemma text_at_middle pre c post r : zlen pre <= matchIndex r → 0 <= matchLength r → stop r <= zlen pre + zlen c →
  text_at (zlen pre) c r = text_at 0 (pre ++ c ++ post) r.
Proof.
  intros H1 H2 H3. unfold text_at, slice0, slice_from, zlen in *. rewrite Z.sub_0_r. rewrite skipn_app, (drop_ge pre) by lia. cbn [app].
  rewrite skipn_app, take_app_le by (rewrite length_drop; lia). do 2 f_equal. lia.
Qed.

Lemma ordered_app lo l1 l2 hi : ordered lo (l1 ++ l2) hi → ∃ mid, ordered lo l1 mid ∧ ordered mid l2 hi.
Proof.
  revert lo. induction l1 as [|r l1 IH]; intros lo; cbn; [intros H; by exists lo|]. intros (H1 & H2 & H3). apply IH in H3 as (mid & H3 & H4). by exists mid.
Qed.
Lemma ordered_within lo l hi lo' hi' : ordered lo l hi → lo' <= hi' → Forall (within lo' hi') l → ordered lo' l hi'.
Proof.
  revert lo lo'. induction l as [|r l IH]; intros lo lo'; cbn; [done|]. intros (H1 & H2 & H3) Hl [(K1 & K2 & K3) Hf]%Forall_cons.
  split_and!; [done|done|]. eapply IH; [exact H3|done|]. apply ordered_ge in H3. rewrite Forall_forall in H3, Hf. apply Forall_forall.
  intros x Hx. specialize (H3 x Hx). specialize (Hf x Hx). unfold within in *. lia.
Qed.

Lemma group_within g lo hi : group_ok g → ordered lo (replacements g) hi →
  Forall (within (start_of lines (startLine g)) (start_of lines (endLine g))) (replacements g).
Proof.
  intros Hg Ho%ordered_ge. rewrite Forall_forall in Ho. apply Forall_forall. intros r Hr. destruct (go_inside g Hg r Hr) as (a & b & Hx & Ha & Hb).
  destruct (range_spec _ _ _ _ Hx) as (_ & H1 & H2 & _). specialize (Ho r Hr).
  pose proof (start_of_mono lines _ _ Ha). pose proof (start_of_mono lines _ _ Hb). unfold within. lia.
Qed.

(** The block that a group writes. *)
Lemma group_block rs g lo hi orig : group_ok g → ordered lo (replacements g) hi → replacements g ⊆ rs → length orig = length lines →
  let n := (endLine g - startLine g)%nat in
  ∃ b, block_ok rs b ∧ b_first b = startLine g ∧ b_orig b = take n (drop (startLine g) orig) ∧ b_base b = take n (drop (startLine g) lines)
    ∧ block_out b = applyReplacements (concat (b_base b)) (replacements g) (start_of lines (startLine g))
    ∧ block_replacements b = replacements g ∧ block_edits b = as_edit 0 (concat lines) <$> replacements g.
Proof.
  intros Hg Ho Hsub Hlen n. pose proof (go_lines g Hg) as Hl. pose proof (group_within g lo hi Hg Ho) as Hw.
  set (B := take n (drop (startLine g) lines)). assert (HB : start_of lines (endLine g) = start_of lines (startLine g) + zlen (concat B)).
  { unfold B. rewrite <- start_of_app. f_equal. lia. }
  destruct (apply_ordered (concat B) (start_of lines (startLine g)) (replacements g)) as (ps & tail & E1 & E2 & E3 & E4).
  { rewrite <- HB. eapply ordered_within; [exact Ho| |exact Hw]. apply start_of_mono. lia. }
  exists (mkBlock (startLine g) (take n (drop (startLine g) orig)) B (Some (ps, tail))). unfold block_out, block_replacements, block_edits. cbn.
  split_and!; [|done|done|done|done|done|].
  - unfold block_ok. cbn. unfold B. rewrite !length_take, !length_drop, Hlen. split; [done|]. split; [done|]. intros j Hj.
    destruct (go_touched g Hg j) as (r & a & c & Hr & ? & ?); [lia|]. exists r. split; [by apply Hsub|by eapply range_meets].
  - rewrite E3. apply list_fmap_ext. intros k r Hr. unfold as_edit. f_equal. rewrite Forall_lookup in Hw. destruct (Hw k r Hr) as (W1 & W2 & W3).
    rewrite (cut_lines (startLine g) (endLine g)) by lia. fold n B. apply text_at_middle; unfold start_of in *; lia.
Qed.

Lemma write_groups_ok rs orig G i res i' res' lo hi : length orig = length lines → groups_from i G → Forall group_ok G → (i <= length lines)%nat →
  ordered lo (concat (replacements <$> G)) hi → concat (replacements <$> G) ⊆ rs →
  foldM (write_group orig (concat lines) spans) (i, res) G = Ok (i', res') →
  (i <= i' <= length lines)%nat ∧ ∃ bs, Forall (block_ok rs) bs ∧ tiled i bs
    ∧ take (i' - i) (drop i orig) = concat (b_orig <$> bs) ∧ take (i' - i) (drop i lines) = concat (b_base <$> bs)
    ∧ res' = res ++ concat (block_out <$> bs) ∧ concat (block_replacements <$> bs) = concat (replacements <$> G)
    ∧ concat (block_edits <$> bs) = as_edit 0 (concat lines) <$> concat (replacements <$> G).
Proof.
  intros Hlen. revert i res lo. induction G as [|g G IH]; intros i res lo Hf Ho Hi Hord Hsub; cbn [foldM].
  - intros [= <- <-]. split; [lia|]. exists []. rewrite Nat.sub_diag. split_and!; try done. by rewrite app_nil_r.
  - intros ([i1 res1] & H1 & H2)%rbind_Ok. apply Forall_cons in Ho as [Hg Ho]. cbn in Hf, Hord, Hsub. destruct Hf as [Hf1 Hf2].
    apply ordered_app in Hord as (mid & Hord1 & Hord2). pose proof (go_lines g Hg) as Hl.
    unfold write_group in H1. destruct (spans !! startLine g) as [first|] eqn:Es; [|done]. destruct (spans !! (endLine g - 1)%nat) as [last|] eqn:Ee; [|done].
    apply spans_lookup in Es as [-> _], Ee as [-> _]. cbn [sp_start sp_end] in H1. rewrite !Z.add_0_l in H1. injection H1 as <- <-.
    replace (S (endLine g - 1)) with (endLine g) in H2 by lia. rewrite slice_lines in H2 by lia.
    destruct (IH _ _ mid Hf2 Ho ltac:(lia) Hord2 ltac:(set_solver) H2) as (Hi' & bs & B1 & B2 & B3 & B4 & B5 & B6 & B7). split; [lia|].
    destruct (group_block rs g lo mid orig Hg Hord1 ltac:(set_solver) Hlen) as (b & C1 & C2 & C3 & C4 & C5 & C6 & C7).
    set (k := mkBlock i (take (startLine g - i) (drop i orig)) (take (startLine g - i) (drop i lines)) None).
    assert (Hcut : ∀ l : list jsstr, take (i' - i) (drop i l) =
      take (startLine g - i) (drop i l) ++ take (endLine g - startLine g) (drop (startLine g) l) ++ take (i' - endLine g) (drop (endLine g) l)).
    { intros l. replace (i' - i)%nat with ((startLine g - i) + ((endLine g - startLine g) + (i' - endLine g)))%nat by lia.
      rewrite <- take_take_drop, drop_drop. f_equal. replace (i + (startLine g - i))%nat with (startLine g) by lia.
      rewrite <- take_take_drop, drop_drop. do 3 f_equal. lia. }
    exists (k :: b :: bs). cbn [fmap list_fmap concat]. rewrite !Hcut, B3, B4, <- C3, <- C4. split_and!; try done.
    + constructor; [|by constructor]. split; [|done]. cbn. by rewrite !length_take, !length_drop, Hlen.
    + cbn. split; [done|]. rewrite length_take, length_drop. split; [rewrite C2; lia|]. rewrite C4, length_take, length_drop.
      replace (_ + _)%nat with (endLine g) by lia. done.
    + rewrite B5, C5, C4. cbn [block_out k b_edit b_orig]. by rewrite <- !app_assoc.
    + by rewrite C6, B6.
    + by rewrite C7, B7, fmap_app.
Qed.

End Groups.
(** ** The application that keeps the lines it does not touch *)

Lemma sort_sorted l : StronglySorted (λ a b, by_index a b = true) l → sort_by by_index l = l.
Proof.
  induction 1 as [|x l Hs IH Hf]; [done|]. change (insert_by by_index x (sort_by by_index l) = x :: l). rewrite IH.
  destruct l as [|y l]; [done|]. apply Forall_cons in Hf as [Hy _]. cbn. by rewrite Hy.
Qed.
Lemma ordered_sorted lo rs hi : ordered lo rs hi → StronglySorted (λ a b, by_index a b = true) rs.
Proof.
  revert lo. induction rs as [|r rs IH]; intros lo; cbn; [constructor|]. intros (H1 & H2 & H3). constructor; [by eapply IH|].
  apply ordered_ge in H3. eapply Forall_impl; [exact H3|]. unfold by_index. cbn. intros x Hx. apply Z.leb_le. lia.
Qed.

Lemma tiled_app i bs cs : tiled i (bs ++ cs) ↔ tiled i bs ∧ tiled (i + length (concat (b_base <$> bs))) cs.
Proof.
  revert i. induction bs as [|b bs IH]; intros i; cbn; [rewrite Nat.add_0_r; tauto|]. rewrite IH, length_app, Nat.add_assoc. tauto.
Qed.

Lemma preserving_blocks orig base rs new lo hi : ordered lo rs hi → applyReplacementsPreservingUnchangedLines orig base rs = Ok new →
  let lines := splitLinesWithEndings base in
  ∃ bs, Forall (block_ok lines rs) bs ∧ tiled 0 bs ∧ splitLinesWithEndings orig = concat (b_orig <$> bs) ∧ lines = concat (b_base <$> bs)
    ∧ new = concat (block_out <$> bs) ∧ concat (block_replacements lines <$> bs) = rs ∧ concat (block_edits <$> bs) = as_edit 0 base <$> rs.
Proof.
  intros Hord H lines. pose proof (ordered_sorted _ _ _ Hord) as Hs. unfold applyReplacementsPreservingUnchangedLines, getLineSpans in H. fold lines in H.
  rewrite length_spans in H. destruct (negb _) eqn:El; [done|]. apply negb_false_iff, Nat.eqb_eq in El. rewrite sort_sorted in H by done.
  apply rbind_Ok in H as (gs & Hg & H). apply rbind_Ok in H as ([i' res] & Hw & [= <-]).
  destruct (grouping_ok lines rs [] [] gs) as (G1 & G2 & G3); [by split_and!|done|done|]. cbn in G3.
  assert (Eb : base = concat lines) by (by unfold lines; rewrite concat_splitLines). rewrite Eb in Hw.
  destruct (write_groups_ok lines rs (splitLinesWithEndings orig) (rev gs) 0 [] i' res lo hi) as (Hi & bs & B1 & B2 & B3 & B4 & B5 & B6 & B7);
    [done|done|by apply Forall_rev|lia|by rewrite G3|by rewrite G3|done|].
  rewrite Nat.sub_0_r in *. rewrite drop_0 in B3, B4. set (k := mkBlock i' (drop i' (splitLinesWithEndings orig)) (drop i' lines) None).
  assert (Hcat : ∀ {A} (f : block → list A), concat (f <$> bs ++ [k]) = concat (f <$> bs) ++ f k).
  { intros A f. rewrite fmap_app, concat_app. cbn. by rewrite app_nil_r. }
  assert (Ht : tiled 0 (bs ++ [k])).
  { apply tiled_app. split; [done|]. cbn. rewrite <- B4, length_take. split; [lia|done]. }
  assert (Hk : block_ok lines rs k) by (split; [cbn; by rewrite !length_drop, El|done]).
  exists (bs ++ [k]). rewrite !Hcat, <- B3, <- B4, B5, B6, B7, G3. cbn [k b_orig b_base block_out block_replacements block_edits b_edit app].
  rewrite !app_nil_r, !take_drop, <- Eb. split_and!; try done. apply Forall_app; split; [done|by constructor].
Qed.

(** Replacements that are applied lie in the base. *)
Lemma grouped_bounds lines rs gs gs' : foldM (add_to_groups (spans_from 0 lines)) gs rs = Ok gs' →
  Forall (λ r, 0 <= matchIndex r ∧ stop r <= zlen (concat lines)) rs.
Proof.
  revert gs. induction rs as [|r rs IH]; intros gs; cbn [foldM]; [constructor|]. intros (gs1 & H1 & H2)%rbind_Ok. constructor; [|by eapply IH].
  unfold add_to_groups in H1. apply rbind_Ok in H1 as ([a b] & (Hab & Hs & Hb & _)%range_spec & _). rewrite <- start_of_length.
  pose proof (start_of_mono lines 0 a ltac:(lia)) as H0. pose proof (start_of_mono lines b (length lines) ltac:(lia)). change (start_of lines 0) with 0 in H0. lia.
Qed.
Lemma preserving_bounds orig base rs new : applyReplacementsPreservingUnchangedLines orig base rs = Ok new →
  Forall (λ r, 0 <= matchIndex r ∧ stop r <= zlen base) rs.
Proof.
  unfold applyReplacementsPreservingUnchangedLines, getLineSpans. destruct (negb _); [done|]. intros (gs & Hg & _)%rbind_Ok.
  apply grouped_bounds in Hg. rewrite concat_splitLines in Hg. by rewrite (sort_by_perm by_index rs) in Hg.
Qed.

Lemma locate_app z ps1 t1 g e ps : locate z ps1 ++ locate (z + zlen (before ps1 t1)) ((g, e) :: ps) = locate z (ps1 ++ (t1 ++ g, e) :: ps).
Proof.
  revert z. induction ps1 as [|[g1 e1] ps1 IH]; intros z; cbn [locate app].
  - unfold before. cbn [fmap list_fmap concat app]. rewrite zlen_app, <- !Z.add_assoc. done.
  - f_equal. rewrite <- IH, before_cons, !zlen_app. cbn [locate]. do 2 f_equal; [f_equal|f_equal]; lia.
Qed.
Lemma same_cut {A} (f g : block → list A) bs : Forall (λ b, length (f b) = length (g b)) bs → concat (f <$> bs) = concat (g <$> bs) → Forall (λ b, f b = g b) bs.
Proof.
  induction 1 as [|b bs Hb _ IH]; [constructor|]. cbn. intros E. apply app_inj_1 in E as [E1 E2]; [|done]. constructor; [done|by apply IH].
Qed.

(** On a text that is its own base, keeping the lines that are not touched is no different from
    replacing: the line-wise application is the plain one. *)
Lemma preserving_is_replacing c rs new : ordered 0 rs (zlen c) → applyReplacementsPreservingUnchangedLines c c rs = Ok new → new = applyReplacements c rs 0.
Proof.
  intros Hord H. destruct (preserving_blocks _ _ _ _ _ _ Hord H) as (bs & B1 & B2 & B3 & B4 & -> & B6 & _). set (lines := splitLinesWithEndings c) in *.
  assert (Hsame : Forall (λ b, b_orig b = b_base b) bs).
  { apply same_cut; [|congruence]. eapply Forall_impl; [exact B1|]. by intros b [? _]. }
  assert (Hc : c = concat (concat (b_base <$> bs))) by (rewrite <- B4; symmetry; apply concat_splitLines).
  assert (Hgen : ∀ i cs, tiled i cs → Forall (block_ok lines rs) cs → Forall (λ b, b_orig b = b_base b) cs → concat (b_base <$> cs) = drop i lines → (i <= length lines)%nat →
    ∃ ps t, concat (concat (b_base <$> cs)) = before ps t ∧ concat (block_replacements lines <$> cs) = locate (start_of lines i) ps ∧ concat (block_out <$> cs) = after ps t).
  { clear. intros i cs. revert i. induction cs as [|b cs IH]; intros i; [intros; by exists [], []|]. cbn [tiled]. intros [Hb Ht] [Hok Hoks]%Forall_cons [Hs Hss]%Forall_cons Hd Hi.
    cbn [fmap list_fmap concat] in Hd |- *. assert (Hlen : length (drop i lines) = length (b_base b ++ concat (b_base <$> cs))) by (by rewrite <- Hd).
    rewrite length_drop, length_app in Hlen.
    assert (Htk : take (length (b_base b)) (drop i lines) = b_base b) by (by rewrite <- Hd, take_app_length).
    destruct (IH _ Ht Hoks Hss) as (ps & t & E1 & E2 & E3); [by rewrite <- drop_drop, <- Hd, drop_app_length|lia|].
    destruct Hok as [_ Hok]. rewrite start_of_app, Htk in E2. rewrite concat_app, E1, E2, E3. unfold block_replacements, block_out. rewrite Hb. destruct (b_edit b) as [[ps1 t1]|] eqn:E.
    - destruct Hok as [Hbase _]. rewrite Hbase. destruct ps as [|[g e] ps].
      + exists ps1, (t1 ++ t). unfold before, after. cbn. rewrite app_nil_r, <- !app_assoc. done.
      + exists (ps1 ++ (t1 ++ g, e) :: ps), t. split_and!.
        * unfold before. rewrite fmap_app, concat_app. cbn. by rewrite <- !app_assoc.
        * apply locate_app.
        * unfold after. rewrite fmap_app, concat_app. cbn. by rewrite <- !app_assoc.
    - rewrite Hs. destruct ps as [|[g e] ps].
      + exists [], (concat (b_base b) ++ t). done.
      + exists ((concat (b_base b) ++ g, e) :: ps), t. split_and!; [by rewrite !before_cons, <- !app_assoc| |by rewrite !after_cons, <- !app_assoc].
        cbn. rewrite zlen_app. f_equal; [f_equal; lia|f_equal; lia]. }
  destruct (Hgen 0%nat bs B2 B1 Hsame) as (ps & t & E1 & E2 & E3); [by rewrite <- B4|lia|]. rewrite E3, Hc, E1, <- B6, E2. symmetry. apply apply_locate.
Qed.

(** ** What an edit does *)

Section Edits.
Context (nfkc : jsstr → jsstr).
Notation normalizeForFuzzyMatch := (normalizeForFuzzyMatch nfkc).
Notation applyEdits := (applyEditsToNormalizedContent nfkc).

(** What a match of the edit [e] in [base] says: the old text stands there, or the normalized
    old text stands at this place of [base] normalized. *)
Definition names (base : jsstr) (e : Edit) (t : TextReplacement) : Prop :=
  newText t = newText_of e ∧ (text_at 0 base t = oldText e ∨ text_at 0 (normalizeForFuzzyMatch base) t = normalizeForFuzzyMatch (oldText e)).

Lemma matched_names base e r : matched nfkc base e = Some r → 0 <= matchLength r ∧ names base e r.
Proof.
  unfold matched, fuzzyFindText, names. destruct (found _) eqn:Ef; [|done]. cbn. destruct (1 <? _); [done|]. intros [= <-].
  destruct (indexOf (oldText e) base) as [i|] eqn:E1; cbn in *.
  - destruct (occurs_text nfkc _ _ _ (newText_of e) (indexOf_Some _ _ _ E1)) as (H1 & _). split_and!; [apply zlen_nonneg|done|by left].
  - destruct (indexOf (normalizeForFuzzyMatch (oldText e)) _) as [i|] eqn:E2; [|done]. cbn in *.
    destruct (occurs_text nfkc _ _ _ (newText_of e) (indexOf_Some _ _ _ E2)) as (H1 & _). split_and!; [apply zlen_nonneg|done|by right].
Qed.

(** An edit whose searches are all exact replaces the texts it names and nothing else: the
    content is some gaps around the old texts of the edits, each once, and the new content
    is the same gaps around the new texts. *)
Theorem exact_edit_replaces_what_it_names c edits path r :
  applyEdits c edits path = Ok r → needs_fuzzy nfkc c (normalized_edit <$> edits) = false →
  baseContent r = c ∧ newContent r ≠ c
  ∧ ∃ ps tail, ps.*2 ≡ₚ normalized_edit <$> edits ∧ c = before ps tail ∧ newContent r = after ps tail ∧ (∀ e, e ∈ ps.*2 → oldText e ≠ []).
Proof. apply exact_edit_splices. Qed.

(** C28. The order of the edits of one call does not matter: edits that succeed in one order
    succeed in every other with the same content (when every search is exact, or no old text
    is empty once it is normalized). *)
Theorem edits_commute c edits edits' path r : edits' ≡ₚ edits →
  needs_fuzzy nfkc c (normalized_edit <$> edits) = false
    ∨ Forall (λ e, normalizeForFuzzyMatch (oldText e) ≠ []) (normalized_edit <$> edits) →
  applyEdits c edits path = Ok r → applyEdits c edits' path = Ok r.
Proof. intros Hp Hn. by apply edit_order_is_irrelevant. Qed.

(** C25. A fuzzy edit keeps every line it does not touch.  The content and its normalized form are
    cut into blocks of the same lines; a block is kept as it was, or is the normalized
    lines with their matches replaced, and then each of its lines has a character that a match
    replaces (or an empty match in it).  The matches are those of the edits, each once: a
    match of an edit puts the new text where the old text stands in the normalized content, or
    where the normalized old text stands in the normalized content normalized again, which is
    what the code searches. *)
Theorem fuzzy_edit_keeps_untouched_lines c edits path r :
  let base := normalizeForFuzzyMatch c in
  let lines := splitLinesWithEndings base in
  applyEdits c edits path = Ok r → needs_fuzzy nfkc c (normalized_edit <$> edits) = true →
  ∃ rs bs, Forall (block_ok lines rs) bs ∧ tiled 0 bs ∧ splitLinesWithEndings c = concat (b_orig <$> bs) ∧ lines = concat (b_base <$> bs)
    ∧ newContent r = concat (block_out <$> bs) ∧ concat (block_replacements lines <$> bs) = rs
    ∧ ∃ rs', rs' ≡ₚ rs ∧ Forall2 (names base) (normalized_edit <$> edits) rs'.
Proof.
  intros base lines H Hf. destruct (applyEdits_Ok _ _ _ _ _ H) as (ms & Hm & _ & Ho & Hn & _). rewrite Hf in *. fold base in Hm, Hn.
  assert (Hw : Forall (λ m, within 0 (zlen base) (replacement m)) (sort_by by_match ms)).
  { pose proof (preserving_bounds _ _ _ _ Hn) as Hb. rewrite Forall_fmap in Hb. apply Forall_lookup. intros i m Hi.
    rewrite Forall_lookup in Hb. destruct (Hb i m Hi) as [B1 B2]. apply list_elem_of_lookup_2 in Hi. rewrite (sort_by_perm by_match ms) in Hi.
    apply list_elem_of_lookup_1 in Hi as [j Hj]. destruct (Forall2_lookup_r _ _ _ _ _ Hm Hj) as (e & _ & [He _]%matched_names). done. }
  pose proof (overlapping_None _ _ _ (zlen_nonneg base) Ho Hw) as Hord.
  destruct (preserving_blocks _ _ _ _ _ _ Hord Hn) as (bs & B1 & B2 & B3 & B4 & B5 & B6 & _).
  exists (replacement <$> sort_by by_match ms), bs. split_and!; [done..|]. exists (replacement <$> ms). split; [by rewrite sort_perm_fmap|].
  apply Forall2_fmap_r. eapply Forall2_impl; [exact Hm|]. cbn. intros e m He. by eapply matched_names in He as [_ ?].
Qed.

End Edits.

(** ** Samples *)

(** The normal form of a text without compatibility characters. *)
Definition plain (s : jsstr) : jsstr := s.
Definition lines_of (l : list jsstr) : jsstr := join [10] l.
Definition edit (o n : string) : Edit := mkEdit (js o) (js n).
Definition new_content (x : result jsstr AppliedEditsResult) : option jsstr := match x with Ok r => Some (newContent r) | Err _ => None end.
Definition message (x : result jsstr AppliedEditsResult) : jsstr := match x with Ok _ => [] | Err m => m end.

(** The second line has typographic quotes, the first and the last trailing spaces. *)
Definition quoted_text : jsstr := lines_of [js "let a;  "; js "say(" ++ [0x201C] ++ js "hi" ++ [0x201D] ++ js ")"; js "end  "; []].
Definition quote_edit : Edit := mkEdit (js "say(" ++ [34] ++ js "hi" ++ [34] ++ js ")") (js "say(0)").

Example fuzzy_sample : new_content (applyEditsToNormalizedContent plain quoted_text [quote_edit] (js "f"))
  = Some (lines_of [js "let a;  "; js "say(0)"; js "end  "; []]).
Proof. vm_compute. reflexivity. Qed.

(** A last line of white space without a line break is a line of the content, not of its
    normalized form: every fuzzy edit of the file is refused. *)
Example blank_last_line_refuses : message (applyEditsToNormalizedContent plain (quoted_text ++ js "  ") [quote_edit] (js "f")) = line_count_error.
Proof. vm_compute. reflexivity. Qed.

(** A text that stands once is refused, because another differs from it in its quotes. *)
Example exact_match_refused :
  let c := lines_of [js "say('hi')"; js "say(" ++ [0x2018] ++ js "hi" ++ [0x2019] ++ js ")"] in
  message (applyEditsToNormalizedContent plain c [edit "say('hi')" "say(0)"] (js "f")) = getDuplicateError (js "f") 0 1 2.
Proof. vm_compute. reflexivity. Qed.
(** White space is counted unit by unit. *)
Example spaces_refused : message (applyEditsToNormalizedContent plain (js "a  b") [edit "  " " "] (js "f")) = getDuplicateError (js "f") 0 1 3.
Proof. vm_compute. reflexivity. Qed.

(** Old texts that are empty once they are normalized stand at the same place, so that the
    order of the edits shows. *)
Example blank_edits_do_not_commute :
  new_content (applyEditsToNormalizedContent plain (js "x") [edit " " "A"; edit "  " "B"] (js "f")) = Some (js "ABx")
  ∧ new_content (applyEditsToNormalizedContent plain (js "x") [edit "  " "B"; edit " " "A"] (js "f")) = Some (js "BAx").
Proof. split; vm_compute; reflexivity. Qed.

(** A trailing space of the old text is dropped, and the rest is found inside a word. *)
Example fuzzy_match_inside_word : new_content (applyEditsToNormalizedContent plain (js "foobar") [edit "foo " "baz "] (js "f")) = Some (js "baz bar").
Proof. vm_compute. reflexivity. Qed.
(** Occurrences that overlap are counted once. *)
Example overlapping_occurrences_accepted : new_content (applyEditsToNormalizedContent plain (js "aaa") [edit "aa" "b"] (js "f")) = Some (js "ba").
Proof. vm_compute. reflexivity. Qed.

Definition two_edits : list Edit := [edit "one" "1"; edit "two" "2"].
Definition two_text : jsstr := js "two and one".

Lemma exact_edit_replaces_what_it_names_witness :
  ∃ r, applyEditsToNormalizedContent plain two_text two_edits (js "f") = Ok r ∧ newContent r ≠ two_text.
Proof.
  destruct (applyEditsToNormalizedContent plain two_text two_edits (js "f")) as [r|] eqn:E; [|vm_compute in E; discriminate].
  exists r. split; [reflexivity|].
  destruct (exact_edit_replaces_what_it_names plain two_text two_edits (js "f") r E) as (_ & H & _); [vm_compute; reflexivity|exact H].
Defined.

Lemma edits_commute_witness :
  ∃ r, applyEditsToNormalizedContent plain two_text two_edits (js "f") = Ok r
     ∧ applyEditsToNormalizedContent plain two_text (rev two_edits) (js "f") = Ok r.
Proof.
  destruct (applyEditsToNormalizedContent plain two_text two_edits (js "f")) as [r|] eqn:E; [|vm_compute in E; discriminate].
  exists r. split; [reflexivity|].
  apply (edits_commute plain two_text two_edits (rev two_edits) (js "f") r); [apply Permutation_swap|left; vm_compute; reflexivity|exact E].
Defined.

Lemma fuzzy_edit_keeps_untouched_lines_witness :
  ∃ r bs, applyEditsToNormalizedContent plain quoted_text [quote_edit] (js "f") = Ok r
    ∧ splitLinesWithEndings quoted_text = concat (b_orig <$> bs) ∧ newContent r = concat (block_out <$> bs).
Proof.
  destruct (applyEditsToNormalizedContent plain quoted_text [quote_edit] (js "f")) as [r|] eqn:E; [|vm_compute in E; discriminate].
  destruct (fuzzy_edit_keeps_untouched_lines plain quoted_text [quote_edit] (js "f") r) as (rs & bs & _ & _ & H1 & _ & H2 & _);
    [exact E|vm_compute; reflexivity|].
  exists r, bs. split; [reflexivity|]. split; [exact H1|exact H2].
Defined.

End EditProps.
