(* ===== verification/FileQueue.v ===== *)
(** * The queue of file mutations

    Models [agent/src/harness/tools/file-mutation-queue.ts]: mutations of one file run one
    after another, mutations of different files side by side.

    A call of [withFileMutationQueue] registers when every earlier call has registered, which
    is when the environment answers the key of its path; then it waits for the promise the
    map holds for that key and leaves its own.  Every continuation of a promise is a step, so
    that the theorems quantify over every interleaving.  What a call does to its file is a
    read and a write ([update]), as the edit and the write tool do it; the write may fail and
    then leave anything.  A file is its key; nothing else writes it. *)
From stdpp Require Import gmap.
From S2P Require Import Prelude JsString.

Module FileQueue.

Definition content := option jsstr.
(** What a call makes of the content it reads: the new content, or the message it throws. *)
Definition update := content → result jsstr jsstr.

(** The promise a call waits for: [currentQueue], resolved or the [chainedQueue] of a call. *)
Inductive phase :=
| registering
| queued (currentQueue : option nat)
| running                          (** [fn] was called *)
| editing (read : content)         (** it has read its file *)
| settled (answer : result jsstr ()) (** it returned or threw *)
| over (answer : result jsstr ())  (** the queue was released *)
| refused (error : jsstr).         (** the registration was rejected *)

Record Call := mkCall {
  path : jsstr; change : update; phase_of : phase;
  key : option jsstr;              (** once registered *)
  current : option nat;            (** [currentQueue] *)
  chained : bool }.                (** whether [chainedQueue] is resolved *)

(** History: what the calls did to their files. *)
Record effect := mkEffect { who : nat; on : jsstr; seen : content; wrote : content; outcome : result jsstr () }.
Record State := mkState { calls : list Call; queues : gmap jsstr nat; files : gmap jsstr jsstr; log : list effect }.
#[export] Instance state_rebuild : Rebuild State := λ s, mkState (calls s) (queues s) (files s) (log s).
#[export] Instance call_rebuild : Rebuild Call := λ c, mkCall (path c) (change c) (phase_of c) (key c) (current c) (chained c).

Definition started (f : gmap jsstr jsstr) : State := mkState [] ∅ f [].
Definition set_call (i : nat) (c : Call) (s : State) : State := s <| calls := <[i := c]> (calls s) |>.

(** The promise of the call [j] is resolved; [None] is [Promise.resolve()]. *)
Definition resolved (s : State) (p : option nat) : bool :=
  match p with None => true | Some j => match calls s !! j with Some c => chained c | None => false end end.

Definition is_registering (c : Call) : bool := match phase_of c with registering => true | _ => false end.
Definition is_over (c : Call) : bool := match phase_of c with over _ | refused _ => true | _ => false end.

Definition put (k : jsstr) (c : content) (f : gmap jsstr jsstr) : gmap jsstr jsstr :=
  match c with Some t => <[k := t]> f | None => delete k f end.

Inductive label :=
| calling (p : jsstr) (u : update)
| keyed (i : nat) (answer : result jsstr jsstr)  (** [getMutationQueueKey] settles *)
| entering (i : nat)                             (** [await currentQueue] *)
| reading (i : nat)
| writing (i : nat) (failure : option (content * jsstr)) (** what a write that fails leaves, and its error *)
| releasing (i : nat)                            (** [finally] *)
| chaining (i : nat).                            (** [currentQueue.then(() => nextQueue)] resolves *)

(** [fn] settles, after it wrote or without a write. *)
Definition ends (i : nat) (c : Call) (k : jsstr) (before after : content) (r : result jsstr ()) (s : State) : State :=
  set_call i (c <| phase_of := settled r |>) (s <| files := put k after (files s) |> <| log := log s ++ [mkEffect i k before after r] |>).

Definition step (l : label) (s : State) : option State :=
  match l with
  | calling p u => Some (s <| calls := calls s ++ [mkCall p u registering None None false] |>)
  | keyed i answer =>
      c ← calls s !! i;
      if is_registering c && forallb (λ d, negb (is_registering d)) (take i (calls s)) then
        match answer with
        | Err e => Some (set_call i (c <| phase_of := refused e |>) s)
        | Ok k =>
            let currentQueue := queues s !! k in
            Some (set_call i (c <| phase_of := queued currentQueue |> <| key := Some k |> <| current := currentQueue |>) (s <| queues := <[k := i]> (queues s) |>))
        end
      else None
  | entering i =>
      c ← calls s !! i;
      match phase_of c with
      | queued p => if resolved s p then Some (set_call i (c <| phase_of := running |>) s) else None
      | _ => None
      end
  | reading i =>
      c ← calls s !! i; k ← key c;
      match phase_of c with running => Some (set_call i (c <| phase_of := editing (files s !! k) |>) s) | _ => None end
  | writing i failure =>
      c ← calls s !! i; k ← key c;
      match phase_of c with
      | editing before =>
          match change c before, failure with
          | Err e, None => Some (ends i c k before (files s !! k) (Err e) s)
          | Err e, Some _ => None
          | Ok new, None => Some (ends i c k before (Some new) (Ok ()) s)
          | Ok new, Some (after, e) => Some (ends i c k before after (Err e) s)
          end
      | _ => None
      end
  | releasing i =>
      c ← calls s !! i; k ← key c;
      match phase_of c with
      | settled r =>
          let s := set_call i (c <| phase_of := over r |>) s in
          Some (if bool_decide (queues s !! k = Some i) then s <| queues := delete k (queues s) |> else s)
      | _ => None
      end
  | chaining i =>
      c ← calls s !! i;
      match phase_of c with
      | over _ => if negb (chained c) && resolved s (current c) then Some (set_call i (c <| chained := true |>) s) else None
      | _ => None
      end
  end.

Fixpoint run (ls : list label) (s : State) : option State :=
  match ls with [] => Some s | l :: ls => s' ← step l s; run ls s' end.

Inductive reachable (f : gmap jsstr jsstr) : State → Prop :=
| reach_start : reachable f (started f)
| reach_step l s s' : reachable f s → step l s = Some s' → reachable f s'.

Lemma reachable_run f ls s s' : reachable f s → run ls s = Some s' → reachable f s'.
Proof.
  revert s. induction ls as [|l ls IH]; intros s Hr; cbn; [by intros [= <-]|]. intros (s1 & H1 & H2)%bind_Some. eapply IH; [|done]. by eapply reach_step.
Qed.

(** ** The invariant *)

(** The call [i] is registered for the key [k]. *)
Definition registered (s : State) (k : jsstr) (i : nat) (c : Call) : Prop := calls s !! i = Some c ∧ key c = Some k.
(** Every call before [n] on the key [k] is over. *)
Definition quiet (s : State) (k : jsstr) (n : nat) : Prop := ∀ i c, registered s k i c → (i < n)%nat → is_over c = true.

(** Whether [fn] was called: the turn of the call has come. *)
Definition has_turn (c : Call) : bool := match phase_of c with running | editing _ | settled _ | over _ => true | _ => false end.

(** The call before [i] on the key [k]. *)
Definition previous (s : State) (k : jsstr) (i j : nat) : Prop :=
  (j < i)%nat ∧ (∃ d, registered s k j d) ∧ ∀ m d, registered s k m d → (m < i)%nat → (m <= j)%nat.

Record ok (s : State) : Prop := {
  ok_key : ∀ i c, calls s !! i = Some c → key c = None ↔ (is_registering c = true ∨ ∃ e, phase_of c = refused e);
  ok_order : ∀ i c, calls s !! i = Some c → is_registering c = true → ∀ j d, calls s !! j = Some d → (i <= j)%nat → is_registering d = true;
  ok_queued : ∀ i c p, calls s !! i = Some c → phase_of c = queued p → p = current c;
  ok_turn : ∀ k i c, registered s k i c → has_turn c = true → quiet s k i;
  ok_current : ∀ k i c, registered s k i c →
    match current c with None => quiet s k i | Some j => previous s k i j end;
  ok_chained : ∀ k i c, registered s k i c → chained c = true → quiet s k (S i);
  ok_done : ∀ i c, calls s !! i = Some c → chained c = true → is_over c = true;
  ok_queues : ∀ k, match queues s !! k with
    | Some i => (∃ c, registered s k i c) ∧ ∀ j d, registered s k j d → (j <= i)%nat
    | None => ∀ j d, registered s k j d → is_over d = true end }.

Lemma ok_started f : ok (started f).
Proof.
  assert (Hn : ∀ k i c, ¬ registered (started f) k i c) by (by intros k i c [[=] _]).
  split; try (by intros i c [=]); try (by intros i c p [=]); try (intros k i c Hr; by destruct (Hn k i c)).
  intros k. cbn. rewrite lookup_empty. intros j d Hr. by destruct (Hn k j d).
Qed.

Lemma registered_set s i c c' k j d : calls s !! i = Some c →
  registered (set_call i c' s) k j d ↔ (j = i ∧ d = c' ∧ key c' = Some k) ∨ (j ≠ i ∧ registered s k j d).
Proof.
  intros Hi. unfold registered, set_call. cbn. destruct (decide (j = i)) as [->|Hne].
  - rewrite list_lookup_insert_eq by (by eapply lookup_lt_Some). naive_solver.
  - rewrite list_lookup_insert_ne by done. naive_solver.
Qed.
Lemma lookup_set s i c c' j d : calls s !! i = Some c → calls (set_call i c' s) !! j = Some d → (j = i ∧ d = c') ∨ (j ≠ i ∧ calls s !! j = Some d).
Proof.
  intros Hi. unfold set_call. cbn. destruct (decide (j = i)) as [->|Hne].
  - rewrite list_lookup_insert_eq by (by eapply lookup_lt_Some). naive_solver.
  - rewrite list_lookup_insert_ne by done. naive_solver.
Qed.

(** [quiet] looks at the calls only. *)
Lemma quiet_le s k n m : (m <= n)%nat → quiet s k n → quiet s k m.
Proof. intros Hle H i c Hr Hi. eapply H; [exact Hr|lia]. Qed.

(** The steps of a call that is registered and whose key stays. *)
Record advances (s : State) (i : nat) (c c' : Call) : Prop := {
  adv_key : key c' = key c;
  adv_some : is_Some (key c);
  adv_current : current c' = current c;
  adv_phase : (∀ p, phase_of c' ≠ queued p) ∧ (∀ e, phase_of c' ≠ refused e) ∧ is_registering c' = false;
  adv_over : is_over c = true → is_over c' = true;
  adv_turn : ∀ k, key c = Some k → has_turn c' = true → quiet s k i;
  adv_chained : ∀ k, key c = Some k → chained c' = true → chained c = true ∨ (quiet s k i ∧ is_over c' = true) }.

Lemma quiet_set s i c c' k n : calls s !! i = Some c → advances s i c c' → quiet s k n → quiet (set_call i c' s) k n.
Proof.
  intros Hi Ha Hq j d Hr Hj. apply (registered_set s i c) in Hr; [|done]. destruct Hr as [(-> & -> & Hk)|[Hne Hr]]; [|by eapply Hq].
  apply (adv_over _ _ _ _ Ha). eapply Hq; [|done]. split; [done|]. by rewrite <- (adv_key _ _ _ _ Ha).
Qed.
Lemma previous_set s i c c' k n j : calls s !! i = Some c → advances s i c c' → previous s k n j → previous (set_call i c' s) k n j.
Proof.
  intros Hi Ha (H1 & (d & Hd) & H3). split_and!; [done| |].
  - destruct (decide (j = i)) as [->|Hne].
    + exists c'. apply (registered_set s i c); [done|]. left. destruct Hd as [Hd Hk]. rewrite Hi in Hd. injection Hd as ->. by rewrite (adv_key _ _ _ _ Ha).
    + exists d. apply (registered_set s i c); [done|]. by right.
  - intros m e Hr. apply (registered_set s i c) in Hr; [|done]. destruct Hr as [(-> & -> & Hk)|[Hne Hr]]; [|by eapply H3].
    eapply H3. split; [done|]. by rewrite <- (adv_key _ _ _ _ Ha).
Qed.

Lemma ok_advance s i c c' : ok s → calls s !! i = Some c → advances s i c c' → ok (set_call i c' s).
Proof.
  intros [K O Q T C Ch D Qs] Hi Ha. pose proof Ha as [A1 A2 A3 (A4 & A5 & A6) A7 A8 A9].
  assert (Hc : is_registering c = false).
  { destruct (is_registering c) eqn:E; [|done]. destruct A2 as [k Hk]. destruct (K i c Hi) as [_ H]. rewrite H in Hk by (by left). done. }
  split.
  - intros j d [[-> ->]|[_ Hj]]%(lookup_set s i c); [|exact (K j d Hj)|done]. rewrite A1, A6. destruct A2 as [k ->]. split; [done|]. intros [?|[e He]]; [done|by apply A5 in He].
  - intros j d [[-> ->]|[Hne Hj]]%(lookup_set s i c) Hr j' d' Hj' Hle; [by rewrite A6 in Hr| |done].
    apply (lookup_set s i c) in Hj'; [|done]. destruct Hj' as [[-> ->]|[_ Hj']]; [|exact (O j d Hj Hr j' d' Hj' Hle)].
    assert (is_registering c = true) by (by apply (O j d Hj Hr i c)). congruence.
  - intros j d p [[-> ->]|[Hne Hj]]%(lookup_set s i c) Hp; [by apply A4 in Hp|by eapply Q|done].
  - intros k j d [(-> & -> & Hk)|[Hne Hr]]%(registered_set s i c) Ht; [| |done].
    + rewrite A1 in Hk. eapply quiet_set; [done|done|by apply A8].
    + eapply quiet_set; [done|done|by eapply T].
  - intros k j d [(-> & -> & Hk)|[Hne Hr]]%(registered_set s i c); [| |done].
    + rewrite A1 in Hk. rewrite A3. pose proof (C k i c (conj Hi Hk)) as H. destruct (current c); [by eapply previous_set|by eapply quiet_set].
    + pose proof (C k j d Hr) as H. destruct (current d); [by eapply previous_set|by eapply quiet_set].
  - intros k j d [(-> & -> & Hk)|[Hne Hr]]%(registered_set s i c) Hch; [| |done].
    + rewrite A1 in Hk. destruct (A9 k Hk Hch) as [H|[H1 H2]]; [eapply quiet_set; [done|done|by eapply (Ch k i c)]|].
      intros m e Hr Hm. destruct (decide (m = i)) as [->|Hne].
      * apply (registered_set s i c) in Hr; [|done]. by destruct Hr as [(_ & -> & _)|[? _]].
      * eapply quiet_set; [done|done|exact H1|exact Hr|lia].
    + eapply quiet_set; [done|done|by eapply Ch].
  - intros j d [[-> ->]|[_ Hj]]%(lookup_set s i c) Hch; [| |done]; [|exact (D j d Hj Hch)]. destruct A2 as [k Hk].
    destruct (A9 k Hk Hch) as [H|[_ H]]; [apply A7; by eapply D|done].
  - intros k. cbn. specialize (Qs k). destruct (queues s !! k) as [q|].
    + destruct Qs as [[d Hd] Hm]. split.
      * destruct (decide (q = i)) as [->|Hne]; [exists c'|exists d]; apply (registered_set s i c); [done| |done|by right].
        left. destruct Hd as [Hd Hk]. rewrite Hi in Hd. injection Hd as ->. by rewrite A1.
      * intros j e Hr. apply (registered_set s i c) in Hr; [|done]. destruct Hr as [(-> & -> & Hk)|[Hne Hr]]; [|by eapply Hm].
        rewrite A1 in Hk. by apply (Hm i c).
    + intros j e Hr. apply (registered_set s i c) in Hr; [|done]. destruct Hr as [(-> & -> & Hk)|[Hne Hr]]; [|by eapply Qs].
      apply A7. rewrite A1 in Hk. by eapply (Qs i c).
Qed.

Lemma ok_same s s' : ok s → calls s' = calls s → queues s' = queues s → ok s'.
Proof.
  destruct s as [cs qs fs lg], s' as [cs' qs' fs' lg']. cbn. intros H -> ->. destruct H as [K O Q T C Ch D Qs].
  split; [exact K|exact O|exact Q|exact T|exact C|exact Ch|exact D|exact Qs].
Qed.

(** ** Every step keeps the invariant *)

Lemma lookup_call_app s p u j d : (calls s ++ [mkCall p u registering None None false]) !! j = Some d →
  calls s !! j = Some d ∨ (j = length (calls s) ∧ d = mkCall p u registering None None false).
Proof.
  intros H. apply lookup_app_Some in H as [H|[Hl H]]; [by left|]. right. apply list_lookup_singleton_Some in H as [H <-]. split; [lia|done].
Qed.

Lemma ok_calling s p u : ok s → ok (s <| calls := calls s ++ [mkCall p u registering None None false] |>).
Proof.
  set (s' := s <| calls := _ |>). intros [K O Q T C Ch D Qs].
  assert (Hold : ∀ j d, calls s' !! j = Some d → calls s !! j = Some d ∨ (j = length (calls s) ∧ d = mkCall p u registering None None false)) by apply lookup_call_app.
  assert (Hreg : ∀ k j d, registered s' k j d ↔ registered s k j d).
  { intros k j d. split; intros [H1 H2].
    - apply Hold in H1 as [?|[_ ->]]; done.
    - split; [|done]. unfold s'. cbn. by apply lookup_app_l_Some. }
  assert (Hq : ∀ k n, quiet s k n → quiet s' k n) by (intros k n H j d Hr; apply Hreg in Hr; by apply H).
  split.
  - intros j d [Hj|[_ ->]]%Hold; [exact (K j d Hj)|]. cbn. split; [by left|done].
  - intros j d [Hj|[-> ->]]%Hold Hr j' d' [Hj'|[-> ->]]%Hold Hle; [exact (O j d Hj Hr j' d' Hj' Hle)|done| |done].
    apply lookup_lt_Some in Hj'. lia.
  - intros j d q [Hj|[_ ->]]%Hold; [exact (Q j d q Hj)|done].
  - intros k j d Hr%Hreg Ht. by eapply Hq, T.
  - intros k j d Hr%Hreg. pose proof (C k j d Hr) as H. destruct (current d) as [m|]; [|by apply Hq].
    destruct H as (H1 & (e & He) & H2). split_and!; [done|exists e; by apply Hreg|]. intros m' d' Hr'%Hreg. by apply (H2 m' d').
  - intros k j d Hr%Hreg Hc. by eapply Hq, Ch.
  - intros j d [Hj|[_ ->]]%Hold Hc; [exact (D j d Hj Hc)|done].
  - intros k. cbn. specialize (Qs k). destruct (queues s !! k) as [q|].
    + destruct Qs as [[e He] Hm]. split; [exists e; by apply Hreg|]. intros j d Hr%Hreg. by eapply Hm.
    + intros j d Hr%Hreg. by eapply Qs.
Qed.

Lemma not_registering_before s i c j d : calls s !! i = Some c → forallb (λ d, negb (is_registering d)) (take i (calls s)) = true →
  calls s !! j = Some d → (j < i)%nat → is_registering d = false.
Proof.
  intros Hi H Hj Hlt. rewrite forallb_forall in H. apply negb_true_iff, H, list_elem_of_In, list_elem_of_lookup. exists j. by rewrite lookup_take_lt.
Qed.

(** A call that registers leaves the others as they are. *)
Lemma ok_keyed s i c c' qs : ok s → calls s !! i = Some c → is_registering c = true →
  forallb (λ d, negb (is_registering d)) (take i (calls s)) = true → is_registering c' = false → chained c' = false → has_turn c' = false →
  (match key c' with
   | Some k => phase_of c' = queued (queues s !! k) ∧ current c' = queues s !! k ∧ qs = <[k := i]> (queues s)
   | None => (∃ e, phase_of c' = refused e) ∧ qs = queues s end) →
  ok (set_call i c' (s <| queues := qs |>)).
Proof.
  intros [K O Q T C Ch D Qs] Hi Hreg Hbefore Hr' Hch' Ht' Hcase. set (s0 := s <| queues := qs |>). assert (Hi0 : calls s0 !! i = Some c) by done.
  assert (Hkey : key c = None) by (apply (K i c Hi); by left).
  assert (Hlast : ∀ k j d, registered s k j d → (j < i)%nat).
  { intros k j d [Hj Hk]. destruct (decide (j < i)%nat) as [?|Hge]; [done|]. destruct (K j d Hj) as [_ H]. rewrite H in Hk; [done|].
    left. eapply (O i c Hi Hreg); [exact Hj|lia]. }
  assert (Hold : ∀ k j d, registered (set_call i c' s0) k j d → registered s k j d ∨ (j = i ∧ d = c' ∧ key c' = Some k)).
  { intros k j d [(-> & -> & ?)|[_ ?]]%(registered_set s0 i c); [by right|by left|done]. }
  assert (Hnew : ∀ k j d, registered s k j d → registered (set_call i c' s0) k j d).
  { intros k j d Hr. apply (registered_set s0 i c); [done|]. right. split; [|done]. apply Hlast in Hr. lia. }
  assert (Hq : ∀ k n, (n <= i)%nat → quiet s k n → quiet (set_call i c' s0) k n).
  { intros k n Hn H j d [Hr|(-> & _)]%Hold Hj; [by eapply H|lia]. }
  assert (Hqi : ∀ k, queues s !! k = None → quiet s k i) by (intros k E; pose proof (Qs k) as H; rewrite E in H; intros j d Hr _; by eapply H).
  split.
  - intros j d [[-> ->]|[_ Hj]]%(lookup_set s0 i c); [|exact (K j d Hj)|done]. destruct (key c') as [k|] eqn:E.
    + destruct Hcase as (Hp & _). rewrite Hr', Hp. split; [done|]. by intros [?|[? ?]].
    + destruct Hcase as ([e He] & _). split; [intros _; right; by exists e|done].
  - intros j d [[-> ->]|[Hne Hj]]%(lookup_set s0 i c) Hr j' d' Hj' Hle; [congruence| |done].
    assert (Hij : (i < j)%nat).
    { destruct (decide (j < i)%nat) as [Hlt|?]; [|lia]. pose proof (not_registering_before s i c j d Hi Hbefore Hj Hlt). congruence. }
    apply (lookup_set s0 i c) in Hj' as [[-> _]|[_ Hj']]; [lia| |done]. exact (O j d Hj Hr j' d' Hj' Hle).
  - intros j d p [[-> ->]|[_ Hj]]%(lookup_set s0 i c) Hp; [|exact (Q j d p Hj Hp)|done]. destruct (key c') as [k|]; [destruct Hcase as (H1 & H2 & _)|destruct Hcase as ([e H1] & _)]; congruence.
  - intros k j d [Hr|(-> & -> & _)]%Hold Ht; [|congruence]. apply Hq; [by apply Hlast in Hr; lia|by eapply T].
  - intros k j d [Hr|(-> & -> & Hk)]%Hold.
    + pose proof (Hlast _ _ _ Hr). pose proof (C k j d Hr) as H0. destruct (current d) as [m|]; [|apply Hq; [lia|done]].
      destruct H0 as (H1 & (e & He) & H2). split_and!; [done|exists e; by apply Hnew|]. intros m' d' [Hm|(-> & _)]%Hold Hlt; [by apply (H2 m' d')|lia].
    + rewrite Hk in Hcase. destruct Hcase as (_ & -> & _). destruct (queues s !! k) as [m|] eqn:E; [|apply Hq; [done|by apply Hqi]].
      pose proof (Qs k) as H. rewrite E in H. destruct H as [[e He] Hm]. split_and!; [by eapply Hlast|exists e; by apply Hnew|].
      intros m' d' [Hr|(-> & _)]%Hold Hlt; [by eapply Hm|lia].
  - intros k j d [Hr|(-> & -> & _)]%Hold Hc; [|congruence]. apply Hq; [apply Hlast in Hr; lia|by eapply Ch].
  - intros j d [[-> ->]|[_ Hj]]%(lookup_set s0 i c) Hc; [congruence|exact (D j d Hj Hc)|done].
  - intros k. cbn. assert (Hkeep : ∀ k', key c' ≠ Some k' → qs !! k' = queues s !! k').
    { intros k' Hne. destruct (key c') as [k1|]; [destruct Hcase as (_ & _ & ->)|by destruct Hcase as [_ ->]]. rewrite lookup_insert_ne; [done|congruence]. }
    destruct (decide (key c' = Some k)) as [E|Hne].
    + rewrite E in Hcase. destruct Hcase as (_ & _ & ->). rewrite lookup_insert_eq. split; [exists c'; apply (registered_set s0 i c); [done|by left]|].
      intros j d [Hr|(-> & _)]%Hold; [apply Hlast in Hr; lia|done].
    + rewrite (Hkeep k Hne). pose proof (Qs k) as H. destruct (queues s !! k) as [m|].
      * destruct H as [[e He] Hm]. split; [exists e; by apply Hnew|]. intros j d [Hr|(_ & _ & ?)]%Hold; [by eapply Hm|done].
      * intros j d [Hr|(_ & _ & ?)]%Hold; [by eapply H|done].
Qed.

(** The last call of a key takes the key with it. *)
Lemma ok_delete s k i c : ok s → queues s !! k = Some i → registered s k i c → is_over c = true → quiet s k i → ok (s <| queues := delete k (queues s) |>).
Proof.
  intros [K O Q T C Ch D Qs] Hq Hr Ho Hquiet. split; [exact K|exact O|exact Q|exact T|exact C|exact Ch|exact D|].
  intros k'. cbn. destruct (decide (k' = k)) as [->|Hne]; [|rewrite lookup_delete_ne by done; apply (Qs k')].
  rewrite lookup_delete_eq. pose proof (Qs k) as H. rewrite Hq in H. destruct H as [_ Hm]. intros j d Hj. pose proof (Hm j d Hj).
  destruct (decide (j = i)) as [->|?]; [|eapply Hquiet; [exact Hj|lia]]. destruct Hr as [Hr _], Hj as [Hj _]. change (calls s !! i = Some d) in Hj. rewrite Hj in Hr. injection Hr as ->. exact Ho.
Qed.

(** A call that moves on within its turn. *)
Definition moves (c : Call) (ph : phase) : Call := c <| phase_of := ph |>.
Definition in_turn (ph : phase) : bool := match ph with running | editing _ | settled _ | over _ => true | _ => false end.

Lemma advances_moves s i c k ph : ok s → registered s k i c → in_turn ph = true →
  (match phase_of c with queued p => resolved s p = true | registering | refused _ | over _ => False | _ => True end) → advances s i c (moves c ph).
Proof.
  intros Hok Hr Hin Hc. pose proof Hok as [K O Q T C Ch D Qs]. destruct Hr as [Hi Hk]. split; cbn.
  - done.
  - by exists k.
  - done.
  - split_and!; [by intros p ->|by intros e ->|]. unfold is_registering. cbn. by destruct ph.
  - unfold is_over. by destruct (phase_of c).
  - intros k' Hk' _. destruct (phase_of c) as [|p| | | | |] eqn:E; try done; try (eapply T; [by split|unfold has_turn; by rewrite E]).
    pose proof (C k' i c (conj Hi Hk')) as H. rewrite (Q i c p Hi E) in Hc. destruct (current c) as [j|]; [|done].
    destruct H as (Hlt & (d & Hd) & Hm). cbn in Hc. destruct Hd as [Hd Hdk]. rewrite Hd in Hc.
    intros m e He Hlm. eapply (Ch k' j d); [by split|done|exact He|]. specialize (Hm m e He Hlm). lia.
  - intros k' _ H. by left.
Qed.

Lemma phase_key s i c k : key c = Some k → calls s !! i = Some c → registered s k i c.
Proof. by split. Qed.

Lemma queue_step_ok l s s' : ok s → step l s = Some s' → ok s'.
Proof.
  intros Hok H. destruct l as [p u|i answer|i|i|i failure|i|i]; cbn in H.
  - injection H as <-. by apply ok_calling.
  - apply bind_Some in H as (c & Hi & H). destruct (is_registering c) eqn:Er; [|done]. cbn in H. destruct (forallb _ _) eqn:Eb; [|done].
    assert (Hkc : key c = None) by (apply (ok_key s Hok i c Hi); by left).
    assert (Hch : chained c = false).
    { destruct (chained c) eqn:E; [|done]. pose proof (ok_done s Hok i c Hi E) as H'. unfold is_registering, is_over in *. by destruct (phase_of c). }
    destruct answer as [k|e]; injection H as <-; [by eapply ok_keyed|].
    change (ok (set_call i (c <| phase_of := refused e |>) (s <| queues := queues s |>))). eapply ok_keyed; try done.
    cbn. rewrite Hkc. split; [by eexists|done].
  - apply bind_Some in H as (c & Hi & H). destruct (phase_of c) as [|p| | | | |] eqn:E; try done. destruct (resolved s p) eqn:Ep; [|done]. injection H as <-.
    destruct (key c) as [k|] eqn:Ek.
    + eapply ok_advance; [done|done|]. eapply (advances_moves s i c k); [done|by split|done|by rewrite E].
    + apply (ok_key s Hok i c Hi) in Ek as [Ek|[e Ek]]; [unfold is_registering in Ek; by rewrite E in Ek|congruence].
  - apply bind_Some in H as (c & Hi & H). apply bind_Some in H as (k & Hk & H). destruct (phase_of c) eqn:E; try done. injection H as <-.
    eapply ok_advance; [done|done|]. eapply (advances_moves s i c k); [done|by split|done|by rewrite E].
  - apply bind_Some in H as (c & Hi & H). apply bind_Some in H as (k & Hk & H). destruct (phase_of c) as [| | |before| | |] eqn:E; try done.
    assert (Hends : ∀ after r, ok (ends i c k before after r s)).
    { intros after r. apply (ok_same (set_call i (moves c (settled r)) s)); [|done|done]. eapply (ok_advance s i c (moves c (settled r))); [done|done|].
      eapply (advances_moves s i c k); [done|by split|done|by rewrite E]. }
    destruct (change c before), failure as [[after e']|]; try done; injection H as <-; apply Hends.
  - apply bind_Some in H as (c & Hi & H). apply bind_Some in H as (k & Hk & H). destruct (phase_of c) as [| | | |r| |] eqn:E; try done. injection H as <-.
    assert (Ho : ok (set_call i (moves c (over r)) s)).
    { eapply ok_advance; [done|done|]. eapply (advances_moves s i c k); [done|by split|done|by rewrite E]. }
    destruct (bool_decide _) eqn:Eq; [|exact Ho]. bool_prop. apply (ok_delete (set_call i (moves c (over r)) s) k i (moves c (over r))); [exact Ho|exact Eq| |done|].
    + apply (registered_set s i c); [done|]. by left.
    + eapply (ok_turn _ Ho k i (moves c (over r))); [|done]. apply (registered_set s i c); [done|]. by left.
  - apply bind_Some in H as (c & Hi & H). destruct (phase_of c) as [| | | | |r|] eqn:E; try done. destruct (negb _ && _) eqn:En; [|done]. injection H as <-. bool_prop.
    assert (Hover : is_over c = true) by (unfold is_over; by rewrite E).
    eapply ok_advance; [done|done|]. split; cbn; try done.
    + destruct (key c) as [k|] eqn:Ek; [by eexists|]. apply (ok_key s Hok i c Hi) in Ek as [Ek|[e Ek]]; [unfold is_registering in Ek; by rewrite E in Ek|congruence].
    + unfold is_registering. cbn. rewrite E. split_and!; [congruence|congruence|done].
    + intros k Hk Ht. eapply (ok_turn s Hok k i c); [by split|]. unfold has_turn. by rewrite E.
    + intros k Hk _. right. split; [|done]. eapply (ok_turn s Hok k i c); [by split|]. unfold has_turn. by rewrite E.
Qed.

Lemma queue_ok f s : reachable f s → ok s.
Proof. induction 1 as [|l s s' _ IH H]; [apply ok_started|by eapply queue_step_ok]. Qed.

(** ** What the calls do to the files *)

Definition has_settled (c : Call) : bool := match phase_of c with settled _ | over _ => true | _ => false end.
Definition history (k : jsstr) (s : State) : list effect := filter (λ e, on e = k) (log s).

(** From the content [c] to the content [c'], each effect sees what the one before it wrote. *)
Fixpoint serial (c : content) (es : list effect) (c' : content) : Prop :=
  match es with [] => c = c' | e :: es => seen e = c ∧ serial (wrote e) es c' end.

(** What a call did is what it makes of the content it saw, unless its write failed. *)
Definition effect_ok (s : State) (e : effect) : Prop :=
  ∃ c, registered s (on e) (who e) c
    ∧ match outcome e with
      | Ok _ => ∃ new, change c (seen e) = Ok new ∧ wrote e = Some new
      | Err m => (change c (seen e) = Err m ∧ wrote e = seen e) ∨ ∃ new, change c (seen e) = Ok new
      end.

Record logged (f : gmap jsstr jsstr) (s : State) : Prop := {
  lg_editing : ∀ k i c b, registered s k i c → phase_of c = editing b → files s !! k = b;
  lg_serial : ∀ k, serial (f !! k) (history k s) (files s !! k);
  lg_sorted : ∀ k, StronglySorted lt (who <$> history k s);
  lg_who : ∀ k i, i ∈ who <$> history k s ↔ ∃ c, registered s k i c ∧ has_settled c = true;
  lg_effects : Forall (effect_ok s) (log s) }.

Lemma serial_snoc c es e c' c'' : serial c es c' → seen e = c' → wrote e = c'' → serial c (es ++ [e]) c''.
Proof. revert c. induction es as [|x es IH]; intros c; cbn; [by intros -> -> ->|]. intros [H1 H2] H3 H4. split; [done|by apply IH]. Qed.

Lemma logged_set f s i c c' qs : logged f s → calls s !! i = Some c → change c' = change c → has_settled c' = has_settled c →
  (key c' = key c ∨ (key c = None ∧ has_settled c = false)) → (∀ k b, key c' = Some k → phase_of c' = editing b → files s !! k = b) →
  logged f (set_call i c' (s <| queues := qs |>)).
Proof.
  intros [E S So W F] Hi Hch Hs Hk He. set (s0 := s <| queues := qs |>).
  assert (Hreg : ∀ k j d, registered s k j d → ∃ d', registered (set_call i c' s0) k j d' ∧ change d' = change d ∧ has_settled d' = has_settled d).
  { intros k j d Hr. destruct (decide (j = i)) as [->|Hne].
    - destruct Hr as [Hd Hdk]. rewrite Hi in Hd. injection Hd as <-. exists c'. split; [|done]. apply (registered_set s0 i c); [done|]. left.
      destruct Hk as [Hk|[Hk _]]; [by rewrite Hk|congruence].
    - exists d. split; [|done]. apply (registered_set s0 i c); [done|]. by right. }
  split.
  - intros k j d b [(-> & -> & Hkk)|[_ Hr]]%(registered_set s0 i c) Hp; [by eapply He|by eapply E|done].
  - exact S.
  - exact So.
  - intros k j. unfold history. cbn. rewrite (W k j). split.
    + intros (d & Hr & Hd). destruct (Hreg k j d Hr) as (d' & ? & _ & Heq). exists d'. split; [done|congruence].
    + intros (d & [(-> & -> & Hkk)|[_ Hr]]%(registered_set s0 i c) & Hd); [|by exists d|done]. exists c. rewrite <- Hs. split; [|done]. split; [done|].
      destruct Hk as [Hk|[_ Hk]]; [by rewrite <- Hk|congruence].
  - eapply Forall_impl; [exact F|]. intros e (d & Hr & Hd). destruct (Hreg _ _ _ Hr) as (d' & ? & Heq & _). exists d'. split; [done|by rewrite Heq].
Qed.

Lemma logged_calling f s p u : logged f s → logged f (s <| calls := calls s ++ [mkCall p u registering None None false] |>).
Proof.
  intros [E S So W F]. set (s' := s <| calls := _ |>).
  assert (Hreg : ∀ k j d, registered s' k j d ↔ registered s k j d).
  { intros k j d. split; intros [H1 H2].
    - apply lookup_call_app in H1 as [?|[_ ->]]; done.
    - split; [|done]. unfold s'. cbn. by apply lookup_app_l_Some. }
  split; [| exact S | exact So | |].
  - intros k j d b Hr%Hreg. exact (E k j d b Hr).
  - intros k j. unfold history. cbn. rewrite (W k j). by setoid_rewrite Hreg.
  - eapply Forall_impl; [exact F|]. intros e (d & Hr & Hd). exists d. by rewrite Hreg.
Qed.

(** Two calls on one key do not have their turn at once. *)
Lemma turns_exclude s k i j c d : ok s → registered s k i c → registered s k j d → has_turn c = true → is_over c = false → has_turn d = true → is_over d = false → i = j.
Proof.
  intros Hok Hi Hj T1 O1 T2 O2. destruct (Nat.lt_trichotomy i j) as [H|[H|H]]; [|done|].
  - pose proof (ok_turn s Hok k j d Hj T2 i c Hi H). congruence.
  - pose proof (ok_turn s Hok k i c Hi T1 j d Hj H). congruence.
Qed.

Lemma logged_ends f s i c k before after r : ok s → logged f s → registered s k i c → phase_of c = editing before →
  effect_ok s (mkEffect i k before after r) → logged f (ends i c k before after r s).
Proof.
  intros Hok [E S So W F] Hr Hp He. pose proof Hr as [Hi Hk]. set (e := mkEffect i k before after r). set (c' := moves c (settled r)).
  assert (Hreg : ∀ k' j d, registered (ends i c k before after r s) k' j d ↔ (j = i ∧ d = c' ∧ k' = k) ∨ (j ≠ i ∧ registered s k' j d)).
  { intros k' j d. unfold ends. rewrite (registered_set _ i c) by done. cbn. rewrite Hk. naive_solver. }
  assert (Hh : ∀ k', history k' (ends i c k before after r s) = history k' s ++ if bool_decide (k = k') then [e] else []).
  { intros k'. unfold history. cbn. rewrite filter_app. f_equal. rewrite filter_cons, filter_nil. cbn. by repeat case_decide; case_bool_decide. }
  assert (Hf : ∀ k', files (ends i c k before after r s) !! k' = if bool_decide (k = k') then after else files s !! k').
  { intros k'. cbn. unfold put. destruct after as [t|]; case_bool_decide; subst; by rewrite ?lookup_insert_eq, ?lookup_delete_eq, ?lookup_insert_ne, ?lookup_delete_ne. }
  assert (Hturn : has_turn c = true ∧ is_over c = false) by (unfold has_turn, is_over; by rewrite Hp).
  split.
  - intros k' j d b [(-> & -> & ->)|[Hne Hrd]]%Hreg Hb; [done|]. rewrite Hf. case_bool_decide; [|by eapply E]. subst k'. destruct Hne. symmetry.
    eapply (turns_exclude s k i j c d); [done|done|done|apply Hturn|apply Hturn|unfold has_turn; by rewrite Hb|unfold is_over; by rewrite Hb].
  - intros k'. rewrite Hh, Hf. case_bool_decide; [|by rewrite app_nil_r]. subst k'. eapply serial_snoc; [apply S|cbn; symmetry; by eapply E|done].
  - intros k'. rewrite Hh. case_bool_decide; [|by rewrite app_nil_r]. subst k'. rewrite fmap_app. cbn.
    apply StronglySorted_app. split_and!; [|apply So|by repeat constructor]. intros x y Hx ->%list_elem_of_singleton. apply W in Hx as (d & Hd & Hs). cbn.
    destruct (Nat.lt_trichotomy x i) as [?|[->|Hlt]]; [done| |].
    + destruct Hd as [Hd _]. rewrite Hi in Hd. injection Hd as <-. unfold has_settled in Hs. by rewrite Hp in Hs.
    + assert (is_over c = true); [|destruct Hturn; congruence]. eapply (ok_turn s Hok k x d Hd); [|done|done]. unfold has_settled, has_turn in *. by destruct (phase_of d).
  - intros k' j. rewrite Hh, fmap_app, elem_of_app, W. split.
    + intros [(d & Hd & Hs)|Hx].
      * destruct (decide (j = i)) as [->|Hne]; [|exists d; split; [apply Hreg; by right|done]]. destruct Hd as [Hd _]. rewrite Hi in Hd. injection Hd as <-.
        unfold has_settled in Hs. by rewrite Hp in Hs.
      * case_bool_decide; [|by apply elem_of_nil in Hx]. apply list_elem_of_singleton in Hx as ->. subst k'. exists c'. split; [apply Hreg; by left|done].
    + intros (d & [(-> & -> & ->)|[Hne Hd]]%Hreg & Hs); [right|left; by exists d]. rewrite bool_decide_eq_true_2 by done. by left.
  - assert (Hmono : ∀ x, effect_ok s x → effect_ok (ends i c k before after r s) x).
    { intros x (d & Hd & Hx). destruct (decide (who x = i)) as [Heq|Hne].
      - exists c'. rewrite Heq in *. destruct Hd as [Hd Hdk]. rewrite Hi in Hd. injection Hd as <-. split; [|done]. apply Hreg. left. split_and!; [done|done|congruence].
      - exists d. split; [apply Hreg; by right|done]. }
    cbn. apply Forall_app. split; [by eapply Forall_impl|]. constructor; [by apply Hmono|done].
Qed.

Lemma step_logged f l s s' : ok s → logged f s → step l s = Some s' → logged f s'.
Proof.
  intros Hok HL H. destruct l as [p u|i answer|i|i|i failure|i|i]; cbn in H.
  - injection H as <-. by apply logged_calling.
  - apply bind_Some in H as (c & Hi & H). destruct (is_registering c) eqn:Er; [|done]. cbn in H. destruct (forallb _ _); [|done].
    assert (Hkc : key c = None) by (apply (ok_key s Hok i c Hi); by left).
    assert (Hs : has_settled c = false) by (unfold has_settled, is_registering in *; by destruct (phase_of c)).
    destruct answer as [k|e]; injection H as <-; [apply (logged_set f s i c _ _ HL Hi)|apply (logged_set f s i c _ (queues s) HL Hi)]; try done; [by right|by left].
  - apply bind_Some in H as (c & Hi & H). destruct (phase_of c) as [|p| | | | |] eqn:E; try done. destruct (resolved s p); [|done]. injection H as <-.
    apply (logged_set f s i c _ (queues s) HL Hi); [done| |by left|done]. unfold has_settled. cbn. by rewrite E.
  - apply bind_Some in H as (c & Hi & H). apply bind_Some in H as (k & Hk & H). destruct (phase_of c) eqn:E; try done. injection H as <-.
    apply (logged_set f s i c _ (queues s) HL Hi); [done| |by left|].
    + unfold has_settled. cbn. by rewrite E.
    + cbn. intros k' b Hk' [= <-]. congruence.
  - apply bind_Some in H as (c & Hi & H). apply bind_Some in H as (k & Hk & H). destruct (phase_of c) as [| | |before| | |] eqn:E; try done.
    assert (Hr : registered s k i c) by by split.
    destruct (change c before) as [new|m] eqn:Ec, failure as [[after e']|]; try done; injection H as <-; (eapply logged_ends; [done|done|done|done|]); exists c; cbn.
    + split; [done|]. right. by exists new.
    + split; [done|]. by exists new.
    + split; [done|]. left. split; [done|]. by eapply lg_editing.
  - apply bind_Some in H as (c & Hi & H). apply bind_Some in H as (k & Hk & H). destruct (phase_of c) as [| | | |r| |] eqn:E; try done. injection H as <-.
    assert (Ho : ∀ qs, logged f (set_call i (moves c (over r)) (s <| queues := qs |>))).
    { intros qs. eapply logged_set; [done|done|done| |by left|done]. unfold has_settled. cbn. by rewrite E. }
    destruct (bool_decide _); [exact (Ho (delete k (queues s)))|exact (Ho (queues s))].
  - apply bind_Some in H as (c & Hi & H). destruct (phase_of c) as [| | | | |r|] eqn:E; try done. destruct (negb _ && _); [|done]. injection H as <-.
    apply (logged_set f s i c _ (queues s) HL Hi); [done| |by left|]; [unfold has_settled; cbn; by rewrite E|]. cbn. by rewrite E.
Qed.
Lemma logged_started f : logged f (started f).
Proof.
  split.
  - by intros k i c b [[=] _].
  - done.
  - intros k. constructor.
  - intros k i. split; [by intros ?%elem_of_nil|by intros (c & [[=] _] & _)].
  - constructor.
Qed.
Lemma queue_logged f s : reachable f s → logged f s.
Proof. induction 1 as [|l s s' Hr IH H]; [apply logged_started|eapply step_logged; [by eapply queue_ok|done|done]]. Qed.

(** ** No key is left behind *)

Definition tidy (s : State) : Prop := ∀ k i c, queues s !! k = Some i → calls s !! i = Some c → is_over c = false.

Lemma tidy_set s i c c' : tidy s → calls s !! i = Some c → is_over c' = is_over c → tidy (set_call i c' s).
Proof. intros H Hi He k j d Hq [[-> ->]|[_ Hj]]%(lookup_set s i c); [rewrite He; by eapply H|by eapply H|done]. Qed.

Lemma step_tidy l s s' : ok s → tidy s → step l s = Some s' → tidy s'.
Proof.
  intros Hok HT H. destruct l as [p u|i answer|i|i|i failure|i|i]; cbn in H.
  - injection H as <-. intros k j d Hq Hj. apply lookup_call_app in Hj as [Hj|[-> ->]]; [by eapply HT|done].
  - apply bind_Some in H as (c & Hi & H). destruct (is_registering c) eqn:Er; [|done]. cbn in H. destruct (forallb _ _); [|done].
    assert (Hov : is_over c = false) by (unfold is_over, is_registering in *; by destruct (phase_of c)).
    destruct answer as [k|e]; injection H as <-.
    + intros k' j d Hq Hj. cbn in Hq. apply (lookup_set _ i c) in Hj as [[-> ->]|[Hne Hj]]; [done| |done].
      destruct (decide (k' = k)) as [->|Hk]; [rewrite lookup_insert_eq in Hq; congruence|rewrite lookup_insert_ne in Hq by done; by eapply HT].
    + intros k' j d Hq Hj. cbn in Hq. apply (lookup_set _ i c) in Hj as [[-> ->]|[Hne Hj]]; [|by eapply HT|done].
      pose proof (ok_queues s Hok k') as Hx. rewrite Hq in Hx. destruct Hx as [[e' [He' Hk']] _]. rewrite Hi in He'. injection He' as <-.
      assert (key c = None) by (apply (ok_key s Hok i c Hi); by left). congruence.
  - apply bind_Some in H as (c & Hi & H). destruct (phase_of c) as [|p| | | | |] eqn:E; try done. destruct (resolved s p); [|done]. injection H as <-.
    eapply tidy_set; [done|done|]. unfold is_over. cbn. by rewrite E.
  - apply bind_Some in H as (c & Hi & H). apply bind_Some in H as (k & Hk & H). destruct (phase_of c) eqn:E; try done. injection H as <-.
    eapply tidy_set; [done|done|]. unfold is_over. cbn. by rewrite E.
  - apply bind_Some in H as (c & Hi & H). apply bind_Some in H as (k & Hk & H). destruct (phase_of c) as [| | |before| | |] eqn:E; try done.
    assert (He : ∀ after r, tidy (ends i c k before after r s)).
    { intros after r. apply (tidy_set s i c (moves c (settled r)) HT Hi). unfold is_over. cbn. by rewrite E. }
    destruct (change c before), failure as [[after e']|]; try done; injection H as <-; apply He.
  - apply bind_Some in H as (c & Hi & H). apply bind_Some in H as (k & Hk & H). destruct (phase_of c) as [| | | |r| |] eqn:E; try done. injection H as <-.
    intros k' j d Hq Hj. assert (Hj' : (j = i ∧ d = moves c (over r)) ∨ (j ≠ i ∧ calls s !! j = Some d)).
    { apply (lookup_set s i c); [done|]. by destruct (bool_decide _). }
    destruct Hj' as [[-> ->]|[Hne Hj']].
    + exfalso. assert (Hq' : queues s !! k' = Some i ∧ (queues s !! k = Some i → k' ≠ k)).
      { destruct (bool_decide _) eqn:Eb; bool_prop; cbn in Hq; [|by split; [|intros ?; congruence]].
        destruct (decide (k' = k)) as [->|Hx]; [by rewrite lookup_delete_eq in Hq|rewrite lookup_delete_ne in Hq by done; done]. }
      destruct Hq' as [Hq1 Hq2]. pose proof (ok_queues s Hok k') as Hx. rewrite Hq1 in Hx. destruct Hx as [[e [He Hke]] _]. rewrite Hi in He. injection He as <-.
      assert (k' = k) as -> by congruence. by apply Hq2.
    + eapply (HT k' j d); [|done]. destruct (bool_decide _); [|done]. cbn in Hq. by apply lookup_delete_Some in Hq as [_ ?].
  - apply bind_Some in H as (c & Hi & H). destruct (phase_of c) as [| | | | |r|] eqn:E; try done. destruct (negb _ && _); [|done]. injection H as <-.
    eapply tidy_set; [done|done|done].
Qed.
Lemma queue_tidy f s : reachable f s → tidy s.
Proof. induction 1 as [|l s s' Hr IH H]; [by intros k i c Hq|eapply step_tidy; [by eapply queue_ok|done|done]]. Qed.

(** ** Every call ends *)

Definition weight (c : Call) : nat :=
  match phase_of c with
  | registering => 6 | queued _ => 5 | running => 4 | editing _ => 3 | settled _ => 2
  | over _ => if chained c then 0 else 1 | refused _ => 0
  end.
Definition work (s : State) : nat := sum_list_with weight (calls s).
Definition is_call (l : label) : bool := match l with calling _ _ => true | _ => false end.

Lemma work_set s i c c' : calls s !! i = Some c → (weight c' < weight c)%nat → (work (set_call i c' s) < work s)%nat.
Proof.
  intros Hi Hw. unfold work. cbn. rewrite insert_take_drop by (by eapply lookup_lt_Some). rewrite <- (take_drop_middle _ _ _ Hi) at 3.
  rewrite !sum_list_with_app. cbn. lia.
Qed.

Lemma step_work l s s' : step l s = Some s' → is_call l = false → (work s' < work s)%nat.
Proof.
  intros H Hl. destruct l as [p u|i answer|i|i|i failure|i|i]; [done|..]; cbn in H; apply bind_Some in H as (c & Hi & H).
  - destruct (is_registering c) eqn:Er; [|done]. cbn in H. destruct (forallb _ _); [|done].
    assert (Hw : weight c = 6%nat) by (unfold weight, is_registering in *; by destruct (phase_of c)).
    destruct answer as [k|e]; injection H as <-; [set (s0 := s <| queues := _ |>); change (work s) with (work s0); apply (work_set s0 i c)|apply (work_set s i c)]; try done; rewrite Hw; cbn; lia.
  - destruct (phase_of c) as [|p| | | | |] eqn:E; try done. destruct (resolved s p); [|done]. injection H as <-.
    apply (work_set _ i c); [done|]. unfold weight. rewrite E. cbn. lia.
  - apply bind_Some in H as (k & Hk & H). destruct (phase_of c) eqn:E; try done. injection H as <-.
    apply (work_set _ i c); [done|]. unfold weight. rewrite E. cbn. lia.
  - apply bind_Some in H as (k & Hk & H). destruct (phase_of c) as [| | |before| | |] eqn:E; try done.
    assert (He : ∀ after r, (work (ends i c k before after r s) < work s)%nat).
    { intros after r. apply (work_set s i c); [done|]. unfold weight. rewrite E. cbn. lia. }
    destruct (change c before), failure as [[after e']|]; try done; injection H as <-; apply He.
  - apply bind_Some in H as (k & Hk & H). destruct (phase_of c) as [| | | |r| |] eqn:E; try done. injection H as <-.
    assert (He : (work (set_call i (moves c (over r)) s) < work s)%nat).
    { apply (work_set s i c); [done|]. unfold weight. rewrite E. cbn. destruct (chained c); lia. }
    by destruct (bool_decide _).
  - destruct (phase_of c) as [| | | | |r|] eqn:E; try done. destruct (negb _ && _) eqn:En; [|done]. injection H as <-. bool_prop.
    apply (work_set s i c); [done|]. unfold weight. cbn. rewrite E, H. lia.
Qed.

(** A promise that all the calls before it have released resolves. *)
Lemma chain_progress s k j d : ok s → registered s k j d → quiet s k (S j) → chained d = true ∨ ∃ l s', is_call l = false ∧ step l s = Some s'.
Proof.
  intros Hok. revert d. induction (lt_wf j) as [j _ IH]. intros d Hr Hq. destruct (chained d) eqn:Ec; [by left|right].
  pose proof Hr as [Hj Hk]. assert (Hover : is_over d = true) by (eapply Hq; [exact Hr|lia]).
  assert (Hph : ∃ r, phase_of d = over r).
  { unfold is_over in Hover. destruct (phase_of d) as [| | | | |r|e] eqn:E; try done; [by exists r|].
    assert (key d = None) by (apply (ok_key s Hok j d Hj); right; by exists e). congruence. }
  destruct Hph as [r Hph]. pose proof (ok_current s Hok k j d Hr) as Hc. destruct (current d) as [m|] eqn:Em.
  - destruct Hc as (Hlt & (e & He) & _). destruct (IH m Hlt e He) as [Hce|?]; [eapply quiet_le; [|exact Hq]; lia| |done].
    eexists (chaining j), _. split; [done|]. cbn. rewrite Hj. cbn. rewrite Hph, Ec, Em. cbn. destruct He as [-> _]. by rewrite Hce.
  - eexists (chaining j), _. split; [done|]. cbn. rewrite Hj. cbn. by rewrite Hph, Ec, Em.
Qed.

Lemma progress s i c : ok s → calls s !! i = Some c → is_over c = false → ∃ l s', is_call l = false ∧ step l s = Some s'.
Proof.
  intros Hok Hi0 Ho0. destruct (list_find (λ c, is_over c = false) (calls s)) as [[i' c']|] eqn:Ef.
  2:{ apply list_find_None in Ef. rewrite Forall_lookup in Ef. by destruct (Ef i c Hi0). }
  apply list_find_Some in Ef as (Hi & Ho & Hmin). clear i c Hi0 Ho0. rename i' into i, c' into c.
  assert (Hpast : ∀ j d, calls s !! j = Some d → (j < i)%nat → is_over d = true).
  { intros j d Hj Hlt. specialize (Hmin j d Hj Hlt). by destruct (is_over d). }
  assert (Hkey : ∀ ph, phase_of c = ph → match ph with registering | refused _ => True | _ => ∃ k, key c = Some k end).
  { intros ph Hp. destruct (key c) as [k|] eqn:Ek; [by destruct ph; try done; exists k|]. apply (ok_key s Hok i c Hi) in Ek as [Ek|[e Ek]].
    - unfold is_registering in Ek. rewrite Hp in Ek. by destruct ph.
    - rewrite Ek in Hp. by rewrite <- Hp. }
  destruct (phase_of c) as [|p| |b|r|r|e] eqn:E; specialize (Hkey _ eq_refl); cbn in Hkey.
  - eexists (keyed i (Err [])), _. split; [done|]. cbn. rewrite Hi. cbn. unfold is_registering at 1. rewrite E. cbn.
    assert (Hb : forallb (λ d, negb (is_registering d)) (take i (calls s)) = true).
    { apply forallb_forall. intros d Hd%list_elem_of_In. apply list_elem_of_lookup in Hd as [j Hj]. apply lookup_take_Some in Hj as [Hj Hlt].
      specialize (Hpast j d Hj Hlt). unfold is_over, is_registering in *. by destruct (phase_of d). }
    by rewrite Hb.
  - destruct Hkey as [k Hk]. assert (Hr : registered s k i c) by by split. assert (Hquiet : quiet s k i) by (intros j d [Hj _]; by apply Hpast).
    assert (Hres : resolved s p = true ∨ ∃ l s', is_call l = false ∧ step l s = Some s').
    { rewrite (ok_queued s Hok i c p Hi E). pose proof (ok_current s Hok k i c Hr) as Hc. destruct (current c) as [j|]; [|by left].
      destruct Hc as (Hlt & (d & Hd) & _). destruct (chain_progress s k j d Hok Hd) as [Hcd|?]; [eapply quiet_le; [|exact Hquiet]; lia| |by right].
      left. cbn. destruct Hd as [-> _]. done. }
    destruct Hres as [Hres|?]; [|done]. eexists (entering i), _. split; [done|]. cbn. rewrite Hi. cbn. by rewrite E, Hres.
  - destruct Hkey as [k Hk]. eexists (reading i), _. split; [done|]. cbn. rewrite Hi. cbn. rewrite Hk. cbn. by rewrite E.
  - destruct Hkey as [k Hk]. destruct (change c b) eqn:Ec; (eexists (writing i None), _; split; [done|]; cbn; rewrite Hi; cbn; rewrite Hk; cbn; by rewrite E, Ec).
  - destruct Hkey as [k Hk]. eexists (releasing i), _. split; [done|]. cbn. rewrite Hi. cbn. rewrite Hk. cbn. by rewrite E.
  - unfold is_over in Ho. by rewrite E in Ho.
  - unfold is_over in Ho. by rewrite E in Ho.
Qed.

(** ** The theorems *)

(** The call works on its file. *)
Definition is_active (c : Call) : bool := match phase_of c with running | editing _ | settled _ => true | _ => false end.

(** C23. The mutations of one file run one after another, in the order of the calls.  Whatever the
    interleaving, at most one call works on a file; the calls that have settled did so in
    the order in which they were made, each saw what the one before it wrote, the first
    what the file held at first, and the last wrote what it holds now: no update is lost.
    What a call wrote is what it makes of what it saw, unless its write failed. *)
Theorem mutations_are_serialized f s k : reachable f s →
  (∀ i j c d, registered s k i c → registered s k j d → is_active c = true → is_active d = true → i = j)
  ∧ serial (f !! k) (history k s) (files s !! k)
  ∧ StronglySorted lt (who <$> history k s)
  ∧ (∀ i, i ∈ who <$> history k s ↔ ∃ c, registered s k i c ∧ has_settled c = true)
  ∧ Forall (effect_ok s) (history k s).
Proof.
  intros Hr. pose proof (queue_ok f s Hr) as Hok. destruct (queue_logged f s Hr) as [E S So W F]. split_and!; [|done..|].
  - intros i j c d Hi Hj Hc Hd. assert (Hx : ∀ c, is_active c = true → has_turn c = true ∧ is_over c = false).
    { intros x. unfold is_active, has_turn, is_over. by destruct (phase_of x). }
    apply Hx in Hc as [? ?], Hd as [? ?]. by eapply (turns_exclude s k i j c d).
  - unfold history. rewrite Forall_forall in F. apply Forall_forall. intros e [_ He]%list_elem_of_filter. by apply F.
Qed.

(** C24. Every mutation ends, when the environment answers and no more calls are made: a state has
    only so many steps before it, a state in which a call is not over has one, and when
    every call is over no key is left in the map. *)
Theorem mutations_end f s : reachable f s →
  (∀ ls s', run ls s = Some s' → Forall (λ l, is_call l = false) ls → (length ls + work s' <= work s)%nat)
  ∧ ((∃ i c, calls s !! i = Some c ∧ is_over c = false) → ∃ l s', is_call l = false ∧ step l s = Some s')
  ∧ (Forall (λ c, is_over c = true) (calls s) → queues s = ∅).
Proof.
  intros Hr. pose proof (queue_ok f s Hr) as Hok. split_and!.
  - intros ls. clear Hr Hok. revert s. induction ls as [|l ls IH]; intros s s'; cbn; [intros [= <-] _; lia|].
    intros (s1 & H1 & H2)%bind_Some [Hl Hls]%Forall_cons. specialize (IH s1 s' H2 Hls). pose proof (step_work l s s1 H1 Hl). lia.
  - intros (i & c & Hi & Ho). by eapply progress.
  - intros Hall. apply map_empty. intros k. destruct (queues s !! k) as [i|] eqn:Eq; [|done]. pose proof (ok_queues s Hok k) as H. rewrite Eq in H.
    destruct H as [[c [Hc _]] _]. pose proof (queue_tidy f s Hr k i c Eq Hc) as Ht. rewrite Forall_lookup in Hall. specialize (Hall i c Hc). cbn in Hall. congruence.
Qed.

(** ** Samples *)

(** A call that appends to its file. *)
Definition append (t : jsstr) : update := λ c, Ok (default [] c ++ t).
Definition one_call (i : nat) : list label := [entering i; reading i; writing i None; releasing i; chaining i].
(** Two calls by two names of one file, and one of another file that runs in between. *)
Definition three_calls : list label :=
  [calling (js "a") (append (js "1")); calling (js "./a") (append (js "2")); calling (js "b") (append (js "3"));
   keyed 0 (Ok (js "a")); keyed 1 (Ok (js "a")); entering 0; keyed 2 (Ok (js "b")); reading 0; entering 2; reading 2; writing 0 None;
   writing 2 None; releasing 0; chaining 0] ++ one_call 1 ++ [releasing 2; chaining 2].
Definition final (ls : list label) : State := default (started ∅) (run ls (started ∅)).

Example three_calls_end : (λ k, files (final three_calls) !! k) <$> [js "a"; js "b"] = [Some (js "12"); Some (js "3")] ∧ queues (final three_calls) = ∅.
Proof. vm_compute. split; reflexivity. Qed.
(** The second call does not run while the first does. *)
Example second_waits : run [calling (js "a") (append []); calling (js "a") (append []); keyed 0 (Ok (js "a")); keyed 1 (Ok (js "a")); entering 0; entering 1] (started ∅) = None.
Proof. vm_compute. reflexivity. Qed.

Lemma mutations_are_serialized_witness :
  reachable ∅ (final three_calls) ∧ serial None (history (js "a") (final three_calls)) (Some (js "12")).
Proof.
  assert (Hr : reachable ∅ (final three_calls)) by (apply (reachable_run ∅ three_calls (started ∅)); [apply reach_start|vm_compute; reflexivity]).
  split; [exact Hr|].
  assert (Hf : files (final three_calls) !! js "a" = Some (js "12")) by (vm_compute; reflexivity).
  destruct (mutations_are_serialized ∅ (final three_calls) (js "a") Hr) as (_ & H & _). rewrite lookup_empty, Hf in H. exact H.
Defined.
Lemma mutations_end_witness : reachable ∅ (final three_calls) ∧ queues (final three_calls) = ∅.
Proof.
  assert (Hr : reachable ∅ (final three_calls)) by (apply (reachable_run ∅ three_calls (started ∅)); [apply reach_start|vm_compute; reflexivity]).
  split; [exact Hr|]. destruct (mutations_end ∅ (final three_calls) Hr) as (_ & _ & H). apply H.
  assert (E : forallb is_over (calls (final three_calls)) = true) by (vm_compute; reflexivity).
  rewrite forallb_forall in E. apply Forall_forall. intros c Hc. apply E, list_elem_of_In, Hc.
Defined.

End FileQueue.
