(* ===== verification/FileTools.v ===== *)
(** * The file tools

    Models [generateDiffString] of [agent/src/harness/tools/edit-diff.ts] and the handlers of
    [edit.ts], [write.ts] and, for texts, [read.ts].

    What a handler asks of its environment is an argument: the answers of the file system and
    the state of the abort signal at each check.  The package [diff] is a parameter.  The
    part of the edit and write tools in the file mutation queue is what their calls do when
    their turn has come (see [FileQueue]). *)
From S2P Require Import Prelude JsString Truncate EditDiff EditProps FileQueue.

Module FileTools.
Import Truncate EditDiff EditProps.

(** ** The difference that is shown *)

Record Part := mkPart { value : jsstr; added : bool; removed : bool }.

(** A line of the output: a sign, a number and a line, or the dots of a gap. *)
Inductive sign := plus | minus | same.
Inductive shown := line_shown (s : sign) (number : Z) (line : jsstr) | gap_shown.

Definition sign_char (s : sign) : jsstr := match s with plus => js "+" | minus => js "-" | same => js " " end.
(** [s.padStart(width, " ")] *)
Definition padStart (width : Z) (s : jsstr) : jsstr := replicate (Z.to_nat (width - zlen s)) 32 ++ s.
Definition render (width : Z) (e : shown) : jsstr :=
  match e with
  | line_shown s number line => sign_char s ++ padStart width (num_str number) ++ js " " ++ line
  | gap_shown => js " " ++ padStart width [] ++ js " ..."
  end.

(** [part.value.split("\n")] without an empty last piece. *)
Definition raw_lines (v : jsstr) : list jsstr :=
  let raw := split_lines v in if bool_decide (last raw = Some []) then removelast raw else raw.

Record Display := mkDisplay {
  oldLineNum : Z; newLineNum : Z; lastWasChange : bool; firstChangedLine : option Z; output : list shown }.
#[export] Instance display_rebuild : Rebuild Display := λ d,
  mkDisplay (oldLineNum d) (newLineNum d) (lastWasChange d) (firstChangedLine d) (output d).

Definition show_added (d : Display) (line : jsstr) : Display :=
  d <| output := output d ++ [line_shown plus (newLineNum d) line] |> <| newLineNum := newLineNum d + 1 |>.
Definition show_removed (d : Display) (line : jsstr) : Display :=
  d <| output := output d ++ [line_shown minus (oldLineNum d) line] |> <| oldLineNum := oldLineNum d + 1 |>.
Definition show_same (d : Display) (line : jsstr) : Display :=
  d <| output := output d ++ [line_shown same (oldLineNum d) line] |> <| oldLineNum := oldLineNum d + 1 |> <| newLineNum := newLineNum d + 1 |>.
Definition skip (n : nat) (d : Display) : Display :=
  d <| oldLineNum := oldLineNum d + Z.of_nat n |> <| newLineNum := newLineNum d + Z.of_nat n |>.
(** The dots and the lines they stand for. *)
Definition skip_shown (n : nat) (d : Display) : Display := skip n (d <| output := output d ++ [gap_shown] |>).
Definition is_change (p : Part) : bool := added p || removed p.

Definition show_change (p : Part) (d : Display) : Display :=
  let d := match firstChangedLine d with None => d <| firstChangedLine := Some (newLineNum d) |> | Some _ => d end in
  foldl (if added p then show_added else show_removed) d (raw_lines (value p)) <| lastWasChange := true |>.

Definition show_context (contextLines : nat) (p : Part) (next : option Part) (d : Display) : Display :=
  let raw := raw_lines (value p) in
  let n := length raw in
  let nextPartIsChange := match next with Some q => is_change q | None => false end in
  let d :=
    if lastWasChange d && nextPartIsChange then
      if (n <=? contextLines * 2)%nat then foldl show_same d raw
      else
        let leadingLines := take contextLines raw in
        let trailingLines := drop (n - contextLines) raw in
        let skippedLines := (n - length leadingLines - length trailingLines)%nat in
        foldl show_same (skip_shown skippedLines (foldl show_same d leadingLines)) trailingLines
    else if lastWasChange d then
      let shownLines := take contextLines raw in
      let skippedLines := (n - length shownLines)%nat in
      let d := foldl show_same d shownLines in
      if (0 <? skippedLines)%nat then skip_shown skippedLines d else d
    else if nextPartIsChange then
      let skippedLines := (n - contextLines)%nat in
      let d := if (0 <? skippedLines)%nat then skip_shown skippedLines d else d in
      foldl show_same d (drop skippedLines raw)
    else skip n d in
  d <| lastWasChange := false |>.

Fixpoint show_parts (contextLines : nat) (parts : list Part) (d : Display) : Display :=
  match parts with
  | [] => d
  | p :: parts => show_parts contextLines parts (if is_change p then show_change p d else show_context contextLines p (head parts) d)
  end.

Definition display_start : Display := mkDisplay 1 1 false None [].

Section Diff.
Context (diffLines : jsstr → jsstr → list Part).

Definition display (oldContent newContent : jsstr) (contextLines : nat) : Display :=
  show_parts contextLines (diffLines oldContent newContent) display_start.
Definition generateDiffString (oldContent newContent : jsstr) (contextLines : nat) : jsstr * option Z :=
  let maxLineNum := Z.max (zlen (split_lines oldContent)) (zlen (split_lines newContent)) in
  let lineNumWidth := zlen (num_str maxLineNum) in
  let d := display oldContent newContent contextLines in
  (join [10] (render lineNumWidth <$> output d), firstChangedLine d).

(** ** The environment *)

Inductive FileKind := kind_file | kind_directory | kind_symlink.
Inductive FileErrorCode :=
| file_aborted | not_found | permission_denied | not_directory | is_directory | invalid | not_supported | unknown.
Definition code_text (c : FileErrorCode) : jsstr :=
  js match c with
     | file_aborted => "aborted" | not_found => "not_found" | permission_denied => "permission_denied" | not_directory => "not_directory"
     | is_directory => "is_directory" | invalid => "invalid" | not_supported => "not_supported" | unknown => "unknown"
     end.
Record FileError := mkFileError { code : FileErrorCode; error_message : jsstr }.
Definition ABORTED : jsstr := js "Operation aborted".

(** [getOrThrow]: the message of the error that is thrown. *)
Definition getOrThrow {A} (r : result FileError A) : result jsstr A := match r with Ok a => Ok a | Err e => Err (error_message e) end.
Definition unless_aborted (aborted : bool) : result jsstr () := guard_err aborted ABORTED.

(** ** Paths *)

Definition is_unicode_space (u : Z) : bool := (u =? 0xA0) || ((0x2000 <=? u) && (u <=? 0x200A)) || (u =? 0x202F) || (u =? 0x205F) || (u =? 0x3000).
Definition NARROW_NO_BREAK_SPACE : Z := 0x202F.

Definition normalizeToolPath (path : jsstr) : jsstr :=
  let normalized := (λ u, if is_unicode_space u then 32 else u) <$> path in
  match normalized with u :: rest => if u =? 64 then rest else normalized | [] => normalized end.

Section Paths.
(** The file system: the absolute path of a path, and whether a path exists; and [normalize("NFD")]. *)
Context (absolutePath : jsstr → result FileError jsstr) (exists_ : jsstr → result FileError bool) (nfd : jsstr → jsstr).

Definition resolveToolPath (path : jsstr) : result jsstr jsstr := getOrThrow (absolutePath (normalizeToolPath path)).

(** [s.replace(/ (AM|PM)\./gi, "\u202F$1.")] *)
Definition is_letter (upper u : Z) : bool := (u =? upper) || (u =? upper + 32).
Fixpoint narrow_times (s : jsstr) : jsstr :=
  match s with
  | u :: ((v :: m :: d :: rest) as s') =>
      if (u =? 32) && (is_letter 65 v || is_letter 80 v) && is_letter 77 m && (d =? 46) then NARROW_NO_BREAK_SPACE :: v :: m :: d :: narrow_times rest
      else u :: narrow_times s'
  | u :: s' => u :: narrow_times s'
  | [] => []
  end.
(** [s.replace(/'/g, "\u2019")] *)
Definition curly_quotes (s : jsstr) : jsstr := (λ u, if u =? 39 then 0x2019 else u) <$> s.

(** [new Set(l)], whose members come in the order of their first occurrence. *)
Fixpoint members (seen l : list jsstr) : list jsstr :=
  match l with [] => [] | x :: l => if bool_decide (x ∈ seen) then members seen l else x :: members (x :: seen) l end.
Definition path_variants (resolved : jsstr) : list jsstr :=
  members [] [resolved; narrow_times resolved; nfd resolved; curly_quotes resolved; curly_quotes (nfd resolved)].

Fixpoint first_existing (variants : list jsstr) (resolved : jsstr) : result jsstr jsstr :=
  match variants with
  | [] => Ok resolved
  | v :: variants => let* there := getOrThrow (exists_ v) in if there then Ok v else first_existing variants resolved
  end.
Definition resolveReadToolPath (path : jsstr) : result jsstr jsstr :=
  let* resolved := resolveToolPath path in first_existing (path_variants resolved) resolved.

Lemma members_spec seen l x : x ∈ members seen l ↔ x ∈ l ∧ x ∉ seen.
Proof. revert seen. induction l as [|y l IH]; intros seen; cbn [members]; [set_solver|]. destruct (decide (x = y)) as [->|]; case_bool_decide; rewrite ?elem_of_cons, IH; set_solver. Qed.

(** A file is read under its own path if it exists there; else under a variant that exists. *)
Lemma read_path_exists path v : resolveReadToolPath path = Ok v → ∃ resolved, resolveToolPath path = Ok resolved
  ∧ v ∈ path_variants resolved
  ∧ (exists_ resolved = Ok true → v = resolved)
  ∧ (exists_ v = Ok true ∨ (v = resolved ∧ ∀ w, w ∈ path_variants resolved → exists_ w = Ok false)).
Proof.
  unfold resolveReadToolPath. intros (resolved & Hp & H)%rbind_Ok. exists resolved. split; [done|].
  assert (E : ∃ l, path_variants resolved = resolved :: l) by (unfold path_variants; cbn [members]; rewrite bool_decide_eq_false_2 by set_solver; by eexists).
  split_and!.
  - assert (G : ∀ l, first_existing l resolved = Ok v → v ∈ l ∨ v = resolved).
    { induction l as [|w l IH]; cbn [first_existing]; [intros [= ->]; by right|]. intros (b & _ & Hb)%rbind_Ok. destruct b; [injection Hb as ->; set_solver|].
      destruct (IH Hb); set_solver. }
    destruct (G _ H) as [?| ->]; [done|]. destruct E as [l ->]. set_solver.
  - intros Ht. destruct E as [l E]. rewrite E in H. cbn [first_existing] in H. rewrite Ht in H. by injection H as <-.
  - clear E. revert H. generalize (path_variants resolved) as l. induction l as [|w l IH]; cbn [first_existing].
    + intros [= ->]. right. split; [done|]. set_solver.
    + intros (b & Hb & H)%rbind_Ok. destruct (exists_ w) as [[]|] eqn:Ew; try done; injection Hb as <-; [injection H as <-; by left|].
      destruct (IH H) as [?|[-> Hall]]; [by left|right]. split; [done|]. intros x [->|Hx]%elem_of_cons; [done|by apply Hall].
Qed.
End Paths.

(** ** The edit tool *)

Definition editAccessError (path : jsstr) (e : FileError) : jsstr := js "Could not edit file: " ++ path ++ js ". Error code: " ++ code_text (code e) ++ js ".".
Definition or_access_error {A} (path : jsstr) (r : result FileError A) : result jsstr A := match r with Ok a => Ok a | Err e => Err (editAccessError path e) end.

Definition validateEditInput (edits : option (list Edit)) : result jsstr (list Edit) :=
  match edits with
  | Some (e :: es) => Ok (e :: es)
  | _ => Err (js "Edit tool input is invalid. edits must contain at least one replacement.")
  end.

(** Before the queue: the edits, and the absolute path of the file. *)
Definition edit_before_queue (edits : option (list Edit)) (absolutePath : result FileError jsstr) : result jsstr (jsstr * list Edit) :=
  let* edits := validateEditInput edits in
  let* absolutePath := getOrThrow absolutePath in
  Ok (absolutePath, edits).

Section Edit.
Context (nfkc : jsstr → jsstr) (createPatch : jsstr → jsstr → jsstr → jsstr).

(** What the tool makes of a text: the text it writes, and the contents it compares. *)
Definition edit_text (path text : jsstr) (edits : list Edit) : result jsstr (jsstr * AppliedEditsResult) :=
  let '(bom, content) := stripBom text in
  let originalEnding := detectLineEnding content in
  let normalizedContent := normalizeToLF content in
  let* applied := applyEditsToNormalizedContent nfkc normalizedContent edits path in
  Ok (bom ++ restoreLineEndings (newContent applied) originalEnding, applied).

(** The answers to the tool in its turn. *)
Record EditAnswers := mkAnswers {
  aborted_at_first : bool; info : result FileError FileKind; text : result FileError jsstr; aborted_after_read : bool;
  aborted_after_edit : bool; write : result FileError (); aborted_after_write : bool }.

Record EditToolOutput := mkOutput { said : jsstr; diff : jsstr; patch : jsstr; first_changed : option Z }.

(** The text that is written, if any, and the answer of the tool. *)
Definition edit_in_turn (path : jsstr) (edits : list Edit) (a : EditAnswers) : option jsstr * result jsstr EditToolOutput :=
  match
    let* _ := unless_aborted (aborted_at_first a) in
    let* kind := or_access_error path (info a) in
    let* _ := guard_err (match kind with kind_directory => true | _ => false end) (js "Could not edit file: " ++ path ++ js ". Path is not a file.") in
    let* t := or_access_error path (text a) in
    let* _ := unless_aborted (aborted_after_read a) in
    let* edited := edit_text path t edits in
    let* _ := unless_aborted (aborted_after_edit a) in
    Ok edited
  with
  | Err e => (None, Err e)
  | Ok (finalContent, applied) =>
      (Some finalContent,
       let* _ := or_access_error path (write a) in
       let* _ := unless_aborted (aborted_after_write a) in
       let '(d, first) := generateDiffString (baseContent applied) (newContent applied) 4 in
       Ok (mkOutput (js "Successfully replaced " ++ num_str (zlen edits) ++ js " block(s) in " ++ path ++ js ".")
             d (createPatch path (baseContent applied) (newContent applied)) first))
  end.

(** What the tool makes of its file in the file mutation queue, unless it is aborted. *)
Definition edit_update (path : jsstr) (edits : list Edit) : FileQueue.update := λ c,
  match c with
  | Some t => let* edited := edit_text path t edits in Ok edited.1
  | None => Err (editAccessError path (mkFileError not_found []))
  end.
(** The answers about a file that a file system gives, with nobody aborting. *)
Definition plain_answers (c : FileQueue.content) (write : result FileError ()) : EditAnswers :=
  let missing := mkFileError not_found [] in
  mkAnswers false (match c with Some _ => Ok kind_file | None => Err missing end) (match c with Some t => Ok t | None => Err missing end) false false write false.
End Edit.

(** ** The write tool *)

Definition write_in_turn (path content : jsstr) (aborted : bool) (written : result FileError ()) (aborted_after : bool) : option jsstr * result jsstr jsstr :=
  if aborted then (None, Err ABORTED)
  else
    (Some content,
     let* _ := getOrThrow written in
     let* _ := unless_aborted aborted_after in
     Ok (js "Successfully wrote to " ++ path)).

End Diff.

(** ** The read tool, for texts *)

Section Read.
Context (runtimeBuffer : option (jsstr → Z)).

(** [l.slice(a, b)] for [a >= 0]; a negative [b] counts from the end. *)
Definition slice_list {A} (a b : Z) (l : list A) : list A :=
  let b := if b <? 0 then Z.max 0 (zlen l + b) else b in drop (Z.to_nat a) (take (Z.to_nat b) l).

(** The content that is shown, the notice after it, the offset it names to continue, and the
    details. *)
Record Page := mkPage { shown_text : jsstr; notice : jsstr; nextOffset : option Z; details : option TruncationResult }.

Definition size_text : jsstr := formatSize DEFAULT_MAX_BYTES.
Definition line_notice (startLineDisplay : Z) (path line : jsstr) : jsstr :=
  js "[Line " ++ num_str startLineDisplay ++ js " is " ++ formatSize (size line) ++ js ", exceeds " ++ size_text ++ js " limit. Use bash: sed -n '"
  ++ num_str startLineDisplay ++ js "p' " ++ path ++ js " | head -c " ++ num_str DEFAULT_MAX_BYTES ++ js "]".
Definition showing (startLineDisplay endLineDisplay total : Z) (why : jsstr) (next : Z) : jsstr :=
  [10; 10] ++ js "[Showing lines " ++ num_str startLineDisplay ++ js "-" ++ num_str endLineDisplay ++ js " of " ++ num_str total ++ why
  ++ js ". Use offset=" ++ num_str next ++ js " to continue.]".
Definition more_lines (remaining next : Z) : jsstr :=
  [10; 10] ++ js "[" ++ num_str remaining ++ js " more lines in file. Use offset=" ++ num_str next ++ js " to continue.]".

Definition read_page (path textContent : jsstr) (offset limit : option Z) : result jsstr Page :=
  let allLines := split_lines textContent in
  let totalFileLines := zlen allLines in
  let startLine := match offset with Some o => if o =? 0 then 0 else Z.max 0 (o - 1) | None => 0 end in
  let startLineDisplay := startLine + 1 in
  if zlen allLines <=? startLine then
    Err (js "Offset " ++ num_str (default 0 offset) ++ js " is beyond end of file (" ++ num_str (zlen allLines) ++ js " lines total)")
  else
    let '(selectedContent, userLimitedLines) :=
      match limit with
      | Some limit =>
          let endLine := Z.min (startLine + limit) (zlen allLines) in
          (join [10] (slice_list startLine endLine allLines), Some (endLine - startLine))
      | None => (join [10] (drop (Z.to_nat startLine) allLines), None)
      end in
    match truncateHead runtimeBuffer selectedContent (mkOptions None None) with
    | None => Err type_error
    | Some truncation =>
        if firstLineExceedsLimit truncation then
          Ok (mkPage [] (line_notice startLineDisplay path (default [] (allLines !! Z.to_nat startLine))) None (Some truncation))
        else if truncated truncation then
          let endLineDisplay := startLineDisplay + outputLines truncation - 1 in
          let next := endLineDisplay + 1 in
          let why := match truncatedBy truncation with Some by_lines => [] | _ => js " (" ++ size_text ++ js " limit)" end in
          Ok (mkPage (content truncation) (showing startLineDisplay endLineDisplay totalFileLines why next) (Some next) (Some truncation))
        else
          match userLimitedLines with
          | Some n =>
              if startLine + n <? zlen allLines then
                Ok (mkPage (content truncation) (more_lines (zlen allLines - (startLine + n)) (startLine + n + 1)) (Some (startLine + n + 1)) None)
              else Ok (mkPage (content truncation) [] None None)
          | None => Ok (mkPage (content truncation) [] None None)
          end
    end.

(** The text of the answer. *)
Definition outputText (p : Page) : jsstr := shown_text p ++ notice p.

(** A reader that goes on from the offset that each notice names until none is named: what the
    theorems compare with the file, not code of the source. *)
Fixpoint read_on (fuel : nat) (path textContent : jsstr) (offset : option Z) : option (list jsstr) :=
  match fuel with
  | O => None
  | S fuel =>
      match read_page path textContent offset None with
      | Err _ => None
      | Ok p => match nextOffset p with None => Some [shown_text p] | Some n => cons (shown_text p) <$> read_on fuel path textContent (Some n) end
      end
  end.
End Read.

(** ** Lines with their ends *)

(** Lines of a text: all but the last end in a line break. *)
Fixpoint lined (toks : list jsstr) : Prop :=
  match toks with
  | [] => True
  | [x] => ∃ l, 10 ∉ l ∧ (x = ended l ∨ (x = l ∧ l ≠ []))
  | x :: toks => (∃ l, 10 ∉ l ∧ x = ended l) ∧ lined toks
  end.
(** A line without its end. *)
Definition strip (x : jsstr) : jsstr := if ends_line x then removelast x else x.

Lemma strip_ended l : strip (ended l) = l.
Proof. unfold strip, ended. by rewrite ends_line_snoc, removelast_last. Qed.
Lemma strip_rest l : 10 ∉ l → strip l = l.
Proof.
  intros H. unfold strip. destruct l as [|u l] using rev_ind; [done|]. pose proof (ends_line_app [] (l ++ [u])) as E. cbn [app] in E.
  rewrite E; [done|by destruct l|done].
Qed.
Lemma lined_cons x toks : lined (x :: toks) → (∃ l, 10 ∉ l ∧ (x = ended l ∨ (x = l ∧ l ≠ [] ∧ toks = []))) ∧ lined toks.
Proof.
  destruct toks as [|y toks]; cbn [lined].
  - intros (l & Hl & [->|[-> Hn]]); (split; [exists l; split; [done|]|done]); [by left|by right].
  - intros [(l & Hl & ->) H]. split; [exists l; split; [done|by left]|exact H].
Qed.
Lemma lined_app a b : lined (a ++ b) → lined a ∧ lined b.
Proof.
  induction a as [|x a IH]; [done|]. cbn [app]. intros [(l & Hl & Hx) H]%lined_cons. destruct (IH H) as [Ha Hb]. split; [|done].
  destruct a as [|y a]; [exists l; split; [done|naive_solver]|]. split; [|done]. exists l. split; [done|]. destruct Hx as [?|(_ & _ & [=])]. done.
Qed.
Lemma lined_splitLines s : lined (splitLinesWithEndings s).
Proof.
  unfold splitLinesWithEndings. destruct (split_lines_spec s) as (ls & t & -> & Hl & Ht). rewrite split_lines_written, rev_unit, rev_involutive by done.
  induction Hl as [|l ls Hl _ IH].
  - case_bool_decide; [done|]. exists t. split; [done|by right].
  - cbn [fmap list_fmap app]. destruct ((ended <$> ls) ++ _) as [|y toks] eqn:E; [exists l; by auto|]. split; [by exists l|exact IH].
Qed.

(** The lines of a block of lines. *)
Lemma raw_lines_concat toks : lined toks → raw_lines (concat toks) = strip <$> toks.
Proof.
  intros H. assert (E : split_lines (concat toks) = (strip <$> toks) ++ [[]] ∨ (toks ≠ [] ∧ split_lines (concat toks) = strip <$> toks ∧ last (strip <$> toks) ≠ Some [])).
  { induction toks as [|x toks IH]; [by left|]. apply lined_cons in H as [(l & Hl & Hx) H]. destruct Hx as [->|(-> & Hn & ->)].
    - assert (E1 : split_lines (ended l ++ concat toks) = l :: split_lines (concat toks)).
      { unfold ended. rewrite <- app_assoc. by apply split_lines_cons. }
      cbn [concat fmap list_fmap]. rewrite strip_ended, E1.
      destruct (IH H) as [->|(Hne & -> & Hlast)]; [by left|right]. split_and!; [done|done|]. destruct toks; [done|]. exact Hlast.
    - right. cbn. rewrite app_nil_r, split_lines_last, strip_rest by done. split_and!; [done|done|]. by intros [= ->]. }
  unfold raw_lines. destruct E as [->|(_ & -> & Hl)]; [|by rewrite bool_decide_eq_false_2].
  by rewrite last_snoc, bool_decide_eq_true_2, removelast_last.
Qed.

(** ** The numbers of the lines that are shown *)

Section Numbers.
(** The lines of the two texts, without their ends. *)
Context (old new : list jsstr).

Definition at_number (ls : list jsstr) (n : Z) (line : jsstr) : Prop := 1 <= n ∧ ls !! Z.to_nat (n - 1) = Some line.
Definition numbered (e : shown) : Prop :=
  match e with
  | line_shown plus n line => at_number new n line
  | line_shown _ n line => at_number old n line
  | gap_shown => True
  end.

(** [o] lines of the old text and [n] of the new one are behind. *)
Definition reached (d : Display) (o n : nat) : Prop :=
  oldLineNum d = Z.of_nat o + 1 ∧ newLineNum d = Z.of_nat n + 1 ∧ Forall numbered (output d).

Lemma at_number_of (ls : list jsstr) a line b i : ls = a ++ line :: b → i = Z.of_nat (length a) + 1 → at_number ls i line.
Proof. intros -> ->. split; [lia|]. replace (Z.to_nat _) with (length a) by lia. by apply list_lookup_middle. Qed.

Lemma reached_added d o a raw b : new = a ++ raw ++ b → reached d o (length a) → reached (foldl show_added d raw) o (length (a ++ raw)).
Proof.
  revert d a. induction raw as [|x raw IH]; intros d a E Hd; cbn [foldl]; [by rewrite app_nil_r|].
  replace (a ++ x :: raw) with ((a ++ [x]) ++ raw) by (by rewrite <- app_assoc). apply IH; [by rewrite <- app_assoc|].
  destruct Hd as (H1 & H2 & H3). split_and!; cbn; [done|rewrite length_app; cbn; lia|]. apply Forall_app. split; [done|]. constructor; [|done].
  cbn. by eapply at_number_of.
Qed.
Lemma reached_removed d a n raw b : old = a ++ raw ++ b → reached d (length a) n → reached (foldl show_removed d raw) (length (a ++ raw)) n.
Proof.
  revert d a. induction raw as [|x raw IH]; intros d a E Hd; cbn [foldl]; [by rewrite app_nil_r|].
  replace (a ++ x :: raw) with ((a ++ [x]) ++ raw) by (by rewrite <- app_assoc). apply IH; [by rewrite <- app_assoc|].
  destruct Hd as (H1 & H2 & H3). split_and!; cbn; [rewrite length_app; cbn; lia|done|]. apply Forall_app. split; [done|]. constructor; [|done].
  cbn. by eapply at_number_of.
Qed.
Lemma reached_same d a n raw b : old = a ++ raw ++ b → reached d (length a) n → reached (foldl show_same d raw) (length (a ++ raw)) (n + length raw).
Proof.
  revert d a n. induction raw as [|x raw IH]; intros d a n E Hd; cbn [foldl]; [by rewrite app_nil_r, Nat.add_0_r|].
  replace (a ++ x :: raw) with ((a ++ [x]) ++ raw) by (by rewrite <- app_assoc). cbn [length]. replace (n + S (length raw))%nat with ((n + 1) + length raw)%nat by lia.
  apply IH; [by rewrite <- app_assoc|].
  destruct Hd as (H1 & H2 & H3). split_and!; cbn; [rewrite length_app; cbn; lia|lia|]. apply Forall_app. split; [done|]. constructor; [|done].
  cbn. by eapply at_number_of.
Qed.
Lemma reached_skip d o n k : reached d o n → reached (skip k d) (o + k) (n + k).
Proof. intros (H1 & H2 & H3). split_and!; cbn; [lia|lia|done]. Qed.
Lemma reached_skip_shown d o n k : reached d o n → reached (skip_shown k d) (o + k) (n + k).
Proof. intros (H1 & H2 & H3). split_and!; cbn; [lia|lia|]. apply Forall_app. split; [done|by constructor]. Qed.

Lemma reached_eq d o n o' n' : o' = o → n' = n → reached d o n → reached d o' n'.
Proof. by intros -> ->. Qed.
Lemma reached_flags d o n b : reached d o n → reached (d <| lastWasChange := b |>) o n.
Proof. done. Qed.

(** A context passes its lines in both texts, whether they are shown or not. *)
Lemma reached_context ctx p next d a n raw b : raw_lines (value p) = raw → old = a ++ raw ++ b → reached d (length a) n →
  reached (show_context ctx p next d) (length (a ++ raw)) (n + length raw).
Proof.
  intros Hraw E Hd. unfold show_context. rewrite Hraw. apply reached_flags. rewrite length_app.
  assert (Hall : ∀ d x y z k, raw = x ++ y ++ z → reached d (length a + length x) k → reached (foldl show_same d y) (length a + length x + length y) (k + length y)).
  { intros d' x y z k Hr Hk. rewrite <- length_app in Hk |- *. rewrite <- length_app. eapply (reached_same d' (a ++ x) k y (z ++ b)); [|done].
    by rewrite E, Hr, <- !app_assoc. }
  destruct (lastWasChange d && _).
  - destruct (_ <=? _)%nat eqn:El.
    + pose proof (Hall d [] raw [] n) as H. cbn [length app] in H. rewrite app_nil_r, Nat.add_0_r in H. by apply H.
    + apply Nat.leb_gt in El. set (m := (length raw - length (take ctx raw) - length (drop (length raw - ctx) raw))%nat).
      pose proof (Hall d [] (take ctx raw) (drop ctx raw) n) as H1. cbn [length app] in H1. rewrite take_drop, Nat.add_0_r in H1. specialize (H1 eq_refl Hd).
      apply (reached_skip_shown _ _ _ m) in H1.
      pose proof (Hall (skip_shown m (foldl show_same d (take ctx raw))) (take (length raw - ctx) raw) (drop (length raw - ctx) raw) [] (n + length (take ctx raw) + m)%nat) as H2.
      rewrite app_nil_r, take_drop in H2. specialize (H2 eq_refl).
      assert (Hx : (length a + length (take ctx raw) + m = length a + length (take (length raw - ctx) raw))%nat).
      { unfold m. rewrite !length_take, !length_drop. lia. }
      rewrite Hx in H1. specialize (H2 H1). eapply reached_eq; [| |exact H2]; unfold m; rewrite ?length_take, ?length_drop; lia.
  - destruct (lastWasChange d).
    + pose proof (Hall d [] (take ctx raw) (drop ctx raw) n) as H1. cbn [length app] in H1. rewrite take_drop, Nat.add_0_r in H1. specialize (H1 eq_refl Hd).
      destruct (0 <? _)%nat eqn:Ez.
      * apply (reached_skip_shown _ _ _ (length raw - length (take ctx raw))) in H1.
        eapply reached_eq; [| |exact H1]; rewrite ?length_take; lia.
      * apply Nat.ltb_ge in Ez. eapply reached_eq; [| |exact H1]; rewrite ?length_take in *; lia.
    + destruct (match next with Some q => _ | None => _ end); [|by apply reached_skip].
      set (k := (length raw - ctx)%nat). set (d' := if (0 <? k)%nat then skip_shown k d else d).
      assert (Hd' : reached d' (length a + k) (n + k)).
      { unfold d'. destruct (0 <? k)%nat eqn:Ez; [by apply reached_skip_shown|]. apply Nat.ltb_ge in Ez. by replace k with 0%nat by lia; rewrite !Nat.add_0_r. }
      pose proof (Hall d' (take k raw) (drop k raw) [] (n + k)%nat) as H2. rewrite app_nil_r, take_drop in H2. specialize (H2 eq_refl).
      rewrite length_take, length_drop in H2. replace (length a + k `min` length raw)%nat with (length a + k)%nat in H2 by lia. specialize (H2 Hd').
      eapply reached_eq; [| |exact H2]; rewrite ?length_drop; lia.
Qed.

End Numbers.
(** What the package [diff] documents of [diffLines]: its parts are lines of the two texts, in order;
    the old text is made of the parts that are not added, the new one of those that are not
    removed. *)
Definition old_lines (x : Part * list jsstr) : list jsstr := if added x.1 then [] else x.2.
Definition new_lines (x : Part * list jsstr) : list jsstr := if removed x.1 then [] else x.2.
Definition partitions (parts : list Part) (old new : jsstr) : Prop :=
  ∃ l : list (Part * list jsstr), l.*1 = parts ∧ Forall (λ x, value x.1 = concat x.2 ∧ added x.1 && removed x.1 = false) l
    ∧ concat (old_lines <$> l) = splitLinesWithEndings old ∧ concat (new_lines <$> l) = splitLinesWithEndings new.

(** The line at which the texts that are behind differ first. *)
Definition differ_at (first : option Z) (old new : list jsstr) : Prop :=
  match first with
  | None => old = new
  | Some n => ∃ common o k, old = common ++ o ∧ new = common ++ k ∧ n = zlen common + 1
  end.

Lemma fold_first (f : Display → jsstr → Display) d raw : (∀ d x, firstChangedLine (f d x) = firstChangedLine d) → firstChangedLine (foldl f d raw) = firstChangedLine d.
Proof. intros H. revert d. induction raw as [|x raw IH]; intros d; cbn [foldl]; [done|by rewrite IH, H]. Qed.
Lemma first_change_kept p d : firstChangedLine (show_change p d) = match firstChangedLine d with None => Some (newLineNum d) | x => x end.
Proof.
  unfold show_change. cbn. rewrite fold_first by (intros; by destruct (added p)). by destruct (firstChangedLine d) eqn:E.
Qed.
Lemma same_first d raw : firstChangedLine (foldl show_same d raw) = firstChangedLine d.
Proof. by apply fold_first. Qed.
Lemma context_first ctx p next d : firstChangedLine (show_context ctx p next d) = firstChangedLine d.
Proof.
  unfold show_context. cbn. repeat case_match; rewrite ?same_first; cbn; rewrite ?same_first; done.
Qed.

Lemma show_parts_ok ctx (ot nt : list jsstr) l bo bn d : lined ot → lined nt →
  Forall (λ x, value x.1 = concat x.2 ∧ added x.1 && removed x.1 = false) l →
  ot = bo ++ concat (old_lines <$> l) → nt = bn ++ concat (new_lines <$> l) →
  reached (strip <$> ot) (strip <$> nt) d (length bo) (length bn) → differ_at (firstChangedLine d) bo bn →
  let d' := show_parts ctx (l.*1) d in Forall (numbered (strip <$> ot) (strip <$> nt)) (output d') ∧ differ_at (firstChangedLine d') ot nt.
Proof.
  intros Hlo Hln. revert bo bn d. induction l as [|[p t] l IH]; intros bo bn d Hl Eo En Hd Hf.
  - cbn in *. rewrite app_nil_r in Eo, En. subst. split; [apply Hd|done].
  - apply Forall_cons in Hl as [[Hv Hx] Hl]. cbn [fst snd] in Hv, Hx. cbn [fmap list_fmap fst show_parts].
    set (oc := old_lines (p, t)). set (nc := new_lines (p, t)).
    assert (Eo' : ot = (bo ++ oc) ++ concat (old_lines <$> l)) by (rewrite Eo; cbn; by rewrite <- app_assoc).
    assert (En' : nt = (bn ++ nc) ++ concat (new_lines <$> l)) by (rewrite En; cbn; by rewrite <- app_assoc).
    assert (Hlt : lined t).
    { destruct (added p) eqn:Ea.
      - assert (E2 : nc = t) by (unfold nc, new_lines; cbn in *; by rewrite Hx). rewrite En', E2 in Hln.
        apply lined_app in Hln as [Hln _]. by apply lined_app in Hln as [_ ?].
      - assert (E1 : oc = t) by (unfold oc, old_lines; cbn; by rewrite Ea). rewrite Eo', E1 in Hlo.
        apply lined_app in Hlo as [Hlo _]. by apply lined_app in Hlo as [_ ?]. }
    assert (Hraw : raw_lines (value p) = strip <$> t) by (rewrite Hv; by apply raw_lines_concat).
    apply (IH (bo ++ oc) (bn ++ nc)); [done|done|done| |].
    + destruct (is_change p) eqn:Ec.
      * unfold show_change. apply reached_flags. rewrite Hraw.
        set (d0 := match firstChangedLine d with None => _ | Some _ => d end).
        assert (Hd0 : reached (strip <$> ot) (strip <$> nt) d0 (length bo) (length bn)) by (unfold d0; by destruct (firstChangedLine d)).
        unfold is_change in Ec. destruct (added p) eqn:Ea; cbn [orb andb] in *.
        -- assert (E1 : oc = []) by (unfold oc, old_lines; cbn; by rewrite Ea). assert (E2 : nc = t) by (unfold nc, new_lines; cbn; by rewrite Hx).
           rewrite E1, E2, app_nil_r. rewrite <- (length_fmap strip (bn ++ t)), fmap_app. rewrite <- (length_fmap strip bn) in Hd0.
           eapply reached_added; [|exact Hd0]. rewrite En', E2, !fmap_app, <- app_assoc. done.
        -- assert (E1 : oc = t) by (unfold oc, old_lines; cbn; by rewrite Ea). assert (E2 : nc = []) by (unfold nc, new_lines; cbn; by rewrite Ec).
           rewrite E1, E2, app_nil_r. rewrite <- (length_fmap strip (bo ++ t)), fmap_app. rewrite <- (length_fmap strip bo) in Hd0.
           eapply reached_removed; [|exact Hd0]. rewrite Eo', E1, !fmap_app, <- app_assoc. done.
      * unfold is_change in Ec. apply orb_false_iff in Ec as [Ea Er].
        assert (E1 : oc = t) by (unfold oc, old_lines; cbn; by rewrite Ea). assert (E2 : nc = t) by (unfold nc, new_lines; cbn; by rewrite Er).
        rewrite E1, E2. rewrite length_app, (length_app bn), <- (length_fmap strip t), <- (length_fmap strip bo), <- length_app.
        rewrite <- (length_fmap strip bo) in Hd. eapply reached_context; [done| |exact Hd]. rewrite Eo', E1, !fmap_app, <- app_assoc. done.
    + destruct (is_change p) eqn:Ec.
      * rewrite first_change_kept. destruct (firstChangedLine d) as [n|]; cbn in Hf |- *.
        -- destruct Hf as (c & o & k & -> & -> & ->). exists c, (o ++ oc), (k ++ nc). by rewrite <- !app_assoc.
        -- subst bn. exists bo, oc, nc. destruct Hd as (_ & -> & _). split_and!; [done|done|unfold zlen; lia].
      * rewrite context_first. unfold is_change in Ec. apply orb_false_iff in Ec as [Ea Er].
        assert (E1 : oc = t) by (unfold oc, old_lines; cbn; by rewrite Ea). assert (E2 : nc = t) by (unfold nc, new_lines; cbn; by rewrite Er). rewrite E1, E2.
        destruct (firstChangedLine d) as [n|]; cbn in Hf |- *; [|by rewrite Hf].
        destruct Hf as (c & o & k & -> & -> & ->). exists c, (o ++ t), (k ++ t). by rewrite <- !app_assoc.
Qed.

(** The numbers in the difference that is shown are right: an added line is the line of the new
    text with its number, a removed line and a line of context are lines of the old text,
    and the texts agree before the line that is said to change first. *)
Theorem shown_lines_are_numbered diffLines contextLines old new : partitions (diffLines old new) old new →
  Forall (numbered (raw_lines old) (raw_lines new)) (output (display diffLines old new contextLines))
  ∧ differ_at (snd (generateDiffString diffLines old new contextLines)) (splitLinesWithEndings old) (splitLinesWithEndings new).
Proof.
  intros (l & Hl & Hf & Ho & Hn).
  assert (Hraw : ∀ s, raw_lines s = strip <$> splitLinesWithEndings s).
  { intros s. rewrite <- (concat_splitLines s) at 1. apply raw_lines_concat, lined_splitLines. }
  rewrite !Hraw. unfold generateDiffString, display. cbn [snd]. rewrite <- Hl.
  apply (show_parts_ok contextLines _ _ l [] []); try done; [apply lined_splitLines|apply lined_splitLines].
Qed.

(** ** What the edit tool writes *)

Section EditTool.
Context (diffLines : jsstr → jsstr → list Part) (nfkc : jsstr → jsstr) (createPatch : jsstr → jsstr → jsstr → jsstr).

(** The line endings of a text are all alike. *)
Definition uniform (content : jsstr) : Prop := 13 ∉ content ∨ ∃ t, 13 ∉ t ∧ 10 ∈ t ∧ content = to_crlf t.

Lemma stripBom_app t : t = (stripBom t).1 ++ (stripBom t).2.
Proof. unfold stripBom. destruct t as [|u t]; [done|]. destruct (u =? BOM) eqn:E; [|done]. bool_prop. by subst. Qed.

(** C27. The edit tool writes a file only when it was not aborted, the file could be read and every
    edit applied, and then it writes the edited text.  When the searches are exact and the
    line endings of the file are all alike, the file before and after is the same byte-order
    mark and the same gaps, with the same line endings, around the old and the new texts. *)
Theorem edit_tool_writes_the_edited_text path edits a w : (edit_in_turn diffLines nfkc createPatch path edits a).1 = Some w →
  aborted_at_first a = false ∧ aborted_after_read a = false ∧ aborted_after_edit a = false
  ∧ ∃ t applied, text a = Ok t ∧ edit_text nfkc path t edits = Ok (w, applied)
    ∧ (needs_fuzzy nfkc (normalizeToLF (stripBom t).2) (normalized_edit <$> edits) = false → uniform (stripBom t).2 →
       ∃ bom e ps tail, ps.*2 ≡ₚ normalized_edit <$> edits
         ∧ t = bom ++ restoreLineEndings (before ps tail) e ∧ w = bom ++ restoreLineEndings (after ps tail) e).
Proof.
  unfold edit_in_turn, unless_aborted, guard_err. destruct (aborted_at_first a); [done|]. cbn. destruct (info a) as [kind|]; [|done]. cbn.
  destruct (match kind with kind_directory => true | _ => false end); [done|]. cbn. destruct (text a) as [t|]; [|done]. cbn.
  destruct (aborted_after_read a); [done|]. cbn. destruct (edit_text nfkc path t edits) as [[w' applied]|] eqn:E; [|done]. cbn.
  destruct (aborted_after_edit a); [done|]. cbn. intros [= ->]. split_and!; [done..|]. exists t, applied. split_and!; [done..|].
  intros Hf Hu. unfold edit_text in E. pose proof (stripBom_app t) as Et. destruct (stripBom t) as [bom c]. cbn [fst snd] in *.
  apply rbind_Ok in E as (ap & Hap & [= <- <-]). destruct (exact_edit_splices _ _ _ _ _ Hap Hf) as (_ & _ & ps & tail & Hp & Hc & Hn & _).
  exists bom, (detectLineEnding c), ps, tail. split_and!; [done| |by rewrite Hn]. rewrite Et at 1. f_equal. rewrite <- Hc. symmetry. by apply line_endings_restored.
Qed.

(** In its turn the tool does what the queue says of its update. *)
Lemma edit_tool_updates path edits c write :
  let r := edit_in_turn diffLines nfkc createPatch path edits (plain_answers c write) in
  match edit_update nfkc path edits c with
  | Ok new => r.1 = Some new
  | Err e => r = (None, Err e)
  end.
Proof.
  cbv zeta. unfold edit_in_turn, edit_update, plain_answers. cbn. destruct c as [t|]; [|done]. cbn.
  by destruct (edit_text nfkc path t edits) as [[new applied]|].
Qed.
End EditTool.

(** ** Reading on *)

Section Reading.
Context (runtimeBuffer : option (jsstr → Z)).
Context (byteLength_counts : ∀ byteLength s, runtimeBuffer = Some byteLength → Forall (λ u, is_unit u = true) s → byteLength s = size s).
Notation unit_str s := (Forall (λ u, is_unit u = true) s).
Notation defaults := (mkOptions None None).

Lemma head_first_fits s r l ls : unit_str s → splitLinesForCounting s = l :: ls → size l <= DEFAULT_MAX_BYTES →
  truncateHead runtimeBuffer s defaults = Some r → firstLineExceedsLimit r = false.
Proof.
  intros Hu Hs Hl. unfold truncateHead. cbn [o_maxLines o_maxBytes default]. rewrite Hs. destruct (_ && _); [by intros [= <-]|]. cbn [head mbind option_bind].
  assert (Hul : unit_str l) by (pose proof (counted_units s Hu) as H; rewrite Hs in H; by inversion H).
  rewrite (byte_length_is_size _ byteLength_counts l) by done. rewrite (proj2 (Z.ltb_ge _ _)) by lia. destruct (collect_head _ _ _ _ _ _). by intros [= <-].
Qed.

(** The page from line [k] on: it shows some lines, at least one, and names the line after
    them; or it shows all that is left. *)
Lemma page_shows path text k : unit_str text → Forall (λ l, size l <= DEFAULT_MAX_BYTES) (split_lines text) → (k < length (split_lines text))%nat →
  ∃ p, read_page runtimeBuffer path text (Some (Z.of_nat k + 1)) None = Ok p
    ∧ match nextOffset p with
      | None => shown_text p = join [10] (drop k (split_lines text))
      | Some n => ∃ m, n = Z.of_nat (k + m) + 1 ∧ (0 < m)%nat ∧ (k + m < length (split_lines text))%nat ∧ shown_text p = join [10] (take m (drop k (split_lines text)))
      end.
Proof.
  intros Hu Hsz Hk. set (all := split_lines text) in *. unfold read_page. fold all. cbv zeta.
  rewrite (proj2 (Z.eqb_neq (Z.of_nat k + 1) 0)) by lia. replace (Z.max 0 (Z.of_nat k + 1 - 1)) with (Z.of_nat k) by lia.
  rewrite (proj2 (Z.leb_gt (zlen all) (Z.of_nat k))) by (unfold zlen; lia). rewrite Nat2Z.id. set (s := join [10] (drop k all)).
  assert (Hne : drop k all ≠ []) by (intros E%(f_equal length); rewrite length_drop in E; cbn in E; lia).
  assert (Hfree : Forall (λ l, 10 ∉ l) (drop k all)) by (apply Forall_drop, split_lines_free).
  assert (Hsplit : split_lines s = drop k all) by (by apply split_lines_join).
  assert (Hus : unit_str s).
  { assert (Ht : text = join [10] all) by (symmetry; apply join_split_lines). destruct k as [|k]; [unfold s; by rewrite drop_0, <- Ht|].
    rewrite <- (take_drop (S k) all), join_app in Ht; [|destruct all; done|done]. rewrite Ht in Hu. by apply Forall_app in Hu as [_ [_ Hu]%Forall_app]. }
  (* The lines that truncation counts are these lines, less an empty last one. *)
  assert (Hcount : splitLinesForCounting s = drop k all ∧ ends_line s = false ∨ splitLinesForCounting s = removelast (drop k all) ∧ last (drop k all) = Some []).
  { destruct (decide (s = [])) as [E|Hs].
    - right. rewrite E in Hsplit. cbn in Hsplit. rewrite <- Hsplit, E. done.
    - unfold splitLinesForCounting. rewrite bool_decide_eq_false_2, Hsplit by done. destruct (ends_line s) eqn:Ee; [right|left; done]. split; [done|].
      unfold ends_line in Ee. bool_prop. apply last_Some in Ee as [s' Ee]. pose proof (split_lines_app s' []) as H. rewrite <- Ee, Hsplit in H. rewrite H.
      change (split_lines []) with [@nil Z]. by rewrite last_snoc. }
  destruct (truncateHead runtimeBuffer s defaults) as [r|] eqn:Er.
  2:{ apply (head_throws runtimeBuffer byteLength_counts s defaults Hus) in Er as [_ [Hx|Hx]]; cbn in Hx; unfold DEFAULT_MAX_LINES, DEFAULT_MAX_BYTES in Hx; lia. }
  destruct (head_longest runtimeBuffer byteLength_counts s defaults r Hus Er) as (_ & Hw & Hc & out & (Hpart & Hfit & Hmax) & Ho & _ & Hcut).
  assert (Hnw : truncated r = true → ¬ whole_fits defaults s) by (intros E1 E2%Hw; congruence).
  destruct (truncated r) eqn:Et; cycle 1.
  { assert (firstLineExceedsLimit r = false) as ->.
    { unfold truncateHead in Er. destruct (_ && _); [by injection Er as <-|]. destruct (head _); [|done]. cbn in Er. destruct (_ <? _); [by injection Er as <-|].
      destruct (collect_head _ _ _ _ _ _). by injection Er as <-. }
    eexists. split; [done|]. cbn. by apply Hc. }
  destruct (splitLinesForCounting s) as [|l ls] eqn:El.
  { exfalso. apply (Hnw eq_refl). split; rewrite ?El; cbn; [done|].
    destruct Hcount as [[E _]|[E Hlast]]; [by rewrite <- E in Hne|]. destruct (drop k all) as [|x [|y rest]] eqn:Ed; [done| |done]. injection Hlast as ->. unfold s. done. }
  assert (Hl : size l <= DEFAULT_MAX_BYTES).
  { assert (Hin : l ∈ drop k all).
    { destruct Hcount as [[E _]|[E _]]; [rewrite <- E; by left|]. destruct (drop k all) as [|x rest _] using rev_ind; [done|]. rewrite removelast_last in E.
      apply elem_of_app. left. rewrite <- E. by left. }
    apply (Forall_drop _ k) in Hsz. rewrite Forall_forall in Hsz. by apply Hsz. }
  rewrite (head_first_fits s r l ls Hus El Hl Er). cbv iota.
  assert (Hout : (0 < length out)%nat).
  { assert (Hp : [l] `prefix_of` out).
    { apply Hmax; [by exists ls|]. split; [cbn; unfold max_lines, DEFAULT_MAX_LINES, zlen; cbn; lia|cbn [weight]; exact Hl]. }
    apply prefix_length in Hp. cbn in Hp. lia. }
  assert (Hpre : out `prefix_of` drop k all).
  { destruct Hcount as [[E _]|[E _]]; [by rewrite <- E|]. etransitivity; [exact Hpart|]. rewrite E. destruct (drop k all) as [|x rest _] using rev_ind; [done|].
    rewrite removelast_last. by apply prefix_app_r. }
  assert (Hlt : (length out < length (drop k all))%nat).
  { destruct (decide (length out < length (drop k all))%nat) as [?|Hge]; [done|exfalso]. destruct Hpre as [z Hz]. rewrite Hz, length_app in Hge.
    destruct z as [|x z]; [|cbn in Hge; lia]. rewrite app_nil_r in Hz. destruct Hcount as [[E Hend]|[E Hlast]].
    - apply (Hnw eq_refl). destruct Hfit as [->|[F1 F2]]; [by rewrite Hz in Hne|]. unfold weight in F2. rewrite <- Hz in F1, F2.
      split; [by rewrite El, E|exact F2].
    - destruct Hpart as [z Hz']. apply (f_equal length) in Hz'. rewrite E, Hz, length_app in Hz'. destruct out as [|y out _] using rev_ind; [cbn in Hout; lia|].
      rewrite removelast_last, length_app in Hz'. cbn in Hz'. lia. }
  rewrite length_drop in Hlt.
  eexists. split; [done|]. cbn. exists (length out). rewrite Ho. split_and!; [unfold zlen; lia|done|lia|]. rewrite Hcut by done. f_equal.
  destruct Hpre as [z Hz]. by rewrite Hz, take_app_length.
Qed.

(** C26. Reading on as the notices say shows the whole file: when no line is longer than the limit,
    reading from the start and then from each offset that is named ends, after no more pages
    than lines, and the pages are the text cut at line breaks. *)
Theorem reading_on_shows_the_file path text : unit_str text → Forall (λ l, size l <= DEFAULT_MAX_BYTES) (split_lines text) →
  ∃ pages, read_on runtimeBuffer (length (split_lines text)) path text None = Some pages ∧ join [10] pages = text.
Proof.
  intros Hu Hsz. set (all := split_lines text).
  assert (Hgen : ∀ n k, (length all - k <= n)%nat → (k < length all)%nat →
    ∃ pages, pages ≠ [] ∧ read_on runtimeBuffer n path text (Some (Z.of_nat k + 1)) = Some pages ∧ join [10] pages = join [10] (drop k all)).
  { intros n. induction n as [|n IH]; intros k Hn Hk; [lia|]. cbn [read_on]. destruct (page_shows path text k Hu Hsz Hk) as (p & -> & Hp).
    destruct (nextOffset p) as [o|]; [|exists [shown_text p]; split_and!; [done|done|by rewrite Hp]].
    destruct Hp as (m & -> & Hm & Hkm & Hs). fold all in Hkm, Hs. destruct (IH (k + m)%nat ltac:(lia) Hkm) as (pages & Hne & -> & Hj).
    exists (shown_text p :: pages). split_and!; [done|done|]. rewrite join_cons, Hj, Hs by done. rewrite <- drop_drop.
    rewrite <- join_app; [by rewrite take_drop| |]; intros E%(f_equal length); rewrite ?length_take, ?length_drop in E; cbn in E; rewrite ?length_drop in E; lia. }
  assert (Hpos : (0 < length all)%nat) by (pose proof (split_lines_ne text); unfold all; destruct (split_lines text); [done|cbn; lia]).
  destruct (Hgen (length all) 0%nat ltac:(lia) Hpos) as (pages & _ & Hr & Hj). exists pages. rewrite drop_0 in Hj. unfold all in *. rewrite join_split_lines in Hj. split; [|done].
  rewrite <- Hr. destruct (length (split_lines text)) as [|n]; [done|]. cbn [read_on].
  assert (Hsame : read_page runtimeBuffer path text None None = read_page runtimeBuffer path text (Some (Z.of_nat 0 + 1)) None).
  { unfold read_page. change (Z.max 0 (Z.of_nat 0 + 1 - 1)) with 0. cbv zeta. change (Z.of_nat 0 + 1 =? 0) with false. cbv iota.
    destruct (_ <=? 0) eqn:E; [|done]. bool_prop. pose proof (split_lines_ne text). destruct (split_lines text) as [|x rest]; [done|]. unfold zlen in E. cbn [length] in E. lia. }
  by rewrite Hsame.
Qed.
End Reading.

(** ** Samples *)

(** The lines that two lists share at their start, and the rest of both. *)
Fixpoint shared (a b : list jsstr) : list jsstr * list jsstr * list jsstr :=
  match a, b with
  | x :: a', y :: b' => if bool_decide (x = y) then let '(c, o, n) := shared a' b' in (x :: c, o, n) else ([], a, b)
  | _, _ => ([], a, b)
  end.
(** A difference of lines: what is shared at the start, the old rest and the new one. *)
Definition sample_diff (old new : jsstr) : list Part :=
  let '(c, o, n) := shared (splitLinesWithEndings old) (splitLinesWithEndings new) in
  filter (λ p, bool_decide (value p ≠ [])) [mkPart (concat c) false false; mkPart (concat o) false true; mkPart (concat n) true false].

Definition lines_text (ls : list string) : jsstr := concat (ended <$> (js <$> ls)).
Definition old_text : jsstr := lines_text ["1"; "2"; "3"; "4"; "5"; "six"; "7"].
Definition new_text : jsstr := lines_text ["1"; "2"; "3"; "4"; "5"; "six"; "seven"; "8"].
Definition no_patch (_ _ _ : jsstr) : jsstr := [].
Definition plain_nfkc (s : jsstr) : jsstr := s.

Example difference_sample : generateDiffString sample_diff old_text new_text 4 =
  (join [10] [js "   ..."; js " 3 3"; js " 4 4"; js " 5 5"; js " 6 six"; js "-7 7"; js "+7 seven"; js "+8 8"], Some 7).
Proof. vm_compute. reflexivity. Qed.

Definition crlf_text : jsstr := BOM :: js "one" ++ [13; 10] ++ js "two" ++ [13; 10].
Definition sample_edit : Edit := mkEdit (js "two") (js "2" ++ [10] ++ js "3").
Definition sample_edit_run : option jsstr * result jsstr EditToolOutput :=
  edit_in_turn sample_diff plain_nfkc no_patch (js "f") [sample_edit] (plain_answers (Some crlf_text) (Ok ())).
Definition sample_edited : jsstr := BOM :: js "one" ++ [13; 10] ++ js "2" ++ [13; 10] ++ js "3" ++ [13; 10].

Example edit_sample : fst sample_edit_run = Some sample_edited.
Proof. vm_compute. reflexivity. Qed.

(** Of line endings that are not all alike, the first decides what the untouched lines get. *)
Example mixed_endings_are_rewritten :
  edit_update plain_nfkc (js "f") [mkEdit (js "c") (js "C")] (Some (js "a" ++ [13; 10] ++ js "b" ++ [10] ++ js "c"))
  = Ok (js "a" ++ [13; 10] ++ js "b" ++ [13; 10] ++ js "C").
Proof. vm_compute. reflexivity. Qed.

(** A write that was done is reported as an aborted one. *)
Example written_but_aborted : write_in_turn (js "f") (js "text") false (Ok ()) true = (Some (js "text"), Err ABORTED).
Proof. reflexivity. Qed.

(** A text of more lines than a page holds. *)
Definition long_text : jsstr := concat (replicate 2500 (js "x" ++ [10])).
Example read_sample : nextOffset <$> (match read_page node_buffer (js "f") long_text None None with Ok p => Some p | Err _ => None end) = Some (Some 2001).
Proof. vm_compute. reflexivity. Qed.

(** The time in the name of a screenshot. *)
Example time_sample : narrow_times (js "3 PM.png") = js "3" ++ [NARROW_NO_BREAK_SPACE] ++ js "PM.png".
Proof. reflexivity. Qed.

Lemma shown_lines_are_numbered_witness :
  partitions (sample_diff old_text new_text) old_text new_text
  ∧ Forall (numbered (raw_lines old_text) (raw_lines new_text)) (output (display sample_diff old_text new_text 4))
  ∧ differ_at (Some 7) (splitLinesWithEndings old_text) (splitLinesWithEndings new_text).
Proof.
  assert (Hp : partitions (sample_diff old_text new_text) old_text new_text).
  { exists [(mkPart (lines_text ["1"; "2"; "3"; "4"; "5"; "six"]) false false, ended <$> (js <$> ["1"; "2"; "3"; "4"; "5"; "six"]));
            (mkPart (lines_text ["7"]) false true, [ended (js "7")]); (mkPart (lines_text ["seven"; "8"]) true false, [ended (js "seven"); ended (js "8")])].
    split; [vm_compute; reflexivity|]. split; [repeat constructor|]. split; vm_compute; reflexivity. }
  split; [exact Hp|]. destruct (shown_lines_are_numbered sample_diff 4 old_text new_text Hp) as [H1 H2]. split; [exact H1|].
  assert (E : snd (generateDiffString sample_diff old_text new_text 4) = Some 7) by (vm_compute; reflexivity).
  rewrite E in H2. exact H2.
Defined.

Lemma edit_tool_writes_the_edited_text_witness :
  ∃ bom e ps tail, crlf_text = bom ++ restoreLineEndings (before ps tail) e ∧ sample_edited = bom ++ restoreLineEndings (after ps tail) e.
Proof.
  assert (E : fst sample_edit_run = Some sample_edited) by (vm_compute; reflexivity).
  destruct (edit_tool_writes_the_edited_text sample_diff plain_nfkc no_patch (js "f") [sample_edit] (plain_answers (Some crlf_text) (Ok ())) sample_edited E)
    as (_ & _ & _ & t & applied & Ht & _ & H).
  assert (Et : crlf_text = t) by (injection Ht as Ht; exact Ht). subst t.
  destruct H as (bom & e & ps & tail & _ & H1 & H2); [vm_compute; reflexivity| |exists bom, e, ps, tail; split; [exact H1|exact H2]].
  right. exists (js "one" ++ [10] ++ js "two" ++ [10]). split; [apply (bool_decide_unpack _); vm_compute; exact I|].
  split; [apply (bool_decide_unpack _); vm_compute; exact I|vm_compute; reflexivity].
Defined.

Lemma reading_on_shows_the_file_witness : ∃ pages, read_on node_buffer (length (split_lines long_text)) (js "f") long_text None = Some pages ∧ join [10] pages = long_text.
Proof.
  assert (Hu : forallb is_unit long_text = true) by (vm_compute; reflexivity).
  assert (Hl : forallb (λ l, size l <=? DEFAULT_MAX_BYTES) (split_lines long_text) = true) by (vm_compute; reflexivity).
  assert (Hb : ∀ b s, node_buffer = Some b → Forall (λ u, is_unit u = true) s → b s = size s) by (intros b s E _; injection E as <-; reflexivity).
  apply (reading_on_shows_the_file node_buffer Hb (js "f") long_text).
  - rewrite forallb_forall in Hu. apply Forall_forall. intros u H. apply Hu, list_elem_of_In, H.
  - rewrite forallb_forall in Hl. apply Forall_forall. intros l H. apply Z.leb_le, Hl, list_elem_of_In, H.
Defined.

End FileTools.
