(* ===== verification/Images.v ===== *)
(** * Images

    Models [agent/src/harness/tools/image.ts], the image formats that the read tool knows by
    the first bytes of a file and the Base64 text of its bytes, and the part of
    [agent/src/harness/tools/read.ts] that chooses between an image and a text.

    Bytes are integers from 0 to 255; the decoder of Base64 and the writer of PNG files are
    the specification, after RFC 4648 and the PNG standard.  [TextDecoder] and the image processor
    are parameters. *)
From S2P Require Import Prelude JsString Truncate FileTools.

Module Images.
Import Truncate FileTools.

(** ** Reading bytes *)

Definition byte_at (buffer : list Z) (i : Z) : option Z := if i <? 0 then None else buffer !! Z.to_nat i.
(** [buffer[i] ?? 0] *)
Definition byte_or_0 (buffer : list Z) (i : Z) : Z := default 0 (byte_at buffer i).

Definition readUint16LE (buffer : list Z) (offset : Z) : Z := byte_or_0 buffer offset + Z.shiftl (byte_or_0 buffer (offset + 1)) 8.
Definition readUint32BE (buffer : list Z) (offset : Z) : Z :=
  byte_or_0 buffer offset * 0x1000000 + Z.shiftl (byte_or_0 buffer (offset + 1)) 16 + Z.shiftl (byte_or_0 buffer (offset + 2)) 8 + byte_or_0 buffer (offset + 3).
Definition readUint32LE (buffer : list Z) (offset : Z) : Z :=
  byte_or_0 buffer offset + Z.shiftl (byte_or_0 buffer (offset + 1)) 8 + Z.shiftl (byte_or_0 buffer (offset + 2)) 16 + byte_or_0 buffer (offset + 3) * 0x1000000.

(** The bytes of the buffer from an offset on are these: the loops of [startsWith] and
    [startsWithAscii]. *)
Fixpoint matches_at (buffer : list Z) (offset : Z) (bytes : list Z) : bool :=
  match bytes with
  | [] => true
  | b :: bytes => bool_decide (byte_at buffer offset = Some b) && matches_at buffer (offset + 1) bytes
  end.
Definition startsWithAscii (buffer : list Z) (offset : Z) (text : jsstr) : bool :=
  if zlen buffer <? offset + zlen text then false else matches_at buffer offset text.
(** [startsWith(buffer, bytes)] *)
Definition startsWithBytes (buffer bytes : list Z) : bool := if zlen buffer <? zlen bytes then false else matches_at buffer 0 bytes.

(** ** The formats *)

Definition PNG_SIGNATURE : list Z := [0x89; 0x50; 0x4e; 0x47; 0x0d; 0x0a; 0x1a; 0x0a].

Definition isPng (buffer : list Z) : bool :=
  (16 <=? zlen buffer) && (readUint32BE buffer (zlen PNG_SIGNATURE) =? 13) && startsWithAscii buffer 12 (js "IHDR").

(** The loop over the chunks.  Each round passes twelve bytes at least, so that the length of
    the buffer is fuel enough ([animated_fuel]). *)
Fixpoint animated_from (fuel : nat) (buffer : list Z) (offset : Z) : bool :=
  match fuel with
  | O => false
  | S fuel =>
      if offset + 8 <=? zlen buffer then
        let chunkLength := readUint32BE buffer offset in
        let chunkTypeOffset := offset + 4 in
        if startsWithAscii buffer chunkTypeOffset (js "acTL") then true
        else if startsWithAscii buffer chunkTypeOffset (js "IDAT") then false
        else
          let nextOffset := offset + 8 + chunkLength + 4 in
          if (nextOffset <=? offset) || (zlen buffer <? nextOffset) then false else animated_from fuel buffer nextOffset
      else false
  end.
Definition isAnimatedPng (buffer : list Z) : bool := animated_from (length buffer) buffer (zlen PNG_SIGNATURE).

Definition isBmp (buffer : list Z) : bool :=
  if zlen buffer <? 26 then false
  else
    let declaredFileSize := readUint32LE buffer 2 in
    let pixelDataOffset := readUint32LE buffer 10 in
    let dibHeaderSize := readUint32LE buffer 14 in
    if negb (declaredFileSize =? 0) && (declaredFileSize <? 26) then false
    else if pixelDataOffset <? 14 + dibHeaderSize then false
    else if negb (declaredFileSize =? 0) && (declaredFileSize <=? pixelDataOffset) then false
    else
      let plausible (colorPlanes bitsPerPixel : Z) := (colorPlanes =? 1) && bool_decide (bitsPerPixel ∈ [1; 4; 8; 16; 24; 32]) in
      if dibHeaderSize =? 12 then plausible (readUint16LE buffer 22) (readUint16LE buffer 24)
      else if (40 <=? dibHeaderSize) && (dibHeaderSize <=? 124) then
        if zlen buffer <? 30 then false else plausible (readUint16LE buffer 26) (readUint16LE buffer 28)
      else false.

Definition detectSupportedImageMimeType (buffer : list Z) : option jsstr :=
  if startsWithBytes buffer [0xff; 0xd8; 0xff] then if bool_decide (byte_at buffer 3 = Some 0xf7) then None else Some (js "image/jpeg")
  else if startsWithBytes buffer PNG_SIGNATURE then if isPng buffer && negb (isAnimatedPng buffer) then Some (js "image/png") else None
  else if startsWithAscii buffer 0 (js "GIF87a") || startsWithAscii buffer 0 (js "GIF89a") then Some (js "image/gif")
  else if startsWithAscii buffer 0 (js "RIFF") && startsWithAscii buffer 8 (js "WEBP") then Some (js "image/webp")
  else if startsWithAscii buffer 0 (js "BM") && isBmp buffer then Some (js "image/bmp")
  else None.

(** ** Base64 *)

Definition alphabet : jsstr := js "ABCDEFGHIJKLMNOPQRSTUVWXYZabcdefghijklmnopqrstuvwxyz0123456789+/".
(** [alphabet[n]] *)
Definition letter (n : Z) : Z := default 0 (byte_at alphabet n).

Definition second_digit (first second : Z) : Z := Z.lor (Z.shiftl (Z.land first 0x03) 4) (Z.shiftr second 4).
Definition third_digit (second third : Z) : Z := Z.lor (Z.shiftl (Z.land second 0x0f) 2) (Z.shiftr third 6).
Definition encode_group (first : Z) (second third : option Z) : jsstr :=
  [letter (Z.shiftr first 2); letter (second_digit first (default 0 second));
   match second with None => 61 | Some second => letter (third_digit second (default 0 third)) end;
   match third with None => 61 | Some third => letter (Z.land third 0x3f) end].
Fixpoint encodeBase64 (bytes : list Z) : jsstr :=
  match bytes with
  | [] => []
  | [first] => encode_group first None None
  | [first; second] => encode_group first (Some second) None
  | first :: second :: third :: bytes => encode_group first (Some second) (Some third) ++ encodeBase64 bytes
  end.

(** ** What the read tool answers *)

Inductive ReadPart := text_part (text : jsstr) | image_part (data mimeType : jsstr).
Inductive ProcessorResult := processed (data mimeType : jsstr) (hints : list jsstr) | unprocessed (message : jsstr).

Definition read_image (imageProcessor : option (list Z → jsstr → ProcessorResult)) (bytes : list Z) (mimeType : jsstr) : list ReadPart :=
  let said (mimeType : jsstr) := js "Read image file [" ++ mimeType ++ js "]" in
  match imageProcessor with
  | Some process =>
      match process bytes mimeType with
      | unprocessed message => [text_part (said mimeType ++ [10] ++ message)]
      | processed data mimeType hints =>
          [text_part (said mimeType ++ (if bool_decide (hints = []) then [] else [10] ++ join [10] hints)); image_part data mimeType]
      end
  | None =>
      if bool_decide (mimeType = js "image/bmp") then
        [text_part (said mimeType ++ [10] ++ js "[Image omitted: configure an imageProcessor to convert BMP images.]")]
      else [text_part (said mimeType); image_part (encodeBase64 bytes) mimeType]
  end.

Definition read_file (runtimeBuffer : option (jsstr → Z)) (decode : list Z → jsstr) (imageProcessor : option (list Z → jsstr → ProcessorResult))
  (path : jsstr) (bytes : result FileError (list Z)) (offset limit : option Z) : result jsstr (list ReadPart * option TruncationResult) :=
  let* bytes := getOrThrow bytes in
  match detectSupportedImageMimeType bytes with
  | Some mimeType => Ok (read_image imageProcessor bytes mimeType, None)
  | None => let* page := read_page runtimeBuffer path (decode bytes) offset limit in Ok ([text_part (outputText page)], details page)
  end.

(** ** Base64 is read back *)

(** The decoder: four letters of the alphabet give three bytes; an equals sign stands for what is
    missing at the end. *)
Definition digit (u : Z) : option Z := (Z.of_nat ∘ fst) <$> list_find (eq u) alphabet.
Fixpoint decodeBase64 (s : jsstr) : option (list Z) :=
  match s with
  | [] => Some []
  | u1 :: u2 :: u3 :: u4 :: s =>
      d1 ← digit u1; d2 ← digit u2;
      let b1 := Z.lor (Z.shiftl d1 2) (Z.shiftr d2 4) in
      if (u3 =? 61) && (u4 =? 61) && bool_decide (s = []) then Some [b1]
      else
        d3 ← digit u3;
        let b2 := Z.lor (Z.shiftl (Z.land d2 0x0f) 4) (Z.shiftr d3 2) in
        if (u4 =? 61) && bool_decide (s = []) then Some [b1; b2]
        else d4 ← digit u4; bs ← decodeBase64 s; Some (b1 :: b2 :: Z.lor (Z.shiftl (Z.land d3 0x03) 6) d4 :: bs)
  | _ => None
  end.

Definition is_byte (b : Z) : bool := (0 <=? b) && (b <? 256).
Notation byte_str bs := (Forall (λ b, is_byte b = true) bs).

(** Bytes and digits are few enough to go through. *)
Lemma seqZ_all n (P : Z → bool) : forallb P (seqZ 0 n) = true → ∀ z, 0 <= z < n → P z = true.
Proof. intros H z Hz. rewrite forallb_forall in H. apply H, list_elem_of_In, elem_of_seqZ. lia. Qed.
Lemma bytes_all (P : Z → bool) : forallb P (seqZ 0 256) = true → ∀ b, is_byte b = true → P b = true.
Proof. intros H b Hb. unfold is_byte in Hb. bool_prop. apply (seqZ_all 256 P H). lia. Qed.
Lemma bytes_all2 (P : Z → Z → bool) : forallb (λ a, forallb (P a) (seqZ 0 256)) (seqZ 0 256) = true → ∀ a b, is_byte a = true → is_byte b = true → P a b = true.
Proof. intros H a b Ha Hb. by apply (bytes_all (P a)); [apply (bytes_all (λ a, forallb (P a) (seqZ 0 256)))|]. Qed.

Lemma digit_letter d : 0 <= d < 64 → digit (letter d) = Some d ∧ letter d ≠ 61.
Proof.
  intros H. assert (E : bool_decide (digit (letter d) = Some d) && negb (letter d =? 61) = true); [|by bool_prop].
  revert d H. apply (seqZ_all 64 (λ d, bool_decide (digit (letter d) = Some d) && negb (letter d =? 61))). by vm_compute.
Qed.

Definition is_digit (d : Z) : bool := (0 <=? d) && (d <? 64).
(** The first digit with the second give the first byte, and so on. *)
Definition second_digit_good (a b : Z) : bool :=
  is_digit (second_digit a b) && (Z.lor (Z.shiftl (Z.shiftr a 2) 2) (Z.shiftr (second_digit a b) 4) =? a) && (Z.land (second_digit a b) 0x0f =? Z.shiftr b 4).
Definition third_digit_good (b c : Z) : bool :=
  is_digit (third_digit b c) && (Z.lor (Z.shiftl (Z.shiftr b 4) 4) (Z.shiftr (third_digit b c) 2) =? b) && (Z.lor (Z.shiftl (Z.land (third_digit b c) 0x03) 6) (Z.land c 0x3f) =? c).
Lemma first_digit_ok a : is_byte a = true → is_digit (Z.shiftr a 2) = true.
Proof. apply (bytes_all (λ a, is_digit (Z.shiftr a 2))). by vm_compute. Qed.
Lemma last_digit_ok a : is_byte a = true → is_digit (Z.land a 0x3f) = true.
Proof. apply (bytes_all (λ a, is_digit (Z.land a 0x3f))). by vm_compute. Qed.
Lemma second_digit_ok a b : is_byte a = true → is_byte b = true →
  second_digit_good a b = true.
Proof. apply bytes_all2. by vm_compute. Qed.
Lemma third_digit_ok b c : is_byte b = true → is_byte c = true →
  third_digit_good b c = true.
Proof. apply bytes_all2. by vm_compute. Qed.

Lemma second_digit_split a b : second_digit_good a b = true →
  is_digit (second_digit a b) = true ∧ Z.lor (Z.shiftl (Z.shiftr a 2) 2) (Z.shiftr (second_digit a b) 4) = a ∧ Z.land (second_digit a b) 0x0f = Z.shiftr b 4.
Proof. unfold second_digit_good. rewrite !andb_true_iff, !Z.eqb_eq. tauto. Qed.
Lemma third_digit_split b c : third_digit_good b c = true →
  is_digit (third_digit b c) = true ∧ Z.lor (Z.shiftl (Z.shiftr b 4) 4) (Z.shiftr (third_digit b c) 2) = b ∧ Z.lor (Z.shiftl (Z.land (third_digit b c) 0x03) 6) (Z.land c 0x3f) = c.
Proof. unfold third_digit_good. rewrite !andb_true_iff, !Z.eqb_eq. tauto. Qed.
Lemma letter_digit d : is_digit d = true → digit (letter d) = Some d ∧ (letter d =? 61) = false.
Proof. unfold is_digit. intros H. bool_prop. destruct (digit_letter d) as [? ?]; [lia|]. split; [done|by apply Z.eqb_neq]. Qed.

Lemma bytes_by_three (P : list Z → Prop) : P [] → (∀ a, P [a]) → (∀ a b, P [a; b]) → (∀ a b c bs, P bs → P (a :: b :: c :: bs)) → ∀ bs, P bs.
Proof.
  intros H0 H1 H2 H3. assert (G : ∀ n bs, (length bs <= n)%nat → P bs); [|intros bs; by apply (G (length bs))].
  induction n as [|n IH]; intros bs Hn; [by destruct bs; cbn in Hn; [|lia]|].
  destruct bs as [|a [|b [|c bs]]]; [done..|]. apply H3, IH. cbn in Hn. lia.
Qed.

Lemma base64_read_back bs : byte_str bs → decodeBase64 (encodeBase64 bs) = Some bs.
Proof.
  induction bs as [|a|a b|a b c bs IH] using bytes_by_three; [done|..].
  - intros [Ha _]%Forall_cons. pose proof (second_digit_ok a 0 Ha eq_refl) as E2. apply second_digit_split in E2 as (E2 & F2 & _).
    cbn [encodeBase64 encode_group default decodeBase64 from_option].
    destruct (letter_digit _ (first_digit_ok a Ha)) as [-> _]. destruct (letter_digit _ E2) as [-> _]. cbn. by rewrite F2.
  - intros [Ha [Hb _]%Forall_cons]%Forall_cons. pose proof (second_digit_ok a b Ha Hb) as E2. pose proof (third_digit_ok b 0 Hb eq_refl) as E3. apply second_digit_split in E2 as (E2 & F2 & G2). apply third_digit_split in E3 as (E3 & F3 & _).
    cbn [encodeBase64 encode_group default decodeBase64 from_option id].
    destruct (letter_digit _ (first_digit_ok a Ha)) as [-> _]. destruct (letter_digit _ E2) as [-> _]. destruct (letter_digit _ E3) as [-> ->].
    cbn. by rewrite F2, G2, F3.
  - intros [Ha [Hb [Hc Hbs]%Forall_cons]%Forall_cons]%Forall_cons. pose proof (second_digit_ok a b Ha Hb) as E2. pose proof (third_digit_ok b c Hb Hc) as E3. apply second_digit_split in E2 as (E2 & F2 & G2). apply third_digit_split in E3 as (E3 & F3 & G3).
    cbn [encodeBase64 encode_group default decodeBase64 from_option id app].
    destruct (letter_digit _ (first_digit_ok a Ha)) as [-> _]. destruct (letter_digit _ E2) as [-> _]. destruct (letter_digit _ E3) as [-> ->].
    destruct (letter_digit _ (last_digit_ok c Hc)) as [-> ->]. cbn. by rewrite (IH Hbs), F2, G2, F3, G3.
Qed.

Lemma length_base64 bs : zlen (encodeBase64 bs) = 4 * ((zlen bs + 2) / 3).
Proof.
  unfold zlen. induction bs as [|a|a b|a b c bs IH] using bytes_by_three; [done..|].
  change (encodeBase64 (a :: b :: c :: bs)) with (encode_group a (Some b) (Some c) ++ encodeBase64 bs). rewrite length_app. cbn [length encode_group].
  replace (Z.of_nat (S (S (S (length bs)))) + 2) with ((Z.of_nat (length bs) + 2) + 1 * 3) by lia. rewrite Z.div_add by lia. lia.
Qed.

(** The Base64 text of an image is read back: the decoder of RFC 4648 gives the bytes of
    the file again, and the text has four letters for every three bytes begun. *)
Theorem base64_roundtrip bytes : byte_str bytes → decodeBase64 (encodeBase64 bytes) = Some bytes ∧ zlen (encodeBase64 bytes) = 4 * ((zlen bytes + 2) / 3).
Proof. intros H. split; [by apply base64_read_back|apply length_base64]. Qed.

(** ** PNG files *)

Record chunk := mkChunk { c_type : list Z; c_data : list Z; c_crc : list Z }.
Definition be32 (n : Z) : list Z := [n / 0x1000000; n / 0x10000 mod 256; n / 0x100 mod 256; n mod 256].
Definition write_chunk (c : chunk) : list Z := be32 (zlen (c_data c)) ++ c_type c ++ c_data c ++ c_crc c.
Definition chunk_ok (c : chunk) : Prop := length (c_type c) = 4%nat ∧ length (c_crc c) = 4%nat ∧ zlen (c_data c) < 2 ^ 32.
Definition png (chunks : list chunk) : list Z := PNG_SIGNATURE ++ concat (write_chunk <$> chunks).

(** The PNG standard's rule for animations: [acTL] comes before the first [IDAT]. *)
Fixpoint is_animation (chunks : list chunk) : bool :=
  match chunks with
  | [] => false
  | c :: chunks => if bool_decide (c_type c = js "acTL") then true else if bool_decide (c_type c = js "IDAT") then false else is_animation chunks
  end.

Lemma byte_at_app a x b : byte_at (a ++ x :: b) (zlen a) = Some x.
Proof. unfold byte_at, zlen. rewrite (proj2 (Z.ltb_ge _ _)) by lia. rewrite Nat2Z.id. by apply list_lookup_middle. Qed.
Lemma byte_at_next a x y b : byte_at (a ++ x :: y :: b) (zlen a + 1) = Some y.
Proof. replace (zlen a + 1) with (zlen (a ++ [x])) by (unfold zlen; rewrite length_app; cbn; lia). by rewrite <- (byte_at_app (a ++ [x]) y b), <- app_assoc. Qed.

Lemma read_be32 a n b : 0 <= n < 2 ^ 32 → readUint32BE (a ++ be32 n ++ b) (zlen a) = n.
Proof.
  intros Hn. unfold readUint32BE, byte_or_0, be32. cbn [app].
  set (x := n / 0x1000000). set (y := n / 0x10000 mod 256). set (z := n / 0x100 mod 256). set (w := n mod 256).
  rewrite byte_at_app, byte_at_next.
  replace (zlen a + 2) with (zlen (a ++ [x]) + 1) by (unfold zlen; rewrite length_app; cbn; lia).
  replace (a ++ x :: y :: z :: w :: b) with ((a ++ [x]) ++ y :: z :: w :: b) by (by rewrite <- app_assoc). rewrite byte_at_next.
  replace (zlen a + 3) with (zlen ((a ++ [x]) ++ [y]) + 1) by (unfold zlen; rewrite !length_app; cbn; lia).
  replace ((a ++ [x]) ++ y :: z :: w :: b) with (((a ++ [x]) ++ [y]) ++ z :: w :: b) by (by rewrite <- !app_assoc). rewrite byte_at_next.
  cbn [default from_option id]. rewrite !Z.shiftl_mul_pow2 by lia. unfold x, y, z, w. Z.to_euclidean_division_equations. lia.
Qed.

Lemma matches_here a t b text : length t = length text → matches_at (a ++ t ++ b) (zlen a) text = bool_decide (t = text).
Proof.
  revert a t. induction text as [|u text IH]; intros a t Hl; destruct t as [|v t]; try done. cbn [matches_at app]. rewrite byte_at_app.
  assert (E : matches_at (a ++ v :: t ++ b) (zlen a + 1) text = bool_decide (t = text)).
  { injection Hl as Hl. replace (zlen a + 1) with (zlen (a ++ [v])) by (unfold zlen; rewrite length_app; cbn; lia). rewrite <- (IH (a ++ [v]) t Hl). by rewrite <- app_assoc. }
  rewrite E. repeat case_bool_decide; naive_solver.
Qed.
Lemma ascii_here a t b text : length t = length text → startsWithAscii (a ++ t ++ b) (zlen a) text = bool_decide (t = text).
Proof.
  intros Hl. unfold startsWithAscii. rewrite (proj2 (Z.ltb_ge _ _)) by (unfold zlen; rewrite !length_app; lia). by apply matches_here.
Qed.

(** The loop has gone through its buffer when its fuel is used up. *)
Lemma animated_fuel fuel k buffer offset : zlen buffer - offset <= Z.of_nat fuel → animated_from (fuel + k) buffer offset = animated_from fuel buffer offset.
Proof.
  revert offset. induction fuel as [|fuel IH]; intros offset H; cbn [Nat.add animated_from].
  - destruct k; cbn [animated_from]; [done|]. by rewrite (proj2 (Z.leb_gt _ _)) by lia.
  - destruct (_ <=? _); [|done]. destruct (startsWithAscii _ _ _); [done|]. destruct (startsWithAscii _ _ _); [done|].
    destruct (_ || _) eqn:E; [done|]. apply orb_false_iff in E as [E _]. apply IH. apply Z.leb_gt in E. lia.
Qed.

Lemma length_chunk c : chunk_ok c → zlen (write_chunk c) = zlen (c_data c) + 12.
Proof. intros (H1 & H2 & _). unfold write_chunk, zlen. rewrite !length_app. cbn [length be32]. lia. Qed.

Lemma animated_chunks cs fuel a : Forall chunk_ok cs → (length cs <= fuel)%nat → animated_from fuel (a ++ concat (write_chunk <$> cs)) (zlen a) = is_animation cs.
Proof.
  intros Hcs. revert fuel a. induction Hcs as [|c cs Hc Hcs IH]; intros fuel a Hf.
  - destruct fuel; [done|]. cbn [animated_from fmap list_fmap concat]. rewrite app_nil_r, (proj2 (Z.leb_gt _ _)) by lia. done.
  - destruct fuel as [|fuel]; [cbn in Hf; lia|]. cbn [fmap list_fmap concat is_animation]. set (rest := concat (write_chunk <$> cs)).
    pose proof (length_chunk c Hc) as Hlen. destruct Hc as (H1 & H2 & H3). cbn [animated_from].
    assert (Hz : zlen (a ++ write_chunk c ++ rest) = zlen a + (zlen (c_data c) + 12) + zlen rest) by (rewrite <- Hlen; unfold zlen; rewrite !length_app; lia).
    assert (Hd : 0 <= zlen (c_data c)) by (unfold zlen; lia). assert (Hrest : 0 <= zlen rest) by (unfold zlen; lia).
    set (buffer := a ++ write_chunk c ++ rest) in *.
    assert (Hb : buffer = (a ++ be32 (zlen (c_data c))) ++ c_type c ++ (c_data c ++ c_crc c ++ rest)) by (unfold buffer, write_chunk; by rewrite <- !app_assoc).
    assert (Hread : readUint32BE buffer (zlen a) = zlen (c_data c)) by (rewrite Hb, <- app_assoc; by apply read_be32).
    rewrite Hz, (proj2 (Z.leb_le _ _)), Hread by lia.
    replace (zlen a + 4) with (zlen (a ++ be32 (zlen (c_data c)))) by (unfold zlen; rewrite length_app; cbn; lia).
    assert (Hascii : ∀ text, length text = 4%nat → startsWithAscii buffer (zlen (a ++ be32 (zlen (c_data c)))) text = bool_decide (c_type c = text)).
    { intros text Hl. rewrite Hb. apply ascii_here. by rewrite H1. }
    rewrite !Hascii by done.
    case_bool_decide; [done|]. case_bool_decide; [done|].
    rewrite (proj2 (orb_false_iff _ _)) by (split; [apply Z.leb_gt|apply Z.ltb_ge]; lia).
    replace (zlen a + 8 + zlen (c_data c) + 4) with (zlen (a ++ write_chunk c)) by (unfold zlen in *; rewrite length_app; lia).
    rewrite <- (IH fuel (a ++ write_chunk c)) by (cbn in Hf; lia). f_equal. unfold buffer. by rewrite <- app_assoc.
Qed.

(** A PNG file, that is the signature and well-formed chunks of which the first is the header, is
    shown as an image unless it is an animation: exactly then an [acTL] chunk comes before the
    image data. *)
Theorem png_is_shown_unless_animated header chunks : c_type header = js "IHDR" → zlen (c_data header) = 13 → Forall chunk_ok (header :: chunks) →
  detectSupportedImageMimeType (png (header :: chunks)) = if is_animation chunks then None else Some (js "image/png").
Proof.
  intros Ht Hd Hok. set (file := png (header :: chunks)).
  assert (Hc : chunk_ok header) by (by apply Forall_cons in Hok as [? _]). pose proof (length_chunk header Hc) as Hlen.
  assert (Efile : file = PNG_SIGNATURE ++ be32 13 ++ js "IHDR" ++ (c_data header ++ c_crc header ++ concat (write_chunk <$> chunks))).
  { unfold file, png. cbn [fmap list_fmap concat]. unfold write_chunk at 1. by rewrite Hd, Ht, <- !app_assoc. }
  assert (Hz : 33 <= zlen file).
  { unfold file, png, zlen in *. cbn [fmap list_fmap concat]. rewrite !length_app. cbn [length PNG_SIGNATURE]. lia. }
  assert (Hanim : isAnimatedPng file = is_animation chunks).
  { unfold isAnimatedPng. unfold file at 2, png. rewrite animated_chunks; [|done|].
    - cbn [is_animation]. by rewrite Ht.
    - unfold file, png. rewrite length_app. assert (G : (length (header :: chunks) <= length (concat (write_chunk <$> header :: chunks)))%nat); [|lia].
      clear -Hok. induction Hok as [|c cs Hc _ IH]; [done|]. cbn [fmap list_fmap concat length]. rewrite length_app. pose proof (length_chunk c Hc) as H. unfold zlen in H. cbn in IH. lia. }
  assert (Hpng : isPng file = true).
  { unfold isPng. rewrite (proj2 (Z.leb_le _ _)) by lia. rewrite Efile, read_be32 by lia.
    change 12 with (zlen (PNG_SIGNATURE ++ be32 13)). rewrite (app_assoc PNG_SIGNATURE (be32 13)). by rewrite ascii_here. }
  assert (Hsig : startsWithBytes file PNG_SIGNATURE = true).
  { unfold startsWithBytes. rewrite (proj2 (Z.ltb_ge _ _)) by (change (zlen PNG_SIGNATURE) with 8; lia). rewrite Efile.
    exact (eq_trans (matches_here [] PNG_SIGNATURE _ PNG_SIGNATURE eq_refl) (bool_decide_eq_true_2 _ eq_refl)). }
  assert (Hjpeg : startsWithBytes file [0xff; 0xd8; 0xff] = false).
  { unfold startsWithBytes. rewrite (proj2 (Z.ltb_ge _ _)) by (change (zlen [0xff; 0xd8; 0xff]) with 3; lia). by rewrite Efile. }
  unfold detectSupportedImageMimeType. rewrite Hjpeg, Hsig, Hpng, Hanim. by destruct (is_animation chunks).
Qed.

(** ** Samples *)

Definition sample_header : chunk := mkChunk (js "IHDR") (replicate 13 1) [1; 2; 3; 4].
Definition sample_chunk (t : string) : chunk := mkChunk (js t) [7; 7] [1; 2; 3; 4].

Example encoded_sample : encodeBase64 (js "Many") = js "TWFueQ==".
Proof. reflexivity. Qed.
Example shown_sample : read_file node_buffer (λ bs, bs) None (js "f") (Ok (js "GIF89a")) None None
  = Ok ([text_part (js "Read image file [image/gif]"); image_part (js "R0lGODlh") (js "image/gif")], None).
Proof. reflexivity. Qed.
Definition sample_bmp (planes : Z) : list Z := js "BM" ++ [0; 0; 0; 0] ++ [0; 0; 0; 0] ++ [26; 0; 0; 0] ++ [12; 0; 0; 0] ++ [1; 0; 1; 0] ++ [planes; 0; 24; 0].
Example bmp_sample : detectSupportedImageMimeType <$> [sample_bmp 1; sample_bmp 2] = [Some (js "image/bmp"); None].
Proof. vm_compute. reflexivity. Qed.
Example animated_sample : detectSupportedImageMimeType (png [sample_header; sample_chunk "acTL"; sample_chunk "IDAT"]) = None.
Proof. vm_compute. reflexivity. Qed.

Lemma base64_roundtrip_witness : decodeBase64 (encodeBase64 [0; 255; 128; 7]) = Some [0; 255; 128; 7].
Proof. apply (base64_roundtrip [0; 255; 128; 7]). repeat (constructor; [reflexivity|]). constructor. Defined.

Lemma png_is_shown_unless_animated_witness :
  detectSupportedImageMimeType (png [sample_header; sample_chunk "tEXt"; sample_chunk "IDAT"; sample_chunk "acTL"]) = Some (js "image/png").
Proof.
  refine (png_is_shown_unless_animated sample_header [sample_chunk "tEXt"; sample_chunk "IDAT"; sample_chunk "acTL"] _ _ _); [reflexivity|reflexivity|].
  repeat (constructor; [split; [reflexivity|split; [reflexivity|vm_compute; reflexivity]]|]). constructor.
Defined.

End Images.
